(* ===== verification/_CoqProject ===== *)
-Q . S2P
Prelude.v
TurnLimiter.v
OwnerLocks.v
Json.v
Ledger.v
Peer.v
Routing.v
Query.v
Gate.v
SessionManager.v
StreamSanitizer.v
PosixAcl.v
UidIsolation.v
Quota.v
Outbox.v
Handoff.v
Subscription.v
AppServer.v
AppServerViews.v
AppServerLaws.v
CodexResponse.v
CodexStream.v
CodexStreamLaws.v
CodexParity.v
CodexRequest.v
CodexRequestLaws.v
Raise.v
CollabFilter.v
Chunks.v
Progress.v
ResponsesStream.v
ResponsesStreamLaws.v
ResponsesTurn.v
TurnState.v
TurnRace.v
TurnLaws.v
Regex.v
Redaction.v
RedactionLaws.v
RedactionMask.v
RedactionCarry.v
RedactionStream.v
Bridge.v
BridgeLaws.v
BridgeBlocks.v
BridgeAnswer.v
Proxy.v
ProxyLaws.v
AppPolicy.v
AppInteraction.v
AppTurn.v
AppTurnLaws.v
