(* ===== verification/Prelude.v ===== *)
(** * Oh My Gateway: a verification development

    Oh My Gateway is an HTTP gateway (Python, asyncio) that drives one agent CLI
    subprocess per conversation.  Its core is not the HTTP surface but the state it
    keeps between requests: which turns may run, which process owns a session, which
    sessions are live and what is given away when they end, and where a request is
    served while one gateway process replaces another.  This library models that
    state and those operations, and proves what they promise.

    ** The parts and the files

    - [Prelude]: this file.  Errors as a sum ([result]), Python dictionaries in
      insertion order ([odict]), counting, strings ([str] as text in Stdlib strings),
      [int()] parsing, and the tactics and hints the other files share.
    - [TurnLimiter] ([src/src/concurrency.py]): admission of turns, its FIFO queue,
      slots, futures and loop callbacks.
    - [OwnerLocks] ([src/src/handoff/owners.py]): one lock file per session id shared
      by several processes, system call by system call.
    - [Json]: the values of [json.loads] the gateway reads.
    - [Ledger] ([src/src/handoff/ledger.py]): dispatch ids taken in or refused.
    - [Peer] ([src/src/handoff/peer.py], [src/src/handoff/drain.py], the lookup of
      [src/src/instance_registry.py]): signed calls and the drain target.
    - [Routing] ([src/src/handoff/middleware.py]): where a request is served, forwarding
      and retrying, the internal endpoints.
    - [SessionManager] ([src/src/session_manager.py]): the live sessions, expiry,
      eviction, teardown, client start, hand-off.
    - [StreamSanitizer] ([src/src/sanitizer/stream_sanitizer.py]): the clean-up of the
      Messages event stream.
    - [PosixAcl] ([src/src/backends/claude/posix_acl.py]): the bytes of an ACL and the
      grant of a directory tree.
    - [UidIsolation] ([src/src/backends/claude/uid_isolation.py]): uid bands, the registry of
      named users, the pool of leases, spawn tickets.
    - [Quota] ([src/src/workspace_quota.py]): the usage of a user's workspace and the check
      before it grows.
    - [Outbox] ([src/src/session_outbox.py], the poll of [src/src/routes/sessions.py]): the
      events between turns, their pollers, and the registry of running tasks.
    - [Handoff]: the sender's loop of [Routing] together with the [Ledger]s of the instances
      it forwards to, through the interface [DispatchTable].
    - [Subscription], [AppServer], [AppServerViews], [AppServerLaws]
      ([src/src/backends/appserver/transport.py]): the JSON-RPC process behind its pipes.
      [AppServer] is the transport as interleaved events ([exec]); [AppServerViews] says what
      one event is for one request, one interaction, the registry and the writer;
      [AppServerLaws] what holds over whole runs.
    - [CodexResponse], [CodexStream], [CodexStreamLaws], [CodexParity]
      ([src/src/codex_responses_bridge/]): a chat completion as a Responses object, its
      stream as Responses events, the reader's contract of that stream, and the agreement of
      the two.
    - [Query], [Gate] ([src/src/auth.py], [src/src/env_utils.py],
      [src/src/concurrency_middleware.py], the scoping of [src/src/routes/]): URL queries; who
      a request acts for, body limits, and admission in front of [TurnLimiter].
    - [CodexRequest], [CodexRequestLaws] ([src/src/codex_responses_bridge/request.py],
      [system_norm.py], [reasoning_effort.py], [config.py]): a Responses request as a chat
      request; what is accepted, and what is sent.
    - [Raise], [CollabFilter], [Chunks], [Progress], [ResponsesStream], [ResponsesStreamLaws],
      [ResponsesTurn] ([src/src/streaming_utils.py], [src/src/collab_filter.py],
      [chunk_processing.py], [content_blocks.py], [tool_stats.py], [message_adapter.py],
      [sse_builders.py]): the events of a turn of [/v1/responses].  [Raise] is Python's
      operations on JSON values that may raise; [CollabFilter] the removal of collab blocks
      from text; [Chunks] how a chunk of the SDK is read (text, thinking, tools, errors,
      usage); [Progress] the tool statistics and the events of system chunks;
      [ResponsesStream] the generator as programs on its local variables (a state, output and
      error monad), over a list of arrivals: a chunk, a silent interval, an exception.
      [ResponsesStreamLaws] is the contract of its events, [ResponsesTurn] what a turn says.
    - [TurnState], [TurnRace], [TurnLaws] ([src/src/routes/responses.py],
      [src/src/session_guard.py], the gates of [src/src/session_outbox.py], the decisions of
      [src/src/backends/claude/client.py]): the turns of one session.  [TurnState] is what the
      routes do to a [Session] between two suspensions: response ids, the guard, the active
      response, the slot of a human decision, how a turn is committed, cancel, retrieve,
      delete.  [TurnRace] interleaves them: its [World] has the session lock, the requests
      (each at a place of [Pc]), the idle readers and the waiting calls, and one [Event] of
      [exec] is one step of one of them, the reading of one chunk included.  [TurnLaws] is what every interleaving keeps.
    - [Regex], [Redaction], [RedactionLaws], [RedactionMask], [RedactionCarry],
      [RedactionStream] ([src/src/backends/claude/sysinfo_redaction.py] and [_redact_stream] of
      [client.py]): the redaction of host names, addresses and secrets.  [Regex] is Python's
      [re] on the expressions used: a matcher with the results in the engine's order, [sub] and
      [finditer], and how far a match can see.  [Redaction] is the file over ASCII text: the
      table, the literal pass and the pattern pass, the carry that holds back the end of a
      block, and the stream of a turn.  [RedactionLaws] is where a text falls apart,
      [RedactionMask] what a pass does to a text, [RedactionCarry] the cut of the carry,
      [RedactionStream] what a client reads.  The fuel of a scan is twice the length of the
      text and two (a match takes a character or is followed by one that does); that of [settle]
      is the length of the buffer and one (each round moves the cut down); the depth of the
      scans of refused candidates is the length of the text and one.
    - [Bridge], [BridgeLaws], [BridgeBlocks], [BridgeAnswer]
      ([src/src/sanitizer/openai_bridge.py]): Anthropic messages over an OpenAI upstream.
      [Bridge] is the request, the stream (one turn of its loop is [on_chunk]) and the whole
      answer; [BridgeLaws] that its stream passes [StreamSanitizer] as it is; [BridgeBlocks]
      what a reader assembles from it; [BridgeAnswer] that the stream and the whole answer of
      one message are the same blocks.
    - [Proxy], [ProxyLaws] ([src/src/sanitizer/routes.py], [config.py]): the route
      [POST /v1/messages] around them: lines and frames, headers, and the handler as the list
      of what it sends and closes with what it answers, over any upstream.  Callers are
      verified by [Gate.verify_api_key].
    - [AppPolicy], [AppInteraction], [AppTurn], [AppTurnLaws] ([src/src/backends/appserver/]:
      [policy.py], [interactions.py], [events.py] with [subagents.py], and the loops of
      [client.py]): the Codex backend over the transport of [AppServer].  [AppPolicy] is which
      tool policies a session starts under and which approvals are decided by policy (with
      [fnmatch]); [AppInteraction] the cards shown for native requests and what an answer
      becomes; [AppTurn] the mapper of a turn's notifications and [_drive_turn] as a function of
      the items of the subscription; [AppTurnLaws] composes it with [ResponsesStream].

    [Routing] calls [Ledger] (the owner side of a forward) and [Peer] (signatures,
    drain target); it reads [SessionManager.sessions] and [OwnerLocks.owner] through
    its environment argument [Env], as the code reads two global objects.
    [SessionManager] takes and drops owner locks through [can_own] and the event
    [OwnerReleased].

    ** How the code is modelled

    A Python method is one function from a state to a state and its answer.  A method
    with an [await] is split there: what runs up to the [await] is one definition, what
    follows is another, and a step relation ([step], an [Inductive]) interleaves these
    with everything else that may happen in between ([TurnLimiter], [SessionManager]).
    For [OwnerLocks] a step is one system call of one process.  Objects the code shares
    by reference (slots, futures, sessions, open file descriptions) live in heaps
    indexed by their identity.  Times are integers (milliseconds in [TurnLimiter],
    microseconds elsewhere) and are arguments of the operations; the wall clock and the
    monotonic clock are separate.  Exceptions are [Err], a propagated cancellation is
    [None].  What lies outside the repository is a parameter: the HMAC digest, the JSON
    codec where only one field of it is read, the HTTP transport, the app behind the
    middleware, the other instances' answers.

    ** What the theorems show

    - Turn admission: counters are exactly the live slots ([no_leak]), the queue is
      work conserving, the one-pass grant refines oldest-first granting, caps hold.
    - Owner locks: mutual exclusion under every interleaving with unlinks and crashes,
      the behaviour of an undisturbed acquire, a bound on the system calls of a call
      (8 attempts of 3 calls and the ends: at most 34), and that [owner] reads the
      holder's record.
    - Ledger: an id is admitted at most once and [settle] tells the truth, over all
      runs at non-decreasing times and for windows that fit ([windows_fit], true for
      an acceptance window of two seconds or more).
    - Peers and routing: forwarded requests verify at their target and client headers
      never do; decisions respect ownership and draining; a request's work starts at most
      once over all attempts and instances ([Handoff]), for ledgers whose windows fit and
      exchanges that can be taken at their word ([exchanged]); it gets one response, and the
      loop ends within its deadline (fuel [d + 5] for a deadline of [d] seconds; the growing backoff makes the bound);
      bodies reach the app intact; the control surface is closed to others.
    - Sessions: the cap, no release under a CLI but in three cases (a client that a route has
      dropped and is still stopping, the end of a shutdown, the synchronous [delete_session];
      the examples run them), no session lost with what it owns,
      eviction picks the least recently used idle session, sessions in use stay,
      hand-off and shutdown.
    - Stream sanitizer: its docstring on the output of every typed upstream, except for deltas
      of a type it does not know (an example has one outside every block), idempotence, no
      content lost.
    - ACLs: encoding round trip, and the tree walk under arbitrary system-call answers:
      which objects get which ACL, descriptors and listings all closed, at most 129 held,
      termination (fuel [2 * max_entries + 2]: a turn visits an entry or leaves a
      directory), equality with the recursive visit, granting twice is granting once.
    - Uids: over restarts, changed settings and failed writes a named user keeps one uid
      and nobody shares it; leases never collide with each other or with the registry;
      the pool is a queue; startup checks; tickets work once.
    - Quota: the walk ends (fuel: one more than the entries of the tree) and measures exactly
      the tree or fails; the growth check counts every inode once and never lets an
      unmeasured tree grow.
    - Outbox: a poller sees the events in order, none twice, and none is lost while it keeps
      up; a task is listed exactly while its last event is not a terminal one.
    - App-server transport: one outcome per request, which tells whether its line was
      accepted unless it is a [TimeoutError], while the process answers no request twice (an
      example has one that does); one answer per server request, and what each of its states
      tells of it; the loss is announced once, final, and nothing is written after it; it
      leaves nobody waiting (measure [work]); subscribers are bounded and in order.
    - Codex bridge: whatever the chunks, the events refine the reader's contract, carry the
      fragments of the chunks and end on evidence; how it refuses; a completion cut into
      fragments ends in the object its whole message is translated to.
    - Gate: a user's key acts for that user on every surface the app reads, so the responses
      and sessions of others are hidden, for requests received in full with a UTF-8 query;
      without either, they are not (two examples); keys identify users; the body limit
      counts what is received.
    - Codex requests: exactly which requests are accepted and the request sent for them, key by
      key; the grouping of the input; calls come back under their namespace; where system
      messages go; a field that is not translated has no effect or refuses the request.
    - Responses stream: the events of a turn keep the contract of the API whenever the model
      finishes its thinking blocks (an example shows what happens when it does not); thoughts
      and text come out as they were streamed, think marks aside; failures are told, and what escapes the
      generator is only usage that cannot be read; silence ends a turn exactly beyond its
      budget; custom events are well typed; the collab filter does not depend on how the text
      is cut.
    - Turns of a session: in every interleaving they are serial and commit in order, a turn
      reads its client alone where none is connected, an answer reaches the call it was given
      for when a woken hook goes on before a later answer comes ([promptly]; an example shows
      what happens otherwise), and the lock comes back (at most sixteen
      events: eight places, each with the end of a reader) unless a request was abandoned
      while it held the lock; examples show what the locks do not order (late interrupts,
      clients dropped late, readers resumed late, answers that time out).
    - Redaction: no secret is left in a redacted text; the pieces a carry lets out are the
      redaction of the block, however it is cut into deltas, so what a client reads of the
      blocks of a turn is the redaction of each, for sound tables unless a text has more than
      1025 host characters in a row (two examples show what happens then), and for any table
      with a pattern without a length bound; tables of host-shaped names
      are sound whatever the secrets are; examples show what is not redacted (arguments of a
      tool call cut in two, values below 64 levels, keys).
    - Bridge and messages route: the bridge's stream is one message the sanitizer does not
      change; each run of fragments is the blocks it says, interleaved calls taken apart (an
      example shows a call that text cuts in two); stream and whole answer agree, and the
      latter raises what parsing a call's arguments raises; no header leaves that is not to, a
      good answer is translated and every other passes as it is, frames read back, a frame that
      cannot be read ends the body, and connections are closed except where an example shows
      they are not.
    - Codex backend: the chunks of any turn are a source the Responses stream renders under its
      contract, and close every row of a subagent unless a notification raises; the policy validator fails closed, answers
      approve only when they say so (text whose reading raises is no answer) and reach their
      questions; examples show a global denial
      that is not enforced, reasoning that is said after a pause, an answer that goes to a
      hidden question.

    Each property with hypotheses has a witness, a computed run or input in which the
    hypotheses hold.  The [Example]s at the ends of the files exhibit behaviour that
    differs from what comments or docs say.

    ** What is not modelled

    Pure I/O (the HTTP stack, subprocesses, the agent SDK, file transfer), rendering of
    pages, configuration screens and logging.  Of the modelled files: the memory probe
    of [concurrency.py], random ids, the drain's periodic release loop, transcript
    paths, the lock file of the uid registry, operator texts; of the redaction, text beyond
    ASCII, the discovery of the host's addresses and objects of the SDK.  Of the responses
    route: how a session and its workspace are found or made, the options handed to the
    SDK, and the messages the idle reader sweeps (objects of the SDK).  The Claude client,
    the Landlock and workspace sandboxes, the broker and the terminal are sequences of
    system calls, or of calls of the SDK, whose meaning lies outside the repository. *)

From stdpp Require Export base tactics numbers list gmap strings relations.

#[global] Open Scope Z_scope.

(** ** Error values

    A Python function that may raise is a function to [result E A]: [Ok a] is a
    normal return, [Err e] the exception [e]. *)

Declare Scope gateway_scope.
Delimit Scope gateway_scope with gw.
#[global] Open Scope gateway_scope.

Inductive result (E A : Type) : Type :=
| Ok (a : A)
| Err (e : E).
Arguments Ok {E A} a.
Arguments Err {E A} e.

Definition result_bind {E A B} (m : result E A) (f : A -> result E B) : result E B :=
  match m with
  | Ok a => f a
  | Err e => Err e
  end.

Notation "'let!' x ':=' m 'in' k" := (result_bind m (fun x => k))
  (at level 10, x pattern, m at level 100, k at level 200)
  : gateway_scope.

(** ** Tactics *)

(** Case analysis on every [if]/[match] of the goal, discharging absurd cases. *)
Ltac case_all :=
  repeat (case_match; simplify_eq/=; try done).

(** Turn boolean comparisons of the context and the goal into propositions. *)
Ltac b2p :=
  repeat match goal with
  | H : (_ && _)%bool = true |- _ => apply andb_true_iff in H; destruct H
  | H : (_ && _)%bool = false |- _ => apply andb_false_iff in H
  | H : (_ || _)%bool = true |- _ => apply orb_true_iff in H
  | H : (_ || _)%bool = false |- _ => apply orb_false_iff in H; destruct H
  | H : negb _ = true |- _ => apply negb_true_iff in H
  | H : negb _ = false |- _ => apply negb_false_iff in H
  | H : (_ <? _) = true |- _ => apply Z.ltb_lt in H
  | H : (_ <? _) = false |- _ => apply Z.ltb_ge in H
  | H : (_ <=? _) = true |- _ => apply Z.leb_le in H
  | H : (_ <=? _) = false |- _ => apply Z.leb_gt in H
  | H : (_ =? _) = true |- _ => apply Z.eqb_eq in H
  | H : (_ =? _) = false |- _ => apply Z.eqb_neq in H
  | H : bool_decide _ = true |- _ => apply bool_decide_eq_true in H
  | H : bool_decide _ = false |- _ => apply bool_decide_eq_false in H
  end.

(** Close an arithmetic goal whose hypotheses are boolean tests of the code. *)
Ltac zb := b2p; lia.

(** ** Reachability

    The components with interleaved operations are step relations; a state
    property holds in every reachable state when it holds initially and every
    step keeps it. *)

Section reachability.
Context {St : Type} (step : St -> St -> Prop).

Lemma rtc_invariant (I : St -> Prop) (s s' : St) :
  (forall a b, I a -> step a b -> I b) -> rtc step s s' -> I s -> I s'.
Proof. intros Hstep Hr. induction Hr; eauto. Qed.

(** The same with an invariant already known to hold along the run. *)
Lemma rtc_invariant_with (J I : St -> Prop) (s s' : St) :
  (forall a b, J a -> step a b -> J b) ->
  (forall a b, J a -> I a -> step a b -> I b) ->
  rtc step s s' -> J s -> I s -> I s'.
Proof. intros HJ HI Hr. induction Hr; eauto. Qed.
End reachability.

(** ** Python dictionaries

    A [dict] iterates in insertion order and an assignment to a present key
    keeps its place, so a dictionary whose order is observed is an association
    list with one entry per key ([dict_wf]). *)

Definition odict (K V : Type) := list (K * V).

Section odict.
Context {K V : Type} `{EqDecision K}.
Implicit Types (d : odict K V) (k : K) (v : V).

Fixpoint dict_get d k : option V :=
  match d with
  | [] => None
  | (k', v) :: d' => if decide (k = k') then Some v else dict_get d' k
  end.

Fixpoint dict_set d k v : odict K V :=
  match d with
  | [] => [(k, v)]
  | (k', v') :: d' =>
      if decide (k = k') then (k', v) :: d' else (k', v') :: dict_set d' k v
  end.

(** [del d[k]] / [d.pop(k, None)] *)
Fixpoint dict_del d k : odict K V :=
  match d with
  | [] => []
  | (k', v) :: d' => if decide (k = k') then d' else (k', v) :: dict_del d' k
  end.

Definition dict_keys d : list K := map fst d.
Definition dict_values d : list V := map snd d.
Definition dict_has d k : bool := bool_decide (is_Some (dict_get d k)).
Definition dict_wf d : Prop := NoDup (dict_keys d).

Lemma dict_get_keys d k : is_Some (dict_get d k) <-> k ∈ dict_keys d.
Proof.
  induction d as [|[k' v'] d IH]; simpl.
  - split; [by intros [? ?] | by rewrite list_elem_of_In].
  - rewrite elem_of_cons. case_decide; [naive_solver|rewrite IH; naive_solver].
Qed.

Lemma dict_get_None d k : dict_get d k = None <-> k ∉ dict_keys d.
Proof. rewrite <- dict_get_keys, eq_None_not_Some. done. Qed.

Lemma dict_get_elem d k v : dict_get d k = Some v -> (k, v) ∈ d.
Proof.
  induction d as [|[k' v'] d IH]; simpl; [done|].
  case_decide; rewrite elem_of_cons; naive_solver.
Qed.

Lemma dict_elem_get d k v : dict_wf d -> (k, v) ∈ d -> dict_get d k = Some v.
Proof.
  unfold dict_wf. induction d as [|[k' v'] d IH]; simpl.
  - by rewrite elem_of_nil.
  - rewrite NoDup_cons, elem_of_cons. intros [Hk Hd] [[= -> ->]|Hin].
    + by rewrite decide_True.
    + rewrite decide_False; [by apply IH|].
      intros ->. apply Hk, list_elem_of_fmap. by exists (k', v).
Qed.

Lemma dict_get_set_eq d k v : dict_get (dict_set d k v) k = Some v.
Proof.
  induction d as [|[k' v'] d IH]; simpl; [by rewrite decide_True|].
  repeat (case_decide; simpl; subst; try done).
Qed.

Lemma dict_get_set_ne d k k' v :
  k <> k' -> dict_get (dict_set d k v) k' = dict_get d k'.
Proof.
  intros Hne. induction d as [|[k1 v1] d IH]; simpl; [by rewrite decide_False|].
  repeat (case_decide; simpl; subst; try done).
Qed.

Lemma dict_get_set d k k' v :
  dict_get (dict_set d k v) k' = if decide (k = k') then Some v else dict_get d k'.
Proof.
  case_decide; subst; [apply dict_get_set_eq|by apply dict_get_set_ne].
Qed.

Lemma dict_set_new d k v : dict_get d k = None -> dict_set d k v = d ++ [(k, v)].
Proof.
  induction d as [|[k1 v1] d IH]; simpl; [done|]. case_decide; [done|]. intros Hd. by rewrite IH.
Qed.

Lemma dict_get_del_ne d k k' : k <> k' -> dict_get (dict_del d k) k' = dict_get d k'.
Proof.
  intros Hne. induction d as [|[k1 v1] d IH]; simpl; [done|].
  repeat (case_decide; simpl; subst; try done).
Qed.

Lemma dict_get_del_eq d k : dict_wf d -> dict_get (dict_del d k) k = None.
Proof.
  unfold dict_wf. induction d as [|[k1 v1] d IH]; simpl; [done|].
  rewrite NoDup_cons. intros [Hk Hd]. case_decide; subst.
  - by apply dict_get_None.
  - simpl. rewrite decide_False by done. by apply IH.
Qed.

Lemma dict_get_del d k k' :
  dict_wf d -> dict_get (dict_del d k) k' = if decide (k = k') then None else dict_get d k'.
Proof.
  intros. case_decide; subst; [by apply dict_get_del_eq|by apply dict_get_del_ne].
Qed.

Lemma dict_keys_set d k v :
  dict_keys (dict_set d k v) = if decide (k ∈ dict_keys d) then dict_keys d
                               else dict_keys d ++ [k].
Proof.
  induction d as [|[k1 v1] d IH].
  { simpl. destruct (decide (k ∈ [])) as [Hn|]; [by apply elem_of_nil in Hn|done]. }
  assert (dict_keys ((k1, v1) :: d) = k1 :: dict_keys d) as -> by done.
  simpl. destruct (decide (k = k1)) as [->|Hne].
  { rewrite decide_True; [done|]. apply elem_of_cons. by left. }
  simpl. fold (dict_keys (dict_set d k v)). rewrite IH.
  repeat case_decide; rewrite ?elem_of_cons in *; naive_solver.
Qed.

Lemma dict_wf_set d k v : dict_wf d -> dict_wf (dict_set d k v).
Proof.
  unfold dict_wf. rewrite dict_keys_set. case_decide; [done|].
  intros Hd. apply NoDup_app. split_and!; [done| |apply NoDup_singleton].
  intros x Hx ->%list_elem_of_singleton. done.
Qed.

Lemma dict_keys_del_sub d k : dict_keys (dict_del d k) `sublist_of` dict_keys d.
Proof.
  induction d as [|[k1 v1] d IH]; simpl; [done|].
  case_decide; simpl; [by apply sublist_cons|by apply sublist_skip].
Qed.

Lemma dict_wf_del d k : dict_wf d -> dict_wf (dict_del d k).
Proof. intros Hd. eapply sublist_NoDup; [done|apply dict_keys_del_sub]. Qed.

Lemma dict_del_length d k :
  length (dict_del d k) = (length d - if dict_has d k then 1 else 0)%nat.
Proof.
  unfold dict_has. induction d as [|[k1 v1] d IH]; simpl; [done|].
  case_decide; [simpl; lia|]. simpl. rewrite IH.
  case_bool_decide as Hs; [|lia].
  apply dict_get_keys in Hs. destruct d; [by apply elem_of_nil in Hs|simpl; lia].
Qed.

Lemma dict_set_length d k v :
  length (dict_set d k v) = (length d + if dict_has d k then 0 else 1)%nat.
Proof.
  unfold dict_has. induction d as [|[k1 v1] d IH]; simpl; [done|].
  case_decide; simpl; [lia|rewrite IH; lia].
Qed.

Lemma dict_get_filter (P : K * V -> Prop) `{forall x, Decision (P x)} d k :
  dict_wf d ->
  dict_get (filter P d) k =
    match dict_get d k with Some v => if decide (P (k, v)) then Some v else None | None => None end.
Proof.
  unfold odict, dict_wf in *. induction d as [|[k1 v1] d IH]; [done|]. simpl dict_keys.
  rewrite NoDup_cons. intros [Hk Hd]. rewrite filter_cons. simpl.
  specialize (IH Hd). apply dict_get_None in Hk.
  destruct (decide (k = k1)) as [->|Hne].
  - rewrite Hk in IH. destruct (decide (P (k1, v1))); simpl; [by rewrite decide_True|done].
  - case_decide; simpl; [by rewrite decide_False|done].
Qed.

Lemma dict_wf_filter (P : K * V -> Prop) `{forall x, Decision (P x)} d :
  dict_wf d -> dict_wf (filter P d).
Proof.
  unfold odict, dict_wf in *. induction d as [|[k1 v1] d IH]; [done|]. simpl dict_keys.
  rewrite NoDup_cons. intros [Hk Hd]. rewrite filter_cons. specialize (IH Hd).
  case_decide; [|done]. simpl. apply NoDup_cons. split; [|done].
  intros Hin. apply Hk. apply list_elem_of_fmap in Hin as ([k2 v2] & -> & Hin).
  apply list_elem_of_fmap. exists (k2, v2). split; [done|].
  by apply list_elem_of_filter in Hin as [_ Hin].
Qed.

Lemma dict_has_true d k : dict_has d k = true <-> k ∈ dict_keys d.
Proof. unfold dict_has. by rewrite bool_decide_eq_true, dict_get_keys. Qed.
End odict.

Create HintDb odict.
#[export] Hint Resolve dict_wf_set dict_wf_del dict_wf_filter dict_elem_get dict_get_elem : odict.
#[export] Hint Rewrite @dict_get_set_eq @dict_get_set_ne @dict_get_del_ne using done : odict.

(** ** Counting the elements of a list that satisfy a test *)

Definition countb {A} (p : A -> bool) (l : list A) : Z :=
  foldr (fun x n => (if p x then 1 else 0) + n) 0 l.

Section countb.
Context {A : Type} (p : A -> bool).

Lemma countb_app l1 l2 : countb p (l1 ++ l2) = countb p l1 + countb p l2.
Proof. induction l1 as [|x l1 IH]; simpl; [done|]. rewrite IH. lia. Qed.

Lemma countb_nonneg l : 0 <= countb p l.
Proof. induction l as [|x l IH]; simpl; [done|]. destruct (p x); lia. Qed.

Lemma countb_insert l i x y :
  l !! i = Some x ->
  countb p (<[i:=y]> l) = countb p l - (if p x then 1 else 0) + (if p y then 1 else 0).
Proof.
  revert i. induction l as [|z l IH]; intros [|i] Hi; simplify_eq/=; [lia|].
  rewrite (IH i Hi). lia.
Qed.

Lemma countb_pos l x : x ∈ l -> p x = true -> 0 < countb p l.
Proof.
  intros Hin Hp. induction l as [|y l IH]; [by apply elem_of_nil in Hin|].
  apply elem_of_cons in Hin as [<-|Hin]; simpl.
  - rewrite Hp. pose proof (countb_nonneg l). lia.
  - specialize (IH Hin). destruct (p y); lia.
Qed.

Lemma countb_zero l : countb p l = 0 -> forall x, x ∈ l -> p x = false.
Proof.
  intros H x Hx. destruct (p x) eqn:E; [|done].
  pose proof (countb_pos l x Hx E). lia.
Qed.

Lemma countb_all_false l : (forall x, x ∈ l -> p x = false) -> countb p l = 0.
Proof.
  induction l as [|y l IH]; intros H; simpl; [done|].
  rewrite (H y) by (apply elem_of_cons; by left).
  rewrite IH; [done|]. intros x Hx. apply H, elem_of_cons. by right.
Qed.
End countb.

Lemma countb_le {A} (p q : A -> bool) l :
  (forall x, p x = true -> q x = true) -> countb p l <= countb q l.
Proof.
  intros H. induction l as [|x l IH]; simpl; [done|].
  destruct (p x) eqn:E; [rewrite (H x E); lia | destruct (q x); lia].
Qed.

(** ** Python strings

    A [str] is its UTF-8 encoding. *)

Definition is_space (c : Ascii.ascii) : bool :=
  let n := Ascii.nat_of_ascii c in
  ((9 <=? n)%nat && (n <=? 13)%nat) || ((28 <=? n)%nat && (n <=? 32)%nat).

Fixpoint lstrip (s : string) : string :=
  match s with
  | EmptyString => EmptyString
  | String c s' => if is_space c then lstrip s' else s
  end.

Fixpoint rstrip (s : string) : string :=
  match s with
  | EmptyString => EmptyString
  | String c s' =>
      match rstrip s' with
      | EmptyString => if is_space c then EmptyString else String c EmptyString
      | t => String c t
      end
  end.

(** [str.strip()] *)
Definition strip (s : string) : string := rstrip (lstrip s).

Fixpoint has_char (c : Ascii.ascii) (s : string) : bool :=
  match s with
  | EmptyString => false
  | String c' s' => Ascii.eqb c c' || has_char c s'
  end.

(** The part before the first [c] ([s.split(c, 1)[0]]). *)
Fixpoint before_char (c : Ascii.ascii) (s : string) : string :=
  match s with
  | EmptyString => EmptyString
  | String c' s' => if Ascii.eqb c' c then EmptyString else String c' (before_char c s')
  end.

(** [s.split(c)]: every part, the empty ones too. *)
Fixpoint split_char (c : Ascii.ascii) (s : string) : list string :=
  match s with
  | EmptyString => [EmptyString]
  | String c' s' =>
      if Ascii.eqb c' c then EmptyString :: split_char c s'
      else match split_char c s' with
           | [] => [String c' EmptyString]
           | w :: ws => String c' w :: ws
           end
  end.

Definition is_digit (c : Ascii.ascii) : bool :=
  let n := Ascii.nat_of_ascii c in (48 <=? n)%nat && (n <=? 57)%nat.

Definition digit_value (c : Ascii.ascii) : Z := Z.of_nat (Ascii.nat_of_ascii c) - 48.

Definition underscore : Ascii.ascii := Ascii.ascii_of_nat 95.

(** The digits of [int(s)]: single underscores may separate them.  [prev] tells
    whether a digit came just before; the accumulator is the value and the number
    of digits read. *)
Fixpoint int_digits (s : string) (prev : bool) (acc : Z * nat) : option (Z * nat) :=
  match s with
  | EmptyString => if prev then Some acc else None
  | String c s' =>
      if is_digit c then int_digits s' true (acc.1 * 10 + digit_value c, S acc.2)
      else if Ascii.eqb c underscore && prev then int_digits s' false acc
      else None
  end.

(** CPython's limit on the digits of a decimal [int] conversion. *)
Definition INT_MAX_STR_DIGITS : nat := 4300.

(** [int(s)] on ASCII text, [None] is its [ValueError]. *)
Definition py_int (s : string) : option Z :=
  let digits t :=
    match int_digits t false (0, O) with
    | Some (v, n) => if (n <=? INT_MAX_STR_DIGITS)%nat then Some v else None
    | None => None
    end in
  match strip s with
  | String c t =>
      if Ascii.eqb c (Ascii.ascii_of_nat 45) then option_map Z.opp (digits t)
      else if Ascii.eqb c (Ascii.ascii_of_nat 43) then digits t
      else digits (String c t)
  | EmptyString => None
  end.

(** A Python [int] of this size cannot be converted to [float] (OverflowError). *)
Definition float_overflows (n : Z) : bool := 2 ^ 1024 - 2 ^ 970 <=? Z.abs n.

(** ASCII case mapping ([bytes.lower], and [str.lower]/[str.upper] on ASCII text). *)
Definition lower_char (c : Ascii.ascii) : Ascii.ascii :=
  let n := Ascii.nat_of_ascii c in
  if (65 <=? n)%nat && (n <=? 90)%nat then Ascii.ascii_of_nat (n + 32) else c.
Definition upper_char (c : Ascii.ascii) : Ascii.ascii :=
  let n := Ascii.nat_of_ascii c in
  if (97 <=? n)%nat && (n <=? 122)%nat then Ascii.ascii_of_nat (n - 32) else c.

Fixpoint map_string (f : Ascii.ascii -> Ascii.ascii) (s : string) : string :=
  match s with
  | EmptyString => EmptyString
  | String c s' => String (f c) (map_string f s')
  end.
Definition lower : string -> string := map_string lower_char.
Definition upper : string -> string := map_string upper_char.

Fixpoint all_chars (p : Ascii.ascii -> bool) (s : string) : bool :=
  match s with
  | EmptyString => true
  | String c s' => p c && all_chars p s'
  end.

Definition is_ascii (s : string) : bool :=
  all_chars (fun c => (Ascii.nat_of_ascii c <? 128)%nat) s.

(** [s[n:]] when [s] starts with [p] *)
Fixpoint strip_prefix (p s : string) : option string :=
  match p, s with
  | EmptyString, _ => Some s
  | String c p', String c' s' => if Ascii.eqb c c' then strip_prefix p' s' else None
  | String _ _, EmptyString => None
  end.

(** [s.startswith(p)] *)
Definition starts_with (s p : string) : bool := bool_decide (is_Some (strip_prefix p s)).

(** The part of [s] from the first [c] on, that [c] included. *)
Fixpoint from_char (c : Ascii.ascii) (s : string) : string :=
  match s with
  | EmptyString => EmptyString
  | String c' s' => if Ascii.eqb c' c then s else from_char c s'
  end.

Lemma append_cons c (a b : string) :
  String.append (String c a) b = String c (String.append a b).
Proof. done. Qed.

Lemma append_assoc (a b c : string) :
  String.append a (String.append b c) = String.append (String.append a b) c.
Proof. induction a as [|x a IH]; [done|]. rewrite !append_cons. by f_equal. Qed.

Lemma append_nil_r (a : string) : String.append a EmptyString = a.
Proof. induction a as [|c a IH]; [done|]. rewrite append_cons. by f_equal. Qed.

Lemma concat_cons (a : string) l : String.concat "" (a :: l) = String.append a (String.concat "" l).
Proof. destruct l; [by rewrite append_nil_r|done]. Qed.

Lemma before_from_char c s : String.append (before_char c s) (from_char c s) = s.
Proof.
  induction s as [|c' s IH]; [done|]. simpl. destruct (Ascii.eqb c' c); [done|].
  change (String c' (String.append (before_char c s) (from_char c s)) = String c' s).
  by rewrite IH.
Qed.

Lemma before_char_clean c s : has_char c (before_char c s) = false.
Proof.
  induction s as [|c' s IH]; simpl; [done|]. destruct (Ascii.eqb c' c) eqn:E; simpl; [done|].
  rewrite Ascii.eqb_sym, E. done.
Qed.

(** What remains at a regex's [$]: the end, or one final newline. *)
Definition at_end (s : string) : bool :=
  match s with
  | EmptyString => true
  | String c EmptyString => Ascii.eqb c (Ascii.ascii_of_nat 10)
  | _ => false
  end.
