(* ===== verification/TurnLimiter.v ===== *)
(** Admission control for concurrent agent turns ([src/src/concurrency.py]).

    [TurnLimiter] with its FIFO queue, the [TurnSlot] objects it hands out, the
    waiters' futures and the callbacks [_grant_waiters] schedules on the event
    loop.  Slots and futures are objects the limiter shares with its callers, so
    they live in heaps indexed by allocation order.  The clock is an integer
    number of milliseconds.

    A definition is one critical section of the code: [acquire] is split at its
    only [await] into [acquire_begin] (up to the wait) and [acquire_end] (the
    [finally] block and the return), and [step] interleaves these with slot
    releases, loop callbacks and reconfigurations. *)

From S2P Require Import Prelude.

(** ** Data *)

(** [TurnSlot]: the holder's key and the idempotence flag of [release]. *)
Record TurnSlot := mkSlot { slot_user : string; slot_released : bool }.

(** The state of a waiter's [asyncio.Future]. *)
Inductive Future :=
| Pending
| Resolved (slot : nat)
| Cancelled.

(** [_Waiter]; [w_future] is the index of its future and doubles as identity. *)
Record Waiter := mkWaiter {
  w_key : string;
  w_identified : bool;
  w_future : nat;
  w_ticket : option string;
  w_since : Z;
  w_timeout : Z
}.

(** The refusal labels [acquire] returns. *)
Inductive Reason := Global | PerUser | QueueFull | QueueTimeout | Aborted.

Record Limiter := mkLimiter {
  total : Z;
  per_user : Z;
  queue_timeout : Z;
  queue_max : Z;
  in_flight : Z;
  by_user : odict string Z;
  waiters : list Waiter
}.

(** The limiter together with the objects it shares: every slot and future
    created so far, and the [call_soon_threadsafe] callbacks not yet run. *)
Record State := mkState {
  lim : Limiter;
  slots : list TurnSlot;
  futures : list Future;
  loop_calls : list (nat * nat)
}.

Definition initial (tot per timeout qmax : Z) : State :=
  mkState (mkLimiter tot per timeout qmax 0 [] []) [] [] [].

Definition with_lim (f : Limiter -> Limiter) (s : State) : State :=
  mkState (f (lim s)) (slots s) (futures s) (loop_calls s).

Definition set_counts (n : Z) (d : odict string Z) (l : Limiter) : Limiter :=
  mkLimiter (total l) (per_user l) (queue_timeout l) (queue_max l) n d (waiters l).

Definition set_waiters (ws : list Waiter) (l : Limiter) : Limiter :=
  mkLimiter (total l) (per_user l) (queue_timeout l) (queue_max l)
    (in_flight l) (by_user l) ws.

(** ** Operations *)

Definition ANONYMOUS : string := "__anonymous__".

(** [bool(user)] and [user or _ANONYMOUS]. *)
Definition user_identified (user : option string) : bool :=
  match user with Some u => negb (bool_decide (u = "")) | None => false end.

Definition user_key (user : option string) : string :=
  match user with
  | Some u => if user_identified user then u else ANONYMOUS
  | None => ANONYMOUS
  end.

Definition user_count (l : Limiter) (key : string) : Z :=
  default 0 (dict_get (by_user l) key).

(** [_blocked] *)
Definition blocked (l : Limiter) (key : string) (identified : bool) : option Reason :=
  if (0 <? total l) && (total l <=? in_flight l) then Some Global
  else if identified && (0 <? per_user l) && (per_user l <=? user_count l key)
  then Some PerUser
  else None.

(** [_take] *)
Definition take_slot (s : State) (key : string) : State * nat :=
  let l := lim s in
  (mkState
     (set_counts (in_flight l + 1) (dict_set (by_user l) key (user_count l key + 1)) l)
     (slots s ++ [mkSlot key false]) (futures s) (loop_calls s),
   length (slots s)).

(** [try_acquire] *)
Definition try_acquire (s : State) (user : option string)
    : State * (option nat * option Reason) :=
  let key := user_key user in
  match blocked (lim s) key (user_identified user) with
  | Some reason => (s, (None, Some reason))
  | None => let '(s', slot) := take_slot s key in (s', (Some slot, None))
  end.

(** [deque.remove]: the first equal waiter goes; absent is the [ValueError] the
    callers ignore. *)
Fixpoint remove_waiter (w : Waiter) (ws : list Waiter) : list Waiter :=
  match ws with
  | [] => []
  | w' :: ws' => if decide (w_future w' = w_future w) then ws' else w' :: remove_waiter w ws'
  end.

Definition drop_waiter (w : Waiter) (s : State) : State :=
  with_lim (fun l => set_waiters (remove_waiter w (waiters l)) l) s.

Definition future_of (s : State) (f : nat) : Future := default Cancelled (futures s !! f).

Definition future_done (s : State) (f : nat) : bool :=
  match future_of s f with Pending => false | _ => true end.

Definition set_future (f : nat) (v : Future) (s : State) : State :=
  mkState (lim s) (slots s) (<[f := v]> (futures s)) (loop_calls s).

Definition call_soon (c : nat * nat) (s : State) : State :=
  mkState (lim s) (slots s) (futures s) (loop_calls s ++ [c]).

(** One grant: take the waiter out, count its slot, schedule the delivery. *)
Definition grant_one (w : Waiter) (s : State) : State :=
  let '(s', slot) := take_slot (drop_waiter w s) (w_key w) in
  call_soon (w_future w, slot) s'.

(** The body of [_grant_waiters] over its snapshot of the queue. *)
Fixpoint grant_loop (snapshot : list Waiter) (s : State) : State :=
  match snapshot with
  | [] => s
  | w :: rest =>
      let l := lim s in
      if (0 <? total l) && (total l <=? in_flight l) then s
      else if future_done s (w_future w)
              || bool_decide (is_Some (blocked l (w_key w) (w_identified w)))
      then grant_loop rest s
      else grant_loop rest (grant_one w s)
  end.

Definition grant_waiters (s : State) : State := grant_loop (waiters (lim s)) s.

(** [_release] before it grants: the counters. *)
Definition uncount (user : string) (l : Limiter) : Limiter :=
  let n := if 0 <? in_flight l then in_flight l - 1 else in_flight l in
  let remaining := user_count l user - 1 in
  let d := if 0 <? remaining then dict_set (by_user l) user remaining
           else dict_del (by_user l) user in
  set_counts n d l.

Definition release_user (user : string) (s : State) : State :=
  grant_waiters (with_lim (uncount user) s).

Definition mark_released (i : nat) (s : State) : State :=
  match slots s !! i with
  | Some sl => mkState (lim s) (<[i := mkSlot (slot_user sl) true]> (slots s))
                 (futures s) (loop_calls s)
  | None => s
  end.

(** [TurnSlot.release] *)
Definition release (i : nat) (s : State) : State :=
  match slots s !! i with
  | Some sl =>
      if slot_released sl then s else release_user (slot_user sl) (mark_released i s)
  | None => s
  end.

(** [_resolve_waiter] *)
Definition resolve_waiter (f slot : nat) (s : State) : State :=
  if future_done s f then release slot s else set_future f (Resolved slot) s.

(** [acquire] up to its [await]: an immediate answer, or the queued waiter. *)
Inductive Begin := Granted (slot : nat) | Refused (reason : Reason) | Queued (w : Waiter).

Definition acquire_begin (s : State) (now : Z) (user ticket : option string)
    : State * Begin :=
  let key := user_key user in
  let ident := user_identified user in
  let l := lim s in
  match blocked l key ident with
  | None => let '(s', slot) := take_slot s key in (s', Granted slot)
  | Some reason =>
      if queue_timeout l <=? 0 then (s, Refused reason)
      else if (0 <? queue_max l) && (queue_max l <=? Z.of_nat (length (waiters l)))
      then (s, Refused QueueFull)
      else
        let w := mkWaiter key ident (length (futures s)) ticket now (queue_timeout l) in
        (mkState (set_waiters (waiters l ++ [w]) l) (slots s) (futures s ++ [Pending])
           (loop_calls s), Queued w)
  end.

(** How the wait ended: [asyncio.wait] returned, with the abort task finished or
    not, or the request's own task was cancelled. *)
Inductive Wake := Woke (abort_done : bool) | TaskCancelled.

Definition keeps_slot (wake : Wake) : bool :=
  match wake with Woke abort_done => negb abort_done | TaskCancelled => false end.

Definition outcome (wake : Wake) : Reason :=
  match wake with Woke true => Aborted | _ => QueueTimeout end.

(** The [finally] block of [acquire]. *)
Definition acquire_finally (s : State) (w : Waiter) (wake : Wake) : State :=
  let s1 := drop_waiter w s in
  match future_of s1 (w_future w) with
  | Pending => set_future (w_future w) Cancelled s1
  | Resolved slot => if keeps_slot wake then s1 else release slot s1
  | Cancelled => s1
  end.

(** [acquire] after its [await]; [None] is the propagated [CancelledError]. *)
Definition acquire_end (s : State) (w : Waiter) (wake : Wake)
    : State * option (option nat * option Reason) :=
  let s' := acquire_finally s w wake in
  match wake with
  | TaskCancelled => (s', None)
  | Woke abort_done =>
      (s', Some (match future_of s' (w_future w), abort_done with
                 | Resolved slot, false => (Some slot, None)
                 | _, _ => (None, Some (outcome wake))
                 end))
  end.

(** [configure] *)
Definition configure (s : State) (tot per timeout qmax : option Z) : State :=
  let keep (o : option Z) (old : Z) := match o with Some v => Z.max 0 v | None => old end in
  grant_waiters (with_lim (fun l =>
    mkLimiter (keep tot (total l)) (keep per (per_user l))
      (keep timeout (queue_timeout l)) (keep qmax (queue_max l))
      (in_flight l) (by_user l) (waiters l)) s).

(** [round(ms / 1000, 1)] in tenths of a second, ties to even. *)
Definition tenths (ms : Z) : Z :=
  let q := ms / 100 in
  let r := ms mod 100 in
  if (r <? 50) || ((r =? 50) && Z.even q) then q else q + 1.

Record Position := mkPosition {
  ahead : nat; behind : nat; waited_tenths : Z; max_wait : Z
}.

Fixpoint position_from (i : nat) (ws : list Waiter) (n : nat) (now : Z) (ticket : string)
    : option Position :=
  match ws with
  | [] => None
  | w :: ws' =>
      if decide (w_ticket w = Some ticket)
      then Some (mkPosition i (n - i - 1) (tenths (now - w_since w)) (w_timeout w))
      else position_from (S i) ws' n now ticket
  end.

(** [position] *)
Definition position (s : State) (now : Z) (ticket : string) : option Position :=
  if decide (ticket = "") then None
  else position_from 0 (waiters (lim s)) (length (waiters (lim s))) now ticket.

(** [snapshot]: in_flight, limit, distinct_users, per_user_limit, queued, queue_limit *)
Definition snapshot (s : State) : Z * Z * nat * Z * nat * Z :=
  let l := lim s in
  (in_flight l, total l, length (by_user l), per_user l, length (waiters l), queue_max l).

(** [peak_subprocess_count] *)
Definition peak_subprocess_count (max_live_sessions max_concurrent_turns : Z) : Z :=
  Z.max max_live_sessions 0 + Z.max max_concurrent_turns 0.

(** ** Interleaving

    [held] lists the slots returned to callers, [awaiting] the [acquire] calls
    suspended at their [await].  A caller may release only a slot it was given. *)

Record World := mkWorld { st : State; held : list nat; awaiting : list Waiter }.

Inductive step : World -> World -> Prop :=
| step_try_acquire s h a user s' slot reason :
    try_acquire s user = (s', (slot, reason)) ->
    step (mkWorld s h a) (mkWorld s' (option_list slot ++ h) a)
| step_acquire_begin s h a now user ticket s' r :
    acquire_begin s now user ticket = (s', r) ->
    step (mkWorld s h a)
      (mkWorld s' (match r with Granted i => [i] | _ => [] end ++ h)
         (match r with Queued w => [w] | _ => [] end ++ a))
| step_acquire_end s h a1 w a2 wake s' r :
    acquire_end s w wake = (s', r) ->
    step (mkWorld s h (a1 ++ w :: a2))
      (mkWorld s' (match r with Some (Some i, _) => [i] | _ => [] end ++ h) (a1 ++ a2))
| step_release s h a i :
    i ∈ h -> step (mkWorld s h a) (mkWorld (release i s) h a)
| step_callback s h a f slot rest :
    loop_calls s = (f, slot) :: rest ->
    step (mkWorld s h a)
      (mkWorld (resolve_waiter f slot (mkState (lim s) (slots s) (futures s) rest)) h a)
| step_configure s h a tot per timeout qmax :
    step (mkWorld s h a) (mkWorld (configure s tot per timeout qmax) h a).

Definition reachable (w : World) : Prop :=
  exists tot per timeout qmax,
    rtc step (mkWorld (initial tot per timeout qmax) [] []) w.

(** ** Accounting: the counters are the live slots *)

Definition unreleased (sl : TurnSlot) : bool := negb (slot_released sl).
Definition unreleased_of (user : string) (sl : TurnSlot) : bool :=
  unreleased sl && bool_decide (slot_user sl = user).

Record counts_ok (s : State) : Prop := {
  co_total : in_flight (lim s) = countb unreleased (slots s);
  co_user u : user_count (lim s) u = countb (unreleased_of u) (slots s);
  co_wf : dict_wf (by_user (lim s));
  co_pos u n : dict_get (by_user (lim s)) u = Some n -> 0 < n
}.

Lemma user_count_set l n k m u :
  user_count (set_counts n (dict_set (by_user l) k m) l) u =
  if decide (k = u) then m else user_count l u.
Proof. unfold user_count; simpl. rewrite dict_get_set. by case_decide. Qed.

Lemma take_slot_counts s key : counts_ok s -> counts_ok (take_slot s key).1.
Proof.
  intros [Ht Hu Hw Hp]. split; simpl.
  - rewrite countb_app, Ht. simpl. lia.
  - intros u. rewrite user_count_set, countb_app. simpl.
    unfold unreleased_of at 2; simpl.
    case_decide; subst; [rewrite Hu, bool_decide_true by done|
      rewrite Hu, bool_decide_false by done]; lia.
  - by apply dict_wf_set.
  - intros u n. destruct (decide (key = u)) as [<-|Hne].
    + rewrite dict_get_set_eq. intros [= <-]. rewrite Hu.
      pose proof (countb_nonneg (unreleased_of key) (slots s)). lia.
    + rewrite dict_get_set_ne by done. apply Hp.
Qed.

Lemma counts_ok_ext s s' :
  counts_ok s -> in_flight (lim s') = in_flight (lim s) ->
  by_user (lim s') = by_user (lim s) -> slots s' = slots s -> counts_ok s'.
Proof.
  intros [Ht Hu Hw Hp] H1 H2 H3. split; rewrite ?H1, ?H2, ?H3; auto.
  intros u. unfold user_count. rewrite H2. apply Hu.
Qed.

Lemma grant_one_counts w s : counts_ok s -> counts_ok (grant_one w s).
Proof.
  intros H. eapply counts_ok_ext; [apply (take_slot_counts (drop_waiter w s) (w_key w))| | |].
  - by eapply counts_ok_ext; [exact H|..].
  - done.
  - done.
  - done.
Qed.

(** A property that every single grant keeps, [_grant_waiters] keeps. *)
Lemma grant_loop_ind (P : State -> Prop) snap s :
  (forall w s, P s -> P (grant_one w s)) -> P s -> P (grant_loop snap s).
Proof.
  intros HP. revert s. induction snap as [|w rest IH]; intros s Hs; simpl; [done|].
  repeat case_match; auto.
Qed.

Lemma uncount_user l key u :
  dict_wf (by_user l) -> 0 < user_count l key ->
  user_count (uncount key l) u = user_count l u - (if decide (key = u) then 1 else 0).
Proof.
  intros Hw Hpos. unfold uncount. destruct (0 <? user_count l key - 1) eqn:E; b2p.
  - rewrite user_count_set. case_decide; subst; lia.
  - unfold user_count; simpl. case_decide; subst.
    + rewrite dict_get_del_eq by done. unfold user_count in *. simpl. lia.
    + rewrite dict_get_del_ne by done. lia.
Qed.

Lemma uncount_dict l key :
  dict_wf (by_user l) -> (forall u n, dict_get (by_user l) u = Some n -> 0 < n) ->
  dict_wf (by_user (uncount key l)) /\
  (forall u n, dict_get (by_user (uncount key l)) u = Some n -> 0 < n).
Proof.
  intros Hw Hp. unfold uncount; simpl. destruct (0 <? user_count l key - 1) eqn:E; b2p.
  - split; [by apply dict_wf_set|]. intros u n. destruct (decide (key = u)) as [<-|Hne].
    + rewrite dict_get_set_eq. by intros [= <-].
    + rewrite dict_get_set_ne by done. apply Hp.
  - split; [by apply dict_wf_del|]. intros u n. destruct (decide (key = u)) as [<-|Hne].
    + by rewrite dict_get_del_eq.
    + rewrite dict_get_del_ne by done. apply Hp.
Qed.

Lemma release_user_counts s user i sl :
  counts_ok s -> slots s !! i = Some sl -> slot_released sl = false ->
  slot_user sl = user -> counts_ok (release_user user (mark_released i s)).
Proof.
  intros [Ht Hu Hw Hp] Hi Hr <-. unfold release_user, grant_waiters.
  apply grant_loop_ind; [apply grant_one_counts|].
  assert (Hin : sl ∈ slots s) by (by eapply list_elem_of_lookup_2).
  assert (Hun : unreleased sl = true) by (unfold unreleased; by rewrite Hr).
  pose proof (countb_pos unreleased _ _ Hin Hun).
  assert (Hpos : 0 < user_count (lim s) (slot_user sl)).
  { rewrite Hu. eapply countb_pos; [done|]. unfold unreleased_of.
    rewrite Hun, bool_decide_true; done. }
  destruct (uncount_dict (lim s) (slot_user sl) Hw Hp) as [Hw' Hp'].
  unfold mark_released. rewrite Hi. split; simpl lim; simpl slots; [|intros u|done|done].
  - rewrite (countb_insert _ _ _ sl) by done. rewrite Hun. simpl. rewrite Ht.
    case_match; zb.
  - rewrite (countb_insert _ _ _ sl), uncount_user, Hu by done.
    assert (unreleased_of u sl = bool_decide (slot_user sl = u)) as ->
      by (unfold unreleased_of; by rewrite Hun).
    change (unreleased_of u (mkSlot (slot_user sl) true)) with false.
    case_decide; case_bool_decide; try done; lia.
Qed.

Lemma release_counts i s : counts_ok s -> counts_ok (release i s).
Proof.
  intros H. unfold release. destruct (slots s !! i) as [sl|] eqn:Hi; [|done].
  destruct (slot_released sl) eqn:Hr; [done|]. by eapply release_user_counts.
Qed.

Lemma acquire_finally_counts s w wake :
  counts_ok s -> counts_ok (acquire_finally s w wake).
Proof.
  intros H. unfold acquire_finally.
  assert (Hd : counts_ok (drop_waiter w s)) by by eapply counts_ok_ext.
  repeat case_match; try apply release_counts; by eapply counts_ok_ext.
Qed.

Lemma configure_counts s a b c d : counts_ok s -> counts_ok (configure s a b c d).
Proof.
  intros H. unfold configure, grant_waiters.
  apply grant_loop_ind; [apply grant_one_counts|]. by eapply counts_ok_ext.
Qed.

Lemma resolve_waiter_counts f i s : counts_ok s -> counts_ok (resolve_waiter f i s).
Proof.
  intros H. unfold resolve_waiter. case_match; [by apply release_counts|].
  by eapply counts_ok_ext.
Qed.

(** ** The queue: oldest eligible waiter first, and nobody waits for a free slot *)

Definition is_blocked (s : State) (w : Waiter) : bool :=
  bool_decide (is_Some (blocked (lim s) (w_key w) (w_identified w))).

Definition eligible (s : State) (w : Waiter) : bool :=
  negb (future_done s (w_future w)) && negb (is_blocked s w).

(** The promise of the module's documentation: a freed slot goes to the oldest
    waiter that can take it, one grant at a time, re-deciding from the front of
    the queue after every grant. *)
Fixpoint oldest_first (fuel : nat) (s : State) : State :=
  match fuel with
  | O => s
  | S fuel' =>
      match List.find (eligible s) (waiters (lim s)) with
      | Some w => oldest_first fuel' (grant_one w s)
      | None => s
      end
  end.

(** Which limit stops a caller, as inequalities. *)
Lemma blocked_iff l k i :
  is_Some (blocked l k i) <->
  (0 < total l /\ total l <= in_flight l) \/
  (i = true /\ 0 < per_user l /\ per_user l <= user_count l k).
Proof.
  unfold blocked.
  destruct ((0 <? total l) && (total l <=? in_flight l)) eqn:E1.
  { split; [|eauto]. intros _. left. zb. }
  destruct (i && (0 <? per_user l) && (per_user l <=? user_count l k)) eqn:E2.
  { split; [|eauto]. intros _. right. b2p. split_and!; [done|lia|lia]. }
  split; [by intros [? ?]|]. intros [[H1 H2]|(-> & H1 & H2)]; b2p.
  - destruct E1; zb.
  - simpl in E2. destruct E2 as [E2|E2]; zb.
Qed.

Lemma blocked_mono l l' k i :
  total l' = total l -> per_user l' = per_user l ->
  in_flight l <= in_flight l' -> user_count l k <= user_count l' k ->
  is_Some (blocked l k i) -> is_Some (blocked l' k i).
Proof.
  rewrite !blocked_iff. intros -> -> ?? [?|(? & ? & ?)]; [left|right]; split_and!; (done || lia).
Qed.

Lemma blocked_at_total l k i :
  (0 <? total l) && (total l <=? in_flight l) = true -> is_Some (blocked l k i).
Proof. unfold blocked. intros ->. eauto. Qed.

Lemma grant_one_blocked w0 s w : is_blocked s w = true -> is_blocked (grant_one w0 s) w = true.
Proof.
  unfold is_blocked. rewrite !bool_decide_eq_true. apply blocked_mono; simpl; try done; [lia|].
  unfold user_count; simpl. rewrite dict_get_set. case_decide as E; [rewrite E; simpl|];
    unfold user_count; simpl; lia.
Qed.

Lemma grant_one_ineligible w0 s w : eligible s w = false -> eligible (grant_one w0 s) w = false.
Proof.
  unfold eligible. change (future_done (grant_one w0 s) (w_future w))
    with (future_done s (w_future w)).
  intros [->|H]%andb_false_iff; [done|].
  apply andb_false_iff; right. b2p. rewrite grant_one_blocked by done. done.
Qed.

Lemma remove_waiter_app pre w rest :
  NoDup (map w_future (pre ++ w :: rest)) -> remove_waiter w (pre ++ w :: rest) = pre ++ rest.
Proof.
  induction pre as [|x pre IH]; simpl; [by rewrite decide_True|].
  rewrite NoDup_cons. intros [Hx Hn]. rewrite decide_False; [by rewrite IH|].
  intros Heq. apply Hx. rewrite Heq. apply list_elem_of_fmap. exists w.
  rewrite elem_of_app, elem_of_cons. tauto.
Qed.

Lemma remove_waiter_sublist w ws : remove_waiter w ws `sublist_of` ws.
Proof.
  induction ws as [|x ws IH]; simpl; [done|].
  case_decide; [by apply sublist_cons|by apply sublist_skip].
Qed.

Lemma grant_one_waiters w s : waiters (lim (grant_one w s)) = remove_waiter w (waiters (lim s)).
Proof. done. Qed.

Lemma find_None_intro {A} (p : A -> bool) l :
  (forall x, x ∈ l -> p x = false) -> List.find p l = None.
Proof.
  induction l as [|x l IH]; intros H; simpl; [done|].
  rewrite (H x) by (apply elem_of_cons; by left).
  apply IH. intros y Hy. apply H, elem_of_cons. by right.
Qed.

Lemma find_app_skip {A} (p : A -> bool) pre l :
  (forall x, x ∈ pre -> p x = false) -> List.find p (pre ++ l) = List.find p l.
Proof.
  induction pre as [|x pre IH]; intros H; simpl; [done|].
  rewrite (H x) by (apply elem_of_cons; by left).
  apply IH. intros y Hy. apply H, elem_of_cons. by right.
Qed.

Lemma oldest_first_done n s :
  (forall w, w ∈ waiters (lim s) -> eligible s w = false) -> oldest_first n s = s.
Proof. intros H. destruct n; simpl; [done|]. by rewrite find_None_intro. Qed.

(** The single pass over a snapshot of the queue, with everything already passed
    over ineligible, is the restarting specification. *)
Lemma grant_loop_oldest_first rest : forall s pre n,
  waiters (lim s) = pre ++ rest -> NoDup (map w_future (waiters (lim s))) ->
  (forall w, w ∈ pre -> eligible s w = false) -> (length rest <= n)%nat ->
  grant_loop rest s = oldest_first n s.
Proof.
  induction rest as [|w rest IH]; intros s pre n Hw Hnd Hpre Hn; simpl.
  { symmetry. apply oldest_first_done. rewrite Hw, app_nil_r. done. }
  destruct ((0 <? total (lim s)) && (total (lim s) <=? in_flight (lim s))) eqn:Ht.
  { symmetry. apply oldest_first_done. intros x _. unfold eligible, is_blocked.
    rewrite bool_decide_true by by apply blocked_at_total. apply andb_false_r. }
  destruct (eligible s w) eqn:He.
  - replace (future_done s (w_future w) || bool_decide _) with false.
    2: { unfold eligible, is_blocked in He. apply andb_true_iff in He as [H1 H2].
         apply negb_true_iff in H1, H2. by rewrite H1, H2. }
    destruct n as [|n]; simpl in Hn; [lia|]. simpl.
    rewrite Hw, find_app_skip by done. simpl. rewrite He.
    apply (IH _ pre); rewrite ?grant_one_waiters, Hw in *.
    + by apply remove_waiter_app.
    + eapply sublist_NoDup; [exact Hnd|]. apply (fmap_sublist w_future), remove_waiter_sublist.
    + intros x Hx. by apply grant_one_ineligible, Hpre.
    + lia.
  - replace (future_done s (w_future w) || bool_decide _) with true.
    2: { unfold eligible, is_blocked in He. symmetry. apply orb_true_iff.
         apply andb_false_iff in He as [He|He]; apply negb_false_iff in He; eauto. }
    apply (IH _ (pre ++ [w])); [by rewrite <- app_assoc|done| |simpl in Hn; lia].
    intros x [Hx| ->%list_elem_of_singleton]%elem_of_app; auto.
Qed.

(** *** Invariants of the queue *)

Record queue_ok (s : State) : Prop := {
  qo_nodup : NoDup (map w_future (waiters (lim s)));
  qo_pending w : w ∈ waiters (lim s) -> futures s !! w_future w = Some Pending;
  qo_calls f i : (f, i) ∈ loop_calls s ->
    (f < length (futures s))%nat /\ f ∉ map w_future (waiters (lim s))
}.

Definition no_eligible (s : State) : Prop :=
  forall w, w ∈ waiters (lim s) -> is_blocked s w = true.

Lemma remove_waiter_gone w ws :
  NoDup (map w_future ws) -> w_future w ∉ map w_future (remove_waiter w ws).
Proof.
  induction ws as [|x ws IH]; simpl; [intros _; apply not_elem_of_nil|].
  rewrite NoDup_cons. intros [Hx Hn]. case_decide as E; [by rewrite <- E|].
  simpl. apply not_elem_of_cons. split; [done|by apply IH].
Qed.

Lemma queue_ok_sublist s s' :
  queue_ok s -> waiters (lim s') `sublist_of` waiters (lim s) ->
  futures s' = futures s -> loop_calls s' = loop_calls s -> queue_ok s'.
Proof.
  intros [Hn Hp Hc] Hs Hf Hl. split.
  - eapply sublist_NoDup; [exact Hn|]. by apply (fmap_sublist w_future).
  - intros w Hw. rewrite Hf. apply Hp. by eapply elem_of_sublist.
  - intros f i. rewrite Hl, Hf. intros Hi. destruct (Hc f i Hi) as [Hlt Hni].
    split; [done|]. intros Hx. apply Hni. eapply elem_of_sublist; [exact Hx|].
    by apply (fmap_sublist w_future).
Qed.

Lemma grant_one_queue_ok w s :
  queue_ok s -> w ∈ waiters (lim s) -> queue_ok (grant_one w s).
Proof.
  intros [Hn Hp Hc] Hw.
  assert (Hs : remove_waiter w (waiters (lim s)) `sublist_of` waiters (lim s))
    by apply remove_waiter_sublist.
  split; simpl.
  - eapply sublist_NoDup; [exact Hn|]. by apply (fmap_sublist w_future).
  - intros x Hx. apply Hp. by eapply elem_of_sublist.
  - intros f i [Hi|[= -> ->]%list_elem_of_singleton]%elem_of_app.
    + destruct (Hc f i Hi) as [Hlt Hni]. split; [done|]. intros Hx. apply Hni.
      eapply elem_of_sublist; [exact Hx|]. by apply (fmap_sublist w_future).
    + split; [by eapply lookup_lt_Some, Hp|by apply remove_waiter_gone].
Qed.

(** Every grant takes an eligible waiter of the queue. *)
Lemma oldest_first_ind (P : State -> Prop) n : forall s,
  (forall w s, P s -> w ∈ waiters (lim s) -> eligible s w = true -> P (grant_one w s)) ->
  P s -> P (oldest_first n s).
Proof.
  induction n as [|n IH]; intros s HP Hs; simpl; [done|].
  destruct (List.find _ _) as [w|] eqn:E; [|done].
  apply List.find_some in E as [Hin He]. apply IH; [done|].
  apply HP; [done|by apply list_elem_of_In|done].
Qed.

Lemma grant_waiters_oldest_first s :
  queue_ok s -> grant_waiters s = oldest_first (length (waiters (lim s))) s.
Proof.
  intros [Hn _ _]. apply (grant_loop_oldest_first _ _ []); try done.
  by intros w Hw%elem_of_nil.
Qed.

Lemma remove_waiter_length w ws :
  w ∈ ws -> length ws = S (length (remove_waiter w ws)).
Proof.
  induction ws as [|x ws IH]; [by intros ?%elem_of_nil|].
  rewrite elem_of_cons. intros H. simpl. case_decide; [done|].
  destruct H as [->|H]; [done|]. simpl. f_equal. by apply IH.
Qed.

Lemma oldest_first_none n : forall s,
  (length (waiters (lim s)) <= n)%nat ->
  forall w, w ∈ waiters (lim (oldest_first n s)) -> eligible (oldest_first n s) w = false.
Proof.
  induction n as [|n IH]; intros s Hn w; simpl.
  { destruct (waiters (lim s)); simpl in *; [by intros ?%elem_of_nil|lia]. }
  destruct (List.find _ _) as [w0|] eqn:Hf.
  - apply IH. rewrite grant_one_waiters. apply List.find_some in Hf as [Hin _].
    apply list_elem_of_In, remove_waiter_length in Hin. lia.
  - intros Hw. eapply List.find_none in Hf; [exact Hf|]. by apply list_elem_of_In.
Qed.

Lemma grant_waiters_queue s :
  queue_ok s -> queue_ok (grant_waiters s) /\ no_eligible (grant_waiters s).
Proof.
  intros H. assert (Hq : queue_ok (grant_waiters s)).
  { rewrite grant_waiters_oldest_first by done.
    apply oldest_first_ind; [intros; by apply grant_one_queue_ok|done]. }
  split; [done|]. intros w Hw. pose proof (oldest_first_none _ s (le_n _) w) as Ho.
  rewrite <- grant_waiters_oldest_first in Ho by done. specialize (Ho Hw).
  unfold eligible, future_done, future_of in Ho.
  rewrite (qo_pending _ Hq w Hw) in Ho. simpl in Ho. by apply negb_false_iff in Ho.
Qed.

Lemma release_queue i s :
  queue_ok s -> no_eligible s -> queue_ok (release i s) /\ no_eligible (release i s).
Proof.
  intros Hq Hn. unfold release. destruct (slots s !! i) as [sl|] eqn:Hi; [|done].
  case_match; [done|]. apply grant_waiters_queue.
  unfold mark_released. rewrite Hi. by eapply queue_ok_sublist.
Qed.

Lemma drop_waiter_queue w s :
  queue_ok s -> no_eligible s -> queue_ok (drop_waiter w s) /\ no_eligible (drop_waiter w s).
Proof.
  intros Hq Hn. split.
  - eapply queue_ok_sublist; [exact Hq|apply remove_waiter_sublist|done|done].
  - intros x Hx. apply (Hn x). eapply elem_of_sublist; [exact Hx|apply remove_waiter_sublist].
Qed.

Lemma set_future_queue f v s :
  f ∉ map w_future (waiters (lim s)) -> queue_ok s -> no_eligible s ->
  queue_ok (set_future f v s) /\ no_eligible (set_future f v s).
Proof.
  intros Hf [Hn Hp Hc] He. split; [|done]. split; [done| |]; simpl.
  - intros w Hw. rewrite list_lookup_insert_ne; [by apply Hp|].
    intros ->. apply Hf. apply list_elem_of_fmap. eauto.
  - intros g i. rewrite length_insert. apply Hc.
Qed.

(** *** Where the live slots are

    A slot is held by a caller, in a scheduled delivery, or in the resolved
    future of a suspended [acquire]. *)

Definition resolved (fs : list Future) (aw : list Waiter) : list nat :=
  omap (fun w => match fs !! w_future w with Some (Resolved i) => Some i | _ => None end) aw.

Definition transit (s : State) (aw : list Waiter) : list nat :=
  map snd (loop_calls s) ++ resolved (futures s) aw.

Definition live_slot (s : State) (i : nat) : Prop :=
  exists sl, slots s !! i = Some sl /\ slot_released sl = false.

Record refs_ok (h : list nat) (aw : list Waiter) (s : State) : Prop := {
  ro_nodup : NoDup (h ++ transit s aw);
  ro_live i : i ∈ transit s aw -> live_slot s i;
  ro_held i : i ∈ h -> (i < length (slots s))%nat;
  ro_cover i : live_slot s i -> i ∈ h ++ transit s aw
}.

Lemma live_slot_lt s i : live_slot s i -> (i < length (slots s))%nat.
Proof. intros (sl & H & _). by eapply lookup_lt_Some. Qed.

Lemma live_slot_snoc s s' key i :
  slots s' = slots s ++ [mkSlot key false] ->
  live_slot s' i <-> live_slot s i \/ i = length (slots s).
Proof.
  intros E. unfold live_slot. rewrite E. split.
  - intros (sl & [H|[Hl H]]%lookup_app_Some & Hr); [eauto|].
    destruct (i - length (slots s))%nat eqn:En; [right; lia|done].
  - intros [(sl & H & Hr)| ->].
    + exists sl. split; [by apply lookup_app_l_Some|done].
    + exists (mkSlot key false). split; [|done]. by rewrite list_lookup_middle.
Qed.

(** A fresh slot that enters the held list or the deliveries. *)
Lemma refs_ok_take h h' aw aw' s s' key :
  refs_ok h aw s -> slots s' = slots s ++ [mkSlot key false] ->
  h' ++ transit s' aw' ≡ₚ length (slots s) :: h ++ transit s aw ->
  (forall i, i ∈ transit s' aw' -> i ∈ transit s aw \/ i = length (slots s)) ->
  (forall i, i ∈ h' -> i ∈ h \/ i = length (slots s)) ->
  refs_ok h' aw' s'.
Proof.
  intros [Hn Hl Hh Hc] Es Hperm Htr Hh'.
  assert (Hlt : forall i, i ∈ h ++ transit s aw -> (i < length (slots s))%nat).
  { intros i [Hi|Hi]%elem_of_app; [by apply Hh|by apply live_slot_lt, Hl]. }
  split.
  - rewrite Hperm. apply NoDup_cons. split; [|done]. intros Hi%Hlt. lia.
  - intros i Hi. rewrite live_slot_snoc by done. destruct (Htr i Hi); eauto.
  - intros i Hi. rewrite Es, length_app. simpl. destruct (Hh' i Hi); [|lia].
    pose proof (Hh i ltac:(done)). lia.
  - intros i. rewrite live_slot_snoc by done. rewrite Hperm, elem_of_cons.
    intros [Hi%Hc|Hi]; eauto.
Qed.

Lemma refs_ok_grant_one h aw w s : refs_ok h aw s -> refs_ok h aw (grant_one w s).
Proof.
  intros H. eapply refs_ok_take; [exact H|done|..]; unfold transit; simpl;
    rewrite ?map_app; simpl.
  - solve_Permutation.
  - intros i. rewrite !elem_of_app, list_elem_of_singleton. tauto.
  - eauto.
Qed.

Lemma refs_ok_grant h aw s : refs_ok h aw s -> refs_ok h aw (grant_waiters s).
Proof. intros H. unfold grant_waiters. apply grant_loop_ind; [apply refs_ok_grant_one|done]. Qed.

(** [release i] for a slot that is no longer in transit. *)
Lemma refs_ok_release h aw s i :
  NoDup (h ++ transit s aw) -> (forall j, j ∈ transit s aw -> live_slot s j) ->
  (forall j, j ∈ h -> (j < length (slots s))%nat) ->
  (forall j, j <> i -> live_slot s j -> j ∈ h ++ transit s aw) ->
  i ∉ transit s aw -> refs_ok h aw (release i s).
Proof.
  intros Hn Hl Hh Hc Hi. unfold release. destruct (slots s !! i) as [sl|] eqn:Es.
  2: { split; auto. intros j Hj. apply Hc; [|done]. intros ->.
       destruct Hj as (? & ? & _). congruence. }
  destruct (slot_released sl) eqn:Er.
  { split; auto. intros j Hj. apply Hc; [|done]. intros ->.
    destruct Hj as (? & ? & ?). congruence. }
  unfold release_user. apply refs_ok_grant. unfold mark_released. rewrite Es.
  assert (Hlive : forall j, j <> i ->
    (exists sl', <[i:=mkSlot (slot_user sl) true]> (slots s) !! j = Some sl' /\
                 slot_released sl' = false) <-> live_slot s j).
  { intros j Hj. unfold live_slot. by rewrite list_lookup_insert_ne. }
  split; unfold transit in *; simpl; [done| | |].
  - intros j Hj. unfold live_slot; simpl. rewrite Hlive; [by apply Hl|]. by intros ->.
  - intros j. rewrite length_insert. apply Hh.
  - intros j Hj. destruct (decide (j = i)) as [->|Hne].
    + destruct Hj as (sl' & Hj & Hr). simpl in Hj.
      rewrite list_lookup_insert_eq in Hj by by eapply lookup_lt_Some. by simplify_eq.
    + apply Hc; [done|]. by apply Hlive.
Qed.

Lemma resolved_insert_notin f v fs aw :
  f ∉ map w_future aw -> resolved (<[f:=v]> fs) aw = resolved fs aw.
Proof.
  induction aw as [|w aw IH]; [done|]. simpl. intros [Hne Hni]%not_elem_of_cons.
  rewrite list_lookup_insert_ne by done. by rewrite IH.
Qed.

Lemma resolved_app fs a1 a2 : resolved fs (a1 ++ a2) = resolved fs a1 ++ resolved fs a2.
Proof. unfold resolved. by rewrite omap_app. Qed.

(** *** The invariant of the interleaved system *)

Record world_ok (w : World) : Prop := {
  wo_counts : counts_ok (st w);
  wo_queue : queue_ok (st w);
  wo_eligible : no_eligible (st w);
  wo_refs : refs_ok (held w) (awaiting w) (st w);
  wo_sub x : x ∈ waiters (lim (st w)) -> x ∈ awaiting w;
  wo_aw_nodup : NoDup (map w_future (awaiting w));
  wo_aw x : x ∈ awaiting w ->
    exists v, futures (st w) !! w_future x = Some v /\ v <> Cancelled;
  wo_pending f : futures (st w) !! f = Some Pending -> f ∈ map w_future (awaiting w)
}.

(** What grants and releases leave alone. *)
Definition queue_shrinks (s s' : State) : Prop :=
  futures s' = futures s /\ waiters (lim s') `sublist_of` waiters (lim s).

Lemma queue_shrinks_trans s1 s2 s3 :
  queue_shrinks s1 s2 -> queue_shrinks s2 s3 -> queue_shrinks s1 s3.
Proof. intros [E1 S1] [E2 S2]. split; [congruence|by transitivity (waiters (lim s2))]. Qed.

Lemma grant_waiters_shrinks s : queue_shrinks s (grant_waiters s).
Proof.
  unfold grant_waiters. apply (grant_loop_ind (queue_shrinks s)); [|done].
  intros w s' H. eapply queue_shrinks_trans; [exact H|].
  split; [done|apply remove_waiter_sublist].
Qed.

Lemma release_shrinks i s : queue_shrinks s (release i s).
Proof.
  unfold release. destruct (slots s !! i) eqn:Hi; [|done]. case_match; [done|].
  eapply queue_shrinks_trans; [|apply grant_waiters_shrinks].
  unfold mark_released. by rewrite Hi.
Qed.

Lemma world_ok_shrinks s s' h a :
  world_ok (mkWorld s h a) -> queue_shrinks s s' ->
  counts_ok s' -> queue_ok s' /\ no_eligible s' -> refs_ok h a s' ->
  world_ok (mkWorld s' h a).
Proof.
  intros [_ _ _ _ Hsub Hnd Haw Hp] [Ef Hs] Hc [Hq He] Hr.
  split; simpl in *; rewrite ?Ef; auto.
  intros x Hx. apply Hsub. by eapply elem_of_sublist.
Qed.

Lemma world_ok_release s h a i : world_ok (mkWorld s h a) -> i ∈ h ->
  world_ok (mkWorld (release i s) h a).
Proof.
  intros H Hi. pose proof H as [Hc Hq He [Hn Hl Hh Hcov] _ _ _ _]. simpl in *.
  apply world_ok_shrinks with (s := s); [done|apply release_shrinks|
    by apply release_counts|by apply release_queue|].
  apply refs_ok_release; auto. intros Ht.
  apply NoDup_app in Hn as (_ & Hd & _). by apply (Hd i).
Qed.

Lemma world_ok_configure s h a t p q m :
  world_ok (mkWorld s h a) -> world_ok (mkWorld (configure s t p q m) h a).
Proof.
  intros H. pose proof H as [Hc Hq He Hr _ _ _ _]. simpl in *.
  apply world_ok_shrinks with (s := s); [done| |by apply configure_counts| |].
  - eapply queue_shrinks_trans; [|apply grant_waiters_shrinks]. done.
  - apply grant_waiters_queue. by eapply queue_ok_sublist.
  - apply refs_ok_grant. destruct Hr. by split.
Qed.

Lemma take_slot_no_eligible s key : no_eligible s -> no_eligible (take_slot s key).1.
Proof.
  intros H w Hw. specialize (H w Hw). unfold is_blocked in *.
  rewrite bool_decide_eq_true in *. eapply blocked_mono; [..|exact H]; simpl; try done; [lia|].
  rewrite user_count_set. case_decide; subst; lia.
Qed.

Lemma world_ok_take s h a key :
  world_ok (mkWorld s h a) ->
  world_ok (mkWorld (take_slot s key).1 (length (slots s) :: h) a).
Proof.
  intros [Hc Hq He Hr Hsub Hnd Haw Hp]. split; simpl in *; auto.
  - by apply take_slot_counts.
  - by eapply queue_ok_sublist.
  - by apply take_slot_no_eligible.
  - eapply refs_ok_take; [exact Hr|done|done|by eauto|].
    intros i. rewrite elem_of_cons. tauto.
Qed.

Lemma resolved_snoc fs aw v :
  (forall x, x ∈ aw -> is_Some (fs !! w_future x)) ->
  resolved (fs ++ [v]) aw = resolved fs aw.
Proof.
  induction aw as [|x aw IH]; intros H; [done|]. simpl.
  rewrite lookup_app_l.
  - rewrite IH; [done|]. intros y Hy. apply H, elem_of_cons. by right.
  - apply lookup_lt_is_Some, H, elem_of_cons. by left.
Qed.

Lemma world_ok_enqueue s h a key ident ticket now tmo reason :
  world_ok (mkWorld s h a) -> blocked (lim s) key ident = Some reason ->
  let w := mkWaiter key ident (length (futures s)) ticket now tmo in
  world_ok (mkWorld (mkState (set_waiters (waiters (lim s) ++ [w]) (lim s)) (slots s)
                      (futures s ++ [Pending]) (loop_calls s)) h (w :: a)).
Proof.
  intros [Hc [Hn Hp Hcl] He Hr Hsub Hnd Haw Hpend] Hb w. simpl in *.
  assert (Hold : forall x, x ∈ a -> is_Some (futures s !! w_future x)).
  { intros x (v & Hv & _)%Haw. eauto. }
  assert (Hfresh : length (futures s) ∉ map w_future a).
  { intros (x & E & Hx)%list_elem_of_fmap.
    apply Hold in Hx. rewrite <- E in Hx. apply lookup_lt_is_Some in Hx. lia. }
  split; simpl.
  - by eapply counts_ok_ext.
  - split; simpl.
    + rewrite map_app, NoDup_app. split_and!; [done| |apply NoDup_singleton].
      intros x Hx ->%list_elem_of_singleton. apply Hfresh.
      apply list_elem_of_fmap in Hx as (y & E & Hy). apply list_elem_of_fmap.
      exists y. split; [done|by apply Hsub].
    + intros x [Hx| ->%list_elem_of_singleton]%elem_of_app; simpl.
      * by apply lookup_app_l_Some, Hp.
      * by rewrite list_lookup_middle.
    + intros f i Hi. destruct (Hcl f i Hi) as [Hlt Hni]. rewrite length_app; simpl.
      split; [lia|]. rewrite map_app, elem_of_app. simpl. rewrite list_elem_of_singleton.
      intros [?| ->]; [done|lia].
  - intros x [Hx| ->%list_elem_of_singleton]%elem_of_app.
    + by apply He.
    + unfold is_blocked. simpl. rewrite bool_decide_eq_true.
      change (blocked (set_waiters _ _)) with (blocked (lim s)). eauto.
  - assert (Ht : transit (mkState (set_waiters (waiters (lim s) ++ [w]) (lim s)) (slots s)
        (futures s ++ [Pending]) (loop_calls s)) (w :: a) = transit s a).
    { unfold transit; simpl. rewrite list_lookup_middle by done. by rewrite resolved_snoc. }
    destruct Hr as [H1 H2 H3 H4]. split; rewrite ?Ht; auto.
  - intros x [Hx| ->%list_elem_of_singleton]%elem_of_app; apply elem_of_cons; auto.
  - by apply NoDup_cons.
  - intros x [->|Hx]%elem_of_cons; simpl.
    + exists Pending. by rewrite list_lookup_middle.
    + destruct (Haw x Hx) as (v & Hv & Hne). exists v. split; [|done].
      by apply lookup_app_l_Some.
  - intros f [Hf|[Hle Hf]]%lookup_app_Some; apply elem_of_cons.
    + right. by apply Hpend.
    + left. destruct (f - length (futures s))%nat eqn:E; [lia|done].
Qed.

Lemma transit_split s a1 w a2 :
  transit s (a1 ++ w :: a2) ≡ₚ
  match futures s !! w_future w with Some (Resolved i) => [i] | _ => [] end
  ++ transit s (a1 ++ a2).
Proof.
  unfold transit. rewrite !resolved_app. simpl.
  destruct (futures s !! w_future w) as [[| |]|]; simpl; solve_Permutation.
Qed.

Lemma nodup_middle_futures a1 w a2 :
  NoDup (map w_future (a1 ++ w :: a2)) ->
  NoDup (map w_future (a1 ++ a2)) /\ w_future w ∉ map w_future (a1 ++ a2).
Proof.
  rewrite !map_app. simpl. intros H.
  rewrite <- Permutation_middle, NoDup_cons in H. tauto.
Qed.

(** A suspended [acquire] leaves: its waiter is out of the queue and its future
    is cancelled or handed over. *)
Lemma world_ok_leave s h h' a1 w a2 s' :
  world_ok (mkWorld s h (a1 ++ w :: a2)) -> queue_shrinks (drop_waiter w s) s' \/
    s' = set_future (w_future w) Cancelled (drop_waiter w s) ->
  counts_ok s' -> queue_ok s' /\ no_eligible s' -> refs_ok h' (a1 ++ a2) s' ->
  futures s' !! w_future w <> Some Pending ->
  world_ok (mkWorld s' h' (a1 ++ a2)).
Proof.
  intros [_ Hq0 _ _ Hsub Hnd Haw Hp] Hs' Hc [Hq He] Hr Hnp. simpl in *.
  apply nodup_middle_futures in Hnd as [Hnd Hw].
  assert (Hlook : forall f, f <> w_future w -> futures s' !! f = futures s !! f).
  { intros f Hf. destruct Hs' as [[-> _]| ->]; simpl; [done|by rewrite list_lookup_insert_ne]. }
  assert (Hws : waiters (lim s') `sublist_of` remove_waiter w (waiters (lim s))).
  { by destruct Hs' as [[_ ?]| ->]. }
  assert (Hin : forall x, x ∈ a1 ++ a2 -> x ∈ a1 ++ w :: a2).
  { intros x. rewrite !elem_of_app, elem_of_cons. tauto. }
  split; simpl; auto.
  - intros x Hx. assert (Hx' : x ∈ remove_waiter w (waiters (lim s))) by by eapply elem_of_sublist.
    assert (Hx1 : x ∈ a1 ++ w :: a2).
    { apply Hsub. eapply elem_of_sublist; [exact Hx'|apply remove_waiter_sublist]. }
    rewrite elem_of_app, elem_of_cons in Hx1. rewrite elem_of_app.
    destruct Hx1 as [?|[->|?]]; [tauto| |tauto]. exfalso.
    eapply remove_waiter_gone; [apply (qo_nodup _ Hq0)|]. apply list_elem_of_fmap. eauto.
  - intros x Hx. rewrite Hlook; [by apply Haw, Hin|].
    intros E. apply Hw. rewrite <- E. apply list_elem_of_fmap. eauto.
  - intros f Hf. destruct (decide (f = w_future w)) as [->|Hne]; [done|].
    rewrite Hlook in Hf by done. apply Hp in Hf.
    rewrite map_app in *. simpl in Hf. set_solver.
Qed.

(** The references once a suspended [acquire] is gone: what it was resolved with,
    if anything, is in the caller's hands or about to be released. *)
Lemma refs_ok_split s h a1 w a2 v :
  refs_ok h (a1 ++ w :: a2) s -> futures s !! w_future w = Some v ->
  let own := match v with Resolved i => [i] | _ => [] end in
  NoDup (h ++ own ++ transit s (a1 ++ a2)) /\
  (forall i, i ∈ own ++ transit s (a1 ++ a2) -> live_slot s i) /\
  (forall i, i ∈ h -> (i < length (slots s))%nat) /\
  (forall i, live_slot s i -> i ∈ h ++ own ++ transit s (a1 ++ a2)).
Proof.
  intros [Hn Hl Hh Hc] Hv own.
  assert (Hp : transit s (a1 ++ w :: a2) ≡ₚ own ++ transit s (a1 ++ a2)).
  { by rewrite transit_split, Hv. }
  split_and!; [by rewrite <- Hp| |done|].
  - intros i. rewrite <- Hp. apply Hl.
  - intros i. rewrite <- Hp. apply Hc.
Qed.

Section acquire_end.
Context (s : State) (h : list nat) (a1 : list Waiter) (w : Waiter) (a2 : list Waiter).
Hypothesis Hok : world_ok (mkWorld s h (a1 ++ w :: a2)).

Lemma leave_facts :
  counts_ok (drop_waiter w s) /\
  (queue_ok (drop_waiter w s) /\ no_eligible (drop_waiter w s)) /\
  exists v, futures s !! w_future w = Some v /\ v <> Cancelled.
Proof.
  pose proof Hok as [Hc Hq He _ _ _ Haw _]. simpl in *. split_and!.
  - by eapply counts_ok_ext.
  - by apply drop_waiter_queue.
  - by apply drop_waiter_queue.
  - apply Haw. rewrite elem_of_app, elem_of_cons. tauto.
Qed.

(** Timed out, aborted or cancelled with no grant delivered. *)
Lemma world_ok_end_pending :
  futures s !! w_future w = Some Pending ->
  world_ok (mkWorld (set_future (w_future w) Cancelled (drop_waiter w s)) h (a1 ++ a2)).
Proof.
  intros Hv. destruct leave_facts as (Hc & [Hq He] & _).
  pose proof Hok as [_ Hq0 _ Hr _ Hnd _ _]. simpl in *.
  destruct (refs_ok_split s h a1 w a2 _ Hr Hv) as (Hn & Hl & Hh & Hcov).
  apply nodup_middle_futures in Hnd as [_ Hni].
  apply world_ok_leave with (s := s) (h := h) (w := w); auto.
  - by eapply counts_ok_ext.
  - apply set_future_queue; [|done|done]. apply remove_waiter_gone, Hq0.
  - split; unfold transit in *; simpl in *; rewrite ?resolved_insert_notin by done; auto.
  - simpl. rewrite list_lookup_insert_eq; [done|]. by eapply lookup_lt_Some.
Qed.

(** A delivered slot, kept by the caller. *)
Lemma world_ok_end_kept slot :
  futures s !! w_future w = Some (Resolved slot) ->
  world_ok (mkWorld (drop_waiter w s) (slot :: h) (a1 ++ a2)).
Proof.
  intros Hv. destruct leave_facts as (Hc & HQ & _).
  pose proof Hok as [_ _ _ Hr _ _ _ _]. simpl in *.
  destruct (refs_ok_split s h a1 w a2 _ Hr Hv) as (Hn & Hl & Hh & Hcov).
  apply world_ok_leave with (s := s) (h := h) (w := w); auto; [by left| |simpl; by rewrite Hv].
  split; simpl in *.
  - by rewrite Permutation_middle.
  - intros i Hi. apply Hl, elem_of_cons. by right.
  - intros i [->|Hi]%elem_of_cons; [|by apply Hh].
    apply (live_slot_lt s), Hl, elem_of_cons. by left.
  - intros i Hi%Hcov. by rewrite <- Permutation_middle in Hi.
Qed.

(** A delivered slot handed straight back. *)
Lemma world_ok_end_returned slot :
  futures s !! w_future w = Some (Resolved slot) ->
  world_ok (mkWorld (release slot (drop_waiter w s)) h (a1 ++ a2)).
Proof.
  intros Hv. destruct leave_facts as (Hc & HQ & _).
  pose proof Hok as [_ _ _ Hr _ _ _ _]. simpl in *.
  destruct (refs_ok_split s h a1 w a2 _ Hr Hv) as (Hn & Hl & Hh & Hcov). simpl in *.
  pose proof (release_shrinks slot (drop_waiter w s)) as Hsh.
  rewrite <- Permutation_middle, NoDup_cons, elem_of_app in Hn. destruct Hn as [Hni Hn].
  apply world_ok_leave with (s := s) (h := h) (w := w); auto.
  - by apply release_counts.
  - by apply release_queue; apply HQ.
  - apply refs_ok_release; [done| |done| |tauto].
    + intros j Hj. apply Hl, elem_of_cons. by right.
    + intros j Hj Hlv%Hcov. rewrite elem_of_app, elem_of_cons in Hlv.
      rewrite elem_of_app. unfold transit in *; simpl in *. tauto.
  - destruct Hsh as [-> _]. simpl. by rewrite Hv.
Qed.

Lemma world_ok_acquire_end wake s' r :
  acquire_end s w wake = (s', r) ->
  world_ok (mkWorld s' (match r with Some (Some i, _) => [i] | _ => [] end ++ h) (a1 ++ a2)).
Proof.
  destruct leave_facts as (_ & _ & v & Hv & Hne).
  assert (Hlt : (w_future w < length (futures s))%nat) by by eapply lookup_lt_Some.
  unfold acquire_end, acquire_finally, future_of; simpl; rewrite Hv; simpl.
  destruct v as [|slot|]; [| |done].
  - simpl. rewrite list_lookup_insert_eq by done.
    destruct wake as [[]|]; intros [= <- <-]; by apply world_ok_end_pending.
  - destruct wake as [[]|]; simpl.
    + intros [= <- <-]. repeat case_match; simplify_eq; by apply world_ok_end_returned.
    + rewrite Hv. intros [= <- <-]. by apply world_ok_end_kept.
    + intros [= <- <-]. by apply world_ok_end_returned.
Qed.
End acquire_end.

Lemma world_ok_callback s h a f slot rest :
  world_ok (mkWorld s h a) -> loop_calls s = (f, slot) :: rest ->
  world_ok (mkWorld (resolve_waiter f slot
    (mkState (lim s) (slots s) (futures s) rest)) h a).
Proof.
  intros H El. pose proof H as [Hc [Hqn Hqp Hqc] He [Hn Hl Hh Hcov] Hsub Hnd Haw Hp].
  simpl in *. set (s0 := mkState (lim s) (slots s) (futures s) rest).
  assert (Htr : transit s a = slot :: transit s0 a) by (unfold transit; by rewrite El).
  rewrite Htr in *. rewrite <- Permutation_middle, NoDup_cons, elem_of_app in Hn.
  assert (Hc0 : counts_ok s0) by by eapply counts_ok_ext.
  assert (Hq0 : queue_ok s0).
  { split; [done|done|]. intros g i Hi. apply (Hqc g i). rewrite El. apply elem_of_cons. by right. }
  destruct (Hqc f slot) as [Hlt Hf]; [rewrite El; apply elem_of_cons; by left|].
  unfold resolve_waiter. destruct (future_done s0 f) eqn:Ed.
  - pose proof (release_shrinks slot s0).
    apply world_ok_shrinks with (s := s); [done|done|by apply release_counts|
      by apply release_queue|].
    apply refs_ok_release; [tauto| |done| |tauto].
    + intros j Hj. apply Hl, elem_of_cons. by right.
    + intros j Hj Hlv. apply Hcov in Hlv. rewrite elem_of_app, elem_of_cons in Hlv.
      rewrite elem_of_app. tauto.
  - assert (Hv : futures s !! f = Some Pending).
    { unfold future_done, future_of in Ed; simpl in Ed.
      destruct (futures s !! f) as [[]|] eqn:E; done. }
    destruct (set_future_queue f (Resolved slot) s0) as [Hq1 He1]; [done|done|done|].
    assert (Hfa : f ∈ map w_future a) by by apply Hp.
    apply list_elem_of_fmap in Hfa as (w & -> & Hw).
    apply list_elem_of_split in Hw as (a1 & a2 & ->).
    assert (Htr' : transit (set_future (w_future w) (Resolved slot) s0) (a1 ++ w :: a2)
                   ≡ₚ slot :: transit s0 (a1 ++ w :: a2)).
    { rewrite !transit_split. simpl. rewrite Hv, list_lookup_insert_eq by done. simpl.
      unfold transit; simpl.
      apply nodup_middle_futures in Hnd as [_ Hni]. by rewrite resolved_insert_notin. }
    split; simpl; auto.
    + by eapply counts_ok_ext.
    + split; auto.
      * rewrite Htr', <- Permutation_middle, NoDup_cons, elem_of_app. tauto.
      * intros i. rewrite Htr'. apply Hl.
      * intros i Hi. rewrite Htr'. by apply Hcov.
    + intros x Hx. destruct (decide (w_future x = w_future w)) as [->|Hne].
      * rewrite list_lookup_insert_eq by done. eauto.
      * rewrite list_lookup_insert_ne by done. by apply Haw.
    + intros g Hg. destruct (decide (g = w_future w)) as [->|Hne].
      * by rewrite list_lookup_insert_eq in Hg by done.
      * rewrite list_lookup_insert_ne in Hg by done. by apply Hp.
Qed.

Lemma world_ok_step w w' : world_ok w -> step w w' -> world_ok w'.
Proof.
  intros H Hs. destruct Hs as [s h a user s' slot reason E|s h a now user ticket s' r E|
    s h a1 w a2 wake s' r E|s h a i Hi|s h a f slot rest E|s h a tot per timeout qmax].
  - unfold try_acquire, take_slot in E. case_match; simplify_eq; simpl; [done|].
    by apply (world_ok_take s h a (user_key user)).
  - unfold acquire_begin, take_slot in E. repeat case_match; simplify_eq; simpl; try done.
    + by eapply world_ok_enqueue.
    + by apply (world_ok_take s h a (user_key user)).
  - by eapply world_ok_acquire_end.
  - by apply world_ok_release.
  - by apply world_ok_callback.
  - by apply world_ok_configure.
Qed.

Lemma reachable_ok w : reachable w -> world_ok w.
Proof.
  intros (t & p & q & m & Hr). eapply rtc_invariant; [exact world_ok_step|exact Hr|].
  assert (Hnil : forall (A : Type) (x : A), x ∈ [] -> False) by (by intros A x ?%elem_of_nil).
  split; simpl; try done; try (by intros ? ?%Hnil); [split|split|split|];
    simpl; try done; try constructor; try (by intros ? ?%Hnil);
    try (by match goal with H : _ |- _ => apply Hnil in H end).
  intros ? (sl & Hi & _). done.
Qed.

(** ** Caps *)

(** A waiter that did not identify itself waits under the shared key. *)
Definition keys_ok (s : State) : Prop :=
  forall x, x ∈ waiters (lim s) -> w_identified x = false -> w_key x = ANONYMOUS.

Lemma keys_ok_sublist s s' :
  keys_ok s -> waiters (lim s') `sublist_of` waiters (lim s) -> keys_ok s'.
Proof. intros H Hs x Hx. apply H. by eapply elem_of_sublist. Qed.

Lemma user_key_unidentified user : user_identified user = false -> user_key user = ANONYMOUS.
Proof. unfold user_key. destruct user; [|done]. by intros ->. Qed.

(** The counters went down, or they stay within the caps now in force. *)
Definition within_caps (l l' : Limiter) : Prop :=
  (in_flight l' <= in_flight l \/ total l' <= 0 \/ in_flight l' <= total l') /\
  (forall u, u <> ANONYMOUS ->
     user_count l' u <= user_count l u \/ per_user l' <= 0 \/ user_count l' u <= per_user l').

Lemma within_caps_trans l1 l2 l3 :
  within_caps l1 l2 -> within_caps l2 l3 -> total l3 = total l2 -> per_user l3 = per_user l2 ->
  within_caps l1 l3.
Proof.
  unfold within_caps. intros [H1 H2] [H3 H4] Et Ep. rewrite Et, Ep in *. split; [lia|].
  intros u Hu. specialize (H2 u Hu). specialize (H4 u Hu). lia.
Qed.

Lemma within_caps_refl l : within_caps l l.
Proof. split; [lia|]. intros; lia. Qed.

Lemma within_caps_same l l' :
  in_flight l' = in_flight l -> by_user l' = by_user l -> within_caps l l'.
Proof. intros E1 E2. split; [lia|]. intros u _. unfold user_count. rewrite E2. lia. Qed.

Lemma within_caps_take l key ident :
  blocked l key ident = None -> (ident = false -> key = ANONYMOUS) ->
  within_caps l (set_counts (in_flight l + 1)
                   (dict_set (by_user l) key (user_count l key + 1)) l).
Proof.
  intros Hb Hk. assert (Hn : ~ is_Some (blocked l key ident)) by (rewrite Hb; by intros [? ?]).
  rewrite blocked_iff in Hn. split; simpl; [lia|].
  intros u Hu. rewrite user_count_set. case_decide as E; [|lia]. subst u.
  destruct ident; [|by destruct (Hu (Hk eq_refl))].
  destruct (decide (0 < per_user l)); [|lia].
  destruct (decide (per_user l <= user_count l key)); [|lia]. destruct Hn. tauto.
Qed.

Lemma within_caps_uncount l key :
  dict_wf (by_user l) -> 0 <= user_count l key -> within_caps l (uncount key l).
Proof.
  intros Hw H0. unfold uncount. split; simpl; [case_match; zb|].
  intros u Hu. left. unfold user_count at 1; simpl. case_match; b2p.
  - rewrite dict_get_set. case_decide as E; [subst u|]; unfold user_count in *; simpl; lia.
  - rewrite dict_get_del by done. case_decide as E; [subst u|]; unfold user_count in *; simpl; lia.
Qed.

Definition same_caps (l l' : Limiter) : Prop := total l' = total l /\ per_user l' = per_user l.

Lemma within_caps_grant s :
  queue_ok s -> keys_ok s ->
  keys_ok (grant_waiters s) /\ same_caps (lim s) (lim (grant_waiters s)) /\
  within_caps (lim s) (lim (grant_waiters s)).
Proof.
  intros Hq Hk. rewrite grant_waiters_oldest_first by done.
  apply (oldest_first_ind (fun s' => keys_ok s' /\ same_caps (lim s) (lim s') /\
                                     within_caps (lim s) (lim s'))).
  2: { split_and!; [done|done|apply within_caps_refl]. }
  intros w s' (Hk' & [Et Ep] & Hc) Hw He. split_and!.
  - eapply keys_ok_sublist; [exact Hk'|apply remove_waiter_sublist].
  - done.
  - eapply within_caps_trans; [exact Hc| |done|done].
    apply andb_true_iff in He as [_ He]. unfold is_blocked in He.
    destruct (blocked (lim s') (w_key w) (w_identified w)) eqn:Hb; [done|].
    apply (within_caps_take (lim s') (w_key w) (w_identified w) Hb). by apply Hk'.
Qed.

Lemma within_caps_release i s :
  counts_ok s -> queue_ok s -> keys_ok s ->
  keys_ok (release i s) /\ within_caps (lim s) (lim (release i s)).
Proof.
  intros [_ Hu Hw _] Hq Hk. unfold release. destruct (slots s !! i) as [sl|] eqn:Hi.
  2: { split; [done|apply within_caps_refl]. }
  case_match; [split; [done|apply within_caps_refl]|].
  unfold release_user, mark_released. rewrite Hi.
  destruct (within_caps_grant (with_lim (uncount (slot_user sl)) (mkState (lim s)
    (<[i:=mkSlot (slot_user sl) true]> (slots s)) (futures s) (loop_calls s))))
    as (Hk' & [Et Ep] & Hc); [by eapply queue_ok_sublist|done|].
  split; [done|]. eapply within_caps_trans; [|exact Hc|done|done].
  apply within_caps_uncount; [done|]. rewrite Hu. apply countb_nonneg.
Qed.

Lemma within_caps_step w w' :
  world_ok w -> keys_ok (st w) -> step w w' ->
  keys_ok (st w') /\ within_caps (lim (st w)) (lim (st w')).
Proof.
  intros Hok Hk Hs. pose proof Hok as [Hc Hq _ _ _ _ _ _].
  destruct Hs as [s h a user s' slot reason E|s h a now user ticket s' r E|
    s h a1 w a2 wake s' r E|s h a i Hi|s h a f slot rest E|s h a tot per timeout qmax]; simpl in *.
  - unfold try_acquire, take_slot in E. case_match; simplify_eq; simpl;
      (split; [done|]); [apply within_caps_refl|].
    eapply within_caps_take; [done|apply user_key_unidentified].
  - unfold acquire_begin, take_slot in E. repeat case_match; simplify_eq; simpl;
      try (split; [done|apply within_caps_refl]).
    + split; [|by apply within_caps_same].
      intros x [Hx| ->%list_elem_of_singleton]%elem_of_app; [by apply Hk|].
      apply user_key_unidentified.
    + split; [done|]. eapply within_caps_take; [done|apply user_key_unidentified].
  - assert (s' = acquire_finally s w wake) as -> by (unfold acquire_end in E;
      by destruct wake; simplify_eq).
    assert (Hkd : keys_ok (drop_waiter w s)).
    { eapply keys_ok_sublist; [exact Hk|apply remove_waiter_sublist]. }
    destruct (leave_facts s h a1 w a2 Hok) as (Hc1 & [Hq1 _] & _).
    unfold acquire_finally. destruct (future_of _ _) as [|slot|];
      [split; [done|by apply within_caps_same]| |split; [done|by apply within_caps_same]].
    destruct (keeps_slot wake); [split; [done|by apply within_caps_same]|].
    exact (within_caps_release slot _ Hc1 Hq1 Hkd).
  - by apply within_caps_release.
  - unfold resolve_waiter. case_match; [|split; [done|apply within_caps_refl]].
    apply (within_caps_release slot (mkState (lim s) (slots s) (futures s) rest));
      [by eapply counts_ok_ext| |done].
    destruct Hq as [H1 H2 H3]. split; [done|done|]. intros g i Hi. apply (H3 g i).
    rewrite E. apply elem_of_cons. by right.
  - destruct (within_caps_grant (with_lim (fun l =>
      mkLimiter (default (total l) (Z.max 0 <$> tot)) (default (per_user l) (Z.max 0 <$> per))
        (default (queue_timeout l) (Z.max 0 <$> timeout))
        (default (queue_max l) (Z.max 0 <$> qmax))
        (in_flight l) (by_user l) (waiters l)) s)) as (Hk' & Hc' & Hw');
      [by eapply queue_ok_sublist|done|].
    assert (configure s tot per timeout qmax = grant_waiters (with_lim (fun l =>
      mkLimiter (default (total l) (Z.max 0 <$> tot)) (default (per_user l) (Z.max 0 <$> per))
        (default (queue_timeout l) (Z.max 0 <$> timeout))
        (default (queue_max l) (Z.max 0 <$> qmax))
        (in_flight l) (by_user l) (waiters l)) s)) as ->.
    { unfold configure. by destruct tot, per, timeout, qmax. }
    split; [done|]. destruct Hc' as [Et Ep].
    eapply within_caps_trans; [|exact Hw'|done|done]. by apply within_caps_same.
Qed.

Lemma reachable_keys w : reachable w -> keys_ok (st w).
Proof.
  intros (t & p & q & m & Hr).
  assert (H0 : world_ok (mkWorld (initial t p q m) [] [])).
  { apply reachable_ok. exists t, p, q, m. apply rtc_refl. }
  eapply (rtc_invariant_with _ world_ok (fun w => keys_ok (st w)));
    [exact world_ok_step| |exact Hr|exact H0|].
  - intros a b Ha Hk Hs. by apply (within_caps_step a b).
  - by intros x Hx%elem_of_nil.
Qed.

(** ** Properties *)

(** C1. No slot is ever leaked or double counted: in every reachable state of the
    interleaved limiter the in-flight counter is the number of unreleased slots
    and each user's counter the number of that user's; once no [acquire] is
    suspended, no delivery is scheduled and the callers have released what they
    hold, the limiter is back to zero with no user entry and an empty queue. *)
Theorem no_leak (w : World) (Hr : reachable w) :
  in_flight (lim (st w)) = countb unreleased (slots (st w)) /\
  (forall u, user_count (lim (st w)) u = countb (unreleased_of u) (slots (st w))) /\
  (awaiting w = [] -> loop_calls (st w) = [] ->
   (forall i, i ∈ held w -> ~ live_slot (st w) i) ->
   in_flight (lim (st w)) = 0 /\ by_user (lim (st w)) = [] /\ waiters (lim (st w)) = []).
Proof.
  apply reachable_ok in Hr as [[Ht Hu Hw Hp] _ _ [_ _ _ Hc] Hsub _ _ _].
  split_and!; [done|done|]. intros Ea El Hh. unfold transit in Hc.
  rewrite Ea, El in Hc. simpl in Hc.
  assert (Hz : forall sl, sl ∈ slots (st w) -> unreleased sl = false).
  { intros sl [i Hi]%list_elem_of_lookup. unfold unreleased.
    destruct (slot_released sl) eqn:Er; [done|]. exfalso.
    assert (Hl : live_slot (st w) i) by (exists sl; done).
    apply (Hh i); [|done]. apply Hc in Hl. by rewrite app_nil_r in Hl. }
  split_and!.
  - rewrite Ht. by apply countb_all_false.
  - destruct (by_user (lim (st w))) as [|[u n] d] eqn:Eb; [done|]. exfalso.
    assert (Hn : dict_get (by_user (lim (st w))) u = Some n).
    { rewrite Eb. simpl. by rewrite decide_True. }
    pose proof (Hp u n ltac:(by rewrite <- Eb)) as Hpos. specialize (Hu u).
    unfold user_count in Hu. rewrite Hn in Hu. simpl in Hu.
    rewrite (countb_all_false (unreleased_of u)) in Hu; [lia|].
    intros sl Hsl. unfold unreleased_of. by rewrite (Hz sl Hsl).
  - destruct (waiters (lim (st w))) as [|x ws] eqn:Ew; [done|]. exfalso.
    specialize (Hsub x). rewrite Ea in Hsub. apply (elem_of_nil x), Hsub.
    rewrite ?Ew. apply elem_of_cons. by left.
Qed.

(** No lost wake-up: in every reachable state each queued waiter is stopped by
    a cap right now, so a caller that [try_acquire] or [acquire] admits at once
    never jumps ahead of a waiter that could have taken the slot. *)
Theorem queue_work_conserving (w : World) (Hr : reachable w) (x : Waiter)
    (Hx : x ∈ waiters (lim (st w))) :
  is_Some (blocked (lim (st w)) (w_key x) (w_identified x)) /\
  futures (st w) !! w_future x = Some Pending.
Proof.
  apply reachable_ok in Hr as [_ Hq He _ _ _ _ _]. split; [|by apply Hq].
  specialize (He x Hx). by apply bool_decide_eq_true in He.
Qed.

(** The single pass of [_grant_waiters] over a snapshot of the queue implements
    the documented policy: repeatedly give one slot to the oldest waiter that can
    take it, re-deciding from the front of the queue after every grant. *)
Theorem grant_is_oldest_first (s : State) (Hq : queue_ok s) :
  grant_waiters s = oldest_first (length (waiters (lim s))) s /\
  no_eligible (grant_waiters s).
Proof. split; [by apply grant_waiters_oldest_first|by apply grant_waiters_queue]. Qed.

(** Admission respects the caps: whatever operation runs, the number of turns
    in flight either does not grow or stays within the global cap in force after
    it, and the same holds for every identified user and the per-user cap (a cap
    of 0 is disabled). *)
Theorem admission_within_caps (w w' : World) (Hr : reachable w) (Hs : step w w') :
  let l := lim (st w) in
  let l' := lim (st w') in
  (in_flight l' <= in_flight l \/ total l' <= 0 \/ in_flight l' <= total l') /\
  (forall u, u <> ANONYMOUS ->
     user_count l' u <= user_count l u \/ per_user l' <= 0 \/ user_count l' u <= per_user l').
Proof.
  apply (within_caps_step w w'); [by apply reachable_ok|by apply reachable_keys|done].
Qed.

(** ** Witnesses

    One global slot, one per user: "a" holds it, "b" queues behind. *)

Definition ex0 : World := mkWorld (initial 1 1 1000 4) [] [].
Definition ex1 : World := mkWorld (try_acquire (st ex0) (Some "a")).1 [0%nat] [].
Definition exb : Waiter := mkWaiter "b" true 0 (Some "t") 5 1000.
Definition ex2 : World :=
  mkWorld (acquire_begin (st ex1) 5 (Some "b") (Some "t")).1 [0%nat] [exb].
Definition ex1_released : World := mkWorld (release 0 (st ex1)) [0%nat] [].

Lemma ex_step01 : step ex0 ex1.
Proof. by apply (step_try_acquire _ _ _ (Some "a") _ (Some 0%nat) None). Qed.

Lemma ex_reachable1 : reachable ex1.
Proof. exists 1, 1, 1000, 4. eapply rtc_l; [apply ex_step01|apply rtc_refl]. Qed.

Lemma ex_reachable2 : reachable ex2.
Proof.
  destruct ex_reachable1 as (t & p & q & m & H). exists t, p, q, m.
  eapply rtc_r; [exact H|]. by apply (step_acquire_begin _ _ _ 5 (Some "b") (Some "t") _ (Queued exb)).
Qed.

Lemma ex_reachable_released : reachable ex1_released.
Proof.
  destruct ex_reachable1 as (t & p & q & m & H). exists t, p, q, m.
  eapply rtc_r; [exact H|]. apply step_release, elem_of_cons. by left.
Qed.

Lemma no_leak_witness :
  reachable ex1_released /\ in_flight (lim (st ex1_released)) = 0 /\
  by_user (lim (st ex1_released)) = [] /\ waiters (lim (st ex1_released)) = [].
Proof.
  split; [exact ex_reachable_released|].
  apply (no_leak ex1_released ex_reachable_released); [done|done|].
  intros i Hi (sl & Hsl & Hr). apply list_elem_of_singleton in Hi as ->.
  vm_compute in Hsl. injection Hsl as <-. discriminate Hr.
Defined.

Lemma queue_work_conserving_witness :
  reachable ex2 /\ exb ∈ waiters (lim (st ex2)) /\ is_Some (blocked (lim (st ex2)) "b" true).
Proof.
  assert (Hin : exb ∈ waiters (lim (st ex2))) by (apply elem_of_cons; by left).
  split; [exact ex_reachable2|]. split; [exact Hin|].
  apply (queue_work_conserving ex2 ex_reachable2 exb Hin).
Defined.

Lemma grant_is_oldest_first_witness :
  queue_ok (st ex2) /\ no_eligible (grant_waiters (st ex2)).
Proof.
  assert (H : queue_ok (st ex2)) by apply (wo_queue _ (reachable_ok _ ex_reachable2)).
  split; [exact H|]. apply (grant_is_oldest_first _ H).
Defined.

Lemma admission_within_caps_witness :
  reachable ex0 /\ step ex0 ex1 /\
  (in_flight (lim (st ex1)) <= in_flight (lim (st ex0)) \/ total (lim (st ex1)) <= 0 \/
   in_flight (lim (st ex1)) <= total (lim (st ex1))).
Proof.
  assert (H : reachable ex0) by (exists 1, 1, 1000, 4; apply rtc_refl).
  split; [exact H|]. split; [exact ex_step01|].
  apply (admission_within_caps ex0 ex1 H ex_step01).
Defined.

(** Releasing the slot of "a" grants the queued "b" in the same critical section. *)
Example ex2_release_grants :
  loop_calls (release 0 (st ex2)) = [(0%nat, 1%nat)] /\
  in_flight (lim (release 0 (st ex2))) = 1 /\ by_user (lim (release 0 (st ex2))) = [("b", 1)].
Proof. vm_compute. done. Qed.
