(* ===== verification/OwnerLocks.v ===== *)
(** Which gateway process holds a session's CLI
    ([src/src/handoff/owners.py], [OwnerLocks]).

    Several processes share a directory of lock files.  The kernel is modelled at
    system-call granularity: the directory, the open file descriptions with their
    inodes, the [flock] each one holds and the files' contents.  A process runs
    [acquire]/[release] one at a time (its [_mutex]), one system call per step,
    while the other processes interleave, probe the files ([owner]) and crash.

    An inode number is reused only when no path and no open description refers to
    it, which is what makes the [st_ino] comparison of [acquire] meaningful. *)

From S2P Require Import Prelude.

(** ** Names *)

Definition slash : Ascii.ascii := Ascii.ascii_of_nat 47.
Definition newline : Ascii.ascii := Ascii.ascii_of_nat 10.

(** [_safe_name]: [Err] is its [ValueError]. *)
Definition safe_name (session_id : string) : result string string :=
  if bool_decide (session_id = "") || has_char slash session_id
     || String.prefix "." session_id
  then Err "invalid session id" else Ok session_id.

(** ** The kernel *)

Inductive LockMode := LockEx | LockSh.
#[export] Instance LockMode_eq_dec : EqDecision LockMode.
Proof. solve_decision. Defined.

Record Kernel := mkKernel {
  dir : gmap string nat;            (* path -> inode *)
  ofds : gmap nat (nat * nat);      (* open file description -> (process, inode) *)
  flocks : gmap nat LockMode;       (* descriptions that hold a lock *)
  contents : gmap nat string        (* inode -> file content *)
}.

Definition inode_of (k : Kernel) (fd : nat) : option nat := snd <$> ofds k !! fd.

(** No path and no description refers to the inode. *)
Definition unused_inode (k : Kernel) (i : nat) : Prop :=
  (forall n, dir k !! n <> Some i) /\ (forall fd p, ofds k !! fd <> Some (p, i)).

(** [os.open(path, O_RDWR | O_CREAT)]; [newfd]/[newino] are the numbers the kernel picks. *)
Definition sys_open_creat (p : nat) (n : string) (newfd newino : nat) (k : Kernel) : Kernel :=
  match dir k !! n with
  | Some i => mkKernel (dir k) (<[newfd := (p, i)]> (ofds k)) (flocks k) (contents k)
  | None => mkKernel (<[n := newino]> (dir k)) (<[newfd := (p, newino)]> (ofds k))
              (flocks k) (<[newino := ""]> (contents k))
  end.

(** [os.open(path, O_RDONLY)]: [None] is the [OSError] of a missing file. *)
Definition sys_open_read (p : nat) (n : string) (newfd : nat) (k : Kernel) : option Kernel :=
  match dir k !! n with
  | Some i => Some (mkKernel (dir k) (<[newfd := (p, i)]> (ofds k)) (flocks k) (contents k))
  | None => None
  end.

(** Another description of the same inode holds a conflicting lock. *)
Definition conflicts (k : Kernel) (fd : nat) (mode : LockMode) : Prop :=
  exists fd' m', fd' <> fd /\ flocks k !! fd' = Some m' /\
    inode_of k fd' = inode_of k fd /\ (mode = LockEx \/ m' = LockEx).

Definition conflict_entry (k : Kernel) (fd : nat) (mode : LockMode) (e : nat * LockMode) : bool :=
  negb (bool_decide (e.1 = fd)) && bool_decide (inode_of k e.1 = inode_of k fd) &&
  match mode, e.2 with LockSh, LockSh => false | _, _ => true end.

Definition conflictsb (k : Kernel) (fd : nat) (mode : LockMode) : bool :=
  existsb (conflict_entry k fd mode) (map_to_list (flocks k)).

(** [fcntl.flock(fd, mode | LOCK_NB)]: [None] is [BlockingIOError]. *)
Definition sys_flock (fd : nat) (mode : LockMode) (k : Kernel) : option Kernel :=
  if conflictsb k fd mode then None
  else Some (mkKernel (dir k) (ofds k) (<[fd := mode]> (flocks k)) (contents k)).

(** [os.close(fd)]: the description goes, and its lock with it. *)
Definition sys_close (fd : nat) (k : Kernel) : Kernel :=
  mkKernel (dir k) (delete fd (ofds k)) (delete fd (flocks k)) (contents k).

Definition sys_unlink (n : string) (k : Kernel) : Kernel :=
  mkKernel (delete n (dir k)) (ofds k) (flocks k) (contents k).

Definition sys_write (fd : nat) (c : string) (k : Kernel) : Kernel :=
  match inode_of k fd with
  | Some i => mkKernel (dir k) (ofds k) (flocks k) (<[i := c]> (contents k))
  | None => k
  end.

(** [os.fstat(fd).st_ino == os.stat(path).st_ino], [False] on a missing path. *)
Definition same_inode (n : string) (fd : nat) (k : Kernel) : bool :=
  match inode_of k fd, dir k !! n with
  | Some i, Some j => bool_decide (i = j)
  | _, _ => false
  end.

(** ** One process's [OwnerLocks] *)

(** Where the thread inside [_mutex] is. *)
Inductive Pc :=
| AtOpen (n : string) (tok : nat) (tries : nat)
| AtFlock (n : string) (tok : nat) (tries : nat) (fd : nat)
| AtStat (n : string) (tok : nat) (tries : nat) (fd : nat)
| AtTruncate (n : string) (tok : nat) (fd : nat)
| AtWrite (n : string) (tok : nat) (fd : nat)
| AtUnlink (n : string) (fd : nat)
| AtClose (fd : nat).

Record System := mkSystem {
  kernel : Kernel;
  held : gmap (nat * string) (nat * gset nat);   (* process and id -> fd, tokens *)
  pcs : gmap nat Pc;                             (* absent: the mutex is free *)
  probes : gset nat                              (* descriptions of [owner] calls *)
}.

Definition init_system : System := mkSystem (mkKernel ∅ ∅ ∅ ∅) ∅ ∅ ∅.

Definition with_kernel (k : Kernel) (s : System) : System :=
  mkSystem k (held s) (pcs s) (probes s).
Definition goto (p : nat) (c : Pc) (s : System) : System :=
  mkSystem (kernel s) (held s) (<[p := c]> (pcs s)) (probes s).
Definition leave (p : nat) (s : System) : System :=
  mkSystem (kernel s) (held s) (delete p (pcs s)) (probes s).
Definition hold (p : nat) (n : string) (e : nat * gset nat) (s : System) : System :=
  mkSystem (kernel s) (<[(p, n) := e]> (held s)) (pcs s) (probes s).
Definition unhold (p : nat) (n : string) (s : System) : System :=
  mkSystem (kernel s) (delete (p, n) (held s)) (pcs s) (probes s).

(** How a call ended: [acquire] returned [True], [False] or raised
    [OSError(EAGAIN)]; [release] returned. *)
Inductive Outcome := Acquired | HeldElsewhere | KeptBeingReplaced | Released.

(** The number of attempts of [acquire] ([range(8)]). *)
Definition ATTEMPTS : nat := 8.

(** [acquire] on entry: the token joins a lock this process holds already, or the
    file protocol starts. *)
Definition acquire_enter (p : nat) (n : string) (tok : nat) (s : System)
    : System * option Outcome :=
  match held s !! (p, n) with
  | Some (fd, toks) => (hold p n (fd, {[tok]} ∪ toks) s, Some Acquired)
  | None => (goto p (AtOpen n tok ATTEMPTS) s, None)
  end.

(** [release] on entry. *)
Definition release_enter (p : nat) (n : string) (tok : nat) (s : System) : System :=
  match held s !! (p, n) with
  | None => s
  | Some (fd, toks) =>
      let toks' := toks ∖ {[tok]} in
      if decide (toks' = ∅) then goto p (AtUnlink n fd) (unhold p n s)
      else hold p n (fd, toks') s
  end.

Section protocol.
(** The record a process writes: its instance name and boot id. *)
Context (record : nat -> string).

(** The next system call of process [p]'s thread, with what the call it
    completes returned. *)
Definition thread_step (p newfd newino : nat) (s : System) : System * option Outcome :=
  let k := kernel s in
  match pcs s !! p with
  | None => (s, None)
  | Some (AtOpen n tok O) => (leave p s, Some KeptBeingReplaced)
  | Some (AtOpen n tok (S tries)) =>
      (goto p (AtFlock n tok tries newfd) (with_kernel (sys_open_creat p n newfd newino k) s),
       None)
  | Some (AtFlock n tok tries fd) =>
      match sys_flock fd LockEx k with
      | None => (leave p (with_kernel (sys_close fd k) s), Some HeldElsewhere)
      | Some k' => (goto p (AtStat n tok tries fd) (with_kernel k' s), None)
      end
  | Some (AtStat n tok tries fd) =>
      if same_inode n fd k then (goto p (AtTruncate n tok fd) s, None)
      else (goto p (AtOpen n tok tries) (with_kernel (sys_close fd k) s), None)
  | Some (AtTruncate n tok fd) =>
      (goto p (AtWrite n tok fd) (with_kernel (sys_write fd "" k) s), None)
  | Some (AtWrite n tok fd) =>
      (leave p (hold p n (fd, {[tok]}) (with_kernel (sys_write fd (record p) k) s)),
       Some Acquired)
  | Some (AtUnlink n fd) => (goto p (AtClose fd) (with_kernel (sys_unlink n k) s), None)
  | Some (AtClose fd) => (leave p (with_kernel (sys_close fd k) s), Some Released)
  end.

(** The process dies: the kernel closes its descriptions and drops their locks. *)
Definition crash (p : nat) (s : System) : System :=
  let k := kernel s in
  let dead := dom (filter (fun e : nat * (nat * nat) => e.2.1 = p) (ofds k)) in
  mkSystem
    (mkKernel (dir k) (filter (fun e => e.2.1 <> p) (ofds k))
       (filter (fun e => e.1 ∉ dead) (flocks k)) (contents k))
    (filter (fun e => e.1.1 <> p) (held s)) (delete p (pcs s)) (probes s ∖ dead).

Inductive step : System -> System -> Prop :=
| step_acquire s p n tok :
    pcs s !! p = None -> safe_name n = Ok n -> step s (acquire_enter p n tok s).1
| step_release s p n tok :
    pcs s !! p = None -> step s (release_enter p n tok s)
| step_thread s p newfd newino :
    ofds (kernel s) !! newfd = None -> unused_inode (kernel s) newino ->
    step s (thread_step p newfd newino s).1
| step_probe_open s p n newfd k' :
    ofds (kernel s) !! newfd = None -> sys_open_read p n newfd (kernel s) = Some k' ->
    step s (mkSystem k' (held s) (pcs s) ({[newfd]} ∪ probes s))
| step_probe_lock s fd k' :
    fd ∈ probes s -> sys_flock fd LockSh (kernel s) = Some k' -> step s (with_kernel k' s)
| step_probe_close s fd :
    fd ∈ probes s ->
    step s (mkSystem (sys_close fd (kernel s)) (held s) (pcs s) (probes s ∖ {[fd]}))
| step_crash s p : step s (crash p s).

Definition reachable (s : System) : Prop := rtc step init_system s.
End protocol.

(** [holds] *)
Definition holds (p : nat) (n : string) (s : System) : bool :=
  bool_decide (is_Some (held s !! (p, n))).

(** [owner] when nothing runs between its system calls: this instance's own name,
    the name in the file of whoever holds it, [None] when nobody does. *)
Definition owner (me : string) (p : nat) (n : string) (newfd : nat) (s : System) : option string :=
  match safe_name n with
  | Err _ => None
  | Ok n =>
      if holds p n s then Some me
      else match sys_open_read p n newfd (kernel s) with
           | None => None
           | Some k1 =>
               match sys_flock newfd LockSh k1 with
               | Some _ => None
               | None =>
                   match inode_of k1 newfd with
                   | Some i => Some (strip (before_char newline
                         (String.substring 0 256 (default "" (contents k1 !! i)))))
                   | None => None
                   end
               end
           end
  end.

(** ** The invariant *)

Definition pc_fd (c : Pc) : option nat :=
  match c with
  | AtOpen _ _ _ => None
  | AtFlock _ _ _ fd | AtStat _ _ _ fd | AtTruncate _ _ fd | AtWrite _ _ fd
  | AtUnlink _ fd | AtClose fd => Some fd
  end.

(** The id an [acquire] or a [release] past its [del] is working on. *)
Definition pc_name (c : Pc) : option string :=
  match c with
  | AtOpen n _ _ | AtFlock n _ _ _ | AtStat n _ _ _ | AtTruncate n _ _ | AtWrite n _ _
  | AtUnlink n _ => Some n
  | AtClose _ => None
  end.

(** From the verified lock to the unlink: the process owns the id. *)
Definition pc_owns (c : Pc) : option (string * nat) :=
  match c with
  | AtTruncate n _ fd | AtWrite n _ fd | AtUnlink n fd => Some (n, fd)
  | _ => None
  end.

Definition owns (s : System) (p : nat) (n : string) (fd : nat) : Prop :=
  (exists toks, held s !! (p, n) = Some (fd, toks)) \/
  (exists c, pcs s !! p = Some c /\ pc_owns c = Some (n, fd)).

(** Who uses a description: each has one user. *)
Inductive User := UHeld (p : nat) (n : string) | UPc (p : nat) | UProbe.
#[export] Instance User_eq_dec : EqDecision User.
Proof. solve_decision. Defined.

Definition uses (s : System) (fd : nat) (u : User) : Prop :=
  match u with
  | UHeld p n => exists toks, held s !! (p, n) = Some (fd, toks)
  | UPc p => exists c, pcs s !! p = Some c /\ pc_fd c = Some fd
  | UProbe => fd ∈ probes s
  end.

Definition user_is (u : User) (q : nat) : Prop :=
  match u with UHeld p _ | UPc p => q = p | UProbe => True end.

Record inv (s : System) : Prop := {
  iv_own p n fd : owns s p n fd -> exists i,
    dir (kernel s) !! n = Some i /\ ofds (kernel s) !! fd = Some (p, i) /\
    flocks (kernel s) !! fd = Some LockEx;
  iv_stat p n tok tries fd :
    pcs s !! p = Some (AtStat n tok tries fd) -> flocks (kernel s) !! fd = Some LockEx;
  iv_excl fd fd' m i q q' :
    flocks (kernel s) !! fd = Some LockEx -> flocks (kernel s) !! fd' = Some m ->
    ofds (kernel s) !! fd = Some (q, i) -> ofds (kernel s) !! fd' = Some (q', i) -> fd = fd';
  iv_dom fd m : flocks (kernel s) !! fd = Some m -> is_Some (ofds (kernel s) !! fd);
  iv_uniq fd u u' : uses s fd u -> uses s fd u' -> u = u';
  iv_open fd u : uses s fd u ->
    exists q i, ofds (kernel s) !! fd = Some (q, i) /\ user_is u q;
  iv_name p c n : pcs s !! p = Some c -> pc_name c = Some n -> held s !! (p, n) = None
}.

(** At most one process owns an id, through one description. *)
Lemma inv_owns_unique s p q n fd fd' :
  inv s -> owns s p n fd -> owns s q n fd' -> p = q /\ fd = fd'.
Proof.
  intros [Ho _ Hx _ _ _ _] H1 H2.
  destruct (Ho _ _ _ H1) as (i & D1 & O1 & L1). destruct (Ho _ _ _ H2) as (j & D2 & O2 & L2).
  simplify_eq. assert (fd = fd') as -> by eauto. by simplify_eq.
Qed.

Lemma owns_uses s p n fd : owns s p n fd -> uses s fd (UHeld p n) \/ uses s fd (UPc p).
Proof.
  intros [?|(c & Hc & Ho)]; [by left|right]. exists c. split; [done|].
  destruct c; simplify_eq/=; done.
Qed.

Lemma init_inv : inv init_system.
Proof.
  split; simpl; try (intros; simplify_map_eq; done).
  - intros p n fd [[? H]|(? & H & _)]; by simplify_map_eq.
  - intros fd u u'. destruct u; simpl; [intros [? H]|intros (? & H & _)|intros H];
      [by simplify_map_eq..|set_solver].
  - intros fd u. destruct u; simpl; [intros [? H]|intros (? & H & _)|intros H];
      [by simplify_map_eq..|set_solver].
Qed.

(** A step of process [p] that keeps the kernel and hands its description on. *)
Lemma conflictsb_false k fd mode :
  conflictsb k fd mode = false -> forall fd' m, fd' <> fd -> flocks k !! fd' = Some m ->
  inode_of k fd' = inode_of k fd -> mode = LockSh /\ m = LockSh.
Proof.
  unfold conflictsb. intros H fd' m Hne Hl Hi.
  destruct (decide (mode = LockSh /\ m = LockSh)) as [?|Hn]; [done|].
  assert (Ht : existsb (conflict_entry k fd mode) (map_to_list (flocks k)) = true); [|congruence].
  apply existsb_exists. exists (fd', m). split; [by apply list_elem_of_In, elem_of_map_to_list|].
  unfold conflict_entry; simpl. rewrite bool_decide_false, bool_decide_true by done. simpl.
  destruct mode, m; try done. tauto.
Qed.

Definition owned_fact (k : Kernel) (p : nat) (n : string) (fd : nat) : Prop :=
  exists i, dir k !! n = Some i /\ ofds k !! fd = Some (p, i) /\ flocks k !! fd = Some LockEx.

Definition names_ok (s : System) : Prop :=
  forall p c n, pcs s !! p = Some c -> pc_name c = Some n -> held s !! (p, n) = None.

Definition stat_ok (s : System) : Prop :=
  forall p n tok tries fd,
    pcs s !! p = Some (AtStat n tok tries fd) -> flocks (kernel s) !! fd = Some LockEx.

(** Steps that open, close, lock and unlink nothing. *)
Definition kernel_same (k k' : Kernel) : Prop :=
  dir k' = dir k /\ ofds k' = ofds k /\ flocks k' = flocks k.

Section quiet_steps.
Context (s s' : System).
Hypothesis Hinv : inv s.
Hypothesis Hk : kernel_same (kernel s) (kernel s').
Hypothesis Hown : forall p n fd,
  owns s' p n fd -> owns s p n fd \/ owned_fact (kernel s) p n fd.
Hypothesis Hst : stat_ok s'.
Hypothesis Hn : names_ok s'.

Lemma inv_quiet :
  (forall fd u u', uses s' fd u -> uses s' fd u' -> u = u') ->
  (forall fd u, uses s' fd u ->
     exists q i, ofds (kernel s) !! fd = Some (q, i) /\ user_is u q) -> inv s'.
Proof.
  intros Hu Hop. destruct Hinv as [Ho _ Hx Hd _ _ _]. destruct Hk as (Ed & Eo & Ef).
  unfold stat_ok in Hst. rewrite Ef in Hst. split; rewrite ?Ed, ?Eo, ?Ef; auto.
  intros p n fd [H|H]%Hown; [by apply Ho|done].
Qed.

(** No description changes hands. *)
Lemma inv_sub : (forall fd u, uses s' fd u -> uses s fd u) -> inv s'.
Proof.
  intros Hs. destruct Hinv as [_ _ _ _ Hu Hop _]. apply inv_quiet.
  - intros fd u u' H1%Hs H2%Hs. by apply (Hu fd).
  - intros fd u H%Hs. by apply Hop.
Qed.

(** One description [fd0] passes from [uold] to [unew]. *)
Lemma inv_move fd0 uold unew :
  uses s fd0 uold -> (forall q, user_is uold q -> user_is unew q) ->
  (forall fd u, uses s' fd u ->
     (uses s fd u /\ ~ (fd = fd0 /\ u = uold)) \/ (fd = fd0 /\ u = unew)) -> inv s'.
Proof.
  intros H0 Hq Hs. destruct Hinv as [_ _ _ _ Hu Hop _]. apply inv_quiet.
  - assert (Hnew : forall u, uses s fd0 u -> ~ (fd0 = fd0 /\ u = uold) -> False).
    { intros u Hu' Hne. apply Hne. split; [done|]. by apply (Hu fd0). }
    intros fd u u' H1 H2.
    destruct (Hs _ _ H1) as [[H1' N1]|[-> ->]]; destruct (Hs _ _ H2) as [[H2' N2]|[E ->]];
      subst; [by apply (Hu fd)|by edestruct Hnew|by edestruct Hnew|done].
  - intros fd u H. destruct (Hs _ _ H) as [[H' _]|[-> ->]]; [by apply Hop|].
    destruct (Hop _ _ H0) as (q & i & E & Hqu). exists q, i. eauto.
Qed.
End quiet_steps.

Lemma owns_hold s p n fd toks q m fd' :
  owns (hold p n (fd, toks) s) q m fd' ->
  owns s q m fd' \/ (q = p /\ m = n /\ fd' = fd).
Proof.
  intros [[t H]|H]; simpl in *; [|left; by right].
  apply lookup_insert_Some in H as [[[= <- <-] [= <- <-]]|[_ H]]; [by right|left; left; eauto].
Qed.

Lemma uses_hold s p n fd toks fd' u :
  uses (hold p n (fd, toks) s) fd' u ->
  (uses s fd' u /\ u <> UHeld p n) \/ (fd' = fd /\ u = UHeld p n).
Proof.
  destruct u; simpl; [|by left|by left]. intros [t H].
  apply lookup_insert_Some in H as [[[= <- <-] [= <- <-]]|[Hne H]]; [by right|left].
  split; [eauto|congruence].
Qed.

Lemma owns_goto s p c q m fd :
  owns (goto p c s) q m fd -> owns s q m fd \/ (q = p /\ pc_owns c = Some (m, fd)).
Proof.
  intros [H|(c' & H & Hc)]; [left; by left|]. simpl in H.
  apply lookup_insert_Some in H as [[<- <-]|[_ H]]; [by right|left; right; eauto].
Qed.

Lemma uses_goto s p c fd u :
  uses (goto p c s) fd u ->
  (uses s fd u /\ u <> UPc p) \/ (u = UPc p /\ pc_fd c = Some fd).
Proof.
  destruct u as [| |]; simpl; [by left| |by left]. intros (c' & H & Hc).
  apply lookup_insert_Some in H as [[<- <-]|[Hne H]]; [by right|left].
  split; [eauto|congruence].
Qed.

Lemma owns_leave s p q m fd : owns (leave p s) q m fd -> owns s q m fd.
Proof.
  intros [H|(c' & H & Hc)]; [by left|]. simpl in H.
  apply lookup_delete_Some in H as [_ H]. right; eauto.
Qed.

Lemma uses_leave s p fd u : uses (leave p s) fd u -> uses s fd u /\ u <> UPc p.
Proof.
  destruct u; simpl; [done| |done]. intros (c' & H & Hc).
  apply lookup_delete_Some in H as [Hne H]. split; [eauto|congruence].
Qed.

Lemma owns_unhold s p n q m fd : owns (unhold p n s) q m fd -> owns s q m fd.
Proof.
  intros [[t H]|H]; [|by right]. simpl in H.
  apply lookup_delete_Some in H as [_ H]. left; eauto.
Qed.

Lemma uses_unhold s p n fd u : uses (unhold p n s) fd u -> uses s fd u /\ u <> UHeld p n.
Proof.
  destruct u; simpl; [|done|done]. intros [t H].
  apply lookup_delete_Some in H as [Hne H]. split; [eauto|congruence].
Qed.

Lemma names_goto s p c :
  names_ok s -> (forall n, pc_name c = Some n -> held s !! (p, n) = None) ->
  names_ok (goto p c s).
Proof.
  intros H Hc q c' n Hq Hn. simpl in *.
  apply lookup_insert_Some in Hq as [[<- <-]|[_ Hq]]; [by apply Hc|by eapply H].
Qed.

Lemma names_leave s p : names_ok s -> names_ok (leave p s).
Proof. intros H q c n Hq. simpl in *. apply lookup_delete_Some in Hq as [_ Hq]. by apply H. Qed.

Lemma names_unhold s p n : names_ok s -> names_ok (unhold p n s).
Proof.
  intros H q c m Hq Hm. simpl in *. apply lookup_delete_None. right. by eapply H.
Qed.

(** An entry may be written only when no other call of the process works on it. *)
Lemma names_hold s p n e :
  names_ok s -> (forall c, pcs s !! p = Some c -> pc_name c <> Some n) ->
  names_ok (hold p n e s).
Proof.
  intros H Hc q c m Hq Hm. simpl in *. rewrite lookup_insert_ne; [by eapply H|].
  intros [= -> ->]. by eapply Hc.
Qed.

Lemma stat_goto s p c :
  stat_ok s -> (forall n tok t fd, c = AtStat n tok t fd -> flocks (kernel s) !! fd = Some LockEx) ->
  stat_ok (goto p c s).
Proof.
  intros H Hc q n tok t fd Hq. simpl in *.
  apply lookup_insert_Some in Hq as [[<- ->]|[_ Hq]]; [by eapply Hc|by eapply H].
Qed.

Lemma stat_leave s p : stat_ok s -> stat_ok (leave p s).
Proof.
  intros H q n tok t fd Hq. simpl in *. apply lookup_delete_Some in Hq as [_ Hq]. by eapply H.
Qed.

Lemma inv_stat_ok s : inv s -> stat_ok s.
Proof. intros H p n tok t fd. apply (iv_stat _ H). Qed.

Lemma inv_names_ok s : inv s -> names_ok s.
Proof. intros H p c n. apply (iv_name _ H). Qed.

#[local] Hint Resolve inv_stat_ok inv_names_ok names_leave names_unhold stat_leave : core.

Lemma kernel_same_refl k : kernel_same k k.
Proof. done. Qed.

Lemma acquire_enter_inv p n tok s :
  inv s -> pcs s !! p = None -> inv (acquire_enter p n tok s).1.
Proof.
  intros H Hp. unfold acquire_enter. destruct (held s !! (p, n)) as [[fd toks]|] eqn:Hh; simpl.
  - apply (inv_sub s); auto using kernel_same_refl.
    + intros q m fd' [Ho|(-> & -> & ->)]%owns_hold; left; [done|left; eauto].
    + intros q m t k fd'. apply (inv_stat_ok s H).
    + apply names_hold; [auto|]. intros c Hc. congruence.
    + intros fd' u [[Hu _]|[-> ->]]%uses_hold; [done|simpl; eauto].
  - apply (inv_sub s); auto using kernel_same_refl.
    + intros q m fd' [Ho|[-> Ho]]%owns_goto; [by left|done].
    + apply stat_goto; [auto|done].
    + apply names_goto; [auto|]. by intros m [= <-].
    + intros fd' u [[Hu _]|[-> Hu]]%uses_goto; [done|done].
Qed.

Lemma release_enter_inv p n tok s :
  inv s -> pcs s !! p = None -> inv (release_enter p n tok s).
Proof.
  intros H Hp. unfold release_enter. destruct (held s !! (p, n)) as [[fd toks]|] eqn:Hh; [|done].
  case_decide.
  - apply (inv_move s _ H) with (fd0 := fd) (uold := UHeld p n) (unew := UPc p).
    + apply kernel_same_refl.
    + intros q m fd' [Ho|[-> Ho]]%owns_goto; left; [by apply owns_unhold in Ho|].
      injection Ho as <- <-. left; eauto.
    + apply stat_goto; [exact (inv_stat_ok s H)|done].
    + apply names_goto; [auto|]. intros m [= <-]. simpl. by rewrite lookup_delete_eq.
    + simpl; eauto.
    + done.
    + intros fd' u [[Hu Hne]|[-> [= <-]]]%uses_goto; [left|by right].
      apply uses_unhold in Hu as [Hu Hne']. split; [done|]. by intros [_ ->].
  - apply (inv_sub s); auto using kernel_same_refl.
    + intros q m fd' [Ho|(-> & -> & ->)]%owns_hold; left; [done|left; eauto].
    + exact (inv_stat_ok s H).
    + apply names_hold; [auto|]. intros c Hc. congruence.
    + intros fd' u [[Hu _]|[-> ->]]%uses_hold; [done|simpl; eauto].
Qed.

(** A description is opened for the user [u0]; paths only appear. *)
Lemma inv_opened s s' newfd q i u0 :
  inv s -> ofds (kernel s) !! newfd = None ->
  ofds (kernel s') = <[newfd := (q, i)]> (ofds (kernel s)) ->
  flocks (kernel s') = flocks (kernel s) ->
  (forall n j, dir (kernel s) !! n = Some j -> dir (kernel s') !! n = Some j) ->
  (forall p n fd, owns s' p n fd -> owns s p n fd) ->
  (forall fd u, uses s' fd u -> uses s fd u \/ (fd = newfd /\ u = u0)) ->
  user_is u0 q -> stat_ok s' -> names_ok s' -> inv s'.
Proof.
  intros [Ho _ Hx Hd Hu Hop _] Hnew Eo Ef Hdir Hown Huse Hq Hst Hn.
  unfold stat_ok in Hst. rewrite Ef in Hst.
  assert (Hfresh : forall u, ~ uses s newfd u).
  { intros u (? & ? & E & _)%Hop. congruence. }
  split; rewrite ?Eo, ?Ef; auto.
  - intros p n fd (j & H1 & H2 & H3)%Hown%Ho. exists j. split_and!; [auto| |done].
    rewrite lookup_insert_ne; [done|congruence].
  - intros fd fd' m j p p' L1 L2.
    destruct (Hd _ _ L1) as [? E1], (Hd _ _ L2) as [? E2].
    rewrite !lookup_insert_ne by congruence. by apply Hx with m.
  - intros fd m [x E]%Hd. exists x. rewrite lookup_insert_ne; [done|congruence].
  - intros fd u u' H1 H2. destruct (Huse _ _ H1) as [H1'|[-> ->]];
      destruct (Huse _ _ H2) as [H2'|[E ->]]; subst; [by apply (Hu fd)|
      by destruct (Hfresh u)|by destruct (Hfresh u')|done].
  - intros fd u H. destruct (Huse _ _ H) as [H'|[-> ->]].
    + destruct (Hop _ _ H') as (p & j & E & Hp). exists p, j.
      rewrite lookup_insert_ne; [done|congruence].
    + exists q, i. by rewrite lookup_insert_eq.
Qed.

(** A description that owns nothing takes a lock no other description conflicts with. *)
Lemma inv_locked s fd mode k' x :
  inv s -> ofds (kernel s) !! fd = Some x -> sys_flock fd mode (kernel s) = Some k' ->
  (forall p n, ~ owns s p n fd) -> (forall p n tok t, pcs s !! p <> Some (AtStat n tok t fd)) ->
  inv (with_kernel k' s).
Proof.
  intros [Ho Hst Hx Hd Hu Hop Hn] Hfd Hl Hno Hns. unfold sys_flock in Hl.
  destruct (conflictsb _ _ _) eqn:Hc; [done|]. injection Hl as <-.
  pose proof (conflictsb_false _ _ _ Hc) as Hc'. unfold inode_of in Hc'.
  assert (Hex : forall fd' m j p p', fd' <> fd -> flocks (kernel s) !! fd' = Some m ->
    ofds (kernel s) !! fd = Some (p, j) -> ofds (kernel s) !! fd' = Some (p', j) ->
    mode = LockSh /\ m = LockSh).
  { intros fd' m j p p' Hne Hm E1 E2. apply (Hc' fd'); [done|done|]. by rewrite E1, E2. }
  split; simpl; auto.
  - intros p n f Hf. destruct (Ho _ _ _ Hf) as (i & H1 & H2 & H3). exists i.
    split_and!; [done|done|]. rewrite lookup_insert_ne; [done|]. intros ->. by apply (Hno p n).
  - intros p n tok t f Hf. rewrite lookup_insert_ne; [by eapply Hst|].
    intros ->. by apply (Hns p n tok t).
  - intros f f' m j p p' L1 L2 O1 O2.
    apply lookup_insert_Some in L1 as [[<- ->]|[Hne L1]];
      apply lookup_insert_Some in L2 as [[<- <-]|[Hne' L2]]; [done| | |by apply Hx with m j p p'].
    + destruct (Hex f' m j p p') as [? _]; done.
    + destruct (Hex f LockEx j p' p) as [_ ?]; done.
  - intros f m [[<- <-]|[_ Hf]]%lookup_insert_Some; [eauto|by eapply Hd].
Qed.

(** The last user of a description closes it. *)
Lemma inv_closed s s' fd :
  inv s -> kernel s' = sys_close fd (kernel s) ->
  (forall p n f, owns s' p n f -> owns s p n f /\ f <> fd) ->
  (forall f u, uses s' f u -> uses s f u /\ f <> fd) ->
  (forall p n tok t f, pcs s' !! p = Some (AtStat n tok t f) ->
     pcs s !! p = Some (AtStat n tok t f)) ->
  names_ok s' -> inv s'.
Proof.
  intros [Ho Hst Hx Hd Hu Hop _] Ek Hown Huse Hs Hn. split; rewrite ?Ek; simpl; auto.
  - intros p n f [Hf Hne]%Hown. destruct (Ho _ _ _ Hf) as (i & H1 & H2 & H3). exists i.
    by rewrite !lookup_delete_ne by done.
  - intros p n tok t f Hf. destruct (Huse f (UPc p)) as [_ Hne].
    { simpl. eexists. split; [exact Hf|done]. }
    rewrite lookup_delete_ne by done. by eapply Hst, Hs.
  - intros f f' m j p p' [_ L1]%lookup_delete_Some [_ L2]%lookup_delete_Some
      [_ O1]%lookup_delete_Some [_ O2]%lookup_delete_Some. by apply Hx with m j p p'.
  - intros f m [Hne Hf]%lookup_delete_Some. rewrite lookup_delete_ne by done. by eapply Hd.
  - intros f u u' [H1 _]%Huse [H2 _]%Huse. by apply (Hu f).
  - intros f u [H Hne]%Huse. rewrite lookup_delete_ne by done. by apply Hop.
Qed.

(** [release] unlinks the file of an id only it owns. *)
Lemma inv_unlinked s s' p n fd :
  inv s -> owns s p n fd -> kernel s' = sys_unlink n (kernel s) ->
  (forall q m f, owns s' q m f -> owns s q m f /\ (q, m) <> (p, n)) ->
  (forall f u, uses s' f u -> uses s f u) ->
  (forall q m tok t f, pcs s' !! q = Some (AtStat m tok t f) ->
     pcs s !! q = Some (AtStat m tok t f)) ->
  names_ok s' -> inv s'.
Proof.
  intros Hi Hpn Ek Hown Huse Hs Hn. pose proof Hi as [Ho Hst Hx Hd Hu Hop _].
  split; rewrite ?Ek; simpl; auto.
  - intros q m f [Hf Hne]%Hown. destruct (Ho _ _ _ Hf) as (i & H1 & H2 & H3). exists i.
    split_and!; [|done|done]. rewrite lookup_delete_ne; [done|].
    intros <-. apply Hne. f_equal. symmetry. by eapply (inv_owns_unique s p q n fd f).
  - intros q m tok t f Hf. by eapply Hst, Hs.
  - intros f u u' H1%Huse H2%Huse. by apply (Hu f).
Qed.

Lemma pc_use s p c fd : pcs s !! p = Some c -> pc_fd c = Some fd -> uses s fd (UPc p).
Proof. simpl; eauto. Qed.

(** A thread's description is used by nobody else. *)
Lemma pc_fd_private s p c fd q m :
  inv s -> pcs s !! p = Some c -> pc_fd c = Some fd -> pc_owns c = None -> ~ owns s q m fd.
Proof.
  intros Hi Hp Hfd Ho Hown. pose proof (iv_uniq _ Hi) as Hu.
  assert (Hpu : uses s fd (UPc p)) by by eapply pc_use.
  destruct Hown as [[t H]|(c' & Hc' & Hoc)].
  - assert (UHeld q m = UPc p) by (apply (Hu fd); simpl; eauto). done.
  - assert (Hq : uses s fd (UPc q)).
    { eapply pc_use; [exact Hc'|]. destruct c'; simplify_eq/=; done. }
    pose proof (Hu _ _ _ Hpu Hq) as [= ->]. simplify_eq.
Qed.

Lemma owns_kernel k s q m fd : owns (with_kernel k s) q m fd <-> owns s q m fd.
Proof. done. Qed.

Lemma uses_kernel k s fd u : uses (with_kernel k s) fd u <-> uses s fd u.
Proof. by destruct u. Qed.

(** Closing the thread's private description while the thread moves to [c'] or away. *)
Lemma close_step_inv s p c fd (next : option Pc) :
  inv s -> pcs s !! p = Some c -> pc_fd c = Some fd -> pc_owns c = None ->
  (forall c', next = Some c' -> pc_fd c' = None /\ pc_owns c' = None /\ pc_name c' = pc_name c) ->
  let s1 := with_kernel (sys_close fd (kernel s)) s in
  inv (match next with Some c' => goto p c' s1 | None => leave p s1 end).
Proof.
  intros Hi Hp Hfd Hno Hnext s1. pose proof (pc_use _ _ _ _ Hp Hfd) as Hpu.
  assert (Hn1 : names_ok s1) by exact (inv_names_ok s Hi).
  apply (inv_closed s _ fd); [done| | | | |].
  - destruct next; reflexivity.
  - intros q m f H. assert (H' : owns s q m f).
    { destruct next as [c'|]; [|apply owns_leave in H; exact H].
      destruct (Hnext c' eq_refl) as (_ & Hc & _).
      apply owns_goto in H as [H|[_ H]]; [exact H|congruence]. }
    split; [done|]. intros ->. by eapply pc_fd_private.
  - intros f u H. assert (H' : uses s f u /\ u <> UPc p).
    { destruct next as [c'|]; [|by apply uses_leave in H as [H%uses_kernel Hne]].
      destruct (Hnext c' eq_refl) as (Hc & _).
      apply uses_goto in H as [[H%uses_kernel Hne]|[_ H]]; [done|congruence]. }
    destruct H' as [H1 H2]. split; [done|]. intros ->. apply H2. by eapply (iv_uniq _ Hi).
  - intros q m tok t f H. destruct next as [c'|]; simpl in H.
    + apply lookup_insert_Some in H as [[_ ->]|[_ H]]; [|done].
      destruct (Hnext _ eq_refl) as (Hc & _). discriminate Hc.
    + by apply lookup_delete_Some in H as [_ H].
  - destruct next as [c'|]; [|by apply names_leave]. apply names_goto; [done|].
    destruct (Hnext c' eq_refl) as (_ & _ & Hc). intros m Hm.
    apply (iv_name _ Hi p c m Hp). congruence.
Qed.

Section steps.
Context (record : nat -> string) (s : System).
Hypothesis Hi : inv s.

Lemma open_step_inv p n tok tries newfd newino :
  pcs s !! p = Some (AtOpen n tok (S tries)) -> ofds (kernel s) !! newfd = None ->
  unused_inode (kernel s) newino ->
  inv (goto p (AtFlock n tok tries newfd)
         (with_kernel (sys_open_creat p n newfd newino (kernel s)) s)).
Proof.
  intros Hp Hnew _. set (k' := sys_open_creat p n newfd newino (kernel s)).
  assert (exists i, ofds k' = <[newfd := (p, i)]> (ofds (kernel s))) as [i Eo].
  { unfold k', sys_open_creat. case_match; simpl; eauto. }
  assert (Ef : flocks k' = flocks (kernel s)).
  { unfold k', sys_open_creat. by case_match. }
  apply (inv_opened s _ newfd p i (UPc p));
    [done|done|exact Eo|exact Ef| | | |reflexivity| | ].
  - intros m j Hm. simpl. unfold k', sys_open_creat. destruct (dir (kernel s) !! n) eqn:Hd; [done|].
    simpl. rewrite lookup_insert_ne; [done|congruence].
  - by intros q m fd [H%owns_kernel|[_ H]]%owns_goto.
  - intros fd u [[H%uses_kernel _]|[-> [= <-]]]%uses_goto; eauto.
  - apply stat_goto; [|done]. intros q m t k fd. simpl. rewrite Ef. apply (iv_stat _ Hi).
  - apply names_goto; [exact (inv_names_ok s Hi)|]. intros m [= <-]. by eapply (iv_name _ Hi).
Qed.

Lemma flock_step_inv p n tok tries fd k' :
  pcs s !! p = Some (AtFlock n tok tries fd) -> sys_flock fd LockEx (kernel s) = Some k' ->
  inv (goto p (AtStat n tok tries fd) (with_kernel k' s)).
Proof.
  intros Hp Hl. pose proof (pc_use s p _ fd Hp eq_refl) as Hpu.
  destruct (iv_open _ Hi _ _ Hpu) as (q & i & E & Hq).
  assert (Hi' : inv (with_kernel k' s)).
  { apply (inv_locked s fd LockEx k' (q, i)); auto.
    - intros q' m. by eapply pc_fd_private.
    - intros q' m tok' t Hq'. pose proof (pc_use s q' _ fd Hq' eq_refl) as Hqu.
      pose proof (iv_uniq _ Hi _ _ _ Hpu Hqu). by simplify_eq. }
  apply (inv_sub _ _ Hi'); [by apply kernel_same_refl| | | |].
  - intros q' m f [H|[_ H]]%owns_goto; [by left|done].
  - apply stat_goto; [by apply inv_stat_ok|]. intros ???? [= -> -> -> ->]. simpl.
    unfold sys_flock in Hl. case_match; [done|]. injection Hl as <-. simpl.
    by rewrite lookup_insert_eq.
  - apply names_goto; [exact (inv_names_ok s Hi)|]. intros m [= <-]. by eapply (iv_name _ Hi).
  - intros f u [[H _]|[-> [= <-]]]%uses_goto; done.
Qed.

Lemma stat_step_inv p n tok tries fd :
  pcs s !! p = Some (AtStat n tok tries fd) -> same_inode n fd (kernel s) = true ->
  inv (goto p (AtTruncate n tok fd) s).
Proof.
  intros Hp Hs. pose proof (pc_use s p _ fd Hp eq_refl) as Hpu.
  destruct (iv_open _ Hi _ _ Hpu) as (q & i & E & ->).
  unfold same_inode, inode_of in Hs. rewrite E in Hs. simpl in Hs.
  destruct (dir (kernel s) !! n) as [j|] eqn:Hd; [|done]. b2p. subst j.
  apply (inv_sub _ _ Hi); [by apply kernel_same_refl| | | |].
  - intros q' m f [H|[-> [= <- <-]]]%owns_goto; [by left|right].
    exists i. split_and!; [done|done|]. by eapply (iv_stat _ Hi).
  - apply stat_goto; [by apply inv_stat_ok|done].
  - apply names_goto; [exact (inv_names_ok s Hi)|]. intros m [= <-]. by eapply (iv_name _ Hi).
  - intros f u [[H _]|[-> [= <-]]]%uses_goto; done.
Qed.

Lemma write_same fd c : kernel_same (kernel s) (sys_write fd c (kernel s)).
Proof. unfold sys_write. by case_match. Qed.

Lemma stat_kernel k : flocks k = flocks (kernel s) -> stat_ok (with_kernel k s).
Proof. intros E q m t j f. simpl. rewrite E. apply (iv_stat _ Hi). Qed.

Lemma truncate_step_inv p n tok fd :
  pcs s !! p = Some (AtTruncate n tok fd) ->
  inv (goto p (AtWrite n tok fd) (with_kernel (sys_write fd "" (kernel s)) s)).
Proof.
  intros Hp. destruct (write_same fd "") as (E1 & E2 & E3).
  apply (inv_sub _ _ Hi); [done| | | |].
  - intros q m f [H|[-> [= <- <-]]]%owns_goto; left; [done|]. right. eexists.
    split; [exact Hp|done].
  - apply stat_goto; [by apply stat_kernel|done].
  - apply names_goto; [exact (inv_names_ok s Hi)|]. intros m [= <-]. by eapply (iv_name _ Hi).
  - intros f u [[H%uses_kernel _]|[-> [= <-]]]%uses_goto; [done|by eapply pc_use].
Qed.

Lemma written_step_inv p n tok fd :
  pcs s !! p = Some (AtWrite n tok fd) ->
  inv (leave p (hold p n (fd, {[tok]})
         (with_kernel (sys_write fd (record p) (kernel s)) s))).
Proof.
  intros Hp. destruct (write_same fd (record p)) as (E1 & E2 & E3).
  assert (Hold : held s !! (p, n) = None) by (by eapply (iv_name _ Hi)).
  apply (inv_move _ _ Hi) with (fd0 := fd) (uold := UPc p) (unew := UHeld p n).
  - done.
  - intros q m f [H%owns_kernel|(-> & -> & ->)]%owns_leave%owns_hold; left; [done|].
    right. eexists. split; [exact Hp|done].
  - apply stat_leave. exact (stat_kernel _ E3).
  - intros q c m Hq Hm. simpl in *. apply lookup_delete_Some in Hq as [Hne Hq].
    rewrite lookup_insert_ne; [by eapply (iv_name _ Hi)|congruence].
  - by eapply pc_use.
  - done.
  - intros f u [H Hne]%uses_leave. apply uses_hold in H as [[H%uses_kernel Hne']|H];
      [left|by right]. split; [done|]. by intros [_ ->].
Qed.

Lemma unlink_step_inv p n fd :
  pcs s !! p = Some (AtUnlink n fd) ->
  inv (goto p (AtClose fd) (with_kernel (sys_unlink n (kernel s)) s)).
Proof.
  intros Hp. assert (Hown : owns s p n fd) by (right; eauto).
  assert (Hold : held s !! (p, n) = None) by (by eapply (iv_name _ Hi)).
  apply (inv_unlinked s _ p n fd); auto.
  - intros q m f H. split; [by apply owns_goto in H as [H|[_ H]]|]. intros [= -> ->].
    destruct H as [[t H]|(c & H & Hc)]; simpl in H; [congruence|].
    rewrite lookup_insert_eq in H. by injection H as <-.
  - intros f u [[H%uses_kernel _]|[-> [= <-]]]%uses_goto; [done|by eapply pc_use].
  - intros q m tok t f H. simpl in H. by apply lookup_insert_Some in H as [[_ ?]|[_ H]].
  - apply names_goto; [exact (inv_names_ok s Hi)|done].
Qed.
End steps.


(** [os.open] of a probe reader. *)
Lemma probe_open_inv s p n newfd k' :
  inv s -> ofds (kernel s) !! newfd = None -> sys_open_read p n newfd (kernel s) = Some k' ->
  inv (mkSystem k' (held s) (pcs s) ({[newfd]} ∪ probes s)).
Proof.
  intros Hi Hnew Hk. unfold sys_open_read in Hk. destruct (dir (kernel s) !! n) as [i|] eqn:Hd;
    [|done]. injection Hk as <-.
  apply (inv_opened s _ newfd p i UProbe);
    [done|done|done|done|done|done| |done|exact (inv_stat_ok s Hi)|exact (inv_names_ok s Hi)].
  intros fd [q m|q|] H; simpl in *; [by left|by left|].
  apply elem_of_union in H as [H%elem_of_singleton|H]; auto.
Qed.

Lemma probe_unowned s fd p n : inv s -> fd ∈ probes s -> ~ owns s p n fd.
Proof.
  intros Hi Hp [H|H]%owns_uses; by pose proof (iv_uniq _ Hi fd UProbe _ Hp H).
Qed.

Lemma probe_lock_inv s fd k' :
  inv s -> fd ∈ probes s -> sys_flock fd LockSh (kernel s) = Some k' -> inv (with_kernel k' s).
Proof.
  intros Hi Hp Hk. destruct (iv_open _ Hi fd UProbe Hp) as (q & i & E & _).
  apply (inv_locked s fd LockSh k' (q, i)); [done|done|done| |].
  - intros p n. by apply probe_unowned.
  - intros p n tok t H.
    by pose proof (iv_uniq _ Hi fd UProbe (UPc p) Hp (pc_use s p _ fd H eq_refl)).
Qed.

Lemma probe_close_inv s fd :
  inv s -> fd ∈ probes s ->
  inv (mkSystem (sys_close fd (kernel s)) (held s) (pcs s) (probes s ∖ {[fd]})).
Proof.
  intros Hi Hp. apply (inv_closed s _ fd); [done|done| | |done|exact (inv_names_ok s Hi)].
  - intros p n f H. split; [exact H|]. intros ->. by eapply probe_unowned.
  - intros f u H. assert (H' : uses s f u) by (destruct u; simpl in *; set_solver).
    split; [done|]. intros ->. pose proof (iv_uniq _ Hi fd UProbe u Hp H') as <-.
    simpl in H. set_solver.
Qed.

(** A crash removes every description of the process with all its uses. *)
Lemma crash_own_back s p q n fd : owns (crash p s) q n fd -> owns s q n fd /\ q <> p.
Proof.
  intros [[t H]|(c & H & Hc)]; simpl in H.
  - apply map_lookup_filter_Some in H as [H Hq]. split; [left; eauto|done].
  - apply lookup_delete_Some in H as [Hne H]. split; [right; eauto|done].
Qed.

Lemma crash_use_back s p fd u :
  uses (crash p s) fd u -> uses s fd u /\
  (forall q, u <> UProbe -> user_is u q -> q <> p) /\
  (u = UProbe -> forall i, ofds (kernel s) !! fd <> Some (p, i)).
Proof.
  destruct u as [q n|q|]; simpl.
  - intros [t H]. apply map_lookup_filter_Some in H as [H Hq]. split_and!; [eauto| |done].
    by intros ? _ ->.
  - intros (c & H & Hc). apply lookup_delete_Some in H as [Hne H].
    split_and!; [eauto| |done]. by intros ? _ ->.
  - intros [H Hd]%elem_of_difference. split_and!; [done|done|]. intros _ i Hi. apply Hd.
    apply elem_of_dom. exists (p, i). by apply map_lookup_filter_Some.
Qed.

Lemma crash_ofds s p fd q i :
  ofds (kernel (crash p s)) !! fd = Some (q, i) <-> ofds (kernel s) !! fd = Some (q, i) /\ q <> p.
Proof. simpl. by rewrite map_lookup_filter_Some. Qed.

Lemma crash_flocks s p fd m :
  flocks (kernel (crash p s)) !! fd = Some m <->
  flocks (kernel s) !! fd = Some m /\ forall i, ofds (kernel s) !! fd <> Some (p, i).
Proof.
  simpl. rewrite map_lookup_filter_Some. simpl. rewrite not_elem_of_dom.
  rewrite map_lookup_filter_None. simpl. split; intros [H1 H2]; (split; [done|]).
  - intros i Hi. destruct H2 as [H2|H2]; [congruence|]. by apply (H2 _ Hi).
  - destruct (ofds (kernel s) !! fd) as [[q i]|] eqn:E; [right|by left].
    intros x [= <-]. simpl. intros ->. by apply (H2 i).
Qed.

Lemma crash_inv p s : inv s -> inv (crash p s).
Proof.
  intros Hi. pose proof Hi as [Ho Hst Hx Hd Hu Hop Hn]. split.
  - intros q n fd [Hown Hq]%crash_own_back. destruct (Ho _ _ _ Hown) as (i & H1 & H2 & H3).
    exists i. split_and!; [done|by apply crash_ofds|apply crash_flocks]. split; [done|].
    intros j. congruence.
  - intros q n tok t fd H. simpl in H. apply lookup_delete_Some in H as [Hne H].
    apply crash_flocks. split; [by eapply Hst|]. intros i Hf.
    destruct (Hop fd (UPc q)) as (q' & j & E & Hq); [by eapply pc_use|]. simpl in Hq. congruence.
  - intros f f' m i q q' [L1 _]%crash_flocks [L2 _]%crash_flocks [O1 _]%crash_ofds
      [O2 _]%crash_ofds. by apply Hx with m i q q'.
  - intros fd m [L Hp]%crash_flocks. destruct (Hd _ _ L) as [[q i] E]. exists (q, i).
    apply crash_ofds. split; [done|]. intros ->. by apply (Hp i).
  - intros fd u u' (H1 & _)%crash_use_back (H2 & _)%crash_use_back. by apply (Hu fd).
  - intros fd u (H & Hq & Hpr)%crash_use_back. destruct (Hop _ _ H) as (q & i & E & Hqu).
    exists q, i. split; [|done]. apply crash_ofds. split; [done|]. intros ->.
    destruct (decide (u = UProbe)) as [->|Hne]; [by apply (Hpr eq_refl i)|by apply (Hq p)].
  - intros q c n H Hc. simpl in *. apply lookup_delete_Some in H as [_ H].
    apply map_lookup_filter_None. left. by eapply Hn.
Qed.

Section assembly.
Context (record : nat -> string).

Lemma thread_step_inv p newfd newino s :
  inv s -> ofds (kernel s) !! newfd = None -> unused_inode (kernel s) newino ->
  inv (thread_step record p newfd newino s).1.
Proof.
  intros Hi Hf Hn. unfold thread_step.
  destruct (pcs s !! p) as [c|] eqn:Hp; [|done]. destruct c as [n tok [|t]|n tok t fd|n tok t fd| | | |fd].
  - apply (inv_sub _ _ Hi); [done| | | |].
    + intros q m fd H%owns_leave. by left.
    + apply stat_leave, inv_stat_ok, Hi.
    + apply names_leave, inv_names_ok, Hi.
    + intros fd u H. exact (proj1 (uses_leave _ _ _ _ H)).
  - by apply open_step_inv.
  - destruct (sys_flock _ _ _) as [k'|] eqn:Hl; [by eapply flock_step_inv|].
    exact (close_step_inv s p _ fd None Hi Hp eq_refl eq_refl (fun _ H => ltac:(discriminate H))).
  - destruct (same_inode _ _ _) eqn:Hs; [exact (stat_step_inv s Hi _ _ _ _ _ Hp Hs)|].
    apply (close_step_inv s p _ fd (Some (AtOpen n tok t)) Hi Hp eq_refl eq_refl).
    by intros c' [= <-].
  - by apply truncate_step_inv.
  - by apply written_step_inv.
  - by apply unlink_step_inv.
  - exact (close_step_inv s p _ fd None Hi Hp eq_refl eq_refl (fun _ H => ltac:(discriminate H))).
Qed.

Lemma step_inv s s' : inv s -> step record s s' -> inv s'.
Proof.
  intros Hi Hs. inversion Hs; subst; [apply acquire_enter_inv|apply release_enter_inv
    |apply thread_step_inv|eapply probe_open_inv|eapply probe_lock_inv|apply probe_close_inv
    |apply crash_inv]; eassumption.
Qed.

Lemma reachable_inv s : reachable record s -> inv s.
Proof. intros H. by eapply (rtc_invariant (step record)); [apply step_inv| |apply init_inv]. Qed.
End assembly.


(** ** What the lock file says

    The record of a holder is in its file from its [write] on, whatever else
    happens: only the owner of an inode writes to it. *)

Definition content_ok (record : nat -> string) (s : System) : Prop :=
  forall p n fd toks i, held s !! (p, n) = Some (fd, toks) -> dir (kernel s) !! n = Some i ->
    contents (kernel s) !! i = Some (record p).

Section content.
Context (record : nat -> string).

(** A step that keeps the holders (or loses some) and writes to no held inode. *)
Lemma content_keep s s' :
  inv s -> content_ok record s ->
  (forall p n fd toks, held s' !! (p, n) = Some (fd, toks) ->
     exists toks', held s !! (p, n) = Some (fd, toks')) ->
  (forall p n fd i, owns s p n fd -> dir (kernel s') !! n = Some i ->
     dir (kernel s) !! n = Some i /\
     ((exists toks, held s !! (p, n) = Some (fd, toks)) ->
      contents (kernel s') !! i = contents (kernel s) !! i)) ->
  content_ok record s'.
Proof.
  intros Hi Hc Hh Hk p n fd toks i H Hd. destruct (Hh _ _ _ _ H) as [t Ht].
  destruct (Hk p n fd i) as [Hd' Hcc]; [left; eauto|done|]. rewrite Hcc by eauto.
  by eapply Hc.
Qed.

(** Writing through a description its process owns or created leaves the
    held inodes of the others alone. *)
Lemma write_other s p c fd txt q n fd' toks :
  inv s -> pcs s !! p = Some c -> (exists m, pc_owns c = Some (m, fd)) ->
  held s !! (q, n) = Some (fd', toks) -> forall i, dir (kernel s) !! n = Some i ->
  contents (sys_write fd txt (kernel s)) !! i = contents (kernel s) !! i.
Proof.
  intros Hi Hp [m Hc] Hq i Hd.
  destruct (iv_own _ Hi p m fd) as (j & D1 & O1 & L1); [right; eauto|].
  destruct (iv_own _ Hi q n fd') as (j' & D2 & O2 & L2); [left; eauto|].
  unfold sys_write, inode_of. rewrite O1. simpl. rewrite lookup_insert_ne; [done|].
  intros ->. assert (j' = i) as -> by congruence.
  assert (fd = fd') as -> by by eapply (iv_excl _ Hi).
  assert (UHeld q n = UPc p) as E; [|done]. apply (iv_uniq _ Hi fd').
  - simpl; eauto.
  - eapply pc_use; [done|]. destruct c; simplify_eq/=; done.
Qed.

Lemma write_dir fd txt k : dir (sys_write fd txt k) = dir k.
Proof. unfold sys_write. by case_match. Qed.

(** A step that leaves the paths of owned ids and all contents alone. *)
Lemma content_quiet s s' :
  inv s -> content_ok record s -> held s' = held s ->
  (forall n i, (exists p fd, owns s p n fd) -> dir (kernel s') !! n = Some i ->
     dir (kernel s) !! n = Some i) ->
  (forall i n, dir (kernel s) !! n = Some i ->
     contents (kernel s') !! i = contents (kernel s) !! i) -> content_ok record s'.
Proof.
  intros Hi Hc Hh Hd Hcc. apply (content_keep s s' Hi Hc).
  - rewrite Hh. eauto.
  - intros p n fd i H Hd'. assert (E : dir (kernel s) !! n = Some i) by (apply Hd; eauto).
    split; [done|]. intros _. by apply (Hcc i n).
Qed.

Lemma open_content s p n tok tries newfd newino :
  inv s -> content_ok record s -> unused_inode (kernel s) newino ->
  content_ok record (goto p (AtFlock n tok tries newfd)
         (with_kernel (sys_open_creat p n newfd newino (kernel s)) s)).
Proof.
  intros Hi Hc [Hu _]. apply (content_quiet s); [done|done|done| |].
  - intros m i (q & fd & (j & Hj & _)%(iv_own _ Hi)). simpl.
    unfold sys_open_creat. destruct (dir (kernel s) !! n) eqn:E; [done|].
    simpl. rewrite lookup_insert_ne; [done|congruence].
  - intros i m Hm. simpl. unfold sys_open_creat. case_match; [done|]. simpl.
    rewrite lookup_insert_ne; [done|]. intros ->. by apply (Hu m).
Qed.

Lemma write_content s p c fd txt :
  inv s -> content_ok record s -> pcs s !! p = Some c -> (exists m, pc_owns c = Some (m, fd)) ->
  content_ok record (with_kernel (sys_write fd txt (kernel s)) s).
Proof.
  intros Hi Hc Hp Ho. apply (content_keep s _ Hi Hc); [simpl; eauto|].
  intros q n f i _ Hd. simpl in *. rewrite write_dir in Hd. split; [done|].
  intros [t Ht]. by eapply write_other.
Qed.

Lemma written_content s p n tok fd :
  inv s -> content_ok record s -> pcs s !! p = Some (AtWrite n tok fd) ->
  content_ok record (leave p (hold p n (fd, {[tok]})
    (with_kernel (sys_write fd (record p) (kernel s)) s))).
Proof.
  intros Hi Hc Hp. assert (Hc' : content_ok record
    (with_kernel (sys_write fd (record p) (kernel s)) s)) by (eapply write_content; eauto).
  intros q m f t i H Hd. simpl in *. apply lookup_insert_Some in H as [[[= <- <-] _]|[_ H]];
    [|by apply (Hc' q m f t i H)].
  destruct (iv_own _ Hi p n fd) as (j & D1 & O1 & L1); [right; eauto|].
  rewrite write_dir in Hd. unfold sys_write, inode_of. rewrite O1. simpl.
  assert (i = j) as -> by congruence. by rewrite lookup_insert_eq.
Qed.

Lemma thread_step_content p newfd newino s :
  inv s -> content_ok record s -> unused_inode (kernel s) newino ->
  content_ok record (thread_step record p newfd newino s).1.
Proof.
  intros Hi Hc Hn. unfold thread_step.
  destruct (pcs s !! p) as [c|] eqn:Hp; [|done].
  destruct c as [n tok [|t]|n tok t fd|n tok t fd|n tok fd|n tok fd|n fd|fd]; simpl;
    [exact Hc|by apply open_content| | | |by apply written_content| |exact Hc].
  - destruct (sys_flock _ _ _) as [k'|] eqn:Hl; [|exact Hc]. unfold sys_flock in Hl.
    case_match; [done|]. injection Hl as <-. exact Hc.
  - destruct (same_inode _ _ _); exact Hc.
  - exact (write_content s p _ fd "" Hi Hc Hp (ex_intro _ n eq_refl)).
  - apply (content_quiet s); [done|done|done| |done].
    intros m i _ H. simpl in H. by apply lookup_delete_Some in H as [_ H].
Qed.

Lemma step_content s s' : inv s -> content_ok record s -> step record s s' -> content_ok record s'.
Proof.
  intros Hi Hc Hs. inversion Hs as [? p n tok|? p n tok|? p nfd nino|? p n nfd k' ? Hk
    |? fd k' Hp Hl|? fd Hp|? p]; subst.
  - unfold acquire_enter. destruct (held s !! (p, n)) as [[fd toks]|] eqn:Hh; [|exact Hc].
    intros q m f t i Hm. simpl in *. apply lookup_insert_Some in Hm as [[[= <- <-] [= <- <-]]|[_ Hm]];
      [|by eapply Hc]. by eapply Hc.
  - unfold release_enter. destruct (held s !! (p, n)) as [[fd toks]|] eqn:Hh; [|exact Hc].
    case_decide; intros q m f t i Hm; simpl in *.
    + apply lookup_delete_Some in Hm as [_ Hm]. by eapply Hc.
    + apply lookup_insert_Some in Hm as [[[= <- <-] [= <- <-]]|[_ Hm]]; by eapply Hc.
  - by apply thread_step_content.
  - unfold sys_open_read in Hk. case_match; [|done]. injection Hk as <-. exact Hc.
  - unfold sys_flock in Hl. case_match; [done|]. injection Hl as <-. exact Hc.
  - exact Hc.
  - intros q m f t i Hm. simpl in *. apply map_lookup_filter_Some in Hm as [Hm _]. by eapply Hc.
Qed.

Lemma reachable_content s : reachable record s -> content_ok record s.
Proof.
  intros H. eapply (rtc_invariant_with (step record) inv); [apply step_inv|exact step_content
    |exact H|apply init_inv|]. intros p n fd toks i Hh. simpl in Hh. by simplify_map_eq.
Qed.
End content.


(** ** Properties *)

(** Own steps a thread can still take: an attempt is open, flock and stat. *)
Definition steps_left (c : Pc) : nat :=
  match c with
  | AtOpen _ _ t => 4 * t + 3
  | AtFlock _ _ t _ => 4 * t + 6
  | AtStat _ _ t _ => 4 * t + 5
  | AtTruncate _ _ _ | AtUnlink _ _ => 2
  | AtWrite _ _ _ | AtClose _ => 1
  end%nat.

Lemma thread_step_decreases record p c nfd nino s s' :
  pcs s !! p = Some c -> thread_step record p nfd nino s = (s', None) ->
  exists c', pcs s' !! p = Some c' /\ (steps_left c' < steps_left c)%nat.
Proof.
  intros Hp. unfold thread_step. rewrite Hp.
  destruct c as [n tok [|t]|n tok t fd|n tok t fd|n tok fd|n tok fd|n fd|fd]; intros H;
    try (case_match; simpl in H); simplify_eq/=;
    (eexists; split; [by rewrite lookup_insert_eq|simpl; lia]).
Qed.

(** A run with [k] steps of [p]'s thread, none of which ended its call, between
    any steps of the system that leave the thread where it is. *)
Inductive run (record : nat -> string) (p : nat) : nat -> System -> System -> Prop :=
| run_refl s : run record p 0 s s
| run_other k s s' s'' :
    step record s s' -> pcs s' !! p = pcs s !! p -> run record p k s' s'' ->
    run record p k s s''
| run_own k s s' s'' nfd nino :
    thread_step record p nfd nino s = (s', None) -> run record p k s' s'' ->
    run record p (S k) s s''.

Lemma run_bound record p k s s' c :
  run record p k s s' -> pcs s !! p = Some c -> (k < steps_left c)%nat.
Proof.
  intros Hr. revert c. induction Hr as [s|k s s1 s2 _ E _ IH|k s s1 s2 nfd nino E _ IH];
    intros c Hp.
  - destruct c; simpl; lia.
  - apply IH. congruence.
  - destruct (thread_step_decreases _ _ _ _ _ _ _ Hp E) as (c' & Hp' & Hlt).
    specialize (IH c' Hp'). lia.
Qed.

Lemma owner_file record s p n fd :
  reachable record s -> owns s p n fd -> exists i,
    dir (kernel s) !! n = Some i /\ ofds (kernel s) !! fd = Some (p, i) /\
    flocks (kernel s) !! fd = Some LockEx.
Proof. intros H%reachable_inv. by apply iv_own. Qed.

(** A conflicting lock makes a new description's [flock] fail. *)
Lemma flock_conflict fd fd' mode m k :
  fd' <> fd -> flocks k !! fd' = Some m -> inode_of k fd' = inode_of k fd ->
  mode = LockEx \/ m = LockEx -> sys_flock fd mode k = None.
Proof.
  intros Hne Hl Hi Hm. unfold sys_flock. destruct (conflictsb k fd mode) eqn:E; [done|].
  destruct (conflictsb_false _ _ _ E fd' m Hne Hl Hi) as [-> ->]. by destruct Hm.
Qed.

(** No lock on the inode: the [flock] succeeds. *)
Lemma flock_free fd mode k :
  (forall fd' m, fd' <> fd -> flocks k !! fd' = Some m -> inode_of k fd' <> inode_of k fd) ->
  sys_flock fd mode k = Some (mkKernel (dir k) (ofds k) (<[fd := mode]> (flocks k)) (contents k)).
Proof.
  intros H. unfold sys_flock. destruct (conflictsb k fd mode) eqn:E; [|done].
  unfold conflictsb in E. apply existsb_exists in E as ([fd' m] & Hin & Hc).
  apply list_elem_of_In, elem_of_map_to_list in Hin. unfold conflict_entry in Hc.
  simpl in Hc. apply andb_true_iff in Hc as [Hc _]. apply andb_true_iff in Hc as [H1 H2].
  apply negb_true_iff, bool_decide_eq_false in H1. apply bool_decide_eq_true in H2.
  by edestruct H.
Qed.

(** C2. Mutual exclusion, with all interleavings of the system calls of any number
    of processes, probes and crashes: in a reachable state a session id is owned by
    at most one process, through one description, which holds the exclusive lock of
    the inode the id's path names; and no other thread's verified attempt gets past
    its inode check. *)
Theorem owner_mutex record s p n fd :
  reachable record s -> owns s p n fd ->
  (exists i, dir (kernel s) !! n = Some i /\ ofds (kernel s) !! fd = Some (p, i) /\
     flocks (kernel s) !! fd = Some LockEx) /\
  (forall q fd', owns s q n fd' -> q = p /\ fd' = fd) /\
  (forall q tok t fd', pcs s !! q = Some (AtStat n tok t fd') ->
     same_inode n fd' (kernel s) = false).
Proof.
  intros Hr Ho. pose proof (reachable_inv _ _ Hr) as Hi.
  destruct (owner_file _ _ _ _ _ Hr Ho) as (i & Hd & Hf & Hl).
  split_and!; [by exists i|intros q fd' H; by eapply inv_owns_unique|].
  intros q tok t fd' Hq. destruct (same_inode n fd' (kernel s)) eqn:E; [exfalso|done].
  pose proof (iv_stat _ Hi _ _ _ _ _ Hq) as Hl'. unfold same_inode, inode_of in E.
  pose proof (pc_use s q _ fd' Hq eq_refl) as Hu.
  destruct (iv_open _ Hi _ _ Hu) as (q' & j & E' & _). rewrite E', Hd in E.
  simpl in E. b2p. subst j.
  assert (fd = fd') as <- by by eapply (iv_excl _ Hi).
  by eapply (pc_fd_private s q _ fd p n Hi Hq).
Qed.

(** While a process holds an id, [owner] in any other process answers with the
    record that process wrote when it took the lock (its first line, stripped),
    whatever else has happened since. *)
Theorem owner_names_the_holder record s p q n fd toks me newfd :
  reachable record s -> held s !! (p, n) = Some (fd, toks) -> holds q n s = false ->
  safe_name n = Ok n -> ofds (kernel s) !! newfd = None ->
  owner me q n newfd s =
    Some (strip (before_char newline (String.substring 0 256 (record p)))).
Proof.
  intros Hr Hh Hq Hn Hfd. unfold owner. rewrite Hn, Hq.
  destruct (owner_file record s p n fd Hr) as (i & Hd & Hf & Hl); [left; eauto|].
  unfold sys_open_read. rewrite Hd. simpl. assert (newfd <> fd) by congruence.
  rewrite (flock_conflict newfd fd LockSh LockEx); [|done|done| |by right].
  - unfold inode_of. simpl. rewrite lookup_insert_eq. simpl.
    rewrite (reachable_content record s Hr p n fd toks i Hh Hd). done.
  - unfold inode_of. simpl. by rewrite lookup_insert_eq, lookup_insert_ne, Hf.
Qed.

(** [acquire] and [release] terminate: whatever the other processes do between
    its system calls (removing and recreating the file each time included), a call
    in flight ends, with a result, after at most 34 system calls of its own past
    its entry. *)
Theorem owner_calls_terminate record p n tok s s0 s' k :
  pcs s !! p = None -> s0 = (acquire_enter p n tok s).1 \/ s0 = release_enter p n tok s ->
  is_Some (pcs s0 !! p) -> run record p k s0 s' -> (k <= 34)%nat /\ is_Some (pcs s' !! p).
Proof.
  intros Hp Hs [c Hc] Hr. split.
  - pose proof (run_bound _ _ _ _ _ _ Hr Hc) as Hb.
    enough (steps_left c <= 35)%nat by lia.
    destruct Hs as [->| ->]; revert Hc; unfold acquire_enter, release_enter;
      repeat case_match; simpl; rewrite ?lookup_insert_eq, ?Hp; intros [= <-]; simpl; lia.
  - clear Hs Hp. revert c Hc. induction Hr as [s1|j s1 s2 s3 _ E _ IH|j s1 s2 s3 nfd nino E _ IH];
      intros c Hc; [eauto|apply (IH c); congruence|].
    destruct (thread_step_decreases _ _ _ _ _ _ _ Hc E) as (c' & Hc' & _). by apply (IH c').
Qed.

(** [acquire] with nothing else running between its system calls. *)
Fixpoint finish (record : nat -> string) (fuel p nfd nino : nat) (s : System)
    : System * option Outcome :=
  match fuel with
  | O => (s, None)
  | S f => match thread_step record p nfd nino s with
           | (s', Some o) => (s', Some o)
           | (s', None) => finish record f p nfd nino s'
           end
  end.

Definition acquire_alone (record : nat -> string) (p : nat) (n : string) (tok nfd nino : nat)
    (s : System) : System * option Outcome :=
  match acquire_enter p n tok s with
  | (s', Some o) => (s', Some o)
  | (s', None) => finish record 35 p nfd nino s'
  end.

(** The id's file is locked, by a holder or by a probe of [owner]. *)
Definition file_locked (n : string) (k : Kernel) : Prop :=
  exists fd m i, flocks k !! fd = Some m /\ inode_of k fd = Some i /\ dir k !! n = Some i.

Section alone.
Context (record : nat -> string) (s : System) (p tok nfd nino : nat) (n : string).
Hypothesis Hr : reachable record s.
Hypothesis Hnfd : ofds (kernel s) !! nfd = None.
Hypothesis Hnino : unused_inode (kernel s) nino.

Let k1 := sys_open_creat p n nfd nino (kernel s).

Lemma open_creat_facts :
  flocks k1 = flocks (kernel s) /\
  exists i, dir k1 !! n = Some i /\ inode_of k1 nfd = Some i /\
    (dir (kernel s) !! n = Some i \/ (i = nino /\ dir (kernel s) !! n = None)) /\
    (forall fd, fd <> nfd -> inode_of k1 fd = inode_of (kernel s) fd).
Proof.
  unfold k1, sys_open_creat, inode_of. destruct (dir (kernel s) !! n) as [i|] eqn:Hd; simpl.
  - split; [done|]. exists i. rewrite lookup_insert_eq. split_and!; auto.
    intros fd Hne. by rewrite lookup_insert_ne.
  - split; [done|]. exists nino. rewrite !lookup_insert_eq. split_and!; auto.
    intros fd Hne. by rewrite lookup_insert_ne.
Qed.

Lemma open_locked_refused : file_locked n (kernel s) -> sys_flock nfd LockEx k1 = None.
Proof.
  intros (fd & m & i & Hl & Hf & Hd). destruct open_creat_facts as (Ef & j & H1 & H2 & H3 & H4).
  assert (fd <> nfd) by (unfold inode_of in Hf; intros ->; by rewrite Hnfd in Hf).
  apply (flock_conflict nfd fd LockEx m); [done|by rewrite Ef| |by left].
  rewrite H4 by done. destruct H3 as [H3|[_ H3]]; congruence.
Qed.

Lemma open_unlocked_granted :
  ~ file_locked n (kernel s) ->
  sys_flock nfd LockEx k1 =
    Some (mkKernel (dir k1) (ofds k1) (<[nfd := LockEx]> (flocks k1)) (contents k1)).
Proof.
  intros Hn. apply flock_free. destruct open_creat_facts as (Ef & j & H1 & H2 & H3 & H4).
  intros fd m Hne Hl E. rewrite Ef in Hl. rewrite H4, H2 in E by done.
  destruct H3 as [H3|[-> _]].
  - apply Hn. by exists fd, m, j.
  - unfold inode_of in E. destruct (ofds (kernel s) !! fd) as [[q i]|] eqn:Ef'; [|done].
    simpl in E. injection E as ->. destruct Hnino as [_ Hu]. by apply (Hu fd q).
Qed.
End alone.

Lemma finish_next record f p nfd nino s s' :
  thread_step record p nfd nino s = (s', None) ->
  finish record (S f) p nfd nino s = finish record f p nfd nino s'.
Proof. intros H. simpl. by rewrite H. Qed.

Lemma finish_end record f p nfd nino s s' o :
  thread_step record p nfd nino s = (s', Some o) ->
  finish record (S f) p nfd nino s = (s', Some o).
Proof. intros H. simpl. by rewrite H. Qed.

Lemma goto_pc p c s : pcs (goto p c s) !! p = Some c.
Proof. simpl. by rewrite lookup_insert_eq. Qed.

(** The kernel and the table after the five calls of a successful [acquire]. *)
Lemma finish_granted record s p n tok t nfd nino f i :
  let k1 := sys_open_creat p n nfd nino (kernel s) in
  let k2 := mkKernel (dir k1) (ofds k1) (<[nfd := LockEx]> (flocks k1)) (contents k1) in
  sys_flock nfd LockEx k1 = Some k2 -> inode_of k1 nfd = Some i -> dir k1 !! n = Some i ->
  pcs s !! p = Some (AtOpen n tok (S t)) ->
  exists s', finish record (5 + f) p nfd nino s = (s', Some Acquired) /\
    held s' = <[(p, n) := (nfd, {[tok]})]> (held s) /\ pcs s' = delete p (pcs s) /\
    dir (kernel s') = dir k1 /\ flocks (kernel s') = flocks k2 /\
    contents (kernel s') !! i = Some (record p).
Proof.
  intros k1 k2 Hl Hi Hd Hp.
  assert (Hw1 : sys_write nfd "" k2 = mkKernel (dir k2) (ofds k2) (flocks k2) (<[i := ""]> (contents k2))).
  { unfold sys_write. replace (inode_of k2 nfd) with (Some i) by done. done. }
  change (5 + f)%nat with (S (S (S (S (S f))))). eexists. split.
  - erewrite (finish_next _ _ _ _ _ s) by (unfold thread_step; rewrite Hp; done).
    erewrite finish_next
      by (unfold thread_step; rewrite goto_pc; simpl kernel; fold k1; rewrite Hl; done).
    erewrite finish_next.
    2: { unfold thread_step. rewrite goto_pc. simpl kernel. unfold same_inode.
         replace (inode_of k2 nfd) with (Some i) by done. simpl dir. rewrite Hd.
         by rewrite bool_decide_true by done. }
    erewrite finish_next by (unfold thread_step; rewrite goto_pc; simpl kernel; done).
    eapply finish_end. unfold thread_step. rewrite goto_pc. done.
  - simpl. rewrite Hw1. unfold sys_write, inode_of. simpl.
    replace (snd <$> ofds k1 !! nfd) with (Some i) by done. simpl.
    rewrite !lookup_insert_eq. split_and!; try done.
    by rewrite !delete_insert_eq.
Qed.

(** [acquire] run without interference, in any reachable state: it joins the lock
    its own process holds; it answers [False] and leaves every file and lock as they
    were when the id's file is locked elsewhere; otherwise it takes the lock, holds
    the id with this token alone and has written its record. *)
Theorem acquire_alone_spec record s p n tok nfd nino :
  reachable record s -> pcs s !! p = None ->
  ofds (kernel s) !! nfd = None -> unused_inode (kernel s) nino ->
  let r := acquire_alone record p n tok nfd nino s in
  (forall fd toks, held s !! (p, n) = Some (fd, toks) ->
     r = (hold p n (fd, {[tok]} ∪ toks) s, Some Acquired)) /\
  (held s !! (p, n) = None -> file_locked n (kernel s) ->
     r.2 = Some HeldElsewhere /\ held r.1 = held s /\ pcs r.1 = pcs s /\
     kernel r.1 = kernel s) /\
  (held s !! (p, n) = None -> ~ file_locked n (kernel s) ->
     r.2 = Some Acquired /\ held r.1 = <[(p, n) := (nfd, {[tok]})]> (held s) /\
     pcs r.1 = pcs s /\ exists i, dir (kernel r.1) !! n = Some i /\
       flocks (kernel r.1) !! nfd = Some LockEx /\
       contents (kernel r.1) !! i = Some (record p)).
Proof.
  intros Hr Hp Hfd Hino r. unfold r, acquire_alone, acquire_enter. clear r.
  destruct (held s !! (p, n)) as [[fd toks]|] eqn:Hh.
  { split_and!; [by intros fd' toks' [= -> ->]|done|done]. }
  set (s1 := goto p (AtOpen n tok ATTEMPTS) s).
  destruct (open_creat_facts s p nfd nino n) as (Ef & i & H1 & H2 & H3 & H4).
  split; [done|]. split; intros _ Hl.
  - pose proof (open_locked_refused s p nfd nino n Hfd Hl) as Hno.
    destruct Hl as (fd & m & j & Hl & Hf & Hd).
    erewrite (finish_next _ _ _ _ _ s1) by (unfold thread_step, s1; rewrite goto_pc; done).
    erewrite finish_end
      by (unfold thread_step; rewrite goto_pc; simpl kernel; rewrite Hno; done).
    simpl. rewrite insert_insert_eq, delete_insert_id by done.
    assert (Hfl : flocks (kernel s) !! nfd = None).
    { destruct (flocks (kernel s) !! nfd) eqn:E; [|done].
      destruct (iv_dom _ (reachable_inv _ _ Hr) _ _ E) as [? E']. congruence. }
    split_and!; [done..|]. unfold sys_open_creat, sys_close. rewrite Hd. simpl.
    rewrite delete_insert_id, delete_id by done. by destruct (kernel s).
  - pose proof (open_unlocked_granted s p nfd nino n Hino Hl) as Hok.
    destruct (finish_granted record s1 p n tok 7 nfd nino 30 i Hok H2 H1)
      as (s' & E & E1 & E2 & E3 & E4 & E5); [apply goto_pc|].
    change 35%nat with (5 + 30)%nat. rewrite E. simpl. split_and!; [done|done| |].
    + rewrite E2. simpl. by rewrite delete_insert_id.
    + exists i. rewrite E3, E4. split_and!; [done| |done]. simpl. by rewrite lookup_insert_eq.
Qed.

(** ** Concrete schedules

    A schedule is a list of moves; [play] runs it, checking each step's side
    condition, so a computed run is a run of the step relation. *)

Inductive Move :=
| MAcquire (p : nat) (n : string) (tok : nat)
| MRelease (p : nat) (n : string) (tok : nat)
| MThread (p nfd nino : nat)
| MProbeOpen (p : nat) (n : string) (nfd : nat)
| MProbeLock (fd : nat)
| MCrash (p : nat).

Definition unused_inodeb (k : Kernel) (i : nat) : bool :=
  bool_decide (map_Forall (fun _ j => j <> i) (dir k)) &&
  bool_decide (map_Forall (fun _ e => e.2 <> i) (ofds k)).

Lemma unused_inodeb_ok k i : unused_inodeb k i = true -> unused_inode k i.
Proof.
  unfold unused_inodeb. intros [H1 H2]%andb_true_iff.
  apply bool_decide_eq_true in H1, H2. split; [intros n E; by eapply H1|].
  intros fd p E. by eapply (H2 fd (p, i)).
Qed.

Definition move (record : nat -> string) (m : Move) (s : System) : option System :=
  match m with
  | MAcquire p n tok =>
      match pcs s !! p, safe_name n with
      | None, Ok _ => Some (acquire_enter p n tok s).1
      | _, _ => None
      end
  | MRelease p n tok => match pcs s !! p with None => Some (release_enter p n tok s) | _ => None end
  | MThread p nfd nino =>
      match ofds (kernel s) !! nfd with
      | None => if unused_inodeb (kernel s) nino then Some (thread_step record p nfd nino s).1
                else None
      | _ => None
      end
  | MProbeOpen p n nfd =>
      match ofds (kernel s) !! nfd, sys_open_read p n nfd (kernel s) with
      | None, Some k' => Some (mkSystem k' (held s) (pcs s) ({[nfd]} ∪ probes s))
      | _, _ => None
      end
  | MProbeLock fd =>
      match decide (fd ∈ probes s), sys_flock fd LockSh (kernel s) with
      | left _, Some k' => Some (with_kernel k' s)
      | _, _ => None
      end
  | MCrash p => Some (crash p s)
  end.

Fixpoint play (record : nat -> string) (ms : list Move) (s : System) : option System :=
  match ms with
  | [] => Some s
  | m :: ms => match move record m s with Some s' => play record ms s' | None => None end
  end.

Lemma safe_name_same n m : safe_name n = Ok m -> m = n.
Proof. unfold safe_name. case_match; congruence. Qed.

Lemma move_step record m s s' : move record m s = Some s' -> step record s s'.
Proof.
  destruct m as [p n tok|p n tok|p nfd nino|p n nfd|fd|p]; simpl; intros H;
    repeat (case_match; simplify_eq/=); try injection H as <-.
  - match goal with E : safe_name n = Ok _ |- _ => pose proof (safe_name_same _ _ E) as -> end.
    by constructor.
  - by constructor.
  - constructor; [done|by apply unused_inodeb_ok].
  - by econstructor.
  - by econstructor.
  - constructor.
Qed.

Lemma play_rtc record ms s s' : play record ms s = Some s' -> rtc (step record) s s'.
Proof.
  revert s. induction ms as [|m ms IH]; intros s; simpl; [by intros [= <-]|].
  destruct (move record m s) as [s1|] eqn:E; [|done]. intros H.
  eapply rtc_l; [by eapply move_step|by apply IH].
Qed.

(** Two processes, [0] named blue and [1] named green. *)
Definition demo_record (p : nat) : string :=
  match p with
  | O => String.append "blue" (String newline (String.append "b0" (String newline "")))
  | _ => String.append "green" (String newline (String.append "b1" (String newline "")))
  end.

Definition threads (p k nfd nino : nat) : list Move :=
  MThread p nfd nino :: repeat (MThread p 100 100) (k - 1).

(** Blue holds "s"; green has opened and tried. *)
Definition demo_moves : list Move :=
  MAcquire 0 "s" 7 :: threads 0 5 1 1 ++ MAcquire 1 "s" 8 :: threads 1 1 2 2.

Definition demo_state : System := default init_system (play demo_record demo_moves init_system).

Lemma demo_reachable : reachable demo_record demo_state.
Proof. apply (play_rtc demo_record demo_moves). vm_compute. reflexivity. Qed.

Lemma owner_mutex_witness :
  owns demo_state 0 "s" 1 /\
  (forall q fd', owns demo_state q "s" fd' -> q = 0%nat /\ fd' = 1%nat) /\
  (thread_step demo_record 1 3 3 demo_state).2 = Some HeldElsewhere.
Proof.
  assert (H : owns demo_state 0 "s" 1) by (left; eexists; vm_compute; reflexivity).
  split; [exact H|]. split; [|vm_compute; reflexivity].
  exact (proj1 (proj2 (owner_mutex demo_record demo_state 0 "s" 1 demo_reachable H))).
Defined.

Lemma owner_names_the_holder_witness : owner "green" 1 "s" 9 demo_state = Some "blue".
Proof.
  apply (owner_names_the_holder demo_record demo_state 0 1 "s" 1 {[7%nat]} "green" 9).
  - exact demo_reachable.
  - vm_compute. reflexivity.
  - vm_compute. reflexivity.
  - vm_compute. reflexivity.
  - vm_compute. reflexivity.
Defined.

Lemma owner_calls_terminate_witness :
  exists s', run demo_record 0 2 (acquire_enter 0 "s" 7 init_system).1 s' /\
    (2 <= 34)%nat /\ is_Some (pcs s' !! 0%nat).
Proof.
  set (s1 := (acquire_enter 0 "s" 7 init_system).1).
  set (s2 := (thread_step demo_record 0 1 1 s1).1).
  set (s3 := (thread_step demo_record 0 100 100 s2).1).
  exists s3. assert (Hr : run demo_record 0 2 s1 s3).
  { apply (run_own _ _ _ s1 s2 s3 1 1); [vm_compute; reflexivity|].
    apply (run_own _ _ _ s2 s3 s3 100 100); [vm_compute; reflexivity|]. apply run_refl. }
  split; [exact Hr|].
  refine (owner_calls_terminate demo_record 0 "s" 7 init_system _ _ 2 _ (or_introl eq_refl) _ Hr).
  - vm_compute. reflexivity.
  - eexists. vm_compute. reflexivity.
Defined.

Lemma acquire_alone_spec_witness :
  (acquire_alone demo_record 0 "s" 7 1 1 init_system).2 = Some Acquired.
Proof.
  refine (proj1 (proj2 (proj2 (acquire_alone_spec demo_record init_system 0 "s" 7 1 1
    (rtc_refl _ _) _ _ _)) _ _)).
  - vm_compute. reflexivity.
  - vm_compute. reflexivity.
  - apply unused_inodeb_ok. vm_compute. reflexivity.
  - vm_compute. reflexivity.
  - intros (fd & m & i & H & _). vm_compute in H. destruct fd; discriminate H.
Defined.

(** A probe of [owner] is enough to make [acquire] answer that another process holds
    the id, when its file was left behind by a holder that died: nobody owns it. *)
Definition probe_moves : list Move :=
  MAcquire 0 "s" 7 :: threads 0 5 1 1 ++
  [MCrash 0; MProbeOpen 2 "s" 2; MProbeLock 2; MAcquire 1 "s" 8; MThread 1 3 3].

Definition probe_state : System := default init_system (play demo_record probe_moves init_system).

Example probe_makes_acquire_fail :
  reachable demo_record probe_state /\ (forall p n fd, ~ owns probe_state p n fd) /\
  (thread_step demo_record 1 4 4 probe_state).2 = Some HeldElsewhere.
Proof.
  split; [apply (play_rtc demo_record probe_moves); vm_compute; reflexivity|].
  split; [|vm_compute; reflexivity].
  assert (Hh : held probe_state = ∅) by (vm_compute; reflexivity).
  assert (Hp : pcs probe_state = {[1%nat := AtFlock "s" 8 7 3]}) by (vm_compute; reflexivity).
  intros p n fd [[t H]|(c & H & Hc)]; [by rewrite Hh in H|].
  rewrite Hp in H. apply lookup_singleton_Some in H as [_ <-]. done.
Qed.
