(* ===== verification/Json.v ===== *)
(** JSON values as [json.loads] builds them, and what the gateway reads of them.

    An object is a Python [dict], here an ordered dictionary; a float is its decimal
    mantissa and exponent. *)

From stdpp Require Import pretty.
From S2P Require Import Prelude.

Inductive Json : Type :=
| JNull
| JBool (b : bool)
| JInt (n : Z)
| JFloat (mantissa exponent : Z)
| JStr (s : string)
| JArr (l : list Json)
| JObj (d : list (string * Json)).

(** The integer nearest to [a / b], ties to the even one. *)
Definition round_div (a b : Z) : Z :=
  let q := a / b in
  let r := a mod b in
  if 2 * r <? b then q else if b <? 2 * r then q + 1 else if Z.even q then q else q + 1.

(** The double nearest to [m * 10 ^ e], as [q * 2 ^ u]: [None] when it is infinite. *)
Definition double (m e : Z) : option (Z * Z) :=
  let num := Z.abs m * 10 ^ Z.max 0 e in
  let den := 10 ^ Z.max 0 (- e) in
  if m =? 0 then Some (0, 0)
  else
    let k := Z.log2 num - Z.log2 den in
    let k := if num * 2 ^ Z.max 0 (- k) <? den * 2 ^ Z.max 0 k then k - 1 else k in
    let u := Z.max (k - 52) (-1074) in
    let q := round_div (num * 2 ^ Z.max 0 (- u)) (den * 2 ^ Z.max 0 u) in
    if 2 ^ 1024 <=? q * 2 ^ Z.max 0 u / 2 ^ Z.max 0 (- u) then None else Some (Z.sgn m * q, u).

(** [bool(v)] *)
Definition truthy (v : Json) : bool :=
  match v with
  | JNull => false
  | JBool b => b
  | JInt n => negb (n =? 0)
  | JFloat m e => match double m e with Some (q, _) => negb (q =? 0) | None => true end
  | JStr s => negb (bool_decide (s = ""))
  | JArr l => match l with [] => false | _ => true end
  | JObj d => match d with [] => false | _ => true end
  end.

(** [v.get(key)] when [v] is an object; [None] for a missing key or another type. *)
Definition jget (v : Json) (key : string) : option Json :=
  match v with
  | JObj d => dict_get d key
  | _ => None
  end.

(** [v.get(key)] with Python's [None] for a missing key. *)
Definition jget_null (v : Json) (key : string) : Json := default JNull (jget v key).

Definition is_dict (v : Json) : bool := match v with JObj _ => true | _ => false end.
Definition is_str (v : Json) (s : string) : bool :=
  match v with JStr t => bool_decide (t = s) | _ => false end.
(** [isinstance(v, int)]: a [bool] is an [int]. *)
Definition as_int (v : Json) : option Z :=
  match v with
  | JInt n => Some n
  | JBool b => Some (if b then 1 else 0)
  | _ => None
  end.

(** [d[key] = v] on an object. *)
Definition jset (v : Json) (key : string) (x : Json) : Json :=
  match v with
  | JObj d => JObj (dict_set d key x)
  | _ => v
  end.

Lemma jget_jset_eq d key x : jget (jset (JObj d) key x) key = Some x.
Proof. apply dict_get_set_eq. Qed.

Lemma jget_jset_ne v key key' x : key <> key' -> jget (jset v key x) key' = jget v key'.
Proof. intros H. destruct v; try done. by apply dict_get_set_ne. Qed.

(** [str(v)]; the text of a float, a list or an object is [repr]. *)
Definition py_str (repr : Json -> string) (v : Json) : string :=
  match v with
  | JNull => "None"
  | JBool b => if b then "True" else "False"
  | JInt n => pretty n
  | JStr s => s
  | JFloat _ _ | JArr _ | JObj _ => repr v
  end.

(** [int(v)] of the double nearest to [m * 10 ^ e]: [None] when that is infinite
    ([OverflowError]). *)
Definition float_int (m e : Z) : option Z :=
  match double m e with
  | Some (q, u) => Some (Z.quot (q * 2 ^ Z.max 0 u) (2 ^ Z.max 0 (- u)))
  | None => None
  end.

Example float_int_rounds :
  map (fun p => float_int (fst p) (snd p)) [(1, 23); (99999999999999999999, -20); (-29, -1); (1, 400); (1, -400)]
  = [Some 99999999999999991611392; Some 1; Some (-2); None; Some 0].
Proof. by vm_compute. Qed.

(** [a or b] *)
Definition or_else (a b : Json) : Json := if truthy a then a else b.

(** ** Equality of keys

    A set or a dictionary of JSON values compares numbers by value; a list or an object is
    not hashable. *)

Inductive Num := Fin (q u : Z) | Inf (negative : bool).

Definition num_of (v : Json) : option Num :=
  match v with
  | JBool b => Some (Fin (if b then 1 else 0) 0)
  | JInt n => Some (Fin n 0)
  | JFloat m e => Some (match double m e with Some (q, u) => Fin q u | None => Inf (m <? 0) end)
  | _ => None
  end.

Definition num_eqb (a b : Num) : bool :=
  match a, b with
  | Fin q u, Fin q' u' => q * 2 ^ Z.max 0 (u - u') =? q' * 2 ^ Z.max 0 (u' - u)
  | Inf n, Inf n' => Bool.eqb n n'
  | _, _ => false
  end.

Definition hashable (v : Json) : bool := match v with JArr _ | JObj _ => false | _ => true end.

(** [a == b] of hashable values *)
Definition same_key (a b : Json) : bool :=
  match a, b with
  | JNull, JNull => true
  | JStr s, JStr t => bool_decide (s = t)
  | _, _ => match num_of a, num_of b with Some x, Some y => num_eqb x y | _, _ => false end
  end.

Example same_key_numbers :
  map (fun p => same_key (fst p) (snd p))
    [(JInt 1, JBool true); (JFloat 10 (-1), JInt 1); (JFloat 1 (-1), JFloat 100 (-3)); (JStr "1", JInt 1); (JInt 2, JFloat 21 (-1))]
  = [true; true; true; false; false].
Proof. by vm_compute. Qed.
