(* ===== verification/Ledger.v ===== *)
(** The dispatch ledger ([src/src/handoff/ledger.py], [Ledger]): which forwarded
    requests this process took in.

    Times are microseconds ([time.time()] times 10^6); the configuration and the
    process's boot id are section variables.  A log of operations at non-decreasing
    times is a run of the ledger; every method runs on the event loop without an
    [await] between a check and its write, so a run is a sequence of whole calls. *)

From S2P Require Import Prelude.

Definition MS : Z := 1000.
Definition SECOND : Z := 1000000.

(** [_FUTURE_SKEW_MS] *)
Definition FUTURE_SKEW_MS : Z := 5000.

Definition dot : Ascii.ascii := Ascii.ascii_of_nat 46.

(** [parse_dispatch_id]: the target boot id and the issue time in milliseconds. *)
Definition parse_dispatch_id (dispatch_id : string) : option (string * Z) :=
  match split_char dot dispatch_id with
  | [boot; issued; rand] =>
      if bool_decide (boot = "") || negb (String.length rand =? 32)%nat then None
      else match py_int issued with
           | Some n => Some (boot, n)
           | None => None
           end
  | _ => None
  end.

(** [RETENTION = max(<configured>, 3 * ACCEPT_WINDOW + 1)] *)
Definition retention (configured accept_window : Z) : Z :=
  Z.max configured (3 * accept_window + 1).

(** An entry: its state and when it was written, [None] while admitted. *)
Definition Entry : Type := string * option Z.
Definition Entries : Type := odict string Entry.

(** [float - int] overflows on a huge issue time. *)
Inductive Raised := OverflowError.

Inductive Verdict := Received | Refused | Unknown.
#[export] Instance Verdict_eq_dec : EqDecision Verdict.
Proof. solve_decision. Defined.

Section ledger.
(** [instance_registry.BOOT_ID], [ACCEPT_WINDOW] and the configured retention. *)
Context (BOOT_ID : string) (ACCEPT_WINDOW CONFIGURED : Z).

Definition RETENTION : Z := retention CONFIGURED ACCEPT_WINDOW.

Definition stale (now : Z) (e : Entry) : bool :=
  match e.2 with
  | Some t => RETENTION * SECOND <? now - t
  | None => false
  end.

Definition gc (now : Z) (d : Entries) : Entries := filter (fun kv => stale now kv.2 = false) d.

(** The tests on an id of this process that is not in the ledger.  [Err] is the
    [OverflowError] of the first subtraction. *)
Definition fresh_enough (now : Z) (dispatch_id : string) : result Raised bool :=
  match parse_dispatch_id dispatch_id with
  | Some (boot, issued) =>
      if negb (bool_decide (boot = BOOT_ID)) then Ok false
      else if float_overflows issued then Err OverflowError
      else Ok ((now - issued * MS <=? ACCEPT_WINDOW * SECOND)
               && (issued * MS - now <=? FUTURE_SKEW_MS * MS))
  | None => Ok false
  end.

(** [Ledger.admit] *)
Definition admit_dispatch (now : Z) (dispatch_id : string) (d : Entries)
    : Entries * result Raised bool :=
  let d := gc now d in
  if dict_has d dispatch_id then (d, Ok false)
  else match fresh_enough now dispatch_id with
       | Err e => (d, Err e)
       | Ok ok =>
           (dict_set d dispatch_id (if ok then ("admitted", None) else ("refused", Some now)),
            Ok ok)
       end.

(** [Ledger.finish] *)
Definition finish (now : Z) (dispatch_id state : string) (d : Entries) : Entries :=
  match dict_get d dispatch_id with
  | Some ("admitted", _) => dict_set d dispatch_id (state, Some now)
  | _ => d
  end.

(** The id is recent enough for its absence to mean it was never admitted. *)
Definition absence_is_definite (now : Z) (dispatch_id : string) : result Raised bool :=
  match parse_dispatch_id dispatch_id with
  | Some (boot, issued) =>
      if negb (bool_decide (boot = BOOT_ID)) then Ok false
      else if float_overflows issued then Err OverflowError
      else Ok ((now - issued * MS <? RETENTION * SECOND)
               && (issued * MS - now <=? FUTURE_SKEW_MS * MS))
  | None => Ok false
  end.

(** [Ledger.settle] *)
Definition settle (now : Z) (dispatch_id : string) (d : Entries)
    : Entries * result Raised Verdict :=
  let d := gc now d in
  match dict_get d dispatch_id with
  | Some e => (d, Ok (if bool_decide (e.1 = "refused") then Refused else Received))
  | None =>
      match absence_is_definite now dispatch_id with
      | Err e => (d, Err e)
      | Ok true => (dict_set d dispatch_id ("refused", Some now), Ok Refused)
      | Ok false => (d, Ok Unknown)
      end
  end.

(** [Ledger.counts] *)
Definition counts (d : Entries) : odict string Z :=
  foldl (fun out kv => dict_set out kv.2.1 (default 0 (dict_get out kv.2.1) + 1)) [] d.

(** ** Runs *)

(** The operations the middleware performs; [_serve_forwarded] finishes with
    "completed" or "failed". *)
Inductive Op :=
| OAdmit (id : string)
| OFinish (id : string) (completed : bool)
| OSettle (id : string).

Inductive Answer :=
| AAdmit (r : result Raised bool)
| ADone
| ASettle (r : result Raised Verdict).

Definition op_id (o : Op) : string :=
  match o with OAdmit id | OFinish id _ | OSettle id => id end.

Definition finish_state (completed : bool) : string :=
  if completed then "completed" else "failed".

Definition apply (now : Z) (o : Op) (d : Entries) : Entries * Answer :=
  match o with
  | OAdmit id => let r := admit_dispatch now id d in (r.1, AAdmit r.2)
  | OFinish id c => (finish now id (finish_state c) d, ADone)
  | OSettle id => let r := settle now id d in (r.1, ASettle r.2)
  end.

(** A call of the log: when, what and the answer. *)
Record Call := mkCall { at_ : Z; op : Op; answer : Answer }.

(** Runs from the empty ledger, the log latest call first. *)
Inductive runs : list Call -> Entries -> Prop :=
| runs_nil : runs [] []
| runs_cons log d now o :
    runs log d -> Forall (fun c => at_ c <= now) log ->
    runs (mkCall now o (apply now o d).2 :: log) (apply now o d).1.

(** ** The life of one entry

    What an operation does to the entry of its own id, and that the entries of
    the other ids only ever expire. *)

Definition gc1 (now : Z) (e : option Entry) : option Entry :=
  match e with
  | Some x => if stale now x then None else Some x
  | None => None
  end.

Definition apply1 (now : Z) (o : Op) (e : option Entry) : option Entry * Answer :=
  match o with
  | OAdmit id =>
      match gc1 now e with
      | Some x => (Some x, AAdmit (Ok false))
      | None => match fresh_enough now id with
                | Err r => (None, AAdmit (Err r))
                | Ok ok => (Some (if ok then ("admitted", None) else ("refused", Some now)),
                            AAdmit (Ok ok))
                end
      end
  | OFinish id c =>
      (match e with
       | Some ("admitted", _) => Some (finish_state c, Some now)
       | _ => e
       end, ADone)
  | OSettle id =>
      match gc1 now e with
      | Some x => (Some x, ASettle (Ok (if bool_decide (x.1 = "refused") then Refused else Received)))
      | None => match absence_is_definite now id with
                | Err r => (None, ASettle (Err r))
                | Ok true => (Some ("refused", Some now), ASettle (Ok Refused))
                | Ok false => (None, ASettle (Ok Unknown))
                end
      end
  end.

(** What another id's operation leaves of the entry. *)
Definition pass1 (now : Z) (o : Op) (e : option Entry) : option Entry :=
  match o with OFinish _ _ => e | _ => gc1 now e end.

Lemma gc_wf now d : dict_wf d -> dict_wf (gc now d).
Proof. apply (dict_wf_filter (fun kv => stale now kv.2 = false)). Qed.

Lemma gc_get now d id : dict_wf d -> dict_get (gc now d) id = gc1 now (dict_get d id).
Proof.
  intros H. unfold gc, gc1.
  etransitivity; [apply (dict_get_filter (fun kv => stale now kv.2 = false)); exact H|].
  case_match; [|done]. simpl. destruct (stale _ _); [by rewrite decide_False|by rewrite decide_True].
Qed.

Lemma apply_wf now o d : dict_wf d -> dict_wf (apply now o d).1.
Proof.
  intros H. pose proof (gc_wf now d H).
  destruct o; simpl; unfold admit_dispatch, finish, settle;
    repeat case_match; simpl; auto with odict.
Qed.

Lemma dict_has_get (d : Entries) k : dict_has d k = bool_decide (is_Some (dict_get d k)).
Proof. done. Qed.

Lemma apply_own now o d :
  dict_wf d ->
  dict_get (apply now o d).1 (op_id o) = (apply1 now o (dict_get d (op_id o))).1 /\
  (apply now o d).2 = (apply1 now o (dict_get d (op_id o))).2.
Proof.
  intros H. destruct o as [id|id c|id]; simpl.
  - unfold admit_dispatch. rewrite dict_has_get, <- gc_get by done.
    destruct (dict_get (gc now d) id) as [x|] eqn:E; [by rewrite bool_decide_true by eauto|].
    rewrite bool_decide_false by (by intros [? ?]).
    destruct (fresh_enough now id) as [ok|r]; simpl; [|by rewrite E].
    by rewrite dict_get_set_eq.
  - unfold finish. split; [|done]. destruct (dict_get d id) as [[st t]|] eqn:E; [|by rewrite E].
    repeat (case_match; try (by rewrite E)). by rewrite dict_get_set_eq.
  - unfold settle. rewrite <- gc_get by done.
    destruct (dict_get (gc now d) id) as [x|] eqn:E; [done|].
    destruct (absence_is_definite now id) as [[]|r]; simpl; rewrite ?dict_get_set_eq, ?E; done.
Qed.

Lemma apply_other now o d id :
  dict_wf d -> id <> op_id o -> dict_get (apply now o d).1 id = pass1 now o (dict_get d id).
Proof.
  intros H Hne. destruct o as [k|k c|k]; simpl in *; unfold admit_dispatch, finish, settle;
    repeat case_match; simpl; rewrite ?dict_get_set_ne by done; rewrite ?gc_get by done; done.
Qed.

Lemma runs_wf log d : runs log d -> dict_wf d.
Proof. induction 1; [apply NoDup_nil_2|by apply apply_wf]. Qed.

(** Invariants of one id's entry, by induction on the run. *)
Lemma runs_entry_ind (id : string) (I : list Call -> option Entry -> Prop) :
  I [] None ->
  (forall log e now o, I log e -> Forall (fun c => at_ c <= now) log -> op_id o = id ->
     I (mkCall now o (apply1 now o e).2 :: log) (apply1 now o e).1) ->
  (forall log e now o a, I log e -> Forall (fun c => at_ c <= now) log -> op_id o <> id ->
     I (mkCall now o a :: log) (pass1 now o e)) ->
  forall log d, runs log d -> I log (dict_get d id).
Proof.
  intros H0 Hown Hother log d. induction 1 as [|log d now o Hr IH Ht]; [done|].
  pose proof (runs_wf _ _ Hr) as Hwf. destruct (apply_own now o d Hwf) as [E1 E2].
  destruct (decide (op_id o = id)) as [<-|Hne].
  - rewrite E1, E2. by apply Hown.
  - rewrite apply_other by auto. by apply Hother.
Qed.

(** ** What a log shows *)

Definition admitted (id : string) (c : Call) : Prop :=
  op c = OAdmit id /\ answer c = AAdmit (Ok true).
Definition settled (id : string) (v : Verdict) (c : Call) : Prop :=
  op c = OSettle id /\ answer c = ASettle (Ok v).

(** The log has run past the time [x]. *)
Definition past (x : Z) (log : list Call) : Prop := exists c, c ∈ log /\ x < at_ c.

(** The entry still remembers an admission at [t0]. *)
Definition remembers (e : option Entry) (t0 : Z) : Prop :=
  e = Some ("admitted", None) \/
  exists c tf, e = Some (finish_state c, Some tf) /\ t0 <= tf.

Lemma past_cons x c log : past x log -> past x (c :: log).
Proof. intros (c' & H & Hx). exists c'. split; [by right|done]. Qed.

Lemma past_now x now log :
  past x log -> Forall (fun c => at_ c <= now) log -> x < now.
Proof.
  intros (c & H & Hx) Hf. rewrite Forall_forall in Hf. specialize (Hf _ H). simpl in Hf. lia.
Qed.

Lemma finish_state_not_refused c : finish_state c <> "refused".
Proof. by destruct c. Qed.

Lemma finish_state_not_admitted c : finish_state c <> "admitted".
Proof. by destruct c. Qed.

Lemma gc1_Some now e x : gc1 now e = Some x -> e = Some x.
Proof. unfold gc1. repeat case_match; congruence. Qed.

(** An expired entry was written long ago. *)
Lemma gc1_None now st t :
  gc1 now (Some (st, t)) = None -> exists tf, t = Some tf /\ RETENTION * SECOND < now - tf.
Proof.
  unfold gc1, stale. simpl. destruct t as [tf|]; [|done].
  destruct (_ <? _) eqn:E; [|done]. exists tf. split; [done|]. zb.
Qed.

(** Expiry forgets only what is older than the retention. *)
Lemma remembers_gc now e t0 :
  remembers e t0 -> remembers (gc1 now e) t0 \/ t0 + RETENTION * SECOND < now.
Proof.
  intros [->|(c & tf & -> & Ht)]; [left; by left|].
  destruct (gc1 now (Some (finish_state c, Some tf))) as [x|] eqn:E.
  - left. right. apply gc1_Some in E as [= <-]. eauto.
  - right. apply gc1_None in E as (t & [= <-] & H). lia.
Qed.

(** The conditions of an admission and of a definite absence, in milliseconds. *)
Lemma fresh_enough_true now id :
  fresh_enough now id = Ok true -> exists issued,
    parse_dispatch_id id = Some (BOOT_ID, issued) /\
    now <= issued * MS + ACCEPT_WINDOW * SECOND /\ issued * MS - FUTURE_SKEW_MS * MS <= now.
Proof.
  unfold fresh_enough. destruct (parse_dispatch_id id) as [[boot issued]|]; [|done].
  case_bool_decide; [|done]. subst. simpl. destruct (float_overflows _); [done|].
  intros [= H]. exists issued. split; [done|]. zb.
Qed.

(** What the log says about one id. *)
Record entry_ok (id : string) (log : list Call) (e : option Entry) : Prop := {
  eo_shape : match e with
             | None => True
             | Some x => x = ("admitted", None) \/
                 (exists c t, x = (finish_state c, Some t)) \/
                 (exists t, x = ("refused", Some t))
             end;
  eo_fresh c : c ∈ log -> admitted id c -> fresh_enough (at_ c) id = Ok true;
  eo_adm c : c ∈ log -> admitted id c ->
    remembers e (at_ c) \/ past (at_ c + RETENTION * SECOND) log;
  eo_recv x : e = Some x -> x.1 <> "refused" -> exists c, c ∈ log /\ admitted id c
}.

(** A step that admits nothing and keeps or expires the entry. *)
Lemma entry_ok_pass id log e e' now o a :
  entry_ok id log e -> (~ admitted id (mkCall now o a)) ->
  e' = e \/ e' = gc1 now e -> entry_ok id (mkCall now o a :: log) e'.
Proof.
  intros [Hs Hf Ha Hr] Hno He. split.
  - destruct He as [->| ->]; [done|]. destruct (gc1 now e) as [x|] eqn:E; [|done].
    apply gc1_Some in E. by rewrite E in Hs.
  - intros c [->|Hc]%elem_of_cons; [done|by apply Hf].
  - intros c [->|Hc]%elem_of_cons Hadm; [done|].
    destruct (Ha c Hc Hadm) as [Hm|Hp]; [|right; by apply past_cons].
    destruct He as [->| ->]; [by left|].
    destruct (remembers_gc now e _ Hm) as [?|Hlt]; [by left|right].
    eexists. split; [by left|done].
  - intros x Hx Hn. assert (e = Some x) as E.
    { destruct He as [->| ->]; [done|by eapply gc1_Some]. }
    destruct (Hr x E Hn) as (c & Hc & Had). exists c. split; [by right|done].
Qed.

(** An entry written now, once the previous one has expired. *)
Lemma entry_ok_write id log e x now o a :
  entry_ok id log e -> gc1 now e = None ->
  (x = ("admitted", None) /\ admitted id (mkCall now o a) /\ fresh_enough now id = Ok true) \/
  (x = ("refused", Some now) /\ ~ admitted id (mkCall now o a)) ->
  entry_ok id (mkCall now o a :: log) (Some x).
Proof.
  intros [Hs Hf Ha Hr] Hg Hx. split.
  - destruct Hx as [(-> & _)|(-> & _)]; eauto.
  - intros c [->|Hc]%elem_of_cons Hadm; [|by apply Hf].
    destruct Hx as [(_ & _ & H)|(_ & H)]; [done|by destruct H].
  - intros c [->|Hc]%elem_of_cons Hadm.
    + destruct Hx as [(-> & _)|(_ & H)]; [left; by left|by destruct H].
    + right. destruct (Ha c Hc Hadm) as [Hm|Hp]; [|by apply past_cons].
      destruct (remembers_gc now e _ Hm) as [H|Hlt].
      * rewrite Hg in H. destruct H as [H|(? & ? & H & _)]; discriminate H.
      * eexists. split; [by left|done].
  - intros y [= <-] Hn. destruct Hx as [(_ & H & _)|(-> & _)]; [|done].
    eexists. split; [by left|done].
Qed.

(** [finish] on an admitted id. *)
Lemma entry_ok_finish id log e now c :
  entry_ok id log e -> Forall (fun c => at_ c <= now) log ->
  entry_ok id (mkCall now (OFinish id c) ADone :: log)
    (match e with Some ("admitted", _) => Some (finish_state c, Some now) | _ => e end).
Proof.
  intros H Ht. pose proof H as [Hs Hf Ha Hr].
  assert (Hcase : e = Some ("admitted", None) \/
    match e with Some ("admitted", _) => Some (finish_state c, Some now) | _ => e end = e).
  { destruct e as [x|]; [|by right].
    destruct Hs as [->|[(d & t & ->)|(t & ->)]]; [by left|right; by destruct d|by right]. }
  destruct Hcase as [->|E];
    [|rewrite E; apply entry_ok_pass with e; [done|by intros [? _]|by left]].
  split.
  - right. left. eauto.
  - intros x [->|Hx]%elem_of_cons; [by intros [? _]|by apply Hf].
  - intros x [->|Hx]%elem_of_cons; [by intros [? _]|]. intros _. left. right.
    exists c, now. split; [done|]. rewrite Forall_forall in Ht. by apply Ht.
  - intros x _ _. destruct (Hr _ eq_refl) as (y & Hy & Had); [done|]. exists y.
    split; [by right|done].
Qed.

Lemma entry_ok_own id log e now o :
  entry_ok id log e -> Forall (fun c => at_ c <= now) log -> op_id o = id ->
  entry_ok id (mkCall now o (apply1 now o e).2 :: log) (apply1 now o e).1.
Proof.
  intros H Ht Ho. destruct o as [k|k c|k]; simpl in Ho; subst k; simpl.
  - destruct (gc1 now e) as [x|] eqn:Hg; simpl.
    + apply entry_ok_pass with e; [done|by intros [_ ?]|by right].
    + destruct (fresh_enough now id) as [[]|] eqn:Hfe; simpl.
      * apply entry_ok_write with e; [done|done|]. left. by split_and!.
      * apply entry_ok_write with e; [done|done|]. right. split; [done|by intros [_ ?]].
      * apply entry_ok_pass with e; [done|by intros [_ ?]|by right].
  - by apply entry_ok_finish.
  - destruct (gc1 now e) as [x|] eqn:Hg; simpl.
    + apply entry_ok_pass with e; [done|by intros [? _]|by right].
    + destruct (absence_is_definite now id) as [[]|]; simpl.
      * apply entry_ok_write with e; [done|done|]. right. split; [done|by intros [? _]].
      * apply entry_ok_pass with e; [done|by intros [? _]|by right].
      * apply entry_ok_pass with e; [done|by intros [? _]|by right].
Qed.

Lemma runs_entry_ok id log d : runs log d -> entry_ok id log (dict_get d id).
Proof.
  apply (runs_entry_ind id (entry_ok id)).
  - split; try done; intros c H; by apply elem_of_nil in H.
  - intros. by apply entry_ok_own.
  - intros l e now o a H _ Hne. apply entry_ok_pass with e; [done| |].
    + intros [E _]. simpl in E. by subst o.
    + destruct o; simpl; auto.
Qed.

(** The timestamp of [id] is not ahead of the clock at any of its calls, up to the
    tolerated skew. *)
Definition timely (id : string) (issued : Z) (log : list Call) : Prop :=
  forall c, c ∈ log -> op_id (op c) = id -> issued * MS - FUTURE_SKEW_MS * MS <= at_ c.

(** After an answer "refused", the tombstone is there or the acceptance window of
    the id is over. *)
Definition refusal_ok (id : string) (issued : Z) (log : list Call) (e : option Entry) : Prop :=
  timely id issued log ->
  (forall t, e = Some ("refused", Some t) -> issued * MS - FUTURE_SKEW_MS * MS <= t) /\
  ((exists c, c ∈ log /\ settled id Refused c) ->
    (exists t, e = Some ("refused", Some t)) \/
    past (issued * MS + ACCEPT_WINDOW * SECOND) log).

Lemma timely_tail id issued c log : timely id issued (c :: log) -> timely id issued log.
Proof. intros H c' Hc. apply H. by right. Qed.

(** The configuration leaves room for the acceptance window within the retention. *)
Definition windows_fit : Prop :=
  ACCEPT_WINDOW * SECOND + FUTURE_SKEW_MS * MS <= RETENTION * SECOND.

Lemma refusal_ok_gc id issued log now e o a :
  windows_fit -> refusal_ok id issued log e -> ~ settled id Refused (mkCall now o a) ->
  refusal_ok id issued (mkCall now o a :: log) (gc1 now e).
Proof.
  intros Hw H Hno Ht. destruct (H (timely_tail _ _ _ _ Ht)) as [H1 H2]. split.
  - intros t E%gc1_Some. by apply H1.
  - intros (c & [->|Hc]%elem_of_cons & Hs); [done|].
    destruct (H2 (ex_intro _ c (conj Hc Hs))) as [[t E]|Hp]; [|right; by apply past_cons].
    destruct (gc1 now e) as [x|] eqn:Hg; [left; exists t; apply gc1_Some in Hg; congruence|].
    right. exists (mkCall now o a). split; [by left|]. simpl. specialize (H1 t E). subst e.
    apply gc1_None in Hg as (tf & [= <-] & Hlt). unfold windows_fit, SECOND, MS in *. lia.
Qed.

Lemma refusal_ok_same id issued log now e o a :
  refusal_ok id issued log e -> ~ settled id Refused (mkCall now o a) ->
  refusal_ok id issued (mkCall now o a :: log) e.
Proof.
  intros H Hno Ht. destruct (H (timely_tail _ _ _ _ Ht)) as [H1 H2]. split; [done|].
  intros (c & [->|Hc]%elem_of_cons & Hs); [done|].
  destruct (H2 (ex_intro _ c (conj Hc Hs))) as [?|Hp]; [by left|right; by apply past_cons].
Qed.

(** Forgetting an expired tombstone and writing another entry. *)
Lemma refusal_ok_write id issued log now e o a x :
  windows_fit -> refusal_ok id issued log e -> gc1 now e = None -> op_id o = id ->
  (x = ("admitted", None) /\ ~ settled id Refused (mkCall now o a)) \/
  x = ("refused", Some now) ->
  refusal_ok id issued (mkCall now o a :: log) (Some x).
Proof.
  intros Hw H Hg Ho Hx Ht. destruct Hx as [[-> Hno]| ->].
  - pose proof (refusal_ok_gc id issued log now e o a Hw H Hno Ht) as [_ H2].
    split; [done|]. intros Hs. destruct (H2 Hs) as [[t E]|Hp]; [|by right]. congruence.
  - split; [|intros _; left; eauto]. intros t [= <-].
    apply (Ht (mkCall now o a)); [by left|done].
Qed.

Lemma refusal_ok_own id issued log e now o :
  windows_fit -> entry_ok id log e -> refusal_ok id issued log e -> op_id o = id ->
  refusal_ok id issued (mkCall now o (apply1 now o e).2 :: log) (apply1 now o e).1.
Proof.
  intros Hw He H Ho. destruct o as [k|k c|k]; simpl in Ho; subst k; simpl.
  - destruct (gc1 now e) as [x|] eqn:Hg; simpl.
    + rewrite <- Hg. apply refusal_ok_gc; [done|done|by intros [? _]].
    + destruct (fresh_enough now id) as [[]|]; simpl.
      * apply refusal_ok_write with e; [done..|]. left. by split; [|intros [? _]].
      * apply refusal_ok_write with e; [done..|]. by right.
      * rewrite <- Hg. apply refusal_ok_gc; [done|done|by intros [? _]].
  - assert (H' : refusal_ok id issued (mkCall now (OFinish id c) ADone :: log) e).
    { apply refusal_ok_same; [done|by intros [? _]]. }
    destruct e as [[st w]|]; [|done]. destruct (decide (st = "admitted")) as [->|Hne].
    + intros Ht. destruct (H' Ht) as [_ H2]. split; [intros t [= E]; by destruct c|].
      intros Hs. destruct (H2 Hs) as [[t E]|Hp]; [done|by right].
    + destruct He as [[E|[(d & t & E)|(t & E)]] _ _ _]; simplify_eq; [by destruct d|done].
  - destruct (gc1 now e) as [x|] eqn:Hg; simpl.
    + pose proof (gc1_Some _ _ _ Hg) as ->. destruct He as [Hs _ _ _].
      case_bool_decide as Hx.
      * destruct Hs as [->|[(d & t & ->)|(t & ->)]]; [done|by destruct d|].
        intros Ht. destruct (H (timely_tail _ _ _ _ Ht)) as [H1 _]. split; [done|].
        intros _. left. eauto.
      * rewrite <- Hg. apply refusal_ok_gc; [done|done|by intros [_ ?]].
    + destruct (absence_is_definite now id) as [[]|]; simpl.
      * apply refusal_ok_write with e; [done..|]. by right.
      * rewrite <- Hg. apply refusal_ok_gc; [done|done|by intros [_ ?]].
      * rewrite <- Hg. apply refusal_ok_gc; [done|done|by intros [_ ?]].
Qed.

Lemma runs_refusal_ok id issued log d :
  windows_fit -> runs log d -> refusal_ok id issued log (dict_get d id).
Proof.
  intros Hw Hr. enough (entry_ok id log (dict_get d id) /\
    refusal_ok id issued log (dict_get d id)) as [_ ?] by done. revert log d Hr.
  apply (runs_entry_ind id (fun l e => entry_ok id l e /\ refusal_ok id issued l e)).
  - split; [split; try done; intros c H; by apply elem_of_nil in H|].
    intros _. split; [done|]. intros (c & H & _). by apply elem_of_nil in H.
  - intros l e now o [He H] Ht Ho. split; [by apply entry_ok_own|by apply refusal_ok_own].
  - intros l e now o a [He H] _ Hne. split.
    + apply entry_ok_pass with e; [done| |destruct o; simpl; auto].
      intros [E _]. simpl in E. by subst o.
    + assert (Hno : ~ settled id Refused (mkCall now o a)) by (intros [E _]; simpl in E; by subst o).
      destruct o; simpl; [by apply refusal_ok_gc|by apply refusal_ok_same|by apply refusal_ok_gc].
Qed.

(** The state of the ledger before each call of the log. *)
Lemma runs_split l1 c l2 d :
  runs (l1 ++ c :: l2) d -> exists d0, runs l2 d0 /\
    Forall (fun c' => at_ c' <= at_ c) l2 /\ answer c = (apply (at_ c) (op c) d0).2.
Proof.
  revert d. induction l1 as [|x l1 IH]; intros d Hr; inversion Hr; subst; simpl; eauto.
Qed.

(** An admission at [now] means everything remembered about the id is gone. *)
Lemma admission_forgets id d now :
  dict_wf d -> (apply now (OAdmit id) d).2 = AAdmit (Ok true) ->
  gc1 now (dict_get d id) = None /\ fresh_enough now id = Ok true.
Proof.
  intros Hwf. destruct (apply_own now (OAdmit id) d Hwf) as [_ ->]. simpl.
  destruct (gc1 now _); simpl; [done|]. by destruct (fresh_enough now id) as [[]|].
Qed.

(** An admission is the last word on its id: no earlier call admitted it. *)
Lemma admission_is_final l1 c l2 d id :
  windows_fit -> runs (l1 ++ c :: l2) d -> admitted id c ->
  forall c', c' ∈ l2 -> ~ admitted id c'.
Proof.
  intros Hw Hr [Ho Ha] c' Hc' Had'. destruct (runs_split _ _ _ _ Hr) as (d0 & Hr0 & Ht & E).
  rewrite Ho, Ha in E. symmetry in E.
  apply admission_forgets in E as [Hg Hf]; [|by eapply runs_wf].
  destruct (runs_entry_ok id _ _ Hr0) as [_ Hfr Hadm _].
  assert (Hlt : at_ c' + RETENTION * SECOND < at_ c).
  { destruct (Hadm c' Hc' Had') as [Hm|Hp]; [|by eapply past_now].
    destruct (remembers_gc (at_ c) _ _ Hm) as [H|H]; [|done].
    rewrite Hg in H. destruct H as [H|(? & ? & H & _)]; discriminate H. }
  apply fresh_enough_true in Hf as (i & E1 & H1 & _).
  destruct (fresh_enough_true _ _ (Hfr c' Hc' Had')) as (j & E2 & _ & H2).
  assert (i = j) as -> by congruence. unfold windows_fit, SECOND, MS in *. lia.
Qed.

(** After a "refused" no call admits the id. *)
Lemma no_admission_after_refusal l1 c l2 d id issued :
  windows_fit -> runs (l1 ++ c :: l2) d -> settled id Refused c ->
  parse_dispatch_id id = Some (BOOT_ID, issued) -> timely id issued (l1 ++ c :: l2) ->
  forall c', c' ∈ l1 -> ~ admitted id c'.
Proof.
  intros Hw Hr Hset Hp Htime c' (k1 & k2 & ->)%list_elem_of_split [Ho Ha].
  rewrite <- app_assoc in Hr, Htime. simpl in Hr.
  destruct (runs_split _ _ _ _ Hr) as (d1 & Hr1 & Ht1 & E1).
  rewrite Ho, Ha in E1. symmetry in E1.
  apply admission_forgets in E1 as [Hg Hf]; [|by eapply runs_wf].
  assert (Htl : timely id issued (k2 ++ c :: l2)).
  { intros x Hx. apply Htime, elem_of_app. right. by right. }
  destruct (runs_refusal_ok id issued _ _ Hw Hr1 Htl) as [H1 H2].
  apply fresh_enough_true in Hf as (j & Ej & Hj & _). assert (j = issued) as -> by congruence.
  enough (issued * MS + ACCEPT_WINDOW * SECOND < at_ c') by lia.
  destruct H2 as [[t Et]|Hpast];
    [exists c; split; [apply elem_of_app; right; by left|done]| |].
  - rewrite Et in Hg. apply gc1_None in Hg as (tf & [= <-] & Hlt). specialize (H1 t Et).
    unfold windows_fit, SECOND, MS in *. lia.
  - by eapply past_now.
Qed.

(** A "refused" shows that the admissions before it are older than the retention. *)
Lemma refusal_forgets id l2 d0 c c' :
  runs l2 d0 -> Forall (fun x => at_ x <= at_ c) l2 -> answer c = (apply (at_ c) (op c) d0).2 ->
  settled id Refused c -> c' ∈ l2 -> admitted id c' -> at_ c' + RETENTION * SECOND < at_ c.
Proof.
  intros Hr Ht E [Ho Ha] Hc' Hc'a. destruct (runs_entry_ok id _ _ Hr) as [_ _ Hadm _].
  destruct (Hadm c' Hc' Hc'a) as [Hm|Hpast]; [|by eapply past_now].
  destruct (remembers_gc (at_ c) _ _ Hm) as [Hm'|H]; [exfalso|done].
  destruct (apply_own (at_ c) (OSettle id) d0 (runs_wf _ _ Hr)) as [_ E2].
  rewrite Ho, Ha, E2 in E. simpl in E.
  destruct Hm' as [Hm'|(k & tf & Hm' & _)]; rewrite Hm' in E; simpl in E; [done|].
  by destruct k.
Qed.

(** A "refused" in time is final: no call of the run admits the id. *)
Lemma refusal_is_final c c' log d id issued :
  windows_fit -> runs log d -> c ∈ log -> settled id Refused c ->
  parse_dispatch_id id = Some (BOOT_ID, issued) -> timely id issued log ->
  at_ c + FUTURE_SKEW_MS * MS <= issued * MS + RETENTION * SECOND ->
  c' ∈ log -> ~ admitted id c'.
Proof.
  intros Hw Hr (l1 & l2 & ->)%list_elem_of_split Hset Hp Htime Hle Hc'.
  apply elem_of_app in Hc' as [Hc'|Hc'].
  { by eapply (no_admission_after_refusal l1 c l2). }
  destruct (runs_split _ _ _ _ Hr) as (d0 & Hr0 & Ht & E).
  apply elem_of_cons in Hc' as [->|Hc']; [intros [E1 _]; destruct Hset; congruence|]. intros Had.
  pose proof (refusal_forgets id l2 d0 c c' Hr0 Ht E Hset Hc' Had).
  assert (issued * MS - FUTURE_SKEW_MS * MS <= at_ c'); [|lia].
  apply Htime; [apply elem_of_app; right; by right|]. by destruct Had as [-> _].
Qed.

(** C10. A dispatch id is admitted at most once in any run of the ledger whose acceptance
    window, and the skew it grants, fit into the retention ([windows_fit]: they do for every
    window of 2 s or more), replays, concurrent senders and expired tombstones included. *)
Theorem admitted_at_most_once l1 c l2 d id :
  windows_fit -> runs (l1 ++ c :: l2) d -> admitted id c ->
  forall c', c' ∈ l2 -> ~ admitted id c'.
Proof. apply admission_is_final. Qed.

(** The verdicts of [settle] are truthful.  "received" is answered only for an
    id that was admitted.  "refused" is final: no later call admits the id, and no
    earlier one did within the retention period (never, when the settle comes
    within that period of the issue time). *)
Theorem settle_truthful l1 c l2 d id :
  windows_fit -> runs (l1 ++ c :: l2) d ->
  (settled id Received c -> exists c', c' ∈ l2 /\ admitted id c') /\
  (forall issued, settled id Refused c -> parse_dispatch_id id = Some (BOOT_ID, issued) ->
    timely id issued (l1 ++ c :: l2) ->
    (forall c', c' ∈ l1 -> ~ admitted id c') /\
    (forall c', c' ∈ l2 -> admitted id c' -> at_ c' + RETENTION * SECOND < at_ c) /\
    (at_ c + FUTURE_SKEW_MS * MS <= issued * MS + RETENTION * SECOND ->
     forall c', c' ∈ l2 -> ~ admitted id c')).
Proof.
  intros Hw Hr. destruct (runs_split _ _ _ _ Hr) as (d0 & Hr0 & Ht & E). split.
  - intros [Ho Ha]. destruct (apply_own (at_ c) (OSettle id) d0 (runs_wf _ _ Hr0)) as [_ E2].
    rewrite Ho, Ha, E2 in E. simpl in E.
    destruct (gc1 (at_ c) (dict_get d0 id)) as [x|] eqn:Hg; simpl in E.
    + apply gc1_Some in Hg. apply (eo_recv _ _ _ (runs_entry_ok id _ _ Hr0) x Hg).
      case_bool_decide; congruence.
    + by destruct (absence_is_definite _ _) as [[]|].
  - intros issued Hset Hp Htime.
    assert (Hold : forall c', c' ∈ l2 -> admitted id c' ->
      at_ c' + RETENTION * SECOND < at_ c) by (intros; by eapply refusal_forgets).
    split_and!; [by eapply no_admission_after_refusal|done|].
    intros Hle c' Hc'. apply (refusal_is_final c c' (l1 ++ c :: l2) d id issued); try done; apply elem_of_app; right;
      [by left|by right].
Qed.

(** A run computed from timed operations, the log latest first. *)
Fixpoint exec (l : list (Z * Op)) (log : list Call) (d : Entries) : list Call * Entries :=
  match l with
  | [] => (log, d)
  | (now, o) :: l => exec l (mkCall now o (apply now o d).2 :: log) (apply now o d).1
  end.

Fixpoint ordered (t : Z) (l : list (Z * Op)) : bool :=
  match l with
  | [] => true
  | (now, _) :: l => (t <=? now) && ordered now l
  end.

Lemma exec_runs_from l t log d :
  runs log d -> Forall (fun c => at_ c <= t) log -> ordered t l = true ->
  runs (exec l log d).1 (exec l log d).2.
Proof.
  revert t log d. induction l as [|[now o] l IH]; intros t log d Hr Ht Ho; [done|].
  simpl in *. apply andb_true_iff in Ho as [Hle Ho]. apply Z.leb_le in Hle.
  assert (Hn : Forall (fun c => at_ c <= now) log) by (eapply Forall_impl; [done|simpl; lia]).
  apply (IH now); [by constructor|by constructor; [simpl; lia|]|done].
Qed.

Lemma exec_runs l : ordered 0 l = true -> runs (exec l [] []).1 (exec l [] []).2.
Proof. apply exec_runs_from; constructor. Qed.
End ledger.

(** The windows fit whenever the acceptance window is at least two seconds. *)
Lemma windows_fit_2 aw conf : 2 <= aw -> windows_fit aw conf.
Proof. unfold windows_fit, RETENTION, retention, FUTURE_SKEW_MS, SECOND, MS. lia. Qed.

(** ** Concrete runs *)

Definition demo_rand : string := "0123456789abcdef0123456789abcdef".
Definition demo_id : string := String.append "b.1000." demo_rand.   (* issued at 1 s *)
Definition demo_other : string := String.append "b.999." demo_rand.

(** Defaults: an acceptance window of 10 s and a retention of 600 s. *)
Definition demo_ops : list (Z * Op) :=
  [(1000000, OAdmit demo_other); (1000001, OAdmit demo_id); (2000000, OFinish demo_id true);
   (3000000, OSettle demo_id); (4000000, OSettle (String.append "b.2000." demo_rand))].

Definition demo_log : list Call := (exec "b" 10 600 demo_ops [] []).1.
Definition demo_entries : Entries := (exec "b" 10 600 demo_ops [] []).2.

Lemma demo_runs : runs "b" 10 600 demo_log demo_entries.
Proof. apply exec_runs. reflexivity. Qed.

Lemma admitted_at_most_once_witness :
  exists l1 c l2, demo_log = l1 ++ c :: l2 /\ admitted demo_id c /\ length l2 = 1%nat /\
    forall c', c' ∈ l2 -> ~ admitted demo_id c'.
Proof.
  exists (take 3 demo_log), (mkCall 1000001 (OAdmit demo_id) (AAdmit (Ok true))), (drop 4 demo_log).
  split; [vm_compute; reflexivity|]. split; [by split|]. split; [vm_compute; reflexivity|].
  apply (admitted_at_most_once "b" 10 600 (take 3 demo_log)
    (mkCall 1000001 (OAdmit demo_id) (AAdmit (Ok true))) _ demo_entries).
  - apply windows_fit_2. lia.
  - exact demo_runs.
  - by split.
Defined.

Lemma settle_truthful_witness :
  (exists c', c' ∈ drop 2 demo_log /\ admitted demo_id c').
Proof.
  apply (proj1 (settle_truthful "b" 10 600 (take 1 demo_log)
    (mkCall 3000000 (OSettle demo_id) (ASettle (Ok Received))) (drop 2 demo_log) demo_entries demo_id
    (windows_fit_2 10 600 ltac:(lia)) demo_runs)).
  by split.
Defined.

(** With an acceptance window of one second and no retention configured, an id
    stamped five seconds ahead is admitted twice. *)
Example small_window_admits_twice :
  let ops := [(1000000, OAdmit (String.append "b.6000." demo_rand));
              (1000000, OFinish (String.append "b.6000." demo_rand) true);
              (6000000, OAdmit (String.append "b.6000." demo_rand))] in
  map answer (exec "b" 1 0 ops [] []).1 = [AAdmit (Ok true); ADone; AAdmit (Ok true)].
Proof. vm_compute. reflexivity. Qed.

(** A late copy of a request that ran is refused, and from then on [settle] answers
    "refused" for a dispatch that was admitted. *)
Example late_copy_settles_refused :
  let ops := [(1000000, OAdmit demo_id); (2000000, OFinish demo_id true);
              (700000000, OAdmit demo_id); (700000001, OSettle demo_id)] in
  map answer (exec "b" 10 600 ops [] []).1 =
    [ASettle (Ok Refused); AAdmit (Ok false); ADone; AAdmit (Ok true)].
Proof. vm_compute. reflexivity. Qed.

(** An issue time beyond the range of a float makes [admit] raise. *)
Example huge_issue_time_raises :
  (admit_dispatch "b" 10 600 0
     (String.append "b.1" (String.append (String.concat "" (repeat "0" 309))
        (String.append "." demo_rand))) []).2
  = Err OverflowError.
Proof. vm_compute. reflexivity. Qed.
