(* ===== verification/Peer.v ===== *)
(** Signed calls between gateway instances ([src/src/handoff/peer.py]) and the drain
    state ([src/src/handoff/drain.py]).

    [hmac.new(secret, message, sha256).hexdigest()] is the parameter [hmac_hex]; the
    other instances' liveness and answers are arguments of the operations that read
    them. *)

From S2P Require Import Prelude Json Ledger.

(** A live instance ([instance_registry.Instance]). *)
Record Instance := mkInstance { name : string; boot_id : string; url : string }.
#[export] Instance Instance_eq_dec : EqDecision Instance.
Proof. solve_decision. Defined.

(** The parts of an ASGI scope the handoff reads. *)
Record Scope := mkScope {
  method : string;
  path : string;
  query_string : string;
  raw_headers : list (string * string);
  client : option string
}.

Inductive PeerError := Overflow | TypeError.

Definition FORWARDED : string := "x-gateway-forwarded".
Definition DISPATCH_ID : string := "x-gateway-dispatch-id".
Definition SIGNATURE : string := "x-gateway-signature".
Definition REROUTE : string := "x-gateway-reroute".
Definition OURS : list string := [FORWARDED; DISPATCH_ID; SIGNATURE].

(** [_INTERNAL_MAX_AGE_MS] *)
Definition INTERNAL_MAX_AGE_MS : Z := 60000.

Definition newline : string := String (Ascii.ascii_of_nat 10) EmptyString.

(** [_headers]: the last of several headers of one name wins. *)
Definition headers_of (s : Scope) : odict string string :=
  foldl (fun d kv => dict_set d (lower kv.1) kv.2) [] (raw_headers s).

(** [headers.get(key, "")] *)
Definition header (h : odict string string) (key : string) : string :=
  default "" (dict_get h key).

(** The signed text: [method] is already in upper case. *)
Definition sign_message (sender dispatch_id method target : string) : string :=
  String.concat newline [sender; dispatch_id; method; target].

(** [hmac.compare_digest] on two [str]s: only ASCII text is accepted. *)
Definition compare_digest (a b : string) : result PeerError bool :=
  if is_ascii a && is_ascii b then Ok (bool_decide (a = b)) else Err TypeError.

(** [strip_ours] *)
Definition strip_ours (h : list (string * string)) : list (string * string) :=
  filter (fun kv => lower kv.1 ∉ OURS) h.

(** [dict(scope, headers=strip_ours(scope["headers"]))] *)
Definition strip_scope (s : Scope) : Scope :=
  mkScope (method s) (path s) (query_string s) (strip_ours (raw_headers s)) (client s).

(** [request_target] *)
Definition request_target (s : Scope) : string := path s.

Section peer.
Context (hmac_hex : string -> string) (ME BOOT_ID : string).

Definition sign (sender dispatch_id method target : string) : string :=
  hmac_hex (sign_message sender dispatch_id (upper method) target).

(** [signed_headers], given the fresh dispatch id. *)
Definition signed_headers (dispatch_id method target : string) : list (string * string) :=
  [(FORWARDED, ME); (DISPATCH_ID, dispatch_id);
   (SIGNATURE, sign ME dispatch_id method target)].

(** [verify] *)
Definition verify (s : Scope) (h : odict string string)
    : result PeerError (option (string * string)) :=
  let sender := header h FORWARDED in
  let dispatch_id := header h DISPATCH_ID in
  let signature := header h SIGNATURE in
  if bool_decide (sender = "") || bool_decide (dispatch_id = "")
     || bool_decide (signature = "") then Ok None
  else if bool_decide (sender = ME) then Ok None
  else
    let expected := sign sender dispatch_id (method s) (request_target s) in
    let! same := compare_digest expected signature in
    Ok (if same then Some (sender, dispatch_id) else None).

(** [fresh_internal]; [now] in microseconds. *)
Definition fresh_internal (now : Z) (dispatch_id : string) : result PeerError bool :=
  match parse_dispatch_id dispatch_id with
  | None => Ok false
  | Some (boot, issued) =>
      if negb (bool_decide (boot = BOOT_ID)) then Ok false
      else if float_overflows issued then Err Overflow
      else Ok (Z.abs (now - issued * MS) <=? INTERNAL_MAX_AGE_MS * MS)
  end.
End peer.

(** ** Drain *)

Inductive LoopTask := NoTask | LoopRunning | LoopDone.
#[export] Instance LoopTask_eq_dec : EqDecision LoopTask.
Proof. solve_decision. Defined.

(** [DrainState] *)
Record DrainState := mkDrain { target : option Instance; task : LoopTask }.

Definition init_drain : DrainState := mkDrain None NoTask.

Definition draining (d : DrainState) : bool := bool_decide (is_Some (target d)).

Inductive DrainError :=
| TargetRequired | IntoItself | NotRunning | OtherBoot | NoPing | AnsweredOtherBoot.

(** What [/internal/ping] gave: an exception, or a status and the decoded body
    ([None]: the body is no JSON). *)
Inductive Ping := PingRaised | PingAnswer (status : Z) (body : option Json).

(** [res.json().get("boot_id") if res.status_code == 200 else None]; [Err] is an
    exception of the expression. *)
Definition seen_boot (p : Ping) : result unit Json :=
  match p with
  | PingRaised => Err tt
  | PingAnswer status body =>
      if status =? 200 then
        match body with
        | Some (JObj d) => Ok (jget_null (JObj d) "boot_id")
        | _ => Err tt
        end
      else Ok JNull
  end.

Section drain.
(** [is_alive] and the record file of each name ([None]: missing or not a record). *)
Context (ME : string) (is_alive : string -> bool) (record : string -> option (string * string)).
Context (ping : Instance -> Ping).

(** [instance_registry.lookup] *)
Definition lookup (n : string) : option Instance :=
  if is_alive n then
    match record n with
    | Some (boot, u) => Some (mkInstance n boot u)
    | None => None
    end
  else None.

(** The checks of [DrainState.start], in their order. *)
Definition validate_target (target_name target_boot : string) : result DrainError Instance :=
  if bool_decide (target_name = "") || bool_decide (target_boot = "") then Err TargetRequired
  else if bool_decide (target_name = ME) then Err IntoItself
  else match lookup target_name with
       | None => Err NotRunning
       | Some i =>
           if negb (bool_decide (boot_id i = target_boot)) then Err OtherBoot
           else match seen_boot (ping i) with
                | Err _ => Err NoPing
                | Ok seen => if is_str seen target_boot then Ok i else Err AnsweredOtherBoot
                end
       end.

(** [DrainState.start]: on an error nothing changes. *)
Definition start (target_name target_boot : string) (d : DrainState)
    : DrainState * result DrainError unit :=
  match validate_target target_name target_boot with
  | Err e => (d, Err e)
  | Ok i => (mkDrain (Some i) LoopRunning, Ok tt)
  end.

(** [DrainState.stop] *)
Definition stop (d : DrainState) : DrainState := mkDrain None NoTask.

(** [DrainState.live_target] *)
Definition live_target (d : DrainState) : option Instance :=
  match target d with
  | None => None
  | Some t =>
      match lookup (name t) with
      | Some now => if bool_decide (boot_id now = boot_id t) then Some now else None
      | None => None
      end
  end.

Lemma lookup_name n i : lookup n = Some i -> name i = n.
Proof. unfold lookup. repeat case_match; intros; by simplify_eq. Qed.

Lemma validate_target_ok n b i :
  validate_target n b = Ok i <->
  n <> "" /\ b <> "" /\ n <> ME /\ lookup n = Some i /\ boot_id i = b /\
  exists d, ping i = PingAnswer 200 (Some (JObj d)) /\ dict_get d "boot_id" = Some (JStr b).
Proof.
  unfold validate_target, seen_boot, is_str, jget_null, jget. split.
  - intros H. repeat case_match; simplify_eq/=; b2p; subst; try tauto.
    split_and!; try done; try tauto. exists d. split; [done|]. f_equal.
    destruct (dict_get d "boot_id") as [v|]; simpl in *; [|done]. by subst.
  - intros (H1 & H2 & H3 & Hl & Hb & d & Hp & Hd).
    rewrite !bool_decide_false by done. simpl. rewrite Hl. subst b.
    rewrite bool_decide_true by done. simpl. rewrite Hp. simpl. rewrite Hd. simpl.
    by rewrite bool_decide_true.
Qed.
End drain.

(** A request of the drain endpoint, with what it observes of the other instances. *)
Record DrainCall := mkDrainCall {
  dc_start : option (string * string);   (* [None] is DELETE *)
  dc_alive : string -> bool;
  dc_record : string -> option (string * string);
  dc_ping : Instance -> Ping
}.

Definition drain_call (ME : string) (c : DrainCall) (d : DrainState) : DrainState :=
  match dc_start c with
  | Some (n, b) => (start ME (dc_alive c) (dc_record c) (dc_ping c) n b d).1
  | None => stop d
  end.

(** Headers of ours are gone, whatever else the client sent. *)
Lemma headers_of_fold_get (l : list (string * string)) d k :
  (forall kv, kv ∈ l -> lower kv.1 <> k) ->
  dict_get (foldl (fun d kv => dict_set d (lower kv.1) kv.2) d l) k = dict_get d k.
Proof.
  revert d. induction l as [|kv l IH]; intros d H; simpl; [done|].
  rewrite IH by (intros x Hx; apply H; by right).
  apply dict_get_set_ne, H. by left.
Qed.

Lemma append_eq_clean (c : Ascii.ascii) (a a' b b' : string) :
  has_char c a = false -> has_char c a' = false ->
  String.append a (String c b) = String.append a' (String c b') -> a = a' /\ b = b'.
Proof.
  revert a'. induction a as [|x a IH]; intros [|y a'] H1 H2 E; simpl in *; simplify_eq.
  - done.
  - by rewrite Ascii.eqb_refl in H2.
  - by rewrite Ascii.eqb_refl in H1.
  - apply orb_false_iff in H1 as [_ H1], H2 as [_ H2]. by destruct (IH _ H1 H2 H) as [-> ->].
Qed.

Definition nl : Ascii.ascii := Ascii.ascii_of_nat 10.

Lemma sign_message_eq a b c d :
  sign_message a b c d =
  String.append a (String nl (String.append b (String nl (String.append c (String nl d))))).
Proof. done. Qed.

(** The text under a signature determines every part of the call: sender, dispatch
    id, method and path (the path may hold any character; the other parts, header
    values and a method, hold no newline), so a signature cannot be moved to another
    sender, id, method or path. *)
Theorem sign_message_injective a b c d a' b' c' d' :
  Forall (fun s => has_char nl s = false) [a; b; c; a'; b'; c'] ->
  sign_message a b c d = sign_message a' b' c' d' ->
  a = a' /\ b = b' /\ c = c' /\ d = d'.
Proof.
  rewrite !sign_message_eq, !Forall_cons. intros (H1 & H2 & H3 & H4 & H5 & H6 & _) E.
  apply append_eq_clean in E as [-> E]; [|done|done].
  apply append_eq_clean in E as [-> E]; [|done|done].
  apply append_eq_clean in E as [-> ->]; done.
Qed.

Lemma sign_message_injective_witness :
  sign_message "blue" "b.1.x" "POST" "/v1/responses" = sign_message "blue" "b.1.x" "POST" "/v1/responses"
  /\ "/v1/responses" = "/v1/responses".
Proof.
  split; [reflexivity|].
  refine (proj2 (proj2 (proj2 (sign_message_injective "blue" "b.1.x" "POST" "/v1/responses"
    "blue" "b.1.x" "POST" "/v1/responses" _ eq_refl)))).
  repeat constructor.
Defined.

(** What a client sends cannot pass for a forwarded request: after [strip_ours]
    no request verifies, and nothing but the three forwarding headers is removed. *)
Theorem stripped_never_verifies hmac_hex me s :
  let s' := strip_scope s in
  verify hmac_hex me s' (headers_of s') = Ok None /\
  forall kv, kv ∈ raw_headers s' <-> kv ∈ raw_headers s /\ lower kv.1 ∉ OURS.
Proof.
  simpl. split.
  - unfold verify, header, headers_of. simpl.
    assert (forall k, k ∈ OURS -> dict_get (foldl (fun d kv => dict_set d (lower kv.1) kv.2) []
      (strip_ours (raw_headers s))) k = None) as Hno.
    { intros k Hk. rewrite headers_of_fold_get; [done|].
      intros kv [Hn _]%list_elem_of_filter <-. done. }
    rewrite !Hno by set_solver. done.
  - intros kv. unfold strip_ours. rewrite list_elem_of_filter. naive_solver.
Qed.

(** Along any sequence of drain requests the live drain target is another instance. *)
Lemma live_target_other me calls is_alive record i :
  live_target is_alive record (foldl (fun d c => drain_call me c d) init_drain calls) = Some i ->
  name i <> me /\ is_alive (name i) = true /\
  exists t, target (foldl (fun d c => drain_call me c d) init_drain calls) = Some t /\
    name t = name i /\ boot_id t = boot_id i.
Proof.
  set (d := foldl _ _ _).
  assert (Ht : forall t, target d = Some t -> name t <> me).
  { unfold d. induction calls as [|c calls IH] using rev_ind; [done|].
    rewrite foldl_app. simpl. unfold drain_call. destruct (dc_start c) as [[n b]|]; [|done].
    unfold start. destruct (validate_target _ _ _ _ _ _) as [j|e] eqn:E; simpl; [|done].
    intros t [= <-]. apply validate_target_ok in E as (_ & _ & Hne & Hl & _).
    by rewrite (lookup_name _ _ _ _ Hl). }
  unfold live_target. destruct (target d) as [t|] eqn:E; [|done].
  destruct (lookup _ _ _) as [j|] eqn:El; [|done]. case_bool_decide as Hb; [|done].
  intros [= <-]. pose proof (lookup_name _ _ _ _ El) as Hn. specialize (Ht t eq_refl).
  split_and!; [congruence| |by exists t].
  unfold lookup in El. rewrite Hn. by destruct (is_alive (name t)).
Qed.

(** Draining is safe to configure: [start] accepts exactly a named, live, other
    instance that answers the ping with the announced boot id, changes nothing
    otherwise, and so along any sequence of drain requests neither the drain target
    nor the instance requests are forwarded to is this instance itself. *)
Theorem drain_target_valid me calls is_alive record :
  let d := foldl (fun d c => drain_call me c d) init_drain calls in
  (forall ping n b,
    let r := start me is_alive record ping n b d in
    (r.2 = Ok tt <-> exists i doc,
       n <> "" /\ b <> "" /\ n <> me /\ lookup is_alive record n = Some i /\ boot_id i = b /\
       ping i = PingAnswer 200 (Some (JObj doc)) /\ dict_get doc "boot_id" = Some (JStr b)) /\
    (r.2 = Ok tt -> target r.1 = lookup is_alive record n /\ task r.1 = LoopRunning) /\
    (r.2 <> Ok tt -> r.1 = d)) /\
  (forall i, live_target is_alive record d = Some i ->
     name i <> me /\ is_alive (name i) = true /\
     exists t, target d = Some t /\ name t = name i /\ boot_id t = boot_id i).
Proof.
  intros d. split.
  - intros ping n b. unfold start.
    destruct (validate_target _ _ _ _ _ _) as [i|e] eqn:E; simpl; split_and!; try done.
    + split; [intros _|done]. apply validate_target_ok in E as (? & ? & ? & ? & ? & doc & ? & ?).
      by exists i, doc.
    + intros _. apply validate_target_ok in E as (_ & _ & _ & H & _). by rewrite H.
    + split; [done|]. intros (i & doc & ? & ? & ? & ? & ? & ? & ?).
      enough (validate_target me is_alive record ping n b = Ok i) by congruence.
      apply validate_target_ok. eauto 10.
  - intros i. apply live_target_other.
Qed.
