(* ===== verification/Routing.v ===== *)
(** Where each request is served ([src/src/handoff/middleware.py],
    [HandoffMiddleware]).

    The outermost ASGI middleware: it classifies a request, buffers its body, decides
    attempt by attempt between serving it here, asking the owner to release the
    session, forwarding and waiting, and turns what the app or the other instance
    answers into messages to the client.  What the app, the other instances and the
    clock do in an attempt is the argument [Env] of that attempt.  Paths are ASCII
    text; bodies are byte strings. *)

From stdpp Require Import pretty.
From S2P Require Import Prelude Json Ledger Peer.

(** ** Paths *)

Definition slash : Ascii.ascii := Ascii.ascii_of_nat 47.
Definition nonempty (s : string) : bool := negb (bool_decide (s = "")).

(** [_RESPONSE_PATH]: [^/v1/responses/(resp_[^/]+)(?:/cancel)?$], its group. *)
Definition response_path (p : string) : option string :=
  match strip_prefix "/v1/responses/" p with
  | Some rest =>
      let seg := before_char slash rest in
      let tail := from_char slash rest in
      match strip_prefix "resp_" seg with
      | Some suffix =>
          if nonempty suffix &&
             match tail with
             | EmptyString => true
             | _ => match strip_prefix "/cancel" tail with Some e => at_end e | None => false end
             end
          then Some seg else None
      | None => None
      end
  | None => None
  end.

(** Any characters up to the regex's end: no newline but a final one. *)
Fixpoint dots_end (s : string) : bool :=
  match s with
  | EmptyString => true
  | String c s' => if Ascii.eqb c nl then at_end s else dots_end s'
  end.

(** [_SESSION_PATH]: [/v1/sessions/], a nonempty segment (its group), then nothing or a
    slash and any characters. *)
Definition session_path (p : string) : option string :=
  match strip_prefix "/v1/sessions/" p with
  | Some rest =>
      let seg := before_char slash rest in
      if nonempty seg &&
         match from_char slash rest with EmptyString => true | String _ t => dots_end t end
      then Some seg else None
  | None => None
  end.

Definition is_hex (c : Ascii.ascii) : bool :=
  let n := Ascii.nat_of_ascii c in
  is_digit c || ((97 <=? n)%nat && (n <=? 102)%nat) || ((65 <=? n)%nat && (n <=? 70)%nat).

(** [n] hexadecimal digits and what follows them. *)
Fixpoint take_hex (n : nat) (s : string) : option (string * string) :=
  match n, s with
  | O, _ => Some (EmptyString, s)
  | S n, String c s' =>
      if is_hex c then
        match take_hex n s' with
        | Some (h, rest) => Some (String c h, rest)
        | None => None
        end
      else None
  | S _, EmptyString => None
  end.

(** [8-4-4-4-12] hexadecimal digits and what follows them. *)
Fixpoint take_groups (ns : list nat) (s : string) : option (string * string) :=
  match ns with
  | [] => Some (EmptyString, s)
  | n :: ns =>
      match take_hex n s with
      | Some (h, rest) =>
          match ns with
          | [] => Some (h, rest)
          | _ => match strip_prefix "-" rest with
                 | Some rest' =>
                     match take_groups ns rest' with
                     | Some (g, rest'') => Some (String.append h (String.append "-" g), rest'')
                     | None => None
                     end
                 | None => None
                 end
          end
      | None => None
      end
  end.

(** [\d+$] *)
Fixpoint digits_end (seen : bool) (s : string) : bool :=
  match s with
  | EmptyString => seen
  | String c s' => if is_digit c then digits_end true s' else seen && at_end s
  end.

(** [_RESP_ID.match(s)] and its group, lowered ([_session_of_response] on a string). *)
Definition session_of_string (resp_id : string) : option string :=
  match strip_prefix "resp_" resp_id with
  | Some rest =>
      match take_groups [8; 4; 4; 4; 12]%nat rest with
      | Some (uuid, rest') =>
          match strip_prefix "_" rest' with
          | Some turn => if digits_end false turn then Some (lower uuid) else None
          | None => None
          end
      | None => None
      end
  | None => None
  end.

(** [_session_of_response] on a JSON value: matching a value that is neither falsy nor
    a string raises [TypeError]. *)
Definition session_of_response (v : Json) : result PeerError (option string) :=
  if truthy v then
    match v with
    | JStr s => Ok (session_of_string s)
    | _ => Err TypeError
    end
  else Ok (session_of_string "").

Definition SAFE_METHODS : list string := ["GET"; "HEAD"; "OPTIONS"].
Definition PROBES : list string := ["/health"; "/health/ready"; "/metrics"].

Inductive Kind := New | AdminWrite | OfSession (session_id : string).

(** The first classification of [_route], by method and path; [None] passes the
    request to the app untouched. *)
Definition classify (meth p : string) : option Kind :=
  match response_path p with
  | Some resp_id => option_map OfSession (session_of_string resp_id)
  | None =>
      match session_path p with
      | Some seg => if bool_decide (p = "/v1/sessions/stats")
                    then if negb (bool_decide (meth ∈ SAFE_METHODS))
                            && (starts_with p "/admin" || starts_with p "/api/")
                         then Some AdminWrite else None
                    else Some (OfSession seg)
      | None =>
          if bool_decide (meth = "POST")
             && (bool_decide (p = "/v1/responses") || bool_decide (p = "/v1/agents/messages"))
          then Some New
          else if negb (bool_decide (meth ∈ SAFE_METHODS))
                  && (starts_with p "/admin" || starts_with p "/api/")
          then Some AdminWrite else None
      end
  end.

(** ** Bodies *)

Inductive Recv := RDisconnect | RRequest (body : string) (more : bool).

(** [_BODY_LIMIT] *)
Definition BODY_LIMIT : Z := 64 * 1024 * 1024.
Definition zlen (s : string) : Z := Z.of_nat (String.length s).

Inductive BodyRead :=
| Body (body : string) (rest : list Recv)
| TooLarge (prefix : string) (more : bool) (rest : list Recv)
| ClientGone
| Waiting.                     (* no message yet *)

(** [_read_body] on the messages the client sends. *)
Fixpoint read_body (prefix : string) (ms : list Recv) : BodyRead :=
  match ms with
  | [] => Waiting
  | RDisconnect :: _ => ClientGone
  | RRequest chunk more :: rest =>
      let prefix := String.append prefix chunk in
      if BODY_LIMIT <? zlen prefix then TooLarge prefix more rest
      else if more then read_body prefix rest
      else Body prefix rest
  end.

(** What the app reads through [_PrefixReplay] and [_Replay]. *)
Definition prefix_replay (prefix : string) (more : bool) (rest : list Recv) : list Recv :=
  RRequest prefix more :: rest.
Definition replay (body : string) (rest : list Recv) : list Recv :=
  RRequest body false :: rest.

(** The body an ASGI app reads from its messages: the bytes up to the last chunk, and
    whether the client was still there. *)
Fixpoint app_body (ms : list Recv) : option string :=
  match ms with
  | [] => None
  | RDisconnect :: _ => None
  | RRequest chunk true :: rest =>
      match app_body rest with
      | Some b => Some (String.append chunk b)
      | None => None
      end
  | RRequest chunk false :: _ => Some chunk
  end.

(** ** Messages to the client *)

Inductive SendMsg :=
| SStart (status : Z) (headers : list (string * string))
| SBody (body : string) (more : bool).

Definition has_header (k : string) (hs : list (string * string)) : bool :=
  existsb (fun kv => bool_decide (lower kv.1 = k)) hs.

(** A 421 with [x-gateway-reroute]: the app refused before it did any work. *)
Definition is_reroute (m : SendMsg) : bool :=
  match m with
  | SStart status hs => (status =? 421) && has_header REROUTE hs
  | SBody _ _ => false
  end.

(** [guarded_send] over the messages of the app; the flag is [rerouted]. *)
Fixpoint guarded (rerouted : bool) (ms : list SendMsg) : list SendMsg * bool :=
  match ms with
  | [] => ([], rerouted)
  | m :: ms =>
      if is_reroute m then guarded true ms
      else if rerouted then guarded rerouted ms
      else let r := guarded rerouted ms in (m :: r.1, r.2)
  end.

Definition HOP_BY_HOP : list string :=
  ["host"; "connection"; "keep-alive"; "transfer-encoding"; "content-length"; "upgrade";
   "proxy-connection"].

Definition end_to_end (hs : list (string * string)) : list (string * string) :=
  filter (fun kv => lower kv.1 ∉ HOP_BY_HOP) hs.

Definition header_values (k : string) (hs : list (string * string)) : list string :=
  map snd (filter (fun kv => lower kv.1 = k) hs).

(** [_error] *)
Definition error_body (code message : string) : Json :=
  JObj [("error", JObj [("message", JStr message); ("type", JStr "api_error");
                        ("code", JStr code)])].

(** How an attempt ended; [Raises] is an exception leaving the middleware. *)
Inductive Outcome := Done | Again | Wait | Unavailable | Raises.
#[export] Instance Outcome_eq_dec : EqDecision Outcome.
Proof. solve_decision. Defined.

(** What a call to another instance came to. *)
Inductive Reply := ReplyRaised | ReplyAnswer (status : Z) (body : option Json).

Inductive StreamEnd := StreamComplete | StreamBroken | StreamLeft.

(** [client.send] and the stream after it.  [NotConnected]: no request byte was sent;
    [ClientLeft]: the client disconnected first; [SendBroken]: any other transport
    error, with what the settle call then answered. *)
Inductive Sent :=
| NotConnected
| ClientLeft
| SendBroken (settled : Reply)
| Responded (status : Z) (headers : list (string * string)) (chunks : list string)
    (ending : StreamEnd).

(** The environment of one attempt. *)
Record Env := mkEnv {
  drain : DrainState;
  alive : string -> bool;
  record : string -> option (string * string);
  local_session : string -> bool;               (* [session_id in session_manager.sessions] *)
  owner_of : string -> option string;           (* [owner_locks.owner] *)
  release_reply : Instance -> string -> Reply;  (* [POST /internal/sessions/{id}/release] *)
  app : list SendMsg * bool;                    (* the app's messages, whether it raised *)
  sent : Instance -> Sent
}.

(** [res.json().get(key)] of a 200 answer. *)
Definition answered (r : Reply) (key : string) : option Json :=
  match r with
  | ReplyAnswer status (Some (JObj d)) => if status =? 200 then dict_get d key else None
  | _ => None
  end.

(** [_ask_release] *)
Definition ask_release (r : Reply) : bool :=
  match answered r "result" with
  | Some v => is_str v "released" || is_str v "absent"
  | None => false
  end.

(** The verdict is "refused"; every failure counts as "unknown". *)
Definition settled_refused (r : Reply) : bool :=
  match answered r "verdict" with
  | Some v => is_str v "refused"
  | None => false
  end.

(** What an attempt does. *)
Inductive Decision :=
| ServeLocally
| ForwardTo (i : Instance)
| TargetGone
| OwnerUnclear
| AskRelease (i : Instance) (session_id : string).

Section routing.
(** [json.dumps] and [json.loads] ([None]: [ValueError]); this instance's name. *)
Context (json_dumps : Json -> string) (json_loads : string -> option Json) (ME : string).

(** [_send_json] *)
Definition send_json (status : Z) (body : Json) (headers : list (string * string))
    : list SendMsg :=
  let raw := json_dumps body in
  [SStart status ([("content-type", "application/json");
                   ("content-length", pretty (zlen raw))] ++ headers);
   SBody raw false].

(** [_local] *)
Definition local_attempt (e : Env) : Outcome * list SendMsg :=
  let r := guarded false (app e).1 in
  (if (app e).2 then Raises else if r.2 then Wait else Done, r.1).

(** [_settle_or_report], before a response has started. *)
Definition settle_or_report (r : Reply) : Outcome * list SendMsg :=
  if settled_refused r then (Wait, [])
  else (Done, send_json 502 (error_body "forward_interrupted"
          "The connection to the gateway instance handling this request was lost; its outcome is unknown. Do not retry automatically.")
          [("x-should-retry", "false")]).

(** The event that ends a broken SSE stream. *)
Definition failed_event : string :=
  String.append "event: response.failed" (String.append newline (String.append "data: "
    (String.append (json_dumps (JObj [("type", JStr "response.failed");
       ("response", JObj [("status", JStr "failed");
          ("error", JObj [("code", JStr "forward_interrupted");
             ("message", JStr "The connection to the gateway instance running this turn was lost; the turn's outcome is unknown. Do not retry automatically.")])])]))
     (String.append newline newline)))).

(** The answer of the other instance, streamed to the client. *)
Definition relay (status : Z) (headers : list (string * string)) (chunks : list string)
    (ending : StreamEnd) : list SendMsg :=
  let sse := starts_with (String.concat ", " (header_values "content-type" headers))
               "text/event-stream" in
  SStart status (end_to_end headers) :: map (fun c => SBody c true) chunks ++
  (match ending with StreamBroken => if sse then [SBody failed_event true] else [] | _ => [] end)
  ++ [SBody EmptyString false].

(** [_forward] after the request was built. *)
Definition forward_result (s : Sent) : Outcome * list SendMsg :=
  match s with
  | NotConnected => (Wait, [])
  | ClientLeft => (Done, [])
  | SendBroken r => settle_or_report r
  | Responded status headers chunks ending =>
      if (status =? 421) && has_header REROUTE headers then (Wait, [])
      else (Done, relay status headers chunks ending)
  end.

(** [_forward]: forwarding to oneself is an assertion failure. *)
Definition forward (i : Instance) (e : Env) : Outcome * list SendMsg :=
  if bool_decide (name i = ME) then (Raises, []) else forward_result (sent e i).

(** The drain target, or [TargetGone]. *)
Definition to_target (e : Env) : Decision :=
  match live_target (alive e) (record e) (drain e) with
  | Some t => ForwardTo t
  | None => TargetGone
  end.

(** The decision of [_attempt]. *)
Definition decision (e : Env) (kind : Kind) (continuation : bool) : Decision :=
  match kind with
  | New | AdminWrite => if draining (drain e) then to_target e else ServeLocally
  | OfSession sid =>
      if local_session e sid then ServeLocally
      else match owner_of e sid with
           | None => if draining (drain e) then to_target e else ServeLocally
           | Some owner =>
               if bool_decide (owner = ME) || bool_decide (owner = "") then OwnerUnclear
               else match lookup (alive e) (record e) owner with
                    | None => OwnerUnclear
                    | Some i => if continuation && negb (draining (drain e))
                                then AskRelease i sid else ForwardTo i
                    end
           end
  end.

(** The request leaves for another instance: directly or after a refused release. *)
Definition forwards_to (e : Env) (d : Decision) : option Instance :=
  match d with
  | ForwardTo i => Some i
  | AskRelease i sid => if ask_release (release_reply e i sid) then None else Some i
  | _ => None
  end.

(** [_attempt] *)
Definition attempt (e : Env) (kind : Kind) (continuation : bool) : Outcome * list SendMsg :=
  match decision e kind continuation with
  | ServeLocally => local_attempt e
  | ForwardTo i => forward i e
  | TargetGone => (Unavailable, [])
  | OwnerUnclear => (Wait, [])
  | AskRelease i sid =>
      if ask_release (release_reply e i sid) then (Again, []) else forward i e
  end.

(** The 503 of an attempt that may not be repeated. *)
Definition deadline_error (o : Outcome) : list SendMsg :=
  match o with
  | Unavailable => send_json 503 (error_body "drain_target_unavailable"
      "This gateway is draining and its target is not reachable; retry shortly")
      [("retry-after", "1")]
  | _ => send_json 503 (error_body "handoff_deadline_exceeded"
      "Could not determine which gateway instance owns this session; retry shortly")
      [("retry-after", "1")]
  end.

(** [_BACKOFF_START] and [_BACKOFF_MAX], in microseconds. *)
Definition BACKOFF_START : Z := 50000.
Definition BACKOFF_MAX : Z := 1000000.

(** What the loop came to: the messages to the client, the number of attempts and
    how the last one ended. *)
Record Routed := mkRouted { messages : list SendMsg; attempts : nat; ended : Outcome }.

Definition more_messages (ms : list SendMsg) (r : Routed) : Routed :=
  mkRouted (ms ++ messages r) (S (attempts r)) (ended r).

(** The loop of [_route]: attempt [i] meets [env i], and [clock i] is the time right
    after it. *)
Fixpoint route_loop (fuel : nat) (env : nat -> Env) (clock : nat -> Z) (deadline : Z)
    (kind : Kind) (continuation : bool) (i : nat) (backoff : Z) : option Routed :=
  match fuel with
  | O => None
  | S fuel =>
      let (o, ms) := attempt (env i) kind continuation in
      match o with
      | Done | Raises => Some (mkRouted ms 1 o)
      | Again => option_map (more_messages ms)
                   (route_loop fuel env clock deadline kind continuation (S i) backoff)
      | Wait | Unavailable =>
          if deadline <? clock i + backoff then Some (mkRouted (ms ++ deadline_error o) 1 o)
          else option_map (more_messages ms)
                 (route_loop fuel env clock deadline kind continuation (S i)
                    (Z.min (backoff * 2) BACKOFF_MAX))
      end
  end.

(** What [_route] does with a request before the loop. *)
Inductive Routing :=
| ServeForwarded (dispatch_id : string)
| ToApp (s : Scope) (receives : list Recv)
| Dropped
| Pending
| Loop (s : Scope) (body : string) (kind : Kind) (continuation : bool) (rest : list Recv)
| Failed (e : PeerError).

(** [previous_response_id] of the body; [JNull] when there is none to be read. *)
Definition previous_response_id (body : string) : Json :=
  match json_loads (if nonempty body then body else "{}") with
  | Some (JObj d) => jget_null (JObj d) "previous_response_id"
  | _ => JNull
  end.

Definition route_kind (s : Scope) (ms : list Recv) (kind : Kind) : Routing :=
  match read_body EmptyString ms with
  | Waiting => Pending
  | ClientGone => Dropped
  | TooLarge prefix more rest => ToApp s (prefix_replay prefix more rest)
  | Body body rest =>
      let continuation := bool_decide (method s = "POST") && bool_decide (path s = "/v1/responses") in
      let previous :=
        match kind with
        | New => if bool_decide (path s = "/v1/responses") then previous_response_id body
                 else JNull
        | _ => JNull
        end in
      if truthy previous then
        match session_of_response previous with
        | Err e => Failed e
        | Ok None => ToApp s (replay body rest)
        | Ok (Some sid) => Loop s body (OfSession sid) continuation rest
        end
      else Loop s body kind continuation rest
  end.

(** [_route] up to its loop. *)
Definition route (hmac_hex : string -> string) (s : Scope) (ms : list Recv) : Routing :=
  match verify hmac_hex ME s (headers_of s) with
  | Err e => Failed e
  | Ok (Some (_, dispatch_id)) => ServeForwarded dispatch_id
  | Ok None =>
      let s := strip_scope s in
      match classify (method s) (path s) with
      | None => ToApp s ms
      | Some kind => route_kind s ms kind
      end
  end.

(** The headers [_forward] sends: the client's end-to-end ones and the signature. *)
Definition forward_headers (hmac_hex : string -> string) (s : Scope) (dispatch_id : string)
    : list (string * string) :=
  end_to_end (raw_headers s) ++
  signed_headers hmac_hex ME dispatch_id (method s) (request_target s).

(** The request as the other instance receives it. *)
Definition forwarded_scope (hmac_hex : string -> string) (s : Scope) (dispatch_id : string)
    (peer_addr : string) : Scope :=
  mkScope (method s) (path s) (query_string s) (forward_headers hmac_hex s dispatch_id)
    (Some peer_addr).
End routing.

(** ** Bodies reach the app intact *)

Lemma read_body_app prefix ms :
  match read_body prefix ms with
  | Body b rest =>
      exists b0, app_body ms = Some b0 /\ b = String.append prefix b0
  | TooLarge p more rest =>
      (exists b0, app_body ms = Some b0 /\ app_body (prefix_replay p more rest) =
         Some (String.append prefix b0)) \/
      (app_body ms = None /\ app_body (prefix_replay p more rest) = None)
  | ClientGone | Waiting => app_body ms = None
  end.
Proof.
  revert prefix. induction ms as [|[|chunk more] ms IH]; intros prefix; [done|done|].
  cbn [read_body]. destruct (_ <? _).
  - destruct more; [|left; eexists; by split]. simpl.
    destruct (app_body ms) as [b|]; [left|by right].
    eexists. split; [done|]. by rewrite append_assoc.
  - destruct more.
    + specialize (IH (String.append prefix chunk)).
      destruct (read_body _ ms) as [b rest|p more rest| |].
      * destruct IH as (b0 & E & ->). exists (String.append chunk b0). simpl. rewrite E.
        by rewrite append_assoc.
      * destruct IH as [(b0 & E & E')|[E E']]; [left|right; simpl; by rewrite E].
        exists (String.append chunk b0). simpl app_body at 1. rewrite E, E'.
        by rewrite append_assoc.
      * simpl. by rewrite IH.
      * simpl. by rewrite IH.
    + by exists chunk.
Qed.

Section properties.
Context (json_dumps : Json -> string) (ME : string).

(** Whatever routing buffers, the app reads the request's own body, byte for
    byte: a request that is served here (large bodies, replayed bodies and requests
    routing does not look at) is read by the app exactly as the client sent it, and
    the body the loop serves or forwards is that body too. *)
Theorem app_sees_original_body json_loads hmac_hex s ms :
  match route json_loads ME hmac_hex s ms with
  | ToApp _ receives => app_body receives = app_body ms
  | Loop _ body _ _ rest => app_body ms = Some body /\ app_body (replay body rest) = Some body
  | Dropped | Pending => app_body ms = None
  | ServeForwarded _ | Failed _ => True
  end.
Proof.
  unfold route. destruct (verify _ _ _ _) as [[[]|]|]; [done| |done].
  destruct (classify _ _) as [kind|]; [|done]. unfold route_kind.
  pose proof (read_body_app EmptyString ms) as H. 
  destruct (read_body _ ms) as [b rest|p more rest| |]; [|by destruct H as [(? & -> & ->)|[-> ->]]|done|done].
  destruct H as (b0 & E & E'). change (String.append EmptyString b0) with b0 in E'. subst b.
  destruct (truthy _); [|done].
  destruct (session_of_response _) as [[sid|]|]; [done| |done]. by rewrite E.
Qed.

(** C12. The decision respects ownership and draining.  A request is served here only
    when this process has the session, or nobody owns it and this instance is not
    draining (a new session or an admin write: when it is not draining).  It leaves
    only for another, live instance: the owner of the session, or, while draining and
    nobody owns it, the drain target with the boot id that was fixed. *)
Theorem decision_sound calls e kind continuation :
  drain e = foldl (fun d c => drain_call ME c d) init_drain calls ->
  let d := decision ME e kind continuation in
  (d = ServeLocally ->
     match kind with
     | OfSession sid => local_session e sid = true \/
         (owner_of e sid = None /\ draining (drain e) = false)
     | _ => draining (drain e) = false
     end) /\
  (forall i, forwards_to e d = Some i ->
     name i <> ME /\ alive e (name i) = true /\
     match kind with
     | OfSession sid => local_session e sid = false /\
         (owner_of e sid = Some (name i) \/ (owner_of e sid = None /\
            live_target (alive e) (record e) (drain e) = Some i))
     | _ => live_target (alive e) (record e) (drain e) = Some i
     end).
Proof.
  intros Hd. assert (Ht : forall i, to_target e = ForwardTo i ->
    live_target (alive e) (record e) (drain e) = Some i).
  { intros i. unfold to_target. destruct (live_target _ _ _); congruence. }
  assert (Hlive : forall i, live_target (alive e) (record e) (drain e) = Some i ->
    name i <> ME /\ alive e (name i) = true).
  { intros i. rewrite Hd. intros H.
    apply (live_target_other ME calls) in H. tauto. }
  assert (Hto : to_target e <> ServeLocally /\ forall i, forwards_to e (to_target e) = Some i ->
    to_target e = ForwardTo i).
  { unfold to_target. destruct (live_target _ _ _); split; simpl; congruence. }
  destruct Hto as [Hto1 Hto2]. simpl. unfold decision. split.
  - destruct kind as [| |sid]; [destruct (draining _); [by intros ?%Hto1|done]..|].
    destruct (local_session e sid); [by left|].
    destruct (owner_of e sid) as [owner|].
    + repeat case_match; done.
    + destruct (draining _); [by intros ?%Hto1|]. intros _. by right.
  - intros i. destruct kind as [| |sid].
    1,2: destruct (draining _); [|done]; intros H%Hto2%Ht; destruct (Hlive _ H); done.
    destruct (local_session e sid); [done|].
    destruct (owner_of e sid) as [owner|].
    + destruct (_ || _) eqn:Hme; [done|]. b2p.
      destruct (lookup _ _ _) as [j|] eqn:El; [|done].
      pose proof (lookup_name _ _ _ _ El) as Hn. intros Hf.
      assert (i = j) as ->.
      { destruct (_ && _); simpl in Hf; [destruct (ask_release _)|]; congruence. }
      rewrite Hn. split_and!; try done; [|by left].
      unfold lookup in El. by destruct (alive e owner).
    + destruct (draining _); [|done]. intros H%Hto2%Ht. destruct (Hlive _ H).
      split_and!; auto.
Qed.

(** ** Repeating a request *)

(** What is known of a failed attempt: the app refused before any work (421 with
    [x-gateway-reroute]), no request byte was sent, the owner answered such a 421, or
    it settled the dispatch as refused. *)
Definition provably_not_run (e : Env) (d : Decision) : Prop :=
  match forwards_to e d with
  | Some i =>
      match sent e i with
      | NotConnected => True
      | SendBroken r => settled_refused r = true
      | Responded status hs _ _ => ((status =? 421) && has_header REROUTE hs) = true
      | ClientLeft => False
      end
  | None =>
      match d with
      | ServeLocally => (guarded false (app e).1).2 = true
      | _ => True
      end
  end.

Lemma retried_not_run e kind continuation o ms :
  attempt json_dumps ME e kind continuation = (o, ms) -> o <> Done -> o <> Raises ->
  provably_not_run e (decision ME e kind continuation).
Proof.
  unfold attempt, provably_not_run. destruct (decision ME e kind continuation) as [|i| | |i sid];
    simpl; try done.
  - unfold local_attempt. intros [= <- <-]. by destruct (app e).2, (guarded _ _).2.
  - unfold forward. case_bool_decide; [by intros [= <- <-]|].
    unfold forward_result, settle_or_report.
    destruct (sent e i); repeat case_match; intros; simplify_eq; done.
  - destruct (ask_release _); [done|]. unfold forward. case_bool_decide; [by intros [= <- <-]|].
    unfold forward_result, settle_or_report.
    destruct (sent e i); repeat case_match; intros; simplify_eq; done.
Qed.

(** Every attempt of the loop but the last was one that is repeated. *)
Lemma loop_attempts fuel env clock deadline kind continuation i backoff r :
  route_loop json_dumps ME fuel env clock deadline kind continuation i backoff = Some r ->
  (0 < attempts r)%nat /\
  forall j, (i <= j)%nat -> (S j < i + attempts r)%nat ->
    exists o ms, attempt json_dumps ME (env j) kind continuation = (o, ms) /\
      o <> Done /\ o <> Raises.
Proof.
  revert i backoff r. induction fuel as [|fuel IH]; intros i backoff r; [done|]. simpl.
  destruct (attempt _ _ (env i) _ _) as [o ms] eqn:E.
  assert (Hrec : forall b, o <> Done -> o <> Raises ->
    option_map (more_messages ms)
      (route_loop json_dumps ME fuel env clock deadline kind continuation (S i) b) = Some r ->
    (0 < attempts r)%nat /\
    forall j, (i <= j)%nat -> (S j < i + attempts r)%nat ->
      exists o ms, attempt json_dumps ME (env j) kind continuation = (o, ms) /\
        o <> Done /\ o <> Raises).
  { intros b H1 H2. destruct (route_loop _ _ _ _ _ _ _ _ _ b) as [r'|] eqn:Er; [|done].
    intros [= <-]. destruct (IH _ _ _ Er) as [_ Hj]. simpl. split; [lia|].
    intros j Hle Hlt. destruct (decide (j = i)) as [->|Hne]; [by exists o, ms|].
    apply Hj; lia. }
  destruct o; try (by apply Hrec).
  - intros [= <-]. simpl. split; [lia|]. intros j ? ?. lia.
  - destruct (_ <? _); [|by apply Hrec]. intros [= <-]. simpl. split; [lia|]. intros j ? ?. lia.
  - destruct (_ <? _); [|by apply Hrec]. intros [= <-]. simpl. split; [lia|]. intros j ? ?. lia.
  - intros [= <-]. simpl. split; [lia|]. intros j ? ?. lia.
Qed.

(** A request runs at most once.  [ran j] says that attempt [j] made the app,
    here or at the instance it was forwarded to, start the request's work.  When the
    outcomes that are repeated do mean that nothing ran, every attempt but the last
    ran nothing, so the request ran at most once over the whole loop. *)
Theorem request_runs_at_most_once (ran : nat -> bool) fuel env clock deadline kind continuation r :
  (forall j, provably_not_run (env j) (decision ME (env j) kind continuation) -> ran j = false) ->
  route_loop json_dumps ME fuel env clock deadline kind continuation 0 BACKOFF_START = Some r ->
  (forall j, (S j < attempts r)%nat -> ran j = false) /\
  countb ran (seq 0 (attempts r)) <= 1.
Proof.
  intros Hran Hr. destruct (loop_attempts _ _ _ _ _ _ _ _ _ Hr) as [Hpos Hj].
  assert (Hno : forall j, (S j < attempts r)%nat -> ran j = false).
  { intros j Hlt. destruct (Hj j) as (o & ms & E & H1 & H2); [lia|lia|].
    apply Hran. by eapply retried_not_run. }
  split; [done|]. destruct (attempts r) as [|n]; [lia|].
  rewrite seq_S, countb_app. simpl.
  assert (countb ran (seq 0 n) = 0) as ->; [|destruct (ran n); lia].
  apply countb_all_false. intros j Hin. apply elem_of_seq in Hin. apply Hno. lia.
Qed.

(** ** Termination *)

(** Time still to be gained by the growing backoff, in microseconds. *)
Definition slack (backoff : Z) : Z :=
  if backoff =? 50000 then 3450000
  else if backoff =? 100000 then 2500000
  else if backoff =? 200000 then 1600000
  else if backoff =? 400000 then 800000
  else if backoff =? 800000 then 200000
  else 0.

Definition backoffs : list Z := [50000; 100000; 200000; 400000; 800000; 1000000].

Lemma loop_ends env clock deadline kind continuation fuel i backoff :
  (forall j, (attempt json_dumps ME (env j) kind continuation).1 <> Again) ->
  (forall j b, clock j + b <= deadline -> b ∈ backoffs -> clock j + b <= clock (S j)) ->
  backoff ∈ backoffs -> deadline - clock i + slack backoff < Z.of_nat fuel * SECOND ->
  exists r, route_loop json_dumps ME (S fuel) env clock deadline kind continuation i backoff
    = Some r /\ (attempts r <= S fuel)%nat.
Proof.
  intros Hag Hcl. revert i backoff. induction fuel as [|fuel IH]; intros i backoff Hb Hf.
  - simpl. specialize (Hag i). destruct (attempt _ _ (env i) _ _) as [o ms].
    assert (deadline <? clock i + backoff = true) as ->.
    { apply Z.ltb_lt. unfold backoffs in Hb.
      repeat (apply elem_of_cons in Hb as [->|Hb]; [unfold slack, SECOND in Hf; simpl in Hf; lia|]).
      by apply elem_of_nil in Hb. }
    destruct o; simpl in Hag; try done; eexists; (split; [done|simpl; lia]).
  - cbn [route_loop]. pose proof (Hag i) as Hi. destruct (attempt _ _ (env i) _ _) as [o ms].
    assert (Hnext : (deadline <? clock i + backoff) = false ->
      Z.min (backoff * 2) BACKOFF_MAX ∈ backoffs /\
      deadline - clock (S i) + slack (Z.min (backoff * 2) BACKOFF_MAX)
        < Z.of_nat fuel * SECOND).
    { intros Hle. b2p. pose proof (Hcl i backoff Hle Hb) as Hc.
      unfold backoffs in Hb. unfold BACKOFF_MAX, SECOND in *.
      repeat (apply elem_of_cons in Hb as [->|Hb];
        [split; [unfold backoffs; simpl; set_solver|unfold slack in *; simpl in *; lia]|]).
      by apply elem_of_nil in Hb. }
    destruct o; simpl in Hi; try done; try (eexists; split; [done|simpl; lia]);
      (destruct (deadline <? clock i + backoff); [eexists; split; [done|simpl; lia]|]);
      destruct (Hnext eq_refl) as [Hb' Hf'];
      destruct (IH (S i) _ Hb' Hf') as (r & Er & Ha); cbn [route_loop] in Er; rewrite Er;
      (eexists; split; [done|simpl; lia]).
Qed.

(** Routing ends.  With a deadline of [d] seconds after the first attempt, a clock
    that advances by at least each backoff slept and no attempt that asks to re-decide
    at once, the loop ends within [d + 5] attempts, with an answer. *)
Theorem routing_terminates env clock d kind continuation :
  0 <= d ->
  (forall j, (attempt json_dumps ME (env j) kind continuation).1 <> Again) ->
  (forall j b, clock j + b <= clock 0%nat + d * SECOND -> b ∈ backoffs ->
     clock j + b <= clock (S j)) ->
  exists r, route_loop json_dumps ME (Z.to_nat d + 5) env clock (clock 0%nat + d * SECOND) kind
      continuation 0 BACKOFF_START = Some r /\
    (attempts r <= Z.to_nat d + 5)%nat.
Proof.
  intros Hd Hag Hcl. replace (Z.to_nat d + 5)%nat with (S (Z.to_nat d + 4)) by lia.
  apply loop_ends; [done|done|unfold backoffs, BACKOFF_START; set_solver|].
  unfold slack, BACKOFF_START, SECOND. simpl. lia.
Qed.

(** Without that assumption it does not end: as long as the owner answers the release
    with "released" or "absent" and still holds the session, the loop re-decides
    without a pause and without looking at the deadline. *)
Lemma again_never_ends env clock deadline sid :
  (forall j, attempt json_dumps ME (env j) (OfSession sid) true = (Again, [])) ->
  forall fuel i backoff,
    route_loop json_dumps ME fuel env clock deadline (OfSession sid) true i backoff = None.
Proof.
  intros H fuel. induction fuel as [|fuel IH]; intros i backoff; [done|].
  simpl. rewrite H. by rewrite IH.
Qed.

(** ** One response *)

Definition is_body (m : SendMsg) : bool := match m with SBody _ _ => true | _ => false end.

(** Nothing, or one start followed by body messages. *)
Definition one_response (ms : list SendMsg) : Prop :=
  match ms with
  | [] => True
  | SStart _ _ :: rest => forallb is_body rest = true
  | SBody _ _ :: _ => False
  end.

Lemma guarded_bodies ms :
  forallb is_body ms = true -> guarded false ms = (ms, false) /\ guarded true ms = ([], true).
Proof.
  induction ms as [|[|b m] ms IH]; intros H; try done. simpl in *.
  destruct (IH H) as [-> ->]. done.
Qed.

Lemma guarded_response ms :
  one_response ms ->
  one_response (guarded false ms).1 /\
  ((guarded false ms).2 = true -> (guarded false ms).1 = []).
Proof.
  destruct ms as [|[st hs|b m] ms]; try done. intros H. cbn [one_response] in H.
  destruct (guarded_bodies ms H) as [E1 E2]. cbn [guarded].
  destruct (is_reroute (SStart st hs)); [by rewrite E2|]. rewrite E1. done.
Qed.

Lemma forallb_bodies (cs : list string) : forallb is_body (map (fun c => SBody c true) cs) = true.
Proof. by induction cs. Qed.

Lemma forward_response s :
  one_response (forward_result json_dumps s).2 /\
  ((forward_result json_dumps s).1 <> Done -> (forward_result json_dumps s).2 = []).
Proof.
  destruct s as [| |r|st hs cs e]; simpl; try done.
  - unfold settle_or_report. by case_match.
  - case_match; simpl; [done|]. split; [|done].
    rewrite !forallb_app, forallb_bodies. repeat case_match; done.
Qed.

Lemma attempt_response e kind continuation :
  one_response (app e).1 ->
  one_response (attempt json_dumps ME e kind continuation).2 /\
  ((attempt json_dumps ME e kind continuation).1 <> Done ->
   (attempt json_dumps ME e kind continuation).1 <> Raises ->
   (attempt json_dumps ME e kind continuation).2 = []).
Proof.
  intros Happ. assert (Hf : forall i, one_response (forward json_dumps ME i e).2 /\
    ((forward json_dumps ME i e).1 <> Done -> (forward json_dumps ME i e).2 = [])).
  { intros i. unfold forward. case_bool_decide; [done|]. apply forward_response. }
  unfold attempt. destruct (decision _ _ _ _) as [|i| | |i sid]; simpl; try done.
  - destruct (guarded_response _ Happ) as [H1 H2]. unfold local_attempt. simpl.
    split; [done|]. destruct (app e).2; [done|]. destruct (guarded _ _).2; [auto|done].
  - destruct (Hf i). auto.
  - case_match; [done|]. destruct (Hf i). auto.
Qed.

(** The client gets one response: over all attempts together the messages are
    nothing, or one response start followed by body messages; attempts that are
    repeated send nothing, and a request given up for its deadline gets exactly the
    503. *)
Theorem client_gets_one_response fuel env clock deadline kind continuation i backoff r :
  (forall j, one_response (app (env j)).1) ->
  route_loop json_dumps ME fuel env clock deadline kind continuation i backoff = Some r ->
  one_response (messages r) /\
  (ended r = Wait \/ ended r = Unavailable -> messages r = deadline_error json_dumps (ended r)).
Proof.
  intros Happ. revert i backoff r.
  induction fuel as [|fuel IH]; intros i backoff r; [done|]. simpl.
  destruct (attempt_response (env i) kind continuation (Happ i)) as [H1 H2].
  destruct (attempt _ _ (env i) _ _) as [o ms]; simpl in *.
  assert (Hrec : forall b, o <> Done -> o <> Raises -> option_map (more_messages ms)
    (route_loop json_dumps ME fuel env clock deadline kind continuation (S i) b) = Some r ->
    one_response (messages r) /\ (ended r = Wait \/ ended r = Unavailable ->
      messages r = deadline_error json_dumps (ended r))).
  { intros b Hd Hr. rewrite (H2 Hd Hr).
    destruct (route_loop _ _ _ _ _ _ _ _ _ b) as [r'|] eqn:Er; [|done].
    intros [= <-]. simpl. by apply (IH _ _ _ Er). }
  destruct o; try (by apply Hrec).
  - intros [= <-]. simpl. split; [done|]. by intros [|].
  - destruct (_ <? _); [|by apply Hrec]. intros [= <-]. rewrite (H2 ltac:(done) ltac:(done)).
    by split.
  - destruct (_ <? _); [|by apply Hrec]. intros [= <-]. rewrite (H2 ltac:(done) ltac:(done)).
    by split.
  - intros [= <-]. simpl. split; [done|]. by intros [|].
Qed.

(** ** A forwarded request at its target *)

Lemma fold_headers_app l1 l2 (d : odict string string) :
  foldl (fun d (kv : string * string) => dict_set d (lower kv.1) kv.2) d (l1 ++ l2) =
  foldl (fun d kv => dict_set d (lower kv.1) kv.2)
    (foldl (fun d kv => dict_set d (lower kv.1) kv.2) d l1) l2.
Proof. apply foldl_app. Qed.

(** Forwarding keeps the request and its authority: the target, whose name is not
    the sender's, takes the request built by [_forward] for a forwarded call with the
    dispatch id it was given; method, path and query are the client's, and of the
    client's headers exactly the end-to-end ones arrive. *)
Theorem forwarded_request_verifies json_loads hmac_hex target s ms id addr :
  (forall m, is_ascii (hmac_hex m) = true /\ hmac_hex m <> "") ->
  ME <> "" -> ME <> target -> id <> "" ->
  let s' := forwarded_scope ME hmac_hex (strip_scope s) id addr in
  route json_loads target hmac_hex s' ms = ServeForwarded id /\
  method s' = method s /\ path s' = path s /\ query_string s' = query_string s /\
  forall kv, kv ∈ raw_headers s -> lower kv.1 ∉ HOP_BY_HOP -> lower kv.1 ∉ OURS ->
    kv ∈ raw_headers s'.
Proof.
  intros Hh Hme Hne Hid s'. split_and!; try done.
  - assert (Hv : verify hmac_hex target s' (headers_of s') = Ok (Some (ME, id))).
    { unfold verify, headers_of, header. simpl raw_headers. unfold forward_headers.
      rewrite fold_headers_app. unfold signed_headers. cbn [foldl].
      set (d := foldl _ _ _).
      change (lower (FORWARDED, ME).1) with FORWARDED.
      change (lower (DISPATCH_ID, id).1) with DISPATCH_ID.
      replace (lower (SIGNATURE, sign hmac_hex ME id (method (strip_scope s))
        (request_target (strip_scope s))).1) with SIGNATURE by done. cbn [snd].
      rewrite !(dict_get_set_ne _ SIGNATURE) by done.
      rewrite dict_get_set_eq, (dict_get_set_ne _ DISPATCH_ID) by done.
      rewrite !dict_get_set_eq. simpl default.
      destruct (Hh (sign_message ME id (upper (method s)) (path s))) as [Ha Hn].
      unfold compare_digest, sign, request_target. cbn [method path s' forwarded_scope strip_scope].
      rewrite !bool_decide_false by done. rewrite Ha. simpl.
      by rewrite bool_decide_true. }
    unfold route. by rewrite Hv.
  - intros kv Hin Hhop Hours. apply elem_of_app. left. apply list_elem_of_filter.
    split; [done|]. apply list_elem_of_filter. by split.
Qed.
End properties.

(** ** The owner side of a forward, and [/internal/] *)

(** What [_serve_forwarded] came to: the app ran, or the dispatch was refused. *)
Inductive Served := AppRan | DispatchRefused (ms : list SendMsg) | ServeRaised (e : Raised).

Section owner_side.
Context (json_dumps : Json -> string) (BOOT_ID : string) (ACCEPT_WINDOW CONFIGURED : Z).

(** The 421 that makes the sender decide again. *)
Definition refusal : list SendMsg :=
  send_json json_dumps 421 (error_body "dispatch_refused"
    "Dispatch refused (stale, replayed or for another process)") [(REROUTE, "1")].

(** [_serve_forwarded]: the ledger after it; [now_out] is the time the app was done. *)
Definition serve_forwarded (now now_out : Z) (app_raised : bool) (dispatch_id : string)
    (d : Entries) : Entries * Served :=
  match admit_dispatch BOOT_ID ACCEPT_WINDOW CONFIGURED now dispatch_id d with
  | (d', Err e) => (d', ServeRaised e)
  | (d', Ok false) => (d', DispatchRefused refusal)
  | (d', Ok true) => (finish now_out dispatch_id (finish_state (negb app_raised)) d', AppRan)
  end.
End owner_side.

(** [_loopback] *)
Definition loopback (s : Scope) : bool :=
  match client s with
  | Some a => bool_decide (a = "127.0.0.1") || bool_decide (a = "::1")
  | None => false
  end.

Inductive InternalAction :=
| NotFound | Unauthorized | MethodNotAllowed
| DrainStop | DrainStart
| PingReply | ReleaseSession (session_id : string) | SettleDispatch (dispatch_id : string)
| InternalRaised (e : PeerError).

(** [/internal/<what>/([^/]+)/<verb>], a final newline included. *)
Definition internal_path (prefix verb p : string) : option string :=
  match strip_prefix prefix p with
  | Some rest =>
      let seg := before_char slash rest in
      match strip_prefix verb (from_char slash rest) with
      | Some e => if nonempty seg && at_end e then Some seg else None
      | None => None
      end
  | None => None
  end.

(** The bearer token of the [authorization] header. *)
Definition bearer (s : Scope) : string :=
  let auth := header (headers_of s) "authorization" in
  if starts_with (lower auth) "bearer " then String.substring 7 (String.length auth) auth
  else EmptyString.

Inductive Handled :=
| Internal (a : InternalAction)
| DrainStatus
| DrainStatusHidden
| Routed_ (counted : bool) (r : Routing).

Section internal.
Context (json_loads : string -> option Json) (hmac_hex : string -> string)
        (ME BOOT_ID ADMIN_API_KEY : string).

(** [_drain_endpoint] up to the drain state. *)
Definition drain_endpoint (s : Scope) : InternalAction :=
  if negb (loopback s) || bool_decide (ADMIN_API_KEY = "") then NotFound
  else if negb (bool_decide (bearer s = ADMIN_API_KEY)) then Unauthorized
  else if bool_decide (method s = "DELETE") then DrainStop
  else if bool_decide (method s = "POST") then DrainStart else MethodNotAllowed.

(** [_internal]; [now] in microseconds. *)
Definition internal (now : Z) (s : Scope) : InternalAction :=
  if bool_decide (path s = "/internal/drain") then drain_endpoint s
  else match verify hmac_hex ME s (headers_of s) with
       | Err e => InternalRaised e
       | Ok None => NotFound
       | Ok (Some (_, dispatch_id)) =>
           match fresh_internal BOOT_ID now dispatch_id with
           | Err e => InternalRaised e
           | Ok false => NotFound
           | Ok true =>
               if bool_decide (path s = "/internal/ping") && bool_decide (method s = "GET")
               then PingReply
               else match internal_path "/internal/sessions/" "/release" (path s),
                          bool_decide (method s = "POST") with
                    | Some sid, true => ReleaseSession sid
                    | _, post =>
                        match internal_path "/internal/dispatch/" "/settle" (path s), post with
                        | Some id, true => SettleDispatch id
                        | _, _ => NotFound
                        end
                    end
           end
       end.

(** [HandoffMiddleware.__call__] on an HTTP request. *)
Definition handle (now : Z) (s : Scope) (ms : list Recv) : Handled :=
  if starts_with (path s) "/internal/" && negb (starts_with (path s) "/internal/mcp-relay/")
  then Internal (internal now s)
  else if bool_decide (path s = "/health/drain")
  then if loopback s then DrainStatus else DrainStatusHidden
  else Routed_ (negb (bool_decide (path s ∈ PROBES))) (route json_loads ME hmac_hex s ms).

(** An action on this instance, or a request taken for a forwarded one. *)
Definition privileged (h : Handled) : bool :=
  match h with
  | Internal (DrainStop | DrainStart | PingReply | ReleaseSession _ | SettleDispatch _) => true
  | Routed_ _ (ServeForwarded _) => true
  | _ => false
  end.

(** Only a peer or the local operator reaches the control surface: a request that
    makes this instance release a session, settle a dispatch, answer a ping or serve
    a call as forwarded carries a valid signature of another instance over its own
    method and path; one that changes the drain state comes from a loopback address
    with the configured admin key. *)
Theorem control_surface_guarded now s ms :
  privileged (handle now s ms) = true ->
  (loopback s = true /\ bearer s = ADMIN_API_KEY /\ ADMIN_API_KEY <> "" /\
   path s = "/internal/drain") \/
  (exists sender id, sender <> ME /\ header (headers_of s) FORWARDED = sender /\
     header (headers_of s) DISPATCH_ID = id /\
     header (headers_of s) SIGNATURE = sign hmac_hex sender id (method s) (path s)).
Proof.
  assert (Hv : forall sender id, verify hmac_hex ME s (headers_of s) = Ok (Some (sender, id)) ->
    exists sender id, sender <> ME /\ header (headers_of s) FORWARDED = sender /\
     header (headers_of s) DISPATCH_ID = id /\
     header (headers_of s) SIGNATURE = sign hmac_hex sender id (method s) (path s)).
  { intros sender id. unfold verify, compare_digest. repeat (case_match; simpl; try done).
    b2p. intros _. eauto 10. }
  unfold handle. destruct (_ && _).
  - simpl. unfold internal. case_bool_decide as Hp.
    + unfold drain_endpoint. destruct (loopback s), (bool_decide (ADMIN_API_KEY = "")) eqn:Ek,
        (bool_decide (bearer s = ADMIN_API_KEY)) eqn:Eb; simpl; try done. b2p. by left.
    + destruct (verify _ _ _ _) as [[[sender id]|]|] eqn:E; try done. intros _. right. by eapply Hv.
  - case_bool_decide; [by destruct (loopback s)|]. simpl. unfold route.
    destruct (verify _ _ _ _) as [[[sender id]|]|] eqn:E; try done; [intros _; right; by eapply Hv|].
    destruct (classify _ _); [|done]. unfold route_kind.
    destruct (read_body _ _); try done. destruct (truthy _); [|done].
    by destruct (session_of_response _) as [[]|].
Qed.
End internal.

(** A refused dispatch has not reached the app, and the sender decides again. *)
Lemma refused_dispatch_retried json_dumps boot aw conf now out raised id d d' ms :
  serve_forwarded json_dumps boot aw conf now out raised id d = (d', DispatchRefused ms) ->
  exists status hs bodies, ms = SStart status hs :: bodies /\
    forall chunks e, forward_result json_dumps (Responded status hs chunks e) = (Wait, []).
Proof.
  unfold serve_forwarded. destruct (admit_dispatch _ _ _ _ _ _) as [d1 [[]|]]; try done.
  intros [= <- <-]. unfold refusal, send_json. repeat eexists.
Qed.

(** ** Concrete requests *)

Definition demo_dumps (_ : Json) : string := "{}".
Definition demo_loads (_ : string) : option Json := None.
Definition demo_hmac (m : string) : string := if Z.even (zlen m) then "e0" else "0d".

Definition green : Instance := mkInstance "green" "g1" "http://green".

(** Green is alive and answers; the session is not here and green owns it. *)
Definition demo_calls : list DrainCall :=
  [mkDrainCall (Some ("green", "g1")) (fun n => bool_decide (n = "green"))
     (fun _ => Some ("g1", "http://green"))
     (fun _ => PingAnswer 200 (Some (JObj [("boot_id", JStr "g1")])))].

Definition demo_env (sent_reply : Sent) : Env :=
  mkEnv (foldl (fun d c => drain_call "blue" c d) init_drain demo_calls)
    (fun n => bool_decide (n = "green")) (fun _ => Some ("g1", "http://green"))
    (fun _ => false) (fun _ => None) (fun _ _ => ReplyRaised)
    ([SStart 200 []; SBody "ok" false], false) (fun _ => sent_reply).

(** The first attempt cannot connect, the second is answered. *)
Definition demo_envs (j : nat) : Env :=
  match j with
  | O => demo_env NotConnected
  | _ => demo_env (Responded 200 [] ["data"] StreamComplete)
  end.

Lemma decision_sound_witness :
  forwards_to (demo_env NotConnected) (decision "blue" (demo_env NotConnected) New false) = Some green
  /\ name green <> "blue" /\ alive (demo_env NotConnected) (name green) = true.
Proof.
  assert (E : forwards_to (demo_env NotConnected)
    (decision "blue" (demo_env NotConnected) New false) = Some green) by (vm_compute; reflexivity).
  split; [exact E|].
  destruct (proj2 (decision_sound "blue" demo_calls (demo_env NotConnected) New false eq_refl)
    green E) as (H1 & H2 & _).
  split; assumption.
Defined.

Definition demo_clock (j : nat) : Z := Z.of_nat j * SECOND.

Lemma request_runs_at_most_once_witness :
  exists r, route_loop demo_dumps "blue" 5 demo_envs demo_clock 10000000 New false 0 BACKOFF_START
      = Some r /\ attempts r = 2%nat /\
    countb (fun j => (j =? 1)%nat) (seq 0 (attempts r)) <= 1.
Proof.
  eexists. split; [vm_compute; reflexivity|]. split; [vm_compute; reflexivity|].
  refine (proj2 (request_runs_at_most_once demo_dumps "blue" (fun j => (j =? 1)%nat) 5 demo_envs
    demo_clock 10000000 New false _ _ _)).
  - intros [|j] H; [reflexivity|]. exfalso. destruct j; vm_compute in H; discriminate H.
  - vm_compute. reflexivity.
Defined.

Lemma routing_terminates_witness :
  exists r, route_loop demo_dumps "blue" 15 demo_envs demo_clock (demo_clock 0 + 10 * SECOND)
    New false 0 BACKOFF_START = Some r /\ (attempts r <= 15)%nat.
Proof.
  apply (routing_terminates demo_dumps "blue" demo_envs demo_clock 10 New false).
  - lia.
  - intros [|j]; vm_compute; discriminate.
  - intros j b _ Hb. unfold demo_clock, SECOND. unfold backoffs in Hb.
    repeat (apply elem_of_cons in Hb as [->|Hb]; [lia|]). by apply elem_of_nil in Hb.
Defined.

Lemma client_gets_one_response_witness :
  exists r, route_loop demo_dumps "blue" 5 demo_envs demo_clock 10000000 New false 0 BACKOFF_START
      = Some r /\ one_response (messages r).
Proof.
  eexists. split; [vm_compute; reflexivity|].
  refine (proj1 (client_gets_one_response demo_dumps "blue" 5 demo_envs demo_clock 10000000 New
    false 0 BACKOFF_START _ _ _)).
  - intros [|j]; vm_compute; reflexivity.
  - vm_compute. reflexivity.
Defined.

Definition demo_scope : Scope :=
  mkScope "POST" "/v1/responses" "" [("Host", "x"); ("accept", "*"); (FORWARDED, "green")] None.

Lemma forwarded_request_verifies_witness :
  route demo_loads "green" demo_hmac
    (forwarded_scope "blue" demo_hmac (strip_scope demo_scope) "g1.5.r" "10.0.0.2") []
  = ServeForwarded "g1.5.r".
Proof.
  refine (proj1 (forwarded_request_verifies "blue" demo_loads demo_hmac "green" demo_scope []
    "g1.5.r" "10.0.0.2" _ _ _ _)); try discriminate.
  intros m. unfold demo_hmac. destruct (Z.even _); (split; [reflexivity|discriminate]).
Defined.

(** A signed ping of green, one second after the epoch. *)
Definition ping_id : string := String.append "b1.1000." "0123456789abcdef0123456789abcdef".
Definition ping_scope : Scope :=
  mkScope "GET" "/internal/ping" ""
    [(FORWARDED, "green"); (DISPATCH_ID, ping_id);
     (SIGNATURE, sign demo_hmac "green" ping_id "GET" "/internal/ping")] (Some "10.0.0.3").

Lemma control_surface_guarded_witness :
  handle demo_loads demo_hmac "blue" "b1" "key" 1000000 ping_scope [] = Internal PingReply /\
  ((loopback ping_scope = true /\ bearer ping_scope = "key" /\ "key" <> "" /\
    path ping_scope = "/internal/drain") \/
   (exists sender id, sender <> "blue" /\ header (headers_of ping_scope) FORWARDED = sender /\
     header (headers_of ping_scope) DISPATCH_ID = id /\
     header (headers_of ping_scope) SIGNATURE = sign demo_hmac sender id "GET" "/internal/ping")).
Proof.
  split; [vm_compute; reflexivity|].
  apply (control_surface_guarded demo_loads demo_hmac "blue" "b1" "key" 1000000 ping_scope []).
  vm_compute. reflexivity.
Defined.

(** ** What the model shows beside the properties *)

(** An owner that answers "absent" while it still holds the session's lock (its
    teardown is under way) keeps the loop going whatever the clock says. *)
Definition spinning_env : Env :=
  mkEnv init_drain (fun n => bool_decide (n = "green")) (fun _ => Some ("g1", "http://green"))
    (fun _ => false) (fun _ => Some "green")
    (fun _ _ => ReplyAnswer 200 (Some (JObj [("result", JStr "absent")])))
    ([], false) (fun _ => NotConnected).

Example release_loop_spins :
  forall fuel clock deadline,
    route_loop demo_dumps "blue" fuel (fun _ => spinning_env) clock deadline (OfSession "s") true 0
      BACKOFF_START = None.
Proof. intros. apply again_never_ends. intros _. vm_compute. reflexivity. Qed.

(** A [previous_response_id] that is not a string makes the middleware raise. *)
Example number_as_previous_response_id :
  let loads (_ : string) := Some (JObj [("previous_response_id", JInt 5)]) in
  route loads "blue" demo_hmac (mkScope "POST" "/v1/responses" "" [] None)
    [RRequest "{}" false] = Failed TypeError.
Proof. vm_compute. reflexivity. Qed.

(** So does a signature header that is not ASCII, sent by anyone. *)
Example non_ascii_signature :
  let bad := String (Ascii.ascii_of_nat 233) EmptyString in
  route demo_loads "blue" demo_hmac
    (mkScope "GET" "/v1/models" "" [(FORWARDED, "x"); (DISPATCH_ID, "y"); (SIGNATURE, bad)] None)
    [] = Failed TypeError.
Proof. vm_compute. reflexivity. Qed.
