(* ===== verification/Query.v ===== *)
(** Query strings as [urllib.parse] reads and writes them: UTF-8 with replacement,
    [unquote], [quote_plus], [parse_qsl] and [urlencode], and that what [urlencode] writes
    [parse_qsl] reads back.  The request middleware ([Gate]) rewrites queries with them. *)

From Stdlib Require Import Ascii List.
From S2P Require Import Prelude.

Notation code c := (Ascii.nat_of_ascii c).
Notation chr n := (Ascii.ascii_of_nat n).

(** ** UTF-8 *)

Definition within (lo hi : nat) (c : Ascii.ascii) : bool := (lo <=? code c)%nat && (code c <=? hi)%nat.
Definition ascii_char (c : Ascii.ascii) : bool := (code c <? 128)%nat.

(** How many bytes may follow a first byte, and the range of the second one. *)
Definition lead (c : Ascii.ascii) : option (nat * nat * nat) :=
  if within 194 223 c then Some (1, 128, 191)%nat
  else if within 224 224 c then Some (2, 160, 191)%nat
  else if within 237 237 c then Some (2, 128, 159)%nat
  else if within 225 239 c then Some (2, 128, 191)%nat
  else if within 240 240 c then Some (3, 144, 191)%nat
  else if within 241 243 c then Some (3, 128, 191)%nat
  else if within 244 244 c then Some (3, 128, 143)%nat
  else None.

(** [n] more bytes, the first of them in [lo..hi], the others continuation bytes: how many
    there are before the first that does not fit. *)
Fixpoint tail_len (n lo hi : nat) (s : string) : nat :=
  match n, s with
  | S n, String c s' => if within lo hi c then S (tail_len n 128 191 s') else O
  | _, _ => O
  end.

(** The bytes after the first one that belong to the character at the head of the text,
    and whether it is complete; an ill-formed one is its longest well-formed start. *)
Definition char_tail (c : Ascii.ascii) (s' : string) : nat * bool :=
  if ascii_char c then (O, true)
  else match lead c with
       | Some (n, lo, hi) => let k := tail_len n lo hi s' in (k, bool_decide (k = n))
       | None => (O, false)
       end.

(** [skip] bytes belong to the character before. *)
Fixpoint utf8_from (skip : nat) (s : string) : bool :=
  match s with
  | EmptyString => true
  | String c s' =>
      match skip with
      | S skip => utf8_from skip s'
      | O => let (k, ok) := char_tail c s' in ok && utf8_from k s'
      end
  end.

(** [b.decode("utf-8")] succeeds. *)
Definition utf8_valid (s : string) : bool := utf8_from O s.

Definition replacement : string := String (chr 239) (String (chr 191) (String (chr 189) EmptyString)).

(** [b.decode("utf-8", "replace")]; [keep] tells whether the bytes skipped are kept. *)
Fixpoint decode_from (skip : nat) (keep : bool) (s : string) : string :=
  match s with
  | EmptyString => EmptyString
  | String c s' =>
      match skip with
      | S skip => if keep then String c (decode_from skip keep s') else decode_from skip keep s'
      | O => let (k, ok) := char_tail c s' in
             if ok then String c (decode_from k true s')
             else String.append replacement (decode_from k false s')
      end
  end.
Definition decode_replace (s : string) : string := decode_from O true s.

(** ** Percent encoding *)

Definition hex_value (c : Ascii.ascii) : option nat :=
  if within 48 57 c then Some (code c - 48)%nat
  else if within 65 70 c then Some (code c - 55)%nat
  else if within 97 102 c then Some (code c - 87)%nat
  else None.

Definition hex_digit (n : nat) : Ascii.ascii := if (n <? 10)%nat then chr (48 + n) else chr (55 + n).

(** [unquote_to_bytes(s)] *)
Fixpoint unquote_to_bytes (s : string) : string :=
  match s with
  | EmptyString => EmptyString
  | String c s' =>
      match Ascii.eqb c "%"%char, s' with
      | true, String h (String l s'') =>
          match hex_value h, hex_value l with
          | Some h', Some l' => String (chr (16 * h' + l')) (unquote_to_bytes s'')
          | _, _ => String c (unquote_to_bytes s')
          end
      | _, _ => String c (unquote_to_bytes s')
      end
  end.

(** [unquote(s)]: the runs of ASCII characters are decoded, the rest is kept. *)
Fixpoint unquote_runs (run : string) (s : string) : string :=
  match s with
  | EmptyString => decode_replace (unquote_to_bytes run)
  | String c s' =>
      if ascii_char c then unquote_runs (String.append run (String c EmptyString)) s'
      else String.append (decode_replace (unquote_to_bytes run)) (String c (unquote_runs EmptyString s'))
  end.
Definition unquote (s : string) : string := if has_char "%"%char s then unquote_runs EmptyString s else s.

(** [_ALWAYS_SAFE] *)
Definition safe_char (c : Ascii.ascii) : bool :=
  within 48 57 c || within 65 90 c || within 97 122 c
  || bool_decide (c ∈ ["_"; "."; "-"; "~"]%char).

(** [quote_plus(s)] *)
Fixpoint quote_plus (s : string) : string :=
  match s with
  | EmptyString => EmptyString
  | String c s' =>
      if Ascii.eqb c " "%char then String "+"%char (quote_plus s')
      else if safe_char c then String c (quote_plus s')
      else String "%"%char (String (hex_digit (code c / 16)) (String (hex_digit (code c mod 16)) (quote_plus s')))
  end.

(** [s.replace("+", " ")] *)
Definition plus_to_space : string -> string := map_string (fun c => if Ascii.eqb c "+"%char then " "%char else c).

(** ** Queries *)

(** [name.partition("=")], the separator dropped. *)
Definition partition (c : Ascii.ascii) (s : string) : string * string :=
  (before_char c s, match from_char c s with EmptyString => EmptyString | String _ t => t end).

Definition parse_pair (s : string) : string * string :=
  let (k, v) := partition "="%char s in (unquote (plus_to_space k), unquote (plus_to_space v)).

(** [parse_qsl(s, keep_blank_values=True)] *)
Definition parse_qsl (s : string) : list (string * string) :=
  map parse_pair (filter (fun w => w <> "") (split_char "&"%char s)).

Definition write_pair (kv : string * string) : string :=
  String.append (quote_plus (fst kv)) (String "="%char (quote_plus (snd kv))).

(** [urlencode(pairs, doseq=True)] on pairs of texts *)
Definition urlencode (pairs : list (string * string)) : string := String.concat "&" (map write_pair pairs).

Example query_1 :
  parse_qsl "a=1&&b+c=%ED%95%9C%ff&d&%zz=%"
  = [("a", "1"); ("b c", String.append "한" replacement); ("d", ""); ("%zz", "%")].
Proof. vm_compute. reflexivity. Qed.

Example query_2 : urlencode [("user", "a b&c"); ("k", "한")] = "user=a+b%26c&k=%ED%95%9C".
Proof. vm_compute. reflexivity. Qed.

(** ** Reading back what was written *)

(** A property of every character, by computation. *)
Lemma every_char (p : ascii -> bool) :
  forallb (fun n => p (chr n)) (seq 0 256) = true -> forall c, p c = true.
Proof.
  rewrite forallb_forall. intros H c. rewrite <- (Ascii.ascii_nat_embedding c). apply H, in_seq.
  pose proof (Ascii.nat_ascii_bounded c). lia.
Qed.

Lemma all_chars_app p a b : all_chars p (String.append a b) = all_chars p a && all_chars p b.
Proof. induction a as [|c a IH]; [done|]. rewrite append_cons. simpl. by rewrite IH, andb_assoc. Qed.

Lemma all_chars_impl (p q : ascii -> bool) s :
  (forall c, p c = true -> q c = true) -> all_chars p s = true -> all_chars q s = true.
Proof. intros H. induction s as [|c s IH]; simpl; [done|]. rewrite !andb_true_iff. naive_solver. Qed.

Lemma no_char p c s : all_chars p s = true -> p c = false -> has_char c s = false.
Proof.
  intros Hs Hc. induction s as [|d s IH]; [done|]. simpl in *. b2p.
  destruct (Ascii.eqb_spec c d) as [->|]; [congruence|]. simpl. auto.
Qed.

Lemma utf8_decode s : forall skip, utf8_from skip s = true -> decode_from skip true s = s.
Proof.
  induction s as [|c s IH]; intros skip H; [done|]. simpl in *. destruct skip as [|skip]; [|by rewrite IH].
  destruct (char_tail c s) as [k []]; [|done]. by rewrite IH.
Qed.

(** What [quote_plus] writes. *)
Definition quoted_char (c : ascii) : bool := safe_char c || Ascii.eqb c "+" || Ascii.eqb c "%".

Lemma quote_chars s : all_chars quoted_char (quote_plus s) = true.
Proof.
  assert (forall c, (quoted_char (hex_digit (code c / 16)) && quoted_char (hex_digit (code c mod 16)))%bool = true) as Hh
    by (apply every_char; vm_compute; reflexivity).
  induction s as [|c s IH]; [done|]. cbn [quote_plus]. specialize (Hh c). b2p.
  destruct (Ascii.eqb c " "); [exact IH|]. destruct (safe_char c) eqn:E; cbn [all_chars].
  - unfold quoted_char at 1. by rewrite E.
  - change (quoted_char "%") with true. rewrite IH. by rewrite H, H0.
Qed.

Lemma unquote_other c s : Ascii.eqb c "%" = false -> unquote_to_bytes (String c s) = String c (unquote_to_bytes s).
Proof. intros H. simpl. rewrite H. reflexivity. Qed.

Lemma unquote_quote s : unquote_to_bytes (plus_to_space (quote_plus s)) = s.
Proof.
  assert (forall c, (negb (safe_char c) || (negb (Ascii.eqb c "%") && negb (Ascii.eqb c "+"))) = true) as Hsafe
    by (apply every_char; vm_compute; reflexivity).
  assert (forall c, bool_decide (hex_value (hex_digit (code c / 16)) = Some (code c / 16)%nat
      /\ hex_value (hex_digit (code c mod 16)) = Some (code c mod 16)%nat
      /\ Ascii.eqb (hex_digit (code c / 16)) "+" = false /\ Ascii.eqb (hex_digit (code c mod 16)) "+" = false
      /\ chr (16 * (code c / 16) + code c mod 16) = c) = true) as Hhex
    by (apply every_char; vm_compute; reflexivity).
  induction s as [|c s IH]; [done|]. cbn [quote_plus]. destruct (Ascii.eqb_spec c " ") as [->|].
  - unfold plus_to_space. cbn [map_string]. change (Ascii.eqb "+" "+") with true. cbv iota.
    rewrite unquote_other by done. by f_equal.
  - specialize (Hsafe c). specialize (Hhex c). apply bool_decide_eq_true in Hhex. destruct (safe_char c).
    + apply andb_true_iff in Hsafe as [Hp%negb_true_iff Hq%negb_true_iff].
      unfold plus_to_space. cbn [map_string]. rewrite Hq, unquote_other by done. by f_equal.
    + destruct Hhex as (H1 & H2 & H3 & H4 & H5). unfold plus_to_space. cbn [map_string]. rewrite H3, H4.
      change (Ascii.eqb "%" "+") with false. cbn [unquote_to_bytes]. change (Ascii.eqb "%" "%") with true. cbv iota.
      rewrite H1, H2, H5. by f_equal.
Qed.

Lemma unquote_plain s : has_char "%" s = false -> unquote_to_bytes s = s.
Proof.
  induction s as [|c s IH]; [done|]. intros H. simpl in H. b2p. rewrite unquote_other by (by rewrite Ascii.eqb_sym).
  by rewrite IH.
Qed.

Lemma unquote_ascii s : forall run, all_chars ascii_char s = true ->
  unquote_runs run s = decode_replace (unquote_to_bytes (String.append run s)).
Proof.
  induction s as [|c s IH]; intros run H; simpl in *; [by rewrite append_nil_r|]. b2p. rewrite H.
  rewrite IH by done. by rewrite <- append_assoc.
Qed.

Lemma unquote_back s : utf8_valid s = true -> unquote (plus_to_space (quote_plus s)) = s.
Proof.
  intros Hs. unfold unquote. destruct (has_char _ _) eqn:E.
  - rewrite unquote_ascii.
    + change (String.append EmptyString ?t) with t. rewrite unquote_quote. by apply utf8_decode.
    + assert (forall c, (negb (quoted_char c) || ascii_char (if Ascii.eqb c "+" then " " else c))%char = true) as Hc
        by (apply every_char; vm_compute; reflexivity).
      pose proof (quote_chars s) as Hq. clear E Hs. revert Hq. generalize (quote_plus s). intros t. clear s.
      induction t as [|c t IH]; simpl; [done|]. intros Hq. b2p. specialize (Hc c). rewrite H in Hc. simpl in Hc.
      rewrite Hc. by apply IH.
  - rewrite <- (unquote_plain _ E). apply unquote_quote.
Qed.

(** *** Splitting *)

Lemma split_none c w : has_char c w = false -> split_char c w = [w].
Proof.
  induction w as [|d w IH]; [done|]. simpl. intros H. b2p. rewrite Ascii.eqb_sym, H. by rewrite IH.
Qed.

Lemma split_word c w s : has_char c w = false -> split_char c (String.append w (String c s)) = w :: split_char c s.
Proof.
  induction w as [|d w IH]; intros H.
  - simpl. by rewrite Ascii.eqb_refl.
  - simpl in H. b2p. rewrite append_cons. simpl. rewrite Ascii.eqb_sym, H. by rewrite IH.
Qed.

Lemma split_concat c ws :
  ws <> [] -> Forall (fun w => has_char c w = false) ws ->
  split_char c (String.concat (String c EmptyString) ws) = ws.
Proof.
  intros Hne H. induction H as [|w ws Hw Hws IH]; [done|]. destruct ws as [|w' ws].
  - simpl. by apply split_none.
  - change (String.concat (String c EmptyString) (w :: w' :: ws))
      with (String.append w (String c (String.concat (String c EmptyString) (w' :: ws)))).
    rewrite split_word by done. f_equal. by apply IH.
Qed.

Lemma partition_word c w s : has_char c w = false -> partition c (String.append w (String c s)) = (w, s).
Proof.
  unfold partition. induction w as [|d w IH]; intros H.
  - simpl. by rewrite Ascii.eqb_refl.
  - simpl in H. b2p. rewrite append_cons. simpl. rewrite Ascii.eqb_sym, H. injection (IH H0) as -> ->. done.
Qed.

Definition valid_pair (kv : string * string) : bool := utf8_valid (fst kv) && utf8_valid (snd kv).

Lemma parse_write kv : valid_pair kv = true -> parse_pair (write_pair kv) = kv.
Proof.
  intros H. unfold valid_pair in H. b2p. unfold parse_pair, write_pair.
  rewrite partition_word by (apply (no_char quoted_char); [apply quote_chars|done]).
  rewrite !unquote_back by done. by destruct kv.
Qed.

(** [parse_qsl] reads back what [urlencode] writes. *)
Theorem parse_urlencode pairs :
  forallb valid_pair pairs = true -> parse_qsl (urlencode pairs) = pairs.
Proof.
  intros H. destruct pairs as [|kv pairs]; [done|]. unfold parse_qsl, urlencode.
  rewrite (split_concat "&") by (done || (apply Forall_map, Forall_forall; intros x _; unfold write_pair; simpl;
    apply (no_char (fun c => quoted_char c || Ascii.eqb c "=")); [|done]; rewrite all_chars_app;
    rewrite (all_chars_impl quoted_char) by (apply quote_chars || (intros c Hc; by rewrite Hc)); simpl;
    by rewrite (all_chars_impl quoted_char) by (apply quote_chars || (intros c Hc; by rewrite Hc)))).
  assert (filter (fun w => w <> "") (map write_pair (kv :: pairs)) = map write_pair (kv :: pairs)) as ->.
  { clear H. generalize (kv :: pairs). intros l. induction l as [|x l IH]; [done|]. cbn [map]. rewrite filter_cons_True.
    - by f_equal.
    - unfold write_pair. destruct (quote_plus (fst x)); done. }
  rewrite map_map. revert H. generalize (kv :: pairs). intros l. induction l as [|x l IH]; [done|]. simpl. intros H. b2p.
  rewrite parse_write by done. by f_equal; apply IH.
Qed.

(** *** What a query is read as is well-formed text *)

Lemma lead_lo c n lo hi : lead c = Some (n, lo, hi) -> (128 <= lo)%nat.
Proof. unfold lead. repeat (destruct (within _ _ c); [intros [= <- <- <-]; lia|]). done. Qed.

Lemma tail_len_le s : forall n lo hi, (tail_len n lo hi s <= String.length s)%nat.
Proof.
  induction s as [|c s IH]; intros [|n] lo hi; simpl; try lia. destruct (within lo hi c); [|lia].
  specialize (IH n 128 191)%nat. lia.
Qed.

(** The bytes of a complete character are there whatever follows them. *)
Lemma tail_app a b : forall n lo hi, tail_len n lo hi a = n -> tail_len n lo hi (String.append a b) = n.
Proof.
  induction a as [|c a IH]; intros [|n] lo hi H; simpl in H; try done.
  rewrite append_cons. simpl. destruct (within lo hi c); [|done]. injection H as H. by rewrite IH.
Qed.

Lemma tail_before_ascii w c s : ascii_char c = true -> forall n lo hi, (128 <= lo)%nat ->
  tail_len n lo hi (String.append w (String c s)) = n -> tail_len n lo hi w = n.
Proof.
  intros Hc. unfold ascii_char in Hc. apply Nat.ltb_lt in Hc.
  induction w as [|d w IH]; intros [|n] lo hi Hlo H; simpl in *; try done.
  - unfold within in H. destruct (Nat.leb_spec lo (code c)); [lia|done].
  - destruct (within lo hi d); [|done]. injection H as H. by rewrite IH by (lia || done).
Qed.

Lemma char_tail_complete c s k :
  char_tail c s = (k, true) ->
  (k = 0%nat /\ ascii_char c = true)
  \/ (exists lo hi, lead c = Some (k, lo, hi) /\ (128 <= lo)%nat /\ tail_len k lo hi s = k /\ ascii_char c = false).
Proof.
  unfold char_tail. destruct (ascii_char c); [intros [= <-]; by left|]. destruct (lead c) as [[[n lo] hi]|] eqn:E; [|done].
  intros [= <- H]. apply bool_decide_eq_true in H. right. exists lo, hi. rewrite H. split_and!; try done. by eapply lead_lo.
Qed.

Lemma char_tail_keep c s s' k :
  char_tail c s = (k, true) ->
  (forall lo hi, (128 <= lo)%nat -> tail_len k lo hi s = k -> tail_len k lo hi s' = k) -> char_tail c s' = (k, true).
Proof.
  intros H Hk. destruct (char_tail_complete _ _ _ H) as [[-> Ha]|(lo & hi & Hl & Hlo & Ht & Ha)]; unfold char_tail; rewrite Ha.
  - done.
  - rewrite Hl. rewrite (Hk lo hi Hlo Ht). by rewrite bool_decide_true.
Qed.

Lemma char_tail_le c s k : char_tail c s = (k, true) -> (k <= String.length s)%nat.
Proof.
  intros H. destruct (char_tail_complete _ _ _ H) as [[-> _]|(lo & hi & _ & _ & Ht & _)]; [lia|].
  rewrite <- Ht. apply tail_len_le.
Qed.

Lemma utf8_app_from a b : forall k, (k <= String.length a)%nat -> utf8_from k a = true ->
  utf8_from k (String.append a b) = utf8_valid b.
Proof.
  induction a as [|c a IH]; intros k Hk H.
  - simpl in Hk. by assert (k = 0%nat) as -> by lia.
  - rewrite append_cons. destruct k as [|k]; simpl in *.
    + destruct (char_tail c a) as [k []] eqn:E; [|done]. pose proof (char_tail_le _ _ _ E).
      rewrite (char_tail_keep c a _ k E); [by apply IH|]. intros lo hi _. apply tail_app.
    + apply IH; [lia|done].
Qed.

Lemma utf8_app a b : utf8_valid a = true -> utf8_valid b = true -> utf8_valid (String.append a b) = true.
Proof. intros Ha Hb. unfold utf8_valid. rewrite utf8_app_from; [done|lia|done]. Qed.

Lemma utf8_split_from w c s : ascii_char c = true -> forall k, (k <= String.length w)%nat ->
  utf8_from k (String.append w (String c s)) = true -> utf8_from k w = true /\ utf8_valid s = true.
Proof.
  intros Hc. induction w as [|d w IH]; intros k Hk H.
  - simpl in Hk. assert (k = 0%nat) as -> by lia. simpl in H. unfold char_tail in H. rewrite Hc in H. done.
  - rewrite append_cons in H. destruct k as [|k]; simpl in *.
    + destruct (char_tail d (String.append w (String c s))) as [k []] eqn:E; [|done].
      assert (char_tail d w = (k, true)) as Ed.
      { apply (char_tail_keep _ _ _ _ E). intros lo hi Hlo. by apply tail_before_ascii. }
      rewrite Ed. pose proof (char_tail_le _ _ _ Ed). by apply IH.
    + apply IH; [lia|done].
Qed.

Lemma utf8_split w c s :
  ascii_char c = true -> utf8_valid (String.append w (String c s)) = true -> utf8_valid w = true /\ utf8_valid s = true.
Proof. intros Hc. apply utf8_split_from; [done|lia]. Qed.

(** [decode("utf-8", "replace")] always gives text. *)
Lemma decode_tail s : forall n lo hi, tail_len n lo hi s = n -> tail_len n lo hi (decode_from n true s) = n.
Proof.
  induction s as [|c s IH]; intros [|n] lo hi H; simpl in *; try done. destruct (within lo hi c); [|done].
  injection H as H. by rewrite IH.
Qed.

Lemma decode_from_valid s : forall k,
  utf8_from k (decode_from k true s) = true /\ utf8_valid (decode_from k false s) = true.
Proof.
  induction s as [|c s IH]; intros k; [done|]. assert (forall keep, utf8_valid (decode_from 0 keep (String c s)) = true) as H0.
  { intros keep. cbn [decode_from]. destruct (char_tail c s) as [k' []] eqn:E.
    - unfold utf8_valid. cbn [utf8_from]. rewrite (char_tail_keep c s _ k' E); [by apply IH|].
      intros lo hi _. apply decode_tail.
    - apply utf8_app; [done|apply IH]. }
  destruct k as [|k]; [split; apply H0|]. cbn [decode_from]. split; [cbn [utf8_from]|]; apply IH.
Qed.

Lemma decode_valid s : utf8_valid (decode_replace s) = true.
Proof. apply decode_from_valid. Qed.

Lemma not_ascii lo hi c : (128 <= lo)%nat -> within lo hi c = true -> ascii_char c = false.
Proof. unfold within, ascii_char. intros Hlo H. b2p. apply Nat.leb_le in H. apply Nat.ltb_ge. lia. Qed.

Lemma unquote_tail s : forall n lo hi, (128 <= lo)%nat ->
  tail_len n lo hi s = n -> tail_len n lo hi (unquote_runs EmptyString s) = n.
Proof.
  induction s as [|c s IH]; intros [|n] lo hi Hlo H; simpl in H; try done.
  destruct (within lo hi c) eqn:E; [|done]. injection H as H. cbn [unquote_runs]. rewrite (not_ascii lo hi c Hlo E).
  cbn [unquote_to_bytes]. change (decode_replace EmptyString) with EmptyString. simpl. rewrite E. rewrite IH; [done|lia|done].
Qed.

Lemma unquote_runs_valid s : forall run k,
  utf8_from k s = true -> (k = 0%nat \/ (run = EmptyString /\ exists lo hi, (128 <= lo)%nat /\ tail_len k lo hi s = k)) ->
  utf8_from k (unquote_runs run s) = true.
Proof.
  induction s as [|c s IH]; intros run k H Hk.
  - cbn [unquote_runs]. destruct Hk as [-> |[-> _]]; [apply decode_valid|by destruct k].
  - destruct k as [|k]; simpl in H.
    + destruct (char_tail c s) as [k []] eqn:E; [|done]. cbn [unquote_runs].
      destruct (char_tail_complete _ _ _ E) as [[-> Ha]|(lo & hi & Hl & Hlo & Ht & Ha)]; rewrite Ha.
      * apply IH; [done|by left].
      * apply utf8_app; [apply decode_valid|]. unfold utf8_valid. cbn [utf8_from].
        rewrite (char_tail_keep c s _ k E).
        -- apply IH; [done|]. right. eauto.
        -- intros lo' hi'. apply unquote_tail.
    + destruct Hk as [Hk|[-> (lo & hi & Hlo & Hk)]]; [done|]. simpl in Hk. destruct (within lo hi c) eqn:Ew; [|done].
      injection Hk as Hk. cbn [unquote_runs]. rewrite (not_ascii lo hi c Hlo Ew).
      change (decode_replace (unquote_to_bytes EmptyString)) with EmptyString. cbn. apply IH; [done|].
      right. split; [done|]. by exists 128%nat, 191%nat.
Qed.

Lemma unquote_valid s : utf8_valid s = true -> utf8_valid (unquote s) = true.
Proof. intros H. unfold unquote. destruct (has_char _ s); [|done]. apply unquote_runs_valid; [done|by left]. Qed.

Lemma plus_char c : let d := if Ascii.eqb c "+" then " "%char else c in
  ascii_char d = ascii_char c /\ lead d = lead c /\ (forall lo hi, (128 <= lo)%nat -> within lo hi d = within lo hi c).
Proof.
  destruct (Ascii.eqb_spec c "+") as [->|]; [|done]. split; [done|]. split; [done|]. intros lo hi Hlo. unfold within.
  assert ((lo <=? code " ") = false /\ (lo <=? code "+") = false)%nat as [-> ->]; [|done].
  change (code " ") with 32%nat. change (code "+") with 43%nat. split; apply Nat.leb_gt; lia.
Qed.

Lemma plus_tail s : forall n lo hi, (128 <= lo)%nat -> tail_len n lo hi (plus_to_space s) = tail_len n lo hi s.
Proof.
  unfold plus_to_space. induction s as [|c s IH]; intros [|n] lo hi Hlo; [done..|]. cbn [map_string tail_len].
  destruct (plus_char c) as (_ & _ & ->); [|done]. by rewrite IH by lia.
Qed.

Lemma plus_valid_from s : forall k, utf8_from k (plus_to_space s) = utf8_from k s.
Proof.
  induction s as [|c s IH]; intros k; [done|]. unfold plus_to_space in *. cbn [map_string utf8_from].
  destruct k as [|k]; [|apply IH].
  assert (char_tail (if Ascii.eqb c "+" then " "%char else c) (plus_to_space s) = char_tail c s) as H.
  { unfold char_tail. destruct (plus_char c) as (-> & -> & _). destruct (ascii_char c); [done|].
    destruct (lead c) as [[[n lo] hi]|] eqn:E; [|done]. by rewrite plus_tail by (by eapply lead_lo). }
  unfold plus_to_space in H. rewrite H. destruct (char_tail c s). by rewrite IH.
Qed.

Lemma split_valid c s : ascii_char c = true -> utf8_valid s = true -> Forall (fun w => utf8_valid w = true) (split_char c s).
Proof.
  intros Hc. remember (String.length s) as n eqn:Hn. revert s Hn. induction (lt_wf n) as [n _ IH]. intros s Hn Hs.
  destruct (has_char c s) eqn:E; [|rewrite split_none by done; by constructor].
  assert (exists w t, s = String.append w (String c t) /\ has_char c w = false) as (w & t & -> & Hw).
  { clear -E. induction s as [|d s IH]; [done|]. simpl in E. destruct (Ascii.eqb_spec c d) as [->|Hne].
    - by exists EmptyString, s.
    - simpl in E. destruct (IH E) as (w & t & -> & Hw). exists (String d w), t. split; [done|]. simpl.
      apply orb_false_iff. split; [by apply Ascii.eqb_neq|done]. }
  rewrite split_word by done. apply utf8_split in Hs as [H1 H2]; [|done]. constructor; [done|].
  eapply (IH (String.length t)); [|done|done]. subst n. clear. induction w; simpl; lia.
Qed.

Lemma partition_valid c s : ascii_char c = true -> utf8_valid s = true ->
  utf8_valid (fst (partition c s)) = true /\ utf8_valid (snd (partition c s)) = true.
Proof.
  intros Hc Hs. unfold partition. simpl. rewrite <- (before_from_char c s) in Hs. destruct (from_char c s) as [|d t] eqn:E.
  - rewrite append_nil_r in Hs. done.
  - assert (d = c) as ->; [|by apply utf8_split in Hs].
    clear -E. induction s as [|e s IH]; simpl in E; [done|]. destruct (Ascii.eqb_spec e c); [by injection E as -> _|auto].
Qed.

Lemma parse_valid s : utf8_valid s = true -> forallb valid_pair (parse_qsl s) = true.
Proof.
  intros Hs. apply forallb_forall. intros kv Hin%list_elem_of_In. unfold parse_qsl in Hin.
  apply list_elem_of_fmap in Hin as (w & -> & [_ Hw]%list_elem_of_filter).
  pose proof (split_valid "&" s eq_refl Hs) as Hv. rewrite Forall_forall in Hv. specialize (Hv w Hw).
  unfold parse_pair, valid_pair. destruct (partition_valid "=" w eq_refl Hv) as [H1 H2].
  destruct (partition "=" w) as [k v]. simpl in *.
  apply andb_true_iff. split; apply unquote_valid; unfold utf8_valid; by rewrite plus_valid_from.
Qed.
