(* ===== verification/Gate.v ===== *)
(** Who a request acts for and whether it is let in: bearer keys ([src/src/auth.py],
    [src/src/env_utils.py]), the request middleware ([src/src/concurrency_middleware.py])
    and the scoping of the routes it feeds ([src/src/routes/sessions.py],
    [src/src/routes/responses.py]).

    A header is read with [header_get] (the framework's [Headers]); [json_loads] and
    [json_dumps] are the codec, [None] being [ValueError] and [UnicodeEncodeError].  Header
    values are Latin-1 bytes decoded to text.  The client's messages are [Routing.Recv]. *)

From Stdlib Require Import Ascii.
From S2P Require Import Prelude Json Ledger Peer Routing Query.

(** What propagates out of the middleware. *)
Inductive GateError := RaisedTypeError | UnicodeEncodeError.

(** ** Keys *)

Definition _BOOL_TRUE : list string := ["true"; "1"; "yes"; "on"].
Definition _BOOL_FALSE : list string := ["false"; "0"; "no"; "off"].

(** [parse_bool_env_strict], given the value of the variable; [None] is [ValueError]. *)
Definition parse_bool_env_strict (raw : option string) (dflt : bool) : option bool :=
  match raw with
  | None => Some dflt
  | Some raw =>
      let value := lower (strip raw) in
      if bool_decide (value ∈ _BOOL_TRUE) then Some true
      else if bool_decide (value ∈ _BOOL_FALSE) then Some false
      else None
  end.

(** [scoped_identity_required()] *)
Definition scoped_identity_required (raw : option string) : bool :=
  match parse_bool_env_strict raw false with Some b => b | None => true end.

(** [_USER_ID_PATTERN.fullmatch(user)] *)
Definition alnum (c : ascii) : bool := within 48 57 c || within 65 90 c || within 97 122 c.
Definition user_id (user : string) : bool :=
  match user with
  | EmptyString => false
  | String c rest =>
      alnum c && all_chars (fun d => alnum d || bool_decide (d ∈ ["."; "_"; "-"]%char)) rest
      && (String.length rest <=? 62)%nat
  end.

(** The loop of [parse_user_api_keys]; [None] is [ValueError]. *)
Fixpoint checked_keys (items : list (string * Json)) (seen : list string) (result : odict string string)
    : option (odict string string) :=
  match items with
  | [] => Some result
  | (user, key) :: items =>
      if negb (user_id user) then None
      else match key with
           | JStr key =>
               if bool_decide (key = "") then None
               else if bool_decide (key ∈ seen) then None
               else checked_keys items (key :: seen) (dict_set result user key)
           | _ => None
           end
  end.

(** [parse_user_api_keys(raw)] *)
Definition parse_user_api_keys (json_loads : string -> option Json) (raw : option string)
    : option (odict string string) :=
  let raw := strip (default "" raw) in
  if bool_decide (raw = "") then Some []
  else match json_loads raw with
       | Some (JObj items) => checked_keys items [] []
       | _ => None
       end.

(** The keys [ClaudeCodeAuthManager] holds. *)
Record AuthManager := mkAuth {
  user_api_keys : odict string string;
  env_api_key : option string;
  runtime_api_key : option string;
}.

(** [x] when it is truthy. *)
Definition truthy_str (x : option string) : option string :=
  match x with Some s => if bool_decide (s = "") then None else Some s | None => None end.

(** [get_api_key()]; only its truth and its value when truthy matter. *)
Definition get_api_key (a : AuthManager) : option string :=
  match truthy_str (runtime_api_key a) with Some k => Some k | None => truthy_str (env_api_key a) end.

Definition has_api_auth (a : AuthManager) : bool :=
  bool_decide (is_Some (get_api_key a)) || negb (bool_decide (user_api_keys a = [])).

(** [hmac.compare_digest] *)
Definition digest_equal (a b : string) : result GateError bool :=
  match compare_digest a b with Ok same => Ok same | Err _ => Err RaisedTypeError end.

(** The loop over all user keys: the last match. *)
Fixpoint match_user (provided : string) (keys : odict string string) (matched : option string)
    : result GateError (option string) :=
  match keys with
  | [] => Ok matched
  | (user, key) :: keys =>
      let! same := digest_equal provided key in
      match_user provided keys (if same then Some user else matched)
  end.

(** [authenticate_gateway_key(provided_key)] *)
Definition authenticate_gateway_key (a : AuthManager) (provided : string) : result GateError (bool * option string) :=
  let! matched := match_user provided (user_api_keys a) None in
  let! legacy := match get_api_key a with Some key => digest_equal provided key | None => Ok false end in
  Ok (match matched with
      | Some user => (true, Some user)
      | None => (legacy, None)
      end).

(** What [verify_api_key] decides: the request's [auth_user], or the detail of a 401. *)
Inductive Verified := Passed (auth_user : option string) | Refused401 (detail : string).

(** [verify_api_key(request, credentials)] *)
Definition verify_api_key (a : AuthManager) (auth_user : option string) (credentials : option string)
    : result GateError Verified :=
  if negb (has_api_auth a) then Ok (Passed auth_user)
  else match credentials with
       | None => Ok (Refused401 "Missing API key")
       | Some key =>
           let! (valid, principal) := authenticate_gateway_key a key in
           if valid then Ok (Passed (match principal with Some p => Some p | None => auth_user end))
           else Ok (Refused401 "Invalid API key")
       end.

(** [get_authenticated_user(request)] *)
Definition get_authenticated_user (auth_user : option string) : option string := truthy_str auth_user.

(** [enforce_scoped_identity(request)]: [false] is its 403. *)
Definition enforce_scoped_identity (required : option string) (auth_user : option string) : bool :=
  negb (scoped_identity_required required) || bool_decide (is_Some (get_authenticated_user auth_user)).

(** ** Requests *)

(** An ASGI scope: [rq_http] is [type == "http"], [rq_user] is [state["auth_user"]]. *)
Record Request := mkRequest { rq_http : bool; rq_scope : Scope; rq_user : option string }.

Definition GUARDED_PATHS : list string := ["/v1/responses"; "/v1/agents/messages"].
Definition _BODY_METHODS : list string := ["POST"; "PUT"; "PATCH"; "DELETE"].
Definition _MAX_PEEK_BYTES : Z := 100000.

(** [_is_guarded(scope)] *)
Definition _is_guarded (rq : Request) : bool :=
  rq_http rq && bool_decide (method (rq_scope rq) = "POST") && bool_decide (path (rq_scope rq) ∈ GUARDED_PATHS).

Definition with_headers (hs : list (string * string)) (s : Scope) : Scope :=
  mkScope (method s) (path s) (query_string s) hs (client s).
Definition with_query (q : string) (s : Scope) : Scope :=
  mkScope (method s) (path s) q (raw_headers s) (client s).

(** [_replace_header(scope, name, value)], the name already in lower case *)
Definition _replace_header (name value : string) (s : Scope) : Scope :=
  with_headers (filter (fun kv => lower (fst kv) <> name) (raw_headers s) ++ [(name, value)]) s.

(** [str(n).encode("ascii")] of a length *)
Definition dec (n : nat) : string := pretty.pretty (Z.of_nat n).

(** [_normalize_buffered_body_headers(scope, body)] *)
Definition _normalize_buffered_body_headers (body : string) (s : Scope) : Scope :=
  with_headers
    (filter (fun kv => lower (fst kv) ∉ ["content-length"; "transfer-encoding"]) (raw_headers s)
     ++ [("content-length", dec (String.length body))]) s.

(** Whitespace of [str.strip()] in Latin-1 text: ASCII, NEL and NBSP. *)
Fixpoint lstrip8 (s : string) : string :=
  match s with
  | EmptyString => EmptyString
  | String c s' =>
      if is_space c then lstrip8 s'
      else match s' with
           | String d s'' =>
               if Ascii.eqb c (chr 194) && (Ascii.eqb d (chr 133) || Ascii.eqb d (chr 160)) then lstrip8 s'' else s
           | EmptyString => s
           end
  end.
Fixpoint rstrip8 (s : string) : string :=
  match s with
  | EmptyString => EmptyString
  | String c s' => match lstrip8 s with EmptyString => EmptyString | String _ _ => String c (rstrip8 s') end
  end.
Definition strip8 (s : string) : string := rstrip8 (lstrip8 s).

(** [name in data.endswith] *)
Definition ends_with (s suffix : string) : bool :=
  bool_decide (String.substring (String.length s - String.length suffix) (String.length suffix) s = suffix)
  && (String.length suffix <=? String.length s)%nat.

(** How buffering the body of a request ends; [rest] are the messages not read. *)
Inductive Buffered :=
| BWaiting
| BGone (rest : list Recv)
| BTooLarge
| BBody (body : string) (rest : list Recv).

(** [_buffer_body_with_limit(receive, limit)] *)
Fixpoint _buffer_body_with_limit (body : string) (ms : list Recv) (limit : Z) : Buffered :=
  match ms with
  | [] => BWaiting
  | RDisconnect :: rest => BGone rest
  | RRequest chunk more :: rest =>
      if limit <? zlen body + zlen chunk then BTooLarge
      else
        let body := String.append body chunk in
        if more then _buffer_body_with_limit body rest limit else BBody body rest
  end.

(** [_buffer_body(receive)] *)
Fixpoint _buffer_body (body : string) (ms : list Recv) : Buffered :=
  match ms with
  | [] => BWaiting
  | RDisconnect :: rest => BGone rest
  | RRequest chunk more :: rest =>
      let body := String.append body chunk in
      if more then _buffer_body body rest else BBody body rest
  end.

Section gate.
Context (header_get : list (string * string) -> string -> option string).
Context (json_loads : string -> option Json) (json_dumps : Json -> option string).
Context (auth : AuthManager).
(** [WORKSPACE_USER_HEADER] in lower case and encoded, [MAX_REQUEST_SIZE], the ceiling of uploads. *)
Context (identity_header : string) (max_request_size upload_max : Z).

(** [_bearer_token(scope)] *)
Definition _bearer_token (s : Scope) : option string :=
  match truthy_str (header_get (raw_headers s) "authorization") with
  | None => None
  | Some value =>
      let scheme := before_char " "%char value in
      match from_char " "%char value with
      | EmptyString => None
      | String _ token =>
          if negb (bool_decide (lower scheme = "bearer")) then None else truthy_str (Some (strip8 token))
      end
  end.

(** [_gateway_credential_valid(scope)] *)
Definition _gateway_credential_valid (s : Scope) : result GateError bool :=
  if negb (has_api_auth auth) then Ok false
  else match _bearer_token s with
       | None => Ok false
       | Some token => let! (valid, _) := authenticate_gateway_key auth token in Ok valid
       end.

(** [_credential_principal(scope)] *)
Definition _credential_principal (s : Scope) : result GateError (option string) :=
  match _bearer_token s with
  | None => Ok None
  | Some token =>
      let! (valid, principal) := authenticate_gateway_key auth token in
      Ok (if valid then principal else None)
  end.

(** [_request_body_limit(scope)] *)
Definition _request_body_limit (s : Scope) : result GateError Z :=
  if bool_decide (method s = "POST") && bool_decide (path s = "/files/upload") then
    let! valid := _gateway_credential_valid s in
    Ok (if valid then upload_max else max_request_size)
  else Ok max_request_size.

(** [_bind_response_body_user(body, principal)] *)
Definition _bind_response_body_user (body principal : string) : result GateError string :=
  match json_loads body with
  | Some (JObj d) =>
      if is_str (jget_null (JObj d) "user") principal then Ok body
      else match json_dumps (jset (JObj d) "user" (JStr principal)) with
           | Some body => Ok body
           | None => Err UnicodeEncodeError
           end
  | _ => Ok body
  end.

(** [_bind_query_user(scope, principal)]: a query that is not UTF-8 stays. *)
Definition _bind_query_user (principal : string) (s : Scope) : Scope :=
  if utf8_valid (query_string s) then
    with_query (urlencode (filter (fun kv => fst kv <> "user") (parse_qsl (query_string s)) ++ [("user", principal)])) s
  else s.

(** The requests whose [user] parameter is bound. *)
Definition binds_query (s : Scope) : bool :=
  starts_with (path s) "/v1/responses/" && bool_decide (method s ∈ ["GET"; "DELETE"; "POST"]).
Definition binds_events (s : Scope) : bool :=
  starts_with (path s) "/v1/sessions/" && ends_with (path s) "/pending-events".
Definition binds_body (s : Scope) : bool :=
  bool_decide (path s = "/v1/responses") && bool_decide (method s = "POST").

(** [_bind_principal_to_request(scope, principal, body)] *)
Definition _bind_principal_to_request (rq : Request) (principal : string) (body : option string)
    : result GateError (Request * option string) :=
  let s := _replace_header identity_header principal (rq_scope rq) in
  let! body :=
    match body with
    | Some b => if binds_body s then let! b := _bind_response_body_user b principal in Ok (Some b) else Ok (Some b)
    | None => Ok None
    end in
  let s := if binds_query s then _bind_query_user principal s else s in
  let s := if binds_events s then _bind_query_user principal s else s in
  Ok (mkRequest (rq_http rq) s (Some principal), body).

(** What the guards before the limiter make of a request: [ms] is what [receive] delivers
    from now on, [buffered] tells whether the body was read, [gone] that the client left
    while sending it. *)
Inductive Front :=
| Waiting
| Reject413 (limit : Z)
| Ready (rq : Request) (ms : list Recv) (gone buffered : bool).

(** [__call__] up to the limiter *)
Definition guards (rq : Request) (ms : list Recv) : result GateError Front :=
  let s := rq_scope rq in
  let! limit := _request_body_limit s in
  if match header_get (raw_headers s) "content-length" with
     | Some raw => match py_int raw with Some n => limit <? n | None => false end
     | None => false
     end then Ok (Reject413 limit)
  else if bool_decide (method s ∈ _BODY_METHODS) then
    match _buffer_body_with_limit EmptyString ms limit with
    | BWaiting => Ok Waiting
    | BTooLarge => Ok (Reject413 limit)
    | BGone rest => Ok (Ready rq (RDisconnect :: rest) true false)
    | BBody body rest =>
        let! principal := _credential_principal s in
        let! (rq, body) :=
          match principal with
          | Some p => let! (rq, body) := _bind_principal_to_request rq p (Some body) in Ok (rq, default "" body)
          | None => Ok (rq, body)
          end in
        let rq := mkRequest (rq_http rq) (_normalize_buffered_body_headers body (rq_scope rq)) (rq_user rq) in
        Ok (Ready rq (replay body rest) false true)
    end
  else
    let! principal := _credential_principal s in
    match principal with
    | Some p => let! (rq, _) := _bind_principal_to_request rq p None in Ok (Ready rq ms false false)
    | None => Ok (Ready rq ms false false)
    end.

(** [_extract_user(scope, receive)]: [None] waits for the body. *)
Definition _extract_user (rq : Request) (ms : list Recv) : option (option string * list Recv) :=
  match truthy_str (rq_user rq) with
  | Some principal => Some (Some principal, ms)
  | None =>
      let length :=
        match header_get (raw_headers (rq_scope rq)) "content-length" with Some raw => py_int raw | None => None end in
      match length with
      | None => Some (None, ms)
      | Some n =>
          if _MAX_PEEK_BYTES <? n then Some (None, ms)
          else match _buffer_body EmptyString ms with
               | BWaiting | BTooLarge => None
               | BGone rest => Some (None, RDisconnect :: rest)
               | BBody body rest =>
                   let user :=
                     if bool_decide (body = "") then None
                     else match json_loads body with
                          | Some (JObj d) => match jget_null (JObj d) "user" with JStr u => truthy_str (Some u) | _ => None end
                          | _ => None
                          end in
                   Some (user, replay body rest)
               end
      end
  end.
End gate.

(** ** Admission *)

(** [_TICKET_RE.match(value)], from the [n]-th character on *)
Fixpoint ticket_from (n : nat) (s : string) : bool :=
  let enough := ((16 <=? n) && (n <=? 128))%nat in
  match s with
  | EmptyString => enough
  | String c s' =>
      if alnum c || Ascii.eqb c "_" || Ascii.eqb c "-" then ticket_from (S n) s' else at_end s && enough
  end.

(** What the limiter answers: a slot, or none; [aborted] is the reason of a client that left. *)
Inductive Answer := Granted | Refused (aborted : bool).

Inductive Act :=
| Send413 (limit : Z)
| Send503
| AskSlot (user : option string) (queue : bool) (ticket : option string)
| RunApp (rq : Request) (ms : list Recv) (slot : bool)
| ReleaseSlot.

Section call.
Context (header_get : list (string * string) -> string -> option string).
Context (json_loads : string -> option Json) (json_dumps : Json -> option string).
Context (auth : AuthManager) (identity_header : string) (max_request_size upload_max : Z).

(** [_turn_ticket(scope)] *)
Definition _turn_ticket (s : Scope) : option string :=
  match truthy_str (header_get (raw_headers s) "x-turn-ticket") with
  | Some value => if ticket_from 0 value then Some value else None
  | None => None
  end.

(** [__call__]: what it does when the limiter gives [answer] and the app, however it ends,
    has [transferred] the slot or not; [None] waits for the client. *)
Definition call (rq : Request) (ms : list Recv) (answer : Answer) (transferred : bool)
    : result GateError (option (list Act)) :=
  if negb (rq_http rq) then Ok (Some [RunApp rq ms false])
  else
    let! front := guards header_get json_loads json_dumps auth identity_header max_request_size upload_max rq ms in
    match front with
    | Waiting => Ok None
    | Reject413 limit => Ok (Some [Send413 limit])
    | Ready rq ms gone buffered =>
        if negb (_is_guarded rq) then Ok (Some [RunApp rq ms false])
        else match _extract_user header_get json_loads rq ms with
             | None => Ok None
             | Some (user, ms) =>
                 let ask := AskSlot user (negb gone) (if gone then None else _turn_ticket (rq_scope rq)) in
                 Ok (Some (ask :: match answer with
                                  | Refused aborted => if aborted then [] else [Send503]
                                  | Granted => RunApp rq ms true :: if transferred then [] else [ReleaseSlot]
                                  end))
             end
    end.
End call.

(** ** Routes *)

(** The scoping of [get_response], [delete_response] ([_lookup_stored_response]) and
    [cancel_response]: [user] is the query parameter. *)
Definition response_visible (user session_user : option string) : bool :=
  match user with None => true | Some u => bool_decide (session_user = Some u) end.

(** [_session_for_request], [list_sessions], [delete_session] *)
Definition session_visible (auth_user session_user : option string) : bool :=
  response_visible (get_authenticated_user auth_user) session_user.

(** [effective_user] of [get_session_pending_events] and [stop_session_task] *)
Definition effective_user (auth_user user : option string) : option string :=
  match get_authenticated_user auth_user with Some u => Some u | None => user end.
Definition events_visible (auth_user user session_user : option string) : bool :=
  response_visible (effective_user auth_user user) session_user.

(** ** Keys identify users *)

Lemma checked_keys_spec items : forall seen acc keys,
  checked_keys items seen acc = Some keys ->
  dict_wf acc -> NoDup (dict_values acc) -> (forall k, k ∈ dict_values acc -> k ∈ seen) ->
  Forall (fun kv => user_id (fst kv) = true /\ snd kv <> "") acc ->
  (forall u, u ∈ dict_keys acc -> u ∉ map fst items) -> NoDup (map fst items) ->
  dict_wf keys /\ NoDup (dict_values keys) /\ Forall (fun kv => user_id (fst kv) = true /\ snd kv <> "") keys.
Proof.
  induction items as [|[user key] items IH]; intros seen acc keys H Hwf Hv Hs Hf Hd Hn.
  - injection H as <-. done.
  - cbn [checked_keys] in H. destruct (user_id user) eqn:Eu; [|done]. cbn [negb] in H.
    destruct key as [| | | |key| |]; try done. case_bool_decide as E1; [done|]. case_bool_decide as E2; [done|].
    simpl in Hn. apply NoDup_cons in Hn as [Hn1 Hn2].
    assert (user ∉ dict_keys acc) as Hu by (intros Hu; apply (Hd _ Hu); simpl; by left).
    assert (dict_set acc user (key : string) = acc ++ [(user, key)]) as Eset.
    { clear -Hu. induction acc as [|[k v] acc IH]; [done|]. simpl in *. rewrite decide_False by set_solver. f_equal.
      apply IH. set_solver. }
    eapply (IH (key :: seen)); [exact H|rewrite Eset..|exact Hn2]; unfold dict_wf, dict_keys, dict_values in *.
    + rewrite map_app. apply NoDup_app. split_and!; [done| |simpl; apply NoDup_singleton].
      intros x Hx [->|[]%elem_of_nil]%elem_of_cons. done.
    + rewrite map_app. apply NoDup_app. split_and!; [done| |simpl; apply NoDup_singleton].
      intros x Hx [->|[]%elem_of_nil]%elem_of_cons. by apply E2, Hs.
    + intros k. rewrite map_app, elem_of_app. simpl. set_solver.
    + apply Forall_app. split; [done|]. by constructor.
    + intros u. rewrite map_app, elem_of_app. simpl. intros [Hin|Hin]; [|set_solver].
      specialize (Hd u Hin). simpl in Hd. set_solver.
Qed.

Lemma match_user_spec tok keys : forall acc,
  is_ascii tok = true -> Forall (fun kv => is_ascii (snd kv) = true) keys -> NoDup (dict_values keys) ->
  exists m, match_user tok keys acc = Ok m /\
    (forall u, (u, tok) ∈ keys -> m = Some u) /\ (tok ∉ dict_values keys -> m = acc).
Proof.
  induction keys as [|[u k] keys IH]; intros acc Ht Hk Hn.
  - exists acc. split_and!; [done|intros u Hu; by apply elem_of_nil in Hu|done].
  - apply Forall_cons in Hk as [Hk Hks]. unfold dict_values in *. simpl in Hn. apply NoDup_cons in Hn as [Hn1 Hn2].
    cbn [match_user]. unfold digest_equal, compare_digest. simpl in Hk. rewrite Ht, Hk. simpl.
    destruct (IH (if bool_decide (tok = k) then Some u else acc) Ht Hks Hn2) as (m & Hm & H1 & H2).
    exists m. split; [done|]. split.
    + intros u' [[= -> ->]|Hu']%elem_of_cons; [|by apply H1]. rewrite H2 by done. by rewrite bool_decide_true.
    + simpl. rewrite not_elem_of_cons. intros [Hne Hnin]. rewrite H2 by done. by rewrite bool_decide_false.
Qed.

(** Keys identify users.  When the configuration is accepted, no key belongs to two
    users and every user id has the documented form; and on ASCII text a bearer token acts
    for exactly the user whose key it is, is the unscoped key when it is only that, and is
    refused otherwise. *)
Theorem keys_identify_users loads raw keys env_key runtime_key token :
  (forall s d, loads s = Some (JObj d) -> NoDup (map fst d)) ->
  parse_user_api_keys loads raw = Some keys ->
  is_ascii token = true -> Forall (fun kv => is_ascii (snd kv) = true) keys ->
  (forall k, get_api_key (mkAuth keys env_key runtime_key) = Some k -> is_ascii k = true) ->
  (forall u u' k, (u, k) ∈ keys -> (u', k) ∈ keys -> u = u')
  /\ (forall u k, (u, k) ∈ keys -> user_id u = true /\ k <> "")
  /\ exists valid principal,
       authenticate_gateway_key (mkAuth keys env_key runtime_key) token = Ok (valid, principal)
       /\ (forall u, principal = Some u <-> (u, token) ∈ keys)
       /\ (valid = true <->
           (exists u, (u, token) ∈ keys) \/ get_api_key (mkAuth keys env_key runtime_key) = Some token).
Proof.
  intros Hloads Hp Ht Hk Ha.
  assert (dict_wf keys /\ NoDup (dict_values keys) /\ Forall (fun kv => user_id (fst kv) = true /\ snd kv <> "") keys)
    as (Hwf & Hv & Hf).
  { unfold parse_user_api_keys in Hp. case_bool_decide; [injection Hp as <-; split_and!; try done; apply NoDup_nil_2|].
    destruct (loads _) as [[| | | | | |items]|] eqn:E; try done.
    eapply (checked_keys_spec items [] []); [exact Hp|apply NoDup_nil_2|apply NoDup_nil_2|done|done| |by eapply Hloads].
    intros u Hu. by apply elem_of_nil in Hu. }
  assert (forall u u' k, (u, k) ∈ keys -> (u', k) ∈ keys -> u = u') as Hinj.
  { clear -Hv. induction keys as [|[a b] keys IH]; intros u u' k H1 H2; [by apply elem_of_nil in H1|].
    unfold dict_values in *. simpl in Hv. apply NoDup_cons in Hv as [Hn Hv].
    assert (forall x, (x, b) ∈ keys -> False) as Hx
      by (intros x Hx; apply Hn; change b with (snd (x, b)); by apply list_elem_of_fmap_2).
    apply elem_of_cons in H1 as [H1|H1]; apply elem_of_cons in H2 as [H2|H2]; simplify_eq; try done;
      [by exfalso; eapply Hx|by exfalso; eapply Hx|by eapply IH]. }
  split; [exact Hinj|]. split; [rewrite Forall_forall in Hf; intros u k Hu; apply (Hf _ Hu)|].
  destruct (match_user_spec token keys None Ht Hk Hv) as (m & Hm & Hm1 & Hm2).
  assert (exists legacy, (match get_api_key (mkAuth keys env_key runtime_key) with
      Some key => digest_equal token key | None => Ok false end) = Ok legacy
      /\ (legacy = true <-> get_api_key (mkAuth keys env_key runtime_key) = Some token)) as (legacy & Hl & Hleg).
  { destruct (get_api_key _) as [k|] eqn:E; [|by exists false]. exists (bool_decide (token = k)).
    unfold digest_equal, compare_digest. rewrite Ht, (Ha k eq_refl). simpl. split; [done|].
    rewrite bool_decide_eq_true. naive_solver. }
  unfold authenticate_gateway_key. cbn [user_api_keys]. rewrite Hm. cbn [result_bind]. rewrite Hl. cbn [result_bind].
  assert (forall u, m = Some u <-> (u, token) ∈ keys) as Hmu.
  { intros u. split; [|apply Hm1]. intros ->. destruct (decide (token ∈ dict_values keys)) as [Hin|Hin].
    - apply list_elem_of_fmap in Hin as ([u' k] & -> & Hin). by injection (Hm1 _ Hin) as ->.
    - by specialize (Hm2 Hin). }
  destruct m as [u|]; eexists _, _; (split; [reflexivity|]); (split; [exact Hmu|]).
  - split; [|done]. intros _. left. exists u. by apply Hmu.
  - rewrite Hleg. split; [by right|]. intros [[u Hu]|]; [|done]. by apply Hmu in Hu.
Qed.

(** ** What the app sees of a request *)

Lemma ascii_utf8 s : all_chars ascii_char s = true -> utf8_valid s = true.
Proof.
  unfold utf8_valid. induction s as [|c s IH]; [done|]. simpl. intros H. b2p. unfold char_tail. rewrite H. simpl. auto.
Qed.

Lemma user_id_text u : user_id u = true -> u <> "" /\ utf8_valid u = true.
Proof.
  intros H. split; [by intros ->|]. apply ascii_utf8. destruct u as [|c u]; [done|]. simpl in *. b2p.
  assert (forall d, (negb (alnum d || bool_decide (d ∈ ["."; "_"; "-"]%char)) || ascii_char d) = true) as Hd
    by (apply every_char; vm_compute; reflexivity).
  apply andb_true_iff. split.
  - specialize (Hd c). by rewrite H in Hd.
  - eapply all_chars_impl; [|exact H1]. intros d Hd'. specialize (Hd d). by rewrite Hd' in Hd.
Qed.

(** The request [rq'] with messages [ms'] is [rq] with messages [ms] made to act for [p]. *)
Record acts_for (json_loads : string -> option Json) (identity_header p : string)
    (rq : Request) (ms : list Recv) (buffered : bool) (rq' : Request) (ms' : list Recv) : Prop := {
  af_user : rq_user rq' = Some p;
  af_target : method (rq_scope rq') = method (rq_scope rq) /\ path (rq_scope rq') = path (rq_scope rq);
  (** the identity header is there once, with the principal; the other headers stay, but for
      those of the body's length *)
  af_identity : filter (fun kv => lower (fst kv) = identity_header) (raw_headers (rq_scope rq')) = [(identity_header, p)];
  af_headers : filter (fun kv => lower (fst kv) ∉ [identity_header; "content-length"; "transfer-encoding"]) (raw_headers (rq_scope rq'))
    = filter (fun kv => lower (fst kv) ∉ [identity_header; "content-length"; "transfer-encoding"]) (raw_headers (rq_scope rq));
  (** the query *)
  af_query : if binds_query (rq_scope rq) || binds_events (rq_scope rq)
    then parse_qsl (query_string (rq_scope rq'))
         = filter (fun kv => fst kv <> "user") (parse_qsl (query_string (rq_scope rq))) ++ [("user", p)]
    else query_string (rq_scope rq') = query_string (rq_scope rq);
  (** the body *)
  af_body : if buffered then
      exists body body', app_body ms = Some body /\ app_body ms' = Some body'
      /\ filter (fun kv => lower (fst kv) ∈ ["content-length"; "transfer-encoding"]) (raw_headers (rq_scope rq'))
         = [("content-length", dec (String.length body'))]
      /\ match json_loads body with
         | Some (JObj d) =>
             if binds_body (rq_scope rq) then
               exists d', json_loads body' = Some (JObj d') /\ dict_get d' "user" = Some (JStr p)
               /\ forall k, k <> "user" -> dict_get d' k = dict_get d k
             else body' = body
         | _ => body' = body
         end
    else ms' = ms;
}.

Lemma buffered_body ms limit : forall acc body rest,
  _buffer_body_with_limit acc ms limit = BBody body rest ->
  exists b, app_body ms = Some b /\ body = String.append acc b.
Proof.
  induction ms as [|[|chunk more] ms IH]; intros acc body rest H; simpl in H; try done.
  destruct (limit <? _); [done|]. destruct more.
  - destruct (IH _ _ _ H) as (b & Hb & ->). exists (String.append chunk b). simpl. rewrite Hb. by rewrite append_assoc.
  - injection H as <- <-. by exists chunk.
Qed.

Section bound.
Context (header_get : list (string * string) -> string -> option string).
Context (json_loads : string -> option Json) (json_dumps : Json -> option string).
Context (auth : AuthManager) (identity_header : string) (max_request_size upload_max : Z).
Hypothesis (dumps_loads : forall v b, json_dumps v = Some b -> json_loads b = Some v).
Notation guards := (guards header_get json_loads json_dumps auth identity_header max_request_size upload_max).

Lemma bound_query p s :
  utf8_valid (query_string s) = true -> utf8_valid p = true ->
  parse_qsl (query_string (_bind_query_user p s))
  = filter (fun kv => fst kv <> "user") (parse_qsl (query_string s)) ++ [("user", p)].
Proof.
  intros Hq Hp. unfold _bind_query_user. rewrite Hq. cbn [query_string with_query].
  apply parse_urlencode. rewrite forallb_app. apply andb_true_iff. split.
  - apply forallb_forall. intros kv [_ Hkv]%list_elem_of_In%list_elem_of_filter.
    pose proof (parse_valid _ Hq) as Hv. rewrite forallb_forall in Hv. by apply Hv, list_elem_of_In.
  - cbn [forallb]. unfold valid_pair. cbn [fst snd]. by rewrite Hp.
Qed.

Lemma strip_prefix_app p s r : strip_prefix p s = Some r -> s = String.append p r.
Proof.
  revert s. induction p as [|c p IH]; intros s H; simpl in H; [by injection H as ->|].
  destruct s as [|d s]; [done|]. destruct (Ascii.eqb_spec c d) as [->|]; [|done]. rewrite append_cons. f_equal. by apply IH.
Qed.

Lemma one_query s : binds_query s = true -> binds_events s = true -> False.
Proof.
  unfold binds_query, binds_events, starts_with. intros H1 H2.
  apply andb_true_iff in H1 as [[r1 H1]%bool_decide_eq_true _], H2 as [[r2 H2]%bool_decide_eq_true _].
  apply strip_prefix_app in H1, H2. rewrite H1 in H2. done.
Qed.

Lemma filter_none {A} (P : A -> Prop) `{!forall x, base.Decision (P x)} (l : list A) :
  (forall x, x ∈ l -> ~ P x) -> filter P l = [].
Proof.
  intros Hn. induction l as [|x l IH]; [done|]. rewrite filter_cons_False by (apply Hn; set_solver).
  apply IH. intros y Hy. apply Hn. set_solver.
Qed.

Lemma filter_in {A} (P : A -> Prop) `{!forall x, base.Decision (P x)} (x : A) : P x -> filter P [x] = [x].
Proof. intros Hx. by rewrite filter_cons_True. Qed.

Lemma filter_out {A} (P : A -> Prop) `{!forall x, base.Decision (P x)} (x : A) : ~ P x -> filter P [x] = [].
Proof. intros Hx. by rewrite filter_cons_False. Qed.

Lemma bind_spec rq p body rq1 body1 :
  lower identity_header = identity_header -> utf8_valid p = true -> utf8_valid (query_string (rq_scope rq)) = true ->
  _bind_principal_to_request json_loads json_dumps identity_header rq p body = Ok (rq1, body1) ->
  rq_user rq1 = Some p
  /\ (method (rq_scope rq1) = method (rq_scope rq) /\ path (rq_scope rq1) = path (rq_scope rq))
  /\ raw_headers (rq_scope rq1)
     = filter (fun kv => lower (fst kv) <> identity_header) (raw_headers (rq_scope rq)) ++ [(identity_header, p)]
  /\ (if binds_query (rq_scope rq) || binds_events (rq_scope rq)
      then parse_qsl (query_string (rq_scope rq1))
           = filter (fun kv => fst kv <> "user") (parse_qsl (query_string (rq_scope rq))) ++ [("user", p)]
      else query_string (rq_scope rq1) = query_string (rq_scope rq))
  /\ match body with
     | None => body1 = None
     | Some b => exists b', body1 = Some b'
         /\ match json_loads b with
            | Some (JObj d) =>
                if binds_body (rq_scope rq) then
                  exists d', json_loads b' = Some (JObj d') /\ dict_get d' "user" = Some (JStr p)
                  /\ forall k, k <> "user" -> dict_get d' k = dict_get d k
                else b' = b
            | _ => b' = b
            end
     end.
Proof.
  intros Hlow Hp Hq H. unfold _bind_principal_to_request in H.
  destruct (match body with Some _ => _ | None => _ end) as [bd|] eqn:Eb; [|done]. simpl in H. injection H as <- <-.
  cbn [rq_user rq_scope]. set (s1 := _replace_header identity_header p (rq_scope rq)).
  assert (forall s, method (_bind_query_user p s) = method s /\ path (_bind_query_user p s) = path s
    /\ raw_headers (_bind_query_user p s) = raw_headers s) as Hsame
    by (intros s; unfold _bind_query_user; by destruct (utf8_valid (query_string s))).
  change (binds_query (rq_scope rq)) with (binds_query s1).
  change (binds_events (rq_scope rq)) with (binds_events s1).
  assert (binds_events (if binds_query s1 then _bind_query_user p s1 else s1) = binds_events s1) as ->.
  { destruct (binds_query s1); [|done]. unfold binds_events. by destruct (Hsame s1) as (_ & -> & _). }
  split; [done|]. split_and!.
  - destruct (binds_query s1), (binds_events s1); rewrite ?(proj1 (Hsame _)); done.
  - destruct (binds_query s1), (binds_events s1); rewrite ?(proj1 (proj2 (Hsame _))); done.
  - destruct (binds_query s1), (binds_events s1); rewrite ?(proj2 (proj2 (Hsame _))); done.
  - destruct (binds_query s1) eqn:E1, (binds_events s1) eqn:E2; [destruct (one_query s1 E1 E2)| | |done];
      by apply (bound_query p s1).
  - destruct body as [b|]; [|by injection Eb as <-].
    change (binds_body (rq_scope rq)) with (binds_body s1). fold s1 in Eb. destruct (binds_body s1).
    + unfold _bind_response_body_user in Eb. destruct (json_loads b) as [[| | | | | |d]|] eqn:El;
        try (injection Eb as <-; by exists b).
      destruct (is_str _ p) eqn:Es.
      * injection Eb as <-. exists b. split; [done|]. exists d. split; [done|]. split; [|done].
        unfold is_str, jget_null, jget in Es. destruct (dict_get d "user") as [[]|]; try done. simpl in Es. b2p. by subst.
      * destruct (json_dumps _) as [b'|] eqn:Ed; [|done]. injection Eb as <-. exists b'. split; [done|].
        eexists. split; [by apply dumps_loads|]. split; [apply dict_get_set_eq|]. intros k Hk. by apply dict_get_set_ne.
    + injection Eb as <-. exists b. split; [done|]. by destruct (json_loads b) as [[]|].
Qed.

Notation lengths := ["content-length"; "transfer-encoding"].

Lemma bound_headers p hs :
  lower identity_header = identity_header ->
  let hs1 := filter (fun kv : string * string => lower (fst kv) <> identity_header) hs ++ [(identity_header, p)] in
  filter (fun kv : string * string => lower (fst kv) = identity_header) hs1 = [(identity_header, p)]
  /\ filter (fun kv : string * string => lower (fst kv) ∉ identity_header :: lengths) hs1
     = filter (fun kv : string * string => lower (fst kv) ∉ identity_header :: lengths) hs.
Proof.
  intros Hlow hs1. subst hs1. rewrite !filter_app. split.
  - rewrite list_filter_filter, (filter_none (fun kv : string * string => lower (fst kv) = identity_header /\ _)) by (intros x _; tauto).
    by rewrite filter_in.
  - rewrite filter_out by (cbn [fst]; rewrite Hlow; set_solver). rewrite app_nil_r.
    apply list_filter_filter_l. set_solver.
Qed.

Lemma normalized_headers s body :
  identity_header ∉ lengths ->
  let hs := raw_headers s in
  let hs' := raw_headers (_normalize_buffered_body_headers body s) in
  filter (fun kv : string * string => lower (fst kv) = identity_header) hs' = filter (fun kv : string * string => lower (fst kv) = identity_header) hs
  /\ filter (fun kv : string * string => lower (fst kv) ∉ identity_header :: lengths) hs'
     = filter (fun kv : string * string => lower (fst kv) ∉ identity_header :: lengths) hs
  /\ filter (fun kv : string * string => lower (fst kv) ∈ lengths) hs' = [("content-length", dec (String.length body))].
Proof.
  intros Hid hs hs'. subst hs hs'. unfold _normalize_buffered_body_headers. cbn [raw_headers with_headers].
  rewrite !filter_app. change (lower "content-length") with "content-length".
  split_and!.
  - rewrite filter_out by (cbn [fst]; change (lower "content-length") with "content-length"; set_solver).
    rewrite app_nil_r. apply list_filter_filter_l. intros kv ->. done.
  - rewrite filter_out by (cbn [fst]; change (lower "content-length") with "content-length"; set_solver).
    rewrite app_nil_r. apply list_filter_filter_l. set_solver.
  - rewrite list_filter_filter, filter_none by (intros x _; tauto).
    apply filter_in. cbn [fst]. change (lower "content-length") with "content-length". set_solver.
Qed.

Lemma guards_bind rq ms p rq' ms' buffered :
  lower identity_header = identity_header -> identity_header ∉ lengths ->
  _credential_principal header_get auth (rq_scope rq) = Ok (Some p) -> user_id p = true ->
  utf8_valid (query_string (rq_scope rq)) = true ->
  guards rq ms = Ok (Ready rq' ms' false buffered) ->
  acts_for json_loads identity_header p rq ms buffered rq' ms'
  /\ _extract_user header_get json_loads rq' ms' = Some (Some p, ms').
Proof.
  intros Hlow Hid Hp [Hne Hu]%user_id_text Hq H. unfold Gate.guards in H.
  destruct (_request_body_limit header_get auth max_request_size upload_max (rq_scope rq)) as [limit|]; [|done].
  cbn [result_bind] in H. destruct (match header_get _ _ with Some _ => _ | None => _ end); [done|].
  assert (forall r, rq_user r = Some p -> _extract_user header_get json_loads r ms' = Some (Some p, ms')) as Hx.
  { intros r Hr. unfold _extract_user, truthy_str. rewrite Hr. by rewrite bool_decide_false. }
  case_bool_decide.
  - destruct (_buffer_body_with_limit EmptyString ms limit) as [| | |body rest] eqn:Eb; try done.
    rewrite Hp in H. cbn [result_bind] in H.
    destruct (_bind_principal_to_request _ _ _ rq p (Some body)) as [[rq1 body1]|] eqn:E1; [|done].
    cbn [result_bind] in H. injection H as <- <- <-.
    destruct (bind_spec _ _ _ _ _ Hlow Hu Hq E1) as (H1 & H2 & H3 & H4 & (body' & -> & H5)).
    change (default "" (Some body')) with body'.
    destruct (normalized_headers (rq_scope rq1) body' Hid) as (N1 & N2 & N3).
    destruct (bound_headers p (raw_headers (rq_scope rq)) Hlow) as [B1 B2]. rewrite <- H3 in B1, B2.
    split; [|by apply Hx]. split; cbn [rq_user rq_scope]; [done|done|by rewrite N1|by rewrite N2|done|].
    destruct (buffered_body _ _ _ _ _ Eb) as (b & Hb & ->). exists b, body'. split_and!; [done|done|exact N3|exact H5].
  - rewrite Hp in H. cbn [result_bind] in H.
    destruct (_bind_principal_to_request _ _ _ rq p None) as [[rq1 body1]|] eqn:E1; [|done].
    cbn [result_bind] in H. injection H as <- <- <-.
    destruct (bind_spec _ _ _ _ _ Hlow Hu Hq E1) as (H1 & H2 & H3 & H4 & _).
    destruct (bound_headers p (raw_headers (rq_scope rq)) Hlow) as [B1 B2]. rewrite <- H3 in B1, B2.
    split; [|by apply Hx]. split; done.
Qed.

(** C13. A request with a user's key acts for that user.  When the client has sent its body
    in full and its query is UTF-8, then whatever it put there, the app sees the key's user
    and nobody else as the request's user, in the identity header, in the [user] parameter
    of the response and event routes and in the body of a new response; the rest of the
    request is unchanged, and the limiter counts the turn for that user. *)
Theorem scoped_request_acts_for_its_user rq ms p rq' ms' buffered :
  lower identity_header = identity_header -> identity_header ∉ lengths ->
  _credential_principal header_get auth (rq_scope rq) = Ok (Some p) -> user_id p = true ->
  utf8_valid (query_string (rq_scope rq)) = true ->
  guards rq ms = Ok (Ready rq' ms' false buffered) ->
  acts_for json_loads identity_header p rq ms buffered rq' ms'
  /\ _extract_user header_get json_loads rq' ms' = Some (Some p, ms').
Proof. apply guards_bind. Qed.

(** A response of somebody else is out of reach.  When the framework hands a route the
    one value a parameter has, a fully received request with a user's key to retrieve, delete
    or cancel a response sees only that user's sessions; so do the session routes. *)
Theorem foreign_responses_hidden (parameter : list string -> option string) rq ms p rq' ms' buffered session_user :
  (forall v, parameter [v] = Some v) ->
  lower identity_header = identity_header -> identity_header ∉ lengths ->
  _credential_principal header_get auth (rq_scope rq) = Ok (Some p) -> user_id p = true ->
  utf8_valid (query_string (rq_scope rq)) = true ->
  guards rq ms = Ok (Ready rq' ms' false buffered) ->
  let user := parameter (map snd (filter (fun kv : string * string => fst kv = "user") (parse_qsl (query_string (rq_scope rq'))))) in
  (binds_query (rq_scope rq) = true -> response_visible user session_user = true -> session_user = Some p)
  /\ (session_visible (rq_user rq') session_user = true -> session_user = Some p)
  /\ (events_visible (rq_user rq') user session_user = true -> session_user = Some p).
Proof.
  intros Hpar Hlow Hid Hp Hup Hq H user. destruct (user_id_text p Hup) as [Hne _].
  destruct (guards_bind rq ms p rq' ms' buffered Hlow Hid Hp Hup Hq H) as [[Haf _ _ _ Hqu _] _].
  unfold session_visible, events_visible, effective_user, get_authenticated_user, truthy_str. rewrite Haf.
  rewrite bool_decide_false by done. simpl. split_and!; [|by intros ?%bool_decide_eq_true..].
  intros Hb. rewrite Hb in Hqu. simpl in Hqu. subst user. rewrite Hqu, filter_app, list_filter_filter.
  rewrite filter_none by (intros x _; tauto). rewrite filter_in by done. simpl. rewrite Hpar.
  by intros ?%bool_decide_eq_true.
Qed.

Lemma zlen_append a b : zlen (String.append a b) = zlen a + zlen b.
Proof. unfold zlen. induction a as [|c a IH]; [done|]. rewrite append_cons. simpl. lia. Qed.

Lemma buffer_exact ms limit : forall acc body,
  app_body ms = Some body ->
  if limit <? zlen acc + zlen body then _buffer_body_with_limit acc ms limit = BTooLarge
  else exists rest, _buffer_body_with_limit acc ms limit = BBody (String.append acc body) rest.
Proof.
  induction ms as [|[|chunk more] ms IH]; intros acc body H; simpl in H; try done. cbn [_buffer_body_with_limit].
  destruct more.
  - destruct (app_body ms) as [b|] eqn:E; [|done]. injection H as <-. specialize (IH (String.append acc chunk) b eq_refl).
    rewrite zlen_append in IH. rewrite zlen_append, append_assoc, Z.add_assoc.
    assert (0 <= zlen b) by (unfold zlen; lia).
    destruct (Z.ltb_spec limit (zlen acc + zlen chunk)); [|exact IH].
    by destruct (Z.ltb_spec limit (zlen acc + zlen chunk + zlen b)); [|lia].
  - injection H as <-. destruct (limit <? _); [done|]. by exists ms.
Qed.

(** The body limit counts what is received.  A body that the client sends in full, in
    however many chunks and whatever length it declared, is refused when it is over the
    limit and otherwise reaches the app buffered; the larger allowance is for uploads with
    a valid key only. *)
Theorem body_limit_counts_bytes rq ms limit body :
  method (rq_scope rq) ∈ _BODY_METHODS -> app_body ms = Some body ->
  _request_body_limit header_get auth max_request_size upload_max (rq_scope rq) = Ok limit ->
  (limit < zlen body -> guards rq ms = Ok (Reject413 limit))
  /\ (forall rq' ms' gone buffered, guards rq ms = Ok (Ready rq' ms' gone buffered) ->
      zlen body <= limit /\ gone = false /\ buffered = true /\ exists body', app_body ms' = Some body')
  /\ (limit = max_request_size
      \/ limit = upload_max /\ path (rq_scope rq) = "/files/upload"
         /\ exists token principal, _bearer_token header_get (rq_scope rq) = Some token
              /\ authenticate_gateway_key auth token = Ok (true, principal)).
Proof.
  intros Hm Hb Hl. pose proof (buffer_exact ms limit EmptyString body Hb) as Hbuf.
  change (zlen EmptyString) with 0 in Hbuf. rewrite Z.add_0_l in Hbuf.
  unfold Gate.guards. rewrite Hl. cbn [result_bind]. rewrite (bool_decide_true _ Hm).
  split; [|split].
  - intros Hlt%Z.ltb_lt. rewrite Hlt in Hbuf. rewrite Hbuf. by destruct (match header_get _ _ with Some _ => _ | None => _ end).
  - intros rq' ms' gone buffered H. destruct (match header_get _ _ with Some _ => _ | None => _ end); [done|].
    destruct (Z.ltb_spec limit (zlen body)); [by rewrite Hbuf in H|]. destruct Hbuf as [rest Hbuf]. rewrite Hbuf in H.
    destruct (_credential_principal header_get auth (rq_scope rq)) as [principal|]; [|done]. cbn [result_bind] in H.
    destruct (match principal with Some _ => _ | None => _ end) as [[rq1 b1]|]; [|done]. cbn [result_bind] in H.
    injection H as <- <- <- <-. split_and!; try done. by exists b1.
  - unfold _request_body_limit in Hl. destruct (_ && _) eqn:E; [|injection Hl as <-; by left]. b2p.
    unfold _gateway_credential_valid in Hl. destruct (has_api_auth auth); cbn [negb result_bind] in Hl; [|injection Hl as <-; by left].
    destruct (_bearer_token _ _) as [token|]; [|injection Hl as <-; by left].
    destruct (authenticate_gateway_key auth token) as [[[] principal]|] eqn:Ea; cbn [result_bind] in Hl;
      [|injection Hl as <-; by left|done].
    injection Hl as <-. right. split_and!; [done|done|]. by exists token, principal.
Qed.
End bound.

(** ** Concrete requests *)

(** The first header of a name. *)
Fixpoint first_header (hs : list (string * string)) (name : string) : option string :=
  match hs with
  | [] => None
  | (k, v) :: hs => if bool_decide (lower k = name) then Some v else first_header hs name
  end.

(** A codec that knows one body. *)
Definition sample_loads (b : string) : option Json :=
  if bool_decide (b = "bob") then Some (JObj [("user", JStr "bob"); ("model", JStr "m")])
  else if bool_decide (b = "alice") then Some (JObj [("user", JStr "alice"); ("model", JStr "m")])
  else None.
Definition sample_dumps (v : Json) : option string :=
  match v with
  | JObj [("user", JStr "alice"); ("model", JStr "m")] => Some "alice"
  | _ => None
  end.

Definition sample_auth : AuthManager := mkAuth [("alice", "k1"); ("bob", "k2")] None None.

(** [alice]'s key, and [bob] wherever the caller chooses a user. *)
Definition as_alice (meth p query : string) : Request :=
  mkRequest true (mkScope meth p query [("authorization", "Bearer k1"); ("x-user-email", "bob")] None) None.

Notation sample_guards := (guards first_header sample_loads sample_dumps sample_auth "x-user-email" 100 1000).

Lemma sample_codec v b : sample_dumps v = Some b -> sample_loads b = Some v.
Proof.
  unfold sample_dumps. repeat case_match; try done. by intros [= <-].
Qed.

Lemma scoped_request_acts_for_its_user_witness :
  let rq := as_alice "POST" "/v1/responses" "user=bob" in
  let ms := [RRequest "bo" true; RRequest "b" false] in
  exists rq' ms',
    sample_guards rq ms = Ok (Ready rq' ms' false true)
    /\ acts_for sample_loads "x-user-email" "alice" rq ms true rq' ms'
    /\ app_body ms' = Some "alice".
Proof.
  eexists _, _. split; [reflexivity|]. split; [|reflexivity].
  apply (scoped_request_acts_for_its_user first_header sample_loads sample_dumps sample_auth "x-user-email" 100 1000 sample_codec);
    first [reflexivity|set_solver].
Defined.

Lemma foreign_responses_hidden_witness :
  let rq := as_alice "GET" "/v1/responses/resp_1" "user=bob&x=1&user=eve" in
  exists rq', sample_guards rq [] = Ok (Ready rq' [] false false)
  /\ (response_visible (hd_error (map snd (filter (fun kv : string * string => fst kv = "user")
        (parse_qsl (query_string (rq_scope rq')))))) (Some "bob") = true -> Some "bob" = Some "alice")
  /\ response_visible (hd_error (map snd (filter (fun kv : string * string => fst kv = "user")
        (parse_qsl (query_string (rq_scope rq')))))) (Some "alice") = true.
Proof.
  eexists. split; [reflexivity|]. split; [|vm_compute; reflexivity].
  refine (proj1 (foreign_responses_hidden first_header sample_loads sample_dumps sample_auth "x-user-email" 100 1000 sample_codec
    (@hd_error string) (as_alice "GET" "/v1/responses/resp_1" "user=bob&x=1&user=eve") [] "alice" _ _ false (Some "bob")
    _ _ _ _ _ _ _) _); first [reflexivity|set_solver].
Defined.

Lemma body_limit_counts_bytes_witness :
  let rq := as_alice "POST" "/v1/responses" "" in
  sample_guards rq [RRequest (String.concat "" (repeat "0123456789" 10)) true; RRequest "x" false] = Ok (Reject413 100).
Proof.
  apply (body_limit_counts_bytes first_header sample_loads sample_dumps sample_auth "x-user-email" 100 1000
    (as_alice "POST" "/v1/responses" "") [RRequest (String.concat "" (repeat "0123456789" 10)) true; RRequest "x" false]
    100 (String.append (String.concat "" (repeat "0123456789" 10)) "x")); first [reflexivity|set_solver].
Defined.

Definition key_config (s : string) : option Json :=
  if bool_decide (s = "conf") then Some (JObj [("alice", JStr "k1"); ("bob", JStr "k2")]) else None.

Lemma keys_identify_users_witness :
  exists valid principal,
    authenticate_gateway_key (mkAuth [("alice", "k1"); ("bob", "k2")] (Some "service") None) "k2" = Ok (valid, principal)
    /\ (forall u, principal = Some u <-> (u, "k2") ∈ [("alice", "k1"); ("bob", "k2")])
    /\ (valid = true <-> (exists u, (u, "k2") ∈ [("alice", "k1"); ("bob", "k2")])
        \/ get_api_key (mkAuth [("alice", "k1"); ("bob", "k2")] (Some "service") None) = Some "k2").
Proof.
  refine (proj2 (proj2 (keys_identify_users key_config (Some " conf ") _ (Some "service") None "k2" _ _ _ _ _))).
  - intros s d. unfold key_config. case_bool_decide; [|done]. intros [= <-].
    apply (bool_decide_unpack _). vm_compute. exact I.
  - reflexivity.
  - reflexivity.
  - by repeat constructor.
  - by intros k [= <-].
Defined.

(** A request whose client leaves while sending its body goes on to the app with nothing
    bound: the routes that scope by the [user] parameter alone then show a caller the
    responses of others. *)
Example aborted_upload_reaches_foreign_response :
  let rq := as_alice "POST" "/v1/responses/resp_1/cancel" "" in
  sample_guards rq [RRequest "{" true; RDisconnect] = Ok (Ready rq [RDisconnect] true false)
  /\ response_visible (hd_error (map snd (filter (fun kv : string * string => fst kv = "user")
       (parse_qsl (query_string (rq_scope rq)))))) (Some "bob") = true.
Proof. split; vm_compute; reflexivity. Qed.

(** So does a query that is not UTF-8. *)
Example raw_byte_reaches_foreign_response :
  let rq := as_alice "GET" "/v1/responses/resp_1" (String.append "user=bob&x=" (String (chr 255) EmptyString)) in
  match sample_guards rq [] with
  | Ok (Ready rq' _ _ _) =>
      query_string (rq_scope rq') = query_string (rq_scope rq)
      /\ response_visible (hd_error (map snd (filter (fun kv : string * string => fst kv = "user")
           (parse_qsl (query_string (rq_scope rq')))))) (Some "bob") = true
  | _ => False
  end.
Proof. split; vm_compute; reflexivity. Qed.

(** A key that is not ASCII is accepted, and then no key works. *)
Example non_ascii_key :
  let keys := parse_user_api_keys (fun _ => Some (JObj [("alice", JStr "k1"); ("bob", JStr "clé")])) (Some "conf") in
  keys = Some [("alice", "k1"); ("bob", "clé")]
  /\ authenticate_gateway_key (mkAuth [("alice", "k1"); ("bob", "clé")] None None) "k1" = Err RaisedTypeError.
Proof. split; vm_compute; reflexivity. Qed.

(** The turn of a request that got a slot runs with it, and the slot goes back unless the
    app took it over. *)
Example turn_holds_slot :
  let call := call first_header sample_loads sample_dumps sample_auth "x-user-email" 100 1000
                (as_alice "POST" "/v1/responses" "") [RRequest "bob" false] in
  match call Granted false, call Granted true, call (Refused true) false, call (Refused false) false with
  | Ok (Some [AskSlot u true None; RunApp _ _ true; ReleaseSlot]), Ok (Some [AskSlot _ _ _; RunApp _ _ true]),
    Ok (Some [AskSlot _ _ _]), Ok (Some [AskSlot _ _ _; Send503]) => u = Some "alice"
  | _, _, _, _ => False
  end.
Proof. vm_compute. reflexivity. Qed.
