(* ===== verification/SessionManager.v ===== *)
(** The live sessions of a gateway process ([src/src/session_manager.py],
    [SessionManager]).

    Session objects live in a heap, since requests, teardown tasks and the [sessions]
    dictionary share them; [oid] is an object's identity ([is]).  A method up to its
    first [await], and what follows each [await], is one step of the event loop.  An
    awaited client disconnect is a pending teardown: other steps run before it ends.
    What leaves the process (a removed workspace, a removed session-env directory, a
    dropped owner lock) is appended to a log of events.

    Times are microseconds: [now] is the wall clock, [mono] the monotonic one.  The
    fields of a turn that the routes write (the active response, cards, the session
    lock) change by steps of their own. *)

From stdpp Require Import sorting.
From S2P Require Import Prelude.

(** ** Sessions *)

Record Session := mkSession {
  session_id : string;
  user : option string;
  workspace : option string;
  ttl : Z;
  turn_counter : Z;
  message_count : Z;
  last_accessed : Z;
  expires_at : Z;
  client : bool;                       (* [client is not None] *)
  client_starting : bool;
  deferred_release : option bool;
  pending_tool_call : bool;
  input_event : bool;
  active_response : bool;              (* [active_response_id is not None] *)
  started_at : option Z;               (* [active_response_started_at] *)
  last_progress_at : option Z;
  locked : bool;                       (* [lock.locked()] *)
  poisoned : bool
}.

(** The fields the routes change while a turn runs. *)
Record TurnFields := mkTurn {
  t_messages : Z; t_pending : bool; t_input : bool; t_active : bool;
  t_started : option Z; t_progress : option Z; t_locked : bool
}.

Definition set_turn (t : TurnFields) (s : Session) : Session :=
  mkSession (session_id s) (user s) (workspace s) (ttl s) (turn_counter s) (t_messages t)
    (last_accessed s) (expires_at s) (client s) (client_starting s) (deferred_release s)
    (t_pending t) (t_input t) (t_active t) (t_started t) (t_progress t) (t_locked t) (poisoned s).

Definition set_client (c starting : bool) (deferred : option bool) (s : Session) : Session :=
  mkSession (session_id s) (user s) (workspace s) (ttl s) (turn_counter s) (message_count s)
    (last_accessed s) (expires_at s) c starting deferred (pending_tool_call s) (input_event s)
    (active_response s) (started_at s) (last_progress_at s) (locked s) (poisoned s).

(** [Session.touch] *)
Definition touch (now : Z) (s : Session) : Session :=
  mkSession (session_id s) (user s) (workspace s) (ttl s) (turn_counter s) (message_count s)
    now (now + ttl s) (client s) (client_starting s) (deferred_release s) (pending_tool_call s)
    (input_event s) (active_response s) (started_at s) (last_progress_at s) (locked s) (poisoned s).

Definition poison (s : Session) : Session :=
  mkSession (session_id s) (user s) (workspace s) (ttl s) (turn_counter s) (message_count s)
    (last_accessed s) (expires_at s) (client s) (client_starting s) (deferred_release s)
    (pending_tool_call s) (input_event s) (active_response s) (started_at s) (last_progress_at s)
    (locked s) true.

Definition truthy_str (o : option string) : bool :=
  match o with Some s => negb (bool_decide (s = "")) | None => false end.

(** [self.active_response_last_progress_at or self.active_response_started_at] *)
Definition progressed (s : Session) : option Z :=
  match last_progress_at s with
  | Some p => if p =? 0 then started_at s else Some p
  | None => started_at s
  end.

(** [SessionLock.acquire] once the lock is free: a poisoned lock raises. *)
Definition lock_acquire (s : Session) : result string Session :=
  if poisoned s then Err "handed off"
  else Ok (set_turn (mkTurn (message_count s) (pending_tool_call s) (input_event s)
             (active_response s) (started_at s) (last_progress_at s) true) s).

(** ** The manager *)

Inductive Event :=
| WorkspaceRemoved (oid : nat)
| SessionEnvRemoved (sid : string) (oid : nat)
| OwnerReleased (sid : string) (oid : nat).

Record Manager := mkManager {
  heap : gmap nat Session;
  sessions : odict string nat;
  teardowns : list (nat * bool);        (* disconnects under way: object, [finished] *)
  sweep_scheduled : bool;
  rehydrate_hits : Z;
  rehydrate_misses : Z;
  evicted : Z;                          (* [metrics.record_session_evicted] *)
  rejected : Z;                         (* [metrics.record_session_rejected] *)
  log : list Event
}.

Definition init_manager : Manager := mkManager ∅ [] [] false 0 0 0 0 [].

Definition with_heap (h : gmap nat Session) (m : Manager) : Manager :=
  mkManager h (sessions m) (teardowns m) (sweep_scheduled m) (rehydrate_hits m)
    (rehydrate_misses m) (evicted m) (rejected m) (log m).
Definition with_sessions (d : odict string nat) (m : Manager) : Manager :=
  mkManager (heap m) d (teardowns m) (sweep_scheduled m) (rehydrate_hits m)
    (rehydrate_misses m) (evicted m) (rejected m) (log m).
Definition with_teardowns (l : list (nat * bool)) (m : Manager) : Manager :=
  mkManager (heap m) (sessions m) l (sweep_scheduled m) (rehydrate_hits m)
    (rehydrate_misses m) (evicted m) (rejected m) (log m).
Definition with_sweep (b : bool) (m : Manager) : Manager :=
  mkManager (heap m) (sessions m) (teardowns m) b (rehydrate_hits m)
    (rehydrate_misses m) (evicted m) (rejected m) (log m).
Definition with_counts (hits misses ev rej : Z) (m : Manager) : Manager :=
  mkManager (heap m) (sessions m) (teardowns m) (sweep_scheduled m) hits misses ev rej (log m).
Definition emit (l : list Event) (m : Manager) : Manager :=
  mkManager (heap m) (sessions m) (teardowns m) (sweep_scheduled m) (rehydrate_hits m)
    (rehydrate_misses m) (evicted m) (rejected m) (log m ++ l).

Definition add_evicted (m : Manager) : Manager :=
  with_counts (rehydrate_hits m) (rehydrate_misses m) (evicted m + 1) (rejected m) m.
Definition add_rejected (m : Manager) : Manager :=
  with_counts (rehydrate_hits m) (rehydrate_misses m) (evicted m) (rejected m + 1) m.
Definition add_hit (m : Manager) : Manager :=
  with_counts (rehydrate_hits m + 1) (rehydrate_misses m) (evicted m) (rejected m) m.
Definition add_miss (m : Manager) : Manager :=
  with_counts (rehydrate_hits m) (rehydrate_misses m + 1) (evicted m) (rejected m) m.

Definition update (oid : nat) (f : Session -> Session) (m : Manager) : Manager :=
  with_heap (alter f oid (heap m)) m.
Definition drop_session (sid : string) (m : Manager) : Manager :=
  with_sessions (dict_del (sessions m) sid) m.
Definition spawn (oid : nat) (finished : bool) (m : Manager) : Manager :=
  with_teardowns (teardowns m ++ [(oid, finished)]) m.

(** What a call reads of its surroundings: both clocks, whether an event loop runs,
    whether this instance admits sessions, and whether the owner lock of the id can be
    taken ([owner_locks.acquire]). *)
Record Ctx := mkCtx {
  now : Z; mono : Z; has_loop : bool; admission_closed : bool; can_own : bool
}.

(** Why a session was not handed out. *)
Inductive Refusal := SessionLimitExceeded | OwnedElsewhere.

Section manager.
(** The configuration: [MAX_LIVE_SESSIONS], [ACTIVE_TURN_MAX_AGE_SECONDS] and
    [SESSION_EVICTION_MIN_IDLE_SECONDS] in microseconds, the eviction policy and the
    time to live of a new session. *)
Context (max_live age_cap min_idle : Z) (lru : bool) (default_ttl : Z).

(** [Session.is_expired] *)
Definition is_expired (c : Ctx) (s : Session) : bool :=
  if active_response s then
    match progressed s with
    | Some p => (0 <? age_cap) && (age_cap <? mono c - p)
    | None => false
    end
  else expires_at s <? now c.

Definition expired_at (c : Ctx) (m : Manager) (oid : nat) : bool :=
  match heap m !! oid with Some s => is_expired c s | None => false end.

(** ** Releasing what a session owns *)

(** A session other than [oid] holds the id now ([_remove_session_env_locked]). *)
Definition owned_by_other (m : Manager) (sid : string) (oid : nat) : bool :=
  match dict_get (sessions m) sid with
  | Some o => negb (o =? oid)%nat
  | None => false
  end.

(** The events of a release that is not deferred. *)
Definition release_events (m : Manager) (oid : nat) (s : Session) (finished : bool)
    : list Event :=
  (if truthy_str (workspace s) then [WorkspaceRemoved oid] else []) ++
  (if truthy_str (user s) && negb finished then []
   else if owned_by_other m (session_id s) oid then []
   else [SessionEnvRemoved (session_id s) oid]) ++
  [OwnerReleased (session_id s) oid].

(** [_release_session_dirs] with [_defer_release_locked]. *)
Definition release_session_dirs (oid : nat) (finished : bool) (m : Manager) : Manager :=
  match heap m !! oid with
  | None => m
  | Some s =>
      if client_starting s
      then update oid (set_client (client s) true
             (Some (finished || default false (deferred_release s)))) m
      else emit (release_events m oid s finished) m
  end.

(** ** Expiry *)

(** [_remove_if_expired] *)
Definition remove_if_expired (c : Ctx) (sid : string) (m : Manager) : Manager * bool :=
  match dict_get (sessions m) sid with
  | None => (m, false)
  | Some oid =>
      if expired_at c m oid then
        let m1 := drop_session sid m in
        match heap m !! oid with
        | Some s =>
            if client s then (if has_loop c then spawn oid false m1 else m1, true)
            else (release_session_dirs oid false m1, true)
        | None => (m1, true)
        end
      else (m, false)
  end.

(** [_purge_all_expired_sync]: the sessions without a client. *)
Definition purge_one_sync (m : Manager) (e : string * nat) : Manager :=
  match heap m !! e.2 with
  | Some s => if client s then m else drop_session e.1 (release_session_dirs e.2 false m)
  | None => m
  end.

Definition expired_entries (c : Ctx) (m : Manager) : list (string * nat) :=
  filter (fun e => expired_at c m e.2 = true) (sessions m).

Definition purge_all_expired_sync (c : Ctx) (m : Manager) : Manager :=
  foldl purge_one_sync m (expired_entries c m).

(** [_purge_all_expired] up to its [await], from a snapshot of expired entries that
    may be out of date. *)
Definition purge_one (c : Ctx) (m : Manager) (e : string * nat) : Manager :=
  match dict_get (sessions m) e.1 with
  | Some oid => if (oid =? e.2)%nat && expired_at c m oid
                then spawn oid false (drop_session e.1 m) else m
  | None => m
  end.

Definition purge_all_expired (c : Ctx) (snapshot : list (string * nat)) (m : Manager) : Manager :=
  foldl (purge_one c) (with_sweep false m) snapshot.

(** What a teardown does once its disconnect is over ([_teardown_evicted], the
    sweep's [_teardown], the ends of [delete_session_async] and
    [release_for_handoff]). *)
Definition finish_teardown (oid : nat) (finished : bool) (m : Manager) : Manager :=
  release_session_dirs oid finished
    (update oid (fun s => set_client false (client_starting s) (deferred_release s) s) m).

(** ** Eviction *)

(** Mid-turn, paused on a card, or starting its client. *)
Definition busy (s : Session) : bool :=
  active_response s || pending_tool_call s || input_event s || client_starting s.

(** [sorted(..., key=lambda s: (not s.is_expired(), s.last_accessed))]: the order on
    keys, and a stable sort. *)
Definition key_le (c : Ctx) (s t : Session) : bool :=
  match is_expired c s, is_expired c t with
  | true, false => true
  | false, true => false
  | _, _ => last_accessed s <=? last_accessed t
  end.

Fixpoint insert_by (c : Ctx) (x : nat * Session) (l : list (nat * Session))
    : list (nat * Session) :=
  match l with
  | [] => [x]
  | y :: l' => if key_le c x.2 y.2 then x :: l else y :: insert_by c x l'
  end.

Definition sort_candidates (c : Ctx) (l : list (nat * Session)) : list (nat * Session) :=
  foldr (insert_by c) [] l.

(** [self.sessions.values()] *)
Definition live (m : Manager) : list (nat * Session) :=
  omap (fun e => option_map (pair e.2) (heap m !! e.2)) (sessions m).

(** The scan of [_try_evict_lru_locked]: the victim. *)
Fixpoint scan (c : Ctx) (l : list (nat * Session)) : option (nat * Session) :=
  match l with
  | [] => None
  | (oid, s) :: l' =>
      if busy s then scan c l'
      else if negb (is_expired c s) && (now c - last_accessed s <? min_idle) then None
      else if client s && negb (has_loop c) then scan c l'
      else Some (oid, s)
  end.

(** [_try_evict_lru_locked] *)
Definition try_evict_lru (c : Ctx) (m : Manager) : Manager * bool :=
  match scan c (sort_candidates c (live m)) with
  | None => (m, false)
  | Some (oid, s) =>
      let m1 := drop_session (session_id s) m in
      let m2 := if client s then spawn oid false m1 else release_session_dirs oid false m1 in
      (add_evicted m2, true)
  end.

(** [_schedule_expired_sweep] *)
Definition schedule_sweep (c : Ctx) (m : Manager) : Manager :=
  if has_loop c then with_sweep true m else m.

Definition nlive (m : Manager) : Z := Z.of_nat (length (sessions m)).

(** [_has_room_for_new_session] *)
Definition has_room (c : Ctx) (m : Manager) : Manager * bool :=
  if max_live <=? 0 then (m, true)
  else if nlive m <? max_live then (m, true)
  else
    let m1 := purge_all_expired_sync c m in
    if nlive m1 <? max_live then (m1, true)
    else
      let r := if lru then try_evict_lru c m1 else (m1, false) in
      let m2 := if existsb (fun x => is_expired c x.2) (live r.1) then schedule_sweep c r.1 else r.1 in
      (m2, r.2).

(** ** Handing out sessions *)

Definition fresh_oid (m : Manager) : nat := fresh (dom (heap m)).

(** [Session(...)] and the assignment to [self.sessions[session_id]], after
    [_take_ownership_locked]. *)
Definition install (c : Ctx) (sid : string) (s : Session) (m : Manager)
    : Manager * result Refusal nat :=
  if admission_closed c || negb (can_own c) then (m, Err OwnedElsewhere)
  else
    let oid := fresh_oid m in
    (with_sessions (dict_set (sessions m) sid oid) (with_heap (<[oid := s]> (heap m)) m), Ok oid).

Definition new_session (c : Ctx) (sid : string) (u w : option string) (ttl turns : Z) : Session :=
  mkSession sid u w ttl turns 0 (now c) (now c + ttl) false false None false false false None None
    false false.

(** [_cached_session_locked] *)
Definition cached_session (c : Ctx) (sid : string) (m : Manager) : Manager * option nat :=
  let m1 := (remove_if_expired c sid m).1 in
  match dict_get (sessions m1) sid with
  | Some oid => (update oid (touch (now c)) m1, Some oid)
  | None => (m1, None)
  end.

(** [get_or_create_session] *)
Definition get_or_create (c : Ctx) (sid : string) (m : Manager) : Manager * result Refusal nat :=
  let (m1, found) := cached_session c sid m in
  match found with
  | Some oid => (m1, Ok oid)
  | None =>
      let (m2, room) := has_room c m1 in
      if room then install c sid (new_session c sid None None default_ttl 0) m2
      else (add_rejected m2, Err SessionLimitExceeded)
  end.

(** A transcript read outside the lock ([_try_rehydrate_from_jsonl]). *)
Record Transcript := mkTranscript { tr_user : string; tr_cwd : string; tr_turns : Z }.

(** The default [ttl_minutes] of [Session]: 60. *)
Definition REHYDRATED_TTL : Z := 60 * 60 * 1000000.

(** [_admit_rehydrated] *)
Definition admit_rehydrated (c : Ctx) (sid : string) (t : option Transcript)
    (max_turn : option Z) (m : Manager) : Manager * result Refusal (option nat) :=
  let (m1, found) := cached_session c sid m in
  match found with
  | Some oid => (m1, Ok (Some oid))
  | None =>
      match t with
      | None => (add_miss m1, Ok None)
      | Some t =>
          if match max_turn with Some n => tr_turns t <? n | None => false end
          then (add_miss m1, Ok None)
          else
            let (m2, room) := has_room c m1 in
            if room then
              match install c sid (new_session c sid (Some (tr_user t)) (Some (tr_cwd t))
                                     REHYDRATED_TTL (tr_turns t)) m2 with
              | (m3, Ok oid) => (add_hit m3, Ok (Some oid))
              | (m3, Err e) => (m3, Err e)
              end
            else (add_rejected m2, Err SessionLimitExceeded)
      end
  end.

(** [peek_session] *)
Definition peek_session (c : Ctx) (sid : string) (m : Manager) : Manager * option nat :=
  let m1 := (remove_if_expired c sid m).1 in (m1, dict_get (sessions m1) sid).

(** ** Ending sessions *)

(** [delete_session_async] up to its [await]. *)
Definition delete_session_async (sid : string) (finished : bool) (m : Manager) : Manager * bool :=
  match dict_get (sessions m) sid with
  | None => (m, false)
  | Some oid =>
      let m1 := drop_session sid m in
      match heap m !! oid with
      | Some s => (if client s then spawn oid finished m1
                   else release_session_dirs oid finished m1, true)
      | None => (m1, true)
      end
  end.

(** [delete_session]: it cannot await a disconnect. *)
Definition delete_session (sid : string) (m : Manager) : Manager * bool :=
  match dict_get (sessions m) sid with
  | None => (m, false)
  | Some oid => (release_session_dirs oid true (drop_session sid m), true)
  end.

Inductive HandoffResult := HReleased | HBusy | HAbsent.

(** [release_for_handoff] up to its [await]. *)
Definition release_for_handoff (sid : string) (m : Manager) : Manager * HandoffResult :=
  match dict_get (sessions m) sid with
  | None => (m, HAbsent)
  | Some oid =>
      match heap m !! oid with
      | None => (m, HAbsent)
      | Some s =>
          if locked s || busy s then (m, HBusy)
          else
            let m1 := update oid poison (drop_session sid m) in
            (if client s then spawn oid false m1 else release_session_dirs oid false m1,
             HReleased)
      end
  end.

(** [begin_client_start] *)
Definition begin_client_start (oid : nat) (m : Manager) : Manager :=
  update oid (fun s => set_client (client s) true (deferred_release s) s) m.

(** [finish_client_start]: at once when the manager still holds the session; else what
    runs once the new client is stopped. *)
Definition finish_client_start (sid : string) (oid : nat) (created : bool) (m : Manager)
    : Manager * bool :=
  if bool_decide (dict_get (sessions m) sid = Some oid)
  then (update oid (fun s => set_client (created || client s) false None s) m, true)
  else
    let finished := match heap m !! oid with
                    | Some s => default false (deferred_release s)
                    | None => false
                    end in
    (release_session_dirs oid finished
       (update oid (fun s => set_client (client s) false None s) m), false).

(** The two halves of [async_shutdown] after the tasks are settled: disconnecting a
    snapshot of the sessions, then releasing and forgetting all of them. *)
Definition shutdown_disconnect (snapshot : list nat) (m : Manager) : Manager :=
  foldl (fun m oid =>
    update oid (fun s => set_client false (client_starting s) (deferred_release s) s) m) m snapshot.

Definition shutdown_clear (m : Manager) : Manager :=
  with_sessions [] (foldl (fun m e => release_session_dirs e.2 false m) m (sessions m)).

(** ** Reports *)

(** [list_sessions]: the ids, after the synchronous sweep. *)
Definition list_sessions (c : Ctx) (m : Manager) : Manager * list string :=
  let m1 := purge_all_expired_sync c m in (m1, dict_keys (sessions m1)).

(** [get_stats]: active, expired and messages. *)
Definition get_stats (c : Ctx) (m : Manager) : Z * Z * Z :=
  foldl (fun acc x => let '(a, e, n) := acc in
    if is_expired c x.2 then (a, e + 1, n + message_count x.2)
    else (a + 1, e, n + message_count x.2)) (0, 0, 0) (live m).

(** [stats] *)
Definition stats (c : Ctx) (m : Manager) : Z * Z * Z :=
  (countb (fun x => negb (is_expired c x.2)) (live m), rehydrate_hits m, rehydrate_misses m).

(** [oldest_active_turn_silence] *)
Definition oldest_active_turn_silence (c : Ctx) (m : Manager) : Z :=
  match omap (fun x => if active_response x.2
                       then option_map (fun p => mono c - p) (progressed x.2)
                       else None) (live m) with
  | [] => 0
  | v :: vs => foldl Z.max v vs
  end.
End manager.

(** ** What every step keeps *)

(** Every session object is in the dictionary, released, being torn down, or left to
    the request that is starting its client. *)
Definition accounted (m : Manager) (oid : nat) (s : Session) : Prop :=
  dict_get (sessions m) (session_id s) = Some oid \/
  OwnerReleased (session_id s) oid ∈ log m \/
  (exists fin, (oid, fin) ∈ teardowns m) \/ client_starting s = true.

Record ok (m : Manager) : Prop := {
  ok_wf : dict_wf (sessions m);
  ok_live sid oid : dict_get (sessions m) sid = Some oid ->
    exists s, heap m !! oid = Some s /\ session_id s = sid;
  ok_start oid s : heap m !! oid = Some s -> client_starting s = true -> client s = false;
  ok_task oid fin : (oid, fin) ∈ teardowns m ->
    is_Some (heap m !! oid) /\ forall sid, dict_get (sessions m) sid <> Some oid;
  ok_acc oid s : heap m !! oid = Some s -> accounted m oid s
}.

(** No CLI of the object runs or is starting. *)
Definition stopped (m : Manager) (oid : nat) : Prop :=
  exists s, heap m !! oid = Some s /\ client s = false /\ client_starting s = false.

Definition event_oid (e : Event) : nat :=
  match e with WorkspaceRemoved o | SessionEnvRemoved _ o | OwnerReleased _ o => o end.

(** The events from [m] to [m'] concern objects whose CLI is stopped. *)
Definition safe_events (m m' : Manager) : Prop :=
  exists ev, log m' = log m ++ ev /\ forall e, e ∈ ev -> stopped m' (event_oid e).

Definition evolves (m m' : Manager) : Prop :=
  ok m' /\ safe_events m m' /\ forall oid, stopped m oid -> stopped m' oid.

Lemma evolves_refl m : ok m -> evolves m m.
Proof.
  intros H. split; [done|]. split; [|done]. exists []. rewrite app_nil_r. split; [done|].
  intros e He. by apply elem_of_nil in He.
Qed.

Lemma evolves_trans m1 m2 m3 : evolves m1 m2 -> evolves m2 m3 -> evolves m1 m3.
Proof.
  intros (H1 & (e1 & L1 & S1) & T1) (H2 & (e2 & L2 & S2) & T2). split; [done|]. split; [|auto].
  exists (e1 ++ e2). rewrite L2, L1, app_assoc. split; [done|].
  intros e [H|H]%elem_of_app; auto.
Qed.

Lemma safe_events_same m m' : log m' = log m -> safe_events m m'.
Proof.
  intros E. exists []. rewrite app_nil_r. split; [done|]. intros e He. by apply elem_of_nil in He.
Qed.

(** Only counters and flags change. *)
Lemma evolves_counts m m' :
  ok m -> heap m' = heap m -> sessions m' = sessions m -> teardowns m' = teardowns m ->
  log m' = log m -> evolves m m'.
Proof.
  intros [Hw Hl Hs Ht Ha] E1 E2 E3 E4. split; [|split; [by apply safe_events_same|]].
  - split; unfold accounted in *; rewrite ?E1, ?E2, ?E3, ?E4; auto.
  - intros oid. unfold stopped. by rewrite E1.
Qed.

(** Fields of one object change, none that concerns its identity or its CLI. *)
Definition same_core (f : Session -> Session) : Prop :=
  forall s, session_id (f s) = session_id s /\ client (f s) = client s /\
            client_starting (f s) = client_starting s.

Lemma update_inv oid f m o s :
  heap (update oid f m) !! o = Some s ->
  exists s0, heap m !! o = Some s0 /\ s = (if decide (o = oid) then f s0 else s0).
Proof.
  simpl. intros H. destruct (decide (o = oid)) as [->|Hne].
  - rewrite lookup_alter_eq in H. destruct (heap m !! oid) as [s0|]; [|done].
    injection H as <-. by exists s0.
  - rewrite lookup_alter_ne in H by done. by exists s.
Qed.

Lemma update_lookup oid f m o s :
  heap m !! o = Some s ->
  heap (update oid f m) !! o = Some (if decide (o = oid) then f s else s).
Proof.
  simpl. intros H. destruct (decide (o = oid)) as [->|Hne].
  - by rewrite lookup_alter_eq, H.
  - by rewrite lookup_alter_ne.
Qed.

(** Updates that keep an object's identity keep the invariant when the object's CLI
    fields stay consistent and the object stays accounted for. *)
Lemma ok_update oid f m :
  ok m -> (forall s, session_id (f s) = session_id s) ->
  (forall s, heap m !! oid = Some s -> client_starting (f s) = true -> client (f s) = false) ->
  (forall s, heap m !! oid = Some s -> client_starting s = true ->
     client_starting (f s) = true \/ accounted (update oid f m) oid (f s)) ->
  ok (update oid f m).
Proof.
  intros [Hw Hl Hs Ht Ha] Hid Hc Hacc. split; [done| | | |].
  - intros sid o E. destruct (Hl sid o E) as (s & H1 & H2).
    eexists. split; [by apply update_lookup|]. case_decide; [by rewrite Hid|done].
  - intros o s E. apply update_inv in E as (s0 & E & ->). case_decide; subst; eauto.
  - intros o fin E. destruct (Ht o fin E) as [[s H1] H2]. split; [|done].
    eexists. by apply update_lookup.
  - intros o s E. apply update_inv in E as (s0 & E & ->).
    destruct (Ha o s0 E) as [H|[H|[H|H]]]; case_decide as Hd; subst;
      try (unfold accounted; rewrite ?Hid; simpl; tauto).
    destruct (Hacc s0 E H) as [H'|H']; [right; right; by right|done].
Qed.

Lemma evolves_update oid f m : ok m -> same_core f -> evolves m (update oid f m).
Proof.
  intros H Hf. split; [|split; [by apply safe_events_same|]].
  - apply ok_update; [done|intros s; apply Hf| |].
    + intros s E. destruct (Hf s) as (_ & -> & ->). by apply (ok_start _ H oid).
    + intros s E Hst. left. by destruct (Hf s) as (_ & _ & ->).
  - intros o (s & E & H1 & H2). eexists. split; [by apply update_lookup|].
    case_decide; [|done]. by destruct (Hf s) as (_ & -> & ->).
Qed.

Lemma touch_core now : same_core (touch now).
Proof. done. Qed.
Lemma poison_core : same_core poison.
Proof. done. Qed.
Lemma turn_core t : same_core (set_turn t).
Proof. done. Qed.

(** ** Removals *)

(** The dictionary without [sid]; only its object may become unaccounted for. *)
Lemma drop_get m sid oid o sid' :
  ok m -> dict_get (sessions m) sid = Some oid ->
  dict_get (sessions (drop_session sid m)) sid' = Some o <->
  dict_get (sessions m) sid' = Some o /\ o <> oid.
Proof.
  intros H Hd. simpl. rewrite dict_get_del by apply (ok_wf _ H). case_decide as E; subst.
  - split; [done|]. intros [? Hne]. congruence.
  - split; [|naive_solver]. intros Ho. split; [done|]. intros ->.
    destruct (ok_live _ H _ _ Ho) as (s & E1 & E2), (ok_live _ H _ _ Hd) as (s' & E1' & E2').
    congruence.
Qed.

Lemma ok_drop m m' sid oid s :
  ok m -> dict_get (sessions m) sid = Some oid -> heap m !! oid = Some s ->
  heap m' = heap m -> sessions m' = sessions (drop_session sid m) ->
  teardowns m ⊆ teardowns m' ->
  (forall o fin, (o, fin) ∈ teardowns m' -> (o, fin) ∈ teardowns m \/ o = oid) ->
  (exists ev, log m' = log m ++ ev) -> accounted m' oid s -> ok m'.
Proof.
  intros Hok Hd Hs Eh Es Ht Ht' [ev El] Hacc. pose proof Hok as [Hw Hl Hst Htk Ha].
  split; rewrite ?Eh, ?Es; auto.
  - simpl. by apply dict_wf_del.
  - intros sid' o Ho. apply (drop_get m sid oid o sid' Hok Hd) in Ho as [Ho _]. by apply Hl.
  - intros o fin [Hin| ->]%Ht'.
    + destruct (Htk o fin Hin) as [H1 H2]. split; [done|]. intros sid' Ho.
      apply (drop_get m sid oid o sid' Hok Hd) in Ho as [Ho _]. by apply (H2 sid').
    + split; [eauto|]. intros sid' Ho.
      by apply (drop_get m sid oid oid sid' Hok Hd) in Ho as [_ ?].
  - intros o s' E. destruct (decide (o = oid)) as [->|Hne]; [congruence|].
    unfold accounted. rewrite Es, El.
    destruct (Ha o s' E) as [H|[H|[[fin H]|H]]].
    + left. by apply (drop_get m sid oid o _ Hok Hd).
    + right. left. apply elem_of_app. by left.
    + right. right. left. exists fin. by apply Ht.
    + right. right. by right.
Qed.

Lemma evolves_drop m m' sid oid s :
  ok m -> dict_get (sessions m) sid = Some oid -> heap m !! oid = Some s ->
  heap m' = heap m -> sessions m' = sessions (drop_session sid m) ->
  teardowns m ⊆ teardowns m' ->
  (forall o fin, (o, fin) ∈ teardowns m' -> (o, fin) ∈ teardowns m \/ o = oid) ->
  safe_events m m' -> accounted m' oid s -> evolves m m'.
Proof.
  intros Hok Hd Hs Eh Es Ht Ht' Hev Hacc. split; [|split; [done|]].
  - apply (ok_drop m m' sid oid s); try done. destruct Hev as (ev & El & _). by exists ev.
  - intros o. unfold stopped. by rewrite Eh.
Qed.

(** The object goes to a teardown. *)
Lemma evolves_spawn m sid oid fin :
  ok m -> dict_get (sessions m) sid = Some oid ->
  evolves m (spawn oid fin (drop_session sid m)).
Proof.
  intros Hok Hd. destruct (ok_live _ Hok _ _ Hd) as (s & Hs & _).
  apply (evolves_drop m _ sid oid s); auto; simpl.
  - intros x Hx. apply elem_of_app. by left.
  - intros o f [H|H]%elem_of_app; [by left|]. apply list_elem_of_singleton in H. right. congruence.
  - by apply safe_events_same.
  - right. right. left. exists fin. simpl. apply elem_of_app. right. by apply list_elem_of_singleton.
Qed.

Lemma release_events_oid m oid s fin e :
  e ∈ release_events m oid s fin -> event_oid e = oid.
Proof.
  unfold release_events. rewrite !elem_of_app. intros [H|[H|H]]; repeat case_match;
    rewrite ?elem_of_nil, ?list_elem_of_singleton in H; subst; done.
Qed.

Lemma release_events_owner m oid s fin :
  OwnerReleased (session_id s) oid ∈ release_events m oid s fin.
Proof. unfold release_events. rewrite !elem_of_app. right. right. by apply list_elem_of_singleton. Qed.

(** A release of a stopped object emits its events; of a starting one it is deferred. *)
Lemma evolves_release m oid s fin :
  ok m -> heap m !! oid = Some s -> client s = false ->
  evolves m (release_session_dirs oid fin m).
Proof.
  intros Hok Hs Hc. unfold release_session_dirs. rewrite Hs.
  destruct (client_starting s) eqn:Hst.
  - split; [|split; [by apply safe_events_same|]].
    + apply ok_update; [done|done|done|]. intros s' _ _. by left.
    + intros o (s' & E & H1 & H2). eexists. split; [by apply update_lookup|].
      case_decide; [|done]. subst. congruence.
  - destruct Hok as [Hw Hl Hss Ht Ha]. split; [|split; [|done]].
    + split; auto. intros o s' E. destruct (Ha o s' E) as [H|[H|[H|H]]]; unfold accounted; simpl; auto.
      right. left. apply elem_of_app. by left.
    + eexists. split; [done|]. intros e ->%release_events_oid. by exists s.
Qed.

Lemma release_accounted m oid s fin :
  heap m !! oid = Some s -> exists s', heap (release_session_dirs oid fin m) !! oid = Some s' /\
    session_id s' = session_id s /\
    (OwnerReleased (session_id s) oid ∈ log (release_session_dirs oid fin m) \/
     client_starting s' = true).
Proof.
  intros Hs. unfold release_session_dirs. rewrite Hs. destruct (client_starting s) eqn:Hst.
  - eexists. split; [by apply update_lookup|]. rewrite decide_True by done. split; [done|by right].
  - exists s. split; [done|]. split; [done|]. left. simpl. apply elem_of_app. right.
    apply release_events_owner.
Qed.

(** Dropped, then released ([_try_evict_lru_locked], [_remove_if_expired],
    [delete_session_async], [release_for_handoff]). *)
Lemma evolves_drop_release m sid oid s fin :
  ok m -> dict_get (sessions m) sid = Some oid -> heap m !! oid = Some s -> client s = false ->
  evolves m (release_session_dirs oid fin (drop_session sid m)).
Proof.
  intros Hok Hd Hs Hc. destruct (client_starting s) eqn:Hst.
  - pose proof (evolves_release m oid s fin Hok Hs Hc) as H1.
    apply (evolves_trans _ _ _ H1). destruct (release_accounted m oid s fin Hs) as (s' & E & Eid & _).
    assert (Em : release_session_dirs oid fin (drop_session sid m) =
      drop_session sid (release_session_dirs oid fin m)).
    { unfold release_session_dirs. simpl heap. by rewrite Hs, Hst. }
    rewrite Em. apply (evolves_drop _ _ sid oid s'); auto.
    + apply H1.
    + unfold release_session_dirs. by rewrite Hs, Hst.
    + by apply safe_events_same.
    + right. right. right. unfold release_session_dirs in E. rewrite Hs, Hst in E.
      apply update_inv in E as (s0 & E & ->). by rewrite decide_True.
  - assert (Em : release_session_dirs oid fin (drop_session sid m) =
      emit (release_events (drop_session sid m) oid s fin) (drop_session sid m)).
    { unfold release_session_dirs. simpl heap. by rewrite Hs, Hst. }
    rewrite Em. apply (evolves_drop m _ sid oid s); auto.
    + eexists. split; [done|]. intros e ->%release_events_oid. by exists s.
    + right. left. simpl. apply elem_of_app. right. apply release_events_owner.
Qed.

Lemma release_sessions oid fin m : sessions (release_session_dirs oid fin m) = sessions m.
Proof. unfold release_session_dirs. by repeat case_match. Qed.

Lemma release_teardowns oid fin m : teardowns (release_session_dirs oid fin m) = teardowns m.
Proof. unfold release_session_dirs. by repeat case_match. Qed.

(** Released, then dropped ([_purge_all_expired_sync]). *)
Lemma evolves_release_drop m sid oid s fin :
  ok m -> dict_get (sessions m) sid = Some oid -> heap m !! oid = Some s -> client s = false ->
  evolves m (drop_session sid (release_session_dirs oid fin m)).
Proof.
  intros Hok Hd Hs Hc. pose proof (evolves_release m oid s fin Hok Hs Hc) as H1.
  apply (evolves_trans _ _ _ H1). destruct (release_accounted m oid s fin Hs) as (s' & E & Eid & Hor).
  apply (evolves_drop _ _ sid oid s'); auto.
  - apply H1.
  - by rewrite release_sessions.
  - by apply safe_events_same.
  - unfold accounted. rewrite Eid. simpl. destruct Hor as [H|H]; [right; by left|right; right; by right].
Qed.

Lemma finish_teardown_tasks oid fin l m :
  finish_teardown oid fin (with_teardowns l m) = with_teardowns l (finish_teardown oid fin m).
Proof.
  unfold finish_teardown, release_session_dirs. simpl heap. by repeat case_match.
Qed.

(** A disconnect is over. *)
Lemma evolves_teardown m oid fin l1 l2 :
  ok m -> teardowns m = l1 ++ (oid, fin) :: l2 ->
  evolves m (finish_teardown oid fin (with_teardowns (l1 ++ l2) m)).
Proof.
  intros Hok Ht. rewrite finish_teardown_tasks. set (m2 := finish_teardown oid fin m).
  destruct (ok_task _ Hok oid fin) as [[s Hs] Hnl].
  { rewrite Ht. apply elem_of_app. right. by left. }
  set (m1 := update oid (fun s => set_client false (client_starting s) (deferred_release s) s) m).
  assert (H1 : evolves m m1).
  { split; [|split; [by apply safe_events_same|]].
    - apply ok_update; [done|done|done|]. intros s' _ H. by left.
    - intros o (s' & E & H1 & H2). eexists. split; [by apply update_lookup|].
      case_decide; [by split|done]. }
  assert (E1 : exists s1, heap m1 !! oid = Some s1 /\ client s1 = false).
  { eexists. split; [by apply update_lookup|]. by rewrite decide_True. }
  destruct E1 as (s1 & E1 & Hc1).
  assert (H2 : evolves m1 m2) by (apply (evolves_release m1 oid s1); [apply H1|done|done]).
  apply (evolves_trans _ _ _ H1), (evolves_trans _ _ _ H2).
  pose proof (proj1 H2) as [Hw Hl Hst Htk Ha].
  assert (Et : teardowns m2 = l1 ++ (oid, fin) :: l2)
    by (unfold m2, finish_teardown; by rewrite release_teardowns).
  split; [|split; [by apply safe_events_same|done]]. split; auto.
  - intros o f Hin. apply (Htk o f). simpl in Hin. rewrite Et.
    apply elem_of_app in Hin as [H|H]; apply elem_of_app; [by left|right; by right].
  - intros o s' E. destruct (Ha o s' E) as [H|[H|[[f H]|H]]]; unfold accounted; simpl; auto.
    rewrite Et in H. apply elem_of_app in H as [H|H]; [right; right; left; exists f; apply elem_of_app; by left|].
    apply elem_of_cons in H as [[= -> ->]|H]; [|right; right; left; exists f; apply elem_of_app; by right].
    destruct (release_accounted m1 oid s1 fin E1) as (s2 & E2 & Eid & Hor).
    change (heap (release_session_dirs oid fin m1) !! oid = Some s') in E.
    assert (s' = s2) as -> by congruence. rewrite Eid.
    change (log m2) with (log (release_session_dirs oid fin m1)).
    destruct Hor as [?|?]; auto.
Qed.

Lemma fresh_oid_new m : heap m !! fresh_oid m = None.
Proof. apply not_elem_of_dom. unfold fresh_oid. apply is_fresh. Qed.

(** A new session in the dictionary, when its id is not there. *)
Lemma evolves_install m c sid s r m' :
  ok m -> session_id s = sid -> client s = false -> client_starting s = false ->
  dict_get (sessions m) sid = None -> install c sid s m = (m', r) -> evolves m m'.
Proof.
  intros Hok Hid Hc Hst Hn. unfold install. destruct (_ || _).
  { intros [= <- <-]. by apply evolves_refl. }
  intros [= <- _]. pose proof Hok as [Hw Hl Hss Ht Ha].
  pose proof (fresh_oid_new m) as Hf.
  split; [|split; [by apply safe_events_same|]].
  - split; simpl.
    + by apply dict_wf_set.
    + intros sid' o. rewrite dict_get_set. case_decide.
      * intros [= <-]. subst. exists s. by rewrite lookup_insert_eq.
      * intros Ho. destruct (Hl _ _ Ho) as (s' & H1 & H2). exists s'.
        rewrite lookup_insert_ne; [done|]. intros <-. congruence.
    + intros o s' [[<- <-]|[_ E]]%lookup_insert_Some; [done|by eapply Hss].
    + intros o f Ho. destruct (Ht o f Ho) as [[s' H1] H2]. split.
      * exists s'. rewrite lookup_insert_ne; [done|]. intros <-. congruence.
      * intros sid'. rewrite dict_get_set. case_decide; [|done]. intros [= <-]. congruence.
    + intros o s' [[<- <-]|[Hne E]]%lookup_insert_Some; unfold accounted; simpl.
      * left. by rewrite Hid, dict_get_set_eq.
      * destruct (Ha o s' E) as [H|H]; [left|right; done].
        rewrite dict_get_set_ne; [done|]. intros Heq. rewrite <- Heq, Hn in H. done.
  - intros o (s' & E & H1 & H2). exists s'. split; [|done]. simpl.
    rewrite lookup_insert_ne; [done|]. intros <-. congruence.
Qed.

(** ** The operations evolve the manager *)

Section operations.
Context (max_live age_cap min_idle : Z) (lru : bool) (default_ttl : Z).
Context (c : Ctx).
Hypothesis Hloop : has_loop c = true.

Lemma remove_if_expired_evolves sid m :
  ok m -> evolves m (remove_if_expired age_cap c sid m).1.
Proof.
  intros Hok. unfold remove_if_expired. destruct (dict_get _ _) as [oid|] eqn:Hd;
    [|by apply evolves_refl].
  destruct (expired_at _ _ _ _); [|by apply evolves_refl].
  destruct (ok_live _ Hok _ _ Hd) as (s & Hs & _). rewrite Hs, Hloop.
  destruct (client s) eqn:Hc; simpl; [by apply evolves_spawn|by eapply evolves_drop_release].
Qed.

(** The snapshot entries still in the dictionary name the object found there. *)
Lemma purge_one_sync_evolves m e :
  ok m -> (forall oid, dict_get (sessions m) e.1 = Some oid -> oid = e.2) ->
  (is_Some (dict_get (sessions m) e.1)) -> evolves m (purge_one_sync m e).
Proof.
  intros Hok He [oid Hd]. pose proof (He _ Hd) as ->. unfold purge_one_sync.
  destruct (ok_live _ Hok _ _ Hd) as (s & Hs & _). rewrite Hs.
  destruct (client s) eqn:Hc; [by apply evolves_refl|by eapply evolves_release_drop].
Qed.

Lemma purge_one_sync_get m e k :
  ok m -> k <> e.1 -> dict_get (sessions (purge_one_sync m e)) k = dict_get (sessions m) k.
Proof.
  intros Hok Hne. unfold purge_one_sync. repeat case_match; try done. simpl.
  rewrite release_sessions. by apply dict_get_del_ne.
Qed.

Lemma purge_sync_fold l m :
  ok m -> NoDup (map fst l) ->
  (forall e, e ∈ l -> dict_get (sessions m) e.1 = Some e.2) ->
  evolves m (foldl purge_one_sync m l).
Proof.
  revert m. induction l as [|e l IH]; intros m Hok Hnd Hl; [by apply evolves_refl|].
  simpl in *. apply NoDup_cons in Hnd as [Hn Hnd].
  assert (He : dict_get (sessions m) e.1 = Some e.2) by (apply Hl; by left).
  assert (H1 : evolves m (purge_one_sync m e)).
  { apply purge_one_sync_evolves; [done|intros ?; congruence|eauto]. }
  apply (evolves_trans _ _ _ H1), IH; [apply H1|done|].
  intros e' Hin. rewrite purge_one_sync_get; [apply Hl; by right|done|].
  intros E. apply Hn. rewrite <- E. apply list_elem_of_fmap. by exists e'.
Qed.

Lemma expired_entries_ok m :
  ok m -> NoDup (map fst (expired_entries age_cap c m)) /\
  forall e, e ∈ expired_entries age_cap c m -> dict_get (sessions m) e.1 = Some e.2.
Proof.
  intros Hok. pose proof (ok_wf _ Hok) as Hw. split.
  - exact (dict_wf_filter (fun e => expired_at age_cap c m e.2 = true) (sessions m) Hw).
  - intros [k o] Hin. unfold expired_entries in Hin.
    apply list_elem_of_filter in Hin as [_ Hin]. by apply dict_elem_get.
Qed.

Lemma purge_sync_evolves m : ok m -> evolves m (purge_all_expired_sync age_cap c m).
Proof.
  intros Hok. destruct (expired_entries_ok m Hok). by apply purge_sync_fold.
Qed.

Lemma purge_one_evolves m e : ok m -> evolves m (purge_one age_cap c m e).
Proof.
  intros Hok. unfold purge_one. destruct (dict_get _ _) as [oid|] eqn:Hd; [|by apply evolves_refl].
  destruct (_ && _); [by apply evolves_spawn|by apply evolves_refl].
Qed.

Lemma purge_all_evolves snapshot m : ok m -> evolves m (purge_all_expired age_cap c snapshot m).
Proof.
  intros Hok. unfold purge_all_expired.
  assert (H0 : evolves m (with_sweep false m)) by by apply evolves_counts.
  apply (evolves_trans _ _ _ H0). pose proof (proj1 H0) as Hok0. clear H0. revert Hok0.
  generalize (with_sweep false m). induction snapshot as [|e l IH]; intros m0 H0;
    [by apply evolves_refl|]. simpl. pose proof (purge_one_evolves m0 e H0) as H1.
  apply (evolves_trans _ _ _ H1), IH, H1.
Qed.

(** ** Eviction: the scan finds the least eligible session *)

Lemma live_elem m oid s :
  (oid, s) ∈ live m <-> exists k, (k, oid) ∈ sessions m /\ heap m !! oid = Some s.
Proof.
  unfold live. rewrite list_elem_of_omap. split.
  - intros ([k o] & Hin & E). simpl in E. destruct (heap m !! o) as [s'|] eqn:Hs; [|done].
    injection E as <- <-. eauto.
  - intros (k & Hin & Hs). exists (k, oid). split; [done|]. simpl. by rewrite Hs.
Qed.

Lemma live_get m oid s :
  ok m -> (oid, s) ∈ live m ->
  dict_get (sessions m) (session_id s) = Some oid /\ heap m !! oid = Some s.
Proof.
  intros Hok (k & Hin & Hs)%live_elem. split; [|done].
  pose proof (dict_elem_get _ _ _ (ok_wf _ Hok) Hin) as Hd.
  destruct (ok_live _ Hok _ _ Hd) as (s' & Hs' & <-). congruence.
Qed.

(** What makes a session a possible victim. *)
Definition evictable (s : Session) : bool :=
  negb (busy s) && (is_expired age_cap c s || (min_idle <=? now c - last_accessed s)).

Lemma key_le_total s t : key_le age_cap c s t = false -> key_le age_cap c t s = true.
Proof. unfold key_le. repeat case_match; intros; zb. Qed.

Lemma key_le_trans s t u :
  key_le age_cap c s t = true -> key_le age_cap c t u = true -> key_le age_cap c s u = true.
Proof. unfold key_le. repeat case_match; intros; try done; zb. Qed.

Lemma insert_by_elem x l y : y ∈ insert_by age_cap c x l <-> y = x \/ y ∈ l.
Proof.
  induction l as [|z l IH]; simpl; [by rewrite list_elem_of_singleton, elem_of_nil; naive_solver|].
  case_match; rewrite !elem_of_cons; [done|rewrite IH; naive_solver].
Qed.

Lemma sort_elem l y : y ∈ sort_candidates age_cap c l <-> y ∈ l.
Proof.
  induction l as [|x l IH]; [done|]. cbn. rewrite insert_by_elem, elem_of_cons.
  fold (sort_candidates age_cap c l). by rewrite IH.
Qed.

Definition sorted : list (nat * Session) -> Prop :=
  StronglySorted (fun x y => key_le age_cap c x.2 y.2 = true).

Lemma insert_by_sorted x l : sorted l -> sorted (insert_by age_cap c x l).
Proof.
  induction 1 as [|z l Hs IH Hz]; simpl; [repeat constructor|].
  destruct (key_le age_cap c x.2 z.2) eqn:E.
  - constructor; [by constructor|]. constructor; [done|].
    eapply Forall_impl; [exact Hz|]. intros y. by apply key_le_trans.
  - constructor; [done|]. rewrite Forall_forall in *. intros y [->|Hy]%insert_by_elem; [|by apply Hz].
    by apply key_le_total.
Qed.

Lemma sort_sorted l : sorted (sort_candidates age_cap c l).
Proof. induction l as [|x l IH]; [constructor|]. by apply insert_by_sorted. Qed.

(** Past the first live session under the floor nothing is evictable. *)
Lemma under_floor s t :
  is_expired age_cap c s = false -> now c - last_accessed s < min_idle ->
  key_le age_cap c s t = true -> evictable t = false.
Proof.
  unfold key_le, evictable. intros He Hi. rewrite He. destruct (is_expired age_cap c t); [done|].
  intros Hle. apply andb_false_iff. right. simpl. zb.
Qed.

Lemma scan_spec l :
  sorted l ->
  match scan age_cap min_idle c l with
  | Some x => x ∈ l /\ evictable x.2 = true /\
      forall y, y ∈ l -> evictable y.2 = true -> key_le age_cap c x.2 y.2 = true
  | None => forall y, y ∈ l -> evictable y.2 = false
  end.
Proof.
  induction 1 as [|[oid s] l Hs IH Hl]; cbn [scan]; [by intros y ?%elem_of_nil|].
  rewrite Forall_forall in Hl. rewrite Hloop, andb_false_r.
  assert (Hskip : evictable s = false ->
    match scan age_cap min_idle c l with
    | Some x => x ∈ (oid, s) :: l /\ evictable x.2 = true /\
        forall y, y ∈ (oid, s) :: l -> evictable y.2 = true -> key_le age_cap c x.2 y.2 = true
    | None => forall y, y ∈ (oid, s) :: l -> evictable y.2 = false
    end).
  { intros Hn. destruct (scan _ _ _ l) as [x|].
    - destruct IH as (H1 & H2 & H3). split_and!; [by right|done|].
      intros y [->|Hy]%elem_of_cons Hy'; [simpl in Hy'; congruence|auto].
    - intros y [->|Hy]%elem_of_cons; auto. }
  destruct (busy s) eqn:Hb; [apply Hskip; unfold evictable; by rewrite Hb|].
  destruct (_ && _) eqn:Hf.
  - apply andb_true_iff in Hf as [He Hi]. apply negb_true_iff in He. apply Z.ltb_lt in Hi.
    intros y [->|Hy]%elem_of_cons.
    + simpl. unfold evictable. rewrite He. apply andb_false_iff. right. simpl. zb.
    + apply (under_floor s); [done|done|]. by apply (Hl y).
  - split_and!; [by left| |].
    + unfold evictable. cbn [snd]. rewrite Hb. simpl. apply andb_false_iff in Hf as [Hf|Hf].
      * apply negb_false_iff in Hf. by rewrite Hf.
      * apply orb_true_iff. right. zb.
    + intros y [->|Hy]%elem_of_cons _; [|by apply (Hl y)].
      simpl. unfold key_le. destruct (is_expired age_cap c s); zb.
Qed.

(** Nothing entered the dictionary. *)
Definition fewer (m m' : Manager) : Prop :=
  nlive m' <= nlive m /\
  forall k o, dict_get (sessions m') k = Some o -> dict_get (sessions m) k = Some o.

Lemma fewer_refl m : fewer m m.
Proof. split; [lia|done]. Qed.

Lemma fewer_trans m1 m2 m3 : fewer m1 m2 -> fewer m2 m3 -> fewer m1 m3.
Proof. intros [H1 L1] [H2 L2]. split; [lia|auto]. Qed.

Lemma fewer_same m m' : sessions m' = sessions m -> fewer m m'.
Proof. intros E. unfold fewer, nlive. rewrite E. split; [lia|done]. Qed.

Lemma fewer_drop m m' sid :
  ok m -> sessions m' = sessions (drop_session sid m) -> fewer m m'.
Proof.
  intros Hok E. unfold fewer, nlive. rewrite E. simpl. rewrite dict_del_length. split; [lia|].
  intros k o. rewrite dict_get_del by apply (ok_wf _ Hok). by case_decide.
Qed.

(** [evolves], and nothing entered the dictionary. *)
Definition shrinks (m m' : Manager) : Prop := evolves m m' /\ fewer m m'.

Lemma shrinks_trans m1 m2 m3 : shrinks m1 m2 -> shrinks m2 m3 -> shrinks m1 m3.
Proof. intros [H1 L1] [H2 L2]. split; [by eapply evolves_trans|by eapply fewer_trans]. Qed.

Lemma shrinks_refl m : ok m -> shrinks m m.
Proof. intros H. split; [by apply evolves_refl|apply fewer_refl]. Qed.

Lemma nlive_drop_present m sid oid :
  dict_get (sessions m) sid = Some oid -> nlive (drop_session sid m) = nlive m - 1.
Proof.
  intros H. unfold nlive. simpl. rewrite dict_del_length. unfold dict_has. rewrite H.
  rewrite bool_decide_true by eauto. apply dict_get_elem in H.
  destruct (sessions m); [by apply elem_of_nil in H|simpl; lia].
Qed.

Lemma remove_if_expired_shrinks sid m : ok m -> shrinks m (remove_if_expired age_cap c sid m).1.
Proof.
  intros H. split; [by apply remove_if_expired_evolves|]. unfold remove_if_expired.
  repeat case_match; simpl; try apply fewer_refl; apply (fewer_drop _ _ sid); try done.
  by rewrite release_sessions.
Qed.

Lemma purge_one_sync_fewer m e : ok m -> fewer m (purge_one_sync m e).
Proof.
  intros H. unfold purge_one_sync. repeat case_match; try apply fewer_refl.
  apply (fewer_drop _ _ e.1); [done|]. simpl. by rewrite release_sessions.
Qed.

Lemma purge_sync_fold_fewer l m :
  ok m -> NoDup (map fst l) -> (forall e, e ∈ l -> dict_get (sessions m) e.1 = Some e.2) ->
  fewer m (foldl purge_one_sync m l).
Proof.
  revert m. induction l as [|e l IH]; intros m Hok Hnd Hl; [apply fewer_refl|].
  simpl in *. apply NoDup_cons in Hnd as [Hn Hnd].
  assert (He : dict_get (sessions m) e.1 = Some e.2) by (apply Hl; by left).
  apply (fewer_trans _ _ _ (purge_one_sync_fewer m e Hok)), IH; [|done|].
  - apply purge_one_sync_evolves; [done|intros ?; congruence|eauto].
  - intros e' Hin. rewrite purge_one_sync_get; [apply Hl; by right|done|].
    intros E. apply Hn. rewrite <- E. apply list_elem_of_fmap. by exists e'.
Qed.

Lemma purge_sync_shrinks m : ok m -> shrinks m (purge_all_expired_sync age_cap c m).
Proof.
  intros H. split; [by apply purge_sync_evolves|]. destruct (expired_entries_ok m H).
  by apply purge_sync_fold_fewer.
Qed.

Lemma try_evict_shrinks m :
  ok m -> shrinks m (try_evict_lru age_cap min_idle c m).1 /\
  ((try_evict_lru age_cap min_idle c m).2 = true ->
   nlive (try_evict_lru age_cap min_idle c m).1 = nlive m - 1).
Proof.
  intros Hok. unfold try_evict_lru. pose proof (scan_spec _ (sort_sorted (live m))) as Hs.
  destruct (scan _ _ _ _) as [[oid s]|]; [|split; [by apply shrinks_refl|done]].
  destruct Hs as (Hin & _ & _). rewrite sort_elem in Hin.
  apply (live_get m oid s Hok) in Hin as [Hd Hs].
  set (m2 := if client s then _ else _).
  assert (Hev : evolves m m2).
  { unfold m2. destruct (client s) eqn:Hc; [by apply evolves_spawn|by eapply evolves_drop_release]. }
  assert (Es : sessions m2 = sessions (drop_session (session_id s) m)).
  { unfold m2. destruct (client s); [done|by rewrite release_sessions]. }
  split; [split|].
  - apply (evolves_trans _ _ _ Hev). apply evolves_counts; try done. apply Hev.
  - by apply (fewer_drop _ _ (session_id s)).
  - intros _. rewrite <- (nlive_drop_present m _ _ Hd). unfold nlive. simpl. by rewrite Es.
Qed.

Lemma schedule_sweep_shrinks m : ok m -> shrinks m (schedule_sweep c m).
Proof.
  intros H. unfold schedule_sweep. rewrite Hloop.
  split; [by apply evolves_counts|by apply fewer_same].
Qed.

(** When there is room, the count is under the limit. *)
Lemma has_room_spec m :
  ok m -> shrinks m (has_room max_live age_cap min_idle lru c m).1 /\
  ((has_room max_live age_cap min_idle lru c m).2 = true -> 0 < max_live ->
   nlive m <= max_live -> nlive (has_room max_live age_cap min_idle lru c m).1 < max_live).
Proof.
  intros Hok. unfold has_room. destruct (max_live <=? 0) eqn:E0.
  { split; [by apply shrinks_refl|]. intros; zb. }
  destruct (nlive m <? max_live) eqn:E1.
  { split; [by apply shrinks_refl|]. intros; simpl; zb. }
  pose proof (purge_sync_shrinks m Hok) as H1. set (m1 := purge_all_expired_sync age_cap c m) in *.
  destruct (nlive m1 <? max_live) eqn:E2; [split; [done|intros; simpl; zb]|].
  assert (Hr : exists r, r = (if lru then try_evict_lru age_cap min_idle c m1 else (m1, false)) /\
    shrinks m1 r.1 /\ (r.2 = true -> nlive r.1 = nlive m1 - 1)).
  { eexists. split; [done|]. destruct lru; [apply try_evict_shrinks, H1|].
    split; [apply shrinks_refl, H1|done]. }
  destruct Hr as (r & <- & Hr & Hn).
  assert (H3 : shrinks m (if existsb (fun x => is_expired age_cap c x.2) (live r.1)
                          then schedule_sweep c r.1 else r.1)).
  { destruct (existsb _ _); [|by eapply shrinks_trans].
    eapply shrinks_trans; [exact H1|]. eapply shrinks_trans; [exact Hr|].
    apply schedule_sweep_shrinks, Hr. }
  split; [exact H3|]. simpl. intros Ht Hp Hm. specialize (Hn Ht).
  assert (nlive (if existsb (fun x => is_expired age_cap c x.2) (live r.1)
                 then schedule_sweep c r.1 else r.1) <= nlive r.1).
  { destruct (existsb _ _); [|lia]. unfold schedule_sweep. rewrite Hloop.
    change (nlive (with_sweep true r.1)) with (nlive r.1). lia. }
  destruct H1 as [_ [Hle _]]. lia.
Qed.

(** An id that a lookup did not find stays absent while room is made. *)
Lemma cached_session_spec sid m :
  ok m -> let r := cached_session age_cap c sid m in
  shrinks m r.1 /\ dict_get (sessions r.1) sid = r.2.
Proof.
  intros Hok. unfold cached_session. pose proof (remove_if_expired_shrinks sid m Hok) as H1.
  set (m1 := (remove_if_expired age_cap c sid m).1) in *.
  destruct (dict_get (sessions m1) sid) as [oid|] eqn:Hd; simpl; [|done].
  split; [|done]. apply (shrinks_trans _ _ _ H1). split; [|by apply fewer_same].
  apply evolves_update; [apply H1|apply touch_core].
Qed.

Lemma absent_stays m m' sid :
  fewer m m' -> dict_get (sessions m) sid = None -> dict_get (sessions m') sid = None.
Proof.
  intros [_ H] Hn. destruct (dict_get (sessions m') sid) as [o|] eqn:E; [|done].
  apply H in E. congruence.
Qed.

Definition capped (m : Manager) : Prop := 0 < max_live -> nlive m <= max_live.

Lemma install_nlive sid s m m' r :
  install c sid s m = (m', r) -> nlive m' <= nlive m + 1.
Proof.
  unfold install, nlive. case_match; intros [= <- _]; simpl; [lia|].
  rewrite dict_set_length. case_match; lia.
Qed.

(** Room is made, then the session is installed. *)
Lemma admit_evolves sid s m :
  ok m -> capped m -> session_id s = sid -> client s = false -> client_starting s = false ->
  dict_get (sessions m) sid = None ->
  let r := has_room max_live age_cap min_idle lru c m in
  r.2 = true ->
  evolves m (install c sid s r.1).1 /\ capped (install c sid s r.1).1.
Proof.
  intros Hok Hcap Hid Hc Hst Hn r Hr. destruct (has_room_spec m Hok) as [[He Hf] Hroom].
  fold r in He, Hf, Hroom. destruct (install c sid s r.1) as [m' o] eqn:E. split.
  - apply (evolves_trans _ _ _ He).
    by eapply (evolves_install _ c sid s); [apply He|..|exact E]; try done; eapply absent_stays.
  - intros Hp. apply install_nlive in E. specialize (Hroom Hr Hp (Hcap Hp)). simpl. lia.
Qed.

Lemma capped_fewer m m' : fewer m m' -> capped m -> capped m'.
Proof. intros [H _] Hc Hp. specialize (Hc Hp). lia. Qed.

Lemma get_or_create_ok sid m :
  ok m -> capped m ->
  let m' := (get_or_create max_live age_cap min_idle lru default_ttl c sid m).1 in
  evolves m m' /\ capped m'.
Proof.
  intros Hok Hcap. unfold get_or_create. destruct (cached_session_spec sid m Hok) as [[He Hf] Hd].
  destruct (cached_session age_cap c sid m) as [m1 [oid|]]; simpl in *.
  { split; [done|by eapply capped_fewer]. }
  pose proof (proj1 He) as Hok1. assert (Hcap1 : capped m1) by by eapply capped_fewer.
  destruct (has_room_spec m1 Hok1) as [[He2 Hf2] _].
  pose proof (admit_evolves sid (new_session c sid None None default_ttl 0) m1 Hok1 Hcap1
    eq_refl eq_refl eq_refl Hd) as Ha. simpl in Ha.
  destruct (has_room _ _ _ _ c m1) as [m2 []]; simpl in *.
  - destruct (Ha eq_refl) as [H1 H2]. split; [by eapply evolves_trans|done].
  - split; [|by eapply capped_fewer; [exact Hf2|]].
    apply (evolves_trans _ _ _ He), (evolves_trans _ _ _ He2), evolves_counts; try done. apply He2.
Qed.

Lemma admit_rehydrated_ok sid t mt m :
  ok m -> capped m ->
  let m' := (admit_rehydrated max_live age_cap min_idle lru c sid t mt m).1 in
  evolves m m' /\ capped m'.
Proof.
  intros Hok Hcap. unfold admit_rehydrated.
  destruct (cached_session_spec sid m Hok) as [[He Hf] Hd].
  destruct (cached_session age_cap c sid m) as [m1 [oid|]]; simpl in *.
  { split; [done|by eapply capped_fewer]. }
  pose proof (proj1 He) as Hok1. assert (Hcap1 : capped m1) by by eapply capped_fewer.
  assert (Hmiss : evolves m (add_miss m1) /\ capped (add_miss m1)).
  { split; [|done]. apply (evolves_trans _ _ _ He), evolves_counts; try done. }
  destruct t as [t|]; [|done]. destruct (match mt with Some n => _ | None => _ end); [done|].
  destruct (has_room_spec m1 Hok1) as [[He2 Hf2] _].
  set (s := new_session c sid (Some (tr_user t)) (Some (tr_cwd t)) REHYDRATED_TTL (tr_turns t)).
  pose proof (admit_evolves sid s m1 Hok1 Hcap1 eq_refl eq_refl eq_refl Hd) as Ha. simpl in Ha.
  destruct (has_room _ _ _ _ c m1) as [m2 []]; simpl in *.
  - destruct (Ha eq_refl) as [H1 H2]. destruct (install c sid s m2) as [m3 [oid|e]]; simpl in *.
    + split; [|done]. apply (evolves_trans _ _ _ He), (evolves_trans _ _ _ H1), evolves_counts;
        try done. apply H1.
    + split; [by eapply evolves_trans|done].
  - split; [|by eapply capped_fewer; [exact Hf2|]].
    apply (evolves_trans _ _ _ He), (evolves_trans _ _ _ He2), evolves_counts; try done. apply He2.
Qed.
End operations.

(** ** Ending a session and starting a client *)

(** The object leaves the dictionary for a teardown or is released at once. *)
Lemma evolves_pop m sid oid s fin :
  ok m -> dict_get (sessions m) sid = Some oid -> heap m !! oid = Some s ->
  evolves m (if client s then spawn oid fin (drop_session sid m)
             else release_session_dirs oid fin (drop_session sid m)).
Proof.
  intros Hok Hd Hs. destruct (client s) eqn:Hc; [by apply evolves_spawn|].
  by eapply evolves_drop_release.
Qed.

Lemma delete_evolves sid fin m : ok m -> evolves m (delete_session_async sid fin m).1.
Proof.
  intros Hok. unfold delete_session_async. destruct (dict_get _ _) as [oid|] eqn:Hd;
    [|by apply evolves_refl].
  destruct (ok_live _ Hok _ _ Hd) as (s & Hs & _). rewrite Hs. by apply evolves_pop.
Qed.

Lemma handoff_evolves sid m : ok m -> evolves m (release_for_handoff sid m).1.
Proof.
  intros Hok. unfold release_for_handoff. destruct (dict_get _ _) as [oid|] eqn:Hd;
    [|by apply evolves_refl].
  destruct (ok_live _ Hok _ _ Hd) as (s & Hs & _). rewrite Hs.
  destruct (_ || _); [by apply evolves_refl|]. simpl.
  pose proof (evolves_update oid poison m Hok poison_core) as H1.
  apply (evolves_trans _ _ _ H1).
  change (update oid poison (drop_session sid m)) with (drop_session sid (update oid poison m)).
  replace (client s) with (client (poison s)) by done.
  apply evolves_pop; [apply H1|done|].
  rewrite (update_lookup oid poison m oid s Hs). by rewrite decide_True.
Qed.

(** The invariant is kept, and released objects stay stopped unless a start of their
    client begins. *)
Lemma begin_ok oid s m :
  ok m -> heap m !! oid = Some s -> client s = false -> ok (begin_client_start oid m).
Proof.
  intros Hok Hs Hc. apply ok_update; [done|done| |].
  - intros s' E _. simpl. congruence.
  - intros s' _ _. by left.
Qed.

Lemma finish_start_ok sid oid s created m :
  ok m -> heap m !! oid = Some s -> session_id s = sid -> client_starting s = true ->
  ok (finish_client_start sid oid created m).1 /\
  safe_events m (finish_client_start sid oid created m).1.
Proof.
  intros Hok Hs Hid Hst. unfold finish_client_start. case_bool_decide as Hd; simpl.
  - split; [|by apply safe_events_same]. apply ok_update; [done|done|done|].
    intros s' E _. right. left. simpl. rewrite Hs in E. injection E as <-. by rewrite Hid.
  - pose proof (ok_start _ Hok _ _ Hs Hst) as Hc. rewrite Hs.
    set (fin := default false (deferred_release s)).
    set (f := fun s => set_client (client s) false None s).
    assert (E1 : heap (update oid f m) !! oid = Some (f s)).
    { rewrite (update_lookup oid f m oid s Hs). by rewrite decide_True. }
    unfold release_session_dirs. rewrite E1. simpl client_starting. cbv iota.
    split.
    + destruct Hok as [Hw Hl Hss Ht Ha]. split; simpl.
      * done.
      * intros sid' o Ho. destruct (Hl _ _ Ho) as (s' & H1 & H2).
        eexists. split; [by apply (update_lookup oid f m)|]. by case_decide.
      * intros o s' E. apply (update_inv oid f m) in E as (s0 & E & ->). case_decide; [done|].
        by apply (Hss o).
      * intros o fin' Ho. destruct (Ht o fin' Ho) as [[s' H1] H2]. split; [|done].
        eexists. by apply (update_lookup oid f m).
      * intros o s' E. apply (update_inv oid f m) in E as (s0 & E & ->).
        unfold accounted. simpl. case_decide as Ho.
        -- subst o. rewrite Hs in E. injection E as <-. right. left. apply elem_of_app. right.
           apply (release_events_owner _ oid (f s)).
        -- destruct (Ha o s0 E) as [H|[H|H]]; [by left|right; left; apply elem_of_app; by left|].
           right. by right.
    + eexists. split; [done|]. intros e ->%release_events_oid.
      exists (f s). split; [done|]. simpl. by rewrite Hc.
Qed.

(** [async_shutdown] once its tasks are settled, when nothing runs in between. *)
Lemma shutdown_disconnect_evolves l m : ok m -> evolves m (shutdown_disconnect l m).
Proof.
  unfold shutdown_disconnect. revert m. induction l as [|oid l IH]; intros m Hok;
    [by apply evolves_refl|]. simpl.
  set (m1 := update _ _ m). assert (H1 : evolves m m1); [|apply (evolves_trans _ _ _ H1), IH, H1].
  split; [|split; [by apply safe_events_same|]].
  - apply ok_update; [done|done|done|]. intros s _ H. by left.
  - intros o (s & E & H1 & H2). eexists. split; [by apply update_lookup|]. case_decide; [by split|done].
Qed.

Lemma purge_all_fewer age_cap c sn m :
  ok m -> fewer m (purge_all_expired age_cap c sn m).
Proof.
  intros Hok. unfold purge_all_expired.
  assert (Hok0 : ok (with_sweep false m)) by by apply (evolves_counts m).
  assert (H0 : fewer m (with_sweep false m)) by by apply fewer_same.
  apply (fewer_trans _ _ _ H0). clear H0. revert Hok0. generalize (with_sweep false m).
  induction sn as [|e l IH]; intros m0 H0; [apply fewer_refl|]. simpl.
  apply (fewer_trans _ (purge_one age_cap c m0 e)); [|by apply IH, purge_one_evolves].
  unfold purge_one. repeat case_match; try apply fewer_refl. by apply (fewer_drop _ _ e.1).
Qed.

Lemma delete_fewer sid fin m : ok m -> fewer m (delete_session_async sid fin m).1.
Proof.
  intros Hok. unfold delete_session_async. repeat case_match; simpl; try apply fewer_refl;
    apply (fewer_drop _ _ sid); try done. by rewrite release_sessions.
Qed.

Lemma handoff_fewer sid m : ok m -> fewer m (release_for_handoff sid m).1.
Proof.
  intros Hok. unfold release_for_handoff. repeat case_match; simpl; try apply fewer_refl;
    apply (fewer_drop _ _ sid); try done. by rewrite release_sessions.
Qed.

(** ** Releases, whatever client is attached

    A release changes no object's identity and no client. *)
Definition alike (s s' : Session) : Prop :=
  session_id s' = session_id s /\ client s' = client s /\ client_starting s' = client_starting s.

Lemma release_alike oid fin m o s :
  heap m !! o = Some s ->
  exists s', heap (release_session_dirs oid fin m) !! o = Some s' /\ alike s s'.
Proof.
  intros Hs. unfold release_session_dirs. destruct (heap m !! oid) as [x|] eqn:Ex; [|by exists s].
  destruct (client_starting x) eqn:Hx; [|by exists s].
  eexists. split; [by apply update_lookup|]. case_decide as Ho; [|done]. subst o.
  assert (x = s) as -> by congruence. by split_and!.
Qed.

Definition release_entries (l : list (string * nat)) (m : Manager) : Manager :=
  foldl (fun m e => release_session_dirs e.2 false m) m l.

Lemma release_entries_alike l m o s :
  heap m !! o = Some s -> exists s', heap (release_entries l m) !! o = Some s' /\ alike s s'.
Proof.
  revert m s. induction l as [|e l IH]; intros m s Hs; [by exists s|].
  destruct (release_alike e.2 false m o s Hs) as (s1 & H1 & A1 & A2 & A3).
  destruct (IH _ _ H1) as (s2 & H2 & B1 & B2 & B3). exists s2. split; [done|].
  split_and!; congruence.
Qed.

(** The events from [m] to [m'] are releases of objects in [P] that start no client. *)
Definition emits (P : nat -> Prop) (m m' : Manager) : Prop :=
  exists ev, log m' = log m ++ ev /\ forall e, e ∈ ev ->
    P (event_oid e) /\ exists s, heap m' !! event_oid e = Some s /\ client_starting s = false.

Lemma emits_nothing P m m' : log m' = log m -> emits P m m'.
Proof. intros E. exists []. rewrite app_nil_r. split; [done|]. by intros e ?%elem_of_nil. Qed.

Lemma ok_release m oid s fin : ok m -> heap m !! oid = Some s -> ok (release_session_dirs oid fin m).
Proof.
  intros Hok Hs. unfold release_session_dirs. rewrite Hs. destruct (client_starting s) eqn:Hst.
  - apply ok_update; [done|done| |intros s' _ _; by left].
    intros s' _ _. simpl. by apply (ok_start _ Hok oid).
  - destruct Hok as [Hw Hl Hss Ht Ha]. split; auto. intros o s' E.
    destruct (Ha o s' E) as [H|[H|[H|H]]]; unfold accounted; simpl; auto.
    right. left. apply elem_of_app. by left.
Qed.

Lemma release_emits m oid s fin :
  heap m !! oid = Some s -> emits (fun o => o = oid) m (release_session_dirs oid fin m).
Proof.
  intros Hs. unfold release_session_dirs. rewrite Hs. destruct (client_starting s) eqn:Hst.
  - by apply emits_nothing.
  - eexists. split; [done|]. intros e ->%release_events_oid. eauto.
Qed.

Lemma ok_drop_release m sid oid s fin :
  ok m -> dict_get (sessions m) sid = Some oid -> heap m !! oid = Some s ->
  ok (release_session_dirs oid fin (drop_session sid m)).
Proof.
  intros Hok Hd Hs. destruct (client_starting s) eqn:Hst.
  - assert (Em : release_session_dirs oid fin (drop_session sid m) =
      drop_session sid (release_session_dirs oid fin m)).
    { unfold release_session_dirs. simpl heap. by rewrite Hs, Hst. }
    rewrite Em. destruct (release_alike oid fin m oid s Hs) as (s' & E & _ & _ & E3).
    apply (ok_drop (release_session_dirs oid fin m) _ sid oid s'); try done.
    + by eapply ok_release.
    + by rewrite release_sessions.
    + auto.
    + exists []. by rewrite app_nil_r.
    + right. right. right. congruence.
  - assert (Em : release_session_dirs oid fin (drop_session sid m) =
      emit (release_events (drop_session sid m) oid s fin) (drop_session sid m)).
    { unfold release_session_dirs. simpl heap. by rewrite Hs, Hst. }
    rewrite Em. apply (ok_drop m _ sid oid s); try done.
    + auto.
    + by eexists.
    + right. left. simpl. apply elem_of_app. right. apply release_events_owner.
Qed.

Lemma delete_sync_ok sid m :
  ok m -> ok (delete_session sid m).1 /\
  emits (fun o => dict_get (sessions m) sid = Some o) m (delete_session sid m).1.
Proof.
  intros Hok. unfold delete_session. destruct (dict_get (sessions m) sid) as [oid|] eqn:Hd;
    [|split; [done|by apply emits_nothing]]. simpl.
  destruct (ok_live _ Hok _ _ Hd) as (s & Hs & _). split; [by eapply ok_drop_release|].
  destruct (release_emits (drop_session sid m) oid s true Hs) as (ev & El & Hev). exists ev. split; [done|].
  intros e He. destruct (Hev e He) as [-> H]. by split.
Qed.

(** Releasing a list of entries. *)
Lemma release_entries_any l m :
  ok m -> (forall e, e ∈ l -> is_Some (heap m !! e.2)) ->
  ok (release_entries l m) /\ emits (fun _ => True) m (release_entries l m) /\
  forall e s, e ∈ l -> heap m !! e.2 = Some s -> client_starting s = false ->
    OwnerReleased (session_id s) e.2 ∈ log (release_entries l m).
Proof.
  revert m. induction l as [|e l IH]; intros m Hok Hl.
  { split_and!; [done|by apply emits_nothing|]. by intros e s ?%elem_of_nil. }
  destruct (Hl e) as [s Hs]; [by left|].
  destruct (IH (release_session_dirs e.2 false m)) as (H1 & (ev2 & L2 & H2) & H3); [by eapply ok_release| |].
  { intros e' He'. destruct (Hl e') as [s' Hs']; [by right|].
    destruct (release_alike e.2 false m _ _ Hs') as (s2 & E & _). eauto. }
  destruct (release_emits m e.2 s false Hs) as (ev1 & L1 & E1).
  split; [done|]. unfold release_entries in *. cbn [foldl]. split.
  - exists (ev1 ++ ev2). split; [by rewrite L2, L1, app_assoc|]. intros x [Hx|Hx]%elem_of_app; [|by apply H2].
    destruct (E1 x Hx) as [_ (s1 & Hs1 & Hst)]. split; [done|].
    destruct (release_entries_alike l _ _ _ Hs1) as (s2 & Hs2 & _ & _ & E). exists s2. split; [done|congruence].
  - intros e' s' [->|He']%elem_of_cons Hs' Hst.
    + assert (s' = s) as -> by congruence. rewrite L2. apply elem_of_app. left.
      unfold release_session_dirs. rewrite Hs, Hst. simpl. apply elem_of_app. right. apply release_events_owner.
    + destruct (release_alike e.2 false m _ _ Hs') as (s2 & E & A1 & _ & A3).
      rewrite <- A1. apply (H3 e' s2); [done|done|congruence].
Qed.

Lemma sessions_there m : ok m -> forall e, e ∈ sessions m -> is_Some (heap m !! e.2).
Proof.
  intros Hok [k o] He. destruct (ok_live _ Hok k o) as (s & Hs & _); [|eauto].
  apply dict_elem_get; [apply (ok_wf _ Hok)|done].
Qed.

Lemma release_entries_sessions l m : sessions (release_entries l m) = sessions m.
Proof.
  revert m. induction l as [|e l IH]; intros m; [done|]. unfold release_entries in *. cbn [foldl].
  by rewrite IH, release_sessions.
Qed.

Lemma shutdown_clear_ok m : ok m -> ok (shutdown_clear m) /\ emits (fun _ => True) m (shutdown_clear m).
Proof.
  intros Hok. destruct (release_entries_any (sessions m) m Hok (sessions_there m Hok)) as (H1 & H2 & H3).
  change (shutdown_clear m) with (with_sessions [] (release_entries (sessions m) m)). split; [|exact H2].
  pose proof H1 as [_ _ Hst Ht Ha]. split; simpl; [apply NoDup_nil_2|done|exact Hst| |].
  - intros oid fin Hin. split; [by eapply Ht|done].
  - intros o s E. destruct (Ha o s E) as [H|[H|[H|H]]]; unfold accounted; simpl; auto.
    rewrite release_entries_sessions in H. destruct (ok_live _ Hok _ _ H) as (s0 & Hs0 & Hid).
    destruct (release_entries_alike (sessions m) m o s0 Hs0) as (s1 & Hs1 & A1 & _ & A3).
    assert (s1 = s) as -> by congruence. destruct (client_starting s0) eqn:E0; [right; right; by right|].
    right. left. rewrite <- Hid. apply (H3 (session_id s, o) s0); [by apply dict_get_elem|done|done].
Qed.

(** A step that releases what a client may still use: the second half of a shutdown, and the
    deletion that cannot wait. *)
Definition forced (m m' : Manager) (oid : nat) : Prop :=
  m' = shutdown_clear m \/ exists sid, dict_get (sessions m) sid = Some oid /\ m' = (delete_session sid m).1.

Definition releases (m m' : Manager) : Prop :=
  exists ev, log m' = log m ++ ev /\ forall e, e ∈ ev ->
    exists s, heap m' !! event_oid e = Some s /\ client_starting s = false /\
      (client s = true -> forced m m' (event_oid e)).

Lemma safe_releases m m' : safe_events m m' -> releases m m'.
Proof.
  intros (ev & El & H). exists ev. split; [done|]. intros e He. destruct (H e He) as (s & Hs & Hc & Hst).
  exists s. split_and!; [done|done|congruence].
Qed.

Lemma forced_releases (P : nat -> Prop) m m' :
  emits P m m' -> (forall o, P o -> forced m m' o) -> releases m m'.
Proof.
  intros (ev & El & H) HP. exists ev. split; [done|]. intros e He. destruct (H e He) as (Ho & s & Hs & Hst).
  exists s. split_and!; [done|done|auto].
Qed.

Section steps.
Context (max_live age_cap min_idle : Z) (lru : bool) (default_ttl : Z).

(** A step of the process: a method up to its first [await], the end of an awaited
    disconnect, a route changing the fields of a turn, either half of a shutdown. *)
Inductive step : Manager -> Manager -> Prop :=
| step_get_or_create c sid m : has_loop c = true ->
    step m (get_or_create max_live age_cap min_idle lru default_ttl c sid m).1
| step_admit c sid t mt m : has_loop c = true ->
    step m (admit_rehydrated max_live age_cap min_idle lru c sid t mt m).1
| step_lookup c sid m : has_loop c = true -> step m (cached_session age_cap c sid m).1
| step_peek c sid m : has_loop c = true -> step m (peek_session age_cap c sid m).1
| step_list c m : has_loop c = true -> step m (list_sessions age_cap c m).1
| step_purge c snapshot m : has_loop c = true -> step m (purge_all_expired age_cap c snapshot m)
| step_teardown oid fin l1 l2 m :
    teardowns m = l1 ++ (oid, fin) :: l2 ->
    step m (finish_teardown oid fin (with_teardowns (l1 ++ l2) m))
| step_delete sid fin m : step m (delete_session_async sid fin m).1
| step_handoff sid m : step m (release_for_handoff sid m).1
| step_begin oid s m :
    heap m !! oid = Some s -> client s = false -> step m (begin_client_start oid m)
| step_finish oid s created m :
    heap m !! oid = Some s -> client_starting s = true ->
    step m (finish_client_start (session_id s) oid created m).1
| step_turn oid t m : step m (update oid (set_turn t) m)
| step_disconnect oid m : step m (shutdown_disconnect [oid] m)
| step_shutdown_clear m : step m (shutdown_clear m)
| step_delete_sync sid m : step m (delete_session sid m).1.

Definition reachable (m : Manager) : Prop := rtc step init_manager m.

Lemma init_ok : ok init_manager.
Proof.
  split; simpl; try done.
  - apply NoDup_nil_2.
  - by intros oid fin ?%elem_of_nil.
Qed.

Lemma step_safe m m' :
  ok m -> capped max_live m -> step m m' ->
  ok m' /\ releases m m' /\ capped max_live m'.
Proof.
  intros Hok Hcap Hs.
  assert (Hev : forall m', evolves m m' -> fewer m m' ->
    ok m' /\ releases m m' /\ capped max_live m').
  { intros x (H1 & H2 & _) Hf. split_and!; [done|by apply safe_releases|by eapply capped_fewer]. }
  destruct Hs as [c sid m Hl|c sid t mt m Hl|c sid m Hl|c sid m Hl|c m Hl|c sn m Hl
    |oid fin l1 l2 m Ht|sid fin m|sid m|oid s m Hs Hc|oid s cr m Hs Hst|oid t m|oid m|m|sid m].
  - destruct (get_or_create_ok max_live age_cap min_idle lru default_ttl c Hl sid m Hok Hcap)
      as [(H1 & H2 & _) H3]. split_and!; [done|by apply safe_releases|done].
  - destruct (admit_rehydrated_ok max_live age_cap min_idle lru c Hl sid t mt m Hok Hcap)
      as [(H1 & H2 & _) H3]. split_and!; [done|by apply safe_releases|done].
  - destruct (cached_session_spec age_cap c Hl sid m Hok) as [[H1 H2] _]. by apply Hev.
  - destruct (remove_if_expired_shrinks age_cap c Hl sid m Hok). by apply Hev.
  - destruct (purge_sync_shrinks age_cap c m Hok). by apply Hev.
  - pose proof (purge_all_evolves age_cap c sn m Hok) as H. apply Hev; [done|].
    by apply purge_all_fewer.
  - apply Hev; [by apply evolves_teardown|]. apply fewer_same.
    unfold finish_teardown. by rewrite release_sessions.
  - apply Hev; [by apply delete_evolves|]. by apply delete_fewer.
  - apply Hev; [by apply handoff_evolves|]. by apply handoff_fewer.
  - split_and!; [by eapply begin_ok|by apply safe_releases, safe_events_same|done].
  - destruct (finish_start_ok (session_id s) oid s cr m Hok Hs eq_refl Hst) as [H1 H2].
    split_and!; [done|by apply safe_releases|]. eapply capped_fewer; [|done]. apply fewer_same.
    unfold finish_client_start. case_bool_decide; [done|]. simpl. by rewrite release_sessions.
  - apply Hev; [apply evolves_update; [done|apply turn_core]|by apply fewer_same].
  - apply Hev; [by apply shutdown_disconnect_evolves|by apply fewer_same].
  - destruct (shutdown_clear_ok m Hok) as [H1 H2]. split_and!; [done| |intros Hp; unfold nlive; simpl; lia].
    apply (forced_releases _ _ _ H2). intros o _. by left.
  - destruct (delete_sync_ok sid m Hok) as [H1 H2]. split_and!; [done| |].
    + apply (forced_releases _ _ _ H2). intros o Ho. right. by exists sid.
    + eapply capped_fewer; [|done]. unfold delete_session. case_match; simpl; [|apply fewer_refl].
      apply (fewer_drop _ _ sid); try done. by rewrite release_sessions.
Qed.

(** The manager beside the routes that drop a client: [_disconnect_session_client] takes the
    client off its session and only then awaits its disconnect, so that its CLI may run on for
    as long ([stopping] names the sessions, one entry for each client). *)
Inductive wstep : Manager * list nat -> Manager * list nat -> Prop :=
| wstep_manager m m' stopping : step m m' -> wstep (m, stopping) (m', stopping)
| wstep_drops oid s m stopping :
    heap m !! oid = Some s -> client s = true ->
    wstep (m, stopping) (shutdown_disconnect [oid] m, oid :: stopping)
| wstep_stopped oid m l1 l2 : wstep (m, l1 ++ oid :: l2) (m, l1 ++ l2).

Definition wreachable (w : Manager * list nat) : Prop := rtc wstep (init_manager, []) w.

(** A CLI of the object may run: attached, starting, or dropped by a route and not yet stopped. *)
Definition cli_may_run (w : Manager * list nat) (oid : nat) : Prop :=
  (exists s, heap w.1 !! oid = Some s /\ (client s = true \/ client_starting s = true)) \/ oid ∈ w.2.

Lemma wreachable_manager w : wreachable w -> reachable w.1.
Proof.
  intros H. refine (rtc_invariant wstep (fun w => reachable w.1) _ w _ H (rtc_refl _ _)).
  intros a b Ha Hs. destruct Hs as [m m' l Hs|oid s m l Hs Hc|oid m l1 l2]; simpl in *; [| |done];
    (eapply rtc_r; [exact Ha|]); [done|]. apply step_disconnect.
Qed.

Lemma manager_ok m : reachable m -> ok m /\ capped max_live m.
Proof.
  intros H. apply (rtc_invariant step (fun m => ok m /\ capped max_live m) init_manager m);
    [|exact H|].
  - intros a b [Ha Hc] Hs. destruct (step_safe a b Ha Hc Hs) as (H1 & _ & H3). done.
  - split; [apply init_ok|]. intros Hp. unfold nlive. simpl. lia.
Qed.
End steps.

(** ** Sessions in use stay *)

Section keeps.
Context (max_live age_cap min_idle : Z) (lru : bool) (default_ttl : Z) (c : Ctx).
Hypothesis Hloop : has_loop c = true.
(** A live session that is in use and has not expired. *)
Context (sid : string) (oid : nat) (s : Session).
Hypothesis Hbusy : busy s = true.
Hypothesis Hexp : is_expired age_cap c s = false.

Definition here (m : Manager) : Prop :=
  dict_get (sessions m) sid = Some oid /\ heap m !! oid = Some s.

Lemma release_heap_ne o fin m :
  o <> oid -> heap (release_session_dirs o fin m) !! oid = heap m !! oid.
Proof.
  intros Hne. unfold release_session_dirs. destruct (heap m !! o) as [x|] eqn:E; [|done].
  destruct (client_starting x); [|done]. simpl. by rewrite lookup_alter_ne by done.
Qed.

Lemma here_drop k m m' :
  here m -> k <> sid -> sessions m' = sessions (drop_session k m) ->
  heap m' !! oid = heap m !! oid -> here m'.
Proof.
  intros [H1 H2] Hne Es Eh. split; [|by rewrite Eh]. rewrite Es. simpl. by rewrite dict_get_del_ne.
Qed.

Lemma here_expired m o : here m -> expired_at age_cap c m o = true -> o <> oid.
Proof. intros [_ H] He ->. unfold expired_at in He. rewrite H in He. congruence. Qed.

(** The object under another key is another object. *)
Lemma here_key m k o : here m -> dict_get (sessions m) k = Some o -> o <> oid -> k <> sid.
Proof. intros [H _] Hk Hne ->. congruence. Qed.

Lemma remove_if_expired_here k m : here m -> here (remove_if_expired age_cap c k m).1.
Proof.
  intros H. unfold remove_if_expired. destruct (dict_get (sessions m) k) as [o|] eqn:Hk; [|done].
  destruct (expired_at age_cap c m o) eqn:He; [|done].
  pose proof (here_expired m o H He) as Hne. pose proof (here_key m k o H Hk Hne) as Hks.
  rewrite Hloop. repeat case_match; simpl; apply (here_drop k m); try done;
    [by rewrite release_sessions|by rewrite release_heap_ne].
Qed.

Lemma purge_sync_here m : ok m -> here m -> here (purge_all_expired_sync age_cap c m).
Proof.
  intros Hok H. unfold purge_all_expired_sync.
  assert (Hl : forall e, e ∈ expired_entries age_cap c m -> e.2 <> oid /\ e.1 <> sid).
  { intros [k o] Hin. pose proof (proj2 (expired_entries_ok age_cap c m Hok) _ Hin) as Hd.
    unfold expired_entries in Hin. apply list_elem_of_filter in Hin as [He _]. simpl in *.
    pose proof (here_expired m o H He). split; [done|]. by apply (here_key m k o). }
  revert Hl H. clear Hok. generalize (expired_entries age_cap c m). intros l. revert m.
  induction l as [|e l IH]; intros m Hl H; [done|]. simpl.
  apply IH; [intros e' He'; apply Hl; by right|].
  destruct (Hl e) as [H1 H2]; [by left|]. unfold purge_one_sync. repeat case_match; try done.
  apply (here_drop e.1 m); [done|done|simpl; by rewrite release_sessions|].
  simpl. by apply release_heap_ne.
Qed.

Lemma purge_one_here e m : here m -> here (purge_one age_cap c m e).
Proof.
  intros H. unfold purge_one. destruct (dict_get (sessions m) e.1) as [o|] eqn:Hk; [|done].
  destruct (_ && _) eqn:He; [|done]. apply andb_true_iff in He as [_ He].
  pose proof (here_expired m o H He) as Hne. apply (here_drop e.1 m); [done|by apply (here_key m e.1 o)|done|done].
Qed.

Lemma try_evict_here m : ok m -> here m -> here (try_evict_lru age_cap min_idle c m).1.
Proof.
  intros Hok H. unfold try_evict_lru.
  pose proof (scan_spec age_cap min_idle c Hloop _ (sort_sorted age_cap c (live m))) as Hs.
  destruct (scan _ _ _ _) as [[o v]|]; [|done]. destruct Hs as (Hin & Hev & _).
  rewrite sort_elem in Hin. apply (live_get m o v Hok) in Hin as [Hd Hv].
  assert (o <> oid) as Hne.
  { intros ->. destruct H as [_ H]. assert (v = s) as -> by congruence.
    unfold evictable in Hev. simpl in Hev. by rewrite Hbusy in Hev. }
  pose proof (here_key m _ o H Hd Hne) as Hks. simpl.
  destruct (client v); apply (here_drop (session_id v) m); try done; simpl;
    [by rewrite release_sessions|by rewrite release_heap_ne].
Qed.

Lemma has_room_here m : ok m -> here m -> here (has_room max_live age_cap min_idle lru c m).1.
Proof.
  intros Hok H. unfold has_room. destruct (_ <=? _); [done|]. destruct (_ <? _); [done|].
  pose proof (purge_sync_here m Hok H) as H1.
  pose proof (proj1 (purge_sync_evolves age_cap c m Hok)) as Hok1.
  set (m1 := purge_all_expired_sync age_cap c m) in *. destruct (_ <? _); [done|].
  assert (H2 : here (if lru then try_evict_lru age_cap min_idle c m1 else (m1, false)).1).
  { destruct lru; [by apply try_evict_here|done]. }
  cbv zeta. cbn [fst]. unfold schedule_sweep. rewrite Hloop. destruct (existsb _ _); exact H2.
Qed.

Lemma install_here k x m : ok m -> here m -> k <> sid -> here (install c k x m).1.
Proof.
  intros Hok [H1 H2] Hne. unfold install. case_match; [done|]. split; simpl.
  - by rewrite dict_get_set_ne.
  - rewrite lookup_insert_ne; [done|]. intros E. pose proof (fresh_oid_new m) as Hf. congruence.
Qed.

(** A lookup of another id keeps the session, one of its own id returns it. *)
Lemma cached_session_here k m :
  ok m -> here m -> k <> sid -> here (cached_session age_cap c k m).1.
Proof.
  intros Hok H Hne. pose proof (remove_if_expired_here k m H) as H1. unfold cached_session.
  destruct (dict_get _ k) as [o|] eqn:Hk; [|done]. simpl.
  destruct H1 as [H1 H2]. split; [done|]. simpl. rewrite lookup_alter_ne; [done|].
  intros ->. pose proof (proj1 (remove_if_expired_evolves age_cap c Hloop k m Hok)) as Hok1.
  destruct (ok_live _ Hok1 _ _ Hk) as (x & E1 & E2), (ok_live _ Hok1 _ _ H1) as (y & E3 & E4).
  congruence.
Qed.

Lemma cached_session_own m :
  here m -> cached_session age_cap c sid m = (update oid (touch (now c)) m, Some oid).
Proof.
  intros [H1 H2]. unfold cached_session, remove_if_expired, expired_at.
  rewrite H1, H2, Hexp. simpl. by rewrite H1.
Qed.
End keeps.

(** ** Properties *)

(** C11. The cap holds in every reachable state, whatever requests, expiries, evictions,
    rehydrations and teardowns interleave; and each id names one session object, which
    carries that id and no other. *)
Theorem live_sessions_capped max_live age_cap min_idle lru default_ttl m :
  reachable max_live age_cap min_idle lru default_ttl m ->
  (0 < max_live -> Z.of_nat (length (sessions m)) <= max_live) /\
  NoDup (dict_keys (sessions m)) /\
  (forall sid oid, dict_get (sessions m) sid = Some oid ->
     exists s, heap m !! oid = Some s /\ session_id s = sid /\
       forall sid', dict_get (sessions m) sid' = Some oid -> sid' = sid).
Proof.
  intros Hr. destruct (manager_ok _ _ _ _ _ m Hr) as [Hok Hcap]. split_and!; [done|apply (ok_wf _ Hok)|].
  intros sid oid Hd. destruct (ok_live _ Hok _ _ Hd) as (s & Hs & Hid). exists s.
  split_and!; [done|done|]. intros sid' Hd'. destruct (ok_live _ Hok _ _ Hd') as (s' & Hs' & Hid').
  congruence.
Qed.

(** C3. Nothing of a session is given away under its CLI, but in three cases.  Whenever a step
    of the process removes a session's workspace (and with it, under uid isolation, the lease
    of its uid), removes its session-env directory or drops its owner lock, no CLI of that
    session is attached to it, starting, or being stopped, unless a route has dropped its
    client and is still stopping it, or the step is the last half of a shutdown or
    [delete_session], which cannot wait.  A session whose client is starting is spared in
    these cases too. *)
Theorem no_release_under_cli max_live age_cap min_idle lru default_ttl w w' :
  wreachable max_live age_cap min_idle lru default_ttl w ->
  wstep max_live age_cap min_idle lru default_ttl w w' ->
  exists ev, log w'.1 = log w.1 ++ ev /\ forall e, e ∈ ev ->
    (exists s, heap w'.1 !! event_oid e = Some s /\ client_starting s = false) /\
    (cli_may_run w' (event_oid e) -> event_oid e ∈ w.2 \/ forced w.1 w'.1 (event_oid e)).
Proof.
  intros Hr Hs. apply wreachable_manager in Hr. destruct (manager_ok _ _ _ _ _ _ Hr) as [Hok Hcap].
  destruct Hs as [m m' l Hs|oid s m l Hs Hc|oid m l1 l2]; simpl in *;
    [|exists []; rewrite app_nil_r; (split; [done|]); by intros e ?%elem_of_nil..].
  destruct (step_safe _ _ _ _ _ _ _ Hok Hcap Hs) as (_ & (ev & El & H) & _). exists ev. split; [done|].
  intros e He. destruct (H e He) as (s & Hs' & Hst & Hc). split; [by exists s|].
  intros [(s' & E & Hcl)|Hin]; [|by left]. simpl in E. simplify_eq. right. apply Hc. destruct Hcl; congruence.
Qed.

(** No session is lost with what it owns: in a reachable state every session object
    ever created is in the dictionary, has had its owner lock dropped (the last act of
    its release), has a disconnect under way that ends in its release, or is left to the
    request that is starting its client.  When no disconnect and no start is pending,
    what is not live was released. *)
Theorem sessions_accounted max_live age_cap min_idle lru default_ttl m oid s :
  reachable max_live age_cap min_idle lru default_ttl m -> heap m !! oid = Some s ->
  accounted m oid s /\
  (teardowns m = [] -> client_starting s = false ->
   dict_get (sessions m) (session_id s) = Some oid \/
   OwnerReleased (session_id s) oid ∈ log m).
Proof.
  intros Hr Hs. destruct (manager_ok _ _ _ _ _ m Hr) as [Hok _].
  pose proof (ok_acc _ Hok _ _ Hs) as H. split; [done|]. intros Ht Hst.
  destruct H as [H|[H|[[fin H]|H]]]; [by left|by right| |congruence].
  rewrite Ht in H. by apply elem_of_nil in H.
Qed.

(** LRU eviction picks well.  A victim is a live session that is not in use and is
    expired or idle for the minimum time; no such session comes before it (expired
    ones first, then by last access); and when there is no victim no session
    qualifies, although the scan stops at the first one under the idle floor. *)
Theorem eviction_picks_least_recent age_cap min_idle c m :
  has_loop c = true -> ok m ->
  let r := try_evict_lru age_cap min_idle c m in
  (r.2 = true -> exists oid s,
     dict_get (sessions m) (session_id s) = Some oid /\ heap m !! oid = Some s /\
     evictable age_cap min_idle c s = true /\
     (forall oid' s', (oid', s') ∈ live m -> evictable age_cap min_idle c s' = true ->
        key_le age_cap c s s' = true) /\
     dict_get (sessions r.1) (session_id s) = None /\
     (if client s then teardowns r.1 = teardowns m ++ [(oid, false)] else teardowns r.1 = teardowns m)) /\
  (r.2 = false -> r.1 = m /\
     forall oid' s', (oid', s') ∈ live m -> evictable age_cap min_idle c s' = false).
Proof.
  intros Hl Hok. unfold try_evict_lru.
  pose proof (scan_spec age_cap min_idle c Hl _ (sort_sorted age_cap c (live m))) as Hs.
  destruct (scan _ _ _ _) as [[oid s]|]; simpl.
  - split; [intros _|done]. destruct Hs as (Hin & Hev & Hmin). rewrite sort_elem in Hin.
    destruct (live_get m oid s Hok Hin) as [Hd Hs].
    exists oid, s. split_and!; try done.
    + intros oid' s' Hin' Hev'. apply (Hmin (oid', s')); [by rewrite sort_elem|done].
    + destruct (client s); simpl; rewrite ?release_sessions; apply dict_get_del_eq, (ok_wf _ Hok).
    + destruct (client s); simpl; [done|by rewrite release_teardowns].
  - split; [done|]. intros _. split; [done|]. intros oid' s' Hin.
    apply (Hs (oid', s')). by rewrite sort_elem.
Qed.

(** A session in use stays: while it is mid-turn with progress, waiting on a card or
    starting its client, and has not expired, no admission of another session (cap
    sweep and eviction included), lookup, listing or expiry sweep removes it or touches
    it, and every lookup or rehydration of its own id returns this very object. *)
Theorem sessions_in_use_stay max_live age_cap min_idle lru default_ttl c m sid oid s :
  has_loop c = true -> ok m -> busy s = true -> is_expired age_cap c s = false ->
  dict_get (sessions m) sid = Some oid -> heap m !! oid = Some s ->
  (forall k t mt snapshot, k <> sid -> forall m',
     m' ∈ [(get_or_create max_live age_cap min_idle lru default_ttl c k m).1;
           (admit_rehydrated max_live age_cap min_idle lru c k t mt m).1;
           (peek_session age_cap c k m).1; (list_sessions age_cap c m).1;
           purge_all_expired age_cap c snapshot m] ->
     dict_get (sessions m') sid = Some oid /\ heap m' !! oid = Some s) /\
  (get_or_create max_live age_cap min_idle lru default_ttl c sid m).2 = Ok oid /\
  (forall t mt, (admit_rehydrated max_live age_cap min_idle lru c sid t mt m).2 = Ok (Some oid)).
Proof.
  intros Hl Hok Hb He Hd Hs. assert (H : here sid oid s m) by done.
  split; [|unfold get_or_create, admit_rehydrated;
           rewrite (cached_session_own age_cap c sid oid s He m H); done].
  intros k t mt sn Hne m' Hin.
  pose proof (cached_session_here age_cap c Hl sid oid s He k m Hok H Hne) as Hc.
  pose proof (proj1 (proj1 (proj1 (cached_session_spec age_cap c Hl k m Hok)))) as Hok1.
  pose proof (has_room_here max_live age_cap min_idle lru c Hl sid oid s Hb He _ Hok1 Hc) as Hr.
  pose proof (proj1 (proj1 (proj1 (has_room_spec max_live age_cap min_idle lru c Hl _ Hok1)))) as Hok2.
  assert (Hi : forall x, here sid oid s
    (install c k x (has_room max_live age_cap min_idle lru c (cached_session age_cap c k m).1).1).1).
  { intros x. by apply install_here. }
  rewrite !elem_of_cons, elem_of_nil in Hin. destruct Hin as [->|[->|[->|[->|[->|[]]]]]].
  - unfold get_or_create. destruct (cached_session _ _ _ _) as [m1 [o|]]; [done|]. simpl in *.
    destruct (has_room _ _ _ _ _ m1) as [m2 []]; [apply Hi|done].
  - unfold admit_rehydrated. destruct (cached_session _ _ _ _) as [m1 [o|]]; [done|]. simpl in *.
    destruct t as [t|]; [|done]. destruct (match mt with Some n => _ | None => _ end); [done|].
    destruct (has_room _ _ _ _ _ m1) as [m2 []]; [|done]. simpl in *.
    specialize (Hi (new_session c k (Some (tr_user t)) (Some (tr_cwd t)) REHYDRATED_TTL (tr_turns t))).
    by destruct (install _ _ _ _) as [m3 [?|?]].
  - apply (remove_if_expired_here age_cap c Hl sid oid s He k m H).
  - by apply (purge_sync_here age_cap c sid oid s He m Hok H).
  - unfold purge_all_expired. assert (H0 : here sid oid s (with_sweep false m)) by done.
    revert H0. generalize (with_sweep false m). induction sn as [|e l IH]; intros m0 H0; [done|].
    simpl. apply IH. by eapply purge_one_here.
Qed.

(** Handing a session over.  An absent or busy session changes nothing.  A released
    one was idle and is gone at once; its lock is poisoned before anything is awaited,
    so no request that still holds the object can start a turn on it; and the owner
    lock, which lets another instance resume it, is dropped at once only without a
    client, otherwise by the teardown that first stops the client. *)
Theorem handoff_spec sid m :
  ok m -> let r := release_for_handoff sid m in
  match r.2 with
  | HAbsent => r.1 = m /\ dict_get (sessions m) sid = None
  | HBusy => r.1 = m /\ exists oid s, dict_get (sessions m) sid = Some oid /\
      heap m !! oid = Some s /\ locked s || busy s = true
  | HReleased => exists oid s s',
      dict_get (sessions m) sid = Some oid /\ heap m !! oid = Some s /\
      locked s = false /\ busy s = false /\
      dict_get (sessions r.1) sid = None /\
      heap r.1 !! oid = Some s' /\ lock_acquire s' = Err "handed off" /\
      (if client s then (oid, false) ∈ teardowns r.1 /\ log r.1 = log m
       else exists ev, log r.1 = log m ++ ev ++ [OwnerReleased sid oid])
  end.
Proof.
  intros Hok. unfold release_for_handoff. destruct (dict_get (sessions m) sid) as [oid|] eqn:Hd; [|done].
  destruct (ok_live _ Hok _ _ Hd) as (s & Hs & Hid). rewrite Hs.
  destruct (locked s || busy s) eqn:Hb; simpl; [split; [done|]; by exists oid, s|].
  pose proof Hb as Hb'. apply orb_false_iff in Hb' as [Hlk Hbz].
  assert (Hst : client_starting s = false).
  { unfold busy in Hbz. by apply orb_false_iff in Hbz as [_ ?]. }
  set (m1 := update oid poison (drop_session sid m)).
  assert (Hs1 : heap m1 !! oid = Some (poison s)).
  { unfold m1. by rewrite (update_lookup _ _ _ _ s), decide_True. }
  assert (Hgone : dict_get (sessions m1) sid = None) by apply dict_get_del_eq, (ok_wf _ Hok).
  exists oid, s, (poison s). split_and!; try done.
  - destruct (client s); [done|by rewrite release_sessions].
  - destruct (client s); [done|]. unfold release_session_dirs. rewrite Hs1. simpl client_starting.
    by rewrite Hst.
  - destruct (client s); [split; [simpl; apply elem_of_app; right; by apply list_elem_of_singleton|done]|].
    unfold release_session_dirs. rewrite Hs1. simpl client_starting. rewrite Hst.
    unfold release_events. simpl log. rewrite <- Hid.
    eexists. f_equal. rewrite app_assoc. done.
Qed.

Lemma shutdown_disconnect_client l m oid s :
  heap (shutdown_disconnect l m) !! oid = Some s ->
  exists s0, heap m !! oid = Some s0 /\ session_id s = session_id s0 /\
    client_starting s = client_starting s0 /\ client s = (if decide (oid ∈ l) then false else client s0).
Proof.
  unfold shutdown_disconnect. revert m. induction l as [|o l IH]; intros m H; [by exists s|].
  simpl in H. destruct (IH _ H) as (s1 & E & E1 & E2 & E3).
  apply update_inv in E as (s0 & E & ->). exists s0. split; [done|].
  destruct (decide (oid = o)) as [->|Hne]; simpl in *.
  - split_and!; [done|done|]. rewrite (decide_True (P := o ∈ o :: l)) by (by left).
    rewrite E3. by case_decide.
  - split_and!; [done|done|]. rewrite E3. do 2 case_decide; try done; set_solver.
Qed.

(** Releasing every entry of the dictionary. *)
Lemma release_all l m :
  ok m -> (forall e, e ∈ l -> exists s, heap m !! e.2 = Some s /\ client s = false) ->
  evolves m (release_entries l m) /\
  forall e s, e ∈ l -> heap m !! e.2 = Some s -> client_starting s = false ->
    OwnerReleased (session_id s) e.2 ∈ log (release_entries l m).
Proof.
  intros Hok Hl. split; [|apply release_entries_any; [done|]; intros e He; destruct (Hl e He) as (s & Hs & _); eauto].
  revert m Hok Hl. induction l as [|e l IH]; intros m Hok Hl; [by apply evolves_refl|].
  destruct (Hl e) as (s & Hs & Hc); [by left|].
  pose proof (evolves_release m e.2 s false Hok Hs Hc) as H1. apply (evolves_trans _ _ _ H1), IH; [apply H1|].
  intros e' He'. destruct (Hl e') as (s' & Hs' & Hc'); [by right|].
  destruct (release_alike e.2 false m _ _ Hs') as (s2 & E & _ & E2 & _). exists s2.
  split; [done|congruence].
Qed.

Lemma shutdown_disconnect_sessions l m : sessions (shutdown_disconnect l m) = sessions m.
Proof.
  unfold shutdown_disconnect. revert m. induction l as [|o l IH]; intros m; [done|]. simpl. by rewrite IH.
Qed.

(** A shutdown that nothing interrupts loses nothing: it empties the dictionary,
    releases every session once its client is stopped, and leaves to the requests that
    are starting a client their own sessions. *)
Theorem shutdown_releases_all m :
  ok m ->
  let m1 := shutdown_disconnect (dict_values (sessions m)) m in
  let m' := shutdown_clear m1 in
  sessions m' = [] /\
  (exists ev, log m' = log m ++ ev /\ forall e, e ∈ ev -> stopped m' (event_oid e)) /\
  forall k oid, dict_get (sessions m) k = Some oid -> exists s, heap m' !! oid = Some s /\
    client s = false /\ (OwnerReleased k oid ∈ log m' \/ client_starting s = true).
Proof.
  intros Hok m1 m'. pose proof (shutdown_disconnect_evolves (dict_values (sessions m)) m Hok) as H1.
  fold m1 in H1. assert (Es : sessions m1 = sessions m) by apply shutdown_disconnect_sessions.
  assert (Hl : forall e, e ∈ sessions m1 -> exists s, heap m1 !! e.2 = Some s /\
    client s = false /\ session_id s = e.1).
  { intros [k o] He. pose proof (dict_elem_get _ _ _ (ok_wf _ (proj1 H1)) He) as Hd.
    destruct (ok_live _ (proj1 H1) _ _ Hd) as (s & Hs & Hid). exists s. split_and!; [done| |done].
    destruct (shutdown_disconnect_client _ _ _ _ Hs) as (s0 & _ & _ & _ & ->).
    rewrite decide_True; [done|]. rewrite Es in He. apply list_elem_of_fmap. by exists (k, o). }
  destruct (release_all (sessions m1) m1 (proj1 H1)) as [H2 H3].
  { intros e He. destruct (Hl e He) as (s & ? & ? & _). eauto. }
  assert (H4 : evolves m (release_entries (sessions m1) m1)) by by eapply evolves_trans.
  split; [done|]. split; [destruct H4 as (_ & (ev & El & Hev) & _); exists ev; by split|].
  intros k oid Hd. assert (Hin : (k, oid) ∈ sessions m1) by (rewrite Es; by apply dict_get_elem).
  destruct (Hl _ Hin) as (s & Hs & Hc & Hid). simpl in Hs, Hid.
  destruct (release_entries_alike (sessions m1) m1 oid s Hs) as (s' & Hs' & E1 & E2 & E3).
  exists s'. split; [done|]. split; [congruence|]. destruct (client_starting s) eqn:Hst; [by right|].
  left. rewrite <- Hid. exact (H3 (k, oid) s Hin Hs Hst).
Qed.

(** ** Concrete runs: a cap of one session, LRU eviction, no idle floor *)

Definition at_time (t : Z) : Ctx := mkCtx t t true false true.

Definition demo1 : Manager := (get_or_create 1 0 0 true 1000 (at_time 0) "a" init_manager).1.
Definition demo2 : Manager := (get_or_create 1 0 0 true 1000 (at_time 10) "b" demo1).1.

Lemma demo1_reachable : reachable 1 0 0 true 1000 demo1.
Proof. apply rtc_once. exact (step_get_or_create 1 0 0 true 1000 (at_time 0) "a" init_manager eq_refl). Qed.

Lemma demo2_step : step 1 0 0 true 1000 demo1 demo2.
Proof. exact (step_get_or_create 1 0 0 true 1000 (at_time 10) "b" demo1 eq_refl). Qed.

Lemma demo1_ok : ok demo1.
Proof. exact (proj1 (manager_ok _ _ _ _ _ _ demo1_reachable)). Qed.

Lemma live_sessions_capped_witness :
  dict_keys (sessions demo2) = ["b"] /\ Z.of_nat (length (sessions demo2)) <= 1.
Proof.
  split; [vm_compute; reflexivity|].
  refine (proj1 (live_sessions_capped 1 0 0 true 1000 demo2 _) _); [|lia].
  eapply rtc_r; [exact demo1_reachable|exact demo2_step].
Defined.

Lemma no_release_under_cli_witness :
  log demo2 = [SessionEnvRemoved "a" 0; OwnerReleased "a" 0] /\
  exists ev, log demo2 = log demo1 ++ ev /\ forall e, e ∈ ev ->
    (exists s, heap demo2 !! event_oid e = Some s /\ client_starting s = false) /\
    (cli_may_run (demo2, []) (event_oid e) -> event_oid e ∈ [] \/ forced demo1 demo2 (event_oid e)).
Proof.
  split; [vm_compute; reflexivity|].
  refine (no_release_under_cli 1 0 0 true 1000 (demo1, []) (demo2, []) _ _).
  - apply rtc_once, wstep_manager. exact (step_get_or_create 1 0 0 true 1000 (at_time 0) "a" init_manager eq_refl).
  - apply wstep_manager, demo2_step.
Defined.

Definition demo_session : Session := new_session (at_time 0) "a" None None 1000 0.

Lemma demo1_heap : heap demo1 !! 0%nat = Some demo_session.
Proof. vm_compute. reflexivity. Qed.

Lemma sessions_accounted_witness :
  dict_get (sessions demo1) "a" = Some 0%nat \/ OwnerReleased "a" 0 ∈ log demo1.
Proof.
  refine (proj2 (sessions_accounted 1 0 0 true 1000 demo1 0 demo_session demo1_reachable demo1_heap) _ _);
    reflexivity.
Defined.

Lemma eviction_picks_least_recent_witness :
  (try_evict_lru 0 0 (at_time 10) demo1).2 = true /\
  exists oid s, dict_get (sessions demo1) (session_id s) = Some oid /\
    evictable 0 0 (at_time 10) s = true.
Proof.
  split; [vm_compute; reflexivity|].
  destruct (proj1 (eviction_picks_least_recent 0 0 (at_time 10) demo1 eq_refl demo1_ok))
    as (oid & s & H1 & _ & H3 & _).
  - vm_compute. reflexivity.
  - exists oid, s. split; assumption.
Defined.

(** Session "a" starts its client: at the cap, a request for "b" is refused. *)
Definition demo3 : Manager := begin_client_start 0 demo1.
Definition starting_session : Session := set_client false true None demo_session.

Lemma demo3_ok : ok demo3.
Proof. exact (begin_ok 0 demo_session demo1 demo1_ok demo1_heap eq_refl). Qed.

Lemma sessions_in_use_stay_witness :
  (get_or_create 1 0 0 true 1000 (at_time 10) "b" demo3).2 = Err SessionLimitExceeded /\
  (get_or_create 1 0 0 true 1000 (at_time 10) "a" demo3).2 = Ok 0%nat.
Proof.
  split; [vm_compute; reflexivity|].
  apply (proj1 (proj2 (sessions_in_use_stay 1 0 0 true 1000 (at_time 10) demo3 "a" 0
    starting_session eq_refl demo3_ok eq_refl eq_refl eq_refl eq_refl))).
Defined.

Lemma handoff_spec_witness :
  (release_for_handoff "a" demo1).2 = HReleased /\
  dict_get (sessions (release_for_handoff "a" demo1).1) "a" = None.
Proof.
  split; [vm_compute; reflexivity|].
  pose proof (handoff_spec "a" demo1 demo1_ok) as H. simpl in H.
  destruct H as (oid & s & s' & _ & _ & _ & _ & H & _). exact H.
Defined.

Lemma shutdown_releases_all_witness :
  sessions (shutdown_clear (shutdown_disconnect (dict_values (sessions demo3)) demo3)) = [] /\
  log (shutdown_clear (shutdown_disconnect (dict_values (sessions demo3)) demo3)) = [].
Proof.
  split; [|vm_compute; reflexivity]. exact (proj1 (shutdown_releases_all demo3 demo3_ok)).
Defined.

(** A client start that ends between the two halves of a shutdown: the session is still
    in the dictionary, so its new client is handed over, and the second half releases
    the session's directories and its owner lock with that client running. *)
Example shutdown_releases_under_new_client :
  let m1 := shutdown_disconnect (dict_values (sessions demo3)) demo3 in
  let r := finish_client_start "a" 0 true m1 in
  let m2 := shutdown_clear r.1 in
  r.2 = true /\ log m2 = [SessionEnvRemoved "a" 0; OwnerReleased "a" 0] /\
  exists s, heap m2 !! 0%nat = Some s /\ client s = true.
Proof. split; [vm_compute; reflexivity|]. split; [vm_compute; reflexivity|]. eexists. split; vm_compute; reflexivity. Qed.

(** [delete_session] cannot await a disconnect: with a client it releases under it (its
    docstring sends such callers to [delete_session_async]). *)
Example sync_delete_releases_under_client :
  let m1 := (finish_client_start "a" 0 true demo3).1 in
  log (delete_session "a" m1).1 = [SessionEnvRemoved "a" 0; OwnerReleased "a" 0].
Proof. vm_compute. reflexivity. Qed.

(** A session that is deleted while a route stops the client it dropped: everything is released
    with that CLI still running. *)
Example delete_overtakes_disconnect :
  let m1 := (finish_client_start "a" 0 true demo3).1 in
  let m2 := shutdown_disconnect [0%nat] m1 in
  wstep 1 0 0 true 1000 (m1, []) (m2, [0%nat]) /\
  wstep 1 0 0 true 1000 (m2, [0%nat]) ((delete_session_async "a" true m2).1, [0%nat]) /\
  log (delete_session_async "a" true m2).1 = [SessionEnvRemoved "a" 0; OwnerReleased "a" 0].
Proof.
  split_and!; [|apply wstep_manager, step_delete|vm_compute; reflexivity].
  eapply wstep_drops; vm_compute; reflexivity.
Qed.
