(* ===== verification/StreamSanitizer.v ===== *)
(** The clean-up of the Anthropic Messages event stream (src/src/sanitizer/stream_sanitizer.py).

    [sanitize_events] is an async generator: for each upstream event it yields some
    events and goes on with a new state, or raises.  [sanitize_step] is one turn of its
    [async for], [sanitize_from] the loop from a state.  Events are arbitrary JSON
    values.  [conforming] states the promises of the docstring on the output alone,
    without the one it does not keep (a delta of an unknown type need not be in an open
    block), and the theorems show that they hold, that a second pass changes nothing, and that
    no content is lost or reordered. *)

From S2P Require Import Prelude Json.

Inductive PyErr : Type := AttributeError | TypeError.

(** [DELTA_COMPATIBLE_BLOCKS] *)
Definition DELTA_COMPATIBLE_BLOCKS : odict string (list string) :=
  [("text_delta", ["text"]);
   ("thinking_delta", ["thinking"]);
   ("signature_delta", ["thinking"]);
   ("input_json_delta", ["tool_use"; "server_tool_use"])].

(** [DELTA_PRIMARY_BLOCK] *)
Definition DELTA_PRIMARY_BLOCK : odict string string :=
  [("text_delta", "text");
   ("thinking_delta", "thinking");
   ("signature_delta", "thinking");
   ("input_json_delta", "tool_use")].

(** [_is_empty_delta(delta)], for a dictionary [delta]. *)
Definition _is_empty_delta (delta : Json) : bool :=
  let dt := jget_null delta "type" in
  if is_str dt "text_delta" then negb (truthy (jget_null delta "text"))
  else if is_str dt "thinking_delta" then negb (truthy (jget_null delta "thinking"))
  else if is_str dt "signature_delta" then negb (truthy (jget_null delta "signature"))
  else if is_str dt "input_json_delta" then negb (truthy (jget_null delta "partial_json"))
  else false.

(** [_synthetic_block(block_type)] *)
Definition _synthetic_block (block_type : string) : Json :=
  if bool_decide (block_type = "text") then
    JObj [("type", JStr "text"); ("text", JStr "")]
  else if bool_decide (block_type = "thinking") then
    JObj [("type", JStr "thinking"); ("thinking", JStr "")]
  else if bool_decide (block_type = "tool_use") then
    JObj [("type", JStr "tool_use"); ("id", JStr ""); ("name", JStr ""); ("input", JObj [])]
  else JObj [("type", JStr block_type)].

(** The local variables of [sanitize_events]. *)
Record San := MkSan {
  seen_message_start : bool;
  current_index : Z;
  current_block_type : Json;
}.

Definition san0 : San := MkSan false (-1) JNull.

Definition is_none (v : Json) : bool := match v with JNull => true | _ => false end.

(** [_close_current()] *)
Definition _close_current (s : San) : Json :=
  JObj [("type", JStr "content_block_stop"); ("index", JInt (current_index s))].

(** [if current_block_type is not None: yield _close_current()] *)
Definition close_if_open (s : San) : list Json :=
  if is_none (current_block_type s) then [] else [_close_current s].

(** [current_block_type = None] where it was not. *)
Definition no_block (s : San) : San := MkSan (seen_message_start s) (current_index s) JNull.

(** [x in frozenset(l)] for a set of strings: hashing a list or a dictionary raises. *)
Definition in_frozenset (x : Json) (l : list string) : result PyErr bool :=
  match x with
  | JArr _ | JObj _ => Err TypeError
  | JStr s => Ok (bool_decide (s ∈ l))
  | _ => Ok false
  end.

(** [delta_type_raw if isinstance(delta_type_raw, str) else ""] *)
Definition delta_type_of (delta : Json) : string :=
  match jget_null delta "type" with JStr t => t | _ => "" end.

(** [evt.get("delta", {}) or {}] *)
Definition delta_of (evt : Json) : Json :=
  let d := default (JObj []) (jget evt "delta") in
  if truthy d then d else JObj [].

(** The branch [etype == "content_block_start"]. *)
Definition on_block_start (s : San) (evt : Json) : list Json * result PyErr San :=
  match default (JObj []) (jget evt "content_block") with
  | JObj _ as block =>
      let idx := current_index s + 1 in
      (close_if_open s ++ [jset evt "index" (JInt idx)],
       Ok (MkSan (seen_message_start s) idx (jget_null block "type")))
  | _ => (close_if_open s, Err AttributeError)
  end.

(** The synthetic start of a block that can hold [delta_type], and the state after it. *)
Definition open_synthetic (s : San) (delta_type : string) : list Json * San :=
  let idx := current_index s + 1 in
  let primary := default "text" (dict_get DELTA_PRIMARY_BLOCK delta_type) in
  (close_if_open s ++
     [JObj [("type", JStr "content_block_start"); ("index", JInt idx);
            ("content_block", _synthetic_block primary)]],
   MkSan (seen_message_start s) idx (JStr primary)).

(** The branch [etype == "content_block_delta"]. *)
Definition on_block_delta (s : San) (evt : Json) : list Json * result PyErr San :=
  let delta := delta_of evt in
  if negb (is_dict delta) then ([], Err AttributeError)
  else if _is_empty_delta delta then ([], Ok s)
  else
    let delta_type := delta_type_of delta in
    let fits :=
      match dict_get DELTA_COMPATIBLE_BLOCKS delta_type with
      | None => Ok true
      | Some compatible => in_frozenset (current_block_type s) compatible
      end in
    match fits with
    | Err e => ([], Err e)
    | Ok true => ([jset evt "index" (JInt (current_index s))], Ok s)
    | Ok false =>
        let '(opened, s') := open_synthetic s delta_type in
        (opened ++ [jset evt "index" (JInt (current_index s'))], Ok s')
    end.

(** One turn of the loop of [sanitize_events]. *)
Definition sanitize_step (s : San) (evt : Json) : list Json * result PyErr San :=
  if negb (is_dict evt) then ([], Err AttributeError)
  else
    let etype := jget_null evt "type" in
    if is_str etype "message_start" then
      if seen_message_start s then ([], Ok s)
      else ([evt], Ok (MkSan true (current_index s) (current_block_type s)))
    else if is_str etype "content_block_start" then on_block_start s evt
    else if is_str etype "content_block_delta" then on_block_delta s evt
    else if is_str etype "content_block_stop" then
      if is_none (current_block_type s) then ([], Ok s)
      else ([_close_current s], Ok (no_block s))
    else if is_str etype "message_delta" then
      (close_if_open s ++ [evt], Ok (no_block s))
    else if is_str etype "message_stop" then
      (close_if_open s ++ [evt], Ok (no_block s))
    else ([evt], Ok s).

(** The loop: the events yielded, and how it ended. *)
Fixpoint sanitize_from (s : San) (upstream : list Json) : list Json * result PyErr San :=
  match upstream with
  | [] => ([], Ok s)
  | evt :: rest =>
      match sanitize_step s evt with
      | (out, Err e) => (out, Err e)
      | (out, Ok s') => let '(out', r) := sanitize_from s' rest in (out ++ out', r)
      end
  end.

Definition sanitize_events (upstream : list Json) : list Json * result PyErr San :=
  sanitize_from san0 upstream.

(** ** The promises of the docstring, on a stream of events *)

Definition etype_is (e : Json) (t : string) : bool := is_str (jget_null e "type") t.
Definition is_msg_start e := etype_is e "message_start".
Definition is_start e := etype_is e "content_block_start".
Definition is_delta e := etype_is e "content_block_delta".
Definition is_stop e := etype_is e "content_block_stop".
Definition is_msg_end e := etype_is e "message_delta" || etype_is e "message_stop".

(** The type an event gives the block it starts. *)
Definition block_type (e : Json) : Json :=
  jget_null (default (JObj []) (jget e "content_block")) "type".

(** The most recent block start of the stream that no stop has closed: its type. *)
Definition open_block (out : list Json) : option Json :=
  foldl (fun o e => if is_start e then Some (block_type e)
                    else if is_stop e then None else o) None out.

(** A delta of a known type fits a block. *)
Definition delta_fits (e : Json) (b : Json) : Prop :=
  forall compatible, dict_get DELTA_COMPATIBLE_BLOCKS (delta_type_of (delta_of e)) = Some compatible ->
  exists t, b = JStr t /\ t ∈ compatible.

(** What the docstring promises of the event [e] that follows the events [pre]. *)
Record ok_next (pre : list Json) (e : Json) : Prop := {
  ok_msg_start : is_msg_start e = true -> countb is_msg_start pre = 0;
  ok_start : is_start e = true ->
    open_block pre = None /\ jget e "index" = Some (JInt (countb is_start pre));
  ok_stop : is_stop e = true ->
    is_Some (open_block pre) /\ jget e "index" = Some (JInt (countb is_start pre - 1));
  ok_delta : is_delta e = true ->
    jget e "index" = Some (JInt (countb is_start pre - 1)) /\
    delta_fits e (default JNull (open_block pre));
  ok_msg_end : is_msg_end e = true -> open_block pre = None;
}.

Definition conforming (out : list Json) : Prop :=
  forall pre e post, out = pre ++ e :: post -> ok_next pre e.

(** Every block the upstream starts says its type. *)
Definition typed_starts (upstream : list Json) : bool :=
  forallb (fun e => negb (is_start e && is_none (block_type e))) upstream.

(** ** Lemmas on the promises *)

#[local] Arguments DELTA_COMPATIBLE_BLOCKS : simpl never.
#[local] Arguments DELTA_PRIMARY_BLOCK : simpl never.
#[local] Arguments dict_get : simpl never.
#[local] Arguments jset : simpl never.

Lemma conforming_nil : conforming [].
Proof. intros [|] ? ? ?; done. Qed.

Lemma conforming_snoc out e : conforming out -> ok_next out e -> conforming (out ++ [e]).
Proof.
  intros Hc Hn pre x post Heq.
  destruct (decide (post = [])) as [->|Hp].
  - apply app_inj_tail in Heq as [-> ->]. done.
  - destruct (exists_last Hp) as (post' & y & ->).
    change (x :: post' ++ [y]) with ((x :: post') ++ [y]) in Heq. rewrite app_assoc in Heq.
    apply app_inj_tail in Heq as [-> ->]. by eapply Hc.
Qed.

Lemma open_block_snoc out e :
  open_block (out ++ [e]) =
    if is_start e then Some (block_type e) else if is_stop e then None else open_block out.
Proof. unfold open_block. by rewrite foldl_app. Qed.

Lemma countb_snoc (p : Json -> bool) out e :
  countb p (out ++ [e]) = countb p out + (if p e then 1 else 0).
Proof. rewrite countb_app. simpl. lia. Qed.

Lemma jset_dict e key x : is_dict e = true -> jget (jset e key x) key = Some x.
Proof. destruct e; try done. intros _. apply jget_jset_eq. Qed.

Lemma etype_jset e n t : etype_is (jset e "index" (JInt n)) t = etype_is e t.
Proof. unfold etype_is, jget_null. by rewrite jget_jset_ne. Qed.

Lemma block_type_jset e n : block_type (jset e "index" (JInt n)) = block_type e.
Proof. unfold block_type. by rewrite jget_jset_ne. Qed.

Lemma delta_of_jset e n : delta_of (jset e "index" (JInt n)) = delta_of e.
Proof. unfold delta_of. by rewrite jget_jset_ne. Qed.

Lemma is_str_inj v s t : is_str v s = true -> is_str v t = bool_decide (s = t).
Proof. destruct v; try done. simpl. rewrite bool_decide_eq_true. by intros ->. Qed.

(** An event has one type: knowing it settles every test of the loop. *)
Ltac etypes :=
  repeat match goal with
  | H : is_str ?v ?s = true |- context [is_str ?v ?t] => rewrite (is_str_inj v s t H)
  | H : is_str ?v ?s = true, H' : context [is_str ?v ?t] |- _ =>
      lazymatch t with s => fail | _ => rewrite (is_str_inj v s t H) in H' end
  end.

(** The state of the loop describes what it has yielded. *)
Record tracks (s : San) (out : list Json) : Prop := {
  tr_seen : seen_message_start s = false -> countb is_msg_start out = 0;
  tr_index : current_index s = countb is_start out - 1;
  tr_block : open_block out =
    if is_none (current_block_type s) then None else Some (current_block_type s);
}.

Lemma tracks0 : tracks san0 [].
Proof. by split. Qed.

(** Yielding an event that opens and closes nothing. *)
Lemma tracks_other s out e :
  tracks s out -> is_start e = false -> is_stop e = false -> is_msg_start e = false ->
  tracks s (out ++ [e]).
Proof.
  intros [H1 H2 H3] Hs Ht Hm. split.
  - rewrite countb_snoc, Hm. intros ->%H1. done.
  - rewrite countb_snoc, Hs. lia.
  - by rewrite open_block_snoc, Hs, Ht.
Qed.

(** Closing the open block, as every branch does it. *)
Lemma tracks_close s out :
  tracks s out -> conforming out ->
  tracks (no_block s) (out ++ close_if_open s) /\ conforming (out ++ close_if_open s).
Proof.
  intros Htr Hc. unfold close_if_open. destruct (is_none (current_block_type s)) eqn:En.
  - rewrite app_nil_r. split; [|done]. destruct Htr as [H1 H2 H3].
    split; simpl; [done|done|]. by rewrite H3, En.
  - destruct Htr as [H1 H2 H3]. rewrite En in H3. split.
    + split; rewrite ?countb_snoc, ?open_block_snoc; simpl; [intros ->%H1; done|lia|done].
    + apply conforming_snoc; [done|]. split; try done. intros _.
      rewrite H3. split; [done|]. simpl. by rewrite H2.
Qed.

(** Opening a block of a known type on a stream with no open block. *)
Lemma tracks_open s out e b :
  tracks (no_block s) out -> conforming out ->
  is_start e = true -> is_none b = false -> block_type e = b ->
  jget e "index" = Some (JInt (current_index s + 1)) ->
  tracks (MkSan (seen_message_start s) (current_index s + 1) b) (out ++ [e])
  /\ conforming (out ++ [e]).
Proof.
  intros [H1 H2 H3] Hc Hs Hb Ht Hi. simpl in *.
  assert (is_stop e = false /\ is_msg_start e = false) as [Hst Hm].
  { unfold is_start, is_stop, is_msg_start, etype_is in *. by etypes. }
  split.
  - split; rewrite ?countb_snoc, ?open_block_snoc, ?Hs, ?Hst, ?Hm; simpl.
    + intros ->%H1. done.
    + lia.
    + by rewrite Ht, Hb.
  - apply conforming_snoc; [done|].
    assert (is_delta e = false /\ is_msg_end e = false) as [Hd Hme].
    { unfold is_start, is_delta, is_msg_end, etype_is in *. by etypes. }
    split; try congruence. intros _. split; [done|]. rewrite Hi. do 2 f_equal. lia.
Qed.

(** Yielding a delta that fits the block. *)
Lemma tracks_delta s out e :
  tracks s out -> conforming out -> is_dict e = true -> is_delta e = true ->
  delta_fits e (current_block_type s) ->
  tracks s (out ++ [jset e "index" (JInt (current_index s))])
  /\ conforming (out ++ [jset e "index" (JInt (current_index s))]).
Proof.
  intros Htr Hc Hdict Hd Hfit.
  set (e' := jset e "index" (JInt (current_index s))).
  assert (is_delta e' = true) as Hd' by (unfold is_delta, e'; by rewrite etype_jset).
  assert (is_start e' = false /\ is_stop e' = false /\ is_msg_start e' = false /\
          is_msg_end e' = false) as (Hs & Ht & Hm & He).
  { unfold is_delta, is_start, is_stop, is_msg_start, is_msg_end, etype_is in *. by etypes. }
  split; [by apply tracks_other|]. apply conforming_snoc; [done|].
  destruct Htr as [H1 H2 H3]. split; try congruence. intros _. split.
  - unfold e'. rewrite jset_dict by done. do 2 f_equal. lia.
  - unfold delta_fits, e'. rewrite delta_of_jset. intros c Hc'.
    destruct (Hfit c Hc') as (t & Hcur & Hin). exists t. split; [|done].
    rewrite H3, Hcur. done.
Qed.

(** Every delta type the tables know has a primary block, which it fits. *)
Lemma primary_fits dt compatible :
  dict_get DELTA_COMPATIBLE_BLOCKS dt = Some compatible ->
  exists p, dict_get DELTA_PRIMARY_BLOCK dt = Some p /\ p ∈ compatible
       /\ jget_null (_synthetic_block p) "type" = JStr p.
Proof.
  unfold DELTA_COMPATIBLE_BLOCKS, DELTA_PRIMARY_BLOCK, dict_get. intros H.
  repeat case_decide; simplify_eq; eexists; (split; [done|]); split;
    try (apply list_elem_of_In; simpl; tauto); done.
Qed.

Lemma in_frozenset_true x l : in_frozenset x l = Ok true -> exists t, x = JStr t /\ t ∈ l.
Proof.
  destruct x; simpl; intros; simplify_eq.
  match goal with H : bool_decide _ = true |- _ => apply bool_decide_eq_true in H end. eauto.
Qed.

Definition typed_event (e : Json) : Prop := is_start e = true -> is_none (block_type e) = false.

Lemma typed_starts_cons e rest :
  typed_starts (e :: rest) = true -> typed_event e /\ typed_starts rest = true.
Proof.
  unfold typed_starts. simpl. intros [H1 H2]%andb_true_iff. split; [|done].
  intros Hs. rewrite Hs in H1. by apply negb_true_iff in H1.
Qed.

(** What a turn of the loop that ends in state [r] has to establish. *)
Definition keeps (out : list Json) (step : list Json * result PyErr San) : Prop :=
  conforming (out ++ fst step) /\
  forall s', snd step = Ok s' -> tracks s' (out ++ fst step).

Lemma keeps_start s out evt :
  tracks s out -> conforming out -> is_dict evt = true -> is_start evt = true ->
  typed_event evt -> keeps out (on_block_start s evt).
Proof.
  intros Htr Hc Hdict Hs Hty. destruct (tracks_close s out Htr Hc) as [Htr' Hc'].
  specialize (Hty Hs). unfold keeps, on_block_start, block_type in *.
  destruct (default (JObj []) (jget evt "content_block")) eqn:Eb; simpl; try done.
  rewrite app_assoc.
  edestruct (tracks_open s (out ++ close_if_open s) (jset evt "index" (JInt (current_index s + 1))))
    as [Ht Hcf]; [done|done| |exact Hty| | |].
  - unfold is_start. by rewrite etype_jset.
  - rewrite block_type_jset. unfold block_type. by rewrite Eb.
  - by apply jset_dict.
  - split; [done|]. intros s' [= <-]. done.
Qed.

Lemma keeps_delta s out evt :
  tracks s out -> conforming out -> is_dict evt = true -> is_delta evt = true ->
  keeps out (on_block_delta s evt).
Proof.
  intros Htr Hc Hdict Hd. unfold keeps, on_block_delta.
  destruct (negb (is_dict (delta_of evt))); [simpl; by rewrite app_nil_r|].
  destruct (_is_empty_delta _); simpl.
  { rewrite app_nil_r. split; [done|]. by intros s' [= <-]. }
  destruct (dict_get DELTA_COMPATIBLE_BLOCKS (delta_type_of (delta_of evt))) as [c|] eqn:Ec.
  2:{ simpl. destruct (tracks_delta s out evt Htr Hc Hdict Hd) as [Ht Hcf].
      { intros c Hc'. congruence. }
      split; [done|]. by intros s' [= <-]. }
  destruct (in_frozenset (current_block_type s) c) as [[]|err] eqn:Ef.
  - simpl. destruct (tracks_delta s out evt Htr Hc Hdict Hd) as [Ht Hcf].
    { intros c' Hc'. apply in_frozenset_true in Ef. by simplify_eq. }
    split; [done|]. by intros s' [= <-].
  - destruct (primary_fits _ _ Ec) as (p & Hp & Hin & Hbt).
    destruct (tracks_close s out Htr Hc) as [Htr' Hc'].
    unfold open_synthetic. rewrite Hp. simpl.
    edestruct (tracks_open s (out ++ close_if_open s)
      (JObj [("type", JStr "content_block_start"); ("index", JInt (current_index s + 1));
             ("content_block", _synthetic_block p)]) (JStr p)) as [Ht Hcf]; try done.
    edestruct (tracks_delta (MkSan (seen_message_start s) (current_index s + 1) (JStr p)))
      as [Ht2 Hcf2]; [exact Ht|exact Hcf|exact Hdict|exact Hd| |].
    { intros c' Hc''. exists p. by simplify_eq. }
    rewrite !app_assoc in *. split; [done|]. by intros s' [= <-].
  - simpl. by rewrite app_nil_r.
Qed.

Lemma keeps_end s out evt :
  tracks s out -> conforming out -> is_msg_end evt = true ->
  keeps out (close_if_open s ++ [evt], Ok (no_block s)).
Proof.
  intros Htr Hc He. destruct (tracks_close s out Htr Hc) as [Htr' Hc'].
  assert (is_start evt = false /\ is_stop evt = false /\ is_msg_start evt = false /\
          is_delta evt = false) as (Hs & Ht & Hm & Hd).
  { unfold is_msg_end, is_delta, is_start, is_stop, is_msg_start, etype_is in *.
    apply orb_true_iff in He as [He|He]; by etypes. }
  unfold keeps. simpl. rewrite app_assoc. split.
  - apply conforming_snoc; [done|]. split; try congruence. intros _.
    by destruct Htr'.
  - intros s' [= <-]. by apply tracks_other.
Qed.

Lemma keeps_step s out evt :
  tracks s out -> conforming out -> typed_event evt -> keeps out (sanitize_step s evt).
Proof.
  intros Htr Hc Hty. unfold sanitize_step.
  destruct (is_dict evt) eqn:Ed; simpl; [|unfold keeps; simpl; by rewrite app_nil_r].
  destruct (is_str (jget_null evt "type") "message_start") eqn:E1.
  { destruct (seen_message_start s) eqn:Es.
    - unfold keeps. simpl. rewrite app_nil_r. split; [done|]. by intros s' [= <-].
    - assert (is_start evt = false /\ is_stop evt = false /\ is_delta evt = false /\
              is_msg_end evt = false) as (Hs & Ht & Hd & He).
      { unfold is_msg_end, is_delta, is_start, is_stop, etype_is. by etypes. }
      destruct Htr as [H1 H2 H3]. unfold keeps. simpl. split.
      + apply conforming_snoc; [done|]. split; try congruence. intros _. by apply H1.
      + intros s' [= <-]. split; simpl; [done| |].
        * rewrite countb_snoc, Hs. lia.
        * by rewrite open_block_snoc, Hs, Ht. }
  destruct (is_str (jget_null evt "type") "content_block_start") eqn:E2;
    [by apply keeps_start|].
  destruct (is_str (jget_null evt "type") "content_block_delta") eqn:E3;
    [by apply keeps_delta|].
  destruct (is_str (jget_null evt "type") "content_block_stop") eqn:E4.
  { destruct (tracks_close s out Htr Hc) as [Htr' Hc']. unfold close_if_open in *.
    destruct (is_none (current_block_type s)); unfold keeps; simpl.
    - rewrite app_nil_r. split; [done|]. by intros s' [= <-].
    - split; [done|]. by intros s' [= <-]. }
  destruct (is_str (jget_null evt "type") "message_delta") eqn:E5;
    [apply keeps_end; [done..|]; unfold is_msg_end, etype_is; by rewrite E5|].
  destruct (is_str (jget_null evt "type") "message_stop") eqn:E6;
    [apply keeps_end; [done..|]; unfold is_msg_end, etype_is; by rewrite E6, orb_true_r|].
  unfold keeps. simpl. split.
  - apply conforming_snoc; [done|]. split;
      unfold is_msg_start, is_start, is_stop, is_delta, is_msg_end, etype_is;
      rewrite ?E1, ?E2, ?E3, ?E4, ?E5, ?E6; done.
  - intros s' [= <-]. by apply tracks_other.
Qed.

Lemma keeps_run s out upstream :
  tracks s out -> conforming out -> typed_starts upstream = true ->
  conforming (out ++ fst (sanitize_from s upstream)).
Proof.
  revert s out. induction upstream as [|evt rest IH]; intros s out Htr Hc Hty; simpl.
  { by rewrite app_nil_r. }
  apply typed_starts_cons in Hty as [He Hrest].
  destruct (keeps_step s out evt Htr Hc He) as [Hc' Htr'].
  destruct (sanitize_step s evt) as [o [s'|err]]; simpl in *; [|done].
  destruct (sanitize_from s' rest) as [o' r] eqn:Er. simpl. rewrite app_assoc.
  specialize (IH s' (out ++ o) (Htr' _ eq_refl) Hc' Hrest). by rewrite Er in IH.
Qed.

Lemma open_block_counts out : open_block out <> None -> 0 < countb is_start out.
Proof.
  induction out as [|e out IH] using rev_ind; [done|]. rewrite open_block_snoc, countb_snoc.
  pose proof (countb_nonneg is_start out). destruct (is_start e); [lia|]. destruct (is_stop e); [done|].
  intros Ho. specialize (IH Ho). lia.
Qed.

(** The delta [e] that follows [pre] is in an open block of one of the types that hold it, and
    has that block's index. *)
Definition in_its_block (pre : list Json) (e : Json) (compatible : list string) : Prop :=
  exists t i, open_block pre = Some (JStr t) /\ t ∈ compatible /\ 0 <= i /\ jget e "index" = Some (JInt i)
    /\ i = countb is_start pre - 1.
Lemma known_in_its_block pre e compatible : ok_next pre e -> is_delta e = true ->
  dict_get DELTA_COMPATIBLE_BLOCKS (delta_type_of (delta_of e)) = Some compatible -> in_its_block pre e compatible.
Proof.
  intros [_ _ _ Hd _] He Hc. destruct (Hd He) as [Hi Hf]. destruct (Hf _ Hc) as (t & Ht & Hin).
  destruct (open_block pre) as [b|] eqn:Eo; [|done]. cbn in Ht. subst b.
  exists t, (countb is_start pre - 1). assert (0 < countb is_start pre) by (apply open_block_counts; congruence).
  split; [done|]. split; [done|]. split; [lia|]. by split.
Qed.

(** C30. What the sanitizer promises of every upstream whose block starts say their type, however
    malformed it is otherwise: in what it yields (also when it raises half way), a message
    starts at most once; the blocks are numbered 0, 1, 2, ... as they start; a stop has the
    number of the block it closes; a block is closed before the next one opens and before the
    message ends; and a delta of a type the table knows is in an open block of a type that may
    hold it and has that block's number. A delta of any other type is not placed: it has the
    number of the last block started, open or not, and -1 before the first. *)
Theorem sanitized_stream_conforms upstream : typed_starts upstream = true ->
  let out := fst (sanitize_events upstream) in conforming out
  /\ forall pre e post compatible, out = pre ++ e :: post -> is_delta e = true ->
     dict_get DELTA_COMPATIBLE_BLOCKS (delta_type_of (delta_of e)) = Some compatible -> in_its_block pre e compatible.
Proof.
  intros Hty. pose proof (keeps_run san0 [] upstream tracks0 conforming_nil Hty) as Hc. split; [exact Hc|].
  intros pre e post compatible Eo. apply known_in_its_block. exact (Hc _ _ _ Eo).
Qed.

(** ** A second pass *)

#[local] Arguments open_synthetic : simpl never.

Lemma sanitize_from_app s l1 l2 o1 s1 :
  sanitize_from s l1 = (o1, Ok s1) ->
  sanitize_from s (l1 ++ l2) = (o1 ++ fst (sanitize_from s1 l2), snd (sanitize_from s1 l2)).
Proof.
  revert s o1. induction l1 as [|e l1 IH]; intros s o1; simpl.
  { intros [= <- <-]. by destruct (sanitize_from s l2). }
  destruct (sanitize_step s e) as [o [s'|err]]; [|done].
  destruct (sanitize_from s' l1) as [o' r] eqn:E. intros [= <- ->].
  by rewrite (IH s' o' E), app_assoc.
Qed.

Lemma sanitize_one s e : sanitize_from s [e] = sanitize_step s e.
Proof. simpl. destruct (sanitize_step s e) as [o [s'|err]]; simpl; by rewrite ?app_nil_r. Qed.

Lemma jset_again e key x : jset (jset e key x) key x = jset e key x.
Proof.
  destruct e as [| | | | | |d]; try done. unfold jset. f_equal.
  induction d as [|[k v] d IH]; simpl; [by rewrite decide_True|].
  case_decide; simpl; [by rewrite decide_True|]. by rewrite decide_False, IH.
Qed.

Lemma is_dict_jset e key x : is_dict (jset e key x) = is_dict e.
Proof. by destruct e. Qed.

Lemma jget_type_jset e n :
  jget_null (jset e "index" (JInt n)) "type" = jget_null e "type".
Proof. unfold jget_null. by rewrite jget_jset_ne. Qed.

Lemma no_block_none s : is_none (current_block_type s) = true -> no_block s = s.
Proof. destruct s as [? ? []]; done. Qed.

Lemma close_again s :
  sanitize_from s (close_if_open s) = (close_if_open s, Ok (no_block s)).
Proof.
  unfold close_if_open. destruct (is_none (current_block_type s)) eqn:En.
  - simpl. by rewrite no_block_none.
  - rewrite sanitize_one. unfold sanitize_step, _close_current.
    cbn -[dict_get]. unfold jget_null, jget, dict_get. simpl. by rewrite En.
Qed.

(** The state of a turn that did not raise is the one just exhibited. *)
Ltac again := split; [done|by intros ? [= <-]].

(** A yielded delta passes unchanged where its type fits the block. *)
Lemma delta_again s evt c :
  is_dict evt = true -> is_delta evt = true ->
  is_dict (delta_of evt) = true -> _is_empty_delta (delta_of evt) = false ->
  (dict_get DELTA_COMPATIBLE_BLOCKS (delta_type_of (delta_of evt)) = None \/
   dict_get DELTA_COMPATIBLE_BLOCKS (delta_type_of (delta_of evt)) = Some c /\
   in_frozenset (current_block_type s) c = Ok true) ->
  sanitize_step s (jset evt "index" (JInt (current_index s))) =
    ([jset evt "index" (JInt (current_index s))], Ok s).
Proof.
  intros Hd Ht Hdd He Hfit. unfold sanitize_step. rewrite is_dict_jset, Hd, jget_type_jset. simpl.
  unfold is_delta, etype_is in Ht. etypes. simpl.
  unfold on_block_delta. rewrite delta_of_jset, Hdd, He. simpl.
  destruct Hfit as [->|[-> ->]]; by rewrite jset_again.
Qed.

(** A yielded start passes unchanged when no block is open. *)
Lemma start_again s evt d :
  is_dict evt = true -> is_start evt = true ->
  default (JObj []) (jget evt "content_block") = JObj d ->
  jset evt "index" (JInt (current_index s + 1)) = evt ->
  sanitize_step (no_block s) evt =
    ([evt], Ok (MkSan (seen_message_start s) (current_index s + 1) (jget_null (JObj d) "type"))).
Proof.
  intros Hd Ht Hb Hidx. unfold sanitize_step. rewrite Hd. simpl.
  unfold is_start, etype_is in Ht. etypes. simpl.
  unfold on_block_start. rewrite Hb. simpl. by rewrite Hidx.
Qed.

Lemma delta_synthetic_again s evt c :
  is_dict evt = true -> is_delta evt = true ->
  is_dict (delta_of evt) = true -> _is_empty_delta (delta_of evt) = false ->
  dict_get DELTA_COMPATIBLE_BLOCKS (delta_type_of (delta_of evt)) = Some c ->
  let '(opened, s') := open_synthetic s (delta_type_of (delta_of evt)) in
  let out := opened ++ [jset evt "index" (JInt (current_index s'))] in
  sanitize_from s out = (out, Ok s').
Proof.
  intros Hd Ht Hdd He Hc. destruct (primary_fits _ _ Hc) as (p & Hp & Hin & Hbt).
  unfold open_synthetic. rewrite Hp. simpl. rewrite <- app_assoc.
  rewrite (sanitize_from_app _ _ _ _ _ (close_again s)).
  set (st := JObj _). set (s' := MkSan _ _ _).
  assert (sanitize_step (no_block s) st = ([st], Ok s')) as Hst.
  { assert (exists d, _synthetic_block p = JObj d) as [d Hd'].
    { unfold _synthetic_block. repeat case_bool_decide; eauto. }
    rewrite (start_again s st d); [|done|done|exact Hd'|done].
    rewrite <- Hd'. by rewrite Hbt. }
  change (JInt (current_index s + 1)) with (JInt (current_index s')).
  cbn [sanitize_from app]. rewrite Hst.
  rewrite (delta_again s' evt c Hd Ht Hdd He); [done|]. right. split; [done|].
  simpl. by apply f_equal, bool_decide_eq_true.
Qed.

Lemma step_again s evt out r :
  sanitize_step s evt = (out, r) ->
  exists s', sanitize_from s out = (out, Ok s') /\ forall s'', r = Ok s'' -> s'' = s'.
Proof.
  unfold sanitize_step. destruct (is_dict evt) eqn:Ed; simpl.
  2:{ intros [= <- <-]. by exists s. }
  destruct (is_str (jget_null evt "type") "message_start") eqn:E1.
  { destruct (seen_message_start s) eqn:Es; intros [= <- <-]; [exists s; again|].
    eexists. split; [|by intros ? [= <-]].
    rewrite sanitize_one. unfold sanitize_step. by rewrite Ed, E1, Es. }
  destruct (is_str (jget_null evt "type") "content_block_start") eqn:E2.
  { unfold on_block_start.
    destruct (default (JObj []) (jget evt "content_block")) as [| | | | | |d] eqn:Eb;
      try (intros [= <- <-]; eexists; split; [apply close_again|done]).
    intros [= <- <-]. eexists. split; [|by intros ? [= <-]].
    rewrite (sanitize_from_app _ _ _ _ _ (close_again s)), sanitize_one.
    erewrite (start_again s _ d); [done| | | |].
    - by rewrite is_dict_jset.
    - unfold is_start. by rewrite etype_jset.
    - by rewrite jget_jset_ne.
    - apply jset_again. }
  destruct (is_str (jget_null evt "type") "content_block_delta") eqn:E3.
  { unfold on_block_delta. destruct (is_dict (delta_of evt)) eqn:Edd; cbn [negb].
    2:{ intros [= <- <-]. by exists s. }
    destruct (_is_empty_delta (delta_of evt)) eqn:Ee.
    { intros [= <- <-]. exists s. again. }
    destruct (dict_get DELTA_COMPATIBLE_BLOCKS _) as [c|] eqn:Ec.
    - destruct (in_frozenset (current_block_type s) c) as [[]|err] eqn:Ef.
      + intros [= <- <-]. exists s. rewrite sanitize_one.
        rewrite (delta_again s evt c); [again|done..|by right].
      + pose proof (delta_synthetic_again s evt c Ed E3 Edd Ee Ec) as H.
        destruct (open_synthetic s _) as [opened s'].
        intros [= <- <-]. exists s'. again.
      + intros [= <- <-]. by exists s.
    - intros [= <- <-]. exists s. rewrite sanitize_one.
      rewrite (delta_again s evt []); [again|done..|by left]. }
  destruct (is_str (jget_null evt "type") "content_block_stop") eqn:E4.
  { pose proof (close_again s) as H. unfold close_if_open in H.
    destruct (is_none (current_block_type s)) eqn:En; intros [= <- <-]; [exists s; again|].
    exists (no_block s). again. }
  destruct (is_str (jget_null evt "type") "message_delta") eqn:E5;
    [|destruct (is_str (jget_null evt "type") "message_stop") eqn:E6];
    intros [= <- <-]; eexists; (split; [|by intros ? [= <-]]);
    rewrite ?(sanitize_from_app _ _ _ _ _ (close_again s)), sanitize_one;
    unfold sanitize_step; by rewrite Ed, E1, E2, E3, E4, E5, ?E6.
Qed.

Lemma run_again upstream : forall s out r,
  sanitize_from s upstream = (out, r) ->
  exists s', sanitize_from s out = (out, Ok s') /\ forall s'', r = Ok s'' -> s'' = s'.
Proof.
  induction upstream as [|evt rest IH]; intros s out r; simpl.
  { intros [= <- <-]. exists s. again. }
  destruct (sanitize_step s evt) as [o [s'|err]] eqn:Es.
  - destruct (sanitize_from s' rest) as [o' r'] eqn:Er. intros [= <- <-].
    destruct (step_again _ _ _ _ Es) as (s1 & H1 & Heq). rewrite (Heq s' eq_refl) in *.
    destruct (IH _ _ _ Er) as (s2 & H2 & Heq2). exists s2. split; [|done].
    by rewrite (sanitize_from_app _ _ _ _ _ H1), H2.
  - intros [= <- <-]. destruct (step_again _ _ _ _ Es) as (s1 & H1 & _). by exists s1.
Qed.

(** Sanitizing a sanitized stream changes nothing and never raises, for every
    upstream whatever: the output is a fixed point, so a gateway behind a gateway
    passes the stream on unchanged. *)
Theorem sanitize_idempotent upstream :
  fst (sanitize_events (fst (sanitize_events upstream))) = fst (sanitize_events upstream)
  /\ exists s, snd (sanitize_events (fst (sanitize_events upstream))) = Ok s.
Proof.
  unfold sanitize_events. destruct (sanitize_from san0 upstream) as [out r] eqn:E.
  destruct (run_again _ _ _ _ E) as (s' & H & _). simpl. rewrite H. eauto.
Qed.

(** ** Nothing is lost *)

(** An event up to its index; block boundaries, message starts and empty deltas carry
    nothing. *)
Definition content (e : Json) : option Json :=
  if is_msg_start e || is_start e || is_stop e then None
  else if is_delta e then
    if _is_empty_delta (delta_of e) then None else Some (jset e "index" JNull)
  else Some e.

(** The same, with the block starts. *)
Definition content_or_start (e : Json) : option Json :=
  if is_start e then Some (jset e "index" JNull) else content e.

Lemma jset_jset e key x y : jset (jset e key x) key y = jset e key y.
Proof.
  destruct e as [| | | | | |d]; try done. unfold jset. f_equal.
  induction d as [|[k v] d IH]; simpl; [by rewrite decide_True|].
  case_decide; simpl; [by rewrite decide_True|]. by rewrite decide_False, IH.
Qed.

Lemma content_close s : omap content (close_if_open s) = [] /\
  omap content_or_start (close_if_open s) = [].
Proof.
  unfold close_if_open. destruct (is_none (current_block_type s)); [done|].
  split; reflexivity.
Qed.

Lemma content_jset e n :
  content (jset e "index" (JInt n)) =
    (if is_delta e then content e
     else if is_msg_start e || is_start e || is_stop e then None
     else Some (jset e "index" (JInt n))).
Proof.
  unfold content, is_msg_start, is_start, is_stop, is_delta.
  rewrite !etype_jset, delta_of_jset, jset_jset.
  destruct (etype_is e "content_block_delta") eqn:Ed; [|done].
  unfold etype_is in *. by etypes.
Qed.

Lemma start_content_jset e n :
  is_start e = true ->
  content_or_start (jset e "index" (JInt n)) = content_or_start e.
Proof.
  intros H. unfold content_or_start, is_start in *. by rewrite etype_jset, H, jset_jset.
Qed.

Lemma omap_one {A B} (f : A -> option B) x : omap f [x] = option_list (f x).
Proof. simpl. by destruct (f x). Qed.

(** Settle [content] of an event whose type is known. *)
Ltac contents :=
  unfold content_or_start, content, is_msg_start, is_start, is_stop, is_delta, is_msg_end,
    etype_is in *; etypes; simpl; try done.

Lemma delta_content_or_start e : is_delta e = true -> content_or_start e = content e.
Proof. intros H. contents. Qed.

Lemma content_synthetic p n :
  content (JObj [("type", JStr "content_block_start"); ("index", JInt n);
                 ("content_block", p)]) = None.
Proof. done. Qed.

Lemma close_then_content s l :
  omap content (close_if_open s ++ l) = omap content l /\
  omap content_or_start (close_if_open s ++ l) = omap content_or_start l.
Proof. destruct (content_close s) as [H1 H2]. by rewrite !omap_app, H1, H2. Qed.

(** What a turn keeps: everything but the starts it adds. *)
Definition carries (evt : Json) (out : list Json) : Prop :=
  omap content out = option_list (content evt) /\
  option_list (content_or_start evt) `sublist_of` omap content_or_start out.

Lemma carries_refl s evt : carries evt (close_if_open s ++ [evt]).
Proof.
  unfold carries. destruct (close_then_content s [evt]) as [-> ->]. by rewrite !omap_one.
Qed.

Lemma carries_self evt : carries evt [evt].
Proof. unfold carries. by rewrite !omap_one. Qed.

Lemma carries_start s evt n :
  is_start evt = true -> carries evt (close_if_open s ++ [jset evt "index" (JInt n)]).
Proof.
  intros Hs. unfold carries. edestruct close_then_content as [-> ->].
  rewrite !omap_one, start_content_jset, content_jset by done. split; [|done].
  contents.
Qed.

Lemma carries_delta s evt out s' :
  is_dict evt = true -> is_delta evt = true ->
  on_block_delta s evt = (out, Ok s') -> carries evt out.
Proof.
  intros Hd Ht. pose proof (delta_content_or_start evt Ht) as Hcs.
  assert (forall n, content (jset evt "index" (JInt n)) = content evt) as Hj.
  { intros n. by rewrite content_jset, Ht. }
  assert (forall n, content_or_start (jset evt "index" (JInt n)) = content evt) as Hj'.
  { intros n. rewrite delta_content_or_start, Hj; [done|]. unfold is_delta. by rewrite etype_jset. }
  unfold on_block_delta, carries. rewrite Hcs.
  destruct (is_dict (delta_of evt)); cbn [negb]; [|done].
  destruct (_is_empty_delta (delta_of evt)) eqn:Ee.
  { intros [= <- <-]. unfold content. rewrite Ee.
    unfold is_delta, is_msg_start, is_start, is_stop, etype_is in *. by etypes. }
  destruct (match dict_get DELTA_COMPATIBLE_BLOCKS _ with Some _ => _ | None => _ end)
    as [[]|err]; [| |done].
  - intros [= <- <-]. by rewrite !omap_one, Hj, Hj'.
  - unfold open_synthetic. intros [= <- <-]. rewrite <- app_assoc.
    edestruct close_then_content as [-> ->].
    rewrite !omap_app, !omap_one, Hj, Hj', content_synthetic. split; [done|].
    by apply sublist_inserts_l.
Qed.

Lemma sanitize_step_content s evt out s' :
  sanitize_step s evt = (out, Ok s') -> carries evt out.
Proof.
  unfold sanitize_step. destruct (is_dict evt) eqn:Ed; cbn [negb]; [|done].
  destruct (is_str (jget_null evt "type") "message_start") eqn:E1.
  { destruct (seen_message_start s); intros [= <- <-]; [|by apply carries_self].
    unfold carries. contents. }
  destruct (is_str (jget_null evt "type") "content_block_start") eqn:E2.
  { unfold on_block_start.
    destruct (default (JObj []) (jget evt "content_block")) as [| | | | | |d]; try done.
    intros [= <- <-]. by apply carries_start. }
  destruct (is_str (jget_null evt "type") "content_block_delta") eqn:E3;
    [by apply carries_delta|].
  destruct (is_str (jget_null evt "type") "content_block_stop") eqn:E4.
  { assert (carries evt (close_if_open s ++ [])) as Hc.
    { unfold carries. edestruct close_then_content as [-> ->]. contents. }
    rewrite app_nil_r in Hc. unfold close_if_open in Hc.
    destruct (is_none _); intros [= <- <-]; done. }
  destruct (is_str (jget_null evt "type") "message_delta");
    [|destruct (is_str (jget_null evt "type") "message_stop")];
    intros [= <- <-]; auto using carries_refl, carries_self.
Qed.

Lemma omap_cons_list {A B} (f : A -> option B) x l :
  omap f (x :: l) = option_list (f x) ++ omap f l.
Proof. simpl. by destruct (f x). Qed.

Lemma run_content upstream : forall s out s',
  sanitize_from s upstream = (out, Ok s') ->
  omap content out = omap content upstream /\
  omap content_or_start upstream `sublist_of` omap content_or_start out.
Proof.
  induction upstream as [|evt rest IH]; intros s out s'; cbn [sanitize_from].
  { by intros [= <- <-]. }
  destruct (sanitize_step s evt) as [o [s1|err]] eqn:Es; [|done].
  destruct (sanitize_from s1 rest) as [o' r'] eqn:Er. intros [= <- ->].
  destruct (sanitize_step_content _ _ _ _ Es) as [H1 H2]. destruct (IH _ _ _ Er) as [H3 H4].
  rewrite !omap_app, !omap_cons_list, H1, H3. split; [done|]. by apply sublist_app.
Qed.

(** A run that does not raise keeps the content: apart from indices, the sequence
    of non-empty deltas, message ends and unknown events it yields is the upstream's,
    in order; and every block the upstream starts is started, in its place, with
    synthetic starts only added between. *)
Theorem sanitizer_keeps_content upstream out s :
  sanitize_events upstream = (out, Ok s) ->
  omap content out = omap content upstream /\
  omap content_or_start upstream `sublist_of` omap content_or_start out.
Proof. apply run_content. Qed.

(** ** Runs *)

Definition ev (t : string) (fields : list (string * Json)) : Json := JObj (("type", JStr t) :: fields).
Definition text_start (i : Z) : Json :=
  ev "content_block_start" [("index", JInt i); ("content_block", _synthetic_block "text")].
Definition delta_ev (i : Z) (t key v : string) : Json :=
  ev "content_block_delta" [("index", JInt i); ("delta", ev t [(key, JStr v)])].
Definition stop_ev (i : Z) : Json := ev "content_block_stop" [("index", JInt i)].

(** The upstream the module comment mentions: a thinking delta in a text block, empty
    deltas between, a late stop, a second [message_start]. *)
Definition thrashing : list Json :=
  [ev "message_start" []; text_start 0; delta_ev 0 "thinking_delta" "thinking" "hm";
   delta_ev 0 "text_delta" "text" ""; delta_ev 0 "text_delta" "text" "hi"; stop_ev 0;
   stop_ev 1; ev "message_start" []; ev "message_stop" []].

Lemma sanitized_stream_conforms_witness :
  typed_starts thrashing = true /\ conforming (fst (sanitize_events thrashing))
  /\ forall pre e post compatible, fst (sanitize_events thrashing) = pre ++ e :: post -> is_delta e = true ->
     dict_get DELTA_COMPATIBLE_BLOCKS (delta_type_of (delta_of e)) = Some compatible -> in_its_block pre e compatible.
Proof. split; [reflexivity|]. exact (sanitized_stream_conforms thrashing eq_refl). Defined.

Lemma sanitizer_keeps_content_witness :
  length (omap content (fst (sanitize_events thrashing))) = 3%nat /\
  omap content (fst (sanitize_events thrashing)) = omap content thrashing.
Proof.
  split; [reflexivity|].
  apply (sanitizer_keeps_content thrashing (fst (sanitize_events thrashing)) (MkSan true 2 JNull)).
  reflexivity.
Defined.

Example thrashing_types :
  map (fun e => (jget_null e "type", jget_null e "index")) (fst (sanitize_events thrashing)) =
    [(JStr "message_start", JNull); (JStr "content_block_start", JInt 0);
     (JStr "content_block_stop", JInt 0); (JStr "content_block_start", JInt 1);
     (JStr "content_block_delta", JInt 1); (JStr "content_block_stop", JInt 1);
     (JStr "content_block_start", JInt 2); (JStr "content_block_delta", JInt 2);
     (JStr "content_block_stop", JInt 2); (JStr "message_stop", JNull)].
Proof. reflexivity. Qed.

(** A block that starts without a type is never closed: the second start follows the
    first with no stop between. *)
Example untyped_block_left_open :
  let start := ev "content_block_start" [("content_block", JObj [])] in
  map (fun e => jget_null e "type") (fst (sanitize_events [start; start; ev "message_stop" []])) =
    [JStr "content_block_start"; JStr "content_block_start"; JStr "message_stop"].
Proof. reflexivity. Qed.

(** A delta of a type the table does not know is passed on with no block open, with
    index -1. *)
Example unknown_delta_outside_blocks :
  map (fun e => jget_null e "index")
      (fst (sanitize_events [delta_ev 0 "citations_delta" "citation" "x"])) = [JInt (-1)].
Proof. reflexivity. Qed.

(** A start whose [content_block] is null raises, after closing the open block. *)
Example null_block_raises :
  sanitize_events [text_start 0; ev "content_block_start" [("content_block", JNull)]] =
    ([text_start 0; stop_ev 0], Err AttributeError).
Proof. reflexivity. Qed.
