(* ===== verification/PosixAcl.v ===== *)
(** POSIX ACLs and the grant of an existing tree (src/src/backends/claude/posix_acl.py).

    [encode] and [decode] write and read the kernel's xattr value as bytes.  The walk of
    [grant_tree] runs on a tree of answers: an [Item] is one directory entry with what
    each system call on it would say (a failure or a value), so that other processes may
    change anything between two calls.  What the walk does is its trace: descriptors
    opened and closed, listings opened and closed, ACLs stored.  [Obj] is a kernel object
    as the module comment describes it, for the effect of granting twice. *)

From stdpp Require Import sorting.
From S2P Require Import Prelude.

Definition ACL_USER_OBJ : Z := 1.
Definition ACL_USER : Z := 2.
Definition ACL_GROUP_OBJ : Z := 4.
Definition ACL_GROUP : Z := 8.
Definition ACL_MASK : Z := 16.
Definition ACL_OTHER : Z := 32.
Definition ACL_UNDEFINED_ID : Z := 4294967295.

Definition R : Z := 4.
Definition W : Z := 2.
Definition X : Z := 1.
Definition _RWX : Z := Z.lor (Z.lor R W) X.

Definition _VERSION : Z := 2.
Definition _NAMED_TAGS : list Z := [ACL_USER; ACL_GROUP].
Definition _TAGS : list Z := [ACL_USER_OBJ; ACL_USER; ACL_GROUP_OBJ; ACL_GROUP; ACL_MASK; ACL_OTHER].
Definition _REQUIRED : list Z := [ACL_USER_OBJ; ACL_GROUP_OBJ; ACL_OTHER].
(** [errno] numbers of Linux: [EOPNOTSUPP] and [ENOTSUP] are one. *)
Definition ENODATA : Z := 61.
Definition _UNSUPPORTED : list Z := [95].
(** [EACCES], [ELOOP], [ENOTDIR], [ENXIO] *)
Definition _OPEN_SKIP : list Z := [13; 40; 20; 6].
Definition _MAX_DEPTH : nat := 128.

(** [Entry] *)
Record Entry := MkEntry { tag : Z; perm : Z; id : Z }.

#[export] Instance Entry_eq_dec : EqDecision Entry.
Proof. solve_decision. Defined.

Inductive Exn : Type := ValueError | AclUnsupported | OSError (errno : Z).

(** ** Encoding *)

(** [_order(entry)] and its lexicographic comparison. *)
Definition _order (e : Entry) : Z * Z := (tag e, id e).
Definition order_le (a b : Entry) : Prop :=
  tag a < tag b \/ tag a = tag b /\ id a <= id b.

#[export] Instance order_le_dec : RelDecision order_le.
Proof. intros a b. unfold order_le. solve_decision. Defined.

(** [struct.pack] of a little-endian unsigned integer of [n] bytes. *)
Fixpoint pack (n : nat) (v : Z) : list Z :=
  match n with
  | O => []
  | S n => v mod 256 :: pack n (v / 256)
  end.

Fixpoint unpack (bytes : list Z) : Z :=
  match bytes with
  | [] => 0
  | b :: rest => b + 256 * unpack rest
  end.

Definition pack_entry (e : Entry) : list Z := pack 2 (tag e) ++ pack 2 (perm e) ++ pack 4 (id e).

(** The tests of the first loop of [encode] on one entry; all its integers are [int]. *)
Definition entry_ok (e : Entry) : bool :=
  bool_decide (tag e ∈ _TAGS)
  && ((0 <=? perm e) && (perm e <=? _RWX))
  && (if bool_decide (tag e ∈ _NAMED_TAGS) then (0 <=? id e) && (id e <? ACL_UNDEFINED_ID)
      else id e =? ACL_UNDEFINED_ID).

(** The first loop: the keys seen, or [None] where it raises. *)
Fixpoint scan (seen : list (Z * Z)) (items : list Entry) : option (list (Z * Z)) :=
  match items with
  | [] => Some seen
  | e :: rest =>
      if negb (entry_ok e) then None
      else if bool_decide (_order e ∈ seen) then None
      else scan (_order e :: seen) rest
  end.

(** [encode(entries)] *)
Definition encode (entries : list Entry) : result Exn (list Z) :=
  match scan [] entries with
  | None => Err ValueError
  | Some seen =>
      if negb (forallb (fun t => bool_decide ((t, ACL_UNDEFINED_ID) ∈ seen)) _REQUIRED)
      then Err ValueError
      else
        let named := existsb (fun k => bool_decide (fst k ∈ _NAMED_TAGS)) seen in
        if negb (Bool.eqb named (bool_decide ((ACL_MASK, ACL_UNDEFINED_ID) ∈ seen)))
        then Err ValueError
        else Ok (pack 4 _VERSION ++ concat (map pack_entry (merge_sort order_le entries)))
  end.

(** One entry of eight bytes; [perm & ~_RWX] is tested as in the code. *)
Definition decode_entry (chunk : list Z) : result Exn Entry :=
  let tag := unpack (take 2 chunk) in
  let perm := unpack (take 2 (drop 2 chunk)) in
  let id := unpack (drop 4 chunk) in
  if negb (bool_decide (tag ∈ _TAGS)) || negb (Z.land perm (Z.lnot _RWX) =? 0)
  then Err ValueError
  else Ok (MkEntry tag perm id).

(** [_ENTRY.iter_unpack] with the loop's body: [n] chunks of eight bytes. *)
Fixpoint decode_entries (n : nat) (data : list Z) : result Exn (list Entry) :=
  match n with
  | O => Ok []
  | S n =>
      let! e := decode_entry (take 8 data) in
      let! rest := decode_entries n (drop 8 data) in
      Ok (e :: rest)
  end.

(** [decode(data)] *)
Definition decode (data : list Z) : result Exn (list Entry) :=
  let n := length data in
  if (n <? 4)%nat || negb ((n - 4) mod 8 =? 0)%nat then Err ValueError
  else if negb (unpack (take 4 data) =? _VERSION) then Err ValueError
  else decode_entries ((n - 4) / 8) (drop 4 data).

(** ** Presets *)

Definition unnamed (t p : Z) : Entry := MkEntry t p ACL_UNDEFINED_ID.

(** [session_dir_access(uid, write)] *)
Definition session_dir_access (uid : Z) (write : bool) : list Entry :=
  let perm := if write then _RWX else Z.lor R X in
  [unnamed ACL_USER_OBJ _RWX; MkEntry ACL_USER perm uid; unnamed ACL_GROUP_OBJ 0;
   unnamed ACL_MASK perm; unnamed ACL_OTHER 0].

(** [sorted({a, b})] *)
Definition sorted_pair (a b : Z) : list Z :=
  if a =? b then [a] else if a <? b then [a; b] else [b; a].

(** [session_dir_default(uid, app_uid)] *)
Definition session_dir_default (uid app_uid : Z) : list Entry :=
  unnamed ACL_USER_OBJ _RWX :: map (MkEntry ACL_USER _RWX) (sorted_pair uid app_uid) ++
  [unnamed ACL_GROUP_OBJ 0; unnamed ACL_MASK _RWX; unnamed ACL_OTHER 0].

(** [_tree_acl(uid, user, named, group, mask, other)] *)
Definition _tree_acl (uid user named group mask other : Z) : list Entry :=
  [unnamed ACL_USER_OBJ user; MkEntry ACL_USER named uid; unnamed ACL_GROUP_OBJ group;
   unnamed ACL_MASK mask; unnamed ACL_OTHER other].

(** ** System calls *)

Record Stat := MkStat { st_mode : Z; st_uid : Z; st_dev : Z; st_ino : Z; st_nlink : Z }.

Definition S_IFMT (mode : Z) : Z := Z.land mode 61440.
Definition S_ISDIR (mode : Z) : bool := S_IFMT mode =? 16384.
Definition S_ISREG (mode : Z) : bool := S_IFMT mode =? 32768.

(** [_raise_if_unsupported(exc); raise] *)
Definition acl_error (errno : Z) : Exn :=
  if bool_decide (errno ∈ _UNSUPPORTED) then AclUnsupported else OSError errno.

(** [get_acl(fd)], from what [os.getxattr] says. *)
Definition get_acl (getxattr : result Z (list Z)) : result Exn (option (list Entry)) :=
  match getxattr with
  | Err errno => if errno =? ENODATA then Ok None else Err (acl_error errno)
  | Ok data => let! es := decode data in Ok (Some es)
  end.

(** [set_acl(fd, entries)], from what [os.setxattr] says: the value stored. *)
Definition set_acl (entries : list Entry) (setxattr : option Z) : result Exn (list Z) :=
  let! data := encode entries in
  match setxattr with
  | None => Ok data
  | Some errno => Err (acl_error errno)
  end.

(** [named_users(fd)]: [sorted] of a set. *)
Definition named_users (getxattr : result Z (list Z)) : result Exn (list Z) :=
  let! acl := get_acl getxattr in
  Ok (merge_sort Z.le (remove_dups (map id
        (filter (fun e => tag e = ACL_USER) (default [] acl))))).

Inductive Kind := Dir | File.

#[export] Instance Kind_eq_dec : EqDecision Kind.
Proof. solve_decision. Defined.

(** [_classify(st, owner, dev)] *)
Definition _classify (st : Stat) (owner dev : Z) : option Kind :=
  if negb (st_uid st =? owner) then None
  else if S_ISDIR (st_mode st) then
    if st_dev st =? dev then Some Dir else None
  else if S_ISREG (st_mode st) && (st_nlink st =? 1) then Some File
  else None.

(** [_base_perms(fd, st)] *)
Definition _base_perms (getxattr : result Z (list Z)) (st : Stat) : result Exn (Z * Z * Z) :=
  let mode := st_mode st in
  let user := Z.land (Z.shiftr mode 6) _RWX in
  let group := Z.land (Z.shiftr mode 3) _RWX in
  let other := Z.land mode _RWX in
  let! acl := get_acl getxattr in
  Ok (user,
      foldl (fun g e => if tag e =? ACL_GROUP_OBJ then Z.land g (perm e) else g)
            group (default [] acl),
      other).

(** One directory entry, with what the system calls on it answer: errors are [errno]s.
    A listing is what iterating [os.scandir] gives: entries, or a read error ([None]). *)
Inductive Item : Type := MkItem {
  i_lstat : result Z Stat;
  i_open : result Z Z;
  i_fstat : result Z Stat;
  i_getxattr : result Z (list Z);
  i_set : option Z;
  i_set_default : option Z;
  i_scandir : result Z (list (option Item));
}.

Definition Listing : Type := list (option Item).

(** ** The walk *)

(** [GrantStats] *)
Record GrantStats := MkStats {
  dirs : Z;
  files : Z;
  skipped : Z;
  errors : Z;
  truncated : bool;
}.

Inductive Event : Type :=
| Opened (fd : Z)
| Closed (fd : Z)
| ListingOpened (fd : Z)
| ListingClosed (fd : Z)
| Stored (fd : Z) (as_default : bool) (data : list Z).

Record World := MkWorld { stats : GrantStats; trace : list Event }.

Definition emit (ev : Event) (w : World) : World := MkWorld (stats w) (trace w ++ [ev]).
Definition count_with (f : GrantStats -> GrantStats) (w : World) : World :=
  MkWorld (f (stats w)) (trace w).
Definition add_dir := count_with (fun s =>
  MkStats (dirs s + 1) (files s) (skipped s) (errors s) (truncated s)).
Definition add_file := count_with (fun s =>
  MkStats (dirs s) (files s + 1) (skipped s) (errors s) (truncated s)).
Definition add_skipped := count_with (fun s =>
  MkStats (dirs s) (files s) (skipped s + 1) (errors s) (truncated s)).
Definition add_error := count_with (fun s =>
  MkStats (dirs s) (files s) (skipped s) (errors s + 1) (truncated s)).
Definition set_truncated := count_with (fun s =>
  MkStats (dirs s) (files s) (skipped s) (errors s) true).

(** [set_acl] on [fd]: the stored value joins the trace. *)
Definition store (fd : Z) (as_default : bool) (entries : list Entry) (setxattr : option Z)
    (w : World) : World * result Exn unit :=
  match set_acl entries setxattr with
  | Ok data => (emit (Stored fd as_default data) w, Ok tt)
  | Err e => (w, Err e)
  end.

(** [except AclUnsupported: raise / except OSError: stats.errors += 1]: a [ValueError]
    propagates as well. *)
Definition caught (w : World) (e : Exn) : World * result Exn bool :=
  match e with
  | OSError _ => (add_error w, Ok false)
  | _ => (w, Err e)
  end.

(** [grant_dir(fd, uid, app_uid, write, default)], from what [fstat] and the two
    [setxattr] say. *)
Definition grant_dir (fstat : result Z Stat) (fd uid app_uid : Z) (write as_default : bool)
    (set1 set2 : option Z) (w : World) : World * result Exn unit :=
  match fstat with
  | Err errno => (w, Err (OSError errno))
  | Ok st =>
      if negb (S_ISDIR (st_mode st)) then (w, Err (OSError 20))
      else
        match store fd false (session_dir_access uid write) set1 w with
        | (w, Err e) => (w, Err e)
        | (w, Ok _) =>
            if as_default then store fd true (session_dir_default uid app_uid) set2 w
            else (w, Ok tt)
        end
  end.

Section walk.
Context (uid : Z) (dir_default : list Entry) (owner dev : Z).

(** The two grants of [_grant_entry]: [true] when the descriptor is kept. *)
Definition grant_kind (it : Item) (fd : Z) (kind : Kind) (user group other : Z) (w : World)
    : World * result Exn bool :=
  match kind with
  | Dir =>
      match store fd false (_tree_acl uid user _RWX group _RWX other) (i_set it) w with
      | (w, Err e) => caught w e
      | (w, Ok _) =>
          match store fd true dir_default (i_set_default it) w with
          | (w, Err e) => caught w e
          | (w, Ok _) => (add_dir w, Ok true)
          end
      end
  | File =>
      match store fd false (_tree_acl uid user user group (Z.lor user group) other) (i_set it) w with
      | (w, Err e) => caught w e
      | (w, Ok _) => (add_file w, Ok false)
      end
  end.

(** The [try] of [_grant_entry] after the open. *)
Definition grant_opened (it : Item) (st : Stat) (kind : Kind) (fd : Z) (w : World)
    : World * result Exn bool :=
  match i_fstat it with
  | Err errno => caught w (OSError errno)
  | Ok now =>
      let same := bool_decide ((st_dev now, st_ino now) = (st_dev st, st_ino st)) in
      if negb same || negb (bool_decide (_classify now owner dev = Some kind))
      then (add_skipped w, Ok false)
      else
        match _base_perms (i_getxattr it) now with
        | Err e => caught w e
        | Ok (user, group, other) => grant_kind it fd kind user group other w
        end
  end.

(** [_grant_entry]: the descriptor of a granted directory, kept open. *)
Definition _grant_entry (it : Item) (w : World) : World * result Exn (option Z) :=
  match i_lstat it with
  | Err _ => (add_error w, Ok None)
  | Ok st =>
      match _classify st owner dev with
      | None => (add_skipped w, Ok None)
      | Some kind =>
          match i_open it with
          | Err errno =>
              (if bool_decide (errno ∈ _OPEN_SKIP) then add_skipped w else add_error w, Ok None)
          | Ok fd =>
              match grant_opened it st kind fd (emit (Opened fd) w) with
              | (w, Ok true) => (w, Ok (Some fd))
              | (w, Ok false) => (emit (Closed fd) w, Ok None)
              | (w, Err e) => (emit (Closed fd) w, Err e)
              end
          end
      end
  end.

Context (root_fd max_entries : Z).

(** The directories being walked, innermost first (the last of the code's list). *)
Definition Stack : Type := list (Z * Listing).

(** [listing.close(); if dfd != root_fd: os.close(dfd)] *)
Definition close_level (dfd : Z) (w : World) : World :=
  let w := emit (ListingClosed dfd) w in
  if dfd =? root_fd then w else emit (Closed dfd) w.

(** [next(listing, None)] with the read error counted. *)
Definition next_item (listing : Listing) (w : World) : option Item * Listing * World :=
  match listing with
  | [] => (None, [], w)
  | None :: rest => (None, rest, add_error w)
  | Some it :: rest => (Some it, rest, w)
  end.

Inductive Next : Type :=
| Again (visited : Z) (stack : Stack) (w : World)
| Stop (w : World) (r : result Exn unit) (stack : Stack).

(** What the loop does with the descriptor of a granted directory. *)
Definition enter (visited : Z) (stack : Stack) (it : Item) (child : Z) (w : World) : Next :=
  if (_MAX_DEPTH <? length stack)%nat then
    Again visited stack (emit (Closed child) (set_truncated w))
  else
    match i_scandir it with
    | Err _ => Again visited stack (emit (Closed child) (add_error w))
    | Ok l => Again visited ((child, l) :: stack) (emit (ListingOpened child) w)
    end.

(** One turn of the [while stack] of [grant_tree]. *)
Definition walk_step (visited : Z) (stack : Stack) (w : World) : Next :=
  match stack with
  | [] => Stop w (Ok tt) []
  | (dfd, listing) :: below =>
      match next_item listing w with
      | (None, _, w) => Again visited below (close_level dfd w)
      | (Some it, rest, w) =>
          let stack := (dfd, rest) :: below in
          if max_entries <=? visited then Stop (set_truncated w) (Ok tt) stack
          else
            match _grant_entry it w with
            | (w, Err e) => Stop w (Err e) stack
            | (w, Ok None) => Again (visited + 1) stack w
            | (w, Ok (Some child)) => enter (visited + 1) stack it child w
            end
      end
  end.

(** The loop: the world, how it ended and the stack it left, or [None] when the fuel is
    out. *)
Fixpoint walk (fuel : nat) (visited : Z) (stack : Stack) (w : World)
    : option (World * result Exn unit * Stack) :=
  match fuel with
  | O => None
  | S fuel =>
      match walk_step visited stack w with
      | Stop w r stack => Some (w, r, stack)
      | Again visited stack w => walk fuel visited stack w
      end
  end.
End walk.

(** The [finally] of [grant_tree], root first. *)
Definition close_stack (root_fd : Z) (stack : Stack) (w : World) : World :=
  foldl (fun w l => close_level root_fd (fst l) w) w (rev stack).

(** Every turn visits an entry or leaves a directory, and a directory is entered by a
    visit (the root apart). *)
Definition walk_fuel (max_entries : Z) : nat := 2 * Z.to_nat max_entries + 2.

(** [grant_tree(root_fd, uid, app_uid, owner, max_entries)], where [root_dev] and [root]
    are what [os.fstat] and [os.scandir] say of the root. *)
Definition grant_tree (root_fd uid app_uid owner max_entries : Z)
    (root_dev : result Z Z) (root : result Z Listing) : option (World * result Exn unit) :=
  let w0 := MkWorld (MkStats 0 0 0 0 false) [] in
  let dir_default := session_dir_default uid app_uid in
  match encode dir_default, root_dev, root with
  | Err e, _, _ => Some (w0, Err e)
  | _, Err errno, _ => Some (w0, Err (OSError errno))
  | _, _, Err errno => Some (w0, Err (OSError errno))
  | Ok _, Ok dev, Ok listing =>
      match walk uid dir_default owner dev root_fd max_entries (walk_fuel max_entries) 0
              [(root_fd, listing)] (emit (ListingOpened root_fd) w0) with
      | None => None
      | Some (w, r, stack) => Some (close_stack root_fd stack w, r)
      end
  end.

(** [supported(path)] *)
Definition supported (getxattr : result Z (list Z)) : result Exn bool :=
  match getxattr with
  | Ok _ => Ok true
  | Err errno =>
      if errno =? ENODATA then Ok true
      else if bool_decide (errno ∈ _UNSUPPORTED) then Ok false
      else Err (OSError errno)
  end.

(** ** Encoding and decoding *)

#[export] Instance order_le_trans : Transitive order_le.
Proof. intros a b c. unfold order_le. lia. Qed.

#[export] Instance order_le_total : Total order_le.
Proof. intros a b. unfold order_le. lia. Qed.

(** What [encode] documents as a valid ACL. *)
Record valid_acl (es : list Entry) : Prop := {
  va_entries : Forall (fun e => entry_ok e = true) es;
  va_keys : NoDup (map _order es);
  va_required : forall t, t ∈ _REQUIRED -> (t, ACL_UNDEFINED_ID) ∈ map _order es;
  va_mask : (exists e, e ∈ es /\ tag e ∈ _NAMED_TAGS) <->
            (ACL_MASK, ACL_UNDEFINED_ID) ∈ map _order es;
}.

Lemma scan_keys_spec items seen seen' :
  NoDup seen ->
  scan seen items = Some seen' <->
  Forall (fun e => entry_ok e = true) items /\ NoDup (rev (map _order items) ++ seen)
  /\ seen' = rev (map _order items) ++ seen.
Proof.
  revert seen. induction items as [|e items IH]; intros seen Hnd; simpl.
  { split; [intros [= <-]; by split_and!|by intros (_ & _ & ->)]. }
  rewrite <- app_assoc. simpl.
  destruct (entry_ok e) eqn:Ee; simpl.
  2:{ split; [done|]. intros (Hf & _). apply Forall_cons in Hf as [? _]. congruence. }
  case_bool_decide as Hin.
  { split; [done|]. intros (_ & Hn & _). apply NoDup_app in Hn as (_ & _ & Hn).
    by apply NoDup_cons in Hn as [? _]. }
  rewrite IH by by apply NoDup_cons. rewrite Forall_cons. tauto.
Qed.

Lemma rev_Permutation {A} (l : list A) : rev l ≡ₚ l.
Proof. symmetry. apply Permutation_rev. Qed.

Lemma keys_rev_elem (es : list Entry) k : k ∈ rev (map _order es) <-> k ∈ map _order es.
Proof. by rewrite rev_Permutation. Qed.

Lemma named_in_keys (es : list Entry) :
  existsb (fun k => bool_decide (fst k ∈ _NAMED_TAGS)) (rev (map _order es)) = true <->
  exists e, e ∈ es /\ tag e ∈ _NAMED_TAGS.
Proof.
  rewrite existsb_exists. setoid_rewrite bool_decide_eq_true.
  setoid_rewrite <- list_elem_of_In. setoid_rewrite keys_rev_elem.
  setoid_rewrite list_elem_of_fmap. split.
  - intros (k & (e & -> & He) & Hk). by exists e.
  - intros (e & He & Hk). exists (_order e). split; [by exists e|done].
Qed.

Lemma encode_valid es data :
  encode es = Ok data <->
  valid_acl es /\ data = pack 4 _VERSION ++ concat (map pack_entry (merge_sort order_le es)).
Proof.
  unfold encode. destruct (scan [] es) as [seen|] eqn:Es.
  2:{ split; [done|]. intros [[Hf Hn _ _] _]. exfalso.
      enough (scan [] es = Some (rev (map _order es) ++ [])) by congruence.
      apply scan_keys_spec; [constructor|]. split_and!; [done| |done].
      by rewrite app_nil_r, rev_Permutation. }
  apply scan_keys_spec in Es as (Hf & Hn & ->); [|constructor]. rewrite app_nil_r in *.
  rewrite rev_Permutation in Hn.
  destruct (forallb _ _REQUIRED) eqn:Er; simpl.
  2:{ split; [done|]. intros [[_ _ Hr _] _]. exfalso.
      apply not_true_iff_false in Er. apply Er, forallb_forall. intros t Ht.
      apply bool_decide_eq_true, keys_rev_elem, Hr. by apply list_elem_of_In. }
  rewrite forallb_forall in Er.
  assert (forall t, t ∈ _REQUIRED -> (t, ACL_UNDEFINED_ID) ∈ map _order es) as Hreq.
  { intros t Ht. apply list_elem_of_In, Er, bool_decide_eq_true in Ht. by apply keys_rev_elem. }
  pose proof (named_in_keys es) as Hnamed.
  assert (bool_decide ((ACL_MASK, ACL_UNDEFINED_ID) ∈ rev (map _order es)) = true <->
          (ACL_MASK, ACL_UNDEFINED_ID) ∈ map _order es) as Hmask.
  { by rewrite bool_decide_eq_true, keys_rev_elem. }
  match goal with |- context [Bool.eqb ?x ?y] => set (a := x) in *; set (b := y) in * end.
  destruct (Bool.eqb a b) eqn:Eab; simpl.
  - apply eqb_prop in Eab. split.
    + intros [= <-]. split; [split; try done|done]. rewrite <- Hnamed, <- Hmask, Eab. done.
    + by intros [_ ->].
  - split; [done|]. intros [[_ _ _ Hm] _]. exfalso. apply eqb_false_iff in Eab. apply Eab.
    rewrite <- Hnamed, <- Hmask in Hm. destruct a, b; intuition congruence.
Qed.

Lemma valid_acl_perm es es' : es ≡ₚ es' -> valid_acl es -> valid_acl es'.
Proof.
  intros Hp [H1 H2 H3 H4]. split.
  - by rewrite <- Hp.
  - by rewrite <- Hp.
  - intros t Ht. rewrite <- Hp. auto.
  - setoid_rewrite <- Hp. done.
Qed.

(** The keys of a valid ACL order its entries completely. *)
Lemma keys_antisym (es : list Entry) a b :
  NoDup (map _order es) -> a ∈ es -> b ∈ es -> order_le a b -> order_le b a -> a = b.
Proof.
  intros Hn Ha Hb H1 H2.
  assert (_order a = _order b) as Hk by (unfold _order, order_le in *; f_equal; lia).
  apply list_elem_of_lookup in Ha as [i Hi]. apply list_elem_of_lookup in Hb as [j Hj].
  assert (i = j) as ->; [|congruence].
  apply (NoDup_lookup (map _order es) i j (_order a)); [done| |].
  - by rewrite list_lookup_fmap, Hi.
  - by rewrite list_lookup_fmap, Hj, Hk.
Qed.

Lemma sorted_unique es es' :
  NoDup (map _order es) -> es ≡ₚ es' -> StronglySorted order_le es' ->
  merge_sort order_le es = es'.
Proof.
  intros Hn Hp Hs. apply (StronglySorted_unique_strong order_le); [| |done|].
  - intros x1 x2. rewrite merge_sort_Permutation, <- Hp. by apply keys_antisym.
  - apply StronglySorted_merge_sort; apply _.
  - by rewrite merge_sort_Permutation.
Qed.

Lemma pack_length n v : length (pack n v) = n.
Proof. revert v. induction n; intros v; simpl; [done|]. by rewrite IHn. Qed.

Lemma pack_bytes n v b : b ∈ pack n v -> 0 <= b < 256.
Proof.
  revert v. induction n as [|n IH]; intros v; simpl; [by intros ?%elem_of_nil|].
  rewrite elem_of_cons. intros [->|H]; [apply Z.mod_pos_bound; lia|by eapply IH].
Qed.

Lemma unpack_pack n v : 0 <= v < 256 ^ Z.of_nat n -> unpack (pack n v) = v.
Proof.
  revert v. induction n as [|n IH]; intros v Hv; cbn [pack unpack]; [change (256 ^ Z.of_nat 0) with 1 in Hv; lia|].
  rewrite IH.
  - pose proof (Z.div_mod v 256). lia.
  - rewrite Nat2Z.inj_succ, Z.pow_succ_r in Hv by lia. split; [apply Z.div_pos; lia|].
    apply Z.div_lt_upper_bound; lia.
Qed.

Lemma pack_entry_length e : length (pack_entry e) = 8%nat.
Proof. done. Qed.

Lemma land_perm p : 0 <= p <= _RWX -> Z.land p (Z.lnot _RWX) = 0.
Proof.
  intros Hp. assert (p = 0 \/ p = 1 \/ p = 2 \/ p = 3 \/ p = 4 \/ p = 5 \/ p = 6 \/ p = 7)
    as Hc by (change _RWX with 7 in Hp; lia).
  repeat destruct Hc as [->|Hc]; [reflexivity..|]. by subst.
Qed.

Lemma entry_ok_bounds e :
  entry_ok e = true ->
  tag e ∈ _TAGS /\ 0 <= tag e < 256 ^ 2 /\ 0 <= perm e <= _RWX /\ 0 <= id e < 256 ^ 4.
Proof.
  unfold entry_ok. intros H. b2p.
  assert (0 <= tag e < 256 ^ 2).
  { match goal with H : tag e ∈ _TAGS |- _ => revert H end.
    unfold _TAGS. rewrite !elem_of_cons, elem_of_nil.
    unfold ACL_USER_OBJ, ACL_USER, ACL_GROUP_OBJ, ACL_GROUP, ACL_MASK, ACL_OTHER. lia. }
  unfold ACL_UNDEFINED_ID in *. split_and!; try done; case_bool_decide; b2p; lia.
Qed.

Lemma decode_entry_pack e : entry_ok e = true -> decode_entry (pack_entry e) = Ok e.
Proof.
  intros (Ht & Htb & Hp & Hi)%entry_ok_bounds.
  unfold decode_entry, pack_entry.
  change (take 2 (drop 2 _)) with (pack 2 (perm e)). change (take 2 _) with (pack 2 (tag e)).
  change (drop 4 _) with (pack 4 (id e)).
  assert (0 <= perm e < 256 ^ 2) as Hpb by (change _RWX with 7 in Hp; lia).
  rewrite (unpack_pack 2 _ Htb), (unpack_pack 2 _ Hpb), (unpack_pack 4 _ Hi).
  rewrite bool_decide_eq_true_2, land_perm by done. simpl. by destruct e.
Qed.

Lemma decode_entries_pack es :
  Forall (fun e => entry_ok e = true) es ->
  decode_entries (length es) (concat (map pack_entry es)) = Ok es.
Proof.
  induction 1 as [|e es He Hes IH]; [done|]. cbn [length decode_entries map concat].
  rewrite (take_app_le _ _ 8), take_ge by (by rewrite ?pack_entry_length).
  rewrite (drop_app_le _ _ 8), (drop_ge (pack_entry e)) by (by rewrite ?pack_entry_length).
  cbn [app]. rewrite decode_entry_pack by done. simpl. by rewrite IH.
Qed.

Lemma body_length es : length (concat (map pack_entry es)) = (8 * length es)%nat.
Proof. induction es; simpl; [done|]. rewrite IHes. lia. Qed.

Lemma decode_pack es :
  Forall (fun e => entry_ok e = true) es ->
  decode (pack 4 _VERSION ++ concat (map pack_entry es)) = Ok es.
Proof.
  intros Hes. unfold decode. rewrite length_app, pack_length, body_length.
  assert (Nat.div (4 + 8 * length es - 4) 8 = length es) as Hdiv.
  { replace (4 + 8 * length es - 4)%nat with (length es * 8)%nat by lia. by apply Nat.div_mul. }
  assert (Nat.modulo (4 + 8 * length es - 4) 8 = 0)%nat as Hmod.
  { replace (4 + 8 * length es - 4)%nat with (length es * 8)%nat by lia. by apply Nat.Div0.mod_mul. }
  rewrite Hdiv, Hmod. replace (4 + 8 * length es <? 4)%nat with false by (symmetry; apply Nat.ltb_ge; lia).
  simpl (take 4 _). simpl (drop 4 _). cbn [orb negb].
  change (negb (0 =? 0)%nat) with false.
  change (unpack [2; 0; 0; 0]) with 2.
  by apply decode_entries_pack.
Qed.

(** [encode] accepts exactly the valid ACLs, and its bytes determine them: [decode]
    gives back the entries in (tag, id) order, two ACLs have the same bytes exactly when
    they have the same entries, and the value is four bytes and eight per entry. *)
Theorem acl_round_trip es :
  ((exists data, encode es = Ok data) <-> valid_acl es) /\
  forall data, encode es = Ok data ->
    decode data = Ok (merge_sort order_le es)
    /\ StronglySorted order_le (merge_sort order_le es) /\ merge_sort order_le es ≡ₚ es
    /\ (forall es', encode es' = Ok data <-> es' ≡ₚ es)
    /\ length data = (4 + 8 * length es)%nat /\ (forall b, b ∈ data -> 0 <= b < 256).
Proof.
  split.
  { split; [intros [data [H _]%encode_valid]; done|]. intros H.
    eexists. by apply encode_valid. }
  intros data [Hv ->]%encode_valid. pose proof (merge_sort_Permutation order_le es) as Hp.
  assert (forall l, valid_acl l ->
    decode (pack 4 _VERSION ++ concat (map pack_entry (merge_sort order_le l)))
      = Ok (merge_sort order_le l)) as Hdec.
  { intros l [Hl _ _ _]. apply decode_pack. by rewrite merge_sort_Permutation. }
  split_and!; [by apply Hdec|apply StronglySorted_merge_sort; apply _|done| | |].
  - intros es'. split.
    + intros [Hv' Heq]%encode_valid. apply (f_equal decode) in Heq.
      rewrite !Hdec in Heq by done. apply (inj Ok) in Heq || injection Heq as Heq.
      by rewrite <- (merge_sort_Permutation order_le es'), <- Heq.
    + intros Hp'. apply encode_valid. split; [by eapply valid_acl_perm|].
      do 3 f_equal. symmetry. apply sorted_unique.
      * rewrite Hp'. by destruct Hv.
      * by rewrite merge_sort_Permutation.
      * apply StronglySorted_merge_sort; apply _.
  - by rewrite length_app, pack_length, body_length, merge_sort_Permutation.
  - intros b. rewrite elem_of_app. intros [Hb|Hb]; [by eapply pack_bytes|].
    apply list_elem_of_In, in_concat in Hb as (l & Hl & Hb).
    apply list_elem_of_In, list_elem_of_fmap in Hl as (e & -> & _).
    apply list_elem_of_In in Hb. unfold pack_entry in Hb.
    rewrite !elem_of_app in Hb. destruct Hb as [Hb|[Hb|Hb]]; by eapply pack_bytes.
Qed.

(** ** The ACLs the grants store *)

Lemma small_perm p : 0 <= p <= 7 -> p ∈ [0; 1; 2; 3; 4; 5; 6; 7].
Proof. intros Hp. rewrite !elem_of_cons, elem_of_nil. lia. Qed.

(** Perm bits: cut by another value they stay perm bits, joined as well. *)
Lemma land_small a p : 0 <= a <= 7 -> 0 <= Z.land a p <= 7.
Proof.
  intros Ha. split; [apply Z.land_nonneg; lia|].
  assert (Z.land a p = Z.land (Z.land a p) 7) as ->.
  { rewrite <- Z.land_assoc, (Z.land_comm p 7), Z.land_assoc.
    f_equal. apply small_perm in Ha. rewrite !elem_of_cons, elem_of_nil in Ha.
    repeat destruct Ha as [->|Ha]; done. }
  change (Z.land (Z.land a p) 7) with (Z.land (Z.land a p) (Z.ones 3)).
  rewrite Z.land_ones by lia.
  pose proof (Z.mod_pos_bound (Z.land a p) (2 ^ 3) ltac:(lia)). lia.
Qed.

Lemma bits_small v : 0 <= Z.land v _RWX <= 7.
Proof. rewrite Z.land_comm. apply land_small. done. Qed.

Lemma lor_small a b : 0 <= a <= 7 -> 0 <= b <= 7 -> 0 <= Z.lor a b <= 7.
Proof.
  intros Ha%small_perm Hb%small_perm. rewrite !elem_of_cons, elem_of_nil in Ha, Hb.
  repeat destruct Ha as [->|Ha]; try done; repeat destruct Hb as [->|Hb]; done.
Qed.

Lemma entry_ok_unnamed t p :
  t ∈ [ACL_USER_OBJ; ACL_GROUP_OBJ; ACL_MASK; ACL_OTHER] -> 0 <= p <= 7 ->
  entry_ok (unnamed t p) = true.
Proof.
  intros Ht Hp. unfold entry_ok. simpl tag. simpl perm. simpl id.
  change _RWX with 7. rewrite !elem_of_cons, elem_of_nil in Ht.
  rewrite !andb_true_iff, !Z.leb_le.
  repeat destruct Ht as [->|Ht]; try done; (split; [split; [reflexivity|lia]|reflexivity]).
Qed.

Lemma entry_ok_user p u :
  0 <= p <= 7 -> 0 <= u < ACL_UNDEFINED_ID -> entry_ok (MkEntry ACL_USER p u) = true.
Proof.
  intros Hp Hu. unfold entry_ok. simpl tag. simpl perm. simpl id.
  change _RWX with 7. rewrite bool_decide_eq_true_2 by (unfold _TAGS; apply list_elem_of_In; simpl; tauto).
  rewrite bool_decide_eq_true_2 by (unfold _NAMED_TAGS; apply list_elem_of_In; simpl; tauto).
  rewrite !andb_true_iff, !Z.leb_le, Z.ltb_lt. lia.
Qed.

Definition known_user (u : Z) : Prop := 0 <= u < ACL_UNDEFINED_ID.

(** The shape every ACL of this file has: the base entries, a mask and named users in
    increasing order. *)
Definition user_acl (user : Z) (users : list (Z * Z)) (group mask other : Z) : list Entry :=
  unnamed ACL_USER_OBJ user :: map (fun pu => MkEntry ACL_USER (fst pu) (snd pu)) users ++
  [unnamed ACL_GROUP_OBJ group; unnamed ACL_MASK mask; unnamed ACL_OTHER other].

Lemma user_acl_keys user users group mask other :
  map _order (user_acl user users group mask other) =
    (ACL_USER_OBJ, ACL_UNDEFINED_ID) :: map (fun u => (ACL_USER, u)) (map snd users) ++
    [(ACL_GROUP_OBJ, ACL_UNDEFINED_ID); (ACL_MASK, ACL_UNDEFINED_ID); (ACL_OTHER, ACL_UNDEFINED_ID)].
Proof. unfold user_acl. simpl. by rewrite map_app, !map_map. Qed.

Lemma user_acl_valid user users group mask other :
  0 <= user <= 7 -> 0 <= group <= 7 -> 0 <= mask <= 7 -> 0 <= other <= 7 ->
  users <> [] -> Forall (fun pu => 0 <= fst pu <= 7 /\ known_user (snd pu)) users ->
  NoDup (map snd users) -> valid_acl (user_acl user users group mask other).
Proof.
  intros Hu Hg Hm Ho Hne Husers Hnd.
  assert (forall t, t ∈ [ACL_USER_OBJ; ACL_GROUP_OBJ; ACL_MASK; ACL_OTHER] ->
    (t, ACL_UNDEFINED_ID) ∈ map _order (user_acl user users group mask other)) as Hin.
  { intros t Ht. rewrite user_acl_keys, elem_of_cons, elem_of_app.
    rewrite !elem_of_cons, elem_of_nil in *. destruct_or?; subst; auto 10; by apply elem_of_nil in Ht. }
  split.
  - unfold user_acl. rewrite Forall_cons, Forall_app. split_and!.
    + apply entry_ok_unnamed; [by apply elem_of_cons; left|done].
    + apply Forall_map. eapply Forall_impl; [exact Husers|].
      intros [p u] [? ?]. by apply entry_ok_user.
    + repeat (apply Forall_cons; split);
        [apply entry_ok_unnamed; [apply list_elem_of_In; simpl; tauto|done]..|constructor].
  - rewrite user_acl_keys, NoDup_cons, NoDup_app.
    split_and!.
    + rewrite elem_of_app, list_elem_of_fmap, !elem_of_cons, elem_of_nil.
      intros [(u & [=] & _)|Hx]; destruct_or?; simplify_eq; done.
    + by apply NoDup_fmap; [intros ?? [=]|].
    + intros x (u & -> & _)%list_elem_of_fmap. rewrite !elem_of_cons, elem_of_nil.
      intros Hx. destruct_or?; simplify_eq; done.
    + repeat (apply NoDup_cons; split); [..|constructor];
        rewrite ?elem_of_cons, ?elem_of_nil; intros Hx; destruct_or?; simplify_eq; done.
  - intros t Ht. apply Hin. unfold _REQUIRED in Ht.
    rewrite !elem_of_cons, elem_of_nil in *. destruct_or?; subst; auto 10; by apply elem_of_nil in Ht.
  - split; [intros _; apply Hin, list_elem_of_In; simpl; tauto|]. intros _.
    destruct users as [|[p u] users]; [done|]. exists (MkEntry ACL_USER p u).
    split; [|apply list_elem_of_In; simpl; tauto].
    unfold user_acl. apply elem_of_cons. right. apply elem_of_app. left.
    apply elem_of_cons. by left.
Qed.

(** Entries in the stored order. *)
Lemma user_acl_sorted user users group mask other :
  Sorted Z.lt (map snd users) -> StronglySorted order_le (user_acl user users group mask other).
Proof.
  intros Hs. apply Sorted_StronglySorted in Hs; [|intros a b c; lia]. unfold user_acl.
  assert (StronglySorted order_le
    [unnamed ACL_GROUP_OBJ group; unnamed ACL_MASK mask; unnamed ACL_OTHER other]) as Htail.
  { repeat constructor; left; done. }
  constructor.
  - induction users as [|[p u] users IH]; [done|]. simpl. inversion_clear Hs as [|? ? Hs' Hu].
    constructor; [by apply IH|]. apply Forall_app. split.
    + apply Forall_map. rewrite Forall_map in Hu. eapply Forall_impl; [exact Hu|].
      intros [p' u']. right. simpl in *. lia.
    + repeat constructor; left; done.
  - apply Forall_app. split; [apply Forall_map, Forall_true; left; done|].
    repeat constructor; left; done.
Qed.

(** Such an ACL is stored as it is written. *)
Lemma user_acl_encode user users group mask other :
  valid_acl (user_acl user users group mask other) -> Sorted Z.lt (map snd users) ->
  exists data, encode (user_acl user users group mask other) = Ok data
          /\ decode data = Ok (user_acl user users group mask other).
Proof.
  intros Hv Hs. exists (pack 4 _VERSION ++
    concat (map pack_entry (merge_sort order_le (user_acl user users group mask other)))).
  split; [by apply encode_valid|].
  rewrite sorted_unique with (es' := user_acl user users group mask other).
  - apply decode_pack. by destruct Hv.
  - by destruct Hv.
  - done.
  - by apply user_acl_sorted.
Qed.

Lemma tree_acl_user_acl uid user named group mask other :
  _tree_acl uid user named group mask other = user_acl user [(named, uid)] group mask other.
Proof. done. Qed.

Lemma tree_acl_encode uid user named group mask other :
  known_user uid -> 0 <= user <= 7 -> 0 <= named <= 7 -> 0 <= group <= 7 ->
  0 <= mask <= 7 -> 0 <= other <= 7 ->
  exists data, encode (_tree_acl uid user named group mask other) = Ok data
          /\ decode data = Ok (_tree_acl uid user named group mask other).
Proof.
  intros. apply (user_acl_encode user [(named, uid)]); [|by repeat constructor].
  apply user_acl_valid; try done; [by apply Forall_singleton|apply NoDup_singleton].
Qed.

Lemma sorted_pair_lt a b : Sorted Z.lt (sorted_pair a b).
Proof.
  unfold sorted_pair. repeat case_match; b2p; repeat constructor; lia.
Qed.

Lemma sorted_pair_elem a b x : x ∈ sorted_pair a b <-> x = a \/ x = b.
Proof.
  unfold sorted_pair. repeat case_match; b2p; rewrite ?elem_of_cons, ?elem_of_nil; naive_solver.
Qed.

Lemma dir_default_user_acl uid app_uid :
  session_dir_default uid app_uid =
    user_acl _RWX (map (fun u => (_RWX, u)) (sorted_pair uid app_uid)) 0 _RWX 0.
Proof. unfold session_dir_default, user_acl. by rewrite map_map. Qed.

Lemma dir_default_users uid app_uid :
  map snd (map (fun u => (_RWX, u)) (sorted_pair uid app_uid)) = sorted_pair uid app_uid.
Proof. rewrite map_map. apply map_id. Qed.

Lemma dir_default_encode uid app_uid :
  known_user uid -> known_user app_uid ->
  exists data, encode (session_dir_default uid app_uid) = Ok data
          /\ decode data = Ok (session_dir_default uid app_uid).
Proof.
  intros Hu Ha. rewrite dir_default_user_acl.
  apply user_acl_encode; [|rewrite dir_default_users; apply sorted_pair_lt].
  apply user_acl_valid; try done.
  - unfold sorted_pair. repeat case_match; done.
  - apply Forall_map, Forall_forall. intros u [->| ->]%sorted_pair_elem; done.
  - rewrite dir_default_users. pose proof (sorted_pair_lt uid app_uid) as Hs.
    unfold sorted_pair. repeat case_match; b2p; repeat (apply NoDup_cons; split);
      rewrite ?elem_of_cons, ?elem_of_nil; try lia; try constructor; naive_solver lia.
Qed.

Lemma dir_default_known uid app_uid data :
  encode (session_dir_default uid app_uid) = Ok data -> known_user uid /\ known_user app_uid.
Proof.
  intros [[Hf _ _ _] _]%encode_valid. rewrite Forall_forall in Hf.
  enough (forall u, u ∈ sorted_pair uid app_uid -> known_user u) as H.
  { split; apply H, sorted_pair_elem; [by left|by right]. }
  intros u Hu.
  assert (MkEntry ACL_USER _RWX u ∈ session_dir_default uid app_uid) as Hin.
  { unfold session_dir_default. rewrite elem_of_cons, elem_of_app, list_elem_of_fmap. eauto. }
  apply Hf in Hin. unfold entry_ok in Hin. simpl in Hin. unfold known_user. b2p. lia.
Qed.

(** ** One entry of the walk *)

Definition mode_user (m : Z) : Z := Z.land (Z.shiftr m 6) _RWX.
Definition mode_group (m : Z) : Z := Z.land (Z.shiftr m 3) _RWX.
Definition mode_other (m : Z) : Z := Z.land m _RWX.

(** The bits of [a] are among those of [b]. *)
Definition subset (a b : Z) : Prop := Z.land a b = a.

Lemma foldl_land_group (f : Entry -> bool) es g m :
  0 <= g <= 7 -> subset g m ->
  let g' := foldl (fun g e => if f e then Z.land g (perm e) else g) g es in
  0 <= g' <= 7 /\ subset g' m.
Proof.
  revert g. induction es as [|e es IH]; intros g Hg Hs; [done|]. simpl. apply IH.
  - destruct (f e); [by apply land_small|done].
  - destruct (f e); [|done]. unfold subset in *.
    by rewrite <- Z.land_assoc, (Z.land_comm (perm e)), Z.land_assoc, Hs.
Qed.

Lemma base_perms_spec x st user group other :
  _base_perms x st = Ok (user, group, other) ->
  user = mode_user (st_mode st) /\ other = mode_other (st_mode st) /\
  0 <= group <= 7 /\ subset group (mode_group (st_mode st)).
Proof.
  unfold _base_perms. destruct (get_acl x) as [acl|]; simpl; [|done].
  intros [= <- <- <-]. split_and!; [done|done|..];
    apply (foldl_land_group (fun e => tag e =? ACL_GROUP_OBJ) _ _ (mode_group (st_mode st)));
    (apply bits_small || apply Z.land_diag || idtac).
Qed.

Section entry.
Context (uid : Z) (dir_default : list Entry) (owner dev : Z).

(** A stored ACL is one of the three the walk may store, on an object it may touch. *)
Definition tree_store (it : Item) (fd : Z) (ev : Event) : Prop :=
  match ev with
  | Stored fd' as_default data =>
      fd' = fd /\ exists st now, i_lstat it = Ok st /\ i_fstat it = Ok now /\
        st_dev now = st_dev st /\ st_ino now = st_ino st /\ st_uid now = owner /\
        let m := st_mode now in
        if as_default then
          S_ISDIR m = true /\ st_dev now = dev /\ decode data = Ok dir_default
        else exists group, subset group (mode_group m) /\
          (S_ISDIR m = true /\ st_dev now = dev /\
             decode data = Ok (_tree_acl uid (mode_user m) _RWX group _RWX (mode_other m))
           \/ S_ISREG m = true /\ st_nlink now = 1 /\
             decode data = Ok (_tree_acl uid (mode_user m) (mode_user m) group
                                 (Z.lor (mode_user m) group) (mode_other m)))
  | _ => False
  end.

(** What a visit does to the counters. *)
Definition visits (w w' : World) : Prop :=
  dirs (stats w') + files (stats w') + skipped (stats w')
    <= dirs (stats w) + files (stats w) + skipped (stats w) + 1
  /\ errors (stats w) <= errors (stats w')
  /\ truncated (stats w') = truncated (stats w).

Ltac counts := unfold visits; simpl; split_and!; done || lia.

Lemma store_spec fd d entries ans w w' r :
  store fd d entries ans w = (w', r) ->
  (exists data, encode entries = Ok data /\ w' = emit (Stored fd d data) w /\ r = Ok tt)
  \/ exists e, w' = w /\ r = Err e.
Proof.
  unfold store, set_acl. destruct (encode entries) as [data|e] eqn:E; simpl.
  - destruct ans; intros [= <- <-]; [right; eauto|left; eauto].
  - intros [= <- <-]. right. eauto.
Qed.

Hypothesis Huid : known_user uid.
Hypothesis Hdefault : exists data, encode dir_default = Ok data /\ decode data = Ok dir_default.

Lemma stored_as_encoded entries data :
  encode entries = Ok data ->
  (exists data', encode entries = Ok data' /\ decode data' = Ok entries) ->
  decode data = Ok entries.
Proof. intros H (data' & H' & Hd). congruence. Qed.

(** What the visit of an entry did between the open and the close: it stored allowed
    ACLs, counted at most one outcome, and keeps the descriptor of a directory only. *)
Definition granted (it : Item) (fd : Z) (w w' : World) (r : result Exn bool) : Prop :=
  exists evs, trace w' = trace w ++ evs /\ Forall (tree_store it fd) evs /\ visits w w'.

Lemma granted_nothing it fd w w' r :
  trace w' = trace w -> visits w w' -> granted it fd w w' r.
Proof. intros H1 H2. exists []. by rewrite app_nil_r. Qed.

Lemma caught_spec w e w' r : caught w e = (w', r) -> trace w' = trace w /\ visits w w'.
Proof. unfold caught, visits. destruct e; intros [= <- <-]; simpl; split_and!; done || lia. Qed.

Lemma granted_caught it fd w0 w evs w' e r :
  trace w = trace w0 ++ evs -> stats w = stats w0 -> Forall (tree_store it fd) evs ->
  caught w e = (w', r) -> granted it fd w0 w' r.
Proof.
  intros Ht Hs Hf [Ht' Hv]%caught_spec. exists evs. rewrite Ht', Ht. split_and!; [done|done|].
  unfold visits in *. by rewrite <- Hs.
Qed.

Lemma grant_kind_spec it fd st now kind user group other w w' r :
  i_lstat it = Ok st -> i_fstat it = Ok now ->
  st_dev now = st_dev st -> st_ino now = st_ino st -> _classify now owner dev = Some kind ->
  _base_perms (i_getxattr it) now = Ok (user, group, other) ->
  grant_kind uid dir_default it fd kind user group other w = (w', r) ->
  granted it fd w w' r.
Proof.
  intros Hl Hnow Hdev Hino Hk (-> & -> & Hg & Hsub)%base_perms_spec.
  pose proof (bits_small (Z.shiftr (st_mode now) 6)) as Hub. fold (mode_user (st_mode now)) in Hub.
  pose proof (bits_small (st_mode now)) as Hob. fold (mode_other (st_mode now)) in Hob.
  unfold _classify in Hk. destruct (st_uid now =? owner) eqn:Eo; simpl in Hk; [|done].
  apply Z.eqb_eq in Eo. unfold grant_kind.
  destruct (S_ISDIR (st_mode now)) eqn:Ed.
  - destruct (st_dev now =? dev) eqn:Edev; [|done]. apply Z.eqb_eq in Edev. injection Hk as <-.
    destruct (store fd false _ _ w) as [w1 [[]|e]] eqn:E1; apply store_spec in E1.
    2:{ destruct E1 as [(? & ? & ? & [=])|(e' & -> & [= ->])].
        by apply (granted_caught it fd w w []); rewrite ?app_nil_r. }
    destruct E1 as [(data & Henc & -> & _)|(? & ? & [=])].
    apply stored_as_encoded in Henc; [|by apply tree_acl_encode].
    assert (tree_store it fd (Stored fd false data)) as Hs1.
    { split; [done|]. exists st, now. split_and!; try done. exists (group). split; [done|]. by left. }
    destruct (store fd true _ _ _) as [w2 [[]|e]] eqn:E2; apply store_spec in E2.
    2:{ destruct E2 as [(? & ? & ? & [=])|(e' & -> & [= ->])].
        apply (granted_caught it fd w _ [Stored fd false data]); try done. by apply Forall_singleton. }
    destruct E2 as [(data2 & Henc2 & -> & _)|(? & ? & [=])].
    apply stored_as_encoded in Henc2; [|done]. intros [= <- <-].
    exists [Stored fd false data; Stored fd true data2]. split_and!; simpl.
    + by rewrite <- app_assoc.
    + repeat (apply Forall_cons; split); [done| |constructor].
      split; [done|]. exists st, now. by split_and!.
    + counts.
  - destruct (S_ISREG (st_mode now)) eqn:Er; simpl in Hk; [|done].
    destruct (st_nlink now =? 1) eqn:En; [|done]. apply Z.eqb_eq in En. injection Hk as <-.
    destruct (store fd false _ _ w) as [w1 [[]|e]] eqn:E1; apply store_spec in E1.
    2:{ destruct E1 as [(? & ? & ? & [=])|(e' & -> & [= ->])].
        by apply (granted_caught it fd w w []); rewrite ?app_nil_r. }
    destruct E1 as [(data & Henc & -> & _)|(? & ? & [=])]. intros [= <- <-].
    apply stored_as_encoded in Henc; [|apply tree_acl_encode; try done; by apply lor_small].
    exists [Stored fd false data]. split_and!; [done| |counts].
    apply Forall_singleton. split; [done|]. exists st, now. split_and!; try done.
    exists group. split; [done|]. by right.
Qed.

Lemma grant_opened_spec it st kind fd w w' r :
  i_lstat it = Ok st -> grant_opened uid dir_default owner dev it st kind fd w = (w', r) ->
  granted it fd w w' r.
Proof.
  intros Hl. unfold grant_opened. destruct (i_fstat it) as [now|errno] eqn:Hnow.
  2:{ by apply (granted_caught it fd w w []); rewrite ?app_nil_r. }
  destruct (bool_decide (_ = (st_dev st, st_ino st))) eqn:Esame; simpl.
  2:{ intros [= <- <-]. apply granted_nothing; [done|]. counts. }
  apply bool_decide_eq_true in Esame as [= Hdev Hino].
  destruct (bool_decide (_classify now owner dev = Some kind)) eqn:Ek; simpl.
  2:{ intros [= <- <-]. apply granted_nothing; [done|]. counts. }
  apply bool_decide_eq_true in Ek.
  destruct (_base_perms (i_getxattr it) now) as [[[user group] other]|e] eqn:Eb.
  - by eapply grant_kind_spec.
  - by apply (granted_caught it fd w w []); rewrite ?app_nil_r.
Qed.

(** The events of a visit: none, or the open, what was stored and, unless a directory
    descriptor is returned, the close. *)
Lemma grant_entry_spec it w w' r :
  _grant_entry uid dir_default owner dev it w = (w', r) ->
  visits w w' /\
  (trace w' = trace w /\ r = Ok None \/
   exists fd evs, i_open it = Ok fd /\ Forall (tree_store it fd) evs /\
     (r = Ok (Some fd) /\ trace w' = trace w ++ Opened fd :: evs \/
      (r = Ok None \/ exists e, r = Err e) /\
      trace w' = trace w ++ Opened fd :: evs ++ [Closed fd])).
Proof.
  unfold _grant_entry. destruct (i_lstat it) as [st|] eqn:Hl.
  2:{ intros [= <- <-]. split; [counts|by left]. }
  destruct (_classify st owner dev) as [kind|].
  2:{ intros [= <- <-]. split; [counts|by left]. }
  destruct (i_open it) as [fd|errno] eqn:Ho.
  2:{ intros [= <- <-]. case_bool_decide; (split; [counts|by left]). }
  destruct (grant_opened uid dir_default owner dev it st kind fd _) as [w1 r1] eqn:Eg.
  apply grant_opened_spec in Eg as (evs & Ht & Hf & Hv); [|done]. simpl in Ht.
  unfold visits in *. simpl in Hv.
  destruct r1 as [[]|e]; intros [= <- <-]; (split; [exact Hv|]); right; exists fd, evs;
    (split; [done|]); (split; [done|]).
  - left. split; [done|]. by rewrite Ht, <- app_assoc.
  - right. split; [by left|]. simpl. by rewrite Ht, <- !app_assoc.
  - right. split; [right; by exists e|]. simpl. by rewrite Ht, <- !app_assoc.
Qed.
End entry.

(** ** The whole walk *)

(** The entries a walk may come across below a listing. *)
Inductive sees (root : Listing) : Item -> Prop :=
| sees_top it : Some it ∈ root -> sees root it
| sees_below it l it' : sees root it -> i_scandir it = Ok l -> Some it' ∈ l -> sees root it'.

Definition opened_fds (tr : list Event) : list Z :=
  omap (fun ev => match ev with Opened fd => Some fd | _ => None end) tr.
Definition closed_fds (tr : list Event) : list Z :=
  omap (fun ev => match ev with Closed fd => Some fd | _ => None end) tr.
Definition opened_listings (tr : list Event) : list Z :=
  omap (fun ev => match ev with ListingOpened fd => Some fd | _ => None end) tr.
Definition closed_listings (tr : list Event) : list Z :=
  omap (fun ev => match ev with ListingClosed fd => Some fd | _ => None end) tr.

(** Descriptors of entries open after the events [tr]. *)
Definition held (tr : list Event) : Z :=
  Z.of_nat (length (opened_fds tr)) - Z.of_nat (length (closed_fds tr)).

(** At every moment of [tr] at most [n] descriptors are open. *)
Definition held_below (n : Z) (tr : list Event) : Prop :=
  forall pre post, tr = pre ++ post -> held pre <= n.

Lemma held_snoc tr ev :
  held (tr ++ [ev]) = held tr + match ev with Opened _ => 1 | Closed _ => -1 | _ => 0 end.
Proof.
  unfold held, opened_fds, closed_fds. rewrite !omap_app, !length_app.
  destruct ev; simpl; lia.
Qed.

Lemma held_below_snoc n tr ev :
  held_below n tr -> held (tr ++ [ev]) <= n -> held_below n (tr ++ [ev]).
Proof.
  intros Hb Hn pre post Heq. destruct (decide (post = [])) as [->|Hp].
  - rewrite app_nil_r in Heq. by subst.
  - destruct (exists_last Hp) as (post' & y & ->). rewrite app_assoc in Heq.
    apply app_inj_tail in Heq as [-> _]. by eapply Hb.
Qed.

(** Stored values open and close nothing. *)
Lemma held_stores n tr evs (P : Event -> Prop) :
  held_below n tr -> Forall P evs -> (forall ev, P ev -> exists fd d data, ev = Stored fd d data) ->
  held_below n (tr ++ evs) /\ held (tr ++ evs) = held tr /\
  opened_fds (tr ++ evs) = opened_fds tr /\ closed_fds (tr ++ evs) = closed_fds tr /\
  opened_listings (tr ++ evs) = opened_listings tr /\
  closed_listings (tr ++ evs) = closed_listings tr.
Proof.
  intros Hb Hf HP. revert tr Hb. induction Hf as [|ev evs Hev Hf IH]; intros tr Hb.
  { by rewrite app_nil_r. }
  rewrite cons_middle, app_assoc. destruct (HP ev Hev) as (fd & d & data & ->).
  assert (held (tr ++ [Stored fd d data]) = held tr) as Hh by (rewrite held_snoc; lia).
  edestruct (IH (tr ++ [Stored fd d data])) as (H1 & H2 & H3 & H4 & H5 & H6).
  { apply held_below_snoc; [done|]. rewrite Hh. apply (Hb tr []). by rewrite app_nil_r. }
  rewrite H2, H3, H4, H5, H6. unfold opened_fds, closed_fds, opened_listings, closed_listings.
  rewrite !omap_app. simpl. by rewrite !app_nil_r.
Qed.

Section invariant.
Context (uid : Z) (dir_default : list Entry) (owner dev root_fd max_entries : Z).

Notation walk_step := (walk_step uid dir_default owner dev root_fd max_entries).
Notation walk := (walk uid dir_default owner dev root_fd max_entries).

(** An invariant of the turns holds where the loop stops. *)
Lemma walk_invariant (I : Z -> Stack -> World -> Prop) (F : World -> result Exn unit -> Stack -> Prop) :
  (forall v s w, I v s w ->
     match walk_step v s w with Again v' s' w' => I v' s' w' | Stop w' r s' => F w' r s' end) ->
  forall fuel v s w w' r s', I v s w -> walk fuel v s w = Some (w', r, s') -> F w' r s'.
Proof.
  intros Hstep fuel. induction fuel as [|fuel IH]; intros v s w w' r s' HI; simpl; [done|].
  specialize (Hstep v s w HI). destruct (walk_step v s w); [by apply IH|].
  by intros [= <- <- <-].
Qed.

(** The fuel suffices: a turn visits an entry or leaves a directory. *)
Lemma walk_step_measure v s w v' s' w' :
  walk_step v s w = Again v' s' w' ->
  (2 * Z.to_nat (max_entries - v') + length s' < 2 * Z.to_nat (max_entries - v) + length s)%nat.
Proof.
  unfold PosixAcl.walk_step. destruct s as [|[dfd listing] below]; [done|].
  destruct (next_item listing w) as [[[it|] rest] w1]; [|intros [= <- <- <-]; simpl; lia].
  destruct (max_entries <=? v) eqn:Em; [done|]. apply Z.leb_gt in Em.
  destruct (_grant_entry uid dir_default owner dev it w1) as [w2 [[child|]|e]]; [| |done].
  - unfold enter. repeat case_match; intros [= <- <- <-]; simpl; lia.
  - intros [= <- <- <-]. simpl. lia.
Qed.

Lemma walk_total fuel v s w :
  (2 * Z.to_nat (max_entries - v) + length s < fuel)%nat -> is_Some (walk fuel v s w).
Proof.
  revert v s w. induction fuel as [|fuel IH]; intros v s w Hf; [lia|]. simpl.
  destruct (walk_step v s w) as [v' s' w'|] eqn:E; [|done].
  apply walk_step_measure in E. apply IH. lia.
Qed.

Context (root : Listing).
Hypothesis Huid : known_user uid.
Hypothesis Hdefault : exists data, encode dir_default = Ok data /\ decode data = Ok dir_default.

(** What is true of every event of the trace. *)
Definition allowed (ev : Event) : Prop :=
  match ev with
  | Stored fd _ _ =>
      exists it, sees root it /\ i_open it = Ok fd /\ tree_store uid dir_default owner dev it fd ev
  | _ => True
  end.

Lemma tree_store_stored it fd ev :
  tree_store uid dir_default owner dev it fd ev -> exists fd d data, ev = Stored fd d data.
Proof. destruct ev; try done. eauto. Qed.

(** The entries of the listings on the stack are entries of the tree. *)
Definition stack_seen (s : Stack) : Prop :=
  Forall (fun lv => forall it, Some it ∈ snd lv -> sees root it) s.

Lemma next_item_spec listing w it rest w' :
  next_item listing w = (it, rest, w') ->
  (forall x, x ∈ rest -> x ∈ listing) /\ trace w' = trace w /\
  dirs (stats w') = dirs (stats w) /\ files (stats w') = files (stats w) /\
  skipped (stats w') = skipped (stats w) /\ truncated (stats w') = truncated (stats w) /\
  match it with Some x => Some x ∈ listing /\ w' = w | None => True end.
Proof.
  unfold next_item. destruct listing as [|[x|] l]; intros [= <- <- <-]; split_and!; try done;
    try (intros; apply elem_of_cons; by right); apply elem_of_cons; by left.
Qed.

Lemma allowed_stores it fd evs :
  sees root it -> i_open it = Ok fd -> Forall (tree_store uid dir_default owner dev it fd) evs ->
  Forall allowed evs.
Proof.
  intros Hit Ho Hf. eapply Forall_impl; [exact Hf|]. intros ev Hev.
  pose proof Hev as (fd' & d & data & ->)%tree_store_stored. pose proof Hev as [-> _].
  simpl. eauto.
Qed.

Lemma allowed_close dfd w :
  Forall allowed (trace w) -> Forall allowed (trace (close_level root_fd dfd w)).
Proof.
  intros H. unfold close_level. case_match; simpl; rewrite ?Forall_app; repeat split; done || by constructor.
Qed.

Lemma walk_step_allowed v s w :
  stack_seen s /\ Forall allowed (trace w) ->
  match walk_step v s w with
  | Again _ s' w' => stack_seen s' /\ Forall allowed (trace w')
  | Stop w' _ s' => Forall allowed (trace w')
  end.
Proof.
  intros [Hs Ht]. unfold PosixAcl.walk_step. destruct s as [|[dfd listing] below]; [done|].
  apply Forall_cons in Hs as [Hl Hbelow].
  destruct (next_item listing w) as [[[it|] rest] w1] eqn:En;
    apply next_item_spec in En as (Hrest & Htr & _ & _ & _ & _ & Hit).
  2:{ split; [done|]. apply allowed_close. by rewrite Htr. }
  destruct Hit as [Hin ->]. destruct (max_entries <=? v); [done|].
  assert (stack_seen ((dfd, rest) :: below)) as Hs'.
  { apply Forall_cons. split; [|done]. intros x Hx. apply Hl. by apply Hrest. }
  destruct (_grant_entry uid dir_default owner dev it w) as [w2 r] eqn:Eg.
  apply grant_entry_spec in Eg as [_ Htrace]; [|done..].
  assert (Forall allowed (trace w2)) as Ht2.
  { destruct Htrace as [[-> _]|(fd & evs & Ho & Hevs & [[_ ->]|[_ ->]])]; [done|..];
      rewrite !Forall_app, ?Forall_cons, ?Forall_app; repeat split; try done;
      (by eapply allowed_stores; [by apply Hl|..]) || by constructor. }
  destruct r as [[child|]|e]; [|done..].
  unfold enter. destruct (_ <? _)%nat.
  { split; [done|]. simpl. apply Forall_app. split; [done|by constructor]. }
  destruct (i_scandir it) as [l|] eqn:El; simpl;
    (split; [|apply Forall_app; split; [done|by constructor]]); [|done].
  apply Forall_cons. split; [|done]. intros x Hx. eapply sees_below; [by apply Hl|done|done].
Qed.

Hypothesis Hfresh : forall it fd, sees root it -> i_open it = Ok fd -> fd <> root_fd.

(** The descriptors on the stack, the root's at the bottom apart. *)
Definition levels (s : Stack) : list Z := filter (fun fd => fd <> root_fd) (map fst s).

Definition max_held : Z := Z.of_nat _MAX_DEPTH + 1.

Record accounts (v : Z) (s : Stack) (w : World) : Prop := {
  ac_stack : s = [] \/ exists lv l, s = lv ++ [(root_fd, l)] /\ Forall (fun x => fst x <> root_fd) lv;
  ac_seen : stack_seen s;
  ac_depth : (length s <= S _MAX_DEPTH)%nat;
  ac_fds : opened_fds (trace w) ≡ₚ levels s ++ closed_fds (trace w);
  ac_listings : opened_listings (trace w) ≡ₚ map fst s ++ closed_listings (trace w);
  ac_held : held_below max_held (trace w);
  ac_opens : Z.of_nat (length (opened_fds (trace w))) <= v;
  ac_counts : dirs (stats w) + files (stats w) + skipped (stats w) <= v;
  ac_visited : 0 <= v <= Z.max 0 max_entries;
}.

Lemma levels_cons dfd l s :
  levels ((dfd, l) :: s) = if decide (dfd = root_fd) then levels s else dfd :: levels s.
Proof.
  unfold levels. simpl. rewrite filter_cons. by repeat case_decide.
Qed.

Lemma levels_length s :
  (s = [] \/ exists lv l, s = lv ++ [(root_fd, l)] /\ Forall (fun x => fst x <> root_fd) lv) ->
  (length s <= S _MAX_DEPTH)%nat -> Z.of_nat (length (levels s)) <= Z.of_nat _MAX_DEPTH.
Proof.
  intros [->|(lv & l & -> & _)] Hd; [done|]. rewrite length_app in Hd. cbn [length] in Hd.
  unfold levels. rewrite map_app, filter_app, length_app.
  pose proof (length_filter (fun fd => fd <> root_fd) (map fst lv)) as Hf.
  rewrite length_map in Hf. cbn [map fst]. rewrite filter_cons_False by naive_solver.
  cbn [length filter list_filter]. lia.
Qed.

Lemma accounts_held v s w :
  accounts v s w -> held (trace w) = Z.of_nat (length (levels s)).
Proof. intros [_ _ _ Hf _ _ _ _ _]. unfold held. rewrite Hf, length_app. lia. Qed.

(** The trace after an entry was opened and its ACLs stored. *)
Record opens (fd : Z) (tr tr' : list Event) : Prop := {
  op_opened : opened_fds tr' = opened_fds tr ++ [fd];
  op_closed : closed_fds tr' = closed_fds tr;
  op_lo : opened_listings tr' = opened_listings tr;
  op_lc : closed_listings tr' = closed_listings tr;
  op_held : held_below max_held tr';
  op_one : held tr' = held tr + 1;
}.

Lemma opens_entry v s w it fd evs :
  accounts v s w -> Forall (tree_store uid dir_default owner dev it fd) evs ->
  opens fd (trace w) (trace w ++ Opened fd :: evs).
Proof.
  intros Hac Hf. pose proof (accounts_held _ _ _ Hac) as Hh.
  destruct Hac as [Hst Hse Hd _ _ Hb _ _ _]. pose proof (levels_length s Hst Hd) as Hlen.
  rewrite cons_middle, app_assoc.
  edestruct (held_stores max_held (trace w ++ [Opened fd]) evs) as (H1 & H2 & H3 & H4 & H5 & H6);
    [|exact Hf|intros ev; apply tree_store_stored|].
  { apply held_below_snoc; [done|]. rewrite held_snoc. unfold max_held. lia. }
  split; try done; rewrite ?H2, ?H3, ?H4, ?H5, ?H6, ?held_snoc; try done;
    unfold opened_fds, closed_fds, opened_listings, closed_listings; rewrite omap_app;
    simpl; by rewrite ?app_nil_r.
Qed.

Lemma held_below_close n tr fd : held_below n tr -> held_below n (tr ++ [Closed fd]).
Proof.
  intros Hb. apply held_below_snoc; [done|]. rewrite held_snoc.
  assert (held tr <= n) by (apply (Hb tr []); by rewrite app_nil_r). lia.
Qed.

Lemma held_below_listing n tr ev :
  held_below n tr -> (forall fd, ev <> Opened fd) -> held_below n (tr ++ [ev]).
Proof.
  intros Hb Hev. apply held_below_snoc; [done|]. rewrite held_snoc.
  assert (held tr <= n) by (apply (Hb tr []); by rewrite app_nil_r).
  destruct ev; try lia. by destruct (Hev fd).
Qed.

(** An entry opened and closed again leaves the accounts as they were. *)
Lemma accounts_closed v s w w' fd tr :
  accounts v s w -> v < max_entries -> 0 <= v ->
  opens fd (trace w) tr -> trace w' = tr ++ [Closed fd] ->
  dirs (stats w') + files (stats w') + skipped (stats w') <= v + 1 ->
  accounts (v + 1) s w'.
Proof.
  intros Hac Hv Hv0 [Ho Hc Hlo Hlc Hb H1] Htr Hcount.
  destruct Hac as [Hst Hse Hd Hf Hl _ Hop _ Hvis].
  split; try done; rewrite ?Htr; try lia.
  - unfold opened_fds, closed_fds in *. rewrite !omap_app, Ho, Hc, Hf. simpl.
    by rewrite !app_nil_r, app_assoc.
  - unfold opened_listings, closed_listings in *. rewrite !omap_app, Hlo, Hlc, Hl. simpl.
    by rewrite !app_nil_r.
  - by apply held_below_close.
  - unfold opened_fds in *. rewrite omap_app, Ho. simpl. rewrite app_nil_r, length_app. simpl. lia.
Qed.

(** An entry that was never opened neither. *)
Lemma accounts_same v s w w' :
  accounts v s w -> v < max_entries -> trace w' = trace w ->
  dirs (stats w') + files (stats w') + skipped (stats w') <= v + 1 ->
  accounts (v + 1) s w'.
Proof. intros [] Hv Htr Hc. split; rewrite ?Htr; done || lia. Qed.

(** What leaving a directory adds to the trace. *)
Lemma close_level_trace dfd w :
  held_below max_held (trace w) ->
  let w' := close_level root_fd dfd w in
  opened_fds (trace w') = opened_fds (trace w) /\
  closed_fds (trace w') = closed_fds (trace w) ++ (if decide (dfd = root_fd) then [] else [dfd]) /\
  opened_listings (trace w') = opened_listings (trace w) /\
  closed_listings (trace w') = closed_listings (trace w) ++ [dfd] /\
  held_below max_held (trace w') /\ stats w' = stats w.
Proof.
  intros Hb. unfold close_level, opened_fds, closed_fds, opened_listings, closed_listings.
  assert (held_below max_held (trace w ++ [ListingClosed dfd])) by by apply held_below_listing.
  destruct (Z.eqb_spec dfd root_fd); case_decide; try done; simpl; rewrite !omap_app; simpl;
    rewrite ?app_nil_r; split_and!; try done. by apply held_below_close.
Qed.

Lemma accounts_pop v dfd l below w w' :
  accounts v ((dfd, l) :: below) w -> trace w' = trace w ->
  dirs (stats w') + files (stats w') + skipped (stats w')
    = dirs (stats w) + files (stats w) + skipped (stats w) ->
  accounts v below (close_level root_fd dfd w').
Proof.
  intros [Hst Hse Hd Hf Hl Hb Hop Hc Hv] Htr Hcnt. apply Forall_cons in Hse as [_ Hse].
  rewrite levels_cons in Hf. simpl in Hl, Hd. rewrite <- Htr in *.
  destruct (close_level_trace dfd w' Hb) as (E1 & E2 & E3 & E4 & E5 & E6).
  split; try done; rewrite ?E1, ?E2, ?E3, ?E4, ?E6; try lia.
  - destruct Hst as [?|([|x lv] & l' & Heq & Hlv)]; [done| |].
    + left. by injection Heq.
    + right. injection Heq as _ ->. apply Forall_cons in Hlv as [_ ?]. eauto.
  - rewrite Hf. case_decide; [by rewrite app_nil_r|]. simpl.
    rewrite app_assoc. apply Permutation_cons_append.
  - rewrite Hl, app_assoc. apply Permutation_cons_append.
Qed.

Lemma accounts_push v s w w' it child l :
  accounts v s w -> v < max_entries -> 0 <= v -> s <> [] -> sees root it ->
  i_open it = Ok child -> i_scandir it = Ok l -> (length s <= _MAX_DEPTH)%nat ->
  opens child (trace w) (trace w') ->
  dirs (stats w') + files (stats w') + skipped (stats w') <= v + 1 ->
  accounts (v + 1) ((child, l) :: s) (emit (ListingOpened child) w').
Proof.
  intros [Hst Hse Hd Hf Hl Hb Hop Hc Hv] Hlt Hv0 Hne Hit Hi Hsc Hlen [Ho Hcl Hlo Hlc Hb' H1] Hcnt.
  assert (child <> root_fd) as Hneq by by eapply Hfresh.
  split; simpl; try lia.
  - right. destruct Hst as [?|(lv & l' & -> & Hlv)]; [done|]. exists ((child, l) :: lv), l'.
    split; [done|]. by constructor.
  - constructor; [|done]. intros x Hx. by eapply sees_below.
  - rewrite levels_cons, decide_False by done. unfold opened_fds, closed_fds in *.
    rewrite !omap_app, Ho, Hcl, Hf. simpl. rewrite !app_nil_r.
    symmetry. apply Permutation_cons_append.
  - unfold opened_listings, closed_listings in *. rewrite !omap_app, Hlo, Hlc, Hl. simpl.
    rewrite !app_nil_r. symmetry. apply Permutation_cons_append.
  - by apply held_below_listing.
  - unfold opened_fds in *. rewrite omap_app, Ho. simpl. rewrite app_nil_r, length_app. simpl. lia.
Qed.

(** The rest of a listing in place of the listing. *)
Lemma accounts_rest v dfd l l' below w :
  accounts v ((dfd, l) :: below) w -> (forall x, x ∈ l' -> x ∈ l) ->
  accounts v ((dfd, l') :: below) w.
Proof.
  intros [Hst Hse Hd Hf Hl Hb Hop Hc Hv] Hsub. split; try done.
  - right. destruct Hst as [?|([|x lv] & l1 & Heq & Hlv)]; [done| |].
    + injection Heq as -> -> ->. exists [], l'. done.
    + injection Heq as <- ->. exists ((dfd, l') :: lv), l1. split; [done|].
      apply Forall_cons in Hlv as [? ?]. by constructor.
  - apply Forall_cons in Hse as [H1 H2]. constructor; [|done]. simpl in *. auto.
Qed.

Lemma walk_step_accounts v s w :
  accounts v s w ->
  match walk_step v s w with
  | Again v' s' w' => accounts v' s' w'
  | Stop w' r s' => exists v', accounts v' s' w'
  end.
Proof.
  intros Hac. unfold PosixAcl.walk_step. destruct s as [|[dfd listing] below]; [by exists v|].
  pose proof (ac_visited _ _ _ Hac) as Hv. pose proof (ac_counts _ _ _ Hac) as Hcnt.
  pose proof (ac_seen _ _ _ Hac) as Hse. apply Forall_cons in Hse as [Hl _].
  destruct (next_item listing w) as [[[it|] rest] w1] eqn:En;
    apply next_item_spec in En as (Hrest & Htr & Hd & Hf & Hs & _ & Hit).
  2:{ eapply accounts_pop; [done|done|]. by rewrite Hd, Hf, Hs. }
  destruct Hit as [Hin ->]. pose proof (accounts_rest _ _ _ rest _ _ Hac Hrest) as Hac'.
  destruct (max_entries <=? v) eqn:Em.
  { exists v. destruct Hac'. by split. }
  apply Z.leb_gt in Em.
  destruct (_grant_entry uid dir_default owner dev it w) as [w2 r] eqn:Eg.
  apply grant_entry_spec in Eg as [(Hv1 & Hv2 & Hv3) Htrace]; [|done..].
  assert (forall u, stats u = stats w2 ->
    dirs (stats u) + files (stats u) + skipped (stats u) <= v + 1) as Hcnt2.
  { intros u ->. lia. }
  destruct Htrace as [[Htr2 ->]|(fd & evs & Ho & Hevs & [[-> Htr2]|[Hr Htr2]])].
  - eapply accounts_same; eauto.
  - pose proof (opens_entry _ _ _ _ _ _ Hac' Hevs) as Hop. unfold enter.
    destruct (_MAX_DEPTH <? length ((dfd, rest) :: below))%nat eqn:Edepth.
    + eapply accounts_closed; [done|lia|lia|exact Hop|by simpl; rewrite Htr2|simpl; lia].
    + apply Nat.ltb_ge in Edepth. destruct (i_scandir it) as [l|] eqn:El.
      * eapply accounts_push; [done|lia|lia|done|by apply Hl|done|done|done|by rewrite Htr2|lia].
      * eapply accounts_closed; [done|lia|lia|exact Hop|by simpl; rewrite Htr2|simpl; lia].
  - pose proof (opens_entry _ _ _ _ _ _ Hac' Hevs) as Hop.
    assert (accounts (v + 1) ((dfd, rest) :: below) w2) as Hfin.
    { eapply accounts_closed; [done|lia|lia|exact Hop| |lia]. rewrite Htr2, <- app_assoc. done. }
    destruct Hr as [->|[e ->]]; eauto.
Qed.

(** The [finally] closes what is left. *)
Lemma close_stack_accounts v s w :
  accounts v s w ->
  let w' := close_stack root_fd s w in
  opened_fds (trace w') ≡ₚ closed_fds (trace w') /\
  opened_listings (trace w') ≡ₚ closed_listings (trace w') /\
  held_below max_held (trace w') /\ opened_fds (trace w') = opened_fds (trace w) /\
  stats w' = stats w.
Proof.
  intros [_ _ _ Hf Hl Hb _ _ _]. unfold close_stack.
  rewrite <- (rev_Permutation s) in Hl.
  assert (opened_fds (trace w) ≡ₚ levels (rev s) ++ closed_fds (trace w)) as Hf'.
  { rewrite Hf. unfold levels. f_equiv. by rewrite rev_Permutation. }
  clear Hf. revert w Hf' Hl Hb. induction (rev s) as [|[dfd l] s' IH]; intros w Hf Hl Hb; [done|].
  cbn [foldl fst]. rewrite levels_cons in Hf. simpl in Hl.
  destruct (close_level_trace dfd w Hb) as (E1 & E2 & E3 & E4 & E5 & E6).
  destruct (IH (close_level root_fd dfd w)) as (H1 & H2 & H3 & H4 & H5).
  - rewrite E1, E2, Hf. case_decide; [by rewrite app_nil_r|]. simpl.
    rewrite app_assoc. apply Permutation_cons_append.
  - rewrite E3, E4, Hl, app_assoc. apply Permutation_cons_append.
  - done.
  - split_and!; try done; congruence.
Qed.
End invariant.

Lemma grant_tree_setup uid app_uid data :
  encode (session_dir_default uid app_uid) = Ok data ->
  known_user uid /\ exists d, encode (session_dir_default uid app_uid) = Ok d
    /\ decode d = Ok (session_dir_default uid app_uid).
Proof.
  intros H. pose proof (dir_default_known _ _ _ H) as [Hu Ha]. split; [done|].
  by apply dir_default_encode.
Qed.

Lemma close_stack_allowed uid dd owner dev root_fd root s w :
  Forall (allowed uid dd owner dev root) (trace w) ->
  Forall (allowed uid dd owner dev root) (trace (close_stack root_fd s w)).
Proof.
  unfold close_stack. revert w. induction (rev s) as [|lv s' IH]; intros w H; [done|].
  simpl. apply IH. by apply allowed_close.
Qed.

(** C31. Whatever the system calls answer and whatever changes between them, the grant
    of a tree stores an ACL only on an entry that [fstat] on the opened descriptor
    shows to be the one the lstat saw, owned by the owner, and a directory on the
    root's device or a regular file with a single link; and it stores only the
    documented ACLs: a file gives the uid exactly the owner's bits, a directory rwx,
    the owner and the others keep theirs, the group class is never widened, and no
    other user or group is named. *)
Theorem grant_tree_safe root_fd uid app_uid owner max_entries dev root w r :
  grant_tree root_fd uid app_uid owner max_entries (Ok dev) (Ok root) = Some (w, r) ->
  Forall (allowed uid (session_dir_default uid app_uid) owner dev root) (trace w).
Proof.
  unfold grant_tree. destruct (encode (session_dir_default uid app_uid)) as [data|e] eqn:Ee.
  2:{ by intros [= <- <-]. }
  apply grant_tree_setup in Ee as [Hu Hd].
  destruct (walk _ _ _ _ _ _ _ _ _ _) as [[[w1 r1] s1]|] eqn:Ew; [|done].
  intros [= <- <-]. apply close_stack_allowed.
  eapply (walk_invariant _ _ _ _ _ _ (fun _ s w => stack_seen root s /\
    Forall (allowed uid (session_dir_default uid app_uid) owner dev root) (trace w))
    (fun w _ _ => Forall (allowed uid (session_dir_default uid app_uid) owner dev root) (trace w)));
    [|split|exact Ew].
  - intros v s w. by apply walk_step_allowed.
  - apply Forall_singleton. intros it Hit. by apply sees_top.
  - simpl. by constructor.
Qed.

(** The grant of a tree always ends, also when it raises; every descriptor and every
    listing it opened is closed again; at no moment does it hold more than 129
    descriptors of entries; and it opens and counts at most [max_entries] entries. *)
Theorem grant_tree_bounded root_fd uid app_uid owner max_entries dev root :
  (forall it fd, sees root it -> i_open it = Ok fd -> fd <> root_fd) ->
  exists w r, grant_tree root_fd uid app_uid owner max_entries (Ok dev) (Ok root) = Some (w, r)
    /\ opened_fds (trace w) ≡ₚ closed_fds (trace w)
    /\ opened_listings (trace w) ≡ₚ closed_listings (trace w)
    /\ held_below 129 (trace w)
    /\ Z.of_nat (length (opened_fds (trace w))) <= Z.max 0 max_entries
    /\ dirs (stats w) + files (stats w) + skipped (stats w) <= Z.max 0 max_entries.
Proof.
  intros Hfresh. unfold grant_tree.
  destruct (encode (session_dir_default uid app_uid)) as [data|e] eqn:Ee.
  2:{ do 2 eexists. split; [done|]. simpl. split_and!; try done; try lia.
      intros pre post Heq. symmetry in Heq. by apply app_nil in Heq as [-> _]. }
  apply grant_tree_setup in Ee as [Hu Hd].
  edestruct (walk_total uid (session_dir_default uid app_uid) owner dev root_fd max_entries
    (walk_fuel max_entries) 0 [(root_fd, root)]) as [[[w1 r1] s1] Ew].
  { unfold walk_fuel. simpl. lia. }
  rewrite Ew. do 2 eexists. split; [done|].
  eapply (walk_invariant _ _ _ _ _ _ (accounts root_fd max_entries root)
    (fun w _ s => exists v, accounts root_fd max_entries root v s w)) in Ew as [v Hac].
  - edestruct close_stack_accounts as (H1 & H2 & H3 & H4 & H5); [exact Hac|].
    rewrite H5. split_and!; try done; rewrite ?H4; destruct Hac; lia.
  - intros v s w. by apply walk_step_accounts.
  - split; try done; try (simpl; lia).
    + right. exists [], root. done.
    + apply Forall_singleton. intros it Hit. by apply sees_top.
    + unfold levels. simpl. by rewrite filter_cons_False by naive_solver.
    + intros pre post Heq. destruct pre as [|? [|? ?]]; by simplify_eq/=.
Qed.

(** ** The walk as a depth-first visit *)

Definition andthen (p : World * result Exn unit) (k : World -> World * result Exn unit)
    : World * result Exn unit :=
  match p with
  | (w, Ok _) => k w
  | (w, Err e) => (w, Err e)
  end.

Lemma andthen_assoc p k1 k2 : andthen (andthen p k1) k2 = andthen p (fun w => andthen (k1 w) k2).
Proof. by destruct p as [w [[]|]]. Qed.

Section visit.
Context (uid : Z) (dir_default : list Entry) (owner dev root_fd : Z).

Notation grant := (_grant_entry uid dir_default owner dev).

(** All the entries of a listing in order; a read error ends it. *)
Definition visit_all (visit : Item -> World -> World * result Exn unit) :=
  fix go (l : Listing) (w : World) : World * result Exn unit :=
    match l with
    | [] => (w, Ok tt)
    | None :: _ => (add_error w, Ok tt)
    | Some it :: l => andthen (visit it w) (go l)
    end.

(** An entry, then what is below it: no stack, no limits. *)
Fixpoint visit (it : Item) (w : World) : World * result Exn unit :=
  match grant it w with
  | (w, Err e) => (w, Err e)
  | (w, Ok None) => (w, Ok tt)
  | (w, Ok (Some child)) =>
      match it with
      | MkItem _ _ _ _ _ _ (Err _) => (emit (Closed child) (add_error w), Ok tt)
      | MkItem _ _ _ _ _ _ (Ok l) =>
          andthen (visit_all visit l (emit (ListingOpened child) w))
                  (fun w => (close_level root_fd child w, Ok tt))
      end
  end.

(** What is left to do for a stack. *)
Fixpoint visit_stack (s : Stack) (w : World) : World * result Exn unit :=
  match s with
  | [] => (w, Ok tt)
  | (dfd, l) :: below =>
      andthen (visit_all visit l w) (fun w => visit_stack below (close_level root_fd dfd w))
  end.

Lemma visit_eq it w :
  visit it w =
    match grant it w with
    | (w, Err e) => (w, Err e)
    | (w, Ok None) => (w, Ok tt)
    | (w, Ok (Some child)) =>
        match i_scandir it with
        | Err _ => (emit (Closed child) (add_error w), Ok tt)
        | Ok l => andthen (visit_all visit l (emit (ListingOpened child) w))
                          (fun w => (close_level root_fd child w, Ok tt))
        end
    end.
Proof. destruct it as [? ? ? ? ? ? []]; done. Qed.

Context (max_entries : Z).
Hypothesis Huid : known_user uid.
Hypothesis Hdefault : exists data, encode dir_default = Ok data /\ decode data = Ok dir_default.

Notation walk_step := (walk_step uid dir_default owner dev root_fd max_entries).
Notation walk := (walk uid dir_default owner dev root_fd max_entries).

Lemma close_level_stats dfd w : stats (close_level root_fd dfd w) = stats w.
Proof. unfold close_level. by case_match. Qed.

Lemma truncated_step v s w :
  truncated (stats w) = true ->
  match walk_step v s w with
  | Again _ _ w' => truncated (stats w') = true
  | Stop w' _ _ => truncated (stats w') = true
  end.
Proof.
  intros Ht. unfold PosixAcl.walk_step. destruct s as [|[dfd listing] below]; [done|].
  destruct (next_item listing w) as [[[it|] rest] w1] eqn:En;
    apply next_item_spec in En as (_ & _ & _ & _ & _ & Htr & _); rewrite Ht in Htr.
  2:{ by rewrite close_level_stats. }
  destruct (max_entries <=? v); [done|].
  destruct (grant it w1) as [w2 r] eqn:Eg.
  apply grant_entry_spec in Eg as [(_ & _ & Htr2) _]; [|done..]. rewrite Htr in Htr2.
  destruct r as [[child|]|e]; [|done..]. unfold enter.
  destruct (_ <? _)%nat; [done|]. by destruct (i_scandir it).
Qed.

Lemma walk_untruncated fuel : forall v s w w' r s',
  walk fuel v s w = Some (w', r, s') -> truncated (stats w') = false -> truncated (stats w) = false.
Proof.
  intros v s w w' r s' Hw Hf. destruct (truncated (stats w)) eqn:Ht; [|done].
  enough (truncated (stats w') = true) by congruence.
  eapply (walk_invariant _ _ _ _ _ _ (fun _ _ w => truncated (stats w) = true)
    (fun w _ _ => truncated (stats w) = true)); [|exact Ht|exact Hw].
  intros v0 s0 w0. apply truncated_step.
Qed.

Lemma visit_stack_next v s w v' s' w' :
  walk_step v s w = Again v' s' w' -> truncated (stats w') = false ->
  visit_stack s w = visit_stack s' w'.
Proof.
  unfold PosixAcl.walk_step. destruct s as [|[dfd listing] below]; [done|].
  unfold next_item. destruct listing as [|[it|] rest]; [| |];
    [intros [= <- <- <-] _; reflexivity| |intros [= <- <- <-] _; reflexivity].
  destruct (max_entries <=? v); [done|].
  cbn [visit_stack visit_all]. rewrite andthen_assoc, visit_eq.
  destruct (grant it w) as [w2 [[child|]|e]]; [| |done].
  - unfold enter. destruct (_ <? _)%nat; [by intros [= <- <- <-]|].
    destruct (i_scandir it) as [l|]; intros [= <- <- <-] _; [|done].
    by rewrite andthen_assoc.
  - by intros [= <- <- <-].
Qed.

Lemma walk_is_visit fuel : forall v s w w' s',
  walk fuel v s w = Some (w', Ok tt, s') -> truncated (stats w') = false ->
  s' = [] /\ visit_stack s w = (w', Ok tt).
Proof.
  induction fuel as [|fuel IH]; intros v s w w' s'; simpl; [done|].
  destruct (walk_step v s w) as [v1 s1 w1|w1 r1 s1] eqn:E.
  - intros Hw Ht. erewrite visit_stack_next; [by eapply IH|exact E|]. by eapply walk_untruncated.
  - intros [= -> -> ->] Ht. revert E. unfold PosixAcl.walk_step.
    destruct s as [|[dfd listing] below]; [by intros [= <- <-]|].
    destruct (next_item listing w) as [[[it|] rest] w1]; [|done].
    destruct (max_entries <=? v); [intros [= <- <-]; done|].
    destruct (grant it w1) as [w2 [[child|]|e]]; [|done..].
    unfold enter. destruct (_ <? _)%nat; [done|]. by destruct (i_scandir it).
Qed.
End visit.

(** When the grant of a tree ends without raising and without [truncated], it did
    exactly what the recursive depth-first visit of the whole tree does, without stack
    or limits: every entry of every granted directory was visited, in listing order. *)
Theorem grant_tree_is_depth_first root_fd uid app_uid owner max_entries dev root w :
  grant_tree root_fd uid app_uid owner max_entries (Ok dev) (Ok root) = Some (w, Ok tt) ->
  truncated (stats w) = false ->
  andthen (visit_all (visit uid (session_dir_default uid app_uid) owner dev root_fd) root
             (MkWorld (MkStats 0 0 0 0 false) [ListingOpened root_fd]))
          (fun w => (close_level root_fd root_fd w, Ok tt)) = (w, Ok tt).
Proof.
  unfold grant_tree. destruct (encode (session_dir_default uid app_uid)) as [data|e] eqn:Ee; [|done].
  apply grant_tree_setup in Ee as [Hu Hd].
  destruct (walk _ _ _ _ _ _ _ _ _ _) as [[[w1 r1] s1]|] eqn:Ew; [|done].
  intros [= <- ->] Ht.
  assert (stats (close_stack root_fd s1 w1) = stats w1) as Hst.
  { unfold close_stack. generalize w1. induction (rev s1) as [|lv s' IH]; intros w'; [done|].
    simpl. by rewrite IH, close_level_stats. }
  rewrite Hst in Ht. eapply walk_is_visit in Ew as [-> Hv]; [|done..]. exact Hv.
Qed.

(** ** Granting again

    A file-system object as the module comment describes it: an access ACL with named
    entries sets the group bits of the mode to its mask; one of only the base entries is
    stored as the mode alone. *)

Record Obj := MkObj { o_stat : Stat; o_acl : option (list Z); o_default : option (list Z) }.

Definition perm_of (t : Z) (es : list Entry) : option Z :=
  perm <$> head (filter (fun e => tag e = t) es).

(** The permission bits of a mode replaced. *)
Definition mode_with (mode user group other : Z) : Z :=
  Z.lor (Z.land mode (Z.lnot 511)) (Z.lor (Z.shiftl user 6) (Z.lor (Z.shiftl group 3) other)).

Definition with_mode (st : Stat) (mode : Z) : Stat :=
  MkStat mode (st_uid st) (st_dev st) (st_ino st) (st_nlink st).

Definition setxattr_access (data : list Z) (o : Obj) : Obj :=
  match decode data with
  | Err _ => o
  | Ok es =>
      let p t := default 0 (perm_of t es) in
      let group := default (p ACL_GROUP_OBJ) (perm_of ACL_MASK es) in
      MkObj (with_mode (o_stat o)
               (mode_with (st_mode (o_stat o)) (p ACL_USER_OBJ) group (p ACL_OTHER)))
            (if (length es =? 3)%nat then None else Some data) (o_default o)
  end.

Definition kernel_apply (o : Obj) (ev : Event) : Obj :=
  match ev with
  | Stored _ false data => setxattr_access data o
  | Stored _ true data => MkObj (o_stat o) (o_acl o) (Some data)
  | _ => o
  end.

(** What the system calls answer on an undisturbed object. *)
Definition item_of (o : Obj) (fd : Z) : Item :=
  MkItem (Ok (o_stat o)) (Ok fd) (Ok (o_stat o))
    (match o_acl o with None => Err ENODATA | Some data => Ok data end) None None (Ok []).

Section regrant.
Context (uid : Z) (dir_default : list Entry) (owner dev fd : Z).

(** The object after [_grant_entry] ran on it. *)
Definition granted_object (o : Obj) : Obj :=
  foldl kernel_apply o
    (trace (fst (_grant_entry uid dir_default owner dev (item_of o fd)
                   (MkWorld (MkStats 0 0 0 0 false) [])))).

(** The group class's own permission: its entry cut by the mask. *)
Definition group_class (o : Obj) : option Z :=
  match _base_perms (i_getxattr (item_of o fd)) (o_stat o) with
  | Ok (_, group, _) => Some group
  | Err _ => None
  end.

Lemma small_testbit p n : 0 <= p <= 7 -> 3 <= n -> Z.testbit p n = false.
Proof.
  intros Hp Hn. rewrite Z.testbit_eqb by lia.
  rewrite Z.div_small; [done|]. split; [lia|].
  apply Z.lt_le_trans with (2 ^ 3); [lia|]. apply Z.pow_le_mono_r; lia.
Qed.

Lemma ones_testbit k n : 0 <= k -> 0 <= n -> Z.testbit (Z.ones k) n = (n <? k).
Proof. intros Hk Hn. rewrite Z.testbit_ones by done. by destruct (0 <=? n) eqn:E; [|zb]. Qed.

(** The bits of a mode whose permission bits were replaced. *)
Lemma mode_with_testbit m u g o n :
  0 <= u <= 7 -> 0 <= g <= 7 -> 0 <= o <= 7 -> 0 <= n ->
  Z.testbit (mode_with m u g o) n =
    if n <? 3 then Z.testbit o n else if n <? 6 then Z.testbit g (n - 3)
    else if n <? 9 then Z.testbit u (n - 6) else Z.testbit m n.
Proof.
  intros Hu Hg Ho Hn. unfold mode_with. change 511 with (Z.ones 9).
  rewrite !Z.lor_spec, Z.land_spec, Z.lnot_spec, !Z.shiftl_spec, ones_testbit by lia.
  destruct (n <? 3) eqn:E3; [|destruct (n <? 6) eqn:E6; [|destruct (n <? 9) eqn:E9]]; b2p.
  - rewrite (proj2 (Z.ltb_lt n 9)), (Z.testbit_neg_r u), (Z.testbit_neg_r g) by lia.
    by rewrite andb_false_r.
  - rewrite (proj2 (Z.ltb_lt n 9)), (Z.testbit_neg_r u), (small_testbit o) by lia.
    by rewrite andb_false_r, orb_false_r.
  - rewrite (small_testbit g), (small_testbit o) by lia. by rewrite andb_false_r, !orb_false_r.
  - rewrite (small_testbit u), (small_testbit g), (small_testbit o) by lia.
    by rewrite !orb_false_r, andb_true_r.
Qed.

Lemma rwx_testbit n : 0 <= n -> Z.testbit _RWX n = (n <? 3).
Proof. intros Hn. change _RWX with (Z.ones 3). by apply ones_testbit. Qed.

Section mode.
Context (m u g o : Z) (Hu : 0 <= u <= 7) (Hg : 0 <= g <= 7) (Ho : 0 <= o <= 7).

Lemma mode_user_with : mode_user (mode_with m u g o) = u.
Proof.
  apply Z.bits_inj'. intros n Hn. unfold mode_user.
  rewrite Z.land_spec, Z.shiftr_spec, rwx_testbit, mode_with_testbit by lia.
  destruct (n <? 3) eqn:E; b2p.
  - rewrite (proj2 (Z.ltb_ge (n + 6) 3)), (proj2 (Z.ltb_ge (n + 6) 6)),
      (proj2 (Z.ltb_lt (n + 6) 9)), andb_true_r by lia. f_equal. lia.
  - by rewrite andb_false_r, (small_testbit u) by lia.
Qed.

Lemma mode_group_with : mode_group (mode_with m u g o) = g.
Proof.
  apply Z.bits_inj'. intros n Hn. unfold mode_group.
  rewrite Z.land_spec, Z.shiftr_spec, rwx_testbit, mode_with_testbit by lia.
  destruct (n <? 3) eqn:E; b2p.
  - rewrite (proj2 (Z.ltb_ge (n + 3) 3)), (proj2 (Z.ltb_lt (n + 3) 6)), andb_true_r by lia.
    f_equal. lia.
  - by rewrite andb_false_r, (small_testbit g) by lia.
Qed.

Lemma mode_other_with : mode_other (mode_with m u g o) = o.
Proof.
  apply Z.bits_inj'. intros n Hn. unfold mode_other.
  rewrite Z.land_spec, rwx_testbit, mode_with_testbit by lia.
  destruct (n <? 3) eqn:E; b2p; [by rewrite andb_true_r|].
  by rewrite andb_false_r, (small_testbit o) by lia.
Qed.

Lemma S_IFMT_with : S_IFMT (mode_with m u g o) = S_IFMT m.
Proof.
  apply Z.bits_inj'. intros n Hn. unfold S_IFMT. rewrite !Z.land_spec, mode_with_testbit by lia.
  destruct (n <? 9) eqn:E9; b2p.
  - assert (Z.testbit 61440 n = false) as ->; [|by rewrite !andb_false_r].
    change 61440 with (Z.shiftl (Z.ones 4) 12). rewrite Z.shiftl_spec by lia.
    by apply Z.testbit_neg_r; lia.
  - by rewrite (proj2 (Z.ltb_ge n 3)), (proj2 (Z.ltb_ge n 6)) by lia.
Qed.

Lemma mode_with_again : mode_with (mode_with m u g o) u g o = mode_with m u g o.
Proof.
  apply Z.bits_inj'. intros n Hn. rewrite !mode_with_testbit by lia. by repeat case_match.
Qed.
End mode.

Lemma classify_with st m' :
  S_IFMT m' = S_IFMT (st_mode st) -> _classify (with_mode st m') owner dev = _classify st owner dev.
Proof. intros H. unfold _classify, S_ISDIR, S_ISREG. simpl. by rewrite H. Qed.

Hypothesis Huid : known_user uid.
Hypothesis Hdefault : exists data, encode dir_default = Ok data /\ decode data = Ok dir_default.

Definition named_perm (kind : Kind) (user : Z) : Z := match kind with Dir => _RWX | File => user end.
Definition mask_perm (kind : Kind) (user group : Z) : Z :=
  match kind with Dir => _RWX | File => Z.lor user group end.

(** A grant in one equation. *)
Lemma granted_object_eq o kind user group other data dd :
  _classify (o_stat o) owner dev = Some kind ->
  _base_perms (i_getxattr (item_of o fd)) (o_stat o) = Ok (user, group, other) ->
  encode (_tree_acl uid user (named_perm kind user) group (mask_perm kind user group) other) = Ok data ->
  decode data = Ok (_tree_acl uid user (named_perm kind user) group (mask_perm kind user group) other) ->
  encode dir_default = Ok dd ->
  granted_object o =
    MkObj (with_mode (o_stat o) (mode_with (st_mode (o_stat o)) user (mask_perm kind user group) other))
          (Some data) (match kind with Dir => Some dd | File => o_default o end).
Proof.
  intros Hk Hb Henc Hdec Hdd. unfold granted_object, _grant_entry. simpl i_lstat. cbv beta iota.
  rewrite Hk. simpl i_open. cbv beta iota. unfold grant_opened. simpl i_fstat. cbv beta iota.
  rewrite bool_decide_eq_true_2 by done. rewrite Hk, bool_decide_eq_true_2 by done.
  cbn [negb orb]. rewrite Hb. unfold grant_kind, store, set_acl.
  destruct kind; simpl named_perm in *; simpl mask_perm in *; rewrite Henc; simpl;
    rewrite ?Hdd; simpl; unfold setxattr_access; rewrite Hdec; done.
Qed.

Lemma group_in_mask kind user group :
  0 <= user <= 7 -> 0 <= group <= 7 -> Z.land (mask_perm kind user group) group = group.
Proof.
  intros _ Hg. destruct kind; simpl.
  - apply small_perm in Hg. rewrite !elem_of_cons, elem_of_nil in Hg.
    repeat destruct Hg as [->|Hg]; done.
  - apply Z.bits_inj'. intros n Hn. rewrite Z.land_spec, Z.lor_spec.
    by destruct (Z.testbit user n), (Z.testbit group n).
Qed.

Lemma mask_small kind user group :
  0 <= user <= 7 -> 0 <= group <= 7 -> 0 <= mask_perm kind user group <= 7.
Proof. intros Hu Hg. destruct kind; simpl; [done|by apply lor_small]. Qed.

(** A second run of the grant changes nothing: whatever object it is run on, granting
    a granted object leaves mode, access ACL and default ACL as they are; and a grant
    keeps the owner's bits, the group class's own permission and the bits of the
    others. *)
Theorem regrant_changes_nothing o :
  granted_object (granted_object o) = granted_object o
  /\ mode_user (st_mode (o_stat (granted_object o))) = mode_user (st_mode (o_stat o))
  /\ mode_other (st_mode (o_stat (granted_object o))) = mode_other (st_mode (o_stat o))
  /\ group_class (granted_object o) = group_class o.
Proof.
  destruct (_classify (o_stat o) owner dev) as [kind|] eqn:Hk.
  2:{ assert (granted_object o = o) as Hsame; [|by rewrite !Hsame].
      unfold granted_object, _grant_entry. simpl i_lstat. cbv beta iota. by rewrite Hk. }
  destruct (_base_perms (i_getxattr (item_of o fd)) (o_stat o)) as [[[user group] other]|e] eqn:Hb.
  2:{ assert (granted_object o = o) as Hsame; [|by rewrite !Hsame].
      unfold granted_object, _grant_entry. simpl i_lstat. cbv beta iota. rewrite Hk. simpl i_open.
      cbv beta iota. unfold grant_opened. simpl i_fstat. cbv beta iota.
      rewrite !bool_decide_eq_true_2 by done. cbn [negb orb]. rewrite Hb. by destruct e. }
  pose proof Hb as (Hu & Ho & Hg & _)%base_perms_spec.
  assert (0 <= user <= 7) as Hub by (subst; apply bits_small).
  assert (0 <= other <= 7) as Hob by (subst; apply bits_small).
  pose proof (mask_small kind user group Hub Hg) as Hm.
  destruct (tree_acl_encode uid user (named_perm kind user) group (mask_perm kind user group) other)
    as (data & Henc & Hdec); try done; [by destruct kind|].
  destruct Hdefault as (dd & Hdd & _).
  pose proof (granted_object_eq o kind user group other data dd Hk Hb Henc Hdec Hdd) as Hgo.
  set (o1 := granted_object o) in *.
  assert (_base_perms (i_getxattr (item_of o1 fd)) (o_stat o1) = Ok (user, group, other)) as Hb1.
  { rewrite Hgo. unfold _base_perms, get_acl, item_of. cbn [i_getxattr o_acl]. rewrite Hdec.
    cbn [result_bind default o_stat with_mode st_mode].
    fold (mode_user (mode_with (st_mode (o_stat o)) user (mask_perm kind user group) other)).
    fold (mode_group (mode_with (st_mode (o_stat o)) user (mask_perm kind user group) other)).
    fold (mode_other (mode_with (st_mode (o_stat o)) user (mask_perm kind user group) other)).
    rewrite mode_user_with, mode_group_with, mode_other_with by done.
    unfold _tree_acl, unnamed. simpl. by rewrite group_in_mask. }
  split_and!.
  - assert (_classify (o_stat o1) owner dev = Some kind) as Hk1.
    { rewrite Hgo. simpl. rewrite classify_with; [done|]. by apply S_IFMT_with. }
    rewrite (granted_object_eq o1 kind user group other data dd Hk1 Hb1 Henc Hdec Hdd).
    rewrite Hgo. simpl. unfold with_mode. simpl. rewrite mode_with_again by done. by destruct kind.
  - rewrite Hgo. simpl. rewrite mode_user_with by done. done.
  - rewrite Hgo. simpl. rewrite mode_other_with by done. done.
  - unfold group_class. by rewrite Hb, Hb1.
Qed.
End regrant.

(** ** Runs *)

(** Base entries with a mask and two named users, out of order. *)
Definition sample_acl : list Entry :=
  [unnamed ACL_OTHER 0; MkEntry ACL_USER 7 50002; unnamed ACL_USER_OBJ 7; MkEntry ACL_USER 5 1000;
   unnamed ACL_GROUP_OBJ 5; unnamed ACL_MASK 7].

Example sample_bytes :
  encode sample_acl = Ok
    [2;0;0;0; 1;0;7;0;255;255;255;255; 2;0;5;0;232;3;0;0; 2;0;7;0;82;195;0;0;
     4;0;5;0;255;255;255;255; 16;0;7;0;255;255;255;255; 32;0;0;0;255;255;255;255].
Proof. vm_compute. reflexivity. Qed.

(** A workspace of the gateway's uid 1000: a directory with a file, a file of another
    user, a hard-linked file and a directory that cannot be opened. *)
Definition dir_stat (ino : Z) : Stat := MkStat 16877 1000 1 ino 2.
Definition file_stat (ino links owner : Z) : Stat := MkStat 33184 owner 1 ino links.
Definition plain (st : Stat) (fd : Z) (l : result Z Listing) : Item :=
  MkItem (Ok st) (Ok fd) (Ok st) (Err ENODATA) None None l.
Definition workspace : Listing :=
  [Some (plain (dir_stat 10) 5 (Ok [Some (plain (file_stat 11 1 1000) 6 (Err 20))]));
   Some (plain (file_stat 12 1 0) 6 (Err 20)); Some (plain (file_stat 13 2 1000) 6 (Err 20));
   Some (MkItem (Ok (dir_stat 14)) (Err 13) (Err 9) (Err ENODATA) None None (Err 13))].

Definition workspace_run := grant_tree 3 50002 1000 1000 200000 (Ok 1) (Ok workspace).

Example workspace_stats :
  option_map (fun wr => (stats (fst wr), snd wr, length (trace (fst wr)))) workspace_run =
    Some (MkStats 1 1 3 0 false, Ok tt, 11%nat).
Proof. vm_compute. reflexivity. Qed.

Lemma acl_round_trip_witness :
  exists data, encode sample_acl = Ok data /\ decode data = Ok (merge_sort order_le sample_acl).
Proof.
  destruct (encode sample_acl) as [data|] eqn:E; [|by vm_compute in E].
  exists data. split; [done|]. exact (proj1 (proj2 (acl_round_trip sample_acl) data E)).
Defined.

Lemma workspace_sees it :
  sees workspace it ->
  Some it ∈ workspace \/ it = plain (file_stat 11 1 1000) 6 (Err 20).
Proof.
  induction 1 as [it Hin|it l it' _ [Hin|Hin] Hl Hit]; [by left| |by subst].
  right. unfold workspace, plain in Hin. rewrite !elem_of_cons, elem_of_nil in Hin.
  destruct_or?; simplify_eq/=; try done. by apply list_elem_of_singleton in Hit as [= ->].
Qed.

Lemma workspace_fds it fd : sees workspace it -> i_open it = Ok fd -> fd <> 3.
Proof.
  intros [Hin| ->]%workspace_sees Ho; [|by simplify_eq/=].
  unfold workspace, plain in Hin. rewrite !elem_of_cons, elem_of_nil in Hin.
  destruct_or?; by simplify_eq/=.
Qed.

Lemma grant_tree_bounded_witness :
  exists w, workspace_run = Some (w, Ok tt) /\ length (opened_fds (trace w)) = 2%nat
       /\ opened_fds (trace w) ≡ₚ closed_fds (trace w).
Proof.
  destruct (grant_tree_bounded 3 50002 1000 1000 200000 1 workspace workspace_fds)
    as (w & r & Hrun & Hp & _).
  exists w. revert Hrun Hp. vm_compute. intros [= <- <-] Hp. by split_and!.
Defined.

Lemma grant_tree_safe_witness :
  exists w, workspace_run = Some (w, Ok tt) /\ length (trace w) = 11%nat
       /\ Forall (allowed 50002 (session_dir_default 50002 1000) 1000 1 workspace) (trace w).
Proof.
  destruct workspace_run as [[w [[]|e]]|] eqn:E; [|by vm_compute in E..].
  exists w. split; [done|]. split; [|exact (grant_tree_safe 3 50002 1000 1000 200000 1 workspace w _ E)].
  revert E. vm_compute. by intros [= <-].
Defined.

Lemma grant_tree_is_depth_first_witness :
  exists w, workspace_run = Some (w, Ok tt) /\
    andthen (visit_all (visit 50002 (session_dir_default 50002 1000) 1000 1 3) workspace
               (MkWorld (MkStats 0 0 0 0 false) [ListingOpened 3]))
            (fun w => (close_level 3 3 w, Ok tt)) = (w, Ok tt).
Proof.
  destruct workspace_run as [[w [[]|e]]|] eqn:E; [|by vm_compute in E..].
  exists w. split; [done|].
  apply (grant_tree_is_depth_first 3 50002 1000 1000 200000 1 workspace w E).
  revert E. vm_compute. by intros [= <-].
Defined.

(** A file of mode 0640 granted to uid 50002 and granted again. *)
Definition sample_file : Obj := MkObj (file_stat 11 1 1000) None None.

Lemma regrant_changes_nothing_witness :
  let g := granted_object 50002 (session_dir_default 50002 1000) 1000 1 6 in
  st_mode (o_stat (g sample_file)) = 33200 /\ g (g sample_file) = g sample_file.
Proof.
  split; [vm_compute; reflexivity|].
  assert (known_user 50002) as Hu by (unfold known_user, ACL_UNDEFINED_ID; lia).
  assert (known_user 1000) as Ha by (unfold known_user, ACL_UNDEFINED_ID; lia).
  exact (proj1 (regrant_changes_nothing 50002 (session_dir_default 50002 1000) 1000 1 6 Hu
                  (dir_default_encode 50002 1000 Hu Ha) sample_file)).
Defined.
