(* ===== verification/UidIsolation.v ===== *)
(** Uids for sessions (src/src/backends/claude/uid_isolation.py).

    The band settings, the registry of named users with its file, the pool of leases for
    anonymous runs, the module's two singletons, and the spawn tickets.  [Proc] is the
    module's state with the file it shares with its successors: [Resolve], [Release] and
    [Restart] (under any other settings) are its steps.  Writing the file, the existence
    of a workspace, the clock, the random nonce, the HMAC and the JSON text are arguments;
    the file is a JSON value. *)

From stdpp Require Import sorting.
From S2P Require Import Prelude Json.

(** ** Settings *)

(** [os.environ] *)
Definition Environ : Type := string -> option string.

(** [_int_env(name, default)] *)
Definition _int_env (env : Environ) (name : string) (dflt : Z) : Z :=
  let raw := strip (default "" (env name)) in
  if bool_decide (raw = "") then dflt else default dflt (py_int raw).

Definition UID_MIN_ENV : string := "CLAUDE_ISOLATION_UID_MIN".
Definition UID_MAX_ENV : string := "CLAUDE_ISOLATION_UID_MAX".
Definition EPHEMERAL_UIDS_ENV : string := "CLAUDE_ISOLATION_EPHEMERAL_UIDS".
Definition BROKER_UID_ENV : string := "CLAUDE_ISOLATION_BROKER_UID".
Definition BROKER_GID_ENV : string := "CLAUDE_ISOLATION_BROKER_GID".
Definition _DEFAULT_UID_MIN : Z := 20000.
Definition _DEFAULT_UID_MAX : Z := 29999.
Definition _DEFAULT_BROKER_UID : Z := 19999.
Definition _DEFAULT_EPHEMERAL : Z := 256.
Definition _MAX_EPHEMERAL : Z := 65536.
Definition _MAX_ID : Z := 4294967294.

(** [uid_range()] *)
Definition uid_range (env : Environ) : Z * Z :=
  (_int_env env UID_MIN_ENV _DEFAULT_UID_MIN, _int_env env UID_MAX_ENV _DEFAULT_UID_MAX).

(** [reserved_uids()] *)
Definition reserved_uids (env : Environ) : gset Z :=
  let app_gid := _int_env env "APP_GID" 1000 in
  {[0; _int_env env "APP_UID" 1000; app_gid; _int_env env BROKER_UID_ENV _DEFAULT_BROKER_UID;
    _int_env env BROKER_GID_ENV app_gid]}.

(** [_ephemeral_count()] *)
Definition _ephemeral_count (env : Environ) : Z :=
  let '(lo, hi) := uid_range env in
  let span := hi - lo + 1 in
  if span <=? 1 then 0
  else
    let dflt := Z.min _DEFAULT_EPHEMERAL (Z.max 1 (span / 4)) in
    let n := Z.min (_int_env env EPHEMERAL_UIDS_ENV dflt) _MAX_EPHEMERAL in
    Z.max 0 (Z.min n (span - 1)).

(** [_stable_band()] and [_ephemeral_band()] *)
Definition _stable_band (env : Environ) : Z * Z :=
  let '(lo, hi) := uid_range env in (lo, hi - _ephemeral_count env).
Definition _ephemeral_band (env : Environ) : Z * Z :=
  let '(lo, hi) := uid_range env in (hi - _ephemeral_count env + 1, hi).

(** [lo <= u <= hi] *)
Definition in_range (lo hi u : Z) : bool := (lo <=? u) && (u <=? hi).

(** [_allocatable(lo, hi, reserved)] *)
Definition _allocatable (lo hi : Z) (reserved : gset Z) : Z :=
  if hi <? lo then 0
  else (hi - lo + 1) - Z.of_nat (size (filter (fun u => in_range lo hi u = true) reserved)).

Inductive BandError :=
| EmptyBand | MinIsRoot | MaxTooLarge | NoStableUids | NoEphemeralUids.

(** [validate_bands()] without its log lines. *)
Definition validate_bands (env : Environ) : list BandError :=
  let '(lo, hi) := uid_range env in
  if hi <? lo then [EmptyBand]
  else
    let '(slo, shi) := _stable_band env in
    let '(elo, ehi) := _ephemeral_band env in
    let reserved := reserved_uids env in
    (if lo <=? 0 then [MinIsRoot] else []) ++
    (if _MAX_ID <? hi then [MaxTooLarge] else []) ++
    (if _allocatable slo shi reserved <=? 0 then [NoStableUids] else []) ++
    (if (_ephemeral_count env <=? 0) || (_allocatable elo ehi reserved <=? 0)
     then [NoEphemeralUids] else []).

(** ** The registry *)

(** [UidBandExhausted] is the subclass. *)
Inductive UidError := UidAllocationError | UidBandExhausted.

(** Why an entry cannot be honored ([_HELD_REASONS], in its order). *)
Inductive Reason := ReasonReserved | ReasonOutside | ReasonShared | ReasonMalformed.

#[export] Instance Reason_eq_dec : EqDecision Reason.
Proof. solve_decision. Defined.

(** What reading the registry file gives. *)
Inductive File := Missing | Unreadable | Corrupt | Doc (v : Json).

Record UidRegistry := MkRegistry {
  _lo : Z;
  _hi : Z;
  _reserved : gset Z;
  _map : odict string Z;
  _used : gset Z;
  _held : odict string Json;
  _held_reason : odict string Reason;
  _capacity : Z;
  _fill_warned : bool;
}.

(** [_is_uid(val)] *)
Definition _is_uid (v : Json) : option Z := match v with JInt n => Some n | _ => None end.

(** [owners[uid]] *)
Definition owners (raw : list (string * Json)) (uid : Z) : Z :=
  countb (fun kv => match _is_uid (snd kv) with Some n => n =? uid | None => false end) raw.

(** The reason an entry is held, if it is. *)
Definition held_because (lo hi : Z) (reserved : gset Z) (raw : list (string * Json)) (v : Json)
    : option Reason :=
  match _is_uid v with
  | None => Some ReasonMalformed
  | Some uid =>
      if bool_decide (uid ∈ reserved) then Some ReasonReserved
      else if negb (in_range lo hi uid) then Some ReasonOutside
      else if negb (owners raw uid =? 1) then Some ReasonShared
      else None
  end.

(** The body of the second loop of [_load]. *)
Definition load_entry (raw : list (string * Json)) (r : UidRegistry) (kv : string * Json)
    : UidRegistry :=
  let '(key, v) := kv in
  match held_because (_lo r) (_hi r) (_reserved r) raw v, _is_uid v with
  | None, Some uid =>
      MkRegistry (_lo r) (_hi r) (_reserved r) (dict_set (_map r) key uid) ({[uid]} ∪ _used r)
        (_held r) (_held_reason r) (_capacity r) (_fill_warned r)
  | reason, uid =>
      MkRegistry (_lo r) (_hi r) (_reserved r) (_map r)
        (match uid with Some uid => {[uid]} ∪ _used r | None => _used r end)
        (dict_set (_held r) key v)
        (dict_set (_held_reason r) key (default ReasonMalformed reason))
        (_capacity r) (_fill_warned r)
  end.

(** [_load()] *)
Definition _load (file : File) (r : UidRegistry) : result UidError UidRegistry :=
  match file with
  | Missing => Ok r
  | Doc (JObj raw) => Ok (foldl (load_entry raw) r raw)
  | _ => Err UidAllocationError
  end.

Definition _FILL_WARN_PERCENT : Z := 90.

(** [_check_fill()] without its log line. *)
Definition _check_fill (r : UidRegistry) : UidRegistry :=
  if _capacity r <=? 0 then r
  else
    let used := Z.of_nat (size (filter
      (fun u => in_range (_lo r) (_hi r) u = true /\ u ∉ _reserved r) (_used r))) in
    MkRegistry (_lo r) (_hi r) (_reserved r) (_map r) (_used r) (_held r) (_held_reason r)
      (_capacity r) (_capacity r * _FILL_WARN_PERCENT <=? used * 100).

(** [UidRegistry(path, lo, hi, reserved)] *)
Definition new_registry (file : File) (lo hi : Z) (reserved : gset Z)
    : result UidError UidRegistry :=
  let capacity := Z.max 0 (hi - lo + 1) -
    Z.of_nat (size (filter (fun u => in_range lo hi u = true) reserved)) in
  let! r := _load file (MkRegistry lo hi reserved [] ∅ [] [] capacity false) in
  Ok (_check_fill r).

Definition key_le (a b : string * Json) : Prop := String.leb (fst a) (fst b) = true.

#[export] Instance key_le_dec : RelDecision key_le.
Proof. intros a b. unfold key_le. apply _. Defined.

(** The object [_persist()] writes: [dict(held)], updated with the map, keys sorted. *)
Definition persisted_doc (r : UidRegistry) : Json :=
  JObj (merge_sort key_le
    (foldl (fun d kv => dict_set d (fst kv) (JInt (snd kv))) (_held r) (_map r))).

(** The first uid of [range(uid, hi + 1)] that is free; [fuel] is the range's length. *)
Fixpoint first_free (fuel : nat) (uid : Z) (taken : Z -> bool) : option Z :=
  match fuel with
  | O => None
  | S fuel => if taken uid then first_free fuel (uid + 1) taken else Some uid
  end.

Definition taken (r : UidRegistry) (uid : Z) : bool :=
  bool_decide (uid ∈ _used r) || bool_decide (uid ∈ _reserved r).

(** [self._map[key] = uid; self._used.add(uid)] *)
Definition grant (key : string) (uid : Z) (r : UidRegistry) : UidRegistry :=
  MkRegistry (_lo r) (_hi r) (_reserved r) (dict_set (_map r) key uid) ({[uid]} ∪ _used r)
    (_held r) (_held_reason r) (_capacity r) (_fill_warned r).

(** The rollback: [self._map.pop(key, None); self._used.discard(uid)] *)
Definition ungrant (key : string) (uid : Z) (r : UidRegistry) : UidRegistry :=
  MkRegistry (_lo r) (_hi r) (_reserved r) (dict_del (_map r) key) (_used r ∖ {[uid]})
    (_held r) (_held_reason r) (_capacity r) (_fill_warned r).

(** [UidRegistry.resolve(key)]; [written] tells whether the file was replaced.  The file
    is given back as it is afterwards. *)
Definition resolve (key : string) (written : bool) (file : File) (r : UidRegistry)
    : UidRegistry * File * result UidError Z :=
  match dict_get (_map r) key with
  | Some uid => (r, file, Ok uid)
  | None =>
      if dict_has (_held r) key then (r, file, Err UidAllocationError)
      else
        match first_free (Z.to_nat (_hi r - _lo r + 1)) (_lo r) (taken r) with
        | None => (r, file, Err UidBandExhausted)
        | Some uid =>
            let r1 := grant key uid r in
            if written then (_check_fill r1, Doc (persisted_doc r1), Ok uid)
            else (ungrant key uid r1, file, Err UidAllocationError)
        end
  end.

(** [claimed_uids()], [held_count()], [held_reasons()] *)
Definition claimed_uids (r : UidRegistry) : gset Z := _used r.
Definition held_count (r : UidRegistry) : nat := length (_held r).
Definition held_reasons (r : UidRegistry) : list Reason :=
  filter (fun x => x ∈ dict_values (_held_reason r))
    [ReasonReserved; ReasonOutside; ReasonShared; ReasonMalformed].

(** ** The ephemeral pool *)

Record Pool := MkPool {
  p_lo : Z;
  p_hi : Z;
  p_reserved : gset Z;
  p_capacity : Z;
  p_next : Z;
  p_released : list Z;
  p_leases : odict string Z;
}.

(** [_EphemeralPool(lo, hi, reserved)] *)
Definition new_pool (lo hi : Z) (reserved : gset Z) : Pool :=
  let inside := filter (fun u => in_range lo hi u = true) reserved in
  MkPool lo hi inside (Z.max 0 (hi - lo + 1) - Z.of_nat (size inside)) lo [] [].

(** The [while] of [_take_free_locked]: the uid found and the cursor. *)
Fixpoint next_unused (fuel : nat) (next : Z) (reserved : gset Z) : option Z * Z :=
  match fuel with
  | O => (None, next)
  | S fuel =>
      if bool_decide (next ∈ reserved) then next_unused fuel (next + 1) reserved
      else (Some next, next + 1)
  end.

(** [_take_free_locked()] *)
Definition _take_free_locked (p : Pool) : option Z * Pool :=
  let '(found, next) := next_unused (Z.to_nat (p_hi p - p_next p + 1)) (p_next p) (p_reserved p) in
  let with_released l := MkPool (p_lo p) (p_hi p) (p_reserved p) (p_capacity p) next l (p_leases p) in
  match found with
  | Some uid => (Some uid, with_released (p_released p))
  | None =>
      match p_released p with
      | uid :: rest => (Some uid, with_released rest)
      | [] => (None, with_released [])
      end
  end.

(** [uid = self._leases.pop(key); self._released.append(uid)] *)
Definition end_lease (p : Pool) (key : string) : Pool :=
  match dict_get (p_leases p) key with
  | Some uid =>
      MkPool (p_lo p) (p_hi p) (p_reserved p) (p_capacity p) (p_next p) (p_released p ++ [uid])
        (dict_del (p_leases p) key)
  | None => p
  end.

(** [_reclaim_stale_locked()] *)
Definition _reclaim_stale_locked (gone : string -> bool) (p : Pool) : Pool :=
  foldl end_lease p (filter (fun k => gone k = true) (dict_keys (p_leases p))).

(** What [os.lstat] says of a path. *)
Inductive LStat := Exists | NotFound | NotADirectory | OtherOSError.

(** [_lease_workspace_gone(key)] *)
Definition _lease_workspace_gone (lstat : string -> LStat) (key : string) : bool :=
  if starts_with key "/" then
    match lstat key with NotFound | NotADirectory => true | _ => false end
  else false.

Definition add_lease (key : string) (uid : Z) (p : Pool) : Pool :=
  MkPool (p_lo p) (p_hi p) (p_reserved p) (p_capacity p) (p_next p) (p_released p)
    (dict_set (p_leases p) key uid).

(** [_EphemeralPool.resolve(key)] *)
Definition pool_resolve (lstat : string -> LStat) (key : string) (p : Pool)
    : Pool * result UidError Z :=
  match dict_get (p_leases p) key with
  | Some uid => (p, Ok uid)
  | None =>
      if p_capacity p <=? 0 then (p, Err UidAllocationError)
      else
        let '(uid, p) :=
          match _take_free_locked p with
          | (Some uid, p) => (Some uid, p)
          | (None, p) => _take_free_locked (_reclaim_stale_locked (_lease_workspace_gone lstat) p)
          end in
        match uid with
        | None => (p, Err UidAllocationError)
        | Some uid => (add_lease key uid p, Ok uid)
        end
  end.

(** [_EphemeralPool.release(key)] *)
Definition pool_release (key : string) (p : Pool) : Pool * option Z :=
  (end_lease p key, dict_get (p_leases p) key).

(** [is_free(uid)], [lease_of(key)], [holder_of(uid)], [in_band(uid)] *)
Definition in_band (p : Pool) (uid : Z) : bool :=
  in_range (p_lo p) (p_hi p) uid && negb (bool_decide (uid ∈ p_reserved p)).
Definition is_free (p : Pool) (uid : Z) : bool :=
  in_band p uid && negb (bool_decide (uid ∈ dict_values (p_leases p))).
Definition lease_of (p : Pool) (key : string) : option Z := dict_get (p_leases p) key.
Definition holder_of (p : Pool) (uid : Z) : option string :=
  fst <$> head (filter (fun kv => snd kv = uid) (p_leases p)).

(** ** The module *)

(** One process's module state, its environment and the registry file. *)
Record Proc := MkProc {
  env : Environ;
  _registry : option UidRegistry;
  _ephemeral_pool : option Pool;
  disk : File;
}.

(** [get_registry()], once the registry lock is held. *)
Definition get_registry (p : Proc) : Proc * result UidError UidRegistry :=
  match _registry p with
  | Some r => (p, Ok r)
  | None =>
      let '(lo, hi) := _stable_band (env p) in
      match new_registry (disk p) lo hi (reserved_uids (env p)) with
      | Ok r => (MkProc (env p) (Some r) (_ephemeral_pool p) (disk p), Ok r)
      | Err e => (p, Err e)
      end
  end.

(** [get_ephemeral_pool()] *)
Definition get_ephemeral_pool (p : Proc) : Proc * result UidError Pool :=
  match _ephemeral_pool p with
  | Some pool => (p, Ok pool)
  | None =>
      match get_registry p with
      | (p, Err e) => (p, Err e)
      | (p, Ok r) =>
          let '(lo, hi) := _ephemeral_band (env p) in
          let pool := new_pool lo hi (reserved_uids (env p) ∪ claimed_uids r) in
          (MkProc (env p) (_registry p) (Some pool) (disk p), Ok pool)
      end
  end.

(** [resolve_uid(key, persist)] *)
Definition resolve_uid (key : string) (persist written : bool) (lstat : string -> LStat) (p : Proc)
    : Proc * result UidError Z :=
  if persist then
    match get_registry p with
    | (p, Err e) => (p, Err e)
    | (p, Ok r) =>
        let '(r, file, res) := resolve key written (disk p) r in
        (MkProc (env p) (Some r) (_ephemeral_pool p) file, res)
    end
  else
    match get_ephemeral_pool p with
    | (p, Err e) => (p, Err e)
    | (p, Ok pool) =>
        let '(pool, res) := pool_resolve lstat key pool in
        (MkProc (env p) (_registry p) (Some pool) (disk p), res)
    end.

(** [release_ephemeral(key)] *)
Definition release_ephemeral (key : string) (p : Proc) : Proc :=
  match _ephemeral_pool p with
  | None => p
  | Some pool =>
      MkProc (env p) (_registry p) (Some (fst (pool_release key pool))) (disk p)
  end.

(** [existing_uid(key)] *)
Definition existing_uid (key : string) (p : Proc) : Proc * result UidError (option Z) :=
  match get_registry p with
  | (p, Err e) => (p, Err e)
  | (p, Ok r) =>
      if dict_has (_held r) key then (p, Err UidAllocationError)
      else (p, Ok (dict_get (_map r) key))
  end.

(** [registry_holds(uid)] *)
Definition registry_holds (uid : Z) (p : Proc) : Proc * bool :=
  match get_registry p with
  | (p, Err _) => (p, true)
  | (p, Ok r) => (p, bool_decide (uid ∈ claimed_uids r))
  end.

(** [in_ephemeral_band(uid)] *)
Definition in_ephemeral_band (env : Environ) (uid : Z) : bool :=
  let '(lo, hi) := _ephemeral_band env in
  (0 <? _ephemeral_count env) && in_range lo hi uid && negb (bool_decide (uid ∈ reserved_uids env)).

(** Startup refuses when the registry cannot be loaded or holds an entry
    ([registry_errors()]). *)
Definition registry_errors (p : Proc) : Proc * bool :=
  match get_registry p with
  | (p, Err _) => (p, true)
  | (p, Ok r) => (p, negb (held_count r =? 0)%nat)
  end.

(** A process start: new settings, no registry, no pool, the same file. *)
Definition restart (env' : Environ) (p : Proc) : Proc := MkProc env' None None (disk p).

(** ** Tickets *)

Definition OP_SPAWN : string := "spawn".
Definition OP_CLEANUP : string := "cleanup".
Definition OP_TRANSCRIPT : string := "transcript".
Definition _OPS : list string := [OP_SPAWN; OP_CLEANUP; OP_TRANSCRIPT].
Definition _TICKET_TTL_SECONDS : Z := 120.

Inductive TicketError := NoSecret | NotAnOp | ReservedField | MalformedTicket | BadSignature
| NotJson | NotAnObject | NoExpOrNonce | Expired | AlreadyUsed.

Definition dot : Ascii.ascii := Ascii.ascii_of_nat 46.

(** [s.partition(".")] without the separator. *)
Definition partition_dot (s : string) : string * string :=
  (before_char dot s, match from_char dot s with String _ t => t | EmptyString => EmptyString end).

Section tickets.
(** The HMAC digest of a text under a secret, and the JSON codec (with sorted keys and no
    spaces). *)
Context (hmac_hex : string -> string -> string) (dumps : Json -> string)
  (loads : string -> option Json).

(** [_sign(secret, payload, ttl)], with the nonce drawn and the clock in whole seconds. *)
Definition _sign (secret : string) (payload : odict string Json) (ttl : Z) (nonce : string) (now : Z)
    : string :=
  let payload := dict_set (dict_set payload "nonce" (JStr nonce)) "exp" (JInt (now + Z.max 1 ttl)) in
  let body := dumps (JObj payload) in
  String.append (hmac_hex secret body) (String dot body).

(** [mint_ticket(...)] *)
Definition mint_ticket (secret : option string) (uid : Z) (workspace : string)
    (ro rw env_allow : list string) (ttl : Z) (nonce : string) (now : Z)
    : result TicketError string :=
  match secret with
  | None => Err NoSecret
  | Some secret =>
      let strs l := JArr (map JStr l) in
      Ok (_sign secret
            [("op", JStr OP_SPAWN); ("uid", JInt uid); ("workspace", JStr workspace);
             ("ro", strs ro); ("rw", strs rw); ("env_allow", strs env_allow)] ttl nonce now)
  end.

(** [mint_op_ticket(op, uid, ttl, **fields)] *)
Definition mint_op_ticket (secret : option string) (op : string) (uid ttl : Z)
    (fields : odict string Json) (nonce : string) (now : Z) : result TicketError string :=
  if negb (bool_decide (op ∈ _OPS)) || bool_decide (op = OP_SPAWN) then Err NotAnOp
  else if existsb (dict_has fields) ["op"; "uid"; "gid"; "nonce"; "exp"] then Err ReservedField
  else
    match secret with
    | None => Err NoSecret
    | Some secret => Ok (_sign secret (("op", JStr op) :: ("uid", JInt uid) :: fields) ttl nonce now)
    end.

(** [verify_ticket(ticket, seen_nonces)]: the payload and the nonces seen afterwards. *)
Definition verify_ticket (secret : option string) (ticket : string) (seen : option (list string))
    (now : Z) : result TicketError (Json * option (list string)) :=
  match secret with
  | None => Err NoSecret
  | Some secret =>
      if negb (is_ascii ticket) then Err MalformedTicket
      else
        let '(sig, body) := partition_dot ticket in
        if bool_decide (sig = "") || bool_decide (body = "") then Err MalformedTicket
        else if negb (bool_decide (sig = hmac_hex secret body)) then Err BadSignature
        else
          match loads body with
          | None => Err NotJson
          | Some payload =>
              if negb (is_dict payload) then Err NotAnObject
              else
                match jget_null payload "exp", jget_null payload "nonce" with
                | JInt exp, JStr nonce =>
                    if bool_decide (nonce = "") then Err NoExpOrNonce
                    else if exp <? now then Err Expired
                    else
                      match seen with
                      | None => Ok (payload, None)
                      | Some l =>
                          if bool_decide (nonce ∈ l) then Err AlreadyUsed
                          else Ok (payload, Some (nonce :: l))
                      end
                | _, _ => Err NoExpOrNonce
                end
          end
  end.
End tickets.

(** ** Dictionaries *)

Lemma dict_get_perm {V} (d d' : odict string V) k :
  dict_wf d -> d ≡ₚ d' -> dict_get d k = dict_get d' k.
Proof.
  intros Hwf Hp. assert (dict_wf d') as Hwf'.
  { unfold dict_wf, dict_keys in *. by rewrite <- Hp. }
  destruct (dict_get d k) as [v|] eqn:E.
  - symmetry. apply dict_elem_get; [done|]. rewrite <- Hp. by apply dict_get_elem.
  - symmetry. apply dict_get_None in E. apply dict_get_None. unfold dict_keys in *. by rewrite <- Hp.
Qed.

Lemma dict_del_set_absent {V} (d : odict string V) k v :
  dict_get d k = None -> dict_del (dict_set d k v) k = d.
Proof.
  induction d as [|[k' v'] d IH]; simpl; [by rewrite decide_True|].
  case_decide; [done|]. intros Hd. simpl. rewrite decide_False by done. by rewrite IH.
Qed.

(** [d.update(m)] *)
Lemma dict_update_get (m : odict string Z) (d : odict string Json) k :
  dict_wf m ->
  dict_get (foldl (fun d kv => dict_set d (fst kv) (JInt (snd kv))) d m) k =
    match dict_get m k with Some u => Some (JInt u) | None => dict_get d k end.
Proof.
  revert d. induction m as [|[k1 u1] m IH]; intros d Hwf; simpl; [done|].
  unfold dict_wf in Hwf. simpl in Hwf. apply NoDup_cons in Hwf as [Hk1 Hwf].
  rewrite IH by done. rewrite dict_get_set.
  apply dict_get_None in Hk1. repeat case_decide; subst; rewrite ?Hk1; done.
Qed.

Lemma dict_update_wf (m : odict string Z) (d : odict string Json) :
  dict_wf d -> dict_wf (foldl (fun d kv => dict_set d (fst kv) (JInt (snd kv))) d m).
Proof. revert d. induction m as [|kv m IH]; intros d Hd; simpl; [done|]. by apply IH, dict_wf_set. Qed.

Lemma countb_two {A} (p : A -> bool) l x y :
  x ∈ l -> y ∈ l -> x <> y -> p x = true -> p y = true -> 2 <= countb p l.
Proof.
  intros Hx Hy Hne Hpx Hpy. induction l as [|z l IH]; [by apply elem_of_nil in Hx|].
  rewrite elem_of_cons in Hx, Hy. simpl.
  destruct Hx as [->|Hx], Hy as [->|Hy]; [done|rewrite Hpx|rewrite Hpy|].
  - pose proof (countb_pos p l y Hy Hpy). lia.
  - pose proof (countb_pos p l x Hx Hpx). lia.
  - specialize (IH Hx Hy). destruct (p z); lia.
Qed.

(** ** The registry *)

(** What the registry knows of a key, honored or held. *)
Definition mem_value (r : UidRegistry) (k : string) : option Json :=
  match dict_get (_map r) k with
  | Some u => Some (JInt u)
  | None => dict_get (_held r) k
  end.

(** What the file says of a key. *)
Definition file_get (f : File) (k : string) : option Json :=
  match f with Doc v => jget v k | _ => None end.

(** A file as [json.loads] reads it: an object has every key once. *)
Definition file_wf (f : File) : Prop :=
  match f with Doc (JObj d) => dict_wf d | _ => True end.

Record reg_ok (r : UidRegistry) : Prop := {
  ro_map : dict_wf (_map r);
  ro_held : dict_wf (_held r);
  ro_disjoint : forall k u, dict_get (_map r) k = Some u -> dict_get (_held r) k = None;
  ro_valid : forall k u, dict_get (_map r) k = Some u ->
    in_range (_lo r) (_hi r) u = true /\ u ∉ _reserved r /\ u ∈ _used r;
  ro_inj : forall k k' u, dict_get (_map r) k = Some u -> dict_get (_map r) k' = Some u -> k = k';
  ro_held_used : forall k u, dict_get (_held r) k = Some (JInt u) ->
    u ∈ _used r /\ forall k', dict_get (_map r) k' <> Some u;
}.

Lemma reg_ok_known r k u : reg_ok r -> mem_value r k = Some (JInt u) -> u ∈ _used r.
Proof.
  intros Hok. unfold mem_value. destruct (dict_get (_map r) k) as [v|] eqn:E.
  - intros [= ->]. by eapply ro_valid.
  - intros H. by eapply ro_held_used.
Qed.

(** What the loop of [_load] has done after the entries [done]. *)
Record loaded (raw done : list (string * Json)) (r0 r : UidRegistry) : Prop := {
  ld_lo : _lo r = _lo r0;
  ld_hi : _hi r = _hi r0;
  ld_reserved : _reserved r = _reserved r0;
  ld_map_wf : dict_wf (_map r);
  ld_held_wf : dict_wf (_held r);
  ld_map : forall k u, dict_get (_map r) k = Some u <->
    (k, JInt u) ∈ done /\ held_because (_lo r0) (_hi r0) (_reserved r0) raw (JInt u) = None;
  ld_held : forall k v, dict_get (_held r) k = Some v <->
    (k, v) ∈ done /\ is_Some (held_because (_lo r0) (_hi r0) (_reserved r0) raw v);
  ld_used : forall u, u ∈ _used r <-> exists k, (k, JInt u) ∈ done;
}.

Lemma load_entry_cases raw r k v :
  (exists u, v = JInt u /\ held_because (_lo r) (_hi r) (_reserved r) raw v = None /\
     load_entry raw r (k, v) =
       MkRegistry (_lo r) (_hi r) (_reserved r) (dict_set (_map r) k u) ({[u]} ∪ _used r)
         (_held r) (_held_reason r) (_capacity r) (_fill_warned r))
  \/ (exists why, held_because (_lo r) (_hi r) (_reserved r) raw v = Some why /\
     load_entry raw r (k, v) =
       MkRegistry (_lo r) (_hi r) (_reserved r) (_map r)
         (match _is_uid v with Some u => {[u]} ∪ _used r | None => _used r end)
         (dict_set (_held r) k v) (dict_set (_held_reason r) k why) (_capacity r) (_fill_warned r)).
Proof.
  unfold load_entry. destruct (held_because _ _ _ _ v) as [why|] eqn:E; [right; eauto|].
  unfold held_because in E. destruct v; simpl in *; try done. left. eauto.
Qed.

Lemma load_step raw done r0 r k v :
  loaded raw done r0 r -> k ∉ dict_keys done ->
  loaded raw (done ++ [(k, v)]) r0 (load_entry raw r (k, v)).
Proof.
  intros [H1 H2 H3 H4 H5 H6 H7 H8] Hk.
  assert (forall x, (k, x) ∉ done) as Hk'.
  { intros x Hx. apply Hk. apply list_elem_of_fmap. by exists (k, x). }
  destruct (load_entry_cases raw r k v) as [(u & -> & Hb & ->)|(why & Hb & ->)];
    rewrite H1, H2, H3 in Hb; split; simpl; try done; try by apply dict_wf_set.
  - intros k' u'. rewrite dict_get_set, elem_of_app, list_elem_of_singleton. case_decide; subst.
    + split; [intros [= <-]; tauto|]. intros [[Hin|[= ->]] _]; [by apply Hk' in Hin|done].
    + rewrite H6. naive_solver.
  - intros k' v'. rewrite H7, elem_of_app, list_elem_of_singleton. split; [tauto|].
    intros [[Hin|[= -> ->]] [y Hy]]; [eauto|congruence].
  - intros u'. rewrite elem_of_union, elem_of_singleton, H8.
    setoid_rewrite elem_of_app. setoid_rewrite list_elem_of_singleton. naive_solver.
  - intros k' u'. rewrite H6, elem_of_app, list_elem_of_singleton. split; [tauto|].
    intros [[Hin|[= -> <-]] Hy]; [eauto|congruence].
  - intros k' v'. rewrite dict_get_set, elem_of_app, list_elem_of_singleton. case_decide; subst.
    + split; [intros [= <-]; eauto|]. intros [[Hin|[= ->]] _]; [by apply Hk' in Hin|done].
    + rewrite H7. naive_solver.
  - intros u'. setoid_rewrite elem_of_app. setoid_rewrite list_elem_of_singleton.
    destruct v; simpl; rewrite ?elem_of_union, ?elem_of_singleton, H8; naive_solver.
Qed.

Lemma load_all raw todo done r0 r :
  dict_wf (done ++ todo) -> loaded raw done r0 r ->
  loaded raw (done ++ todo) r0 (foldl (load_entry raw) r todo).
Proof.
  revert done r. induction todo as [|[k v] todo IH]; intros done r Hwf Hl; [by rewrite app_nil_r|].
  cbn [foldl]. rewrite cons_middle, app_assoc in *. apply IH; [done|].
  apply load_step; [done|]. unfold dict_wf, dict_keys in Hwf. rewrite !map_app in Hwf.
  apply NoDup_app in Hwf as [Hwf _]. apply NoDup_app in Hwf as (_ & Hd & _).
  intros Hin. apply (Hd k Hin). apply elem_of_cons. by left.
Qed.

Lemma held_because_owner lo hi reserved raw u :
  held_because lo hi reserved raw (JInt u) = None ->
  u ∉ reserved /\ in_range lo hi u = true /\ owners raw u = 1.
Proof.
  unfold held_because. simpl. case_bool_decide; [done|].
  destruct (in_range lo hi u); simpl; [|done].
  destruct (owners raw u =? 1) eqn:E; simpl; [|done]. b2p. done.
Qed.

Section loaded.
Context (raw : list (string * Json)) (r0 r : UidRegistry).
Hypothesis Hwf : dict_wf raw.
Hypothesis Hl : loaded raw raw r0 r.

Lemma loaded_ok : reg_ok r.
Proof.
  destruct Hl as [H1 H2 H3 H4 H5 H6 H7 H8]. split; try done.
  - intros k u Hk. apply H6 in Hk as [Hin Hb]. apply eq_None_not_Some. intros [v Hv].
    apply H7 in Hv as [Hin' [why Hw]].
    apply dict_elem_get in Hin, Hin'; [|done..]. simplify_eq.
  - intros k u Hk. apply H6 in Hk as [Hin Hb]. apply held_because_owner in Hb as (? & ? & _).
    rewrite H1, H2, H3. split_and!; [done|done|]. apply H8. eauto.
  - intros k k' u Hk Hk'. apply H6 in Hk as [Hin Hb], Hk' as [Hin' _].
    apply held_because_owner in Hb as (_ & _ & Ho). destruct (decide (k = k')) as [|Hne]; [done|].
    exfalso. unfold owners in Ho.
    enough (2 <= countb (fun kv : string * Json =>
      match _is_uid (snd kv) with Some n => n =? u | None => false end) raw) by lia.
    apply (countb_two _ _ (k, JInt u) (k', JInt u)); [done|done|by intros [= ?]|..];
      simpl; apply Z.eqb_refl.
  - intros k u Hk. apply H7 in Hk as [Hin [why Hw]]. split; [apply H8; eauto|].
    intros k' Hk'. apply H6 in Hk' as [_ Hb]. congruence.
Qed.

Lemma loaded_mem k : mem_value r k = dict_get raw k.
Proof.
  destruct Hl as [_ _ _ _ _ H6 H7 _]. unfold mem_value.
  destruct (dict_get raw k) as [v|] eqn:E.
  - apply dict_get_elem in E.
    destruct (load_entry_cases raw r0 k v) as [(u & -> & Hb & _)|(why & Hb & _)].
    + by rewrite (proj2 (H6 k u)).
    + destruct (dict_get (_map r) k) as [u|] eqn:Em.
      * apply H6 in Em as [Hin Hb']. apply dict_elem_get in E, Hin; [|done..]. simplify_eq.
      * apply H7. split; [done|]. by exists why.
  - destruct (dict_get (_map r) k) as [u|] eqn:Em.
    { apply H6 in Em as [Hin _]. apply dict_elem_get in Hin; [|done]. congruence. }
    apply eq_None_not_Some. intros [v Hv]. apply H7 in Hv as [Hin _].
    apply dict_elem_get in Hin; [|done]. congruence.
Qed.
End loaded.

Lemma check_fill_same r :
  _lo (_check_fill r) = _lo r /\ _hi (_check_fill r) = _hi r /\
  _reserved (_check_fill r) = _reserved r /\ _map (_check_fill r) = _map r /\
  _used (_check_fill r) = _used r /\ _held (_check_fill r) = _held r.
Proof. unfold _check_fill. by case_match. Qed.

Lemma check_fill_ok r : reg_ok r -> reg_ok (_check_fill r).
Proof.
  intros [? ? ? ? ? ?]. destruct (check_fill_same r) as (E1 & E2 & E3 & E4 & E5 & E6).
  split; rewrite ?E1, ?E2, ?E3, ?E4, ?E5, ?E6; done.
Qed.

(** A registry loaded from a file knows exactly what the file says. *)
Lemma new_registry_ok f lo hi reserved r :
  file_wf f -> new_registry f lo hi reserved = Ok r ->
  reg_ok r /\ (forall k, mem_value r k = file_get f k) /\
  _lo r = lo /\ _hi r = hi /\ _reserved r = reserved.
Proof.
  intros Hwf. unfold new_registry. set (r0 := MkRegistry lo hi reserved [] ∅ [] [] _ false).
  destruct (_load f r0) as [r1|] eqn:El; simpl; [|done]. intros [= <-].
  destruct (check_fill_same r1) as (E1 & E2 & E3 & E4 & E5 & E6).
  unfold mem_value. rewrite E1, E2, E3, E4, E6.
  unfold _load in El. destruct f as [| | |[| | | | | |raw]]; try done; injection El as <-.
  { split; [apply check_fill_ok; split; try done; constructor|done]. }
  simpl in Hwf.
  assert (loaded raw raw r0 (foldl (load_entry raw) r0 raw)) as Hl.
  { apply (load_all raw raw [] r0 r0 Hwf).
    split; [done|done|done|constructor|constructor| | |]; simpl.
    - intros k u. split; [done|by intros [?%elem_of_nil _]].
    - intros k v. split; [done|by intros [?%elem_of_nil _]].
    - intros u. split; [by intros ?%elem_of_empty|by intros [k ?%elem_of_nil]]. }
  split; [by eapply check_fill_ok, loaded_ok|].
  split; [intros k; by apply (loaded_mem raw r0)|]. by destruct Hl.
Qed.

Lemma mem_unique r k k' u :
  reg_ok r -> dict_get (_map r) k = Some u -> mem_value r k' = Some (JInt u) -> k' = k.
Proof.
  intros Hok Hk. unfold mem_value. destruct (dict_get (_map r) k') as [u'|] eqn:E.
  - intros [= ->]. by eapply ro_inj.
  - intros Hh. destruct (ro_held_used r Hok k' u Hh) as [_ Hn]. by destruct (Hn k).
Qed.

Lemma first_free_spec n lo tk :
  match first_free n lo tk with
  | Some u => lo <= u < lo + Z.of_nat n /\ tk u = false /\ forall v, lo <= v < u -> tk v = true
  | None => forall v, lo <= v < lo + Z.of_nat n -> tk v = true
  end.
Proof.
  revert lo. induction n as [|n IH]; intros lo; simpl; [lia|].
  destruct (tk lo) eqn:E.
  - specialize (IH (lo + 1)). destruct (first_free n (lo + 1) tk) as [u|].
    + destruct IH as (H1 & H2 & H3). split_and!; [lia|lia|done|].
      intros v Hv. destruct (decide (v = lo)) as [->|]; [done|]. apply H3. lia.
    + intros v Hv. destruct (decide (v = lo)) as [->|]; [done|]. apply IH. lia.
  - split_and!; [lia|lia|done|lia].
Qed.

Lemma ungrant_grant key u r :
  dict_get (_map r) key = None -> u ∉ _used r -> ungrant key u (grant key u r) = r.
Proof.
  intros Hk Hu. destruct r; unfold ungrant, grant; simpl in *.
  rewrite dict_del_set_absent by done. f_equal. set_solver.
Qed.

Lemma grant_ok key u r :
  reg_ok r -> mem_value r key = None -> u ∉ _used r -> u ∉ _reserved r ->
  in_range (_lo r) (_hi r) u = true -> reg_ok (grant key u r).
Proof.
  intros Hok Hmem Hu Hr Hin. pose proof Hok as [H1 H2 H3 H4 H5 H6].
  unfold mem_value in Hmem. destruct (dict_get (_map r) key) as [|] eqn:Ek; [done|].
  assert (forall k, dict_get (_map r) k <> Some u) as Hfresh.
  { intros k Hk. apply Hu. by eapply H4. }
  split; simpl.
  - by apply dict_wf_set.
  - done.
  - intros k u'. rewrite dict_get_set. case_decide; subst; [done|]. by eapply H3.
  - intros k u'. rewrite dict_get_set. case_decide; subst.
    + intros [= <-]. split_and!; [done|done|set_solver].
    + intros Hk. destruct (H4 _ _ Hk) as (? & ? & ?). split_and!; [done|done|set_solver].
  - intros k k' u'. rewrite !dict_get_set. repeat case_decide; subst; try done.
    + intros [= <-] Hk. by apply Hfresh in Hk.
    + intros Hk [= <-]. by apply Hfresh in Hk.
    + by apply H5.
  - intros k u' Hk. destruct (H6 _ _ Hk) as [Hin' Hno]. split; [set_solver|].
    intros k'. rewrite dict_get_set. case_decide; [|done]. intros [= <-]. done.
Qed.

(** The file [_persist] writes says what the registry knows. *)
Lemma persisted_doc_get r k :
  reg_ok r -> jget (persisted_doc r) k = mem_value r k /\ file_wf (Doc (persisted_doc r)).
Proof.
  intros [H1 H2 _ _ _ _]. unfold persisted_doc, mem_value.
  set (d := foldl _ _ _). assert (dict_wf d) as Hd by by apply dict_update_wf.
  assert (dict_wf (merge_sort key_le d)) as Hs.
  { unfold dict_wf, dict_keys in *. by rewrite merge_sort_Permutation. }
  split; [|done]. simpl.
  rewrite (dict_get_perm _ d); [|done|apply merge_sort_Permutation].
  unfold d. by rewrite dict_update_get.
Qed.

(** One call of [resolve], on every branch. *)
Lemma resolve_spec key written f r r' f' res :
  reg_ok r -> (forall k, mem_value r k = file_get f k) -> file_wf f ->
  resolve key written f r = (r', f', res) ->
  reg_ok r' /\ (forall k, mem_value r' k = file_get f' k) /\ file_wf f' /\
  _lo r' = _lo r /\ _hi r' = _hi r /\ _reserved r' = _reserved r /\
  (forall k v, mem_value r k = Some v -> mem_value r' k = Some v) /\
  (forall u, u ∈ _used r' -> u ∈ _used r \/ in_range (_lo r) (_hi r) u = true) /\
  match res with
  | Ok u => dict_get (_map r') key = Some u
  | Err UidBandExhausted =>
      r' = r /\ f' = f /\ mem_value r key = None /\
      forall u, in_range (_lo r) (_hi r) u = true -> taken r u = true
  | Err UidAllocationError =>
      r' = r /\ f' = f /\ (is_Some (dict_get (_held r) key) \/ written = false)
  end.
Proof.
  intros Hok Hmem Hwf. unfold resolve.
  destruct (dict_get (_map r) key) as [u|] eqn:Ek.
  { intros [= <- <- <-]. split_and!; auto. }
  destruct (dict_has (_held r) key) eqn:Eh.
  { intros [= <- <- <-]. apply bool_decide_eq_true in Eh. split_and!; auto. }
  assert (mem_value r key = None) as Hnone.
  { unfold mem_value. rewrite Ek. unfold dict_has in Eh. apply bool_decide_eq_false in Eh.
    by apply eq_None_not_Some. }
  pose proof (first_free_spec (Z.to_nat (_hi r - _lo r + 1)) (_lo r) (taken r)) as Hff.
  destruct (first_free _ _ _) as [u|].
  2:{ intros [= <- <- <-]. split_and!; auto. intros u Hu. apply Hff.
      unfold in_range in Hu. zb. }
  destruct Hff as (Hr & Ht & _). unfold taken in Ht. b2p.
  assert (in_range (_lo r) (_hi r) u = true) as Hin.
  { unfold in_range. apply andb_true_iff. rewrite !Z.leb_le. lia. }
  destruct written.
  2:{ rewrite ungrant_grant by done. intros [= <- <- <-]. split_and!; auto. }
  intros [= <- <- <-].
  assert (reg_ok (grant key u r)) as Hg by by apply grant_ok.
  destruct (check_fill_same (grant key u r)) as (E1 & E2 & E3 & E4 & E5 & E6).
  assert (forall k, mem_value (_check_fill (grant key u r)) k = mem_value (grant key u r) k) as Hm.
  { intros k. unfold mem_value. by rewrite E4, E6. }
  split_and!; rewrite ?E1, ?E2, ?E3, ?E4, ?E5; try done.
  - by apply check_fill_ok.
  - intros k. rewrite Hm. symmetry. exact (proj1 (persisted_doc_get _ k Hg)).
  - exact (proj2 (persisted_doc_get _ key Hg)).
  - intros k v Hk. rewrite Hm. unfold mem_value in *. simpl. rewrite dict_get_set.
    case_decide; subst; [by rewrite Ek, Hnone in Hk || congruence|done].
  - intros u' Hu'. simpl in Hu'. rewrite elem_of_union, elem_of_singleton in Hu'.
    destruct Hu' as [->|?]; [by right|by left].
  - simpl. apply dict_get_set_eq.
Qed.

(** ** The pool as a queue *)

(** The uids of a band that may be handed out. *)
Definition allowed_uids (lo hi : Z) (reserved : gset Z) : list Z :=
  filter (fun u => u ∉ reserved) (seqZ lo (hi - lo + 1)).

(** The free uids, next one first: the never-used ones ascending, then the released ones
    oldest first. *)
Definition avail (p : Pool) : list Z :=
  allowed_uids (p_next p) (p_hi p) (p_reserved p) ++ p_released p.

Definition pool_uids (p : Pool) : list Z := allowed_uids (p_lo p) (p_hi p) (p_reserved p).

(** Every uid of the pool is leased once or free once. *)
Record pool_ok (p : Pool) : Prop := {
  po_leases : dict_wf (p_leases p);
  po_next : p_lo p <= p_next p;
  po_parts : dict_values (p_leases p) ++ avail p ≡ₚ pool_uids p;
  po_reserved : forall u, u ∈ p_reserved p -> in_range (p_lo p) (p_hi p) u = true;
  po_capacity : p_capacity p = Z.of_nat (length (pool_uids p));
}.

Lemma in_range_iff lo hi u : in_range lo hi u = true <-> lo <= u <= hi.
Proof. unfold in_range. by rewrite andb_true_iff, !Z.leb_le. Qed.

Lemma allowed_uids_elem lo hi reserved u :
  u ∈ allowed_uids lo hi reserved <-> in_range lo hi u = true /\ u ∉ reserved.
Proof.
  unfold allowed_uids. rewrite list_elem_of_filter, elem_of_seqZ, in_range_iff. 
  intuition lia.
Qed.

Lemma allowed_uids_NoDup lo hi reserved : NoDup (allowed_uids lo hi reserved).
Proof. apply NoDup_filter, NoDup_seqZ. Qed.

Lemma allowed_uids_cons lo hi reserved :
  lo <= hi ->
  allowed_uids lo hi reserved =
    (if decide (lo ∈ reserved) then [] else [lo]) ++ allowed_uids (lo + 1) hi reserved.
Proof.
  intros H. unfold allowed_uids. rewrite seqZ_cons by lia.
  replace (Z.pred (hi - lo + 1)) with (hi - (lo + 1) + 1) by lia.
  change (Z.succ lo) with (lo + 1). rewrite filter_cons. repeat case_decide; done.
Qed.

Lemma allowed_uids_nil lo hi reserved : hi < lo -> allowed_uids lo hi reserved = [].
Proof. intros H. unfold allowed_uids. by rewrite seqZ_nil by lia. Qed.

(** How many uids a band hands out, counted as the code counts them. *)
Lemma allowed_uids_length lo hi reserved :
  Z.of_nat (length (allowed_uids lo hi reserved)) =
    Z.max 0 (hi - lo + 1) - Z.of_nat (size (filter (fun u => in_range lo hi u = true) reserved)).
Proof.
  set (inside := filter (fun u => in_range lo hi u = true) reserved).
  assert (inside = list_to_set (filter (fun u => u ∈ reserved) (seqZ lo (hi - lo + 1)))) as ->.
  { apply set_eq. intros u. unfold inside.
    rewrite elem_of_filter, elem_of_list_to_set, list_elem_of_filter, elem_of_seqZ, in_range_iff.
    intuition lia. }
  rewrite size_list_to_set by apply NoDup_filter, NoDup_seqZ.
  pose proof (length_seqZ lo (hi - lo + 1)) as Hl.
  assert (forall l : list Z, (length l = length (filter (fun u => u ∉ reserved) l) +
    length (filter (fun u => u ∈ reserved) l))%nat) as Hsplit.
  { induction l as [|x l IH]; [done|]. rewrite !filter_cons. repeat case_decide; simpl; try done; lia. }
  specialize (Hsplit (seqZ lo (hi - lo + 1))). unfold allowed_uids. lia.
Qed.

Lemma new_pool_ok lo hi reserved : pool_ok (new_pool lo hi reserved).
Proof.
  unfold new_pool. set (inside := filter (fun u => in_range lo hi u = true) reserved).
  split; simpl; [constructor|lia| | |].
  - unfold avail, pool_uids. simpl. by rewrite app_nil_r.
  - intros u Hu. unfold inside in Hu. by apply elem_of_filter in Hu as [? _].
  - unfold pool_uids. simpl. rewrite allowed_uids_length. do 3 f_equal.
    apply set_eq. intros u. unfold inside. rewrite !elem_of_filter. tauto.
Qed.

Lemma next_unused_spec n next hi reserved :
  Z.of_nat n = Z.max 0 (hi - next + 1) ->
  next_unused n next reserved =
    match allowed_uids next hi reserved with
    | [] => (None, Z.max next (hi + 1))
    | u :: _ => (Some u, u + 1)
    end /\
  match allowed_uids next hi reserved with
  | [] => True
  | u :: rest => next <= u <= hi /\ rest = allowed_uids (u + 1) hi reserved
  end.
Proof.
  revert next. induction n as [|n IH]; intros next Hn; simpl.
  { rewrite allowed_uids_nil by lia. split; [f_equal; lia|done]. }
  rewrite allowed_uids_cons by lia. case_bool_decide as Hr.
  - rewrite decide_True by done. simpl. destruct (IH (next + 1)) as [E1 E2]; [lia|]. rewrite E1.
    destruct (allowed_uids (next + 1) hi reserved) as [|u rest]; [split; [f_equal; lia|done]|].
    split; [done|]. destruct E2. split; [lia|done].
  - rewrite decide_False by done. simpl. split; [done|]. split; [lia|done].
Qed.

(** The free uids after the cursor moved past the end. *)
Lemma take_free_spec p :
  pool_ok p ->
  match _take_free_locked p with
  | (r, p') => r = head (avail p) /\ avail p' = tail (avail p) /\ p_leases p' = p_leases p /\
      p_lo p' = p_lo p /\ p_hi p' = p_hi p /\ p_reserved p' = p_reserved p /\
      p_capacity p' = p_capacity p /\ p_lo p' <= p_next p'
  end.
Proof.
  intros [_ Hn _ _ _]. unfold _take_free_locked.
  destruct (next_unused_spec (Z.to_nat (p_hi p - p_next p + 1)) (p_next p) (p_hi p) (p_reserved p))
    as [E1 E2]; [lia|]. rewrite E1. unfold avail.
  destruct (allowed_uids (p_next p) (p_hi p) (p_reserved p)) as [|u rest] eqn:Ea.
  - destruct (p_released p) as [|u rest]; simpl; rewrite (allowed_uids_nil _ (p_hi p)) by lia;
      split_and!; try done; lia.
  - destruct E2 as [Hu ->]. simpl. split_and!; try done; lia.
Qed.

(** The abstract pool: leases and a queue of free uids. *)
Record Queue := MkQueue { q_leases : odict string Z; q_free : list Z }.

Definition abs (p : Pool) : Queue := MkQueue (p_leases p) (avail p).

Definition q_release (key : string) (q : Queue) : Queue :=
  match dict_get (q_leases q) key with
  | Some u => MkQueue (dict_del (q_leases q) key) (q_free q ++ [u])
  | None => q
  end.

(** A key keeps its uid; a new key takes the first free one; when none is free the
    leases whose workspace is gone are released first. *)
Definition q_resolve (gone : string -> bool) (key : string) (q : Queue) : Queue * option Z :=
  match dict_get (q_leases q) key with
  | Some u => (q, Some u)
  | None =>
      let q := match q_free q with
               | [] => foldl (fun q k => q_release k q) q
                         (filter (fun k => gone k = true) (dict_keys (q_leases q)))
               | _ => q
               end in
      match q_free q with
      | [] => (q, None)
      | u :: rest => (MkQueue (dict_set (q_leases q) key u) rest, Some u)
      end
  end.

Lemma dict_values_del {V} (d : odict string V) k v :
  dict_get d k = Some v -> dict_values d ≡ₚ v :: dict_values (dict_del d k).
Proof.
  induction d as [|[k' v'] d IH]; simpl; [done|]. case_decide; [by intros [= ->]|].
  intros Hk. simpl. rewrite (IH Hk). constructor.
Qed.

Lemma dict_values_set_new {V} (d : odict string V) k v :
  dict_get d k = None -> dict_values (dict_set d k v) = dict_values d ++ [v].
Proof.
  induction d as [|[k' v'] d IH]; simpl; [done|]. case_decide; [done|].
  intros Hk. simpl. by rewrite IH.
Qed.

Lemma end_lease_abs p key : abs (end_lease p key) = q_release key (abs p).
Proof.
  unfold end_lease, q_release, abs. simpl. destruct (dict_get (p_leases p) key); [|done].
  unfold avail. simpl. by rewrite app_assoc.
Qed.

Lemma end_lease_ok p key : pool_ok p -> pool_ok (end_lease p key).
Proof.
  intros [H1 H2 H3 H4 H5]. unfold end_lease.
  destruct (dict_get (p_leases p) key) as [u|] eqn:E; [|done].
  split; simpl; try done; [by apply dict_wf_del|].
  unfold avail, pool_uids in *. simpl. rewrite <- H3, (dict_values_del _ _ _ E).
  rewrite !app_assoc, <- Permutation_cons_append. done.
Qed.

Lemma end_lease_fields p key :
  p_lo (end_lease p key) = p_lo p /\ p_hi (end_lease p key) = p_hi p /\
  p_reserved (end_lease p key) = p_reserved p.
Proof. unfold end_lease. by case_match. Qed.

Lemma reclaim_spec gone p :
  pool_ok p ->
  let p' := _reclaim_stale_locked gone p in
  pool_ok p' /\ p_lo p' = p_lo p /\ p_hi p' = p_hi p /\ p_reserved p' = p_reserved p /\
  abs p' = foldl (fun q k => q_release k q) (abs p)
             (filter (fun k => gone k = true) (dict_keys (p_leases p))).
Proof.
  unfold _reclaim_stale_locked. generalize (filter (fun k => gone k = true) (dict_keys (p_leases p))).
  intros ks. revert p. induction ks as [|k ks IH]; intros p Hok; simpl; [done|].
  destruct (IH (end_lease p k)) as (H1 & H2 & H3 & H4 & H5); [by apply end_lease_ok|].
  destruct (end_lease_fields p k) as (E1 & E2 & E3).
  rewrite H2, H3, H4, H5, E1, E2, E3, end_lease_abs. done.
Qed.

(** The same pool with other leases and another cursor. *)
Lemma pool_ok_same p p' :
  pool_ok p -> p_lo p' = p_lo p -> p_hi p' = p_hi p -> p_reserved p' = p_reserved p ->
  p_capacity p' = p_capacity p -> p_lo p' <= p_next p' -> dict_wf (p_leases p') ->
  dict_values (p_leases p') ++ avail p' ≡ₚ dict_values (p_leases p) ++ avail p ->
  pool_ok p'.
Proof.
  intros [H1 H2 H3 H4 H5] E1 E2 E3 E4 Hn Hw Hp.
  assert (pool_uids p' = pool_uids p) as Hu by (unfold pool_uids; by rewrite E1, E2, E3).
  split; [done|done|by rewrite Hu, Hp|by rewrite E1, E2, E3|by rewrite E4, Hu].
Qed.

(** Leasing the uid just taken. *)
Lemma add_lease_ok p p' key u :
  pool_ok p -> dict_get (p_leases p) key = None -> _take_free_locked p = (Some u, p') ->
  pool_ok (add_lease key u p') /\ exists rest, avail p = u :: rest /\
    abs (add_lease key u p') = MkQueue (dict_set (p_leases p) key u) rest /\
  p_lo p' = p_lo p /\ p_hi p' = p_hi p /\ p_reserved p' = p_reserved p.
Proof.
  intros Hok Hk Et. pose proof (take_free_spec p Hok) as Hs. rewrite Et in Hs.
  destruct Hs as (Hh & Ht & Hl & E1 & E2 & E3 & E4 & E5).
  destruct (avail p) as [|u' rest] eqn:Ea; [done|]. injection Hh as <-. simpl in Ht.
  split.
  - apply (pool_ok_same p); try done; simpl; rewrite Hl.
    + by apply dict_wf_set, (po_leases p Hok).
    + change (avail (add_lease key u p')) with (avail p').
      by rewrite dict_values_set_new, Ht, Ea, <- app_assoc.
  - exists rest. split_and!; try done. unfold abs. simpl. rewrite Hl. f_equal. exact Ht.
Qed.

Lemma reclaim_keeps_absent gone p key :
  dict_get (p_leases p) key = None ->
  dict_get (p_leases (_reclaim_stale_locked gone p)) key = None.
Proof.
  unfold _reclaim_stale_locked. generalize (filter (fun k => gone k = true) (dict_keys (p_leases p))).
  intros ks. revert p. induction ks as [|k ks IH]; intros p Hk; simpl; [done|].
  apply IH. unfold end_lease. destruct (dict_get (p_leases p) k) as [u|] eqn:E; [|done]. simpl.
  destruct (decide (k = key)) as [->|Hne]; [congruence|]. by rewrite dict_get_del_ne.
Qed.

Lemma pool_empty_capacity p : pool_ok p -> p_capacity p <= 0 -> p_leases p = [] /\ avail p = [].
Proof.
  intros [_ _ H3 _ H5] Hc. rewrite H5 in Hc.
  assert (pool_uids p = []) as Hn by (apply nil_length_inv; lia). rewrite Hn in H3.
  apply Permutation_nil_r in H3. apply app_nil in H3 as [Hv ->]. split; [|done].
  by destruct (p_leases p).
Qed.

Definition opt_res (r : result UidError Z) : option Z := match r with Ok u => Some u | Err _ => None end.

Lemma pool_resolve_spec lstat key p :
  pool_ok p ->
  let '(p', r) := pool_resolve lstat key p in
  pool_ok p' /\ p_lo p' = p_lo p /\ p_hi p' = p_hi p /\ p_reserved p' = p_reserved p /\
  (abs p', opt_res r) = q_resolve (_lease_workspace_gone lstat) key (abs p).
Proof.
  intros Hok. unfold pool_resolve, q_resolve. cbn [abs q_leases].
  destruct (dict_get (p_leases p) key) as [u|] eqn:Ek; [done|].
  destruct (p_capacity p <=? 0) eqn:Ec.
  { b2p. destruct (pool_empty_capacity p Hok Ec) as [Hl Ha].
    split_and!; try done. assert (abs p = MkQueue [] []) as -> by (unfold abs; by rewrite Hl, Ha).
    by rewrite Hl. }
  pose proof (take_free_spec p Hok) as Hs.
  destruct (_take_free_locked p) as [[u|] p1] eqn:Et.
  { destruct (add_lease_ok p p1 key u Hok Ek Et) as (Hok' & rest & Ha & Habs & E1 & E2 & E3).
    split_and!; try done. rewrite Habs. unfold abs. cbn. by rewrite Ha. }
  destruct Hs as (Hh & Ht & Hl & E1 & E2 & E3 & E4 & E5).
  destruct (avail p) as [|] eqn:Ea; [|done]. simpl in Ht.
  assert (pool_ok p1) as Hok1.
  { apply (pool_ok_same p); try done; rewrite Hl; [apply (po_leases p Hok)|by rewrite Ht, Ea]. }
  set (gone := _lease_workspace_gone lstat).
  destruct (reclaim_spec gone p1 Hok1) as (Hok2 & F1 & F2 & F3 & Habs2).
  assert (abs p1 = abs p) as Habs1 by (unfold abs; by rewrite Hl, Ht, Ea).
  rewrite Habs1, Hl in Habs2. cbn [q_free abs]. rewrite Ea.
  change (q_leases (abs p)) with (p_leases p).
  rewrite <- Habs2.
  assert (dict_get (p_leases (_reclaim_stale_locked gone p1)) key = None) as Ek2.
  { apply reclaim_keeps_absent. by rewrite Hl. }
  pose proof (take_free_spec _ Hok2) as Hs2.
  destruct (_take_free_locked (_reclaim_stale_locked gone p1)) as [[u|] p2] eqn:Et2.
  - destruct (add_lease_ok _ p2 key u Hok2 Ek2 Et2) as (Hok' & rest & Ha & Habs & G1 & G2 & G3).
    split_and!; try done; simpl; try congruence.
    rewrite Ha. cbn [q_leases abs]. by rewrite <- Habs.
  - destruct Hs2 as (Hh2 & Ht2 & Hl2 & G1 & G2 & G3 & G4 & G5).
    destruct (avail (_reclaim_stale_locked gone p1)) as [|] eqn:Ea2; [|done]. simpl in Ht2.
    split_and!; try congruence.
    + eapply pool_ok_same; try done; rewrite Hl2; [apply (po_leases _ Hok2)|by rewrite Ht2, Ea2].
    + assert (abs p2 = abs (_reclaim_stale_locked gone p1)) as -> by (unfold abs; by rewrite Ht2, Hl2, Ea2).
      assert (q_free (abs (_reclaim_stale_locked gone p1)) = []) as -> by exact Ea2. done.
Qed.

Inductive PoolOp :=
| PoolResolve (lstat : string -> LStat) (key : string)
| PoolRelease (key : string).

Definition pool_step (p : Pool) (op : PoolOp) : Pool * option Z :=
  match op with
  | PoolResolve lstat key => let '(p, r) := pool_resolve lstat key p in (p, opt_res r)
  | PoolRelease key => pool_release key p
  end.

Definition q_step (q : Queue) (op : PoolOp) : Queue * option Z :=
  match op with
  | PoolResolve lstat key => q_resolve (_lease_workspace_gone lstat) key q
  | PoolRelease key => (q_release key q, dict_get (q_leases q) key)
  end.

(** A sequence of calls and their answers. *)
Fixpoint run_calls {S : Type} (step : S -> PoolOp -> S * option Z) (s : S) (ops : list PoolOp)
    : S * list (option Z) :=
  match ops with
  | [] => (s, [])
  | op :: rest =>
      let '(s1, a) := step s op in
      let '(s2, answers) := run_calls step s1 rest in (s2, a :: answers)
  end.

Lemma pool_step_abs p op :
  pool_ok p ->
  let '(p', a) := pool_step p op in
  pool_ok p' /\ pool_uids p' = pool_uids p /\ q_step (abs p) op = (abs p', a).
Proof.
  intros Hok. destruct op as [lstat key|key]; simpl.
  - pose proof (pool_resolve_spec lstat key p Hok) as H.
    destruct (pool_resolve lstat key p) as [p' r]. destruct H as (H1 & H2 & H3 & H4 & H5).
    unfold pool_uids. by rewrite H2, H3, H4.
  - destruct (end_lease_fields p key) as (E1 & E2 & E3). unfold pool_uids.
    rewrite E1, E2, E3, end_lease_abs. split_and!; try done. by apply end_lease_ok.
Qed.

Lemma pool_run_abs ops : forall p,
  pool_ok p ->
  let '(p', answers) := run_calls pool_step p ops in
  pool_ok p' /\ pool_uids p' = pool_uids p /\ run_calls q_step (abs p) ops = (abs p', answers).
Proof.
  induction ops as [|op ops IH]; intros p Hok; simpl; [done|].
  pose proof (pool_step_abs p op Hok) as Hs. destruct (pool_step p op) as [p1 a].
  destruct Hs as (H1 & H2 & ->). specialize (IH p1 H1).
  destruct (run_calls pool_step p1 ops) as [p2 answers]. destruct IH as (H3 & H4 & ->).
  by rewrite H4, H2.
Qed.

Lemma filter_ext_in {A} (P Q : A -> Prop) `{forall x, Decision (P x), forall x, Decision (Q x)}
    (l : list A) :
  (forall x, x ∈ l -> P x <-> Q x) -> filter P l = filter Q l.
Proof.
  induction l as [|x l IH]; intros Hpq; [done|]. rewrite !filter_cons.
  assert (P x <-> Q x) as Hx by (apply Hpq, elem_of_cons; by left).
  rewrite IH by (intros y Hy; apply Hpq, elem_of_cons; by right).
  repeat case_decide; tauto.
Qed.

Lemma allowed_uids_inside lo hi reserved :
  allowed_uids lo hi (filter (fun u => in_range lo hi u = true) reserved)
    = allowed_uids lo hi reserved.
Proof.
  unfold allowed_uids. apply filter_ext_in. intros u Hu.
  rewrite elem_of_filter, in_range_iff. apply elem_of_seqZ in Hu.
  split; intros Hn Hr; apply Hn; [split; [lia|done]|tauto].
Qed.

(** Releasing only lengthens the queue. *)
Lemma q_releases_empty ks : forall q,
  q_free (foldl (fun q k => q_release k q) q ks) = [] ->
  q_free q = [] /\ forall k, k ∈ ks -> dict_get (q_leases q) k = None.
Proof.
  induction ks as [|k ks IH]; intros q; simpl.
  { intros H. split; [done|]. by intros k ?%elem_of_nil. }
  intros H. apply IH in H as [H1 H2]. unfold q_release in H1, H2.
  destruct (dict_get (q_leases q) k) as [u|] eqn:E; [by destruct (q_free q)|].
  split; [done|]. intros k' [->|Hk]%elem_of_cons; [done|by apply H2].
Qed.

(** The pool is a first-in first-out queue with leases: on every sequence of calls it
    answers as the queue does that starts with the allowed uids of the band in
    ascending order, takes from the front and puts released uids at the back; and
    at every moment each allowed uid is leased once or free once, so a new run is
    refused only when every one of them is held by a run whose workspace exists. *)
Theorem pool_refines_queue lo hi reserved ops :
  let '(p, answers) := run_calls pool_step (new_pool lo hi reserved) ops in
  run_calls q_step (MkQueue [] (allowed_uids lo hi reserved)) ops = (abs p, answers)
  /\ dict_values (q_leases (abs p)) ++ q_free (abs p) ≡ₚ allowed_uids lo hi reserved
  /\ forall lstat key, snd (pool_step p (PoolResolve lstat key)) = None ->
       forall u, u ∈ allowed_uids lo hi reserved ->
       exists k, lease_of p k = Some u /\ _lease_workspace_gone lstat k = false.
Proof.
  pose proof (pool_run_abs ops (new_pool lo hi reserved) (new_pool_ok lo hi reserved)) as H.
  destruct (run_calls pool_step _ ops) as [p answers]. destruct H as (Hok & Hu & Hrun).
  assert (abs (new_pool lo hi reserved) = MkQueue [] (allowed_uids lo hi reserved)) as Habs.
  { unfold abs, avail, new_pool. simpl. by rewrite app_nil_r, allowed_uids_inside. }
  assert (pool_uids p = allowed_uids lo hi reserved) as Huids.
  { rewrite Hu. unfold pool_uids, new_pool. simpl. by rewrite allowed_uids_inside. }
  rewrite Habs in Hrun. split; [done|]. pose proof (po_parts p Hok) as Hparts. rewrite Huids in Hparts.
  split; [exact Hparts|]. intros lstat key Hnone u Hin.
  pose proof (pool_step_abs p (PoolResolve lstat key) Hok) as Hs.
  destruct (pool_step p (PoolResolve lstat key)) as [p' a]. simpl in Hnone. subst a.
  destruct Hs as (_ & _ & Hs). cbn [q_step] in Hs. unfold q_resolve in Hs. cbn [abs q_leases] in Hs.
  destruct (dict_get (p_leases p) key); [done|].
  set (gone := _lease_workspace_gone lstat) in *.
  set (q := match q_free (abs p) with [] => _ | _ => _ end) in Hs.
  destruct (q_free q) as [|v rest] eqn:Eq; [|done]. unfold q in Eq.
  destruct (q_free (abs p)) as [|v rest] eqn:Ea; [|by rewrite Eq in Ea].
  apply q_releases_empty in Eq as [_ Hgone]. cbn [abs q_leases q_free] in Hgone, Ea.
  rewrite Ea, app_nil_r in Hparts. rewrite <- Hparts in Hin.
  apply list_elem_of_fmap in Hin as ([k u'] & -> & Hk). simpl.
  pose proof (dict_elem_get _ _ _ (po_leases p Hok) Hk) as Hget. exists k. split; [done|].
  apply not_true_iff_false. intros Hg. rewrite Hgone in Hget; [done|].
  apply list_elem_of_filter. split; [done|]. apply list_elem_of_fmap. by exists (k, u').
Qed.

(** ** Named users and anonymous runs together *)

Inductive Op :=
| Resolve (key : string) (persist written : bool) (lstat : string -> LStat)
| Release (key : string)
| Restart (env' : Environ).

(** A step and the uid it granted to a named user. *)
Definition op_step (p : Proc) (op : Op) : Proc * list (string * Z) :=
  match op with
  | Resolve key persist written lstat =>
      let '(p, res) := resolve_uid key persist written lstat p in
      (p, match res with Ok u => if persist then [(key, u)] else [] | Err _ => [] end)
  | Release key => (release_ephemeral key p, [])
  | Restart env' => (restart env' p, [])
  end.

Fixpoint run_ops (p : Proc) (ops : list Op) : Proc * list (string * Z) :=
  match ops with
  | [] => (p, [])
  | op :: rest =>
      let '(p1, g1) := op_step p op in
      let '(p2, g2) := run_ops p1 rest in (p2, g1 ++ g2)
  end.

(** The registry in memory agrees with its file and the settings. *)
Definition registry_inv (p : Proc) : Prop :=
  forall r, _registry p = Some r ->
    reg_ok r /\ (forall k, mem_value r k = file_get (disk p) k) /\
    (_lo r, _hi r) = _stable_band (env p) /\ _reserved r = reserved_uids (env p).

(** The pool keeps clear of everything the registry claims. *)
Definition pool_inv (p : Proc) : Prop :=
  forall pool, _ephemeral_pool p = Some pool ->
    pool_ok pool /\ (p_lo pool, p_hi pool) = _ephemeral_band (env p) /\
    exists r, _registry p = Some r /\
      forall u, u ∈ reserved_uids (env p) ∪ _used r -> in_band pool u = false.

(** What was granted is in the file, and no uid was granted twice. *)
Definition grants_inv (p : Proc) (g : list (string * Z)) : Prop :=
  (forall k u, (k, u) ∈ g -> file_get (disk p) k = Some (JInt u)) /\
  (forall k k' u, (k, u) ∈ g -> (k', u) ∈ g -> k = k').

Record inv (p : Proc) (g : list (string * Z)) : Prop := {
  i_file : file_wf (disk p);
  i_registry : registry_inv p;
  i_pool : pool_inv p;
  i_grants : grants_inv p g;
}.

Lemma get_registry_inv p g :
  inv p g ->
  let '(p', res) := get_registry p in
  inv p' g /\ env p' = env p /\ disk p' = disk p /\ _ephemeral_pool p' = _ephemeral_pool p /\
  match res with Ok r => _registry p' = Some r | Err _ => p' = p end.
Proof.
  intros Hi. unfold get_registry. destruct (_registry p) as [r|] eqn:Er; [done|].
  destruct (_stable_band (env p)) as [lo hi] eqn:Eb.
  destruct (new_registry (disk p) lo hi (reserved_uids (env p))) as [r|e] eqn:En; [|done].
  destruct Hi as [H1 H2 H3 H4].
  apply new_registry_ok in En as (Hok & Hmem & Hlo & Hhi & Hres); [|done].
  split_and!; try done. split; try done.
  - intros r' [= <-]. simpl. rewrite Hlo, Hhi. done.
  - intros pool Hp. simpl in Hp. destruct (H3 pool Hp) as (_ & _ & r' & Hr' & _). congruence.
Qed.

Lemma in_band_outside pool u :
  in_range (p_lo pool) (p_hi pool) u = false -> in_band pool u = false.
Proof. intros H. unfold in_band. by rewrite H. Qed.

Lemma get_ephemeral_pool_inv p g :
  inv p g ->
  let '(p', res) := get_ephemeral_pool p in
  inv p' g /\ env p' = env p /\ disk p' = disk p /\
  match res with Ok pool => _ephemeral_pool p' = Some pool | Err _ => True end.
Proof.
  intros Hi. unfold get_ephemeral_pool. destruct (_ephemeral_pool p) as [pool|] eqn:Ep; [done|].
  pose proof (get_registry_inv p g Hi) as Hr. destruct (get_registry p) as [p1 [r|e]].
  2:{ destruct Hr as (H1 & H2 & H3 & _). done. }
  destruct Hr as (Hi1 & He & Hd & _ & Hr). destruct (_ephemeral_band (env p1)) as [lo hi] eqn:Eb.
  split_and!; try done. destruct Hi1 as [H1 H2 H3 H4]. split; try done.
  intros pool [= <-]. split_and!; [apply new_pool_ok|done|].
  exists r. split; [done|]. intros u Hu. unfold in_band, new_pool. simpl.
  destruct (in_range lo hi u) eqn:Ein; [|done]. simpl. apply negb_false_iff, bool_decide_eq_true.
  by apply elem_of_filter.
Qed.

Lemma bands_apart env u :
  let '(slo, shi) := _stable_band env in
  let '(elo, ehi) := _ephemeral_band env in
  in_range slo shi u = true -> in_range elo ehi u = false.
Proof.
  unfold _stable_band, _ephemeral_band. destruct (uid_range env) as [lo hi].
  rewrite in_range_iff. intros H. apply not_true_iff_false. rewrite in_range_iff. lia.
Qed.

Lemma named_step_inv key written lstat p g :
  inv p g ->
  let '(p', res) := resolve_uid key true written lstat p in
  inv p' (g ++ match res with Ok u => [(key, u)] | Err _ => [] end).
Proof.
  intros Hi. unfold resolve_uid.
  pose proof (get_registry_inv p g Hi) as Hr. destruct (get_registry p) as [p1 [r|e]].
  2:{ rewrite app_nil_r. by destruct Hr. }
  destruct Hr as ([H1 H2 H3 [H4 H5]] & _ & _ & _ & Hr).
  destruct (H2 r Hr) as (Hok & Hmem & Hband & Hres).
  destruct (resolve key written (disk p1) r) as [[r' f'] res] eqn:Ere.
  pose proof (resolve_spec key written (disk p1) r r' f' res Hok Hmem H1 Ere)
    as (Hok' & Hmem' & Hwf' & Hlo & Hhi & Hre & Hmono & Hused & Hcase).
  assert (forall k u, (k, u) ∈ g -> file_get f' k = Some (JInt u)) as Hg.
  { intros k u Hin. rewrite <- Hmem'. apply Hmono. rewrite Hmem. by apply H4. }
  split; simpl; [done| | |].
  - intros r1 [= <-]. simpl. rewrite Hlo, Hhi, Hre. done.
  - intros pool Hp. destruct (H3 pool Hp) as (Hpo & Hpb & r1 & Hr1 & Hclear). simpl.
    split_and!; [done|done|]. exists r'. split; [done|]. rewrite Hr in Hr1. injection Hr1 as <-.
    intros u [Hu|Hu]%elem_of_union; [apply Hclear; set_solver|].
    destruct (Hused u Hu) as [Hu'|Hu']; [apply Hclear; set_solver|].
    apply in_band_outside. pose proof (bands_apart (env p1) u) as Ha.
    rewrite <- Hband, <- Hpb in Ha. by apply Ha.
  - split; simpl.
    + intros k u [Hin|Hin]%elem_of_app; [by apply Hg|]. destruct res as [u0|]; [|by apply elem_of_nil in Hin].
      apply list_elem_of_singleton in Hin as [= -> ->]. rewrite <- Hmem'. unfold mem_value.
      by rewrite Hcase.
    + destruct res as [u0|]; [|rewrite app_nil_r; exact H5].
      assert (forall k, (k, u0) ∈ g -> k = key) as Huniq.
      { intros k Hin. eapply mem_unique; [exact Hok'|exact Hcase|]. rewrite Hmem'. by apply Hg. }
      intros k k' u. rewrite !elem_of_app, !list_elem_of_singleton.
      intros [Hin|[= -> ->]] [Hin'|Heq'].
      * by eapply H5.
      * injection Heq' as -> ->. by apply Huniq.
      * symmetry. by apply Huniq.
      * by injection Heq' as ->.
Qed.

Lemma with_pool_inv p g pool pool' :
  inv p g -> _ephemeral_pool p = Some pool -> pool_ok pool' ->
  p_lo pool' = p_lo pool -> p_hi pool' = p_hi pool -> p_reserved pool' = p_reserved pool ->
  inv (MkProc (env p) (_registry p) (Some pool') (disk p)) g.
Proof.
  intros [H1 H2 H3 H4] Hp Hok E1 E2 E3. split; try done. intros pool1 [= <-]. simpl.
  destruct (H3 pool Hp) as (_ & Hb & r & Hr & Hc). rewrite E1, E2. split_and!; [done|done|].
  exists r. split; [done|]. intros u Hu. specialize (Hc u Hu). unfold in_band in *.
  by rewrite E1, E2, E3.
Qed.

Lemma op_step_inv p op g :
  inv p g -> let '(p', g') := op_step p op in inv p' (g ++ g').
Proof.
  intros Hi. destruct op as [key persist written lstat|key|env']; simpl.
  - destruct persist.
    + pose proof (named_step_inv key written lstat p g Hi) as H.
      by destruct (resolve_uid key true written lstat p) as [p' [u|e]].
    + unfold resolve_uid. pose proof (get_ephemeral_pool_inv p g Hi) as Hp.
      destruct (get_ephemeral_pool p) as [p1 [pool|e]]; [|rewrite app_nil_r; by destruct Hp].
      destruct Hp as (Hi1 & _ & _ & Hp).
      destruct (i_pool _ _ Hi1 pool Hp) as (Hok & _).
      pose proof (pool_resolve_spec lstat key pool Hok) as Hs.
      destruct (pool_resolve lstat key pool) as [pool' res].
      destruct Hs as (Hok' & E1 & E2 & E3 & _).
      assert (inv (MkProc (env p1) (_registry p1) (Some pool') (disk p1)) g)
        by by eapply with_pool_inv.
      destruct res; by rewrite app_nil_r.
  - rewrite app_nil_r. unfold release_ephemeral.
    destruct (_ephemeral_pool p) as [pool|] eqn:Ep; [|done].
    destruct (end_lease_fields pool key) as (E1 & E2 & E3).
    eapply with_pool_inv; try done. apply end_lease_ok. by apply (i_pool _ _ Hi).
  - rewrite app_nil_r. destruct Hi as [H1 H2 H3 H4]. split; done.
Qed.

Lemma run_ops_inv ops : forall p g,
  inv p g -> inv (fst (run_ops p ops)) (g ++ snd (run_ops p ops)).
Proof.
  induction ops as [|op ops IH]; intros p g Hi; simpl; [by rewrite app_nil_r|].
  pose proof (op_step_inv p op g Hi) as H1. destruct (op_step p op) as [p1 g1].
  specialize (IH p1 (g ++ g1) H1). destruct (run_ops p1 ops) as [p2 g2]. simpl in *.
  by rewrite <- app_assoc in IH.
Qed.

(** A process at its start. *)
Definition started (p : Proc) : Prop :=
  _registry p = None /\ _ephemeral_pool p = None /\ file_wf (disk p).

Lemma started_inv p : started p -> inv p [].
Proof.
  intros (Hr & Hp & Hf). split; [done| | |].
  - intros r. by rewrite Hr.
  - intros pool. by rewrite Hp.
  - split; [by intros k u ?%elem_of_nil|by intros k k' u ?%elem_of_nil].
Qed.

(** C32. Over every sequence of spawns, releases and restarts, with any settings after each
    restart, any failure to write the file and any file to start from, a named user
    keeps one uid and no two named users are ever given the same: two grants are to
    the same key exactly when they are of the same uid. *)
Theorem named_uid_stable p ops k u k' u' :
  started p -> (k, u) ∈ snd (run_ops p ops) -> (k', u') ∈ snd (run_ops p ops) ->
  k = k' <-> u = u'.
Proof.
  intros Hs H1 H2. pose proof (run_ops_inv ops p [] (started_inv p Hs)) as [_ _ _ [Hf Hu]].
  simpl in *. split.
  - intros ->. apply Hf in H1, H2. congruence.
  - intros ->. by eapply Hu.
Qed.

(** C33. Live runs are apart: over every sequence of spawns, releases and restarts, no two
    keys lease one uid at a time, and a leased uid is in the ephemeral band, reserved
    for nobody, and not a uid the registry accounts for, honored or held. *)
Theorem live_runs_isolated p ops pool r :
  started p ->
  let p' := fst (run_ops p ops) in
  _ephemeral_pool p' = Some pool -> _registry p' = Some r ->
  (forall k k' u, lease_of pool k = Some u -> lease_of pool k' = Some u -> k = k') /\
  (forall k u, lease_of pool k = Some u ->
     in_ephemeral_band (env p') u = true /\ u ∉ claimed_uids r).
Proof.
  intros Hs p' Hp Hr. pose proof (run_ops_inv ops p [] (started_inv p Hs)) as [_ _ Hpi _].
  fold p' in Hpi. destruct (Hpi pool Hp) as (Hok & Hband & r' & Hr' & Hclear).
  rewrite Hr in Hr'. injection Hr' as <-.
  assert (NoDup (dict_values (p_leases pool))) as Hnd.
  { pose proof (allowed_uids_NoDup (p_lo pool) (p_hi pool) (p_reserved pool)) as Hn.
    fold (pool_uids pool) in Hn. rewrite <- (po_parts pool Hok) in Hn. by apply NoDup_app in Hn as [? _]. }
  assert (forall k u, lease_of pool k = Some u -> in_band pool u = true) as Hin.
  { intros k u Hk. apply dict_get_elem in Hk.
    assert (u ∈ pool_uids pool) as Hu.
    { rewrite <- (po_parts pool Hok). apply elem_of_app. left. apply list_elem_of_fmap. by exists (k, u). }
    apply allowed_uids_elem in Hu as [Hr1 Hr2]. unfold in_band. by rewrite Hr1, bool_decide_eq_false_2. }
  split.
  - intros k k' u Hk Hk'. apply dict_get_elem in Hk, Hk'.
    apply list_elem_of_lookup in Hk as [i Hi], Hk' as [j Hj].
    assert (i = j) as ->; [|congruence].
    eapply NoDup_lookup; [exact Hnd|..]; unfold dict_values; rewrite list_lookup_fmap; [by rewrite Hi|by rewrite Hj].
  - intros k u Hk. specialize (Hin k u Hk).
    assert (forall x, x ∈ reserved_uids (env p') ∪ _used r -> u <> x) as Hne.
    { intros x Hx ->. rewrite (Hclear x Hx) in Hin. done. }
    split; [|intros Hu; by apply (Hne u); [set_solver|]].
    unfold in_ephemeral_band. rewrite <- Hband. unfold in_band in Hin. b2p.
    rewrite bool_decide_eq_false_2 by (intros Hu; by apply (Hne u); [set_solver|]).
    rewrite H, andb_true_r. simpl. rewrite andb_true_r. apply Z.ltb_lt. apply in_range_iff in H.
    unfold _ephemeral_band in Hband. destruct (uid_range (env p')). simplify_eq. lia.
Qed.

(** ** Tickets *)

Lemma before_dot_append a b :
  has_char dot a = false -> before_char dot (String.append a (String dot b)) = a.
Proof.
  induction a as [|c a IH]; [done|]. cbn [has_char]. intros [Hc Ha]%orb_false_iff.
  rewrite append_cons. cbn [before_char]. rewrite Ascii.eqb_sym, Hc. by rewrite IH.
Qed.

Lemma from_dot_append a b :
  has_char dot a = false -> from_char dot (String.append a (String dot b)) = String dot b.
Proof.
  induction a as [|c a IH]; [done|]. cbn [has_char]. intros [Hc Ha]%orb_false_iff.
  rewrite append_cons. cbn [from_char]. rewrite Ascii.eqb_sym, Hc. by apply IH.
Qed.

Lemma is_ascii_append a b : is_ascii (String.append a b) = is_ascii a && is_ascii b.
Proof.
  unfold is_ascii. induction a as [|c a IH]; [done|]. rewrite append_cons. cbn [all_chars].
  by rewrite IH, andb_assoc.
Qed.

Section ticket_laws.
Context (hmac_hex : string -> string -> string) (dumps : Json -> string)
  (loads : string -> option Json).
(** A hex digest is ASCII, not empty and has no dot. *)
Hypothesis Hhex : forall s b,
  is_ascii (hmac_hex s b) = true /\ hmac_hex s b <> "" /\ has_char dot (hmac_hex s b) = false.
(** A value without floats and objects. *)
Fixpoint plain (v : Json) : bool :=
  match v with
  | JFloat _ _ | JObj _ => false
  | JArr l => forallb plain l
  | _ => true
  end.

(** What [json.dumps] and [json.loads] do to an object: ASCII text, read back as an object
    (its keys sorted) with the same plain fields. *)
Definition codec_ok (d d' : odict string Json) : Prop :=
  is_ascii (dumps (JObj d)) = true /\ dumps (JObj d) <> "" /\
  loads (dumps (JObj d)) = Some (JObj d') /\
  forall key v, dict_get d key = Some v -> plain v = true -> dict_get d' key = Some v.

(** The fields a ticket carries. *)
Definition signed (payload : odict string Json) (ttl : Z) (nonce : string) (now : Z)
    : odict string Json :=
  dict_set (dict_set payload "nonce" (JStr nonce)) "exp" (JInt (now + Z.max 1 ttl)).

Lemma signed_get payload ttl nonce now key :
  key <> "nonce" -> key <> "exp" -> dict_get (signed payload ttl nonce now) key = dict_get payload key.
Proof. intros H1 H2. unfold signed. by rewrite !dict_get_set_ne. Qed.

(** What the verification of a signed payload comes down to. *)
Lemma verify_signed secret payload ttl nonce now d' seen now' :
  nonce <> "" -> codec_ok (signed payload ttl nonce now) d' ->
  verify_ticket hmac_hex loads (Some secret) (_sign hmac_hex dumps secret payload ttl nonce now) seen now'
  = if now + Z.max 1 ttl <? now' then Err Expired
    else match seen with
         | None => Ok (JObj d', None)
         | Some l => if bool_decide (nonce ∈ l) then Err AlreadyUsed
                     else Ok (JObj d', Some (nonce :: l))
         end.
Proof.
  intros Hn (Hja & Hjne & Hl & Hget). unfold _sign. fold (signed payload ttl nonce now).
  set (body := dumps (JObj (signed payload ttl nonce now))) in *.
  destruct (Hhex secret body) as (Ha & Hne & Hd). unfold verify_ticket, partition_dot.
  rewrite is_ascii_append, Ha. cbn [andb].
  replace (is_ascii (String dot body)) with true by (by rewrite <- Hja).
  cbn [negb]. rewrite before_dot_append, from_dot_append by done.
  rewrite !bool_decide_eq_false_2 by done. cbn [orb]. rewrite bool_decide_eq_true_2 by done.
  cbn [negb]. rewrite Hl. cbn [is_dict negb]. unfold jget_null, jget.
  rewrite (Hget "exp" (JInt (now + Z.max 1 ttl))); [|by apply dict_get_set_eq|done].
  rewrite (Hget "nonce" (JStr nonce)); [|unfold signed; by rewrite dict_get_set_ne, dict_get_set_eq|done].
  cbn [from_option]. unfold id. by rewrite bool_decide_eq_false_2 by done.
Qed.

Lemma plain_strs l : plain (JArr (map JStr l)) = true.
Proof. simpl. induction l; done. Qed.

(** The payload of a spawn ticket. *)
Definition spawn_payload (uid : Z) (workspace : string) (ro rw env_allow : list string)
    : odict string Json :=
  [("op", JStr OP_SPAWN); ("uid", JInt uid); ("workspace", JStr workspace);
   ("ro", JArr (map JStr ro)); ("rw", JArr (map JStr rw)); ("env_allow", JArr (map JStr env_allow))].

(** A minted spawn ticket carries what it was minted for, once and for a while: the
    verifier gets the operation, the uid, the workspace and the path lists back; a
    second presentation is refused whatever was seen in between; one past its expiry is
    refused. *)
Theorem ticket_single_use secret uid workspace ro rw env_allow ttl nonce now ticket seen d' :
  nonce <> "" -> nonce ∉ seen ->
  codec_ok (signed (spawn_payload uid workspace ro rw env_allow) ttl nonce now) d' ->
  mint_ticket hmac_hex dumps (Some secret) uid workspace ro rw env_allow ttl nonce now = Ok ticket ->
  (forall now', now' <= now + Z.max 1 ttl ->
     verify_ticket hmac_hex loads (Some secret) ticket (Some seen) now'
       = Ok (JObj d', Some (nonce :: seen)))
  /\ (forall now', now + Z.max 1 ttl < now' ->
     verify_ticket hmac_hex loads (Some secret) ticket (Some seen) now' = Err Expired)
  /\ (forall now' later, nonce ∈ later -> exists e,
     verify_ticket hmac_hex loads (Some secret) ticket (Some later) now' = Err e)
  /\ dict_get d' "op" = Some (JStr OP_SPAWN) /\ dict_get d' "uid" = Some (JInt uid)
  /\ dict_get d' "workspace" = Some (JStr workspace)
  /\ dict_get d' "ro" = Some (JArr (map JStr ro)) /\ dict_get d' "rw" = Some (JArr (map JStr rw))
  /\ dict_get d' "env_allow" = Some (JArr (map JStr env_allow)).
Proof.
  intros Hn Hseen Hcodec [= <-]. fold (spawn_payload uid workspace ro rw env_allow).
  pose proof Hcodec as (_ & _ & _ & Hget).
  split_and!; try (apply Hget; [by rewrite signed_get|by rewrite ?plain_strs]).
  - intros now' Hle. erewrite verify_signed by done.
    replace (now + Z.max 1 ttl <? now') with false by (symmetry; by apply Z.ltb_ge).
    by rewrite bool_decide_eq_false_2.
  - intros now' Hlt. erewrite verify_signed by done.
    by replace (now + Z.max 1 ttl <? now') with true by (symmetry; by apply Z.ltb_lt).
  - intros now' later Hin. erewrite verify_signed by done. destruct (_ <? _); [eauto|].
    rewrite bool_decide_eq_true_2 by done. eauto.
Qed.
End ticket_laws.

(** ** The bands *)

Lemma allocatable_spec lo hi reserved :
  0 < _allocatable lo hi reserved <-> exists u, in_range lo hi u = true /\ u ∉ reserved.
Proof.
  assert (_allocatable lo hi reserved = Z.of_nat (length (allowed_uids lo hi reserved))) as ->.
  { rewrite allowed_uids_length. unfold _allocatable. destruct (hi <? lo) eqn:E; [|b2p; lia].
    b2p. assert (filter (fun u => in_range lo hi u = true) reserved = ∅) as ->.
    { apply set_eq. intros u. rewrite elem_of_filter, in_range_iff. set_solver by lia. }
    rewrite size_empty. lia. }
  setoid_rewrite <- allowed_uids_elem. destruct (allowed_uids lo hi reserved) as [|u l].
  - split; [done|]. by intros [u ?%elem_of_nil].
  - split; [|simpl; lia]. intros _. exists u. apply elem_of_cons. by left.
Qed.

Lemma ephemeral_count_bounds env :
  let '(lo, hi) := uid_range env in
  0 <= _ephemeral_count env <= Z.max 0 (hi - lo) /\ _ephemeral_count env <= _MAX_EPHEMERAL.
Proof.
  unfold _ephemeral_count. destruct (uid_range env) as [lo hi]. cbv zeta.
  destruct (hi - lo + 1 <=? 1) eqn:E; b2p; change _MAX_EPHEMERAL with 65536; lia.
Qed.

(** Startup accepts the band settings exactly when every uid of the band is a valid
    id of a non-root user and each of the two slices has a uid that is not reserved;
    and whatever the settings, the slices split the band between them. *)
Theorem validate_bands_spec env :
  let '(lo, hi) := uid_range env in
  let '(slo, shi) := _stable_band env in
  let '(elo, ehi) := _ephemeral_band env in
  (validate_bands env = [] <->
     1 <= lo /\ hi <= _MAX_ID
     /\ (exists u, in_range slo shi u = true /\ u ∉ reserved_uids env)
     /\ (exists u, in_range elo ehi u = true /\ u ∉ reserved_uids env))
  /\ (forall u, in_range lo hi u = xorb (in_range slo shi u) (in_range elo ehi u)
        /\ (in_range slo shi u && in_range elo ehi u)%bool = false)
  /\ (lo <= hi -> slo <= shi).
Proof.
  pose proof (ephemeral_count_bounds env) as Hc.
  unfold validate_bands, _stable_band, _ephemeral_band.
  destruct (uid_range env) as [lo hi]. destruct Hc as [Hc _].
  split_and!; [| |lia].
  - rewrite <- !allocatable_spec. destruct (hi <? lo) eqn:E; b2p.
    { split; [done|]. unfold _allocatable. intros (_ & _ & Hs & _).
      destruct (hi - _ephemeral_count env <? lo) eqn:E2; b2p; [|lia]. done. }
    rewrite !app_nil.
    assert (forall (b : bool) (e : BandError), (if b then [e] else []) = [] <-> b = false) as Hif
      by (intros [] e; done).
    rewrite !Hif, orb_false_iff, !Z.leb_gt, Z.ltb_ge.
    assert (0 < _allocatable (hi - _ephemeral_count env + 1) hi (reserved_uids env) ->
            0 < _ephemeral_count env) as He.
    { intros (u & Hu & _)%allocatable_spec. apply in_range_iff in Hu. lia. }
    intuition lia.
  - intros u. set (e := _ephemeral_count env) in *.
    destruct (in_range lo hi u) eqn:E1, (in_range lo (hi - e) u) eqn:E2, (in_range (hi - e + 1) hi u) eqn:E3;
      rewrite ?in_range_iff, <- ?not_true_iff_false, ?in_range_iff in *; try done; lia.
Qed.

(** ** Runs *)

Definition env_default : Environ := fun _ => None.
(** The band moved up and narrowed. *)
Definition env_moved : Environ := fun name =>
  if bool_decide (name = UID_MIN_ENV) then Some "20001"
  else if bool_decide (name = UID_MAX_ENV) then Some " 20008 " else None.

Definition first_start : Proc := MkProc env_default None None Missing.
Definition all_exist : string -> LStat := fun _ => Exists.

(** Two users, a failed write between them; then the settings move alice's uid out of the
    band, and back. *)
Definition history : list Op :=
  [Resolve "alice" true true all_exist; Resolve "bob" true false all_exist;
   Resolve "bob" true true all_exist; Resolve "/work/1" false false all_exist;
   Restart env_moved; Resolve "alice" true true all_exist; Resolve "carol" true true all_exist;
   Resolve "/work/2" false false all_exist; Resolve "/work/3" false false all_exist;
   Release "/work/2"].

Example history_grants :
  snd (run_ops first_start history) = [("alice", 20000); ("bob", 20001); ("carol", 20002)].
Proof. vm_compute. reflexivity. Qed.

Lemma first_start_started : started first_start.
Proof. by split_and!. Qed.

Lemma named_uid_stable_witness :
  ("alice", 20000) ∈ snd (run_ops first_start history) /\
  ("carol", 20002) ∈ snd (run_ops first_start history) /\ ("alice" = "carol" <-> 20000 = 20002).
Proof.
  assert (("alice", 20000) ∈ snd (run_ops first_start history)) as H1
    by (rewrite history_grants; apply list_elem_of_In; simpl; tauto).
  assert (("carol", 20002) ∈ snd (run_ops first_start history)) as H2
    by (rewrite history_grants; apply list_elem_of_In; simpl; tauto).
  split; [exact H1|]. split; [exact H2|].
  exact (named_uid_stable first_start history _ _ _ _ first_start_started H1 H2).
Defined.

Lemma live_runs_isolated_witness :
  exists pool r, _ephemeral_pool (fst (run_ops first_start history)) = Some pool /\
    _registry (fst (run_ops first_start history)) = Some r /\
    lease_of pool "/work/3" = Some 20008 /\
    in_ephemeral_band (env (fst (run_ops first_start history))) 20008 = true.
Proof.
  destruct (_ephemeral_pool (fst (run_ops first_start history))) as [pool|] eqn:Ep;
    [|by vm_compute in Ep].
  destruct (_registry (fst (run_ops first_start history))) as [r|] eqn:Er; [|by vm_compute in Er].
  assert (lease_of pool "/work/3" = Some 20008) as Hl.
  { revert Ep. vm_compute. intros [= <-]. reflexivity. }
  exists pool, r. split; [done|]. split; [done|]. split; [done|].
  exact (proj1 (proj2 (live_runs_isolated first_start history pool r first_start_started Ep Er)
                  "/work/3" 20008 Hl)).
Defined.

(** Two uids, three runs: the third is refused until one is released. *)
Definition pool_calls : list PoolOp :=
  [PoolResolve all_exist "/a"; PoolResolve all_exist "/b"; PoolResolve all_exist "/c";
   PoolRelease "/a"; PoolResolve all_exist "/c"; PoolResolve (fun _ => NotFound) "/d"].

Example pool_answers :
  snd (run_calls pool_step (new_pool 10 12 {[11]}) pool_calls) =
    [Some 10; Some 12; None; Some 10; Some 10; Some 12].
Proof. vm_compute. reflexivity. Qed.

Lemma pool_refines_queue_witness :
  snd (run_calls q_step (MkQueue [] (allowed_uids 10 12 {[11]})) pool_calls) =
    [Some 10; Some 12; None; Some 10; Some 10; Some 12].
Proof.
  pose proof (pool_refines_queue 10 12 {[11]} pool_calls) as H.
  pose proof pool_answers as Ha.
  destruct (run_calls pool_step (new_pool 10 12 {[11]}) pool_calls) as [p answers].
  destruct H as (Hq & _). rewrite Hq. exact Ha.
Defined.

Lemma validate_bands_spec_witness :
  validate_bands env_default = [] /\ 1 <= 20000.
Proof.
  pose proof (validate_bands_spec env_default) as H.
  change (uid_range env_default) with (20000, 29999) in H.
  destruct (_stable_band env_default), (_ephemeral_band env_default).
  assert (validate_bands env_default = []) as Hv by (vm_compute; reflexivity).
  split; [exact Hv|]. by apply H in Hv.
Defined.

(** A toy codec: one text, one digest. *)
Definition toy_hmac (_ _ : string) : string := "c0ffee".
Definition toy_payload : odict string Json :=
  signed (spawn_payload 20000 "/work/alice" ["/usr"] ["/work/alice"] ["PATH"]) 120 "n1" 1000.
Definition toy_dumps (_ : Json) : string := "{}".
Definition toy_loads (_ : string) : option Json := Some (JObj toy_payload).

Lemma ticket_single_use_witness :
  exists ticket, mint_ticket toy_hmac toy_dumps (Some "s") 20000 "/work/alice" ["/usr"]
      ["/work/alice"] ["PATH"] 120 "n1" 1000 = Ok ticket /\
    verify_ticket toy_hmac toy_loads (Some "s") ticket (Some []) 1100
      = Ok (JObj toy_payload, Some ["n1"]) /\
    verify_ticket toy_hmac toy_loads (Some "s") ticket (Some []) 1121 = Err Expired.
Proof.
  eexists. split; [reflexivity|].
  assert (forall s b : string, is_ascii (toy_hmac s b) = true /\ toy_hmac s b <> "" /\
    has_char dot (toy_hmac s b) = false) as Hhex by (by intros; split_and!).
  assert (codec_ok toy_dumps toy_loads toy_payload toy_payload) as Hc.
  { split; [reflexivity|]. split; [done|]. split; [reflexivity|]. by intros. }
  destruct (ticket_single_use toy_hmac toy_dumps toy_loads Hhex "s" 20000 "/work/alice" ["/usr"]
    ["/work/alice"] ["PATH"] 120 "n1" 1000 _ [] toy_payload ltac:(done) ltac:(by apply not_elem_of_nil)
    Hc eq_refl) as (H1 & H2 & _).
  split; [apply H1|apply H2]; lia.
Defined.
