(* ===== verification/Quota.v ===== *)
(** Workspace storage quota (src/src/workspace_quota.py).

    A directory tree is given as what the system calls answer on it: a [Tree] is one
    directory entry with its [lstat], the listing [os.scandir] gives (entries, or an error
    where reading it fails) and the owner a later [lstat] reports.  Errors are [errno]s.
    [_iter_regular_files] is the code's stack walk; [measure] is the tree's content by
    recursion, which it is proved to agree with. *)

From S2P Require Import Prelude.

Definition _MIB : Z := 1024 * 1024.
Definition _SESSION_TMP : string := ".cli-tmp".

Inductive QuotaError :=
| ConfigError
| AccountingError
| Exceeded (used limit added reclaimed projected : Z).

(** [workspace_quota_limit_bytes()]; the argument is the environment variable. *)
Definition workspace_quota_limit_bytes (raw : option string) : result QuotaError Z :=
  let raw := strip (default "" raw) in
  if bool_decide (raw = "") then Ok 0
  else
    match py_int raw with
    | None => Err ConfigError
    | Some value => if value <? 0 then Err ConfigError else Ok (value * _MIB)
    end.

(** [WorkspaceQuotaSnapshot] and its properties *)
Record WorkspaceQuotaSnapshot := MkSnapshot { used_bytes : Z; limit_bytes : Z }.

Definition enabled (s : WorkspaceQuotaSnapshot) : bool := 0 <? limit_bytes s.
Definition remaining_bytes (s : WorkspaceQuotaSnapshot) : option Z :=
  if enabled s then Some (Z.max 0 (limit_bytes s - used_bytes s)) else None.
Definition over_quota (s : WorkspaceQuotaSnapshot) : bool :=
  enabled s && (limit_bytes s <? used_bytes s).

(** [WorkspaceQuotaExceeded(...)]: every field is clamped. *)
Definition quota_exceeded (used limit added reclaimed : Z) : QuotaError :=
  let used := Z.max 0 used in
  let added := Z.max 0 added in
  let reclaimed := Z.max 0 reclaimed in
  Exceeded used (Z.max 0 limit) added reclaimed (Z.max 0 (used - reclaimed + added)).

(** ** The file system *)

Record FStat := MkFStat { st_mode : Z; st_dev : Z; st_ino : Z; st_size : Z }.

Definition S_IFMT (mode : Z) : Z := Z.land mode 61440.
Definition S_ISLNK (st : FStat) : bool := S_IFMT (st_mode st) =? 40960.
Definition S_ISDIR (st : FStat) : bool := S_IFMT (st_mode st) =? 16384.
Definition S_ISREG (st : FStat) : bool := S_IFMT (st_mode st) =? 32768.

Inductive Tree : Type := MkTree {
  t_name : string;
  t_stat : result Z FStat;
  t_owner : result Z Z;
  t_scandir : result Z (list (result Z Tree));
}.

(** [except (FileNotFoundError, NotADirectoryError)] and [except PermissionError] *)
Definition gone (errno : Z) : bool := (errno =? 2) || (errno =? 20).
Definition not_permitted (errno : Z) : bool := (errno =? 13) || (errno =? 1).

Section walk.
(** [os.geteuid()] *)
Context (euid : Z).

(** [_private_session_tmp_dir(directory)]; [above] are the parts before its name. *)
Definition _private_session_tmp_dir (above : list string) (t : Tree) : bool :=
  if negb (bool_decide (_SESSION_TMP ∈ above)) then false
  else match t_owner t with Ok uid => negb (uid =? euid) | Err _ => false end.

(** How the scan of one directory ended: at its end, with the accounting error of an
    entry, or with an [OSError]. *)
Inductive Ended := Finished | EntryFailed | ScanFailed (errno : Z).

(** The [for entry in entries]: the files yielded and the directories pushed. *)
Fixpoint scan_entries (es : list (result Z Tree)) : list FStat * list Tree * Ended :=
  match es with
  | [] => ([], [], Finished)
  | Err errno :: _ => ([], [], ScanFailed errno)
  | Ok t :: es =>
      match t_stat t with
      | Err errno => if gone errno then scan_entries es else ([], [], EntryFailed)
      | Ok st =>
          let '(files, dirs, ended) := scan_entries es in
          if S_ISLNK st then (files, dirs, ended)
          else if S_ISDIR st then (files, t :: dirs, ended)
          else if S_ISREG st then (st :: files, dirs, ended)
          else (files, dirs, ended)
      end
  end.

(** One turn of [while stack]: the directory popped, the files yielded and the
    directories pushed, or the error raised. *)
Definition scan_directory (above : list string) (t : Tree)
    : result QuotaError (list FStat * list Tree) :=
  let '(files, dirs, ended) :=
    match t_scandir t with
    | Err errno => ([], [], ScanFailed errno)
    | Ok es => scan_entries es
    end in
  match ended with
  | Finished => Ok (files, dirs)
  | EntryFailed => Err AccountingError
  | ScanFailed errno =>
      if gone errno then Ok (files, dirs)
      else if not_permitted errno && _private_session_tmp_dir above t then Ok (files, dirs)
      else Err AccountingError
  end.

(** The parts of the path of an entry of [t]. *)
Definition parts_below (above : list string) (t : Tree) : list string := above ++ [t_name t].

(** [_iter_regular_files(root)]: the stack's top is its head; [None] when the fuel is
    out.  An error loses what was yielded, as the sums that consume it do. *)
Fixpoint _iter_regular_files (fuel : nat) (stack : list (list string * Tree))
    : option (result QuotaError (list FStat)) :=
  match fuel with
  | O => None
  | S fuel =>
      match stack with
      | [] => Some (Ok [])
      | (above, t) :: rest =>
          match scan_directory above t with
          | Err e => Some (Err e)
          | Ok (files, dirs) =>
              match _iter_regular_files fuel
                      (rev (map (fun d => (parts_below above t, d)) dirs) ++ rest) with
              | None => None
              | Some (Err e) => Some (Err e)
              | Some (Ok more) => Some (Ok (files ++ more))
              end
          end
      end
  end.

(** The number of entries of a tree. *)
Fixpoint tree_size (t : Tree) : nat :=
  match t with
  | MkTree _ _ _ (Err _) => 1
  | MkTree _ _ _ (Ok es) =>
      S ((fix go (es : list (result Z Tree)) : nat :=
            match es with
            | [] => 0
            | Err _ :: es => go es
            | Ok t :: es => tree_size t + go es
            end) es)
  end%nat.

Definition iter_files (above : list string) (t : Tree) : option (result QuotaError (list FStat)) :=
  _iter_regular_files (S (tree_size t)) [(above, t)].

(** [lstat] of a path that is measured: the entry's own stat; only a missing one is
    nothing. *)
Definition measured (above : list string) (t : Tree) (total : list FStat -> Z)
    : option (result QuotaError Z) :=
  match t_stat t with
  | Err errno => Some (if errno =? 2 then Ok 0 else Err AccountingError)
  | Ok st =>
      if S_ISLNK st then Some (Ok 0)
      else if S_ISREG st then Some (Ok (st_size st))
      else if negb (S_ISDIR st) then Some (Ok 0)
      else
        match iter_files above t with
        | None => None
        | Some (Err e) => Some (Err e)
        | Some (Ok l) => Some (Ok (total l))
        end
  end.

Definition inode (st : FStat) : Z * Z := (st_dev st, st_ino st).

(** The loop of [logical_size_bytes]: an inode seen is not counted again. *)
Fixpoint sum_once (seen : list (Z * Z)) (l : list FStat) : Z :=
  match l with
  | [] => 0
  | st :: l =>
      if bool_decide (inode st ∈ seen) then sum_once seen l
      else st_size st + sum_once (inode st :: seen) l
  end.

Definition sum_sizes (l : list FStat) : Z := foldr (fun st n => st_size st + n) 0 l.

(** [logical_size_bytes(path)] and [copy_growth_bytes(path)] *)
Definition logical_size_bytes (above : list string) (t : Tree) := measured above t (sum_once []).
Definition copy_growth_bytes (above : list string) (t : Tree) := measured above t sum_sizes.

(** [quota_snapshot(user_root)]: the usage is measured before the limit is read. *)
Definition quota_snapshot (raw : option string) (above : list string) (root : Tree)
    : option (result QuotaError WorkspaceQuotaSnapshot) :=
  match logical_size_bytes above root with
  | None => None
  | Some r => Some (let! used := r in
                    let! limit := workspace_quota_limit_bytes raw in Ok (MkSnapshot used limit))
  end.

(** [ensure_growth_fits(user_root, added_bytes, reclaimed_bytes)] *)
Definition ensure_growth_fits (raw : option string) (above : list string) (root : Tree)
    (added_bytes reclaimed_bytes : Z) : option (result QuotaError WorkspaceQuotaSnapshot) :=
  match workspace_quota_limit_bytes raw with
  | Err e => Some (Err e)
  | Ok limit =>
      if limit <=? 0 then Some (Ok (MkSnapshot 0 0))
      else
        match logical_size_bytes above root with
        | None => None
        | Some (Err e) => Some (Err e)
        | Some (Ok used) =>
            let reclaimed := Z.min used (Z.max 0 reclaimed_bytes) in
            let added := Z.max 0 added_bytes in
            if limit <? used - reclaimed + added
            then Some (Err (quota_exceeded used limit added reclaimed))
            else Some (Ok (MkSnapshot used limit))
        end
  end.

(** ** The content of a tree by recursion *)

(** Both results, or an error. *)
Definition both {A} (a b : result QuotaError (list A)) : result QuotaError (list A) :=
  let! x := a in let! y := b in Ok (x ++ y).

(** The regular files below a directory: those of its entries, whatever order, with
    nothing left out but vanished entries and the private directories of sessions. *)
Fixpoint measure (above : list string) (t : Tree) : result QuotaError (list FStat) :=
  match t with
  | MkTree name _ owner scandir =>
      let private errno :=
        gone errno || (not_permitted errno && _private_session_tmp_dir above t) in
      match scandir with
      | Err errno => if private errno then Ok [] else Err AccountingError
      | Ok es =>
          (fix go (es : list (result Z Tree)) : result QuotaError (list FStat) :=
             match es with
             | [] => Ok []
             | Err errno :: _ => if private errno then Ok [] else Err AccountingError
             | Ok e :: es =>
                 match t_stat e with
                 | Err errno => if gone errno then go es else Err AccountingError
                 | Ok st =>
                     if S_ISLNK st then go es
                     else if S_ISDIR st then both (measure (parts_below above t) e) (go es)
                     else if S_ISREG st then both (Ok [st]) (go es)
                     else go es
                 end
             end) es
      end
  end.
End walk.

(** ** The walk measures the tree *)

(** The same outcome: the same files in any order, or an error. *)
Definition res_equiv {A} (a b : result QuotaError (list A)) : Prop :=
  match a, b with
  | Ok x, Ok y => x ≡ₚ y
  | Err _, Err _ => True
  | _, _ => False
  end.

Infix "~~" := res_equiv (at level 70) : gateway_scope.

#[export] Instance res_equiv_equivalence {A} : Equivalence (@res_equiv A).
Proof.
  split.
  - intros [x|]; simpl; done.
  - intros [x|] [y|]; simpl; try done.
  - intros [x|] [y|] [z|]; simpl; try done. by intros -> ->.
Qed.

#[export] Instance both_proper {A} : Proper (res_equiv ==> res_equiv ==> res_equiv) (@both A).
Proof. intros [a|] [b|] H1 [c|] [d|] H2; simpl in *; try done. by rewrite H1, H2. Qed.

Section both.
Context {A : Type}.
Implicit Types a b c : result QuotaError (list A).

Lemma both_comm a b : both a b ~~ both b a.
Proof. destruct a, b; simpl; try done. apply Permutation_app_comm. Qed.

Lemma both_assoc a b c : both a (both b c) ~~ both (both a b) c.
Proof. destruct a, b, c; simpl; try done. by rewrite app_assoc. Qed.

Lemma both_nil_l a : both (Ok []) a ~~ a.
Proof. by destruct a. Qed.

Lemma both_swap a b c : both a (both b c) ~~ both b (both a c).
Proof. by rewrite !both_assoc, (both_comm a b). Qed.

Lemma both_err_r a e : both a (Err e) ~~ Err e.
Proof. by destruct a. Qed.
End both.

#[local] Arguments both : simpl never.

Section measured.
Context (euid : Z).

Notation measure := (measure euid).
Notation scan_directory := (scan_directory euid).

Definition measure_all (above : list string) (dirs : list Tree) : result QuotaError (list FStat) :=
  foldr (fun d acc => both (measure above d) acc) (Ok []) dirs.

Definition measure_stack (stack : list (list string * Tree)) : result QuotaError (list FStat) :=
  foldr (fun at_ acc => both (measure (fst at_) (snd at_)) acc) (Ok []) stack.

Lemma measure_stack_app s1 s2 :
  measure_stack (s1 ++ s2) ~~ both (measure_stack s1) (measure_stack s2).
Proof.
  unfold measure_stack. induction s1 as [|x s1 IH]; simpl; [by rewrite both_nil_l|].
  by rewrite IH, both_assoc.
Qed.

Lemma measure_stack_pushed above dirs :
  measure_stack (rev (map (fun d => (above, d)) dirs)) ~~ measure_all above dirs.
Proof.
  induction dirs as [|d dirs IH]; simpl; [done|].
  rewrite measure_stack_app, IH. simpl.
  rewrite (both_comm (measure above d) (Ok [])), both_nil_l. apply both_comm.
Qed.

(** What scanning the entries of one directory leaves to be measured. *)
Definition scan_rest (private : Z -> bool) (above : list string)
    (r : list FStat * list Tree * Ended) : result QuotaError (list FStat) :=
  let '(files, dirs, ended) := r in
  match ended with
  | Finished => both (Ok files) (measure_all above dirs)
  | EntryFailed => Err AccountingError
  | ScanFailed errno =>
      if private errno then both (Ok files) (measure_all above dirs) else Err AccountingError
  end.

Lemma scan_rest_file private above st files dirs ended :
  scan_rest private above (st :: files, dirs, ended)
    ~~ both (Ok [st]) (scan_rest private above (files, dirs, ended)).
Proof.
  unfold scan_rest. destruct ended as [| |errno]; [by rewrite both_assoc|done|].
  destruct (private errno); [by rewrite both_assoc|done].
Qed.

Lemma scan_rest_dir private above d files dirs ended :
  scan_rest private above (files, d :: dirs, ended)
    ~~ both (measure above d) (scan_rest private above (files, dirs, ended)).
Proof.
  unfold scan_rest. destruct ended as [| |errno]; cbn [measure_all foldr].
  - apply both_swap.
  - by rewrite both_err_r.
  - destruct (private errno); [apply both_swap|by rewrite both_err_r].
Qed.

(** The loop of [measure] over the entries. *)
Definition measure_entries (private : Z -> bool) (below : list string) :=
  fix go (es : list (result Z Tree)) : result QuotaError (list FStat) :=
    match es with
    | [] => Ok []
    | Err errno :: _ => if private errno then Ok [] else Err AccountingError
    | Ok e :: es =>
        match t_stat e with
        | Err errno => if gone errno then go es else Err AccountingError
        | Ok st =>
            if S_ISLNK st then go es
            else if S_ISDIR st then both (measure below e) (go es)
            else if S_ISREG st then both (Ok [st]) (go es)
            else go es
        end
    end.

Definition private_of (above : list string) (t : Tree) (errno : Z) : bool :=
  gone errno || (not_permitted errno && _private_session_tmp_dir euid above t).

Lemma measure_eq above t :
  measure above t =
    match t_scandir t with
    | Err errno => if private_of above t errno then Ok [] else Err AccountingError
    | Ok es => measure_entries (private_of above t) (parts_below above t) es
    end.
Proof. by destruct t. Qed.

Lemma measure_entries_scan private below es :
  measure_entries private below es ~~ scan_rest private below (scan_entries es).
Proof.
  induction es as [|[e|errno] es IH]; cbn [measure_entries scan_entries]; [done| |].
  2:{ simpl. by destruct (private errno). }
  destruct (t_stat e) as [st|errno].
  2:{ by destruct (gone errno). }
  destruct (scan_entries es) as [[files dirs] ended].
  destruct (S_ISLNK st); [done|]. destruct (S_ISDIR st).
  { by rewrite scan_rest_dir, IH. }
  destruct (S_ISREG st); [|done]. by rewrite scan_rest_file, IH.
Qed.

(** Measuring a directory is scanning it and measuring what was pushed. *)
Lemma measure_scan above t :
  measure above t ~~
    match scan_directory above t with
    | Err e => Err e
    | Ok (files, dirs) => both (Ok files) (measure_all (parts_below above t) dirs)
    end.
Proof.
  rewrite measure_eq. unfold Quota.scan_directory, private_of.
  destruct (t_scandir t) as [es|errno].
  - rewrite measure_entries_scan. destruct (scan_entries es) as [[files dirs] ended].
    destruct ended as [| |errno]; simpl; [done|done|]. unfold private_of.
    destruct (gone errno); simpl; [done|]. by destruct (not_permitted errno && _).
  - destruct (gone errno); simpl; [done|]. by destruct (not_permitted errno && _).
Qed.

(** The walk ends and finds what is measured. *)
Definition stack_size (stack : list (list string * Tree)) : nat :=
  foldr (fun at_ n => (tree_size (snd at_) + n)%nat) O stack.

Lemma stack_size_app s1 s2 : stack_size (s1 ++ s2) = (stack_size s1 + stack_size s2)%nat.
Proof. unfold stack_size. induction s1 as [|x s1 IH]; simpl; [done|]. rewrite IH. lia. Qed.

Lemma stack_size_pushed above dirs :
  stack_size (rev (map (fun d => (above, d)) dirs))
    = foldr (fun d n => (tree_size d + n)%nat) O dirs.
Proof.
  induction dirs as [|d dirs IH]; simpl; [done|]. rewrite stack_size_app, IH. simpl. lia.
Qed.

Lemma scan_entries_size es files dirs ended :
  scan_entries es = (files, dirs, ended) ->
  (foldr (fun d n => (tree_size d + n)%nat) O dirs <=
   (fix go (es : list (result Z Tree)) : nat :=
      match es with
      | [] => 0
      | Err _ :: es => go es
      | Ok t :: es => tree_size t + go es
      end) es)%nat.
Proof.
  revert files dirs ended. induction es as [|[e|errno] es IH]; intros files dirs ended;
    cbn [scan_entries].
  - by intros [= <- <- <-].
  - destruct (t_stat e) as [st|errno].
    2:{ destruct (gone errno); [intros H; apply IH in H; lia|intros [= <- <- <-]; simpl; lia]. }
    destruct (scan_entries es) as [[files' dirs'] ended'].
    specialize (IH _ _ _ eq_refl).
    repeat case_match; intros [= <- <- <-]; cbn [foldr]; lia.
  - intros [= <- <- <-]. simpl. lia.
Qed.

Lemma scan_directory_size above t files dirs :
  scan_directory above t = Ok (files, dirs) ->
  (foldr (fun d n => (tree_size d + n)%nat) O dirs < tree_size t)%nat.
Proof.
  unfold Quota.scan_directory. destruct t as [name stat owner [es|errno]]; simpl.
  - destruct (scan_entries es) as [[files' dirs'] ended] eqn:E. apply scan_entries_size in E.
    destruct ended as [| |errno]; repeat case_match; intros; simplify_eq; lia.
  - repeat case_match; intros; simplify_eq; simpl; lia.
Qed.

Lemma iter_measures fuel : forall stack,
  (stack_size stack < fuel)%nat ->
  exists r, _iter_regular_files euid fuel stack = Some r /\ r ~~ measure_stack stack.
Proof.
  induction fuel as [|fuel IH]; intros stack Hf; [lia|].
  destruct stack as [|[above t] rest]; cbn [_iter_regular_files]; [by eexists|].
  pose proof (measure_scan above t) as Hm. simpl in Hf.
  destruct (scan_directory above t) as [[files dirs]|e] eqn:E.
  2:{ eexists. split; [done|].
      change (measure_stack ((above, t) :: rest)) with (both (measure above t) (measure_stack rest)).
      by rewrite Hm. }
  apply scan_directory_size in E.
  destruct (IH (rev (map (fun d => (parts_below above t, d)) dirs) ++ rest)) as (r & -> & Hr).
  { rewrite stack_size_app, stack_size_pushed. lia. }
  rewrite measure_stack_app, measure_stack_pushed in Hr.
  exists (both (Ok files) r). split; [by destruct r|].
  change (measure_stack ((above, t) :: rest)) with (both (measure above t) (measure_stack rest)).
  by rewrite Hm, <- both_assoc, <- Hr.
Qed.

(** The walk over a directory tree always ends, and it measures exactly the tree: it
    succeeds when and only when the recursive measure does, with the same regular
    files.  So nothing is missed but entries that vanished and private directories of
    other uids in a session's temporary directory, and any other failure anywhere in
    the tree is an error, never fewer bytes. *)
Theorem quota_walk_measures above t :
  exists r, iter_files euid above t = Some r /\ r ~~ measure above t.
Proof.
  destruct (iter_measures (S (tree_size t)) [(above, t)]) as (r & H & Hr); [simpl; lia|].
  exists r. split; [done|]. rewrite Hr. cbn [measure_stack foldr fst snd].
  by rewrite (both_comm (measure above t) (Ok [])), both_nil_l.
Qed.

(** ** Growth *)

(** The sum counts one file of each inode. *)
Lemma sum_once_spec l : forall seen,
  exists l', l' `sublist_of` l /\ NoDup (map inode l')
    /\ (forall st, st ∈ l' -> inode st ∉ seen)
    /\ (forall st, st ∈ l -> inode st ∈ seen \/ inode st ∈ map inode l')
    /\ sum_once seen l = sum_sizes l'.
Proof.
  induction l as [|st l IH]; intros seen; simpl.
  { exists []. split_and!; [done|constructor| | |done]; by intros ? ?%elem_of_nil. }
  case_bool_decide as Hs.
  - destruct (IH seen) as (l' & H1 & H2 & H3 & H4 & H5). exists l'.
    split_and!; [by constructor|done|done| |done].
    intros st' [->|Hin]%elem_of_cons; [by left|by apply H4].
  - destruct (IH (inode st :: seen)) as (l' & H1 & H2 & H3 & H4 & H5). exists (st :: l').
    split_and!; [by constructor| | | |simpl; by rewrite H5].
    + simpl. apply NoDup_cons. split; [|done]. intros (st' & Hst' & Hin)%list_elem_of_fmap.
      apply (H3 st' Hin). rewrite <- Hst'. apply elem_of_cons. by left.
    + intros st' [->|Hin]%elem_of_cons; [done|]. intros Hc. apply (H3 st' Hin).
      apply elem_of_cons. by right.
    + intros st' [->|Hin]%elem_of_cons; [right; apply elem_of_cons; by left|].
      destruct (H4 st' Hin) as [[->|?]%elem_of_cons|?]; [|by left|]; right; apply elem_of_cons; auto.
Qed.

Lemma sum_sizes_sublist l' l :
  l' `sublist_of` l -> (forall st, st ∈ l -> 0 <= st_size st) -> 0 <= sum_sizes l' <= sum_sizes l.
Proof.
  induction 1 as [|st l' l _ IH|st l' l _ IH]; intros Hpos; simpl; [done|..];
    (destruct IH as [H1 H2]; [intros x Hx; apply Hpos, elem_of_cons; by right|]);
    (assert (0 <= st_size st) by (apply Hpos, elem_of_cons; by left)); lia.
Qed.

(** The check before a growth, on a user root that is a directory under a configured
    limit.  It fails when the tree cannot be measured.  Otherwise the usage is the sum
    over the tree's regular files with every inode counted once, and at most what a
    copy of the tree would add; the growth is admitted exactly when the usage less
    what is reclaimed plus what is added stays within the limit, and then a root with
    that usage is not over its quota. *)
Theorem growth_check_spec raw above root st limit added reclaimed :
  t_stat root = Ok st -> S_ISLNK st = false -> S_ISREG st = false -> S_ISDIR st = true ->
  workspace_quota_limit_bytes raw = Ok limit -> 0 < limit ->
  match measure above root with
  | Err _ => exists e, ensure_growth_fits euid raw above root added reclaimed = Some (Err e)
  | Ok files =>
      (forall f, f ∈ files -> 0 <= st_size f) ->
      exists once, once ⊆ files /\ NoDup (map inode once)
        /\ (forall f, f ∈ files -> inode f ∈ map inode once)
        /\ copy_growth_bytes euid above root = Some (Ok (sum_sizes files))
        /\ 0 <= sum_sizes once <= sum_sizes files
        /\ let used := sum_sizes once in
           let freed := Z.min used (Z.max 0 reclaimed) in
           let projected := used - freed + Z.max 0 added in
           if limit <? projected
           then ensure_growth_fits euid raw above root added reclaimed
                  = Some (Err (Exceeded used limit (Z.max 0 added) freed projected))
           else ensure_growth_fits euid raw above root added reclaimed
                  = Some (Ok (MkSnapshot used limit))
                /\ over_quota (MkSnapshot projected limit) = false
  end.
Proof.
  intros Hst Hl Hr Hd Hlim Hpos.
  destruct (quota_walk_measures above root) as (r & Hit & Heq).
  unfold ensure_growth_fits, logical_size_bytes, copy_growth_bytes, measured.
  rewrite Hlim, Hst, Hl, Hr, Hd, Hit. replace (limit <=? 0) with false by (symmetry; by apply Z.leb_gt).
  cbn [negb]. destruct r as [l|e], (measure above root) as [files|e']; simpl in Heq; try done; [|by eexists].
  intros Hsize. destruct (sum_once_spec l []) as (once & H1 & H2 & _ & H4 & H5).
  assert (forall f, f ∈ l -> 0 <= st_size f) as Hsize' by (intros f; rewrite Heq; apply Hsize).
  assert (sum_sizes l = sum_sizes files) as Hsum.
  { clear -Heq. induction Heq; simpl; lia. }
  pose proof (sum_sizes_sublist once l H1 Hsize') as Hbound.
  exists once. rewrite H5, Hsum in *. split_and!; try done; try lia.
  - intros f Hf. rewrite <- Heq. by eapply sublist_subseteq.
  - intros f Hf. rewrite <- Heq in Hf. by destruct (H4 f Hf) as [?%elem_of_nil|?].
  - cbv zeta. unfold quota_exceeded. set (freed := Z.min (sum_sizes once) (Z.max 0 reclaimed)).
    assert (0 <= freed <= sum_sizes once) by lia.
    destruct (limit <? sum_sizes once - freed + Z.max 0 added) eqn:E; b2p.
    + do 3 f_equal; lia.
    + split; [done|]. unfold over_quota, enabled. simpl. apply andb_false_iff. right. by apply Z.ltb_ge.
Qed.
End measured.

(** ** Runs *)

Definition reg_file (ino size : Z) : result Z Tree :=
  Ok (MkTree "f" (Ok (MkFStat 33188 1 ino size)) (Ok 1000) (Err 20)).
Definition dir_at (name : string) (owner : Z) (scan : result Z (list (result Z Tree))) : Tree :=
  MkTree name (Ok (MkFStat 16877 1 99 4096)) (Ok owner) scan.

(** Two names of one file, a file below, a vanished entry, and the private temporary
    directory of a session uid, which the gateway may not read. *)
Definition user_root : Tree :=
  dir_at "alice" 1000 (Ok
    [reg_file 7 100; reg_file 7 100; Ok (dir_at "sub" 1000 (Ok [reg_file 8 50]));
     Ok (MkTree "gone" (Err 2) (Err 2) (Err 2));
     Ok (dir_at ".cli-tmp" 1000 (Ok [Ok (dir_at "claude-20000" 20000 (Err 13))]))]).

(** The same directory unreadable elsewhere. *)
Definition closed_root : Tree :=
  dir_at "alice" 1000 (Ok [reg_file 7 100; Ok (dir_at "claude-20000" 20000 (Err 13))]).

Example user_root_sizes :
  logical_size_bytes 1000 ["work"] user_root = Some (Ok 150) /\
  copy_growth_bytes 1000 ["work"] user_root = Some (Ok 250) /\
  logical_size_bytes 1000 ["work"] closed_root = Some (Err AccountingError).
Proof. by vm_compute. Qed.

Lemma quota_walk_measures_witness :
  exists r, iter_files 1000 ["work"] closed_root = Some r /\ r ~~ Err AccountingError.
Proof. exact (quota_walk_measures 1000 ["work"] closed_root). Defined.

Lemma growth_check_spec_witness :
  ensure_growth_fits 1000 (Some "1") ["work"] user_root 1048476 50
    = Some (Ok (MkSnapshot 150 1048576)) /\
  exists once, NoDup (map inode once) /\ sum_sizes once <= 250.
Proof.
  pose proof (growth_check_spec 1000 (Some "1") ["work"] user_root (MkFStat 16877 1 99 4096) 1048576
    1048476 50 eq_refl eq_refl eq_refl eq_refl eq_refl eq_refl) as H.
  split; [vm_compute; reflexivity|].
  destruct (measure 1000 ["work"] user_root) as [files|e] eqn:E; [|by vm_compute in E].
  assert (files = [MkFStat 33188 1 7 100; MkFStat 33188 1 7 100; MkFStat 33188 1 8 50]) as ->.
  { revert E. vm_compute. by intros [= <-]. }
  destruct H as (once & _ & Hn & _ & _ & Hs & _).
  { intros f. rewrite !elem_of_cons, elem_of_nil. intros Hf. by destruct_or?; subst. }
  exists once. split; [exact Hn|]. simpl in Hs. lia.
Defined.
