(* ===== verification/Outbox.v ===== *)
(** Between-turn events of a session (src/src/session_outbox.py).

    [SessionOutbox] is the ring buffer pollers read with a cursor and the registry of
    running background tasks, with the bounded maps that remember agent names.  Events,
    task entries and stream chunks are JSON objects; task and tool-call ids, statuses,
    subtypes and tool names are strings where they are present, as the SDK's types say.  The clock is an argument.  The tasks that read the SDK stream
    are not modelled here. *)

From S2P Require Import Prelude Json.

Definition OUTBOX_MAX_EVENTS : nat := 500.
Definition OUTBOX_MAX_EVENTS_PER_POLL : Z := 200.
Definition _TERMINAL_TASK_STATUSES : list string := ["completed"; "failed"; "stopped"; "killed"].
Definition _AGENT_NAME_MAP_MAX : nat := 256.
Definition _AGENT_NAME_MAX_LEN : nat := 256.
Definition SUBAGENT_TOOL_NAMES : list string := ["Task"; "Agent"].

(** [l[:n]] *)
Definition slice_to {A} (l : list A) (n : Z) : list A :=
  if 0 <=? n then take (Z.to_nat n) l else take (Z.to_nat (Z.of_nat (length l) + n)) l.

(** [_bounded_put(mapping, key, value)] on an [OrderedDict]. *)
Definition _bounded_put (mapping : odict string string) (key value : string) : odict string string :=
  let m := dict_del (dict_set mapping key value) key ++ [(key, value)] in
  drop (length m - _AGENT_NAME_MAP_MAX) m.

Record SessionOutbox := MkOutbox {
  maxlen : nat;
  events : list Json;
  next_seq : Z;
  active_tasks : odict string Json;
  _spawn_names : odict string string;
  _task_names : odict string string;
  _task_spawn_ids : odict string string;
}.

Definition new_outbox (maxlen : nat) : SessionOutbox := MkOutbox maxlen [] 1 [] [] [] [].

(** [deque.append] under a [maxlen]. *)
Definition deque_append (n : nat) (l : list Json) (x : Json) : list Json :=
  let l := l ++ [x] in drop (length l - n) l.

(** [append(event)] *)
Definition append (event : Json) (ts : string) (o : SessionOutbox) : SessionOutbox * Json :=
  let event := jset (jset event "seq" (JInt (next_seq o))) "ts" (JStr ts) in
  (MkOutbox (maxlen o) (deque_append (maxlen o) (events o) event) (next_seq o + 1)
     (active_tasks o) (_spawn_names o) (_task_names o) (_task_spawn_ids o), event).

(** [e["seq"]], which every buffered event has. *)
Definition seq_of (e : Json) : Z := match jget_null e "seq" with JInt n => n | _ => 0 end.

(** [events_after(after, limit)] *)
Definition events_after (after limit : Z) (o : SessionOutbox) : list Json :=
  slice_to (filter (fun e => after < seq_of e) (events o)) limit.

(** One poll of [GET /v1/sessions/{id}/pending-events] (src/src/routes/sessions.py): the
    page and [next_after]. *)
Definition poll (after : Z) (o : SessionOutbox) : list Json * Z :=
  let page := events_after after OUTBOX_MAX_EVENTS_PER_POLL o in
  (page, match last page with Some e => seq_of e | None => Z.min after (next_seq o - 1) end).

(** ** The registry of running tasks *)

(** The string of a field, when it is one and not empty. *)
Definition str_field (e : Json) (key : string) : option string :=
  match jget_null e key with
  | JStr s => if bool_decide (s = "") then None else Some s
  | _ => None
  end.

Definition new_entry (task_id ts : string) : Json :=
  JObj [("task_id", JStr task_id); ("name", JNull); ("tool_use_id", JNull);
        ("description", JStr ""); ("status", JStr "running"); ("task_type", JNull);
        ("subagent_type", JNull); ("last_tool_name", JNull); ("usage", JNull);
        ("started_at", JStr ts); ("updated_at", JStr ts)].

Definition with_tasks (f : odict string Json -> odict string Json) (o : SessionOutbox) : SessionOutbox :=
  MkOutbox (maxlen o) (events o) (next_seq o) (f (active_tasks o)) (_spawn_names o)
    (_task_names o) (_task_spawn_ids o).
Definition put_spawn_name (key name : string) (o : SessionOutbox) : SessionOutbox :=
  MkOutbox (maxlen o) (events o) (next_seq o) (active_tasks o)
    (_bounded_put (_spawn_names o) key name) (_task_names o) (_task_spawn_ids o).
Definition put_task_name (key name : string) (o : SessionOutbox) : SessionOutbox :=
  MkOutbox (maxlen o) (events o) (next_seq o) (active_tasks o) (_spawn_names o)
    (_bounded_put (_task_names o) key name) (_task_spawn_ids o).
Definition put_spawn_id (key id : string) (o : SessionOutbox) : SessionOutbox :=
  MkOutbox (maxlen o) (events o) (next_seq o) (active_tasks o) (_spawn_names o)
    (_task_names o) (_bounded_put (_task_spawn_ids o) key id).

(** [_task_entry(task_id)] *)
Definition _task_entry (task_id ts : string) (o : SessionOutbox) : SessionOutbox * Json :=
  match dict_get (active_tasks o) task_id with
  | Some entry => (o, entry)
  | None =>
      let entry := new_entry task_id ts in
      (with_tasks (fun d => dict_set d task_id entry) o, entry)
  end.

(** [note_agent_spawn(tool_use_id, name)]: entries registered under the call already are
    labelled, in the order of the registry. *)
Definition label_entry (tool_use_id name : string) (o : SessionOutbox) (kv : string * Json)
    : SessionOutbox :=
  let '(task_id, entry) := kv in
  if is_str (jget_null entry "tool_use_id") tool_use_id && negb (truthy (jget_null entry "name"))
  then put_task_name task_id name
         (with_tasks (fun d => dict_set d task_id (jset entry "name" (JStr name))) o)
  else o.

Definition note_agent_spawn (tool_use_id name : string) (o : SessionOutbox) : SessionOutbox :=
  let o := put_spawn_name tool_use_id name o in
  foldl (label_entry tool_use_id name) o (active_tasks o).

(** [agent_name_for(task_id, tool_use_id)] *)
Definition agent_name_for (task_id : string) (tool_use_id : option string) (o : SessionOutbox)
    : option string :=
  let name := match tool_use_id with Some t => dict_get (_spawn_names o) t | None => None end in
  match name with
  | Some n => Some n
  | None => dict_get (_task_names o) task_id
  end.

(** [if event.get(key): entry[key] = event[key]] *)
Definition copy_field (key : string) (event entry : Json) : Json :=
  if truthy (jget_null event key) then jset entry key (jget_null event key) else entry.

Definition is_terminal (event : Json) : bool :=
  existsb (is_str (jget_null event "status")) _TERMINAL_TASK_STATUSES.

(** [apply_task_event]: the spawning call a task is known by, remembered from its first
    announcement. *)
Definition task_spawn_id (task_id : string) (tool_use_id : option string) (o : SessionOutbox)
    : SessionOutbox * option string :=
  match dict_get (_task_spawn_ids o) task_id, tool_use_id with
  | None, Some t => (put_spawn_id task_id t o, Some t)
  | spawn_id, _ => (o, spawn_id)
  end.

(** [apply_task_event]: the name the entry gets. *)
Definition name_entry (task_id : string) (tool_use_id : option string) (entry : Json)
    (o : SessionOutbox) : SessionOutbox * Json :=
  match agent_name_for task_id tool_use_id o with
  | Some name =>
      if bool_decide (name = "") then (o, entry)
      else (put_task_name task_id name o, jset entry "name" (JStr name))
  | None => (o, entry)
  end.

(** [apply_task_event(event)]: the entry is shared with the map, so it is written back
    when all its fields are set. *)
Definition apply_task_event (event : Json) (ts : string) (o : SessionOutbox) : SessionOutbox :=
  match str_field event "task_id" with
  | None => o
  | Some task_id =>
      if is_terminal event then with_tasks (fun d => dict_del d task_id) o
      else
        let etype := jget_null event "type" in
        let status := jget_null event "status" in
        let '(o, entry) := _task_entry task_id ts o in
        let entry := jset entry "updated_at" (JStr ts) in
        let tool_use_id := str_field event "tool_use_id" in
        let '(o, spawn_id) := task_spawn_id task_id tool_use_id o in
        let entry := match spawn_id with
                     | Some s => if bool_decide (s = "") then entry
                                 else jset entry "tool_use_id" (JStr s)
                     | None => entry
                     end in
        let '(o, entry) := name_entry task_id tool_use_id entry o in
        let entry := copy_field "description" event entry in
        let entry :=
          if is_str etype "task_started"
          then copy_field "subagent_type" event (copy_field "task_type" event entry)
          else entry in
        let entry := copy_field "usage" event (copy_field "last_tool_name" event entry) in
        let entry :=
          if is_str etype "task_updated" && truthy status then jset entry "status" status else entry in
        with_tasks (fun d => dict_set d task_id entry) o
  end.

(** [snapshot_active_tasks()] and [clear_active_tasks()] *)
Definition snapshot_active_tasks (o : SessionOutbox) : list Json := dict_values (active_tasks o).
Definition clear_active_tasks (o : SessionOutbox) : SessionOutbox * nat :=
  (with_tasks (fun _ => []) o, length (active_tasks o)).

(** ** What feeds it *)

Definition _TASK_SUBTYPES : list string :=
  ["task_started"; "task_progress"; "task_notification"; "task_updated"].

(** [_duck_typed_event(message)] *)
Definition _duck_typed_event (message : Json) : option Json :=
  match message with
  | JObj d =>
      match jget_null message "subtype" with
      | JStr s =>
          if bool_decide (s ∈ _TASK_SUBTYPES)
          then Some (jset (JObj (dict_del d "subtype")) "type" (JStr s))
          else None
      | _ => None
      end
  | _ => None
  end.

(** [len(s)]: the characters of a UTF-8 text, each of which has one byte that does not
    continue another. *)
Fixpoint py_len (s : string) : nat :=
  match s with
  | EmptyString => 0
  | String c s => (if (Ascii.nat_of_ascii c / 64 =? 2)%nat then 0 else 1) + py_len s
  end.

(** [_agent_spawns(content)] on the blocks of a raw chunk. *)
Definition agent_spawn (block : Json) : option (string * string) :=
  match block with
  | JObj _ =>
      if negb (is_str (jget_null block "type") "tool_use") then None
      else if negb (existsb (is_str (jget_null block "name")) SUBAGENT_TOOL_NAMES) then None
      else
        match str_field block "id", jget_null (jget_null block "input") "name" with
        | Some block_id, JStr name =>
            if (0 <? py_len name)%nat && (py_len name <=? _AGENT_NAME_MAX_LEN)%nat
            then Some (block_id, name) else None
        | _, _ => None
        end
  | _ => None
  end.

Definition _agent_spawns (content : Json) : list (string * string) :=
  match content with JArr blocks => omap agent_spawn blocks | _ => [] end.

(** [_note_agent_spawns(session, content)] *)
Definition _note_agent_spawns (content : Json) (o : SessionOutbox) : SessionOutbox :=
  foldl (fun o kv => note_agent_spawn (fst kv) (snd kv) o) o (_agent_spawns content).

(** [if not event.get(key) and data.get(key): event[key] = data[key]] *)
Definition fill_field (data event : Json) (key : string) : Json :=
  if negb (truthy (jget_null event key)) && truthy (jget_null data key)
  then jset event key (jget_null data key) else event.

(** The event [apply_turn_task_chunk] makes of a task chunk that names its task. *)
Definition chunk_event (chunk event : Json) : option Json :=
  if negb (truthy (jget_null event "task_id")) then None
  else
    let data := jget_null chunk "data" in
    let event := foldl (fill_field data) event ["task_type"; "subagent_type"; "tool_use_id"] in
    if is_str (jget_null event "type") "task_updated" && negb (truthy (jget_null event "status"))
    then
      let status := jget_null (jget_null event "patch") "status" in
      Some (if truthy status then jset event "status" status else event)
    else Some event.

(** [apply_turn_task_chunk(session, chunk)] *)
Definition apply_turn_task_chunk (chunk : Json) (ts : string) (o : SessionOutbox) : SessionOutbox :=
  match chunk with
  | JObj _ =>
      match _duck_typed_event chunk with
      | None =>
          if is_str (jget_null chunk "type") "assistant"
          then _note_agent_spawns (jget_null chunk "content") o else o
      | Some event =>
          match chunk_event chunk event with
          | None => o
          | Some event => apply_task_event event ts o
          end
      end
  | _ => o
  end.


(** ** Polling *)

(** A poller that starts at 0 and goes on with the cursor it gets, and what was appended
    meanwhile. *)
Inductive PollOp :=
| Append (event : odict string Json) (ts : string)
| Poll.

Record Poller := MkPoller {
  outbox : SessionOutbox;
  cursor : Z;
  delivered : list Json;
  appended : list Json;
}.

Definition poller_step (s : Poller) (op : PollOp) : Poller :=
  match op with
  | Append event ts =>
      let '(o, e) := append (JObj event) ts (outbox s) in
      MkPoller o (cursor s) (delivered s) (appended s ++ [e])
  | Poll =>
      let '(page, next_after) := poll (cursor s) (outbox s) in
      MkPoller (outbox s) next_after (delivered s ++ page) (appended s)
  end.

Definition new_poller (maxlen : nat) : Poller := MkPoller (new_outbox maxlen) 0 [] [].

(** The poller keeps up: an event is appended only while fewer than the buffer holds are
    unseen. *)
Fixpoint keeps_up (s : Poller) (ops : list PollOp) : Prop :=
  match ops with
  | [] => True
  | op :: rest =>
      match op with
      | Append _ _ => next_seq (outbox s) - 1 - cursor s < Z.of_nat (maxlen (outbox s))
      | Poll => True
      end /\ keeps_up (poller_step s op) rest
  end.

#[local] Arguments jset : simpl never.

(** The sequence numbers of a list are consecutive from [n]. *)
Fixpoint seqs_from (n : Z) (l : list Json) : Prop :=
  match l with
  | [] => True
  | e :: l => seq_of e = n /\ seqs_from (n + 1) l
  end.

Lemma seqs_from_app n l1 l2 :
  seqs_from n (l1 ++ l2) <-> seqs_from n l1 /\ seqs_from (n + Z.of_nat (length l1)) l2.
Proof.
  revert n. induction l1 as [|e l1 IH]; intros n; simpl; [rewrite Z.add_0_r; tauto|].
  rewrite IH. replace (n + 1 + Z.of_nat (length l1)) with (n + Z.of_nat (S (length l1))) by lia. tauto.
Qed.

Lemma seqs_from_drop n l k :
  (k <= length l)%nat -> seqs_from n l -> seqs_from (n + Z.of_nat k) (drop k l).
Proof.
  intros Hk H. rewrite <- (take_drop k l) in H. apply seqs_from_app in H as [_ H].
  by rewrite length_take_le in H.
Qed.

Lemma seqs_from_take n l k : seqs_from n l -> seqs_from n (take k l).
Proof. intros H. rewrite <- (take_drop k l) in H. by apply seqs_from_app in H as [H _]. Qed.

(** The events past a cursor are a suffix of consecutive ones. *)
Lemma filter_after n l c :
  seqs_from n l ->
  filter (fun e => c < seq_of e) l = drop (Z.to_nat (c + 1 - n)) l.
Proof.
  revert n. induction l as [|e l IH]; intros n; simpl; [by rewrite drop_nil|].
  intros [He Hl]. rewrite filter_cons, He. case_decide.
  - replace (Z.to_nat (c + 1 - n)) with O by lia. simpl. f_equal.
    rewrite (IH (n + 1) Hl). replace (Z.to_nat (c + 1 - (n + 1))) with O by lia. apply drop_0.
  - replace (Z.to_nat (c + 1 - n)) with (S (Z.to_nat (c + 1 - (n + 1)))) by lia. simpl. by apply IH.
Qed.

Lemma seqs_from_last n l e : seqs_from n l -> last l = Some e -> seq_of e = n + Z.of_nat (length l) - 1.
Proof.
  intros Hs Hl. apply last_Some in Hl as [l' ->]. apply seqs_from_app in Hs as [_ [He _]].
  rewrite He, length_app. simpl. lia.
Qed.

Lemma appended_seq d n ts : seq_of (jset (jset (JObj d) "seq" (JInt n)) "ts" (JStr ts)) = n.
Proof. unfold seq_of, jget_null. by rewrite jget_jset_ne, jget_jset_eq. Qed.

(** The buffer is the tail of what was appended, numbered from 1. *)
Record poller_ok (s : Poller) : Prop := {
  pk_seqs : seqs_from 1 (appended s);
  pk_next : next_seq (outbox s) = Z.of_nat (length (appended s)) + 1;
  pk_events : events (outbox s)
    = drop (length (appended s) - maxlen (outbox s)) (appended s);
  pk_cursor : 0 <= cursor s < next_seq (outbox s);
  pk_delivered : delivered s `sublist_of` take (Z.to_nat (cursor s)) (appended s);
}.

Lemma events_seqs s :
  poller_ok s ->
  seqs_from (1 + Z.of_nat (length (appended s) - maxlen (outbox s))) (events (outbox s)).
Proof. intros [H1 H2 H3 H4 H5]. rewrite H3. apply seqs_from_drop; [lia|done]. Qed.

(** The unseen events in the buffer: what was appended past the cursor, less what the
    buffer dropped. *)
Lemma unseen_events s :
  poller_ok s ->
  filter (fun e => cursor s < seq_of e) (events (outbox s))
    = drop (Nat.max (length (appended s) - maxlen (outbox s)) (Z.to_nat (cursor s))) (appended s).
Proof.
  intros Hok. rewrite (filter_after _ _ _ (events_seqs s Hok)).
  destruct Hok as [H1 H2 H3 H4 H5]. rewrite H3, drop_drop. f_equal. lia.
Qed.

Lemma append_ok s d ts : poller_ok s -> poller_ok (poller_step s (Append d ts)).
Proof.
  intros [H1 H2 H3 H4 H5]. unfold poller_step, append. simpl.
  split; simpl.
  - apply seqs_from_app. split; [done|]. simpl. split; [|done]. rewrite appended_seq. lia.
  - rewrite length_app. simpl. lia.
  - unfold deque_append. rewrite H3. set (l := appended s). set (n := maxlen (outbox s)).
    set (e := jset _ "ts" _). rewrite !length_app, length_drop. simpl.
    rewrite !drop_app, drop_drop, length_drop. f_equal; f_equal; lia.
  - lia.
  - rewrite take_app_le by lia. done.
Qed.

Lemma slice_to_poll (l : list Json) : slice_to l OUTBOX_MAX_EVENTS_PER_POLL = take 200 l.
Proof. done. Qed.

Lemma poll_page s :
  poller_ok s ->
  let '(page, next_after) := poll (cursor s) (outbox s) in
  let first := Nat.max (length (appended s) - maxlen (outbox s)) (Z.to_nat (cursor s)) in
  page = take 200 (drop first (appended s))
  /\ next_after = (if decide (page = []) then cursor s
                   else Z.of_nat (first + length page)).
Proof.
  intros Hok. unfold poll, events_after. rewrite slice_to_poll, (unseen_events s Hok).
  destruct Hok as [H1 H2 H3 H4 H5].
  set (first := Nat.max _ _). set (page := take 200 (drop first (appended s))).
  split; [done|]. assert (first <= length (appended s))%nat as Hf by lia.
  assert (seqs_from (1 + Z.of_nat first) page) as Hseq.
  { apply seqs_from_take, seqs_from_drop; [lia|done]. }
  destruct (last page) as [e|] eqn:El.
  - rewrite decide_False by (intros Hn; by rewrite Hn in El).
    rewrite (seqs_from_last _ _ _ Hseq El). lia.
  - apply last_None in El. rewrite decide_True by done. lia.
Qed.

Lemma take_page {A} n (l : list A) : take (length (take n l)) l = take n l.
Proof. rewrite <- (take_drop n l) at 2. apply take_app_length. Qed.

Lemma poll_ok s : poller_ok s -> poller_ok (poller_step s Poll).
Proof.
  intros Hok. pose proof (poll_page s Hok) as Hp. unfold poller_step.
  destruct (poll (cursor s) (outbox s)) as [page next_after]. destruct Hp as [Hpage Hnext].
  destruct Hok as [H1 H2 H3 H4 H5]. set (first := Nat.max _ _) in *.
  destruct (decide (page = [])) as [Hn|Hn].
  { rewrite Hn, Hnext, app_nil_r. by split. }
  assert (length page <= length (appended s) - first)%nat as Hlen.
  { rewrite Hpage, length_take, length_drop. lia. }
  assert (first <= length (appended s))%nat as Hf by lia.
  split; simpl; try done; rewrite Hnext; [lia|].
  rewrite Nat2Z.id, <- take_take_drop. apply sublist_app.
  - rewrite <- (take_drop (Z.to_nat (cursor s)) (take first (appended s))), take_take.
    rewrite Nat.min_l by lia. by apply sublist_inserts_r.
  - rewrite Hpage at 2. by rewrite take_page, <- Hpage.
Qed.

Lemma poller_run_ok ops : forall s, poller_ok s -> poller_ok (foldl poller_step s ops).
Proof.
  induction ops as [|[d ts|] ops IH]; intros s Hok; simpl; [done|..]; apply IH.
  - by apply append_ok.
  - by apply poll_ok.
Qed.

Lemma new_poller_ok n : poller_ok (new_poller n).
Proof. by split. Qed.

(** A poller that keeps up has seen exactly the events up to its cursor. *)
Lemma keeps_up_delivered ops : forall s,
  poller_ok s -> delivered s = take (Z.to_nat (cursor s)) (appended s) ->
  (length (appended s) - maxlen (outbox s) <= Z.to_nat (cursor s))%nat ->
  keeps_up s ops ->
  let s' := foldl poller_step s ops in
  delivered s' = take (Z.to_nat (cursor s')) (appended s') /\
  (length (appended s') - maxlen (outbox s') <= Z.to_nat (cursor s'))%nat.
Proof.
  induction ops as [|op ops IH]; intros s Hok Hdel Hroom Hkeep; [done|].
  cbn [foldl]. destruct Hkeep as [Hk Hkeep]. destruct op as [d ts|].
  - apply IH; [by apply append_ok| | |done]; unfold poller_step, append; simpl;
      destruct Hok as [H1 H2 H3 H4 H5].
    + rewrite take_app_le by lia. done.
    + rewrite length_app. simpl. lia.
  - pose proof (poll_page s Hok) as Hp.
    apply IH; [by apply poll_ok| | |done]; unfold poller_step;
      destruct (poll (cursor s) (outbox s)) as [page next_after]; destruct Hp as [Hpage Hnext];
      rewrite Nat.max_r in * by lia; simpl; rewrite Hnext.
    + case_decide as Hn; [by rewrite Hn, app_nil_r|].
      rewrite Nat2Z.id, <- take_take_drop, <- Hdel. f_equal. rewrite Hpage. by rewrite take_page.
    + case_decide; lia.
Qed.

(** A poller gets the events in order and each at most once, whatever was appended
    between its polls and however many polls it makes; and as long as no event is
    appended while the buffer is full of unseen ones, nothing is lost: what it got and
    what waits in the buffer are together all that was appended. *)
Theorem polling_in_order maxlen ops :
  let s := foldl poller_step (new_poller maxlen) ops in
  delivered s `sublist_of` appended s
  /\ seqs_from 1 (appended s)
  /\ (keeps_up (new_poller maxlen) ops ->
      delivered s ++ filter (fun e => cursor s < seq_of e) (events (outbox s)) = appended s).
Proof.
  intros s. assert (poller_ok s) as Hok by (apply poller_run_ok, new_poller_ok).
  split_and!; [|by destruct Hok|].
  - etransitivity; [apply (pk_delivered s Hok)|]. apply sublist_take.
  - intros Hk. edestruct (keeps_up_delivered ops (new_poller maxlen)) as [Hd Hr];
      [apply new_poller_ok|done|simpl; lia|done|]. fold s in Hd, Hr.
    rewrite (unseen_events s Hok), Hd, Nat.max_r by done. apply take_drop.
Qed.

(** A cursor past the end comes back to it, so what is appended next is seen. *)
Lemma stale_cursor_recovers maxlen ops after :
  let o := outbox (foldl poller_step (new_poller maxlen) ops) in
  snd (poll after o) < next_seq o.
Proof.
  intros o. set (s := foldl poller_step (new_poller maxlen) ops) in *.
  assert (poller_ok s) as Hok by (apply poller_run_ok, new_poller_ok).
  pose proof (events_seqs s Hok) as Hev. pose proof (pk_next s Hok) as Hnext. fold o in Hev, Hnext.
  unfold poll, events_after. rewrite slice_to_poll. simpl snd.
  destruct (last _) as [e|] eqn:El; [|lia].
  rewrite (filter_after _ _ _ Hev) in El. set (from := Z.to_nat _) in El.
  assert (from <= length (events o))%nat as Hf.
  { destruct (decide (from <= length (events o))%nat); [done|].
    by rewrite (drop_ge (events o)), take_nil in El by lia. }
  rewrite (seqs_from_last _ _ _ (seqs_from_take _ _ 200 (seqs_from_drop _ _ _ Hf Hev)) El).
  rewrite Hnext. rewrite length_take, length_drop.
  assert (length (events o) = length (appended s) - (length (appended s) - Outbox.maxlen o))%nat as Hl.
  { unfold o. rewrite (pk_events s Hok), length_drop. done. }
  fold o. lia.
Qed.

(** ** The registry of running tasks, against what it should hold *)

Inductive TaskOp :=
| Chunk (chunk : Json) (ts : string)
| IdleEvent (event : Json) (ts : string)
| Spawn (tool_use_id name : string)
| Reset.

Definition task_step (o : SessionOutbox) (op : TaskOp) : SessionOutbox :=
  match op with
  | Chunk chunk ts => apply_turn_task_chunk chunk ts o
  | IdleEvent event ts => apply_task_event event ts o
  | Spawn tool_use_id name => note_agent_spawn tool_use_id name o
  | Reset => fst (clear_active_tasks o)
  end.

(** The task event an operation carries. *)
Definition event_of (op : TaskOp) : option Json :=
  match op with
  | Chunk chunk _ => _duck_typed_event chunk ≫= chunk_event chunk
  | IdleEvent event _ => Some event
  | _ => None
  end.

(** Whether task [t] runs, told from the operations alone. *)
Definition task_runs (t : string) (b : bool) (op : TaskOp) : bool :=
  match op with
  | Reset => false
  | _ =>
      match event_of op with
      | Some e => if decide (str_field e "task_id" = Some t) then negb (is_terminal e) else b
      | None => b
      end
  end.

(** The registry's invariant: an entry per task, each under its own id, and the maps of
    names within their bound. *)
Record tasks_ok (o : SessionOutbox) : Prop := {
  tk_wf : dict_wf (active_tasks o);
  tk_ids : forall t e, dict_get (active_tasks o) t = Some e -> jget e "task_id" = Some (JStr t);
  tk_spawns : (length (_spawn_names o) <= _AGENT_NAME_MAP_MAX)%nat;
  tk_names : (length (_task_names o) <= _AGENT_NAME_MAP_MAX)%nat;
  tk_spawn_ids : (length (_task_spawn_ids o) <= _AGENT_NAME_MAP_MAX)%nat;
}.

Lemma new_outbox_tasks n : tasks_ok (new_outbox n).
Proof. split; simpl; try lia; [constructor|done]. Qed.

Lemma bounded_put_length m k v : (length (_bounded_put m k v) <= _AGENT_NAME_MAP_MAX)%nat.
Proof. unfold _bounded_put. rewrite length_drop. lia. Qed.

#[local] Opaque _bounded_put.

(** Writing an entry of task [t] with its id registers [t] and nothing else. *)
Lemma put_task_ok o t e :
  tasks_ok o -> jget e "task_id" = Some (JStr t) -> tasks_ok (with_tasks (fun d => dict_set d t e) o).
Proof.
  intros [H1 H2 H3 H4 H5] He. split; simpl; try done; [by apply dict_wf_set|].
  intros t' e'. rewrite dict_get_set. case_decide; subst; [by intros [= <-]|apply H2].
Qed.

Lemma del_task_ok o t : tasks_ok o -> tasks_ok (with_tasks (fun d => dict_del d t) o).
Proof.
  intros [H1 H2 H3 H4 H5]. split; simpl; try done; [by apply dict_wf_del|].
  intros t' e'. rewrite dict_get_del by done. case_decide; [done|apply H2].
Qed.

Lemma put_spawn_name_ok o k v : tasks_ok o -> tasks_ok (put_spawn_name k v o).
Proof. intros [H1 H2 H3 H4 H5]. split; simpl; try done. apply bounded_put_length. Qed.
Lemma put_task_name_ok o k v : tasks_ok o -> tasks_ok (put_task_name k v o).
Proof. intros [H1 H2 H3 H4 H5]. split; simpl; try done. apply bounded_put_length. Qed.
Lemma put_spawn_id_ok o k v : tasks_ok o -> tasks_ok (put_spawn_id k v o).
Proof. intros [H1 H2 H3 H4 H5]. split; simpl; try done. apply bounded_put_length. Qed.

Create HintDb tasks.
#[local] Hint Resolve put_task_ok del_task_ok put_spawn_name_ok put_task_name_ok put_spawn_id_ok : tasks.

Definition registered (t : string) (o : SessionOutbox) : bool := dict_has (active_tasks o) t.

Lemma registered_put o t t' e :
  registered t (with_tasks (fun d => dict_set d t' e) o) = (bool_decide (t = t') || registered t o).
Proof.
  unfold registered, dict_has. simpl. rewrite dict_get_set. case_decide; subst.
  - rewrite !bool_decide_true by eauto. done.
  - rewrite (bool_decide_false (t = t')) by done. done.
Qed.

Lemma registered_del o t t' :
  tasks_ok o ->
  registered t (with_tasks (fun d => dict_del d t') o)
    = if decide (t' = t) then false else registered t o.
Proof.
  intros Ho. unfold registered, dict_has. simpl. rewrite dict_get_del by apply tk_wf, Ho.
  case_decide; [|done]. apply bool_decide_eq_false_2. by intros [? ?].
Qed.

Lemma jset_id e t key x :
  key <> "task_id" -> jget e "task_id" = Some (JStr t) -> jget (jset e key x) "task_id" = Some (JStr t).
Proof. intros. by rewrite jget_jset_ne. Qed.

Lemma copy_field_id event e t key :
  key <> "task_id" -> jget e "task_id" = Some (JStr t) ->
  jget (copy_field key event e) "task_id" = Some (JStr t).
Proof. intros. unfold copy_field. case_match; [by apply jset_id|done]. Qed.

#[local] Hint Resolve jset_id copy_field_id : tasks.

(** [_task_entry] finds the task's entry or makes it. *)
Lemma task_entry_ok t ts o o' e :
  tasks_ok o -> _task_entry t ts o = (o', e) ->
  tasks_ok o' /\ jget e "task_id" = Some (JStr t)
  /\ forall t', bool_decide (t' = t) || registered t' o' = bool_decide (t' = t) || registered t' o.
Proof.
  intros Ho. unfold _task_entry. destruct (dict_get (active_tasks o) t) as [e0|] eqn:Eg.
  - intros [= <- <-]. split_and!; [done|by eapply tk_ids|done].
  - intros [= <- <-]. split_and!; [by apply put_task_ok|done|].
    intros t'. rewrite registered_put. by destruct (bool_decide (t' = t)).
Qed.

(** A labelled entry stays the entry of its task. *)
Lemma label_entry_ok id name o kv :
  jget (snd kv) "task_id" = Some (JStr (fst kv)) -> tasks_ok o -> registered (fst kv) o ->
  tasks_ok (label_entry id name o kv)
  /\ forall t, registered t (label_entry id name o kv) = registered t o.
Proof.
  destruct kv as [k e]. simpl. intros He Ho Hk. unfold label_entry. case_match; [|done].
  split; [auto with tasks|]. intros t. change (registered t (put_task_name k name ?x)) with (registered t x).
  rewrite registered_put. case_bool_decide; subst; [|done]. by destruct (registered k o).
Qed.

Lemma label_entries_ok id name l : forall o,
  (forall k e, (k, e) ∈ l -> jget e "task_id" = Some (JStr k) /\ registered k o) -> tasks_ok o ->
  tasks_ok (foldl (label_entry id name) o l)
  /\ forall t, registered t (foldl (label_entry id name) o l) = registered t o.
Proof.
  induction l as [|[k e] l IH]; intros o Hl Ho; [done|]. cbn [foldl].
  destruct (Hl k e) as [He Hk]; [by left|].
  destruct (label_entry_ok id name o (k, e) He Ho Hk) as [Ho' Hr].
  destruct (IH (label_entry id name o (k, e))) as [Ho2 Hr2]; [|done|].
  - intros k' e' Hin. destruct (Hl k' e') as [? ?]; [by right|]. by rewrite Hr.
  - split; [done|]. intros t. by rewrite Hr2, Hr.
Qed.

(** Naming an agent registers no task. *)
Lemma note_agent_spawn_ok id name o :
  tasks_ok o ->
  tasks_ok (note_agent_spawn id name o)
  /\ forall t, registered t (note_agent_spawn id name o) = registered t o.
Proof.
  intros Ho. unfold note_agent_spawn. set (o1 := put_spawn_name id name o).
  assert (tasks_ok o1) as Ho1 by by apply put_spawn_name_ok.
  change (active_tasks o) with (active_tasks o1). change (registered ?t o) with (registered t o1).
  apply label_entries_ok; [|done].
  intros k e Hin. apply dict_elem_get in Hin; [|apply tk_wf, Ho1].
  split; [by eapply tk_ids|].
  unfold registered, dict_has. rewrite Hin. by rewrite bool_decide_true by eauto.
Qed.

(** The two steps that touch the maps of names leave the registry alone. *)
Lemma task_spawn_id_ok id tool o o' sid :
  tasks_ok o -> task_spawn_id id tool o = (o', sid) ->
  tasks_ok o' /\ forall t, registered t o' = registered t o.
Proof.
  intros Ho. unfold task_spawn_id. destruct (dict_get (_task_spawn_ids o) id), tool;
    intros [= <- <-]; (split; [auto with tasks|done]).
Qed.

Lemma name_entry_ok id tool e t o o' e' :
  tasks_ok o -> jget e "task_id" = Some (JStr t) -> name_entry id tool e o = (o', e') ->
  tasks_ok o' /\ jget e' "task_id" = Some (JStr t) /\ forall t', registered t' o' = registered t' o.
Proof.
  intros Ho He. unfold name_entry. destruct (agent_name_for id tool o) as [n|]; [case_match|];
    intros [= <- <-]; (split_and!; [auto with tasks..|done]).
Qed.

(** A task event registers its task, or drops it when it is terminal, and leaves the
    others as they are. *)
Lemma apply_task_event_ok e ts o :
  tasks_ok o ->
  tasks_ok (apply_task_event e ts o)
  /\ forall t, registered t (apply_task_event e ts o)
       = if decide (str_field e "task_id" = Some t) then negb (is_terminal e) else registered t o.
Proof.
  intros Ho. unfold apply_task_event.
  destruct (str_field e "task_id") as [id|] eqn:Eid; [|split; [done|intros t; by rewrite decide_False]].
  destruct (is_terminal e).
  { split; [auto with tasks|]. intros t. rewrite registered_del by done.
    repeat case_decide; simpl; congruence. }
  destruct (_task_entry id ts o) as [o1 e1] eqn:Ee.
  destruct (task_entry_ok id ts o o1 e1 Ho Ee) as (Ho1 & He1 & Hr1).
  destruct (task_spawn_id id _ o1) as [o2 sid] eqn:E2.
  destruct (task_spawn_id_ok _ _ _ _ _ Ho1 E2) as [Ho2 Hr2].
  destruct (name_entry id _ _ o2) as [o3 e3] eqn:E3. apply (name_entry_ok _ _ _ id) in E3
    as (Ho3 & He3 & Hr3); [|done|by repeat case_match; repeat apply jset_id].
  split.
  - apply put_task_ok; [done|]. repeat case_match;
      repeat (apply jset_id || apply copy_field_id); done.
  - intros t. rewrite registered_put, Hr3, Hr2. specialize (Hr1 t). revert Hr1.
    case_bool_decide; case_decide; simpl; congruence.
Qed.

Lemma note_agent_spawns_ok c o :
  tasks_ok o ->
  tasks_ok (_note_agent_spawns c o) /\ forall t, registered t (_note_agent_spawns c o) = registered t o.
Proof.
  unfold _note_agent_spawns. generalize (_agent_spawns c). intros l. revert o.
  induction l as [|[id name] l IH]; intros o Ho; [done|]. cbn [foldl fst snd].
  destruct (note_agent_spawn_ok id name o Ho) as [Ho1 Hr1]. destruct (IH _ Ho1) as [Ho2 Hr2].
  split; [done|]. intros t. by rewrite Hr2, Hr1.
Qed.

Lemma task_step_ok op o :
  tasks_ok o ->
  tasks_ok (task_step o op) /\ forall t, registered t (task_step o op) = task_runs t (registered t o) op.
Proof.
  intros Ho. destruct op as [chunk ts|e ts|id name|]; cbn [task_step task_runs event_of].
  - unfold apply_turn_task_chunk. destruct chunk as [| | | | |l|d]; try done.
    destruct (_duck_typed_event (JObj d)) as [ev|]; simpl.
    + destruct (chunk_event (JObj d) ev) as [ev'|]; [by apply apply_task_event_ok|done].
    + case_match; [by apply note_agent_spawns_ok|done].
  - by apply apply_task_event_ok.
  - by apply note_agent_spawn_ok.
  - split; [|done]. destruct Ho as [H1 H2 H3 H4 H5]. split; try done. constructor.
Qed.

(** Whatever task chunks, events, spawning calls and resets a session sees, and in
    whatever order: a task is listed as running exactly if the last event about it since
    the last reset was not a terminal one; it is listed once, under its own id; and the
    maps that remember agent names stay within 256 entries. *)
Theorem task_registry_spec maxlen ops :
  let o := foldl task_step (new_outbox maxlen) ops in
  (forall t, dict_has (active_tasks o) t = foldl (task_runs t) false ops)
  /\ dict_wf (active_tasks o)
  /\ (forall t e, dict_get (active_tasks o) t = Some e -> jget e "task_id" = Some (JStr t))
  /\ (length (_spawn_names o) <= 256)%nat
  /\ (length (_task_names o) <= 256)%nat
  /\ (length (_task_spawn_ids o) <= 256)%nat.
Proof.
  assert (forall ops o, tasks_ok o -> tasks_ok (foldl task_step o ops)
    /\ forall t, registered t (foldl task_step o ops) = foldl (task_runs t) (registered t o) ops) as H.
  { clear ops. induction ops as [|op ops IH]; intros o Ho; [done|]. cbn [foldl].
    destruct (task_step_ok op o Ho) as [Ho1 Hr1]. destruct (IH _ Ho1) as [Ho2 Hr2].
    split; [done|]. intros t. by rewrite Hr2, Hr1. }
  destruct (H ops (new_outbox maxlen) (new_outbox_tasks maxlen)) as [[H1 H2 H3 H4 H5] Hr].
  by split_and!.
Qed.

(** ** Concrete runs *)

Definition ev (n : string) : odict string Json := [("type", JStr "assistant"); ("text", JStr n)].

(** A buffer of two: the poller keeps up and gets all three events in order. *)
Lemma polling_in_order_witness :
  let ops := [Append (ev "a") "t0"; Append (ev "b") "t1"; Poll; Append (ev "c") "t2"] in
  let s := foldl poller_step (new_poller 2) ops in
  keeps_up (new_poller 2) ops
  /\ delivered s ++ filter (fun e => cursor s < seq_of e) (events (outbox s)) = appended s
  /\ map seq_of (delivered s) = [1; 2].
Proof.
  assert (keeps_up (new_poller 2)
    [Append (ev "a") "t0"; Append (ev "b") "t1"; Poll; Append (ev "c") "t2"]) as H
    by (repeat split; vm_compute; reflexivity).
  split; [exact H|]. split; [|vm_compute; reflexivity].
  exact (proj2 (proj2 (polling_in_order 2
    [Append (ev "a") "t0"; Append (ev "b") "t1"; Poll; Append (ev "c") "t2"])) H).
Defined.

(** A poller that falls behind a full buffer misses the events that were dropped. *)
Example slow_poller_misses :
  let ops := [Append (ev "a") "t0"; Append (ev "b") "t1"; Append (ev "c") "t2"; Poll] in
  map seq_of (delivered (foldl poller_step (new_poller 2) ops)) = [2; 3].
Proof. reflexivity. Qed.

(** A task announced by its spawning call takes that call's name; a terminal patch, under
    [data] or not, takes it off the list. *)
Definition started : Json :=
  JObj [("type", JStr "system"); ("subtype", JStr "task_started"); ("task_id", JStr "x");
        ("data", JObj [("tool_use_id", JStr "call")])].
Definition patched : Json :=
  JObj [("type", JStr "system"); ("subtype", JStr "task_updated"); ("task_id", JStr "x");
        ("patch", JObj [("status", JStr "killed")])].
Definition spawning : Json :=
  JObj [("type", JStr "assistant");
        ("content", JArr [JObj [("type", JStr "tool_use"); ("name", JStr "Agent"); ("id", JStr "call");
                                ("input", JObj [("name", JStr "scout")])]])].

Example task_named :
  map (fun e => jget_null e "name")
    (snapshot_active_tasks (foldl task_step (new_outbox 500) [Chunk spawning "t0"; Chunk started "t1"]))
  = [JStr "scout"].
Proof. reflexivity. Qed.

Example task_ended :
  snapshot_active_tasks
    (foldl task_step (new_outbox 500) [Chunk spawning "t0"; Chunk started "t1"; Chunk patched "t2"]) = [].
Proof. reflexivity. Qed.
