(* ===== verification/Handoff.v ===== *)
(** A request across two instances ([src/src/handoff/middleware.py],
    [src/src/handoff/ledger.py]): the sender's loop and the ledgers of the instances it
    forwards to.

    [DispatchTable] is what the sender relies on at an instance it forwards to, stated
    without the ledger; the loop's theorem is proved against it and [ledger_dispatch_laws]
    shows that a run of the ledger keeps it. *)

From S2P Require Import Prelude Json Ledger Peer Routing.

(** ** The interface *)

(** What happened to dispatch ids at an instance: how many requests with an id reached
    it, how often its app started the work of one, whether a request was answered with the
    421 that makes the sender decide again, whether a settle call in time was answered
    "refused". *)
Class DispatchTable (T : Type) := {
  deliveries : T -> string -> Z;
  starts : T -> string -> Z;
  turned_away : T -> string -> Prop;
  declared_refused : T -> string -> Prop;
}.

Class DispatchLaws (T : Type) `{DispatchTable T} := {
  starts_nonneg t id : 0 <= starts t id;
  starts_once t id : starts t id <= 1;
  starts_delivered t id : starts t id <= deliveries t id;
  turned_away_idle t id : deliveries t id <= 1 -> turned_away t id -> starts t id = 0;
  refused_idle t id : declared_refused t id -> starts t id = 0;
}.

(** ** The sender, against the interface *)

Section sender.
Context `{DispatchLaws T} (json_dumps : Json -> string) (ME : string).
Context (env : nat -> Env) (kind : Kind) (continuation : bool).
(** The table of each instance, the dispatch id of each attempt ([new_dispatch_id]), and
    how often the app here started the work of an attempt that was served here. *)
Context (table : Instance -> T) (ids : nat -> string) (here : nat -> Z).

(** How often the work of the request was started by attempt [j]. *)
Definition attempt_starts (j : nat) : Z :=
  match forwards_to (env j) (decision ME (env j) kind continuation) with
  | Some i => starts (table i) (ids j)
  | None => match decision ME (env j) kind continuation with ServeLocally => here j | _ => 0 end
  end.

(** What the answers of attempt [j] mean.  The app is called once, and its 421 with
    [x-gateway-reroute] comes before any work.  A connection that failed carried no
    request, the HTTP client sends a request once, an answer is the answer to it, and a
    "refused" is the verdict of the instance. *)
Record exchanged (j : nat) : Prop := {
  ex_here : 0 <= here j <= 1;
  ex_reroute : (guarded false (app (env j)).1).2 = true -> here j = 0;
  ex_sent i : forwards_to (env j) (decision ME (env j) kind continuation) = Some i ->
    match sent (env j) i with
    | NotConnected => deliveries (table i) (ids j) = 0
    | SendBroken r => settled_refused r = true -> declared_refused (table i) (ids j)
    | Responded status hs _ _ =>
        (status =? 421) && has_header REROUTE hs = true ->
        deliveries (table i) (ids j) <= 1 /\ turned_away (table i) (ids j)
    | ClientLeft => True
    end;
}.

Lemma attempt_starts_bounds j : exchanged j -> 0 <= attempt_starts j <= 1.
Proof.
  intros Hx. unfold attempt_starts. destruct (forwards_to _ _) as [i|].
  - split; [apply starts_nonneg|apply starts_once].
  - pose proof (ex_here _ Hx). destruct (decision _ _ _ _); lia.
Qed.

(** A failed attempt that is known not to have run started nothing. *)
Lemma not_run_starts_nothing j :
  exchanged j -> provably_not_run (env j) (decision ME (env j) kind continuation) ->
  attempt_starts j = 0.
Proof.
  intros Hx Hno. unfold attempt_starts, provably_not_run in *.
  pose proof (ex_sent _ Hx) as Hs. destruct (forwards_to _ _) as [i|].
  - specialize (Hs i eq_refl). destruct (sent (env j) i) as [| |r|status hs cs e]; [|done|..].
    + pose proof (starts_delivered (table i) (ids j)). pose proof (starts_nonneg (table i) (ids j)). lia.
    + by apply refused_idle, Hs.
    + destruct (Hs Hno). by apply turned_away_idle.
  - destruct (decision _ _ _ _); try done. by apply (ex_reroute _ Hx).
Qed.

(** The work started over the first [n] attempts. *)
Definition total_starts (n : nat) : Z := foldr (fun j z => attempt_starts j + z) 0 (seq 0 n).

Lemma total_starts_S n : total_starts (S n) = total_starts n + attempt_starts n.
Proof.
  unfold total_starts. rewrite seq_S, foldr_app. simpl.
  induction (seq 0 n) as [|x l IH]; simpl; lia.
Qed.

Lemma total_starts_zero n : (forall j, (j < n)%nat -> attempt_starts j = 0) -> total_starts n = 0.
Proof.
  induction n as [|n IH]; intros Hz; [done|]. rewrite total_starts_S, IH by auto with lia.
  by rewrite Hz by lia.
Qed.

Lemma loop_starts_once fuel clock deadline r :
  (forall j, (j < attempts r)%nat -> exchanged j) ->
  route_loop json_dumps ME fuel env clock deadline kind continuation 0 BACKOFF_START = Some r ->
  0 <= total_starts (attempts r) <= 1
  /\ forall j, (S j < attempts r)%nat -> attempt_starts j = 0.
Proof.
  intros Hx Hr. destruct (loop_attempts _ _ _ _ _ _ _ _ _ _ _ Hr) as [Hpos Hj].
  assert (forall j, (S j < attempts r)%nat -> attempt_starts j = 0) as Hno.
  { intros j Hlt. destruct (Hj j) as (o & ms & E & H1 & H2); [lia|lia|].
    apply not_run_starts_nothing; [apply Hx; lia|]. by eapply retried_not_run. }
  split; [|done]. destruct (attempts r) as [|n]; [lia|].
  rewrite total_starts_S, total_starts_zero by (intros; apply Hno; lia).
  pose proof (attempt_starts_bounds n (Hx n ltac:(lia))). lia.
Qed.
End sender.

(** ** The ledger keeps the interface *)

(** A run of the ledger of an instance, and the dispatches its app answered with a 421
    of its own before any work. *)
Record LedgerRun := {
  lr_boot : string;
  lr_window : Z;
  lr_retention : Z;
  lr_log : list Call;
  lr_entries : Entries;
  lr_rerouted : string -> bool;
  lr_runs : runs lr_boot lr_window lr_retention lr_log lr_entries;
  lr_fit : windows_fit lr_window lr_retention;
}.

Definition is_delivery (id : string) (c : Call) : bool :=
  match op c with OAdmit id' => bool_decide (id = id') | _ => false end.
Definition is_admission (id : string) (c : Call) : bool :=
  is_delivery id c && match answer c with AAdmit (Ok true) => true | _ => false end.

(** A settle of the id was answered "refused", within the retention period of the time
    it was issued, and no call of the id came before that time (but for the skew). *)
Definition refused_in_time (r : LedgerRun) (id : string) : Prop :=
  exists c issued, c ∈ lr_log r /\ settled id Refused c /\
    parse_dispatch_id id = Some (lr_boot r, issued) /\ timely id issued (lr_log r) /\
    at_ c + FUTURE_SKEW_MS * MS <= issued * MS + RETENTION (lr_window r) (lr_retention r) * SECOND.

#[export] Instance ledger_dispatch : DispatchTable LedgerRun := {
  deliveries r id := countb (is_delivery id) (lr_log r);
  starts r id := if lr_rerouted r id then 0 else countb (is_admission id) (lr_log r);
  turned_away r id := lr_rerouted r id = true \/
    exists c, c ∈ lr_log r /\ is_delivery id c = true /\ is_admission id c = false;
  declared_refused := refused_in_time;
}.

Lemma is_admission_spec id c : is_admission id c = true <-> admitted id c.
Proof.
  unfold is_admission, is_delivery, admitted. split.
  - destruct (op c), (answer c) as [[[]|]| |]; rewrite ?andb_false_r; try done.
    intros H. b2p. by subst.
  - intros [-> ->]. by rewrite bool_decide_true.
Qed.

Lemma admissions_le_1 r id : countb (is_admission id) (lr_log r) <= 1.
Proof.
  destruct r as [b w ret log d re Hr Hf]. simpl. clear re.
  assert (forall l1 l2, log = l1 ++ l2 -> countb (is_admission id) l2 <= 1) as H; [|by apply (H [])].
  intros l1 l2. revert l1. induction l2 as [|c l2 IH]; intros l1 ->; simpl; [lia|].
  destruct (is_admission id c) eqn:E; [|apply (IH (l1 ++ [c])); by rewrite <- app_assoc].
  apply is_admission_spec in E. rewrite (countb_all_false _ l2); [lia|].
  intros c' Hc'. apply not_true_iff_false. rewrite is_admission_spec.
  by apply (admission_is_final b w ret l1 c l2 d id).
Qed.

(** A delivery that is not an admission, when it is the only one. *)
Lemma only_delivery {A} (p q : A -> bool) l c :
  (forall x, q x = true -> p x = true) -> countb p l <= 1 -> c ∈ l -> p c = true -> q c = false ->
  countb q l = 0.
Proof.
  intros Hpq Hle (l1 & l2 & ->)%list_elem_of_split Hp Hq.
  rewrite countb_app in *. simpl in *. rewrite Hp in Hle. rewrite Hq.
  pose proof (countb_nonneg p l1). pose proof (countb_nonneg p l2).
  pose proof (countb_nonneg q l1). pose proof (countb_nonneg q l2).
  pose proof (countb_le q p l1 Hpq). pose proof (countb_le q p l2 Hpq). lia.
Qed.

#[export] Instance ledger_dispatch_laws : DispatchLaws LedgerRun.
Proof.
  split; simpl; intros r id; pose proof (countb_nonneg (is_admission id) (lr_log r)).
  - by destruct (lr_rerouted r id).
  - pose proof (admissions_le_1 r id). destruct (lr_rerouted r id); lia.
  - assert (countb (is_admission id) (lr_log r) <= countb (is_delivery id) (lr_log r)).
    { apply countb_le. by intros c [? _]%andb_true_iff. }
    destruct (lr_rerouted r id); lia.
  - intros Hle [->|(c & Hc & Hd & Ha)]; [done|]. destruct (lr_rerouted r id); [done|].
    eapply only_delivery; [|done..]. by intros x [? _]%andb_true_iff.
  - intros (c & issued & Hc & Hs & Hp & Ht & Hle). destruct (lr_rerouted r id); [done|].
    apply countb_all_false. intros c' Hc'. apply not_true_iff_false. rewrite is_admission_spec.
    apply (refusal_is_final (lr_boot r) (lr_window r) (lr_retention r) c c' (lr_log r)
      (lr_entries r) id issued); try done; [apply lr_fit|apply lr_runs].
Qed.

(** ** Over the ledgers *)

(** C4. Across the instances a request's work is started at most once, however often the
    loop decides again: the attempts that are repeated started nothing, here or at the
    instance they were forwarded to, where the ledger takes each dispatch once and settles
    it for good.  The ledgers may be in any run ([LedgerRun]: copies, late deliveries, other
    senders) whose acceptance window fits into the retention ([windows_fit], as for every
    window of 2 s or more), and the exchanges are taken at their word ([exchanged]): a
    connection that failed carried no request, a 421 with [x-gateway-reroute] answers the only
    delivery of its dispatch id, by the ledger or by the app before any work, and a "refused"
    comes from the ledger in time. *)
Theorem request_starts_at_most_once json_dumps ME env kind continuation
    (table : Instance -> LedgerRun) ids here fuel clock deadline r :
  (forall j, (j < attempts r)%nat -> exchanged ME env kind continuation table ids here j) ->
  route_loop json_dumps ME fuel env clock deadline kind continuation 0 BACKOFF_START = Some r ->
  0 <= total_starts ME env kind continuation table ids here (attempts r) <= 1
  /\ forall j, (S j < attempts r)%nat -> attempt_starts ME env kind continuation table ids here j = 0.
Proof. apply loop_starts_once. Qed.

(** ** A concrete exchange *)

(** The first forward reaches green long after its id was issued and is turned away; the
    second attempt's id is admitted and the app runs. *)
Definition first_id : string := String.append "g1.1000." demo_rand.
Definition second_id : string := String.append "g1.30000." demo_rand.

Definition green_ops : list (Z * Op) :=
  [(20000000, OAdmit first_id); (30000000, OAdmit second_id); (31000000, OFinish second_id true)].

Definition green_run : LedgerRun := {|
  lr_boot := "g1"; lr_window := 10; lr_retention := 600;
  lr_log := (exec "g1" 10 600 green_ops [] []).1;
  lr_entries := (exec "g1" 10 600 green_ops [] []).2;
  lr_rerouted := fun _ => false;
  lr_runs := exec_runs "g1" 10 600 green_ops eq_refl;
  lr_fit := windows_fit_2 10 600 ltac:(lia);
|}.

Definition demo_exchange (j : nat) : Env :=
  match j with
  | O => demo_env (Responded 421 [(REROUTE, "1")] [] StreamComplete)
  | _ => demo_env (Responded 200 [] ["data"] StreamComplete)
  end.

Definition demo_ids (j : nat) : string := match j with O => first_id | _ => second_id end.

Lemma request_starts_at_most_once_witness :
  exists r, route_loop demo_dumps "blue" 5 demo_exchange demo_clock 10000000 New false 0 BACKOFF_START
      = Some r /\ attempts r = 2%nat
    /\ total_starts "blue" demo_exchange New false (fun _ => green_run) demo_ids (fun _ => 0) 2 = 1
    /\ attempt_starts "blue" demo_exchange New false (fun _ => green_run) demo_ids (fun _ => 0) 0 = 0.
Proof.
  eassert (route_loop demo_dumps "blue" 5 demo_exchange demo_clock 10000000 New false 0 BACKOFF_START
    = Some _) as E by (vm_compute; reflexivity).
  eexists. split; [exact E|]. split; [reflexivity|]. split; [vm_compute; reflexivity|].
  refine (proj2 (request_starts_at_most_once demo_dumps "blue" demo_exchange New false
    (fun _ => green_run) demo_ids (fun _ => 0) 5 demo_clock 10000000 _ _ E) 0%nat _); [|simpl; lia].
  intros j Hj. assert (j = 0%nat \/ j = 1%nat) as [-> | ->] by (simpl in Hj; lia).
  - split; [lia|done|]. intros i Hi. vm_compute in Hi. injection Hi as <-.
    intros _. split; [vm_compute; discriminate|].
    right. exists (mkCall 20000000 (OAdmit first_id) (AAdmit (Ok false))).
    split; [vm_compute; repeat constructor|]. split; vm_compute; reflexivity.
  - split; [lia|done|]. intros i Hi. vm_compute in Hi. injection Hi as <-.
    intros Hm. vm_compute in Hm. discriminate Hm.
Defined.
