(* ===== verification/Subscription.v ===== *)
(** One subscriber's bounded view of an app-server transport
    ([src/src/backends/appserver/transport.py], [Subscription]).

    The queue is the list of the items that wait, oldest first.  Requests and interactions
    are named by their number in the transport ([AppServer]). *)

From S2P Require Import Prelude Json.

(** What is fanned out to subscribers ([SubscriberItem]); the generation every item
    carries is the transport's. *)
Inductive Item :=
| Notification (method : string) (params : Json)
| Interaction (occurrence : nat)
| TerminalEvent (reason : string)
| SubscriberOverflow (pending dropped_deltas : Z)
| OrphanedResponse (request : nat) (outcome : result Json Json)
| AmbiguousRequest (request : nat) (terminal_reason : string).

(** [s.endswith(suffix)] *)
Fixpoint ends_with (s suffix : string) : bool :=
  bool_decide (s = suffix) ||
  match s with
  | EmptyString => false
  | String _ s => ends_with s suffix
  end.

(** [is_best_effort(item)] *)
Definition is_best_effort (item : Item) : bool :=
  match item with
  | Notification method _ => ends_with method "Delta" || ends_with method "/delta"
  | _ => false
  end.

Record Subscription := MkSub {
  max_pending : Z;
  hard_limit : Z;
  dropped_deltas : Z;
  disconnected : bool;
  queue : list Item;
}.

Definition new_subscription (max_pending hard_limit : Z) : Subscription :=
  MkSub max_pending hard_limit 0 false [].

Definition put (item : Item) (s : Subscription) : Subscription :=
  MkSub (max_pending s) (hard_limit s) (dropped_deltas s) (disconnected s) (queue s ++ [item]).

Definition drop_delta (s : Subscription) : Subscription :=
  MkSub (max_pending s) (hard_limit s) (dropped_deltas s + 1) (disconnected s) (queue s).

Definition disconnect (s : Subscription) : Subscription :=
  MkSub (max_pending s) (hard_limit s) (dropped_deltas s) true (queue s).

(** [_offer(item)] *)
Definition _offer (item : Item) (s : Subscription) : Subscription :=
  if disconnected s then s
  else
    let pending := Z.of_nat (length (queue s)) in
    if is_best_effort item then
      if max_pending s <=? pending then drop_delta s else put item s
    else if hard_limit s <=? pending
    then put (SubscriberOverflow pending (dropped_deltas s)) (disconnect s)
    else put item s.

(** [get_nowait()]: [None] is [QueueEmpty]. *)
Definition get_nowait (s : Subscription) : option (Item * Subscription) :=
  match queue s with
  | [] => None
  | item :: rest =>
      Some (item, MkSub (max_pending s) (hard_limit s) (dropped_deltas s) (disconnected s) rest)
  end.

(** ** A subscriber's history *)

Inductive SubOp := Offer (item : Item) | Get.

Record Seen := MkSeen {
  sub : Subscription;
  consumed : list Item;
  offered : list Item;
}.

Definition sub_step (s : Seen) (op : SubOp) : Seen :=
  match op with
  | Offer item => MkSeen (_offer item (sub s)) (consumed s) (offered s ++ [item])
  | Get =>
      match get_nowait (sub s) with
      | Some (item, sub') => MkSeen sub' (consumed s ++ [item]) (offered s)
      | None => s
      end
  end.

Definition new_seen (mp hl : Z) : Seen := MkSeen (new_subscription mp hl) [] [].

(** Everything put in the queue so far. *)
Definition received (s : Seen) : list Item := consumed s ++ queue (sub s).

Definition lossless (item : Item) : Prop := is_best_effort item = false.
#[export] Instance lossless_dec item : Decision (lossless item).
Proof. unfold lossless. apply _. Defined.

(** [got] is [sent] in order, less deltas: [d] of them. *)
Definition all_but_deltas (got sent : list Item) (d : Z) : Prop :=
  got `sublist_of` sent /\ filter lossless got = filter lossless sent /\
  Z.of_nat (length sent) = Z.of_nat (length got) + d.

Lemma all_but_deltas_put got sent d item :
  all_but_deltas got sent d -> all_but_deltas (got ++ [item]) (sent ++ [item]) d.
Proof.
  intros (H1 & H2 & H3). split_and!.
  - by apply sublist_app.
  - by rewrite !filter_app, H2.
  - rewrite !length_app. simpl. lia.
Qed.

Lemma all_but_deltas_drop got sent d item :
  is_best_effort item = true -> all_but_deltas got sent d ->
  all_but_deltas got (sent ++ [item]) (d + 1).
Proof.
  intros Hb (H1 & H2 & H3). split_and!.
  - by apply sublist_inserts_r.
  - rewrite filter_app, H2. rewrite filter_cons_False by (unfold lossless; congruence).
    by rewrite filter_nil, app_nil_r.
  - rewrite length_app. simpl. lia.
Qed.

(** How long the queue may get. *)
Definition queue_bound (s : Subscription) : Z := Z.max 0 (Z.max (max_pending s) (hard_limit s)).

Record seen_ok (s : Seen) : Prop := {
  sn_bound : Z.of_nat (length (queue (sub s)))
    <= queue_bound (sub s) + (if disconnected (sub s) then 1 else 0);
  sn_live : disconnected (sub s) = false ->
    all_but_deltas (received s) (offered s) (dropped_deltas (sub s));
  sn_cut : disconnected (sub s) = true ->
    exists got pending sent rest item, received s = got ++ [SubscriberOverflow pending (dropped_deltas (sub s))]
      /\ offered s = sent ++ item :: rest /\ lossless item
      /\ all_but_deltas got sent (dropped_deltas (sub s));
}.

Lemma new_seen_ok mp hl : seen_ok (new_seen mp hl).
Proof.
  split; unfold queue_bound; simpl; [lia|intros _|done]. by split_and!.
Qed.

Lemma offer_ok s item : seen_ok s -> seen_ok (sub_step s (Offer item)).
Proof.
  intros [Hb Hl Hc]. unfold sub_step, _offer. destruct (disconnected (sub s)) eqn:Ed.
  { split; simpl; rewrite Ed in *; [done|done|]. intros _.
    destruct (Hc eq_refl) as (got & p & sent & rest & x & E1 & E2 & E3 & E4).
    exists got, p, sent, (rest ++ [item]), x. split_and!; try done. by rewrite E2, <- app_assoc. }
  specialize (Hl eq_refl). unfold received, queue_bound in *.
  destruct (is_best_effort item) eqn:Eb; [destruct (max_pending (sub s) <=? _) eqn:Em
    |destruct (hard_limit (sub s) <=? _) eqn:Eh]; b2p; split; unfold received, queue_bound; simpl;
    rewrite ?Ed, ?length_app; simpl; try done; try lia; intros _.
  - by apply all_but_deltas_drop.
  - rewrite app_assoc. by apply all_but_deltas_put.
  - eexists _, _, (offered s), [], item. split_and!; [by rewrite app_assoc|done..].
  - rewrite app_assoc. by apply all_but_deltas_put.
Qed.

Lemma get_ok s : seen_ok s -> seen_ok (sub_step s Get).
Proof.
  intros [Hb Hl Hc]. unfold sub_step, get_nowait.
  destruct (queue (sub s)) as [|item rest] eqn:Eq; [split; by rewrite ?Eq|].
  unfold received, queue_bound in *. rewrite Eq in *.
  split; unfold received, queue_bound; simpl in *; rewrite <- ?app_assoc; try done. lia.
Qed.

Lemma sub_run_ok ops : forall s, seen_ok s -> seen_ok (foldl sub_step s ops).
Proof.
  induction ops as [|[item|] ops IH]; intros s Hs; [done|..]; cbn [foldl]; apply IH;
    [by apply offer_ok|by apply get_ok].
Qed.

Lemma sub_run_limits ops : forall s,
  max_pending (sub (foldl sub_step s ops)) = max_pending (sub s) /\
  hard_limit (sub (foldl sub_step s ops)) = hard_limit (sub s).
Proof.
  induction ops as [|op ops IH]; intros s; [done|]. cbn [foldl].
  destruct (IH (sub_step s op)) as [-> ->].
  destruct op; simpl; [|unfold get_nowait; by destruct (queue _)].
  unfold _offer. by repeat case_match.
Qed.

(** A subscriber's queue is bounded and what it misses is accounted for.  At most
    [max(max_pending, hard_limit)] items ever wait, one more when it is cut off.  Until
    then it gets what was offered in order, every item that is not a streaming delta
    included, and [dropped_deltas] is the number of deltas it did not get; once cut off
    it has one [SubscriberOverflow] with that count, last, and gets nothing more. *)
Theorem subscriber_bounded_and_ordered mp hl ops :
  let s := foldl sub_step (new_seen mp hl) ops in
  Z.of_nat (length (queue (sub s))) <= Z.max 0 (Z.max mp hl) + (if disconnected (sub s) then 1 else 0)
  /\ if disconnected (sub s) then
       exists got pending sent rest item,
         received s = got ++ [SubscriberOverflow pending (dropped_deltas (sub s))]
         /\ offered s = sent ++ item :: rest /\ lossless item
         /\ all_but_deltas got sent (dropped_deltas (sub s))
     else all_but_deltas (received s) (offered s) (dropped_deltas (sub s)).
Proof.
  intros s. destruct (sub_run_ok ops (new_seen mp hl) (new_seen_ok mp hl)) as [Hb Hl Hc].
  destruct (sub_run_limits ops (new_seen mp hl)) as [E1 E2]. unfold queue_bound in Hb.
  rewrite E1, E2 in Hb. fold s in Hb, Hl, Hc. split; [exact Hb|].
  destruct (disconnected (sub s)); auto.
Qed.

(** Two deltas and two items for a subscriber that takes nothing: a delta is dropped, the
    second item cuts it off. *)
Example slow_subscriber :
  let d := Offer (Notification "item/agentMessage/delta" JNull) in
  let i := Offer (Notification "turn/completed" JNull) in
  let s := foldl sub_step (new_seen 1 2) [d; d; i; i; d] in
  received s = [Notification "item/agentMessage/delta" JNull; Notification "turn/completed" JNull;
                SubscriberOverflow 2 1].
Proof. reflexivity. Qed.
