(* ===== verification/AppServer.v ===== *)
(** One app-server process behind its stdio transport
    ([src/src/backends/appserver/transport.py], [AppServerTransport]).

    The tasks of the transport are asyncio tasks, so what runs between two [await]s is one
    event of [exec]: the caller of a request, the committed write it hands its line to, the
    commit of an interaction's answer, the one reader, the teardown.  Any task that is
    ready may run next.  A request, an occurrence of a server request and a line written
    for neither are numbered as they are made; a number stands for the [uuid4] request id
    or interaction token.  A task that awaits [shield(write)] goes on only after the write
    it made has run up to its first [await], because asyncio runs what it schedules in
    order.

    Deadlines and bounds on waiting are events that may come at any time.  The process is
    the events of its stdout, whatever it writes; [answered] records which requests its
    lines answer.  Handlers of interactions are
    callers of [answer] like any other.  Signals, process groups and stderr are left out. *)

From stdpp Require Import sorting.
From S2P Require Import Prelude Json Subscription.

(** ** Data *)

(** The keys of the registry: a JSON value as a Python dictionary key, where numbers that
    are equal are one key; a list or an object is unhashable. *)
Inductive Key := KNull | KStr (s : string) | KNum (num den : Z).
#[export] Instance Key_eq_dec : EqDecision Key.
Proof. solve_decision. Defined.

Definition key_of (v : Json) : option Key :=
  match v with
  | JNull => Some KNull
  | JStr s => Some (KStr s)
  | JBool b => Some (KNum (if b then 1 else 0) 1)
  | JInt n => Some (KNum n 1)
  | JFloat m e =>
      if 0 <=? e then Some (KNum (m * 10 ^ e) 1)
      else let g := Z.gcd m (10 ^ (- e)) in Some (KNum (m / g) (10 ^ (- e) / g))
  | JArr _ | JObj _ => None
  end.

(** A call of [_write], by what it writes for. *)
Inductive Owner := OReq (r : nat) | OAns (k : nat) | ONote (n : nat).
#[export] Instance Owner_eq_dec : EqDecision Owner.
Proof. solve_decision. Defined.

Inductive WriteEnd := WOk | WLost (closing : bool) | WStale | WLeft.
#[export] Instance WriteEnd_eq_dec : EqDecision WriteEnd.
Proof. solve_decision. Defined.

(** Where a call of [_write] is: not called, queued for the writer's lock, granted the
    lock, its committed write scheduled, that write draining, over. *)
Inductive Phase := Idle | Queued | Granted | Spawned | Draining | Ended (e : WriteEnd).
#[export] Instance Phase_eq_dec : EqDecision Phase.
Proof. solve_decision. Defined.

(** The future a request waits on. *)
Inductive Future := FPending | FResult (v : Json) | FRpcError (e : Json) | FLost | FCancelled.

(** How a call of [request] ended. *)
Inductive Outcome :=
| Returned (v : Json)
| RaisedRpc (e : Json)
| RuntimeLost
| RequestOutcomeUnknown
| TimeoutError
| CancelledError
| CommittedRequestCancelled.

(** Where the caller of [request] is: in [_write], in [wait_for(future)], gone. *)
Inductive Caller := Writing | Waiting | Gone (o : Outcome).

(** Why the caller is about to leave. *)
Inductive Leave := LCancel | LTimeout.
#[export] Instance Leave_eq_dec : EqDecision Leave.
Proof. solve_decision. Defined.

Record Req := MkReq {
  rq_write : Phase;
  rq_caller : Caller;
  rq_leaving : option Leave;
  rq_future : Future;
  rq_committed : bool;
}.

(** [PendingInteraction.state] and [invalidation_reason] *)
Inductive IState := Pending | Resolving | Answered | Failed | Resolved | Invalidated (owner_closed : bool).
#[export] Instance IState_eq_dec : EqDecision IState.
Proof. solve_decision. Defined.

Record Inter := MkInter {
  in_key : Key;
  in_state : IState;
  in_wire_committed : bool;
  in_resolved_after_commit : bool;
  in_final : bool;      (* the accepted answer is a result, not an error *)
  in_write : Phase;
}.

(** Whether [close()] was called, ran its first section, is over. *)
Inductive Stage := Open | Closing | Retired | Closed.
#[export] Instance Stage_eq_dec : EqDecision Stage.
Proof. solve_decision. Defined.

Record T := MkT {
  terminal : option string;
  stage : Stage;
  reader : bool;
  lock : option Owner;
  requests : list Req;
  orphaned : list nat;
  delivered : list nat;
  inters : list Inter;
  registry : odict Key nat;
  notes : list Phase;
  subs : list Subscription;
  answered : list nat;
  wire : list Owner;
  fanned : list Item;
}.

Definition init : T := MkT None Open true None [] [] [] [] [] [] [] [] [] [].

(** ** Writing one field *)

Definition with_terminal x s := MkT x (stage s) (reader s) (lock s) (requests s) (orphaned s)
  (delivered s) (inters s) (registry s) (notes s) (subs s) (answered s) (wire s) (fanned s).
Definition with_stage x s := MkT (terminal s) x (reader s) (lock s) (requests s) (orphaned s)
  (delivered s) (inters s) (registry s) (notes s) (subs s) (answered s) (wire s) (fanned s).
Definition with_reader x s := MkT (terminal s) (stage s) x (lock s) (requests s) (orphaned s)
  (delivered s) (inters s) (registry s) (notes s) (subs s) (answered s) (wire s) (fanned s).
Definition with_lock x s := MkT (terminal s) (stage s) (reader s) x (requests s) (orphaned s)
  (delivered s) (inters s) (registry s) (notes s) (subs s) (answered s) (wire s) (fanned s).
Definition with_requests x s := MkT (terminal s) (stage s) (reader s) (lock s) x (orphaned s)
  (delivered s) (inters s) (registry s) (notes s) (subs s) (answered s) (wire s) (fanned s).
Definition with_orphaned x s := MkT (terminal s) (stage s) (reader s) (lock s) (requests s) x
  (delivered s) (inters s) (registry s) (notes s) (subs s) (answered s) (wire s) (fanned s).
Definition with_delivered x s := MkT (terminal s) (stage s) (reader s) (lock s) (requests s) (orphaned s)
  x (inters s) (registry s) (notes s) (subs s) (answered s) (wire s) (fanned s).
Definition with_inters x s := MkT (terminal s) (stage s) (reader s) (lock s) (requests s) (orphaned s)
  (delivered s) x (registry s) (notes s) (subs s) (answered s) (wire s) (fanned s).
Definition with_registry x s := MkT (terminal s) (stage s) (reader s) (lock s) (requests s) (orphaned s)
  (delivered s) (inters s) x (notes s) (subs s) (answered s) (wire s) (fanned s).
Definition with_notes x s := MkT (terminal s) (stage s) (reader s) (lock s) (requests s) (orphaned s)
  (delivered s) (inters s) (registry s) x (subs s) (answered s) (wire s) (fanned s).
Definition with_subs x s := MkT (terminal s) (stage s) (reader s) (lock s) (requests s) (orphaned s)
  (delivered s) (inters s) (registry s) (notes s) x (answered s) (wire s) (fanned s).
Definition with_answered x s := MkT (terminal s) (stage s) (reader s) (lock s) (requests s) (orphaned s)
  (delivered s) (inters s) (registry s) (notes s) (subs s) x (wire s) (fanned s).
Definition with_wire x s := MkT (terminal s) (stage s) (reader s) (lock s) (requests s) (orphaned s)
  (delivered s) (inters s) (registry s) (notes s) (subs s) (answered s) x (fanned s).
Definition with_fanned x s := MkT (terminal s) (stage s) (reader s) (lock s) (requests s) (orphaned s)
  (delivered s) (inters s) (registry s) (notes s) (subs s) (answered s) (wire s) x.

Definition rq_with_write p q := MkReq p (rq_caller q) (rq_leaving q) (rq_future q) (rq_committed q).
Definition rq_with_caller c q := MkReq (rq_write q) c (rq_leaving q) (rq_future q) (rq_committed q).
Definition rq_with_leaving l q := MkReq (rq_write q) (rq_caller q) l (rq_future q) (rq_committed q).
Definition rq_with_future f q := MkReq (rq_write q) (rq_caller q) (rq_leaving q) f (rq_committed q).
Definition rq_commit q := MkReq (rq_write q) (rq_caller q) (rq_leaving q) (rq_future q) true.

Definition in_with_state x i := MkInter (in_key i) x (in_wire_committed i)
  (in_resolved_after_commit i) (in_final i) (in_write i).
Definition in_commit i := MkInter (in_key i) (in_state i) true
  (in_resolved_after_commit i) (in_final i) (in_write i).
Definition in_late i := MkInter (in_key i) (in_state i) (in_wire_committed i)
  true (in_final i) (in_write i).
Definition in_with_final x i := MkInter (in_key i) (in_state i) (in_wire_committed i)
  (in_resolved_after_commit i) x (in_write i).
Definition in_with_write x i := MkInter (in_key i) (in_state i) (in_wire_committed i)
  (in_resolved_after_commit i) (in_final i) x.

Definition upd_req (r : nat) (f : Req -> Req) (s : T) : T := with_requests (alter f r (requests s)) s.
Definition upd_inter (k : nat) (f : Inter -> Inter) (s : T) : T := with_inters (alter f k (inters s)) s.

(** ** Fanning out *)

(** [_fanout(item)]: a subscription that is cut off is forgotten. *)
Definition _fanout (item : Item) (s : T) : T :=
  with_subs (filter (fun b => disconnected b = false) (map (_offer item) (subs s)))
    (with_fanned (fanned s ++ [item]) s).

(** [subscribe(max_pending, hard_limit)] *)
Definition subscribe (mp : Z) (hl : option Z) (s : T) : T :=
  let b := new_subscription mp (default (4 * mp) hl) in
  let b := match terminal s with Some reason => _offer (TerminalEvent reason) b | None => b end in
  with_subs (subs s ++ [b]) s.

(** ** Terminalization *)

Definition is_closing (s : T) : bool := negb (bool_decide (stage s = Open)).

(** [_raise_if_lost()]: whether it raises, and whether with the reason "closing". *)
Definition raise_if_lost (s : T) : option bool :=
  match terminal s with
  | Some _ => Some false
  | None => if is_closing s then Some true else None
  end.

(** The waiter of a request that has not got its result. *)
Definition lose (q : Req) : Req :=
  match rq_caller q, rq_future q with
  | Gone _, _ => q
  | _, FPending => rq_with_future FLost q
  | _, _ => q
  end.

Definition is_open (i : Inter) : bool := bool_decide (in_state i = Pending).

(** [_retire_unsent_answers(reason)] for one interaction. *)
Definition retire (owner_closed : bool) (i : Inter) : Inter :=
  if bool_decide (in_state i = Resolving) && negb (in_wire_committed i)
  then in_with_state (Invalidated owner_closed) i else i.

Definition _retire_unsent_answers (owner_closed : bool) (s : T) : T :=
  with_inters (map (retire owner_closed) (inters s)) s.

Definition invalidate_open (i : Inter) : Inter :=
  if is_open i then in_with_state (Invalidated false) i else i.

Definition fan_ambiguous (reason : string) (s : T) (r : nat) : T := _fanout (AmbiguousRequest r reason) s.

(** The process leaving after [close()] is no loss to be diagnosed. *)
Definition final_reason (reason : string) (s : T) : string :=
  if is_closing s && bool_decide (reason ∈ ["eof"; "exit"; "write_failed"]) then "closed" else reason.

(** [_terminalize(reason)] *)
Definition _terminalize (reason : string) (s : T) : T :=
  match terminal s with
  | Some _ => s
  | None =>
      let reason := final_reason reason s in
      let s := with_terminal (Some reason) s in
      let s := with_requests (map lose (requests s)) s in
      let s := with_inters (map invalidate_open (inters s)) s in
      let s := _retire_unsent_answers false s in
      let s := with_orphaned [] (foldl (fan_ambiguous reason) s (orphaned s)) in
      _fanout (TerminalEvent reason) s
  end.

(** ** Requests *)

Definition new_req : Req := MkReq Queued Writing None FPending false.

(** [request()] up to its first [await]; nothing happens when it raises at once. *)
Definition request (s : T) : T :=
  match raise_if_lost s with
  | Some _ => s
  | None => with_requests (requests s ++ [new_req]) s
  end.

(** [notify()], and the refusal of a server request: a line of its own. *)
Definition spawn_write (s : T) : T := with_notes (notes s ++ [Queued]) s.
Definition notify (s : T) : T := match raise_if_lost s with Some _ => s | None => spawn_write s end.

Definition is_gone (q : Req) : bool := match rq_caller q with Gone _ => true | _ => false end.
Definition is_waiting (q : Req) : bool := match rq_caller q with Waiting => true | _ => false end.
Definition is_writing (q : Req) : bool := match rq_caller q with Writing => true | _ => false end.
Definition unsettled (q : Req) : bool := match rq_future q with FPending => true | _ => false end.

(** The caller's task is cancelled, or its deadline in [wait_for] expires.  When the
    task awaits the future itself ([sync]) that future is cancelled at once. *)
Definition leave (l : Leave) (sync : bool) (q : Req) : Req :=
  let q := rq_with_leaving (Some l) q in
  if sync && is_waiting q && unsettled q then rq_with_future FCancelled q else q.

(** [_orphan(request_id, method, future)] *)
Definition _orphan (r : nat) (q : Req) (s : T) : T :=
  if bool_decide (r ∈ delivered s) then with_delivered (filter (fun x => x <> r) (delivered s)) s
  else
    match rq_future q with
    | FResult v => _fanout (OrphanedResponse r (Ok v)) s
    | FRpcError e => _fanout (OrphanedResponse r (Err e)) s
    | FLost => _fanout (AmbiguousRequest r (default "lost" (terminal s))) s
    | FPending | FCancelled =>
        match terminal s with
        | Some reason => _fanout (AmbiguousRequest r reason) s
        | None => with_orphaned (orphaned s ++ [r]) s
        end
    end.

Definition gone (r : nat) (o : Outcome) (s : T) : T := upd_req r (rq_with_caller (Gone o)) s.

(** The handlers of [request] for a caller that leaves. *)
Definition depart (r : nat) (q : Req) (l : Leave) (s : T) : T :=
  if rq_committed q then
    gone r (match l with LCancel => CommittedRequestCancelled | LTimeout => TimeoutError end)
      (_orphan r q s)
  else gone r (match l with LCancel => CancelledError | LTimeout => TimeoutError end) s.

(** [wait_for] gives the caller what its future holds: a result that finds the task being
    cancelled is fanned out instead. *)
Definition deliver (r : nat) (q : Req) (s : T) : option T :=
  match rq_future q with
  | FResult v =>
      if bool_decide (rq_leaving q = Some LCancel)
      then Some (gone r CommittedRequestCancelled (_fanout (OrphanedResponse r (Ok v)) s))
      else Some (gone r (Returned v) s)
  | FRpcError e => Some (gone r (RaisedRpc e) s)
  | FLost => Some (gone r (if rq_committed q then RequestOutcomeUnknown else RuntimeLost) s)
  | FPending | FCancelled => None
  end.

(** [_write] returned or raised in the caller; it has no gate that could refuse. *)
Definition written (r : nat) (q : Req) (e : WriteEnd) (s : T) : option T :=
  match e with
  | WOk => Some (upd_req r (rq_with_caller Waiting) s)
  | WLost _ => Some (gone r (if rq_committed q then RequestOutcomeUnknown else RuntimeLost) s)
  | WStale | WLeft => None
  end.

(** ** Writing *)

Definition phase_of (o : Owner) (s : T) : option Phase :=
  match o with
  | OReq r => rq_write <$> requests s !! r
  | OAns k => in_write <$> inters s !! k
  | ONote n => notes s !! n
  end.

Definition set_phase (o : Owner) (p : Phase) (s : T) : T :=
  match o with
  | OReq r => upd_req r (rq_with_write p) s
  | OAns k => upd_inter k (in_with_write p) s
  | ONote n => with_notes (<[n := p]> (notes s)) s
  end.

(** The task that called [_write] is being cancelled. *)
Definition cancelling (o : Owner) (s : T) : bool :=
  match o with
  | OReq r => match requests s !! r with
              | Some q => bool_decide (rq_leaving q = Some LCancel) | None => false end
  | _ => false
  end.

(** A call that left the queue with nothing written. *)
Definition abandon (o : Owner) (e : WriteEnd) (s : T) : T :=
  let s := set_phase o (Ended e) s in
  if bool_decide (lock s = Some o) then with_lock None s else s.

(** The end of a committed write: the writer is released. *)
Definition finish_write (o : Owner) (e : WriteEnd) (s : T) : T :=
  with_lock None (set_phase o (Ended e) s).

(** [before_write]: the gate of an answer's commit. *)
Definition gate (o : Owner) (s : T) : option T :=
  match o with
  | OAns k =>
      match inters s !! k with
      | Some i => if bool_decide (in_state i = Resolving) then Some (upd_inter k in_commit s) else None
      | None => None
      end
  | _ => Some s
  end.

(** [on_committed] *)
Definition mark_committed (o : Owner) (s : T) : T :=
  match o with OReq r => upd_req r rq_commit s | _ => s end.

(** [_committed_write] up to the [await] of [drain()]; [fails]: [stdin.write] raises. *)
Definition start_write (o : Owner) (fails : bool) (s : T) : T :=
  match raise_if_lost s with
  | Some closing => finish_write o (WLost closing) s
  | None =>
      match gate o s with
      | None => finish_write o WStale s
      | Some s =>
          if fails then finish_write o (WLost false) (_terminalize "write_failed" s)
          else set_phase o Draining (mark_committed o (with_wire (wire s ++ [o]) s))
      end
  end.

(** How [drain()] ends: the buffer went down, its deadline passed, it raised. *)
Inductive Drain := Drained | DrainTimeout | DrainBroken.

(** [_committed_write] after [drain()]. *)
Definition end_drain (o : Owner) (d : Drain) (s : T) : T :=
  match d with
  | Drained => finish_write o WOk s
  | DrainTimeout => finish_write o (WLost false) (_terminalize "write_timeout" s)
  | DrainBroken => finish_write o (WLost false) (_terminalize "write_failed" s)
  end.

(** ** Interactions *)

Section transport.
(** The request ids are [str(uuid4())]. *)
Context (generation : Z) (supported : list string) (request_id : nat -> string).

Definition new_inter (k : Key) : Inter := MkInter k Pending false false false Idle.

Definition is_live (i : Inter) : bool :=
  match in_state i with Pending | Resolving => true | _ => false end.

Definition lookup_inter (key : Key) (s : T) : option (nat * Inter) :=
  match dict_get (registry s) key with
  | Some k => match inters s !! k with Some i => Some (k, i) | None => None end
  | None => None
  end.

(** The id is in use: its interaction is pending or resolving. *)
Definition live_id (key : Key) (s : T) : bool :=
  match lookup_inter key s with Some (_, i) => is_live i | None => false end.

(** [_on_server_request(request_id, method, params)]; an unhashable id raises in the
    reader's task and ends it. *)
Definition _on_server_request (id : Json) (method : string) (s : T) : T :=
  match key_of id with
  | None => with_reader false s
  | Some key =>
      if live_id key s then spawn_write s
      else if negb (bool_decide (method ∈ supported)) then spawn_write s
      else
        let k := length (inters s) in
        let s := with_inters (inters s ++ [new_inter key]) s in
        _fanout (Interaction k) (with_registry (dict_set (registry s) key k) s)
  end.

(** [_resolve_interaction] for one interaction. *)
Definition resolve (i : Inter) : Inter :=
  match in_state i with
  | Resolving => if in_wire_committed i then in_late i else in_with_state Resolved i
  | Pending => in_with_state Resolved i
  | Answered | Failed => in_late i
  | Resolved | Invalidated _ => i
  end.

(** [_resolve_interaction(params)], and the notification that follows it. *)
Definition _resolve_interaction (params : Json) (s : T) : T :=
  match key_of (jget_null params "requestId") with
  | None => with_reader false s
  | Some key =>
      let s := match lookup_inter key s with Some (k, _) => upd_inter k resolve s | None => s end in
      _fanout (Notification "serverRequest/resolved" params) s
  end.

(** [_fence(interaction_id, generation, token)] *)
Definition _fence (key : Key) (gen : Z) (token : nat) (s : T) : bool :=
  if is_closing s && bool_decide (terminal s = None) then false
  else match lookup_inter key s with
       | None => false
       | Some (k, i) =>
           bool_decide (token = k) && bool_decide (gen = generation)
           && bool_decide (terminal s = None) && is_open i
       end.

(** [answer] ([final]) and [fail_interaction]: past the fence the commit is queued. *)
Definition answer (key : Key) (gen : Z) (token : nat) (final : bool) (s : T) : T :=
  if _fence key gen token s
  then upd_inter token (fun i => in_with_write Queued (in_with_final final (in_with_state Resolving i))) s
  else s.

(** [_commit_task] after its [_write]. *)
Definition committed (e : WriteEnd) (i : Inter) : Inter :=
  match e with
  | WOk => in_with_state (if in_final i then Answered else Failed) i
  | WLost closing =>
      if bool_decide (in_state i = Resolving) then in_with_state (Invalidated closing) i else i
  | WStale | WLeft => i
  end.

(** ** Responses *)

(** The request whose id is the text of [id]; no text of another JSON value is one. *)
Definition request_named (id : Json) (s : T) : option nat :=
  match id with
  | JStr t => list_find (fun r => request_id r = t) (seq 0 (length (requests s))) ≫= fun p => Some (snd p)
  | _ => None
  end.

(** What a response carries: an error when it has the key. *)
Definition outcome_of (message : Json) : result Json Json :=
  match jget message "error" with
  | Some e => Err e
  | None => Ok (jget_null message "result")
  end.

(** [_on_response(message)] for the request its id names. *)
Definition _on_response (r : nat) (outcome : result Json Json) (s : T) : T :=
  match requests s !! r with
  | None => s
  | Some q =>
      if negb (is_gone q) then
        match rq_future q with
        | FCancelled => with_delivered (r :: delivered s) (_fanout (OrphanedResponse r outcome) s)
        | FPending => upd_req r (rq_with_future (match outcome with Ok v => FResult v | Err e => FRpcError e end)) s
        | _ => s
        end
      else if bool_decide (r ∈ orphaned s)
      then _fanout (OrphanedResponse r outcome) (with_orphaned (filter (fun x => x <> r) (orphaned s)) s)
      else s
  end.

(** The request a message is the response to. *)
Definition responds_to (message : Json) (s : T) : option nat :=
  match jget message "id", jget_null message "method" with
  | Some _, JStr _ => None
  | Some id, _ => request_named id s
  | None, _ => None
  end.

(** [_dispatch(message)] of an object. *)
Definition _dispatch (message : Json) (s : T) : T :=
  match jget message "id", jget_null message "method" with
  | Some id, JStr method => _on_server_request id method s
  | None, JStr method =>
      if bool_decide (method = "serverRequest/resolved")
      then _resolve_interaction (jget_null message "params") s
      else _fanout (Notification method (jget_null message "params")) s
  | Some id, _ =>
      match request_named id s with
      | Some r => _on_response r (outcome_of message) s
      | None => s
      end
  | None, _ => _terminalize "protocol_error" s
  end.

(** [_read_stdout] for one line: [None] when it is oversized or does not parse. *)
Definition read_line (line : option Json) (s : T) : T :=
  match line with
  | Some (JObj d) => _dispatch (JObj d) s
  | _ => with_reader false (_terminalize "protocol_error" s)
  end.

(** What the process has answered, each response one entry ([answered] is read by no code). *)
Definition note_answered (line : option Json) (s : T) : T :=
  match line ≫= fun v => responds_to v s with
  | Some r => with_answered (r :: answered s) s
  | None => s
  end.

(** ** Events *)

Inductive Event :=
| ERequest                                   (* request() *)
| ENotify                                    (* notify() *)
| ECancel (r : nat) (sync : bool)            (* the caller's task is cancelled *)
| EExpire (r : nat) (sync : bool)            (* its deadline in wait_for expires *)
| EGrant (o : Owner)                         (* the writer's lock is granted *)
| EProceed (o : Owner)                       (* _write goes on with the lock *)
| EQueueLost (o : Owner)                     (* _write sees the loss in the queue *)
| EQueueTimeout (r : nat)                    (* the caller's deadline passes in the queue *)
| EQueueHealth (o : Owner)                   (* the holder of the lock exceeds write_timeout_s *)
| EQueueLeave (o : Owner)                    (* the task that called _write is cancelled there *)
| EStartWrite (o : Owner) (fails : bool)
| EEndDrain (o : Owner) (d : Drain)
| EWritten (r : nat)
| EDeliver (r : nat)
| EDepart (r : nat)
| EAnswer (key : Key) (gen : Z) (token : nat) (final : bool)
| ECommitted (k : nat)
| ELine (line : option Json)                 (* the reader takes a line *)
| EEof (exited : bool)
| EExit                                      (* the exit watcher gives up on EOF *)
| EClose                                     (* close() *)
| ECloseRetire                               (* the first section of the teardown *)
| ECloseEnd                                  (* the process is down *)
| ESubscribe (mp : Z) (hl : option Z)
| EUnsubscribe (b : nat)
| EGet (b : nat).

Definition holds (o : Owner) (p : Phase) (s : T) : bool := bool_decide (phase_of o s = Some p).

Definition exec (e : Event) (s : T) : option T :=
  match e with
  | ERequest => Some (request s)
  | ENotify => Some (notify s)
  | ECancel r sync =>
      match requests s !! r with
      | Some q => if is_gone q then None else Some (upd_req r (leave LCancel sync) s)
      | None => None
      end
  | EExpire r sync =>
      match requests s !! r with
      | Some q => if is_waiting q && bool_decide (rq_leaving q = None)
                  then Some (upd_req r (leave LTimeout sync) s) else None
      | None => None
      end
  | EGrant o =>
      if bool_decide (lock s = None) && holds o Queued s
      then Some (with_lock (Some o) (set_phase o Granted s)) else None
  | EProceed o =>
      if holds o Granted s && negb (cancelling o s) then Some (set_phase o Spawned s) else None
  | EQueueLost o =>
      if holds o Queued s && negb (cancelling o s) then
        match terminal s with
        | Some _ => Some (abandon o (WLost false) s)
        | None => None
        end
      else None
  | EQueueTimeout r =>
      if holds (OReq r) Queued s && negb (cancelling (OReq r) s)
      then Some (gone r TimeoutError (abandon (OReq r) WLeft s)) else None
  | EQueueHealth o =>
      match lock s with
      | Some h =>
          if (holds h Spawned s || holds h Draining s) && holds o Queued s && negb (cancelling o s)
          then Some (abandon o (WLost false) (_terminalize "write_timeout" s)) else None
      | None => None
      end
  | EQueueLeave o =>
      if holds o Queued s || holds o Granted s then
        match o with
        | OReq r => if cancelling o s then Some (gone r CancelledError (abandon o WLeft s)) else None
        | OAns _ => if bool_decide (stage s = Retired) then Some (abandon o WLeft s) else None
        | ONote _ => Some (abandon o WLeft s)
        end
      else None
  | EStartWrite o fails => if holds o Spawned s then Some (start_write o fails s) else None
  | EEndDrain o d => if holds o Draining s then Some (end_drain o d s) else None
  | EWritten r =>
      match requests s !! r with
      | Some q =>
          match rq_caller q, rq_write q with
          | Writing, Ended e =>
              if bool_decide (rq_leaving q = Some LCancel) then Some (depart r q LCancel s)
              else written r q e s
          | _, _ => None
          end
      | None => None
      end
  | EDeliver r =>
      match requests s !! r with
      | Some q => if is_waiting q then deliver r q s else None
      | None => None
      end
  | EDepart r =>
      match requests s !! r with
      | Some q =>
          match rq_caller q, rq_leaving q with
          | Waiting, Some l => Some (depart r q l s)
          | Writing, Some LCancel =>
              if bool_decide (rq_write q = Draining) then Some (depart r q LCancel s) else None
          | _, _ => None
          end
      | None => None
      end
  | EAnswer key gen token final => Some (answer key gen token final s)
  | ECommitted k =>
      match inters s !! k with
      | Some i => match in_write i with
                  | Ended e => Some (upd_inter k (fun i => in_with_write Idle (committed e i)) s)
                  | _ => None
                  end
      | None => None
      end
  | ELine line => if reader s then Some (read_line line (note_answered line s)) else None
  | EEof exited =>
      if reader s then Some (with_reader false (_terminalize (if exited then "exit" else "eof") s))
      else None
  | EExit => if bool_decide (stage s = Closed) then None else Some (_terminalize "exit" s)
  | EClose => Some (if is_closing s then s else with_stage Closing s)
  | ECloseRetire =>
      if bool_decide (stage s = Closing)
      then Some (with_stage Retired (_retire_unsent_answers true s)) else None
  | ECloseEnd =>
      if bool_decide (stage s = Retired)
      then Some (with_stage Closed (with_reader false (_terminalize "closed" s))) else None
  | ESubscribe mp hl => Some (subscribe mp hl s)
  | EUnsubscribe b => Some (with_subs (delete b (subs s)) s)
  | EGet b =>
      match subs s !! b with
      | Some x => match get_nowait x with
                  | Some (_, x') => Some (with_subs (<[b := x']> (subs s)) s)
                  | None => None
                  end
      | None => None
      end
  end.

Definition step (s s' : T) : Prop := exists e, exec e s = Some s'.
Definition reachable (s : T) : Prop := rtc step init s.
End transport.

