(* ===== verification/AppServerViews.v ===== *)
(** What one event of an app-server transport ([AppServer]) is for one request, for one
    interaction, for the registry of interactions and for the writer's lock.

    [view r s] is what the transport knows of request [r] in [s], and [exec_views] says that
    an event is a few steps of [vstep] for every request; [iview], [ivstep] and
    [exec_iviews] say it of interactions.  What the steps preserve ([view_ok], [iview_ok])
    and the mutual exclusion of the writers ([lock_ok]) hold of every reachable state
    ([AppServerLaws]). *)

From stdpp Require Import sorting.
From S2P Require Import Prelude Json Subscription AppServer.

(** ** The life of one request

    What the transport knows of request [r], and how one event may change it.  Every event
    of the transport is a few of these steps for every request ([exec_views]). *)

Definition about (r : nat) (item : Item) : bool :=
  match item with
  | OrphanedResponse r' _ | AmbiguousRequest r' _ => bool_decide (r' = r)
  | _ => false
  end.

Definition fans (r : nat) (s : T) : Z := countb (about r) (fanned s).
Definition lines (o : Owner) (s : T) : Z := countb (fun x => bool_decide (x = o)) (wire s).

Record View := MkView {
  v_req : option Req;
  v_fans : Z;           (* outcomes fanned out *)
  v_orphaned : Z;       (* entries in the registry of orphans *)
  v_delivered : bool;   (* a tombstone of a delivered orphan *)
  v_answered : bool;    (* the process has answered *)
  v_lines : Z;          (* lines accepted by the process *)
  v_lost : bool;
}.

Definition view (r : nat) (s : T) : View :=
  MkView (requests s !! r) (fans r s) (countb (fun x => bool_decide (x = r)) (orphaned s))
    (bool_decide (r ∈ delivered s)) (bool_decide (r ∈ answered s)) (lines (OReq r) s)
    (bool_decide (terminal s <> None)).

Definition v_map (f : Req -> Req) (v : View) : View :=
  MkView (f <$> v_req v) (v_fans v) (v_orphaned v) (v_delivered v) (v_answered v) (v_lines v) (v_lost v).
Definition v_set (q : Req) (v : View) : View :=
  MkView (Some q) (v_fans v) (v_orphaned v) (v_delivered v) (v_answered v) (v_lines v) (v_lost v).
Definition v_fan (n : Z) (v : View) : View :=
  MkView (v_req v) (v_fans v + n) (v_orphaned v) (v_delivered v) (v_answered v) (v_lines v) (v_lost v).
Definition v_set_orphaned (n : Z) (v : View) : View :=
  MkView (v_req v) (v_fans v) n (v_delivered v) (v_answered v) (v_lines v) (v_lost v).
Definition v_set_delivered (b : bool) (v : View) : View :=
  MkView (v_req v) (v_fans v) (v_orphaned v) b (v_answered v) (v_lines v) (v_lost v).
Definition v_answer (v : View) : View :=
  MkView (v_req v) (v_fans v) (v_orphaned v) (v_delivered v) true (v_lines v) (v_lost v).
Definition v_line (v : View) : View :=
  MkView (v_req v) (v_fans v) (v_orphaned v) (v_delivered v) (v_answered v) (v_lines v + 1) (v_lost v).
Definition v_lose (v : View) : View :=
  MkView (lose <$> v_req v) (v_fans v + v_orphaned v) 0 (v_delivered v) (v_answered v) (v_lines v) true.

(** [_orphan], on a view. *)
Definition v_orphan (q : Req) (v : View) : View :=
  if v_delivered v then v_set_delivered false v
  else match rq_future q with
       | FResult _ | FRpcError _ | FLost => v_fan 1 v
       | FPending | FCancelled => if v_lost v then v_fan 1 v else v_set_orphaned (v_orphaned v + 1) v
       end.

Definition v_gone (o : Outcome) (v : View) : View := v_map (rq_with_caller (Gone o)) v.

Definition v_depart (q : Req) (l : Leave) (v : View) : View :=
  if rq_committed q
  then v_gone (match l with LCancel => CommittedRequestCancelled | LTimeout => TimeoutError end) (v_orphan q v)
  else v_gone (match l with LCancel => CancelledError | LTimeout => TimeoutError end) v.

(** The moves of a request's write that put nothing on the wire. *)
Inductive phase_move : Phase -> Phase -> Prop :=
| pm_granted : phase_move Queued Granted
| pm_spawned : phase_move Granted Spawned
| pm_queue_lost : phase_move Queued (Ended (WLost false))
| pm_start_lost closing : phase_move Spawned (Ended (WLost closing))
| pm_drained : phase_move Draining (Ended WOk)
| pm_drain_lost : phase_move Draining (Ended (WLost false)).

Inductive vstep (v : View) : View -> Prop :=
| v_new :
    v_req v = None -> v_lost v = false -> vstep v (v_set new_req v)
| v_phase q p :
    v_req v = Some q -> phase_move (rq_write q) p -> vstep v (v_map (rq_with_write p) v)
| v_commit q :
    v_req v = Some q -> rq_write q = Spawned -> v_lost v = false ->
    vstep v (v_map (fun q => rq_with_write Draining (rq_commit q)) (v_line v))
| v_leave_queue q o :
    v_req v = Some q -> rq_write q = Queued \/ rq_write q = Granted ->
    o = TimeoutError \/ o = CancelledError ->
    vstep v (v_gone o (v_map (rq_with_write (Ended WLeft)) v))
| v_leaving q l sync :
    v_req v = Some q -> is_gone q = false -> l = LCancel \/ is_waiting q = true ->
    vstep v (v_map (leave l sync) v)
| v_written q :
    v_req v = Some q -> rq_caller q = Writing -> rq_write q = Ended WOk ->
    vstep v (v_map (rq_with_caller Waiting) v)
| v_write_lost q closing :
    v_req v = Some q -> rq_caller q = Writing -> rq_write q = Ended (WLost closing) ->
    vstep v (v_gone (if rq_committed q then RequestOutcomeUnknown else RuntimeLost) v)
| v_departs q l :
    v_req v = Some q ->
    (rq_caller q = Waiting /\ rq_leaving q = Some l)
    \/ (rq_caller q = Writing /\ l = LCancel /\ (rq_write q = Draining \/ exists e, rq_write q = Ended e)) ->
    vstep v (v_depart q l v)
| v_returned q x :
    v_req v = Some q -> rq_caller q = Waiting -> rq_future q = FResult x -> vstep v (v_gone (Returned x) v)
| v_inline q x :
    v_req v = Some q -> rq_caller q = Waiting -> rq_future q = FResult x ->
    vstep v (v_gone CommittedRequestCancelled (v_fan 1 v))
| v_rpc_error q x :
    v_req v = Some q -> rq_caller q = Waiting -> rq_future q = FRpcError x -> vstep v (v_gone (RaisedRpc x) v)
| v_unknown q :
    v_req v = Some q -> rq_caller q = Waiting -> rq_future q = FLost ->
    vstep v (v_gone (if rq_committed q then RequestOutcomeUnknown else RuntimeLost) v)
| v_lost_now :
    v_lost v = false -> vstep v (v_lose v)
| v_settled q f :
    v_req v = Some q -> is_gone q = false -> rq_future q = FPending ->
    (exists x, f = FResult x \/ f = FRpcError x) -> v_answered v = false ->
    vstep v (v_map (rq_with_future f) (v_answer v))
| v_tombstone q :
    v_req v = Some q -> is_gone q = false -> rq_future q = FCancelled -> v_answered v = false ->
    vstep v (v_set_delivered true (v_fan 1 (v_answer v)))
| v_orphan_answered q :
    v_req v = Some q -> is_gone q = true -> 0 < v_orphaned v -> v_answered v = false ->
    vstep v (v_set_orphaned 0 (v_fan 1 (v_answer v)))
| v_ignored :
    vstep v (v_answer v).

(** *** Views of the updated states *)

Lemma view_upd_req r r' f s : view r (upd_req r' f s) = if decide (r' = r) then v_map f (view r s) else view r s.
Proof.
  unfold view, upd_req, v_map. simpl. case_decide as E; [subst; by rewrite list_lookup_alter_eq|].
  by rewrite list_lookup_alter_ne.
Qed.

Lemma view_upd_inter r k f s : view r (upd_inter k f s) = view r s.
Proof. done. Qed.

Lemma fans_fanout r item s : fans r (_fanout item s) = fans r s + (if about r item then 1 else 0).
Proof. unfold fans. simpl. rewrite countb_app. simpl. lia. Qed.

Lemma view_fanout r item s : view r (_fanout item s) = v_fan (if about r item then 1 else 0) (view r s).
Proof. unfold view. rewrite fans_fanout. done. Qed.

Lemma v_fan_0 v : v_fan 0 v = v.
Proof. destruct v. unfold v_fan. simpl. by rewrite Z.add_0_r. Qed.

Lemma view_set_phase r o p s :
  view r (set_phase o p s) = if decide (o = OReq r) then v_map (rq_with_write p) (view r s) else view r s.
Proof.
  destruct o as [r'|k|n]; [|by rewrite decide_False by done..].
  simpl. rewrite view_upd_req. case_decide; case_decide; congruence.
Qed.

Lemma view_finish_write r o e s :
  view r (finish_write o e s)
    = if decide (o = OReq r) then v_map (rq_with_write (Ended e)) (view r s) else view r s.
Proof. rewrite <- view_set_phase. done. Qed.

Lemma view_abandon r o e s :
  view r (abandon o e s)
    = if decide (o = OReq r) then v_map (rq_with_write (Ended e)) (view r s) else view r s.
Proof. rewrite <- view_set_phase. unfold abandon. by case_match. Qed.

Lemma foldl_ambiguous reason l : forall s,
  let s' := foldl (fan_ambiguous reason) s l in
  requests s' = requests s /\ orphaned s' = orphaned s /\ delivered s' = delivered s
  /\ answered s' = answered s /\ wire s' = wire s /\ terminal s' = terminal s
  /\ inters s' = inters s /\ notes s' = notes s /\ registry s' = registry s /\ lock s' = lock s
  /\ stage s' = stage s
  /\ fanned s' = fanned s ++ map (fun r => AmbiguousRequest r reason) l.
Proof.
  induction l as [|r l IH]; intros s; simpl; [by rewrite app_nil_r|].
  destruct (IH (fan_ambiguous reason s r)) as (-> & -> & -> & -> & -> & -> & -> & -> & -> & -> & -> & ->).
  split_and!; try done. simpl. by rewrite <- app_assoc.
Qed.

Lemma about_ambiguous r reason l :
  countb (about r) (map (fun r => AmbiguousRequest r reason) l) = countb (fun x => bool_decide (x = r)) l.
Proof. induction l as [|x l IH]; simpl; [done|]. by rewrite IH. Qed.

(** What terminalization leaves, field by field. *)
Lemma terminalize_fields reason s :
  terminal s = None ->
  let s' := _terminalize reason s in
  requests s' = map lose (requests s) /\ orphaned s' = [] /\ delivered s' = delivered s
  /\ answered s' = answered s /\ wire s' = wire s /\ terminal s' = Some (final_reason reason s)
  /\ inters s' = map (retire false) (map invalidate_open (inters s)) /\ notes s' = notes s
  /\ registry s' = registry s /\ lock s' = lock s /\ stage s' = stage s
  /\ fanned s' = fanned s ++ map (fun r => AmbiguousRequest r (final_reason reason s)) (orphaned s)
       ++ [TerminalEvent (final_reason reason s)].
Proof.
  intros Ht. unfold _terminalize. rewrite Ht. set (s0 := _retire_unsent_answers _ _).
  destruct (foldl_ambiguous (final_reason reason s) (orphaned s) s0) as
    (H1 & H2 & H3 & H4 & H5 & H6 & H7 & H8 & H9 & H10 & H11 & H12).
  simpl. rewrite H1, H3, H4, H5, H6, H7, H8, H9, H10, H11, H12. subst s0. simpl.
  by rewrite <- app_assoc.
Qed.

Lemma terminalize_again reason s t : terminal s = Some t -> _terminalize reason s = s.
Proof. intros Ht. unfold _terminalize. by rewrite Ht. Qed.

Lemma terminal_terminalize reason s : terminal (_terminalize reason s) <> None.
Proof.
  destruct (terminal s) as [t|] eqn:E; [by rewrite (terminalize_again _ _ _ E), E|].
  destruct (terminalize_fields reason s E) as (_ & _ & _ & _ & _ & -> & _). done.
Qed.

Lemma view_terminalize r reason s :
  view r (_terminalize reason s) = if v_lost (view r s) then view r s else v_lose (view r s).
Proof.
  destruct (terminal s) as [t|] eqn:E.
  { rewrite (terminalize_again _ _ _ E). unfold view at 2. simpl. by rewrite E. }
  destruct (terminalize_fields reason s E) as (H1 & H2 & H3 & H4 & H5 & H6 & _ & _ & _ & _ & _ & H12).
  unfold view, fans, lines, v_lose. rewrite H1, H2, H3, H4, H5, H6, H12. simpl. rewrite E. simpl.
  rewrite !countb_app, about_ambiguous. simpl. rewrite list_lookup_fmap. f_equal. lia.
Qed.

(** *** Every event, seen from one request *)

Definition vsteps : View -> View -> Prop := rtc vstep.

Lemma vsteps_one v v' : vstep v v' -> vsteps v v'.
Proof. apply rtc_once. Qed.

Lemma vsteps_refl_eq v v' : v' = v -> vsteps v v'.
Proof. intros ->. apply rtc_refl. Qed.

Create HintDb views.
#[local] Hint Resolve vsteps_one vsteps_refl_eq : views.

Lemma holds_req r p s :
  holds (OReq r) p s = true -> exists q, requests s !! r = Some q /\ rq_write q = p.
Proof.
  unfold holds. simpl. rewrite bool_decide_eq_true.
  destruct (requests s !! r) as [q|]; [|done]. simpl. intros [= <-]. eauto.
Qed.

Lemma view_lost r s : v_lost (view r s) = true <-> terminal s <> None.
Proof. unfold view. simpl. by rewrite bool_decide_eq_true. Qed.

Lemma view_not_lost r s : v_lost (view r s) = false <-> terminal s = None.
Proof. unfold view. simpl. rewrite bool_decide_eq_false. destruct (terminal s); naive_solver. Qed.

Lemma not_raised s : raise_if_lost s = None -> terminal s = None /\ stage s = Open.
Proof.
  unfold raise_if_lost, is_closing. destruct (terminal s); [done|]. case_bool_decide; done.
Qed.

(** A write's move, from the request it is for and from the others. *)
Lemma phase_vsteps o p p' s r :
  holds o p s = true -> phase_move p p' -> vsteps (view r s) (view r (set_phase o p' s)).
Proof.
  intros Hh Hm. rewrite view_set_phase. case_decide as E; [|apply rtc_refl]. subst o.
  apply holds_req in Hh as (q & Hq & <-). apply vsteps_one. by apply v_phase with q.
Qed.

Lemma terminalize_vsteps reason s r : vsteps (view r s) (view r (_terminalize reason s)).
Proof.
  rewrite view_terminalize. destruct (v_lost (view r s)) eqn:E; [apply rtc_refl|].
  apply vsteps_one. by apply v_lost_now.
Qed.

Lemma phase_of_terminalize o reason s : phase_of o (_terminalize reason s) = phase_of o s.
Proof.
  destruct (terminal s) as [t|] eqn:E; [by rewrite (terminalize_again _ _ _ E)|].
  destruct (terminalize_fields reason s E) as (H1 & _ & _ & _ & _ & _ & H7 & H8 & _).
  assert (forall {A} (f : A -> A) (w : A -> Phase) (x : option A), (forall x, w (f x) = w x) ->
    w <$> (f <$> x) = w <$> x) as Hmap.
  { intros A f w x Hf. destruct x; simpl; [by rewrite Hf|done]. }
  destruct o as [r|k|n]; simpl; rewrite ?H1, ?H7, ?H8, ?list_lookup_fmap; [| |done].
  - apply Hmap. intros q. unfold lose. by repeat case_match.
  - rewrite !Hmap; [done|intros i; unfold invalidate_open; by case_match
      |intros i; unfold retire; by case_match].
Qed.

Lemma holds_terminalize o p reason s : holds o p (_terminalize reason s) = holds o p s.
Proof. unfold holds. by rewrite phase_of_terminalize. Qed.

Lemma view_orphan r r' q s :
  requests s !! r' = Some q ->
  view r (_orphan r' q s) = if decide (r' = r) then v_orphan q (view r s) else view r s.
Proof.
  intros Hq. unfold _orphan, v_orphan. simpl v_delivered. case_decide as E.
  - subst r'. case_bool_decide.
    { unfold view, v_set_delivered. simpl. f_equal. apply bool_decide_eq_false. 
      rewrite list_elem_of_filter. naive_solver. }
    simpl v_lost. destruct (rq_future q); [|..|]; rewrite ?view_fanout; simpl about;
      rewrite ?bool_decide_true by done; try done;
      (destruct (terminal s); [by rewrite view_fanout; simpl; rewrite bool_decide_true|
       unfold view, v_set_orphaned; simpl; rewrite countb_app; simpl; by rewrite bool_decide_true]).
  - case_bool_decide.
    { unfold view. simpl. f_equal. apply bool_decide_ext. rewrite list_elem_of_filter. naive_solver. }
    assert (forall x, about r (OrphanedResponse r' x) = false /\ forall y, about r (AmbiguousRequest r' y) = false)
      as Ha by (by intros; simpl; rewrite bool_decide_false).
    destruct (rq_future q); rewrite ?view_fanout;
      try (rewrite (proj1 (Ha _)) || rewrite (proj2 (Ha (Ok JNull)) _)); rewrite ?v_fan_0; try done;
      (destruct (terminal s); [rewrite view_fanout, (proj2 (Ha (Ok JNull)) _); by rewrite v_fan_0|
       unfold view; simpl; rewrite countb_app; simpl; rewrite bool_decide_false by done; f_equal; lia]).
Qed.

Lemma view_gone r r' o s :
  view r (gone r' o s) = if decide (r' = r) then v_gone o (view r s) else view r s.
Proof. apply view_upd_req. Qed.

Lemma requests_orphan r q s : requests (_orphan r q s) = requests s.
Proof. unfold _orphan. by repeat case_match. Qed.

Lemma view_depart r r' q l s :
  requests s !! r' = Some q ->
  view r (depart r' q l s) = if decide (r' = r) then v_depart q l (view r s) else view r s.
Proof.
  intros Hq. unfold depart, v_depart. destruct (rq_committed q).
  - rewrite view_gone, (view_orphan r r' q s Hq). by case_decide.
  - by rewrite view_gone.
Qed.

Lemma view_subs r x s : view r (with_subs x s) = view r s.
Proof. done. Qed.

Lemma gate_view o s s' r : gate o s = Some s' -> view r s' = view r s.
Proof.
  destruct o as [x|k|n]; simpl; [by intros [= <-]| |by intros [= <-]].
  destruct (inters s !! k); [|done]. case_bool_decide; [|done]. intros [= <-]. apply view_upd_inter.
Qed.

Lemma gate_holds o o' p s s' : gate o s = Some s' -> holds o' p s' = holds o' p s.
Proof.
  destruct o as [x|k|n]; simpl; [by intros [= <-]| |by intros [= <-]].
  destruct (inters s !! k) as [i|] eqn:E; [|done]. case_bool_decide; [|done]. intros [= <-].
  unfold holds. f_equal. destruct o' as [|k'|]; simpl; try done. 
  destruct (decide (k = k')) as [<-|]; [|by rewrite list_lookup_alter_ne].
  by rewrite list_lookup_alter_eq, E.
Qed.

Lemma gate_terminal o s s' : gate o s = Some s' -> terminal s' = terminal s.
Proof.
  destruct o as [x|k|n]; simpl; [by intros [= <-]| |by intros [= <-]].
  destruct (inters s !! k); [|done]. case_bool_decide; [|done]. by intros [= <-].
Qed.

Lemma view_accept r o s :
  view r (with_wire (wire s ++ [o]) s) = if decide (o = OReq r) then v_line (view r s) else view r s.
Proof.
  unfold view, v_line, lines. simpl. rewrite countb_app. simpl.
  case_decide as E; [rewrite (bool_decide_true (o = OReq r)) by done|rewrite (bool_decide_false (o = OReq r)) by done];
    f_equal; lia.
Qed.

(** The committed write's first section. *)
Lemma start_write_vsteps o fails s r :
  holds o Spawned s = true -> vsteps (view r s) (view r (start_write o fails s)).
Proof.
  intros Hh. unfold start_write. destruct (raise_if_lost s) as [closing|] eqn:El.
  { rewrite view_finish_write, <- view_set_phase. eapply phase_vsteps; [done|constructor]. }
  apply not_raised in El as [Ht _]. destruct (gate o s) as [s1|] eqn:Eg.
  - pose proof (gate_view o s s1 r Eg) as Hv. rewrite <- (gate_holds o o _ s s1 Eg) in Hh.
    rewrite <- (gate_terminal o s s1 Eg) in Ht. rewrite <- Hv. clear Hv Eg s. destruct fails.
    + etransitivity; [apply terminalize_vsteps|].
      rewrite view_finish_write, <- view_set_phase. eapply phase_vsteps; [by rewrite holds_terminalize|].
      constructor.
    + rewrite view_set_phase. case_decide as E.
      * subst o. apply holds_req in Hh as (q & Hq & Hp). apply vsteps_one.
        simpl mark_committed. rewrite view_upd_req, decide_True, view_accept, decide_True by done.
        replace (v_map _ (v_map _ _)) with (v_map (fun q => rq_with_write Draining (rq_commit q)) (v_line (view r s1))).
        { apply v_commit with q; [done..|by apply view_not_lost]. }
        unfold v_map, v_line, view. simpl. by rewrite Hq.
      * apply vsteps_refl_eq. assert (forall x, view r (mark_committed o x) = view r x) as ->.
        { intros x. destruct o as [r'|k|n]; [|done..]. simpl. rewrite view_upd_req.
          by rewrite decide_False by congruence. }
        by rewrite view_accept, decide_False.
  - destruct o as [r'|k|n]; [done| |done]. rewrite view_finish_write, decide_False by done. apply rtc_refl.
Qed.

Lemma end_drain_vsteps o d s r :
  holds o Draining s = true -> vsteps (view r s) (view r (end_drain o d s)).
Proof.
  intros Hh. assert (forall reason, vsteps (view r s)
    (view r (finish_write o (WLost false) (_terminalize reason s)))) as Hl.
  { intros reason. etransitivity; [apply terminalize_vsteps|].
    rewrite view_finish_write, <- view_set_phase. eapply phase_vsteps; [by rewrite holds_terminalize|].
    constructor. }
  destruct d; [|apply Hl..]. unfold end_drain. rewrite view_finish_write, <- view_set_phase.
  eapply phase_vsteps; [done|constructor].
Qed.

Section views.
Context (generation : Z) (supported : list string) (request_id : nat -> string).
Notation exec := (exec generation supported request_id).

Lemma view_answered r r' s :
  view r (with_answered (r' :: answered s) s) = if decide (r' = r) then v_answer (view r s) else view r s.
Proof.
  unfold view, v_answer. simpl. case_decide as E; f_equal.
  - subst. apply bool_decide_eq_true_2. by left.
  - apply bool_decide_ext. rewrite elem_of_cons. naive_solver.
Qed.

Lemma about_orphaned r r' x : about r (OrphanedResponse r' x) = bool_decide (r' = r).
Proof. done. Qed.

Lemma count_filter_ne (r r' : nat) l :
  r' <> r -> countb (fun x => bool_decide (x = r)) (filter (fun x => x <> r') l)
             = countb (fun x => bool_decide (x = r)) l.
Proof.
  intros Hne. induction l as [|x l IH]; [done|]. rewrite filter_cons. case_decide as Hx; simpl; rewrite IH; [done|].
  by rewrite (bool_decide_false (x = r)) by congruence.
Qed.

(** The process answers request [r'], for the first time. *)
Lemma response_vsteps r r' outcome s :
  r' ∉ answered s ->
  vsteps (view r s) (view r (_on_response r' outcome (with_answered (r' :: answered s) s))).
Proof.
  intros Hno. set (s1 := with_answered _ s). pose proof (view_answered r r' s) as Hv. fold s1 in Hv.
  destruct (decide (r' = r)) as [->|Hne].
  - assert (v_answered (view r s) = false) as Hna by (by apply bool_decide_eq_false_2).
    unfold _on_response. change (requests s1) with (requests s).
    destruct (requests s !! r) as [q|] eqn:Hq; [|rewrite Hv; apply vsteps_one, v_ignored].
    destruct (is_gone q) eqn:Hg; simpl.
    + case_bool_decide as Ho; [|rewrite Hv; apply vsteps_one, v_ignored].
      rewrite view_fanout, about_orphaned, bool_decide_true by done. apply vsteps_one.
      replace (v_fan 1 _) with (v_set_orphaned 0 (v_fan 1 (v_answer (view r s)))).
      { apply v_orphan_answered with q; [done|done| |done].
        simpl. eapply countb_pos; [exact Ho|]. by apply bool_decide_eq_true_2. }
      rewrite <- Hv. unfold view, v_set_orphaned, v_fan. simpl. f_equal. symmetry.
      apply countb_all_false. intros x [Hx _]%list_elem_of_filter. by apply bool_decide_eq_false_2.
    + destruct (rq_future q) eqn:Hf.
      * rewrite view_upd_req, decide_True, Hv by done. apply vsteps_one. eapply v_settled; [done..| |done].
        destruct outcome as [x|x]; exists x; auto.
      * rewrite Hv. apply vsteps_one, v_ignored.
      * rewrite Hv. apply vsteps_one, v_ignored.
      * rewrite Hv. apply vsteps_one, v_ignored.
      * apply vsteps_one.
        assert (view r (with_delivered (r :: delivered s) (_fanout (OrphanedResponse r outcome) s1))
          = v_set_delivered true (v_fan 1 (view r s1))) as ->.
        { unfold view, v_set_delivered, v_fan, fans. simpl. rewrite countb_app. simpl.
          rewrite (bool_decide_true (r = r)), (bool_decide_true (r ∈ r :: _)) by (done || by left).
          f_equal. }
        rewrite Hv. by apply v_tombstone with q.
  - apply vsteps_refl_eq. unfold _on_response.
    destruct (requests s1 !! r') as [q|]; [|done]. destruct (is_gone q); simpl.
    + case_bool_decide; [|done]. rewrite view_fanout, about_orphaned, bool_decide_false, v_fan_0 by done.
      rewrite <- Hv. unfold view. simpl. by rewrite count_filter_ne.
    + destruct (rq_future q); [by rewrite view_upd_req, decide_False|done..|].
      rewrite <- Hv. unfold view, fans. simpl. rewrite countb_app. simpl.
      rewrite (bool_decide_false (r' = r)) by done. f_equal; [lia|]. apply bool_decide_ext. rewrite elem_of_cons. naive_solver.
Qed.

Lemma server_request_view r id method s : view r (_on_server_request supported id method s) = view r s.
Proof.
  unfold _on_server_request. destruct (key_of id) as [key|]; [|done].
  destruct (live_id key s); [done|]. destruct (negb _); [done|]. by rewrite view_fanout, v_fan_0.
Qed.

Lemma resolve_interaction_view r params s : view r (_resolve_interaction params s) = view r s.
Proof.
  unfold _resolve_interaction. destruct (key_of _) as [key|]; [|done].
  rewrite view_fanout, v_fan_0. by destruct (lookup_inter key s) as [[k i]|].
Qed.

(** A line of the process. *)
Lemma line_vsteps r line s :
  NoDup (answered (note_answered request_id line s)) ->
  vsteps (view r s) (view r (read_line supported request_id line (note_answered request_id line s))).
Proof.
  unfold note_answered, read_line. destruct line as [[| | | | |l|d]|]; simpl;
    try (intros _; apply (terminalize_vsteps "protocol_error")).
  unfold responds_to, _dispatch. destruct (jget (JObj d) "id") as [id|].
  - destruct (jget_null (JObj d) "method"); simpl;
      try (destruct (request_named request_id id s) as [r'|] eqn:En;
        [simpl; intros [Ha _]%NoDup_cons;
         change (request_named request_id id (with_answered _ s)) with (request_named request_id id s);
         rewrite En; by apply response_vsteps
        |intros _; rewrite En; apply rtc_refl]).
    intros _. rewrite server_request_view. apply rtc_refl.
  - intros _. destruct (jget_null (JObj d) "method"); simpl;
      try apply (terminalize_vsteps "protocol_error").
    case_bool_decide; [rewrite resolve_interaction_view|rewrite view_fanout, v_fan_0]; apply rtc_refl.
Qed.

(** *** What is answered stays so *)

Lemma answered_foldl reason l s : answered (foldl (fan_ambiguous reason) s l) = answered s.
Proof. apply foldl_ambiguous. Qed.
Lemma answered_terminalize reason s : answered (_terminalize reason s) = answered s.
Proof.
  destruct (terminal s) as [t|] eqn:E; [unfold _terminalize; by rewrite E|]. by apply terminalize_fields.
Qed.
Lemma answered_orphan r q s : answered (_orphan r q s) = answered s.
Proof. unfold _orphan. by repeat case_match. Qed.
Lemma answered_depart r q l s : answered (depart r q l s) = answered s.
Proof. unfold depart. case_match; simpl; by rewrite ?answered_orphan. Qed.
Lemma answered_response r outcome s : answered (_on_response r outcome s) = answered s.
Proof. unfold _on_response. by repeat case_match. Qed.
Lemma answered_abandon o e s : answered (abandon o e s) = answered s.
Proof. unfold abandon, set_phase. by destruct o; case_match. Qed.
Lemma answered_finish o e s : answered (finish_write o e s) = answered s.
Proof. unfold finish_write, set_phase. by destruct o. Qed.
Lemma answered_start o fails s : answered (start_write o fails s) = answered s.
Proof.
  unfold start_write. destruct (raise_if_lost s); [apply answered_finish|].
  destruct (gate o s) as [s1|] eqn:Eg; [|apply answered_finish].
  assert (answered s1 = answered s) as <- by (unfold gate in Eg; repeat case_match; by simplify_eq).
  destruct fails; [by rewrite answered_finish, answered_terminalize|]. unfold set_phase, mark_committed. by destruct o.
Qed.
Lemma answered_line line s : answered (read_line supported request_id line s) = answered s.
Proof.
  unfold read_line. destruct line as [[| | | | |l|d]|]; try apply (answered_terminalize "protocol_error").
  unfold _dispatch, _on_server_request, _resolve_interaction.
  repeat (case_match; try done); rewrite ?answered_response; try done; apply (answered_terminalize "protocol_error").
Qed.

Lemma exec_answered e s s' : exec e s = Some s' -> answered s' = answered s \/ exists r, answered s' = r :: answered s.
Proof.
  destruct e as [| |r sync|r sync|o|o|o|r|o|o|o fails|o d|r|r|r|key gen tok fin|k'|line|ex| | | | |mp hl|b|b];
    cbn [AppServer.exec]; intros He.
  - left. injection He as <-. unfold request. by case_match.
  - left. injection He as <-. unfold notify. by case_match.
  - left. by repeat (case_match; try done); simplify_eq.
  - left. by repeat (case_match; try done); simplify_eq.
  - left. case_match; [|done]. injection He as <-. by destruct o.
  - left. case_match; [|done]. injection He as <-. by destruct o.
  - left. repeat (case_match; try done). injection He as <-. apply answered_abandon.
  - left. case_match; [|done]. injection He as <-. apply answered_abandon.
  - left. repeat (case_match; try done). injection He as <-. by rewrite answered_abandon, answered_terminalize.
  - left. repeat (case_match; try done); injection He as <-; apply answered_abandon.
  - left. case_match; [|done]. injection He as <-. apply answered_start.
  - left. case_match; [|done]. injection He as <-. destruct d; unfold end_drain; by rewrite answered_finish, ?answered_terminalize.
  - left. repeat (case_match; try done); simplify_eq; [apply answered_depart|].
    unfold written in He. by repeat (case_match; try done); simplify_eq.
  - left. repeat (case_match; try done). unfold deliver in He. by repeat (case_match; try done); simplify_eq.
  - left. repeat (case_match; try done); simplify_eq; apply answered_depart.
  - left. injection He as <-. unfold answer. by case_match.
  - left. by repeat (case_match; try done); simplify_eq.
  - destruct (reader s); [|done]. injection He as <-. rewrite answered_line. unfold note_answered.
    destruct (_ ≫= _) as [r|]; [right; by exists r|by left].
  - left. case_match; [|done]. injection He as <-. apply answered_terminalize.
  - left. case_match; [done|]. injection He as <-. apply answered_terminalize.
  - left. injection He as <-. by case_match.
  - left. case_match; [|done]. by injection He as <-.
  - left. case_match; [|done]. injection He as <-. apply (answered_terminalize "closed").
  - left. by injection He as <-.
  - left. by injection He as <-.
  - left. by repeat (case_match; try done); simplify_eq.
Qed.

Lemma request_vsteps r s : vsteps (view r s) (view r (request s)).
Proof.
  unfold request. destruct (raise_if_lost s) eqn:El; [apply rtc_refl|].
  apply not_raised in El as [Ht _]. destruct (requests s !! r) as [q|] eqn:Hq.
  - apply vsteps_refl_eq. unfold view. simpl. by rewrite (lookup_app_l_Some _ _ _ _ Hq), Hq.
  - destruct (decide (r = length (requests s))) as [->|Hne].
    + apply vsteps_one. replace (view _ (with_requests _ s)) with (v_set new_req (view (length (requests s)) s)).
      { apply v_new; [done|by apply view_not_lost]. }
      unfold view, v_set. simpl. by rewrite lookup_app_r, Nat.sub_diag by lia.
    + apply vsteps_refl_eq. unfold view. simpl. apply lookup_ge_None in Hq.
      rewrite !lookup_ge_None_2; [done|done|]. rewrite length_app. simpl. lia.
Qed.

(** One event of the transport is a few steps in the life of each request, while the process
    answers none twice. *)
Lemma exec_views e s s' r : exec e s = Some s' -> NoDup (answered s') -> vsteps (view r s) (view r s').
Proof.
  intros He Hn. revert He.
  destruct e as [| |r' sync|r' sync|o|o|o|r'|o|o|o fails|o d|r'|r'|r'|key gen tok fin|k|line|ex| | | | |mp hl|b|b];
    cbn [AppServer.exec]; intros He.
  - injection He as <-. apply request_vsteps.
  - injection He as <-. unfold notify. by case_match; apply rtc_refl.
  - destruct (requests s !! r') as [q|] eqn:Hq; [|done]. destruct (is_gone q) eqn:Hg; [done|].
    injection He as <-. rewrite view_upd_req. case_decide; [subst|apply rtc_refl].
    apply vsteps_one. apply v_leaving with q; auto.
  - destruct (requests s !! r') as [q|] eqn:Hq; [|done]. destruct (_ && _) eqn:Hg; [|done]. b2p.
    injection He as <-. rewrite view_upd_req. case_decide; [subst|apply rtc_refl].
    apply vsteps_one. apply v_leaving with q; auto. unfold is_gone, is_waiting in *. by destruct (rq_caller q).
  - destruct (_ && _) eqn:Hg; [|done]. b2p. injection He as <-.
    change (view r (with_lock _ ?x)) with (view r x). eapply phase_vsteps; [done|constructor].
  - destruct (_ && _) eqn:Hg; [|done]. b2p. injection He as <-. eapply phase_vsteps; [done|constructor].
  - destruct (_ && _) eqn:Hg; [|done]. destruct (terminal s); [|done]. b2p. injection He as <-.
    rewrite view_abandon, <- view_set_phase. eapply phase_vsteps; [done|constructor].
  - destruct (_ && _) eqn:Hg; [|done]. b2p. injection He as <-. rewrite view_gone, view_abandon.
    case_decide as E; [subst; rewrite decide_True by done|rewrite decide_False by congruence; apply rtc_refl].
    apply vsteps_one. destruct (holds_req _ _ _ ltac:(done)) as (q & Hq & Hp). apply v_leave_queue with q; auto.
  - destruct (lock s) as [h|]; [|done]. destruct (_ && _) eqn:Hg; [|done]. b2p. injection He as <-.
    etransitivity; [apply (terminalize_vsteps "write_timeout")|].
    rewrite view_abandon, <- view_set_phase. eapply phase_vsteps; [by rewrite holds_terminalize|constructor].
  - destruct (_ || _) eqn:Hh; [|done]. destruct o as [r'|k|n].
    + destruct (cancelling _ _); [|done]. injection He as <-. rewrite view_gone, view_abandon.
      case_decide as E; [subst; rewrite decide_True by done|rewrite decide_False by congruence; apply rtc_refl].
      apply vsteps_one. apply orb_true_iff in Hh as [Hh|Hh]; apply holds_req in Hh as (q & Hq & Hp);
        apply v_leave_queue with q; auto.
    + destruct (bool_decide _); [|done]. injection He as <-. rewrite view_abandon, decide_False by done.
      apply rtc_refl.
    + injection He as <-. rewrite view_abandon, decide_False by done. apply rtc_refl.
  - destruct (holds o Spawned s) eqn:Hh; [|done]. injection He as <-. by apply start_write_vsteps.
  - destruct (holds o Draining s) eqn:Hh; [|done]. injection He as <-. by apply end_drain_vsteps.
  - destruct (requests s !! r') as [q|] eqn:Hq; [|done]. destruct (rq_caller q) eqn:Hc; [|done..].
    destruct (rq_write q) as [| | | | |e] eqn:Hw; try done. case_bool_decide.
    + injection He as <-. rewrite (view_depart r r' q LCancel s Hq). case_decide; [subst|apply rtc_refl].
      apply vsteps_one, v_departs; [done|]. right. split_and!; eauto.
    + destruct e; simpl in He; try done; injection He as <-; rewrite ?view_gone, ?view_upd_req;
        (case_decide; [subst|apply rtc_refl]); apply vsteps_one; [by apply v_written with q|by eapply v_write_lost].
  - destruct (requests s !! r') as [q|] eqn:Hq; [|done]. destruct (is_waiting q) eqn:Hw; [|done].
    assert (rq_caller q = Waiting) as Hc by (unfold is_waiting in Hw; by destruct (rq_caller q)).
    unfold deliver in He. destruct (rq_future q) eqn:Hf; try done.
    + case_bool_decide; injection He as <-; rewrite view_gone;
        (case_decide; [subst|rewrite ?view_fanout, ?about_orphaned, ?bool_decide_false, ?v_fan_0 by done; apply rtc_refl]).
      * rewrite view_fanout, about_orphaned, bool_decide_true by done. apply vsteps_one. by eapply v_inline.
      * apply vsteps_one. by eapply v_returned.
    + injection He as <-. rewrite view_gone. case_decide; [subst|apply rtc_refl].
      apply vsteps_one. by eapply v_rpc_error.
    + injection He as <-. rewrite view_gone. case_decide; [subst|apply rtc_refl].
      apply vsteps_one. by apply v_unknown.
  - destruct (requests s !! r') as [q|] eqn:Hq; [|done].
    assert (exists l, s' = depart r' q l s /\ ((rq_caller q = Waiting /\ rq_leaving q = Some l)
      \/ (rq_caller q = Writing /\ l = LCancel /\ (rq_write q = Draining \/ exists e, rq_write q = Ended e))))
      as (l & -> & Hl).
    { destruct (rq_caller q), (rq_leaving q) as [[]|]; try done;
        [case_bool_decide; [|done]| |]; injection He as <-; eexists; (split; [done|]); auto 6. }
    clear He. rewrite (view_depart r r' q l s Hq). case_decide; [subst|apply rtc_refl].
    apply vsteps_one. by apply v_departs.
  - injection He as <-. unfold answer. by case_match; apply rtc_refl.
  - destruct (inters s !! k) as [i|]; [|done]. destruct (in_write i); try done. injection He as <-.
    apply rtc_refl.
  - destruct (reader s); [|done]. injection He as <-. apply line_vsteps. by rewrite answered_line in Hn.
  - destruct (reader s); [|done]. injection He as <-. apply terminalize_vsteps.
  - case_bool_decide; [done|]. injection He as <-. apply terminalize_vsteps.
  - injection He as <-. by case_match; apply rtc_refl.
  - case_bool_decide; [|done]. injection He as <-. apply rtc_refl.
  - case_bool_decide; [|done]. injection He as <-. apply (terminalize_vsteps "closed").
  - injection He as <-. apply rtc_refl.
  - injection He as <-. apply rtc_refl.
  - destruct (subs s !! b) as [x|]; [|done]. destruct (get_nowait x) as [[]|]; [|done].
    injection He as <-. apply rtc_refl.
Qed.
End views.

(** *** What holds of a request at any time *)

(** The outcome that left the transport to be fanned out. *)
Definition transferred (o : Outcome) : bool :=
  match o with TimeoutError | CommittedRequestCancelled => true | _ => false end.

Definition owed (q : Req) (tombstone : bool) : Z :=
  match rq_caller q with
  | Writing => 0
  | Waiting => if tombstone then 1 else 0
  | Gone o => if rq_committed q && transferred o then 1 else 0
  end.

Definition phase_ok (q : Req) : Prop :=
  match rq_write q with
  | Idle | Ended WStale => False
  | Queued | Granted | Spawned => rq_caller q = Writing /\ rq_committed q = false
  | Draining | Ended WOk => rq_committed q = true
  | Ended (WLost _) => True
  | Ended WLeft => is_gone q = true /\ rq_committed q = false
  end.

Definition caller_ok (q : Req) : Prop :=
  match rq_caller q with
  | Writing | Gone TimeoutError => True
  | Gone (RuntimeLost | CancelledError) => rq_committed q = false
  | Waiting | Gone _ => rq_committed q = true
  end.

Record life_ok (q : Req) (v : View) : Prop := {
  lf_lines : v_lines v = if rq_committed q then 1 else 0;
  lf_phase : phase_ok q;
  lf_caller : caller_ok q;
  lf_count : v_fans v + v_orphaned v = owed q (v_delivered v);
  lf_nonneg : 0 <= v_fans v /\ 0 <= v_orphaned v;
  lf_orphaned : is_gone q = false -> v_orphaned v = 0;
  lf_lost : v_lost v = true -> v_orphaned v = 0 /\ (is_gone q = false -> rq_future q <> FPending);
  lf_tombstone : v_delivered v = true ->
    rq_caller q = Waiting /\ rq_future q = FCancelled /\ v_answered v = true;
  lf_cancelled : rq_future q = FCancelled -> rq_caller q <> Writing /\ rq_leaving q <> None;
}.

Definition view_ok (v : View) : Prop :=
  match v_req v with
  | None => v_fans v = 0 /\ v_orphaned v = 0 /\ v_delivered v = false /\ v_lines v = 0
  | Some q => life_ok q v
  end.

Ltac life := unfold owed, caller_ok, phase_ok, is_gone, is_waiting, transferred in *; simpl in *.

(** The caller may go once its write has begun, or is over. *)
Lemma phase_gone q o :
  phase_ok q -> rq_write q = Draining \/ (exists e, rq_write q = Ended e) \/ rq_committed q = true ->
  phase_ok (rq_with_caller (Gone o) q).
Proof.
  unfold phase_ok. intros H Hp. simpl. destruct (rq_write q) as [| | | | |[]]; try done;
    try (split; [done|apply H]); destruct Hp as [E|[[? E]|E]]; try done; destruct H; congruence.
Qed.

Lemma phase_move_ok q p v :
  phase_move (rq_write q) p -> life_ok q v -> life_ok (rq_with_write p q) (v_map (rq_with_write p) v).
Proof.
  intros Hm [H1 H2 H3 H4 H5 H6 H7 H8 H9]. split; try done.
  unfold phase_ok in *. simpl. inversion Hm as [E|E|E|c E|E|E]; subst; rewrite <- E in H2; done.
Qed.

Lemma lose_ok v : v_lost v = false -> view_ok v -> view_ok (v_lose v).
Proof.
  intros Hl. unfold view_ok. simpl. destruct (v_req v) as [q|]; simpl; [|lia || intuition lia].
  intros [H1 H2 H3 H4 H5 H6 H7 H8 H9].
  assert (rq_write (lose q) = rq_write q /\ rq_caller (lose q) = rq_caller q
    /\ rq_committed (lose q) = rq_committed q /\ rq_leaving (lose q) = rq_leaving q
    /\ (rq_future (lose q) = FCancelled <-> rq_future q = FCancelled)
    /\ (is_gone q = false -> rq_future (lose q) <> FPending)) as (E1 & E2 & E3 & E4 & E5 & E6).
  { clear. unfold lose, is_gone. destruct q as [w c l f cm]. simpl.
    destruct c, f; simpl; intuition congruence. }
  split; unfold phase_ok, caller_ok, owed, is_gone in *; simpl; rewrite ?E1, ?E2, ?E3, ?E4; try done; [lia|lia|..].
  - intros E. destruct (H8 E) as (? & ? & ?). split_and!; [done|by apply E5|done].
  - intros E. by apply H9, E5.
Qed.

Lemma leaving_ok q l sync v :
  is_gone q = false -> life_ok q v -> life_ok (leave l sync q) (v_map (leave l sync) v).
Proof.
  intros Hg [H1 H2 H3 H4 H5 H6 H7 H8 H9]. unfold leave. set (q1 := rq_with_leaving (Some l) q).
  change (is_waiting q1) with (is_waiting q). change (unsettled q1) with (unsettled q).
  destruct (sync && is_waiting q && unsettled q) eqn:E; b2p.
  - unfold unsettled, is_waiting in *. destruct (rq_future q) eqn:Ef; try done.
    destruct (rq_caller q) eqn:Ec; try done. split; simpl; try done.
    + intros Hl. destruct (H7 Hl) as [? Hf]. by destruct (Hf Hg).
    + intros Hd. destruct (H8 Hd) as (_ & ? & _). done.
    + intros _. simpl. by rewrite Ec.
  - split; simpl; try done. intros Hf. by destruct (H9 Hf).
Qed.

Lemma orphan_count q v :
  life_ok q v -> is_gone q = false ->
  let v' := v_orphan q v in
  v_fans v' + v_orphaned v' = 1 /\ 0 <= v_fans v' /\ 0 <= v_orphaned v' /\ v_delivered v' = false
  /\ (v_lost v = true -> v_orphaned v' = 0)
  /\ v_lines v' = v_lines v /\ v_lost v' = v_lost v /\ v_req v' = v_req v.
Proof.
  intros [H1 H2 H3 H4 H5 H6 H7 H8 H9] Hg. specialize (H6 Hg). unfold v_orphan, owed in *.
  unfold is_gone in Hg. destruct (v_delivered v) eqn:Hd.
  - destruct (H8 eq_refl) as (E & _). rewrite E in H4. simpl. split_and!; lia || done.
  - destruct (rq_caller q); [..|done]; destruct (rq_future q); try destruct (v_lost v) eqn:El; simpl;
      rewrite ?Hd, ?El; split_and!; lia || done.
Qed.

Lemma depart_ok q l v :
  v_req v = Some q -> life_ok q v ->
  (rq_caller q = Waiting /\ rq_leaving q = Some l)
  \/ (rq_caller q = Writing /\ l = LCancel /\ (rq_write q = Draining \/ exists e, rq_write q = Ended e)) ->
  view_ok (v_depart q l v).
Proof.
  intros Hq Hok Hl. assert (is_gone q = false) as Hg by (unfold is_gone; by destruct Hl as [[-> _]|[-> _]]).
  pose proof (orphan_count q v Hok Hg) as (C1 & C2 & C3 & C4 & C5 & C6 & C7 & C8).
  destruct Hok as [H1 H2 H3 H4 H5 H6 H7 H8 H9]. unfold v_depart. destruct (rq_committed q) eqn:Hc.
  - unfold view_ok, v_gone, v_map. simpl. rewrite C8, Hq. simpl. split; simpl; rewrite ?Hc; try done.
    + by rewrite C6.
    + apply phase_gone; auto.
    + by destruct l.
    + unfold owed. simpl. rewrite Hc. by destruct l.
    + intros Hlo. split; [|done]. apply C5. congruence.
    + congruence.
    + intros Hf. split; [done|]. by destruct (H9 Hf).
  - assert (rq_caller q = Writing) as Hw.
    { destruct Hl as [[E _]|[E _]]; [|done]. unfold caller_ok in H3. rewrite E in H3. congruence. }
    unfold view_ok, v_gone, v_map. simpl. rewrite Hq. simpl. split; simpl; rewrite ?Hc; try done.
    + apply phase_gone; [done|]. destruct Hl as [[? _]|(_ & _ & [|])]; [congruence|auto..].
    + by destruct l.
    + unfold owed in *. simpl. rewrite Hc, H4, Hw. done.
    + intros Hlo. split; [|done]. by apply H7.
    + intros Hd. destruct (H8 Hd). congruence.
    + intros Hf. split; [done|]. by destruct (H9 Hf).
Qed.

(** A caller that goes with what it heard. *)
Lemma heard_ok q o v n :
  v_req v = Some q -> life_ok q v -> is_gone q = false -> v_delivered v = false ->
  0 <= n -> (if rq_committed q && transferred o then 1 else 0) = n ->
  caller_ok (rq_with_caller (Gone o) q) -> phase_ok (rq_with_caller (Gone o) q) ->
  view_ok (v_gone o (v_fan n v)).
Proof.
  intros Hq [H1 H2 H3 H4 H5 H6 H7 H8 H9] Hg Hd Hn En Hc Hp. specialize (H6 Hg).
  assert (v_fans v = 0) as Hf.
  { unfold owed, is_gone in *. rewrite Hd in H4. destruct (rq_caller q); [lia..|done]. }
  unfold view_ok, v_gone, v_map. simpl. rewrite Hq. simpl. split; simpl; try done.
  - rewrite Hf, H6. unfold owed. simpl. lia.
  - lia.
  - congruence.
  - intros Hx. split; [done|]. by destruct (H9 Hx).
Qed.

(** The same from [wait_for]. *)
Lemma heard_waiting q o v n :
  v_req v = Some q -> life_ok q v -> rq_caller q = Waiting -> rq_future q <> FCancelled ->
  (if transferred o then 1 else 0) = n -> (rq_committed q = true -> caller_ok (rq_with_caller (Gone o) q)) ->
  view_ok (v_gone o (v_fan n v)).
Proof.
  intros Hq Hok Hc Hf Hn Ho. assert (rq_committed q = true) as Hcm.
  { pose proof (lf_caller _ _ Hok) as H. unfold caller_ok in H. by rewrite Hc in H. }
  eapply heard_ok; [done|done|by unfold is_gone; rewrite Hc| | |by rewrite Hcm|auto|].
  - destruct (v_delivered v) eqn:E; [|done]. by destruct (lf_tombstone _ _ Hok E) as (_ & ? & _).
  - rewrite <- Hn. by case_match.
  - apply phase_gone; [apply (lf_phase _ _ Hok)|auto].
Qed.

Lemma vstep_ok v v' : vstep v v' -> view_ok v -> view_ok v'.
Proof.
  intros Hs Hok. unfold view_ok in Hok.
  destruct Hs as [Hn Hl|q p Hq Hm|q Hq Hw Hl|q o Hq Hp Ho|q l sync Hq Hg Hl|q Hq Hc Hw|q c Hq Hc Hw
    |q l Hq Hl|q x Hq Hc Hf|q x Hq Hc Hf|q x Hq Hc Hf|q Hq Hc Hf|Hl|q f Hq Hg Hf Hx Ha|q Hq Hg Hf Ha
    |q Hq Hg Ho Ha|]; rewrite ?Hq in Hok.
  - rewrite Hn in Hok. destruct Hok as (H1 & H2 & H3 & H4). unfold view_ok. simpl.
    split; simpl; try done; try lia; try congruence. unfold owed. simpl. lia.
  - unfold view_ok. simpl. rewrite Hq. by apply phase_move_ok.
  - destruct Hok as [H1 H2 H3 H4 H5 H6 H7 H8 H9]. unfold phase_ok in H2. rewrite Hw in H2.
    destruct H2 as [Hc Hcm]. unfold view_ok. simpl. rewrite Hq. simpl. split; simpl; try done.
    + rewrite H1, Hcm. done.
    + unfold caller_ok in *. simpl. by rewrite Hc.
    + unfold owed in *. simpl. by rewrite Hc in *.
  - destruct Hok as [H1 H2 H3 H4 H5 H6 H7 H8 H9].
    assert (rq_caller q = Writing /\ rq_committed q = false) as [Hc Hcm].
    { unfold phase_ok in H2. by destruct Hp as [E|E]; rewrite E in H2. }
    unfold view_ok. simpl. rewrite Hq. simpl. split; simpl; try done.
    + unfold caller_ok. simpl. by destruct Ho as [-> | ->].
    + unfold owed in *. simpl. by rewrite Hc, Hcm in *.
    + intros E. split; [|done]. by apply H7.
    + intros E. destruct (H8 E). congruence.
    + intros E. split; [done|]. by destruct (H9 E).
  - unfold view_ok. simpl. rewrite Hq. by apply leaving_ok.
  - destruct Hok as [H1 H2 H3 H4 H5 H6 H7 H8 H9]. unfold phase_ok in H2. rewrite Hw in H2.
    unfold is_gone, owed in *. rewrite Hc in *.
    unfold view_ok. simpl. rewrite Hq. simpl. split; simpl; try done.
    + unfold phase_ok. simpl. by rewrite Hw.
    + unfold owed. simpl. rewrite H4. destruct (v_delivered v); [|done]. destruct (H8 eq_refl). congruence.
    + intros E. destruct (H8 E). congruence.
    + intros E. by destruct (H9 E).
  - rewrite <- (v_fan_0 v). eapply heard_ok; [done..|by unfold is_gone; rewrite Hc| | | | |].
    + destruct Hok. destruct (v_delivered v); [|done]. destruct lf_tombstone0; [done|]. congruence.
    + done.
    + destruct (rq_committed q); done.
    + unfold caller_ok. simpl. by destruct (rq_committed q) eqn:E.
    + unfold phase_ok. simpl. by rewrite Hw.
  - by apply depart_ok.
  - rewrite <- (v_fan_0 v). by eapply heard_waiting; [| | |rewrite Hf|..].
  - by eapply heard_waiting; [| | |rewrite Hf|..].
  - rewrite <- (v_fan_0 v). by eapply heard_waiting; [| | |rewrite Hf|..].
  - rewrite <- (v_fan_0 v). eapply heard_waiting; [done..|by rewrite Hf| |].
    + by destruct (rq_committed q).
    + intros E. unfold caller_ok. simpl. by rewrite E.
  - apply lose_ok; [done|]. unfold view_ok. by destruct (v_req v).
  - destruct Hok as [H1 H2 H3 H4 H5 H6 H7 H8 H9]. unfold view_ok. simpl. rewrite Hq. simpl.
    split; simpl; try done.
    + intros E. split; [by apply H7|]. intros _. by destruct Hx as (x & [-> | ->]).
    + intros E. destruct (H8 E) as (_ & ? & _). congruence.
    + intros ->. by destruct Hx as (x & [|]).
  - destruct Hok as [H1 H2 H3 H4 H5 H6 H7 H8 H9]. unfold view_ok. simpl. rewrite Hq.
    assert (v_delivered v = false) as Hd.
    { destruct (v_delivered v); [|done]. destruct (H8 eq_refl) as (_ & _ & ?). congruence. }
    assert (rq_caller q = Waiting) as Hc.
    { unfold is_gone in Hg. destruct (H9 Hf). by destruct (rq_caller q). }
    split; simpl; try done; [|lia].
    unfold owed in *. rewrite Hd, Hc in *. lia.
  - destruct Hok as [H1 H2 H3 H4 H5 H6 H7 H8 H9]. unfold view_ok. simpl. rewrite Hq.
    assert (owed q (v_delivered v) <= 1) as Hle.
    { unfold owed. destruct (rq_caller q); [lia|destruct (v_delivered v); lia|destruct (_ && _); lia]. }
    split; simpl; try done; [lia..| |].
    + intros E. destruct (H7 E). lia.
    + intros E. destruct (H8 E) as (E' & _). unfold is_gone in Hg. by rewrite E' in Hg.
  - unfold view_ok. simpl. destruct (v_req v) as [q|]; [|done].
    destruct Hok as [H1 H2 H3 H4 H5 H6 H7 H8 H9]. split; simpl; try done.
    intros E. by destruct (H8 E) as (? & ? & _).
Qed.

Lemma vsteps_ok v v' : vsteps v v' -> view_ok v -> view_ok v'.
Proof. apply rtc_invariant. intros a b Ha Hs. by eapply vstep_ok. Qed.

(** ** The life of one interaction

    The same for occurrence [k] of a server request: it, the lines accepted for it, and
    whether the teardown has retired the answers not sent. *)

Record IView := MkIView { iv : option Inter; iv_lines : Z; iv_retired : bool }.

Definition retired (s : T) : bool := bool_decide (stage s = Retired) || bool_decide (stage s = Closed).

Definition iview (k : nat) (s : T) : IView := MkIView (inters s !! k) (lines (OAns k) s) (retired s).

Definition i_map (f : Inter -> Inter) (v : IView) : IView := MkIView (f <$> iv v) (iv_lines v) (iv_retired v).

Inductive iphase_move (i : Inter) : Phase -> Prop :=
| ip_move p : phase_move (in_write i) p -> p <> Draining -> iphase_move i p
| ip_stale : in_write i = Spawned -> in_state i <> Resolving -> iphase_move i (Ended WStale).

Inductive ivstep (v : IView) : IView -> Prop :=
| i_new key : iv v = None -> ivstep v (MkIView (Some (new_inter key)) (iv_lines v) (iv_retired v))
| i_phase i p : iv v = Some i -> iphase_move i p -> ivstep v (i_map (in_with_write p) v)
| i_left i : iv v = Some i -> in_write i = Queued \/ in_write i = Granted -> iv_retired v = true ->
    ivstep v (i_map (in_with_write (Ended WLeft)) v)
| i_gate i : iv v = Some i -> in_write i = Spawned -> in_state i = Resolving -> ivstep v (i_map in_commit v)
| i_line i : iv v = Some i -> in_write i = Spawned -> in_state i = Resolving -> in_wire_committed i = true ->
    ivstep v (MkIView (Some (in_with_write Draining i)) (iv_lines v + 1) (iv_retired v))
| i_resolve i : iv v = Some i -> ivstep v (i_map resolve v)
| i_lose : ivstep v (i_map (retire false) (i_map invalidate_open v))
| i_retire : iv_retired v = false -> ivstep v (MkIView (retire true <$> iv v) (iv_lines v) true)
| i_answer i final : iv v = Some i -> in_state i = Pending -> iv_retired v = false ->
    ivstep v (i_map (fun i => in_with_write Queued (in_with_final final (in_with_state Resolving i))) v)
| i_commit i e : iv v = Some i -> in_write i = Ended e ->
    ivstep v (i_map (fun i => in_with_write Idle (committed e i)) v).

(** *** What holds of an interaction at any time *)

Definition refused (i : Inter) : Prop :=
  in_state i = Resolved \/ exists b, in_state i = Invalidated b.

Definition answer_phase_ok (i : Inter) (n : Z) : Prop :=
  match in_write i with
  | Idle => in_state i <> Resolving
  | Queued | Granted => n = 0 /\ in_wire_committed i = false /\ (in_state i = Resolving \/ refused i)
  | Spawned => n = 0 /\ (in_state i = Resolving \/ refused i /\ in_wire_committed i = false)
  | Draining | Ended WOk => n = 1 /\ in_state i = Resolving
  | Ended (WLost closing) =>
      (in_state i = Resolving \/ refused i) /\ (n = 1 -> closing = false /\ in_state i = Resolving)
  | Ended WStale | Ended WLeft => n = 0 /\ refused i
  end.

Definition state_ok (i : Inter) (n : Z) : Prop :=
  match in_state i with
  | Pending => in_write i = Idle /\ in_wire_committed i = false /\ n = 0
  | Resolving | Invalidated false => True
  | Answered | Failed => in_write i = Idle /\ n = 1
  | Resolved | Invalidated true => n = 0
  end.

Record inter_ok (i : Inter) (n : Z) (ret : bool) : Prop := {
  io_lines : 0 <= n <= 1;
  io_wire : n = 1 -> in_wire_committed i = true;
  io_phase : answer_phase_ok i n;
  io_state : state_ok i n;
  io_retired : ret = true -> in_state i = Resolving -> in_wire_committed i = true;
}.

Definition iview_ok (v : IView) : Prop :=
  match iv v with None => iv_lines v = 0 | Some i => inter_ok i (iv_lines v) (iv_retired v) end.

(** Upstream, the loss and the teardown only ever refuse. *)
Lemma refuse_ok i n ret b st :
  inter_ok i n ret -> st = Resolved \/ st = Invalidated b ->
  in_state i = Pending \/ in_state i = Resolving /\ in_wire_committed i = false ->
  inter_ok (in_with_state st i) n ret.
Proof.
  intros [H1 H2 H3 H4 H5] Hst Hi.
  assert (n = 0) as Hn.
  { destruct Hi as [E|[_ E]]; [unfold state_ok in H4; rewrite E in H4; apply H4|].
    destruct (decide (n = 1)) as [E1|]; [|lia]. rewrite (H2 E1) in E. done. }
  assert (refused (in_with_state st i)) as Hr by (unfold refused; simpl; destruct Hst as [-> | ->]; eauto).
  split; simpl; try done.
  - unfold answer_phase_ok in *. simpl. destruct Hi as [E|[E Ec]].
    + unfold state_ok in H4. rewrite E in H4. destruct H4 as (-> & _ & _). by destruct Hst as [-> | ->].
    + destruct (in_write i) as [| | | | |[]]; rewrite ?Hn in *; try done; try lia.
      * split_and!; auto; apply H3.
      * split_and!; auto; apply H3.
      * split; auto.
      * split; [auto|lia].
  - unfold state_ok. simpl. destruct Hst as [-> | ->]; [done|]. by destruct b.
  - intros _ E. by destruct Hst as [-> | ->].
Qed.

Lemma retire_ok b i n ret : inter_ok i n ret -> inter_ok (retire b i) n ret.
Proof.
  intros Hok. unfold retire. case_bool_decide; [|done]. destruct (in_wire_committed i) eqn:E; [done|].
  eapply refuse_ok; [done|by right|auto].
Qed.

Lemma invalidate_ok i n ret : inter_ok i n ret -> inter_ok (invalidate_open i) n ret.
Proof.
  intros Hok. unfold invalidate_open, is_open. case_bool_decide; [|done].
  eapply refuse_ok; [done|by right|auto].
Qed.

Lemma resolve_ok i n ret : inter_ok i n ret -> inter_ok (resolve i) n ret.
Proof.
  intros Hok. assert (in_state i <> Pending -> inter_ok (in_late i) n ret) as Hlate.
  { intros _. destruct Hok. by split. }
  unfold resolve. destruct (in_state i) eqn:Es; try (by apply Hlate); [| |done..].
  - by eapply (refuse_ok _ _ _ false); [done|left|auto].
  - destruct (in_wire_committed i) eqn:E; [by apply Hlate|].
    by eapply (refuse_ok _ _ _ false); [done|left|auto].
Qed.

Lemma iphase_ok i n ret p : inter_ok i n ret -> iphase_move i p -> inter_ok (in_with_write p i) n ret.
Proof.
  intros [H1 H2 H3 H4 H5] Hm. assert (in_write i <> Idle) as Hni.
  { intros E. destruct Hm as [p Hm|]; [|congruence]. rewrite E in Hm. inversion Hm. }
  assert (in_state i <> Pending /\ in_state i <> Answered /\ in_state i <> Failed) as (N1 & N2 & N3).
  { unfold state_ok in H4. by destruct (in_state i) eqn:?; try destruct H4. }
  split; simpl; try done.
  - unfold answer_phase_ok in *. simpl. destruct Hm as [p Hm Hp|Hw Hs].
    + inversion Hm as [E|E|E|c E|E|E]; subst; rewrite <- E in H3; try done.
      * destruct H3 as (-> & ? & [|]); auto.
      * destruct H3 as (-> & ? & ?). split; [auto|lia].
      * destruct H3 as (-> & [|[? ?]]); (split; [auto|lia]).
      * destruct H3 as (-> & ->). auto.
    + rewrite Hw in H3. destruct H3 as (-> & [|[? ?]]); done.
  - unfold state_ok in *. simpl. by destruct (in_state i).
Qed.

Lemma ivstep_ok v v' : ivstep v v' -> iview_ok v -> iview_ok v'.
Proof.
  intros Hs Hok. unfold iview_ok in Hok.
  destruct Hs as [key Hn|i p Hi Hm|i Hi Hw Hr|i Hi Hw Hs|i Hi Hw Hs Hc|i Hi| |Hr|i f Hi Hs Hr|i e Hi Hw];
    rewrite ?Hi in Hok; unfold iview_ok; simpl; rewrite ?Hi; simpl.
  - rewrite Hn in Hok. rewrite Hok. by split.
  - by apply (iphase_ok i _ _ p).
  - destruct Hok as [H1 H2 H3 H4 H5]. assert (iv_lines v = 0 /\ refused i) as [E1 E2].
    { unfold answer_phase_ok in H3. destruct Hw as [E|E]; rewrite E in H3;
        destruct H3 as (? & ? & [Hres|]); try done; rewrite (H5 Hr Hres) in *; done. }
    split; simpl; try done. unfold state_ok in *. simpl. by destruct E2 as [E|[b E]]; rewrite E in *.
  - destruct Hok as [H1 H2 H3 H4 H5]. split; simpl; try done.
    + unfold answer_phase_ok in *. simpl. rewrite Hw in *. destruct H3. auto.
    + unfold state_ok in *. simpl. by rewrite Hs.
  - destruct Hok as [H1 H2 H3 H4 H5]. unfold answer_phase_ok in H3. rewrite Hw in H3. destruct H3 as [E _].
    split; simpl; try done; [lia| |].
    + unfold answer_phase_ok. simpl. split; [lia|done].
    + unfold state_ok. simpl. by rewrite Hs.
  - by apply resolve_ok in Hok.
  - destruct (iv v) as [i|]; [|done]. simpl. by apply retire_ok, invalidate_ok.
  - destruct (iv v) as [i|]; [|done]. simpl. pose proof (retire_ok true i _ _ Hok) as [H1 H2 H3 H4 H5].
    split; try done. intros _. unfold retire.
    destruct (bool_decide _) eqn:E, (in_wire_committed i) eqn:Ec; simpl; b2p; done.
  - destruct Hok as [H1 H2 H3 H4 H5]. unfold state_ok in H4. rewrite Hs in H4.
    destruct H4 as (E1 & E2 & E3). split; simpl; try done; [|congruence].
    unfold answer_phase_ok. simpl. auto.
  - destruct Hok as [H1 H2 H3 H4 H5]. unfold answer_phase_ok in H3. rewrite Hw in H3.
    destruct e as [|c| |]; simpl.
    + destruct H3 as [E1 E2]. specialize (H2 E1).
      split; simpl; try done; destruct (in_final i); unfold answer_phase_ok, state_ok; simpl; auto.
    + case_bool_decide as Es.
      * split; simpl; try done. unfold state_ok. simpl. destruct c; [|done].
        destruct (decide (iv_lines v = 1)) as [E|]; [|lia]. by destruct (proj2 H3 E).
      * split; simpl; try done. unfold state_ok in *. simpl.
        unfold refused in H3. destruct (in_state i); try done; destruct H3 as [[E|[E|[b E]]] _]; done.
    + destruct H3 as [E1 E2]. split; simpl; try done.
      * unfold answer_phase_ok. simpl. by destruct E2 as [-> |[b ->]].
      * unfold state_ok in *. simpl. by destruct E2 as [E|[b E]]; rewrite E in *.
    + destruct H3 as [E1 E2]. split; simpl; try done.
      * unfold answer_phase_ok. simpl. by destruct E2 as [-> |[b ->]].
      * unfold state_ok in *. simpl. by destruct E2 as [E|[b E]]; rewrite E in *.
Qed.

Definition is_settled (i : Inter) : bool := negb (is_live i).

(** A settled interaction stays as it is, on the wire too. *)
Lemma ivstep_settled v v' i :
  ivstep v v' -> iview_ok v -> iv v = Some i -> is_settled i = true ->
  exists i', iv v' = Some i' /\ in_state i' = in_state i /\ iv_lines v' = iv_lines v.
Proof.
  intros Hs Hok Hv Hi. unfold iview_ok in Hok. rewrite Hv in Hok. destruct Hok as [H1 H2 H3 H4 H5].
  assert (in_state i <> Pending /\ in_state i <> Resolving) as [N1 N2].
  { unfold is_settled, is_live in Hi. by destruct (in_state i). }
  destruct Hs as [key Hn|j p Hj Hm|j Hj Hw Hr|j Hj Hw Hs|j Hj Hw Hs Hc|j Hj| |Hr|j f Hj Hs Hr|j e Hj Hw];
    try congruence; try (rewrite Hv in Hj; injection Hj as <-; try congruence); simpl; rewrite ?Hv; simpl; try (by eexists).
  - eexists. split_and!; [done| |done]. unfold resolve. by destruct (in_state i) eqn:E.
  - eexists. split_and!; [done| |done]. unfold retire, invalidate_open, is_open.
    rewrite (bool_decide_false (in_state i = Pending)), bool_decide_false by done. done.
  - eexists. split_and!; [done| |done]. unfold retire. by rewrite bool_decide_false by done.
  - eexists. split_and!; [done| |done]. simpl. destruct e; simpl; try done.
    + unfold answer_phase_ok in H3. rewrite Hw in H3. by destruct H3.
    + by rewrite bool_decide_false by done.
Qed.

(** *** Every event, seen from one interaction *)

Definition ivsteps : IView -> IView -> Prop := rtc ivstep.

Lemma iview_upd_inter k k' f s :
  iview k (upd_inter k' f s) = if decide (k' = k) then i_map f (iview k s) else iview k s.
Proof.
  unfold iview, i_map, upd_inter. simpl. case_decide as E; [subst; by rewrite list_lookup_alter_eq|].
  by rewrite list_lookup_alter_ne.
Qed.

Lemma iview_set_phase k o p s :
  iview k (set_phase o p s) = if decide (o = OAns k) then i_map (in_with_write p) (iview k s) else iview k s.
Proof.
  destruct o as [r|k'|n]; [by rewrite decide_False by done| |by rewrite decide_False by done].
  simpl. rewrite iview_upd_inter. case_decide; case_decide; congruence.
Qed.

Lemma iview_finish_write k o e s : iview k (finish_write o e s) = iview k (set_phase o (Ended e) s).
Proof. done. Qed.

Lemma iview_abandon k o e s : iview k (abandon o e s) = iview k (set_phase o (Ended e) s).
Proof. unfold abandon. by case_match. Qed.

Lemma iview_fanout k item s : iview k (_fanout item s) = iview k s.
Proof. done. Qed.

Lemma iview_accept k o s :
  iview k (with_wire (wire s ++ [o]) s)
    = MkIView (iv (iview k s)) (iv_lines (iview k s) + if decide (o = OAns k) then 1 else 0) (retired s).
Proof.
  unfold iview, lines. simpl. rewrite countb_app. simpl.
  case_decide as E; [rewrite (bool_decide_true (o = OAns k)) by done|rewrite (bool_decide_false (o = OAns k)) by done];
    f_equal; lia.
Qed.

Lemma holds_ans k p s :
  holds (OAns k) p s = true -> exists i, inters s !! k = Some i /\ in_write i = p.
Proof.
  unfold holds. simpl. rewrite bool_decide_eq_true.
  destruct (inters s !! k) as [i|]; [|done]. simpl. intros [= <-]. eauto.
Qed.

Lemma iphase_ivsteps o p p' s k :
  holds o p s = true -> phase_move p p' -> p' <> Draining ->
  ivsteps (iview k s) (iview k (set_phase o p' s)).
Proof.
  intros Hh Hm Hd. rewrite iview_set_phase. case_decide as E; [|apply rtc_refl]. subst o.
  apply holds_ans in Hh as (i & Hi & <-). apply rtc_once. apply i_phase with i; [done|]. by apply ip_move.
Qed.

Lemma iview_terminalize k reason s :
  iview k (_terminalize reason s)
    = if bool_decide (terminal s = None) then i_map (retire false) (i_map invalidate_open (iview k s))
      else iview k s.
Proof.
  destruct (terminal s) as [t|] eqn:E; [by rewrite (terminalize_again _ _ _ E)|].
  destruct (terminalize_fields reason s E) as (_ & _ & _ & _ & H5 & _ & H7 & _ & _ & _ & H11 & _).
  unfold iview, i_map, lines, retired. simpl. rewrite H5, H7, H11, !list_lookup_fmap. done.
Qed.

Lemma terminalize_ivsteps reason s k : ivsteps (iview k s) (iview k (_terminalize reason s)).
Proof. rewrite iview_terminalize. case_match; [apply rtc_once, i_lose|apply rtc_refl]. Qed.

Lemma iview_orphan k r q s : iview k (_orphan r q s) = iview k s.
Proof. unfold _orphan. by repeat case_match. Qed.

Lemma iview_depart k r q l s : iview k (depart r q l s) = iview k s.
Proof.
  unfold depart. destruct (rq_committed q); [|done].
  change (iview k (gone r ?o ?x)) with (iview k x). apply iview_orphan.
Qed.

Lemma start_write_ivsteps o fails s k :
  holds o Spawned s = true -> ivsteps (iview k s) (iview k (start_write o fails s)).
Proof.
  intros Hh. unfold start_write. destruct (raise_if_lost s) as [closing|] eqn:El.
  { rewrite iview_finish_write. eapply iphase_ivsteps; [done|constructor|done]. }
  destruct (gate o s) as [s1|] eqn:Eg.
  - assert (ivsteps (iview k s) (iview k s1)) as Hv.
    { destruct o as [r|k'|n]; simpl in Eg; [by injection Eg as <-; apply rtc_refl| |by injection Eg as <-; apply rtc_refl].
      apply holds_ans in Hh as (i & Hi & Hw). rewrite Hi in Eg. case_bool_decide; [|done]. injection Eg as <-.
      rewrite iview_upd_inter. case_decide; [subst|apply rtc_refl]. apply rtc_once. by apply i_gate with i. }
    etransitivity; [exact Hv|]. rewrite <- (gate_holds o o _ s s1 Eg) in Hh. destruct fails.
    + etransitivity; [apply terminalize_ivsteps|].
      rewrite iview_finish_write. eapply iphase_ivsteps; [by rewrite holds_terminalize|constructor|done].
    + rewrite iview_set_phase. assert (forall x, iview k (mark_committed o x) = iview k x) as -> by (by destruct o).
      rewrite iview_accept. case_decide as E; [subst o|].
      * apply rtc_once. simpl in Eg. destruct (inters s !! k) as [i|] eqn:Hi; [|done].
        case_bool_decide; [|done]. injection Eg as <-. apply holds_ans in Hh as (i1 & Hi1 & Hw).
        assert (i1 = in_commit i) as ->.
        { simpl in Hi1. rewrite list_lookup_alter_eq, Hi in Hi1. by injection Hi1 as <-. }
        unfold i_map. simpl. rewrite list_lookup_alter_eq, Hi. simpl.
        apply i_line with (i := in_commit i); try done; simpl; by rewrite list_lookup_alter_eq, Hi.
      * rewrite Z.add_0_r. apply rtc_refl.
  - destruct o as [r|k'|n]; [done| |done]. rewrite iview_finish_write, iview_set_phase.
    case_decide as E; [injection E as ->|apply rtc_refl]. apply holds_ans in Hh as (i & Hi & Hw).
    simpl in Eg. rewrite Hi in Eg. case_bool_decide; [done|].
    apply rtc_once. apply i_phase with i; [done|]. by apply ip_stale.
Qed.

Lemma end_drain_ivsteps o d s k :
  holds o Draining s = true -> ivsteps (iview k s) (iview k (end_drain o d s)).
Proof.
  intros Hh. assert (forall reason, ivsteps (iview k s)
    (iview k (finish_write o (WLost false) (_terminalize reason s)))) as Hl.
  { intros reason. etransitivity; [apply terminalize_ivsteps|]. rewrite iview_finish_write.
    eapply iphase_ivsteps; [by rewrite holds_terminalize|constructor|done]. }
  destruct d; [|apply Hl..]. unfold end_drain. rewrite iview_finish_write.
  eapply iphase_ivsteps; [done|constructor|done].
Qed.

Section iviews.
Context (generation : Z) (supported : list string) (request_id : nat -> string).
Notation exec := (exec generation supported request_id).

Lemma lookup_inter_Some key s k i :
  lookup_inter key s = Some (k, i) -> dict_get (registry s) key = Some k /\ inters s !! k = Some i.
Proof.
  unfold lookup_inter. destruct (dict_get (registry s) key) as [k'|]; [|done].
  destruct (inters s !! k') as [i'|] eqn:E; [|done]. by intros [= <- <-].
Qed.

Lemma server_request_ivsteps k id method s :
  ivsteps (iview k s) (iview k (_on_server_request supported id method s)).
Proof.
  unfold _on_server_request. destruct (key_of id) as [key|]; [|apply rtc_refl].
  destruct (live_id key s); [apply rtc_refl|]. destruct (negb _); [apply rtc_refl|].
  rewrite iview_fanout. unfold iview. simpl. destruct (inters s !! k) as [i|] eqn:Hi.
  - rewrite (lookup_app_l_Some _ _ _ _ Hi). apply rtc_refl.
  - destruct (decide (k = length (inters s))) as [->|Hne].
    + rewrite lookup_app_r, Nat.sub_diag by lia. apply rtc_once. by apply (i_new (MkIView None _ _)).
    + apply lookup_ge_None in Hi. rewrite lookup_ge_None_2; [apply rtc_refl|].
      rewrite length_app. simpl. lia.
Qed.

Lemma resolve_interaction_ivsteps k params s :
  ivsteps (iview k s) (iview k (_resolve_interaction params s)).
Proof.
  unfold _resolve_interaction. destruct (key_of _) as [key|]; [|apply rtc_refl].
  rewrite iview_fanout. destruct (lookup_inter key s) as [[k' i]|] eqn:El; [|apply rtc_refl].
  apply lookup_inter_Some in El as [_ Hi].
  rewrite iview_upd_inter. case_decide; [subst|apply rtc_refl]. apply rtc_once. by apply i_resolve with i.
Qed.

Lemma iview_on_response k r outcome s : iview k (_on_response r outcome s) = iview k s.
Proof. unfold _on_response. by repeat case_match. Qed.

Lemma line_ivsteps k line s s1 :
  note_answered request_id line s = s1 ->
  ivsteps (iview k s) (iview k (read_line supported request_id line s1)).
Proof.
  unfold note_answered. intros Hn. assert (iview k s1 = iview k s) as <-.
  { subst s1. by destruct (line ≫= _) as [r|]. }
  clear Hn s. rename s1 into s. unfold read_line.
  destruct line as [[| | | | |l|d]|]; try apply (terminalize_ivsteps "protocol_error").
  unfold _dispatch. destruct (jget (JObj d) "id") as [id|], (jget_null (JObj d) "method");
    try apply (terminalize_ivsteps "protocol_error");
    try (destruct (request_named request_id id s); [rewrite iview_on_response|]; apply rtc_refl).
  - apply server_request_ivsteps.
  - case_bool_decide; [apply resolve_interaction_ivsteps|apply rtc_refl].
Qed.

Lemma iview_request k s : iview k (request s) = iview k s.
Proof. unfold request. by case_match. Qed.

Lemma answer_ivsteps k key gen tok final s :
  ivsteps (iview k s) (iview k (answer generation key gen tok final s)).
Proof.
  unfold answer. destruct (_fence _ _ _ _ _) eqn:Ef; [|apply rtc_refl].
  rewrite iview_upd_inter. case_decide; [subst|apply rtc_refl]. apply rtc_once.
  unfold _fence in Ef. destruct (_ && _) eqn:Ec; [done|].
  destruct (lookup_inter key s) as [[k' i]|] eqn:El; [|done]. apply lookup_inter_Some in El as [_ Hi].
  unfold is_open in Ef. b2p. subst k'.
  apply (i_answer _ i); [done|done|]. simpl. unfold retired, is_closing in *.
  destruct Ec as [Ec|Ec]; b2p; [|done]. by rewrite Ec.
Qed.

(** One event of the transport is a few steps in the life of each interaction. *)
Lemma exec_iviews e s s' k : exec e s = Some s' -> ivsteps (iview k s) (iview k s').
Proof.
  destruct e as [| |r sync|r sync|o|o|o|r|o|o|o fails|o d|r|r|r|key gen tok fin|k'|line|ex| | | | |mp hl|b|b];
    cbn [AppServer.exec]; intros He.
  - injection He as <-. rewrite iview_request. apply rtc_refl.
  - injection He as <-. unfold notify. by case_match; apply rtc_refl.
  - destruct (requests s !! r); [|done]. case_match; [done|]. injection He as <-. apply rtc_refl.
  - destruct (requests s !! r); [|done]. case_match; [|done]. injection He as <-. apply rtc_refl.
  - destruct (_ && _) eqn:Hg; [|done]. b2p. injection He as <-.
    change (iview k (with_lock _ ?x)) with (iview k x). eapply iphase_ivsteps; [done|constructor|done].
  - destruct (_ && _) eqn:Hg; [|done]. b2p. injection He as <-. eapply iphase_ivsteps; [done|constructor|done].
  - destruct (_ && _) eqn:Hg; [|done]. destruct (terminal s); [|done]. b2p. injection He as <-.
    rewrite iview_abandon. eapply iphase_ivsteps; [done|constructor|done].
  - destruct (_ && _) eqn:Hg; [|done]. injection He as <-.
    change (iview k (gone r ?o ?x)) with (iview k x). rewrite iview_abandon. apply rtc_refl.
  - destruct (lock s) as [h|]; [|done]. destruct (_ && _) eqn:Hg; [|done]. b2p. injection He as <-.
    etransitivity; [apply (terminalize_ivsteps "write_timeout")|].
    rewrite iview_abandon. eapply iphase_ivsteps; [by rewrite holds_terminalize|constructor|done].
  - destruct (_ || _) eqn:Hh; [|done]. destruct o as [r|k'|n].
    + destruct (cancelling _ _); [|done]. injection He as <-.
      change (iview k (gone r ?o ?x)) with (iview k x). rewrite iview_abandon. apply rtc_refl.
    + case_bool_decide as Hs; [|done]. injection He as <-. rewrite iview_abandon, iview_set_phase.
      case_decide as E; [injection E as ->|apply rtc_refl]. apply rtc_once.
      assert (retired s = true) as Hr by (unfold retired; by rewrite bool_decide_true).
      apply orb_true_iff in Hh as [Hh|Hh]; apply holds_ans in Hh as (i & Hi & Hw); apply i_left with i; auto.
    + injection He as <-. rewrite iview_abandon. apply rtc_refl.
  - destruct (holds o Spawned s) eqn:Hh; [|done]. injection He as <-. by apply start_write_ivsteps.
  - destruct (holds o Draining s) eqn:Hh; [|done]. injection He as <-. by apply end_drain_ivsteps.
  - destruct (requests s !! r) as [q|]; [|done]. destruct (rq_caller q), (rq_write q) as [| | | | |e]; try done.
    case_bool_decide; [injection He as <-; rewrite iview_depart; apply rtc_refl|].
    destruct e; try done; injection He as <-; apply rtc_refl.
  - destruct (requests s !! r) as [q|]; [|done]. destruct (is_waiting q); [|done].
    unfold deliver in He. destruct (rq_future q); try done; [case_bool_decide|..]; injection He as <-; apply rtc_refl.
  - destruct (requests s !! r) as [q|]; [|done].
    assert (exists l, s' = depart r q l s) as [l ->].
    { destruct (rq_caller q), (rq_leaving q) as [[]|]; try done; [case_bool_decide; [|done]|..];
        injection He as <-; eauto. }
    rewrite iview_depart. apply rtc_refl.
  - injection He as <-. apply answer_ivsteps.
  - destruct (inters s !! k') as [i|] eqn:Hi; [|done]. destruct (in_write i) eqn:Hw; try done. injection He as <-.
    rewrite iview_upd_inter. case_decide; [subst|apply rtc_refl]. apply rtc_once. by apply (i_commit _ i).
  - destruct (reader s); [|done]. injection He as <-. by eapply line_ivsteps.
  - destruct (reader s); [|done]. injection He as <-. apply terminalize_ivsteps.
  - case_bool_decide; [done|]. injection He as <-. apply terminalize_ivsteps.
  - injection He as <-. destruct (is_closing s) eqn:Ec; [apply rtc_refl|].
    unfold iview, retired, is_closing in *. simpl. b2p. rewrite Ec. apply rtc_refl.
  - case_bool_decide as Es; [|done]. injection He as <-. apply rtc_once.
    unfold iview, retired. simpl. rewrite list_lookup_fmap, Es. by apply (i_retire (MkIView _ _ _)).
  - case_bool_decide as Es; [|done]. injection He as <-.
    etransitivity; [apply (terminalize_ivsteps "closed")|].
    assert (stage (_terminalize "closed" s) = Retired) as Et.
    { destruct (terminal s) as [t|] eqn:E; [by rewrite (terminalize_again _ _ _ E)|].
      destruct (terminalize_fields "closed" s E) as (_ & _ & _ & _ & _ & _ & _ & _ & _ & _ & -> & _). done. }
    unfold iview, retired. simpl. rewrite Et. apply rtc_refl.
  - injection He as <-. apply rtc_refl.
  - injection He as <-. apply rtc_refl.
  - destruct (subs s !! b) as [x|]; [|done]. destruct (get_nowait x) as [[]|]; [|done].
    injection He as <-. apply rtc_refl.
Qed.
End iviews.

(** ** The registry and the writer *)

(** A live interaction is the one its id names. *)
Definition registry_ok (s : T) : Prop :=
  forall k i, inters s !! k = Some i -> is_live i = true -> dict_get (registry s) (in_key i) = Some k.

Lemma live_retire b i : is_live (retire b i) = true -> is_live i = true.
Proof. unfold retire. by case_match. Qed.

Lemma live_invalidate i : is_live (invalidate_open i) = true -> is_live i = true.
Proof. unfold invalidate_open. by case_match. Qed.

Lemma ivstep_key v v' i :
  ivstep v v' -> iview_ok v -> iv v = Some i ->
  exists i', iv v' = Some i' /\ in_key i' = in_key i /\ (is_live i' = true -> is_live i = true).
Proof.
  intros Hs Hok Hv. unfold iview_ok in Hok. rewrite Hv in Hok.
  destruct Hs as [key Hn|j p Hj Hm|j Hj Hw Hr|j Hj Hw Hs|j Hj Hw Hs Hc|j Hj| |Hr|j f Hj Hs Hr|j e Hj Hw];
    try congruence; try (rewrite Hv in Hj; injection Hj as <-); simpl; rewrite ?Hv; simpl; try (by eexists);
    eexists; (split; [done|]).
  - split; [unfold resolve; by repeat case_match|].
    unfold resolve, is_live. by destruct (in_state i) eqn:Es, (in_wire_committed i); simpl; rewrite ?Es.
  - split; [unfold retire, invalidate_open; by repeat case_match|].
    intros H%live_retire. by apply live_invalidate.
  - split; [unfold retire; by case_match|].
    by intros H%live_retire.
  - split; [done|]. unfold is_live. by rewrite Hs.
  - split; [by destruct e; simpl; try case_match|].
    assert (in_state i = Pending -> False) as Hnp.
    { intros E. pose proof (io_state _ _ _ Hok) as H. unfold state_ok in H. rewrite E in H. destruct H. congruence. }
    unfold is_live. destruct e; simpl; try done.
    + by destruct (in_final i).
    + case_bool_decide as E; [by rewrite E|done].
Qed.

Lemma ivsteps_key v v' : ivsteps v v' -> forall i, iview_ok v -> iv v = Some i ->
  exists i', iv v' = Some i' /\ in_key i' = in_key i /\ (is_live i' = true -> is_live i = true).
Proof.
  induction 1 as [v|v v1 v' Hs Hr IH]; intros i Hok Hv; [by exists i|].
  destruct (ivstep_key _ _ _ Hs Hok Hv) as (i1 & E1 & E2 & E3).
  destruct (IH i1 (ivstep_ok _ _ Hs Hok) E1) as (i2 & F1 & F2 & F3).
  exists i2. split_and!; [done|congruence|auto].
Qed.

Lemma ivsteps_ok v v' : ivsteps v v' -> iview_ok v -> iview_ok v'.
Proof. apply rtc_invariant. intros a b Ha Hs. by eapply ivstep_ok. Qed.

Lemma ivsteps_settled v v' : ivsteps v v' -> forall i, iview_ok v -> iv v = Some i -> is_settled i = true ->
  exists i', iv v' = Some i' /\ in_state i' = in_state i /\ iv_lines v' = iv_lines v.
Proof.
  induction 1 as [v|v v1 v' Hs Hr IH]; intros i Hok Hv Hi; [by exists i|].
  destruct (ivstep_settled _ _ _ Hs Hok Hv Hi) as (i1 & E1 & E2 & E3).
  assert (is_settled i1 = true) as Hi1 by (unfold is_settled, is_live in *; by rewrite E2).
  destruct (IH i1 (ivstep_ok _ _ Hs Hok) E1 Hi1) as (i2 & F1 & F2 & F3).
  exists i2. split_and!; congruence.
Qed.

(** What an event leaves alone: the registry and the set of interactions, unless a server
    request comes in. *)
Definition same_inters (s s' : T) : Prop :=
  registry s' = registry s /\ length (inters s') = length (inters s).

Lemma same_inters_refl s : same_inters s s.
Proof. done. Qed.

Lemma same_inters_trans s1 s2 s3 : same_inters s1 s2 -> same_inters s2 s3 -> same_inters s1 s3.
Proof. intros [? ?] [? ?]. split; congruence. Qed.

Lemma same_inters_upd k f s : same_inters s (upd_inter k f s).
Proof. split; simpl; [done|apply length_alter]. Qed.

Lemma same_inters_phase o p s : same_inters s (set_phase o p s).
Proof. destruct o; [done|apply same_inters_upd|done]. Qed.

Lemma same_inters_abandon o e s : same_inters s (abandon o e s).
Proof. unfold abandon. pose proof (same_inters_phase o (Ended e) s). by case_match. Qed.

Lemma same_inters_finish o e s : same_inters s (finish_write o e s).
Proof. apply (same_inters_phase o (Ended e) s). Qed.

Lemma same_inters_terminalize reason s : same_inters s (_terminalize reason s).
Proof.
  destruct (terminal s) as [t|] eqn:E; [by rewrite (terminalize_again _ _ _ E)|].
  destruct (terminalize_fields reason s E) as (_ & _ & _ & _ & _ & _ & H7 & _ & H9 & _).
  split; [done|]. by rewrite H7, !length_map.
Qed.

Lemma same_inters_orphan r q s : same_inters s (_orphan r q s).
Proof. unfold _orphan. by repeat case_match. Qed.

Lemma same_inters_depart r q l s : same_inters s (depart r q l s).
Proof. unfold depart. case_match; [|done]. apply (same_inters_orphan r q s). Qed.

Lemma same_inters_start o fails s : same_inters s (start_write o fails s).
Proof.
  unfold start_write. destruct (raise_if_lost s); [apply same_inters_finish|].
  destruct (gate o s) as [s1|] eqn:Eg; [|apply same_inters_finish].
  assert (same_inters s s1) as H1.
  { destruct o as [r|k|n]; simpl in Eg; [by injection Eg as <-| |by injection Eg as <-].
    destruct (inters s !! k); [|done]. case_bool_decide; [|done]. injection Eg as <-. apply same_inters_upd. }
  eapply same_inters_trans; [exact H1|]. destruct fails.
  - eapply same_inters_trans; [apply same_inters_terminalize|apply same_inters_finish].
  - eapply same_inters_trans; [|apply same_inters_phase]. by destruct o.
Qed.

Lemma same_inters_drain o d s : same_inters s (end_drain o d s).
Proof.
  destruct d; [apply same_inters_finish|..];
    (eapply same_inters_trans; [apply same_inters_terminalize|apply same_inters_finish]).
Qed.

Create HintDb inters.
#[local] Hint Resolve same_inters_refl same_inters_upd same_inters_phase same_inters_abandon
  same_inters_finish same_inters_terminalize same_inters_depart same_inters_start same_inters_drain : inters.

Section registry.
Context (generation : Z) (supported : list string) (request_id : nat -> string).
Notation exec := (exec generation supported request_id).

Lemma exec_registry e s s' :
  exec e s = Some s' -> same_inters s s' \/
  exists key, live_id key s = false /\ registry s' = dict_set (registry s) key (length (inters s))
    /\ inters s' = inters s ++ [new_inter key].
Proof.
  destruct e as [| |r sync|r sync|o|o|o|r|o|o|o fails|o d|r|r|r|key gen tok fin|k'|line|ex| | | | |mp hl|b|b];
    cbn [AppServer.exec]; intros He.
  all: try (left; repeat (case_match; try done); simplify_eq; auto with inters; done).
  - left. injection He as <-. unfold request. by case_match.
  - left. injection He as <-. unfold notify. by case_match.
  - left. destruct (_ && _); [|done]. injection He as <-. apply (same_inters_phase o Granted s).
  - left. destruct (_ && _); [|done]. injection He as <-. apply (same_inters_abandon (OReq r) WLeft s).
  - left. destruct (lock s); [|done]. destruct (_ && _); [|done]. injection He as <-.
    eapply same_inters_trans; [apply same_inters_terminalize|apply same_inters_abandon].
  - left. destruct (_ || _); [|done]. destruct o; repeat case_match; simplify_eq; apply same_inters_abandon.
  - left. destruct (requests s !! r) as [q|]; [|done]. destruct (rq_caller q), (rq_write q) as [| | | | |e]; try done.
    case_bool_decide; [injection He as <-; auto with inters|]. by destruct e; simplify_eq/=.
  - left. destruct (requests s !! r) as [q|]; [|done]. destruct (is_waiting q); [|done]. unfold deliver in He.
    by repeat case_match; simplify_eq/=.
  - left. injection He as <-. unfold answer. case_match; auto with inters.
  - destruct (reader s); [|done]. injection He as <-. set (s1 := note_answered request_id line s).
    assert (same_inters s s1 /\ inters s1 = inters s) as [H1 H1'].
    { unfold s1, note_answered. by destruct (line ≫= _) as [r|]. } unfold read_line.
    destruct line as [[| | | | |l|d]|]; try (left; eapply same_inters_trans; [exact H1|];
      apply (same_inters_terminalize "protocol_error")).
    unfold _dispatch. destruct (jget (JObj d) "id") as [id|], (jget_null (JObj d) "method") as [| | | |method| |];
      try (left; eapply same_inters_trans; [exact H1|]; apply (same_inters_terminalize "protocol_error"));
      try (left; eapply same_inters_trans; [exact H1|];
        destruct (request_named request_id id s1); [unfold _on_response; by repeat case_match|done]).
    + unfold _on_server_request. destruct (key_of id) as [key|]; [|by left].
      destruct (live_id key s1) eqn:El; [by left|]. destruct (negb _); [by left|].
      right. exists key. simpl. rewrite H1'. destruct H1 as [-> _]. split_and!; try done.
      unfold live_id, lookup_inter in *. destruct (same_inters_refl s) as [_ _].
      unfold s1, note_answered in El. by destruct (_ ≫= _) as [r|].
    + left. case_bool_decide; [|done]. unfold _resolve_interaction.
      destruct (key_of _) as [key|]; [|done]. destruct (lookup_inter key s1) as [[k i]|]; [|done].
      eapply same_inters_trans; [exact H1|]. apply (same_inters_upd k resolve s1).
  - left. destruct (reader s); [|done]. injection He as <-. 
    apply (same_inters_terminalize (if ex then "exit" else "eof") s).
  - left. case_bool_decide; [|done]. injection He as <-. split; [done|]. apply length_map.
  - left. case_bool_decide; [|done]. injection He as <-. apply (same_inters_terminalize "closed" s).
Qed.
End registry.

(** *** One writer at a time *)

Definition has_writer (p : Phase) : bool :=
  match p with Granted | Spawned | Draining => true | _ => false end.

(** Only the holder of the lock is past the queue. *)
Definition lock_ok (s : T) : Prop :=
  forall o p, phase_of o s = Some p -> has_writer p = true -> lock s = Some o.

Lemma phase_of_set o o' p s :
  phase_of o' (set_phase o p s) = if decide (o = o') then (fun _ => p) <$> phase_of o' s else phase_of o' s.
Proof.
  destruct o as [r|k|n], o' as [r'|k'|n']; simpl; try done; try by rewrite decide_False.
  - destruct (decide (r = r')) as [->|]; [rewrite decide_True, list_lookup_alter_eq by done; by destruct (_ !! _)|].
    by rewrite list_lookup_alter_ne, decide_False by congruence.
  - destruct (decide (k = k')) as [->|]; [rewrite decide_True, list_lookup_alter_eq by done; by destruct (_ !! _)|].
    by rewrite list_lookup_alter_ne, decide_False by congruence.
  - destruct (decide (n = n')) as [->|]; [|by rewrite list_lookup_insert_ne, decide_False by congruence].
    rewrite decide_True by done. destruct (notes s !! n') eqn:E; simpl.
    + apply list_lookup_insert_eq. by eapply lookup_lt_Some.
    + apply lookup_ge_None in E. by rewrite list_insert_ge, lookup_ge_None_2.
Qed.

(** A change of the phases after which no more of them hold the writer. *)
Lemma lock_ok_sub s s' :
  lock_ok s -> lock s' = lock s ->
  (forall o p, phase_of o s' = Some p -> has_writer p = true ->
     exists p', phase_of o s = Some p' /\ has_writer p' = true) ->
  lock_ok s'.
Proof. intros Hok Hl Hp o p Ho Hw. rewrite Hl. destruct (Hp o p Ho Hw) as (p' & ? & ?). by eapply Hok. Qed.

Lemma lock_ok_finish o e s : lock_ok s -> lock s = Some o -> lock_ok (finish_write o e s).
Proof.
  intros Hok Hl o' p Ho Hw. exfalso. change (phase_of o' (finish_write o e s)) with (phase_of o' (set_phase o (Ended e) s)) in Ho.
  rewrite phase_of_set in Ho. case_decide as E.
  - destruct (phase_of o' s); [|done]. injection Ho as <-. done.
  - assert (lock s = Some o') by (by eapply Hok). congruence.
Qed.

Lemma lock_ok_abandon o e s : lock_ok s -> lock_ok (abandon o e s).
Proof.
  intros Hok. assert (lock_ok (set_phase o (Ended e) s)) as H.
  { eapply lock_ok_sub; [exact Hok|by destruct o|]. intros o' p Ho Hw. rewrite phase_of_set in Ho.
    case_decide; [destruct (phase_of o' s); [|done]; by injection Ho as <-|eauto]. }
  unfold abandon. case_bool_decide as E; [|done]. intros o' p Ho Hw. exfalso.
  change (phase_of o' (set_phase o (Ended e) s) = Some p) in Ho. pose proof (H o' p Ho Hw) as Hl.
  assert (lock (set_phase o (Ended e) s) = lock s) as El by (by destruct o).
  assert (o' = o) as -> by congruence. rewrite phase_of_set, decide_True in Ho by done.
  destruct (phase_of o s); [|done]. by injection Ho as <-.
Qed.

Lemma lock_ok_phase o p s : lock_ok s -> lock s = Some o -> lock_ok (set_phase o p s).
Proof.
  intros Hok Hl o' p' Ho Hw. assert (lock (set_phase o p s) = lock s) as -> by (by destruct o).
  rewrite phase_of_set in Ho. case_decide as E; [by subst|]. by eapply Hok.
Qed.

Lemma lock_terminalize reason s : lock (_terminalize reason s) = lock s.
Proof.
  destruct (terminal s) as [t|] eqn:E; [by rewrite (terminalize_again _ _ _ E)|].
  by destruct (terminalize_fields reason s E) as (_ & _ & _ & _ & _ & _ & _ & _ & _ & -> & _).
Qed.

Lemma lock_ok_terminalize reason s : lock_ok s -> lock_ok (_terminalize reason s).
Proof.
  intros Hok. eapply lock_ok_sub; [done|apply lock_terminalize|].
  intros o p. rewrite phase_of_terminalize. eauto.
Qed.

Lemma lock_ok_same s s' :
  lock_ok s -> lock s' = lock s -> (forall o, phase_of o s' = phase_of o s) -> lock_ok s'.
Proof. intros Hok Hl Hp. eapply lock_ok_sub; [done|done|]. intros o p. rewrite Hp. eauto. Qed.

Lemma phase_of_upd_req r f o s :
  (forall q, rq_write (f q) = rq_write q) -> phase_of o (upd_req r f s) = phase_of o s.
Proof.
  intros Hf. destruct o as [r'| |]; simpl; try done.
  destruct (decide (r = r')) as [->|]; [|by rewrite list_lookup_alter_ne].
  rewrite list_lookup_alter_eq. destruct (requests s !! r'); simpl; [by rewrite Hf|done].
Qed.

Lemma phase_of_upd_inter k f o s :
  (forall i, in_write (f i) = in_write i) -> phase_of o (upd_inter k f s) = phase_of o s.
Proof.
  intros Hf. destruct o as [|k'|]; simpl; try done.
  destruct (decide (k = k')) as [->|]; [|by rewrite list_lookup_alter_ne].
  rewrite list_lookup_alter_eq. destruct (inters s !! k'); simpl; [by rewrite Hf|done].
Qed.

Lemma phase_of_orphan r q o s : phase_of o (_orphan r q s) = phase_of o s /\ lock (_orphan r q s) = lock s.
Proof. unfold _orphan. by repeat case_match. Qed.

Lemma lock_ok_depart r q l s : lock_ok s -> lock_ok (depart r q l s).
Proof.
  intros Hok. unfold depart. destruct (rq_committed q).
  - eapply lock_ok_same; [exact Hok|apply (phase_of_orphan r q (ONote 0) s)|].
    intros o. unfold gone. rewrite phase_of_upd_req by done. apply phase_of_orphan.
  - eapply lock_ok_same; [exact Hok|done|]. intros o. by apply phase_of_upd_req.
Qed.

Lemma gate_lock o s s1 : gate o s = Some s1 -> lock s1 = lock s.
Proof.
  destruct o as [r|k|n]; simpl; [by intros [= <-]| |by intros [= <-]].
  destruct (inters s !! k); [|done]. case_bool_decide; [|done]. by intros [= <-].
Qed.

Lemma gate_phases o s s1 o' : gate o s = Some s1 -> phase_of o' s1 = phase_of o' s.
Proof.
  destruct o as [r|k|n]; simpl; [by intros [= <-]| |by intros [= <-]].
  destruct (inters s !! k); [|done]. case_bool_decide; [|done]. intros [= <-]. by apply phase_of_upd_inter.
Qed.

Lemma lock_ok_start o fails s : lock_ok s -> lock s = Some o -> lock_ok (start_write o fails s).
Proof.
  intros Hok Hl. unfold start_write. destruct (raise_if_lost s); [by apply lock_ok_finish|].
  destruct (gate o s) as [s1|] eqn:Eg; [|by apply lock_ok_finish].
  assert (lock_ok s1) as Hok1.
  { eapply lock_ok_same; [exact Hok|by eapply gate_lock|]. intros o'. by eapply gate_phases. }
  rewrite <- (gate_lock _ _ _ Eg) in Hl. destruct fails.
  - apply lock_ok_finish; [by apply lock_ok_terminalize|by rewrite lock_terminalize].
  - apply lock_ok_phase; [|by destruct o]. destruct o as [r|k|n]; [|done..].
    eapply lock_ok_same; [exact Hok1|done|]. intros o'. simpl mark_committed.
    rewrite phase_of_upd_req by done. done.
Qed.

Section invariants.
Context (generation : Z) (supported : list string) (request_id : nat -> string).
Notation exec := (exec generation supported request_id).
Notation step := (step generation supported request_id).
Notation reachable := (reachable generation supported request_id).

Lemma holds_lock o p s : lock_ok s -> holds o p s = true -> has_writer p = true -> lock s = Some o.
Proof. intros Hok Hh Hw. unfold holds in Hh. b2p. by eapply Hok. Qed.

Lemma line_phases line s s1 o :
  note_answered request_id line s = s1 ->
  (forall p, phase_of o (read_line supported request_id line s1) = Some p -> has_writer p = true ->
     phase_of o s = Some p) /\ lock (read_line supported request_id line s1) = lock s.
Proof.
  unfold note_answered. intros Hn. assert (phase_of o s1 = phase_of o s /\ lock s1 = lock s) as [<- <-].
  { subst s1. destruct (line ≫= _) as [r|]; [|done]. by destruct o. }
  clear Hn s. rename s1 into s.
  assert (forall reason b, (forall p, phase_of o (with_reader b (_terminalize reason s)) = Some p ->
    has_writer p = true -> phase_of o s = Some p) /\ lock (with_reader b (_terminalize reason s)) = lock s) as Ht.
  { intros reason b. change (phase_of o (with_reader b ?x)) with (phase_of o x).
    rewrite phase_of_terminalize. split; [done|apply lock_terminalize]. }
  assert (forall p, phase_of o (spawn_write s) = Some p -> has_writer p = true -> phase_of o s = Some p) as Hsp.
  { intros p Hp Hw. destruct o as [r|k|n]; [done..|]. simpl in *. apply lookup_app_Some in Hp as [|[_ Hp]]; [done|].
    apply list_lookup_singleton_Some in Hp as [_ <-]. done. }
  unfold read_line. destruct line as [[| | | | |l|d]|]; try apply Ht.
  unfold _dispatch. destruct (jget (JObj d) "id") as [id|], (jget_null (JObj d) "method") as [| | | |method| |];
    try apply (Ht "protocol_error" (reader s));
    try (destruct (request_named request_id id s) as [r|]; [|done]; unfold _on_response;
      repeat (case_match; try done); (split; [intros p; rewrite ?phase_of_upd_req by done; done|done])).
  - unfold _on_server_request. destruct (key_of id) as [key|]; [|done].
    destruct (live_id key s); [by split|]. destruct (negb _); [by split|]. split; [|done].
    intros p Hp Hw. destruct o as [r|k|n]; [done| |done]. simpl in *.
    destruct ((inters s ++ _) !! k) as [i|] eqn:Hi; [|done]. injection Hp as <-.
    apply lookup_app_Some in Hi as [->|[_ Hi]]; [done|].
    apply list_lookup_singleton_Some in Hi as [_ <-]. done.
  - case_bool_decide; [|done]. unfold _resolve_interaction. destruct (key_of _) as [key|]; [|done].
    destruct (lookup_inter key s) as [[k i]|]; [|done]. split; [|done]. intros p.
    change (phase_of o (_fanout ?x ?y)) with (phase_of o y).
    rewrite phase_of_upd_inter; [done|]. intros j. unfold resolve. by repeat case_match.
Qed.

Lemma exec_lock e s s' : exec e s = Some s' -> lock_ok s -> lock_ok s'.
Proof.
  intros He Hok.
  destruct e as [| |r sync|r sync|o|o|o|r|o|o|o fails|o d|r|r|r|key gen tok fin|k'|line|ex| | | | |mp hl|b|b];
    cbn [AppServer.exec] in He.
  - injection He as <-. unfold request. case_match; [done|]. intros o p Ho Hw.
    destruct o as [r|k|n]; simpl in *; [|by apply (Hok (OAns k) p)|by apply (Hok (ONote n) p)].
    destruct (_ !! r) as [q|] eqn:Hq; [|done]. injection Ho as <-. apply lookup_app_Some in Hq as [Hq|[_ Hq]].
    + apply (Hok (OReq r) (rq_write q)); [|done]. simpl. by rewrite Hq.
    + by apply list_lookup_singleton_Some in Hq as [_ <-].
  - injection He as <-. unfold notify. case_match; [done|]. intros o p Ho Hw.
    destruct o as [r|k|n]; [by apply (Hok (OReq r) p)|by apply (Hok (OAns k) p)|]. simpl in *.
    apply lookup_app_Some in Ho as [Hq|[_ Hq]]; [by apply (Hok (ONote n) p)|].
    by apply list_lookup_singleton_Some in Hq as [_ <-].
  - destruct (requests s !! r); [|done]. case_match; [done|]. injection He as <-.
    eapply lock_ok_same; [done|done|]. intros o. apply phase_of_upd_req. intros q. unfold leave. by case_match.
  - destruct (requests s !! r); [|done]. case_match; [|done]. injection He as <-.
    eapply lock_ok_same; [done|done|]. intros o. apply phase_of_upd_req. intros q. unfold leave. by case_match.
  - destruct (_ && _) eqn:Hg; [|done]. b2p. injection He as <-. intros o' p Ho Hw.
    change (phase_of o' (set_phase o Granted s) = Some p) in Ho. rewrite phase_of_set in Ho.
    case_decide as E; [by subst|]. assert (lock s = Some o') by (by eapply Hok). congruence.
  - destruct (_ && _) eqn:Hg; [|done]. b2p. injection He as <-. apply lock_ok_phase; [done|by eapply holds_lock].
  - destruct (_ && _) eqn:Hg; [|done]. destruct (terminal s); [|done]. injection He as <-. by apply lock_ok_abandon.
  - destruct (_ && _) eqn:Hg; [|done]. injection He as <-.
    eapply lock_ok_same; [by apply (lock_ok_abandon (OReq r) WLeft)|done|]. intros o. by apply phase_of_upd_req.
  - destruct (lock s); [|done]. destruct (_ && _); [|done]. injection He as <-.
    by apply lock_ok_abandon, lock_ok_terminalize.
  - destruct (_ || _); [|done]. destruct o as [r|k|n].
    + destruct (cancelling _ _); [|done]. injection He as <-.
      eapply lock_ok_same; [by apply (lock_ok_abandon (OReq r) WLeft)|done|]. intros o. by apply phase_of_upd_req.
    + case_bool_decide; [|done]. injection He as <-. by apply lock_ok_abandon.
    + injection He as <-. by apply lock_ok_abandon.
  - destruct (holds o Spawned s) eqn:Hh; [|done]. injection He as <-. apply lock_ok_start; [done|by eapply holds_lock].
  - destruct (holds o Draining s) eqn:Hh; [|done]. injection He as <-. assert (lock s = Some o) by (by eapply holds_lock).
    destruct d; apply lock_ok_finish; try done; try (by apply lock_ok_terminalize); by rewrite lock_terminalize.
  - destruct (requests s !! r) as [q|]; [|done]. destruct (rq_caller q), (rq_write q) as [| | | | |e]; try done.
    case_bool_decide; [injection He as <-; by apply lock_ok_depart|].
    destruct e; simplify_eq/=; (eapply lock_ok_same; [done|done|]); intros o; by apply phase_of_upd_req.
  - destruct (requests s !! r) as [q|]; [|done]. destruct (is_waiting q); [|done]. unfold deliver in He.
    repeat case_match; simplify_eq; (eapply lock_ok_same; [done|done|]); intros o; unfold gone; by rewrite phase_of_upd_req.
  - destruct (requests s !! r) as [q|]; [|done].
    assert (exists l, s' = depart r q l s) as [l ->].
    { destruct (rq_caller q), (rq_leaving q) as [[]|]; try done; [case_bool_decide; [|done]|..];
        injection He as <-; eauto. }
    by apply lock_ok_depart.
  - injection He as <-. unfold answer. case_match; [|done]. eapply lock_ok_sub; [done|done|].
    intros o p Ho Hw. destruct o as [r|k|n]; simpl in *; [eauto| |eauto].
    destruct (decide (tok = k)) as [->|]; [|rewrite list_lookup_alter_ne in Ho by done; eauto].
    rewrite list_lookup_alter_eq in Ho. destruct (inters s !! k); [|done]. injection Ho as <-. done.
  - destruct (inters s !! k') as [i|] eqn:Hi; [|done]. destruct (in_write i); try done. injection He as <-.
    eapply lock_ok_sub; [done|done|]. intros o p Ho Hw. destruct o as [r|k|n]; simpl in *; [eauto| |eauto].
    destruct (decide (k' = k)) as [->|]; [|rewrite list_lookup_alter_ne in Ho by done; eauto].
    rewrite list_lookup_alter_eq, Hi in Ho. injection Ho as <-. done.
  - destruct (reader s); [|done]. injection He as <-. intros o p Ho Hw. destruct (line_phases line s _ o eq_refl) as [H1 ->]. eapply Hok; eauto.
  - destruct (reader s); [|done]. injection He as <-. by apply (lock_ok_terminalize (if ex then "exit" else "eof")).
  - case_bool_decide; [done|]. injection He as <-. by apply lock_ok_terminalize.
  - injection He as <-. by case_match.
  - case_bool_decide; [|done]. injection He as <-. eapply lock_ok_same; [done|done|]. intros o.
    destruct o as [r|k|n]; [done| |done]. simpl. rewrite list_lookup_fmap. destruct (inters s !! k) as [i|]; [|done].
    simpl. unfold retire. by case_match.
  - case_bool_decide; [|done]. injection He as <-. by apply (lock_ok_terminalize "closed").
  - by injection He as <-.
  - by injection He as <-.
  - destruct (subs s !! b) as [x|]; [|done]. destruct (get_nowait x) as [[]|]; [|done]. by injection He as <-.
Qed.
End invariants.
