(* ===== verification/AppServerLaws.v ===== *)
(** The app-server transport ([AppServer]) over a whole run: what every reachable state
    and every later state satisfy, proved from the steps of [AppServerViews]. *)

From stdpp Require Import pretty.
From S2P Require Import Prelude Json Subscription AppServer AppServerViews.

(** ** What an event may change of the wire and of the loss *)

Definition is_terminal (item : Item) : bool := match item with TerminalEvent _ => true | _ => false end.

(** How often the loss was announced. *)
Definition announced (s : T) : Z := countb is_terminal (fanned s).

Record quiet (s s' : T) : Prop := {
  qu_wire : wire s' = wire s;
  qu_closing : is_closing s = true -> is_closing s' = true;
  qu_loss : terminal s' = terminal s /\ announced s' = announced s
            \/ terminal s = None /\ terminal s' <> None /\ announced s' = announced s + 1;
}.

Lemma quiet_refl s : quiet s s.
Proof. split; auto. Qed.

Lemma quiet_trans s1 s2 s3 : quiet s1 s2 -> quiet s2 s3 -> quiet s1 s3.
Proof.
  intros [A1 A2 A3] [B1 B2 B3]. split; [congruence|auto|].
  destruct A3 as [[E1 E2]|(E1 & E2 & E3)], B3 as [[F1 F2]|(F1 & F2 & F3)];
    [left; split; congruence| |right; split_and!; congruence|congruence].
  right. split_and!; [congruence|done|lia].
Qed.

(** The fields an update keeps. *)
Lemma quiet_same s s' :
  wire s' = wire s -> stage s' = stage s -> terminal s' = terminal s -> fanned s' = fanned s -> quiet s s'.
Proof.
  intros E1 E2 E3 E4. split; [done|unfold is_closing; by rewrite E2|left].
  split; [done|unfold announced; by rewrite E4].
Qed.

Lemma quiet_fanout item s : is_terminal item = false -> quiet s (_fanout item s).
Proof.
  intros Hi. split; [done|done|]. left. split; [done|]. unfold announced. simpl.
  rewrite countb_app. simpl. rewrite Hi. lia.
Qed.

Lemma quiet_phase o p s : quiet s (set_phase o p s).
Proof. by destruct o; apply quiet_same. Qed.

Lemma quiet_finish o e s : quiet s (finish_write o e s).
Proof. eapply quiet_trans; [apply quiet_phase|by apply quiet_same]. Qed.

Lemma quiet_abandon o e s : quiet s (abandon o e s).
Proof. unfold abandon. case_match; [|apply quiet_phase]. eapply quiet_trans; [apply quiet_phase|by apply quiet_same]. Qed.

Lemma ambiguous_not_terminal reason l : countb is_terminal (map (fun r => AmbiguousRequest r reason) l) = 0.
Proof. apply countb_all_false. intros x (r & -> & _)%list_elem_of_fmap. done. Qed.

Lemma quiet_terminalize reason s : quiet s (_terminalize reason s).
Proof.
  destruct (terminal s) as [t|] eqn:E; [rewrite (terminalize_again _ _ _ E); apply quiet_refl|].
  destruct (terminalize_fields reason s E) as (_ & _ & _ & _ & H5 & H6 & _ & _ & _ & _ & H11 & H12).
  split; [done|unfold is_closing; by rewrite H11|]. right. split_and!; [done|by rewrite H6|].
  unfold announced. rewrite H12, !countb_app, ambiguous_not_terminal. simpl. lia.
Qed.

Lemma quiet_orphan r q s : quiet s (_orphan r q s).
Proof.
  unfold _orphan. repeat case_match; try (by apply quiet_fanout); by apply quiet_same.
Qed.

Lemma quiet_depart r q l s : quiet s (depart r q l s).
Proof.
  unfold depart. case_match; [|by apply quiet_same].
  eapply quiet_trans; [apply quiet_orphan|by apply quiet_same].
Qed.

Lemma quiet_retire b s : quiet s (_retire_unsent_answers b s).
Proof. by apply quiet_same. Qed.

Lemma quiet_gate o s s1 : gate o s = Some s1 -> quiet s s1.
Proof.
  destruct o as [r|k|n]; simpl; [intros [= <-]; apply quiet_refl| |intros [= <-]; apply quiet_refl].
  destruct (inters s !! k); [|done]. case_bool_decide; [|done]. intros [= <-]. by apply quiet_same.
Qed.

Lemma quiet_drain o d s : quiet s (end_drain o d s).
Proof.
  destruct d; [apply quiet_finish|..]; (eapply quiet_trans; [apply quiet_terminalize|apply quiet_finish]).
Qed.

(** The section that writes: the only one that may put a line on the wire. *)
Lemma start_write_wire o fails s :
  quiet s (start_write o fails s)
  \/ raise_if_lost s = None /\ wire (start_write o fails s) = wire s ++ [o]
     /\ terminal (start_write o fails s) = None /\ announced (start_write o fails s) = announced s.
Proof.
  unfold start_write. destruct (raise_if_lost s) eqn:El; [left; apply quiet_finish|].
  destruct (gate o s) as [s1|] eqn:Eg; [|left; apply quiet_finish].
  pose proof (quiet_gate _ _ _ Eg) as Hg. destruct fails.
  - left. eapply quiet_trans; [exact Hg|]. eapply quiet_trans; [apply quiet_terminalize|apply quiet_finish].
  - right. apply not_raised in El as [Ht Hs]. rewrite <- (gate_terminal _ _ _ Eg) in Ht.
    destruct Hg as [E1 _ E3]. rewrite <- E1.
    assert (announced s1 = announced s) as <-.
    { destruct E3 as [[_ E]|(_ & E & _)]; [done|congruence]. }
    by destruct o.
Qed.

Lemma quiet_then s1 s2 s3 :
  quiet s1 s2 -> wire s3 = wire s2 -> stage s3 = stage s2 -> terminal s3 = terminal s2 ->
  fanned s3 = fanned s2 -> quiet s1 s3.
Proof. intros H1 ????. eapply quiet_trans; [exact H1|by apply quiet_same]. Qed.

Lemma quiet_reader b s1 s2 : quiet s1 s2 -> quiet s1 (with_reader b s2).
Proof. intros H. by apply (quiet_then _ _ _ H). Qed.
Lemma quiet_lock o s1 s2 : quiet s1 s2 -> quiet s1 (with_lock o s2).
Proof. intros H. by apply (quiet_then _ _ _ H). Qed.
Lemma quiet_gone r o s1 s2 : quiet s1 s2 -> quiet s1 (gone r o s2).
Proof. intros H. by apply (quiet_then _ _ _ H). Qed.

(** An item other than the loss is fanned out, and the other fields change. *)
Lemma quiet_fanned item s s' :
  is_terminal item = false -> wire s' = wire s -> stage s' = stage s -> terminal s' = terminal s ->
  fanned s' = fanned s ++ [item] -> quiet s s'.
Proof.
  intros Hi ????. eapply (quiet_then _ (_fanout item s)); try done. by apply quiet_fanout.
Qed.

Lemma quiet_response r outcome s : quiet s (_on_response r outcome s).
Proof.
  unfold _on_response. destruct (requests s !! r) as [q|]; [|apply quiet_refl]. destruct (is_gone q); simpl.
  - case_bool_decide; [|apply quiet_refl]. by apply (quiet_fanned (OrphanedResponse r outcome)).
  - destruct (rq_future q); try apply quiet_refl; [by apply quiet_same|].
    by apply (quiet_fanned (OrphanedResponse r outcome)).
Qed.

Create HintDb quiet.
#[local] Hint Resolve quiet_refl quiet_phase quiet_finish quiet_abandon quiet_terminalize quiet_orphan
  quiet_depart quiet_retire quiet_drain quiet_response quiet_reader quiet_lock quiet_gone : quiet.

Section laws.
Context (generation : Z) (supported : list string) (request_id : nat -> string).
Notation exec := (exec generation supported request_id).
Notation step := (step generation supported request_id).
Notation reachable := (reachable generation supported request_id).

Lemma quiet_line line s s1 :
  note_answered request_id line s = s1 -> quiet s (read_line supported request_id line s1).
Proof.
  intros Hn. assert (quiet s s1) as H1.
  { subst s1. unfold note_answered. destruct (line ≫= _) as [r|]; [by apply quiet_same|apply quiet_refl]. }
  eapply quiet_trans; [exact H1|]. clear Hn H1 s. rename s1 into s. unfold read_line.
  destruct line as [[| | | | |l|d]|]; try (by auto with quiet).
  unfold _dispatch. destruct (jget (JObj d) "id") as [id|], (jget_null (JObj d) "method") as [| | | |method| |];
    auto with quiet; try (destruct (request_named request_id id s); by auto with quiet).
  - unfold _on_server_request. destruct (key_of id) as [key|]; [|by apply quiet_same].
    destruct (live_id key s); [by apply quiet_same|]. destruct (negb _); [by apply quiet_same|].
    eapply quiet_trans; [|by apply quiet_fanout]. by apply quiet_same.
  - case_bool_decide; [|by apply quiet_fanout]. unfold _resolve_interaction.
    destruct (key_of _) as [key|]; [|by apply quiet_same].
    eapply quiet_trans; [|by apply quiet_fanout]. destruct (lookup_inter key s) as [[k i]|]; by apply quiet_same.
Qed.

(** Only a write whose fence is passed puts a line on the wire, its own. *)
Lemma exec_wire e s s' :
  exec e s = Some s' -> quiet s s'
  \/ raise_if_lost s = None /\ (exists o, wire s' = wire s ++ [o]) /\ terminal s' = None /\ announced s' = announced s.
Proof.
  intros He.
  destruct e as [| |r sync|r sync|o|o|o|r|o|o|o fails|o d|r|r|r|key gen tok fin|k'|line|ex| | | | |mp hl|b|b];
    cbn [AppServer.exec] in He;
    try (left; repeat (case_match; try done); simplify_eq; first [done|by apply quiet_same|by auto with quiet]; fail).
  - left. injection He as <-. unfold request. case_match; by apply quiet_same.
  - left. injection He as <-. unfold notify. case_match; by apply quiet_same.
  - left. destruct (lock s); [|done]. destruct (_ && _); [|done]. injection He as <-.
    eapply quiet_trans; [apply quiet_terminalize|apply quiet_abandon].
  - destruct (holds o Spawned s); [|done]. injection He as <-.
    destruct (start_write_wire o fails s) as [|(? & ? & ?)]; eauto 6.
  - left. destruct (requests s !! r) as [q|]; [|done]. destruct (rq_caller q), (rq_write q) as [| | | | |e]; try done.
    case_bool_decide; [injection He as <-; auto with quiet|]. destruct e; simplify_eq/=; by apply quiet_same.
  - left. destruct (requests s !! r) as [q|]; [|done]. destruct (is_waiting q); [|done]. unfold deliver in He.
    repeat case_match; simplify_eq; try (by apply quiet_same). eauto using quiet_fanout with quiet.
  - left. injection He as <-. unfold answer. case_match; by apply quiet_same.
  - left. destruct (reader s); [|done]. injection He as <-. by eapply quiet_line.
  - left. injection He as <-. case_match; [apply quiet_refl|]. split; auto.
  - left. case_bool_decide as Es; [|done]. injection He as <-. split; auto.
  - left. case_bool_decide as Es; [|done]. injection He as <-.
    eapply quiet_trans; [apply (quiet_terminalize "closed")|]. split; auto.
Qed.

(** ** What holds of every reachable state *)

Notation later := (rtc step).

Lemma transport_inv (I : T -> Prop) s :
  I init -> (forall e s s', reachable s -> I s -> exec e s = Some s' -> I s') -> reachable s -> I s.
Proof.
  intros H0 Hs Hr. refine (rtc_invariant_with step reachable I init s _ _ Hr (rtc_refl _ _) H0).
  - intros a b Ha Hab. by eapply rtc_r.
  - intros a b Ha Hi [e He]. by eapply Hs.
Qed.

Lemma reachable_view r s : reachable s -> NoDup (answered s) -> view_ok (view r s).
Proof.
  apply (transport_inv (fun s => NoDup (answered s) -> view_ok (view r s))); [done|]. intros e a b _ Ha He Hn.
  eapply vsteps_ok; [by eapply exec_views|]. apply Ha.
  destruct (exec_answered _ _ _ e a b He) as [<-|[x E]]; [done|]. rewrite E in Hn. by apply NoDup_cons in Hn as [_ ?].
Qed.

Lemma reachable_iview k s : reachable s -> iview_ok (iview k s).
Proof.
  apply (transport_inv (fun s => iview_ok (iview k s))); [done|]. intros e a b _ Ha He. eapply ivsteps_ok; [|exact Ha]. by eapply exec_iviews.
Qed.

Lemma reachable_lock s : reachable s -> lock_ok s.
Proof.
  apply (transport_inv lock_ok); [by intros [?|?|?] p|]. intros e a b _ Ha He. by eapply exec_lock.
Qed.

Lemma later_iviews k s s' : later s s' -> ivsteps (iview k s) (iview k s').
Proof.
  induction 1 as [|a b c [e He] _ IH]; [apply rtc_refl|]. etransitivity; [by eapply exec_iviews|exact IH].
Qed.

(** An interaction that is there after an event was there before it, or is new. *)
Lemma exec_inter e s s' k i i' :
  reachable s -> exec e s = Some s' -> inters s !! k = Some i -> inters s' !! k = Some i' ->
  in_key i' = in_key i /\ (is_live i' = true -> is_live i = true).
Proof.
  intros Hr He Hi Hi'. pose proof (exec_iviews _ _ _ e s s' k He) as Hv.
  destruct (ivsteps_key _ _ Hv i (reachable_iview k s Hr) Hi) as (i2 & E & ? & ?).
  simpl in E. by simplify_eq.
Qed.

Lemma reachable_registry s : reachable s -> registry_ok s.
Proof.
  apply (transport_inv registry_ok); [done|]. intros e a b Hr Ha He k i' Hi' Hl.
  destruct (exec_registry _ _ _ e a b He) as [[E1 E2]|(key & El & E1 & E2)].
  - destruct (inters a !! k) as [i|] eqn:Hi.
    + destruct (exec_inter e a b k i i' Hr He Hi Hi') as [Ek Hl']. rewrite E1, Ek. auto.
    + apply lookup_ge_None in Hi. apply lookup_lt_Some in Hi'. lia.
  - rewrite E1. rewrite E2 in Hi'. apply lookup_app_Some in Hi' as [Hi|[Hk Hi]].
    + specialize (Ha k i' Hi Hl). rewrite dict_get_set_ne; [done|]. intros ->.
      unfold live_id, lookup_inter in El. rewrite Ha, Hi in El. congruence.
    + apply list_lookup_singleton_Some in Hi as [Hk' <-]. simpl. rewrite dict_get_set_eq. f_equal. lia.
Qed.

(** The loss is final, and so is the owner's close. *)
Lemma exec_loss e s s' :
  exec e s = Some s' -> raise_if_lost s <> None -> wire s' = wire s /\ raise_if_lost s' <> None.
Proof.
  intros He Hl. destruct (exec_wire e s s' He) as [[E1 E2 E3]|(E & _)]; [|done]. split; [done|].
  unfold raise_if_lost in *. destruct (terminal s) as [t|].
  - by destruct E3 as [[-> _]|(? & _)].
  - destruct (is_closing s) eqn:Ec; [|done]. rewrite E2 by done. by destruct (terminal s').
Qed.

Lemma later_loss s s' :
  later s s' -> raise_if_lost s <> None -> wire s' = wire s /\ raise_if_lost s' <> None.
Proof.
  induction 1 as [|a b c [e He] _ IH]; intros Hl; [done|].
  destruct (exec_loss e a b He Hl) as [<- Hb]. by apply IH.
Qed.

Lemma later_terminal s s' t : later s s' -> terminal s = Some t -> terminal s' = Some t.
Proof.
  induction 1 as [|a b c [e He] _ IH]; intros Ht; [done|]. apply IH.
  destruct (exec_wire e a b He) as [[_ _ [[-> _]|(? & _)]]|(E & _)]; [done|congruence|].
  unfold raise_if_lost in E. by rewrite Ht in E.
Qed.

Lemma reachable_announced s :
  reachable s -> announced s = if terminal s then 1 else 0.
Proof.
  apply (transport_inv (fun s => announced s = if terminal s then 1 else 0)); [done|]. intros e a b _ Ha He.
  destruct (exec_wire e a b He) as [[_ _ [[-> ->]|(E1 & E2 & ->)]]|(E & _ & -> & ->)]; [done|..].
  - rewrite Ha, E1. by destruct (terminal b).
  - rewrite Ha. apply not_raised in E as [-> _]. done.
Qed.

(** Who may be writing. *)
Lemma one_writer s o o' p p' :
  reachable s -> phase_of o s = Some p -> phase_of o' s = Some p' ->
  has_writer p = true -> has_writer p' = true -> o = o'.
Proof.
  intros Hr Ho Ho' Hp Hp'. pose proof (reachable_lock s Hr) as Hok.
  pose proof (Hok o p Ho Hp). pose proof (Hok o' p' Ho' Hp'). congruence.
Qed.

(** ** Properties *)

(** The registry of committed requests whose caller is gone. *)
Definition orphans (r : nat) (s : T) : Z := countb (fun x => bool_decide (x = r)) (orphaned s).

(** C39. A request has one outcome, while the process answers no request twice.  Its line
    reaches the process at most once.  A caller that hears the answer, the error or
    [RequestOutcomeUnknown] knows that the line was accepted, and nobody else is told; one
    that gets [RuntimeLost] or [CancelledError] knows that it never was; one that gets
    [CommittedRequestCancelled] knows that it was.  A [TimeoutError] leaves that open: the
    outcome of the request is fanned out, or waits for it, exactly if its line was accepted.
    The outcome of a request whose caller left after that is fanned out once or waits in
    the registry of orphans, which is empty once the runtime is lost.  A caller that is still
    there has its outcome announced at most once elsewhere, when it is being cancelled. *)
Theorem request_one_outcome s r q :
  reachable s -> NoDup (answered s) -> requests s !! r = Some q ->
  0 <= lines (OReq r) s <= 1 /\ (terminal s <> None -> orphans r s = 0) /\
  match rq_caller q with
  | Gone (RuntimeLost | CancelledError) => lines (OReq r) s = 0 /\ fans r s + orphans r s = 0
  | Gone (Returned _ | RaisedRpc _ | RequestOutcomeUnknown) => lines (OReq r) s = 1 /\ fans r s + orphans r s = 0
  | Gone CommittedRequestCancelled => lines (OReq r) s = 1 /\ fans r s + orphans r s = 1
  | Gone TimeoutError => fans r s + orphans r s = lines (OReq r) s
  | Writing => fans r s + orphans r s = 0
  | Waiting => lines (OReq r) s = 1 /\ fans r s <= 1 /\ orphans r s = 0
               /\ (fans r s = 1 -> rq_leaving q <> None)
  end.
Proof.
  intros Hr Hn Hq. pose proof (reachable_view r s Hr Hn) as Hv. unfold view_ok in Hv.
  change (v_req (view r s)) with (requests s !! r) in Hv. rewrite Hq in Hv.
  destruct Hv as [H1 H2 H3 H4 H5 H6 H7 H8 H9].
  change (v_lines (view r s)) with (lines (OReq r) s) in H1.
  change (v_fans (view r s)) with (fans r s) in *. change (v_orphaned (view r s)) with (orphans r s) in *.
  split_and!; [destruct (rq_committed q); lia..|by intros Hl; apply H7, view_lost|].
  unfold owed, caller_ok in *. destruct (rq_caller q) as [| |o] eqn:Ec.
  - lia.
  - rewrite H3 in H1. assert (orphans r s = 0) as Ho by (apply H6; unfold is_gone; by rewrite Ec).
    split_and!; [done|destruct (v_delivered _); lia|done|].
    intros Hf. destruct (v_delivered (view r s)) eqn:Ed; [|lia]. by destruct (H8 eq_refl) as (_ & E & _); apply H9 in E as [].
  - destruct o; rewrite ?H3 in *; simpl in *; try done.
    rewrite H1, H4. by destruct (rq_committed q).
Qed.

(** How many lines an interaction in state [st] may have had accepted. *)
Definition answers_sent (st : IState) (n : Z) : Prop :=
  match st with
  | Answered | Failed => n = 1
  | Pending | Resolved | Invalidated true => n = 0
  | Resolving | Invalidated false => True
  end.

(** C40. A server request is answered at most once.  Of an interaction that is [answered] or
    [failed] the process has accepted one line; of one that is pending, was resolved
    upstream before its answer or was retired by the owner's close it has none; of one that
    is being answered, or that the loss of the runtime invalidated, it has at most one (the
    state does not tell which).  One that is pending or resolving is the one its id names in
    the registry, so no decision can reach another occurrence of the id.  Once settled, an
    interaction keeps its state for ever and nothing more is written for it. *)
Theorem answered_at_most_once s k i :
  reachable s -> inters s !! k = Some i ->
  0 <= lines (OAns k) s <= 1
  /\ answers_sent (in_state i) (lines (OAns k) s)
  /\ (is_live i = true -> dict_get (registry s) (in_key i) = Some k)
  /\ (is_settled i = true -> forall s', later s s' ->
        exists i', inters s' !! k = Some i' /\ in_state i' = in_state i /\ lines (OAns k) s' = lines (OAns k) s).
Proof.
  intros Hr Hi. pose proof (reachable_iview k s Hr) as Hv.
  assert (inter_ok i (lines (OAns k) s) (retired s)) as [Hl _ _ Hs _].
  { unfold iview_ok in Hv. change (iv (iview k s)) with (inters s !! k) in Hv. by rewrite Hi in Hv. }
  split_and!; [lia..| |by apply reachable_registry|].
  - unfold state_ok, answers_sent in *. destruct (in_state i) as [| | | | |[]]; try done; by destruct Hs as (? & ? & ?) || destruct Hs.
  - intros Hset s' Hlater. apply (ivsteps_settled _ _ (later_iviews k s s' Hlater) i); [done|by apply Hi|done].
Qed.

(** The loss is announced once and is final, and nothing is written after it.  Every
    reachable state has announced the loss if it has one, once, and keeps it; from the
    loss or the owner's close on, no line reaches the process; and at any time one task at
    most is past the queue of the writer. *)
Theorem loss_is_final s :
  reachable s ->
  announced s = (if terminal s then 1 else 0)
  /\ (forall o o' p p', phase_of o s = Some p -> phase_of o' s = Some p' ->
        has_writer p = true -> has_writer p' = true -> o = o')
  /\ forall s', later s s' ->
       (raise_if_lost s <> None -> wire s' = wire s) /\ (forall t, terminal s = Some t -> terminal s' = Some t).
Proof.
  intros Hr. split_and!; [by apply reachable_announced|intros o o' p p'; by apply one_writer|].
  intros s' Hl. split; [by apply later_loss|]. intros t. by apply later_terminal.
Qed.

(** ** After the loss

    What the transport's own tasks have left to do: the steps of the writes, of the
    callers that have something to be told and of the commits. *)

Definition phase_work (p : Phase) : nat :=
  match p with Queued => 5 | Granted => 4 | Spawned => 3 | Draining => 2 | Ended _ => 1 | Idle => 0 end.

Definition req_work (q : Req) : nat :=
  phase_work (rq_write q) + match rq_caller q with Writing => 2 | Waiting => 1 | Gone _ => 0 end.

Definition work (s : T) : nat :=
  sum_list_with req_work (requests s) + sum_list_with (fun i => phase_work (in_write i)) (inters s)
  + sum_list_with phase_work (notes s).

Definition internal (e : Event) : bool :=
  match e with
  | EGrant _ | EProceed _ | EQueueLost _ | EQueueLeave _ | EStartWrite _ _ | EEndDrain _ _
  | EWritten _ | EDeliver _ | EDepart _ | ECommitted _ => true
  | _ => false
  end.

Fixpoint run (es : list Event) (s : T) : option T :=
  match es with
  | [] => Some s
  | e :: es => match exec e s with Some s' => run es s' | None => None end
  end.

(** Every caller has its outcome and every accepted answer its final state. *)
Definition all_settled (s : T) : Prop :=
  (forall r q, requests s !! r = Some q -> is_gone q = true)
  /\ forall k i, inters s !! k = Some i -> in_state i <> Resolving.

Lemma sum_alter {A} (w : A -> nat) f l n x :
  l !! n = Some x -> (sum_list_with w (alter f n l) + w x = sum_list_with w l + w (f x))%nat.
Proof.
  revert n. induction l as [|y l IH]; intros [|n] H; try done; simpl in *.
  - injection H as ->. lia.
  - specialize (IH n H). unfold alter in IH. lia.
Qed.

Lemma work_upd_req r q f s :
  requests s !! r = Some q -> (work (upd_req r f s) + req_work q = work s + req_work (f q))%nat.
Proof. intros Hq. pose proof (sum_alter req_work f _ _ _ Hq). unfold work. simpl. lia. Qed.

Lemma work_upd_inter k i f s :
  inters s !! k = Some i ->
  (work (upd_inter k f s) + phase_work (in_write i) = work s + phase_work (in_write (f i)))%nat.
Proof. intros Hi. pose proof (sum_alter (fun i => phase_work (in_write i)) f _ _ _ Hi). unfold work. simpl. lia. Qed.

Lemma work_set_phase o p p' s :
  phase_of o s = Some p -> (work (set_phase o p' s) + phase_work p = work s + phase_work p')%nat.
Proof.
  destruct o as [r|k|n]; simpl; intros Hp.
  - destruct (requests s !! r) as [q|] eqn:Hq; [|done]. injection Hp as <-.
    pose proof (work_upd_req r q (rq_with_write p') s Hq) as H. unfold req_work in H. simpl in H. lia.
  - destruct (inters s !! k) as [i|] eqn:Hi; [|done]. injection Hp as <-.
    pose proof (work_upd_inter k i (in_with_write p') s Hi) as H. simpl in H. lia.
  - pose proof (sum_alter phase_work (fun _ => p') _ _ _ Hp) as H.
    replace (<[n := p']> (notes s)) with (alter (fun _ => p') n (notes s)).
    + unfold work. simpl. lia.
    + apply list_eq. intros m. destruct (decide (n = m)) as [<-|Hne].
      * rewrite list_lookup_alter_eq, Hp, list_lookup_insert_eq; [done|by eapply lookup_lt_Some].
      * by rewrite list_lookup_alter_ne, list_lookup_insert_ne.
Qed.

Lemma holds_phase o p s : holds o p s = true -> phase_of o s = Some p.
Proof. apply bool_decide_eq_true_1. Qed.

Lemma work_finish o e p s :
  phase_of o s = Some p -> (1 < phase_work p)%nat -> (work (finish_write o e s) < work s)%nat.
Proof.
  intros Hp Hw. pose proof (work_set_phase o p (Ended e) s Hp) as H. simpl in H.
  change (work (finish_write o e s)) with (work (set_phase o (Ended e) s)). lia.
Qed.

Lemma work_abandon o e p s :
  phase_of o s = Some p -> (1 < phase_work p)%nat -> (work (abandon o e s) < work s)%nat.
Proof.
  intros Hp Hw. pose proof (work_set_phase o p (Ended e) s Hp) as H. simpl in H.
  assert (work (abandon o e s) = work (set_phase o (Ended e) s)) as -> by (unfold abandon; by case_match). lia.
Qed.

(** A caller that goes away, or from its write to waiting. *)
Lemma work_caller r q f s :
  requests s !! r = Some q -> rq_write (f q) = rq_write q ->
  (req_work (f q) < req_work q)%nat -> (work (upd_req r f s) < work s)%nat.
Proof. intros Hq _ Hf. pose proof (work_upd_req r q f s Hq). lia. Qed.

Lemma work_gone_le r o s : (work (gone r o s) <= work s)%nat.
Proof.
  unfold gone. destruct (requests s !! r) as [q|] eqn:Hq.
  - pose proof (work_upd_req r q (rq_with_caller (Gone o)) s Hq) as H. unfold req_work in H. simpl in H. lia.
  - assert (alter (rq_with_caller (Gone o)) r (requests s) = requests s) as E.
    { apply list_eq. intros n. destruct (decide (r = n)) as [<-|]; [by rewrite list_lookup_alter_eq, Hq|].
      by rewrite list_lookup_alter_ne. }
    unfold work, upd_req. simpl. by rewrite E.
Qed.

Lemma work_gone r q o s :
  requests s !! r = Some q -> is_gone q = false -> (work (gone r o s) < work s)%nat.
Proof.
  intros Hq Hg. eapply work_caller; [done|done|]. unfold req_work, is_gone in *. simpl.
  destruct (rq_caller q); simpl; lia || done.
Qed.

Lemma work_orphan r q s : work (_orphan r q s) = work s.
Proof. unfold _orphan. by repeat case_match. Qed.

Lemma work_depart r q l s :
  requests s !! r = Some q -> is_gone q = false -> (work (depart r q l s) < work s)%nat.
Proof.
  intros Hq Hg. unfold depart. case_match; [rewrite <- (work_orphan r q s)|];
    (eapply work_gone; [|done]); by rewrite ?requests_orphan.
Qed.

(** Once the runtime is lost, every step of the transport's tasks has less left to do. *)
Lemma internal_work e s s' t :
  terminal s = Some t -> internal e = true -> exec e s = Some s' -> (work s' < work s)%nat.
Proof.
  intros Ht Hi He. assert (raise_if_lost s = Some false) as Hl by (unfold raise_if_lost; by rewrite Ht).
  destruct e as [| |r sync|r sync|o|o|o|r|o|o|o fails|o d|r|r|r|key gen tok fin|k'|line|ex| | | | |mp hl|b|b];
    try done; cbn [AppServer.exec] in He.
  - destruct (_ && _) eqn:Hg; [|done]. b2p. injection He as <-.
    match goal with H : holds _ _ _ = true |- _ => pose proof (work_set_phase _ _ Granted s (holds_phase _ _ _ H)) as Hw end.
    change (work (with_lock (Some o) ?x)) with (work x). simpl in Hw. lia.
  - destruct (_ && _) eqn:Hg; [|done]. b2p. injection He as <-.
    match goal with H : holds _ _ _ = true |- _ => pose proof (work_set_phase _ _ Spawned s (holds_phase _ _ _ H)) as Hw end.
    simpl in Hw. lia.
  - destruct (_ && _) eqn:Hg; [|done]. rewrite Ht in He. b2p. injection He as <-.
    eapply work_abandon; [by apply holds_phase|simpl; lia].
  - assert (forall e, holds o Queued s || holds o Granted s = true -> (work (abandon o e s) < work s)%nat) as Ha.
    { intros e [H|H]%orb_true_iff; (eapply work_abandon; [by apply holds_phase|simpl; lia]). }
    destruct (_ || _) eqn:Hg; [|done]. specialize (Ha WLeft eq_refl). destruct o as [r|k|n].
    + destruct (cancelling _ _); [|done]. injection He as <-. eapply Nat.le_lt_trans; [apply work_gone_le|done].
    + case_bool_decide; [|done]. by injection He as <-.
    + by injection He as <-.
  - destruct (holds o Spawned s) eqn:Hh; [|done]. injection He as <-. unfold start_write. rewrite Hl.
    eapply work_finish; [by apply holds_phase|simpl; lia].
  - destruct (holds o Draining s) eqn:Hh; [|done]. injection He as <-.
    destruct d; unfold end_drain; rewrite ?(terminalize_again _ _ _ Ht);
      (eapply work_finish; [by apply holds_phase|simpl; lia]).
  - destruct (requests s !! r) as [q|] eqn:Hq; [|done]. destruct (rq_caller q) eqn:Hc; [|done..].
    assert (is_gone q = false) as Hng by (unfold is_gone; by rewrite Hc).
    destruct (rq_write q) as [| | | | |e]; try done.
    case_bool_decide; [injection He as <-; by eapply work_depart|].
    destruct e; simplify_eq/=; [|by eapply work_gone].
    eapply work_caller; [done|done|]. unfold req_work. simpl. rewrite Hc. lia.
  - destruct (requests s !! r) as [q|] eqn:Hq; [|done]. destruct (is_waiting q) eqn:Hw; [|done].
    assert (is_gone q = false) as Hng by (unfold is_waiting, is_gone in *; by destruct (rq_caller q)).
    unfold deliver in He. repeat case_match; simplify_eq;
      first [by eapply work_gone|by apply (work_gone r q CommittedRequestCancelled s)].
  - destruct (requests s !! r) as [q|] eqn:Hq; [|done].
    destruct (rq_caller q) eqn:Hc, (rq_leaving q) as [[]|]; try done; [case_bool_decide; [|done]|..];
      injection He as <-; (eapply work_depart; [done|unfold is_gone; by rewrite Hc]).
  - destruct (inters s !! k') as [i|] eqn:Hi'; [|done]. destruct (in_write i) eqn:Hw; try done. injection He as <-.
    pose proof (work_upd_inter k' i (fun i => in_with_write Idle (committed e i)) s Hi') as H.
    rewrite Hw in H. simpl in H. lia.
Qed.

Lemma run_later es s s' : run es s = Some s' -> later s s'.
Proof.
  revert s. induction es as [|e es IH]; simpl; intros s H; [by injection H as ->|].
  destruct (exec e s) as [s1|] eqn:He; [|done]. eapply rtc_l; [by exists e|auto].
Qed.

Lemma run_work es : forall s s' t,
  terminal s = Some t -> Forall (fun e => internal e = true) es -> run es s = Some s' ->
  (length es + work s' <= work s)%nat.
Proof.
  induction es as [|e es IH]; simpl; intros s s' t Ht Hes H; [injection H as ->; lia|].
  apply Forall_cons in Hes as [Hi Hes]. destruct (exec e s) as [s1|] eqn:He; [|done].
  pose proof (internal_work e s s1 t Ht Hi He).
  assert (terminal s1 = Some t) as Ht1 by (eapply later_terminal; [by apply rtc_once; exists e|done]).
  specialize (IH s1 s' t Ht1 Hes H). lia.
Qed.

Lemma holds_of o p s : phase_of o s = Some p -> holds o p s = true.
Proof. apply bool_decide_eq_true_2. Qed.

(** A write that is not over can go on. *)
Lemma write_goes_on o p s t :
  terminal s = Some t -> phase_of o s = Some p -> (1 < phase_work p)%nat ->
  (cancelling o s = true -> exists r, o = OReq r) ->
  exists e, internal e = true /\ is_Some (exec e s).
Proof.
  intros Ht Hp Hw Hc. pose proof (holds_of _ _ _ Hp) as Hh. destruct p as [| | | | |e]; simpl in Hw; try lia.
  - destruct (cancelling o s) eqn:E.
    + destruct (Hc eq_refl) as [r ->]. exists (EQueueLeave (OReq r)). split; [done|]. cbn [AppServer.exec].
      rewrite Hh, E. simpl. eauto.
    + exists (EQueueLost o). split; [done|]. cbn [AppServer.exec]. rewrite Hh, E, Ht. simpl. eauto.
  - destruct (cancelling o s) eqn:E.
    + destruct (Hc eq_refl) as [r ->]. exists (EQueueLeave (OReq r)). split; [done|]. cbn [AppServer.exec].
      rewrite Hh, E, orb_true_r. eauto.
    + exists (EProceed o). split; [done|]. cbn [AppServer.exec]. rewrite Hh, E. simpl. eauto.
  - exists (EStartWrite o false). split; [done|]. cbn [AppServer.exec]. rewrite Hh. eauto.
  - exists (EEndDrain o Drained). split; [done|]. cbn [AppServer.exec]. rewrite Hh. eauto.
Qed.

Lemma caller_goes_on s t r q :
  reachable s -> NoDup (answered s) -> terminal s = Some t -> requests s !! r = Some q -> is_gone q = false ->
  exists e, internal e = true /\ is_Some (exec e s).
Proof.
  intros Hr Hn Ht Hq Hg. pose proof (reachable_view r s Hr Hn) as Hv. unfold view_ok in Hv.
  change (v_req (view r s)) with (requests s !! r) in Hv. rewrite Hq in Hv.
  destruct Hv as [_ H2 _ _ _ _ H7 _ H9].
  assert (phase_of (OReq r) s = Some (rq_write q)) as Hp by (simpl; by rewrite Hq).
  destruct (rq_caller q) eqn:Hc; [| |by unfold is_gone in Hg; rewrite Hc in Hg].
  - destruct (decide (1 < phase_work (rq_write q))%nat) as [Hw|Hw].
    { eapply write_goes_on; eauto. }
    unfold phase_ok in H2. destruct (rq_write q) as [| | | | |e] eqn:Hph; simpl in Hw; try lia; try done.
    exists (EWritten r). split; [done|]. cbn [AppServer.exec]. rewrite Hq, Hc, Hph.
    case_bool_decide; [eauto|]. destruct e; simpl; eauto; [done|]. destruct H2. congruence.
  - assert (is_waiting q = true) as Hwt by (unfold is_waiting; by rewrite Hc).
    assert (rq_future q <> FPending) as Hnf by (apply H7; [apply view_lost; congruence|done]).
    destruct (rq_future q) eqn:Hf; try done.
    1-3: exists (EDeliver r); split; [done|]; cbn [AppServer.exec]; rewrite Hq, Hwt; unfold deliver; rewrite Hf;
      try case_match; eauto.
    destruct (H9 eq_refl) as [_ Hlv]. destruct (rq_leaving q) as [l|] eqn:El; [|done].
    exists (EDepart r). split; [done|]. cbn [AppServer.exec]. rewrite Hq, Hc, El. eauto.
Qed.

Lemma answer_goes_on s t k i :
  reachable s -> terminal s = Some t -> inters s !! k = Some i -> in_state i = Resolving ->
  exists e, internal e = true /\ is_Some (exec e s).
Proof.
  intros Hr Ht Hi Hs. pose proof (reachable_iview k s Hr) as Hv. unfold iview_ok in Hv.
  change (iv (iview k s)) with (inters s !! k) in Hv. rewrite Hi in Hv. destruct Hv as [_ _ H3 _ _].
  assert (phase_of (OAns k) s = Some (in_write i)) as Hp by (simpl; by rewrite Hi).
  destruct (decide (1 < phase_work (in_write i))%nat) as [Hw|Hw].
  { eapply write_goes_on; eauto. done. }
  unfold answer_phase_ok in H3. destruct (in_write i) as [| | | | |e] eqn:Hph; simpl in Hw; try lia; try done.
  exists (ECommitted k). split; [done|]. cbn [AppServer.exec]. rewrite Hi, Hph. eauto.
Qed.

Lemma settled_or_goes_on s t :
  reachable s -> NoDup (answered s) -> terminal s = Some t ->
  all_settled s \/ exists e, internal e = true /\ is_Some (exec e s).
Proof.
  intros Hr Hn0 Ht. destruct (decide (Forall (fun q => is_gone q = true) (requests s))) as [Hq|Hq].
  - destruct (decide (Forall (fun i => in_state i <> Resolving) (inters s))) as [Hi|Hi].
    + left. split; [intros r q Hr'|intros k i Hk]; [by eapply (proj1 (Forall_lookup _ _) Hq)|by eapply (proj1 (Forall_lookup _ _) Hi)].
    + right. apply not_Forall_Exists, Exists_exists in Hi as (i & [k Hk]%list_elem_of_lookup & Hn); [|apply _].
      apply (answer_goes_on s t k i Hr Ht Hk). destruct (decide (in_state i = Resolving)); [done|]. by destruct Hn.
  - right. apply not_Forall_Exists, Exists_exists in Hq as (q & [r Hk]%list_elem_of_lookup & Hn); [|apply _].
    apply (caller_goes_on s t r q Hr Hn0 Ht Hk). by apply not_true_is_false.
Qed.

(** C9. After the loss nobody waits for ever.  From a state that has lost its runtime the
    transport's own tasks take at most [work s] steps, whatever their order, and as long
    as a caller of [request] has not its outcome or an accepted answer not its final
    state, one of them can take a step: no answer of the process is needed.  (The process
    has answered no request twice.) *)
Theorem loss_settles_everyone s es s' :
  reachable s -> NoDup (answered s') -> terminal s <> None -> Forall (fun e => internal e = true) es -> run es s = Some s' ->
  (length es <= work s)%nat
  /\ (all_settled s' \/ exists e, internal e = true /\ is_Some (exec e s')).
Proof.
  intros Hr Hn Hl Hes Hrun. destruct (terminal s) as [t|] eqn:Ht; [|done].
  pose proof (run_work es s s' t Ht Hes Hrun). split; [lia|].
  assert (later s s') as Hs by (by eapply run_later).
  assert (rtc step init s') by (by transitivity s). apply (settled_or_goes_on s' t); [done|done|by apply (later_terminal s)].
Qed.
End laws.

(** ** Concrete runs

    Request ids are the letters of a number. *)

Definition rid (n : nat) : string := String.append "req-" (pretty n).
Definition sup : list string := ["item/tool/call"].
Definition go (es : list Event) : option T := run 1 sup rid es init.

Lemma go_reachable es s : go es = Some s -> reachable 1 sup rid s.
Proof. apply run_later. Qed.

Definition response (n : nat) : Event := ELine (Some (JObj [("id", JStr (rid n)); ("result", JInt 7)])).
Definition server_request (id : Json) : Event :=
  ELine (Some (JObj [("id", id); ("method", JStr "item/tool/call")])).
Definition write (o : Owner) : list Event :=
  [EGrant o; EProceed o; EStartWrite o false; EEndDrain o Drained].
Definition sent (r : nat) : list Event := write (OReq r) ++ [EWritten r].

(** Three requests: the first is answered; the second's caller is cancelled once the line
    is out, before the loss; the third is never granted the writer. *)
Definition three : list Event :=
  [ERequest; ERequest; ERequest] ++ sent 0 ++ sent 1
  ++ [response 0; EDeliver 0; ECancel 1 true; EDepart 1; EEof true; EQueueLost (OReq 2); EWritten 2].

Example three_outcomes :
  exists s, go three = Some s
  /\ map rq_caller (requests s) = [Gone (Returned (JInt 7)); Gone CommittedRequestCancelled; Gone RuntimeLost]
  /\ wire s = [OReq 0; OReq 1] /\ fanned s = [AmbiguousRequest 1 "exit"; TerminalEvent "exit"].
Proof. eexists. by vm_compute. Qed.

(** A process that answers a request twice while its caller is being cancelled: both answers
    are fanned out. *)
Example answered_twice_fans_twice :
  exists s, go ([ERequest] ++ sent 0 ++ [ECancel 0 true; response 0; response 0; EDepart 0]) = Some s
  /\ answered s = [0%nat; 0%nat] /\ fans 0 s = 2.
Proof. eexists. by vm_compute. Qed.

(** The caller is cancelled, the runtime is lost before its task runs again: what became
    of the request is announced after the loss. *)
Example ambiguous_after_terminal :
  exists s, go ([ERequest] ++ sent 0 ++ [ECancel 0 true; EEof true; EDepart 0]) = Some s
  /\ fanned s = [TerminalEvent "exit"; AmbiguousRequest 0 "exit"].
Proof. eexists. by vm_compute. Qed.

(** After a write that timed out the reader goes on: a server request that comes then is
    pending for ever, whatever is left to do and after [close()] too. *)
Definition late : list Event :=
  [ENotify; EGrant (ONote 0); EProceed (ONote 0); EStartWrite (ONote 0) false; EEndDrain (ONote 0) DrainTimeout;
   server_request (JInt 3)].

Example pending_after_terminal :
  exists s, go (late ++ [EClose; ECloseRetire; ECloseEnd; EAnswer (KNum 3 1) 1 0 true]) = Some s
  /\ stage s = Closed /\ map in_state (inters s) = [Pending]
  /\ fanned s = [TerminalEvent "write_timeout"; Interaction 0].
Proof. eexists. by vm_compute. Qed.

(** A server request whose id is a list ends the reader's task with nobody told. *)
Example unhashable_id_stops_the_reader :
  exists s, go ([ERequest] ++ sent 0 ++ [server_request (JArr [])]) = Some s
  /\ reader s = false /\ terminal s = None /\ map rq_caller (requests s) = [Waiting]
  /\ raise_if_lost s = None.
Proof. eexists. by vm_compute. Qed.

(** An answer whose line the process took, and whose drain failed, is recorded as one the
    loss prevented. *)
Definition answered_then_broken : list Event :=
  [server_request (JStr "a"); EAnswer (KStr "a") 1 0 true]
  ++ [EGrant (OAns 0); EProceed (OAns 0); EStartWrite (OAns 0) false; EEndDrain (OAns 0) DrainBroken; ECommitted 0].

Example sent_answer_recorded_as_lost :
  exists s, go answered_then_broken = Some s
  /\ wire s = [OAns 0] /\ map in_state (inters s) = [Invalidated false].
Proof. eexists. by vm_compute. Qed.

(** An answered and a reused id, and an answer that the owner's close retires. *)
Definition answers : list Event :=
  [server_request (JStr "a"); EAnswer (KStr "a") 1 0 true] ++ write (OAns 0)
  ++ [ECommitted 0; server_request (JStr "a"); EAnswer (KStr "a") 1 1 true; EClose; ECloseRetire].

(** The state [s] that the run [es] reaches, and what it is. *)
Ltac concrete es s E Es :=
  destruct (go es) as [s|] eqn:E; [|by vm_compute in E];
  pose proof E as Es; vm_compute in Es; injection Es as Es.

Lemma request_one_outcome_witness :
  exists s q, go three = Some s /\ requests s !! 1%nat = Some q
  /\ rq_caller q = Gone CommittedRequestCancelled /\ lines (OReq 1) s = 1.
Proof.
  concrete three s E Es.
  assert (exists q, requests s !! 1%nat = Some q /\ rq_caller q = Gone CommittedRequestCancelled)
    as (q & Hq & Hc) by (rewrite <- Es; eauto).
  exists s, q. split_and!; [done..|].
  assert (NoDup (answered s)) as Hn by (rewrite <- Es; simpl; apply NoDup_singleton).
  pose proof (request_one_outcome 1 sup rid s 1 q (go_reachable _ _ E) Hn Hq) as (_ & _ & H).
  rewrite Hc in H. apply H.
Defined.

Lemma answered_at_most_once_witness :
  exists s i, go answers = Some s /\ inters s !! 0%nat = Some i /\ in_state i = Answered
  /\ forall s', rtc (step 1 sup rid) s s' ->
       exists i', inters s' !! 0%nat = Some i' /\ in_state i' = Answered /\ lines (OAns 0) s' = lines (OAns 0) s.
Proof.
  concrete answers s E Es.
  assert (exists i, inters s !! 0%nat = Some i /\ in_state i = Answered) as (i & Hi & Hs) by (rewrite <- Es; eauto).
  exists s, i. split_and!; [done..|].
  pose proof (answered_at_most_once 1 sup rid s 0 i (go_reachable _ _ E) Hi) as (_ & _ & _ & H).
  rewrite <- Hs. apply H. unfold is_settled, is_live. by rewrite Hs.
Defined.

Lemma loss_is_final_witness :
  exists s, go three = Some s /\ announced s = 1 /\ forall s', rtc (step 1 sup rid) s s' -> wire s' = wire s.
Proof.
  concrete three s E Es.
  pose proof (loss_is_final 1 sup rid s (go_reachable _ _ E)) as (H1 & _ & H3).
  exists s. split; [done|]. split; [by rewrite H1, <- Es|].
  intros s' Hl. apply (H3 s' Hl). by rewrite <- Es.
Defined.

(** Two requests at the loss, one waiting for its answer and one in the queue. *)
Definition two_left : list Event := [ERequest; ERequest] ++ sent 0 ++ [EExit].

Lemma loss_settles_everyone_witness :
  exists s s', go two_left = Some s /\ run 1 sup rid [EQueueLost (OReq 1); EWritten 1] s = Some s'
  /\ (2 <= work s)%nat /\ exists e, internal e = true /\ is_Some (AppServer.exec 1 sup rid e s').
Proof.
  concrete two_left s E Es.
  destruct (run 1 sup rid [EQueueLost (OReq 1); EWritten 1] s) as [s'|] eqn:E2;
    [|by rewrite <- Es in E2; vm_compute in E2].
  exists s, s'. split; [done|]. split; [done|].
  destruct (loss_settles_everyone 1 sup rid s [EQueueLost (OReq 1); EWritten 1] s' (go_reachable _ _ E)) as [H1 H2].
  - rewrite <- Es in E2. vm_compute in E2. injection E2 as <-. apply NoDup_nil_2.
  - by rewrite <- Es.
  - by repeat constructor.
  - done.
  - split; [exact H1|]. destruct H2 as [H2|H2]; [|done]. exfalso.
    rewrite <- Es in E2. vm_compute in E2. injection E2 as Es'. destruct H2 as [H2 _].
    assert (exists q, requests s' !! 0%nat = Some q /\ is_gone q = false) as (q & Hq & Hg) by (rewrite <- Es'; eauto).
    rewrite (H2 0%nat q Hq) in Hg. done.
Defined.
