(* ===== verification/CodexResponse.v ===== *)
(** Chat completion responses as Responses objects
    ([src/src/codex_responses_bridge/response.py]).

    [Item], [Usage] and [Response] are the dictionaries the code builds; [item_json] and
    [response_json] are those dictionaries.  [hex n] is the [n]-th [uuid4().hex] of a
    translation, and the functions that make ids thread the number of those made. *)

From stdpp Require Import pretty.
From S2P Require Import Prelude Json.

(** [BridgeCapabilityError], and what an unhashable value in a set test, an infinite float
    in [int()] and a method a value does not have raise. *)
Inductive Exn := BridgeCapabilityError | TypeError | OverflowError | AttributeError.
#[export] Instance Exn_eq_dec : EqDecision Exn.
Proof. solve_decision. Defined.

(** [_as_int(value, default)] *)
Definition _as_int (value : Json) (dflt : Z) : result Exn Z :=
  match value with
  | JNull => Ok dflt
  | JBool b => Ok (if b then 1 else 0)
  | JInt n => Ok n
  | JFloat m e => match float_int m e with Some n => Ok n | None => Err OverflowError end
  | JStr s => Ok (default dflt (py_int s))
  | JArr _ | JObj _ => Ok dflt
  end.

Definition _RECOGNIZED_FINISH : list string :=
  ["stop"; "tool_calls"; "function_call"; "length"; "content_filter"].

(** [finish in _RECOGNIZED_FINISH]: the reason, when it is one. *)
Definition recognized (finish : Json) : result Exn (option string) :=
  match finish with
  | JArr _ | JObj _ => Err TypeError
  | JStr s => Ok (if bool_decide (s ∈ _RECOGNIZED_FINISH) then Some s else None)
  | _ => Ok None
  end.

(** [_finish_to_status(finish, length_as_completed)]: the status, and the reason in
    [incomplete_details]. *)
Definition _finish_to_status (finish : string) (length_as_completed : bool) : string * option string :=
  if bool_decide (finish = "length") then
    if length_as_completed then ("completed", None) else ("incomplete", Some "max_output_tokens")
  else if bool_decide (finish = "content_filter") then ("incomplete", Some "content_filter")
  else ("completed", None).

Record Usage := MkUsage { input_tokens : Z; output_tokens : Z; cached_tokens : Z }.

Definition total_tokens (u : Usage) : Z := input_tokens u + output_tokens u.

Definition usage_json (u : Usage) : Json :=
  JObj [("input_tokens", JInt (input_tokens u)); ("output_tokens", JInt (output_tokens u));
        ("total_tokens", JInt (total_tokens u));
        ("input_tokens_details",
          JObj [("cached_tokens", JInt (cached_tokens u)); ("cache_creation_tokens", JInt 0)])].

(** [_usage_to_responses(usage)] *)
Definition _usage_to_responses (usage : Json) : result Exn (option Usage) :=
  match usage with
  | JObj _ =>
      let! prompt := _as_int (jget_null usage "prompt_tokens") 0 in
      let! completion := _as_int (jget_null usage "completion_tokens") 0 in
      let details := jget_null usage "prompt_tokens_details" in
      let! cached := if is_dict details then _as_int (jget_null details "cached_tokens") 0 else Ok 0 in
      Ok (Some (MkUsage prompt completion cached))
  | _ => Ok None
  end.

(** A finished output item. *)
Inductive Item :=
| ReasoningItem (id status text : string)
| MessageItem (id status text : string)
| CallItem (id status call_id name arguments : string) (namespace : option string).

(** [if ns: item["namespace"] = ns] *)
Definition namespace_field (ns : option string) : list (string * Json) :=
  match ns with
  | Some n => if bool_decide (n = "") then [] else [("namespace", JStr n)]
  | None => []
  end.

Definition item_json (item : Item) : Json :=
  match item with
  | ReasoningItem id status text =>
      JObj [("id", JStr id); ("type", JStr "reasoning"); ("status", JStr status);
            ("summary", JArr [JObj [("type", JStr "summary_text"); ("text", JStr text)]]);
            ("content", JArr [JObj [("type", JStr "reasoning_text"); ("text", JStr text)]])]
  | MessageItem id status text =>
      JObj [("id", JStr id); ("type", JStr "message"); ("role", JStr "assistant"); ("status", JStr status);
            ("content", JArr [JObj [("type", JStr "output_text"); ("text", JStr text); ("annotations", JArr [])]])]
  | CallItem id status call_id name arguments ns =>
      JObj ([("id", JStr id); ("type", JStr "function_call"); ("status", JStr status);
             ("call_id", JStr call_id); ("name", JStr name); ("arguments", JStr arguments)]
            ++ namespace_field ns)
  end.

(** A Responses object; [r_incomplete] is the reason of [incomplete_details], [r_error] the
    code and the message. *)
Record Response := MkResponse {
  r_id : string;
  r_created_at : Z;
  r_status : string;
  r_model : Json;
  r_output : list Item;
  r_metadata : list (string * Json);
  r_usage : option Usage;
  r_incomplete : option string;
  r_error : option (string * string);
}.

(** [_response_object(...)], [_lean_object(...)] *)
Definition response_json (r : Response) : Json :=
  JObj ([("id", JStr (r_id r)); ("object", JStr "response"); ("created_at", JInt (r_created_at r));
         ("status", JStr (r_status r)); ("model", r_model r); ("output", JArr (map item_json (r_output r)));
         ("metadata", JObj (r_metadata r))]
        ++ match r_usage r with Some u => [("usage", usage_json u)] | None => [] end
        ++ match r_incomplete r with
           | Some reason => [("incomplete_details", JObj [("reason", JStr reason)])] | None => [] end
        ++ match r_error r with
           | Some (code, message) => [("error", JObj [("code", JStr code); ("message", JStr message)])]
           | None => [] end).

(** [_ns_for(name, namespace_map)] *)
Definition _ns_for (name : string) (namespace_map : odict string string) : option string :=
  if bool_decide (name = "") then None
  else match dict_get namespace_map name with
       | Some ns => if bool_decide (ns = "") then None else Some ns
       | None => None
       end.

(** [v] is a non-empty string. *)
Definition nonempty_str (v : Json) : option string :=
  match v with
  | JStr s => if bool_decide (s = "") then None else Some s
  | _ => None
  end.

(** A present tool call type other than 'function' is refused. *)
Definition foreign_type (tc : Json) : bool :=
  match jget_null tc "type" with
  | JNull => false
  | t => negb (is_str t "function")
  end.

(** The id of a tool call: [None] when it is missing or null, refused when malformed. *)
Definition upstream_id (tc : Json) : result Exn (option string) :=
  match jget_null tc "id" with
  | JNull => Ok None
  | v => match nonempty_str v with Some s => Ok (Some s) | None => Err BridgeCapabilityError end
  end.

Section response.
Context (hex : nat -> string).

Definition _new_msg_id (n : nat) : string := String.append "msg_" (hex n).
Definition _new_reasoning_id (n : nat) : string := String.append "rs_" (hex n).
Definition _new_call_id (n : nat) : string := String.append "call_" (String.substring 0 16 (hex n)).

(** [_function_call_item(tc, ...)] *)
Definition _function_call_item (tc : Json) (item_status : string) (namespace_map : odict string string)
    (n : nat) : result Exn (Item * nat) :=
  if negb (is_dict tc) then Err BridgeCapabilityError
  else if foreign_type tc then Err BridgeCapabilityError
  else
    let fn := jget_null tc "function" in
    if negb (is_dict fn) then Err BridgeCapabilityError
    else match nonempty_str (jget_null fn "name") with
         | None => Err BridgeCapabilityError
         | Some name =>
             let! given := upstream_id tc in
             let '(call_id, n) :=
               match given with Some id => (id, n) | None => (_new_call_id n, S n) end in
             match jget_null fn "arguments" with
             | JStr args =>
                 Ok (CallItem (String.append "fc_" call_id) item_status call_id name args
                       (_ns_for name namespace_map), n)
             | _ => Err BridgeCapabilityError
             end
         end.

Fixpoint function_call_items (tcs : list Json) (item_status : string) (namespace_map : odict string string)
    (n : nat) : result Exn (list Item * nat) :=
  match tcs with
  | [] => Ok ([], n)
  | tc :: tcs =>
      let! (item, n) := _function_call_item tc item_status namespace_map n in
      let! (items, n) := function_call_items tcs item_status namespace_map n in
      Ok (item :: items, n)
  end.

(** The text of a field that must be a string when it is there; the empty one is none. *)
Definition text_field (v : Json) (key : string) : result Exn (option string) :=
  match jget_null v key with
  | JNull => Ok None
  | JStr s => Ok (if bool_decide (s = "") then None else Some s)
  | _ => Err BridgeCapabilityError
  end.

(** [_message_output_items(message, ...)] *)
Definition _message_output_items (message : Json) (item_status : string) (emit_reasoning : bool)
    (namespace_map : odict string string) : result Exn (list Item) :=
  if negb (is_dict message) then Err BridgeCapabilityError
  else
    let! reasoning := if emit_reasoning then text_field message "reasoning_content" else Ok None in
    let '(items, n) :=
      match reasoning with
      | Some text => ([ReasoningItem (_new_reasoning_id 0) item_status text], 1%nat)
      | None => ([], 0%nat)
      end in
    match jget_null message "refusal" with
    | JNull =>
        let! content := text_field message "content" in
        let '(items, n) :=
          match content with
          | Some text => (items ++ [MessageItem (_new_msg_id n) item_status text], S n)
          | None => (items, n)
          end in
        match jget_null message "tool_calls" with
        | JNull => Ok items
        | JArr tcs =>
            let! (calls, _) := function_call_items tcs item_status namespace_map n in
            Ok (items ++ calls)
        | _ => Err BridgeCapabilityError
        end
    | _ => Err BridgeCapabilityError
    end.

(** [item_status = "incomplete" if status == "incomplete" else "completed"] *)
Definition item_status_of (status : string) : string :=
  if bool_decide (status = "incomplete") then "incomplete" else "completed".

(** [chat_response_to_responses_body(chat, ...)]; [now] is [int(time.time())]. *)
Definition chat_response_to_responses_body (chat : Json) (response_id model : string)
    (created_at : option Z) (metadata : list (string * Json)) (emit_reasoning length_as_completed : bool)
    (namespace_map : odict string string) (now : Z) : result Exn Response :=
  if negb (is_dict chat) then Err BridgeCapabilityError
  else match jget_null chat "choices" with
  | JArr [choice] =>
      if negb (is_dict choice) then Err BridgeCapabilityError
      else
        let! finish := recognized (jget_null choice "finish_reason") in
        match finish with
        | None => Err BridgeCapabilityError
        | Some finish =>
            let '(status, incomplete) := _finish_to_status finish length_as_completed in
            let message := jget_null choice "message" in
            if negb (is_dict message) then Err BridgeCapabilityError
            else
              let! output := _message_output_items message (item_status_of status) emit_reasoning namespace_map in
              let! usage := _usage_to_responses (jget_null chat "usage") in
              let! created :=
                match created_at with Some c => Ok c | None => _as_int (jget_null chat "created") now end in
              let chat_model := jget_null chat "model" in
              let resolved :=
                if bool_decide (model = "") then if truthy chat_model then chat_model else JStr ""
                else JStr model in
              Ok (MkResponse response_id created status resolved output metadata usage incomplete None)
        end
  | _ => Err BridgeCapabilityError
  end.
End response.
