(* ===== verification/CodexStream.v ===== *)
(** Chat completion streams as Responses events
    ([src/src/codex_responses_bridge/stream.py]).

    A method of [_StreamState] is an [Act]: it changes the state and makes events, or
    raises, and then the events it had made are lost with the list they were in.  The
    generator is [chat_stream_to_responses_events]: the events it yields and, when it
    raises, the exception. *)

From stdpp Require Import pretty.
From S2P Require Import Prelude Json CodexResponse.

(** ** Data *)

(** An item as it is announced, before it has any content. *)
Inductive NewItem :=
| NewReasoning (id : string)
| NewMessage (id : string)
| NewCall (id call_id name : string) (namespace : option string).

Definition new_item_json (item : NewItem) : Json :=
  match item with
  | NewReasoning id =>
      JObj [("id", JStr id); ("type", JStr "reasoning"); ("status", JStr "in_progress"); ("summary", JArr [])]
  | NewMessage id =>
      JObj [("id", JStr id); ("type", JStr "message"); ("role", JStr "assistant");
            ("status", JStr "in_progress"); ("content", JArr [])]
  | NewCall id call_id name ns =>
      JObj ([("id", JStr id); ("type", JStr "function_call"); ("status", JStr "in_progress");
             ("call_id", JStr call_id); ("name", JStr name); ("arguments", JStr "")] ++ namespace_field ns)
  end.

(** What an event carries besides its number; [oi] is the [output_index]. *)
Inductive Payload :=
| Created (r : Response)
| InProgress (r : Response)
| ItemAdded (oi : Z) (item : NewItem)
| SummaryPartAdded (id : string) (oi : Z)
| SummaryTextDelta (id : string) (oi : Z) (delta : string)
| ReasoningTextDelta (id : string) (oi : Z) (delta : string)
| SummaryTextDone (id : string) (oi : Z) (text : string)
| ReasoningTextDone (id : string) (oi : Z) (text : string)
| SummaryPartDone (id : string) (oi : Z) (text : string)
| ContentPartAdded (id : string) (oi : Z)
| OutputTextDelta (id : string) (oi : Z) (delta : string)
| OutputTextDone (id : string) (oi : Z) (text : string)
| ContentPartDone (id : string) (oi : Z) (text : string)
| ArgumentsDelta (id : string) (oi : Z) (delta : string)
| ArgumentsDone (id : string) (oi : Z) (name arguments : string)
| ItemDone (oi : Z) (item : Item)
| Completed (r : Response)
| Incomplete (r : Response)
| Failed (r : Response).

Record Event := MkEvent { payload : Payload; sequence_number : Z }.

Definition summary_part (text : string) : Json :=
  JObj [("type", JStr "summary_text"); ("text", JStr text)].
Definition text_part (text : string) : Json :=
  JObj [("type", JStr "output_text"); ("text", JStr text); ("annotations", JArr [])].

(** [item_id] and [output_index], and the index of the part. *)
Definition at_item (id : string) (oi : Z) : list (string * Json) :=
  [("item_id", JStr id); ("output_index", JInt oi)].

Definition payload_fields (p : Payload) : string * list (string * Json) :=
  match p with
  | Created r => ("response.created", [("response", response_json r)])
  | InProgress r => ("response.in_progress", [("response", response_json r)])
  | ItemAdded oi item =>
      ("response.output_item.added", [("output_index", JInt oi); ("item", new_item_json item)])
  | SummaryPartAdded id oi =>
      ("response.reasoning_summary_part.added",
        at_item id oi ++ [("summary_index", JInt 0); ("part", summary_part "")])
  | SummaryTextDelta id oi delta =>
      ("response.reasoning_summary_text.delta",
        at_item id oi ++ [("summary_index", JInt 0); ("delta", JStr delta)])
  | ReasoningTextDelta id oi delta =>
      ("response.reasoning_text.delta",
        at_item id oi ++ [("content_index", JInt 0); ("delta", JStr delta)])
  | SummaryTextDone id oi text =>
      ("response.reasoning_summary_text.done",
        at_item id oi ++ [("summary_index", JInt 0); ("text", JStr text)])
  | ReasoningTextDone id oi text =>
      ("response.reasoning_text.done",
        at_item id oi ++ [("content_index", JInt 0); ("text", JStr text)])
  | SummaryPartDone id oi text =>
      ("response.reasoning_summary_part.done",
        at_item id oi ++ [("summary_index", JInt 0); ("part", summary_part text)])
  | ContentPartAdded id oi =>
      ("response.content_part.added",
        at_item id oi ++ [("content_index", JInt 0); ("part", text_part "")])
  | OutputTextDelta id oi delta =>
      ("response.output_text.delta",
        at_item id oi ++ [("content_index", JInt 0); ("delta", JStr delta); ("logprobs", JArr [])])
  | OutputTextDone id oi text =>
      ("response.output_text.done",
        at_item id oi ++ [("content_index", JInt 0); ("text", JStr text); ("logprobs", JArr [])])
  | ContentPartDone id oi text =>
      ("response.content_part.done",
        at_item id oi ++ [("content_index", JInt 0); ("part", text_part text)])
  | ArgumentsDelta id oi delta =>
      ("response.function_call_arguments.delta", at_item id oi ++ [("delta", JStr delta)])
  | ArgumentsDone id oi name arguments =>
      ("response.function_call_arguments.done",
        at_item id oi ++ [("name", JStr name); ("arguments", JStr arguments)])
  | ItemDone oi item =>
      ("response.output_item.done", [("output_index", JInt oi); ("item", item_json item)])
  | Completed r => ("response.completed", [("response", response_json r)])
  | Incomplete r => ("response.incomplete", [("response", response_json r)])
  | Failed r => ("response.failed", [("response", response_json r)])
  end.

(** The event dictionary of [_event]. *)
Definition event_json (e : Event) : Json :=
  let '(type, fields) := payload_fields (payload e) in
  JObj (("type", JStr type) :: fields ++ [("sequence_number", JInt (sequence_number e))]).

(** [{"id", "oi", "buf"}] of the open reasoning or message. *)
Record Open := MkOpen { o_id : string; o_oi : Z; o_buf : list string }.

Record Tool := MkTool {
  t_fc_id : string;
  t_oi : Z;
  t_call_id : string;
  t_upstream_id : option string;
  t_name : string;
  t_namespace : option string;
  t_buf : list string;
}.

(** [_StreamState]; [minted] counts the ids made. *)
Record State := MkState {
  seq : Z;
  next_oi : Z;
  output : list (Z * Item);
  usage : option Usage;
  finish : option string;
  terminal_seen : bool;
  reasoning : option Open;
  text : option Open;
  tools : odict Z Tool;
  tool_order : list Z;
  minted : nat;
}.

Definition init : State := MkState 0 0 [] None None false None None [] [] 0.

Definition with_seq x s := MkState x (next_oi s) (output s) (usage s) (finish s) (terminal_seen s)
  (reasoning s) (text s) (tools s) (tool_order s) (minted s).
Definition with_next_oi x s := MkState (seq s) x (output s) (usage s) (finish s) (terminal_seen s)
  (reasoning s) (text s) (tools s) (tool_order s) (minted s).
Definition with_output x s := MkState (seq s) (next_oi s) x (usage s) (finish s) (terminal_seen s)
  (reasoning s) (text s) (tools s) (tool_order s) (minted s).
Definition with_usage x s := MkState (seq s) (next_oi s) (output s) x (finish s) (terminal_seen s)
  (reasoning s) (text s) (tools s) (tool_order s) (minted s).
Definition with_finish f s := MkState (seq s) (next_oi s) (output s) (usage s) (Some f) true
  (reasoning s) (text s) (tools s) (tool_order s) (minted s).
Definition with_reasoning x s := MkState (seq s) (next_oi s) (output s) (usage s) (finish s) (terminal_seen s)
  x (text s) (tools s) (tool_order s) (minted s).
Definition with_text x s := MkState (seq s) (next_oi s) (output s) (usage s) (finish s) (terminal_seen s)
  (reasoning s) x (tools s) (tool_order s) (minted s).
Definition with_tools x o s := MkState (seq s) (next_oi s) (output s) (usage s) (finish s) (terminal_seen s)
  (reasoning s) (text s) x o (minted s).
Definition with_minted x s := MkState (seq s) (next_oi s) (output s) (usage s) (finish s) (terminal_seen s)
  (reasoning s) (text s) (tools s) (tool_order s) x.

(** ["".join(buf)] *)
Definition join (buf : list string) : string := String.concat "" buf.

(** ** Acts *)

Definition Act := State -> result Exn (State * list Event).

Definition skip : Act := fun s => Ok (s, []).
Definition raise (e : Exn) : Act := fun _ => Err e.
Definition update (f : State -> State) : Act := fun s => Ok (f s, []).
Definition and_then (a b : Act) : Act := fun s =>
  let! (s, xs) := a s in
  let! (s, ys) := b s in
  Ok (s, xs ++ ys).
(** An act that looks at the state first. *)
Definition look (k : State -> Act) : Act := fun s => k s s.

Infix "&;" := and_then (at level 59, right associativity).

(** [_event(...)] *)
Definition emit (p : Payload) : Act := fun s => Ok (with_seq (seq s + 1) s, [MkEvent p (seq s)]).

(** [self.output.append((oi, item))] *)
Definition push (oi : Z) (item : Item) : Act := update (fun s => with_output (output s ++ [(oi, item)]) s).

(** ** Items *)

Section stream.
(** The arguments of the generator. *)
Context (hex : nat -> string) (repr : Json -> string).
Context (response_id model : string) (created_at : Z) (metadata : list (string * Json)).
Context (emit_reasoning length_as_completed : bool) (namespace_map : odict string string).

Definition _close_reasoning (status : string) : Act := look (fun s =>
  match reasoning s with
  | None => skip
  | Some (MkOpen id oi buf) =>
      let full := join buf in
      let item := ReasoningItem id status full in
      push oi item &; update (with_reasoning None)
      &; emit (SummaryTextDone id oi full) &; emit (ReasoningTextDone id oi full)
      &; emit (SummaryPartDone id oi full) &; emit (ItemDone oi item)
  end).

Definition _close_text (status : string) : Act := look (fun s =>
  match text s with
  | None => skip
  | Some (MkOpen id oi buf) =>
      let full := join buf in
      let item := MessageItem id status full in
      push oi item &; update (with_text None)
      &; emit (OutputTextDone id oi full) &; emit (ContentPartDone id oi full) &; emit (ItemDone oi item)
  end).

(** [tool_order.remove(index)], when it is there. *)
Fixpoint remove_first (index : Z) (l : list Z) : list Z :=
  match l with
  | [] => []
  | i :: l => if bool_decide (i = index) then l else i :: remove_first index l
  end.

(** [_close_tool(index, status)]: the unnamed call is refused. *)
Definition _close_tool (index : Z) (status : string) : Act := look (fun s =>
  match dict_get (tools s) index with
  | None => skip
  | Some (MkTool fc_id oi call_id _ name ns buf) =>
      update (with_tools (dict_del (tools s) index) (remove_first index (tool_order s)))
      &; if bool_decide (name = "") then raise BridgeCapabilityError
         else
           let full := join buf in
           let item := CallItem fc_id status call_id name full ns in
           push oi item &; emit (ArgumentsDone fc_id oi name full) &; emit (ItemDone oi item)
  end).

Fixpoint close_tools (indices : list Z) (status : string) : Act :=
  match indices with
  | [] => skip
  | i :: indices => _close_tool i status &; close_tools indices status
  end.

(** [_close_all_tools(status)] *)
Definition _close_all_tools (status : string) : Act := look (fun s => close_tools (tool_order s) status).

(** [_handle_reasoning_delta(fragment)] *)
Definition open_reasoning : Act := look (fun s =>
  match reasoning s with
  | Some _ => skip
  | None =>
      let id := _new_reasoning_id hex (minted s) in
      let oi := next_oi s in
      update (fun s => with_minted (S (minted s)) (with_next_oi (oi + 1) (with_reasoning (Some (MkOpen id oi [])) s)))
      &; emit (ItemAdded oi (NewReasoning id)) &; emit (SummaryPartAdded id oi)
  end).

Definition reasoning_delta (fragment : string) : Act := look (fun s =>
  match reasoning s with
  | Some (MkOpen id oi buf) =>
      update (with_reasoning (Some (MkOpen id oi (buf ++ [fragment]))))
      &; emit (SummaryTextDelta id oi fragment) &; emit (ReasoningTextDelta id oi fragment)
  | None => skip
  end).

Definition _handle_reasoning_delta (fragment : string) : Act := look (fun s =>
  match text s, tools s with
  | None, [] => open_reasoning &; reasoning_delta fragment
  | _, _ => raise BridgeCapabilityError
  end).

Definition _open_message : Act := look (fun s =>
  let id := _new_msg_id hex (minted s) in
  let oi := next_oi s in
  update (fun s => with_minted (S (minted s)) (with_next_oi (oi + 1) (with_text (Some (MkOpen id oi [])) s)))
  &; emit (ItemAdded oi (NewMessage id)) &; emit (ContentPartAdded id oi)).

Definition text_delta (fragment : string) : Act := look (fun s =>
  match text s with
  | Some (MkOpen id oi buf) =>
      update (with_text (Some (MkOpen id oi (buf ++ [fragment])))) &; emit (OutputTextDelta id oi fragment)
  | None => skip
  end).

(** [_handle_text_delta(fragment)] *)
Definition _handle_text_delta (fragment : string) : Act := look (fun s =>
  match text s with
  | None => _close_reasoning "completed" &; _close_all_tools "completed" &; _open_message
  | Some _ => skip
  end &; text_delta fragment).

(** [_open_tool(index, upstream_id, name)]; no name is the empty one. *)
Definition _open_tool (index : Z) (given : option string) (name : string) : Act := look (fun s =>
  let '(call_id, n) :=
    match given with Some id => (id, minted s) | None => (_new_call_id hex (minted s), S (minted s)) end in
  let oi := next_oi s in
  let fc_id := String.append "fc_" call_id in
  let ns := _ns_for name namespace_map in
  update (fun s => with_minted n (with_next_oi (oi + 1)
    (with_tools (dict_set (tools s) index (MkTool fc_id oi call_id given name ns [])) (tool_order s ++ [index]) s)))
  &; emit (ItemAdded oi (NewCall fc_id call_id name ns))).

(** ** Tool call deltas *)

(** [tc.get("index", 0)] *)
Definition tool_index (tc : Json) : result Exn Z :=
  match jget tc "index" with
  | None => Ok 0
  | Some (JInt n) => if n <? 0 then Err BridgeCapabilityError else Ok n
  | Some _ => Err BridgeCapabilityError
  end.

(** [tc.get("function")], [None] being the empty object. *)
Definition tool_function (tc : Json) : result Exn Json :=
  match jget_null tc "function" with
  | JNull => Ok (JObj [])
  | JObj d => Ok (JObj d)
  | _ => Err BridgeCapabilityError
  end.

(** The name a fragment gives: none when it is missing. *)
Definition fragment_name (fn : Json) : result Exn (option string) :=
  match jget_null fn "name" with
  | JNull => Ok None
  | v => match nonempty_str v with Some s => Ok (Some s) | None => Err BridgeCapabilityError end
  end.

(** A different id on an index in use is a new call. *)
Definition is_new (existing : option Tool) (given : option string) : bool :=
  match existing, given with
  | Some tool, Some id =>
      match t_upstream_id tool with Some id' => negb (bool_decide (id = id')) | None => false end
  | _, _ => false
  end.

(** A fragment of a call that is open: it may bring the id and the name. *)
Definition fill_tool (given name : option string) (t : Tool) : Tool :=
  let t := match given, t_upstream_id t with
           | Some id, None => MkTool (t_fc_id t) (t_oi t) (t_call_id t) (Some id) (t_name t) (t_namespace t) (t_buf t)
           | _, _ => t
           end in
  match name with
  | Some n =>
      if bool_decide (t_name t = "")
      then MkTool (t_fc_id t) (t_oi t) (t_call_id t) (t_upstream_id t) n (_ns_for n namespace_map) (t_buf t)
      else t
  | None => t
  end.

Definition add_arguments (fragment : string) (t : Tool) : Tool :=
  MkTool (t_fc_id t) (t_oi t) (t_call_id t) (t_upstream_id t) (t_name t) (t_namespace t) (t_buf t ++ [fragment]).

(** A change of the call at [index], in place. *)
Definition set_tool (index : Z) (t : Tool) : Act :=
  update (fun s => with_tools (dict_set (tools s) index t) (tool_order s) s).

Definition arguments_delta (index : Z) (fragment : string) : Act := look (fun s =>
  match dict_get (tools s) index with
  | Some t => set_tool index (add_arguments fragment t) &; emit (ArgumentsDelta (t_fc_id t) (t_oi t) fragment)
  | None => skip
  end).

(** The call of a fragment: opened, or filled in. *)
Definition place_fragment (index : Z) (given name : option string) : Act := look (fun s =>
  let existing := dict_get (tools s) index in
  if is_new existing given || bool_decide (existing = None) then
    (if is_new existing given then _close_tool index "completed" else skip)
    &; _close_reasoning "completed" &; _close_text "completed"
    &; _open_tool index given (default "" name)
  else match existing with
       | Some t => set_tool index (fill_tool given name t)
       | None => skip
       end).

(** One entry of [tool_calls]. *)
Definition tool_fragment (tc : Json) : Act := fun s =>
  if negb (is_dict tc) then Err BridgeCapabilityError
  else
    let! index := tool_index tc in
    if foreign_type tc then Err BridgeCapabilityError
    else
      let! fn := tool_function tc in
      let! name := fragment_name fn in
      let! given := upstream_id tc in
      (place_fragment index given name
       &; match jget_null fn "arguments" with
          | JNull => skip
          | JStr fragment => if bool_decide (fragment = "") then skip else arguments_delta index fragment
          | _ => raise BridgeCapabilityError
          end) s.

Fixpoint tool_fragments (tcs : list Json) : Act :=
  match tcs with
  | [] => skip
  | tc :: tcs => tool_fragment tc &; tool_fragments tcs
  end.

(** [_handle_tool_deltas(tool_calls)] *)
Definition _handle_tool_deltas (tool_calls : Json) : Act :=
  match tool_calls with
  | JArr tcs => tool_fragments tcs
  | _ => raise BridgeCapabilityError
  end.

(** ** Chunks *)

(** The text of a delta goes to its handler when there is some. *)
Definition on_text (delta : Json) (key : string) (handle : string -> Act) : Act := fun s =>
  let! fragment := text_field delta key in
  match fragment with
  | Some fragment => handle fragment s
  | None => skip s
  end.

Definition on_delta (delta : Json) : Act :=
  (if emit_reasoning then on_text delta "reasoning_content" _handle_reasoning_delta else skip)
  &; match jget_null delta "refusal" with JNull => skip | _ => raise BridgeCapabilityError end
  &; on_text delta "content" _handle_text_delta
  &; match jget_null delta "tool_calls" with JNull => skip | tcs => _handle_tool_deltas tcs end.

(** The one choice of a chunk. *)
Definition on_choice (choice : Json) : Act := fun s =>
  if negb (is_dict choice) then Err BridgeCapabilityError
  else
    let! s :=
      match jget_null choice "finish_reason" with
      | JNull => Ok s
      | finish =>
          let! reason := recognized finish in
          match reason with
          | Some reason => Ok (with_finish reason s)
          | None => Err BridgeCapabilityError
          end
      end in
    match jget_null choice "delta" with
    | JNull => Ok (s, [])
    | JObj d => on_delta (JObj d) s
    | _ => Err BridgeCapabilityError
    end.

(** [feed(chunk)] *)
Definition feed (chunk : Json) : Act := fun s =>
  if negb (is_dict chunk) then Err BridgeCapabilityError
  else
    let! s :=
      match jget_null chunk "usage" with
      | JNull => Ok s
      | u => let! u := _usage_to_responses u in Ok (with_usage u s)
      end in
    match jget_null chunk "choices" with
    | JNull | JArr [] => Ok (s, [])
    | JArr choices =>
        if terminal_seen s then Err BridgeCapabilityError
        else match choices with
             | [choice] => on_choice choice s
             | _ => Err BridgeCapabilityError
             end
    | _ => Err BridgeCapabilityError
    end.

(** ** The generator *)

(** [_lean_object(...)] *)
Definition _lean_object (status : string) (output : list Item) (usage : option Usage)
    (incomplete : option string) (error : option (string * string)) : Response :=
  MkResponse response_id created_at status (JStr model) output metadata usage incomplete error.

Fixpoint insert_by_oi (x : Z * Item) (l : list (Z * Item)) : list (Z * Item) :=
  match l with
  | [] => [x]
  | y :: l' => if fst x <=? fst y then x :: l else y :: insert_by_oi x l'
  end.

(** [sorted(output, key=lambda pair: pair[0])] *)
Definition sort_by_oi (l : list (Z * Item)) : list (Z * Item) := foldr insert_by_oi [] l.

(** [_sorted_output()] *)
Definition _sorted_output (s : State) : list Item := map snd (sort_by_oi (output s)).

(** [_upstream_error_to_responses(err)] *)
Definition _upstream_error_to_responses (err : Json) : string * string :=
  match err with
  | JObj _ =>
      (py_str repr (or_else (jget_null err "code") (or_else (jget_null err "type") (JStr "upstream_error"))),
       py_str repr (or_else (jget_null err "message") (JStr "upstream error")))
  | _ => ("upstream_error", py_str repr err)
  end.

Definition created_event : Act := emit (Created (_lean_object "in_progress" [] None None None)).
Definition in_progress_event : Act := emit (InProgress (_lean_object "in_progress" [] None None None)).

Definition failed_event (err : Json) : Act := look (fun s =>
  emit (Failed (_lean_object "failed" (_sorted_output s) (usage s) None (Some (_upstream_error_to_responses err))))).

Definition incomplete_stream_failed : Act := look (fun s =>
  emit (Failed (_lean_object "failed" (_sorted_output s) (usage s) None
    (Some ("incomplete_upstream_stream", "chat/completions stream closed before a terminal finish_reason"))))).

(** [finalize()] *)
Definition finalize : Act := look (fun s =>
  let '(status, incomplete) := _finish_to_status (default "" (finish s)) length_as_completed in
  let item_status := item_status_of status in
  _close_reasoning "completed" &; _close_text item_status &; _close_all_tools item_status
  &; look (fun s =>
       let obj := _lean_object status (_sorted_output s) (usage s) incomplete None in
       emit (if bool_decide (status = "incomplete") then Incomplete obj else Completed obj))).

(** The loop over the chunks, and how it ends. *)
Fixpoint chunks_loop (chunks : list Json) (s : State) : list Event * option Exn :=
  let yields (a : Act) (k : State -> list Event * option Exn) :=
    match a s with
    | Ok (s, events) => let '(rest, e) := k s in (events ++ rest, e)
    | Err e => ([], Some e)
    end in
  match chunks with
  | [] => yields (if terminal_seen s then finalize else incomplete_stream_failed) (fun _ => ([], None))
  | chunk :: chunks =>
      if negb (is_dict chunk) then ([], Some BridgeCapabilityError)
      else match jget_null chunk "error" with
           | JNull => yields (feed chunk) (chunks_loop chunks)
           | err => yields (failed_event err) (fun _ => ([], None))
           end
  end.

(** [chat_stream_to_responses_events(chunks, ...)] *)
Definition chat_stream_to_responses_events (chunks : list Json) : list Event * option Exn :=
  match (created_event &; in_progress_event) init with
  | Ok (s, events) => let '(rest, e) := chunks_loop chunks s in (events ++ rest, e)
  | Err e => ([], Some e)
  end.
End stream.
