(* ===== verification/CodexStreamLaws.v ===== *)
(** What the Responses stream of [CodexStream] promises its reader, and that every
    translation keeps it.

    [Contract] is the reader's side: which items are announced and not done, with what was
    streamed of them, and which are done.  [contract_step] is one event, [None] when it is
    out of place.  The translation implements it: [contract_of] is the abstraction of its
    state, and [triple] is the simulation for one act. *)

From stdpp Require Import pretty.
From S2P Require Import Prelude Json CodexResponse CodexStream.

(** ** The contract *)

Inductive Kind := KReasoning | KMessage | KCall.
#[export] Instance Kind_eq_dec : EqDecision Kind.
Proof. solve_decision. Defined.

(** An announced item: how many of the steps that close it were taken, the text and the
    reasoning text streamed so far, and the call's id and name. *)
Record Live := MkLive {
  l_id : string;
  l_kind : Kind;
  l_stage : nat;
  l_text : string;
  l_reasoning : string;
  l_call : string;
  l_name : string;
}.

Inductive Phase := PStart | PCreated | PBody | POver.
#[export] Instance Phase_eq_dec : EqDecision Phase.
Proof. solve_decision. Defined.

Record Contract := MkContract {
  c_phase : Phase;
  c_next : Z;                  (* the next output index *)
  c_live : gmap Z Live;
  c_done : gmap Z Item;
}.

Definition start : Contract := MkContract PStart 0 ∅ ∅.

Definition with_live m c := MkContract (c_phase c) (c_next c) m (c_done c).

Definition announce (item : NewItem) : Live :=
  match item with
  | NewReasoning id => MkLive id KReasoning 0 "" "" "" ""
  | NewMessage id => MkLive id KMessage 0 "" "" "" ""
  | NewCall id call_id _ _ => MkLive id KCall 0 "" "" call_id ""
  end.

(** Items do not nest: a reasoning item comes first, a message alone, a call beside calls. *)
Definition may_open (item : NewItem) (c : Contract) : bool :=
  match item with
  | NewReasoning _ => bool_decide (c_next c = 0) && bool_decide (c_live c = ∅)
  | NewMessage _ => bool_decide (c_live c = ∅)
  | NewCall _ _ _ _ => bool_decide (map_Forall (fun _ l => l_kind l = KCall) (c_live c))
  end.

(** An event of the item at [oi], which must be the one with this id and kind. *)
Definition on_item (oi : Z) (id : string) (kind : Kind) (f : Live -> option Live) (c : Contract)
    : option Contract :=
  match c_live c !! oi with
  | Some l =>
      if bool_decide (l_id l = id) && bool_decide (l_kind l = kind) then
        match f l with Some l' => Some (with_live (<[oi := l']> (c_live c)) c) | None => None end
      else None
  | None => None
  end.

Definition to_stage (n : nat) l :=
  MkLive (l_id l) (l_kind l) n (l_text l) (l_reasoning l) (l_call l) (l_name l).
Definition to_text t l :=
  MkLive (l_id l) (l_kind l) (l_stage l) t (l_reasoning l) (l_call l) (l_name l).
Definition to_reasoning t l :=
  MkLive (l_id l) (l_kind l) (l_stage l) (l_text l) t (l_call l) (l_name l).
Definition to_name n l :=
  MkLive (l_id l) (l_kind l) (l_stage l) (l_text l) (l_reasoning l) (l_call l) n.

(** From stage [n] to the next one. *)
Definition stage (n : nat) (l : Live) : option Live :=
  if bool_decide (l_stage l = n) then Some (to_stage (S n) l) else None.

(** A fragment of the text, in stage [n]. *)
Definition text_at (n : nat) (delta : string) (l : Live) : option Live :=
  if bool_decide (l_stage l = n) then Some (to_text (String.append (l_text l) delta) l) else None.
Definition reasoning_at (n : nat) (delta : string) (l : Live) : option Live :=
  if bool_decide (l_stage l = n) then Some (to_reasoning (String.append (l_reasoning l) delta) l) else None.

(** The whole text: what was streamed. *)
Definition whole (n : nat) (t streamed : string) (l : Live) : option Live :=
  if bool_decide (t = streamed) then stage n l else None.

(** A finished item says what was announced and streamed. *)
Definition finishes (item : Item) (l : Live) : bool :=
  match item with
  | ReasoningItem id _ text =>
      bool_decide (l_id l = id) && bool_decide (l_kind l = KReasoning) && bool_decide (l_stage l = 4%nat)
      && bool_decide (l_text l = text) && bool_decide (l_reasoning l = text)
  | MessageItem id _ text =>
      bool_decide (l_id l = id) && bool_decide (l_kind l = KMessage) && bool_decide (l_stage l = 3%nat)
      && bool_decide (l_text l = text)
  | CallItem id _ call_id name arguments _ =>
      bool_decide (l_id l = id) && bool_decide (l_kind l = KCall) && bool_decide (l_stage l = 1%nat)
      && bool_decide (l_text l = arguments) && bool_decide (l_call l = call_id) && bool_decide (l_name l = name)
      && negb (bool_decide (name = ""))
  end.

(** The items done, in the order of their indices. *)
Definition items_done (c : Contract) : list Item := omap (fun oi => c_done c !! oi) (seqZ 0 (c_next c)).

#[export] Instance Item_eq_dec : EqDecision Item.
Proof. solve_decision. Defined.

Definition over c := MkContract POver (c_next c) (c_live c) (c_done c).

Definition contract_step (c : Contract) (p : Payload) : option Contract :=
  match c_phase c, p with
  | PStart, Created r =>
      if bool_decide (r_output r = []) then Some (MkContract PCreated (c_next c) (c_live c) (c_done c)) else None
  | PCreated, InProgress r =>
      if bool_decide (r_output r = []) then Some (MkContract PBody (c_next c) (c_live c) (c_done c)) else None
  | PBody, ItemAdded oi item =>
      if bool_decide (oi = c_next c) && may_open item c
      then Some (MkContract PBody (c_next c + 1) (<[oi := announce item]> (c_live c)) (c_done c)) else None
  | PBody, SummaryPartAdded id oi => on_item oi id KReasoning (stage 0) c
  | PBody, SummaryTextDelta id oi d => on_item oi id KReasoning (text_at 1 d) c
  | PBody, ReasoningTextDelta id oi d => on_item oi id KReasoning (reasoning_at 1 d) c
  | PBody, SummaryTextDone id oi t => on_item oi id KReasoning (fun l => whole 1 t (l_text l) l) c
  | PBody, ReasoningTextDone id oi t => on_item oi id KReasoning (fun l => whole 2 t (l_reasoning l) l) c
  | PBody, SummaryPartDone id oi t => on_item oi id KReasoning (fun l => whole 3 t (l_text l) l) c
  | PBody, ContentPartAdded id oi => on_item oi id KMessage (stage 0) c
  | PBody, OutputTextDelta id oi d => on_item oi id KMessage (text_at 1 d) c
  | PBody, OutputTextDone id oi t => on_item oi id KMessage (fun l => whole 1 t (l_text l) l) c
  | PBody, ContentPartDone id oi t => on_item oi id KMessage (fun l => whole 2 t (l_text l) l) c
  | PBody, ArgumentsDelta id oi d => on_item oi id KCall (text_at 0 d) c
  | PBody, ArgumentsDone id oi name t =>
      on_item oi id KCall (fun l => whole 0 t (l_text l) (to_name name l)) c
  | PBody, ItemDone oi item =>
      match c_live c !! oi with
      | Some l =>
          if finishes item l
          then Some (MkContract PBody (c_next c) (delete oi (c_live c)) (<[oi := item]> (c_done c))) else None
      | None => None
      end
  | PBody, Completed r =>
      if bool_decide (r_status r = "completed") && bool_decide (c_live c = ∅)
         && bool_decide (r_output r = items_done c) && bool_decide (Z.of_nat (length (r_output r)) = c_next c)
      then Some (over c) else None
  | PBody, Incomplete r =>
      if bool_decide (r_status r = "incomplete") && bool_decide (c_live c = ∅)
         && bool_decide (r_output r = items_done c) && bool_decide (Z.of_nat (length (r_output r)) = c_next c)
      then Some (over c) else None
  | PBody, Failed r =>
      if bool_decide (r_status r = "failed") && bool_decide (r_output r = items_done c)
      then Some (over c) else None
  | _, _ => None
  end.

Fixpoint accepts (c : Contract) (ps : list Payload) : option Contract :=
  match ps with
  | [] => Some c
  | p :: ps => match contract_step c p with Some c => accepts c ps | None => None end
  end.

Lemma accepts_app ps qs c :
  accepts c (ps ++ qs) = match accepts c ps with Some c => accepts c qs | None => None end.
Proof.
  revert c. induction ps as [|p ps IH]; intros c; [done|]. simpl. destruct (contract_step c p); [apply IH|done].
Qed.

(** ** The contract a state of the translation has reached *)

Definition open_live (kind : Kind) (o : Open) : Live :=
  MkLive (o_id o) kind 1 (join (o_buf o)) (if bool_decide (kind = KReasoning) then join (o_buf o) else "") "" "".
Definition tool_live (t : Tool) : Live := MkLive (t_fc_id t) KCall 0 (join (t_buf t)) "" (t_call_id t) "".

Definition tool_ois (d : odict Z Tool) : list Z := map (fun p => t_oi (snd p)) d.
Definition tool_map (d : odict Z Tool) : gmap Z Live :=
  list_to_map (map (fun p => (t_oi (snd p), tool_live (snd p))) d).

Definition live_map (s : State) : gmap Z Live :=
  match reasoning s, text s with
  | Some o, _ => {[o_oi o := open_live KReasoning o]}
  | None, Some o => {[o_oi o := open_live KMessage o]}
  | None, None => tool_map (tools s)
  end.

Definition contract_of (s : State) : Contract :=
  MkContract PBody (next_oi s) (live_map s) (list_to_map (output s)).

(** Every index below [n] is that of a live item or of a finished one, not of both. *)
Record indices_ok (n : Z) (m : gmap Z Live) (out : list (Z * Item)) : Prop := {
  ix_next : 0 <= n;
  ix_output : NoDup out.*1;
  ix_used : forall oi, 0 <= oi < n <-> is_Some (m !! oi) \/ oi ∈ out.*1;
  ix_apart : forall oi, oi ∈ out.*1 -> m !! oi = None;
}.

Record state_ok (s : State) : Prop := {
  ok_modes : (reasoning s = None \/ text s = None /\ tools s = []) /\ (text s = None \/ tools s = []);
  ok_wf : dict_wf (tools s);
  ok_ois : NoDup (tool_ois (tools s));
  ok_order : forall i, i ∈ tool_order s <-> i ∈ dict_keys (tools s);
  ok_unique : NoDup (tool_order s);
  ok_indices : indices_ok (next_oi s) (live_map s) (output s);
}.

Lemma indices_fresh n m out : indices_ok n m out -> m !! n = None /\ n ∉ out.*1.
Proof.
  intros [_ _ Hu _]. split; [destruct (m !! n) eqn:E; [|done]|intros Hn];
    assert (0 <= n < n) by (apply Hu; eauto); lia.
Qed.

Lemma indices_new n m out l : indices_ok n m out -> indices_ok (n + 1) (<[n := l]> m) out.
Proof.
  intros Hok. destruct (indices_fresh _ _ _ Hok) as [Hf1 Hf2]. destruct Hok as [H1 H2 H3 H4].
  split; [lia|done| |].
  - intros oi. destruct (decide (oi = n)) as [->|Hne].
    + rewrite lookup_insert_eq. split; [eauto|lia].
    + rewrite lookup_insert_ne by done. rewrite <- H3. lia.
  - intros oi Hoi. rewrite lookup_insert_ne by (intros ->; done). by apply H4.
Qed.

Lemma indices_update n m out oi l :
  is_Some (m !! oi) -> indices_ok n m out -> indices_ok n (<[oi := l]> m) out.
Proof.
  intros [x Hx] [H1 H2 H3 H4]. split; [done|done| |].
  - intros oi'. rewrite H3. destruct (decide (oi = oi')) as [<-|]; [rewrite lookup_insert_eq, Hx|by rewrite lookup_insert_ne].
    split; (intros [?|?]; [left; eauto|right; done]).
  - intros oi' Hoi. destruct (decide (oi = oi')) as [<-|]; [by rewrite H4 in Hx|]. rewrite lookup_insert_ne by done. by apply H4.
Qed.

Lemma indices_close n m out oi item :
  is_Some (m !! oi) -> indices_ok n m out -> indices_ok n (delete oi m) (out ++ [(oi, item)]).
Proof.
  intros [x Hx] [H1 H2 H3 H4]. assert (oi ∉ out.*1) as Hn by (intros E; by rewrite H4 in Hx).
  assert (forall oi', oi' ∈ (out ++ [(oi, item)]).*1 <-> oi' ∈ out.*1 \/ oi' = oi) as Hin.
  { intros oi'. rewrite fmap_app, elem_of_app. simpl. by rewrite list_elem_of_singleton. }
  split; [done| | |].
  - rewrite fmap_app. apply NoDup_app. split_and!; [done| |apply NoDup_singleton].
    intros y Hy E%list_elem_of_singleton. by subst y.
  - intros oi'. rewrite Hin, H3. destruct (decide (oi = oi')) as [<-|].
    + rewrite lookup_delete_eq, Hx. split; [auto|]. intros _. left. eauto.
    + rewrite lookup_delete_ne by done. intuition congruence.
  - intros oi'. rewrite Hin. intros [Hoi| ->]; [|apply lookup_delete_eq].
    apply lookup_delete_None. right. by apply H4.
Qed.

(** *** The calls, by their output index *)

Lemma dict_get_ois d i t : dict_get d i = Some t -> t_oi t ∈ tool_ois d.
Proof.
  induction d as [|[i' t'] d IH]; simpl; [done|]. case_decide; [intros [= ->]; by left|]. intros Hg. right. auto.
Qed.

Lemma tool_map_None d oi : oi ∉ tool_ois d -> tool_map d !! oi = None.
Proof.
  intros H. apply not_elem_of_list_to_map_1. intros (x & -> & Hx)%list_elem_of_fmap. apply H.
  apply list_elem_of_fmap in Hx as (p & -> & Hp). apply list_elem_of_fmap. by exists p.
Qed.

Lemma tool_map_lookup d i t :
  NoDup (tool_ois d) -> dict_get d i = Some t -> tool_map d !! t_oi t = Some (tool_live t).
Proof.
  induction d as [|[i' t'] d IH]; simpl; [done|]. intros [Hn Hd]%NoDup_cons.
  case_decide; [intros [= ->]; apply lookup_insert_eq|]. intros Hg. unfold tool_map. simpl.
  rewrite lookup_insert_ne; [by apply IH|]. intros E. apply Hn. rewrite E. by eapply dict_get_ois.
Qed.

Lemma ois_set d i t t' :
  dict_get d i = Some t -> t_oi t' = t_oi t -> tool_ois (dict_set d i t') = tool_ois d.
Proof.
  intros H E. induction d as [|[i' x] d IH]; simpl in *; [done|].
  case_decide; simpl; [injection H as ->; by rewrite E|by rewrite IH].
Qed.

Lemma ois_new d i t : dict_get d i = None -> tool_ois (dict_set d i t) = tool_ois d ++ [t_oi t].
Proof.
  intros H. induction d as [|[i' x] d IH]; simpl in *; [done|]. case_decide; [done|]. simpl. by rewrite IH.
Qed.

Lemma tool_map_set d i t t' :
  NoDup (tool_ois d) -> dict_get d i = Some t -> t_oi t' = t_oi t ->
  tool_map (dict_set d i t') = <[t_oi t := tool_live t']> (tool_map d).
Proof.
  intros Hd Hg E. induction d as [|[i' x] d IH]; simpl in *; [done|]. apply NoDup_cons in Hd as [Hn Hd].
  case_decide; unfold tool_map; simpl.
  - injection Hg as ->. rewrite E. by rewrite insert_insert_eq.
  - rewrite insert_insert_ne; [|intros E'; apply Hn; rewrite <- E'; by eapply dict_get_ois].
    f_equal. by apply IH.
Qed.

Lemma tool_map_new d i t :
  dict_get d i = None -> t_oi t ∉ tool_ois d ->
  tool_map (dict_set d i t) = <[t_oi t := tool_live t]> (tool_map d).
Proof.
  intros Hg Hn. induction d as [|[i' x] d IH]; simpl in *; [done|]. case_decide; [done|].
  unfold tool_map. simpl. apply not_elem_of_cons in Hn as [Hn1 Hn2].
  rewrite insert_insert_ne by done. f_equal. by apply IH.
Qed.

Lemma tool_map_del d i t :
  NoDup (tool_ois d) -> dict_get d i = Some t -> tool_map (dict_del d i) = delete (t_oi t) (tool_map d).
Proof.
  intros Hd Hg. induction d as [|[i' x] d IH]; simpl in *; [done|]. apply NoDup_cons in Hd as [Hn Hd].
  case_decide; unfold tool_map; simpl.
  - injection Hg as ->. rewrite delete_insert_id; [done|]. by apply tool_map_None.
  - rewrite delete_insert_ne; [f_equal; by apply IH|].
    intros E. apply Hn. rewrite <- E. by eapply dict_get_ois.
Qed.

Lemma ois_del d i : tool_ois (dict_del d i) `sublist_of` tool_ois d.
Proof.
  induction d as [|[i' x] d IH]; simpl; [done|]. case_decide; simpl; [by apply sublist_cons|by apply sublist_skip].
Qed.

Lemma tool_map_calls d : map_Forall (fun _ l => l_kind l = KCall) (tool_map d).
Proof.
  induction d as [|[i t] d IH]; [apply map_Forall_empty|]. unfold tool_map. simpl. by apply map_Forall_insert_2.
Qed.

Lemma tool_map_is_Some d oi : is_Some (tool_map d !! oi) -> oi ∈ tool_ois d.
Proof.
  intros [l H]. destruct (decide (oi ∈ tool_ois d)); [done|]. by rewrite tool_map_None in H.
Qed.

(** *** The items in order *)

Lemma join_snoc buf f : join (buf ++ [f]) = String.append (join buf) f.
Proof.
  unfold join. induction buf as [|x [|y buf] IH]; [done|done|].
  change (String.append x (String.concat "" ((y :: buf) ++ [f]))
          = String.append (String.append x (String.concat "" (y :: buf))) f).
  by rewrite IH, append_assoc.
Qed.

(** The items at indices [a], [a + 1], ... [a + n - 1], with their indices. *)
Fixpoint pairs_from (a : Z) (n : nat) (m : gmap Z Item) : list (Z * Item) :=
  match n with
  | O => []
  | S n => match m !! a with Some x => [(a, x)] | None => [] end ++ pairs_from (a + 1) n m
  end.

Lemma pairs_items a n m : map snd (pairs_from a n m) = omap (fun oi => m !! oi) (seqZ a (Z.of_nat n)).
Proof.
  revert a. induction n as [|n IH]; intros a; [by rewrite seqZ_nil by lia|].
  rewrite seqZ_cons by lia. simpl. rewrite map_app, IH.
  replace (Z.pred (Z.of_nat (S n))) with (Z.of_nat n) by lia. by destruct (m !! a).
Qed.

Lemma pairs_bound a n m p : p ∈ pairs_from a n m -> a <= fst p.
Proof.
  revert a. induction n as [|n IH]; intros a; simpl; [by rewrite elem_of_nil|].
  rewrite elem_of_app. intros [H|H]; [|apply IH in H; lia].
  destruct (m !! a); [|by apply elem_of_nil in H]. apply list_elem_of_singleton in H as ->. done.
Qed.

Lemma insert_front x l : (forall p, p ∈ l -> fst x <= fst p) -> insert_by_oi x l = x :: l.
Proof.
  intros Hl. destruct l as [|y l]; [done|]. simpl. destruct (Z.leb_spec (fst x) (fst y)); [done|].
  specialize (Hl y). rewrite elem_of_cons in Hl. intuition lia.
Qed.

Lemma pairs_insert_out a n k x m : k < a -> pairs_from a n (<[k := x]> m) = pairs_from a n m.
Proof.
  revert a. induction n as [|n IH]; intros a Hk; simpl; [done|].
  rewrite lookup_insert_ne by lia. by rewrite IH by lia.
Qed.

Lemma insert_pairs a n k x m :
  m !! k = None -> a <= k < a + Z.of_nat n ->
  insert_by_oi (k, x) (pairs_from a n m) = pairs_from a n (<[k := x]> m).
Proof.
  revert a. induction n as [|n IH]; intros a Hm Hk; [lia|]. cbn [pairs_from].
  destruct (decide (a = k)) as [->|Hne].
  - rewrite Hm, lookup_insert_eq. simpl. rewrite pairs_insert_out by lia.
    apply insert_front. intros p Hp%pairs_bound. simpl. lia.
  - rewrite lookup_insert_ne by done. rewrite <- IH by (done || lia).
    destruct (m !! a) as [y|]; [|done]. simpl. destruct (Z.leb_spec k a); [lia|done].
Qed.

(** Sorting the finished items gives them in the order of their indices. *)
Lemma sort_pairs l n :
  NoDup l.*1 -> (forall oi, oi ∈ l.*1 -> 0 <= oi < Z.of_nat n) ->
  sort_by_oi l = pairs_from 0 n (list_to_map l).
Proof.
  induction l as [|[k x] l IH]; intros Hd Hb.
  - simpl. clear. assert (forall a, pairs_from a n ∅ = []) as Ha; [|by rewrite Ha].
    induction n as [|n IH]; intros a; [done|]. simpl. by rewrite lookup_empty, IH.
  - change (sort_by_oi ((k, x) :: l)) with (insert_by_oi (k, x) (sort_by_oi l)).
    simpl in Hd. apply NoDup_cons in Hd as [Hk Hd].
    rewrite IH by (done || (intros oi Hoi; apply Hb; by right)). cbn [list_to_map foldr].
    apply insert_pairs; [by apply not_elem_of_list_to_map_1|]. apply Hb. by left.
Qed.

Lemma sorted_items s : state_ok s -> _sorted_output s = items_done (contract_of s).
Proof.
  intros [_ _ _ _ _ [H1 H5 H6 _]]. unfold _sorted_output, items_done. simpl.
  rewrite (sort_pairs _ (Z.to_nat (next_oi s))), pairs_items, Z2Nat.id by
    (done || (intros oi Hoi; rewrite Z2Nat.id by done; apply H6; by right)). done.
Qed.

(** Once nothing is live every index has its item. *)
Lemma all_done s :
  state_ok s -> live_map s = ∅ -> Z.of_nat (length (items_done (contract_of s))) = next_oi s.
Proof.
  intros [_ _ _ _ _ [H1 H5 H6 _]] Hl. unfold items_done. simpl.
  assert (forall n a, 0 <= a -> a + Z.of_nat n <= next_oi s ->
    length (omap (fun oi => (list_to_map (output s) : gmap Z Item) !! oi) (seqZ a (Z.of_nat n))) = n) as Hn.
  { induction n as [|n IH]; intros a Ha Hb; [by rewrite seqZ_nil by lia|].
    rewrite seqZ_cons by lia. replace (Z.pred (Z.of_nat (S n))) with (Z.of_nat n) by lia. simpl.
    assert (is_Some ((list_to_map (output s) : gmap Z Item) !! a)) as [x ->].
    { destruct (proj1 (H6 a)) as [[? E]|E]; [lia|by rewrite Hl, lookup_empty in E|].
      apply list_elem_of_fmap in E as ([k y] & -> & Hy). exists y. by apply elem_of_list_to_map. }
    simpl. f_equal. apply IH; lia. }
  rewrite <- (Z2Nat.id (next_oi s)) at 1 by done. rewrite Hn; lia.
Qed.

(** ** Acts keep the contract *)

Inductive Fragment := FReasoning (t : string) | FText (t : string) | FArguments (t : string).

(** The fragments that events bring; a reasoning fragment comes twice, and counts once. *)
Definition fragment_of (p : Payload) : list Fragment :=
  match p with
  | SummaryTextDelta _ _ d => [FReasoning d]
  | OutputTextDelta _ _ d => [FText d]
  | ArgumentsDelta _ _ d => [FArguments d]
  | _ => []
  end.
Definition fragments (evs : list Event) : list Fragment := concat (map (fun e => fragment_of (payload e)) evs).

Lemma fragments_app xs ys : fragments (xs ++ ys) = fragments xs ++ fragments ys.
Proof. unfold fragments. by rewrite map_app, concat_app. Qed.

(** The events are numbered from [n] on. *)
Definition numbered (n : Z) (evs : list Event) : Prop :=
  map sequence_number evs = seqZ n (Z.of_nat (length evs)).

Lemma numbered_app n xs ys :
  numbered n xs -> numbered (n + Z.of_nat (length xs)) ys -> numbered n (xs ++ ys).
Proof.
  unfold numbered. intros H1 H2. rewrite map_app, H1, H2, length_app, Nat2Z.inj_add. by rewrite seqZ_app by lia.
Qed.

Definition counted (s : State) (evs : list Event) (s' : State) : Prop :=
  numbered (seq s) evs /\ seq s' = seq s + Z.of_nat (length evs).

Lemma counted_nil s s' : seq s' = seq s -> counted s [] s'.
Proof. intros E. unfold counted, numbered. simpl. rewrite seqZ_nil by lia. split; [done|lia]. Qed.

Lemma counted_app s xs s1 ys s' : counted s xs s1 -> counted s1 ys s' -> counted s (xs ++ ys) s'.
Proof.
  intros [N1 E1] [N2 E2]. split; [apply numbered_app; [done|by rewrite <- E1]|].
  rewrite length_app, E2, E1. lia.
Qed.

(** What only [feed] changes. *)
Definition kept (s s' : State) : Prop :=
  finish s' = finish s /\ terminal_seen s' = terminal_seen s /\ usage s' = usage s.

(** From a state of [P] the act [a], when it does not raise, makes events that the contract
    accepts, with these fragments, and ends in a state of [Q]. *)
Definition triple (P : State -> Prop) (a : Act) (fs : list Fragment) (Q : State -> Prop) : Prop :=
  forall s s' evs, state_ok s -> P s -> a s = Ok (s', evs) ->
    accepts (contract_of s) (map payload evs) = Some (contract_of s')
    /\ counted s evs s' /\ fragments evs = fs /\ kept s s' /\ state_ok s' /\ Q s'.

Lemma triple_skip P : triple P skip [] P.
Proof. intros s s' evs Hok HP [= <- <-]. split_and!; try done. by apply counted_nil. Qed.

Lemma triple_raise P e fs Q : triple P (raise e) fs Q.
Proof. by intros s s' evs Hok HP [=]. Qed.

Lemma triple_seq P a fs R b gs Q :
  triple P a fs R -> triple R b gs Q -> triple P (a &; b) (fs ++ gs) Q.
Proof.
  intros Ha Hb s s' evs Hok HP H. unfold and_then in H. destruct (a s) as [[s1 xs]|] eqn:Ea; [|done].
  simpl in H. destruct (b s1) as [[s2 ys]|] eqn:Eb; [|done]. injection H as <- <-.
  destruct (Ha s s1 xs Hok HP Ea) as (A1 & A2 & A3 & (A4 & A5 & A6) & A7 & A8).
  destruct (Hb s1 s2 ys A7 A8 Eb) as (B1 & B2 & B3 & (B4 & B5 & B6) & B7 & B8).
  split_and!; try done.
  - by rewrite map_app, accepts_app, A1.
  - by eapply counted_app.
  - by rewrite fragments_app, A3, B3.
  - split_and!; congruence.
Qed.

(** An act that brings no fragment, before another. *)
Lemma triple_then P a R b gs Q : triple P a [] R -> triple R b gs Q -> triple P (a &; b) gs Q.
Proof. intros Ha Hb. exact (triple_seq P a [] R b gs Q Ha Hb). Qed.

Lemma triple_look P k fs Q : (forall s, triple (fun s' => s' = s /\ P s) (k s) fs Q) -> triple P (look k) fs Q.
Proof. intros H s s' evs Hok HP He. by apply (H s s s' evs). Qed.

Lemma triple_weaken P P' a fs Q Q' :
  triple P a fs Q -> (forall s, P' s -> P s) -> (forall s, Q s -> Q' s) -> triple P' a fs Q'.
Proof. intros H HP HQ s s' evs Hok HP' He. destruct (H s s' evs Hok (HP s HP') He) as (?&?&?&?&?&?). auto 10. Qed.

Lemma triple_pre P P' a fs Q : triple P a fs Q -> (forall s, P' s -> P s) -> triple P' a fs Q.
Proof. intros H HP. by eapply triple_weaken. Qed.

(** Compute the conditions that a concrete event meets. *)
Ltac events :=
  repeat (progress (unfold contract_step, on_item, whole, stage, text_at, reasoning_at; simpl;
    rewrite ?lookup_insert_eq, ?insert_insert_eq;
    repeat match goal with |- context [bool_decide ?P] => rewrite (bool_decide_true P) by done end)).

(** The straight-line part of an act. *)
Ltac straight H := unfold and_then, push, update, emit in H; simpl in H; injection H as <- <-.

Ltac count := unfold counted, numbered; simpl; split; [|lia];
  repeat (rewrite seqZ_cons by lia; f_equal; try lia); by rewrite ?seqZ_nil by lia.

(** The item at [oi] goes from the live ones to the finished ones. *)
Lemma close_reasoning_events n m d oi id buf status :
  m !! oi = None ->
  accepts (MkContract PBody n (<[oi := open_live KReasoning (MkOpen id oi buf)]> m) d)
    [SummaryTextDone id oi (join buf); ReasoningTextDone id oi (join buf); SummaryPartDone id oi (join buf);
     ItemDone oi (ReasoningItem id status (join buf))]
  = Some (MkContract PBody n m (<[oi := ReasoningItem id status (join buf)]> d)).
Proof. intros Hm. unfold open_live. events. by rewrite delete_insert_id. Qed.

Lemma close_text_events n m d oi id buf status :
  m !! oi = None ->
  accepts (MkContract PBody n (<[oi := open_live KMessage (MkOpen id oi buf)]> m) d)
    [OutputTextDone id oi (join buf); ContentPartDone id oi (join buf);
     ItemDone oi (MessageItem id status (join buf))]
  = Some (MkContract PBody n m (<[oi := MessageItem id status (join buf)]> d)).
Proof. intros Hm. unfold open_live. events. by rewrite delete_insert_id. Qed.

Lemma close_tool_events n m d t status :
  m !! t_oi t = Some (tool_live t) -> t_name t <> "" ->
  let item := CallItem (t_fc_id t) status (t_call_id t) (t_name t) (join (t_buf t)) (t_namespace t) in
  accepts (MkContract PBody n m d)
    [ArgumentsDone (t_fc_id t) (t_oi t) (t_name t) (join (t_buf t)); ItemDone (t_oi t) item]
  = Some (MkContract PBody n (delete (t_oi t) m) (<[t_oi t := item]> d)).
Proof.
  intros Hm Hn. simpl. unfold contract_step, on_item, tool_live in *. simpl. rewrite Hm. events. rewrite bool_decide_false by done. simpl.
  by rewrite delete_insert_eq.
Qed.

Lemma output_map l oi item :
  oi ∉ l.*1 -> list_to_map (l ++ [(oi, item)]) = <[oi := item]> (list_to_map l : gmap Z Item).
Proof.
  intros Hn. induction l as [|[k x] l IH]; [done|]. simpl in *. apply not_elem_of_cons in Hn as [H1 H2].
  rewrite IH by done. by rewrite insert_insert_ne.
Qed.

Section acts.
Context (hex : nat -> string) (namespace_map : odict string string).

Definition idle (s : State) : Prop := reasoning s = None /\ text s = None /\ tools s = [].

(** Nothing was announced yet, or something is open. *)
Definition begun (s : State) : Prop := idle s -> next_oi s = 0.

Lemma live_idle s : idle s -> live_map s = ∅.
Proof. intros (H1 & H2 & H3). unfold live_map. by rewrite H1, H2, H3. Qed.

Lemma live_tools s : reasoning s = None -> text s = None -> live_map s = tool_map (tools s).
Proof. intros H1 H2. unfold live_map. by rewrite H1, H2. Qed.

Lemma tools_nil s : (forall i, i ∉ dict_keys (tools s)) -> tools s = [].
Proof. destruct (tools s) as [|[i t] d]; [done|]. intros H. destruct (H i). by left. Qed.

Lemma order_nil s : state_ok s -> tools s = [] -> forall i, i ∉ tool_order s.
Proof. intros Hok Ht i. rewrite (ok_order s Hok), Ht. apply not_elem_of_nil. Qed.

(** *** Closing *)

Lemma close_reasoning_triple status (F : option Open -> odict Z Tool -> Prop) :
  triple (fun s => F (text s) (tools s)) (_close_reasoning status) []
    (fun s => reasoning s = None /\ F (text s) (tools s)).
Proof.
  apply triple_look. intros s0 s s' evs Hok [-> HF] H. destruct (reasoning s0) as [[id oi buf]|] eqn:Er.
  - straight H. destruct (ok_modes _ Hok) as [[Er'|[Et Ett]] _]; [congruence|].
    assert (live_map s0 = <[oi := open_live KReasoning (MkOpen id oi buf)]> ∅) as Hl by (unfold live_map; by rewrite Er).
    pose proof (ok_indices _ Hok) as Hix. rewrite Hl in Hix.
    pose proof (indices_close _ _ _ oi (ReasoningItem id status (join buf))
      (mk_is_Some _ _ (lookup_insert_eq _ _ _)) Hix) as Hix'. rewrite delete_insert_id in Hix' by done.
    assert (oi ∉ (output s0).*1) as Hn.
    { intros E. pose proof (ix_apart _ _ _ Hix oi E) as E'. by rewrite lookup_insert_eq in E'. }
    split_and!; try done.
    + simpl map. unfold contract_of. rewrite Hl.
      etransitivity; [apply close_reasoning_events; apply lookup_empty|]. do 2 f_equal; simpl.
      * unfold live_map. simpl. by rewrite Et, Ett.
      * by rewrite output_map.
    + count.
    + split; simpl; try (by apply Hok); [by auto|].
      unfold live_map. simpl. by rewrite Et, Ett.
  - injection H as <- <-. by split_and!; [|apply counted_nil|..].
Qed.

Lemma close_text_triple status (F : option Open -> odict Z Tool -> Prop) :
  triple (fun s => F (reasoning s) (tools s)) (_close_text status) []
    (fun s => text s = None /\ F (reasoning s) (tools s)).
Proof.
  apply triple_look. intros s0 s s' evs Hok [-> HF] H. destruct (text s0) as [[id oi buf]|] eqn:Et.
  - straight H. pose proof (ok_modes _ Hok) as Hm. rewrite Et in Hm.
    destruct Hm as [[Er|[? _]] [?|Ett]]; try congruence.
    assert (live_map s0 = <[oi := open_live KMessage (MkOpen id oi buf)]> ∅) as Hl by (unfold live_map; by rewrite Er, Et).
    pose proof (ok_indices _ Hok) as Hix. rewrite Hl in Hix.
    pose proof (indices_close _ _ _ oi (MessageItem id status (join buf))
      (mk_is_Some _ _ (lookup_insert_eq _ _ _)) Hix) as Hix'. rewrite delete_insert_id in Hix' by done.
    assert (oi ∉ (output s0).*1) as Hn.
    { intros E. pose proof (ix_apart _ _ _ Hix oi E) as E'. by rewrite lookup_insert_eq in E'. }
    split_and!; try done.
    + simpl map. unfold contract_of. rewrite Hl.
      etransitivity; [apply close_text_events; apply lookup_empty|]. do 2 f_equal; simpl.
      * unfold live_map. simpl. by rewrite Er, Ett.
      * by rewrite output_map.
    + count.
    + split; simpl; try (by apply Hok); [by auto|].
      unfold live_map. simpl. by rewrite Er, Ett.
  - injection H as <- <-. by split_and!; [|apply counted_nil|..].
Qed.

Lemma in_remove_first i j l : NoDup l -> i ∈ remove_first j l <-> i ∈ l /\ i <> j.
Proof.
  induction l as [|x l IH]; simpl; intros Hd.
  - rewrite elem_of_nil. naive_solver.
  - apply NoDup_cons in Hd as [Hx Hd]. case_bool_decide as E.
    + subst x. rewrite elem_of_cons. split; [intros Hi; split; [auto|by intros ->]|].
      intros [[?|?] ?]; [congruence|done].
    + rewrite !elem_of_cons, IH by done. naive_solver.
Qed.

Lemma in_dict_del (d : odict Z Tool) i j : dict_wf d -> i ∈ dict_keys (dict_del d j) <-> i ∈ dict_keys d /\ i <> j.
Proof.
  intros Hwf. rewrite <- !dict_get_keys, dict_get_del by done. case_decide as E.
  - split; [by intros [? ?]|by intros [_ ?]].
  - split; [|by intros [? _]]. intros ?. split; [done|congruence].
Qed.

Lemma close_tool_triple i status (F : option Open -> option Open -> Prop) (l l' : list Z) :
  (forall j, j ∈ l -> j <> i -> j ∈ l') ->
  triple (fun s => F (reasoning s) (text s) /\ (forall j, j ∈ dict_keys (tools s) -> j ∈ l))
    (_close_tool i status) []
    (fun s => F (reasoning s) (text s) /\ i ∉ dict_keys (tools s) /\ (forall j, j ∈ dict_keys (tools s) -> j ∈ l')).
Proof.
  intros Hll. apply triple_look. intros s0 s s' evs Hok [-> [HF Hk]] H.
  destruct (dict_get (tools s0) i) as [t|] eqn:Et.
  - assert (t_name t <> "" /\ s' = with_seq (seq s0 + 2)
      (with_output (output s0 ++ [(t_oi t, CallItem (t_fc_id t) status (t_call_id t) (t_name t) (join (t_buf t)) (t_namespace t))])
        (with_tools (dict_del (tools s0) i) (remove_first i (tool_order s0)) s0))
      /\ evs = [MkEvent (ArgumentsDone (t_fc_id t) (t_oi t) (t_name t) (join (t_buf t))) (seq s0);
                MkEvent (ItemDone (t_oi t) (CallItem (t_fc_id t) status (t_call_id t) (t_name t) (join (t_buf t)) (t_namespace t)))
                  (seq s0 + 1)]) as (Hname & -> & ->).
    { destruct t as [fc oi call up name ns buf]. simpl. unfold and_then at 1 in H. simpl in H.
      case_bool_decide; [done|]. straight H. split_and!; [done| |done].
      unfold with_seq. simpl. f_equal. lia. }
    clear H. assert (tools s0 <> []) as Hne by (by intros E; rewrite E in Et).
    destruct (ok_modes _ Hok) as [[Er|[_ ?]] [Ex|?]]; try done.
    pose proof (live_tools s0 Er Ex) as Hl. pose proof (ok_ois _ Hok) as Hois.
    pose proof (tool_map_lookup _ _ _ Hois Et) as Hlk.
    pose proof (ok_indices _ Hok) as Hix. rewrite Hl in Hix.
    assert (t_oi t ∉ (output s0).*1) as Hn by (intros E; pose proof (ix_apart _ _ _ Hix _ E); congruence).
    assert (forall j, j ∈ dict_keys (dict_del (tools s0) i) <-> j ∈ dict_keys (tools s0) /\ j <> i) as Hdel
      by (intros j; apply in_dict_del, (ok_wf _ Hok)).
    split_and!; simpl; try done.
    + simpl map. unfold contract_of. rewrite Hl.
      etransitivity; [by apply close_tool_events|]. do 2 f_equal; simpl.
      * rewrite live_tools by done. simpl. by rewrite (tool_map_del _ _ t).
      * by rewrite output_map.
    + count.
    + split; simpl; try (by apply Hok).
      * split; [by left|by left].
      * by apply dict_wf_del, Hok.
      * eapply sublist_NoDup; [exact Hois|apply ois_del].
      * intros j. rewrite in_remove_first by apply Hok. by rewrite Hdel, (ok_order _ Hok).
      * eapply sublist_NoDup; [apply (ok_unique _ Hok)|].
        clear. induction (tool_order s0) as [|x l IH]; simpl; [done|]. case_bool_decide; [by apply sublist_cons|by apply sublist_skip].
      * rewrite live_tools by done. simpl. rewrite (tool_map_del _ _ t) by done. apply indices_close; [by eexists|done].
    + intros E%Hdel. by destruct E.
    + intros j [Hj Hji]%Hdel. auto.
  - injection H as <- <-. apply dict_get_None in Et. split_and!; try done; [by apply counted_nil|].
    intros j Hj. apply Hll; [auto|]. by intros ->.
Qed.

Lemma close_tools_triple status (F : option Open -> option Open -> Prop) l :
  triple (fun s => F (reasoning s) (text s) /\ (forall j, j ∈ dict_keys (tools s) -> j ∈ l))
    (close_tools l status) [] (fun s => F (reasoning s) (text s) /\ tools s = []).
Proof.
  induction l as [|i l IH]; simpl.
  - eapply triple_weaken; [apply (triple_skip (fun s => F (reasoning s) (text s) /\ tools s = []))| |done].
    intros s [HF Hk]. split; [done|]. apply tools_nil. intros i Hi. by apply Hk, elem_of_nil in Hi.
  - eapply triple_then; [|exact IH]. eapply triple_weaken; [apply (close_tool_triple i status F (i :: l) l)|done|].
    + intros j [->|?]%elem_of_cons ?; done.
    + by intros s (? & _ & ?).
Qed.

Lemma close_all_tools_triple status (F : option Open -> option Open -> Prop) :
  triple (fun s => F (reasoning s) (text s)) (_close_all_tools status) []
    (fun s => F (reasoning s) (text s) /\ tools s = []).
Proof.
  apply triple_look. intros s0 s s' evs Hok [-> HF]. apply (close_tools_triple status F (tool_order s0)); [done|].
  split; [done|]. intros j. by rewrite (ok_order _ Hok).
Qed.

(** *** Opening, and the deltas *)

Lemma open_reasoning_triple :
  triple (fun s => (text s = None /\ tools s = []) /\ begun s) (open_reasoning hex) []
    (fun s => exists o, reasoning s = Some o).
Proof.
  apply triple_look. intros s0 s s' evs Hok [-> [[Ht Htl] Hb]] H. destruct (reasoning s0) as [o|] eqn:Er.
  { injection H as <- <-. split_and!; try done; [by apply counted_nil|eauto]. }
  straight H. assert (idle s0) as Hi by done. specialize (Hb Hi). pose proof (live_idle _ Hi) as Hl.
  pose proof (ok_indices _ Hok) as Hix. rewrite Hl in Hix.
  split_and!; simpl; try done; try (by count).
  - unfold contract_of. rewrite Hl. simpl. rewrite Hb. events. done.
  - split; simpl; try (by apply Hok); [by auto|]. unfold live_map. simpl. by apply indices_new.
  - eauto.
Qed.

Lemma reasoning_delta_triple f :
  triple (fun s => exists o, reasoning s = Some o) (reasoning_delta f) [FReasoning f]
    (fun s => exists o, reasoning s = Some o).
Proof.
  apply triple_look. intros s0 s s' evs Hok [-> [o Er]] H. rewrite Er in H. destruct o as [id oi buf]. straight H.
  assert (live_map s0 = <[oi := open_live KReasoning (MkOpen id oi buf)]> ∅) as Hl by (unfold live_map; by rewrite Er).
  pose proof (ok_modes _ Hok) as Hm. rewrite Er in Hm.
  pose proof (ok_indices _ Hok) as Hix. rewrite Hl in Hix.
  split_and!; simpl; try done; try (by count).
  - unfold contract_of. rewrite Hl. unfold open_live. events. do 2 f_equal. unfold live_map, open_live. simpl.
    by rewrite join_snoc.
  - split; simpl; try (by apply Hok); [destruct Hm as [[?|?] ?]; [done|auto]|].
    unfold live_map. simpl. apply (indices_update _ _ _ oi (open_live KReasoning (MkOpen id oi (buf ++ [f])))) in Hix;
      [by rewrite insert_insert_eq in Hix|]. rewrite lookup_insert_eq. eauto.
  - eauto.
Qed.

Lemma handle_reasoning_triple f :
  triple begun (_handle_reasoning_delta hex f) [FReasoning f] (fun s => ~ idle s).
Proof.
  apply triple_look. intros s0. destruct (text s0) eqn:Et; [apply triple_raise|].
  destruct (tools s0) eqn:El; [|apply triple_raise].
  eapply triple_weaken with (Q := fun s => exists o, reasoning s = Some o);
    [eapply triple_then; [apply open_reasoning_triple|apply reasoning_delta_triple]| |].
  - by intros s [-> Hb].
  - intros s [o Hr] [Hn _]. congruence.
Qed.

Lemma open_message_triple :
  triple idle (_open_message hex) [] (fun s => exists o, text s = Some o).
Proof.
  apply triple_look. intros s0 s s' evs Hok [-> Hi] H. straight H. pose proof (live_idle _ Hi) as Hl.
  pose proof (ok_indices _ Hok) as Hix. rewrite Hl in Hix. destruct Hi as (Hr & Ht & Htl).
  split_and!; simpl; try done; try (by count).
  - unfold contract_of. rewrite Hl. events. do 2 f_equal. unfold live_map. simpl. by rewrite Hr.
  - split; simpl; try (by apply Hok); [by auto|]. unfold live_map. simpl. rewrite Hr. by apply indices_new.
  - eauto.
Qed.

Lemma text_delta_triple f :
  triple (fun s => exists o, text s = Some o) (text_delta f) [FText f] (fun s => exists o, text s = Some o).
Proof.
  apply triple_look. intros s0 s s' evs Hok [-> [o Et]] H. rewrite Et in H. destruct o as [id oi buf]. straight H.
  pose proof (ok_modes _ Hok) as Hm. rewrite Et in Hm. destruct Hm as [[Er|[? _]] [?|Etl]]; try done.
  assert (live_map s0 = <[oi := open_live KMessage (MkOpen id oi buf)]> ∅) as Hl by (unfold live_map; by rewrite Er, Et).
  pose proof (ok_indices _ Hok) as Hix. rewrite Hl in Hix.
  split_and!; simpl; try done; try (by count).
  - unfold contract_of. rewrite Hl. unfold open_live. events. do 2 f_equal. unfold live_map, open_live. simpl.
    by rewrite Er, join_snoc.
  - split; simpl; try (by apply Hok); [by auto|]. unfold live_map. simpl. rewrite Er.
    apply (indices_update _ _ _ oi (open_live KMessage (MkOpen id oi (buf ++ [f])))) in Hix;
      [by rewrite insert_insert_eq in Hix|]. rewrite lookup_insert_eq. eauto.
  - eauto.
Qed.

Lemma handle_text_triple f :
  triple (fun _ => True) (_handle_text_delta hex f) [FText f] (fun s => ~ idle s).
Proof.
  apply triple_look. intros s0.
  eapply triple_weaken with (Q := fun s => exists o, text s = Some o) (P := fun s => s = s0);
    [|by intros s [-> _]|by intros s [o Ho] (_ & Hn & _); congruence].
  eapply triple_then; [|apply text_delta_triple]. destruct (text s0) as [o|] eqn:Et.
  - eapply triple_pre; [apply triple_skip|]. intros s ->. eauto.
  - eapply triple_then; [|eapply triple_then; [|apply open_message_triple]].
    + eapply triple_pre; [apply (close_reasoning_triple "completed" (fun t _ => t = None))|]. by intros s ->.
    + eapply triple_weaken; [apply (close_all_tools_triple "completed" (fun r t => r = None /\ t = None))|done|].
      by intros s [[? ?] ?].
Qed.

(** *** Calls *)

Lemma in_dict_set (d : odict Z Tool) i j t : i ∈ dict_keys (dict_set d j t) <-> i ∈ dict_keys d \/ i = j.
Proof.
  rewrite dict_keys_set. case_decide; [|rewrite elem_of_app, list_elem_of_singleton; done].
  split; [auto|]. intros [?| ->]; done.
Qed.

Lemma open_tool_triple i given name :
  triple (fun s => (reasoning s = None /\ text s = None) /\ i ∉ dict_keys (tools s))
    (_open_tool hex namespace_map i given name) [] (fun s => i ∈ dict_keys (tools s)).
Proof.
  apply triple_look. intros s0 s s' evs Hok [-> [[Hr Ht] Hi]] H.
  destruct (match given with Some id => (id, minted s0) | None => (_new_call_id hex (minted s0), S (minted s0)) end)
    as [call_id n]. straight H.
  set (t := MkTool _ _ _ _ _ _ _) in *. pose proof (live_tools s0 Hr Ht) as Hl.
  pose proof (ok_indices _ Hok) as Hix. rewrite Hl in Hix. apply dict_get_None in Hi as Hg.
  assert (t_oi t ∉ tool_ois (tools s0)) as Hn.
  { intros E. simpl in E. apply list_elem_of_fmap in E as ([j x] & E & Hx). simpl in E.
    apply (dict_elem_get _ _ _ (ok_wf _ Hok)) in Hx.
    pose proof (tool_map_lookup _ _ _ (ok_ois _ Hok) Hx) as Hlk. rewrite <- E in Hlk.
    destruct (indices_fresh _ _ _ Hix). congruence. }
  split_and!; simpl; try done; try (by count).
  - unfold contract_of. rewrite Hl. simpl. unfold contract_step. simpl.
    rewrite !bool_decide_true by (done || apply tool_map_calls). simpl. do 2 f_equal.
    rewrite live_tools by done. simpl. by rewrite tool_map_new.
  - split; simpl; try (by apply Hok).
    + split; [by left|by left].
    + by apply dict_wf_set, Hok.
    + rewrite ois_new by done. apply NoDup_app. split_and!; [by apply Hok| |apply NoDup_singleton].
      intros y Hy E%list_elem_of_singleton. by subst y.
    + intros j. rewrite elem_of_app, list_elem_of_singleton, in_dict_set. by rewrite (ok_order _ Hok).
    + apply NoDup_app. split_and!; [by apply Hok| |apply NoDup_singleton].
      intros y Hy E%list_elem_of_singleton. subst y. by apply Hi, (ok_order _ Hok).
    + rewrite live_tools by done. simpl. rewrite tool_map_new by done. by apply indices_new.
  - apply in_dict_set. auto.
Qed.

(** A call that is changed in place, its index kept. *)
Lemma set_tool_ok s i t t' :
  state_ok s -> dict_get (tools s) i = Some t -> t_oi t' = t_oi t ->
  let s' := with_tools (dict_set (tools s) i t') (tool_order s) s in
  live_map s' = <[t_oi t := tool_live t']> (live_map s) /\ state_ok s'.
Proof.
  intros Hok Hg E s'. assert (tools s <> []) as Hne by (by intros E'; rewrite E' in Hg).
  destruct (ok_modes _ Hok) as [[Hr|[_ ?]] [Ht|?]]; try done.
  assert (live_map s' = <[t_oi t := tool_live t']> (live_map s)) as Hl.
  { rewrite !live_tools by done. simpl. by rewrite (tool_map_set _ _ t) by (done || apply Hok). }
  split; [done|]. assert (i ∈ dict_keys (tools s)) as Hi by (apply dict_get_keys; eauto).
  split; simpl; try (by apply Hok).
  - split; [by left|by left].
  - by apply dict_wf_set, Hok.
  - rewrite (ois_set _ _ t) by done. by apply Hok.
  - intros j. rewrite in_dict_set, (ok_order _ Hok). split; [auto|]. intros [?| ->]; done.
  - fold s'. rewrite Hl. apply indices_update; [|apply Hok]. rewrite live_tools by done.
    rewrite (tool_map_lookup _ i) by (done || apply Hok). eauto.
Qed.

Lemma fill_tool_same given name t :
  tool_live (fill_tool namespace_map given name t) = tool_live t /\ t_oi (fill_tool namespace_map given name t) = t_oi t.
Proof. unfold fill_tool. destruct given, (t_upstream_id t), name; simpl; try case_bool_decide; done. Qed.

Lemma arguments_delta_triple i f :
  triple (fun s => i ∈ dict_keys (tools s)) (arguments_delta i f) [FArguments f] (fun s => i ∈ dict_keys (tools s)).
Proof.
  apply triple_look. intros s0 s s' evs Hok [-> Hi] H. apply dict_get_keys in Hi as [t Hg]. rewrite Hg in H.
  unfold set_tool in H. straight H.
  destruct (set_tool_ok s0 i t (add_arguments f t) Hok Hg eq_refl) as [Hl Hok'].
  assert (live_map s0 !! t_oi t = Some (tool_live t)) as Hlk.
  { assert (tools s0 <> []) as Hne by (by intros E'; rewrite E' in Hg).
    destruct (ok_modes _ Hok) as [[Hr|[_ ?]] [Ht|?]]; try done. rewrite live_tools by done.
    apply (tool_map_lookup _ i); [apply Hok|done]. }
  split_and!; simpl; try done; try (by count).
  - unfold contract_of. unfold contract_step, on_item. simpl. rewrite Hlk. events. do 2 f_equal.
    change (live_map (with_seq ?n ?x)) with (live_map x). rewrite Hl. f_equal.
    unfold tool_live. simpl. by rewrite join_snoc.
  - destruct Hok'. by split.
  - apply in_dict_set. auto.
Qed.

Lemma place_fragment_triple i given name :
  triple (fun _ => True) (place_fragment hex namespace_map i given name) [] (fun s => i ∈ dict_keys (tools s)).
Proof.
  apply triple_look. intros s0. destruct (dict_get (tools s0) i) as [t|] eqn:Hg.
  - cbv zeta. rewrite (bool_decide_false (Some t = None)), orb_false_r by done.
    destruct (is_new (Some t) given) eqn:En.
    + eapply triple_then; [|eapply triple_then; [|eapply triple_then; [|apply open_tool_triple]]].
      * eapply triple_weaken; [apply (close_tool_triple i "completed" (fun _ _ => True) (dict_keys (tools s0)) (dict_keys (tools s0)))|..];
          [done|by intros s [-> _]|].
        intros s (_ & Hi & _). change ((fun s => i ∉ dict_keys (tools s)) s) in Hi. exact Hi.
      * apply (close_reasoning_triple "completed" (fun _ d => i ∉ dict_keys d)).
      * eapply triple_weaken; [apply (close_text_triple "completed" (fun r d => r = None /\ i ∉ dict_keys d))|done|].
        intros s (? & ? & ?). done.
    + intros s s' evs Hok [-> _] H. unfold set_tool in H. injection H as <- <-.
      destruct (fill_tool_same given name t) as [E1 E2].
      destruct (set_tool_ok s0 i t _ Hok Hg E2) as [Hl Hok']. rewrite E1 in Hl.
      split_and!; try done; [|by apply counted_nil|apply in_dict_set; auto].
      simpl. unfold contract_of. rewrite Hl. do 2 f_equal.
      assert (tools s0 <> []) as Hne by (by intros E'; rewrite E' in Hg).
      destruct (ok_modes _ Hok) as [[Hr|[_ ?]] [Ht|?]]; try done. rewrite live_tools by done. simpl.
      symmetry. apply insert_id. apply (tool_map_lookup _ i); [apply Hok|done].
  - cbv zeta. rewrite (bool_decide_true (None = None)), orb_true_r by done. simpl.
    eapply triple_then; [|eapply triple_then; [|eapply triple_then; [|apply open_tool_triple]]].
    + eapply (triple_pre (fun s => i ∉ dict_keys (tools s))); [apply triple_skip|]. intros s [-> _]. apply dict_get_None in Hg. exact Hg.
    + apply (close_reasoning_triple "completed" (fun _ d => i ∉ dict_keys d)).
    + eapply triple_weaken; [apply (close_text_triple "completed" (fun r d => r = None /\ i ∉ dict_keys d))|done|].
      intros s (? & ? & ?). done.
Qed.

(** The arguments that an entry of [tool_calls] brings. *)
Definition tool_arguments (tc : Json) : list Fragment :=
  match jget_null (jget_null tc "function") "arguments" with
  | JStr f => if bool_decide (f = "") then [] else [FArguments f]
  | _ => []
  end.

Lemma tool_fragment_triple tc :
  triple (fun _ => True) (tool_fragment hex namespace_map tc) (tool_arguments tc) (fun s => ~ idle s).
Proof.
  intros s s' evs Hok _ H. unfold tool_fragment in H. destruct (negb (is_dict tc)); [done|].
  destruct (tool_index tc) as [i|]; [|done]. simpl in H. destruct (foreign_type tc); [done|].
  destruct (tool_function tc) as [fn|] eqn:Ef; [|done]. simpl in H.
  destruct (fragment_name fn) as [name|]; [|done]. simpl in H.
  destruct (upstream_id tc) as [given|]; [|done]. simpl in H.
  assert (tool_arguments tc = match jget_null fn "arguments" with
    | JStr f => if bool_decide (f = "") then [] else [FArguments f] | _ => [] end) as ->.
  { unfold tool_arguments, tool_function in *. by destruct (jget_null tc "function"); simplify_eq/=. }
  set (fs := match jget_null fn "arguments" with JStr f => _ | _ => _ end).
  assert (triple (fun _ => True)
    (place_fragment hex namespace_map i given name
     &; match jget_null fn "arguments" with
        | JNull => skip
        | JStr fragment => if bool_decide (fragment = "") then skip else arguments_delta i fragment
        | _ => raise BridgeCapabilityError
        end) fs (fun s => ~ idle s)) as Ht.
  { eapply triple_then; [apply place_fragment_triple|].
    apply (triple_weaken (fun s => i ∈ dict_keys (tools s)) _ _ _ (fun s => i ∈ dict_keys (tools s))); [|done|].
    - subst fs. destruct (jget_null fn "arguments") as [| | | |f| |]; try apply triple_raise; [apply triple_skip|].
      case_bool_decide; [apply triple_skip|apply arguments_delta_triple].
    - intros x Hi (_ & _ & E). rewrite E in Hi. by apply elem_of_nil in Hi. }
  by apply Ht.
Qed.

Lemma tool_fragments_triple tcs :
  triple begun (tool_fragments hex namespace_map tcs) (concat (map tool_arguments tcs)) begun.
Proof.
  induction tcs as [|tc tcs IH]; simpl; [apply triple_skip|].
  eapply triple_seq; [|exact IH]. eapply triple_weaken; [apply tool_fragment_triple|done|].
  by intros s Hn Hi.
Qed.
End acts.

(** ** A whole stream *)

Section stream.
Context (hex : nat -> string) (repr : Json -> string).
Context (response_id model : string) (created_at : Z) (metadata : list (string * Json)).
Context (emit_reasoning length_as_completed : bool) (namespace_map : odict string string).
Notation feed := (feed hex emit_reasoning namespace_map).
Notation finalize := (finalize response_id model created_at metadata length_as_completed).
Notation failed_event := (failed_event repr response_id model created_at metadata).
Notation incomplete_stream_failed := (incomplete_stream_failed response_id model created_at metadata).
Notation chunks_loop := (chunks_loop hex repr response_id model created_at metadata emit_reasoning length_as_completed namespace_map).
Notation chat_stream_to_responses_events :=
  (chat_stream_to_responses_events hex repr response_id model created_at metadata emit_reasoning length_as_completed namespace_map).

(** *** What a chunk brings *)

Definition text_fragments (kind : string -> Fragment) (delta : Json) (key : string) : list Fragment :=
  match jget_null delta key with
  | JStr f => if bool_decide (f = "") then [] else [kind f]
  | _ => []
  end.

Definition delta_fragments (delta : Json) : list Fragment :=
  (if emit_reasoning then text_fragments FReasoning delta "reasoning_content" else [])
  ++ text_fragments FText delta "content"
  ++ match jget_null delta "tool_calls" with JArr tcs => concat (map tool_arguments tcs) | _ => [] end.

(** The one choice of a chunk, null when there is none. *)
Definition the_choice (chunk : Json) : Json :=
  match jget_null chunk "choices" with JArr [choice] => choice | _ => JNull end.

Definition chunk_fragments (chunk : Json) : list Fragment := delta_fragments (jget_null (the_choice chunk) "delta").

(** The terminal evidence in a chunk. *)
Definition chunk_finish (chunk : Json) : option string :=
  match recognized (jget_null (the_choice chunk) "finish_reason") with Ok r => r | Err _ => None end.

Lemma on_text_triple kind delta key handle P :
  (forall f, triple P (handle f) [kind f] P) ->
  triple P (on_text delta key handle) (text_fragments kind delta key) P.
Proof.
  intros Hh s s' evs Hok HP H. unfold on_text, text_field, text_fragments in *.
  destruct (jget_null delta key) as [| | | |f| |]; simpl in H; try done; [by apply (triple_skip P)|].
  case_bool_decide; simpl in H; [by apply (triple_skip P)|by apply (Hh f)].
Qed.

Lemma not_idle_begun s : ~ idle s -> begun s.
Proof. by intros Hn Hi. Qed.

Lemma on_delta_triple delta :
  triple begun (on_delta hex emit_reasoning namespace_map delta) (delta_fragments delta) begun.
Proof.
  unfold on_delta, delta_fragments. eapply triple_seq; [|eapply triple_then; [|eapply triple_seq]].
  - destruct emit_reasoning; [|apply triple_skip]. apply on_text_triple. intros f.
    eapply triple_weaken; [apply handle_reasoning_triple|done|apply not_idle_begun].
  - destruct (jget_null delta "refusal"); first [apply triple_skip|apply triple_raise].
  - apply on_text_triple. intros f.
    eapply triple_weaken; [apply handle_text_triple|done|apply not_idle_begun].
  - destruct (jget_null delta "tool_calls"); try apply triple_raise; [apply triple_skip|apply tool_fragments_triple].
Qed.

(** [s'] is [s] but for what [feed] notes of the chunk. *)
Lemma noted_ok s s' :
  seq s' = seq s -> next_oi s' = next_oi s -> output s' = output s -> reasoning s' = reasoning s ->
  text s' = text s -> tools s' = tools s -> tool_order s' = tool_order s ->
  state_ok s -> begun s -> state_ok s' /\ begun s' /\ contract_of s' = contract_of s.
Proof.
  intros E1 E2 E3 E4 E5 E6 E7 [H1 H2 H3 H4 H5 H6] Hb.
  assert (live_map s' = live_map s) as El by (unfold live_map; by rewrite E4, E5, E6).
  split_and!.
  - split; rewrite ?E2, ?E3, ?E4, ?E5, ?E6, ?E7, ?El; done.
  - unfold begun, idle. rewrite E2, E4, E5, E6. exact Hb.
  - unfold contract_of. by rewrite E2, E3, El.
Qed.

(** What a chunk that is taken says about the end. *)
Definition noted (chunk : Json) (s s' : State) : Prop :=
  match chunk_finish chunk with
  | Some f => terminal_seen s = false /\ terminal_seen s' = true /\ finish s' = Some f
  | None => terminal_seen s' = terminal_seen s /\ finish s' = finish s
  end.

Lemma on_choice_ok choice s s' evs :
  state_ok s -> begun s -> terminal_seen s = false -> on_choice hex emit_reasoning namespace_map choice s = Ok (s', evs) ->
  accepts (contract_of s) (map payload evs) = Some (contract_of s')
  /\ counted s evs s' /\ fragments evs = delta_fragments (jget_null choice "delta")
  /\ state_ok s' /\ begun s'
  /\ match recognized (jget_null choice "finish_reason") with
     | Ok (Some f) => terminal_seen s' = true /\ finish s' = Some f
     | _ => terminal_seen s' = terminal_seen s /\ finish s' = finish s
     end.
Proof.
  intros Hok Hb Ht H. unfold on_choice in H. destruct (negb (is_dict choice)); [done|].
  assert (exists s1, (match recognized (jget_null choice "finish_reason") with
       | Ok (Some f) => terminal_seen s1 = true /\ finish s1 = Some f
       | _ => terminal_seen s1 = terminal_seen s /\ finish s1 = finish s end)
    /\ seq s1 = seq s /\ (state_ok s1 /\ begun s1 /\ contract_of s1 = contract_of s)
    /\ match jget_null choice "delta" with
       | JNull => Ok (s1, []) | JObj d => on_delta hex emit_reasoning namespace_map (JObj d) s1
       | _ => Err BridgeCapabilityError end = Ok (s', evs)) as (s1 & Hf & Eq & (Hok1 & Hb1 & Ec) & H1).
  { destruct (jget_null choice "finish_reason") as [| | | |f| |]; simpl in H; try done.
    - exists s. by split_and!.
    - simpl. case_bool_decide; simpl in H; [|done]. exists (with_finish f s).
      by destruct (noted_ok s (with_finish f s)) as (? & ? & ?). }
  clear H. rewrite <- Ec. destruct (jget_null choice "delta") as [| | | | | |d] eqn:Ed; try done.
  - injection H1 as <- <-. split_and!; try done; [by apply counted_nil|].
    unfold delta_fragments, text_fragments. simpl. by destruct emit_reasoning.
  - destruct (on_delta_triple (JObj d) s1 s' evs Hok1 Hb1 H1) as (? & [? ?] & ? & (K1 & K2 & _) & ? & ?).
    split_and!; try done; [by split; rewrite <- Eq|].
    rewrite K1, K2. done.
Qed.

Lemma feed_ok chunk s s' evs :
  state_ok s -> begun s -> feed chunk s = Ok (s', evs) ->
  accepts (contract_of s) (map payload evs) = Some (contract_of s')
  /\ counted s evs s' /\ fragments evs = chunk_fragments chunk
  /\ state_ok s' /\ begun s' /\ noted chunk s s'.
Proof.
  intros Hok Hb H. unfold CodexStream.feed in H. destruct (negb (is_dict chunk)); [done|].
  assert (exists s1, terminal_seen s1 = terminal_seen s /\ finish s1 = finish s /\ seq s1 = seq s
    /\ (state_ok s1 /\ begun s1 /\ contract_of s1 = contract_of s)
    /\ match jget_null chunk "choices" with
       | JNull | JArr [] => Ok (s1, [])
       | JArr choices =>
           if terminal_seen s1 then Err BridgeCapabilityError
           else match choices with
                | [choice] => on_choice hex emit_reasoning namespace_map choice s1
                | _ => Err BridgeCapabilityError end
       | _ => Err BridgeCapabilityError end = Ok (s', evs)) as (s1 & E1 & E2 & Eq & (Hok1 & Hb1 & Ec) & H1).
  { destruct (match jget_null chunk "usage" with JNull => Ok s | u => _ end) as [s1|] eqn:Eu; [|done].
    assert (s1 = s \/ exists u, s1 = with_usage u s) as Hs1.
    { clear H. destruct (jget_null chunk "usage"); [by injection Eu as <-; left|..]; right;
        (match type of Eu with context [_usage_to_responses ?x] => destruct (_usage_to_responses x) end; [|done]);
        injection Eu as <-; eauto. }
    exists s1. destruct Hs1 as [-> |[u ->]]; [done|].
    by destruct (noted_ok s (with_usage u s)) as (? & ? & ?). }
  clear H. rewrite <- Ec. unfold chunk_fragments, noted, chunk_finish, the_choice.
  destruct (jget_null chunk "choices") as [| | | | |[|choice [|]]|]; try done.
  - injection H1 as <- <-. split_and!; try done; [by apply counted_nil|].
    unfold delta_fragments, text_fragments. simpl. by destruct emit_reasoning.
  - injection H1 as <- <-. split_and!; try done; [by apply counted_nil|].
    unfold delta_fragments, text_fragments. simpl. by destruct emit_reasoning.
  - destruct (terminal_seen s1) eqn:Et; [done|].
    destruct (on_choice_ok choice s1 s' evs Hok1 Hb1 Et H1) as (? & [? ?] & ? & ? & ? & Hf).
    split_and!; try done; [by split; rewrite <- Eq|].
    destruct (recognized _) as [[f|]|]; [by rewrite <- E1|destruct Hf; split; congruence..].
  - by destruct (terminal_seen s1).
Qed.

(** *** The end of a stream *)

(** The chunks before the first that reports an error, and that error. *)
Fixpoint taken (chunks : list Json) : list Json :=
  match chunks with
  | [] => []
  | chunk :: chunks => match jget_null chunk "error" with JNull => chunk :: taken chunks | _ => [] end
  end.
Fixpoint first_error (chunks : list Json) : option Json :=
  match chunks with
  | [] => None
  | chunk :: chunks => match jget_null chunk "error" with JNull => first_error chunks | err => Some err end
  end.

(** The terminal event after an upstream error, or after the reasons [fs] to finish. *)
Definition ending (error : option Json) (fs : list string) (p : Payload) : Prop :=
  match error with
  | Some err => exists r, p = Failed r /\ r_error r = Some (_upstream_error_to_responses repr err)
  | None =>
      match fs with
      | [] => exists r message, p = Failed r /\ r_error r = Some ("incomplete_upstream_stream", message)
      | [f] =>
          exists r, (r_status r, r_incomplete r) = _finish_to_status f length_as_completed /\ r_error r = None
            /\ p = if bool_decide (r_status r = "incomplete") then Incomplete r else Completed r
      | _ => False
      end
  end.

Lemma failed_step s r :
  state_ok s -> r_status r = "failed" -> r_output r = _sorted_output s ->
  contract_step (contract_of s) (Failed r) = Some (over (contract_of s)).
Proof.
  intros Hok H1 H2. unfold contract_step. simpl. rewrite !bool_decide_true; [done|by rewrite H2, sorted_items|done].
Qed.

Lemma finish_status f :
  (exists i, _finish_to_status f length_as_completed = ("incomplete", i))
  \/ _finish_to_status f length_as_completed = ("completed", None).
Proof. unfold _finish_to_status. repeat case_bool_decide; [destruct length_as_completed|..]; eauto. Qed.

Lemma finalize_ok s s' evs f :
  state_ok s -> finish s = Some f -> finalize s = Ok (s', evs) ->
  exists c, accepts (contract_of s) (map payload evs) = Some c /\ c_phase c = POver
    /\ counted s evs s' /\ fragments evs = []
    /\ exists p, last (map payload evs) = Some p /\ ending None [f] p.
Proof.
  intros Hok Hf H. unfold CodexStream.finalize, look in H. rewrite Hf in H. simpl in H.
  destruct (_finish_to_status f length_as_completed) as [status inc] eqn:Es.
  set (close := _close_reasoning "completed" &; _close_text (item_status_of status)
    &; _close_all_tools (item_status_of status)).
  assert (triple (fun _ => True) close [] idle) as Ht.
  { eapply triple_then; [apply (close_reasoning_triple "completed" (fun _ _ => True))|].
    eapply triple_then; [eapply triple_pre; [apply (close_text_triple _ (fun r _ => r = None))|by intros x [? _]]|].
    eapply triple_weaken; [apply (close_all_tools_triple _ (fun r t => r = None /\ t = None))| |].
    - by intros x (? & ?).
    - by intros x ([? ?] & ?). }
  assert (exists s1 xs p, close s = Ok (s1, xs) /\ evs = xs ++ [MkEvent p (seq s1)] /\ s' = with_seq (seq s1 + 1) s1
    /\ p = (let obj := _lean_object response_id model created_at metadata status (_sorted_output s1) (usage s1) inc None in
            if bool_decide (status = "incomplete") then Incomplete obj else Completed obj))
    as (s1 & xs & p & Hc & -> & -> & Hp).
  { subst close. unfold and_then in *. destruct (_close_reasoning "completed" s) as [[s2 x2]|]; [|done].
    simpl in *. destruct (_close_text (item_status_of status) s2) as [[s3 x3]|]; [|done].
    simpl in *. destruct (_close_all_tools (item_status_of status) s3) as [[s4 x4]|]; [|done].
    simpl in *. injection H as <- <-. eexists s4, _, _. split_and!; [done| |done|done].
    by rewrite <- !app_assoc. }
  clear H. destruct (Ht s s1 xs Hok I Hc) as (A1 & A2 & A3 & _ & Hok1 & Hi).
  assert (contract_step (contract_of s1) p = Some (over (contract_of s1))) as Hstep.
  { pose proof (live_idle _ Hi) as Hl. pose proof (all_done s1 Hok1 Hl) as Hall.
    rewrite Hp. destruct (finish_status f) as [[i E]|E]; rewrite Es in E; injection E as -> _;
      unfold contract_step; simpl; rewrite sorted_items by done;
      rewrite !bool_decide_true by done; done. }
  exists (over (contract_of s1)). split_and!.
  - rewrite map_app, accepts_app, A1. simpl. by rewrite Hstep.
  - done.
  - eapply counted_app; [exact A2|]. split; [done|simpl; lia].
  - rewrite fragments_app, A3. rewrite Hp. by case_bool_decide.
  - exists p. rewrite map_app. split; [apply last_snoc|]. rewrite Hp. simpl. rewrite Es.
    by exists (_lean_object response_id model created_at metadata status (_sorted_output s1) (usage s1) inc None).
Qed.

(** The whole run, from a state between two chunks. *)
Record runs (chunks : list Json) (s : State) (evs : list Event) (e : option Exn) : Prop := {
  rn_contract : exists c, accepts (contract_of s) (map payload evs) = Some c /\ (e = None <-> c_phase c = POver);
  rn_numbered : numbered (seq s) evs;
  rn_content : exists done rest, taken chunks = done ++ rest
    /\ fragments evs = concat (map chunk_fragments done) /\ (e = None -> rest = []);
  rn_ending : e = None -> exists p, last (map payload evs) = Some p
    /\ ending (first_error chunks)
         ((if terminal_seen s then option_list (finish s) else []) ++ omap chunk_finish (taken chunks)) p;
}.

Definition ready (s : State) : Prop :=
  state_ok s /\ begun s /\ (terminal_seen s = true -> is_Some (finish s)).

Lemma stopped chunks s e : runs chunks s [] (Some e).
Proof.
  split; [by exists (contract_of s)|done| |done]. exists [], (taken chunks). done.
Qed.

Lemma runs_feed chunk chunks s s' xs evs e :
  ready s -> jget_null chunk "error" = JNull -> feed chunk s = Ok (s', xs) ->
  (ready s' -> runs chunks s' evs e) -> runs (chunk :: chunks) s (xs ++ evs) e.
Proof.
  intros (Hok & Hb & Ht) He Hf Hr.
  destruct (feed_ok chunk s s' xs Hok Hb Hf) as (A1 & [A2 A2'] & A3 & Hok' & Hb' & Hn).
  assert (ready s') as Hs'.
  { split_and!; try done. intros Ht'. unfold noted in Hn. destruct (chunk_finish chunk) as [f|].
    - destruct Hn as (_ & _ & ->). eauto.
    - destruct Hn as [E ->]. rewrite E in Ht'. auto. }
  destruct (Hr Hs') as [(c & C1 & C2) H2 (dn & rest & D1 & D2 & D3) H4]. split.
  - exists c. by rewrite map_app, accepts_app, A1.
  - apply numbered_app; [done|by rewrite <- A2'].
  - exists (chunk :: dn), rest. simpl. rewrite He, D1, fragments_app, A3, D2. done.
  - intros E. destruct (H4 E) as (p & P1 & P2). exists p. split; [by rewrite map_app, last_app, P1|].
    simpl. rewrite He. simpl. unfold noted in Hn. destruct (chunk_finish chunk) as [f|].
    + destruct Hn as (E1 & E2 & E3). rewrite E1. rewrite E2, E3 in P2. exact P2.
    + destruct Hn as [E1 E2]. by rewrite <- E1, <- E2.
Qed.

Lemma failed_ok s s' evs error :
  state_ok s ->
  emit (Failed (_lean_object response_id model created_at metadata "failed" (_sorted_output s) (usage s) None error)) s
    = Ok (s', evs) ->
  accepts (contract_of s) (map payload evs) = Some (over (contract_of s)) /\ numbered (seq s) evs
  /\ fragments evs = [] /\ exists r, last (map payload evs) = Some (Failed r) /\ r_error r = error.
Proof.
  intros Hok H. injection H as <- <-. cbn [map accepts payload]. rewrite failed_step by done. split_and!; try done.
  by eexists.
Qed.

Lemma loop_runs chunks : forall s evs e,
  ready s -> chunks_loop chunks s = (evs, e) -> runs chunks s evs e.
Proof.
  induction chunks as [|chunk chunks IH]; intros s evs e Hs H.
  - cbn [CodexStream.chunks_loop] in H. destruct Hs as (Hok & Hb & Ht). destruct (terminal_seen s) eqn:Et.
    + destruct (Ht eq_refl) as [f Hf]. destruct (finalize s) as [[s' xs]|] eqn:Ef.
      * injection H as <- <-. rewrite app_nil_r.
        destruct (finalize_ok s s' xs f Hok Hf Ef) as (c & H1 & H2 & [H3 _] & H4 & H5). split; [by exists c|done| |].
        -- by exists [], [].
        -- intros _. by rewrite Et, Hf.
      * injection H as <- <-. apply stopped.
    + destruct (incomplete_stream_failed s) as [[s' xs]|] eqn:Ef; [|by injection H as <- <-; apply stopped].
      injection H as <- <-. rewrite app_nil_r.
      destruct (failed_ok s s' xs _ Hok Ef) as (H1 & H2 & H3 & r & H4 & H5). split; [by eexists|done| |].
      * by exists [], [].
      * intros _. rewrite Et. exists (Failed r). split; [done|]. simpl. eauto.
  - cbn [CodexStream.chunks_loop] in H. destruct (negb (is_dict chunk)); [injection H as <- <-; apply stopped|].
    destruct (jget_null chunk "error") eqn:Ee;
      try (match type of H with context [CodexStream.failed_event _ _ _ _ _ ?err] =>
             destruct (failed_event err s) as [[s' xs]|] eqn:Ef;
               [|by injection H as <- <-; apply stopped] end;
           injection H as <- <-; rewrite app_nil_r;
           destruct (failed_ok s s' xs _ (proj1 Hs) Ef) as (H1 & H2 & H3 & r & H4 & H5);
           split; [by eexists|done|exists [], []; simpl; rewrite Ee; done
                  |intros _; exists (Failed r); split; [done|]; simpl; rewrite Ee; by exists r]).
    destruct (feed chunk s) as [[s' xs]|] eqn:Ef; [|injection H as <- <-; apply stopped].
    destruct (chunks_loop chunks s') as [rest e'] eqn:El. injection H as <- <-.
    eapply runs_feed; [done|done|exact Ef|]. intros Hs'. by apply IH.
Qed.

Lemma ready_init : ready (with_seq 2 init).
Proof.
  split_and!; [|by intros _|done]. split; simpl; try done; try apply NoDup_nil_2; [auto|].
  split; simpl; [lia|apply NoDup_nil_2| |intros oi Hoi; by apply elem_of_nil in Hoi].
  intros oi. split; [lia|]. unfold live_map. simpl. rewrite elem_of_nil. intros [[? E]|[]]. 
  unfold tool_map in E. simpl in E. by rewrite lookup_empty in E.
Qed.

Lemma stream_runs chunks evs e :
  chat_stream_to_responses_events chunks = (evs, e) ->
  exists r xs, evs = [MkEvent (Created r) 0; MkEvent (InProgress r) 1] ++ xs /\ r_output r = []
  /\ runs chunks (with_seq 2 init) xs e.
Proof.
  intros H. unfold CodexStream.chat_stream_to_responses_events in H. simpl in H.
  change (with_seq (0 + 1 + 1) (with_seq (0 + 1) init)) with (with_seq 2 init) in H.
  destruct (chunks_loop chunks (with_seq 2 init)) as [xs e'] eqn:El. injection H as <- <-.
  eexists _, xs. split; [reflexivity|]. split; [done|]. apply loop_runs; [apply ready_init|done].
Qed.

(** ** Properties *)

(** C21. The events of a stream keep the contract of a Responses stream, whatever the chunks
    are and also when the translation raises: they are numbered from 0; [created] and
    [in_progress] come first; items are announced at the indices 0, 1, 2, ...; an item
    that is announced is streamed and closed under its own id, in the order of its kind,
    and its closing events carry exactly what was streamed; a reasoning item comes first
    and alone, a message alone, calls side by side; nothing follows the terminal event,
    which is there exactly when nothing was raised, and which lists every item finished
    in the order of the indices, after a completed or an incomplete one every item. *)
Theorem stream_keeps_contract chunks :
  let (evs, e) := chat_stream_to_responses_events chunks in
  numbered 0 evs
  /\ exists c, accepts start (map payload evs) = Some c /\ (e = None <-> c_phase c = POver).
Proof.
  destruct (chat_stream_to_responses_events chunks) as [evs e] eqn:H.
  destruct (stream_runs chunks evs e H) as (r & xs & -> & Hr & [(c & C1 & C2) Hn _ _]). split.
  - by apply numbered_app.
  - exists c. split; [|done]. rewrite map_app, accepts_app. simpl. unfold contract_step at 1. simpl.
    rewrite Hr. simpl. unfold contract_step. simpl. rewrite Hr. exact C1.
Qed.

(** A stream loses nothing and adds nothing: the fragments of the deltas it yields are
    those of the chunks it took, in order, which are all the chunks up to an upstream
    error unless it raised; it never goes on past what it refuses. *)
Theorem stream_keeps_content chunks :
  let (evs, e) := chat_stream_to_responses_events chunks in
  exists done rest, taken chunks = done ++ rest
  /\ fragments evs = concat (map chunk_fragments done) /\ (e = None -> rest = []).
Proof.
  destruct (chat_stream_to_responses_events chunks) as [evs e] eqn:H.
  destruct (stream_runs chunks evs e H) as (r & xs & -> & Hr & [_ _ (dn & rest & H1 & H2 & H3) _]).
  exists dn, rest. by rewrite fragments_app, H2.
Qed.

(** A stream completes only on evidence: after an upstream error it fails with that
    error; after a recognized reason to finish, the only one, it is completed or
    incomplete as that reason says; after neither it fails as truncated. *)
Theorem stream_ends_on_evidence chunks evs :
  chat_stream_to_responses_events chunks = (evs, None) ->
  exists p, last (map payload evs) = Some p
  /\ ending (first_error chunks) (omap chunk_finish (taken chunks)) p.
Proof.
  intros H. destruct (stream_runs chunks evs None H) as (r & xs & -> & Hr & [_ _ _ He]).
  destruct (He eq_refl) as (p & H1 & H2). exists p. split; [|exact H2].
  by rewrite map_app, last_app, H1.
Qed.

(** *** What is raised *)

(** Raises [BridgeCapabilityError] or nothing. *)
Definition refuses (a : Act) : Prop := forall s e, a s = Err e -> e = BridgeCapabilityError.

Lemma refuses_ok f : refuses (fun s => Ok (f s)).
Proof. by intros s e. Qed.

Lemma refuses_seq a b : refuses a -> refuses b -> refuses (a &; b).
Proof.
  intros Ha Hb s e H. unfold and_then in H. destruct (a s) as [[s1 xs]|e1] eqn:Ea; simpl in H.
  - destruct (b s1) as [[s2 ys]|e2] eqn:Eb; simpl in H; [done|]. injection H as <-. by eapply Hb.
  - injection H as <-. by eapply Ha.
Qed.

Lemma refuses_look k : (forall s, refuses (k s)) -> refuses (look k).
Proof. intros H s e He. by eapply H. Qed.

Lemma refuses_raise : refuses (raise BridgeCapabilityError).
Proof. by intros s e [= <-]. Qed.

(** A check before the act. *)
Lemma refuses_check {A} (m : result Exn A) (k : A -> Act) :
  (forall e, m = Err e -> e = BridgeCapabilityError) -> (forall x, refuses (k x)) ->
  refuses (fun s => let! x := m in k x s).
Proof. intros Hm Hk s e H. destruct m as [x|e1]; simpl in H; [by eapply Hk|injection H as <-; by apply Hm]. Qed.

Create HintDb refuses.
#[local] Hint Resolve refuses_seq refuses_look refuses_raise : refuses.
#[local] Hint Extern 1 (refuses skip) => exact (refuses_ok _) : refuses.
#[local] Hint Extern 1 (refuses (update _)) => exact (refuses_ok _) : refuses.
#[local] Hint Extern 1 (refuses (push _ _)) => exact (refuses_ok _) : refuses.
#[local] Hint Extern 1 (refuses (emit _)) => exact (refuses_ok _) : refuses.
#[local] Hint Extern 1 (refuses (set_tool _ _)) => exact (refuses_ok _) : refuses.

Ltac refuse :=
  repeat match goal with
  | |- refuses (_ &; _) => apply refuses_seq
  | |- refuses (look _) => apply refuses_look; intros ?
  | |- refuses (match ?x with _ => _ end) => destruct x
  | |- refuses (if ?x then _ else _) => destruct x
  | |- refuses (let _ := _ in _) => cbv zeta
  | |- refuses _ => solve [auto with refuses]
  end.

Lemma close_tools_refuses l status : refuses (close_tools l status).
Proof. induction l as [|i l IH]; simpl; [auto with refuses|]. unfold _close_tool. refuse. Qed.

Lemma closing_refuses status : refuses (_close_reasoning status) /\ refuses (_close_text status)
  /\ refuses (_close_all_tools status).
Proof.
  split_and!; [unfold _close_reasoning; refuse|unfold _close_text; refuse|].
  apply refuses_look. intros s. apply close_tools_refuses.
Qed.

Lemma reasoning_refuses f : refuses (_handle_reasoning_delta hex f).
Proof. unfold _handle_reasoning_delta, open_reasoning, reasoning_delta. refuse. Qed.

Lemma text_refuses f : refuses (_handle_text_delta hex f).
Proof.
  unfold _handle_text_delta, _open_message, text_delta. destruct (closing_refuses "completed") as (? & ? & ?). refuse.
Qed.

Lemma tool_fragment_refuses tc : refuses (tool_fragment hex namespace_map tc).
Proof.
  intros s e. unfold tool_fragment. destruct (negb (is_dict tc)); [by intros [= <-]|].
  revert s e. apply (refuses_check (tool_index tc)); [unfold tool_index; intros e; by repeat case_match; intros [= <-]|].
  intros i s e. destruct (foreign_type tc); [by intros [= <-]|].
  revert s e. apply refuses_check; [unfold tool_function; intros e; by repeat case_match; intros [= <-]|].
  intros fn. apply refuses_check; [unfold fragment_name; intros e; by repeat case_match; intros [= <-]|].
  intros name. apply refuses_check; [unfold upstream_id; intros e; by repeat case_match; intros [= <-]|].
  intros given. destruct (closing_refuses "completed") as (? & ? & ?).
  assert (forall i, refuses (_close_tool i "completed")) as Hc by (intros j; unfold _close_tool; refuse).
  assert (refuses (_open_tool hex namespace_map i given (default "" name))) as Ho
    by (unfold _open_tool; apply refuses_look; intros s; destruct given; refuse).
  unfold place_fragment, arguments_delta. match goal with |- refuses (fun s => ?a s) => change (refuses a) end.
  refuse.
Qed.

Lemma tool_fragments_refuses tcs : refuses (tool_fragments hex namespace_map tcs).
Proof.
  induction tcs as [|tc tcs IH]; simpl; [auto with refuses|]. apply refuses_seq; [apply tool_fragment_refuses|done].
Qed.

Lemma on_text_refuses delta key handle : (forall f, refuses (handle f)) -> refuses (on_text delta key handle).
Proof.
  intros Hh. apply (refuses_check (text_field delta key)).
  - intros e. unfold text_field. repeat case_match; by intros [= <-].
  - intros [f|]; [apply Hh|exact (refuses_ok (fun s => (s, [])))].
Qed.

Lemma on_delta_refuses delta : refuses (on_delta hex emit_reasoning namespace_map delta).
Proof.
  unfold on_delta. apply refuses_seq; [case_match; [apply on_text_refuses, reasoning_refuses|auto with refuses]|].
  apply refuses_seq; [refuse|]. apply refuses_seq; [apply on_text_refuses, text_refuses|].
  destruct (jget_null delta "tool_calls"); simpl; auto with refuses. apply tool_fragments_refuses.
Qed.

(** A counter that fits a double, and a chunk whose reason to finish is hashable. *)
Definition finite (v : Json) : bool :=
  match v with JFloat m e => bool_decide (is_Some (float_int m e)) | _ => true end.
Definition sane (chunk : Json) : bool :=
  let u := jget_null chunk "usage" in
  finite (jget_null u "prompt_tokens") && finite (jget_null u "completion_tokens")
  && finite (jget_null (jget_null u "prompt_tokens_details") "cached_tokens")
  && match jget_null (the_choice chunk) "finish_reason" with JArr _ | JObj _ => false | _ => true end.

Lemma finite_as_int v d : finite v = true -> exists n, _as_int v d = Ok n.
Proof.
  destruct v; simpl; try (by eexists). rewrite bool_decide_eq_true. intros [n ->]. by eexists.
Qed.

Lemma usage_finite u :
  finite (jget_null u "prompt_tokens") = true -> finite (jget_null u "completion_tokens") = true ->
  finite (jget_null (jget_null u "prompt_tokens_details") "cached_tokens") = true ->
  exists v, _usage_to_responses u = Ok v.
Proof.
  intros H1 H2 H3. destruct u as [| | | | | |d]; try (by eexists). unfold _usage_to_responses.
  destruct (finite_as_int _ 0 H1) as [p ->]. destruct (finite_as_int _ 0 H2) as [c ->]. simpl.
  destruct (is_dict _); [|by eexists]. destruct (finite_as_int _ 0 H3) as [k ->]. by eexists.
Qed.

Lemma feed_refuses chunk : sane chunk = true -> refuses (feed chunk).
Proof.
  intros Hs s e H. unfold sane in Hs. b2p. unfold CodexStream.feed in H.
  destruct (negb (is_dict chunk)); [by injection H as <-|].
  destruct (match jget_null chunk "usage" with JNull => Ok s | u => _ end) as [s1|e1] eqn:Eu.
  - clear Eu. simpl in H. unfold the_choice in *.
    destruct (jget_null chunk "choices") as [| | | | |[|choice [|]]|]; try (by injection H as <-); try done;
      destruct (terminal_seen s1); try (by injection H as <-).
    unfold on_choice in H. destruct (negb (is_dict choice)); [by injection H as <-|].
    destruct (jget_null choice "finish_reason") as [| | | |f| |]; simpl in H; try done; try (by injection H as <-);
      try (destruct (bool_decide (f ∈ _)); simpl in H; [|by injection H as <-]);
      (destruct (jget_null choice "delta"); simpl in H; try done; try (by injection H as <-); by eapply on_delta_refuses).
  - destruct (usage_finite (jget_null chunk "usage")) as [v Ev]; [done..|]. simpl in H.
    destruct (jget_null chunk "usage"); try done; rewrite Ev in Eu; done.
Qed.

Lemma finalize_refuses : refuses finalize.
Proof.
  unfold CodexStream.finalize. apply refuses_look. intros s. destruct (_finish_to_status _ _) as [status inc].
  destruct (closing_refuses "completed") as (? & _ & _).
  destruct (closing_refuses (item_status_of status)) as (_ & ? & ?). refuse.
Qed.

(** The translation refuses in one way.  As long as no reason to finish is a list or an
    object and no token counter is infinite, whatever else the chunks are, the only
    exception a stream ends with is [BridgeCapabilityError]. *)
Theorem stream_refuses chunks :
  forallb sane (taken chunks) = true ->
  snd (chat_stream_to_responses_events chunks) = None
  \/ snd (chat_stream_to_responses_events chunks) = Some BridgeCapabilityError.
Proof.
  intros Hs. destruct (chat_stream_to_responses_events chunks) as [evs e] eqn:H. simpl.
  unfold CodexStream.chat_stream_to_responses_events in H. simpl in H.
  destruct (chunks_loop chunks _) as [xs e'] eqn:El. injection H as _ <-. clear evs.
  revert El. generalize (with_seq (0 + 1 + 1) (with_seq (0 + 1) init)). revert xs e'.
  induction chunks as [|chunk chunks IH]; intros xs e' s El; cbn [CodexStream.chunks_loop] in El.
  - destruct (terminal_seen s).
    + destruct (finalize s) as [[s1 ys]|e1] eqn:Ef; injection El as _ <-; [by left|right].
      f_equal. by eapply finalize_refuses.
    + injection El as _ <-. by left.
  - destruct (negb (is_dict chunk)); [injection El as _ <-; by right|].
    cbn [taken] in Hs. destruct (jget_null chunk "error"); try (injection El as _ <-; by left).
    simpl in Hs. b2p. destruct (feed chunk s) as [[s1 ys]|e1] eqn:Ef.
    + destruct (chunks_loop chunks s1) as [zs e2] eqn:El'. injection El as _ <-. by eapply IH.
    + injection El as _ <-. right. f_equal. by eapply feed_refuses.
Qed.
End stream.

(** ** Concrete streams *)

Definition a_delta (fields : list (string * Json)) (finish : Json) : Json :=
  JObj [("choices", JArr [JObj [("delta", JObj fields); ("finish_reason", finish)]])].

Definition hello : list Json :=
  [a_delta [("content", JStr "Hel")] JNull; a_delta [("content", JStr "lo")] JNull; a_delta [] (JStr "stop")].

#[local] Notation the_stream :=
  (chat_stream_to_responses_events (fun n => pretty n) (fun _ => "[]") "resp_1" "gpt" 1 [] true false []).

(** The types of the events. *)
Definition types (evs : list Event) : list string := map (fun ev => fst (payload_fields (payload ev))) evs.

Example hello_types :
  types (fst (the_stream hello))
  = ["response.created"; "response.in_progress"; "response.output_item.added"; "response.content_part.added";
     "response.output_text.delta"; "response.output_text.delta"; "response.output_text.done";
     "response.content_part.done"; "response.output_item.done"; "response.completed"].
Proof. vm_compute. reflexivity. Qed.

Lemma stream_ends_on_evidence_witness :
  exists evs, the_stream hello = (evs, None)
  /\ exists p, last (map payload evs) = Some p
     /\ ending (fun _ => "[]") false (first_error hello) (omap chunk_finish (taken hello)) p.
Proof.
  destruct (the_stream hello) as [evs [e|]] eqn:H; [by vm_compute in H|].
  exists evs. split; [done|]. exact (stream_ends_on_evidence _ _ _ _ _ _ _ _ _ hello _ H).
Defined.

Lemma stream_refuses_witness :
  let chunks := [a_delta [("refusal", JStr "no")] JNull] in
  forallb sane (taken chunks) = true
  /\ (snd (the_stream chunks) = None \/ snd (the_stream chunks) = Some BridgeCapabilityError)
  /\ snd (the_stream chunks) = Some BridgeCapabilityError.
Proof.
  split; [vm_compute; reflexivity|]. split; [|vm_compute; reflexivity].
  apply (stream_refuses _ _ _ _ _ _ _ _ _ [a_delta [("refusal", JStr "no")] JNull]). vm_compute. reflexivity.
Defined.

(** What [sane] leaves out does raise: a reason to finish that is a list, and a counter
    that is an infinite float. *)
Example unhashable_reason : snd (the_stream [a_delta [] (JArr [])]) = Some TypeError.
Proof. vm_compute. reflexivity. Qed.

Example infinite_counter :
  snd (the_stream [JObj [("choices", JArr []); ("usage", JObj [("prompt_tokens", JFloat 1 400)])]]) = Some OverflowError.
Proof. vm_compute. reflexivity. Qed.
