(* ===== verification/CodexParity.v ===== *)
(** The two translations of a chat completion agree: streaming a message in fragments
    ([CodexStream]) ends in the Responses object of the whole message ([CodexResponse]). *)

From stdpp Require Import pretty.
From S2P Require Import Prelude Json CodexResponse CodexStream CodexStreamLaws.

(** ** A message and its fragments *)

Record Call := MkCall { k_id : string; k_name : string; k_fragments : list string }.

Record Message := MkMessage {
  m_reasoning : list string;
  m_content : list string;
  m_calls : list Call;
  m_finish : string;
  m_usage : Json;
}.

Definition full_call (c : Call) : Json :=
  JObj [("id", JStr (k_id c)); ("type", JStr "function");
        ("function", JObj [("name", JStr (k_name c)); ("arguments", JStr (join (k_fragments c)))])].

(** The completion as one response. *)
Definition full_response (m : Message) : Json :=
  JObj [("choices", JArr [JObj [
          ("finish_reason", JStr (m_finish m));
          ("message", JObj [("role", JStr "assistant");
             ("reasoning_content", JStr (join (m_reasoning m)));
             ("content", JStr (join (m_content m)));
             ("tool_calls", JArr (map full_call (m_calls m)))])]]);
        ("usage", m_usage m)].

Definition delta_chunk (fields : list (string * Json)) : Json :=
  JObj [("choices", JArr [JObj [("index", JInt 0); ("delta", JObj fields)]])].

Definition call_chunk (fields : list (string * Json)) : Json := delta_chunk [("tool_calls", JArr [JObj fields])].

(** The chunks of the call at index [i]: its announcement, then its arguments. *)
Definition open_chunk (i : Z) (c : Call) : Json :=
  call_chunk [("index", JInt i); ("id", JStr (k_id c)); ("type", JStr "function");
              ("function", JObj [("name", JStr (k_name c)); ("arguments", JStr "")])].
Definition arguments_chunk (i : Z) (f : string) : Json :=
  call_chunk [("index", JInt i); ("function", JObj [("arguments", JStr f)])].

Fixpoint calls_chunks (i : Z) (calls : list Call) : list Json :=
  match calls with
  | [] => []
  | c :: calls => open_chunk i c :: map (arguments_chunk i) (k_fragments c) ++ calls_chunks (i + 1) calls
  end.

Definition finish_chunk (f : string) (usage : Json) : Json :=
  JObj [("choices", JArr [JObj [("delta", JObj []); ("finish_reason", JStr f)]]); ("usage", usage)].

(** The completion as a stream. *)
Definition stream_chunks (m : Message) : list Json :=
  map (fun f => delta_chunk [("reasoning_content", JStr f)]) (m_reasoning m)
  ++ map (fun f => delta_chunk [("content", JStr f)]) (m_content m)
  ++ calls_chunks 0 (m_calls m) ++ [finish_chunk (m_finish m) (m_usage m)].

Definition well_formed (m : Message) : Prop :=
  m_finish m ∈ _RECOGNIZED_FINISH
  /\ Forall (fun c => k_id c <> "" /\ k_name c <> "") (m_calls m)
  /\ exists u, _usage_to_responses (m_usage m) = Ok u.

(** An item without the id that a translation makes up, and without its status unless
    [completed]: a stream closes an item before it knows how the turn ends. *)
Definition erase (completed : bool) (item : Item) : Item :=
  let st s := if completed then s else "" in
  match item with
  | ReasoningItem _ s t => ReasoningItem "" (st s) t
  | MessageItem _ s t => MessageItem "" (st s) t
  | CallItem id s c n a ns => CallItem id (st s) c n a ns
  end.

(** ** Runs, but for the numbers of events *)

Definition ends (a : Act) (s s' : State) : Prop :=
  forall q, exists q' evs, a (with_seq q s) = Ok (with_seq q' s', evs).

Lemma ends_seq a b s s1 s2 : ends a s s1 -> ends b s1 s2 -> ends (a &; b) s s2.
Proof.
  intros Ha Hb q. destruct (Ha q) as (q1 & xs & E1). destruct (Hb q1) as (q2 & ys & E2).
  exists q2, (xs ++ ys). unfold and_then. rewrite E1. simpl. by rewrite E2.
Qed.

Lemma ends_ext a b s s' : (forall x, a x = b x) -> ends b s s' -> ends a s s'.
Proof. intros E H q. rewrite E. apply H. Qed.

Lemma ends_assoc a b c s s1 s2 : ends (a &; b) s s1 -> ends c s1 s2 -> ends (a &; b &; c) s s2.
Proof.
  intros Hab Hc q. destruct (ends_seq _ _ _ _ _ Hab Hc q) as (q' & evs & E). exists q', evs. rewrite <- E.
  unfold and_then. destruct (a _) as [[s3 x3]|]; [|done]. simpl. destruct (b s3) as [[s4 x4]|]; [|done]. simpl.
  destruct (c s4) as [[s5 x5]|]; [|done]. simpl. by rewrite app_assoc.
Qed.

Lemma ends_skip s : ends skip s s.
Proof. intros q. by exists q, []. Qed.

Lemma ends_emit p s : ends (emit p) s s.
Proof. intros q. by eexists _, _. Qed.

Lemma ends_update f s : (forall q, f (with_seq q s) = with_seq q (f s)) -> ends (update f) s (f s).
Proof. intros Hf q. exists q, []. unfold update. by rewrite Hf. Qed.

Lemma ends_push oi item s : ends (push oi item) s (with_output (output s ++ [(oi, item)]) s).
Proof. intros q. by exists q, []. Qed.

Lemma ends_look k s s' : (forall q, k (with_seq q s) = k s) -> ends (k s) s s' -> ends (look k) s s'.
Proof. intros Hk He q. unfold look. rewrite Hk. apply He. Qed.

(** Run the acts of the goal one by one. *)
Ltac act :=
  lazymatch goal with
  | |- ends (_ &; _) _ _ => eapply ends_seq
  | |- ends skip _ _ => apply ends_skip
  | |- ends (emit _) _ _ => apply ends_emit
  | |- ends (update _) _ _ => apply ends_update; reflexivity
  | |- ends (set_tool _ _) _ _ => apply ends_update; reflexivity
  | |- ends (push _ _) _ _ => apply ends_push
  | |- ends (look _) _ _ => apply ends_look; [reflexivity|]
  end; simpl.

Section parity.
Context (hex : nat -> string) (repr : Json -> string).
Context (response_id model : string) (created_at : Z) (metadata : list (string * Json)).
Context (length_as_completed : bool) (namespace_map : odict string string).
Notation feed := (feed hex true namespace_map).
Notation chunks_loop := (chunks_loop hex repr response_id model created_at metadata true length_as_completed namespace_map).

Inductive feeds : list Json -> State -> State -> Prop :=
| feeds_nil s : feeds [] s s
| feeds_cons c cs s s1 s2 :
    is_dict c = true -> jget_null c "error" = JNull -> ends (feed c) s s1 -> feeds cs s1 s2 -> feeds (c :: cs) s s2.

Lemma feeds_app cs ds s s1 s2 : feeds cs s s1 -> feeds ds s1 s2 -> feeds (cs ++ ds) s s2.
Proof. induction 1; simpl; [done|]. intros H'. econstructor; eauto. Qed.

Lemma feeds_loop cs ds s s1 : feeds cs s s1 -> forall q, exists q' xs,
  chunks_loop (cs ++ ds) (with_seq q s) = let '(rest, e) := chunks_loop ds (with_seq q' s1) in (xs ++ rest, e).
Proof.
  induction 1 as [s|c cs s s1 s2 Hd He Hf Hr IH]; intros q.
  - exists q, []. simpl. by destruct (chunks_loop ds _).
  - destruct (Hf q) as (q1 & ys & E1). destruct (IH q1) as (q2 & xs & E2). exists q2, (ys ++ xs).
    simpl app. cbn [CodexStream.chunks_loop]. rewrite Hd, He, E1. simpl. rewrite E2.
    destruct (chunks_loop ds _) as [rest e]. by rewrite app_assoc.
Qed.

(** *** The state after the fragments *)

Notation ns := (fun name => _ns_for name namespace_map).
Definition nonempty (fs : list string) : list string := filter (fun f => f <> "") fs.

Lemma join_cons f fs : join (f :: fs) = String.append f (join fs).
Proof. unfold join. destruct fs as [|g fs]; simpl; [by rewrite append_nil_r|done]. Qed.

Lemma join_nonempty fs : join (nonempty fs) = join fs.
Proof.
  induction fs as [|f fs IH]; [done|]. unfold nonempty in *. rewrite filter_cons. case_decide as E.
  - by rewrite !join_cons, IH.
  - rewrite join_cons. assert (f = "") as -> by (by destruct (decide (f = ""))). done.
Qed.

Lemma join_nil fs : join fs = "" <-> nonempty fs = [].
Proof.
  induction fs as [|f fs IH]; [done|]. rewrite join_cons. unfold nonempty in *. rewrite filter_cons.
  case_decide as E; [|assert (f = "") as -> by (by destruct (decide (f = "")))]; [|exact IH].
  destruct f as [|a f]; [done|]. split; done.
Qed.

(** While only reasoning came: its fragments. *)
Definition after_reasoning (rs : list string) : State :=
  match rs with
  | [] => init
  | _ => MkState 0 1 [] None None false (Some (MkOpen (_new_reasoning_id hex 0) 0 rs)) None [] [] 1
  end.

Definition closed_reasoning (rs : list string) : list (Z * Item) :=
  match rs with
  | [] => []
  | _ => [(0, ReasoningItem (_new_reasoning_id hex 0) "completed" (join rs))]
  end.

(** Then the message. *)
Definition after_content (rs cs : list string) : State :=
  match cs with
  | [] => after_reasoning rs
  | _ => let n := length (closed_reasoning rs) in
         MkState 0 (Z.of_nat n + 1) (closed_reasoning rs) None None false None
           (Some (MkOpen (_new_msg_id hex n) (Z.of_nat n) cs)) [] [] (S n)
  end.

Definition closed_content (rs cs : list string) : list (Z * Item) :=
  closed_reasoning rs ++
  match cs with
  | [] => []
  | _ => let n := length (closed_reasoning rs) in
         [(Z.of_nat n, MessageItem (_new_msg_id hex n) "completed" (join cs))]
  end.

(** Then the calls; the last one is being streamed. *)
Fixpoint call_tools (i n : Z) (calls : list Call) : odict Z Tool :=
  match calls with
  | [] => []
  | c :: calls => (i, MkTool (String.append "fc_" (k_id c)) n (k_id c) (Some (k_id c)) (k_name c) (ns (k_name c)) (k_fragments c))
                  :: call_tools (i + 1) (n + 1) calls
  end.

Definition after_calls (rs cs : list string) (calls : list Call) : State :=
  match calls with
  | [] => after_content rs cs
  | _ => let n := length (closed_content rs cs) in
         MkState 0 (Z.of_nat n + Z.of_nat (length calls)) (closed_content rs cs) None None false None None
           (call_tools 0 (Z.of_nat n) calls) (seqZ 0 (Z.of_nat (length calls))) n
  end.

Lemma feed_reasoning rs f :
  ends (feed (delta_chunk [("reasoning_content", JStr f)])) (after_reasoning rs)
    (after_reasoning (rs ++ nonempty [f])).
Proof.
  intros q. unfold nonempty. rewrite filter_cons, filter_nil. unfold CodexStream.feed, on_choice, on_delta, on_text, text_field.
  simpl. case_decide as E.
  - rewrite bool_decide_false by done. destruct rs as [|r rs]; simpl; do 2 eexists; reflexivity.
  - rewrite bool_decide_true by (by destruct (decide (f = ""))). rewrite app_nil_r. simpl.
    do 2 eexists. by destruct rs.
Qed.

Lemma handle_content rs cs f :
  ends (_handle_text_delta hex f) (after_content rs cs) (after_content rs (cs ++ [f])).
Proof.
  unfold _handle_text_delta, _close_reasoning, _close_all_tools, _open_message, text_delta.
  destruct cs as [|c cs]; [destruct rs as [|r rs]|]; repeat act.
Qed.

Lemma feed_content rs cs f :
  ends (feed (delta_chunk [("content", JStr f)])) (after_content rs cs) (after_content rs (cs ++ nonempty [f])).
Proof.
  intros q. unfold nonempty. rewrite filter_cons, filter_nil. unfold CodexStream.feed, on_choice, on_delta, on_text, text_field.
  simpl. case_decide as E.
  - assert (terminal_seen (after_content rs cs) = false) as -> by (destruct cs; [by destruct rs|done]).
    rewrite bool_decide_false by done. destruct (handle_content rs cs f q) as (q' & evs & H).
    exists q', evs. unfold and_then. simpl. rewrite H. simpl. by rewrite app_nil_r.
  - assert (terminal_seen (after_content rs cs) = false) as -> by (destruct cs; [by destruct rs|done]).
    rewrite bool_decide_true by (by destruct (decide (f = ""))). rewrite app_nil_r.
    exists q, []. by destruct cs; [destruct rs|].
Qed.

(** *** Calls in their dictionary *)

Lemma dict_get_last (d : odict Z Tool) j t : dict_get d j = None -> dict_get (d ++ [(j, t)]) j = Some t.
Proof.
  induction d as [|[i x] d IH]; simpl; [by rewrite decide_True|]. case_decide; [done|]. apply IH.
Qed.

Lemma dict_set_last (d : odict Z Tool) j t t' :
  dict_get d j = None -> dict_set (d ++ [(j, t)]) j t' = d ++ [(j, t')].
Proof.
  induction d as [|[i x] d IH]; simpl; [by rewrite decide_True|]. case_decide; [done|]. intros Hd. by rewrite IH.
Qed.

Definition tool_of (n : Z) (c : Call) : Tool :=
  MkTool (String.append "fc_" (k_id c)) n (k_id c) (Some (k_id c)) (k_name c) (ns (k_name c)) (k_fragments c).

Lemma call_tools_snoc i n calls c :
  call_tools i n (calls ++ [c])
  = call_tools i n calls ++ [(i + Z.of_nat (length calls), tool_of (n + Z.of_nat (length calls)) c)].
Proof.
  revert i n. induction calls as [|x calls IH]; intros i n; simpl.
  - by rewrite !Z.add_0_r.
  - rewrite IH. cbn [app].
    replace (i + 1 + Z.of_nat (length calls)) with (i + Z.of_nat (S (length calls))) by lia.
    by replace (n + 1 + Z.of_nat (length calls)) with (n + Z.of_nat (S (length calls))) by lia.
Qed.

Lemma call_tools_none i n calls j : i + Z.of_nat (length calls) <= j -> dict_get (call_tools i n calls) j = None.
Proof.
  revert i n. induction calls as [|x calls IH]; intros i n Hj; simpl in *; [done|].
  rewrite decide_False by lia. apply IH. lia.
Qed.

(** The state when the calls before the last one are [calls] and the last one is [c]. *)
Definition with_call (rs cs : list string) (calls : list Call) (c : Call) : State :=
  let n := length (closed_content rs cs) in
  let k := Z.of_nat (length calls) in
  MkState 0 (Z.of_nat n + k + 1) (closed_content rs cs) None None false None None
    (call_tools 0 (Z.of_nat n) calls ++ [(k, tool_of (Z.of_nat n + k) c)]) (seqZ 0 k ++ [k]) n.

Lemma after_calls_snoc rs cs calls c : after_calls rs cs (calls ++ [c]) = with_call rs cs calls c.
Proof.
  unfold after_calls, with_call. destruct (calls ++ [c]) as [|x l] eqn:E; [by destruct calls|]. rewrite <- E. clear E x l.
  rewrite length_app, call_tools_snoc, Nat2Z.inj_add. simpl. f_equal; [lia|].
  by rewrite seqZ_app by lia.
Qed.

Lemma closing_calls rs cs :
  ends (_close_reasoning "completed" &; _close_text "completed") (after_content rs cs)
    (MkState 0 (Z.of_nat (length (closed_content rs cs))) (closed_content rs cs) None None false None None [] []
       (length (closed_content rs cs))).
Proof.
  unfold _close_reasoning, _close_text.
  destruct cs as [|c cs]; [destruct rs as [|r rs]|destruct rs as [|r rs]]; repeat act.
Qed.

(** *** Feeding the calls *)

Lemma feed_call tc s s' :
  terminal_seen s = false -> ends (tool_fragment hex namespace_map (JObj tc)) s s' ->
  ends (feed (call_chunk tc)) s s'.
Proof.
  intros Ht H q. destruct (H q) as (q' & evs & E). exists q', evs.
  unfold CodexStream.feed, on_choice, on_delta. simpl. rewrite Ht. unfold and_then. simpl.
  rewrite E. simpl. by rewrite app_nil_r.
Qed.

Lemma not_terminal rs cs calls : terminal_seen (after_calls rs cs calls) = false.
Proof. destruct calls; [destruct cs; [by destruct rs|done]|done]. Qed.

Lemma after_calls_tools rs cs calls :
  tools (after_calls rs cs calls) = call_tools 0 (Z.of_nat (length (closed_content rs cs))) calls.
Proof. destruct calls; [destruct cs; [by destruct rs|done]|done]. Qed.

(** What is left open before a call is closed. *)
Lemma before_call rs cs calls :
  ends (_close_reasoning "completed" &; _close_text "completed") (after_calls rs cs calls)
    (MkState 0 (Z.of_nat (length (closed_content rs cs)) + Z.of_nat (length calls)) (closed_content rs cs) None None false
       None None (call_tools 0 (Z.of_nat (length (closed_content rs cs))) calls) (seqZ 0 (Z.of_nat (length calls)))
       (length (closed_content rs cs))).
Proof.
  destruct calls as [|c calls].
  - simpl. rewrite Z.add_0_r. apply closing_calls.
  - unfold _close_reasoning, _close_text. repeat act.
Qed.

Lemma feed_open rs cs calls c :
  k_id c <> "" -> k_name c <> "" ->
  ends (feed (open_chunk (Z.of_nat (length calls)) c)) (after_calls rs cs calls)
    (after_calls rs cs (calls ++ [MkCall (k_id c) (k_name c) []])).
Proof.
  intros Hi Hn. apply feed_call; [apply not_terminal|]. remember (Z.of_nat (length calls)) as k eqn:Ek.
  eapply ends_ext.
  { intros s. unfold tool_fragment, tool_index, nonempty_str, fragment_name, upstream_id. simpl.
    assert (k <? 0 = false) as -> by (apply Z.ltb_ge; lia). simpl. rewrite !bool_decide_false by done. simpl.
    apply (eq_refl ((place_fragment hex namespace_map k (Some (k_id c)) (Some (k_name c)) &; skip) s)). }
  eapply ends_seq; [|apply ends_skip]. apply ends_look; [done|]. cbv zeta.
  assert (dict_get (tools (after_calls rs cs calls)) k = None) as ->.
  { rewrite after_calls_tools. apply call_tools_none. lia. }
  rewrite (bool_decide_true (None = None)) by done. simpl.
  eapply ends_seq; [apply ends_skip|].
  eapply ends_assoc; [apply before_call|]. unfold _open_tool. rewrite after_calls_snoc. unfold with_call. rewrite <- Ek.
  repeat act. rewrite dict_set_new by (apply call_tools_none; lia). repeat act.
Qed.

Lemma feed_arguments rs cs calls c f :
  ends (feed (arguments_chunk (Z.of_nat (length calls)) f)) (after_calls rs cs (calls ++ [c]))
    (after_calls rs cs (calls ++ [MkCall (k_id c) (k_name c) (k_fragments c ++ nonempty [f])])).
Proof.
  apply feed_call; [apply not_terminal|]. rewrite !after_calls_snoc. unfold with_call. remember (Z.of_nat (length calls)) as k eqn:Ek.
  assert (dict_get (call_tools 0 (Z.of_nat (length (closed_content rs cs))) calls) k = None) as Hk
    by (apply call_tools_none; lia).
  eapply ends_ext.
  { intros s. unfold tool_fragment, tool_index, fragment_name, upstream_id. simpl.
    assert (k <? 0 = false) as -> by (apply Z.ltb_ge; lia). simpl.
    apply (eq_refl ((place_fragment hex namespace_map k None None
      &; if bool_decide (f = "") then skip else arguments_delta k f) s)). }
  match goal with |- ends _ ?s _ => apply (ends_seq _ _ s s) end.
  - apply ends_look; [done|]. cbv zeta. simpl. rewrite dict_get_last by done.
    rewrite (bool_decide_false (Some _ = None)) by done. simpl.
    intros q. exists q, []. unfold set_tool, update. simpl. rewrite dict_set_last by done. done.
  - unfold nonempty. rewrite filter_cons, filter_nil. case_decide as E.
    + rewrite bool_decide_false by done. apply ends_look; [done|]. simpl. rewrite dict_get_last by done.
      intros q. eexists _, _. unfold set_tool, and_then, update, emit. simpl. rewrite dict_set_last by done. reflexivity.
    + rewrite bool_decide_true by (by destruct (decide (f = ""))). rewrite app_nil_r. destruct c. apply ends_skip.
Qed.

Lemma feeds_arguments rs cs calls c fs :
  feeds (map (arguments_chunk (Z.of_nat (length calls))) fs) (after_calls rs cs (calls ++ [c]))
    (after_calls rs cs (calls ++ [MkCall (k_id c) (k_name c) (k_fragments c ++ nonempty fs)])).
Proof.
  revert c. induction fs as [|f fs IH]; intros c; simpl.
  - unfold nonempty. rewrite filter_nil, app_nil_r. destruct c. constructor.
  - econstructor; [done|done|apply feed_arguments|].
    specialize (IH (MkCall (k_id c) (k_name c) (k_fragments c ++ nonempty [f]))). simpl in IH.
    replace (k_fragments c ++ nonempty (f :: fs)) with ((k_fragments c ++ nonempty [f]) ++ nonempty fs); [exact IH|].
    rewrite <- app_assoc. f_equal. unfold nonempty. rewrite !filter_cons, filter_nil. by case_decide.
Qed.

Definition trim (c : Call) : Call := MkCall (k_id c) (k_name c) (nonempty (k_fragments c)).

Lemma feeds_calls rs cs calls : forall before,
  Forall (fun c => k_id c <> "" /\ k_name c <> "") calls ->
  feeds (calls_chunks (Z.of_nat (length before)) calls) (after_calls rs cs before)
    (after_calls rs cs (before ++ map trim calls)).
Proof.
  induction calls as [|c calls IH]; intros before Hc; simpl; [rewrite app_nil_r; constructor|].
  apply Forall_cons in Hc as [[Hi Hn] Hc].
  econstructor; [done|done|by apply feed_open|]. eapply feeds_app.
  - apply (feeds_arguments rs cs before (MkCall (k_id c) (k_name c) [])).
  - specialize (IH (before ++ [trim c]) Hc). rewrite <- app_assoc in IH. simpl in IH.
    rewrite length_app, Nat2Z.inj_add in IH. exact IH.
Qed.

Lemma feeds_reasoning fs : forall rs,
  feeds (map (fun f => delta_chunk [("reasoning_content", JStr f)]) fs) (after_reasoning rs)
    (after_reasoning (rs ++ nonempty fs)).
Proof.
  induction fs as [|f fs IH]; intros rs; simpl; [unfold nonempty; rewrite filter_nil, app_nil_r; constructor|].
  econstructor; [done|done|apply feed_reasoning|]. specialize (IH (rs ++ nonempty [f])).
  rewrite <- app_assoc in IH. unfold nonempty in *. rewrite !filter_cons, filter_nil in *. by case_decide.
Qed.

Lemma feeds_content rs fs : forall cs,
  feeds (map (fun f => delta_chunk [("content", JStr f)]) fs) (after_content rs cs)
    (after_content rs (cs ++ nonempty fs)).
Proof.
  induction fs as [|f fs IH]; intros cs; simpl; [unfold nonempty; rewrite filter_nil, app_nil_r; constructor|].
  econstructor; [done|done|apply feed_content|]. specialize (IH (cs ++ nonempty [f])).
  rewrite <- app_assoc in IH. unfold nonempty in *. rewrite !filter_cons, filter_nil in *. by case_decide.
Qed.

(** *** The end of the stream *)

Definition call_item (st : string) (c : Call) : Item :=
  CallItem (String.append "fc_" (k_id c)) st (k_id c) (k_name c) (join (k_fragments c)) (ns (k_name c)).

Fixpoint call_outputs (st : string) (n : Z) (calls : list Call) : list (Z * Item) :=
  match calls with
  | [] => []
  | c :: calls => (n, call_item st c) :: call_outputs st (n + 1) calls
  end.

(** Everything the stream has put out once the last items are closed with [st]. *)
Definition final_output (st : string) (rs cs : list string) (calls : list Call) : list (Z * Item) :=
  match calls with
  | [] =>
      closed_reasoning rs ++
      match cs with
      | [] => []
      | _ => let n := length (closed_reasoning rs) in
             [(Z.of_nat n, MessageItem (_new_msg_id hex n) st (join cs))]
      end
  | _ => closed_content rs cs ++ call_outputs st (Z.of_nat (length (closed_content rs cs))) calls
  end.

Lemma closing_tools st calls : forall i n out f u k o,
  Forall (fun c => k_name c <> "") calls ->
  ends (close_tools (seqZ i (Z.of_nat (length calls))) st)
    (MkState 0 k out u f true None None (call_tools i n calls) (seqZ i (Z.of_nat (length calls))) o)
    (MkState 0 k (out ++ call_outputs st n calls) u f true None None [] [] o).
Proof.
  induction calls as [|c calls IH]; intros i n out f u k o Hc.
  - simpl. rewrite seqZ_nil by lia. rewrite app_nil_r. apply ends_skip.
  - apply Forall_cons in Hc as [Hn Hc]. simpl length. rewrite seqZ_cons by lia.
    replace (Z.pred (Z.of_nat (S (length calls)))) with (Z.of_nat (length calls)) by lia. cbn [close_tools].
    apply (ends_seq _ _ _ (MkState 0 k (out ++ [(n, call_item st c)]) u f true None None
      (call_tools (Z.succ i) (n + 1) calls) (seqZ (Z.succ i) (Z.of_nat (length calls))) o)).
    + unfold _close_tool. apply ends_look; [done|]. simpl. rewrite decide_True by done.
      rewrite decide_True by done. rewrite (bool_decide_true (i = i)) by done.
      rewrite (bool_decide_false (k_name c = "")) by done. change (i + 1) with (Z.succ i). repeat act.
    + pose proof (IH (Z.succ i) (n + 1) (out ++ [(n, call_item st c)]) f u k o Hc) as IH'.
      rewrite <- app_assoc in IH'. exact IH'.
Qed.

Lemma sorted_already l : forall a, l.*1 = seqZ a (Z.of_nat (length l)) -> sort_by_oi l = l.
Proof.
  induction l as [|[k x] l IH]; intros a Hl; [done|]. simpl length in Hl. rewrite seqZ_cons in Hl by lia.
  replace (Z.pred (Z.of_nat (S (length l)))) with (Z.of_nat (length l)) in Hl by lia. injection Hl as -> Hl.
  change (sort_by_oi ((a, x) :: l)) with (insert_by_oi (a, x) (sort_by_oi l)). rewrite (IH _ Hl).
  apply insert_front. intros p Hp. simpl.
  assert (fst p ∈ seqZ (Z.succ a) (Z.of_nat (length l))) as Hk%elem_of_seqZ
    by (rewrite <- Hl; by apply list_elem_of_fmap_2). lia.
Qed.

Lemma call_outputs_keys st n calls : (call_outputs st n calls).*1 = seqZ n (Z.of_nat (length calls)).
Proof.
  revert n. induction calls as [|c calls IH]; intros n; simpl; [by rewrite seqZ_nil by lia|].
  rewrite seqZ_cons by lia. rewrite IH. f_equal. replace (n + 1) with (Z.succ n) by lia. f_equal. lia.
Qed.

Lemma call_outputs_length st n calls : length (call_outputs st n calls) = length calls.
Proof. revert n. induction calls as [|c calls IH]; intros n; simpl; [done|]. by rewrite IH. Qed.

Lemma final_sorted st rs cs calls : sort_by_oi (final_output st rs cs calls) = final_output st rs cs calls.
Proof.
  apply (sorted_already _ 0). destruct calls as [|c calls].
  - destruct rs, cs; done.
  - unfold final_output. rewrite fmap_app, call_outputs_keys, length_app, call_outputs_length, Nat2Z.inj_add.
    rewrite seqZ_app by lia. f_equal. destruct rs, cs; done.
Qed.

Definition ended (u : option Usage) (f : string) (s : State) : State := with_finish f (with_usage u s).

Lemma closing st u f rs cs calls :
  Forall (fun c => k_name c <> "") calls ->
  ends (_close_reasoning "completed" &; _close_text st &; _close_all_tools st)
    (ended u f (after_calls rs cs calls))
    (MkState 0 (Z.of_nat (length (final_output st rs cs calls))) (final_output st rs cs calls) u (Some f) true None None [] []
       (length (closed_content rs cs))).
Proof.
  intros Hc. unfold _close_reasoning, _close_text, _close_all_tools. destruct calls as [|c calls].
  - destruct cs as [|x cs]; [destruct rs as [|r rs]|destruct rs as [|r rs]]; repeat act.
  - eapply ends_seq; [repeat act|]. eapply ends_seq; [repeat act|]. apply ends_look; [done|].
    unfold ended. simpl tool_order.
    replace (length (final_output st rs cs (c :: calls))) with (length (closed_content rs cs) + length (c :: calls))%nat
      by (unfold final_output; by rewrite length_app, call_outputs_length).
    rewrite Nat2Z.inj_add.
    exact (closing_tools st (c :: calls) 0 (Z.of_nat (length (closed_content rs cs))) (closed_content rs cs)
      (Some f) u _ _ Hc).
Qed.

(** *** The whole response *)

Lemma full_calls st calls : forall n,
  Forall (fun c => k_id c <> "" /\ k_name c <> "") calls ->
  function_call_items hex (map full_call calls) st namespace_map n = Ok (map (call_item st) calls, n).
Proof.
  induction calls as [|c calls IH]; intros n Hc; [done|]. apply Forall_cons in Hc as [[Hi Hn] Hc].
  simpl. unfold _function_call_item, nonempty_str, upstream_id. simpl. rewrite !bool_decide_false by done. simpl.
  by rewrite IH.
Qed.

Definition text_item (mk : string -> Item) (t : string) : list Item := if bool_decide (t = "") then [] else [mk t].

Lemma full_items m st :
  Forall (fun c => k_id c <> "" /\ k_name c <> "") (m_calls m) ->
  exists rid mid,
  _message_output_items hex
    (JObj [("role", JStr "assistant"); ("reasoning_content", JStr (join (m_reasoning m)));
           ("content", JStr (join (m_content m))); ("tool_calls", JArr (map full_call (m_calls m)))])
    st true namespace_map
  = Ok (text_item (ReasoningItem rid st) (join (m_reasoning m)) ++ text_item (MessageItem mid st) (join (m_content m))
        ++ map (call_item st) (m_calls m)).
Proof.
  intros Hc. unfold _message_output_items, text_field, text_item. simpl.
  exists (_new_reasoning_id hex 0), (_new_msg_id hex (if bool_decide (join (m_reasoning m) = "") then 0 else 1)).
  destruct (bool_decide (join (m_reasoning m) = "")), (bool_decide (join (m_content m) = "")); simpl;
    by rewrite full_calls.
Qed.
#[local] Arguments _usage_to_responses : simpl never.

Lemma feed_finish m u rs cs calls :
  m_finish m ∈ _RECOGNIZED_FINISH -> _usage_to_responses (m_usage m) = Ok u ->
  ends (feed (finish_chunk (m_finish m) (m_usage m))) (after_calls rs cs calls)
    (ended u (m_finish m) (after_calls rs cs calls)).
Proof.
  intros Hf Hu q.
  assert (usage (after_calls rs cs calls) = None) as Hn by (destruct calls; [destruct cs; [by destruct rs|done]|done]).
  pose proof (not_terminal rs cs calls) as Ht. exists q, [].
  unfold CodexStream.feed, finish_chunk, jget_null, on_choice. simpl. rewrite bool_decide_true by exact Hf.
  destruct (after_calls rs cs calls) as []; simpl in *; subst.
  destruct (m_usage m); rewrite ?Hu; try (injection Hu as <-); done.
Qed.

Lemma text_item_join mk fs :
  text_item mk (join fs) = match nonempty fs with [] => [] | gs => [mk (join gs)] end.
Proof.
  unfold text_item. case_bool_decide as E; [by apply join_nil in E as ->|].
  rewrite <- (join_nonempty fs). destruct (nonempty fs) eqn:E'; [by apply join_nil in E'|done].
Qed.

Lemma call_outputs_items st calls : forall n, map snd (call_outputs st n calls) = map (call_item st) calls.
Proof. induction calls as [|c calls IH]; intros n; [done|]. simpl. by rewrite IH. Qed.

(** The items of the stream are those of the message, when a status counts only if every
    item has it. *)
Lemma final_items b st rid mid rs cs calls :
  (b = true -> st = "completed") ->
  map (erase b) (map snd (final_output st (nonempty rs) (nonempty cs) calls))
  = map (erase b) (text_item (ReasoningItem rid st) (join rs) ++ text_item (MessageItem mid st) (join cs)
      ++ map (call_item st) calls).
Proof.
  intros Hb. rewrite !text_item_join. unfold final_output, closed_content, closed_reasoning.
  destruct calls as [|c calls]; rewrite ?map_app, ?call_outputs_items;
    destruct (nonempty rs) as [|r rs'], (nonempty cs) as [|x cs'];
    (destruct b; [rewrite (Hb eq_refl) in *|]); rewrite ?map_app; reflexivity.
Qed.

Lemma trim_items st calls : map (call_item st) (map trim calls) = map (call_item st) calls.
Proof. rewrite map_map. apply map_ext. intros c. unfold call_item, trim. simpl. by rewrite join_nonempty. Qed.

(** The object without what the two translations make up or see differently. *)
Definition erase_response (r : Response) : Response :=
  MkResponse (r_id r) (r_created_at r) (r_status r) (r_model r)
    (map (erase (bool_decide (r_status r = "completed"))) (r_output r))
    (r_metadata r) (r_usage r) (r_incomplete r) (r_error r).

Definition terminal_payload (r : Response) : Payload :=
  if bool_decide (r_status r = "incomplete") then Incomplete r else Completed r.

Lemma and_then_assoc a b c d x : (a &; b &; c &; d) x = ((a &; b &; c) &; d) x.
Proof.
  unfold and_then. destruct (a x) as [[s1 x1]|]; [|done]. simpl. destruct (b s1) as [[s2 x2]|]; [|done]. simpl.
  destruct (c s2) as [[s3 x3]|]; [|done]. simpl. destruct (d s3) as [[s4 x4]|]; [|done]. simpl. by rewrite !app_assoc.
Qed.

(** The object the stream ends in. *)
Definition final_object (m : Message) (u : option Usage) : Response :=
  let '(status, incomplete) := _finish_to_status (m_finish m) length_as_completed in
  _lean_object response_id model created_at metadata status
    (map snd (final_output (item_status_of status) (nonempty (m_reasoning m)) (nonempty (m_content m))
                (map trim (m_calls m)))) u incomplete None.

Lemma trim_names calls :
  Forall (fun c => k_id c <> "" /\ k_name c <> "") calls -> Forall (fun c => k_name c <> "") (map trim calls).
Proof. intros Hc. apply Forall_map. eapply Forall_impl; [exact Hc|]. by intros c [_ Hn]. Qed.

Lemma finalize_event m u q :
  Forall (fun c => k_id c <> "" /\ k_name c <> "") (m_calls m) ->
  exists s' evs e,
    finalize response_id model created_at metadata length_as_completed
      (with_seq q (ended u (m_finish m)
        (after_calls (nonempty (m_reasoning m)) (nonempty (m_content m)) (map trim (m_calls m))))) = Ok (s', evs ++ [e])
    /\ payload e = terminal_payload (final_object m u).
Proof.
  intros Hc%trim_names. unfold final_object.
  destruct (_finish_to_status (m_finish m) length_as_completed) as [st incomplete] eqn:Est.
  destruct (closing (item_status_of st) u (m_finish m) (nonempty (m_reasoning m)) (nonempty (m_content m)) _ Hc q)
    as (q1 & ys & E). unfold finalize. unfold look at 1.
  replace (default "" _) with (m_finish m) by done. rewrite Est. cbv zeta.
  rewrite and_then_assoc. eexists _, ys, _. split.
  - unfold and_then at 1. rewrite E. cbn -[final_output sort_by_oi]. unfold _sorted_output.
    cbn -[final_output sort_by_oi]. rewrite final_sorted. reflexivity.
  - cbn [payload]. unfold terminal_payload. cbn [r_status _lean_object]. destruct (bool_decide _); reflexivity.
Qed.

Lemma stream_end m u :
  m_finish m ∈ _RECOGNIZED_FINISH -> _usage_to_responses (m_usage m) = Ok u ->
  Forall (fun c => k_id c <> "" /\ k_name c <> "") (m_calls m) ->
  exists evs e,
    chat_stream_to_responses_events hex repr response_id model created_at metadata true length_as_completed namespace_map
      (stream_chunks m) = (evs ++ [e], None)
    /\ payload e = terminal_payload (final_object m u).
Proof.
  intros Hf Hu Hc.
  assert (feeds (stream_chunks m) init (ended u (m_finish m)
    (after_calls (nonempty (m_reasoning m)) (nonempty (m_content m)) (map trim (m_calls m))))) as Hfeeds.
  { unfold stream_chunks. eapply feeds_app; [apply (feeds_reasoning _ [])|].
    eapply feeds_app; [apply (feeds_content _ _ [])|]. eapply feeds_app; [apply (feeds_calls _ _ _ [] Hc)|].
    econstructor; [done|done|by apply feed_finish|constructor]. }
  destruct (feeds_loop _ [] _ _ Hfeeds 2) as (q' & xs & Eloop). rewrite app_nil_r in Eloop.
  destruct (finalize_event m u q' Hc) as (s' & evs & e & Efin & Hpay).
  unfold chat_stream_to_responses_events, and_then, created_event, in_progress_event, emit. cbn -[chunks_loop].
  match goal with |- context [CodexStream.chunks_loop _ _ _ _ _ _ _ _ _ _ ?s] => change s with (with_seq 2 init) end.
  rewrite Eloop. cbn [CodexStream.chunks_loop].
  change (terminal_seen _) with true. cbv iota. rewrite Efin.
  eexists (_ :: _ :: xs ++ evs), e. split; [|exact Hpay]. rewrite app_nil_r, app_comm_cons, app_assoc. reflexivity.
Qed.

#[local] Arguments _finish_to_status : simpl never.
#[local] Arguments _message_output_items : simpl never.

Lemma full_body m u now :
  m_finish m ∈ _RECOGNIZED_FINISH -> _usage_to_responses (m_usage m) = Ok u ->
  Forall (fun c => k_id c <> "" /\ k_name c <> "") (m_calls m) ->
  let '(status, incomplete) := _finish_to_status (m_finish m) length_as_completed in
  exists rid mid,
    chat_response_to_responses_body hex (full_response m) response_id model (Some created_at) metadata true
      length_as_completed namespace_map now
    = Ok (MkResponse response_id created_at status (JStr model)
        (text_item (ReasoningItem rid (item_status_of status)) (join (m_reasoning m))
         ++ text_item (MessageItem mid (item_status_of status)) (join (m_content m))
         ++ map (call_item (item_status_of status)) (m_calls m)) metadata u incomplete None).
Proof.
  intros Hf Hu Hc. destruct (_finish_to_status (m_finish m) length_as_completed) as [st incomplete] eqn:Est.
  destruct (full_items m (item_status_of st) Hc) as (rid & mid & Hitems). exists rid, mid.
  unfold chat_response_to_responses_body, full_response.
  simpl.
  rewrite (bool_decide_true (m_finish m ∈ _RECOGNIZED_FINISH)) by exact Hf. cbv iota.
  rewrite Est.
  match goal with |- context [_message_output_items _ ?j] => change j with
    (JObj [("role", JStr "assistant"); ("reasoning_content", JStr (join (m_reasoning m)));
           ("content", JStr (join (m_content m))); ("tool_calls", JArr (map full_call (m_calls m)))]) end.
  rewrite Hitems. simpl.
  match goal with |- context [_usage_to_responses ?j] => change j with (m_usage m) end.
  rewrite Hu. simpl.
  by case_bool_decide as E; [rewrite E|].
Qed.

(** C22. The two translations of a completion agree.  However a message is cut into
    fragments (reasoning, then text, then the calls, each announced before its arguments),
    streaming it ends in one terminal event, and the object it carries is the one the
    translation of the whole message returns: the same status, model, usage and reason, and
    the same items in the same order with the same text, calls and arguments.  Only the
    ids that are made up differ and, when the completion is cut short, the status of the
    items the stream had already closed. *)
Theorem stream_agrees_with_body m now :
  well_formed m ->
  exists evs e r r',
    chat_stream_to_responses_events hex repr response_id model created_at metadata true length_as_completed namespace_map
      (stream_chunks m) = (evs ++ [e], None)
    /\ payload e = terminal_payload r
    /\ chat_response_to_responses_body hex (full_response m) response_id model (Some created_at) metadata true
         length_as_completed namespace_map now = Ok r'
    /\ erase_response r = erase_response r'.
Proof.
  intros (Hf & Hc & u & Hu). destruct (stream_end m u Hf Hu Hc) as (evs & e & Eev & Hpay).
  pose proof (full_body m u now Hf Hu Hc) as Hbody. unfold final_object in Hpay.
  destruct (_finish_to_status (m_finish m) length_as_completed) as [st incomplete] eqn:Est.
  destruct Hbody as (rid & mid & Hbody). exists evs, e. eexists _, _. split; [exact Eev|].
  split; [exact Hpay|]. split; [exact Hbody|]. unfold erase_response. simpl. f_equal.
  rewrite (final_items _ _ rid mid), trim_items; [done|]. intros ->%bool_decide_eq_true. done.
Qed.
End parity.

(** A completion with reasoning, text and two calls, cut short by the token limit. *)
Definition sample : Message :=
  MkMessage ["Let me "; ""; "see."] ["Loo"; "king"]
    [MkCall "c1" "read" ["{"; "}"]; MkCall "c2" "search" []] "length"
    (JObj [("prompt_tokens", JInt 7); ("completion_tokens", JInt 5)]).

Lemma stream_agrees_with_body_witness :
  well_formed sample
  /\ exists evs e r r',
       chat_stream_to_responses_events (fun n => pretty n) (fun _ => "") "resp_1" "gpt" 1 [] true false
         [("search", "web")] (stream_chunks sample) = (evs ++ [e], None)
       /\ payload e = terminal_payload r
       /\ chat_response_to_responses_body (fun n => pretty n) (full_response sample) "resp_1" "gpt" (Some 1) [] true
            false [("search", "web")] 0 = Ok r'
       /\ erase_response r = erase_response r'.
Proof.
  assert (well_formed sample) as H.
  { split; [apply (bool_decide_unpack _); by vm_compute|]. split; [by repeat constructor|]. by eexists. }
  split; [exact H|]. apply stream_agrees_with_body, H.
Defined.

(** What it ends in: cut short, the stream has closed the reasoning and the text already,
    where the whole message has every item incomplete. *)
Example sample_statuses :
  let status item := match item with ReasoningItem _ s _ | MessageItem _ s _ | CallItem _ s _ _ _ _ => s end in
  match last (fst (chat_stream_to_responses_events (fun n => pretty n) (fun _ => "") "r" "m" 1 [] true false []
                (stream_chunks sample))),
        chat_response_to_responses_body (fun n => pretty n) (full_response sample) "r" "m" (Some 1) [] true false [] 0 with
  | Some (MkEvent (Incomplete r) _), Ok r' => (map status (r_output r), map status (r_output r'))
  | _, _ => ([], [])
  end = (["completed"; "completed"; "incomplete"; "incomplete"], ["incomplete"; "incomplete"; "incomplete"; "incomplete"]).
Proof. vm_compute. reflexivity. Qed.
