(* ===== verification/CodexRequest.v ===== *)
(** Responses requests as chat completion requests
    ([src/src/codex_responses_bridge/request.py], [system_norm.py], [reasoning_effort.py],
    [config.py]).

    A request is the JSON object of its body.  The messages built from its input are
    [Message]s; the history a caller passes is arbitrary JSON.  The text of an option or of
    a reasoning effort is ASCII where its case matters. *)

From S2P Require Import Prelude Json CodexResponse.

Notation refuse := (Err BridgeCapabilityError).

(** ** Configuration *)

(** [parse_csv(value)] *)
Fixpoint csv_items (parts : list string) (items : list string) : list string :=
  match parts with
  | [] => items
  | raw :: parts =>
      let item := strip raw in
      csv_items parts (if bool_decide (item = "") || bool_decide (item ∈ items) then items else items ++ [item])
  end.
Definition parse_csv (value : string) : list string := csv_items (split_char (Ascii.ascii_of_nat 44) value) [].

(** The getters, given the value of their variable. *)
Definition flatten_namespace_tools (raw : option string) : bool :=
  bool_decide (lower (strip (default "true" raw)) ∈ ["1"; "true"; "yes"; "on"]).

Definition reasoning_effort_levels (raw : option string) : option (list string) :=
  let raw := strip (default "low,medium,high" raw) in
  if bool_decide (raw = "*") then None
  else match parse_csv raw with [] => None | levels => Some (map lower levels) end.

Definition mid_system_policy (raw : option string) : string :=
  let policy := lower (strip (default "reject" raw)) in
  if bool_decide (policy = "") then "reject" else policy.

(** What a request is translated under; [model_regex] is whether a model name matches the
    pattern, [None] without one. *)
Record Config := MkConfig {
  flatten : bool;
  levels : option (list string);
  policy : string;
  model_regex : option (string -> bool);
}.

(** ** Fields *)

Definition Neutral := Json -> bool.
Definition falsy : Neutral := fun v => negb (truthy v).
Definition anything : Neutral := fun _ => true.
Definition is_null (v : Json) : bool := match v with JNull => true | _ => false end.

Definition _TRANSLATED_BODY_FIELDS : list string :=
  ["model"; "input"; "instructions"; "tools"; "tool_choice"; "text"; "reasoning"; "max_output_tokens";
   "temperature"; "top_p"; "parallel_tool_calls"; "metadata"; "stream"; "user"; "safety_identifier"].
Definition _CONSUMED_BODY_FIELDS : list (string * Neutral) :=
  [("store", falsy); ("include", falsy); ("stream_options", falsy);
   ("service_tier", fun v => is_null v || is_str v "auto" || is_str v "default");
   ("prompt_cache_key", anything); ("client_metadata", anything); ("access_programs", falsy);
   ("previous_response_id", is_null)].
Definition _TRANSLATED_REASONING_FIELDS : list string := ["effort"].
Definition _CONSUMED_REASONING_FIELDS : list (string * Neutral) :=
  [("summary", falsy); ("context", falsy); ("generate_summary", falsy)].
Definition _TRANSLATED_TEXT_FIELDS : list string := ["format"].
Definition _CONSUMED_TEXT_FIELDS : list (string * Neutral) :=
  [("verbosity", fun v => is_null v || is_str v "medium")].

(** One field of an object under the contract. *)
Definition field_ok (translated : list string) (consumed : list (string * Neutral)) (kv : string * Json) : bool :=
  bool_decide (fst kv ∈ translated)
  || match dict_get consumed (fst kv) with Some predicate => predicate (snd kv) | None => false end.

(** [_assert_field_contract(obj, kind, translated, consumed)] *)
Definition _assert_field_contract (obj : Json) (translated : list string) (consumed : list (string * Neutral))
    : result Exn unit :=
  match obj with
  | JObj d => if forallb (field_ok translated consumed) d then Ok tt else refuse
  | _ => Ok tt
  end.

(** ** Input *)

(** [_map_role(role)] *)
Definition _map_role (role : Json) : result Exn string :=
  match role with
  | JStr r =>
      if bool_decide (r = "developer") then Ok "system"
      else if bool_decide (r ∈ ["user"; "assistant"; "system"; "tool"]) then Ok r
      else refuse
  | _ => refuse
  end.

Inductive Part :=
| PText (text : string)
| PImage (url : Json) (detail : option Json).
Inductive Content := CText (text : string) | CParts (parts : list Part).

Definition part_json (p : Part) : Json :=
  match p with
  | PText t => JObj [("type", JStr "text"); ("text", JStr t)]
  | PImage url detail =>
      JObj [("type", JStr "image_url");
            ("image_url", JObj (("url", url) :: match detail with Some d => [("detail", d)] | None => [] end))]
  end.
Definition content_json (c : Content) : Json :=
  match c with CText t => JStr t | CParts ps => JArr (map part_json ps) end.

Definition is_text_type (t : Json) : bool :=
  is_str t "input_text" || is_str t "output_text" || is_str t "text".

(** One part of a message: what it adds to [text_parts] and to [multimodal]. *)
Definition content_part (part : Json) : result Exn (list string * list Part) :=
  if negb (is_dict part) then refuse
  else
    let ptype := jget_null part "type" in
    if is_text_type ptype then
      match jget_null part "text" with JStr t => Ok ([t], [PText t]) | _ => refuse end
    else if is_str ptype "input_image" then
      let url := jget_null part "image_url" in
      let url := if is_dict url then jget_null url "url" else url in
      if truthy url then
        let detail := jget_null part "detail" in
        Ok ([], [PImage url (if truthy detail && negb (is_str detail "original") then Some detail else None)])
      else refuse
    else if is_str ptype "refusal" then
      match jget_null part "refusal" with JStr t => Ok ([t], []) | _ => refuse end
    else refuse.

Fixpoint content_parts (parts : list Json) : result Exn (list string * list Part) :=
  match parts with
  | [] => Ok ([], [])
  | part :: parts =>
      let! (ts, ms) := content_part part in
      let! (ts', ms') := content_parts parts in
      Ok (ts ++ ts', ms ++ ms')
  end.

Definition is_image (p : Part) : bool := match p with PImage _ _ => true | PText _ => false end.

(** [_content_to_chat(content, role)] *)
Definition _content_to_chat (content : Json) : result Exn Content :=
  match content with
  | JNull => Ok (CText "")
  | JStr s => Ok (CText s)
  | JArr parts =>
      let! (texts, multimodal) := content_parts parts in
      Ok (if existsb is_image multimodal then CParts multimodal else CText (String.concat "" texts))
  | _ => refuse
  end.

Record ToolCall := MkToolCall { tc_id : string; tc_name : string; tc_arguments : string }.

(** A message of the translated input; it has [tool_calls] when there are some. *)
Inductive Message :=
| Said (role : string) (content : Content) (tool_calls : list ToolCall)
| ToolResult (call_id output : string).

Definition tool_call_json (tc : ToolCall) : Json :=
  JObj [("id", JStr (tc_id tc)); ("type", JStr "function");
        ("function", JObj [("name", JStr (tc_name tc)); ("arguments", JStr (tc_arguments tc))])].
Definition message_json (m : Message) : Json :=
  match m with
  | Said role content calls =>
      JObj ([("role", JStr role); ("content", content_json content)]
            ++ match calls with [] => [] | _ => [("tool_calls", JArr (map tool_call_json calls))] end)
  | ToolResult call_id output =>
      JObj [("role", JStr "tool"); ("tool_call_id", JStr call_id); ("content", JStr output)]
  end.

(** A string field that must be there and not empty. *)
Definition required (v : Json) (key : string) : result Exn string :=
  match nonempty_str (jget_null v key) with Some s => Ok s | None => refuse end.

(** The tool call of a [function_call] item. *)
Definition item_call (item : Json) : result Exn ToolCall :=
  let! name := required item "name" in
  let! call_id := required item "call_id" in
  match jget_null item "arguments" with
  | JStr args => Ok (MkToolCall call_id name args)
  | _ => refuse
  end.

Fixpoint output_texts (parts : list Json) : result Exn (list string) :=
  match parts with
  | [] => Ok []
  | p :: parts =>
      if negb (is_dict p) then refuse
      else if is_text_type (jget_null p "type") then
        match jget_null p "text" with
        | JStr t => let! ts := output_texts parts in Ok (t :: ts)
        | _ => refuse
        end
      else refuse
  end.

(** The output of a [function_call_output] item. *)
Definition item_output (item : Json) : result Exn (string * string) :=
  let! call_id := required item "call_id" in
  match default (JStr "") (jget item "output") with
  | JArr parts => let! ts := output_texts parts in Ok (call_id, String.concat "" ts)
  | JStr out => Ok (call_id, out)
  | _ => refuse
  end.

(** [messages[-1]] gets a tool call. *)
Fixpoint add_call (tc : ToolCall) (messages : list Message) : list Message :=
  match messages with
  | [] => []
  | [Said role content calls] => [Said role content (calls ++ [tc])]
  | m :: messages => m :: add_call tc messages
  end.

(** [messages[-1]] is an assistant message without [tool_calls]. *)
Definition toolless (messages : list Message) : bool :=
  match last messages with
  | Some (Said role _ []) => bool_decide (role = "assistant")
  | _ => false
  end.

(** The loop over the items.  [pending] is [messages[-1]] when it is not [None], so that
    a flag stands for it. *)
Fixpoint input_items (items : list Json) (messages : list Message) (pending : bool) : result Exn (list Message) :=
  match items with
  | [] => Ok messages
  | item :: items =>
      if negb (is_dict item) then refuse
      else
        let itype := jget_null item "type" in
        if is_null itype || is_str itype "message" then
          match jget item "role" with
          | None => refuse
          | Some role =>
              let! role := _map_role role in
              let! content := _content_to_chat (jget_null item "content") in
              input_items items (messages ++ [Said role content []]) false
          end
        else if is_str itype "function_call" then
          let! tc := item_call item in
          if pending || toolless messages then input_items items (add_call tc messages) true
          else input_items items (messages ++ [Said "assistant" (CText "") [tc]]) true
        else if is_str itype "function_call_output" then
          let! (call_id, out) := item_output item in
          input_items items (messages ++ [ToolResult call_id out]) false
        else refuse
  end.

(** [_input_to_messages(input_data)] *)
Definition _input_to_messages (input_data : Json) : result Exn (list Message) :=
  match input_data with
  | JStr s => Ok [Said "user" (CText s) []]
  | JArr items => input_items items [] false
  | _ => refuse
  end.

(** ** Tools *)

Definition _FUNCTION_TOOL_FIELDS : list string :=
  ["type"; "function"; "name"; "description"; "parameters"; "strict"; "defer_loading"].
Definition _FUNCTION_TOOL_INNER_FIELDS : list string := ["name"; "description"; "parameters"; "strict"].

(** Every key of an object is among [fields]. *)
Definition only_fields (v : Json) (fields : list string) : bool :=
  match v with JObj d => forallb (fun kv => bool_decide (fst kv ∈ fields)) d | _ => true end.

(** [_assert_function_tool_contract(t, source)] on an object *)
Definition _assert_function_tool_contract (t : Json) : result Exn unit :=
  if negb (only_fields t _FUNCTION_TOOL_FIELDS) then refuse
  else if truthy (jget_null t "defer_loading") then refuse
  else match jget_null t "function" with
       | JNull => Ok tt
       | JObj fn => if only_fields (JObj fn) _FUNCTION_TOOL_INNER_FIELDS then Ok tt else refuse
       | _ => refuse
       end.

(** A function of the chat request. *)
Record Function := MkFunction {
  f_name : Json;
  f_description : Json;
  f_parameters : Json;
  f_strict : option Json;
}.

Definition function_json (f : Function) : Json :=
  JObj [("type", JStr "function");
        ("function", JObj ([("name", f_name f); ("description", f_description f); ("parameters", f_parameters f)]
           ++ match f_strict f with Some s => [("strict", s)] | None => [] end))].

(** [_function_tool_to_chat(t)] on an object *)
Definition _function_tool_to_chat (t : Json) : option Function :=
  let nested := is_dict (jget_null t "function") in
  let fn := if nested then jget_null t "function" else t in
  if negb (truthy (jget_null fn "name")) then None
  else
    let strict := if nested then jget_null fn "strict" else JNull in
    let outer := jget_null t "strict" in
    Some (MkFunction (jget_null fn "name")
            (or_else (jget_null fn "description") (JStr "")) (or_else (jget_null fn "parameters") (JObj []))
            (match strict, outer with
             | JNull, JBool b => Some (JBool b)
             | JNull, _ => None
             | s, _ => Some s
             end)).

Record Tools := MkTools { chat_tools : list Function; namespace_map : list (Json * string); seen : list Json }.

(** [_emit(chat, source, namespace)] *)
Definition _emit (chat : option Function) (namespace : option string) (s : Tools) : result Exn Tools :=
  match chat with
  | None => refuse
  | Some f =>
      if negb (hashable (f_name f)) then Err TypeError
      else if existsb (same_key (f_name f)) (seen s) then refuse
      else Ok (MkTools (chat_tools s ++ [f])
                 (namespace_map s ++ match namespace with Some ns => [(f_name f, ns)] | None => [] end)
                 (seen s ++ [f_name f]))
  end.

(** One function: its contract, then its translation. *)
Definition emit_function (t : Json) (namespace : option string) (s : Tools) : result Exn Tools :=
  let! _ := _assert_function_tool_contract t in
  _emit (_function_tool_to_chat t) namespace s.

Fixpoint inner_tools (ns : string) (inner : list Json) (s : Tools) : result Exn Tools :=
  match inner with
  | [] => Ok s
  | t :: inner =>
      if negb (is_dict t) then refuse
      else if negb (is_str (jget_null t "type") "function") then refuse
      else
        let! s := emit_function t (Some ns) s in
        inner_tools ns inner s
  end.

(** [for inner in t.get("tools") or []]: the characters of a string and the keys of an
    object are no objects; a number is not iterable. *)
Definition namespace_tools (ns : string) (tools : Json) (s : Tools) : result Exn Tools :=
  if negb (truthy tools) then Ok s
  else match tools with
       | JArr inner => inner_tools ns inner s
       | JStr _ | JObj _ => refuse
       | _ => Err TypeError
       end.

Fixpoint top_tools (flatten : bool) (tools : list Json) (s : Tools) : result Exn Tools :=
  match tools with
  | [] => Ok s
  | t :: tools =>
      if negb (is_dict t) then refuse
      else
        let! s :=
          if is_str (jget_null t "type") "function" then emit_function t None s
          else if is_str (jget_null t "type") "namespace" then
            if negb flatten then refuse
            else
              let! ns := required t "name" in
              namespace_tools ns (jget_null t "tools") s
          else refuse in
        top_tools flatten tools s
  end.

(** [_translate_tools(tools)] *)
Definition _translate_tools (flatten : bool) (tools : Json) : result Exn Tools :=
  match tools with
  | JNull => Ok (MkTools [] [] [])
  | JArr ts => top_tools flatten ts (MkTools [] [] [])
  | _ => refuse
  end.

(** [namespace_map_from_tools(tools)], on the names a call can have. *)
Definition namespace_map_from_tools (flatten : bool) (tools : Json) : result Exn (odict string string) :=
  let! s := _translate_tools flatten tools in
  Ok (omap (fun kv => match fst kv with JStr n => Some (n, snd kv) | _ => None end) (namespace_map s)).

(** ** Constraints *)

Inductive Choice := Mode (mode : string) | Named (name : Json).

Definition choice_json (c : Choice) : Json :=
  match c with
  | Mode m => JStr m
  | Named n => JObj [("type", JStr "function"); ("function", JObj [("name", n)])]
  end.

Definition MODES : list string := ["auto"; "none"; "required"].

(** The name of a function choice. *)
Definition choice_name (tc : Json) : result Exn Json :=
  let name := jget_null tc "name" in
  if truthy name then Ok name
  else
    let fn := jget_null tc "function" in
    if negb (truthy fn) then Ok JNull
    else if is_dict fn then Ok (jget_null fn "name") else Err AttributeError.

(** [_tool_choice_to_chat(tc)] *)
Definition _tool_choice_to_chat (tc : Json) : result Exn (option Choice) :=
  match tc with
  | JNull => Ok None
  | JStr m => if bool_decide (m ∈ MODES) then Ok (Some (Mode m)) else refuse
  | JObj _ =>
      match jget_null tc "type" with
      | JStr t =>
          if bool_decide (t = "function") then
            let! name := choice_name tc in
            if truthy name then Ok (Some (Named name)) else refuse
          else if bool_decide (t ∈ MODES) then Ok (Some (Mode t)) else refuse
      | _ => refuse
      end
  | _ => refuse
  end.

(** A key of an object, kept as it is when it is there. *)
Definition kept (v : Json) (key : string) : list (string * Json) :=
  match jget v key with Some x => [(key, x)] | None => [] end.

(** [_text_format_to_response_format(text)] *)
Definition _text_format_to_response_format (text : Json) : result Exn (option Json) :=
  match text with
  | JNull => Ok None
  | JObj _ =>
      let! _ := _assert_field_contract text _TRANSLATED_TEXT_FIELDS _CONSUMED_TEXT_FIELDS in
      match jget_null text "format" with
      | JNull => Ok None
      | JObj d =>
          let fmt := JObj d in
          let ftype := jget_null fmt "type" in
          if is_str ftype "text" then Ok None
          else if is_str ftype "json_object" then Ok (Some (JObj [("type", JStr "json_object")]))
          else if is_str ftype "json_schema" then
            Ok (Some (JObj [("type", JStr "json_schema");
                            ("json_schema", JObj (("name", jget_null fmt "name") :: kept fmt "schema" ++ kept fmt "strict"))]))
          else refuse
      | _ => refuse
      end
  | _ => refuse
  end.

Definition EFFORT_LADDER : list string :=
  ["none"; "minimal"; "low"; "medium"; "high"; "xhigh"; "max"; "ultra"].

(** [EFFORT_LADDER.index(lvl)] *)
Fixpoint ladder_index (lvl : string) (ladder : list string) : Z :=
  match ladder with
  | [] => 0
  | l :: ladder => if bool_decide (l = lvl) then 0 else 1 + ladder_index lvl ladder
  end.
Definition rung (lvl : string) : Z := ladder_index lvl EFFORT_LADDER.

(** [min(candidates, key=...)]: the first of the least. *)
Fixpoint min_by (key : string -> Z) (best : string) (candidates : list string) : string :=
  match candidates with
  | [] => best
  | c :: candidates => min_by key (if key c <? key best then c else best) candidates
  end.

(** [clamp_reasoning_effort(value, allowed)] *)
Definition clamp_reasoning_effort (value : Json) (allowed : option (list string)) : option string :=
  match value with
  | JStr v =>
      let normalized := lower (strip v) in
      if bool_decide (normalized = "") then None
      else match allowed with
           | None => Some normalized
           | Some allowed =>
               if bool_decide (normalized ∈ allowed) then Some normalized
               else if bool_decide (normalized ∈ EFFORT_LADDER) then
                 match filter (fun lvl => lvl ∈ allowed) EFFORT_LADDER with
                 | [] => None
                 | c :: candidates => Some (min_by (fun lvl => Z.abs (rung lvl - rung normalized)) c candidates)
                 end
               else None
           end
  | _ => None
  end.

(** ** System messages *)

Definition _is_system (message : Json) : bool := is_str (jget_null message "role") "system".

Definition text_of_part (part : Json) : option string :=
  if is_str (jget_null part "type") "text" then
    match jget_null part "text" with JStr t => Some t | _ => None end
  else None.

(** [_content_text(content)] *)
Definition _content_text (content : Json) : string :=
  match content with
  | JStr s => s
  | JArr parts => String.concat "" (omap text_of_part parts)
  | _ => ""
  end.

Definition blank_line : string := let nl := Ascii.ascii_of_nat 10 in String nl (String nl EmptyString).

(** [_merge_texts(texts)] *)
Definition _merge_texts (texts : list string) : string :=
  String.concat blank_line (filter (fun t => t <> "") texts).

Definition system_text (message : Json) : string := _content_text (jget_null message "content").

(** [_needs_system_rewrite(messages)] *)
Definition _needs_system_rewrite (messages : list Json) : bool := existsb _is_system (tail messages).

(** [_hoist(messages)] *)
Definition _hoist (messages : list Json) : list Json :=
  match filter (fun m => _is_system m = true) messages with
  | [] => messages
  | systems =>
      JObj [("role", JStr "system"); ("content", JStr (_merge_texts (map system_text systems)))]
      :: filter (fun m => _is_system m = false) messages
  end.

(** The leading run of system messages, and the rest. *)
Fixpoint head_run (messages : list Json) : list Json * list Json :=
  match messages with
  | m :: rest => if _is_system m then let (run, tail) := head_run rest in (m :: run, tail) else ([], messages)
  | [] => ([], [])
  end.

Definition demoted (message : Json) : Json :=
  if _is_system message then jset message "role" (JStr "user") else message.

(** [_demote_to_user(messages)] *)
Definition _demote_to_user (messages : list Json) : list Json :=
  let (run, tail) := head_run messages in
  if (length run <=? 1)%nat && negb (existsb _is_system tail) then messages
  else
    match run with
    | [] => []
    | m :: _ => [jset m "content" (JStr (_merge_texts (map system_text run)))]
    end ++ map demoted tail.

(** [normalize_system_messages(messages, policy, model, model_pattern)] *)
Definition normalize_system_messages (messages : list Json) (policy : string) (model : Json)
    (model_pattern : option (string -> bool)) : result Exn (list Json) :=
  let gated :=
    match model_pattern with
    | None => true
    | Some search => match model with JStr m => search m | _ => false end
    end in
  if negb gated then Ok messages
  else if bool_decide (policy = "asis") || match messages with [] => true | _ => false end then Ok messages
  else if bool_decide (policy = "hoist") then Ok (_hoist messages)
  else if bool_decide (policy = "user") then Ok (_demote_to_user messages)
  else if _needs_system_rewrite messages then refuse
  else Ok messages.

(** ** The request *)

(** [if key in body and body[key] is not None: out[name] = body[key]] *)
Definition forwarded (body : Json) (key name : string) (out : odict string Json) : odict string Json :=
  if is_null (jget_null body key) then out else dict_set out name (jget_null body key).

Definition put_stream (body : Json) (out : odict string Json) : odict string Json :=
  match jget body "stream" with Some v => dict_set out "stream" (JBool (truthy v)) | None => out end.
Definition put_effort (effort : option string) (out : odict string Json) : odict string Json :=
  match effort with
  | Some e => dict_set (dict_set out "reasoning_effort" (JStr e)) "allowed_openai_params" (JArr [JStr "reasoning_effort"])
  | None => out
  end.
Definition put_user (body : Json) (out : odict string Json) : odict string Json :=
  let user := or_else (jget_null body "user") (jget_null body "safety_identifier") in
  if truthy user then dict_set out "user" user else out.
Definition put_format (rf : option Json) (out : odict string Json) : odict string Json :=
  match rf with Some f => dict_set out "response_format" f | None => out end.
Definition put_stream_options (out : odict string Json) : odict string Json :=
  match dict_get out "stream" with
  | Some (JBool true) => dict_set out "stream_options" (JObj [("include_usage", JBool true)])
  | _ => out
  end.

(** The history, the instructions and the input. *)
Definition body_messages (body : Json) (prior_messages : list Json) : result Exn (list Json) :=
  let instructions := jget_null body "instructions" in
  let said := JObj [("role", JStr "system"); ("content", instructions)] in
  let before :=
    match prior_messages with
    | [] => if truthy instructions then [said] else []
    | _ => prior_messages ++ if truthy instructions then [said] else []
    end in
  let! input := _input_to_messages (default (JArr []) (jget body "input")) in
  Ok (before ++ map message_json input).

(** [reasoning]: the effort to send. *)
Definition body_effort (cfg : Config) (reasoning : Json) : result Exn (option string) :=
  match reasoning with
  | JNull => Ok None
  | JObj _ =>
      let! _ := _assert_field_contract reasoning _TRANSLATED_REASONING_FIELDS _CONSUMED_REASONING_FIELDS in
      if truthy (jget_null reasoning "effort") then
        match clamp_reasoning_effort (jget_null reasoning "effort") (levels cfg) with
        | Some effort => Ok (Some effort)
        | None => refuse
        end
      else Ok None
  | _ => refuse
  end.

(** The choice must name a function of the request. *)
Definition choice_bound (tools : list Function) (tc : option Choice) : result Exn unit :=
  match tc with
  | Some (Named name) =>
      if negb (hashable name) then Err TypeError
      else if existsb (fun f => same_key name (f_name f)) tools then Ok tt else refuse
  | _ => Ok tt
  end.

(** The tools and the choice in the request. *)
Definition put_tools (tools : list Function) (tc : option Choice) (out : odict string Json)
    : result Exn (odict string Json) :=
  match tools with
  | [] =>
      match tc with
      | None => Ok (dict_del out "parallel_tool_calls")
      | Some (Mode m) =>
          if bool_decide (m ∈ ["auto"; "none"]) then Ok (dict_del out "parallel_tool_calls") else refuse
      | Some (Named _) => refuse
      end
  | _ =>
      let! _ := choice_bound tools tc in
      let out := dict_set out "tools" (JArr (map function_json tools)) in
      Ok (match tc with Some c => dict_set out "tool_choice" (choice_json c) | None => out end)
  end.

(** [responses_request_to_chat_body(body, prior_messages)] *)
Definition responses_request_to_chat_body (cfg : Config) (body : Json) (prior_messages : list Json)
    : result Exn (odict string Json) :=
  let! _ := _assert_field_contract body _TRANSLATED_BODY_FIELDS _CONSUMED_BODY_FIELDS in
  if negb (is_dict body) then Err AttributeError
  else if negb (is_null (jget_null body "previous_response_id")) then refuse
  else
    let out := forwarded body "model" "model" [] in
    let! messages := body_messages body prior_messages in
    let! messages :=
      normalize_system_messages messages (policy cfg) (default JNull (dict_get out "model")) (model_regex cfg) in
    let out := dict_set out "messages" (JArr messages) in
    let out := forwarded body "max_output_tokens" "max_completion_tokens" out in
    let out := forwarded body "temperature" "temperature" out in
    let out := forwarded body "top_p" "top_p" out in
    let out := forwarded body "parallel_tool_calls" "parallel_tool_calls" out in
    let out := forwarded body "metadata" "metadata" out in
    let out := put_stream body out in
    let! effort := body_effort cfg (jget_null body "reasoning") in
    let out := put_user body (put_effort effort out) in
    let! tools := _translate_tools (flatten cfg) (jget_null body "tools") in
    let! tc := _tool_choice_to_chat (jget_null body "tool_choice") in
    let! out := put_tools (chat_tools tools) tc out in
    let! rf := _text_format_to_response_format (jget_null body "text") in
    Ok (put_stream_options (put_format rf out)).

(** A request with every kind of thing. *)
Definition default_config : Config := MkConfig true (Some ["low"; "medium"; "high"]) "reject" None.

Definition sample_request : Json :=
  JObj [("model", JStr "gpt"); ("instructions", JStr "Be brief."); ("store", JBool false); ("stream", JBool true);
        ("input", JArr [
          JObj [("role", JStr "user"); ("content", JArr [JObj [("type", JStr "input_text"); ("text", JStr "Hi")]])];
          JObj [("type", JStr "message"); ("role", JStr "assistant"); ("content", JStr "Looking.")];
          JObj [("type", JStr "function_call"); ("name", JStr "read"); ("call_id", JStr "c1"); ("arguments", JStr "{}")];
          JObj [("type", JStr "function_call"); ("name", JStr "find"); ("call_id", JStr "c2"); ("arguments", JStr "{}")];
          JObj [("type", JStr "function_call_output"); ("call_id", JStr "c1"); ("output", JStr "ok")];
          JObj [("type", JStr "function_call"); ("name", JStr "read"); ("call_id", JStr "c3"); ("arguments", JStr "{}")]]);
        ("tools", JArr [
          JObj [("type", JStr "function"); ("name", JStr "read"); ("strict", JBool true)];
          JObj [("type", JStr "namespace"); ("name", JStr "web");
                ("tools", JArr [JObj [("type", JStr "function"); ("function", JObj [("name", JStr "find")])]])]]);
        ("tool_choice", JObj [("type", JStr "function"); ("name", JStr "find")]);
        ("reasoning", JObj [("effort", JStr "XHigh ")])].

Example sample_chat_body :
  responses_request_to_chat_body default_config sample_request []
  = Ok [("model", JStr "gpt");
        ("messages", JArr [
          JObj [("role", JStr "system"); ("content", JStr "Be brief.")];
          JObj [("role", JStr "user"); ("content", JStr "Hi")];
          message_json (Said "assistant" (CText "Looking.") [MkToolCall "c1" "read" "{}"; MkToolCall "c2" "find" "{}"]);
          message_json (ToolResult "c1" "ok");
          message_json (Said "assistant" (CText "") [MkToolCall "c3" "read" "{}"])]);
        ("stream", JBool true); ("reasoning_effort", JStr "high"); ("allowed_openai_params", JArr [JStr "reasoning_effort"]);
        ("tools", JArr [function_json (MkFunction (JStr "read") (JStr "") (JObj []) (Some (JBool true)));
                        function_json (MkFunction (JStr "find") (JStr "") (JObj []) None)]);
        ("tool_choice", choice_json (Named (JStr "find")));
        ("stream_options", JObj [("include_usage", JBool true)])].
Proof. vm_compute. reflexivity. Qed.
