(* ===== verification/CodexRequestLaws.v ===== *)
(** What the translation of Responses requests ([CodexRequest]) promises: the input is
    grouped as the chat contract wants it and nothing of it is lost; a call comes back under
    the namespace its function was declared in; system messages end up where strict
    templates take them; a field is translated, inert or refused; a choice of tool is kept. *)

From S2P Require Import Prelude Json CodexResponse CodexRequest.

(** ** Input *)

Inductive Item :=
| IMessage (role : string) (content : Content)
| ICall (tc : ToolCall)
| IOutput (call_id output : string).

(** One input item. *)
Definition item_of (item : Json) : result Exn Item :=
  if negb (is_dict item) then refuse
  else
    let itype := jget_null item "type" in
    if is_null itype || is_str itype "message" then
      match jget item "role" with
      | None => refuse
      | Some role =>
          let! role := _map_role role in
          let! content := _content_to_chat (jget_null item "content") in
          Ok (IMessage role content)
      end
    else if is_str itype "function_call" then let! tc := item_call item in Ok (ICall tc)
    else if is_str itype "function_call_output" then
      let! (call_id, out) := item_output item in Ok (IOutput call_id out)
    else refuse.

Fixpoint items_of (items : list Json) : result Exn (list Item) :=
  match items with
  | [] => Ok []
  | item :: items =>
      let! i := item_of item in
      let! l := items_of items in
      Ok (i :: l)
  end.

(** A message with the calls that go with it, a run of calls without one, a result. *)
Inductive Block :=
| BMessage (role : string) (content : Content) (calls : list ToolCall)
| BCalls (calls : list ToolCall)
| BOutput (call_id output : string).

(** Runs of calls; one after an assistant message goes with that message. *)
Fixpoint group (l : list Item) : list Block :=
  match l with
  | [] => []
  | ICall tc :: l => match group l with BCalls tcs :: g => BCalls (tc :: tcs) :: g | g => BCalls [tc] :: g end
  | IMessage role content :: l =>
      match group l with
      | BCalls tcs :: g =>
          if bool_decide (role = "assistant") then BMessage role content tcs :: g
          else BMessage role content [] :: BCalls tcs :: g
      | g => BMessage role content [] :: g
      end
  | IOutput call_id out :: l => BOutput call_id out :: group l
  end.

Definition block_message (b : Block) : Message :=
  match b with
  | BMessage role content calls => Said role content calls
  | BCalls calls => Said "assistant" (CText "") calls
  | BOutput call_id out => ToolResult call_id out
  end.

Definition block_items (b : Block) : list Item :=
  match b with
  | BMessage role content calls => IMessage role content :: map ICall calls
  | BCalls calls => map ICall calls
  | BOutput call_id out => [IOutput call_id out]
  end.

(** Calls that could go with what is before them do. *)
Definition takes_calls (b : Block) : bool :=
  match b with BMessage role _ _ => bool_decide (role = "assistant") | BCalls _ => true | BOutput _ _ => false end.
Fixpoint grouped (g : list Block) : bool :=
  match g with
  | b :: (BCalls _ :: _) as g' => negb (takes_calls b) && grouped g'
  | _ :: g' => grouped g'
  | [] => true
  end.

Lemma group_items l : concat (map block_items (group l)) = l.
Proof.
  induction l as [|i l IH]; [done|]. destruct i as [role content|tc|call_id out]; cbn [group].
  - destruct (group l) as [|[]]; simpl in *; try (by rewrite IH). case_bool_decide; simpl; by rewrite IH.
  - destruct (group l) as [|[]]; simpl in *; by rewrite IH.
  - simpl. by rewrite IH.
Qed.

Lemma group_grouped l : grouped (group l) = true.
Proof.
  induction l as [|i l IH]; [done|]. destruct i as [role content|tc|call_id out]; cbn [group].
  - destruct (group l) as [|[| |] g]; try exact IH. case_bool_decide as E.
    + cbn [grouped] in IH. destruct g as [|[]]; try exact IH. simpl in *. b2p. done.
    + cbn [grouped takes_calls]. by rewrite (bool_decide_false _ E).
  - by destruct (group l) as [|[| |] g].
  - cbn [grouped]. by destruct (group l) as [|[]].
Qed.

(** The blocks added to the messages already there. *)
Definition attach (messages : list Message) (pending : bool) (g : list Block) : list Message :=
  match g with
  | BCalls tcs :: g' =>
      if pending || toolless messages then foldl (fun ms tc => add_call tc ms) messages tcs ++ map block_message g'
      else messages ++ map block_message g
  | _ => messages ++ map block_message g
  end.

Lemma add_call_last ms role content calls tc :
  add_call tc (ms ++ [Said role content calls]) = ms ++ [Said role content (calls ++ [tc])].
Proof.
  induction ms as [|m ms IH]; [done|]. simpl. rewrite <- IH.
  destruct (ms ++ [Said role content calls]) eqn:E; [by destruct ms|]. by destruct m.
Qed.

Lemma add_calls_last tcs : forall ms role content calls,
  foldl (fun ms tc => add_call tc ms) (ms ++ [Said role content calls]) tcs = ms ++ [Said role content (calls ++ tcs)].
Proof.
  induction tcs as [|tc tcs IH]; intros ms role content calls; simpl; [by rewrite app_nil_r|].
  rewrite add_call_last, IH. by rewrite <- app_assoc.
Qed.

Definition pending_ok (messages : list Message) (pending : bool) : Prop :=
  pending || toolless messages = true -> exists ms role content calls, messages = ms ++ [Said role content calls].

Lemma pending_said ms role content calls pending : pending_ok (ms ++ [Said role content calls]) pending.
Proof. intros _. by exists ms, role, content, calls. Qed.

Lemma toolless_snoc ms role content calls :
  toolless (ms ++ [Said role content calls])
  = match calls with [] => bool_decide (role = "assistant") | _ => false end.
Proof. unfold toolless. by rewrite last_snoc. Qed.

Lemma input_items_attach items : forall messages pending,
  pending_ok messages pending ->
  input_items items messages pending = let! l := items_of items in Ok (attach messages pending (group l)).
Proof.
  induction items as [|item items IH]; intros messages pending Hp; [by simpl; rewrite app_nil_r|].
  cbn [input_items items_of]. unfold item_of. destruct (negb (is_dict item)); [done|].
  destruct (is_null _ || is_str _ "message").
  - destruct (jget item "role") as [role|]; [|done]. destruct (_map_role role) as [role'|]; [|done]. simpl.
    destruct (_content_to_chat _) as [content|]; [|done]. simpl. rewrite IH by apply pending_said.
    destruct (items_of items) as [l|]; [|done]. simpl. f_equal. unfold attach at 1.
    rewrite toolless_snoc. simpl.
    destruct (group l) as [|[| |] g]; try (simpl; by rewrite <- app_assoc).
    case_bool_decide; simpl; [by rewrite add_calls_last, <- app_assoc|by rewrite <- app_assoc].
  - destruct (is_str _ "function_call").
    + destruct (item_call item) as [tc|]; [|done]. simpl. destruct (pending || toolless messages) eqn:Ep.
      * destruct (Hp Ep) as (ms & role & content & calls & ->). rewrite add_call_last, IH by apply pending_said.
        destruct (items_of items) as [l|]; [|done]. simpl. f_equal. unfold attach.
        destruct (group l) as [|[| |] g]; simpl; rewrite Ep; simpl; rewrite ?add_call_last; simpl; by rewrite ?app_nil_r.
      * rewrite IH by apply pending_said. destruct (items_of items) as [l|]; [|done]. simpl. f_equal. unfold attach.
        destruct (group l) as [|[| |] g]; simpl; rewrite Ep; simpl; rewrite ?add_calls_last; simpl; by rewrite <- ?app_assoc.
    + destruct (is_str _ "function_call_output"); [|done]. destruct (item_output item) as [[call_id out]|]; [|done]. simpl.
      rewrite IH; [|intros H; simpl in H; unfold toolless in H; by rewrite last_snoc in H].
      destruct (items_of items) as [l|]; [|done]. simpl. f_equal. unfold attach at 1. simpl. unfold toolless.
      rewrite last_snoc. destruct (group l) as [|[| |] g]; simpl; by rewrite <- app_assoc.
Qed.

(** The input is grouped, and nothing of it is lost.  The one-pass loop with its pending
    message makes the messages of the reference grouping: each run of calls is one assistant
    message, that of the assistant message right before it if there is one; laid out again the
    messages give the items in order, and an input is refused exactly when an item is. *)
Theorem input_is_grouped items :
  _input_to_messages (JArr items) = (let! l := items_of items in Ok (map block_message (group l)))
  /\ forall l, items_of items = Ok l ->
     concat (map block_items (group l)) = l /\ grouped (group l) = true.
Proof.
  split; [|intros l _; split; [apply group_items|apply group_grouped]].
  simpl. rewrite input_items_attach by done. destruct (items_of items) as [l|]; [|done]. simpl. f_equal.
  unfold attach. by destruct (group l) as [|[]].
Qed.

(** ** Tools *)

(** The functions a request declares, each with the name of its namespace. *)
Definition tool_name (t : Json) : Json :=
  match _function_tool_to_chat t with Some f => f_name f | None => JNull end.
Definition declared_by (t : Json) : list (Json * option string) :=
  if is_str (jget_null t "type") "namespace" then
    match jget_null t "name", jget_null t "tools" with
    | JStr ns, JArr inner => map (fun i => (tool_name i, Some ns)) inner
    | _, _ => []
    end
  else [(tool_name t, None)].
Definition declared (tools : Json) : list (Json * option string) :=
  match tools with JArr ts => concat (map declared_by ts) | _ => [] end.

Inductive distinct : list Json -> Prop :=
| distinct_nil : distinct []
| distinct_snoc l v : distinct l -> existsb (same_key v) l = false -> distinct (l ++ [v]).

(** The state has taken [ds] in. *)
Record took (ds : list (Json * option string)) (s : Tools) : Prop := {
  tk_names : map f_name (chat_tools s) = map fst ds;
  tk_seen : seen s = map fst ds;
  tk_map : namespace_map s = omap (fun d => match snd d with Some ns => Some (fst d, ns) | None => None end) ds;
  tk_distinct : distinct (map fst ds);
  tk_named : Forall (fun d => truthy (fst d) = true /\ snd d <> Some "") ds;
}.

Lemma took_function t namespace ds s s' :
  namespace <> Some "" -> took ds s -> emit_function t namespace s = Ok s' -> took (ds ++ [(tool_name t, namespace)]) s'.
Proof.
  intros Hne [H1 H2 H3 H4 H5] H. unfold emit_function, _emit, tool_name in *.
  destruct (_assert_function_tool_contract t); [|done]. simpl in H.
  destruct (_function_tool_to_chat t) as [f|] eqn:Ef; [|done]. destruct (hashable (f_name f)); [|done]. simpl in H.
  destruct (existsb _ _) eqn:E; [done|]. injection H as <-.
  split; cbn [chat_tools seen namespace_map]; rewrite ?map_app, ?omap_app, ?H1, ?H2, ?H3; try done.
  - by destruct namespace.
  - apply distinct_snoc; [done|]. by rewrite <- H2.
  - apply Forall_app. split; [done|]. repeat constructor; [|done]. simpl. unfold _function_tool_to_chat in Ef.
    destruct (truthy (jget_null (if is_dict (jget_null t "function") then jget_null t "function" else t) "name")) eqn:Et;
      [|done]. simpl in Ef. by injection Ef as <-.
Qed.

Lemma took_inner ns inner : ns <> "" -> forall ds s s',
  took ds s -> inner_tools ns inner s = Ok s' -> took (ds ++ map (fun i => (tool_name i, Some ns)) inner) s'.
Proof.
  intros Hns. induction inner as [|t inner IH]; intros ds s s' Ht H; simpl in H; [injection H as <-; by rewrite app_nil_r|].
  destruct (negb (is_dict t)); [done|]. destruct (negb _); [done|].
  destruct (emit_function t (Some ns) s) as [s1|] eqn:E; [|done]. simpl in H.
  assert (Some ns <> Some "") as Hne by congruence.
  specialize (IH _ _ _ (took_function _ _ _ _ _ Hne Ht E) H). by rewrite <- app_assoc in IH.
Qed.

Lemma is_str_ne v a b : is_str v a = true -> a <> b -> is_str v b = false.
Proof. destruct v; try done. simpl. intros ->%bool_decide_eq_true Hne. by apply bool_decide_eq_false. Qed.

Lemma required_str v key s : required v key = Ok s -> jget_null v key = JStr s /\ s <> "".
Proof.
  unfold required, nonempty_str. destruct (jget_null v key); try done. case_bool_decide; [done|]. by intros [= <-].
Qed.

Lemma took_top flatten tools : forall ds s s',
  took ds s -> top_tools flatten tools s = Ok s' -> took (ds ++ concat (map declared_by tools)) s'.
Proof.
  induction tools as [|t tools IH]; intros ds s s' Ht H; simpl in H; [injection H as <-; by rewrite app_nil_r|].
  destruct (negb (is_dict t)); [done|]. simpl. rewrite app_assoc. unfold declared_by at 1.
  destruct (is_str (jget_null t "type") "function") eqn:Ef.
  - rewrite (is_str_ne _ _ "namespace" Ef) by done.
    destruct (emit_function t None s) as [s1|] eqn:E; [|done]. simpl in H. by eapply IH; [eapply took_function|].
  - destruct (is_str (jget_null t "type") "namespace"); [|done]. destruct (negb flatten); [done|].
    destruct (required t "name") as [ns|] eqn:En; [|done]. apply required_str in En as [En Hns]. rewrite En. simpl in H.
    unfold namespace_tools in H. destruct (truthy (jget_null t "tools")) eqn:Etr; simpl in H.
    + destruct (jget_null t "tools") as [| | | | |inner|]; try done.
      destruct (inner_tools ns inner s) as [s1|] eqn:Ei; [|done]. simpl in H. by eapply IH; [eapply took_inner|].
    + assert (match jget_null t "tools" with JArr inner => map (fun i => (tool_name i, Some ns)) inner | _ => [] end = []) as ->
        by (by destruct (jget_null t "tools") as [| | | | |[]|]).
      rewrite app_nil_r. by eapply IH.
Qed.

Lemma took_all flatten tools s : _translate_tools flatten tools = Ok s -> took (declared tools) s.
Proof.
  assert (took [] (MkTools [] [] [])) as H0 by (split; try done; constructor).
  unfold _translate_tools, declared. destruct tools as [| | | | |ts|]; try done; [by intros [= <-]|].
  apply (took_top flatten ts [] _ _ H0).
Qed.

(** [1] and [true] are one key, but strings are only equal to themselves. *)
Lemma distinct_string (ds : list (Json * option string)) n : distinct (map fst ds) ->
  forall o o', (JStr n, o) ∈ ds -> (JStr n, o') ∈ ds -> o = o'.
Proof.
  intros Hd. remember (map fst ds) as l eqn:El. revert ds El. induction Hd as [|l v Hl IH Hv]; intros ds El o o' H1 H2.
  - symmetry in El. apply map_eq_nil in El as ->. by apply elem_of_nil in H1.
  - destruct ds as [|[w x] ds _] using rev_ind; [by destruct l|]. rewrite map_app in El. simpl in El.
    apply app_inj_tail in El as [-> ->].
    assert (forall y, (JStr n, y) ∈ ds -> w = JStr n -> False) as Hno.
    { intros y Hy ->. assert (existsb (same_key (JStr n)) (map fst ds) = true); [|congruence].
      apply existsb_exists. exists (JStr n). split; [|by apply bool_decide_eq_true].
      apply list_elem_of_In. by apply (list_elem_of_fmap_2 fst ds (JStr n, y)). }
    apply elem_of_app in H1, H2. rewrite !list_elem_of_singleton in H1, H2.
    destruct H1 as [H1|H1], H2 as [H2|H2]; [by eapply IH| | |congruence].
    + injection H2 as H2 _. by destruct (Hno _ H1).
    + injection H1 as H1 _. by destruct (Hno _ H2).
Qed.

Definition string_keys (m : list (Json * string)) : odict string string :=
  omap (fun kv => match fst kv with JStr n => Some (n, snd kv) | _ => None end) m.

Definition mapped (ds : list (Json * option string)) : list (Json * string) :=
  omap (fun d => match snd d with Some ns => Some (fst d, ns) | None => None end) ds.

Lemma unmapped n ds : (forall ns : string, (JStr n, Some ns) ∉ ds) -> dict_get (string_keys (mapped ds)) n = None.
Proof.
  induction ds as [|[v x] ds IH]; intros Hn; [done|].
  assert (dict_get (string_keys (mapped ds)) n = None) as H by (apply IH; intros ns Hns; apply (Hn ns); set_solver).
  destruct x as [ns|]; [|exact H]. destruct v as [| | | |m| |]; try exact H.
  change (dict_get ((m, ns) :: string_keys (mapped ds)) n = None). simpl. rewrite decide_False; [done|].
  intros ->. apply (Hn ns). set_solver.
Qed.

Lemma mapped_to n ns ds :
  (forall o', (JStr n, o') ∈ ds -> o' = Some ns) -> (JStr n, Some ns) ∈ ds ->
  dict_get (string_keys (mapped ds)) n = Some ns.
Proof.
  induction ds as [|[v x] ds IH]; intros Hu Hin; [by apply elem_of_nil in Hin|].
  apply elem_of_cons in Hin as [[= <- <-]|Hin].
  - change (dict_get ((n, ns) :: string_keys (mapped ds)) n = Some ns). simpl. by rewrite decide_True.
  - assert (dict_get (string_keys (mapped ds)) n = Some ns) as H by (apply IH; [|done]; intros o' Ho'; apply Hu; set_solver).
    destruct x as [ns'|]; [|exact H]. destruct v as [| | | |m| |]; try exact H.
    change (dict_get ((m, ns') :: string_keys (mapped ds)) n = Some ns). simpl. case_decide as E; [|exact H].
    subst. symmetry. rewrite <- (Hu (Some ns')); [done|]. set_solver.
Qed.

(** A call comes back under the namespace its function was declared in.  When the tools
    of a request are accepted, the chat request has exactly the declared functions, in
    order, no two of one name; and when the model calls one of them by its name, the
    translation of the answer, given the map the request yields, makes the call under the
    namespace of that declaration, or under none if it had none. *)
Theorem namespaces_come_back flatten tools s :
  _translate_tools flatten tools = Ok s ->
  map f_name (chat_tools s) = map fst (declared tools) /\ distinct (map fst (declared tools))
  /\ exists m, namespace_map_from_tools flatten tools = Ok m
     /\ forall n o, (JStr n, o) ∈ declared tools -> forall hex id args st k, id <> "" ->
        _function_call_item hex
          (JObj [("id", JStr id); ("type", JStr "function");
                 ("function", JObj [("name", JStr n); ("arguments", JStr args)])]) st m k
        = Ok (CallItem (String.append "fc_" id) st id n args o, k).
Proof.
  intros H. destruct (took_all _ _ _ H) as [H1 H2 H3 H4 H5]. split; [done|]. split; [done|].
  exists (string_keys (mapped (declared tools))). split; [unfold namespace_map_from_tools; rewrite H; simpl; by rewrite H3|].
  intros n o Hin hex id args st k Hid. rewrite Forall_forall in H5. destruct (H5 _ Hin) as [Hn Hns]. simpl in Hn, Hns.
  b2p.
  unfold _function_call_item, foreign_type, upstream_id, nonempty_str. simpl.
  rewrite !bool_decide_false by done. simpl. do 3 f_equal. unfold _ns_for. rewrite bool_decide_false by done.
  pose proof (distinct_string _ n H4) as Hu. destruct o as [ns|].
  - rewrite (mapped_to n ns); [|intros o' Ho'; by eapply Hu|done]. by rewrite bool_decide_false by congruence.
  - by rewrite unmapped by (intros ns Hin'; by specialize (Hu _ _ Hin Hin')).
Qed.

(** ** System messages *)

Definition systems (messages : list Json) : list Json := filter (fun m => _is_system m = true) messages.
Definition others (messages : list Json) : list Json := filter (fun m => _is_system m = false) messages.
Definition instructions (messages : list Json) : string := _merge_texts (map system_text messages).

Lemma merge_one t : _merge_texts [t] = t.
Proof. by destruct t. Qed.

Lemma no_systems l : existsb _is_system l = false -> systems l = [].
Proof.
  induction l as [|m l IH]; [done|]. simpl. intros H. apply orb_false_iff in H as [H1 H2].
  unfold systems. rewrite filter_cons_False by (by rewrite H1). by apply IH.
Qed.

Lemma others_no_system l : existsb _is_system (others l) = false.
Proof.
  unfold others. induction l as [|m l IH]; [done|]. rewrite filter_cons. case_decide as E; [|done]. simpl. by rewrite E.
Qed.

Lemma systems_others l : systems (others l) = [].
Proof. apply no_systems, others_no_system. Qed.

Lemma others_others l : others (others l) = others l.
Proof. apply list_filter_filter_l. done. Qed.

Lemma demoted_not_system m : _is_system (demoted m) = false.
Proof.
  unfold demoted. destruct (_is_system m) eqn:E; [|done]. destruct m as [| | | | | |d]; try done.
  unfold _is_system, jget_null. by rewrite jget_jset_eq.
Qed.

Lemma demoted_none l : existsb _is_system (map demoted l) = false.
Proof. induction l as [|m l IH]; [done|]. simpl. by rewrite demoted_not_system. Qed.

Lemma demoted_same l : existsb _is_system l = false -> map demoted l = l.
Proof.
  induction l as [|m l IH]; [done|]. simpl. intros H. apply orb_false_iff in H as [H1 H2].
  unfold demoted at 1. rewrite H1. by rewrite IH.
Qed.

Lemma head_run_none l : existsb _is_system l = false -> head_run l = ([], l).
Proof. destruct l as [|m l]; [done|]. simpl. intros H. apply orb_false_iff in H as [-> _]. done. Qed.

Lemma head_run_app l : let (run, tail) := head_run l in l = run ++ tail /\ Forall (fun m => _is_system m = true) run.
Proof.
  induction l as [|m l IH]; [done|]. simpl. destruct (_is_system m) eqn:E; [|done].
  destruct (head_run l) as [run tail]. destruct IH as [-> IH]. split; [done|]. by constructor.
Qed.

Lemma merged_head m t : _is_system m = true ->
  _is_system (jset m "content" (JStr t)) = true /\ system_text (jset m "content" (JStr t)) = t.
Proof.
  intros H. destruct m as [| | | | | |d]; try done. split.
  - unfold _is_system, jget_null in *. by rewrite jget_jset_ne.
  - unfold system_text, jget_null. by rewrite jget_jset_eq.
Qed.

(** What moving system messages has to give. *)
Record placed (policy : string) (messages out : list Json) : Prop := {
  pl_front : _needs_system_rewrite out = false;
  pl_hoist : policy <> "user" -> others out = others messages /\ instructions (systems out) = instructions (systems messages);
  pl_user : policy = "user" ->
    let (run, tail) := head_run messages in
    exists head, out = head ++ map demoted tail /\ (length head <= 1)%nat /\ instructions head = instructions run;
}.

Lemma hoist_placed policy l : policy <> "user" -> placed policy l (_hoist l) /\ _hoist (_hoist l) = _hoist l.
Proof.
  intros Hp. unfold _hoist. change (filter (fun m => _is_system m = true) l) with (systems l).
  change (filter (fun m => _is_system m = false) l) with (others l). destruct (systems l) as [|m ms] eqn:E.
  - change (filter (fun m => _is_system m = true) l) with (systems l). rewrite E. split; [|done]. split; [|done|done].
    unfold _needs_system_rewrite. destruct (existsb _is_system (tail l)) eqn:Et; [|done].
    apply existsb_exists in Et as (x & Hx & Hs). apply list_elem_of_In in Hx.
    assert (x ∈ systems l) as Hin by (unfold systems; apply list_elem_of_filter; split; [done|]; destruct l; set_solver).
    rewrite E in Hin. by apply elem_of_nil in Hin.
  - set (head := JObj _). assert (_is_system head = true) as Hh by done.
    assert (system_text head = instructions (m :: ms)) as Ht by done.
    assert (filter (fun x => _is_system x = true) (head :: others l) = [head]) as Hs.
    { rewrite filter_cons_True by done. f_equal. apply systems_others. }
    assert (filter (fun x => _is_system x = false) (head :: others l) = others l) as Ho.
    { rewrite filter_cons_False by (by rewrite Hh). apply others_others. }
    rewrite Hs, Ho. split.
    + split; [apply others_no_system| |done]. intros _. split; [exact Ho|]. rewrite E. unfold systems. rewrite Hs.
      unfold instructions at 1. simpl map. rewrite Ht. apply merge_one.
    + f_equal. simpl map. by rewrite Ht, merge_one.
Qed.

Lemma demote_placed l : placed "user" l (_demote_to_user l) /\ _demote_to_user (_demote_to_user l) = _demote_to_user l.
Proof.
  unfold _demote_to_user at 1 3 4. pose proof (head_run_app l) as Hl. destruct (head_run l) as [run tail] eqn:E.
  destruct Hl as [-> Hr]. destruct ((length run <=? 1)%nat && negb (existsb _is_system tail)) eqn:Ec.
  - apply andb_true_iff in Ec as [Ec%Nat.leb_le Ht%negb_true_iff]. split.
    + split; [|done|].
      * unfold _needs_system_rewrite. destruct run as [|m [|]]; simpl in *; [|done|lia]. by destruct tail; [|apply orb_false_iff in Ht as [_ Ht]].
      * intros _. rewrite E. exists run. by rewrite demoted_same.
    + unfold _demote_to_user. rewrite E. by rewrite (proj2 (Nat.leb_le _ _) Ec), Ht.
  - set (head := match run with [] => [] | m :: _ => [jset m "content" (JStr (instructions run))] end).
    change (match run with [] => [] | m :: _ => [jset m "content" (JStr (_merge_texts (map system_text run)))] end) with head.
    assert ((length head <= 1)%nat /\ instructions head = instructions run
      /\ head_run (head ++ map demoted tail) = (head, map demoted tail)) as (H1 & H2 & H3).
    { destruct run as [|m run]; [split_and!; [simpl; lia|done|]; apply head_run_none, demoted_none|].
      apply Forall_cons in Hr as [Hm _]. destruct (merged_head m (instructions (m :: run)) Hm) as [M1 M2].
      split_and!; [simpl; lia| |].
      - subst head. unfold instructions at 1. simpl map. rewrite M2. apply merge_one.
      - subst head. simpl. by rewrite M1, head_run_none by apply demoted_none. }
    split.
    + split; [|done|].
      * unfold _needs_system_rewrite. destruct head as [|h [|]]; simpl in *; [|by rewrite demoted_none|lia].
        destruct tail; [done|]. apply demoted_none.
      * intros _. rewrite E. by exists head.
    + unfold _demote_to_user. rewrite H3. by rewrite (proj2 (Nat.leb_le _ _) H1), demoted_none.
Qed.

(** Moving system messages keeps what they say.  Whatever the policy, translating twice is
    translating once; and when the model is gated and the policy is not to pass them through,
    no system message is left behind the first place, the other messages stay as they were and
    in order, and the text of the instructions is kept: all of it in front, or, under the
    policy [user], that of the leading run in front and each later one in its place. *)
Theorem system_messages_placed messages policy model search out :
  normalize_system_messages messages policy model (Some search) = Ok out ->
  normalize_system_messages out policy model (Some search) = Ok out
  /\ ((exists m, model = JStr m /\ search m = true) -> policy <> "asis" -> placed policy messages out)
  /\ ((forall m, model = JStr m -> search m = false) \/ policy = "asis" -> out = messages).
Proof.
  unfold normalize_system_messages. set (gated := match model with JStr m => search m | _ => false end).
  assert ((exists m, model = JStr m /\ search m = true) <-> gated = true) as Hg.
  { subst gated. split; [by intros (m & -> & ?)|]. destruct model; try done. eauto. }
  assert ((forall m, model = JStr m -> search m = false) <-> gated = false) as Hng.
  { subst gated. destruct model; split; try done; [auto|by intros ? ? [= <-]]. }
  rewrite Hg, Hng. clearbody gated. destruct gated; simpl; [|intros [= <-]; naive_solver].
  destruct (bool_decide (policy = "asis")) eqn:Ea; simpl; [apply bool_decide_eq_true in Ea; intros [= <-]; naive_solver|].
  apply bool_decide_eq_false in Ea. destruct messages as [|x messages].
  { intros [= <-]. split_and!; [done| |naive_solver]. intros _ _. split; [done..|]. intros _. exists []. split_and!; [done|simpl; lia|done]. }
  case_bool_decide as Eh; [|case_bool_decide as Eu].
  - intros [= <-]. destruct (hoist_placed policy (x :: messages)) as [H1 H2]; [by subst|].
    split_and!; [|done|naive_solver]. by rewrite H2; destruct (_hoist _).
  - intros [= <-]. destruct (demote_placed (x :: messages)) as [H1 H2]. subst policy.
    split_and!; [|done|naive_solver]. by rewrite H2; destruct (_demote_to_user _).
  - destruct (_needs_system_rewrite _) eqn:En; [done|]. intros [= <-]. rewrite En. split_and!; [done| |naive_solver].
    intros _ _. by split.
Qed.

(** ** Fields *)

Definition translated (kv : string * Json) : bool := bool_decide (fst kv ∈ _TRANSLATED_BODY_FIELDS).
Definition translated_only (d : list (string * Json)) : list (string * Json) :=
  filter (fun kv => translated kv = true) d.

Lemma translated_get d key : bool_decide (key ∈ _TRANSLATED_BODY_FIELDS) = true ->
  jget (JObj (translated_only d)) key = jget (JObj d) key.
Proof.
  intros Hk. apply bool_decide_eq_true in Hk. unfold translated_only. induction d as [|[k v] d IH]; [done|].
  assert (dict_get (filter (fun kv => translated kv = true) d) key = dict_get d key) as IH' by exact IH.
  rewrite filter_cons. case_decide as E; cbn [jget dict_get]; case_decide as E2; try done.
  subst. destruct E. by apply bool_decide_eq_true.
Qed.

Lemma translated_ok d : forallb (field_ok _TRANSLATED_BODY_FIELDS _CONSUMED_BODY_FIELDS) (translated_only d) = true.
Proof.
  apply forallb_forall. intros kv Hin%list_elem_of_In. apply list_elem_of_filter in Hin as [H _].
  unfold field_ok. unfold translated in H. by rewrite H.
Qed.

(** A field that is not translated has its neutral value. *)
Lemma consumed_neutral d key v : forallb (field_ok _TRANSLATED_BODY_FIELDS _CONSUMED_BODY_FIELDS) d = true ->
  jget (JObj d) key = Some v -> field_ok _TRANSLATED_BODY_FIELDS _CONSUMED_BODY_FIELDS (key, v) = true.
Proof. intros H Hg. rewrite forallb_forall in H. apply H, list_elem_of_In. by apply dict_get_elem. Qed.

Lemma no_previous d : forallb (field_ok _TRANSLATED_BODY_FIELDS _CONSUMED_BODY_FIELDS) d = true ->
  jget_null (JObj d) "previous_response_id" = JNull.
Proof.
  intros H. unfold jget_null. destruct (jget (JObj d) "previous_response_id") as [v|] eqn:E; [|done].
  pose proof (consumed_neutral _ _ _ H E) as Hok. by destruct v.
Qed.

(** The translation reads the translated fields only. *)
Lemma reads_translated cfg d d' prior :
  (forall key, bool_decide (key ∈ _TRANSLATED_BODY_FIELDS) = true -> jget (JObj d') key = jget (JObj d) key) ->
  forallb (field_ok _TRANSLATED_BODY_FIELDS _CONSUMED_BODY_FIELDS) d = true ->
  forallb (field_ok _TRANSLATED_BODY_FIELDS _CONSUMED_BODY_FIELDS) d' = true ->
  responses_request_to_chat_body cfg (JObj d') prior = responses_request_to_chat_body cfg (JObj d) prior.
Proof.
  intros H Hd Hd'. unfold responses_request_to_chat_body, _assert_field_contract.
  rewrite Hd, Hd', !no_previous by done. cbn [result_bind is_dict negb is_null].
  assert (forall key, bool_decide (key ∈ _TRANSLATED_BODY_FIELDS) = true ->
    jget_null (JObj d') key = jget_null (JObj d) key) as Hn by (intros; unfold jget_null; by rewrite H).
  unfold forwarded, put_stream, put_user, body_messages. rewrite !Hn by reflexivity. by rewrite !H by reflexivity.
Qed.

(** C0. No field is dropped silently.  A request is refused as soon as one of its fields is
    neither translated nor at its neutral value; otherwise the fields that are not
    translated have no effect: the request translates as it would without them. *)
Theorem fields_are_accounted_for cfg d prior :
  responses_request_to_chat_body cfg (JObj d) prior
  = if forallb (field_ok _TRANSLATED_BODY_FIELDS _CONSUMED_BODY_FIELDS) d
    then responses_request_to_chat_body cfg (JObj (translated_only d)) prior
    else refuse.
Proof.
  destruct (forallb _ d) eqn:E.
  - symmetry. apply reads_translated; [apply translated_get|done|apply translated_ok].
  - unfold responses_request_to_chat_body, _assert_field_contract. by rewrite E.
Qed.

(** ** The request sent *)

Definition given (body : Json) (key : string) : option Json :=
  if is_null (jget_null body key) then None else Some (jget_null body key).

(** What an accepted request is made of. *)
Record Parts := MkParts {
  pa_messages : list Json;
  pa_effort : option string;
  pa_tools : list Function;
  pa_choice : option Choice;
  pa_format : option Json;
}.

Definition has_tools (p : Parts) : bool := match pa_tools p with [] => false | _ => true end.
Definition streams (body : Json) : bool := match jget body "stream" with Some v => truthy v | None => false end.

(** The value sent under each key, in the order of the code. *)
Definition sent (body : Json) (p : Parts) : list (string * option Json) :=
  [("model", given body "model");
   ("messages", Some (JArr (pa_messages p)));
   ("max_completion_tokens", given body "max_output_tokens");
   ("temperature", given body "temperature");
   ("top_p", given body "top_p");
   ("parallel_tool_calls", if has_tools p then given body "parallel_tool_calls" else None);
   ("metadata", given body "metadata");
   ("stream", match jget body "stream" with Some v => Some (JBool (truthy v)) | None => None end);
   ("reasoning_effort", match pa_effort p with Some e => Some (JStr e) | None => None end);
   ("allowed_openai_params", match pa_effort p with Some _ => Some (JArr [JStr "reasoning_effort"]) | None => None end);
   ("user", let user := or_else (jget_null body "user") (jget_null body "safety_identifier") in
            if truthy user then Some user else None);
   ("tools", if has_tools p then Some (JArr (map function_json (pa_tools p))) else None);
   ("tool_choice", if has_tools p then match pa_choice p with Some c => Some (choice_json c) | None => None end else None);
   ("response_format", pa_format p);
   ("stream_options", if streams body then Some (JObj [("include_usage", JBool true)]) else None)].

(** A choice can be met by [fs]. *)
Definition met (fs : list Function) (tc : option Choice) : Prop :=
  (forall n, tc = Some (Named n) -> exists f, f ∈ fs /\ same_key n (f_name f) = true)
  /\ (tc = Some (Mode "required") -> fs <> []).

(** The parts are those of the request, and the choice can be met. *)
Record parts_of (cfg : Config) (body : Json) (prior : list Json) (p : Parts) : Prop := {
  po_messages : (let! ms := body_messages body prior in
                 normalize_system_messages ms (policy cfg) (default JNull (given body "model")) (model_regex cfg))
                = Ok (pa_messages p);
  po_effort : body_effort cfg (jget_null body "reasoning") = Ok (pa_effort p);
  po_tools : exists s, _translate_tools (flatten cfg) (jget_null body "tools") = Ok s /\ chat_tools s = pa_tools p;
  po_choice : _tool_choice_to_chat (jget_null body "tool_choice") = Ok (pa_choice p);
  po_format : _text_format_to_response_format (jget_null body "text") = Ok (pa_format p);
  po_met : met (pa_tools p) (pa_choice p);
}.

(** Setting some of the keys, as the code does one by one. *)
Definition put (out : odict string Json) (kv : string * option Json) : odict string Json :=
  match snd kv with Some v => dict_set out (fst kv) v | None => out end.

Lemma forwarded_put body key name out : forwarded body key name out = put out (name, given body key).
Proof. unfold forwarded, put, given. simpl. by destruct (is_null _). Qed.

(** The keys that have a value, with it. *)
Definition present (kvs : list (string * option Json)) : odict string Json :=
  omap (fun kv => match snd kv with Some v => Some (fst kv, v) | None => None end) kvs.

Lemma puts_present kvs : forall out, NoDup (map fst kvs) -> (forall k, k ∈ map fst kvs -> k ∉ dict_keys out) ->
  foldl put out kvs = out ++ present kvs.
Proof.
  induction kvs as [|[k [v|]] kvs IH]; intros out Hn Ho; [by rewrite app_nil_r| |];
    apply NoDup_cons in Hn as [Hk Hn]; cbn [foldl]; unfold put at 2; cbn [snd fst].
  - rewrite dict_set_new by (apply dict_get_None, Ho; left). rewrite IH; [by rewrite <- app_assoc|done|].
    intros k' Hk'. unfold dict_keys. rewrite map_app. simpl. rewrite not_elem_of_app, list_elem_of_singleton.
    split; [apply Ho; by right|]. by intros ->.
  - rewrite IH; [done|done|]. intros k' Hk'. apply Ho. by right.
Qed.

Lemma put_get out name o key :
  dict_get (put out (name, o)) key
  = if decide (name = key) then match o with Some v => Some v | None => dict_get out key end else dict_get out key.
Proof. unfold put. simpl. destruct o; [rewrite dict_get_set|]; by case_decide. Qed.

Lemma choice_mode tc m : _tool_choice_to_chat tc = Ok (Some (Mode m)) -> m ∈ MODES.
Proof.
  unfold _tool_choice_to_chat. destruct tc as [| | | |s| |d]; try done.
  - case_bool_decide; [|done]. by intros [= <-].
  - destruct (jget_null (JObj d) "type") as [| | | |t| |]; try done. case_bool_decide.
    + destruct (choice_name (JObj d)) as [name|]; [|done]. simpl. by destruct (truthy name).
    + case_bool_decide; [|done]. by intros [= <-].
Qed.

Lemma same_key_hashable a b : same_key a b = true -> hashable a = true.
Proof. by destruct a. Qed.

Definition with_tools (fs : list Function) (tc : option Choice) (out : odict string Json) : odict string Json :=
  match fs with
  | [] => dict_del out "parallel_tool_calls"
  | _ => put (put out ("tools", Some (JArr (map function_json fs))))
             ("tool_choice", match tc with Some c => Some (choice_json c) | None => None end)
  end.

Lemma put_tools_met fs tc out : met fs tc -> (forall m, tc = Some (Mode m) -> m ∈ MODES) ->
  put_tools fs tc out = Ok (with_tools fs tc out).
Proof.
  intros [Hn Hr] Hm. unfold put_tools, with_tools. destruct fs as [|f fs].
  - destruct tc as [[m|n]|]; [|by destruct (Hn n eq_refl) as (f & Hf%elem_of_nil & _)|done].
    rewrite bool_decide_true; [done|]. specialize (Hm m eq_refl).
    destruct (decide (m = "required")) as [->|]; [by destruct Hr|]. unfold MODES in Hm. set_solver.
  - assert (choice_bound (f :: fs) tc = Ok tt) as ->; [|by destruct tc].
    destruct tc as [[m|n]|]; [done| |done]. destruct (Hn n eq_refl) as (f' & Hf & Hs). unfold choice_bound.
    rewrite (same_key_hashable _ _ Hs). simpl negb. rewrite (proj2 (existsb_exists _ (f :: fs))); [done|].
    exists f'. split; [by apply list_elem_of_In|done].
Qed.

Lemma put_tools_ok fs tc out out' : put_tools fs tc out = Ok out' -> met fs tc.
Proof.
  unfold put_tools, met. destruct fs as [|f fs].
  - destruct tc as [[m|n]|]; try done. case_bool_decide as E; [|done]. intros _. split; [done|]. intros [= ->].
    set_solver.
  - destruct tc as [[m|n]|]; try done. unfold choice_bound. destruct (hashable n); [|done]. simpl negb.
    cbn match. destruct (existsb _ _) eqn:E; [|done]. intros _. split; [|done]. intros n' [= <-].
    apply existsb_exists in E as (f' & Hf & Hs). exists f'. split; [by apply list_elem_of_In|done].
Qed.

(** The keys set before the tools. *)
Definition sent_first (body : Json) (p : Parts) : list (string * option Json) :=
  [("model", given body "model");
   ("messages", Some (JArr (pa_messages p)));
   ("max_completion_tokens", given body "max_output_tokens");
   ("temperature", given body "temperature");
   ("top_p", given body "top_p");
   ("parallel_tool_calls", given body "parallel_tool_calls");
   ("metadata", given body "metadata");
   ("stream", match jget body "stream" with Some v => Some (JBool (truthy v)) | None => None end);
   ("reasoning_effort", match pa_effort p with Some e => Some (JStr e) | None => None end);
   ("allowed_openai_params", match pa_effort p with Some _ => Some (JArr [JStr "reasoning_effort"]) | None => None end);
   ("user", let user := or_else (jget_null body "user") (jget_null body "safety_identifier") in
            if truthy user then Some user else None)].

Definition sent_last (body : Json) (p : Parts) : list (string * option Json) :=
  [("response_format", pa_format p);
   ("stream_options", if streams body then Some (JObj [("include_usage", JBool true)]) else None)].

Lemma puts_new kvs : bool_decide (NoDup (map fst kvs)) = true -> foldl put [] kvs = present kvs.
Proof. intros H%bool_decide_eq_true. rewrite puts_present; [done|done|]. intros k _ H'. by apply elem_of_nil in H'. Qed.

Lemma present_cons k o kvs :
  present ((k, o) :: kvs) = match o with Some v => (k, v) :: present kvs | None => present kvs end.
Proof. by destruct o. Qed.

Lemma present_del kvs key :
  bool_decide (NoDup (map fst kvs)) = true ->
  dict_del (present kvs) key = present (map (fun kv => (fst kv, if bool_decide (fst kv = key) then None else snd kv)) kvs).
Proof.
  intros Hn%bool_decide_eq_true. induction kvs as [|[k o] kvs IH]; [done|]. apply NoDup_cons in Hn as [Hk Hn].
  simpl map. rewrite !present_cons. specialize (IH Hn). case_bool_decide as E.
  - subst k. assert (present kvs = present (map (fun kv => (fst kv, if bool_decide (fst kv = key) then None else snd kv)) kvs)) as H.
    { f_equal. clear -Hk. induction kvs as [|[k o'] kvs IH]; [done|]. simpl in *. apply not_elem_of_cons in Hk as [H1 H2].
      rewrite bool_decide_false by congruence. by rewrite <- IH. }
    destruct o; [|by rewrite IH]. simpl. by rewrite decide_True.
  - destruct o; [|done]. simpl. rewrite decide_False by congruence. by rewrite IH.
Qed.

Lemma with_tools_sent body p :
  with_tools (pa_tools p) (pa_choice p) (foldl put [] (sent_first body p)) = foldl put [] (take 13 (sent body p)).
Proof.
  unfold with_tools. destruct (pa_tools p) as [|f fs] eqn:E.
  - rewrite !puts_new by reflexivity. rewrite present_del by reflexivity. unfold sent, has_tools. by rewrite E.
  - unfold sent, has_tools. by rewrite E.
Qed.

(** Keys put once have the value they were put with. *)
Lemma puts_get kvs : forall out key, NoDup (map fst kvs) ->
  dict_get (foldl put out kvs) key
  = match dict_get kvs key with Some (Some v) => Some v | _ => dict_get out key end.
Proof.
  induction kvs as [|[k o] kvs IH]; intros out key Hn; [done|]. apply NoDup_cons in Hn as [Hk Hn].
  simpl foldl. rewrite IH by done. rewrite put_get. simpl. destruct (decide (key = k)) as [->|E].
  - assert (dict_get kvs k = None) as -> by (by apply dict_get_None). by rewrite decide_True by done.
  - by rewrite decide_False by congruence.
Qed.

Lemma sent_streams body p : dict_get (foldl put [] (take 14 (sent body p))) "stream"
  = match jget body "stream" with Some v => Some (JBool (truthy v)) | None => None end.
Proof.
  rewrite puts_get by (by apply (bool_decide_eq_true_1 _)). cbn. by destruct (jget body "stream").
Qed.

Lemma put_stream_put body out : put_stream body out
  = put out ("stream", match jget body "stream" with Some v => Some (JBool (truthy v)) | None => None end).
Proof. unfold put_stream, put. by destruct (jget body "stream"). Qed.

Lemma put_effort_put effort out : put_effort effort out
  = put (put out ("reasoning_effort", match effort with Some e => Some (JStr e) | None => None end))
      ("allowed_openai_params", match effort with Some _ => Some (JArr [JStr "reasoning_effort"]) | None => None end).
Proof. by destruct effort. Qed.

Lemma put_user_put body out : put_user body out
  = put out ("user", let user := or_else (jget_null body "user") (jget_null body "safety_identifier") in
                     if truthy user then Some user else None).
Proof. unfold put_user, put. simpl. by destruct (truthy _). Qed.

Lemma put_format_put rf out : put_format rf out = put out ("response_format", rf).
Proof. by destruct rf. Qed.

(** Streaming is told from the request sent. *)
Lemma put_last body p :
  put_stream_options (put_format (pa_format p) (foldl put [] (take 13 (sent body p)))) = foldl put [] (sent body p).
Proof.
  rewrite put_format_put. change (put (foldl put [] (take 13 (sent body p))) ("response_format", pa_format p))
    with (foldl put [] (take 14 (sent body p))).
  unfold put_stream_options. rewrite sent_streams.
  change (foldl put [] (sent body p)) with (put (foldl put [] (take 14 (sent body p)))
    ("stream_options", if streams body then Some (JObj [("include_usage", JBool true)]) else None)).
  unfold streams. destruct (jget body "stream") as [v|]; [|done]. by destruct (truthy v).
Qed.

Lemma sent_parts cfg d prior p :
  forallb (field_ok _TRANSLATED_BODY_FIELDS _CONSUMED_BODY_FIELDS) d = true -> parts_of cfg (JObj d) prior p ->
  responses_request_to_chat_body cfg (JObj d) prior = Ok (present (sent (JObj d) p)).
Proof.
  intros Hd [Hm He (s & Ht & Hs) Hc Hf Hmet]. unfold responses_request_to_chat_body, _assert_field_contract.
  rewrite Hd, no_previous by done. cbn [result_bind is_dict negb is_null]. rewrite !forwarded_put.
  destruct (body_messages (JObj d) prior) as [ms|]; [|done]. cbn [result_bind] in Hm |- *.
  rewrite put_get, decide_True by done.
  replace (match given (JObj d) "model" with Some v => Some v | None => dict_get [] "model" end)
    with (given (JObj d) "model") by by destruct (given _ _).
  rewrite Hm, He. cbn [result_bind]. rewrite Ht, Hc. cbn [result_bind].
  rewrite Hs, put_tools_met; [|done|intros m Em; eapply choice_mode; rewrite <- Em; exact Hc]. cbn [result_bind]. rewrite Hf. cbn [result_bind].
  rewrite !forwarded_put, put_stream_put, put_effort_put, put_user_put.
  change (dict_set ?o "messages" ?v) with (put o ("messages", Some v)).
  match goal with |- context [with_tools _ _ ?o] => change o with (foldl put [] (sent_first (JObj d) p)) end.
  rewrite with_tools_sent, put_last, puts_new by reflexivity. done.
Qed.

Lemma accepted_parts cfg d prior out :
  responses_request_to_chat_body cfg (JObj d) prior = Ok out ->
  forallb (field_ok _TRANSLATED_BODY_FIELDS _CONSUMED_BODY_FIELDS) d = true /\ exists p, parts_of cfg (JObj d) prior p.
Proof.
  unfold responses_request_to_chat_body, _assert_field_contract.
  destruct (forallb _ d) eqn:Hd; [|done]. cbn [result_bind is_dict negb]. destruct (negb _); [done|].
  rewrite forwarded_put. intros H. split; [done|].
  destruct (body_messages (JObj d) prior) as [ms|] eqn:Hb; [|done]. cbn [result_bind] in H.
  rewrite put_get, decide_True in H by done.
  replace (match given (JObj d) "model" with Some v => Some v | None => dict_get [] "model" end)
    with (given (JObj d) "model") in H by by destruct (given _ _).
  destruct (normalize_system_messages _ _ _ _) as [ms'|] eqn:Hn; [|done]. cbn [result_bind] in H.
  destruct (body_effort _ _) as [effort|] eqn:He; [|done]. cbn [result_bind] in H.
  destruct (_translate_tools _ _) as [tools|] eqn:Ht; [|done]. cbn [result_bind] in H.
  destruct (_tool_choice_to_chat _) as [tc|] eqn:Hc; [|done]. cbn [result_bind] in H.
  destruct (put_tools _ _ _) as [out'|] eqn:Hp; [|done]. cbn [result_bind] in H.
  destruct (_text_format_to_response_format _) as [rf|] eqn:Hf; [|done].
  exists (MkParts ms' effort (chat_tools tools) tc rf).
  split; simpl; [by rewrite Hb|done|by exists tools|done|done|by eapply put_tools_ok].
Qed.

(** C23. What is accepted and what is sent.  A request is accepted exactly when its fields meet
    the contract, each of its parts translates, and its tool choice can be met by the
    functions it declares; the chat request then has exactly the keys given, in the order of
    the code: the messages, the functions and the choice, the effort, the format, and the
    forwarded parameters, with [parallel_tool_calls] only beside functions and usage asked
    for when the request streams. *)
Theorem accepted_request_sent cfg d prior out :
  responses_request_to_chat_body cfg (JObj d) prior = Ok out
  <-> forallb (field_ok _TRANSLATED_BODY_FIELDS _CONSUMED_BODY_FIELDS) d = true
      /\ exists p, parts_of cfg (JObj d) prior p /\ out = present (sent (JObj d) p).
Proof.
  split.
  - intros H. destruct (accepted_parts _ _ _ _ H) as [Hd [p Hp]]. split; [done|]. exists p. split; [done|].
    rewrite (sent_parts _ _ _ _ Hd Hp) in H. congruence.
  - intros [Hd (p & Hp & ->)]. by apply sent_parts.
Qed.

(** ** Reasoning effort *)

Lemma min_by_least key cs : forall best,
  (min_by key best cs = best \/ min_by key best cs ∈ cs)
  /\ key (min_by key best cs) <= key best /\ forall c, c ∈ cs -> key (min_by key best cs) <= key c.
Proof.
  induction cs as [|c cs IH]; intros best; [split_and!; [by left|simpl; lia|]; intros c Hc; by apply elem_of_nil in Hc|].
  simpl. destruct (IH (if key c <? key best then c else best)) as (H1 & H2 & H3).
  destruct (key c <? key best) eqn:E; b2p; (split_and!; [set_solver|lia|]);
    intros c' [->|Hc']%elem_of_cons; try lia; by apply H3.
Qed.

(** The effort sent is one the backend takes: the one asked for when it takes it, else the
    rung nearest to it of those it takes. *)
Theorem clamp_nearest v allowed e :
  clamp_reasoning_effort (JStr v) (Some allowed) = Some e ->
  e ∈ allowed
  /\ let asked := lower (strip v) in
     (asked ∈ allowed -> e = asked)
     /\ (asked ∉ allowed -> asked ∈ EFFORT_LADDER /\ e ∈ EFFORT_LADDER
         /\ forall l, l ∈ EFFORT_LADDER -> l ∈ allowed -> Z.abs (rung e - rung asked) <= Z.abs (rung l - rung asked)).
Proof.
  unfold clamp_reasoning_effort. set (asked := lower (strip v)). case_bool_decide; [done|].
  case_bool_decide as Ha; [by intros [= <-]|]. case_bool_decide as Hl; [|done].
  destruct (filter (fun lvl => lvl ∈ allowed) EFFORT_LADDER) as [|c cs] eqn:Ec; [done|]. intros [= <-].
  destruct (min_by_least (fun lvl => Z.abs (rung lvl - rung asked)) cs c) as (H1 & H2 & H3).
  set (e := min_by _ c cs) in *.
  assert (forall l, l ∈ c :: cs <-> l ∈ allowed /\ l ∈ EFFORT_LADDER) as Hin by (intros l; rewrite <- Ec; by rewrite list_elem_of_filter).
  assert (e ∈ c :: cs) as He by set_solver. apply Hin in He as [He1 He2]. split; [done|]. split; [done|]. intros _.
  split_and!; [done..|]. intros l Hl1 Hl2. assert (l ∈ c :: cs) as [->|Hc]%elem_of_cons by (by apply Hin); [done|by apply H3].
Qed.

(** ** Witnesses and cases *)

Definition sample_tools : Json := jget_null sample_request "tools".

Lemma namespaces_come_back_witness :
  exists s, _translate_tools true sample_tools = Ok s
  /\ map f_name (chat_tools s) = [JStr "read"; JStr "find"]
  /\ (JStr "find", Some "web") ∈ declared sample_tools.
Proof.
  eexists. split; [vm_compute; reflexivity|].
  split; [|vm_compute; constructor 2; constructor 1].
  refine (eq_trans (proj1 (namespaces_come_back true sample_tools _ _)) _); vm_compute; reflexivity.
Defined.

Definition sample_history : list Json :=
  map message_json [Said "system" (CText "a") []; Said "user" (CText "hi") []; Said "system" (CText "b") []].
Definition any_model : string -> bool := fun _ => true.

Lemma system_messages_placed_witness :
  normalize_system_messages sample_history "user" (JStr "m") (Some any_model)
    = Ok (map message_json [Said "system" (CText "a") []; Said "user" (CText "hi") []; Said "user" (CText "b") []])
  /\ placed "user" sample_history
       (map message_json [Said "system" (CText "a") []; Said "user" (CText "hi") []; Said "user" (CText "b") []]).
Proof.
  assert (normalize_system_messages sample_history "user" (JStr "m") (Some any_model)
    = Ok (map message_json [Said "system" (CText "a") []; Said "user" (CText "hi") []; Said "user" (CText "b") []]))
    as H by (vm_compute; reflexivity).
  split; [exact H|]. apply (proj1 (proj2 (system_messages_placed _ _ _ _ _ H))); [|discriminate].
  exists "m". split; reflexivity.
Defined.

(** A refusal beside an image is dropped. *)
Example refusal_beside_image :
  _content_to_chat (JArr [JObj [("type", JStr "refusal"); ("refusal", JStr "No.")];
                          JObj [("type", JStr "input_image"); ("image_url", JStr "data:x")]])
  = Ok (CParts [PImage (JStr "data:x") None])
  /\ _content_to_chat (JArr [JObj [("type", JStr "refusal"); ("refusal", JStr "No.")]]) = Ok (CText "No.").
Proof. split; vm_compute; reflexivity. Qed.

(** Without a pattern every model is subject to the policy. *)
Example no_pattern_is_every_model :
  normalize_system_messages sample_history "reject" (JStr "gpt-4.1") None = refuse
  /\ normalize_system_messages sample_history "reject" (JStr "gpt-4.1") (Some (fun _ => false)) = Ok sample_history.
Proof. split; vm_compute; reflexivity. Qed.

(** Malformed tools end in exceptions that are no refusals. *)
Example unrefused_tools :
  _tool_choice_to_chat (JObj [("type", JStr "function"); ("function", JStr "find")]) = Err AttributeError
  /\ (let! _ := _translate_tools true (JArr [JObj [("type", JStr "function"); ("name", JArr [JInt 1])]]) in Ok tt) = Err TypeError
  /\ (let! _ := _translate_tools true (JArr [JObj [("type", JStr "namespace"); ("name", JStr "web"); ("tools", JInt 1)]]) in Ok tt)
     = Err TypeError.
Proof. split_and!; vm_compute; reflexivity. Qed.

(** An image in a late system message is lost by [hoist]. *)
Example hoist_keeps_text_only :
  _hoist [JObj [("role", JStr "user"); ("content", JStr "hi")];
          JObj [("role", JStr "system"); ("content", content_json (CParts [PText "look"; PImage (JStr "data:x") None]))]]
  = map message_json [Said "system" (CText "look") []; Said "user" (CText "hi") []].
Proof. vm_compute. reflexivity. Qed.
