(* ===== verification/Raise.v ===== *)
(** What Python code that reads arbitrary JSON may raise, and dictionaries whose keys are
    JSON values. *)

From S2P Require Import Prelude Json.

Inductive Exn :=
| JSONDecodeError
| ValueError
| TypeError
| OverflowError
| AttributeError
| KeyError
| ValidationError
| RecursionError.
#[export] Instance Exn_eq_dec : EqDecision Exn.
Proof. solve_decision. Defined.

(** [v.get(key)] on any value: only an object has it. *)
Definition get (v : Json) (key : string) : result Exn (option Json) :=
  match v with JObj d => Ok (dict_get d key) | _ => Err AttributeError end.
(** [v.get(key, dflt)] *)
Definition get_or (dflt : Json) (v : Json) (key : string) : result Exn Json :=
  let! x := get v key in Ok (default dflt x).

(** [hash(v)] *)
Definition hashed (v : Json) : result Exn unit := if hashable v then Ok tt else Err TypeError.

(** [v in {...}] on a set of strings *)
Definition in_set (v : Json) (l : list string) : result Exn bool :=
  let! _ := hashed v in Ok (existsb (is_str v) l).

(** A string, where any other value raises. *)
Definition want_str (v : Json) : result Exn string := match v with JStr s => Ok s | _ => Err TypeError end.

(** [int(v or 0)] *)
Definition int_or_0 (v : Json) : result Exn Z :=
  if negb (truthy v) then Ok 0
  else match v with
       | JBool b => Ok (if b then 1 else 0)
       | JInt n => Ok n
       | JFloat m e => match float_int m e with Some n => Ok n | None => Err OverflowError end
       | JStr s => match py_int s with Some n => Ok n | None => Err ValueError end
       | _ => Err TypeError
       end.

Definition is_list (v : Json) : bool := match v with JArr _ => true | _ => false end.
Definition is_null (v : Json) : bool := match v with JNull => true | _ => false end.
Definition is_string (v : Json) : bool := match v with JStr _ => true | _ => false end.

(** A string that is not empty. *)
Definition nonempty (v : Json) : option string :=
  match v with JStr s => if bool_decide (s = "") then None else Some s | _ => None end.

(** [d[key] = x] on an object *)
Definition put_key (v : Json) (key : string) (x : Json) : Json := jset v key x.

(** ** Dictionaries with other keys

    [eqb] is the equality of the keys; a key keeps the spelling it was put in with. *)

Section keyed.
Context {K V : Type} (eqb : K -> K -> bool).

Fixpoint kget (d : list (K * V)) (k : K) : option V :=
  match d with
  | [] => None
  | (k', v) :: d => if eqb k k' then Some v else kget d k
  end.

Fixpoint kset (d : list (K * V)) (k : K) (v : V) : list (K * V) :=
  match d with
  | [] => [(k, v)]
  | (k', v') :: d => if eqb k k' then (k', v) :: d else (k', v') :: kset d k v
  end.

Fixpoint kdel (d : list (K * V)) (k : K) : list (K * V) :=
  match d with
  | [] => []
  | (k', v') :: d => if eqb k k' then d else (k', v') :: kdel d k
  end.
End keyed.

(** Equality of pairs of hashable values *)
Definition same_pair (a b : Json * Json) : bool := same_key (fst a) (fst b) && same_key (snd a) (snd b).
