(* ===== verification/CollabFilter.v ===== *)
(** The stripping of collab_tool_call objects from text ([src/src/collab_filter.py]).

    Text is ASCII: a character is one [ascii].  [json_loads] is [json.loads]; what it raises
    besides [JSONDecodeError] is not caught. *)

From S2P Require Import Prelude Json Raise.

Definition quote : Ascii.ascii := Ascii.ascii_of_nat 34.
Definition backslash : Ascii.ascii := Ascii.ascii_of_nat 92.
Definition lbrace : Ascii.ascii := Ascii.ascii_of_nat 123.
Definition rbrace : Ascii.ascii := Ascii.ascii_of_nat 125.
Definition newline : Ascii.ascii := Ascii.ascii_of_nat 10.

Definition snoc (s : string) (c : Ascii.ascii) : string := String.append s (String c EmptyString).

(** [m in s] *)
Fixpoint has_sub (m s : string) : bool :=
  starts_with s m || match s with String _ s => has_sub m s | EmptyString => false end.

(** The string-aware brace counter. *)
Record Scan := MkScan { depth : Z; in_string : bool; escape_next : bool }.
Definition scan0 : Scan := MkScan 0 false false.

(** One character; [true] when it closes the first brace. *)
Definition scan_char (ch : Ascii.ascii) (s : Scan) : Scan * bool :=
  if escape_next s then (MkScan (depth s) (in_string s) false, false)
  else if Ascii.eqb ch backslash && in_string s then (MkScan (depth s) (in_string s) true, false)
  else if Ascii.eqb ch quote then (MkScan (depth s) (negb (in_string s)) false, false)
  else if in_string s then (s, false)
  else if Ascii.eqb ch lbrace then (MkScan (depth s + 1) false false, false)
  else if Ascii.eqb ch rbrace then (MkScan (depth s - 1) false false, depth s - 1 =? 0)
  else (s, false).

(** The characters up to the one that closes the first brace, and those after it. *)
Fixpoint scan_block (text : string) (s : Scan) : option (string * string) :=
  match text with
  | EmptyString => None
  | String ch text =>
      let (s, closed) := scan_char ch s in
      if closed then Some (String ch EmptyString, text)
      else match scan_block text s with
           | Some (block, rest) => Some (String ch block, rest)
           | None => None
           end
  end.

Section filter.
Context (json_loads : string -> result Exn Json).

Definition collab_value (v : Json) : bool :=
  match v with
  | JObj d => dict_has d "collab_tool_call" || is_str (jget_null v "type") "collab_tool_call"
  | _ => false
  end.

(** Whether a block is a collab_tool_call object. *)
Definition is_collab (block : string) : result Exn bool :=
  match json_loads block with
  | Ok v => Ok (collab_value v)
  | Err JSONDecodeError => Ok false
  | Err e => Err e
  end.

(** ** [strip_collab_json] *)

Fixpoint strip_blocks (fuel : nat) (text : string) : result Exn string :=
  match fuel, text with
  | S fuel, String ch text' =>
      if Ascii.eqb ch lbrace then
        let (block, rest) := default (text, EmptyString) (scan_block text scan0) in
        let! collab := is_collab block in
        let! plain := strip_blocks fuel rest in
        Ok (if collab then plain else String.append block plain)
      else
        let! plain := strip_blocks fuel text' in Ok (String ch plain)
  | _, _ => Ok EmptyString
  end.

(** [re.sub(r"\n{3,}", "\n\n", s)]; [run] newlines came just before. *)
Fixpoint squeeze (s : string) (run : nat) : string :=
  match s with
  | EmptyString => EmptyString
  | String ch s =>
      if Ascii.eqb ch newline then
        if (run <? 2)%nat then String ch (squeeze s (S run)) else squeeze s run
      else String ch (squeeze s 0)
  end.

(** [strip_collab_json(text)] *)
Definition strip_collab_json (text : string) : result Exn string :=
  let! plain := strip_blocks (S (String.length text)) text in
  Ok (strip (squeeze plain 0)).

(** ** [CollabJsonStreamFilter] *)

Definition _COLLAB_MARKERS : list string :=
  let q := String quote EmptyString in
  [String.append q (String.append "collab_tool_call" q); String.append q (String.append "collab_tool" q)].
Definition _MAX_BUFFER : nat := 8192.

Record Filter := MkFilter { f_buf : string; f_scan : Scan; f_awaiting : bool }.

(** [_reset()] *)
Definition idle : Filter := MkFilter EmptyString scan0 false.

(** One character of [feed]: the state, and what it adds to the output. *)
Definition feed_char (f : Filter) (ch : Ascii.ascii) : result Exn (Filter * string) :=
  if bool_decide (f_buf f = EmptyString) then
    if Ascii.eqb ch lbrace then Ok (MkFilter (String ch EmptyString) (MkScan 1 false false) true, EmptyString)
    else Ok (f, String ch EmptyString)
  else
    let buf := snoc (f_buf f) ch in
    let first := f_awaiting f && negb (is_space ch) in
    if first && negb (Ascii.eqb ch quote) then Ok (idle, buf)
    else
      let (s, closed) := scan_char ch (f_scan f) in
      if closed then
        let! collab := if existsb (fun m => has_sub m buf) _COLLAB_MARKERS then is_collab buf else Ok false in
        Ok (idle, if collab then EmptyString else buf)
      else if (_MAX_BUFFER <? String.length buf)%nat then Ok (idle, buf)
      else Ok (MkFilter buf s (f_awaiting f && negb first), EmptyString).

Fixpoint feed_chars (f : Filter) (text : string) : result Exn (Filter * string) :=
  match text with
  | EmptyString => Ok (f, EmptyString)
  | String ch text =>
      let! (f, out) := feed_char f ch in
      let! (f, out') := feed_chars f text in
      Ok (f, String.append out out')
  end.

(** [feed(text)] *)
Definition feed (enabled : bool) (f : Filter) (text : string) : result Exn (Filter * string) :=
  if enabled then feed_chars f text else Ok (f, text).

(** [flush()] *)
Definition flush (f : Filter) : Filter * string := (idle, f_buf f).

(** The deltas of a stream, one after the other. *)
Fixpoint feed_all (f : Filter) (deltas : list string) : result Exn (Filter * list string) :=
  match deltas with
  | [] => Ok (f, [])
  | text :: deltas =>
      let! (f, out) := feed true f text in
      let! (f, outs) := feed_all f deltas in
      Ok (f, out :: outs)
  end.

(** ** What they promise *)

(** [out] is [text] without some whole objects that decode to collab_tool_call objects. *)
Inductive cleaned : string -> string -> Prop :=
| cleaned_nil : cleaned EmptyString EmptyString
| cleaned_char c text out : cleaned text out -> cleaned (String c text) (String c out)
| cleaned_drop block text out :
    is_collab block = Ok true -> starts_with block (String lbrace EmptyString) = true ->
    cleaned text out -> cleaned (String.append block text) out.

Lemma cleaned_keep block text out : cleaned text out -> cleaned (String.append block text) (String.append block out).
Proof. intros H. induction block as [|c block IH]; [done|]. rewrite !append_cons. by constructor. Qed.

Lemma cleaned_app text out text' out' :
  cleaned text out -> cleaned text' out' -> cleaned (String.append text text') (String.append out out').
Proof.
  intros H H'. induction H as [|c text out H IH|block text out Hc Hs H IH]; [done| |].
  - rewrite !append_cons. by constructor.
  - rewrite <- append_assoc. by constructor.
Qed.

Lemma cleaned_refl text : cleaned text text.
Proof. induction text; by constructor. Qed.
End filter.

Section laws.
Context (json_loads : string -> result Exn Json).

Lemma feed_chars_app f a b :
  feed_chars json_loads f (String.append a b)
  = let! (f, out) := feed_chars json_loads f a in
    let! (f, out') := feed_chars json_loads f b in Ok (f, String.append out out').
Proof.
  revert f. induction a as [|ch a IH]; intros f.
  - change (String.append EmptyString b) with b. simpl. by destruct (feed_chars json_loads f b) as [[]|].
  - rewrite append_cons. simpl. destruct (feed_char json_loads f ch) as [[f1 out1]|]; [|done]. simpl. rewrite IH.
    destruct (feed_chars json_loads f1 a) as [[f2 out2]|]; [|done]. simpl.
    destruct (feed_chars json_loads f2 b) as [[f3 out3]|]; [|done]. simpl. by rewrite append_assoc.
Qed.

(** Where a text is cut into deltas does not matter. *)
Lemma feed_all_chars deltas : forall f,
  feed_chars json_loads f (String.concat "" deltas)
  = let! (f, outs) := feed_all json_loads f deltas in Ok (f, String.concat "" outs).
Proof.
  induction deltas as [|d deltas IH]; intros f; [done|]. rewrite concat_cons, feed_chars_app. simpl.
  destruct (feed_chars json_loads f d) as [[f1 out1]|]; [|done]. simpl. rewrite IH.
  destruct (feed_all json_loads f1 deltas) as [[f2 outs]|]; [|done]. cbn [result_bind]. by rewrite concat_cons.
Qed.

Lemma max_buffer_pos : (1 <= _MAX_BUFFER)%nat.
Proof. apply Nat.leb_le. by vm_compute. Qed.

(** The filter holds nothing, or the start of an object within the limit. *)
Definition holds (f : Filter) : Prop :=
  f = idle \/ starts_with (f_buf f) (String lbrace EmptyString) = true /\ (String.length (f_buf f) <= _MAX_BUFFER)%nat.

Lemma starts_snoc s c p : starts_with s p = true -> starts_with (snoc s c) p = true.
Proof.
  unfold starts_with, snoc. rewrite !bool_decide_eq_true. revert s.
  induction p as [|x p IH]; intros s [t Ht]; [by exists (String.append s (String c EmptyString))|]. destruct s as [|y s]; [done|].
  rewrite append_cons. simpl in *. destruct (Ascii.eqb x y); [|done]. by apply IH; eexists.
Qed.

(** One character is passed on, held, or ends a block that is kept or dropped. *)
Lemma feed_char_cases f ch f' out :
  holds f -> feed_char json_loads f ch = Ok (f', out) ->
  holds f'
  /\ (f' = idle /\ cleaned json_loads (snoc (f_buf f) ch) out
      \/ out = EmptyString /\ f_buf f' = snoc (f_buf f) ch).
Proof.
  intros Hf. unfold feed_char. case_bool_decide as Eb.
  - destruct Hf as [->|[Hs _]]; [|by rewrite Eb in Hs]. destruct (Ascii.eqb ch lbrace) eqn:E; intros [= <- <-].
    + apply Ascii.eqb_eq in E as ->. split; [right; split; [done|exact max_buffer_pos]|]. by right.
    + split; [by left|]. left. split; [done|]. apply cleaned_refl.
  - destruct Hf as [->|[Hs _]]; [done|]. pose proof (starts_snoc _ ch _ Hs) as Hs'.
    destruct (f_awaiting f && negb (is_space ch) && negb (Ascii.eqb ch quote)).
    { intros [= <- <-]. split; [by left|]. left. split; [done|]. apply cleaned_refl. }
    destruct (scan_char ch (f_scan f)) as [s closed]. destruct closed.
    + destruct (existsb _ _); simpl.
      * destruct (is_collab json_loads _) as [[|]|] eqn:Ec; [| |done]; intros [= <- <-]; (split; [by left|]);
          left; (split; [done|]); [|apply cleaned_refl].
        rewrite <- (append_nil_r (snoc _ _)). constructor; [done|done|constructor].
      * intros [= <- <-]. split; [by left|]. left. split; [done|]. apply cleaned_refl.
    + destruct (_ <? _)%nat eqn:El; intros [= <- <-].
      * split; [by left|]. left. split; [done|]. apply cleaned_refl.
      * apply Nat.ltb_ge in El. split; [by right|by right].
Qed.

Lemma feed_chars_cleaned text : forall f f' out,
  holds f -> feed_chars json_loads f text = Ok (f', out) ->
  holds f' /\ cleaned json_loads (String.append (f_buf f) text) (String.append out (f_buf f')).
Proof.
  induction text as [|ch text IH]; intros f f' out Hf H.
  - injection H as <- <-. split; [done|]. rewrite append_nil_r. apply cleaned_refl.
  - simpl in H. destruct (feed_char json_loads f ch) as [[f1 out1]|] eqn:E1; [|done]. simpl in H.
    destruct (feed_chars json_loads f1 text) as [[f2 out2]|] eqn:E2; [|done]. injection H as <- <-.
    destruct (feed_char_cases _ _ _ _ Hf E1) as [Hf1 Hc]. destruct (IH _ _ _ Hf1 E2) as [Hf2 H2]. split; [done|].
    assert (String.append (f_buf f) (String ch text) = String.append (snoc (f_buf f) ch) text) as ->
      by (unfold snoc; by rewrite <- append_assoc).
    destruct Hc as [[-> Hc]|[-> Hb]]; [rewrite <- append_assoc; by apply cleaned_app|by rewrite <- Hb].
Qed.

(** The stream filter drops whole collab objects only, and holds little back.  However a
    text is cut into deltas, the filter ends in one state with one output; that output and
    the held text are the text without some blocks that decode to collab_tool_call objects;
    and what is held is empty or begins with a brace and has at most 8192 characters. *)
Theorem stream_filter_spec deltas f outs :
  feed_all json_loads idle deltas = Ok (f, outs) ->
  let text := String.concat "" deltas in
  let out := String.concat "" outs in
  feed_chars json_loads idle text = Ok (f, out)
  /\ cleaned json_loads text (String.append out (snd (flush f)))
  /\ (f_buf f = EmptyString \/ starts_with (f_buf f) (String lbrace EmptyString) = true)
  /\ (String.length (f_buf f) <= _MAX_BUFFER)%nat.
Proof.
  intros H. simpl. pose proof (feed_all_chars deltas idle) as Ht. rewrite H in Ht. simpl in Ht.
  destruct (feed_chars_cleaned _ _ _ _ (or_introl eq_refl) Ht) as [Hf Hc].
  split_and!; [done|exact Hc| |]; destruct Hf as [->|[Hs Hl]]; auto; apply Nat.le_0_l.
Qed.

(** ** Complete objects are removed *)

Fixpoint quote_first (s : string) : bool :=
  match s with
  | EmptyString => false
  | String c s => if is_space c then quote_first s else Ascii.eqb c quote
  end.

Definition marked (block : string) : bool := existsb (fun m => has_sub m block) _COLLAB_MARKERS.

Lemma length_snoc s c : String.length (snoc s c) = S (String.length s).
Proof. induction s as [|x s IH]; [done|]. simpl. by rewrite <- IH. Qed.

Lemma feed_rest rest : forall buf s awaiting,
  buf <> EmptyString -> scan_block rest s = Some (rest, EmptyString) ->
  awaiting = false \/ quote_first rest = true ->
  (String.length buf + String.length rest <= S _MAX_BUFFER)%nat ->
  let block := String.append buf rest in
  feed_chars json_loads (MkFilter buf s awaiting) rest
  = let! collab := if marked block then is_collab json_loads block else Ok false in
    Ok (idle, if collab then EmptyString else block).
Proof.
  induction rest as [|ch rest IH]; intros buf s awaiting Hb Hs Ha Hl; [done|]. simpl in Hs |- *.
  unfold feed_char. simpl f_buf. rewrite bool_decide_false by done. simpl f_awaiting. simpl f_scan.
  destruct (scan_char ch s) as [s' closed] eqn:Ec.
  assert (String.append buf (String ch rest) = String.append (snoc buf ch) rest) as ->
    by (unfold snoc; by rewrite <- append_assoc).
  assert (snoc buf ch <> EmptyString) as Hb' by by destruct buf.
  assert (awaiting && negb (is_space ch) && negb (Ascii.eqb ch quote) = false
    /\ (awaiting && negb (awaiting && negb (is_space ch)) = false \/ quote_first rest = true)) as [-> Ha'].
  { destruct Ha as [->|Ha]; [by split; [|left]|]. simpl in Ha. destruct awaiting; [|by split; [|left]].
    destruct (is_space ch); simpl; [by split; [|right]|]. rewrite Ha. by split; [|left]. }
  destruct closed.
  - injection Hs as <-. rewrite append_nil_r. fold (marked (snoc buf ch)).
    destruct (if marked (snoc buf ch) then _ else _) as [collab|]; [|done]. simpl. by rewrite append_nil_r.
  - destruct (scan_block rest s') as [[block rest']|] eqn:Er; [|done]. injection Hs as <- ->.
    assert ((_MAX_BUFFER <? String.length (snoc buf ch))%nat = false) as ->.
    { apply Nat.ltb_ge. rewrite length_snoc. simpl in Hl. destruct block; [done|]. simpl in Hl. lia. }
    simpl. rewrite IH; [|done|done|done|rewrite length_snoc; simpl in Hl; lia].
    by destruct (if marked _ then _ else _).
Qed.

(** A whole object is dropped when it is a collab_tool_call object, and passed on unchanged
    when it is not, unless decoding raises. *)
Theorem whole_object_settled block :
  (String.length block <= S _MAX_BUFFER)%nat ->
  scan_block block scan0 = Some (block, EmptyString) ->
  (exists rest, block = String lbrace rest /\ quote_first rest = true) ->
  feed_chars json_loads idle block
  = let! collab := if marked block then is_collab json_loads block else Ok false in
    Ok (idle, if collab then EmptyString else block).
Proof.
  intros Hl Hs (rest & -> & Hq). simpl in Hs |- *. destruct (scan_block rest _) as [[b r]|] eqn:E; [|done].
  injection Hs as -> ->. unfold feed_char. simpl. rewrite (feed_rest rest _ _ true); [|done|done|by right|simpl in *; lia].
  by destruct (if marked _ then _ else _).
Qed.

(** ** The whole text *)

Lemma scan_block_app text : forall s block rest,
  scan_block text s = Some (block, rest) -> text = String.append block rest /\ (String.length rest < String.length text)%nat.
Proof.
  induction text as [|ch text IH]; intros s block rest H; [done|]. simpl in H. destruct (scan_char ch s) as [s' [|]].
  - injection H as <- <-. split; [done|]. simpl. lia.
  - destruct (scan_block text s') as [[b r]|] eqn:E; [|done]. injection H as <- <-. destruct (IH _ _ _ E) as [-> Hl].
    split; [done|]. simpl. lia.
Qed.

Lemma starts_char c s : starts_with (String c s) (String c EmptyString) = true.
Proof. unfold starts_with. simpl. rewrite Ascii.eqb_refl. by apply bool_decide_eq_true. Qed.

(** Before the blank lines are squeezed, [strip_collab_json] keeps all but whole collab
    objects; the fuel [S (length text)] is enough. *)
Theorem strip_blocks_cleaned fuel : forall text plain,
  (String.length text < fuel)%nat -> strip_blocks json_loads fuel text = Ok plain -> cleaned json_loads text plain.
Proof.
  induction fuel as [|fuel IH]; intros text plain Hl H; [lia|]. destruct text as [|ch text]; [injection H as <-; constructor|].
  cbn [strip_blocks] in H. destruct (Ascii.eqb ch lbrace) eqn:E.
  - apply Ascii.eqb_eq in E as ->.
    assert (exists block rest, default (String lbrace text, EmptyString) (scan_block (String lbrace text) scan0) = (block, rest)
      /\ String lbrace text = String.append block rest /\ (String.length rest < S (String.length text))%nat
      /\ exists b, block = String lbrace b) as (block & rest & Hd & Ht & Hr & b & Hb).
    { destruct (scan_block (String lbrace text) scan0) as [[block rest]|] eqn:Es.
      - exists block, rest. destruct (scan_block_app _ _ _ _ Es) as [Ht Hr]. split_and!; [done|done|exact Hr|].
        destruct block as [|c b]; [|injection Ht as <- _; by eexists].
        change (String.append EmptyString rest) with rest in Ht. rewrite Ht in Hr. lia.
      - exists (String lbrace text), EmptyString. rewrite append_nil_r. split_and!; [done|done|simpl; lia|by eexists]. }
    rewrite Hd in H. destruct (is_collab json_loads block) as [[|]|] eqn:Ec; [| |done]; simpl in H;
      destruct (strip_blocks json_loads fuel rest) as [plain'|] eqn:Ep; try done; injection H as <-; rewrite Ht;
      (assert (cleaned json_loads rest plain') as Hc by (apply IH; [simpl in Hl; lia|done])).
    + constructor; [done| |done]. rewrite Hb. apply starts_char.
    + by apply cleaned_keep.
  - destruct (strip_blocks json_loads fuel text) as [plain'|] eqn:Ep; [|done]. injection H as <-. constructor.
    apply IH; [simpl in Hl; lia|done].
Qed.
End laws.

(** ** Witness and cases *)

Definition quoted (s : string) : string := String quote (String.append s (String quote EmptyString)).
(** [{"collab_tool_call": 1}] *)
Definition sample_object : string :=
  String.append "{" (String.append (quoted "collab_tool_call") ": 1}").
(** Decodes that object only. *)
Definition sample_loads (s : string) : result Exn Json :=
  if bool_decide (s = sample_object) then Ok (JObj [("collab_tool_call", JInt 1)]) else Err JSONDecodeError.

Lemma stream_filter_spec_witness :
  feed_all sample_loads idle ["if (x) { "; "y } "; "{"; String.append (quoted "collab_tool_call") ": "; "1} ok {"]
    = Ok (MkFilter "{" (MkScan 1 false false) true, ["if (x) "; "{ y } "; ""; ""; " ok "])
  /\ cleaned sample_loads (String.append "if (x) { y } " (String.append sample_object " ok {")) "if (x) { y }  ok {".
Proof.
  assert (feed_all sample_loads idle ["if (x) { "; "y } "; "{"; String.append (quoted "collab_tool_call") ": "; "1} ok {"]
    = Ok (MkFilter "{" (MkScan 1 false false) true, ["if (x) "; "{ y } "; ""; ""; " ok "])) as H by (vm_compute; reflexivity).
  split; [exact H|]. exact (proj1 (proj2 (stream_filter_spec sample_loads _ _ _ H))).
Defined.

(** An object inside braces that do not begin with a quote is dropped from a stream and kept
    in a whole text. *)
Definition nested_object : string := String.append "{ x " (String.append sample_object " }").
Example stream_and_text_differ :
  feed_all sample_loads idle [nested_object] = Ok (idle, ["{ x  }"])
  /\ strip_collab_json sample_loads nested_object = Ok nested_object.
Proof. split; vm_compute; reflexivity. Qed.

(** Only [JSONDecodeError] is caught: a decoder that raises another [ValueError], as
    [json.loads] does on an integer of more than 4300 digits, ends the stream. *)
Example decoding_raises :
  feed_all (fun _ => Err ValueError) idle [sample_object] = Err ValueError.
Proof. vm_compute. reflexivity. Qed.
