(* ===== verification/Chunks.v ===== *)
(** The chunks of the agent SDK as the gateway reads them ([src/src/chunk_processing.py],
    [src/src/content_blocks.py], [src/src/tool_stats.py], the usage helpers of
    [src/src/streaming_utils.py] and [src/src/usage_logger.py], the block formatting of
    [src/src/message_adapter.py]).

    A chunk is any JSON value.  Its content blocks are dictionaries of the wire: the SDK's
    own block classes carry the same fields, and stand for the dictionaries with their type.
    A text, thinking or arguments fragment that is no string, which no client sends, is a
    [TypeError].  Clocks are whole milliseconds. *)

From S2P Require Import Prelude Json Raise CollabFilter.

Section chunks.
Context (json_loads : string -> result Exn Json) (json_dumps : Json -> string) (repr : Json -> string).

(** ** Content blocks *)

Definition TOOL_CONTENT_BLOCK_TYPES : list string :=
  ["tool_use"; "tool_result"; "server_tool_use"; "advisor_tool_result"].

(** [block_field(block, key)] and [_block_field]: nothing on a value that is no dictionary. *)
Definition block_field (block : Json) (key : string) : Json := jget_null block key.

Definition content_block_type (block : Json) : Json := block_field block "type".

Definition is_tool_content_block (block : Json) : result Exn bool :=
  in_set (content_block_type block) TOOL_CONTENT_BLOCK_TYPES.

(** [normalize_tool_result_for_sse(result_block)] *)
Definition normalize_tool_result_for_sse (block : Json) : Json :=
  if is_dict block then
    JObj [("type", JStr "tool_result");
          ("tool_use_id", default (JStr "") (jget block "tool_use_id"));
          ("content", default (JStr "") (jget block "content"));
          ("is_error", JBool (truthy (jget_null block "is_error")))]
  else
    JObj [("type", JStr "tool_result"); ("tool_use_id", JStr ""); ("content", JStr (py_str repr block));
          ("is_error", JBool false)].

Fixpoint split_tools (content : list Json) : result Exn (list Json * list Json) :=
  match content with
  | [] => Ok ([], [])
  | b :: content =>
      let! tool := is_tool_content_block b in
      let! (tools, others) := split_tools content in
      Ok (if tool then (b :: tools, others) else (tools, b :: others))
  end.

(** [_extract_tool_blocks(content)]: the tool blocks, and the rest as a value. *)
Definition _extract_tool_blocks (content : Json) : result Exn (list Json * Json) :=
  match content with
  | JArr l => let! (tools, others) := split_tools l in Ok (tools, JArr others)
  | _ => Ok ([], if truthy content then content else JArr [])
  end.

(** [_filter_tool_blocks(content)]; [JNull] for [None]. *)
Definition _filter_tool_blocks (content : Json) : result Exn Json :=
  let! (_, others) := _extract_tool_blocks content in
  Ok (if truthy others then others else JNull).

(** ** Formatting *)

Definition TOOL_RESULT_MAX_LENGTH : nat := 2000.
Fixpoint take_string (n : nat) (s : string) : string :=
  match n, s with
  | S n, String c s => String c (take_string n s)
  | _, _ => EmptyString
  end.

(** [_truncate_tool_content(content)] *)
Definition _truncate_tool_content (content : Json) : Json :=
  match content with
  | JStr s =>
      if (TOOL_RESULT_MAX_LENGTH <? String.length s)%nat
      then JStr (String.append (take_string TOOL_RESULT_MAX_LENGTH s) (String newline "... (truncated)"))
      else content
  | _ => content
  end.

Definition truncated (block : Json) : Json :=
  jset block "content" (_truncate_tool_content (default (JStr "") (jget block "content"))).

(** [_block_to_dict(block)] *)
Definition _block_to_dict (block : Json) : option Json :=
  match block with
  | JStr _ => Some (JObj [("type", JStr "text"); ("text", block)])
  | JObj _ =>
      let type := jget_null block "type" in
      if is_str type "text" || is_str type "thinking" || is_str type "server_tool_use" then Some block
      else if is_str type "advisor_tool_result" then Some (truncated block)
      else if is_str type "tool_use" then Some block
      else if is_str type "tool_result" then Some (truncated block)
      else None
  | _ => None
  end.

(** [format_block(block)]; [JNull] for [None]. *)
Definition format_block (block : Json) : result Exn Json :=
  if is_dict block && is_str (jget_null block "type") "text" then Ok (default (JStr "") (jget block "text"))
  else if is_string block then Ok block
  else if is_dict block && is_str (jget_null block "type") "thinking" then
    let! t := want_str (default (JStr "") (jget block "thinking")) in
    Ok (JStr (String.append "<think>" (String.append t "</think>")))
  else match _block_to_dict block with
       | None => Ok JNull
       | Some d =>
           let fence := String newline "```" in
           Ok (JStr (String.append fence (String.append "json" (String newline
                 (String.append (json_dumps d) (String.append fence (String newline EmptyString)))))))
       end.

Fixpoint format_parts (blocks : list Json) : result Exn (list Json) :=
  match blocks with
  | [] => Ok []
  | b :: blocks =>
      let! f := format_block b in
      let! fs := format_parts blocks in
      Ok (if truthy f then f :: fs else fs)
  end.

Fixpoint want_strs (l : list Json) : result Exn (list string) :=
  match l with
  | [] => Ok []
  | v :: l => let! s := want_str v in let! ss := want_strs l in Ok (s :: ss)
  end.

(** [format_blocks(content_blocks)] *)
Definition format_blocks (blocks : list Json) : result Exn (option string) :=
  let! parts := format_parts blocks in
  match parts with
  | [] => Ok None
  | _ => let! ss := want_strs parts in Ok (Some (String.concat "" ss))
  end.

(** ** Classification *)

(** [process_chunk_content(chunk, content_sent)] *)
Definition process_chunk_content (chunk : Json) (content_sent : bool) : result Exn Json :=
  let message := jget_null chunk "message" in
  let! type := get chunk "type" in
  if is_str (default JNull type) "assistant" && bool_decide (is_Some (jget message "content"))
  then _filter_tool_blocks (jget_null message "content")
  else if is_list (jget_null chunk "content") then _filter_tool_blocks (jget_null chunk "content")
  else if is_str (jget_null chunk "subtype") "success" && bool_decide (is_Some (jget chunk "result")) && negb content_sent
  then Ok (jget_null chunk "result")
  else Ok JNull.

Definition visible (s : string) : bool :=
  negb (bool_decide (s = EmptyString)) && negb (all_chars is_space s).

(** [x if x else None] *)
Definition some_text (s : string) : option string := if bool_decide (s = EmptyString) then None else Some s.

(** [format_chunk_content(chunk, content_sent)] *)
Definition format_chunk_content (chunk : Json) (content_sent : bool) : result Exn (option string) :=
  let! content := process_chunk_content chunk content_sent in
  let! text :=
    match content with
    | JArr blocks => format_blocks blocks
    | JStr s => Ok (Some s)
    | _ => Ok None
    end in
  match text with
  | Some s => if visible s then let! t := strip_collab_json json_loads s in Ok (some_text t) else Ok None
  | None => Ok None
  end.

(** [extract_stream_event_delta(chunk, in_thinking)]; [None] when there is no text. *)
Definition extract_stream_event_delta (subagent_text : bool) (chunk : Json) (in_thinking : bool)
    : result Exn (option string * bool) :=
  if negb (is_str (jget_null chunk "type") "stream_event") then Ok (None, in_thinking)
  else if negb (is_null (jget_null chunk "parent_tool_use_id")) && negb subagent_text then Ok (None, in_thinking)
  else
    let event := default (JObj []) (jget chunk "event") in
    let! type := get event "type" in
    let type := default JNull type in
    let text v := match v with JNull => Ok (None, in_thinking) | _ => let! s := want_str v in Ok (Some s, in_thinking) end in
    let delta := default (JObj []) (jget event "delta") in
    let! dtype := if is_str type "content_block_delta" then get delta "type" else Ok None in
    let dtype := default JNull dtype in
    if is_str dtype "text_delta" then text (default (JStr "") (jget delta "text"))
    else if is_str dtype "thinking_delta" then text (default (JStr "") (jget delta "thinking"))
    else
      let block := default (JObj []) (jget event "content_block") in
      let! btype := if is_str type "content_block_start" then get block "type" else Ok None in
      if is_str (default JNull btype) "thinking" then Ok (Some "<think>", true)
      else if is_str type "content_block_stop" && in_thinking then Ok (Some "</think>", false)
      else Ok (None, in_thinking).

(** [_extract_rate_limit_status(chunk)] *)
Definition _extract_rate_limit_status (chunk : Json) : Json :=
  match jget_null chunk "rate_limit_info" with
  | JObj d => default (JStr "unknown") (dict_get d "status")
  | _ => JStr "unknown"
  end.

(** [classify_error_chunk(chunk)]: the code and the message. *)
Definition classify_error_chunk (chunk : Json) : option (Json * Json) :=
  if negb (is_dict chunk) then None
  else if truthy (jget_null chunk "is_error") then
    Some (JStr "sdk_error", default (JStr "Unknown SDK error") (jget chunk "error_message"))
  else if is_str (jget_null chunk "type") "assistant" && truthy (jget_null chunk "error") then
    Some (jget_null chunk "error", JStr (String.append "Claude error: " (py_str repr (jget_null chunk "error"))))
  else if is_str (jget_null chunk "type") "rate_limit" && is_str (_extract_rate_limit_status chunk) "rejected" then
    Some (JStr "rate_limit", JStr "Rate limit rejected")
  else None.

(** [is_assistant_content_chunk(chunk)] *)
Definition is_assistant_content_chunk (chunk : Json) : bool :=
  let type := jget_null chunk "type" in
  if is_str type "assistant" then true
  else if negb (is_null type) then false
  else is_list (jget_null chunk "content").

(** [block] with its parent, when it names none itself. *)
Definition with_parent (parent : Json) (block : Json) : Json :=
  if truthy parent && negb (truthy (jget_null block "parent_tool_use_id"))
  then jset block "parent_tool_use_id" parent else block.

(** [extract_embedded_tool_blocks(chunk)] *)
Definition extract_embedded_tool_blocks (chunk : Json) : result Exn (list Json) :=
  if negb (is_assistant_content_chunk chunk) then Ok []
  else
    let parent := jget_null chunk "parent_tool_use_id" in
    let content := jget_null chunk "content" in
    let message := jget_null chunk "message" in
    let inner := is_null content && is_dict message in
    let parent := if inner then or_else parent (jget_null message "parent_tool_use_id") else parent in
    match (if inner then jget_null message "content" else content) with
    | JArr l =>
        let! (tools, _) := split_tools l in
        Ok (map (with_parent parent) tools)
    | _ => Ok []
    end.

(** [for b in content_blocks] keeping the tool results: only the elements of a list can be
    dictionaries. *)
Definition is_tool_result (b : Json) : bool := is_dict b && is_str (jget_null b "type") "tool_result".

(** [extract_user_tool_results(chunk)]: the blocks and the parent. *)
Definition extract_user_tool_results (chunk : Json) : result Exn (list Json * Json) :=
  let parent := jget_null chunk "parent_tool_use_id" in
  let content := default (JArr []) (jget chunk "content") in
  let message := default (JObj []) (jget chunk "message") in
  let content :=
    if is_list content then content
    else if is_dict message then default (JArr []) (jget message "content") else JArr [] in
  if negb (truthy content) then Ok ([], parent)
  else match content with
       | JArr l => Ok (filter (fun b => is_tool_result b = true) l, parent)
       | JStr _ | JObj _ => Ok ([], parent)
       | _ => Err TypeError
       end.

(** ** [ToolUseAccumulator] *)

Record Acc := MkAcc { a_id : Json; a_name : Json; a_parts : list Json; a_parent : Json }.
Definition Accs := list ((Json * Json) * Acc).

(** The parent and the index of the block as a key. *)
Definition acc_key (parent event : Json) : result Exn (Json * Json) :=
  let k := (or_else parent (JStr ""), default (JInt 0) (jget event "index")) in
  let! _ := hashed (fst k) in let! _ := hashed (snd k) in Ok k.

Inductive Handled := Fall | Consumed | Assembled (tool_block : Json).

(** The block assembled from its fragments. *)
Definition assembled (acc : Acc) : result Exn Json :=
  let! parts := want_strs (a_parts acc) in
  let input_str := String.concat "" parts in
  let! input :=
    if bool_decide (input_str = EmptyString) then Ok (JObj [])
    else match json_loads input_str with
         | Err JSONDecodeError => Ok (JObj [("raw_input", JStr input_str)])
         | r => r
         end in
  Ok (JObj ([("type", JStr "tool_use"); ("id", a_id acc); ("name", a_name acc); ("input", input)]
            ++ if truthy (a_parent acc) then [("parent_tool_use_id", a_parent acc)] else [])).

(** [process_stream_event(chunk)] *)
Definition process_stream_event (accs : Accs) (chunk : Json) : result Exn (Accs * Handled) :=
  if negb (is_str (jget_null chunk "type") "stream_event") then Ok (accs, Fall)
  else
    let parent := jget_null chunk "parent_tool_use_id" in
    let event := default (JObj []) (jget chunk "event") in
    let! type := get event "type" in
    let type := default JNull type in
    if is_str type "content_block_start" then
      let block := default (JObj []) (jget event "content_block") in
      let! btype := get block "type" in
      if is_str (default JNull btype) "tool_use" then
        let! k := acc_key parent event in
        let acc := MkAcc (default (JStr "") (jget block "id")) (default (JStr "") (jget block "name")) [] parent in
        Ok (kset same_pair accs k acc, Consumed)
      else Ok (accs, Fall)
    else if is_str type "content_block_delta" then
      let delta := default (JObj []) (jget event "delta") in
      let! dtype := get delta "type" in
      if is_str (default JNull dtype) "input_json_delta" then
        let! k := acc_key parent event in
        match kget same_pair accs k with
        | Some acc =>
            let part := default (JStr "") (jget delta "partial_json") in
            Ok (kset same_pair accs k (MkAcc (a_id acc) (a_name acc) (a_parts acc ++ [part]) (a_parent acc)), Consumed)
        | None => Ok (accs, Consumed)
        end
      else Ok (accs, if is_null parent then Fall else Consumed)
    else if is_str type "content_block_stop" then
      let! k := acc_key parent event in
      match kget same_pair accs k with
      | Some acc => let! block := assembled acc in Ok (kdel same_pair accs k, Assembled block)
      | None => Ok (accs, if is_null parent then Fall else Consumed)
      end
    else Ok (accs, Fall).

(** ** [ToolStatsCollector] *)

Record Stat := MkStat { st_count : Z; st_errors : Z; st_total_ms : Z }.
Definition stat0 : Stat := MkStat 0 0 0.

Record Start := MkStart { s_name : Json; s_at : Z; s_parent : Json }.

Record Stats := MkStats { starts : list (Json * Start); stats : list (Json * Stat) }.
Definition no_stats : Stats := MkStats [] [].

(** [entry = self._stats.setdefault(name, zeros)], then a change to it *)
Definition bump (f : Stat -> Stat) (name : Json) (l : list (Json * Stat)) : list (Json * Stat) :=
  kset same_key l name (f (default stat0 (kget same_key l name))).

(** [record_use(tool_use_id, name, parent_tool_use_id)] *)
Definition record_use (now : Z) (t : Stats) (tool_use_id name parent : Json) : result Exn Stats :=
  if negb (truthy name) then Ok t
  else
    let! _ := hashed name in
    let counted := bump (fun e => MkStat (st_count e + 1) (st_errors e) (st_total_ms e)) name (stats t) in
    if truthy tool_use_id then
      let! _ := hashed tool_use_id in
      Ok (MkStats (kset same_key (starts t) tool_use_id (MkStart name now parent)) counted)
    else Ok (MkStats (starts t) counted).

(** [record_result(tool_use_id, is_error)] *)
Definition record_result (now : Z) (t : Stats) (tool_use_id : Json) (is_error : bool) : result Exn Stats :=
  let! _ := if truthy tool_use_id then hashed tool_use_id else Ok tt in
  match (if truthy tool_use_id then kget same_key (starts t) tool_use_id else None) with
  | Some s =>
      Ok (MkStats (kdel same_key (starts t) tool_use_id)
            (bump (fun e => MkStat (st_count e) (st_errors e + if is_error then 1 else 0) (st_total_ms e + (now - s_at s)))
               (s_name s) (stats t)))
  | None =>
      Ok (if is_error
          then MkStats (starts t) (bump (fun e => MkStat (st_count e) (st_errors e + 1) (st_total_ms e)) (JStr "unknown") (stats t))
          else t)
  end.

Record InFlight := MkInFlight { if_id : Json; if_name : Json; if_parent : Json; if_elapsed : Z }.

(** [sorted(self._starts.items(), key=start)] *)
Fixpoint insert_start (x : Json * Start) (l : list (Json * Start)) : list (Json * Start) :=
  match l with
  | [] => [x]
  | y :: l => if s_at (snd y) <=? s_at (snd x) then y :: insert_start x l else x :: y :: l
  end.
Definition by_start (l : list (Json * Start)) : list (Json * Start) := foldl (fun l x => insert_start x l) [] l.

(** [in_flight()] *)
Definition in_flight (now : Z) (t : Stats) : list InFlight :=
  map (fun kv => MkInFlight (fst kv) (s_name (snd kv)) (s_parent (snd kv)) ((now - s_at (snd kv)) / 1000))
    (by_start (starts t)).

(** ** Usage *)

Definition usage_of (v : Json) (key : string) : result Exn Z :=
  let! x := get v key in int_or_0 (default JNull x).

(** [input + cache creation + cache read] *)
Definition prompt_sum (usage : Json) : result Exn Z :=
  let! i := usage_of usage "input_tokens" in
  let! c := usage_of usage "cache_creation_input_tokens" in
  let! r := usage_of usage "cache_read_input_tokens" in
  Ok (i + c + r).

(** [_prompt_tokens_from_usage(usage)] *)
Definition _prompt_tokens_from_usage (usage : Json) : result Exn Z :=
  if is_dict usage then prompt_sum usage else Ok 0.

(** [_main_agent_prompt_tokens(msg)] *)
Definition _main_agent_prompt_tokens (msg : Json) : result Exn Z :=
  if negb (is_dict msg) || truthy (jget_null msg "parent_tool_use_id") then Ok 0
  else
    let type := jget_null msg "type" in
    if is_str type "assistant" then _prompt_tokens_from_usage (jget_null msg "usage")
    else if is_str type "stream_event" then
      let event := jget_null msg "event" in
      if is_str (jget_null event "type") "message_start" then
        _prompt_tokens_from_usage (jget_null (jget_null event "message") "usage")
      else if is_str (jget_null event "type") "message_delta" then _prompt_tokens_from_usage (jget_null event "usage")
      else Ok 0
    else Ok 0.

(** [_is_context_snapshot_chunk(chunk)] *)
Definition _is_context_snapshot_chunk (chunk : Json) : result Exn bool :=
  if is_str (jget_null chunk "type") "stream_event" then
    let! n := _main_agent_prompt_tokens chunk in Ok (0 <? n)
  else Ok false.

Fixpoint first_positive (msgs : list Json) : result Exn (option Z) :=
  match msgs with
  | [] => Ok None
  | msg :: msgs =>
      let! n := _main_agent_prompt_tokens msg in
      if 0 <? n then Ok (Some n) else first_positive msgs
  end.
(** [extract_context_tokens(chunks)] *)
Definition extract_context_tokens (chunks : list Json) : result Exn (option Z) := first_positive (rev chunks).

(** A chunk of this type with its usage. *)
Definition usage_in (type : string) (msg : Json) : option Json :=
  if is_str (jget_null msg "type") type && truthy (jget_null msg "usage") then Some (jget_null msg "usage") else None.

Fixpoint read_fields (keys : list string) (usage : Json) : result Exn (list Z) :=
  match keys with
  | [] => Ok []
  | key :: keys =>
      let! n := usage_of usage key in
      let! ns := read_fields keys usage in
      Ok (n :: ns)
  end.

(** The sums of some fields over usages, read one usage after the other. *)
Fixpoint sum_fields (keys : list string) (usages : list Json) : result Exn (list Z) :=
  match usages with
  | [] => Ok (map (fun _ => 0) keys)
  | u :: usages =>
      let! ns := read_fields keys u in
      let! sums := sum_fields keys usages in
      Ok (zip_with Z.add ns sums)
  end.
Definition field (n : nat) (sums : list Z) : Z := default 0 (sums !! n).

(** The usages that count: that of the last result, or those of all messages. *)
Definition counted_usages (chunks : list Json) : list Json :=
  match head (omap (usage_in "result") (rev chunks)) with
  | Some u => [u]
  | None => omap (usage_in "assistant") chunks
  end.

(** [extract_sdk_usage(chunks)]: the prompt and completion tokens. *)
Definition extract_sdk_usage (chunks : list Json) : result Exn (option (Z * Z)) :=
  match counted_usages chunks with
  | [] => Ok None
  | us =>
      let! n := sum_fields ["input_tokens"; "cache_creation_input_tokens"; "cache_read_input_tokens"; "output_tokens"] us in
      Ok (Some (field 0 n + field 1 n + field 2 n, field 3 n))
  end.

(** [estimate_tokens(text)] *)
Definition estimate_tokens (text : string) : Z := Z.of_nat (String.length text) / 4.

(** [resolve_token_usage(chunks, prompt, completion_text)] *)
Definition resolve_token_usage (chunks : list Json) (prompt completion : string) : result Exn (Z * Z) :=
  let! u := extract_sdk_usage chunks in
  Ok (default (estimate_tokens prompt, estimate_tokens completion) u).

Record InputDetails := MkInputDetails { cached : Z; cache_creation : Z; context_tokens : option Z }.

(** [resolve_usage_details(chunks)]; [extract_sdk_usage_detail] counts all four fields. *)
Definition resolve_usage_details (chunks : list Json) : result Exn InputDetails :=
  let! n := sum_fields ["input_tokens"; "output_tokens"; "cache_read_input_tokens"; "cache_creation_input_tokens"]
              (counted_usages chunks) in
  let! context := extract_context_tokens chunks in
  Ok (MkInputDetails (field 2 n) (field 3 n) context).

(** [extract_structured_output(chunks)]; [JNull] for [None]. *)
Definition extract_structured_output (chunks : list Json) : Json :=
  default JNull (head (omap (fun msg =>
    if is_str (jget_null msg "type") "result" && negb (is_null (jget_null msg "structured_output"))
    then Some (jget_null msg "structured_output") else None) (rev chunks))).
End chunks.
