(* ===== verification/Progress.v ===== *)
(** The custom events of a Responses stream ([src/src/sse_builders.py]): tasks, hooks,
    compaction, slash-command output, teammates, tools.

    An event is the dictionary that is serialized, without its number. *)

From S2P Require Import Prelude Json Raise Chunks.

(** The parent, when there is one. *)
Definition parent_field (parent : Json) : list (string * Json) :=
  if truthy parent then [("parent_tool_use_id", parent)] else [].

Definition data_of (chunk : Json) : Json :=
  if is_dict (jget_null chunk "data") then jget_null chunk "data" else JObj [].

(** A key, the empty text when it is missing. *)
Definition text_of (chunk : Json) (key : string) : Json := default (JStr "") (jget chunk key).

(** [_build_task_event(chunk)] *)
Definition _build_task_event (chunk : Json) : option Json :=
  let subtype := jget_null chunk "subtype" in
  let tool_use_id := jget_null chunk "tool_use_id" in
  let parent := or_else (jget_null chunk "parent_tool_use_id") tool_use_id in
  let data := data_of chunk in
  let tail := [("tool_use_id", tool_use_id); ("parent_tool_use_id", parent)] in
  if is_str subtype "task_started" then
    Some (JObj ([("type", JStr "task_started"); ("task_id", text_of chunk "task_id");
                 ("description", text_of chunk "description"); ("session_id", text_of chunk "session_id");
                 ("task_type", or_else (jget_null chunk "task_type") (jget_null data "task_type"));
                 ("subagent_type", or_else (jget_null chunk "subagent_type") (jget_null data "subagent_type"))] ++ tail))
  else if is_str subtype "task_progress" then
    Some (JObj ([("type", JStr "task_progress"); ("task_id", text_of chunk "task_id");
                 ("description", text_of chunk "description");
                 ("last_tool_name", jget_null chunk "last_tool_name"); ("usage", jget_null chunk "usage")] ++ tail))
  else if is_str subtype "task_notification" then
    Some (JObj ([("type", JStr "task_notification"); ("task_id", text_of chunk "task_id");
                 ("status", text_of chunk "status"); ("summary", text_of chunk "summary");
                 ("usage", jget_null chunk "usage")] ++ tail))
  else if is_str subtype "task_updated" then
    let patch := if is_dict (jget_null chunk "patch") then jget_null chunk "patch" else JObj [] in
    Some (JObj ([("type", JStr "task_updated"); ("task_id", text_of chunk "task_id");
                 ("status", or_else (jget_null chunk "status") (jget_null patch "status")); ("patch", patch);
                 ("session_id", jget_null chunk "session_id")] ++ tail))
  else None.

(** [_stream_identity(chunk)] *)
Definition Identity : Type := Json * Json.
Definition _stream_identity (chunk : Json) : Identity :=
  let data := data_of chunk in
  (or_else (jget_null chunk "parent_tool_use_id") (jget_null data "parent_tool_use_id"),
   or_else (jget_null chunk "session_id") (jget_null data "session_id")).

(** [_as_int(value)]: [None] is a null field. *)
Definition _as_int (value : Json) : result Exn Json :=
  match value with
  | JInt n => Ok (JInt n)
  | JFloat m e => match float_int m e with Some n => Ok (JInt n) | None => Err OverflowError end
  | _ => Ok JNull
  end.

(** ** [CompactionTracker] *)

Record Compacting := MkCompacting { is_open : bool; pending : option Json }.
Definition Tracker := list (Identity * Compacting).

(** [feed(event)]: what the client sees. *)
Definition feed (t : Tracker) (event : Json) : result Exn (Tracker * list Json) :=
  if negb (is_str (jget_null event "type") "compaction") then Ok (t, [event])
  else
    let key := _stream_identity event in
    let! _ := hashed (fst key) in
    let! _ := hashed (snd key) in
    let state := default (MkCompacting false None) (kget same_pair t key) in
    if is_str (jget_null event "phase") "start" then
      if is_open state then Ok (t, [])
      else Ok (kset same_pair t key (MkCompacting true (pending state)), [event])
    else if is_str (jget_null event "subtype") "compact_boundary" then
      Ok (kdel same_pair t key,
          [match pending state with Some p => jset event "result" (jget_null p "result") | None => event end])
    else Ok (kset same_pair t key (MkCompacting (is_open state) (Some event)), []).

(** [_same_stream(key, identity)] *)
Definition _same_stream (key identity : Identity) : bool :=
  if negb (same_key (fst key) (fst identity)) then false
  else if negb (is_null (snd key)) && negb (is_null (snd identity)) then same_key (snd key) (snd identity)
  else true.

(** [flush(chunk)] with the identity of the chunk: the loop over the streams. *)
Fixpoint flush (t : Tracker) (identity : option Identity) : Tracker * list Json :=
  match t with
  | [] => ([], [])
  | (key, state) :: t =>
      let (t', closed) := flush t identity in
      let mine := match identity with Some i => _same_stream key i | None => true end in
      match pending state with
      | Some event => if mine then (t', event :: closed) else ((key, state) :: t', closed)
      | None => ((key, state) :: t', closed)
      end
  end.

(** ** Progress events *)

(** [STREAM_HOOK_EVENTS], [STREAM_COMPACTION_EVENTS], [STREAM_LOCAL_COMMAND_OUTPUT],
    [STREAM_TOOL_PROGRESS], [SUBAGENT_STREAM_TEXT], [SUBAGENT_STREAM_TOOL_BLOCKS],
    [SUBAGENT_STREAM_PROGRESS] *)
Record Switches := MkSwitches {
  hook_events : bool;
  compaction_events : bool;
  local_command_output : bool;
  tool_progress : bool;
  subagent_text : bool;
  subagent_tool_blocks : bool;
  subagent_progress : bool;
}.

(** [_build_progress_event(chunk)] *)
Definition _build_progress_event (sw : Switches) (chunk : Json) : result Exn (option Json) :=
  let subtype := jget_null chunk "subtype" in
  let data := data_of chunk in
  let (parent, session) := _stream_identity chunk in
  if is_str subtype "hook_started" || is_str subtype "hook_response" then
    if negb (hook_events sw) then Ok None
    else
      let name := or_else (jget_null chunk "hook_event_name") (or_else (jget_null data "hook_event")
                    (or_else (jget_null data "hook_event_name") (or_else (jget_null data "hook_name") (JStr "")))) in
      Ok (Some (JObj ([("type", JStr "hook_event"); ("phase", subtype); ("hook_event_name", name);
                       ("tool_name", or_else (jget_null data "tool_name") (jget_null data "tool"));
                       ("tool_use_id", or_else (jget_null data "tool_use_id") (jget_null chunk "tool_use_id"));
                       ("outcome", jget_null data "outcome"); ("session_id", session)]
                      ++ if is_null parent then [] else [("parent_tool_use_id", parent)])))
  else if is_str subtype "compact_boundary" || is_str subtype "compaction" then
    if negb (compaction_events sw) then Ok None
    else
      let meta := if is_dict (jget_null data "compact_metadata") then jget_null data "compact_metadata" else JObj [] in
      let trigger := if is_null (jget_null data "trigger") then jget_null meta "trigger" else jget_null data "trigger" in
      let! pre := _as_int (jget_null meta "pre_tokens") in
      let! post := _as_int (jget_null meta "post_tokens") in
      let! duration := _as_int (jget_null meta "duration_ms") in
      Ok (Some (JObj ([("type", JStr "compaction"); ("subtype", subtype); ("phase", JStr "end"); ("trigger", trigger)]
                      ++ parent_field parent
                      ++ [("pre_tokens", pre); ("post_tokens", post); ("duration_ms", duration); ("session_id", session)])))
  else if is_str subtype "status" then
    if negb (compaction_events sw) then Ok None
    else
      let status := jget_null data "status" in
      if is_str status "compacting" then
        Ok (Some (JObj ([("type", JStr "compaction"); ("subtype", subtype); ("phase", JStr "start"); ("trigger", JNull)]
                        ++ parent_field parent ++ [("session_id", session)])))
      else if is_null status && negb (is_null (jget_null data "compact_result")) then
        Ok (Some (JObj ([("type", JStr "compaction"); ("subtype", subtype); ("phase", JStr "end"); ("trigger", JNull);
                         ("result", jget_null data "compact_result"); ("pre_tokens", JNull); ("post_tokens", JNull);
                         ("duration_ms", JNull)] ++ parent_field parent ++ [("session_id", session)])))
      else Ok None
  else if is_str subtype "local_command_output" then
    if negb (local_command_output sw) then Ok None
    else match nonempty (jget_null data "content") with
         | Some content =>
             Ok (Some (JObj ([("type", JStr "local_command_output"); ("content", JStr content)]
                             ++ parent_field parent ++ [("session_id", session)])))
         | None => Ok None
         end
  else Ok None.

(** ** Teammates *)

Definition _TEAMMATE_MESSAGE_MARKERS : list string :=
  ["Another Claude session sent a message"; "This came from another Claude session"].

(** [is_teammate_message_text(text)] *)
Definition is_teammate_message_text (text : string) : bool :=
  forallb (fun marker => CollabFilter.has_sub marker text) _TEAMMATE_MESSAGE_MARKERS.

Definition is_alnum (c : Ascii.ascii) : bool :=
  let n := Ascii.nat_of_ascii c in
  is_digit c || ((65 <=? n)%nat && (n <=? 90)%nat) || ((97 <=? n)%nat && (n <=? 122)%nat).
Definition is_word (c : Ascii.ascii) : bool := is_alnum c || Ascii.eqb c underscore.
Definition is_address (c : Ascii.ascii) : bool :=
  is_word c || Ascii.eqb c (Ascii.ascii_of_nat 46) || Ascii.eqb c (Ascii.ascii_of_nat 45).

Fixpoint take_while (p : Ascii.ascii -> bool) (s : string) : string :=
  match s with
  | String c s => if p c then String c (take_while p s) else EmptyString
  | EmptyString => EmptyString
  end.

(** [\bfrom=([A-Za-z0-9._-]+)], the first match; [prev]: a word character came just before. *)
Fixpoint search_from (prev : bool) (s : string) : option string :=
  match s with
  | EmptyString => None
  | String c s' =>
      let here :=
        if prev then None
        else match strip_prefix "from=" s with
             | Some rest => Chunks.some_text (take_while is_address rest)
             | None => None
             end in
      match here with Some a => Some a | None => search_from (is_word c) s' end
  end.

Definition quote_s : string := String CollabFilter.quote EmptyString.

(** [teammate_id=] and a quoted, non-empty id here *)
Definition id_here (s : string) : option string :=
  match strip_prefix (String.append "teammate_id=" quote_s) s with
  | Some rest => if has_char CollabFilter.quote rest then Chunks.some_text (before_char CollabFilter.quote rest) else None
  | None => None
  end.

(** The last such place within the tag, at a word boundary. *)
Fixpoint id_in_tag (prev : bool) (s : string) : option string :=
  match s with
  | EmptyString => None
  | String c s' =>
      let later := if Ascii.eqb c (Ascii.ascii_of_nat 62) then None else id_in_tag (is_word c) s' in
      match later with Some a => Some a | None => if prev then None else id_here s end
  end.

(** [_TEAMMATE_TAG_ID_RE.search]: the first tag with an id. *)
Fixpoint search_tag (s : string) : option string :=
  match s with
  | EmptyString => None
  | String _ s' =>
      let here :=
        match strip_prefix "<teammate-message" s with
        | Some (String c _ as rest) => if is_word c then None else id_in_tag true rest
        | _ => None
        end in
      match here with Some a => Some a | None => search_tag s' end
  end.

(** [parse_teammate_message_from(text)] *)
Definition parse_teammate_message_from (text : string) : option string :=
  match search_tag text with Some a => Some a | None => search_from false text end.

Definition opt_str (o : option string) : Json := match o with Some s => JStr s | None => JNull end.

(** ** Events: their type, and their fields before the number *)

Definition Custom : Type := string * list (string * Json).

(** [make_task_response_sse(task_event)] *)
Definition make_task_response_sse (event : Json) : Custom :=
  let type := String.append "response." (match jget_null event "type" with JStr t => t | _ => "" end) in
  (type, match jset event "type" (JStr type) with JObj d => d | _ => [] end).

(** [make_teammate_message_response_sse(text, session_id)] *)
Definition make_teammate_message_response_sse (text : string) (session_id : Json) : Custom :=
  ("response.teammate_message",
    [("type", JStr "response.teammate_message"); ("text", JStr text);
     ("from", opt_str (parse_teammate_message_from text)); ("session_id", session_id)]).

(** [make_tool_use_started_response_sse(tool_use_id, name, parent_tool_use_id)] *)
Definition make_tool_use_started_response_sse (tool_use_id name parent : Json) : Custom :=
  ("response.tool_use_started",
    [("type", JStr "response.tool_use_started"); ("tool_use_id", or_else tool_use_id (JStr ""));
     ("name", or_else name (JStr ""))] ++ parent_field parent).

(** [make_tool_progress_response_sse(...)] *)
Definition make_tool_progress_response_sse (tool_use_id name : Json) (elapsed : Z) (source : string)
    (parent : Json) (message : option string) (progress total : Json) : Custom :=
  ("response.tool_progress",
    [("type", JStr "response.tool_progress"); ("tool_use_id", or_else tool_use_id (JStr ""));
     ("name", or_else name (JStr "")); ("elapsed_seconds", JInt elapsed); ("source", JStr source)]
    ++ parent_field parent
    ++ match message with Some m => [("message", JStr m)] | None => [] end
    ++ (if is_null progress then [] else [("progress", progress)])
    ++ (if is_null total then [] else [("total", total)])).

(** [make_tool_use_response_sse(tool_block, parent_tool_use_id)] *)
Definition make_tool_use_response_sse (tool_block parent : Json) : Custom :=
  ("response.tool_use",
    [("type", JStr "response.tool_use"); ("tool_use_id", text_of tool_block "id"); ("name", text_of tool_block "name");
     ("input", default (JObj []) (jget tool_block "input"))] ++ parent_field parent).

(** [make_tool_result_response_sse(result_block, parent_tool_use_id)] *)
Definition make_tool_result_response_sse (repr : Json -> string) (block parent : Json) : Custom :=
  ("response.tool_result",
    match jset (normalize_tool_result_for_sse repr block) "type" (JStr "response.tool_result") with
    | JObj d => d ++ parent_field parent
    | _ => []
    end).
