(* ===== verification/ResponsesStream.v ===== *)
(** The event stream of [/v1/responses] ([stream_response_chunks] and [_keepalive_wrapper] of
    [src/src/streaming_utils.py]).

    The generator is a program over its local variables ([St]) that yields [Frame]s and may
    raise ([M]); what a list of events under construction loses when it raises is lost here
    too ([listing]).  What the SDK does is a list of [Arrival]s; its end is the end of the
    source.  [hex n] is the [n]-th [uuid4().hex[:24]], and the pydantic models are records. *)

From stdpp Require Import pretty.
From S2P Require Import Prelude Json Raise CollabFilter Chunks Progress.

(** ** Data *)

Inductive OutItem :=
| MessageItem (id status text : string)
| ReasoningItem (id status text : string).

Record Usage := MkUsage { input_tokens : Z; output_tokens : Z; details : InputDetails }.

(** [ResponseObject]: one that ended the turn. *)
Record Response := MkResponse {
  r_status : string;
  r_output : list OutItem;
  r_usage : Usage;
  r_reason : option string;       (* incomplete_details.reason *)
  r_structured : Json;
}.

Inductive NewItem := NewMessage (id : string) | NewReasoning (id : string).

Inductive Payload :=
| Created
| InProgress
| ItemAdded (oi : Z) (item : NewItem)
| ContentPartAdded (id : string) (oi : Z)
| OutputTextDelta (id : string) (oi : Z) (delta : string)
| AnnotationAdded (id : string) (oi index : Z) (annotation : Json)
| OutputTextDone (id : string) (oi : Z) (text : string)
| ContentPartDone (id : string) (oi : Z) (text : string)
| SummaryPartAdded (id : string) (oi : Z)
| SummaryTextDelta (id : string) (oi : Z) (delta : string)
| ReasoningTextDelta (id : string) (oi : Z) (delta : string)
| SummaryTextDone (id : string) (oi : Z) (text : string)
| ReasoningTextDone (id : string) (oi : Z) (text : string)
| SummaryPartDone (id : string) (oi : Z) (text : string)
| ItemDone (oi : Z) (item : OutItem)
| Completed (r : Response)
| Incomplete (r : Response)
| Failed (code message : string)
| Other (c : Custom).

(** A line of the stream. *)
Inductive Frame := Keepalive | Event (p : Payload) (seq : Z).

(** [stream_result] *)
Record Outcome := MkOutcome {
  o_success : option bool;
  o_empty : bool;
  o_paused : bool;
  o_interrupted : bool;
  o_text : option (string * list string);   (* assistant_text and thinking_texts *)
  o_response : option Response;
}.

(** The local variables. *)
Record St := MkSt {
  content_sent : bool;
  token_streaming : bool;
  in_thinking : bool;
  accs : Accs;
  collab : Filter;
  full_text : list string;
  all_visible_text : list string;
  seq : Z;
  annotation_index : Z;
  message_item_opened : bool;
  any_message_item : bool;
  output_index : Z;
  output_item_id : string;
  reasoning_item : option string;           (* reasoning_open with its id *)
  reasoning_text_buf : list string;
  reasoning_pending : bool;
  reasoning_pending_buf : list string;
  reasoning_emitted : bool;
  thinking_texts : list string;
  thinking_capture_buf : list string;
  completed_output_items : list OutItem;
  tool_stats : Stats;
  tool_names_by_id : odict string string;
  compaction : Tracker;
  chunks_buffer : list Json;
  last_item_at : Z;
  outcome : Outcome;
  minted : nat;
}.

(** Assignments *)
Definition set_content_sent x s := MkSt
  x (token_streaming s) (in_thinking s) (accs s) (collab s) (full_text s) (all_visible_text s) (seq s)
  (annotation_index s) (message_item_opened s) (any_message_item s) (output_index s) (output_item_id s)
  (reasoning_item s) (reasoning_text_buf s) (reasoning_pending s) (reasoning_pending_buf s)
  (reasoning_emitted s) (thinking_texts s) (thinking_capture_buf s) (completed_output_items s)
  (tool_stats s) (tool_names_by_id s) (compaction s) (chunks_buffer s) (last_item_at s) (outcome s)
  (minted s).
Definition set_token_streaming x s := MkSt
  (content_sent s) x (in_thinking s) (accs s) (collab s) (full_text s) (all_visible_text s) (seq s)
  (annotation_index s) (message_item_opened s) (any_message_item s) (output_index s) (output_item_id s)
  (reasoning_item s) (reasoning_text_buf s) (reasoning_pending s) (reasoning_pending_buf s)
  (reasoning_emitted s) (thinking_texts s) (thinking_capture_buf s) (completed_output_items s)
  (tool_stats s) (tool_names_by_id s) (compaction s) (chunks_buffer s) (last_item_at s) (outcome s)
  (minted s).
Definition set_in_thinking x s := MkSt
  (content_sent s) (token_streaming s) x (accs s) (collab s) (full_text s) (all_visible_text s) (seq s)
  (annotation_index s) (message_item_opened s) (any_message_item s) (output_index s) (output_item_id s)
  (reasoning_item s) (reasoning_text_buf s) (reasoning_pending s) (reasoning_pending_buf s)
  (reasoning_emitted s) (thinking_texts s) (thinking_capture_buf s) (completed_output_items s)
  (tool_stats s) (tool_names_by_id s) (compaction s) (chunks_buffer s) (last_item_at s) (outcome s)
  (minted s).
Definition set_accs x s := MkSt
  (content_sent s) (token_streaming s) (in_thinking s) x (collab s) (full_text s) (all_visible_text s)
  (seq s) (annotation_index s) (message_item_opened s) (any_message_item s) (output_index s)
  (output_item_id s) (reasoning_item s) (reasoning_text_buf s) (reasoning_pending s)
  (reasoning_pending_buf s) (reasoning_emitted s) (thinking_texts s) (thinking_capture_buf s)
  (completed_output_items s) (tool_stats s) (tool_names_by_id s) (compaction s) (chunks_buffer s)
  (last_item_at s) (outcome s) (minted s).
Definition set_collab x s := MkSt
  (content_sent s) (token_streaming s) (in_thinking s) (accs s) x (full_text s) (all_visible_text s)
  (seq s) (annotation_index s) (message_item_opened s) (any_message_item s) (output_index s)
  (output_item_id s) (reasoning_item s) (reasoning_text_buf s) (reasoning_pending s)
  (reasoning_pending_buf s) (reasoning_emitted s) (thinking_texts s) (thinking_capture_buf s)
  (completed_output_items s) (tool_stats s) (tool_names_by_id s) (compaction s) (chunks_buffer s)
  (last_item_at s) (outcome s) (minted s).
Definition set_full_text x s := MkSt
  (content_sent s) (token_streaming s) (in_thinking s) (accs s) (collab s) x (all_visible_text s) (seq s)
  (annotation_index s) (message_item_opened s) (any_message_item s) (output_index s) (output_item_id s)
  (reasoning_item s) (reasoning_text_buf s) (reasoning_pending s) (reasoning_pending_buf s)
  (reasoning_emitted s) (thinking_texts s) (thinking_capture_buf s) (completed_output_items s)
  (tool_stats s) (tool_names_by_id s) (compaction s) (chunks_buffer s) (last_item_at s) (outcome s)
  (minted s).
Definition set_all_visible_text x s := MkSt
  (content_sent s) (token_streaming s) (in_thinking s) (accs s) (collab s) (full_text s) x (seq s)
  (annotation_index s) (message_item_opened s) (any_message_item s) (output_index s) (output_item_id s)
  (reasoning_item s) (reasoning_text_buf s) (reasoning_pending s) (reasoning_pending_buf s)
  (reasoning_emitted s) (thinking_texts s) (thinking_capture_buf s) (completed_output_items s)
  (tool_stats s) (tool_names_by_id s) (compaction s) (chunks_buffer s) (last_item_at s) (outcome s)
  (minted s).
Definition set_seq x s := MkSt
  (content_sent s) (token_streaming s) (in_thinking s) (accs s) (collab s) (full_text s)
  (all_visible_text s) x (annotation_index s) (message_item_opened s) (any_message_item s)
  (output_index s) (output_item_id s) (reasoning_item s) (reasoning_text_buf s) (reasoning_pending s)
  (reasoning_pending_buf s) (reasoning_emitted s) (thinking_texts s) (thinking_capture_buf s)
  (completed_output_items s) (tool_stats s) (tool_names_by_id s) (compaction s) (chunks_buffer s)
  (last_item_at s) (outcome s) (minted s).
Definition set_annotation_index x s := MkSt
  (content_sent s) (token_streaming s) (in_thinking s) (accs s) (collab s) (full_text s)
  (all_visible_text s) (seq s) x (message_item_opened s) (any_message_item s) (output_index s)
  (output_item_id s) (reasoning_item s) (reasoning_text_buf s) (reasoning_pending s)
  (reasoning_pending_buf s) (reasoning_emitted s) (thinking_texts s) (thinking_capture_buf s)
  (completed_output_items s) (tool_stats s) (tool_names_by_id s) (compaction s) (chunks_buffer s)
  (last_item_at s) (outcome s) (minted s).
Definition set_message_item_opened x s := MkSt
  (content_sent s) (token_streaming s) (in_thinking s) (accs s) (collab s) (full_text s)
  (all_visible_text s) (seq s) (annotation_index s) x (any_message_item s) (output_index s)
  (output_item_id s) (reasoning_item s) (reasoning_text_buf s) (reasoning_pending s)
  (reasoning_pending_buf s) (reasoning_emitted s) (thinking_texts s) (thinking_capture_buf s)
  (completed_output_items s) (tool_stats s) (tool_names_by_id s) (compaction s) (chunks_buffer s)
  (last_item_at s) (outcome s) (minted s).
Definition set_any_message_item x s := MkSt
  (content_sent s) (token_streaming s) (in_thinking s) (accs s) (collab s) (full_text s)
  (all_visible_text s) (seq s) (annotation_index s) (message_item_opened s) x (output_index s)
  (output_item_id s) (reasoning_item s) (reasoning_text_buf s) (reasoning_pending s)
  (reasoning_pending_buf s) (reasoning_emitted s) (thinking_texts s) (thinking_capture_buf s)
  (completed_output_items s) (tool_stats s) (tool_names_by_id s) (compaction s) (chunks_buffer s)
  (last_item_at s) (outcome s) (minted s).
Definition set_output_index x s := MkSt
  (content_sent s) (token_streaming s) (in_thinking s) (accs s) (collab s) (full_text s)
  (all_visible_text s) (seq s) (annotation_index s) (message_item_opened s) (any_message_item s) x
  (output_item_id s) (reasoning_item s) (reasoning_text_buf s) (reasoning_pending s)
  (reasoning_pending_buf s) (reasoning_emitted s) (thinking_texts s) (thinking_capture_buf s)
  (completed_output_items s) (tool_stats s) (tool_names_by_id s) (compaction s) (chunks_buffer s)
  (last_item_at s) (outcome s) (minted s).
Definition set_output_item_id x s := MkSt
  (content_sent s) (token_streaming s) (in_thinking s) (accs s) (collab s) (full_text s)
  (all_visible_text s) (seq s) (annotation_index s) (message_item_opened s) (any_message_item s)
  (output_index s) x (reasoning_item s) (reasoning_text_buf s) (reasoning_pending s)
  (reasoning_pending_buf s) (reasoning_emitted s) (thinking_texts s) (thinking_capture_buf s)
  (completed_output_items s) (tool_stats s) (tool_names_by_id s) (compaction s) (chunks_buffer s)
  (last_item_at s) (outcome s) (minted s).
Definition set_reasoning_item x s := MkSt
  (content_sent s) (token_streaming s) (in_thinking s) (accs s) (collab s) (full_text s)
  (all_visible_text s) (seq s) (annotation_index s) (message_item_opened s) (any_message_item s)
  (output_index s) (output_item_id s) x (reasoning_text_buf s) (reasoning_pending s)
  (reasoning_pending_buf s) (reasoning_emitted s) (thinking_texts s) (thinking_capture_buf s)
  (completed_output_items s) (tool_stats s) (tool_names_by_id s) (compaction s) (chunks_buffer s)
  (last_item_at s) (outcome s) (minted s).
Definition set_reasoning_text_buf x s := MkSt
  (content_sent s) (token_streaming s) (in_thinking s) (accs s) (collab s) (full_text s)
  (all_visible_text s) (seq s) (annotation_index s) (message_item_opened s) (any_message_item s)
  (output_index s) (output_item_id s) (reasoning_item s) x (reasoning_pending s) (reasoning_pending_buf s)
  (reasoning_emitted s) (thinking_texts s) (thinking_capture_buf s) (completed_output_items s)
  (tool_stats s) (tool_names_by_id s) (compaction s) (chunks_buffer s) (last_item_at s) (outcome s)
  (minted s).
Definition set_reasoning_pending x s := MkSt
  (content_sent s) (token_streaming s) (in_thinking s) (accs s) (collab s) (full_text s)
  (all_visible_text s) (seq s) (annotation_index s) (message_item_opened s) (any_message_item s)
  (output_index s) (output_item_id s) (reasoning_item s) (reasoning_text_buf s) x
  (reasoning_pending_buf s) (reasoning_emitted s) (thinking_texts s) (thinking_capture_buf s)
  (completed_output_items s) (tool_stats s) (tool_names_by_id s) (compaction s) (chunks_buffer s)
  (last_item_at s) (outcome s) (minted s).
Definition set_reasoning_pending_buf x s := MkSt
  (content_sent s) (token_streaming s) (in_thinking s) (accs s) (collab s) (full_text s)
  (all_visible_text s) (seq s) (annotation_index s) (message_item_opened s) (any_message_item s)
  (output_index s) (output_item_id s) (reasoning_item s) (reasoning_text_buf s) (reasoning_pending s) x
  (reasoning_emitted s) (thinking_texts s) (thinking_capture_buf s) (completed_output_items s)
  (tool_stats s) (tool_names_by_id s) (compaction s) (chunks_buffer s) (last_item_at s) (outcome s)
  (minted s).
Definition set_reasoning_emitted x s := MkSt
  (content_sent s) (token_streaming s) (in_thinking s) (accs s) (collab s) (full_text s)
  (all_visible_text s) (seq s) (annotation_index s) (message_item_opened s) (any_message_item s)
  (output_index s) (output_item_id s) (reasoning_item s) (reasoning_text_buf s) (reasoning_pending s)
  (reasoning_pending_buf s) x (thinking_texts s) (thinking_capture_buf s) (completed_output_items s)
  (tool_stats s) (tool_names_by_id s) (compaction s) (chunks_buffer s) (last_item_at s) (outcome s)
  (minted s).
Definition set_thinking_texts x s := MkSt
  (content_sent s) (token_streaming s) (in_thinking s) (accs s) (collab s) (full_text s)
  (all_visible_text s) (seq s) (annotation_index s) (message_item_opened s) (any_message_item s)
  (output_index s) (output_item_id s) (reasoning_item s) (reasoning_text_buf s) (reasoning_pending s)
  (reasoning_pending_buf s) (reasoning_emitted s) x (thinking_capture_buf s) (completed_output_items s)
  (tool_stats s) (tool_names_by_id s) (compaction s) (chunks_buffer s) (last_item_at s) (outcome s)
  (minted s).
Definition set_thinking_capture_buf x s := MkSt
  (content_sent s) (token_streaming s) (in_thinking s) (accs s) (collab s) (full_text s)
  (all_visible_text s) (seq s) (annotation_index s) (message_item_opened s) (any_message_item s)
  (output_index s) (output_item_id s) (reasoning_item s) (reasoning_text_buf s) (reasoning_pending s)
  (reasoning_pending_buf s) (reasoning_emitted s) (thinking_texts s) x (completed_output_items s)
  (tool_stats s) (tool_names_by_id s) (compaction s) (chunks_buffer s) (last_item_at s) (outcome s)
  (minted s).
Definition set_completed_output_items x s := MkSt
  (content_sent s) (token_streaming s) (in_thinking s) (accs s) (collab s) (full_text s)
  (all_visible_text s) (seq s) (annotation_index s) (message_item_opened s) (any_message_item s)
  (output_index s) (output_item_id s) (reasoning_item s) (reasoning_text_buf s) (reasoning_pending s)
  (reasoning_pending_buf s) (reasoning_emitted s) (thinking_texts s) (thinking_capture_buf s) x
  (tool_stats s) (tool_names_by_id s) (compaction s) (chunks_buffer s) (last_item_at s) (outcome s)
  (minted s).
Definition set_tool_stats x s := MkSt
  (content_sent s) (token_streaming s) (in_thinking s) (accs s) (collab s) (full_text s)
  (all_visible_text s) (seq s) (annotation_index s) (message_item_opened s) (any_message_item s)
  (output_index s) (output_item_id s) (reasoning_item s) (reasoning_text_buf s) (reasoning_pending s)
  (reasoning_pending_buf s) (reasoning_emitted s) (thinking_texts s) (thinking_capture_buf s)
  (completed_output_items s) x (tool_names_by_id s) (compaction s) (chunks_buffer s) (last_item_at s)
  (outcome s) (minted s).
Definition set_tool_names_by_id x s := MkSt
  (content_sent s) (token_streaming s) (in_thinking s) (accs s) (collab s) (full_text s)
  (all_visible_text s) (seq s) (annotation_index s) (message_item_opened s) (any_message_item s)
  (output_index s) (output_item_id s) (reasoning_item s) (reasoning_text_buf s) (reasoning_pending s)
  (reasoning_pending_buf s) (reasoning_emitted s) (thinking_texts s) (thinking_capture_buf s)
  (completed_output_items s) (tool_stats s) x (compaction s) (chunks_buffer s) (last_item_at s)
  (outcome s) (minted s).
Definition set_compaction x s := MkSt
  (content_sent s) (token_streaming s) (in_thinking s) (accs s) (collab s) (full_text s)
  (all_visible_text s) (seq s) (annotation_index s) (message_item_opened s) (any_message_item s)
  (output_index s) (output_item_id s) (reasoning_item s) (reasoning_text_buf s) (reasoning_pending s)
  (reasoning_pending_buf s) (reasoning_emitted s) (thinking_texts s) (thinking_capture_buf s)
  (completed_output_items s) (tool_stats s) (tool_names_by_id s) x (chunks_buffer s) (last_item_at s)
  (outcome s) (minted s).
Definition set_chunks_buffer x s := MkSt
  (content_sent s) (token_streaming s) (in_thinking s) (accs s) (collab s) (full_text s)
  (all_visible_text s) (seq s) (annotation_index s) (message_item_opened s) (any_message_item s)
  (output_index s) (output_item_id s) (reasoning_item s) (reasoning_text_buf s) (reasoning_pending s)
  (reasoning_pending_buf s) (reasoning_emitted s) (thinking_texts s) (thinking_capture_buf s)
  (completed_output_items s) (tool_stats s) (tool_names_by_id s) (compaction s) x (last_item_at s)
  (outcome s) (minted s).
Definition set_last_item_at x s := MkSt
  (content_sent s) (token_streaming s) (in_thinking s) (accs s) (collab s) (full_text s)
  (all_visible_text s) (seq s) (annotation_index s) (message_item_opened s) (any_message_item s)
  (output_index s) (output_item_id s) (reasoning_item s) (reasoning_text_buf s) (reasoning_pending s)
  (reasoning_pending_buf s) (reasoning_emitted s) (thinking_texts s) (thinking_capture_buf s)
  (completed_output_items s) (tool_stats s) (tool_names_by_id s) (compaction s) (chunks_buffer s) x
  (outcome s) (minted s).
Definition set_outcome x s := MkSt
  (content_sent s) (token_streaming s) (in_thinking s) (accs s) (collab s) (full_text s)
  (all_visible_text s) (seq s) (annotation_index s) (message_item_opened s) (any_message_item s)
  (output_index s) (output_item_id s) (reasoning_item s) (reasoning_text_buf s) (reasoning_pending s)
  (reasoning_pending_buf s) (reasoning_emitted s) (thinking_texts s) (thinking_capture_buf s)
  (completed_output_items s) (tool_stats s) (tool_names_by_id s) (compaction s) (chunks_buffer s)
  (last_item_at s) x (minted s).
Definition set_minted x s := MkSt
  (content_sent s) (token_streaming s) (in_thinking s) (accs s) (collab s) (full_text s)
  (all_visible_text s) (seq s) (annotation_index s) (message_item_opened s) (any_message_item s)
  (output_index s) (output_item_id s) (reasoning_item s) (reasoning_text_buf s) (reasoning_pending s)
  (reasoning_pending_buf s) (reasoning_emitted s) (thinking_texts s) (thinking_capture_buf s)
  (completed_output_items s) (tool_stats s) (tool_names_by_id s) (compaction s) (chunks_buffer s)
  (last_item_at s) (outcome s) x.

(** ** Programs *)

(** What ends a turn: a Python exception, or [StreamStallError] with its text. *)
Inductive Raised := Py (e : Exn) | Stall (message : string).

Definition M (A : Type) : Type := St -> St * list Frame * result Raised A.

Definition ret {A} (a : A) : M A := fun s => (s, [], Ok a).
Definition bind {A B} (m : M A) (f : A -> M B) : M B := fun s =>
  let '(s1, fs1, r) := m s in
  match r with
  | Ok a => let '(s2, fs2, r2) := f a s1 in (s2, fs1 ++ fs2, r2)
  | Err e => (s1, fs1, Err e)
  end.
Notation "'do!' x ':=' m 'in' k" := (bind m (fun x => k)) (at level 10, x pattern, m at level 100, k at level 200).
Notation "m ;; k" := (bind m (fun _ => k)) (at level 100, right associativity).

Definition raise {A} (e : Raised) : M A := fun s => (s, [], Err e).
Definition py {A} (r : result Exn A) : M A :=
  match r with Ok a => ret a | Err e => raise (Py e) end.
Definition update (f : St -> St) : M unit := fun s => (f s, [], Ok tt).
Definition read {A} (f : St -> A) : M A := fun s => (s, [], Ok (f s)).
Definition when (b : bool) (m : M unit) : M unit := if b then m else ret tt.
Fixpoint each {A} (l : list A) (m : A -> M unit) : M unit :=
  match l with [] => ret tt | x :: l => m x ;; each l m end.

(** [yield make_response_sse(..., sequence_number=_next_seq())] *)
Definition emit (p : Payload) : M unit := fun s => (set_seq (seq s + 1) s, [Event p (seq s)], Ok tt).

(** A list of events that is built first, and yielded when it is complete. *)
Definition listing (m : M unit) : M unit := fun s =>
  let '(s1, fs, r) := m s in
  match r with Ok _ => (s1, fs, r) | Err _ => (s1, [], r) end.

(** The text of a list of fragments *)
Definition join (l : list string) : string := String.concat "" l.

Section stream.
Context (json_loads : string -> result Exn Json) (json_dumps : Json -> string) (repr : Json -> string).
Context (hex : nat -> string) (sw : Switches).

(** The arguments of the generator; [call_id] is the [function_call_output_call_id] of the
    request context, and the times are in seconds. *)
Record Turn := MkTurn {
  first_item_id : string;
  prompt_text : string;
  may_emit_collab : bool;
  call_id : Json;
  stall_timeout : Z;
  tool_stall_timeout : Z;
}.
Context (turn : Turn).

Definition init (now : Z) : St :=
  MkSt false false false [] idle [] [] 0 0 false false 0 (first_item_id turn) None [] false [] false [] [] []
    no_stats [] [] [] now (MkOutcome None false false false None None) 0.

(** ** Items *)

(** [f"{prefix}_{uuid.uuid4().hex[:24]}"] *)
Definition new_id (prefix : string) : M string := fun s =>
  (set_minted (S (minted s)) s, [], Ok (String.append prefix (hex (minted s)))).

(** [_open_message_item()] *)
Definition _open_message_item : M unit :=
  do! opened := read message_item_opened in
  if opened then ret tt
  else
    update (set_message_item_opened true) ;;
    update (set_any_message_item true) ;;
    do! id := read output_item_id in
    do! oi := read output_index in
    emit (ItemAdded oi (NewMessage id)) ;;
    emit (ContentPartAdded id oi).

(** [_emit_delta(text)] and what every caller does with the text *)
Definition _emit_delta (text : string) : M unit :=
  do! id := read output_item_id in
  do! oi := read output_index in
  emit (OutputTextDelta id oi text).
Definition visible_text (text : string) : M unit :=
  _emit_delta text ;;
  update (fun s => set_full_text (full_text s ++ [text]) s) ;;
  update (fun s => set_all_visible_text (all_visible_text s ++ [text]) s) ;;
  update (set_content_sent true).

(** [_close_thinking_capture()] *)
Definition _close_thinking_capture : M unit :=
  update (fun s =>
    let text := join (thinking_capture_buf s) in
    set_thinking_capture_buf []
      (if bool_decide (text = EmptyString) then s else set_thinking_texts (thinking_texts s ++ [text]) s)).

(** [completed_output_items.append(item)] *)
Definition record_item (item : OutItem) : M unit :=
  update (fun s => set_completed_output_items (completed_output_items s ++ [item]) s).

Definition next_output_index : M unit := update (fun s => set_output_index (output_index s + 1) s).

(** [_close_reasoning(status)] *)
Definition _close_reasoning (status : string) : M unit :=
  do! open := read reasoning_item in
  match open with
  | None => ret tt
  | Some id =>
      do! text := read (fun s => join (reasoning_text_buf s)) in
      do! oi := read output_index in
      let item := ReasoningItem id status text in
      record_item item ;;
      emit (SummaryTextDone id oi text) ;;
      emit (ReasoningTextDone id oi text) ;;
      emit (SummaryPartDone id oi text) ;;
      emit (ItemDone oi item) ;;
      update (set_reasoning_item None) ;;
      update (set_reasoning_text_buf []) ;;
      next_output_index
  end.

(** [collab_filter.flush()] *)
Definition flush_collab : M string := fun s =>
  let (f, held) := CollabFilter.flush (collab s) in (set_collab f s, [], Ok held).

(** [_close_message_item(status)] *)
Definition _close_message_item (status : string) : M unit :=
  do! opened := read message_item_opened in
  if negb opened then ret tt
  else
    do! remaining := flush_collab in
    when (negb (bool_decide (remaining = EmptyString))) (visible_text remaining) ;;
    do! text := read (fun s => join (full_text s)) in
    do! id := read output_item_id in
    do! oi := read output_index in
    let item := MessageItem id status text in
    emit (OutputTextDone id oi text) ;;
    emit (ContentPartDone id oi text) ;;
    emit (ItemDone oi item) ;;
    record_item item ;;
    update (set_message_item_opened false) ;;
    update (set_full_text []) ;;
    update (set_annotation_index 0) ;;
    next_output_index ;;
    do! next := new_id "msg_" in
    update (set_output_item_id next).

(** The lines of [if text:] with a message item. *)
Definition say (text : string) : M unit := _open_message_item ;; visible_text text.

(** ** Tools *)

(** [_remember_tool_use(tool_names_by_id, tool_block)] *)
Definition _remember_tool_use (block : Json) : M unit :=
  match nonempty (or_else (block_field block "id") (block_field block "tool_use_id")), nonempty (block_field block "name") with
  | Some id, Some name => update (fun s => set_tool_names_by_id (dict_set (tool_names_by_id s) id name) s)
  | _, _ => ret tt
  end.

(** [_record_tool_use(tool_stats, tool_block)] *)
Definition _record_tool_use (now : Z) (block : Json) : M unit :=
  do! t := read tool_stats in
  do! t := py (record_use now t (or_else (block_field block "id") (block_field block "tool_use_id"))
                 (or_else (block_field block "name") (JStr "")) (block_field block "parent_tool_use_id")) in
  update (set_tool_stats t).

(** [_record_tool_result(tool_stats, tool_block)] *)
Definition _record_tool_result (now : Z) (block : Json) : M unit :=
  do! t := read tool_stats in
  do! t := py (record_result now t (block_field block "tool_use_id") (truthy (block_field block "is_error"))) in
  update (set_tool_stats t).

Definition other (c : Custom) : M unit := emit (Other c).

Definition _ASK_USER_RESPONSE_PREFIX : string := "User responded:".

(** [_is_synthetic_ask_user_response_result(result_block, tool_names_by_id, request_context)] *)
Definition _is_synthetic_ask_user_response_result (block : Json) (names : odict string string) : bool :=
  match jget_null block "content", nonempty (jget_null block "tool_use_id") with
  | JStr content, Some id =>
      starts_with content _ASK_USER_RESPONSE_PREFIX
      && (bool_decide (dict_get names id = Some "AskUserQuestion") || is_str (call_id turn) id)
  | _, _ => false
  end.

(** [_tool_use_started_events(chunk)] *)
Definition _tool_use_started_events (chunk : Json) : M unit :=
  let event := jget_null chunk "event" in
  let block := jget_null event "content_block" in
  let parent := jget_null chunk "parent_tool_use_id" in
  when (tool_progress sw && is_str (jget_null chunk "type") "stream_event"
        && is_str (jget_null event "type") "content_block_start" && is_str (jget_null block "type") "tool_use"
        && (is_null parent || subagent_tool_blocks sw))
    (other (make_tool_use_started_response_sse (text_of block "id") (text_of block "name") parent)).

(** [_tool_use_events(tool_block)] *)
Definition _tool_use_events (now : Z) (block : Json) : M unit :=
  _remember_tool_use block ;;
  _record_tool_use now block ;;
  let parent := jget_null block "parent_tool_use_id" in
  when (is_null parent || subagent_tool_blocks sw) (other (make_tool_use_response_sse block parent)).

(** [_tool_heartbeat_events()] *)
Definition _tool_heartbeat_events (now : Z) : M unit :=
  when (tool_progress sw)
    (do! t := read tool_stats in
     listing (each (in_flight now t) (fun tool =>
       when (is_null (if_parent tool) || subagent_progress sw)
         (other (make_tool_progress_response_sse (if_id tool) (if_name tool) (if_elapsed tool) "gateway" (if_parent tool)
                   None JNull JNull))))).

Definition is_number (v : Json) : bool := match v with JInt _ | JFloat _ _ => true | _ => false end.

(** [str(v or "")] *)
Definition str_or_empty (v : Json) : string := if truthy v then py_str repr v else "".

(** [_cli_tool_progress_events(chunk)] *)
Definition _cli_tool_progress_events (now : Z) (chunk : Json) : M unit :=
  let parent := jget_null chunk "parent_tool_use_id" in
  let allowed p := is_null p || subagent_progress sw in
  match nonempty (jget_null chunk "tool_use_id") with
  | Some id =>
      if negb (tool_progress sw && allowed parent) then ret tt
      else
        let raw := jget_null chunk "elapsed_time_seconds" in
        let elapsed := if is_number raw then raw else JInt 0 in
        let name := str_or_empty (jget_null chunk "tool_name") in
        let number key := let v := jget_null chunk key in if is_number v then v else JNull in
        let send name elapsed source parent :=
          do! n := py (int_or_0 elapsed) in
          other (make_tool_progress_response_sse (JStr id) (JStr name) n source
                   (if is_string parent then parent else JNull)
                   (nonempty (jget_null chunk "message")) (number "progress") (number "total")) in
        if is_str (jget_null chunk "source") "mcp" then
          do! t := read tool_stats in
          match head (filter (fun tool => is_str (if_id tool) id = true) (in_flight now t)) with
          | None => ret tt
          | Some tool =>
              let name := if bool_decide (name = EmptyString) then str_or_empty (if_name tool) else name in
              let elapsed := if if_elapsed tool =? 0 then elapsed else JInt (if_elapsed tool) in
              when (allowed (if_parent tool)) (send name elapsed "mcp" (if_parent tool))
          end
        else send name elapsed "cli" parent
  | None => ret tt
  end.

(** The results of a user chunk are recorded in turn; those to show are returned. *)
Fixpoint record_results (now : Z) (blocks : list Json) : M (list Json) :=
  match blocks with
  | [] => ret []
  | b :: blocks =>
      do! names := read tool_names_by_id in
      let synthetic := _is_synthetic_ask_user_response_result b names in
      _record_tool_result now (if synthetic then jset b "is_error" (JBool false) else b) ;;
      do! rest := record_results now blocks in
      ret (if synthetic then rest else b :: rest)
  end.

(** [_user_tool_result_events(chunk)] *)
Definition _user_tool_result_events (now : Z) (chunk : Json) : M unit :=
  do! (blocks, parent) := py (extract_user_tool_results chunk) in
  do! visible := record_results now (map (normalize_tool_result_for_sse repr) blocks) in
  when (is_null parent || subagent_tool_blocks sw)
    (each visible (fun b => other (make_tool_result_response_sse repr b parent))).

(** [_user_chunk_texts(chunk)] *)
Definition user_text (block : Json) : option string :=
  let type := block_field block "type" in
  if negb (is_null type) && negb (is_str type "text") then None else nonempty (block_field block "text").
Definition _user_chunk_texts (chunk : Json) : list string :=
  let content := jget_null chunk "content" in
  let content := if is_list content || is_string content then content else jget_null (jget_null chunk "message") "content" in
  match content with
  | JStr s => [s]
  | JArr l => omap user_text l
  | _ => []
  end.

(** [_teammate_message_events(chunk)] *)
Definition _teammate_message_events (chunk : Json) : M unit :=
  when (is_null (jget_null chunk "parent_tool_use_id"))
    (each (filter (fun t => is_teammate_message_text t = true) (_user_chunk_texts chunk)) (fun t =>
       other (make_teammate_message_response_sse t (jget_null chunk "session_id")))).

(** One block of [_embedded_tool_events]. *)
Definition embedded_block (now : Z) (block : Json) : M unit :=
  let type := block_field block "type" in
  let parent := jget_null block "parent_tool_use_id" in
  let shown := is_null parent || subagent_tool_blocks sw in
  let event_type := String.append "response." (match type with JStr t => t | _ => "" end) in
  let plain := other (event_type, [("type", JStr event_type); ("block", block)]) in
  if is_str type "tool_use" then
    _remember_tool_use block ;; _record_tool_use now block ;;
    when shown (other (make_tool_use_response_sse block parent))
  else if is_str type "tool_result" then
    do! names := read tool_names_by_id in
    let result := normalize_tool_result_for_sse repr block in
    let synthetic := _is_synthetic_ask_user_response_result result names in
    let result := if synthetic then jset result "is_error" (JBool false) else result in
    _record_tool_result now result ;;
    when (shown && negb synthetic) (other (make_tool_result_response_sse repr result parent))
  else if is_str type "server_tool_use" then
    _remember_tool_use block ;; _record_tool_use now block ;; when shown plain
  else if is_str type "advisor_tool_result" then
    _record_tool_result now block ;; when shown plain
  else ret tt.

(** [_embedded_tool_events(chunk)] *)
Definition _embedded_tool_events (now : Z) (chunk : Json) : M unit :=
  listing (do! blocks := py (extract_embedded_tool_blocks chunk) in each blocks (embedded_block now)).

(** ** Ends of a turn *)

Definition buffer (chunk : Json) : M unit := update (fun s => set_chunks_buffer (chunks_buffer s ++ [chunk]) s).

(** [_make_failed_event(code, message)], yielded: the model takes strings only. *)
Definition _make_failed_event (code message : Json) : M unit :=
  match code, message with
  | JStr c, JStr m => emit (Failed c m)
  | _, _ => raise (Py ValidationError)
  end.

Definition set_success (b : bool) : M unit :=
  update (fun s => let o := outcome s in
    set_outcome (MkOutcome (Some b) (o_empty o) (o_paused o) (o_interrupted o) (o_text o) (o_response o)) s).
Definition set_empty : M unit :=
  update (fun s => let o := outcome s in
    set_outcome (MkOutcome (o_success o) true (o_paused o) (o_interrupted o) (o_text o) (o_response o)) s).
Definition set_paused : M unit :=
  update (fun s => let o := outcome s in
    set_outcome (MkOutcome (o_success o) (o_empty o) true (o_interrupted o) (o_text o) (o_response o)) s).
Definition set_interrupted : M unit :=
  update (fun s => let o := outcome s in
    set_outcome (MkOutcome (o_success o) (o_empty o) (o_paused o) true (o_text o) (o_response o)) s).
(** [assistant_text] and [thinking_texts] *)
Definition set_texts : M unit :=
  update (fun s => let o := outcome s in
    set_outcome (MkOutcome (o_success o) (o_empty o) (o_paused o) (o_interrupted o)
                   (Some (join (all_visible_text s), thinking_texts s)) (o_response o)) s).
Definition set_response (r : Response) : M unit :=
  update (fun s => let o := outcome s in
    set_outcome (MkOutcome (o_success o) (o_empty o) (o_paused o) (o_interrupted o) (o_text o) (Some r)) s).

(** The [ResponseObject] of a turn that ended, with its usage. *)
Definition final_response (status : string) (reason : option string) (structured : bool) : M Response :=
  do! chunks := read chunks_buffer in
  do! text := read (fun s => join (all_visible_text s)) in
  do! (input, output) := py (resolve_token_usage chunks (prompt_text turn) text) in
  do! items := read completed_output_items in
  do! d := py (resolve_usage_details chunks) in
  ret (MkResponse status items (MkUsage input output d) reason
         (if structured then extract_structured_output chunks else JNull)).

(** The open items are closed with [status]. *)
Definition close_items (status : string) : M unit :=
  _close_thinking_capture ;; _close_reasoning status ;; _close_message_item status.

(** The chunk of an interrupted turn, and the result of one cut by the turn limit. *)
Definition end_incomplete (reason : string) (interrupted : bool) : M bool :=
  close_items "incomplete" ;;
  do! r := final_response "incomplete" (Some reason) false in
  set_success false ;;
  when interrupted set_interrupted ;;
  set_texts ;;
  set_response r ;;
  emit (Incomplete r) ;;
  ret true.

(** ** One chunk

    [true] when the generator returns. *)

(** A [system] chunk *)
Definition system_chunk (chunk : Json) : M unit :=
  match _build_task_event chunk with
  | Some event =>
      let subagent := negb (is_null (jget_null chunk "parent_tool_use_id")) || negb (is_null (jget_null chunk "tool_use_id")) in
      when (negb subagent || subagent_progress sw) (other (make_task_response_sse event))
  | None =>
      if is_null (fst (_stream_identity chunk)) || subagent_progress sw then
        do! event := py (_build_progress_event sw chunk) in
        match event with
        | Some event =>
            do! t := read compaction in
            do! (t, seen) := py (Progress.feed t event) in
            update (set_compaction t) ;;
            each seen (fun e => other (make_task_response_sse e))
        | None => ret tt
        end
      else ret tt
  end.

(** [compaction.flush(chunk)], yielded *)
Definition flush_compaction (identity : option Identity) : M unit :=
  do! t := read compaction in
  let (t, closed) := Progress.flush t identity in
  update (set_compaction t) ;;
  each closed (fun e => other (make_task_response_sse e)).

(** A [citations_delta] *)
Definition citation (delta : Json) : M unit :=
  _open_message_item ;;
  do! id := read output_item_id in
  do! oi := read output_index in
  do! index := read annotation_index in
  emit (AnnotationAdded id oi index (or_else (jget_null delta "citation") (JObj []))) ;;
  update (set_annotation_index (index + 1)).

Definition drop_pending : M unit := update (set_reasoning_pending false) ;; update (set_reasoning_pending_buf []).

(** The first text of a thinking block that is not blank opens its item. *)
Definition open_reasoning : M unit :=
  _close_message_item "completed" ;;
  do! id := new_id "rs_" in
  update (set_reasoning_item (Some id)) ;;
  update (set_reasoning_emitted true) ;;
  update (set_reasoning_text_buf []) ;;
  do! oi := read output_index in
  emit (ItemAdded oi (NewReasoning id)) ;;
  emit (SummaryPartAdded id oi).

Definition reasoning_text (text : string) : M unit :=
  do! open := read reasoning_item in
  match open with
  | None => ret tt
  | Some id =>
      update (fun s => set_reasoning_text_buf (reasoning_text_buf s ++ [text]) s) ;;
      when (negb (bool_decide (text = EmptyString)))
        (do! oi := read output_index in
         emit (SummaryTextDelta id oi text) ;; emit (ReasoningTextDelta id oi text))
  end.

Definition blank (text : string) : bool := all_chars is_space text.

(** A thinking fragment *)
Definition thinking_delta (text : string) : M unit :=
  update (fun s => set_thinking_capture_buf (thinking_capture_buf s ++ [text]) s) ;;
  do! waiting := read (fun s => reasoning_pending s && negb (bool_decide (is_Some (reasoning_item s)))) in
  if waiting then
    update (fun s => set_reasoning_pending_buf (reasoning_pending_buf s ++ [text]) s) ;;
    do! held := read (fun s => join (reasoning_pending_buf s)) in
    if blank held then ret tt
    else drop_pending ;; open_reasoning ;; reasoning_text held
  else reasoning_text text.

(** A text fragment outside of thinking *)
Definition text_fragment (text : string) : M unit :=
  drop_pending ;;
  _close_reasoning "completed" ;;
  when (negb (bool_decide (text = EmptyString)))
    (do! f := read collab in
     do! (f, cleaned) := py (CollabFilter.feed json_loads (may_emit_collab turn) f text) in
     update (set_collab f) ;;
     when (negb (bool_decide (cleaned = EmptyString))) (say cleaned)).

(** [if text_delta is not None:] *)
Definition on_text_delta (was_thinking : bool) (text : string) : M unit :=
  update (set_token_streaming true) ;;
  do! thinking := read in_thinking in
  when (thinking && negb was_thinking)
    (update (set_reasoning_pending true) ;; update (set_reasoning_pending_buf [])) ;;
  if bool_decide (text = "<think>") then _close_thinking_capture
  else if bool_decide (text = "</think>") then
    _close_thinking_capture ;; drop_pending ;; _close_reasoning "completed"
  else if thinking then thinking_delta text
  else text_fragment text.

(** A chunk that is content *)
Definition content_chunk (chunk : Json) : M unit :=
  buffer chunk ;;
  if negb (is_null (jget_null chunk "parent_tool_use_id")) && negb (subagent_text sw)
     && is_str (jget_null chunk "type") "assistant" then ret tt
  else
    do! sent := read content_sent in
    do! text := py (format_chunk_content json_loads json_dumps chunk sent) in
    match text with Some t => say t | None => ret tt end.

(** After the tools: what token streaming repeats is skipped. *)
Definition rest_of_chunk (now : Z) (chunk : Json) : M unit :=
  _embedded_tool_events now chunk ;;
  do! streaming := read token_streaming in
  let type := jget_null chunk "type" in
  if streaming && is_str type "stream_event" then
    do! keep := py (_is_context_snapshot_chunk chunk) in when keep (buffer chunk)
  else if streaming && negb (is_str type "user") && is_assistant_content_chunk chunk then
    when (is_str type "assistant" && truthy (jget_null chunk "usage")) (buffer chunk)
  else content_chunk chunk.

(** A chunk without text *)
Definition tool_chunk (now : Z) (chunk : Json) : M unit :=
  listing (_tool_use_started_events chunk) ;;
  do! a := read accs in
  do! (a, handled) := py (process_stream_event json_loads a chunk) in
  update (set_accs a) ;;
  match handled with
  | Assembled block => listing (_tool_use_events now block)
  | Consumed => ret tt
  | Fall =>
      if is_str (jget_null chunk "type") "user" then
        listing (_user_tool_result_events now chunk) ;;
        _teammate_message_events chunk ;;
        buffer chunk
      else rest_of_chunk now chunk
  end.

(** The turn goes on: text, tools, content. *)
Definition turn_chunk (now : Z) (chunk : Json) : M unit :=
  flush_compaction (Some (_stream_identity chunk)) ;;
  do! was_thinking := read in_thinking in
  let subagent := negb (is_null (jget_null chunk "parent_tool_use_id")) in
  let event := if is_str (jget_null chunk "type") "stream_event" then default (JObj []) (jget chunk "event") else JObj [] in
  let delta := if is_dict event then default (JObj []) (jget event "delta") else JObj [] in
  do! dtype := py (get delta "type") in
  if is_str (default JNull dtype) "citations_delta" then when (negb subagent || subagent_text sw) (citation delta)
  else
    do! (text, thinking) := py (extract_stream_event_delta (subagent_text sw) chunk was_thinking) in
    update (set_in_thinking thinking) ;;
    match text with
    | Some text => if subagent && negb (subagent_text sw) then ret tt else on_text_delta was_thinking text
    | None => tool_chunk now chunk
    end.

(** The body of the loop on an item of the source *)
Definition on_chunk (now : Z) (chunk : Json) : M bool :=
  if is_str (jget_null chunk "type") "tool_progress" then
    listing (_cli_tool_progress_events now chunk) ;; ret false
  else if truthy (jget_null chunk "gateway_interrupted") then buffer chunk ;; end_incomplete "user_cancelled" true
  else
    do! type := py (get chunk "type") in
    let type := default JNull type in
    if is_str type "result" && starts_with (py_str repr (text_of chunk "subtype")) "error_max_turns"
    then end_incomplete "max_turns" false
    else match classify_error_chunk repr chunk with
         | Some (code, message) =>
             when (is_str type "assistant") (buffer chunk) ;;
             set_success false ;;
             _make_failed_event code message ;;
             ret true
         | None =>
             if is_str type "rate_limit" then ret false
             else if is_str type "system" then system_chunk chunk ;; ret false
             else turn_chunk now chunk ;; ret false
         end.

(** ** The keepalive wrapper

    The source gives an item, nothing for an interval, or an exception. *)

Inductive Arrival := Got (now : Z) (chunk : Json) | Quiet (now : Z) | Broke (e : Exn).

(** [_describe_in_flight(tools)] *)
Definition _describe_in_flight (tools : list InFlight) : string :=
  String.concat ", " (map (fun t =>
    let name v := if truthy v then py_str repr v else "?" in
    String.append (name (if_name t)) (String.append " (" (String.append (name (if_id t))
      (String.append ") " (String.append (pretty (if_elapsed t)) "s"))))) tools).

(** A silent interval: the exception, when the budget is spent. *)
Definition stalled (now : Z) (s : St) : option string :=
  let running := in_flight now (tool_stats s) in
  let tools := match running with [] => false | _ => true end in
  let budget := if tools && (0 <? tool_stall_timeout turn) then tool_stall_timeout turn else stall_timeout turn in
  if (0 <? budget) && (budget * 1000 <? now - last_item_at s) then
    Some (if tools
          then String.append "tool call produced no output for " (String.append (pretty budget)
                 (String.append "s (TOOL_STALL_TIMEOUT) — " (String.append (_describe_in_flight running)
                   "; failing the turn so the worker is reclaimed")))
          else String.append "no SDK output for " (String.append (pretty budget)
                 "s — turn is wedged, failing it so the worker is reclaimed"))
  else None.

Definition keepalive : M unit := fun s => (s, [Keepalive], Ok tt).

(** One turn of the loop *)
Definition on_arrival (a : Arrival) : M bool :=
  match a with
  | Got now chunk => update (set_last_item_at now) ;; on_chunk now chunk
  | Quiet now =>
      do! stall := read (stalled now) in
      match stall with
      | Some message => raise (Stall message)
      | None => keepalive ;; _tool_heartbeat_events now ;; ret false
      end
  | Broke e => raise (Py e)
  end.

(** The handlers of the [try] around the loop *)
Definition on_raise (r : Raised) : M unit :=
  set_success false ;;
  emit (match r with
        | Stall message => Failed "server_error" (String.append "Turn stalled: " message)
        | Py _ => Failed "server_error" "Internal server error"
        end).

(** After the source has ended; [pending] tells that the session waits on a tool call. *)
Definition finalize (pending : bool) : M unit :=
  do! remaining := flush_collab in
  when (negb (bool_decide (remaining = EmptyString))) (say remaining) ;;
  flush_compaction None ;;
  if pending then
    close_items "completed" ;; set_success false ;; set_paused ;; set_texts
  else
    do! nothing := read (fun s => negb (content_sent s) && negb (reasoning_emitted s)) in
    if nothing then set_success false ;; set_empty
    else
      _close_thinking_capture ;;
      _close_reasoning "completed" ;;
      do! opened := read message_item_opened in
      do! any := read any_message_item in
      (if opened || any then _close_message_item "completed" else _open_message_item ;; _close_message_item "completed") ;;
      do! r := final_response "completed" None true in
      set_success true ;;
      set_texts ;;
      emit (Completed r).

(** The loop with its handlers, and what follows it. *)
Fixpoint body (pending : bool) (arrivals : list Arrival) : M unit :=
  match arrivals with
  | [] => finalize pending
  | a :: arrivals => fun s =>
      let '(s1, fs1, r) := on_arrival a s in
      let '(s2, fs2, r2) :=
        match r with
        | Ok false => body pending arrivals s1
        | Ok true => (s1, [], Ok tt)
        | Err e => on_raise e s1
        end in
      (s2, fs1 ++ fs2, r2)
  end.

(** [stream_response_chunks(...)] *)
Definition stream_response_chunks (now : Z) (pending : bool) (arrivals : list Arrival) : St * list Frame * result Raised unit :=
  (emit Created ;; emit InProgress ;; body pending arrivals) (init now).
End stream.
