(* ===== verification/ResponsesStreamLaws.v ===== *)
(** What the stream of [/v1/responses] ([ResponsesStream]) promises its reader.

    [Contract] is the reader's side: the item that is open with what was streamed of it, the
    items done and the text shown.  [contract_step] is one event, [None] when it is out of
    place.  [contract_of] is the abstraction of the generator's variables, and [keeps] the
    simulation for one program. *)

From stdpp Require Import pretty.
From S2P Require Import Prelude Json Raise CollabFilter Chunks Progress ResponsesStream.

(** ** The contract *)

(** An announced item: whether it is a message, how many of the steps around its text were
    taken, its two texts (the second one of reasoning only), and its annotations. *)
Record Live := MkLive {
  l_message : bool;
  l_id : string;
  l_stage : nat;
  l_text : string;
  l_text2 : string;
  l_annotations : Z;
}.

Inductive Verdict := VCompleted | VIncomplete | VFailed.
Inductive Phase := PStart | PCreated | PBody | POver (v : Verdict).
#[export] Instance Verdict_eq_dec : EqDecision Verdict.
Proof. solve_decision. Defined.
#[export] Instance Phase_eq_dec : EqDecision Phase.
Proof. solve_decision. Defined.
#[export] Instance OutItem_eq_dec : EqDecision OutItem.
Proof. solve_decision. Defined.

Record Contract := MkContract {
  c_phase : Phase;
  c_open : option Live;
  c_done : list OutItem;
  c_text : string;
}.

Definition start : Contract := MkContract PStart None [] "".

(** The next output index: one per item. *)
Definition c_next (c : Contract) : Z := Z.of_nat (length (c_done c)).

Definition with_open (o : option Live) (c : Contract) : Contract := MkContract (c_phase c) o (c_done c) (c_text c).
Definition with_text (t : string) (c : Contract) : Contract := MkContract (c_phase c) (c_open c) (c_done c) t.
Definition over (v : Verdict) (c : Contract) : Contract := MkContract (POver v) (c_open c) (c_done c) (c_text c).

Definition announce (item : NewItem) : Live :=
  match item with
  | NewMessage id => MkLive true id 0 "" "" 0
  | NewReasoning id => MkLive false id 0 "" "" 0
  end.

(** An event of the open item, at stage [n]. *)
Definition on_open (message : bool) (id : string) (oi : Z) (n : nat) (f : Live -> option Live) (c : Contract)
    : option Contract :=
  match c_open c with
  | Some l =>
      if bool_decide (l_message l = message) && bool_decide (l_id l = id) && (oi =? c_next c) && bool_decide (l_stage l = n)
      then match f l with Some l' => Some (with_open (Some l') c) | None => None end
      else None
  | None => None
  end.

Definition at_stage (n : nat) (l : Live) : Live := MkLive (l_message l) (l_id l) n (l_text l) (l_text2 l) (l_annotations l).
Definition more_text (d : string) (l : Live) : Live :=
  MkLive (l_message l) (l_id l) (l_stage l) (String.append (l_text l) d) (l_text2 l) (l_annotations l).
Definition more_text2 (d : string) (l : Live) : Live :=
  MkLive (l_message l) (l_id l) (l_stage l) (l_text l) (String.append (l_text2 l) d) (l_annotations l).
Definition more_annotations (l : Live) : Live :=
  MkLive (l_message l) (l_id l) (l_stage l) (l_text l) (l_text2 l) (l_annotations l + 1).

(** A fragment is not empty; a whole text is what was streamed. *)
Definition fragment (d : string) (l : Live) : option Live := if bool_decide (d = "") then None else Some l.
Definition whole (t streamed : string) (n : nat) (l : Live) : option Live :=
  if bool_decide (t = streamed) then Some (at_stage n l) else None.

Definition done_status (s : string) : bool := bool_decide (s ∈ ["completed"; "incomplete"]).

(** A finished item says what was announced and streamed; reasoning is not blank. *)
Definition finishes (item : OutItem) (l : Live) : bool :=
  match item with
  | MessageItem id status text =>
      l_message l && bool_decide (l_id l = id) && bool_decide (l_stage l = 3%nat) && bool_decide (l_text l = text)
      && done_status status
  | ReasoningItem id status text =>
      negb (l_message l) && bool_decide (l_id l = id) && bool_decide (l_stage l = 4%nat) && bool_decide (l_text l = text)
      && bool_decide (l_text2 l = text) && negb (blank text) && done_status status
  end.

Definition is_message (i : OutItem) : bool := match i with MessageItem _ _ _ => true | ReasoningItem _ _ _ => false end.

(** The response that ends the turn lists the items done, and all are. *)
Definition closes (status : string) (r : Response) (c : Contract) : bool :=
  bool_decide (c_open c = None) && bool_decide (r_output r = c_done c) && bool_decide (r_status r = status).

#[export] Instance Live_eq_dec : EqDecision Live.
Proof. solve_decision. Defined.

Definition contract_step (c : Contract) (p : Payload) : option Contract :=
  match c_phase c, p with
  | PStart, Created => Some (MkContract PCreated (c_open c) (c_done c) (c_text c))
  | PCreated, InProgress => Some (MkContract PBody (c_open c) (c_done c) (c_text c))
  | PBody, ItemAdded oi item =>
      match c_open c with
      | None => if oi =? c_next c then Some (with_open (Some (announce item)) c) else None
      | Some _ => None
      end
  | PBody, ContentPartAdded id oi => on_open true id oi 0 (fun l => Some (at_stage 1 l)) c
  | PBody, OutputTextDelta id oi d =>
      match on_open true id oi 1 (fun l => fragment d (more_text d l)) c with
      | Some c => Some (with_text (String.append (c_text c) d) c)
      | None => None
      end
  | PBody, AnnotationAdded id oi index _ =>
      on_open true id oi 1 (fun l => if index =? l_annotations l then Some (more_annotations l) else None) c
  | PBody, OutputTextDone id oi t => on_open true id oi 1 (fun l => whole t (l_text l) 2 l) c
  | PBody, ContentPartDone id oi t => on_open true id oi 2 (fun l => whole t (l_text l) 3 l) c
  | PBody, SummaryPartAdded id oi => on_open false id oi 0 (fun l => Some (at_stage 1 l)) c
  | PBody, SummaryTextDelta id oi d => on_open false id oi 1 (fun l => fragment d (more_text d l)) c
  | PBody, ReasoningTextDelta id oi d => on_open false id oi 1 (fun l => fragment d (more_text2 d l)) c
  | PBody, SummaryTextDone id oi t => on_open false id oi 1 (fun l => whole t (l_text l) 2 l) c
  | PBody, ReasoningTextDone id oi t => on_open false id oi 2 (fun l => whole t (l_text2 l) 3 l) c
  | PBody, SummaryPartDone id oi t => on_open false id oi 3 (fun l => whole t (l_text l) 4 l) c
  | PBody, ItemDone oi item =>
      match c_open c with
      | Some l =>
          if (oi =? c_next c) && finishes item l
          then Some (MkContract PBody None (c_done c ++ [item]) (c_text c)) else None
      | None => None
      end
  | PBody, Completed r => if closes "completed" r c && existsb is_message (c_done c) then Some (over VCompleted c) else None
  | PBody, Incomplete r => if closes "incomplete" r c then Some (over VIncomplete c) else None
  | PBody, Failed _ _ => Some (over VFailed c)
  | PBody, Other _ => Some c
  | _, _ => None
  end.

(** A whole stream; keepalives come while the turn runs. *)
Fixpoint contract_run (c : Contract) (fs : list Frame) : option Contract :=
  match fs with
  | [] => Some c
  | Keepalive :: fs => if bool_decide (c_phase c = PBody) then contract_run c fs else None
  | Event p _ :: fs =>
      match contract_step c p with
      | Some c => contract_run c fs
      | None => None
      end
  end.

(** The numbers of the events from [a] on, each the next one, up to [b]. *)
Fixpoint consecutive (a : Z) (fs : list Frame) (b : Z) : Prop :=
  match fs with
  | [] => a = b
  | Keepalive :: fs => consecutive a fs b
  | Event _ n :: fs => n = a /\ consecutive (a + 1) fs b
  end.

Lemma contract_run_app fs1 : forall c fs2,
  contract_run c (fs1 ++ fs2) = match contract_run c fs1 with Some c => contract_run c fs2 | None => None end.
Proof.
  induction fs1 as [|[|p n] fs1 IH]; intros c fs2; simpl; [done| |].
  - case_bool_decide; [apply IH|done].
  - destruct (contract_step c p); [apply IH|done].
Qed.

Lemma consecutive_app fs1 : forall a b fs2 d,
  consecutive a fs1 b -> consecutive b fs2 d -> consecutive a (fs1 ++ fs2) d.
Proof.
  induction fs1 as [|[|p n] fs1 IH]; intros a b fs2 d; simpl; [by intros ->|apply IH|].
  intros [-> H] H2. split; [done|]. by eapply IH.
Qed.

(** ** The simulation *)

Definition open_of (s : St) : option Live :=
  if message_item_opened s then
    Some (MkLive true (output_item_id s) 1 (join (full_text s)) "" (annotation_index s))
  else match reasoning_item s with
       | Some id => Some (MkLive false id 1 (join (reasoning_text_buf s)) (join (reasoning_text_buf s)) 0)
       | None => None
       end.

Definition contract_of (s : St) : Contract :=
  MkContract PBody (open_of s) (completed_output_items s) (join (all_visible_text s)).

(** The variables agree: one item is open at most. *)
Record good (s : St) : Prop := {
  g_index : output_index s = Z.of_nat (length (completed_output_items s));
  g_one : message_item_opened s = true -> reasoning_item s = None;
  g_fresh : message_item_opened s = false -> full_text s = [] /\ annotation_index s = 0;
  g_any : any_message_item s = message_item_opened s || existsb is_message (completed_output_items s);
  g_text : is_Some (reasoning_item s) -> blank (join (reasoning_text_buf s)) = false;
}.

(** A program keeps the contract: from a good state with [P], its frames lead from the
    contract of the state to that of the next one; a normal end leaves a good state with [Q]
    and consecutive numbers, and an exception a state whose frames so far keep it. *)
Definition keeps {A} (P : St -> Prop) (m : M A) (Q : A -> St -> Prop) : Prop :=
  forall s, good s -> P s ->
  let '(s', fs, r) := m s in
  contract_run (contract_of s) fs = Some (contract_of s')
  /\ match r with
     | Ok a => consecutive (seq s) fs (seq s') /\ good s' /\ Q a s'
     | Err _ => exists n, consecutive (seq s) fs n /\ n <= seq s'
     end.


(** ** Rules *)

Lemma keeps_bind {A B} (P : St -> Prop) (m : M A) Q (f : A -> M B) R :
  keeps P m Q -> (forall a, keeps (Q a) (f a) R) -> keeps P (bind m f) R.
Proof.
  intros Hm Hf s G Hs. specialize (Hm s G Hs). unfold bind. destruct (m s) as [[s1 fs1] [a|e]].
  - destruct Hm as (C1 & N1 & G1 & HQ). specialize (Hf a s1 G1 HQ). destruct (f a s1) as [[s2 fs2] r2].
    destruct Hf as [C2 N2]. rewrite contract_run_app, C1. split; [done|]. destruct r2 as [b|e].
    + destruct N2 as (N2 & G2 & HR). split; [by eapply consecutive_app|done].
    + destruct N2 as (n & N2 & Hn). exists n. split; [by eapply consecutive_app|done].
  - done.
Qed.

Lemma keeps_weaken {A} (P P' : St -> Prop) (m : M A) Q Q' :
  keeps P m Q -> (forall s, good s -> P' s -> P s) -> (forall a s, Q a s -> Q' a s) -> keeps P' m Q'.
Proof.
  intros Hm HP HQ s G Hs. specialize (Hm s G (HP s G Hs)). destruct (m s) as [[s1 fs1] [a|e]]; [|done].
  destruct Hm as (C1 & N1 & G1 & H1). eauto.
Qed.

Lemma keeps_ret {A} (a : A) P : keeps P (ret a) (fun x s => x = a /\ P s).
Proof. intros s G Hs. simpl. done. Qed.

Lemma keeps_raise {A} e P (Q : A -> St -> Prop) : keeps P (raise e) Q.
Proof. intros s G Hs. simpl. split; [done|]. exists (seq s). split; [done|lia]. Qed.

Lemma keeps_py {A} (r : result Exn A) P : keeps P (py r) (fun a s => r = Ok a /\ P s).
Proof. destruct r as [a|e]; [|apply keeps_raise]. intros s G Hs. simpl. done. Qed.

Lemma keeps_read {A} (f : St -> A) P : keeps P (read f) (fun a s => a = f s /\ P s).
Proof. intros s G Hs. simpl. done. Qed.

Lemma keeps_when b m (P : St -> Prop) Q :
  (b = true -> keeps P m (fun _ => Q)) -> (b = false -> forall s, P s -> Q s) -> keeps P (when b m) (fun _ => Q).
Proof.
  intros Ht Hf. destruct b; [by apply Ht|]. eapply keeps_weaken; [apply keeps_ret|by intros ? ? H; exact H|].
  intros ? s [_ H]. by apply Hf.
Qed.

Lemma keeps_each {A} (l : list A) m (P : St -> Prop) :
  (forall x, keeps P (m x) (fun _ => P)) -> keeps P (each l m) (fun _ => P).
Proof.
  intros Hm. induction l as [|x l IH]; simpl.
  - eapply keeps_weaken; [apply keeps_ret|done|]. by intros ? ? [_ ?].
  - eapply keeps_bind; [apply Hm|]. by intros [].
Qed.

(** ** Programs beside the items

    They change nothing of the items and the text, and send custom events only. *)

(** What such a program leaves alone. *)
Definition core (s : St) :=
  (token_streaming s, in_thinking s, outcome s, message_item_opened s, any_message_item s, output_index s, output_item_id s,
   full_text s, all_visible_text s, annotation_index s, reasoning_item s, reasoning_text_buf s, completed_output_items s).

Definition is_other (f : Frame) : Prop := match f with Event (Other _) _ | Keepalive => True | _ => False end.

Definition beside {A} (m : M A) : Prop := forall s,
  let '(s', fs, r) := m s in
  core s' = core s /\ Forall is_other fs
  /\ match r with Ok _ => consecutive (seq s) fs (seq s') | Err _ => exists n, consecutive (seq s) fs n /\ n <= seq s' end.

Lemma other_run fs : forall c, c_phase c = PBody -> Forall is_other fs -> contract_run c fs = Some c.
Proof.
  induction fs as [|f fs IH]; intros c Hc Hf; [done|]. apply Forall_cons in Hf as [Hf Hfs]. destruct f as [|p n]; simpl.
  - rewrite bool_decide_true by done. by apply IH.
  - destruct p; try done. unfold contract_step. rewrite Hc. by apply IH.
Qed.

Lemma core_contract s s' : core s' = core s -> contract_of s' = contract_of s.
Proof.
  unfold core. intros [=]. unfold contract_of, open_of.
  repeat match goal with H : ?f s' = ?f s |- _ => rewrite H; clear H end. done.
Qed.

Lemma core_good s s' : core s' = core s -> good s -> good s'.
Proof.
  unfold core. intros [=] [G1 G2 G3 G4 G5].
  split; repeat match goal with H : ?f s' = ?f s |- _ => rewrite H; clear H end; done.
Qed.

(** [P] looks at the core only. *)
Definition on_core (P : St -> Prop) : Prop := forall s s', core s' = core s -> P s -> P s'.

Lemma keeps_beside {A} (m : M A) (P : St -> Prop) : beside m -> on_core P -> keeps P m (fun _ => P).
Proof.
  intros Hm HP s G Hs. specialize (Hm s). destruct (m s) as [[s' fs] r]. destruct Hm as (Hc & Hf & Hn).
  split; [rewrite (core_contract s s') by done; by apply other_run|].
  destruct r; [|done]. split; [done|]. split; [by eapply core_good|by eapply HP].
Qed.

Lemma beside_bind {A B} (m : M A) (f : A -> M B) : beside m -> (forall a, beside (f a)) -> beside (bind m f).
Proof.
  intros Hm Hf s. specialize (Hm s). unfold bind. destruct (m s) as [[s1 fs1] [a|e]]; [|done].
  destruct Hm as (C1 & F1 & N1). specialize (Hf a s1). destruct (f a s1) as [[s2 fs2] r2]. destruct Hf as (C2 & F2 & N2).
  split; [congruence|]. split; [by apply Forall_app|]. destruct r2; [by eapply consecutive_app|].
  destruct N2 as (n & N2 & Hn). exists n. split; [by eapply consecutive_app|done].
Qed.

Lemma beside_ret {A} (a : A) : beside (ret a).
Proof. done. Qed.
Lemma beside_read {A} (f : St -> A) : beside (read f).
Proof. done. Qed.
Lemma beside_raise {A} e : beside (raise (A := A) e).
Proof. intros s. simpl. split; [done|]. split; [done|]. exists (seq s). split; [done|lia]. Qed.
Lemma beside_py {A} (r : result Exn A) : beside (py r).
Proof. destruct r; [done|apply beside_raise]. Qed.
Lemma beside_update f : (forall s, core (f s) = core s /\ seq (f s) = seq s) -> beside (update f).
Proof. intros H s. simpl. destruct (H s) as [-> ->]. done. Qed.
Lemma beside_when b m : beside m -> beside (when b m).
Proof. by destruct b. Qed.
Lemma beside_each {A} (l : list A) m : (forall x, beside (m x)) -> beside (each l m).
Proof. intros H. induction l; simpl; [done|]. by apply beside_bind. Qed.
Lemma beside_other c : beside (other c).
Proof. intros s. simpl. split; [done|]. split; [by repeat constructor|done]. Qed.
Lemma beside_listing m : beside m -> beside (listing m).
Proof.
  intros Hm s. specialize (Hm s). unfold listing. destruct (m s) as [[s' fs] [[]|e]]; [done|].
  destruct Hm as (Hc & _ & n & Hn & Hle). split; [done|]. split; [done|]. exists (seq s). split; [done|].
  clear Hc. assert (forall fs a, consecutive a fs n -> a <= n) as Hm; [|by specialize (Hm _ _ Hn); lia].
  clear. induction fs as [|[|p k] fs IH]; intros a; simpl; [lia|apply IH|]. intros [_ H]. specialize (IH _ H). lia.
Qed.

(** Take a program apart, down to those that are known. *)
Create HintDb beside.
Ltac beside :=
  repeat first
    [ progress intros
    | solve [auto 1 with beside nocore]
    | apply beside_ret | apply beside_read | apply beside_raise | apply beside_py | apply beside_other
    | apply beside_bind | apply beside_listing | apply beside_when | apply beside_each
    | apply beside_update; intros; split; reflexivity
    | match goal with |- beside (match ?x with _ => _ end) => destruct x end
    | match goal with |- beside (if ?b then _ else _) => destruct b end ].

(** What the programs on items leave alone, and what is known of the open item. *)
Definition flags (s : St) := (in_thinking s, token_streaming s, outcome s).
Definition items (s : St) := (reasoning_item s, any_message_item s).

(** ** Evaluation of programs *)

(** The frames of a program against the contract *)
Ltac contract :=
  cbn [app contract_run consecutive];
  cbv beta iota delta [contract_of open_of contract_step c_next on_open whole fragment with_open with_text announce
    at_stage more_text more_text2 more_annotations finishes closes over c_phase c_open c_done c_text l_message l_id l_stage l_text
    l_text2 l_annotations message_item_opened reasoning_item output_item_id full_text reasoning_text_buf annotation_index
    completed_output_items all_visible_text seq];
  repeat (first [rewrite Z.eqb_refl | rewrite bool_decide_true by done | rewrite bool_decide_false by done];
          cbn [andb negb]; cbv beta iota).

(** A program on a state that is given by its variables is evaluated. *)
Ltac fields_in H := cbv beta iota delta [
  content_sent token_streaming in_thinking accs collab full_text all_visible_text seq annotation_index
  message_item_opened any_message_item output_index output_item_id reasoning_item reasoning_text_buf
  reasoning_pending reasoning_pending_buf reasoning_emitted thinking_texts thinking_capture_buf
  completed_output_items tool_stats tool_names_by_id compaction chunks_buffer last_item_at outcome minted
  items flags] in H.
Ltac run := cbv beta iota zeta delta [
  content_sent token_streaming in_thinking accs collab full_text all_visible_text seq annotation_index
  message_item_opened any_message_item output_index output_item_id reasoning_item reasoning_text_buf
  reasoning_pending reasoning_pending_buf reasoning_emitted thinking_texts thinking_capture_buf
  completed_output_items tool_stats tool_names_by_id compaction chunks_buffer last_item_at outcome minted
  set_content_sent set_token_streaming set_in_thinking set_accs set_collab set_full_text set_all_visible_text
  set_seq set_annotation_index set_message_item_opened set_any_message_item set_output_index
  set_output_item_id set_reasoning_item set_reasoning_text_buf set_reasoning_pending set_reasoning_pending_buf
  set_reasoning_emitted set_thinking_texts set_thinking_capture_buf set_completed_output_items set_tool_stats
  set_tool_names_by_id set_compaction set_chunks_buffer set_last_item_at set_outcome set_minted
  ret bind raise update read emit when negb
  set_success set_empty set_paused set_interrupted set_texts set_response record_item next_output_index new_id visible_text _emit_delta items flags o_success o_empty o_paused o_interrupted o_text o_response].
Ltac state s G :=
  destruct s as [sent' streaming' thinking' accs' collab' full' visible' seq' annotation' opened' any' index' id' reasoning' buf'
    pending' pending_buf' emitted' texts' capture' done' stats' names' compaction' chunks' last' outcome' minted'];
  destruct G as [G1 G2 G3 G4 G5];
  repeat match goal with H : _ |- _ => progress fields_in H end; run.


Section laws.
Context (json_loads : string -> result Exn Json) (json_dumps : Json -> string) (repr : Json -> string).
Context (hex : nat -> string) (sw : Switches) (turn : Turn).

Lemma beside_remember block : beside (_remember_tool_use block).
Proof. unfold _remember_tool_use. beside. Qed.
Lemma beside_record_use now block : beside (_record_tool_use now block).
Proof. unfold _record_tool_use. beside. Qed.
Lemma beside_record_result now block : beside (_record_tool_result now block).
Proof. unfold _record_tool_result. beside. Qed.
Hint Resolve beside_remember beside_record_use beside_record_result : beside.
Lemma beside_record_results now blocks : beside (record_results turn now blocks).
Proof. induction blocks; simpl; [done|]. beside. Qed.
Hint Resolve beside_record_results : beside.

Lemma beside_started chunk : beside (_tool_use_started_events sw chunk).
Proof. unfold _tool_use_started_events. beside. Qed.
Lemma beside_tool_use now block : beside (_tool_use_events sw now block).
Proof. unfold _tool_use_events. beside. Qed.
Lemma beside_heartbeat now : beside (_tool_heartbeat_events sw now).
Proof. unfold _tool_heartbeat_events. beside. Qed.
Lemma beside_cli_progress now chunk : beside (_cli_tool_progress_events repr sw now chunk).
Proof. unfold _cli_tool_progress_events. beside. Qed.
Lemma beside_user_results now chunk : beside (_user_tool_result_events repr sw turn now chunk).
Proof. unfold _user_tool_result_events. beside. Qed.
Lemma beside_teammates chunk : beside (_teammate_message_events chunk).
Proof. unfold _teammate_message_events. beside. Qed.
Lemma beside_embedded now chunk : beside (_embedded_tool_events repr sw turn now chunk).
Proof. unfold _embedded_tool_events, embedded_block. beside. Qed.
Lemma beside_system chunk : beside (system_chunk sw chunk).
Proof. unfold system_chunk. beside. Qed.
Lemma beside_flush_compaction identity : beside (flush_compaction identity).
Proof. unfold flush_compaction. beside. Qed.
Lemma beside_buffer chunk : beside (buffer chunk).
Proof. unfold buffer. beside. Qed.
Lemma beside_keepalive : beside keepalive.
Proof. intros s. simpl. repeat constructor. Qed.

(** ** Programs on the items *)

Lemma core_items (s s' : St) : core s' = core s ->
  items s' = items s /\ flags s' = flags s /\ message_item_opened s' = message_item_opened s
  /\ reasoning_item s' = reasoning_item s.
Proof.
  unfold core, items, flags. intros [=]. by repeat match goal with H : ?f s' = ?f s |- _ => rewrite H; clear H end.
Qed.

(** A predicate on the items and the flags. *)
Ltac on_core :=
  let s := fresh in let s' := fresh in let H := fresh in intros s s' H;
  let E1 := fresh in let E2 := fresh in let E3 := fresh in let E4 := fresh in
  destruct (core_items _ _ H) as (E1 & E2 & E3 & E4); cbv beta; rewrite ?E1, ?E2, ?E3, ?E4; exact id.

Lemma fragments_snoc l t : join (l ++ [t]) = String.append (join l) t.
Proof.
  unfold join. induction l as [|x l IH]; [done|]. rewrite <- app_comm_cons, !concat_cons, IH. apply append_assoc.
Qed.

Lemma keeps_open_message fl :
  keeps (fun s => reasoning_item s = None /\ flags s = fl) _open_message_item
    (fun _ s => message_item_opened s = true /\ items s = (None, true) /\ flags s = fl).
Proof.
  intros s G [Hr Hf]. unfold _open_message_item. pose proof G as G0. state s G. subst reasoning'.
  destruct opened'; simpl.
  - split; [done|]. split; [done|]. split; [done|]. split; [done|]. unfold items. simpl. by rewrite G4.
  - destruct (G3 eq_refl) as [-> ->]. contract. subst. contract. split; [done|]. split; [done|]. by repeat split.
Qed.

Lemma keeps_visible_text fl it text : text <> "" ->
  keeps (fun s => message_item_opened s = true /\ items s = it /\ flags s = fl) (visible_text text)
    (fun _ s => message_item_opened s = true /\ items s = it /\ flags s = fl).
Proof.
  intros Hne s G (E & Hi & Hf). state s G. subst opened'.
  contract. rewrite G1. contract. rewrite !fragments_snoc. split; [done|]. split; [done|]. split; [|done]. by split.
Qed.

Lemma keeps_say fl text : text <> "" ->
  keeps (fun s => reasoning_item s = None /\ flags s = fl) (say text)
    (fun _ s => reasoning_item s = None /\ flags s = fl).
Proof.
  intros Hne. eapply keeps_bind; [apply keeps_open_message|]. intros ?.
  eapply keeps_weaken; [by apply (keeps_visible_text fl (None, true))|done|]. intros ? s (_ & [=] & Hf). done.
Qed.

Lemma keeps_close_reasoning fl b status : done_status status = true ->
  keeps (fun s => any_message_item s = b /\ flags s = fl) (_close_reasoning status)
    (fun _ s => items s = (None, b) /\ flags s = fl).
Proof.
  intros Hst s G [Ha Hf]. unfold _close_reasoning. pose proof G as G0. state s G.
  destruct reasoning' as [id|]; simpl; [|subst; done].
  assert (opened' = false) as -> by (destruct opened'; [by specialize (G2 eq_refl)|done]).
  contract. rewrite G1. contract. rewrite Hst, G5 by eauto. contract. split; [done|]. split; [done|].
  unfold items, flags. simpl. subst. split; [|done]. split; simpl; try done.
  - rewrite length_app. simpl. lia.
  - rewrite existsb_app. simpl. by rewrite orb_false_r.
Qed.

Lemma keeps_flush_collab P : on_core P -> keeps P flush_collab (fun _ => P).
Proof.
  intros HP. apply keeps_beside; [|done]. intros s. unfold flush_collab. destruct (CollabFilter.flush (collab s)). simpl.
  by repeat constructor.
Qed.

(** What ends a message, after the filter was flushed. *)
Lemma keeps_end_message fl it status : done_status status = true ->
  keeps (fun s => true = message_item_opened s /\ items s = it /\ flags s = fl)
    (do! text := read (fun s => join (full_text s)) in
     do! id := read output_item_id in
     do! oi := read output_index in
     let item := MessageItem id status text in
     emit (OutputTextDone id oi text) ;;
     emit (ContentPartDone id oi text) ;;
     emit (ItemDone oi item) ;;
     record_item item ;;
     update (set_message_item_opened false) ;;
     update (set_full_text []) ;;
     update (set_annotation_index 0) ;;
     next_output_index ;;
     do! next := new_id hex "msg_" in
     update (set_output_item_id next))
    (fun _ s => message_item_opened s = false /\ items s = it /\ flags s = fl).
Proof.
  intros Hst s G (Ho & Hi & Hf). state s G. subst.
  contract. rewrite Hst. contract. rewrite (G2 eq_refl). split; [done|]. split; [done|].
  split; [|done]. split; simpl; try done.
  - rewrite length_app. simpl. lia.
  - rewrite existsb_app. simpl. by rewrite orb_true_r.
Qed.

Lemma keeps_close_message fl it status : done_status status = true ->
  keeps (fun s => items s = it /\ flags s = fl) (_close_message_item hex status)
    (fun _ s => message_item_opened s = false /\ items s = it /\ flags s = fl).
Proof.
  intros Hst. unfold _close_message_item. eapply keeps_bind; [apply keeps_read|]. intros opened. simpl.
  destruct opened; simpl; last first.
  { eapply keeps_weaken; [apply keeps_ret|intros s _ H; exact H|]. intros ? s [_ (Ho & H)]. done. }
  eapply keeps_bind.
  { apply (keeps_flush_collab (fun s => true = message_item_opened s /\ items s = it /\ flags s = fl)).
    on_core. }
  intros remaining. eapply keeps_bind.
  { apply (keeps_when _ _ _ (fun s => true = message_item_opened s /\ items s = it /\ flags s = fl)).
    - intros Hr. apply negb_true_iff, bool_decide_eq_false in Hr.
      eapply keeps_weaken; [by apply (keeps_visible_text fl it)|intros s _ (H & ?); by split|]. intros ? s (H & ?). by split.
    - by intros. }
  intros []. by apply keeps_end_message.
Qed.

Lemma keeps_assoc {A B C} (m : M A) (f : A -> M B) (g : B -> M C) P Q :
  keeps P (bind m (fun a => bind (f a) g)) Q -> keeps P (bind (bind m f) g) Q.
Proof.
  intros H s G Hs. specialize (H s G Hs). unfold bind in *. destruct (m s) as [[s1 fs1] [a|e]]; [|done].
  destruct (f a s1) as [[s2 fs2] [b|e]]; [|done]. destruct (g b s2) as [[s3 fs3] r3]. by rewrite <- app_assoc.
Qed.

Lemma blank_app a b : blank (String.append a b) = blank a && blank b.
Proof.
  unfold blank. induction a as [|c a IH]; [done|]. rewrite append_cons. cbn [all_chars]. rewrite IH. by rewrite andb_assoc.
Qed.

Lemma keeps_reasoning_text it fl text :
  keeps (fun s => items s = it /\ flags s = fl) (reasoning_text text) (fun _ s => items s = it /\ flags s = fl).
Proof.
  intros s G [Hi Hf]. unfold reasoning_text.
  destruct (decide (text = EmptyString)) as [->|Ht]; [rewrite bool_decide_true by done|rewrite bool_decide_false by done];
    state s G; destruct reasoning' as [id|]; try done;
    (assert (opened' = false) as -> by (destruct opened'; [by specialize (G2 eq_refl)|done]));
    contract; rewrite ?fragments_snoc.
  - rewrite append_nil_r. split; [done|]. split; [done|]. split; [|done]. split; cbn; try done.
    rewrite fragments_snoc, append_nil_r. exact G5.
  - rewrite G1. contract. split; [done|]. split; [done|]. split; [|done]. split; cbn; try done.
    rewrite fragments_snoc, blank_app. intros _. by rewrite G5.
Qed.

Lemma keeps_given {X A} (f : St -> X) P (m : M A) Q :
  (forall x, keeps (fun s => f s = x /\ P s) m Q) -> keeps P m Q.
Proof. intros H s G Hs. by apply (H (f s)). Qed.

(** The first text of a thinking block *)
Lemma keeps_open_reasoning fl held : blank held = false ->
  keeps (fun s => reasoning_item s = None /\ flags s = fl) (open_reasoning hex ;; reasoning_text held)
    (fun _ s => flags s = fl).
Proof.
  intros Hb. apply (keeps_given any_message_item). intros b. unfold open_reasoning. apply keeps_assoc.
  assert (held <> EmptyString) as Hne by (by intros ->).
  eapply keeps_bind.
  { eapply keeps_weaken; [by apply (keeps_close_message fl (None, b))|intros s _ (Ha & Hr & Hf)|intros ? s H; exact H].
    split; [|done]. unfold items. congruence. }
  intros ? s G (Ho & Hi & Hf). unfold reasoning_text. rewrite bool_decide_false by done. state s G. injection Hi as -> ->. subst opened'.
  contract. rewrite G1. contract. split; [done|]. split; [done|]. split; [|done]. split; cbn; try done.
Qed.

Lemma keeps_citation fl delta :
  keeps (fun s => reasoning_item s = None /\ flags s = fl) (citation delta) (fun _ s => reasoning_item s = None /\ flags s = fl).
Proof.
  unfold citation. eapply keeps_bind; [apply keeps_open_message|].
  intros ? s G (Ho & Hi & Hf). state s G. injection Hi as -> ->. subst opened'. contract. rewrite G1. contract.
  split; [done|]. split; [done|]. split; [|done]. by split.
Qed.

(** A program beside the items, and what follows it. *)
Lemma keeps_after {A B} (m : M A) (f : A -> M B) P Q :
  beside m -> on_core P -> (forall a, keeps P (f a) Q) -> keeps P (bind m f) Q.
Proof. intros Hm HP Hf. eapply keeps_bind; [by apply (keeps_beside _ P)|done]. Qed.

Lemma keeps_post {A} (P : St -> Prop) (m : M A) Q Q' :
  keeps P m Q -> (forall a s, Q a s -> Q' a s) -> keeps P m Q'.
Proof. intros Hm HQ. eapply keeps_weaken; [exact Hm|done|done]. Qed.
Lemma keeps_pre {A} (P P' : St -> Prop) (m : M A) Q :
  keeps P m Q -> (forall s, good s -> P' s -> P s) -> keeps P' m Q.
Proof. intros Hm HP. eapply keeps_weaken; [exact Hm|done|done]. Qed.
Lemma keeps_done {A} (a : A) (P : St -> Prop) (Q : A -> St -> Prop) : (forall s, P s -> Q a s) -> keeps P (ret a) Q.
Proof. intros H. eapply keeps_post; [apply keeps_ret|]. intros ? s [-> ?]. by apply H. Qed.

(** The value of an expression that may raise *)
Lemma keeps_try {A B} (r : result Exn A) (f : A -> M B) P Q :
  (forall a, r = Ok a -> keeps P (f a) Q) -> keeps P (bind (py r) f) Q.
Proof.
  destruct r as [a|e]; intros H; [|intros s G Hs; by apply (keeps_raise (Py e) P)].
  intros s G Hs. specialize (H a eq_refl s G Hs). unfold bind. simpl. by destruct (f a s) as [[s' fs] ?].
Qed.

(** The value of a variable *)
Lemma keeps_look {X A} (f : St -> X) (k : X -> M A) P Q :
  (forall x, keeps (fun s => f s = x /\ P s) (k x) Q) -> keeps P (bind (read f) k) Q.
Proof.
  intros H s G Hs. specialize (H (f s) s G (conj eq_refl Hs)). unfold bind. simpl. by destruct (k (f s) s) as [[s' fs] ?].
Qed.

Ltac after := eapply keeps_after; [solve [beside]|on_core|intros ?].

Lemma beside_close_capture : beside _close_thinking_capture.
Proof.
  unfold _close_thinking_capture. apply beside_update. intros s. by destruct (bool_decide _).
Qed.
Lemma beside_drop_pending : beside drop_pending.
Proof. unfold drop_pending. beside. Qed.
Hint Resolve beside_close_capture beside_drop_pending beside_flush_compaction beside_buffer : beside.

Lemma keeps_thinking_delta fl text : keeps (fun s => flags s = fl) (thinking_delta hex text) (fun _ s => flags s = fl).
Proof.
  unfold thinking_delta. after. eapply keeps_bind; [apply keeps_read|]. intros waiting. destruct waiting.
  - apply (keeps_pre (fun s => reasoning_item s = None /\ flags s = fl)); last first.
    { intros s _ [H Hf]. split; [|done]. symmetry in H. apply andb_true_iff in H as [_ H].
      apply negb_true_iff, bool_decide_eq_false in H. destruct (reasoning_item s); [by destruct H|done]. }
    after. eapply keeps_bind; [apply keeps_read|]. intros held. destruct (blank held) eqn:Hb.
    + apply keeps_done. by intros s (_ & _ & ?).
    + apply (keeps_pre (fun s => reasoning_item s = None /\ flags s = fl)); [|by intros s _ [_ ?]].
      after. by apply keeps_open_reasoning.
  - apply (keeps_given items). intros it. eapply keeps_weaken; [apply (keeps_reasoning_text it fl)| |]; [by intros s _ (? & _ & ?)|].
    by intros ? s [_ ?].
Qed.

Lemma keeps_close_reasoning' fl status : done_status status = true ->
  keeps (fun s => flags s = fl) (_close_reasoning status) (fun _ s => reasoning_item s = None /\ flags s = fl).
Proof.
  intros Hs. apply (keeps_given any_message_item). intros b. eapply keeps_post; [by apply keeps_close_reasoning|].
  by intros ? s [[=] ?].
Qed.

Lemma keeps_text_fragment fl text :
  keeps (fun s => flags s = fl) (text_fragment json_loads turn text) (fun _ s => reasoning_item s = None /\ flags s = fl).
Proof.
  unfold text_fragment. after. eapply keeps_bind; [by apply keeps_close_reasoning'|]. intros ?.
  apply keeps_when; [intros _|by intros]. after. after. match goal with x : Filter * string |- _ => destruct x as [f cleaned] end. after.
  apply keeps_when; [intros Hc|by intros]. apply negb_true_iff, bool_decide_eq_false in Hc. by apply keeps_say.
Qed.

(** ** Thinking and the chunks *)

(** The outcome of a turn that runs. *)
Definition going : Outcome := MkOutcome None false false false None None.

(** The turn runs, in a thinking block or not; the reasoning item is open in such a block
    only, and then tokens are streamed. *)
Definition running (thinking : bool) (s : St) : Prop :=
  exists streaming, flags s = (thinking, streaming, going) /\ (thinking = true -> streaming = true)
  /\ (thinking = false -> reasoning_item s = None).

Lemma running_core thinking : on_core (running thinking).
Proof.
  intros s s' H. destruct (core_items _ _ H) as (_ & E2 & _ & E4). unfold running. rewrite E2, E4. exact id.
Qed.
Hint Resolve running_core : beside.

(** A step beside the items. *)
Ltac along := eapply keeps_after; [solve [beside]|solve [eauto with beside]|intros ?].

(** Marks of a thinking block are not text. *)
Lemma keeps_text_delta was thinking text :
  keeps (fun s => exists streaming, flags s = (thinking, streaming, going)
                  /\ (text = "<think>" -> thinking = false -> reasoning_item s = None))
    (on_text_delta json_loads hex turn was text) (fun _ => running thinking).
Proof.
  unfold on_text_delta.
  eapply keeps_bind with (Q := fun _ s => flags s = (thinking, true, going)
           /\ (text = "<think>" -> thinking = false -> reasoning_item s = None)).
  { intros s G (st & Hf & H). unfold update. split; [done|]. split; [done|]. split; [by destruct G|].
    split; [|done]. unfold flags in *. simpl. congruence. }
  intros ?. eapply keeps_bind; [apply keeps_read|]. intros th.
  apply (keeps_pre (fun s => th = thinking /\ flags s = (thinking, true, going)
           /\ (text = "<think>" -> thinking = false -> reasoning_item s = None))); last first.
  { intros s _ (-> & Hf & H). split; [|done]. unfold flags in Hf. congruence. }
  destruct (decide (th = thinking)) as [->|]; last by intros s G [? _].
  apply (keeps_pre (fun s => flags s = (thinking, true, going)
           /\ (text = "<think>" -> thinking = false -> reasoning_item s = None))); [|by intros s _ [_ ?]].
  eapply keeps_after.
  { beside. }
  { intros s s' Hc. destruct (core_items _ _ Hc) as (_ & E2 & _ & E4). rewrite E2, E4. exact id. }
  intros ?. case_bool_decide as E1; [|case_bool_decide as E2].
  - eapply keeps_weaken; [apply (keeps_beside _ (fun s => flags s = (thinking, true, going)
      /\ (thinking = false -> reasoning_item s = None))); [apply beside_close_capture|]|..].
    + intros s s' Hc. destruct (core_items _ _ Hc) as (_ & E3 & _ & E4). rewrite E3, E4. exact id.
    + intros s _ [Hf H]. split; [done|]. by apply H.
    + intros ? s [Hf H]. exists true. done.
  - apply (keeps_pre (fun s => flags s = (thinking, true, going))); [|by intros s _ [? _]].
    after. after. eapply keeps_post; [by apply keeps_close_reasoning'|]. intros ? s [Hr Hf]. exists true. done.
  - apply (keeps_pre (fun s => flags s = (thinking, true, going))); [|by intros s _ [? _]]. destruct thinking.
    + eapply keeps_post; [apply keeps_thinking_delta|]. intros ? s Hf. exists true. done.
    + eapply keeps_post; [apply keeps_text_fragment|]. intros ? s [Hr Hf]. exists true. done.
Qed.

Lemma formatted_text chunk sent t : format_chunk_content json_loads json_dumps chunk sent = Ok (Some t) -> t <> EmptyString.
Proof.
  unfold format_chunk_content. destruct (process_chunk_content chunk sent) as [content|]; [|done]. cbn [result_bind].
  destruct (match content with JArr blocks => _ | JStr s => _ | _ => _ end) as [[s|]|]; try done. cbn [result_bind].
  destruct (visible s); [|done]. destruct (strip_collab_json json_loads s) as [u|]; [|done]. cbn [result_bind]. unfold some_text.
  case_bool_decide; [done|]. by intros [= <-].
Qed.

(** Outside of thinking no reasoning item is open. *)
Lemma keeps_outside {A} (m : M A) :
  (forall fl, keeps (fun s => reasoning_item s = None /\ flags s = fl) m (fun _ s => reasoning_item s = None /\ flags s = fl)) ->
  keeps (running false) m (fun _ => running false).
Proof.
  intros H s G (st & Hf & Hst & Hr). specialize (H (flags s) s G (conj (Hr eq_refl) eq_refl)). destruct (m s) as [[s' fs] [a|e]]; [|done].
  destruct H as (C & N & G' & Hr' & Hf'). split; [done|]. split; [done|]. split; [done|]. exists st. by rewrite Hf'.
Qed.

Lemma keeps_content_chunk chunk :
  keeps (running false) (content_chunk json_loads json_dumps sw chunk) (fun _ => running false).
Proof.
  unfold content_chunk. along. destruct (_ && _ && _); [by apply keeps_done|]. along.
  apply keeps_try. intros [t|] H; [|by apply keeps_done]. apply keeps_outside. intros fl. apply keeps_say.
  by apply formatted_text in H.
Qed.

(** A chunk that may speak: a citation, or what is neither an event, nor of the user, nor the
    content of the assistant, which is not repeated after its tokens. *)
Definition is_citation (chunk : Json) : bool :=
  let event := if is_str (jget_null chunk "type") "stream_event" then default (JObj []) (jget chunk "event") else JObj [] in
  let delta := if is_dict event then default (JObj []) (jget event "delta") else JObj [] in
  match get delta "type" with Ok type => is_str (default JNull type) "citations_delta" | Err _ => false end.
Definition cites (chunk : Json) : bool :=
  is_citation chunk && (is_null (jget_null chunk "parent_tool_use_id") || subagent_text sw).
Definition streamed (chunk : Json) : bool :=
  is_str (jget_null chunk "type") "stream_event" || is_str (jget_null chunk "type") "user" || is_assistant_content_chunk chunk.
Definition speaks (chunk : Json) : bool := cites chunk || negb (streamed chunk).

(** The thinking flag after a chunk of the turn *)
Definition thinks (thinking : bool) (chunk : Json) : bool :=
  if is_citation chunk then thinking
  else match extract_stream_event_delta (subagent_text sw) chunk thinking with Ok (_, th) => th | Err _ => thinking end.

Lemma extract_delta chunk thinking text th :
  extract_stream_event_delta (subagent_text sw) chunk thinking = Ok (text, th) ->
  match text with
  | None => th = thinking
  | Some text =>
      (is_null (jget_null chunk "parent_tool_use_id") || subagent_text sw = true)
      /\ (text = "<think>" -> th = false -> thinking = false)
  end.
Proof.
  unfold extract_stream_event_delta. destruct (negb (is_str _ _)); [by intros [= <- <-]|].
  destruct (negb (is_null _) && negb (subagent_text sw)) eqn:E; [by intros [= <- <-]|].
  assert (is_null (jget_null chunk "parent_tool_use_id") || subagent_text sw = true) as Hs
    by (by destruct (is_null _), (subagent_text sw)).
  destruct (get _ "type") as [type|]; [|done]. cbn [result_bind].
  assert (forall v, match v with JNull => Ok (None, thinking) | _ => let! s := want_str v in Ok (Some s, thinking) end = Ok (text, th) ->
    match text with None => th = thinking | Some text => (is_null (jget_null chunk "parent_tool_use_id") || subagent_text sw = true)
      /\ (text = "<think>" -> th = false -> thinking = false) end) as Hv.
  { intros v. destruct v; cbn; try done; intros [= <- <-]; done. }
  destruct (if is_str (default JNull type) "content_block_delta" then _ else _) as [dtype|]; [|done]. cbn [result_bind].
  destruct (is_str _ "text_delta"); [by apply Hv|]. destruct (is_str _ "thinking_delta"); [by apply Hv|].
  destruct (if is_str (default JNull type) "content_block_start" then _ else _) as [btype|]; [|done]. cbn [result_bind].
  destruct (is_str (default JNull btype) "thinking"); [by intros [= <- <-]|].
  destruct (is_str (default JNull type) "content_block_stop" && thinking); by intros [= <- <-].
Qed.
Hint Resolve beside_started beside_tool_use beside_heartbeat beside_cli_progress beside_user_results beside_teammates beside_embedded
  beside_system beside_keepalive : beside.

Lemma keeps_along {A} (m : M A) thinking : beside m -> keeps (running thinking) m (fun _ => running thinking).
Proof. intros H. apply keeps_beside; [done|apply running_core]. Qed.

Lemma keeps_rest_of_chunk now chunk thinking : (thinking = true -> streamed chunk = true) -> is_str (jget_null chunk "type") "user" = false ->
  keeps (running thinking) (rest_of_chunk json_loads json_dumps repr sw turn now chunk) (fun _ => running thinking).
Proof.
  intros Hs Hu. unfold rest_of_chunk. along. apply keeps_look. intros streaming.
  destruct (streaming && is_str (jget_null chunk "type") "stream_event") eqn:E1.
  { eapply keeps_pre; [apply keeps_along; beside|by intros s _ [_ ?]]. }
  destruct (streaming && negb (is_str (jget_null chunk "type") "user") && is_assistant_content_chunk chunk) eqn:E2.
  { eapply keeps_pre; [apply keeps_along; beside|by intros s _ [_ ?]]. }
  destruct thinking; [|eapply keeps_pre; [apply keeps_content_chunk|by intros s _ [_ ?]]].
  intros s G [<- (st & Hf & Hst & _)]. injection Hf as _ Hf _. rewrite Hf, Hst, Hu in * by done. simpl in E1, E2.
  specialize (Hs eq_refl). unfold streamed in Hs. rewrite Hu, E1, E2 in Hs. done.
Qed.

Lemma keeps_tool_chunk now chunk thinking : (thinking = true -> streamed chunk = true) ->
  keeps (running thinking) (tool_chunk json_loads json_dumps repr sw turn now chunk) (fun _ => running thinking).
Proof.
  intros Hs. unfold tool_chunk. along. along. along. destruct a1 as [a' handled]. along. destruct handled as [| |block].
  - destruct (is_str (jget_null chunk "type") "user") eqn:Hu; [apply keeps_along; beside|by apply keeps_rest_of_chunk].
  - apply keeps_along. beside.
  - apply keeps_along. beside.
Qed.

(** A chunk of the turn that does not speak while the model thinks *)
Lemma keeps_turn_chunk now chunk thinking : thinking && speaks chunk = false ->
  keeps (running thinking) (turn_chunk json_loads json_dumps repr hex sw turn now chunk) (fun _ => running (thinks thinking chunk)).
Proof.
  intros Hs. unfold turn_chunk. along. apply keeps_look. intros was.
  destruct (decide (was = thinking)) as [->|Hne]; last by intros s G [<- (st & [= H _ _] & _)].
  eapply keeps_pre; [|by intros s _ [_ H]; exact H]. unfold thinks, speaks, cites, is_citation in *.
  apply keeps_try. intros dtype Hd. rewrite Hd in *. destruct (is_str (default JNull dtype) "citations_delta") eqn:Ec.
  - rewrite negb_involutive. apply keeps_when; [intros Hv|by intros]. rewrite Hv in Hs. destruct thinking; [done|].
    apply keeps_outside. intros fl. apply keeps_citation.
  - cbn [andb orb] in Hs. apply keeps_try. intros [text th] E. rewrite E. apply extract_delta in E.
    eapply keeps_bind with (Q := fun _ s => exists st, flags s = (th, st, going) /\ (thinking = true -> st = true)
      /\ (thinking = false -> reasoning_item s = None)).
    { intros s G (st & Hf & Hst & Hr). unfold update. split; [done|]. split; [done|]. split; [by destruct G|].
      exists st. split; [|done]. unfold flags in *. simpl. congruence. }
    intros ?. destruct text as [text|].
    + destruct E as [Hv Hm].
      destruct (negb (is_null (jget_null chunk "parent_tool_use_id")) && negb (subagent_text sw)) eqn:En.
      { exfalso. by destruct (is_null _), (subagent_text sw). }
      eapply keeps_pre; [apply keeps_text_delta|]. intros s _ (st & Hf & _ & Hr). exists st. split; [done|].
      intros Ht Hth. apply Hr. by apply Hm.
    + subst th. eapply keeps_pre; [apply keeps_tool_chunk|].
      * intros ->. simpl in Hs. by apply negb_false_iff in Hs.
      * intros s _ (st & Hf & Hst & Hr). by exists st.
Qed.

(** ** The end of a turn *)

(** What is known of the outcome when the stream is over. *)
Definition verdict (v : Verdict) (s : St) : Prop :=
  match v with
  | VCompleted => o_success (outcome s) = Some true /\ o_text (outcome s) = Some (join (all_visible_text s), thinking_texts s)
  | VIncomplete => o_success (outcome s) = Some false /\ o_text (outcome s) = Some (join (all_visible_text s), thinking_texts s)
                   /\ exists r, o_response (outcome s) = Some r /\ r_output r = completed_output_items s
  | VFailed => o_success (outcome s) = Some false
  end.

(** A program that may end the stream: [v] tells how. *)
Definition ends {A} (E P : St -> Prop) (m : M A) (Q : A -> option Verdict -> St -> Prop) : Prop :=
  forall s, good s -> P s ->
  let '(s', fs, r) := m s in
  match r with
  | Ok a => exists v, contract_run (contract_of s) fs = Some (match v with Some v => over v (contract_of s') | None => contract_of s' end)
            /\ consecutive (seq s) fs (seq s') /\ good s' /\ Q a v s'
  | Err _ => contract_run (contract_of s) fs = Some (contract_of s') /\ (exists n, consecutive (seq s) fs n /\ n <= seq s') /\ E s'
  end.

Definition safe {A} (m : M A) : Prop := forall s, match m s with (_, _, Ok _) => True | _ => False end.

Lemma ends_bind {A B} (E : St -> Prop) P (m : M A) Q (f : A -> M B) R :
  (safe m \/ forall s, E s) -> keeps P m Q -> (forall a, ends E (Q a) (f a) R) -> ends E P (bind m f) R.
Proof.
  intros HE Hm Hf s G Hs. specialize (Hm s G Hs). unfold bind. destruct (m s) as [[s1 fs1] [a|e]] eqn:Em.
  - destruct Hm as (C1 & N1 & G1 & HQ). specialize (Hf a s1 G1 HQ). destruct (f a s1) as [[s2 fs2] r2].
    rewrite contract_run_app, C1. destruct r2 as [b|e].
    + destruct Hf as (v & C2 & N2 & G2 & HR). exists v. split; [done|]. split; [by eapply consecutive_app|done].
    + destruct Hf as (C2 & (n & N2 & Hn) & He). split; [done|]. split; [|done]. exists n. split; [by eapply consecutive_app|done].
  - destruct Hm as [C1 N1]. split; [done|]. split; [done|]. destruct HE as [HE|HE]; [|done]. specialize (HE s). by rewrite Em in HE.
Qed.

Lemma ends_pre {A} E (P P' : St -> Prop) (m : M A) Q :
  ends E P m Q -> (forall s, good s -> P' s -> P s) -> ends E P' m Q.
Proof. intros Hm HP s G Hs. exact (Hm s G (HP s G Hs)). Qed.
Lemma ends_post {A} E (P : St -> Prop) (m : M A) Q Q' :
  ends E P m Q -> (forall a v s, Q a v s -> Q' a v s) -> ends E P m Q'.
Proof.
  intros Hm HQ s G Hs. specialize (Hm s G Hs). destruct (m s) as [[s' fs] [a|e]]; [|done].
  destruct Hm as (v & C & N & G' & H). eauto 10.
Qed.
Lemma ends_done {A} E (a : A) (P : St -> Prop) (Q : A -> option Verdict -> St -> Prop) :
  (forall s, P s -> Q a None s) -> ends E P (ret a) Q.
Proof. intros H s G Hs. simpl. exists None. split; [done|]. split; [done|]. split; [done|]. by apply H. Qed.
Lemma ends_raise {A} e (P E : St -> Prop) (Q : A -> option Verdict -> St -> Prop) : (forall s, P s -> E s) -> ends E P (raise e) Q.
Proof. intros H s G Hs. simpl. split; [done|]. split; [|by apply H]. exists (seq s). split; [done|lia]. Qed.

Lemma final_response_spec status reason structured s :
  exists r, final_response turn status reason structured s = (s, [], r)
  /\ match r with Ok r => r_output r = completed_output_items s /\ r_status r = status | Err _ => True end.
Proof.
  unfold final_response, bind, read. cbv beta iota. destruct (resolve_token_usage _ _ _) as [[input output]|e]; [|by eexists].
  simpl. destruct (resolve_usage_details _) as [d|e]; [|by eexists]. simpl. by eexists.
Qed.

Lemma ends_final_response {A} status reason structured (E P : St -> Prop) (k : Response -> M A) Q :
  (forall s, P s -> E s) ->
  (forall r, ends E (fun s => P s /\ r_output r = completed_output_items s /\ r_status r = status) (k r) Q) ->
  ends E P (bind (final_response turn status reason structured) k) Q.
Proof.
  intros HE Hk s G Hs. unfold bind. destruct (final_response_spec status reason structured s) as (r & -> & Hr).
  destruct r as [r|e].
  - specialize (Hk r s G (conj Hs Hr)). by destruct (k r s) as [[s' fs] r'].
  - split; [done|]. split; [exists (seq s); split; [done|lia]|by apply HE].
Qed.

(** Both items closed *)
Lemma keeps_close_items fl b status : done_status status = true ->
  keeps (fun s => any_message_item s = b /\ flags s = fl) (close_items hex status)
    (fun _ s => message_item_opened s = false /\ items s = (None, b) /\ flags s = fl).
Proof.
  intros Hs. unfold close_items. eapply keeps_after; [beside| |intros ?].
  { intros s s' H. destruct (core_items _ _ H) as ([=] & -> & _). by intros [<- ?]. }
  eapply keeps_bind; [by apply keeps_close_reasoning|]. intros ?. by apply keeps_close_message.
Qed.

Lemma ends_incomplete reason interrupted :
  ends (fun _ => True) (fun _ => True) (end_incomplete hex turn reason interrupted)
    (fun fin v s => fin = true /\ v = Some VIncomplete /\ verdict VIncomplete s).
Proof.
  unfold end_incomplete.
  eapply ends_bind with (Q := fun _ s => message_item_opened s = false /\ reasoning_item s = None); [by right| |intros ?].
  { apply (keeps_given any_message_item). intros b. apply (keeps_given flags). intros fl.
    eapply keeps_weaken; [by apply (keeps_close_items fl b)| |]; [by intros s _ (? & ? & _)|]. by intros ? s (? & [=] & ?). }
  apply ends_final_response; [done|]. intros r s G ((Ho & Hr) & Hout & Hst).
  destruct interrupted; state s G; rewrite Ho, Hr in *; exists (Some VIncomplete); contract;
    (split; [reflexivity|split; [by split|split; [by split|]]]); (split; [done|split; [done|]]);
    unfold verdict; run; (split; [done|split; [done|]]); exists r; by split.
Qed.

(** ** A whole chunk *)

(** A chunk that ends the turn, and one that says nothing of the items. *)
Definition ends_turn (chunk : Json) : bool :=
  let type := jget_null chunk "type" in
  negb (is_str type "tool_progress")
  && (truthy (jget_null chunk "gateway_interrupted")
      || (is_str type "result" && starts_with (py_str repr (text_of chunk "subtype")) "error_max_turns")
      || bool_decide (is_Some (classify_error_chunk repr chunk))).
Definition aside (chunk : Json) : bool :=
  let type := jget_null chunk "type" in is_str type "tool_progress" || is_str type "rate_limit" || is_str type "system".

Lemma get_field v key o : get v key = Ok o -> default JNull o = jget_null v key.
Proof. unfold get, jget_null. destruct v; try done. by intros [= <-]. Qed.

Lemma keeps_ends {A} E P (m : M A) Q R : (safe m \/ forall s, E s) ->
  keeps P m Q -> (forall a s, Q a s -> R a None s) -> ends E P m R.
Proof.
  intros HE Hm HQ s G Hs. specialize (Hm s G Hs). destruct (m s) as [[s' fs] [a|e]] eqn:Em.
  - destruct Hm as (C & N & G' & H). exists None. by eauto.
  - destruct Hm as [C N]. split; [done|]. split; [done|]. destruct HE as [HE|HE]; [|done]. specialize (HE s). by rewrite Em in HE.
Qed.

Lemma ends_try {A B} (r : result Exn A) (f : A -> M B) E P Q :
  (forall a, r = Ok a -> ends E P (f a) Q) -> (forall s, P s -> E s) -> ends E P (bind (py r) f) Q.
Proof.
  destruct r as [a|e]; intros H HE; [|intros s G Hs; exact (ends_raise (Py e) P E Q HE s G Hs)].
  intros s G Hs. specialize (H a eq_refl s G Hs). unfold bind. simpl. by destruct (f a s) as [[s' fs] ?].
Qed.

(** The turn goes on, when [p], or the stream is over. *)
Definition goes_on (p : Prop) (thinking : bool) (fin : bool) (v : option Verdict) (s : St) : Prop :=
  match v with
  | None => fin = false /\ p /\ running thinking s
  | Some v => fin = true /\ verdict v s
  end.

(** The thinking flag after a chunk that does not end the turn *)
Definition next_thinking (thinking : bool) (chunk : Json) : bool := if aside chunk then thinking else thinks thinking chunk.

Lemma ends_failed_event thinking p next code message :
  ends (fun _ => True) (running thinking) (set_success false ;; _make_failed_event code message ;; ret true) (goes_on p next).
Proof.
  assert ((exists c m, _make_failed_event code message = emit (Failed c m))
          \/ _make_failed_event code message = raise (Py ValidationError)) as [(c & m & Em)|Em]
    by (destruct code; try (by right); destruct message; try (by right); left; eauto); rewrite Em; intros s G H; state s G.
  - exists (Some VFailed). contract. split; [done|]. split; [done|]. split; [by split|]. by split.
  - split; [done|]. split; [|done]. exists seq'. split; [done|lia].
Qed.

Lemma ends_on_chunk now chunk thinking :
  ends_turn chunk || aside chunk || negb (thinking && speaks chunk) = true ->
  ends (fun _ => True) (running thinking) (on_chunk json_loads json_dumps repr hex sw turn now chunk)
    (goes_on (ends_turn chunk = false) (next_thinking thinking chunk)).
Proof.
  intros Hc. unfold on_chunk.
  assert (forall (m : M unit), beside m -> aside chunk = true -> ends_turn chunk = false ->
    ends (fun _ => True) (running thinking) (m ;; ret false) (goes_on (ends_turn chunk = false) (next_thinking thinking chunk))) as Haside.
  { intros m Hm Ha He. eapply ends_bind; [by right|by apply keeps_along|]. intros ?. apply ends_done. intros s Hs. split; [done|].
    split; [done|]. unfold next_thinking. by rewrite Ha. }
  assert (forall m : M bool, ends (fun _ => True) (fun _ => True) m (fun fin v s => fin = true /\ v = Some VIncomplete /\ verdict VIncomplete s) ->
    ends (fun _ => True) (running thinking) m (goes_on (ends_turn chunk = false) (next_thinking thinking chunk))) as Hend.
  { intros m Hm. eapply ends_post; [eapply ends_pre; [exact Hm|done]|]. by intros fin v s (-> & -> & ?). }
  destruct (is_str (jget_null chunk "type") "tool_progress") eqn:Etp.
  { apply Haside; [beside| |]; unfold aside, ends_turn; by rewrite Etp. }
  destruct (truthy (jget_null chunk "gateway_interrupted")) eqn:Egi.
  { eapply ends_bind; [by right|apply keeps_along; beside|]. intros ?. apply Hend, ends_incomplete. }
  apply ends_try; [|done]. intros o Ht. apply get_field in Ht. rewrite Ht. clear o Ht.
  destruct (is_str (jget_null chunk "type") "result" && _) eqn:Er; [apply Hend, ends_incomplete|].
  destruct (classify_error_chunk repr chunk) as [[code message]|] eqn:Ee.
  { eapply ends_bind; [by right|apply keeps_along; beside|]. intros ?. apply ends_failed_event. }
  assert (ends_turn chunk = false) as He by (unfold ends_turn; by rewrite Etp, Egi, Er, Ee).
  destruct (is_str (jget_null chunk "type") "rate_limit") eqn:Erl.
  { apply ends_done. intros s Hs. split; [done|]. split; [done|]. unfold next_thinking, aside. by rewrite Erl, orb_true_r. }
  destruct (is_str (jget_null chunk "type") "system") eqn:Esy.
  { apply Haside; [beside| |done]. unfold aside. by rewrite Esy, !orb_true_r. }
  unfold next_thinking. unfold aside in *. rewrite He, Etp, Erl, Esy in *. simpl in Hc. apply negb_true_iff in Hc.
  eapply ends_bind; [by right|by apply keeps_turn_chunk|]. intros ?. by apply ends_done.
Qed.

(** ** The source *)

(** The model finishes a thinking block before it speaks, and before its source ends. *)
Fixpoint orderly (thinking : bool) (arrivals : list Arrival) : bool :=
  match arrivals with
  | [] => negb thinking
  | Got _ chunk :: rest =>
      ends_turn chunk
      || ((aside chunk || negb (thinking && speaks chunk)) && orderly (next_thinking thinking chunk) rest)
  | Quiet _ :: rest => orderly thinking rest
  | Broke _ :: _ => true
  end.

(** What is left to ask of the source after an arrival *)
Definition stays_orderly (thinking : bool) (a : Arrival) (rest : list Arrival) : Prop :=
  orderly (match a with Got _ chunk => next_thinking thinking chunk | _ => thinking end) rest = true.

Lemma ends_on_arrival a thinking rest : orderly thinking (a :: rest) = true ->
  ends (fun _ => True) (running thinking) (on_arrival json_loads json_dumps repr hex sw turn a)
    (goes_on (stays_orderly thinking a rest) (match a with Got _ chunk => next_thinking thinking chunk | _ => thinking end)).
Proof.
  unfold stays_orderly. intros Ho. destruct a as [now chunk|now|e]; simpl in *.
  - eapply ends_bind; [by right|apply keeps_along; beside|]. intros ?. eapply ends_post; [apply ends_on_chunk|].
    + destruct (ends_turn chunk); [done|]. simpl in *. by apply andb_true_iff in Ho as [-> _].
    + intros fin [v|] s; simpl; [done|]. intros (? & He & ?). rewrite He in Ho. simpl in Ho. by apply andb_true_iff in Ho as [_ ->].
  - eapply ends_bind; [by right|apply keeps_along; beside|]. intros [message|]; [by apply ends_raise|].
    eapply ends_bind; [by right|apply keeps_along; beside|]. intros ?.
    eapply ends_bind; [by right|apply keeps_along; beside|]. intros ?. by apply ends_done.
  - by apply ends_raise.
Qed.

(** What a raise leaves: the failure is reported, its number the last one at least. *)
Lemma on_raise_fails e s :
  exists code message, on_raise e s = (set_seq (seq s + 1) (fst (fst (set_success false s))), [Event (Failed code message) (seq s)], Ok tt).
Proof. destruct e; by repeat eexists. Qed.

(** ** After the source *)

Lemma safe_bind {A B} (m : M A) (f : A -> M B) : safe m -> (forall a, safe (f a)) -> safe (bind m f).
Proof.
  intros Hm Hf s. specialize (Hm s). unfold bind. destruct (m s) as [[s1 fs1] [a|e]]; [|done].
  specialize (Hf a s1). by destruct (f a s1) as [[s2 fs2] ?].
Qed.
Lemma safe_each {A} (l : list A) m : (forall x, safe (m x)) -> safe (each l m).
Proof. intros H. induction l; simpl; [done|]. by apply safe_bind. Qed.
Lemma safe_flush_collab : safe flush_collab.
Proof. intros s. unfold flush_collab. by destruct (CollabFilter.flush (collab s)). Qed.

Ltac safe :=
  repeat first
    [ progress intros
    | apply safe_bind | apply safe_each | apply safe_flush_collab
    | match goal with |- safe (match ?x with _ => _ end) => destruct x end
    | match goal with |- safe (if ?b then _ else _) => destruct b end
    | match goal with |- safe ?m => let m' := eval hnf in m in match m' with (fun _ => _) => exact (fun _ => I) end end
    | progress unfold when ].

Lemma safe_open_message : safe _open_message_item.
Proof. unfold _open_message_item. safe. Qed.
Lemma safe_say text : safe (say text).
Proof. unfold say, visible_text, _emit_delta, emit. apply safe_bind; [apply safe_open_message|]. safe. Qed.
Lemma safe_close_reasoning status : safe (_close_reasoning status).
Proof. unfold _close_reasoning. safe. Qed.
Lemma safe_close_message status : safe (_close_message_item hex status).
Proof. unfold _close_message_item, visible_text, _emit_delta. safe. Qed.
Lemma safe_flush_compaction identity : safe (flush_compaction identity).
Proof. unfold flush_compaction, other. safe. Qed.
Lemma safe_close_items status : safe (close_items hex status).
Proof.
  unfold close_items, _close_thinking_capture. apply safe_bind; [done|]. intros ?. apply safe_bind; [apply safe_close_reasoning|].
  intros ?. apply safe_close_message.
Qed.

(** The stream stops without a last event: the route goes on with a pending tool call, or
    finds that there was nothing. *)
Definition unfinished (s : St) : Prop :=
  o_success (outcome s) = Some false
  /\ (o_empty (outcome s) = true
      \/ o_paused (outcome s) = true /\ open_of s = None /\ o_text (outcome s) = Some (join (all_visible_text s), thinking_texts s)).

(** The usage of the turn could not be read: no last event, no outcome. *)
Definition broken_off (s : St) : Prop := outcome s = going /\ open_of s = None.

Definition final (v : option Verdict) (s : St) : Prop :=
  match v with Some v => verdict v s | None => unfinished s end.

Lemma turn_ends_look {X A} (f : St -> X) (k : X -> M A) E P Q :
  (forall x, ends E (fun s => f s = x /\ P s) (k x) Q) -> ends E P (bind (read f) k) Q.
Proof.
  intros H s G Hs. specialize (H (f s) s G (conj eq_refl Hs)). unfold bind. simpl. by destruct (k (f s) s) as [[s' fs] ?].
Qed.

(** The last items are closed, then the response is completed. *)
Lemma ends_completed :
  ends broken_off (fun s => message_item_opened s = false /\ items s = (None, true) /\ outcome s = going)
    (do! r := final_response turn "completed" None true in set_success true ;; set_texts ;; emit (Completed r))
    (fun _ => final).
Proof.
  apply ends_final_response.
  { intros s (Ho & Hi & Hf). split; [done|]. unfold open_of. injection Hi as Hr _. by rewrite Ho, Hr. }
  intros r s G ((Ho & Hi & Hf) & Hout & Hst). state s G. injection Hi as -> ->. subst opened' outcome'. exists (Some VCompleted).
  simpl in G4. contract. rewrite <- G4. cbv beta iota. split; [reflexivity|]. split; [by split|]. split; [by split|]. by split.
Qed.

(** The last message is closed, or an empty one is sent. *)
Definition last_message : M unit :=
  do! opened := read message_item_opened in
  do! any := read any_message_item in
  if opened || any then _close_message_item hex "completed" else _open_message_item ;; _close_message_item hex "completed".

Lemma safe_last_message : safe last_message.
Proof. unfold last_message. safe; first [apply safe_close_message|apply safe_open_message]. Qed.

Lemma keeps_fact {A} (p : Prop) (P : St -> Prop) (m : M A) Q :
  (forall s, P s -> p) -> (p -> keeps P m Q) -> keeps P m Q.
Proof. intros Hp Hm s G Hs. exact (Hm (Hp s Hs) s G Hs). Qed.

Lemma keeps_close_all status : done_status status = true ->
  keeps (fun s => outcome s = going) (close_items hex status) (fun _ s => open_of s = None /\ outcome s = going).
Proof.
  intros Hs. apply (keeps_given any_message_item). intros b. apply (keeps_given flags). intros fl.
  apply (keeps_fact (snd fl = going)); [by intros s (<- & _ & ?)|]. intros Hfl.
  eapply keeps_weaken; [by apply (keeps_close_items fl b)|by intros s _ (? & ? & _)|].
  intros ? s (Ho & [=] & Hf). split; [by unfold open_of; rewrite Ho, H0|by subst fl].
Qed.

Lemma keeps_last_message :
  keeps (fun s => reasoning_item s = None /\ outcome s = going) last_message
    (fun _ s => message_item_opened s = false /\ items s = (None, true) /\ outcome s = going).
Proof.
  apply (keeps_given flags). intros fl. apply (keeps_fact (snd fl = going)); [by intros s (<- & _ & ?)|]. intros Hfl.
  unfold last_message. apply keeps_look. intros opened. apply keeps_look. intros any.
  destruct (opened || any) eqn:E.
  - eapply keeps_weaken; [by apply (keeps_close_message fl (None, true))| |].
    + intros s [_ _ _ G4 _] (<- & <- & Hf & Hr & _). split; [|done]. unfold items. rewrite Hr. f_equal.
      rewrite G4 in *. by destruct (message_item_opened s).
    + intros ? s (Ho & Hi & Hf). split; [done|]. split; [done|]. by subst fl.
  - eapply keeps_bind with (Q := fun _ s => items s = (None, true) /\ flags s = fl).
    + eapply keeps_weaken; [apply keeps_open_message|by intros s _ (_ & _ & ? & ? & _)|]. by intros ? s (_ & ? & ?).
    + intros ?. eapply keeps_post; [by apply keeps_close_message|]. intros ? s (Ho & Hi & Hf). split; [done|]. split; [done|]. by subst fl.
Qed.

Lemma bind_assoc {A B C} (m : M A) (f : A -> M B) (g : B -> M C) s : bind (bind m f) g s = bind m (fun a => bind (f a) g) s.
Proof.
  unfold bind. destruct (m s) as [[s1 fs1] [a|e]]; [|done]. destruct (f a s1) as [[s2 fs2] [b|e]]; [|done].
  destruct (g b s2) as [[s3 fs3] r3]. by rewrite <- app_assoc.
Qed.
Lemma bind_read {X A} (f : St -> X) (k : X -> M A) s : bind (read f) k s = k (f s) s.
Proof. unfold bind. simpl. by destruct (k (f s) s) as [[s' fs] ?]. Qed.

Lemma ends_eq {A} E P (m m' : M A) Q : (forall s, m' s = m s) -> ends E P m Q -> ends E P m' Q.
Proof. intros He H s. rewrite He. apply H. Qed.

Lemma ends_finalize pending : ends broken_off (running false) (finalize hex turn pending) (fun _ => final).
Proof.
  unfold finalize. eapply ends_bind; [left; apply safe_flush_collab|apply keeps_flush_collab, running_core|]. intros remaining.
  eapply ends_bind with (Q := fun _ => running false); [left| |intros ?].
  { unfold when. destruct (negb _); [apply safe_say|done]. }
  { apply keeps_when; [intros Hr|by intros]. apply negb_true_iff, bool_decide_eq_false in Hr. apply keeps_outside. intros fl.
    by apply keeps_say. }
  eapply ends_bind; [left; apply safe_flush_compaction|apply keeps_along; beside|]. intros ?.
  eapply ends_pre with (P := fun s => outcome s = going); [|by intros s _ (st & [=] & _)].
  destruct pending.
  - eapply ends_bind; [left; apply safe_close_items|by apply keeps_close_all|]. intros ?.
    intros s G [Ho Hf]. exists None. unfold final, unfinished. state s G. subst outcome'.
    split; [reflexivity|]. split; [done|]. split; [by split|]. split; [done|]. right. by split.
  - apply turn_ends_look. intros [].
    + intros s G [_ Hf]. exists None. state s G. split; [reflexivity|]. split; [done|]. split; [by split|]. split; [done|]. by left.
    + eapply ends_pre; [|by intros s _ [_ H]; exact H].
      eapply ends_bind; [left; done|apply keeps_beside; [beside|]|intros ?].
      { intros s s' [=]. congruence. }
      eapply ends_bind with (Q := fun _ s => reasoning_item s = None /\ outcome s = going); [left; apply safe_close_reasoning| |intros ?].
      { apply (keeps_given flags). intros fl. apply (keeps_fact (snd fl = going)); [by intros s (<- & ?)|]. intros Hfl.
        eapply keeps_weaken; [by apply (keeps_close_reasoning' fl)|by intros s _ [? _]|]. intros ? s [? Hf]. by subst fl. }
      eapply ends_eq; [|eapply ends_bind; [left; apply safe_last_message|apply keeps_last_message|intros ?; exact ends_completed]].
      intros s. unfold last_message. by rewrite bind_assoc, !bind_read, bind_assoc, bind_read.
Qed.

(** ** The whole stream *)

(** The numbers follow one another; that of a failure may skip some. *)
Definition numbered (a : Z) (fs : list Frame) : Prop :=
  exists fs0 last n, fs = fs0 ++ last /\ consecutive a fs0 n
  /\ (last = [] \/ exists code message k, last = [Event (Failed code message) k] /\ n <= k).

Lemma frames_numbered_app a fs1 n fs2 : consecutive a fs1 n -> numbered n fs2 -> numbered a (fs1 ++ fs2).
Proof.
  intros H1 (fs0 & last & k & -> & H2 & Hl). exists (fs1 ++ fs0), last, k. rewrite app_assoc. split; [done|].
  split; [by eapply consecutive_app|done].
Qed.
Lemma numbered_all a fs n : consecutive a fs n -> numbered a fs.
Proof. intros H. exists fs, [], n. rewrite app_nil_r. by eauto. Qed.

Lemma body_conforms pending arrivals : forall thinking s,
  good s -> running thinking s -> orderly thinking arrivals = true ->
  let '(s', fs, r) := body json_loads json_dumps repr hex sw turn pending arrivals s in
  (exists v, contract_run (contract_of s) fs = Some (match v with Some v => over v (contract_of s') | None => contract_of s' end)
   /\ match r with Ok _ => final v s' | Err _ => v = None /\ broken_off s' end)
  /\ numbered (seq s) fs.
Proof.
  induction arrivals as [|a arrivals IH]; intros thinking s G H Ho; cbn [body].
  - destruct thinking; [done|]. pose proof (ends_finalize pending s G H) as K. destruct (finalize hex turn pending s) as [[s' fs] [u|e]].
    + destruct K as (v & C & N & _ & F). split; [by exists v|by eapply numbered_all].
    + destruct K as (C & (n & N & _) & B). split; [by exists None|by eapply numbered_all].
  - pose proof (ends_on_arrival a thinking arrivals Ho s G H) as K.
    destruct (on_arrival json_loads json_dumps repr hex sw turn a s) as [[s1 fs1] [fin|e]].
    + destruct K as (v & C & N & G1 & Hg). destruct v as [v|]; destruct Hg as [-> Hg].
      * rewrite app_nil_r. split; [by exists (Some v)|by eapply numbered_all].
      * destruct Hg as [Ho1 Hg]. specialize (IH _ s1 G1 Hg Ho1).
        destruct (body json_loads json_dumps repr hex sw turn pending arrivals s1) as [[s2 fs2] r2].
        destruct IH as ((v & C2 & F) & N2). split; [|by eapply frames_numbered_app].
        exists v. rewrite contract_run_app, C. done.
    + destruct K as (C & (n & N & Hn) & _). destruct (on_raise_fails e s1) as (code & message & ->). split.
      * exists (Some VFailed). rewrite contract_run_app, C. by destruct s1.
      * exists fs1, [Event (Failed code message) (seq s1)], n. split; [done|]. split; [done|]. right. by eauto 10.
Qed.

Lemma stream_conforms now pending arrivals s fs r :
  orderly false arrivals = true ->
  stream_response_chunks json_loads json_dumps repr hex sw turn now pending arrivals = (s, fs, r) ->
  exists c, contract_run start fs = Some c /\ numbered 0 fs
  /\ c_done c = completed_output_items s /\ c_text c = join (all_visible_text s)
  /\ match c_phase c, r with
     | POver v, Ok _ => verdict v s
     | PBody, Ok _ => unfinished s
     | PBody, Err _ => broken_off s
     | _, _ => False
     end.
Proof.
  intros Ho H. unfold stream_response_chunks, bind, emit in H.
  set (s0 := set_seq _ (set_seq _ (init turn now))) in H.
  assert (good s0) as G by (split; subst s0; simpl; done).
  assert (running false s0) as R by (exists false; subst s0; by split).
  pose proof (body_conforms pending arrivals false s0 G R Ho) as K.
  destruct (body json_loads json_dumps repr hex sw turn pending arrivals s0) as [[s' fs'] r']. injection H as <- <- <-.
  destruct K as ((v & C & F) & (fs0 & last & n & -> & N & L)).
  exists (match v with Some v => over v (contract_of s') | None => contract_of s' end). split; [exact C|]. split.
  { exists (Event Created 0 :: Event InProgress 1 :: fs0), last, n. split; [done|]. split; [done|exact L]. }
  destruct r' as [u|e]; [|destruct F as [-> F]]; [destruct v|]; done.
Qed.

(** C17. The stream of a turn keeps its contract.  For every source whose model finishes its
    thinking blocks, whatever its chunks hold, when it is silent and where it breaks: the
    events are in order, one item is open at a time and is announced, streamed and closed
    under one index and id; a whole text is what was streamed, and a reasoning item is not
    blank; the numbers follow one another, but that of a failure may skip some; there is one
    last event at most, and it lists the items that were closed.  The outcome says how it
    ended and holds the visible text as streamed; without a last event the turn is paused or
    empty, or the usage the SDK reported could not be read. *)
Theorem turn_stream_conforms now pending arrivals s fs r :
  orderly false arrivals = true ->
  stream_response_chunks json_loads json_dumps repr hex sw turn now pending arrivals = (s, fs, r) ->
  exists c, contract_run start fs = Some c /\ numbered 0 fs
  /\ c_done c = completed_output_items s /\ c_text c = join (all_visible_text s)
  /\ match c_phase c, r with
     | POver v, Ok _ => verdict v s
     | PBody, Ok _ => unfinished s
     | PBody, Err _ => broken_off s
     | _, _ => False
     end.
Proof. apply stream_conforms. Qed.
End laws.

(** ** Turns *)

Definition no_switches : Switches := MkSwitches false true false true false true true.
Definition claude_turn : Turn := MkTurn "msg_0" "Hello" false JNull 300 1800.

(** Chunks of the SDK *)
Definition stream_event (event : list (string * Json)) : Json := JObj [("type", JStr "stream_event"); ("event", JObj event)].
Definition block_start (type : string) : Json :=
  stream_event [("type", JStr "content_block_start"); ("content_block", JObj [("type", JStr type)])].
Definition block_stop : Json := stream_event [("type", JStr "content_block_stop")].
Definition delta (type key text : string) : Json :=
  stream_event [("type", JStr "content_block_delta"); ("delta", JObj [("type", JStr type); (key, JStr text)])].
Definition text_delta (text : string) : Json := delta "text_delta" "text" text.
Definition think_delta (text : string) : Json := delta "thinking_delta" "thinking" text.
Definition result_chunk : Json :=
  JObj [("type", JStr "result"); ("subtype", JStr "success"); ("result", JStr "Hi there");
        ("usage", JObj [("input_tokens", JInt 7); ("output_tokens", JInt 3)])].

Definition sample_turn : list Arrival :=
  map (Got 0) [block_start "thinking"; think_delta "Let me "; think_delta "see"; block_stop;
               block_start "text"; text_delta "Hi"; text_delta " there"; block_stop; result_chunk].

Notation run_turn :=
  (stream_response_chunks (fun _ => Err JSONDecodeError) (fun _ => "") (fun _ => "") pretty no_switches claude_turn 0 false).

Lemma turn_stream_conforms_witness :
  orderly (fun _ => "") no_switches false sample_turn = true
  /\ exists c, contract_run start (snd (fst (run_turn sample_turn))) = Some c /\ c_text c = "Hi there".
Proof.
  assert (orderly (fun _ => "") no_switches false sample_turn = true) as Ho by (vm_compute; reflexivity).
  assert (join (all_visible_text (fst (fst (run_turn sample_turn)))) = "Hi there") as Ht by (vm_compute; reflexivity).
  assert (forall x : St * list Frame * result Raised unit, x = (fst (fst x), snd (fst x), snd x)) as Hx by (by intros [[? ?] ?]).
  split; [exact Ho|].
  destruct (turn_stream_conforms (fun _ => Err JSONDecodeError) (fun _ => "") (fun _ => "") pretty no_switches claude_turn 0 false sample_turn
    _ _ _ Ho (Hx _)) as (c & H & _ & _ & Hc & _).
  exists c. split; [exact H|]. rewrite Hc. exact Ht.
Defined.

(** What its reader gets *)
Example sample_frames :
  snd (fst (run_turn sample_turn)) =
    [Event Created 0; Event InProgress 1;
     Event (ItemAdded 0 (NewReasoning "rs_0")) 2; Event (SummaryPartAdded "rs_0" 0) 3;
     Event (SummaryTextDelta "rs_0" 0 "Let me ") 4; Event (ReasoningTextDelta "rs_0" 0 "Let me ") 5;
     Event (SummaryTextDelta "rs_0" 0 "see") 6; Event (ReasoningTextDelta "rs_0" 0 "see") 7;
     Event (SummaryTextDone "rs_0" 0 "Let me see") 8; Event (ReasoningTextDone "rs_0" 0 "Let me see") 9;
     Event (SummaryPartDone "rs_0" 0 "Let me see") 10;
     Event (ItemDone 0 (ReasoningItem "rs_0" "completed" "Let me see")) 11;
     Event (ItemAdded 1 (NewMessage "msg_0")) 12; Event (ContentPartAdded "msg_0" 1) 13;
     Event (OutputTextDelta "msg_0" 1 "Hi") 14; Event (OutputTextDelta "msg_0" 1 " there") 15;
     Event (OutputTextDone "msg_0" 1 "Hi there") 16; Event (ContentPartDone "msg_0" 1 "Hi there") 17;
     Event (ItemDone 1 (MessageItem "msg_0" "completed" "Hi there")) 18;
     Event (Completed (MkResponse "completed"
       [ReasoningItem "rs_0" "completed" "Let me see"; MessageItem "msg_0" "completed" "Hi there"]
       (MkUsage 7 3 (MkInputDetails 0 0 None)) None JNull)) 19].
Proof. vm_compute. reflexivity. Qed.

(** A result in a thinking block that was not finished: the message is announced beside the
    open reasoning item, under its index, and the events are out of order. *)
Definition unfinished_thought : list Arrival :=
  map (Got 0) [block_start "thinking"; think_delta "Hm"; result_chunk].
Example unfinished_thought_breaks :
  contract_run start (snd (fst (run_turn unfinished_thought))) = None
  /\ r_output <$> (match last (snd (fst (run_turn unfinished_thought))) with Some (Event (Completed r) _) => Some r | _ => None end)
     = Some [ReasoningItem "rs_0" "completed" "Hm"; MessageItem "msg_0" "completed" "Hi there"]
  /\ In (Event (ItemAdded 0 (NewMessage "msg_0")) 6) (snd (fst (run_turn unfinished_thought)))
  /\ In (Event (ItemDone 1 (MessageItem "msg_0" "completed" "Hi there")) 15) (snd (fst (run_turn unfinished_thought))).
Proof. vm_compute. intuition. Qed.

(** A fragment of text that reads like a mark of thinking is taken for one, and lost. *)
Example marks_are_lost :
  let arrivals := map (Got 0) [text_delta "Use "; text_delta "<think>"; text_delta " tags"; result_chunk] in
  join (all_visible_text (fst (fst (run_turn arrivals)))) = "Use  tags".
Proof. vm_compute. reflexivity. Qed.

(** Usage that cannot be read ends the stream after its items, without a last event. *)
Example unreadable_usage :
  let bad := JObj [("type", JStr "result"); ("usage", JObj [("input_tokens", JStr "many")])] in
  let '(s, fs, r) := run_turn (map (Got 0) [text_delta "Hi"; bad]) in
  r = Err (Py ValueError) /\ o_success (outcome s) = None
  /\ last fs = Some (Event (ItemDone 0 (MessageItem "msg_0" "completed" "Hi")) 7).
Proof. vm_compute. done. Qed.
