(* ===== verification/ResponsesTurn.v ===== *)
(** What a turn of [/v1/responses] says, when it is given up, and what escapes it
    ([ResponsesStream]). *)

From stdpp Require Import pretty.
From S2P Require Import Prelude Json Raise CollabFilter Chunks Progress ResponsesStream ResponsesStreamLaws.

(** ** The custom events *)

(** The names of the events that are not of the Responses API. *)
Definition TASK_EVENTS : list string :=
  ["task_started"; "task_progress"; "task_notification"; "task_updated"; "hook_event"; "compaction"; "local_command_output"].
Definition CUSTOM_EVENTS : list string :=
  map (String.append "response.") TASK_EVENTS
  ++ ["response.teammate_message"; "response.tool_use_started"; "response.tool_progress"; "response.tool_use";
      "response.tool_result"; "response.server_tool_use"; "response.advisor_tool_result"].

(** A custom event has a known name, and its [type] field is its name. *)
Definition typed (c : Custom) : Prop := fst c ∈ CUSTOM_EVENTS /\ dict_get (snd c) "type" = Some (JStr (fst c)).

(** An event of a [system] chunk before it is sent *)
Definition task_event (v : Json) : Prop :=
  exists d name, v = JObj d /\ dict_get d "type" = Some (JStr name) /\ name ∈ TASK_EVENTS.

Definition typed_frame (f : Frame) : Prop := match f with Event (Other c) _ => typed c | _ => True end.
(** A frame of a turn that is not completed yet *)
Definition open_frame (f : Frame) : Prop :=
  match f with Event (Other c) _ => typed c | Event (Completed _) _ => False | _ => True end.
Lemma open_typed fs : Forall open_frame fs -> Forall typed_frame fs.
Proof. intros H. eapply Forall_impl; [exact H|]. by intros [|[]]. Qed.

(** The events that the compactions hold *)
Definition held_typed (t : Tracker) : Prop :=
  Forall (fun ks => match pending (snd ks) with Some e => task_event e | None => True end) t.

Lemma built_task_event chunk e : _build_task_event chunk = Some e -> task_event e.
Proof.
  unfold _build_task_event. repeat (case_match; [intros [= <-]; eexists _, _; split; [reflexivity|]; split; [reflexivity|]; by set_solver|]).
  done.
Qed.

Lemma built_progress_event sw chunk e : _build_progress_event sw chunk = Ok (Some e) -> task_event e.
Proof.
  unfold _build_progress_event. destruct (_stream_identity chunk) as [parent session]. intros H.
  repeat first
    [ done
    | match type of H with (if ?b then _ else _) = _ => destruct b end
    | match type of H with (let! _ := ?r in _) = _ => destruct r; [|done]; cbn [result_bind] in H end
    | match type of H with match ?x with _ => _ end = _ => destruct x end
    | injection H as <-; eexists _, _; split; [reflexivity|]; split; [reflexivity|]; by set_solver ].
Qed.

Lemma task_event_set e key v : key <> "type" -> task_event e -> task_event (jset e key v).
Proof.
  intros Hk (d & name & -> & Ht & Hn). eexists _, name. split; [reflexivity|]. split; [|done]. by rewrite dict_get_set_ne.
Qed.

Lemma sent_task_event e : task_event e -> typed (make_task_response_sse e).
Proof.
  intros (d & name & -> & Ht & Hn). unfold make_task_response_sse, jget_null. simpl. rewrite Ht. simpl. split.
  - apply elem_of_app. left. by apply (list_elem_of_fmap_2 (String.append "response.")). 
  - apply dict_get_set_eq.
Qed.

Lemma held_set t k c : held_typed t -> match pending c with Some e => task_event e | None => True end ->
  held_typed (kset same_pair t k c).
Proof.
  intros Ht Hc. induction Ht as [|[k' c'] t Hx Ht IH]; simpl; [by repeat constructor|].
  destruct (same_pair k k'); by constructor.
Qed.
Lemma held_del t k : held_typed t -> held_typed (kdel same_pair t k).
Proof.
  intros Ht. induction Ht as [|[k' c'] t Hx Ht IH]; simpl; [by constructor|]. destruct (same_pair k k'); [done|]. by constructor.
Qed.
Lemma held_get t k c : held_typed t -> kget same_pair t k = Some c -> match pending c with Some e => task_event e | None => True end.
Proof.
  intros Ht. induction Ht as [|[k' c'] t Hx Ht IH]; simpl; [done|]. destruct (same_pair k k'); [by intros [= <-]|done].
Qed.

Lemma fed_typed t e t' seen : held_typed t -> task_event e -> feed t e = Ok (t', seen) -> held_typed t' /\ Forall task_event seen.
Proof.
  intros Ht He. unfold feed. destruct (negb (is_str (jget_null e "type") "compaction")); [intros [= <- <-]; by repeat constructor|].
  destruct (hashed _) as [[]|]; [|done]. simpl. destruct (hashed _) as [[]|]; [|done]. simpl.
  set (state := default _ _).
  assert (match pending state with Some e => task_event e | None => True end) as Hs.
  { subst state. destruct (kget same_pair t (_stream_identity e)) eqn:E; simpl; [by apply held_get in E|done]. }
  destruct (is_str _ "start"); [destruct (is_open state)|destruct (is_str _ "compact_boundary")]; intros [= <- <-].
  - by repeat constructor.
  - split; [by apply held_set|by repeat constructor].
  - split; [by apply held_del|]. repeat constructor. destruct (pending state); [by apply task_event_set|done].
  - split; [by apply held_set|by repeat constructor].
Qed.

Lemma flushed_typed t identity t' closed : held_typed t -> Progress.flush t identity = (t', closed) -> held_typed t' /\ Forall task_event closed.
Proof.
  intros Ht. revert t' closed. induction Ht as [|[k c] t Hx Ht IH]; intros t' closed; simpl; [intros [= <- <-]; by repeat constructor|].
  destruct (Progress.flush t identity) as [t1 closed1]. destruct (IH _ _ eq_refl) as [H1 H2]. simpl in Hx.
  assert (held_typed ((k, c) :: t1)) as H3 by (by constructor).
  destruct (pending c) as [e|] eqn:E; [destruct (match identity with Some i => _ | None => _ end)|]; intros [= <- <-]; split; try done.
  by constructor.
Qed.

(** ** Programs *)

(** The clock of the keepalive wrapper is at [t], what is held is typed, and the turn has no
    outcome yet. *)
Definition steady (t : Z) (s : St) : Prop := last_item_at s = t /\ held_typed (compaction s) /\ outcome s = going.

(** A program leaves the clock and the outcome alone and sends typed events only. *)
Definition sound {A} (m : M A) : Prop := forall t s, steady t s ->
  let '(s', fs, _) := m s in steady t s' /\ Forall open_frame fs.

Lemma sound_bind {A B} (m : M A) (f : A -> M B) : sound m -> (forall a, sound (f a)) -> sound (bind m f).
Proof.
  intros Hm Hf t s Hs. specialize (Hm t s Hs). unfold bind. destruct (m s) as [[s1 fs1] [a|e]]; [|done].
  destruct Hm as [H1 F1]. specialize (Hf a t s1 H1). destruct (f a s1) as [[s2 fs2] r2]. destruct Hf as [H2 F2].
  split; [done|by apply Forall_app].
Qed.
Lemma sound_ret {A} (a : A) : sound (ret a).
Proof. by intros t s Hs. Qed.
Lemma sound_read {A} (f : St -> A) : sound (read f).
Proof. by intros t s Hs. Qed.
Lemma sound_raise {A} e : sound (raise (A := A) e).
Proof. by intros t s Hs. Qed.
Lemma sound_py {A} (r : result Exn A) : sound (py r).
Proof. by destruct r; intros t s Hs. Qed.
Lemma sound_update f : (forall t s, steady t s -> steady t (f s)) -> sound (update f).
Proof. intros H t s Hs. split; [by apply H|done]. Qed.
Lemma sound_emit p : open_frame (Event p 0) -> sound (emit p).
Proof. intros H t s Hs. split; [done|]. by repeat constructor. Qed.
Lemma sound_each {A} (l : list A) m : (forall x, x ∈ l -> sound (m x)) -> sound (each l m).
Proof.
  induction l as [|x l IH]; intros H; simpl; [apply sound_ret|]. apply sound_bind; [apply H; set_solver|]. intros ?. apply IH. set_solver.
Qed.
Lemma sound_listing m : sound m -> sound (listing m).
Proof.
  intros Hm t s Hs. specialize (Hm t s Hs). unfold listing. destruct (m s) as [[s' fs] [u|e]]; [done|]. by destruct Hm.
Qed.
Lemma sound_events l : Forall task_event l -> sound (each l (fun e => other (make_task_response_sse e))).
Proof.
  intros H. apply sound_each. intros e He. apply sound_emit. apply sent_task_event. by eapply Forall_forall in H.
Qed.

Create HintDb sound.
Ltac sound :=
  repeat first
    [ progress intros
    | solve [auto 1 with sound nocore]
    | apply sound_ret | apply sound_read | apply sound_raise | apply sound_py
    | apply sound_bind | apply sound_listing
    | match goal with |- sound (when ?b _) => destruct b; cbn [when] end
    | match goal with |- sound (each _ _) => apply sound_each end
    | apply sound_update; intros ? ? ?; assumption
    | apply sound_emit; exact I
    | match goal with |- sound (match ?x with _ => _ end) => destruct x end
    | match goal with |- sound (if ?b then _ else _) => destruct b end ].

Lemma is_str_true v s : is_str v s = true -> v = JStr s.
Proof. destruct v; try done. simpl. by intros ->%bool_decide_eq_true. Qed.

Section turns.
Context (json_loads : string -> result Exn Json) (json_dumps : Json -> string) (repr : Json -> string).
Context (hex : nat -> string) (sw : Switches) (turn : Turn).

Lemma sound_flush_collab : sound flush_collab.
Proof. intros t s Hs. unfold flush_collab. by destruct (CollabFilter.flush (collab s)). Qed.
Lemma sound_new_id prefix : sound (new_id hex prefix).
Proof. by intros t s Hs. Qed.
Hint Resolve sound_flush_collab sound_new_id : sound.
Lemma sound_open_message : sound _open_message_item.
Proof. unfold _open_message_item. sound. Qed.
Lemma sound_visible_text text : sound (visible_text text).
Proof. unfold visible_text, _emit_delta. sound. Qed.
Hint Resolve sound_open_message sound_visible_text : sound.
Lemma sound_close_capture : sound _close_thinking_capture.
Proof. apply sound_update. intros t s Hs. unfold steady in *. simpl. by destruct (bool_decide _). Qed.
Lemma sound_close_reasoning status : sound (_close_reasoning status).
Proof. unfold _close_reasoning, record_item, next_output_index. sound. Qed.
Lemma sound_close_message status : sound (_close_message_item hex status).
Proof. unfold _close_message_item, record_item, next_output_index. sound. Qed.
Lemma sound_say text : sound (say text).
Proof. unfold say. sound. Qed.
Hint Resolve sound_close_capture sound_close_reasoning sound_close_message sound_say : sound.

Lemma sound_remember block : sound (_remember_tool_use block).
Proof. unfold _remember_tool_use. sound. Qed.
Lemma sound_record_use now block : sound (_record_tool_use now block).
Proof. unfold _record_tool_use. sound. Qed.
Lemma sound_record_result now block : sound (_record_tool_result now block).
Proof. unfold _record_tool_result. sound. Qed.
Hint Resolve sound_remember sound_record_use sound_record_result : sound.
Lemma sound_record_results now blocks : sound (record_results turn now blocks).
Proof. induction blocks; simpl; sound. Qed.
Hint Resolve sound_record_results : sound.

(** The custom events of the tools *)
Ltac known := apply sound_emit; split; [unfold CUSTOM_EVENTS, TASK_EVENTS; cbn; set_solver|reflexivity].

Lemma sound_started chunk : sound (_tool_use_started_events sw chunk).
Proof. unfold _tool_use_started_events, other. sound. known. Qed.
Lemma sound_tool_use now block : sound (_tool_use_events sw now block).
Proof. unfold _tool_use_events, other. sound. known. Qed.
Lemma sound_heartbeat now : sound (_tool_heartbeat_events sw now).
Proof. unfold _tool_heartbeat_events, other. sound. known. Qed.
Lemma sound_cli_progress now chunk : sound (_cli_tool_progress_events repr sw now chunk).
Proof. unfold _cli_tool_progress_events, other. sound; known. Qed.
Lemma typed_tool_result block parent : typed (make_tool_result_response_sse repr block parent).
Proof. unfold make_tool_result_response_sse, normalize_tool_result_for_sse. split; [cbn; set_solver|]. by destruct (is_dict block). Qed.
Lemma sound_user_results now chunk : sound (_user_tool_result_events repr sw turn now chunk).
Proof. unfold _user_tool_result_events, other. sound. apply sound_emit, typed_tool_result. Qed.
Lemma sound_teammates chunk : sound (_teammate_message_events chunk).
Proof. unfold _teammate_message_events, other. sound. known. Qed.
Hint Resolve sound_started sound_tool_use sound_heartbeat sound_cli_progress sound_user_results sound_teammates : sound.

Lemma sound_embedded_block now block : sound (embedded_block repr sw turn now block).
Proof.
  unfold embedded_block, other. set (type := block_field block "type").
  destruct (is_str type "tool_use"); [sound; known|]. destruct (is_str type "tool_result"); [sound; apply sound_emit, typed_tool_result|].
  destruct (is_str type "server_tool_use") eqn:E1; [apply is_str_true in E1; rewrite E1; sound; known|].
  destruct (is_str type "advisor_tool_result") eqn:E2; [apply is_str_true in E2; rewrite E2; sound; known|sound].
Qed.
Hint Resolve sound_embedded_block : sound.
Lemma sound_embedded now chunk : sound (_embedded_tool_events repr sw turn now chunk).
Proof. unfold _embedded_tool_events. sound. Qed.
Lemma sound_buffer chunk : sound (buffer chunk).
Proof. unfold buffer. sound. Qed.
Lemma sound_keepalive : sound keepalive.
Proof. intros t s Hs. split; [done|]. by repeat constructor. Qed.
Lemma sound_flush_compaction identity : sound (flush_compaction identity).
Proof.
  intros t s (Ht & Hh & Ho). unfold flush_compaction. unfold bind, read, update. cbn [app].
  destruct (Progress.flush (compaction s) identity) as [t' closed] eqn:E. destruct (flushed_typed _ _ _ _ Hh E) as [H1 H2].
  assert (steady t (set_compaction t' s)) as Hs by done. pose proof (sound_events closed H2 t _ Hs) as K. cbn.
  by destruct (each closed _ _) as [[s' fs] ?].
Qed.
Hint Resolve sound_embedded sound_buffer sound_keepalive sound_flush_compaction : sound.

Lemma sound_system chunk : sound (system_chunk sw chunk).
Proof.
  unfold system_chunk. destruct (_build_task_event chunk) as [e|] eqn:E.
  { apply built_task_event in E. sound. by apply sound_emit, sent_task_event. }
  destruct (is_null _ || _); [|sound].
  destruct (_build_progress_event sw chunk) as [[e|]|e] eqn:Eb; cbn [py]; [|sound|sound].
  apply built_progress_event in Eb. intros t s (Ht & Hh & Ho). unfold bind, ret, read, update.
  destruct (feed (compaction s) e) as [[t' seen]|x] eqn:Ef; cbn; [|done].
  destruct (fed_typed _ _ _ _ Hh Eb Ef) as [H1 H2].
  assert (steady t (set_compaction t' s)) as Hs by done. pose proof (sound_events seen H2 t _ Hs) as K.
  by destruct (each seen _ _) as [[s' fs] ?].
Qed.

Lemma sound_citation delta : sound (citation delta).
Proof. unfold citation. sound. Qed.
Lemma sound_drop_pending : sound drop_pending.
Proof. unfold drop_pending. sound. Qed.
Lemma sound_open_reasoning : sound (open_reasoning hex).
Proof. unfold open_reasoning. sound. Qed.
Lemma sound_reasoning_text text : sound (reasoning_text text).
Proof. unfold reasoning_text. sound. Qed.
Hint Resolve sound_system sound_citation sound_drop_pending sound_open_reasoning sound_reasoning_text : sound.
Lemma sound_text_delta was text : sound (on_text_delta json_loads hex turn was text).
Proof. unfold on_text_delta, thinking_delta, text_fragment. sound. Qed.
Lemma sound_rest_of_chunk now chunk : sound (rest_of_chunk json_loads json_dumps repr sw turn now chunk).
Proof. unfold rest_of_chunk, content_chunk. sound. Qed.
Hint Resolve sound_text_delta sound_rest_of_chunk : sound.
Lemma sound_turn_chunk now chunk : sound (turn_chunk json_loads json_dumps repr hex sw turn now chunk).
Proof. unfold turn_chunk, tool_chunk. sound. Qed.
Hint Resolve sound_turn_chunk : sound.
Lemma sound_close_items status : sound (close_items hex status).
Proof. unfold close_items. sound. Qed.
Lemma sound_final_response status reason structured : sound (final_response turn status reason structured).
Proof. unfold final_response. sound. Qed.
Hint Resolve sound_close_items sound_final_response : sound.

(** ** The ends *)

(** The last event tells that the turn failed, or was cut. *)
Definition cut (fs : list Frame) : Prop :=
  match last fs with Some (Event (Failed _ _) _) | Some (Event (Incomplete _) _) => True | _ => False end.
Lemma cut_app fs1 fs2 : cut fs2 -> cut (fs1 ++ fs2).
Proof. unfold cut. rewrite last_app. by destruct (last fs2). Qed.

(** A program that ends the turn, when it returns [true]: the outcome is no success. *)
Definition ending (m : M bool) : Prop := forall t s, steady t s ->
  let '(s', fs, r) := m s in
  Forall open_frame fs /\ match r with Ok true => o_success (outcome s') = Some false /\ cut fs | Ok false => steady t s' | Err _ => True end.

Lemma ending_bind {A} (m : M A) f : sound m -> (forall a, ending (f a)) -> ending (bind m f).
Proof.
  intros Hm Hf t s Hs. specialize (Hm t s Hs). unfold bind. destruct (m s) as [[s1 fs1] [a|e]]; [|by destruct Hm].
  destruct Hm as [H1 F1]. specialize (Hf a t s1 H1). destruct (f a s1) as [[s2 fs2] r2]. destruct Hf as [F2 H2].
  split; [by apply Forall_app|]. destruct r2 as [[]|]; try done. split; [apply H2|apply cut_app, H2].
Qed.
Lemma ending_ret : ending (ret false).
Proof. by intros t s Hs. Qed.

Lemma ending_incomplete reason interrupted : ending (end_incomplete hex turn reason interrupted).
Proof.
  unfold end_incomplete. apply ending_bind; [sound|]. intros ?. apply ending_bind; [sound|]. intros r t s Hs.
  destruct interrupted; cbn; (split; [by repeat constructor|by split]).
Qed.

Lemma ending_failed_event code message : ending (set_success false ;; _make_failed_event code message ;; ret true).
Proof.
  intros t s Hs. unfold _make_failed_event. destruct code; cbn; try done. destruct message; cbn; try done.
  split; [by repeat constructor|by split].
Qed.

Lemma ending_on_chunk now chunk : ending (on_chunk json_loads json_dumps repr hex sw turn now chunk).
Proof.
  unfold on_chunk. destruct (is_str _ "tool_progress"); [apply ending_bind; [sound|intros ?; apply ending_ret]|].
  destruct (truthy _); [apply ending_bind; [sound|intros ?; apply ending_incomplete]|].
  apply ending_bind; [sound|]. intros type. destruct (_ && _); [apply ending_incomplete|].
  destruct (classify_error_chunk repr chunk) as [[code message]|]; [apply ending_bind; [sound|intros ?; apply ending_failed_event]|].
  destruct (is_str _ "rate_limit"); [apply ending_ret|].
  destruct (is_str _ "system"); (apply ending_bind; [sound|intros ?; apply ending_ret]).
Qed.

(** The clock after an arrival *)
Definition seen_at (t : Z) (a : Arrival) : Z := match a with Got now _ => now | _ => t end.

Lemma arrival_ends a t s : steady t s ->
  let '(s', fs, r) := on_arrival json_loads json_dumps repr hex sw turn a s in
  Forall open_frame fs
  /\ match r with Ok true => o_success (outcome s') = Some false /\ cut fs | Ok false => steady (seen_at t a) s' | Err _ => True end.
Proof.
  intros Hs. destruct a as [now chunk|now|e]; cbn [on_arrival seen_at].
  - assert (steady now (set_last_item_at now s)) as H1 by (split; [done|]; apply Hs).
    pose proof (ending_on_chunk now chunk now _ H1) as K. unfold bind, update. cbn [app].
    by destruct (on_chunk _ _ _ _ _ _ _ _ _) as [[s' fs] r].
  - revert t s Hs. change (ending (on_arrival json_loads json_dumps repr hex sw turn (Quiet now))). cbn [on_arrival].
    apply ending_bind; [sound|]. intros [message|]; [by intros t s Hs|]. apply ending_bind; [sound|]. intros ?.
    apply ending_bind; [sound|]. intros ?. apply ending_ret.
  - by split.
Qed.

(** The usage of the turn cannot be read. *)
Definition unreadable (x : Exn) (s : St) : Prop :=
  resolve_token_usage (chunks_buffer s) (prompt_text turn) (join (all_visible_text s)) = Err x
  \/ resolve_usage_details (chunks_buffer s) = Err x.

(** How the stream ended *)
Definition told (x : St * list Frame * result Raised unit) : Prop :=
  let '(s, fs, r) := x in
  match r with
  | Ok _ =>
      (o_success (outcome s) = Some true /\ exists fs0 x n, fs = fs0 ++ [Event (Completed x) n] /\ Forall open_frame fs0)
      \/ (o_success (outcome s) = Some false /\ Forall open_frame fs)
  | Err e => Forall open_frame fs /\ outcome s = going /\ exists x, e = Py x /\ unreadable x s
  end.

Lemma told_after s fs1 fs2 r : Forall open_frame fs1 -> told (s, fs2, r) -> told (s, fs1 ++ fs2, r).
Proof.
  intros F1. destruct r as [u|e]; cbn.
  - intros [(Hs & fs0 & x & n & -> & F2)|[Hs F2]]; [left|right]; (split; [done|]); [|by apply Forall_app].
    exists (fs1 ++ fs0), x, n. rewrite app_assoc. split; [done|by apply Forall_app].
  - intros (F2 & H). split; [by apply Forall_app|done].
Qed.

Definition concludes (m : M unit) : Prop := forall t s, steady t s -> told (m s).

Lemma concludes_bind {A} (m : M A) f : sound m -> safe m -> (forall a, concludes (f a)) -> concludes (bind m f).
Proof.
  intros Hm Hsafe Hf t s Hs. specialize (Hm t s Hs). specialize (Hsafe s). unfold bind. destruct (m s) as [[s1 fs1] [a|e]]; [|done].
  destruct Hm as [H1 F1]. specialize (Hf a t s1 H1). destruct (f a s1) as [[s2 fs2] r2]. by apply told_after.
Qed.

Lemma final_response_is status reason structured s :
  final_response turn status reason structured s =
  (s, [],
   match resolve_token_usage (chunks_buffer s) (prompt_text turn) (join (all_visible_text s)) with
   | Ok (input, output) =>
       match resolve_usage_details (chunks_buffer s) with
       | Ok d => Ok (MkResponse status (completed_output_items s) (MkUsage input output d) reason
                       (if structured then extract_structured_output (chunks_buffer s) else JNull))
       | Err x => Err (Py x)
       end
   | Err x => Err (Py x)
   end).
Proof.
  unfold final_response, bind, read. cbn [app]. destruct (resolve_token_usage _ _ _) as [[input output]|x]; [|done]. cbn.
  by destruct (resolve_usage_details _).
Qed.

Lemma final_response_told status reason structured k :
  (forall r, concludes (k r)) -> concludes (bind (final_response turn status reason structured) k).
Proof.
  intros Hk t s Hs. unfold bind. rewrite final_response_is.
  destruct (resolve_token_usage _ _ _) as [[input output]|x] eqn:E1; [destruct (resolve_usage_details _) as [d|x] eqn:E2|].
  - match goal with |- context [k ?r s] => specialize (Hk r t s Hs); destruct (k r s) as [[s' fs] r'] end. done.
  - split; [done|]. split; [apply Hs|]. exists x. split; [done|by right].
  - split; [done|]. split; [apply Hs|]. exists x. split; [done|by left].
Qed.

Lemma finalize_told pending : concludes (finalize hex turn pending).
Proof.
  unfold finalize. apply concludes_bind; [sound|apply safe_flush_collab|]. intros remaining.
  apply concludes_bind; [sound|destruct (negb _); [apply safe_say|done]|]. intros ?.
  apply concludes_bind; [sound|apply safe_flush_compaction|]. intros ?. destruct pending.
  { apply concludes_bind; [sound|apply safe_close_items|]. intros ? t s Hs. by right. }
  apply concludes_bind; [sound|done|]. intros []; [intros t s Hs; by right|].
  apply concludes_bind; [sound|done|]. intros ?. apply concludes_bind; [sound|apply safe_close_reasoning|]. intros ?.
  apply concludes_bind; [sound|done|]. intros opened. apply concludes_bind; [sound|done|]. intros any.
  apply concludes_bind; [sound| |].
  { destruct (opened || any); [apply safe_close_message|]. apply safe_bind; [apply safe_open_message|intros ?; apply safe_close_message]. }
  intros ?. apply final_response_told. intros r t s Hs. left. split; [done|]. by exists [], r, (seq s).
Qed.

Lemma body_told pending arrivals : concludes (body json_loads json_dumps repr hex sw turn pending arrivals).
Proof.
  induction arrivals as [|a arrivals IH]; [apply finalize_told|]. intros t s Hs. cbn [body].
  pose proof (arrival_ends a t s Hs) as K. destruct (on_arrival _ _ _ _ _ _ _ _) as [[s1 fs1] [[]|e]].
  - destruct K as (F & H & _). rewrite app_nil_r. by right.
  - destruct K as [F H]. specialize (IH _ _ H). destruct (body _ _ _ _ _ _ _ _ _) as [[s2 fs2] r2]. by apply told_after.
  - destruct K as [F _]. destruct (on_raise_fails e s1) as (code & message & ->). right. split; [by destruct s1|].
    apply Forall_app. split; [done|]. by repeat constructor.
Qed.

Lemma stream_told now pending arrivals : told (stream_response_chunks json_loads json_dumps repr hex sw turn now pending arrivals).
Proof.
  unfold stream_response_chunks, bind, emit.
  match goal with |- context [body _ _ _ _ _ _ _ _ ?s] => set (s0 := s) end.
  assert (steady now s0) as Hs by (repeat split; by constructor). pose proof (body_told pending arrivals now s0 Hs) as K.
  destruct (body _ _ _ _ _ _ _ _ _) as [[s fs] r]. apply told_after; [by repeat constructor|].
  apply told_after; [by repeat constructor|done].
Qed.

(** ** Theorems *)

(** C20. Every custom event is well typed.  Whatever the SDK sends, a custom event of the
    stream has one of the fourteen known names, and its [type] field is its name: also the
    end of a compaction that was held back, and an event that was built of the fields of a
    chunk. *)
Theorem events_are_typed now pending arrivals :
  Forall typed_frame (snd (fst (stream_response_chunks json_loads json_dumps repr hex sw turn now pending arrivals))).
Proof.
  pose proof (stream_told now pending arrivals) as K.
  destruct (stream_response_chunks _ _ _ _ _ _ _ _ _) as [[s fs] [u|e]]; cbn in *.
  - destruct K as [(_ & fs0 & x & n & -> & F)|[_ F]]; [|by apply open_typed].
    apply Forall_app. split; [by apply open_typed|by repeat constructor].
  - destruct K as [F _]. by apply open_typed.
Qed.

Lemma broken_source pending pre e rest : forall t s, steady t s ->
  let '(s', fs, r) := body json_loads json_dumps repr hex sw turn pending (pre ++ Broke e :: rest) s in
  r = Ok tt /\ o_success (outcome s') = Some false /\ cut fs.
Proof.
  induction pre as [|a pre IH]; intros t s Hs; [done|]. cbn [body app].
  pose proof (arrival_ends a t s Hs) as K. destruct (on_arrival _ _ _ _ _ _ _ _) as [[s1 fs1] [[]|x]].
  - rewrite app_nil_r. destruct K as (_ & ? & ?). done.
  - destruct K as [_ H]. specialize (IH _ _ H). destruct (body _ _ _ _ _ _ _ _ _) as [[s2 fs2] r2].
    destruct IH as (? & ? & ?). split; [done|]. split; [done|]. by apply cut_app.
  - destruct (on_raise_fails x s1) as (code & message & ->). split; [done|]. split; [by destruct s1|]. by apply cut_app.
Qed.

(** Failures are told.  The generator raises nothing but what reading the usage of the
    turn raises, after the source ended in good order; else the outcome is set, and the
    response is completed by its last event exactly when the outcome is a success.  When the
    source breaks, the outcome is no success and the last event tells that the turn failed
    or was cut. *)
Theorem failures_are_told now pending arrivals s fs r :
  stream_response_chunks json_loads json_dumps repr hex sw turn now pending arrivals = (s, fs, r) ->
  match r with
  | Ok _ =>
      (o_success (outcome s) = Some true /\ exists fs0 x n, fs = fs0 ++ [Event (Completed x) n] /\ Forall open_frame fs0)
      \/ (o_success (outcome s) = Some false /\ Forall open_frame fs)
  | Err e => Forall open_frame fs /\ outcome s = going /\ exists x, e = Py x /\ unreadable x s
  end
  /\ (forall pre e rest, arrivals = pre ++ Broke e :: rest -> r = Ok tt /\ o_success (outcome s) = Some false /\ cut fs).
Proof.
  intros H. split; [pose proof (stream_told now pending arrivals) as K; by rewrite H in K|]. intros pre e rest ->.
  revert H. unfold stream_response_chunks, bind, emit.
  match goal with |- context [body _ _ _ _ _ _ _ _ ?s] => set (s0 := s) end.
  assert (steady now s0) as Hs by (repeat split; by constructor). pose proof (broken_source pending pre e rest now s0 Hs) as K.
  destruct (body _ _ _ _ _ _ _ _ _) as [[s1 fs1] r1]. intros [= <- <- <-]. destruct K as (-> & ? & ?). split; [done|]. split; [done|].
  by apply (cut_app [Event Created 0; Event InProgress 1]).
Qed.

(** When the last item was seen *)
Definition last_seen (t : Z) (arrivals : list Arrival) : Z := foldl seen_at t arrivals.

(** No silence is longer than [limit] seconds. *)
Fixpoint never_silent (limit t : Z) (arrivals : list Arrival) : bool :=
  match arrivals with
  | [] => true
  | Got now _ :: rest => never_silent limit now rest
  | Quiet now :: rest => (now - t <=? limit * 1000) && never_silent limit t rest
  | Broke _ :: _ => true
  end.
End turns.

(** The budgets of a silence, and a turn without them *)
Definition shortest (turn : Turn) : Z :=
  if 0 <? tool_stall_timeout turn then Z.min (stall_timeout turn) (tool_stall_timeout turn) else stall_timeout turn.
Definition longest (turn : Turn) : Z := Z.max (stall_timeout turn) (tool_stall_timeout turn).
Definition unguarded (turn : Turn) : Turn :=
  MkTurn (first_item_id turn) (prompt_text turn) (may_emit_collab turn) (call_id turn) 0 0.

Section stall.
Context (json_loads : string -> result Exn Json) (json_dumps : Json -> string) (repr : Json -> string).
Context (hex : nat -> string) (sw : Switches) (turn : Turn).

Lemma patient now s t : last_item_at s = t -> now - t <= shortest turn * 1000 -> stalled repr turn now s = None.
Proof.
  intros <- H. unfold stalled, shortest in *. destruct (in_flight now (tool_stats s)); cbn [andb];
    destruct (0 <? tool_stall_timeout turn) eqn:E; rewrite ?andb_false_l; 
    match goal with |- context [(0 <? ?b) && (?b * 1000 <? ?x)] => destruct (b * 1000 <? x) eqn:Hb; [apply Z.ltb_lt in Hb; lia|by rewrite andb_false_r] end.
Qed.

Lemma unguarded_never now s : stalled repr (unguarded turn) now s = None.
Proof. unfold stalled. by destruct (in_flight now (tool_stats s)). Qed.

Lemma impatient now s t : last_item_at s = t -> 0 < stall_timeout turn -> longest turn * 1000 < now - t -> exists m, stalled repr turn now s = Some m.
Proof.
  intros <- Hp H. unfold stalled, longest in *.
  match goal with |- context [if ?c then tool_stall_timeout turn else _] => destruct c eqn:E end.
  - apply andb_true_iff in E as [E1 E2]. rewrite E2. apply Z.ltb_lt in E2.
    rewrite (proj2 (Z.ltb_lt (tool_stall_timeout turn * 1000) _)) by lia. cbn. eauto.
  - rewrite (proj2 (Z.ltb_lt 0 (stall_timeout turn)) Hp), (proj2 (Z.ltb_lt (stall_timeout turn * 1000) _)) by lia. cbn. eauto.
Qed.

Lemma guard_unseen pending arrivals : forall t s, steady t s -> never_silent (shortest turn) t arrivals = true ->
  body json_loads json_dumps repr hex sw turn pending arrivals s
  = body json_loads json_dumps repr hex sw (unguarded turn) pending arrivals s.
Proof.
  induction arrivals as [|a arrivals IH]; intros t s Hs Hn; [by destruct turn|]. cbn [body].
  assert (on_arrival json_loads json_dumps repr hex sw turn a s = on_arrival json_loads json_dumps repr hex sw (unguarded turn) a s) as <-.
  { destruct a as [now chunk|now|e]; [by destruct turn| |done]. simpl in Hn. apply andb_true_iff in Hn as [Hn _]. apply Z.leb_le in Hn.
    cbn [on_arrival]. by rewrite !bind_read, unguarded_never, (patient now s t) by (try apply Hs; done). }
  pose proof (arrival_ends json_loads json_dumps repr hex sw turn a t s Hs) as K. destruct a as [now chunk|now|e]; [..|done];
    (destruct (on_arrival _ _ _ _ _ _ _ _) as [[s1 fs1] [[]|x]]; [done| |done]); destruct K as [_ H]; rewrite (IH _ _ H); try done.
  by apply andb_true_iff in Hn as [_ ?].
Qed.

Lemma wedged pending pre now rest : forall t s, steady t s ->
  0 < stall_timeout turn -> longest turn * 1000 < now - last_seen t pre ->
  body json_loads json_dumps repr hex sw turn pending (pre ++ Quiet now :: rest) s
  = body json_loads json_dumps repr hex sw turn pending (pre ++ [Quiet now]) s.
Proof.
  induction pre as [|a pre IH]; intros t s Hs Hp Hl; cbn [body app].
  - cbn [on_arrival]. rewrite bind_read. destruct (impatient now s t (proj1 Hs) Hp Hl) as [m ->]. done.
  - pose proof (arrival_ends json_loads json_dumps repr hex sw turn a t s Hs) as K.
    destruct (on_arrival _ _ _ _ _ _ _ _) as [[s1 fs1] [[]|x]]; [done| |done]. destruct K as [_ H]. by rewrite (IH _ _ H).
Qed.

(** C19. A turn is given up for its silence only, and a wedged one is.  A turn whose silences
    stay within the shorter budget goes as if there were no guard; and a silence beyond the
    longer budget ends it there, whatever would follow. *)
Theorem stall_guard now pending arrivals :
  (never_silent (shortest turn) now arrivals = true ->
   stream_response_chunks json_loads json_dumps repr hex sw turn now pending arrivals
   = stream_response_chunks json_loads json_dumps repr hex sw (unguarded turn) now pending arrivals)
  /\ (forall pre later rest, 0 < stall_timeout turn -> longest turn * 1000 < later - last_seen now pre ->
      stream_response_chunks json_loads json_dumps repr hex sw turn now pending (pre ++ Quiet later :: rest)
      = stream_response_chunks json_loads json_dumps repr hex sw turn now pending (pre ++ [Quiet later])).
Proof.
  assert (forall t, steady now (set_seq 2 (init t now))) as Hs by (repeat split; by constructor).
  unfold stream_response_chunks, bind, emit. split.
  - intros Hn. change (set_seq _ (set_seq _ (init turn now))) with (set_seq 2 (init turn now)).
    rewrite (guard_unseen pending arrivals now _ (Hs turn) Hn). by destruct turn.
  - intros pre later rest Hp Hl. change (set_seq _ (set_seq _ (init turn now))) with (set_seq 2 (init turn now)).
    by rewrite (wedged pending pre later rest now _ (Hs turn) Hp Hl).
Qed.
End stall.

(** ** Witnesses *)

Lemma failures_are_told_witness :
  let x := run_turn (sample_turn ++ [Broke ValueError]) in
  o_success (outcome (fst (fst x))) = Some false /\ cut (snd (fst x)).
Proof.
  assert (forall x : St * list Frame * result Raised unit, x = (fst (fst x), snd (fst x), snd x)) as Hx by (by intros [[? ?] ?]).
  destruct (failures_are_told (fun _ => Err JSONDecodeError) (fun _ => "") (fun _ => "") pretty no_switches claude_turn 0 false
    (sample_turn ++ [Broke ValueError]) _ _ _ (Hx _)) as [_ H].
  destruct (H sample_turn ValueError [] eq_refl) as (_ & H1 & H2). split; [exact H1|exact H2].
Defined.

(** A turn that is silent for 299 seconds and then for 1801 *)
Definition slow : list Arrival := [Quiet 299000; Got 299500 (text_delta "Hi"); Quiet 2101000].

Lemma stall_guard_witness :
  run_turn (firstn 2 slow) = stream_response_chunks (fun _ => Err JSONDecodeError) (fun _ => "") (fun _ => "") pretty no_switches
    (unguarded claude_turn) 0 false (firstn 2 slow)
  /\ run_turn (slow ++ sample_turn) = run_turn slow
  /\ cut (snd (fst (run_turn slow))).
Proof.
  split; [|split].
  - apply (proj1 (stall_guard (fun _ => Err JSONDecodeError) (fun _ => "") (fun _ => "") pretty no_switches claude_turn 0 false _)).
    vm_compute. reflexivity.
  - apply (proj2 (stall_guard (fun _ => Err JSONDecodeError) (fun _ => "") (fun _ => "") pretty no_switches claude_turn 0 false [])
      (firstn 2 slow) 2101000 sample_turn); vm_compute; reflexivity.
  - vm_compute. exact I.
Defined.

(** ** What the blocks of a message become *)

(** A content block the model streams, by its fragments *)
Inductive Block := Think (texts : list string) | Say (texts : list string).

Definition chunks_of (b : Block) : list Json :=
  match b with
  | Think texts => block_start "thinking" :: map think_delta texts ++ [block_stop]
  | Say texts => block_start "text" :: map text_delta texts ++ [block_stop]
  end.

(** The result of the turn: its whole text again, and its usage *)
Definition result_of (text : string) (input output : Z) : Json :=
  JObj [("type", JStr "result"); ("subtype", JStr "success"); ("result", JStr text);
        ("usage", JObj [("input_tokens", JInt input); ("output_tokens", JInt output)])].

(** An item of the response without its id: a message or a thought, with its text. *)
Definition strip (i : OutItem) : bool * string :=
  match i with MessageItem _ _ t => (true, t) | ReasoningItem _ _ t => (false, t) end.

Definition message_of (cur : option string) : list (bool * string) := match cur with Some t => [(true, t)] | None => [] end.

(** The items of the blocks, after a message [cur] that is open: text goes on in it, and a
    thought closes it, when it is not blank. *)
Fixpoint outline (cur : option string) (blocks : list Block) : list (bool * string) :=
  match blocks with
  | [] => message_of cur
  | Say texts :: rest =>
      let t := join texts in
      outline (if bool_decide (t = EmptyString) then cur else Some (String.append (default EmptyString cur) t)) rest
  | Think texts :: rest =>
      let t := join texts in
      if blank t then outline cur rest else message_of cur ++ (false, t) :: outline None rest
  end.

Definition said (blocks : list Block) : string := join (map (fun b => match b with Say texts => join texts | Think _ => EmptyString end) blocks).
Definition thoughts (blocks : list Block) : list string :=
  filter (fun t => t <> EmptyString) (map (fun b => match b with Think texts => join texts | Say _ => EmptyString end) blocks).

(** No fragment reads like a mark of thinking. *)
Definition plain (t : string) : bool := negb (bool_decide (t ∈ ["<think>"; "</think>"])).
Definition unmarked (b : Block) : bool := match b with Think texts | Say texts => forallb plain texts end.

Section blocks.
Context (json_loads : string -> result Exn Json) (json_dumps : Json -> string) (repr : Json -> string).
Context (hex : nat -> string) (sw : Switches) (turn : Turn).
Notation on_chunk := (on_chunk json_loads json_dumps repr hex sw turn).

Lemma bind_pure {A B} (m : M A) (f : A -> M B) s s' a : m s = (s', [], Ok a) -> bind m f s = f a s'.
Proof. unfold bind. intros ->. by destruct (f a s') as [[? ?] ?]. Qed.

(** A program whose first steps only read and assign is run up to the first that does not. *)
Ltac go :=
  repeat first
    [ match goal with |- (if ?b then _ else _) _ = _ => first [change b with false | change b with true]; cbv iota beta end
    | match goal with |- bind _ _ _ = _ => etransitivity; [eapply bind_pure; reflexivity|]; cbv beta iota zeta end
    | progress cbv beta iota zeta ].

(** A program does its work: it returns, and what is sent does not matter here. *)
Definition runs {A} (P : St -> Prop) (m : M A) (Q : St -> Prop) : Prop :=
  forall s, P s -> exists s' fs a, m s = (s', fs, Ok a) /\ Q s'.

Lemma runs_bind {A B} P Q R (m : M A) (f : A -> M B) : runs P m Q -> (forall a, runs Q (f a) R) -> runs P (bind m f) R.
Proof.
  intros Hm Hf s Hs. destruct (Hm s Hs) as (s1 & fs1 & a & E1 & H1). destruct (Hf a s1 H1) as (s2 & fs2 & b & E2 & H2).
  exists s2, (fs1 ++ fs2), b. unfold bind. rewrite E1, E2. done.
Qed.
Lemma runs_pre {A} (P P' Q : St -> Prop) (m : M A) : runs P m Q -> (forall s, P' s -> P s) -> runs P' m Q.
Proof. intros Hm HP s Hs. apply Hm. by apply HP. Qed.

(** What the variables hold: the items done, the text of the open message, the visible text,
    the thoughts, and the thought that is captured. *)
Record View (thinking : bool) (done : list (bool * string)) (cur : option string) (v : string) (ts : list string)
    (capture : string) (s : St) : Prop := {
  w_thinking : in_thinking s = thinking;
  w_opened : message_item_opened s = bool_decide (is_Some cur);
  w_full : join (full_text s) = default EmptyString cur;
  w_done : map strip (completed_output_items s) = done;
  w_visible : join (all_visible_text s) = v;
  w_texts : thinking_texts s = ts;
  w_capture : join (thinking_capture_buf s) = capture;
  w_sent : content_sent s = negb (bool_decide (v = EmptyString));
  w_any : any_message_item s = message_item_opened s || existsb is_message (completed_output_items s);
  w_some : v <> EmptyString -> any_message_item s = true;
  w_compaction : compaction s = [];
  w_accs : accs s = [];
  w_collab : collab s = idle;
  w_outcome : outcome s = going;
  w_buffer : Forall (fun c => c = block_start "text" \/ c = block_stop) (chunks_buffer s);
}.

(** No thought is open. *)
Definition outside (s : St) : Prop := reasoning_item s = None /\ reasoning_pending s = false.

(** A thought [t] is open; it waits as long as it is blank. *)
Definition inside (t : string) (s : St) : Prop :=
  if blank t then reasoning_item s = None /\ reasoning_pending s = true /\ join (reasoning_pending_buf s) = t
  else is_Some (reasoning_item s) /\ join (reasoning_text_buf s) = t.

Ltac view :=
  intros s [[W1 W2 W3 W4 W5 W6 W7 W8 W9 W0 W10 W11 W12 W14 W13] O];
  destruct s as [sent' streaming' thinking' accs' collab' full' visible' seq' annotation' opened' any' index' id' reasoning' buf'
    pending' pending_buf' emitted' texts' capture' done' stats' names' compaction' chunks' last' outcome' minted'];
  unfold outside, inside in *; repeat match goal with H : _ |- _ => progress fields_in H end; run.
(** The state after a program that was evaluated *)
Ltac settled := eexists _, _, _; split; [reflexivity|]; unfold outside, inside; run; split; [split; run; try done|].

Lemma append_ne a b : b <> EmptyString -> String.append a b <> EmptyString.
Proof. destruct a; [done|]. by rewrite append_cons. Qed.

Lemma runs_say done cur v ts t : t <> EmptyString ->
  runs (fun s => View false done cur v ts EmptyString s /\ outside s) (say t)
    (fun s => View false done (Some (String.append (default EmptyString cur) t)) (String.append v t) ts EmptyString s /\ outside s).
Proof.
  intros Ht. unfold say, _open_message_item. view. destruct opened'; run; settled; rewrite ?fragments_snoc; try congruence.
  all: rewrite ?bool_decide_false by (by apply append_ne); try done.
  all: cbn; by rewrite W3.
Qed.

Lemma runs_close_message done cur v ts capture th (R : St -> Prop) :
  (forall s s', reasoning_item s' = reasoning_item s -> reasoning_pending s' = reasoning_pending s ->
     reasoning_pending_buf s' = reasoning_pending_buf s -> R s -> R s') ->
  runs (fun s => View th done cur v ts capture s /\ R s) (_close_message_item hex "completed")
    (fun s => View th (done ++ message_of cur) None v ts capture s /\ R s).
Proof.
  intros HR. unfold _close_message_item, flush_collab. view. destruct opened'; run.
  - subst collab'. cbn [CollabFilter.flush idle f_buf]. run. rewrite bool_decide_true by done. run.
    settled; [| |by eapply HR; [..|exact O]].
    + rewrite map_app, W4. destruct cur as [c|]; [cbn; by rewrite W3|]. by rewrite bool_decide_false in W2 by (by intros []).
    + rewrite existsb_app. cbn. by rewrite !orb_true_r.
  - assert (cur = None) as -> by (destruct cur; [by rewrite bool_decide_true in W2 by eauto|done]).
    exists (MkSt sent' streaming' thinking' accs' collab' full' visible' seq' annotation' false any' index' id' reasoning' buf'
      pending' pending_buf' emitted' texts' capture' done' stats' names' compaction' chunks' last' outcome' minted'), [], tt.
    split; [done|]. split; [|exact O]. split; run; try done. by rewrite app_nil_r.
Qed.

Lemma runs_close_reasoning th done cur v ts capture t :
  runs (fun s => View th done cur v ts capture s /\ is_Some (reasoning_item s) /\ join (reasoning_text_buf s) = t) (_close_reasoning "completed")
    (fun s => View th (done ++ [(false, t)]) cur v ts capture s /\ reasoning_item s = None).
Proof.
  unfold _close_reasoning. view. destruct O as [[id ->] Ht]. run. settled; [| |done].
  - by rewrite map_app, W4, <- Ht.
  - rewrite existsb_app. cbn. by rewrite orb_false_r.
Qed.

(** Text outside of a thought *)
Definition grown (cur : option string) (t : string) : option string :=
  if bool_decide (t = EmptyString) then cur else Some (String.append (default EmptyString cur) t).

Lemma runs_drop_pending th done cur v ts capture :
  runs (fun s => View th done cur v ts capture s /\ reasoning_item s = None) drop_pending
    (fun s => View th done cur v ts capture s /\ outside s).
Proof. unfold drop_pending. view. settled. done. Qed.

Lemma runs_text done cur v ts t : may_emit_collab turn = false -> plain t = true ->
  runs (fun s => View false done cur v ts EmptyString s /\ outside s) (on_text_delta json_loads hex turn false t)
    (fun s => View false done (grown cur t) (String.append v t) ts EmptyString s /\ outside s).
Proof.
  intros Hm Hp. unfold plain in Hp. apply negb_true_iff, bool_decide_eq_false in Hp. unfold on_text_delta, grown.
  eapply runs_bind with (Q := fun s => View false done cur v ts EmptyString s /\ outside s); [view; settled; exact O|]. intros ?.
  intros s Hs. rewrite bind_read, (w_thinking _ _ _ _ _ _ s (proj1 Hs)). revert s Hs. cbn [andb when negb].
  eapply runs_bind with (Q := fun s => View false done cur v ts EmptyString s /\ outside s); [intros s Hs; by exists s, [], tt|]. intros ?.
  rewrite !bool_decide_false by set_solver. unfold text_fragment.
  eapply runs_bind; [eapply runs_pre; [apply runs_drop_pending|by intros s [? []]]|]. intros ?.
  eapply runs_bind with (Q := fun s => View false done cur v ts EmptyString s /\ outside s).
  { intros s Hs. unfold _close_reasoning. rewrite bind_read, (proj1 (proj2 Hs)). by exists s, [], tt. }
  intros ?. case_bool_decide as Ht; cbn [negb when].
  { subst t. rewrite append_nil_r. intros s Hs. by exists s, [], tt. }
  intros s Hs. rewrite bind_read, Hm. unfold CollabFilter.feed. rewrite (bind_pure _ _ s s (collab s, t)) by done. cbv iota. rewrite (bind_pure _ _ s (set_collab (collab s) s) tt) by done.
  rewrite bool_decide_false by done. cbn [negb when]. apply runs_say; [done|]. destruct Hs as [[] []]. split; [by split|by split].
Qed.


(** A thought that grows from [acc] *)
Definition Thinking (done : list (bool * string)) (cur : option string) (v : string) (ts : list string) (acc : string) (s : St) : Prop :=
  View true (if blank acc then done else done ++ message_of cur) (if blank acc then cur else None) v ts acc s /\ inside acc s.

Lemma runs_thought_starts done cur v ts :
  runs (fun s => View true done cur v ts EmptyString s /\ outside s) (on_text_delta json_loads hex turn false "<think>")
    (Thinking done cur v ts EmptyString).
Proof.
  unfold on_text_delta, _close_thinking_capture, Thinking. view. subst thinking'. run. cbn [andb]. run.
  rewrite bool_decide_true by done. run. rewrite W7. rewrite bool_decide_true by done. settled. cbn. by destruct O.
Qed.

Lemma runs_thought done cur v ts acc t : plain t = true ->
  runs (Thinking done cur v ts acc) (on_text_delta json_loads hex turn true t) (Thinking done cur v ts (String.append acc t)).
Proof.
  intros Hp. unfold plain in Hp. apply negb_true_iff, bool_decide_eq_false in Hp. unfold on_text_delta.
  eapply runs_bind with (Q := Thinking done cur v ts acc); [unfold Thinking; view; settled; exact O|]. intros ?.
  intros s Hs. rewrite bind_read, (w_thinking _ _ _ _ _ _ s (proj1 Hs)). revert s Hs. cbn [andb when negb].
  eapply runs_bind with (Q := Thinking done cur v ts acc); [intros s Hs; by exists s, [], tt|]. intros ?.
  rewrite !bool_decide_false by set_solver. unfold thinking_delta.
  eapply runs_bind with (Q := fun s => View true (if blank acc then done else done ++ message_of cur) (if blank acc then cur else None)
    v ts (String.append acc t) s /\ inside acc s).
  { unfold Thinking. view. settled; [|exact O]. by rewrite fragments_snoc, W7. }
  intros ?. unfold Thinking. rewrite blank_app. unfold inside at 1. destruct (blank acc) eqn:Hb; cbn [andb].
  - intros s [HV (Hr & Hp1 & Hb1)]. rewrite bind_read, Hp1, Hr. rewrite bool_decide_false by (by intros []). cbn [andb negb].
    destruct (blank t) eqn:Hbt.
    + exists (set_reasoning_pending_buf (reasoning_pending_buf s ++ [t]) s), [], tt. split; [|split].
      * rewrite (bind_pure _ _ s (set_reasoning_pending_buf (reasoning_pending_buf s ++ [t]) s) tt) by done. rewrite bind_read. cbn.
        rewrite fragments_snoc, Hb1, blank_app, Hb, Hbt. done.
      * by destruct HV.
      * unfold inside. rewrite blank_app, Hb, Hbt. cbn. split; [done|]. split; [done|]. by rewrite fragments_snoc, Hb1.
    + rewrite (bind_pure _ _ s (set_reasoning_pending_buf (reasoning_pending_buf s ++ [t]) s) tt) by done. rewrite bind_read. cbn.
      rewrite fragments_snoc, Hb1, blank_app, Hb, Hbt. cbn [andb].
      rewrite (bind_pure _ _ _ (set_reasoning_pending_buf [] (set_reasoning_pending false (set_reasoning_pending_buf (reasoning_pending_buf s ++ [t]) s))) tt) by done.
      assert (View true done cur v ts (String.append acc t) (set_reasoning_pending_buf [] (set_reasoning_pending false (set_reasoning_pending_buf (reasoning_pending_buf s ++ [t]) s)))) as HV' by (by destruct HV).
      revert HV'. generalize (set_reasoning_pending_buf [] (set_reasoning_pending false (set_reasoning_pending_buf (reasoning_pending_buf s ++ [t]) s))).
      intros s0 HV0. unfold open_reasoning. rewrite bind_assoc.
      assert (runs (fun s => View true done cur v ts (String.append acc t) s /\ True)
        (_close_message_item hex "completed" ;; (do! id := new_id hex "rs_" in
          update (set_reasoning_item (Some id)) ;; update (set_reasoning_emitted true) ;; update (set_reasoning_text_buf []) ;;
          do! oi := read output_index in emit (ItemAdded oi (NewReasoning id)) ;; emit (SummaryPartAdded id oi)) ;;
          reasoning_text (String.append acc t))
        (fun s => View true (done ++ message_of cur) None v ts (String.append acc t) s /\ inside (String.append acc t) s)) as K; [|by apply K].
      clear s0 HV0 s HV Hr Hp1 Hb1. eapply runs_bind; [by apply runs_close_message|]. intros ?. unfold reasoning_text, inside. rewrite blank_app, Hb, Hbt. cbn [andb].
      rewrite bool_decide_false by (intros E; pose proof (blank_app acc t) as B; by rewrite E, Hb, Hbt in B).
      view. settled. split; [by eexists|done].
  - intros s [HV [Hr Ht]]. rewrite bind_read, (bool_decide_true (is_Some _)) by done. rewrite andb_false_r.
    unfold inside. rewrite blank_app, Hb. cbn [andb]. revert s HV Hr Ht.
    assert (runs (fun s => View true (done ++ message_of cur) None v ts (String.append acc t) s
        /\ is_Some (reasoning_item s) /\ join (reasoning_text_buf s) = acc) (reasoning_text t)
      (fun s => View true (done ++ message_of cur) None v ts (String.append acc t) s
        /\ is_Some (reasoning_item s) /\ join (reasoning_text_buf s) = String.append acc t)) as K; [|intros; by apply K].
    unfold reasoning_text. case_bool_decide; view; destruct O as [[id ->] O]; run; settled;
      (split; [by eexists|]); by rewrite fragments_snoc, O.
Qed.

Lemma runs_thought_ends done cur v ts acc :
  runs (fun s => View false (if blank acc then done else done ++ message_of cur) (if blank acc then cur else None) v ts acc s /\ inside acc s)
    (on_text_delta json_loads hex turn true "</think>")
    (fun s => View false (if blank acc then done else done ++ message_of cur ++ [(false, acc)]) (if blank acc then cur else None) v
       (if bool_decide (acc = EmptyString) then ts else ts ++ [acc]) EmptyString s /\ outside s).
Proof.
  unfold on_text_delta.
  set (D := if blank acc then done else done ++ message_of cur). set (C := if blank acc then cur else None).
  eapply runs_bind with (Q := fun s => View false D C v ts acc s /\ inside acc s); [view; settled; exact O|]. intros ?.
  intros s Hs. rewrite bind_read, (w_thinking _ _ _ _ _ _ s (proj1 Hs)). revert s Hs. cbn [andb when negb].
  eapply runs_bind with (Q := fun s => View false D C v ts acc s /\ inside acc s); [intros s Hs; by exists s, [], tt|]. intros ?.
  rewrite bool_decide_false, bool_decide_true by done.
  eapply runs_bind with (Q := fun s => View false D C v (if bool_decide (acc = EmptyString) then ts else ts ++ [acc]) EmptyString s
    /\ (if blank acc then reasoning_item s = None else is_Some (reasoning_item s) /\ join (reasoning_text_buf s) = acc)).
  { unfold _close_thinking_capture, inside. view. rewrite W7. destruct (bool_decide (acc = EmptyString)); settled.
    - destruct (blank acc); [by destruct O|exact O].
    - by rewrite W6.
    - destruct (blank acc); [by destruct O|exact O]. }
  intros ?.
  eapply runs_bind with (Q := fun s => View false D C v (if bool_decide (acc = EmptyString) then ts else ts ++ [acc]) EmptyString s
    /\ (reasoning_pending s = false /\ if blank acc then reasoning_item s = None else is_Some (reasoning_item s) /\ join (reasoning_text_buf s) = acc)).
  { unfold drop_pending. view. settled. done. }
  intros ?. unfold outside. destruct (blank acc); subst D C.
  - intros s (HV & Hp & Hr). unfold _close_reasoning. rewrite bind_read, Hr. by exists s, [], tt.
  - rewrite app_assoc. intros s (HV & Hp & Hr & Ht). destruct (runs_close_reasoning _ _ _ _ _ _ acc s (conj HV (conj Hr Ht))) as (s' & fs & u & E & HV' & Hr').
    exists s', fs, u. split; [done|]. split; [done|]. split; [done|]. revert E. unfold _close_reasoning. rewrite bind_read.
    destruct Hr as [id Hr]. rewrite Hr. unfold bind, read, update, emit, record_item, next_output_index. cbn. intros [= <- _ _]. done.
Qed.


(** *** Chunks *)

(** Assignments that the view does not see, and a chunk that is kept *)
Lemma view_kept th done cur v ts capture s s' :
  (forall x, x ∈ chunks_buffer s' -> x ∈ chunks_buffer s \/ x = block_start "text" \/ x = block_stop) ->
  core s' = core s -> content_sent s' = content_sent s -> thinking_texts s' = thinking_texts s ->
  thinking_capture_buf s' = thinking_capture_buf s -> compaction s' = [] -> accs s' = [] -> collab s' = collab s -> outcome s' = outcome s ->
  View th done cur v ts capture s -> View th done cur v ts capture s'.
Proof.
  unfold core. intros Hb [=] E1 E2 E3 E4 E5 E6 E7 [W1 W2 W3 W4 W5 W6 W7 W8 W9 W0 W10 W11 W12 W14 W13].
  split; try congruence; [intros Hv; rewrite H4; by apply W0|]. apply Forall_forall. intros x Hx. destruct (Hb x Hx) as [Hx'|Hx']; [|done].
  by eapply Forall_forall in W13.
Qed.

Lemma on_stream_event event now s :
  on_chunk now (stream_event event) s = (turn_chunk json_loads json_dumps repr hex sw turn now (stream_event event) ;; ret false) s.
Proof. unfold ResponsesStream.on_chunk. go. done. Qed.

(** A fragment of a block *)
Lemma on_delta_chunk (think : bool) now t s : compaction s = [] ->
  turn_chunk json_loads json_dumps repr hex sw turn now (if think then think_delta t else text_delta t) s
  = on_text_delta json_loads hex turn (in_thinking s) t (set_in_thinking (in_thinking s) (set_compaction [] s)).
Proof. intros Hc. destruct s. simpl in Hc. subst. unfold turn_chunk. by destruct think; go. Qed.

Lemma on_thought_start now s : compaction s = [] ->
  turn_chunk json_loads json_dumps repr hex sw turn now (block_start "thinking") s
  = on_text_delta json_loads hex turn (in_thinking s) "<think>" (set_in_thinking true (set_compaction [] s)).
Proof. intros Hc. destruct s. simpl in Hc. subst. unfold turn_chunk. by go. Qed.

Lemma on_thought_stop now s : compaction s = [] -> in_thinking s = true ->
  turn_chunk json_loads json_dumps repr hex sw turn now block_stop s
  = on_text_delta json_loads hex turn true "</think>" (set_in_thinking false (set_compaction [] s)).
Proof. intros Hc Ht. destruct s. simpl in Hc, Ht. subst. unfold turn_chunk. by go. Qed.

(** The marks of a text block *)
Lemma on_text_mark (stop : bool) now s : compaction s = [] -> accs s = [] -> in_thinking s = false ->
  exists s', turn_chunk json_loads json_dumps repr hex sw turn now (if stop then block_stop else block_start "text") s = (s', [], Ok tt)
  /\ (s' = s \/ s' = set_chunks_buffer (chunks_buffer s ++ [if stop then block_stop else block_start "text"]) s).
Proof.
  intros Hc Ha Ht. destruct s as [sent' streaming' thinking' accs' collab' full' visible' seq' annotation' opened' any' index' id' reasoning' buf'
    pending' pending_buf' emitted' texts' capture' done' stats' names' compaction' chunks' last' outcome' minted'].
  simpl in *. subst. unfold turn_chunk.
  assert (forall s, listing (_tool_use_started_events sw (if stop then block_stop else block_start "text")) s = (s, [], Ok tt)) as E
    by (intros s; unfold _tool_use_started_events; destruct (tool_progress sw), stop; reflexivity).
  destruct streaming', stop; eexists; (split; [go; unfold tool_chunk; rewrite (bind_pure _ _ _ _ _ (E _)); go; unfold rest_of_chunk, content_chunk; go;
    reflexivity|]); [by left|by left|by right|by right].
Qed.

(** *** Blocks *)

(** Chunks lead from [P] to [Q], whatever comes after them. *)
Definition passes (now : Z) (cs : list Json) (P Q : St -> Prop) : Prop :=
  forall s, P s -> exists s' fs, Q s' /\ forall pending rest,
    body json_loads json_dumps repr hex sw turn pending (map (Got now) cs ++ rest) s
    = let '(s2, fs2, r2) := body json_loads json_dumps repr hex sw turn pending rest s' in (s2, fs ++ fs2, r2).

Lemma passes_nil now (P : St -> Prop) : passes now [] P P.
Proof.
  intros s Hs. exists s, []. split; [done|]. intros pending rest. cbn. by destruct (body _ _ _ _ _ _ _ _ _) as [[? ?] ?].
Qed.
Lemma passes_app now cs1 cs2 P Q R : passes now cs1 P Q -> passes now cs2 Q R -> passes now (cs1 ++ cs2) P R.
Proof.
  intros H1 H2 s Hs. destruct (H1 s Hs) as (s1 & fs1 & Hq & E1). destruct (H2 s1 Hq) as (s2 & fs2 & Hr & E2).
  exists s2, (fs1 ++ fs2). split; [done|]. intros pending rest. rewrite map_app, <- app_assoc, E1, E2.
  destruct (body _ _ _ _ _ _ _ _ _) as [[? ?] ?]. by rewrite app_assoc.
Qed.
Lemma passes_one now event P Q :
  (forall s, P s -> P (set_last_item_at now s)) ->
  runs P (turn_chunk json_loads json_dumps repr hex sw turn now (stream_event event)) Q -> passes now [stream_event event] P Q.
Proof.
  intros HP Hm s Hs. destruct (Hm _ (HP s Hs)) as (s' & fs & a & E & HQ). exists s', fs. split; [done|]. intros pending rest.
  cbn [map app body on_arrival]. rewrite (bind_pure _ _ s (set_last_item_at now s) tt) by done. rewrite on_stream_event.
  unfold bind. rewrite E. cbn. rewrite app_nil_r. done.
Qed.
Lemma passes_each {X} now (c : X -> list (string * Json)) (P : X -> Prop) (R : string -> St -> Prop) (f : X -> string) l : forall v,
  (forall v x, P x -> passes now [stream_event (c x)] (R v) (R (String.append v (f x)))) -> Forall P l ->
  passes now (map (fun x => stream_event (c x)) l) (R v) (R (String.append v (join (map f l)))).
Proof.
  intros v H Hl. revert v. induction Hl as [|x l Hx Hl IH]; intros v.
  - unfold join. cbn. rewrite append_nil_r. apply passes_nil.
  - cbn [map]. change (join (f x :: map f l)) with (String.concat EmptyString (f x :: map f l)). rewrite concat_cons, append_assoc.
    change (?y :: map ?g l) with ([y] ++ map g l). eapply passes_app; [by apply H|apply IH].
Qed.

Lemma grown_app cur a b : grown (grown cur a) b = grown cur (String.append a b).
Proof.
  unfold grown. destruct (decide (b = EmptyString)) as [->|Hb]; [by rewrite !append_nil_r|].
  rewrite (bool_decide_false (b = _)) by done. rewrite (bool_decide_false (String.append a b = _)) by (by apply append_ne).
  case_bool_decide; [by subst|]. cbn. by rewrite append_assoc.
Qed.

(** The clock, and what a chunk of the main agent assigns before it is looked at *)
Lemma outside_same s s' : reasoning_item s' = reasoning_item s -> reasoning_pending s' = reasoning_pending s -> outside s -> outside s'.
Proof. unfold outside. congruence. Qed.
Lemma inside_same t s s' : reasoning_item s' = reasoning_item s -> reasoning_pending s' = reasoning_pending s ->
  reasoning_pending_buf s' = reasoning_pending_buf s -> reasoning_text_buf s' = reasoning_text_buf s -> inside t s -> inside t s'.
Proof. unfold inside. intros -> -> -> ->. done. Qed.

Lemma same_view th done cur v ts capture s s' :
  core s' = core s /\ content_sent s' = content_sent s /\ thinking_texts s' = thinking_texts s
  /\ thinking_capture_buf s' = thinking_capture_buf s /\ collab s' = collab s /\ outcome s' = outcome s /\ chunks_buffer s' = chunks_buffer s
  /\ accs s' = accs s /\ (compaction s' = compaction s \/ compaction s' = []) ->
  View th done cur v ts capture s -> View th done cur v ts capture s'.
Proof.
  intros (E0 & E1 & E2 & E3 & E4 & E8 & E5 & E6 & E7) HV. eapply view_kept; [..|exact HV]; try done.
  - intros x. rewrite E5. by left.
  - destruct E7 as [->| ->]; [apply HV|done].
  - rewrite E6. apply HV.
Qed.

Section texts.
Context (Hm : may_emit_collab turn = false) (now : Z).

Lemma passes_texts done cur v ts texts : forallb plain texts = true ->
  passes now (map text_delta texts) (fun s => View false done cur v ts EmptyString s /\ outside s)
    (fun s => View false done (grown cur (join texts)) (String.append v (join texts)) ts EmptyString s /\ outside s).
Proof.
  intros Hp.
  assert (passes now (map (fun t => text_delta t) texts)
    (fun s => View false done (grown cur EmptyString) (String.append v EmptyString) ts EmptyString s /\ outside s)
    (fun s => View false done (grown cur (String.append EmptyString (join (map id texts)))) (String.append v (String.append EmptyString (join (map id texts)))) ts EmptyString s /\ outside s)) as K;
    [|by rewrite map_id, append_nil_r in K].
  apply (passes_each now _ (fun t => plain t = true)
    (fun acc s => View false done (grown cur acc) (String.append v acc) ts EmptyString s /\ outside s) id);
    [|by apply List.Forall_forall; apply forallb_forall].
  intros acc t Ht. apply passes_one.
  { intros s [HV HO]. split; [|done]. eapply same_view; [|exact HV]. repeat split; by left. }
  intros s [HV HO]. change (stream_event _) with (text_delta t). rewrite (on_delta_chunk false) by apply HV. rewrite (w_thinking _ _ _ _ _ _ s HV).
  destruct (runs_text done (grown cur acc) (String.append v acc) ts t Hm Ht (set_in_thinking false (set_compaction [] s))) as (s' & fs & a & E & H).
  { split; [|done]. pose proof (w_thinking _ _ _ _ _ _ s HV). by destruct HV. }
  exists s', fs, a. split; [done|]. unfold id. by rewrite <- grown_app, append_assoc.
Qed.

Lemma passes_thoughts done cur v ts texts : forallb plain texts = true ->
  passes now (map think_delta texts) (Thinking done cur v ts EmptyString) (Thinking done cur v ts (join texts)).
Proof.
  intros Hp.
  assert (passes now (map (fun t => think_delta t) texts) (Thinking done cur v ts EmptyString)
    (Thinking done cur v ts (String.append EmptyString (join (map id texts))))) as K; [|by rewrite map_id in K].
  apply (passes_each now _ (fun t => plain t = true) (Thinking done cur v ts) id); [|by apply List.Forall_forall; apply forallb_forall].
  intros acc t Ht. apply passes_one.
  { intros s [HV HO]. split; [eapply same_view; [|exact HV]; repeat split; by left|by eapply inside_same; [..|exact HO]]. }
  intros s [HV HO]. change (stream_event _) with (think_delta t). rewrite (on_delta_chunk true) by apply HV. rewrite (w_thinking _ _ _ _ _ _ s HV).
  apply (runs_thought done cur v ts acc t Ht). split; [|by eapply inside_same; [..|exact HO]].
  pose proof (w_thinking _ _ _ _ _ _ s HV). by destruct HV.
Qed.

Lemma passes_text_mark (stop : bool) done cur v ts :
  passes now [if stop then block_stop else block_start "text"] (fun s => View false done cur v ts EmptyString s /\ outside s)
    (fun s => View false done cur v ts EmptyString s /\ outside s).
Proof.
  assert (forall e, (if stop then block_stop else block_start "text") = stream_event e ->
    passes now [stream_event e] (fun s => View false done cur v ts EmptyString s /\ outside s)
      (fun s => View false done cur v ts EmptyString s /\ outside s)) as K; [|destruct stop; by apply K].
  intros e He. apply passes_one.
  { intros s [HV HO]. split; [|done]. eapply same_view; [|exact HV]. repeat split; by left. }
  intros s [HV HO]. rewrite <- He.
  destruct (on_text_mark stop now s) as (s' & E & Hs); [apply HV..|]. exists s', [], tt. split; [done|].
  destruct Hs as [->| ->]; [done|]. split; [|done]. eapply view_kept; [..|exact HV]; try done; try apply HV.
  intros x. cbn. rewrite elem_of_app, list_elem_of_singleton. intros [?| ->]; [by left|]. right. destruct stop; [by right|by left].
Qed.

(** What a block makes of the items done and the open message *)
Definition after_block (b : Block) (x : list (bool * string) * option string) : list (bool * string) * option string :=
  let '(done, cur) := x in
  match b with
  | Say texts => (done, grown cur (join texts))
  | Think texts => if blank (join texts) then (done, cur) else (done ++ message_of cur ++ [(false, join texts)], None)
  end.

Lemma passes_block b done cur v ts : unmarked b = true ->
  passes now (chunks_of b) (fun s => View false done cur v ts EmptyString s /\ outside s)
    (fun s => View false (fst (after_block b (done, cur))) (snd (after_block b (done, cur))) (String.append v (said [b])) (ts ++ thoughts [b]) EmptyString s
              /\ outside s).
Proof.
  intros Hp. destruct b as [texts|texts]; cbn [chunks_of after_block fst snd unmarked] in *.
  - assert (String.append v (said [Think texts]) = v) as -> by (unfold said, join; cbn; by rewrite append_nil_r).
    change (block_start "thinking" :: ?l) with ([block_start "thinking"] ++ l).
    eapply passes_app; [|eapply passes_app; [by apply passes_thoughts|]].
    + apply passes_one.
      { intros s [HV HO]. split; [|done]. eapply same_view; [|exact HV]. repeat split; by left. }
      intros s [HV HO]. change (stream_event _) with (block_start "thinking"). rewrite on_thought_start by apply HV.
      rewrite (w_thinking _ _ _ _ _ _ s HV). apply (runs_thought_starts done cur v ts). split; [|done]. by destruct HV.
    + apply passes_one.
      { intros s [HV HO]. split; [eapply same_view; [|exact HV]; repeat split; by left|by eapply inside_same; [..|exact HO]]. }
      intros s [HV HO]. change (stream_event _) with block_stop. rewrite on_thought_stop by apply HV.
      destruct (runs_thought_ends done cur v ts (join texts) (set_in_thinking false (set_compaction [] s))) as (s' & fs & a & E & HV' & HO').
      { split; [by destruct HV|by eapply inside_same; [..|exact HO]]. }
      exists s', fs, a. split; [done|]. split; [|done].
      assert (ts ++ thoughts [Think texts] = if bool_decide (join texts = EmptyString) then ts else ts ++ [join texts]) as ->.
      { unfold thoughts. cbn [map]. rewrite filter_cons, filter_nil. case_decide; case_bool_decide; try done. by rewrite app_nil_r. }
      by destruct (blank (join texts)).
  - change (said [Say texts]) with (join texts).
    assert (ts ++ thoughts [Say texts] = ts) as -> by (unfold thoughts; cbn [map]; rewrite filter_cons, filter_nil; case_decide; [done|by rewrite app_nil_r]).
    change (block_start "text" :: ?l) with ([block_start "text"] ++ l).
    eapply passes_app; [apply (passes_text_mark false)|]. eapply passes_app; [by apply passes_texts|]. apply (passes_text_mark true).
Qed.

Definition after_blocks (blocks : list Block) (x : list (bool * string) * option string) : list (bool * string) * option string :=
  foldl (fun x b => after_block b x) x blocks.

Lemma said_cons b blocks : said (b :: blocks) = String.append (said [b]) (said blocks).
Proof. unfold said, join. cbn [map]. by rewrite !concat_cons, append_nil_r. Qed.
Lemma thoughts_cons b blocks : thoughts (b :: blocks) = thoughts [b] ++ thoughts blocks.
Proof. unfold thoughts. by rewrite <- filter_app, <- map_app. Qed.

Lemma passes_blocks blocks : forall done cur v ts, forallb unmarked blocks = true ->
  passes now (concat (map chunks_of blocks)) (fun s => View false done cur v ts EmptyString s /\ outside s)
    (fun s => View false (fst (after_blocks blocks (done, cur))) (snd (after_blocks blocks (done, cur)))
                (String.append v (said blocks)) (ts ++ thoughts blocks) EmptyString s /\ outside s).
Proof.
  induction blocks as [|b blocks IH]; intros done cur v ts Hp; cbn [forallb map concat] in *.
  - change (thoughts []) with (@nil string). change (said []) with EmptyString. rewrite append_nil_r, app_nil_r. apply passes_nil.
  - apply andb_true_iff in Hp as [Hb Hp]. rewrite said_cons, thoughts_cons, append_assoc, app_assoc.
    eapply passes_app; [by apply passes_block|].
    change (after_blocks (b :: blocks) (done, cur)) with (after_blocks blocks (after_block b (done, cur))).
    destruct (after_block b (done, cur)) as [done1 cur1]. by apply IH.
Qed.

Lemma after_outline blocks : forall d cur,
  fst (after_blocks blocks (d, cur)) ++ message_of (snd (after_blocks blocks (d, cur))) = d ++ outline cur blocks.
Proof.
  induction blocks as [|b blocks IH]; [done|]. intros d cur.
  change (after_blocks (b :: blocks) (d, cur)) with (after_blocks blocks (after_block b (d, cur))).
  destruct b as [texts|texts]; cbn [after_block outline]; [|apply IH].
  destruct (blank (join texts)); [apply IH|]. rewrite IH. by rewrite <- !app_assoc.
Qed.

(** The result, whose text was streamed *)
Lemma on_result done cur v ts text input output s : v <> EmptyString ->
  View false done cur v ts EmptyString s -> outside s ->
  on_chunk now (result_of text input output) s = (set_chunks_buffer (chunks_buffer s ++ [result_of text input output]) s, [], Ok false).
Proof.
  intros Hv [W1 W2 W3 W4 W5 W6 W7 W8 W9 W0 W10 W11 W12 W14 W13] O. rewrite bool_decide_false in W8 by done.
  destruct s as [sent' streaming' thinking' accs' collab' full' visible' seq' annotation' opened' any' index' id' reasoning' buf'
    pending' pending_buf' emitted' texts' capture' done' stats' names' compaction' chunks' last' outcome' minted'].
  simpl in *. subst sent' thinking' compaction' accs'.
  assert (forall s, listing (_tool_use_started_events sw (result_of text input output)) s = (s, [], Ok tt)) as E
    by (intros s; unfold _tool_use_started_events; destruct (tool_progress sw); reflexivity).
  unfold ResponsesStream.on_chunk. go.
  change (classify_error_chunk repr (result_of text input output)) with (@None (Json * Json)). cbv iota.
  repeat match goal with |- (if ?b then _ else _) _ = _ => change b with false; cbv iota end.
  erewrite bind_pure; [reflexivity|]. unfold turn_chunk. go. unfold tool_chunk. rewrite (bind_pure _ _ _ _ _ (E _)).
  destruct streaming'; go; unfold rest_of_chunk, content_chunk; go; reflexivity.
Qed.

(** The usage of the turn is that of its result. *)
Lemma first_positive_marks chunks :
  Forall (fun c => c = block_start "text" \/ c = block_stop) chunks -> first_positive chunks = Ok None.
Proof. intros H. induction H as [|c chunks [->| ->] H IH]; [done| |]; by cbn. Qed.

Lemma result_usage chunks text input output prompt completion :
  Forall (fun c => c = block_start "text" \/ c = block_stop) chunks ->
  resolve_token_usage (chunks ++ [result_of text input output]) prompt completion = Ok (input, output)
  /\ exists d, resolve_usage_details (chunks ++ [result_of text input output]) = Ok d.
Proof.
  intros H. assert (counted_usages (chunks ++ [result_of text input output])
    = [JObj [("input_tokens", JInt input); ("output_tokens", JInt output)]]) as E by (unfold counted_usages; by rewrite rev_app_distr).
  unfold resolve_token_usage, resolve_usage_details, extract_sdk_usage, extract_context_tokens. rewrite E, rev_app_distr. split.
  - assert (sum_fields ["input_tokens"; "cache_creation_input_tokens"; "cache_read_input_tokens"; "output_tokens"]
      [JObj [("input_tokens", JInt input); ("output_tokens", JInt output)]] = Ok [input + 0; 0; 0; output + 0]) as -> by (destruct input, output; vm_compute; reflexivity).
    cbn [result_bind default field lookup list_lookup]. unfold field. cbn -[Z.add]. by rewrite !Z.add_0_r.
  - assert (exists n, sum_fields ["input_tokens"; "output_tokens"; "cache_read_input_tokens"; "cache_creation_input_tokens"]
      [JObj [("input_tokens", JInt input); ("output_tokens", JInt output)]] = Ok n) as [n ->]
      by (destruct input, output; eexists; vm_compute; reflexivity).
    cbn [result_bind]. assert (first_positive (rev [result_of text input output] ++ rev chunks) = Ok None) as ->; [|by eexists].
    cbn. apply first_positive_marks. by apply Forall_rev.
Qed.

(** The end of the turn *)
Lemma close_message_is s : collab s = idle ->
  exists s1 fs, _close_message_item hex "completed" s = (s1, fs, Ok tt)
    /\ map strip (completed_output_items s1) = map strip (completed_output_items s) ++ (if message_item_opened s then [(true, join (full_text s))] else [])
    /\ (chunks_buffer s1, all_visible_text s1, thinking_texts s1, outcome s1) = (chunks_buffer s, all_visible_text s, thinking_texts s, outcome s).
Proof.
  intros Hc. unfold _close_message_item, flush_collab.
  destruct s as [sent' streaming' thinking' accs' collab' full' visible' seq' annotation' opened' any' index' id' reasoning' buf'
    pending' pending_buf' emitted' texts' capture' done' stats' names' compaction' chunks' last' outcome' minted'].
  simpl in Hc. subst collab'. destruct opened'; run.
  - cbn [CollabFilter.flush idle f_buf]. run. rewrite bool_decide_true by done. run. eexists _, _. split; [reflexivity|]. run.
    by rewrite map_app.
  - eexists _, _. split; [reflexivity|]. run. by rewrite app_nil_r.
Qed.

Lemma flush_collab_idle s : collab s = idle -> flush_collab s = (s, [], Ok EmptyString).
Proof. intros H. destruct s. simpl in H. by subst. Qed.
Lemma flush_compaction_none s : compaction s = [] -> flush_compaction None s = (s, [], Ok tt).
Proof. intros H. destruct s. simpl in H. by subst. Qed.

Lemma finalize_blocks done cur v ts text input output s : v <> EmptyString ->
  View false done cur v ts EmptyString s -> outside s ->
  exists s' fs resp n,
    finalize hex turn false (set_chunks_buffer (chunks_buffer s ++ [result_of text input output]) s) = (s', fs ++ [Event (Completed resp) n], Ok tt)
    /\ o_success (outcome s') = Some true /\ o_text (outcome s') = Some (v, ts)
    /\ map strip (r_output resp) = done ++ message_of cur
    /\ input_tokens (r_usage resp) = input /\ output_tokens (r_usage resp) = output.
Proof.
  intros Hv HV [O1 O2].
  assert (forall completion, resolve_token_usage (chunks_buffer s ++ [result_of text input output]) (prompt_text turn) completion = Ok (input, output)) as Eu
    by (intros; apply result_usage, HV).
  assert (exists d, resolve_usage_details (chunks_buffer s ++ [result_of text input output]) = Ok d) as [d Ed] by (eapply result_usage; [exact EmptyString..|apply HV]).
  destruct HV as [W1 W2 W3 W4 W5 W6 W7 W8 W9 W0 W10 W11 W12 W14 W13]. specialize (W0 Hv). rewrite bool_decide_false in W8 by done.
  set (s0 := set_thinking_capture_buf [] (set_chunks_buffer (chunks_buffer s ++ [result_of text input output]) s)).
  destruct (close_message_is s0) as (s1 & fs & E & Hd & [=C1 C2 C3 C4]); [exact W12|].
  exists (set_seq (seq s1 + 1) (set_outcome (MkOutcome (Some true) false false false (Some (v, ts)) None) s1)), fs,
    (MkResponse "completed" (completed_output_items s1) (MkUsage input output d) None (extract_structured_output (chunks_buffer s1))), (seq s1).
  split; [|split; [done|]; split; [done|]; split; [|done]].
  - set (sr := set_chunks_buffer _ s). unfold finalize. rewrite (bind_pure _ _ sr sr EmptyString) by (by apply flush_collab_idle).
    rewrite (bool_decide_true (EmptyString = _)) by done. cbn [negb when]. rewrite (bind_pure _ _ sr sr tt) by done.
    rewrite (bind_pure _ _ sr sr tt) by (by apply flush_compaction_none).
    rewrite bind_read. change (content_sent sr) with (content_sent s). rewrite W8. cbn [negb andb].
    rewrite (bind_pure _ _ sr s0 tt) by (unfold _close_thinking_capture, update; change (thinking_capture_buf sr) with (thinking_capture_buf s); by rewrite W7).
    rewrite (bind_pure _ _ s0 s0 tt) by (unfold _close_reasoning; rewrite bind_read; change (reasoning_item s0) with (reasoning_item s); by rewrite O1).
    rewrite !bind_read. change (any_message_item s0) with (any_message_item s). rewrite W0, orb_true_r.
    unfold bind at 1. rewrite E.
    rewrite (bind_pure (final_response turn "completed" None true) _ s1 s1 (MkResponse "completed" (completed_output_items s1) (MkUsage input output d) None (extract_structured_output (chunks_buffer s1))))
      by (rewrite final_response_is, C1; change (chunks_buffer s0) with (chunks_buffer s ++ [result_of text input output]); by rewrite Eu, Ed).
    unfold set_success, set_texts. assert (outcome s1 = going) as Hg1 by (by rewrite C4).
    assert (join (all_visible_text s1) = v) as Hv1 by (rewrite C2; exact W5).
    assert (thinking_texts s1 = ts) as Ht1 by (rewrite C3; exact W6).
    unfold bind, update, emit. clear E. destruct s1. simpl in *. subst. by rewrite Hg1.
  - cbn [r_output]. rewrite Hd. change (completed_output_items s0) with (completed_output_items s). change (full_text s0) with (full_text s). change (message_item_opened s0) with (message_item_opened s).
    rewrite W4, W2, W3. by destruct cur.

Qed.
End texts.

Lemma init_view now : View false [] None EmptyString [] EmptyString (set_seq 2 (init turn now)) /\ outside (set_seq 2 (init turn now)).
Proof. split; [|done]. split; try reflexivity; try done; try constructor. Qed.

(** C18. A message comes out as its blocks.  When a backend streams the thoughts and the text
    of a message in fragments, and then its result, the turn succeeds; its response holds the
    thoughts that are not blank and the runs of text between them, in order and unchanged;
    the saved text is all of the text, the result is not said again, and the usage is that of
    the result.  The turn is of a backend whose text is not filtered for collaboration calls
    ([may_emit_collab]), no fragment is [<think>] or [</think>] itself, and the text is not
    empty. *)
Theorem blocks_come_out now blocks text input output :
  may_emit_collab turn = false -> forallb unmarked blocks = true -> said blocks <> EmptyString ->
  let arrivals := map (Got now) (concat (map chunks_of blocks) ++ [result_of text input output]) in
  exists s fs resp n,
    stream_response_chunks json_loads json_dumps repr hex sw turn now false arrivals = (s, fs ++ [Event (Completed resp) n], Ok tt)
    /\ o_success (outcome s) = Some true /\ o_text (outcome s) = Some (said blocks, thoughts blocks)
    /\ map strip (r_output resp) = outline None blocks
    /\ input_tokens (r_usage resp) = input /\ output_tokens (r_usage resp) = output.
Proof.
  intros Hm Hp Hs arrivals. pose proof (init_view now) as HI.
  destruct (passes_blocks Hm now blocks [] None EmptyString [] Hp _ HI) as (s1 & fs1 & [HV HO] & E).
  specialize (E false [Got now (result_of text input output)]). cbn [app] in HV. change (String.append EmptyString (said blocks)) with (said blocks) in HV.
  set (s2 := set_last_item_at now s1).
  assert (View false (fst (after_blocks blocks ([], None))) (snd (after_blocks blocks ([], None))) (said blocks) (thoughts blocks) EmptyString s2) as HV2
    by (eapply same_view; [|exact HV]; repeat split; by left).
  destruct (finalize_blocks _ _ _ _ text input output s2 Hs HV2 HO) as (s & fs & resp & n & Ef & H1 & H2 & H3 & H4).
  exists s, ([Event Created 0; Event InProgress 1] ++ fs1 ++ fs), resp, n. split; [|by rewrite H3, after_outline].
  unfold stream_response_chunks, bind, emit. change (set_seq _ (set_seq _ (init turn now))) with (set_seq 2 (init turn now)).
  subst arrivals. rewrite map_app. cbn [map]. rewrite E. cbn [body on_arrival]. rewrite (bind_pure _ _ s1 s2 tt) by done.
  rewrite (on_result now _ _ _ _ text input output s2 Hs HV2 HO), Ef. rewrite <- !app_assoc. done.
Qed.
End blocks.

(** Two thoughts, one of them after a blank fragment, and an answer in two runs *)
Definition sample_blocks : list Block :=
  [Think [" "; "2 + 2"]; Say ["It is "; "four."]; Think [" "]; Say [" Sure"]; Think ["Really?"]; Say ["Yes."]].

Lemma blocks_come_out_witness :
  outline None sample_blocks = [(false, " 2 + 2"); (true, "It is four. Sure"); (false, "Really?"); (true, "Yes.")]
  /\ exists s fs resp n,
    run_turn (map (Got 0) (concat (map chunks_of sample_blocks) ++ [result_of "It is four. SureYes." 12 7])) = (s, fs ++ [Event (Completed resp) n], Ok tt)
    /\ o_success (outcome s) = Some true /\ o_text (outcome s) = Some ("It is four. SureYes.", [" 2 + 2"; " "; "Really?"])
    /\ map strip (r_output resp) = outline None sample_blocks
    /\ input_tokens (r_usage resp) = 12 /\ output_tokens (r_usage resp) = 7.
Proof.
  split; [vm_compute; reflexivity|].
  apply (blocks_come_out (fun _ => Err JSONDecodeError) (fun _ => "") (fun _ => "") pretty no_switches claude_turn 0 sample_blocks
    "It is four. SureYes." 12 7); [reflexivity|vm_compute; reflexivity|vm_compute; discriminate].
Defined.
