(* ===== verification/TurnState.v ===== *)
(** The turns of one session: the operations of [src/src/routes/responses.py] and
    [src/src/session_guard.py] on a [Session], the slot of a human decision
    ([_park_for_decision] in [src/src/backends/claude/client.py]), and the gates of the idle
    reader ([src/src/session_outbox.py]).

    A definition is what runs without a suspension; [TurnRace] puts them in order and
    interleaves them.  The control lock of a session guards sections that do not suspend, so
    taking it is no step of its own.  A client, an [asyncio.Event] and a reader task are
    numbers.  What a response object copies from the request or from the chunks (model,
    metadata, structured output, ids of its items) is left out, and the text of an error is
    kept where it names something.  Times are arguments: [now] is the wall clock, [mono] the
    monotonic one. *)

From stdpp Require Import pretty.
From S2P Require Import Prelude Json Outbox Routing.

(** ** Response ids *)

(** [_make_response_id(session_id, turn)]: [f"resp_{session_id}_{turn}"] *)
Definition _make_response_id (session_id : string) (turn : Z) : string :=
  String.append "resp_" (String.append session_id (String.append "_" (pretty turn))).

(** [s.split("_", 2)] when it has three parts *)
Definition split_three (s : string) : option (string * string * string) :=
  match from_char underscore s with
  | String _ rest =>
      match from_char underscore rest with
      | String _ turn => Some (before_char underscore s, before_char underscore rest, turn)
      | EmptyString => None
      end
  | EmptyString => None
  end.

(** [s.replace(p, "")] for a [p] that is not empty: the fuel is the length of [s]. *)
Fixpoint remove_all (fuel : nat) (p s : string) : string :=
  match fuel, s with
  | S fuel, String c s' =>
      match strip_prefix p s with
      | Some rest => remove_all fuel p rest
      | None => String c (remove_all fuel p s')
      end
  | _, _ => EmptyString
  end.
Definition replace_empty (p s : string) : string := remove_all (String.length s) p s.

Definition is_brace (c : Ascii.ascii) : bool := Ascii.eqb c (Ascii.ascii_of_nat 123) || Ascii.eqb c (Ascii.ascii_of_nat 125).
Fixpoint strip_left (f : Ascii.ascii -> bool) (s : string) : string :=
  match s with String c s' => if f c then strip_left f s' else s | EmptyString => s end.
Fixpoint strip_right (f : Ascii.ascii -> bool) (s : string) : string :=
  match s with
  | String c s' =>
      match strip_right f s' with
      | EmptyString => if f c then EmptyString else String c EmptyString
      | t => String c t
      end
  | EmptyString => EmptyString
  end.

Definition is_hex (c : Ascii.ascii) : bool :=
  let n := Ascii.nat_of_ascii (lower_char c) in is_digit c || ((97 <=? n)%nat && (n <=? 102)%nat).

(** [int(s, 16)] of a text without underscores does not raise: blanks around it, a sign, the
    prefix [0x], and at least one digit. *)
Definition hex_int (s : string) : bool :=
  let s := strip s in
  let s := match s with String c t => if Ascii.eqb c (Ascii.ascii_of_nat 43) || Ascii.eqb c (Ascii.ascii_of_nat 45) then t else s | _ => s end in
  let s := match s with
           | String c (String x t) => if Ascii.eqb c (Ascii.ascii_of_nat 48) && Ascii.eqb (lower_char x) (Ascii.ascii_of_nat 120) then t else s
           | _ => s
           end in
  negb (bool_decide (s = EmptyString)) && all_chars is_hex s.

(** [uuid.UUID(s)] does not raise. *)
Definition uuid_ok (s : string) : bool :=
  let hex := replace_empty "-" (strip_right is_brace (strip_left is_brace (replace_empty "uuid:" (replace_empty "urn:" s)))) in
  (String.length hex =? 32)%nat && hex_int hex.

(** [_parse_response_id(resp_id)] *)
Definition _parse_response_id (resp_id : string) : option (string * Z) :=
  match split_three resp_id with
  | Some (resp, session_id, turn) =>
      if bool_decide (resp = "resp") then
        match py_int turn with
        | Some turn => if (turn <=? 0) || negb (uuid_ok session_id) then None else Some (session_id, turn)
        | None => None
        end
      else None
  | None => None
  end.

(** ** Data *)

(** A [pending_tool_call].  [parked_by] is the identity of the dictionary where the code
    looks at it: the event of the call of [_park_for_decision] that made it. *)
Record Call := MkCall {
  call_id : string;
  name : string;
  arguments : Json;
  approval : Json;
  opencode_resume : option string;
  codex_resume : option string;
  parked_by : option nat;
}.

Record Message := MkMessage { role : string; content : string; thinking : list string }.

Inductive Item :=
| FunctionCall (call : Call)
| ReasoningText (text : string)
| MessageText (status text : string).

Record ResponseObject := MkResponseObject {
  r_id : string;
  r_status : string;
  r_output : list Item;
  r_usage : option (Z * Z);
  r_error : option (string * string);
  r_reason : option string;
  r_background : bool;
}.

(** An [HTTPException]: its status, and its text or the code of its detail. *)
Record Http := MkHttp { status : Z; detail : string }.

Record Session := MkSession {
  backend : string;
  base_system_prompt : option string;
  turn_counter : Z;
  messages : list Message;
  turn_records : gmap Z ResponseObject;
  client : option nat;
  pending_tool_call : option Call;
  input_event : option nat;
  input_response : option string;
  stream_break : option bool;
  active_response_id : option string;
  active_response_turn : option Z;
  active_response_state : option string;
  active_started_at : option Z;
  active_last_progress_at : option Z;
  active_client : option nat;
  active_done : bool;
  last_accessed : Z;
  outbox : SessionOutbox;
}.

Definition set_backend x s := MkSession x (base_system_prompt s) (turn_counter s) (messages s)
  (turn_records s) (client s) (pending_tool_call s) (input_event s) (input_response s) (stream_break s)
  (active_response_id s) (active_response_turn s) (active_response_state s) (active_started_at s)
  (active_last_progress_at s) (active_client s) (active_done s) (last_accessed s) (outbox s).
Definition set_base_system_prompt x s := MkSession (backend s) x (turn_counter s) (messages s)
  (turn_records s) (client s) (pending_tool_call s) (input_event s) (input_response s) (stream_break s)
  (active_response_id s) (active_response_turn s) (active_response_state s) (active_started_at s)
  (active_last_progress_at s) (active_client s) (active_done s) (last_accessed s) (outbox s).
Definition set_turn_counter x s := MkSession (backend s) (base_system_prompt s) x (messages s)
  (turn_records s) (client s) (pending_tool_call s) (input_event s) (input_response s) (stream_break s)
  (active_response_id s) (active_response_turn s) (active_response_state s) (active_started_at s)
  (active_last_progress_at s) (active_client s) (active_done s) (last_accessed s) (outbox s).
Definition set_messages x s := MkSession (backend s) (base_system_prompt s) (turn_counter s) x
  (turn_records s) (client s) (pending_tool_call s) (input_event s) (input_response s) (stream_break s)
  (active_response_id s) (active_response_turn s) (active_response_state s) (active_started_at s)
  (active_last_progress_at s) (active_client s) (active_done s) (last_accessed s) (outbox s).
Definition set_turn_records x s := MkSession (backend s) (base_system_prompt s) (turn_counter s)
  (messages s) x (client s) (pending_tool_call s) (input_event s) (input_response s) (stream_break s)
  (active_response_id s) (active_response_turn s) (active_response_state s) (active_started_at s)
  (active_last_progress_at s) (active_client s) (active_done s) (last_accessed s) (outbox s).
Definition set_client x s := MkSession (backend s) (base_system_prompt s) (turn_counter s) (messages s)
  (turn_records s) x (pending_tool_call s) (input_event s) (input_response s) (stream_break s)
  (active_response_id s) (active_response_turn s) (active_response_state s) (active_started_at s)
  (active_last_progress_at s) (active_client s) (active_done s) (last_accessed s) (outbox s).
Definition set_pending_tool_call x s := MkSession (backend s) (base_system_prompt s) (turn_counter s)
  (messages s) (turn_records s) (client s) x (input_event s) (input_response s) (stream_break s)
  (active_response_id s) (active_response_turn s) (active_response_state s) (active_started_at s)
  (active_last_progress_at s) (active_client s) (active_done s) (last_accessed s) (outbox s).
Definition set_input_event x s := MkSession (backend s) (base_system_prompt s) (turn_counter s) (messages s)
  (turn_records s) (client s) (pending_tool_call s) x (input_response s) (stream_break s)
  (active_response_id s) (active_response_turn s) (active_response_state s) (active_started_at s)
  (active_last_progress_at s) (active_client s) (active_done s) (last_accessed s) (outbox s).
Definition set_input_response x s := MkSession (backend s) (base_system_prompt s) (turn_counter s)
  (messages s) (turn_records s) (client s) (pending_tool_call s) (input_event s) x (stream_break s)
  (active_response_id s) (active_response_turn s) (active_response_state s) (active_started_at s)
  (active_last_progress_at s) (active_client s) (active_done s) (last_accessed s) (outbox s).
Definition set_stream_break x s := MkSession (backend s) (base_system_prompt s) (turn_counter s)
  (messages s) (turn_records s) (client s) (pending_tool_call s) (input_event s) (input_response s) x
  (active_response_id s) (active_response_turn s) (active_response_state s) (active_started_at s)
  (active_last_progress_at s) (active_client s) (active_done s) (last_accessed s) (outbox s).
Definition set_active_response_id x s := MkSession (backend s) (base_system_prompt s) (turn_counter s)
  (messages s) (turn_records s) (client s) (pending_tool_call s) (input_event s) (input_response s)
  (stream_break s) x (active_response_turn s) (active_response_state s) (active_started_at s)
  (active_last_progress_at s) (active_client s) (active_done s) (last_accessed s) (outbox s).
Definition set_active_response_turn x s := MkSession (backend s) (base_system_prompt s) (turn_counter s)
  (messages s) (turn_records s) (client s) (pending_tool_call s) (input_event s) (input_response s)
  (stream_break s) (active_response_id s) x (active_response_state s) (active_started_at s)
  (active_last_progress_at s) (active_client s) (active_done s) (last_accessed s) (outbox s).
Definition set_active_response_state x s := MkSession (backend s) (base_system_prompt s) (turn_counter s)
  (messages s) (turn_records s) (client s) (pending_tool_call s) (input_event s) (input_response s)
  (stream_break s) (active_response_id s) (active_response_turn s) x (active_started_at s)
  (active_last_progress_at s) (active_client s) (active_done s) (last_accessed s) (outbox s).
Definition set_active_started_at x s := MkSession (backend s) (base_system_prompt s) (turn_counter s)
  (messages s) (turn_records s) (client s) (pending_tool_call s) (input_event s) (input_response s)
  (stream_break s) (active_response_id s) (active_response_turn s) (active_response_state s) x
  (active_last_progress_at s) (active_client s) (active_done s) (last_accessed s) (outbox s).
Definition set_active_last_progress_at x s := MkSession (backend s) (base_system_prompt s) (turn_counter s)
  (messages s) (turn_records s) (client s) (pending_tool_call s) (input_event s) (input_response s)
  (stream_break s) (active_response_id s) (active_response_turn s) (active_response_state s)
  (active_started_at s) x (active_client s) (active_done s) (last_accessed s) (outbox s).
Definition set_active_client x s := MkSession (backend s) (base_system_prompt s) (turn_counter s)
  (messages s) (turn_records s) (client s) (pending_tool_call s) (input_event s) (input_response s)
  (stream_break s) (active_response_id s) (active_response_turn s) (active_response_state s)
  (active_started_at s) (active_last_progress_at s) x (active_done s) (last_accessed s) (outbox s).
Definition set_active_done x s := MkSession (backend s) (base_system_prompt s) (turn_counter s) (messages s)
  (turn_records s) (client s) (pending_tool_call s) (input_event s) (input_response s) (stream_break s)
  (active_response_id s) (active_response_turn s) (active_response_state s) (active_started_at s)
  (active_last_progress_at s) (active_client s) x (last_accessed s) (outbox s).
Definition set_last_accessed x s := MkSession (backend s) (base_system_prompt s) (turn_counter s)
  (messages s) (turn_records s) (client s) (pending_tool_call s) (input_event s) (input_response s)
  (stream_break s) (active_response_id s) (active_response_turn s) (active_response_state s)
  (active_started_at s) (active_last_progress_at s) (active_client s) (active_done s) x (outbox s).
Definition set_outbox x s := MkSession (backend s) (base_system_prompt s) (turn_counter s) (messages s)
  (turn_records s) (client s) (pending_tool_call s) (input_event s) (input_response s) (stream_break s)
  (active_response_id s) (active_response_turn s) (active_response_state s) (active_started_at s)
  (active_last_progress_at s) (active_client s) (active_done s) (last_accessed s) x.

(** ** The guard of a turn *)

(** [touch()] and [add_messages(messages)] *)
Definition touch (now : Z) (s : Session) : Session := set_last_accessed now s.
Definition add_messages (now : Z) (l : list Message) (s : Session) : Session :=
  touch now (set_messages (messages s ++ l) s).

(** [acquire_session_preflight(...)] once the lock is held: the session, [is_new] and
    [next_turn]; [base] is the live system prompt with its placeholders filled in.  The lock
    is released when it raises. *)
Definition acquire_session_preflight (now : Z) (session_id resolved_backend base : string) (is_new : option bool)
    (turn : option Z) (msgs : option (list Message)) (s : Session) : result Http (Session * bool * Z) :=
  let is_new := match is_new with Some b => b | None => bool_decide (messages s = []) end in
  let! _ := match turn with
            | Some t =>
                if negb is_new && negb (t =? turn_counter s) then
                  if t <? turn_counter s
                  then Err (MkHttp 409 (_make_response_id session_id (turn_counter s)))
                  else Err (MkHttp 404 "previous_response_id references a future turn")
                else Ok tt
            | None => Ok tt
            end in
  if negb is_new && negb (bool_decide (backend s = EmptyString)) && negb (bool_decide (backend s = resolved_backend))
  then Err (MkHttp 400 "Cannot mix backends within a session.")
  else
    let next_turn := turn_counter s + 1 in
    let s := if is_new then set_base_system_prompt (Some base) (set_backend resolved_backend s) else s in
    let s := match msgs with Some l => add_messages now l s | None => s end in
    Ok (s, is_new, next_turn).

(** The turn a request continues ([_responses_streaming_preflight] and the same lines of the
    other paths), before the lock is asked for. *)
Definition parse_previous (is_new : bool) (previous : option string) : result Http (option Z) :=
  if is_new then Ok None
  else
    match previous with
    | None => Err (MkHttp 400 "previous_response_id is required for an existing session")
    | Some id =>
        match _parse_response_id id with
        | Some (_, turn) => Ok (Some turn)
        | None => Err (MkHttp 404 "previous_response_id is invalid")
        end
    end.

(** [_reject_while_human_decision_pending(session)] *)
Definition _reject_while_human_decision_pending (s : Session) : option Http :=
  option_map (fun c => MkHttp 409 (call_id c)) (pending_tool_call s).

(** ** The active response *)

(** [_begin_active_response(...)]; [Err] is its [RuntimeError]. *)
Definition _begin_active_response (mono : Z) (response_id : string) (turn : Z) (c : option nat) (s : Session)
    : result string Session :=
  match active_response_id s with
  | Some id => Err id
  | None =>
      Ok (set_active_response_id (Some response_id) (set_active_response_turn (Some turn)
           (set_active_response_state (Some "running") (set_active_started_at (Some mono)
           (set_active_last_progress_at (Some mono) (set_active_client c (set_active_done false s)))))))
  end.

(** The fields a finished response leaves *)
Definition clear_active (terminal_state : string) (s : Session) : Session :=
  set_active_response_state (Some terminal_state) (set_active_response_id None (set_active_response_turn None
    (set_active_started_at None (set_active_last_progress_at None (set_active_client None s))))).

(** [_finish_active_response(...)] up to the idle reader; [true] when it goes on to it. *)
Definition _finish_active_response (now : Z) (response_id terminal_state : string) (s : Session) : Session * bool :=
  if bool_decide (active_response_id s = Some response_id)
  then (set_active_done true (touch now (clear_active terminal_state s)), true)
  else (s, false).

(** ** The slot of a human decision *)

(** [_park_for_decision(...)] up to its wait; [event] is new.  [None] is
    [DecisionAlreadyPending]. *)
Definition park (tool_name call : string) (tool_input appr : Json) (event : nat) (s : Session) : option Session :=
  match pending_tool_call s, input_event s with
  | None, None =>
      let pending := MkCall call tool_name tool_input appr None None (Some event) in
      let s := set_input_event (Some event) (set_pending_tool_call (Some pending) s) in
      Some (match stream_break s with Some _ => set_stream_break (Some true) s | None => s end)
  | _, _ => None
  end.

(** Its end: the answer ([None] when it timed out), and what it releases *)
Definition unpark (answered : bool) (event : nat) (s : Session) : Session * option string :=
  let answer := if answered then Some (default "" (input_response s)) else None in
  let s := match pending_tool_call s with
           | Some c => if bool_decide (parked_by c = Some event) then set_pending_tool_call None s else s
           | None => s
           end in
  let s := if bool_decide (input_event s = Some event) then set_input_response None (set_input_event None s) else s in
  (s, answer).

(** [_clear_stale_pending_tool_call(session, reason)]: the event it sets *)
Definition _clear_stale_pending_tool_call (s : Session) : Session * option nat :=
  match pending_tool_call s, input_event s with
  | None, None => (s, None)
  | _, event => (set_input_event None (set_input_response None (set_pending_tool_call None s)), event)
  end.

(** The guards of [_unblock_pending_tool_call], [_prepare_opencode_tool_continuation] and
    [_prepare_codex_approval_continuation] that are the same *)
Definition pending_call (wanted : string) (s : Session) : result Http Call :=
  match pending_tool_call s with
  | None => Err (MkHttp 400 "function_call_output received but no pending tool call in session")
  | Some c =>
      if bool_decide (call_id c = wanted) then Ok c
      else Err (MkHttp 400 (String.append "call_id mismatch: pending tool call has " (call_id c)))
  end.
Definition needs_client (s : Session) : result Http unit :=
  match client s with
  | Some _ => Ok tt
  | None => Err (MkHttp 400 "function_call_output received but session has no active SDK client")
  end.

(** [_unblock_pending_tool_call(...)] under the lock; [persistent] tells that the backend has
    [run_completion_with_client]. *)
Definition _unblock_pending_tool_call (persistent : bool) (wanted output : string) (s : Session) : result Http Session :=
  let! _ := pending_call wanted s in
  if negb persistent then Err (MkHttp 400 "function_call_output requires a backend that supports persistent clients")
  else
    let! _ := needs_client s in
    match input_event s with
    | None => Err (MkHttp 400 "function_call_output received but session has no pending input event")
    | Some _ => Ok (set_input_response (Some output) s)
    end.

(** [_commit_pending_tool_call_locked(session)]: the event it sets *)
Definition _commit_pending_tool_call_locked (s : Session) : Session * option nat :=
  (set_pending_tool_call None s, input_event s).

(** [_prepare_opencode_tool_continuation(...)]: the kind of resumption; [can] tells what the
    backend resumes. *)
Definition _prepare_opencode_tool_continuation (can : string -> bool) (wanted : string) (s : Session)
    : result Http (Session * string) :=
  let! c := pending_call wanted s in
  let kind := default "question" (opencode_resume c) in
  if negb (bool_decide (kind ∈ ["question"; "permission"])) then Err (MkHttp 400 (String.append "Unsupported OpenCode resume kind: " kind))
  else if negb (can kind) then Err (MkHttp 400 (String.append kind " continuation is not supported by this backend"))
  else
    let! _ := needs_client s in
    Ok (set_pending_tool_call None s, kind).

(** [_prepare_codex_approval_continuation(...)] *)
Definition _prepare_codex_approval_continuation (can : bool) (wanted : string) (s : Session) : result Http Session :=
  let! c := pending_call wanted s in
  if negb (bool_decide (codex_resume c = Some "approval")) then Err (MkHttp 400 "Unsupported Codex continuation type")
  else if negb can then Err (MkHttp 400 "Codex approval continuation is not supported by this backend")
  else
    let! _ := needs_client s in
    Ok (set_pending_tool_call None s).

(** ** Dropping the client *)

(** [reset_active_tasks(session, reason)] *)
Definition reset_active_tasks (s : Session) : Session := set_outbox (fst (clear_active_tasks (outbox s))) s.

(** [_disconnect_session_client(session, reason, client)] between the pause of the idle reader
    and the wait for [disconnect]: the event that is set, and the client to disconnect. *)
Definition _disconnect_session_client (c : option nat) (s : Session) : Session * option nat * option nat :=
  let '(s, event) := _clear_stale_pending_tool_call s in
  let c := match c with Some c => Some c | None => client s end in
  match c with
  | None => (reset_active_tasks s, event, None)
  | Some c =>
      let s := if bool_decide (client s = Some c) then set_client None s else s in
      let s := match client s with None => reset_active_tasks s | Some _ => s end in
      (s, event, Some c)
  end.

(** What [_ensure_response_session_client] does to a session without a client before it
    starts one. *)
Definition before_client_start (s : Session) : Session * option nat :=
  let '(s, event) := _clear_stale_pending_tool_call s in (reset_active_tasks s, event).

(** ** The gates of the idle reader *)

(** Whether [resume_idle_reader(session)] starts a reader; [running] is
    [idle_reader_running(session)]. *)
Definition may_resume (running : bool) (s : Session) : bool :=
  bool_decide (is_Some (client s)) && negb (bool_decide (is_Some (active_response_id s)))
  && negb (bool_decide (is_Some (pending_tool_call s))) && negb running.

(** ** Committing a turn *)

(** [stream_result]: what [stream_response_chunks] left *)
Record StreamResult := MkStreamResult {
  sr_success : bool;
  sr_empty : bool;
  sr_interrupted : bool;
  sr_text : string;
  sr_thinking : list string;
  sr_response : option ResponseObject;
  sr_next_sequence : Z;
}.

(** A frame the route sends itself *)
Inductive RouteFrame :=
| FunctionCallDone (response_id : string) (call : Call) (seq : Z)
| ResponseCompleted (response : ResponseObject) (seq : Z)
| ResponseFailed (response : ResponseObject) (seq : Z).

(** [_take_sequence(stream_result)] *)
Definition _take_sequence (r : StreamResult) : StreamResult * Z :=
  (MkStreamResult (sr_success r) (sr_empty r) (sr_interrupted r) (sr_text r) (sr_thinking r) (sr_response r)
     (sr_next_sequence r + 1), sr_next_sequence r).
Definition succeeded (r : StreamResult) : StreamResult :=
  MkStreamResult true (sr_empty r) (sr_interrupted r) (sr_text r) (sr_thinking r) (sr_response r) (sr_next_sequence r).

Definition _build_requires_action_response (id : string) (tc : Call) : ResponseObject :=
  MkResponseObject id "requires_action" [FunctionCall tc] None None None false.
Definition _build_failed_response (id code message : string) : ResponseObject :=
  MkResponseObject id "failed" [] None (Some (code, message)) None false.

(** [_build_completed_response(...)] *)
Definition _build_completed_response (id text : string) (usage : Z * Z) (texts : list string) : ResponseObject :=
  MkResponseObject id "completed"
    (map ReasoningText (filter (fun t => strip t <> "") texts) ++ [MessageText "completed" text]) (Some usage) None None false.

(** [_record_turn_response(session, turn, response_obj, store)] *)
Definition _record_turn_response (turn : Z) (r : ResponseObject) (store : bool) (s : Session) : Session :=
  if store then set_turn_records (<[turn := r]> (turn_records s)) s else s.

(** [_build_session_assistant_message(visible_text, thinking_texts)] *)
Definition _build_session_assistant_message (text : string) (texts : list string) : option Message :=
  let texts := filter (fun t => t <> "") texts in
  if bool_decide (text = "") && bool_decide (texts = []) then None else Some (MkMessage "assistant" text texts).

(** [... or Message(role="assistant", content="")] *)
Definition or_empty_message (m : option Message) : Message := default (MkMessage "assistant" "" []) m.

Section commits.
(** The clock; whether [session_manager.get_session] still finds the session, for
    [add_assistant_response]; [store] of the request; and the usage that
    [resolve_token_usage] reads for a visible text. *)
Context (now : Z) (found store : bool) (usage : string -> Z * Z).

(** [session_manager.add_assistant_response(session_id, message)] *)
Definition add_assistant_response (m : Message) (s : Session) : Session :=
  if found then add_messages now [m] s else s.

(** The user's message of a turn; a continuation has none. *)
Definition add_user (prompt : option string) (s : Session) : Session :=
  match prompt with Some p => add_messages now [MkMessage "user" p []] s | None => s end.

(** [_record_stream_turn_response(...)] *)
Definition _record_stream_turn_response (turn : Z) (id : string) (r : StreamResult) (s : Session) : Session :=
  let usage_text := if bool_decide (sr_text r = "") then String.concat (String (Ascii.ascii_of_nat 10) EmptyString) (sr_thinking r) else sr_text r in
  _record_turn_response turn (_build_completed_response id (sr_text r) (usage usage_text) (sr_thinking r)) store s.

(** What [_run_stream] ([prompt] is the user's) and [_run_continuation_stream] ([None]) do
    when the generator of the events has returned: the frames they send, then what they
    commit.  An empty continuation sends nothing. *)
Definition after_stream (prompt : option string) (id : string) (turn : Z) (r : StreamResult) (s : Session)
    : list RouteFrame * StreamResult * Session :=
  let assistant := or_empty_message (_build_session_assistant_message (sr_text r) (sr_thinking r)) in
  match pending_tool_call s with
  | Some tc =>
      let (r, n1) := _take_sequence r in
      let response := _build_requires_action_response id tc in
      let (r, n2) := _take_sequence r in
      ([FunctionCallDone id tc n1; ResponseCompleted response n2], succeeded r,
       _record_turn_response turn response store (add_user prompt (set_turn_counter turn s)))
  | None =>
      if sr_interrupted r then
        let s := add_assistant_response assistant (add_user prompt (set_turn_counter turn s)) in
        ([], r, match sr_response r with Some o => _record_turn_response turn o store s | None => s end)
      else if sr_empty r && bool_decide (is_Some prompt) then
        let (r, n) := _take_sequence r in
        ([ResponseFailed (_build_failed_response id "empty_response" "No response generated") n], r, s)
      else if sr_success r then
        ([], r, _record_stream_turn_response turn id r (add_assistant_response assistant (add_user prompt (set_turn_counter turn s))))
      else ([], r, s)
  end.

(** What a turn that is not streamed collected: its first error chunk, the text of
    [parse_message], and the visible text and thoughts of the chunks. *)
Record Collected := MkCollected {
  co_error : option (string * string);
  co_interrupted : bool;
  co_text : string;
  co_visible : string;
  co_thinking : list string;
}.

Definition usage_text (c : Collected) : string :=
  if negb (bool_decide (co_text c = "")) then co_text c
  else if negb (bool_decide (co_visible c = "")) then co_visible c
  else String.concat (String (Ascii.ascii_of_nat 10) EmptyString) (co_thinking c).

(** [_raise_for_error_chunks]: the status and the message *)
Definition error_response (e : string * string) : Http :=
  MkHttp (if bool_decide (fst e = "rate_limit") then 429 else 502) (String.append "Backend error: " (snd e)).

(** The end of [create_response] without a stream, under the lock: what is returned. *)
Definition finish_plain (prompt : string) (id : string) (turn : Z) (c : Collected) (s : Session)
    : Session * result Http ResponseObject :=
  match co_error c with
  | Some e => (s, Err (error_response e))
  | None =>
      match pending_tool_call s with
      | Some tc =>
          let response := _build_requires_action_response id tc in
          (_record_turn_response turn response store (add_user (Some prompt) (set_turn_counter turn s)), Ok response)
      | None =>
          match _build_session_assistant_message (co_visible c) (co_thinking c) with
          | None => (s, Err (MkHttp 502 "No response from backend"))
          | Some m =>
              let response := _build_completed_response id (co_visible c) (usage (usage_text c)) (co_thinking c) in
              (_record_turn_response turn response store (add_assistant_response m (add_user (Some prompt) (set_turn_counter turn s))),
               Ok response)
          end
      end
  end.

(** The end of [_handle_function_call_output] without a stream, under the lock: it looks for
    another question before it looks for errors. *)
Definition finish_continuation (id : string) (turn : Z) (c : Collected) (s : Session) : Session * result Http ResponseObject :=
  match pending_tool_call s with
  | Some tc =>
      let response := _build_requires_action_response id tc in
      (_record_turn_response turn response store (set_turn_counter turn s), Ok response)
  | None =>
      match co_error c with
      | Some e => (s, Err (error_response e))
      | None =>
          match _build_session_assistant_message (co_visible c) (co_thinking c) with
          | None => (s, Err (MkHttp 502 "No response from backend"))
          | Some m =>
              let response := _build_completed_response id (co_visible c) (usage (usage_text c)) (co_thinking c) in
              (_record_turn_response turn response store (add_assistant_response m (set_turn_counter turn s)), Ok response)
          end
      end
  end.

(** *** Background turns *)

(** [_BACKGROUND_RUNS] *)
Record Run := MkRun { run_session : string; run_payload : ResponseObject }.
Definition Runs : Type := odict string Run.
Definition _register_background_run (id session_id : string) (payload : ResponseObject) (b : Runs) : Runs :=
  dict_set b id (MkRun session_id payload).
Definition _set_background_run_payload (id : string) (payload : ResponseObject) (b : Runs) : Runs :=
  match dict_get b id with Some r => dict_set b id (MkRun (run_session r) payload) | None => b end.
Definition with_status (st : string) (r : ResponseObject) : ResponseObject :=
  MkResponseObject (r_id r) st (r_output r) (r_usage r) (r_error r) (r_reason r) (r_background r).
Definition _set_background_run_status (id st : string) (b : Runs) : Runs :=
  match dict_get b id with Some r => dict_set b id (MkRun (run_session r) (with_status st (run_payload r))) | None => b end.
Definition _drop_background_run (id : string) (b : Runs) : Runs := dict_del b id.

Definition in_background (r : ResponseObject) : ResponseObject :=
  MkResponseObject (r_id r) (r_status r) (r_output r) (r_usage r) (r_error r) (r_reason r) true.
Definition queued (id : string) : ResponseObject := MkResponseObject id "queued" [] None None None true.

(** [_fail(code, message)] *)
Definition background_fail (id code message : string) (b : Runs) : Runs :=
  _set_background_run_payload id (in_background (_build_failed_response id code message)) b.

(** How [_run_background_response] goes on when its chunks are collected: the payload of the
    failure, or the response that was committed with its terminal state. *)
Inductive BackgroundEnd := BFailed (code message : string) | BCommitted (terminal_state : string) (response : ResponseObject).

Definition finish_background (prompt : string) (id : string) (turn : Z) (c : Collected) (s : Session)
    : Session * BackgroundEnd :=
  let visible_or_thoughts := if bool_decide (co_visible c = "")
    then String.concat (String (Ascii.ascii_of_nat 10) EmptyString) (co_thinking c) else co_visible c in
  if co_interrupted c then
    let response := MkResponseObject id "incomplete" [MessageText "incomplete" (co_visible c)] (Some (usage visible_or_thoughts)) None
                      (Some "user_cancelled") true in
    let m := or_empty_message (_build_session_assistant_message (co_visible c) (co_thinking c)) in
    (_record_turn_response turn response store (add_assistant_response m (add_user (Some prompt) (set_turn_counter turn s))),
     BCommitted "incomplete" response)
  else
    match co_error c with
    | Some (code, message) => (s, BFailed code (String.append "Backend error: " message))
    | None =>
        match pending_tool_call s with
        | Some tc =>
            let response := in_background (_build_requires_action_response id tc) in
            (_record_turn_response turn response store (add_user (Some prompt) (set_turn_counter turn s)), BCommitted "completed" response)
        | None =>
            match _build_session_assistant_message (co_visible c) (co_thinking c) with
            | None => (s, BFailed "server_error" "No response from backend")
            | Some m =>
                let response := in_background (_build_completed_response id (co_visible c) (usage (usage_text c)) (co_thinking c)) in
                (_record_turn_response turn response store (add_assistant_response m (add_user (Some prompt) (set_turn_counter turn s))),
                 BCommitted "completed" response)
            end
        end
    end.
End commits.

(** ** The other routes *)

(** [cancel_response(...)] on the session its id names, under the control lock; [can] tells
    whether the backend has [interrupt_client].  [Ok None] answers at once; [Ok (Some c)]
    goes on to interrupt the client [c]. *)
Definition cancel_response (registered can : bool) (response_id : string) (turn : Z) (s : Session)
    : Session * result Http (option nat) :=
  if negb (bool_decide (active_response_id s = Some response_id)) then
    (s, Err (if turn <=? turn_counter s then MkHttp 409 "response_not_cancellable" else MkHttp 404 "response_not_found"))
  else if bool_decide (active_response_state s = Some "cancelling") then (s, Ok None)
  else if negb (bool_decide (active_response_state s = Some "running")) then (s, Err (MkHttp 409 "is not running"))
  else if negb registered then (s, Err (MkHttp 503 "Backend unavailable"))
  else if negb can then (s, Err (MkHttp 400 "does not support response cancellation"))
  else
    match active_client s with
    | None => (s, Err (MkHttp 409 "Active response has no client"))
    | Some c => (set_active_response_state (Some "cancelling") s, Ok (Some c))
    end.

(** The interrupt failed: the response is running again, when it still is the active one. *)
Definition cancel_failed (response_id : string) (s : Session) : Session :=
  if bool_decide (active_response_id s = Some response_id) && bool_decide (active_response_state s = Some "cancelling")
  then set_active_response_state (Some "running") s else s.

(** [_lookup_stored_response(response_id, user)] and [get_response], on the sessions found and
    their users *)
Section lookups.
Context (get_session : string -> option (Session * option string)).

Definition not_found : Http := MkHttp 404 "response_not_found".
Definition foreign (user owner : option string) : bool :=
  match user with Some _ => negb (bool_decide (owner = user)) | None => false end.

Definition _lookup_stored_response (response_id : string) (user : option string) : result Http (Session * string * Z) :=
  match _parse_response_id response_id with
  | None => Err not_found
  | Some (session_id, turn) =>
      match get_session session_id with
      | None => Err not_found
      | Some (s, owner) => if foreign user owner || (turn_counter s <? turn) then Err not_found else Ok (s, session_id, turn)
      end
  end.

Definition get_response (b : Runs) (response_id : string) (user : option string) : Runs * result Http ResponseObject :=
  match dict_get b response_id with
  | Some run =>
      match get_session (run_session run) with
      | None => (_drop_background_run response_id b, Err not_found)
      | Some (_, owner) => (b, if foreign user owner then Err not_found else Ok (run_payload run))
      end
  | None =>
      (b, let! (s, _, turn) := _lookup_stored_response response_id user in
          match turn_records s !! turn with Some r => Ok r | None => Err not_found end)
  end.

(** [delete_response]: the session to delete *)
Definition delete_response (response_id : string) (user : option string) : result Http string :=
  let! (s, session_id, turn) := _lookup_stored_response response_id user in
  if turn =? turn_counter s then Ok session_id
  else Err (MkHttp 409 (_make_response_id session_id (turn_counter s))).
End lookups.
