(* ===== verification/TurnRace.v ===== *)
(** The turns of one session beside each other ([TurnState]): requests that wait for the
    session lock, start a client, read its stream and commit; requests that cancel or poll;
    the idle reader between turns; and the tools that wait for a human decision.

    One event of [exec] is what a task does between two suspensions, so any order of events
    is an interleaving of the tasks.  The session has a backend whose clients the idle reader
    can read (Claude), and stays in its manager.  [asyncio.Lock] is its holder: who gets a
    free lock next is open.  What a turn collects, how long anything takes and what fails is
    part of the event.  A turn that is not streamed and not in the background is
    [Connected].

    The stream of a turn is read chunk by chunk ([Reads]), from [start_reading] to its [Ends]:
    any events of other tasks, readers and hooks come in between, among them the calls that
    park in this very turn.  A chunk is stamped as progress and feeds the registry of running
    tasks ([read_chunk]); what the turn makes of its chunks in the end is the outcome that
    [Ends] tells ([ResponsesStream] is how a streamed one comes about).

    A hook that was woken is expected to go on before an answer to a later call is accepted: two
    network calls lie in between.  [exec] does not ask for it; [settled] says it of a world, and
    [promptly] of a run. *)

From S2P Require Import Prelude Json Outbox TurnState.

(** ** Tasks *)

Inductive Mode := Streamed | Connected | InBackground.

(** A request of [POST /v1/responses]: a turn with a prompt, and the turn it continues; or the
    answer to a call. *)
Inductive Job :=
| Fresh (m : Mode) (is_new : bool) (previous : option Z) (resolved_backend prompt : string)
| Answer (streamed : bool) (wanted output : string).

Inductive Pc :=
| Waiting
| Starting (turn : Z)
| Draining (turn : Z)
| Offered (turn : Z) (c : option nat)
| Sweeping (turn : Z) (c : option nat)
| Pausing (turn : Z) (c : option nat) (reader : nat)
| Reading (turn : Z) (c : option nat)
| Closing (turn : Z) (state : string)
| Dropping (turn : Z) (c : option nat) (reader : option nat)
| Disconnecting (turn : Z)
| Logging
| LateDropping (c : option nat) (reader : option nat)
| LateDisconnecting
| Lost (turn : Z) (published : bool)
| Done.

Record Task := MkTask { job : Job; pc : Pc }.

(** An idle reader, and whether its stop event is set *)
Record Reader := MkReader { rd_client : nat; rd_stopping : bool }.

(** A call of [_park_for_decision] that waits for the event it is numbered by *)
Record Hook := MkHook { hk_call : string; hk_woken : bool }.

(** The session and what runs beside it; [idle_reader] is [session.idle_reader_task].
    [committed] to [torn] record what happened: the turns that advanced the counter and by
    whom, refusals of [_begin_active_response], answers accepted by the route and answers
    handed to a call, interrupts sent, and clients dropped by a task. *)
Record World := MkWorld {
  session : Session;
  lock : option nat;
  tasks : gmap nat Task;
  readers : gmap nat Reader;
  idle_reader : option nat;
  hooks : gmap nat Hook;
  background_runs : Runs;
  interrupting : list (string * nat);
  next_id : nat;
  committed : list (nat * Z);
  refused_begins : nat;
  accepted : list (string * string);
  answers : list (string * string);
  interrupts : list (string * nat);
  torn : list (nat * nat);
}.

Definition with_session x w := MkWorld x (lock w) (tasks w) (readers w) (idle_reader w) (hooks w)
  (background_runs w) (interrupting w) (next_id w) (committed w) (refused_begins w) (accepted w) (answers w)
  (interrupts w) (torn w).
Definition with_lock x w := MkWorld (session w) x (tasks w) (readers w) (idle_reader w) (hooks w)
  (background_runs w) (interrupting w) (next_id w) (committed w) (refused_begins w) (accepted w) (answers w)
  (interrupts w) (torn w).
Definition with_tasks x w := MkWorld (session w) (lock w) x (readers w) (idle_reader w) (hooks w)
  (background_runs w) (interrupting w) (next_id w) (committed w) (refused_begins w) (accepted w) (answers w)
  (interrupts w) (torn w).
Definition with_readers x w := MkWorld (session w) (lock w) (tasks w) x (idle_reader w) (hooks w)
  (background_runs w) (interrupting w) (next_id w) (committed w) (refused_begins w) (accepted w) (answers w)
  (interrupts w) (torn w).
Definition with_idle_reader x w := MkWorld (session w) (lock w) (tasks w) (readers w) x (hooks w)
  (background_runs w) (interrupting w) (next_id w) (committed w) (refused_begins w) (accepted w) (answers w)
  (interrupts w) (torn w).
Definition with_hooks x w := MkWorld (session w) (lock w) (tasks w) (readers w) (idle_reader w) x
  (background_runs w) (interrupting w) (next_id w) (committed w) (refused_begins w) (accepted w) (answers w)
  (interrupts w) (torn w).
Definition with_background_runs x w := MkWorld (session w) (lock w) (tasks w) (readers w) (idle_reader w)
  (hooks w) x (interrupting w) (next_id w) (committed w) (refused_begins w) (accepted w) (answers w)
  (interrupts w) (torn w).
Definition with_interrupting x w := MkWorld (session w) (lock w) (tasks w) (readers w) (idle_reader w)
  (hooks w) (background_runs w) x (next_id w) (committed w) (refused_begins w) (accepted w) (answers w)
  (interrupts w) (torn w).
Definition with_next_id x w := MkWorld (session w) (lock w) (tasks w) (readers w) (idle_reader w) (hooks w)
  (background_runs w) (interrupting w) x (committed w) (refused_begins w) (accepted w) (answers w)
  (interrupts w) (torn w).
Definition with_committed x w := MkWorld (session w) (lock w) (tasks w) (readers w) (idle_reader w)
  (hooks w) (background_runs w) (interrupting w) (next_id w) x (refused_begins w) (accepted w) (answers w)
  (interrupts w) (torn w).
Definition with_refused_begins x w := MkWorld (session w) (lock w) (tasks w) (readers w) (idle_reader w)
  (hooks w) (background_runs w) (interrupting w) (next_id w) (committed w) x (accepted w) (answers w)
  (interrupts w) (torn w).
Definition with_accepted x w := MkWorld (session w) (lock w) (tasks w) (readers w) (idle_reader w) (hooks w)
  (background_runs w) (interrupting w) (next_id w) (committed w) (refused_begins w) x (answers w)
  (interrupts w) (torn w).
Definition with_answers x w := MkWorld (session w) (lock w) (tasks w) (readers w) (idle_reader w) (hooks w)
  (background_runs w) (interrupting w) (next_id w) (committed w) (refused_begins w) (accepted w) x
  (interrupts w) (torn w).
Definition with_interrupts x w := MkWorld (session w) (lock w) (tasks w) (readers w) (idle_reader w)
  (hooks w) (background_runs w) (interrupting w) (next_id w) (committed w) (refused_begins w) (accepted w)
  (answers w) x (torn w).
Definition with_torn x w := MkWorld (session w) (lock w) (tasks w) (readers w) (idle_reader w) (hooks w)
  (background_runs w) (interrupting w) (next_id w) (committed w) (refused_begins w) (accepted w) (answers w)
  (interrupts w) x.

Section world.
(** The id of the session, its live system prompt, and the reading of usage *)
Context (session_id base : string) (usage : string -> Z * Z).

Definition response_id (turn : Z) : string := _make_response_id session_id turn.

Definition on_session (f : Session -> Session) (w : World) : World := with_session (f (session w)) w.
Definition set_pc (t : nat) (p : Pc) (w : World) : World :=
  with_tasks (alter (fun k => MkTask (job k) p) t (tasks w)) w.
Definition release (w : World) : World := with_lock None w.

(** [event.set()] *)
Definition wake (event : option nat) (w : World) : World :=
  match event with
  | Some e => with_hooks (alter (fun h => MkHook (hk_call h) true) e (hooks w)) w
  | None => w
  end.

(** ** The idle reader *)

(** [idle_reader_running(session)] *)
Definition running (w : World) : option nat :=
  match idle_reader w with
  | Some p => if decide (is_Some (readers w !! p)) then Some p else None
  | None => None
  end.

(** [resume_idle_reader(session)] *)
Definition resume_idle_reader (w : World) : World :=
  if may_resume (bool_decide (is_Some (running w))) (session w) then
    match client (session w) with
    | Some c =>
        let p := next_id w in
        with_idle_reader (Some p) (with_next_id (S p) (with_readers (<[p := MkReader c false]> (readers w)) w))
    | None => w
    end
  else w.

(** [resume_idle_reader_between_turns(session)] *)
Definition resume_idle_reader_between_turns (w : World) : World :=
  match lock w with Some _ => w | None => resume_idle_reader w end.

(** [pause_idle_reader(session)]: up to its wait, and the reader it waits for *)
Definition pause_idle_reader (w : World) : World * option nat :=
  match running w with
  | Some p => (with_readers (alter (fun r => MkReader (rd_client r) true) p (readers w)) w, Some p)
  | None => (with_idle_reader None w, None)
  end.
(** After the wait *)
Definition reader_paused (p : nat) (w : World) : World :=
  if bool_decide (idle_reader w = Some p) then with_idle_reader None w else w.

(** The end of [_idle_pump]; [ended] tells that the stream ended or broke. *)
Definition reader_ends (p : nat) (ended : bool) (w : World) : World :=
  let w := if ended then on_session reset_active_tasks w else w in
  reader_paused p (with_readers (delete p (readers w)) w).

(** ** The steps of a turn *)

(** Hooks woken before the call of the slot parked have gone on *)
Definition settled (w : World) : bool :=
  match input_event (session w) with
  | Some e => bool_decide (map_Forall (fun e' h => hk_woken h = true -> (e <= e')%nat) (hooks w))
  | None => true
  end.

(** The lock is taken: the guards of the turn run at once. *)
Definition take_lock (now : Z) (t : nat) (j : Job) (w : World) : World :=
  let s := session w in
  match j with
  | Fresh m is_new previous resolved prompt =>
      match acquire_session_preflight now session_id resolved base (Some is_new) previous None s with
      | Err _ => set_pc t Done w
      | Ok (s, _, turn) =>
          let (s, event) := match client s with None => before_client_start s | Some _ => (s, None) end in
          set_pc t (Starting turn) (with_lock (Some t) (wake event (with_session s w)))
      end
  | Answer _ wanted output =>
      match _unblock_pending_tool_call true wanted output s with
      | Err _ => set_pc t Done w
      | Ok s =>
          set_pc t (Starting (turn_counter s + 1))
            (with_accepted (accepted w ++ [(wanted, output)]) (with_lock (Some t) (with_session s w)))
      end
  end.

(** The turn reads, when no idle reader does: [run_completion_with_client] sweeps first where
    no reader runs, [receive_response_from_client] does not. *)
Definition start_reading (t : nat) (turn : Z) (c : option nat) (w : World) : World :=
  let w := on_session (fun s => match job <$> tasks w !! t with
                                | Some (Fresh _ _ _ _ _) => set_stream_break (Some false) s
                                | _ => s
                                end) w in
  set_pc t (Reading turn c) w.
Definition pause_and_read (t : nat) (turn : Z) (c : option nat) (w : World) : World :=
  match pause_idle_reader w with
  | (w, Some p) => set_pc t (Pausing turn c p) w
  | (w, None) => start_reading t turn c w
  end.
Definition run_turn (t : nat) (turn : Z) (c : option nat) (w : World) : World :=
  match job <$> tasks w !! t with
  | Some (Fresh _ _ _ _ _) =>
      match running w with
      | Some _ => pause_and_read t turn c w
      | None => set_pc t (Sweeping turn c) w
      end
  | _ => pause_and_read t turn c w
  end.

(** [_begin_active_response], then the response is handed out; [active_client] is the client
    as it is now, which a continuation keeps. *)
Definition begin_and_offer (mono : Z) (t : nat) (turn : Z) (registers : bool) (w : World) : World :=
  match _begin_active_response mono (response_id turn) turn (client (session w)) (session w) with
  | Err _ => set_pc t Done (release (with_refused_begins (S (refused_begins w)) w))
  | Ok s =>
      let w := with_session s w in
      let w := if registers
               then with_background_runs (_register_background_run (response_id turn) session_id (queued (response_id turn)) (background_runs w)) w
               else w in
      set_pc t (Offered turn (client (session w))) w
  end.

(** The client is there (a new one is [created]), and its policy is refreshed. *)
Definition client_ready (mono : Z) (t : nat) (j : Job) (turn : Z) (created : nat) (w : World) : World :=
  let start := on_session (fun s => match client s with None => set_client (Some created) s | Some _ => s end) in
  match j with
  | Fresh Streamed _ _ _ _ => begin_and_offer mono t turn false (start w)
  | Fresh InBackground _ _ _ _ => begin_and_offer mono t turn true (start w)
  | Fresh Connected _ _ _ _ => let w := start w in run_turn t turn (client (session w)) w
  | Answer _ _ _ => set_pc t (Draining turn) w
  end.

(** The answer is committed: the call that waits is woken. *)
Definition answer_drained (mono : Z) (t : nat) (streamed : bool) (turn : Z) (w : World) : World :=
  let (s, event) := _commit_pending_tool_call_locked (session w) in
  let w := wake event (with_session s w) in
  if streamed then begin_and_offer mono t turn false w else run_turn t turn (client s) w.

(** ** The ends of a turn *)

Definition commits (t : nat) (turn : Z) (s : Session) (w : World) : World :=
  let w := if turn_counter s =? turn_counter (session w) then w else with_committed (committed w ++ [(t, turn)]) w in
  with_session s w.

(** [_disconnect_session_client]: up to the wait for the idle reader *)
Definition drop_client (t : nat) (turn : Z) (c : option nat) (w : World) : World :=
  let (w, p) := pause_idle_reader w in set_pc t (Dropping turn c p) w.
(** The client is dropped, and waited for. *)
Definition disconnect (t : nat) (c : option nat) (w : World) : World :=
  let '(s, event, dropped) := _disconnect_session_client c (session w) in
  let w := wake event (with_session s w) in
  match dropped with Some c => with_torn (torn w ++ [(t, c)]) w | None => w end.

(** The teardown of a turn that holds the lock; a committed background turn leaves the
    registry just before. *)
Definition close_turn (now : Z) (t : nat) (j : Job) (turn : Z) (state : string) (w : World) : World :=
  match j with
  | Answer false _ _ => set_pc t Done (resume_idle_reader (release w))
  | Fresh Connected _ _ _ _ => set_pc t Done (release w)
  | _ =>
      let (s, finished) := _finish_active_response now (response_id turn) state (session w) in
      let w := with_session s w in
      let w := if finished then resume_idle_reader w else w in
      let w := match j with
               | Fresh InBackground _ _ _ _ =>
                   if bool_decide (state = "failed") then w
                   else with_background_runs (_drop_background_run (response_id turn) (background_runs w)) w
               | _ => w
               end in
      set_pc t Done (release w)
  end.

(** [_capture_pending_tool_questions] on a chunk of the Claude backend; [ts] is the time of the event
    it may be for the registry of running tasks. *)
Definition read_chunk (mono : Z) (chunk : Json) (ts : string) (s : Session) : Session :=
  let s := set_active_last_progress_at (Some mono) s in
  set_outbox (apply_turn_task_chunk chunk ts (outbox s)) s.

(** The SDK stream broke ([except Exception] of the Claude client), and the [finally] there *)
Definition stream_over (broken : bool) (s : Session) : Session :=
  let s := if broken then reset_active_tasks (set_client None s) else s in set_stream_break None s.

Definition prompt_of (j : Job) : option string :=
  match j with Fresh _ _ _ _ prompt => Some prompt | Answer _ _ _ => None end.

(** A streamed turn ends with what its generator left; the frames of the route follow. *)
Definition stream_ends (now : Z) (t : nat) (j : Job) (turn : Z) (c : option nat) (broken found store : bool) (r : StreamResult)
    (w : World) : World :=
  let w := on_session (stream_over broken) w in
  let '(_, r, s) := after_stream now found store usage (prompt_of j) (response_id turn) turn r (session w) in
  let w := commits t turn s w in
  if sr_success r || sr_interrupted r
  then set_pc t (Closing turn (if sr_success r then "completed" else "incomplete")) w
  else drop_client t turn c w.

(** The reader of the response is gone: [success] tells whether the generator had set it. *)
Definition stream_cut (t : nat) (turn : Z) (c : option nat) (success : bool) (w : World) : World :=
  let w := on_session (stream_over false) w in
  if success then set_pc t (Closing turn "completed") w else drop_client t turn c w.

(** A background turn ends; [None] is an exception, or its time limit ([timed_out]).  (A cancellation, at
    shutdown, is left out.) *)
Definition background_ends (now : Z) (t : nat) (prompt : string) (turn : Z) (c : option nat) (timed_out broken found store : bool)
    (collected : option Collected) (w : World) : World :=
  let w := on_session (stream_over broken) w in
  let fail code message w :=
    drop_client t turn c (with_background_runs (background_fail (response_id turn) code message (background_runs w)) w) in
  match collected with
  | None =>
      if timed_out then fail "timeout" "Background response timed out" w
      else fail "server_error" "Internal server error" w
  | Some collected =>
      match finish_background now found store usage prompt (response_id turn) turn collected (session w) with
      | (s, BFailed code message) => fail code message (with_session s w)
      | (s, BCommitted state _) =>
          set_pc t (Closing turn state) (commits t turn s w)
      end
  end.

(** A connected turn ends: the lock is released, then a failure drops the client. *)
Definition connected_ends (now : Z) (t : nat) (prompt : string) (turn : Z) (c : option nat) (broken found store : bool)
    (collected : option Collected) (w : World) : World :=
  let w := on_session (stream_over broken) w in
  let fail w := let (w, p) := pause_idle_reader (release w) in set_pc t (LateDropping c p) w in
  match collected with
  | None => fail w
  | Some collected =>
      match finish_plain now found store usage prompt (response_id turn) turn collected (session w) with
      | (s, Err _) => fail (with_session s w)
      | (s, Ok r) => set_pc t (if bool_decide (r_status r = "requires_action") then Done else Logging) (release (commits t turn s w))
      end
  end.

(** A continuation that is not streamed ends; a failure drops the client under the lock. *)
Definition continuation_ends (now : Z) (t : nat) (j : Job) (turn : Z) (c : option nat) (broken found store : bool)
    (collected : option Collected) (w : World) : World :=
  let w := on_session (fun s => if broken then reset_active_tasks (set_client None s) else s) w in
  match collected with
  | None => drop_client t turn c w
  | Some collected =>
      match finish_continuation now found store usage (response_id turn) turn collected (session w) with
      | (s, Err _) => drop_client t turn c (with_session s w)
      | (s, Ok _) => close_turn now t j turn "completed" (commits t turn s w)
      end
  end.

(** ** Events *)

(** How what a turn reads ends *)
Inductive End :=
| StreamEnds (broken found store : bool) (r : StreamResult)
| StreamCut (success : bool)
| CollectEnds (timed_out broken found store : bool) (collected : option Collected).

Inductive Event :=
| Request (j : Job)
| TakeLock (t : nat) (now : Z)
| ClientReady (t : nat) (mono : Z) (created : nat)
| ClientFails (t : nat)
| Drained (t : nat) (mono : Z)
| Runs (t : nat)
| Swept (t : nat)
| Paused (t : nat)
| Ends (t : nat) (now : Z) (e : End)
| Dropped (t : nat)
| Disconnected (t : nat) (now : Z)
| Closes (t : nat) (now : Z)
| Logged (t : nat)
| Abandoned (t : nat)
| ReaderEnds (p : nat) (ended : bool)
| Polled
| Parks (tool call : string) (input approval : Json)
| Answered (e : nat)
| TimesOut (e : nat)
| Cancel (turn : Z) (registered can : bool)
| Interrupted (i : nat) (ok : bool)
| Reads (t : nat) (mono : Z) (chunk : Json) (ts : string).

Definition free (p : option nat) (w : World) : bool :=
  match p with Some p => negb (bool_decide (is_Some (readers w !! p))) | None => true end.

(** A turn with a prompt is refused while a call waits; the others start. *)
Definition request (j : Job) (w : World) : World :=
  let p := match j with
           | Fresh _ _ _ _ _ => match _reject_while_human_decision_pending (session w) with Some _ => Done | None => Waiting end
           | Answer _ _ _ => Waiting
           end in
  with_next_id (S (next_id w)) (with_tasks (<[next_id w := MkTask j p]> (tasks w)) w).

Definition turn_ends (t : nat) (now : Z) (j : Job) (turn : Z) (c : option nat) (e : End) (w : World) : option World :=
  match j, e with
  | (Fresh Streamed _ _ _ _ | Answer true _ _), StreamEnds broken found store r =>
      Some (stream_ends now t j turn c broken found store r w)
  | (Fresh Streamed _ _ _ _ | Answer true _ _), StreamCut success => Some (stream_cut t turn c success w)
  | Fresh InBackground _ _ _ prompt, CollectEnds timed_out broken found store collected =>
      Some (background_ends now t prompt turn c timed_out broken found store collected w)
  | Fresh Connected _ _ _ prompt, CollectEnds timed_out broken found store collected =>
      Some (connected_ends now t prompt turn c broken found store collected w)
  | Answer false _ _, CollectEnds timed_out broken found store collected =>
      Some (continuation_ends now t j turn c broken found store collected w)
  | _, _ => None
  end.

(** Something goes away without cleaning up: a streamed response whose body never ran, and a
    request that is cancelled while its client starts. *)
Definition abandoned (t : nat) (j : Job) (p : Pc) (w : World) : option World :=
  match j, p with
  | (Fresh Streamed _ _ _ _ | Answer true _ _), Offered turn _ => Some (set_pc t (Lost turn true) w)
  | (Fresh Streamed _ _ _ _ | Fresh InBackground _ _ _ _ | Answer _ _ _), (Starting turn | Draining turn) => Some (set_pc t (Lost turn false) w)
  | Fresh Connected _ _ _ _, Starting _ => Some (set_pc t Done (release w))
  | _, _ => None
  end.

Definition step_task (t : nat) (w : World) (f : Job -> Pc -> option World) : option World :=
  match tasks w !! t with Some k => f (job k) (pc k) | None => None end.

Definition exec (w : World) (e : Event) : option World :=
  match e with
  | Request j => Some (request j w)
  | TakeLock t now =>
      step_task t w (fun j p =>
        match p, lock w with
        | Waiting, None => Some (take_lock now t j w)
        | _, _ => None
        end)
  | ClientReady t mono created =>
      step_task t w (fun j p => match p with Starting turn => Some (client_ready mono t j turn created w) | _ => None end)
  | ClientFails t =>
      step_task t w (fun j p => match p with Starting _ => Some (set_pc t Done (release w)) | _ => None end)
  | Drained t mono =>
      step_task t w (fun j p =>
        match j, p with Answer streamed _ _, Draining turn => Some (answer_drained mono t streamed turn w) | _, _ => None end)
  | Runs t =>
      step_task t w (fun j p =>
        match p with
        | Offered turn c => Some (run_turn t turn (match j with Fresh _ _ _ _ _ => client (session w) | Answer _ _ _ => c end) w)
        | _ => None
        end)
  | Swept t => step_task t w (fun j p => match p with Sweeping turn c => Some (pause_and_read t turn c w) | _ => None end)
  | Paused t =>
      step_task t w (fun j p =>
        match p with
        | Pausing turn c r => if free (Some r) w then Some (start_reading t turn c (reader_paused r w)) else None
        | _ => None
        end)
  | Ends t now e => step_task t w (fun j p => match p with Reading turn c => turn_ends t now j turn c e w | _ => None end)
  | Dropped t =>
      step_task t w (fun j p =>
        match p with
        | Dropping turn c r => if free r w then Some (set_pc t (Disconnecting turn) (disconnect t c w)) else None
        | LateDropping c r => if free r w then Some (set_pc t LateDisconnecting (disconnect t c w)) else None
        | _ => None
        end)
  | Disconnected t now =>
      step_task t w (fun j p =>
        match p with
        | Disconnecting turn => Some (close_turn now t j turn "failed" w)
        | LateDisconnecting => Some (set_pc t Done w)
        | _ => None
        end)
  | Closes t now => step_task t w (fun j p => match p with Closing turn state => Some (close_turn now t j turn state w) | _ => None end)
  | Logged t => step_task t w (fun j p => match p with Logging => Some (set_pc t Done (resume_idle_reader w)) | _ => None end)
  | Abandoned t => step_task t w (fun j p => abandoned t j p w)
  | ReaderEnds p ended => match readers w !! p with Some _ => Some (reader_ends p ended w) | None => None end
  | Polled => Some (resume_idle_reader_between_turns w)
  | Parks tool call input approval =>
      Some (match park tool call input approval (next_id w) (session w) with
            | Some s => with_next_id (S (next_id w)) (with_hooks (<[next_id w := MkHook call false]> (hooks w)) (with_session s w))
            | None => w
            end)
  | Answered e =>
      match hooks w !! e with
      | Some (MkHook call true) =>
          let (s, answer) := unpark true e (session w) in
          Some (with_answers (answers w ++ [(call, default "" answer)]) (with_hooks (delete e (hooks w)) (with_session s w)))
      | _ => None
      end
  | TimesOut e =>
      match hooks w !! e with
      | Some _ => Some (with_hooks (delete e (hooks w)) (with_session (fst (unpark false e (session w))) w))
      | None => None
      end
  | Cancel turn registered can =>
      let (s, r) := cancel_response registered can (response_id turn) turn (session w) in
      let w := with_session s w in
      Some (match r with Ok (Some c) => with_interrupting (interrupting w ++ [(response_id turn, c)]) w | _ => w end)
  | Interrupted i ok =>
      match interrupting w !! i with
      | Some (id, c) =>
          let w := with_interrupting (take i (interrupting w) ++ drop (S i) (interrupting w)) w in
          Some (if ok then with_interrupts (interrupts w ++ [(id, c)]) w else on_session (cancel_failed id) w)
      | None => None
      end
  | Reads t mono chunk ts =>
      step_task t w (fun j p => match p with Reading turn c => Some (on_session (read_chunk mono chunk ts) w) | _ => None end)
  end.

Definition run (w : World) (l : list Event) : option World :=
  foldl (fun w e => match w with Some w => exec w e | None => None end) (Some w) l.

(** The route accepts answers only in settled worlds: a hook that was woken has gone on before the
    answer to a later call is. *)
Definition takes_answer (w : World) (e : Event) : bool :=
  match e with TakeLock t _ => match job <$> tasks w !! t with Some (Answer _ _ _) => true | _ => false end | _ => false end.
Fixpoint promptly (w : World) (l : list Event) : bool :=
  match l with
  | [] => true
  | e :: l => (negb (takes_answer w e) || settled w) && match exec w e with Some w => promptly w l | None => true end
  end.
End world.
