(* ===== verification/TurnLaws.v ===== *)
(** What holds of the turns of one session over whole runs ([TurnRace]): they are serial, a
    turn reads its client alone, an answer reaches the call it was given for, and whoever
    holds the session lock can give it back. *)

From S2P Require Import Prelude Json Outbox TurnState TurnRace.

(** ** Turns are serial *)

Section serial.
Context (session_id base : string) (usage : string -> Z * Z).
Notation response_id := (response_id session_id).

(** The turn of a task that holds the session lock *)
Definition holding (p : Pc) : option Z :=
  match p with
  | Starting n | Draining n | Offered n _ | Sweeping n _ | Pausing n _ _ | Reading n _ | Closing n _ | Dropping n _ _
  | Disconnecting n | Lost n _ => Some n
  | Waiting | Logging | LateDropping _ _ | LateDisconnecting | Done => None
  end.
(** Its response is the active one. *)
Definition publishes (j : Job) (p : Pc) : bool :=
  match j, p with
  | (Fresh Connected _ _ _ _ | Answer false _ _), _ => false
  | _, (Offered _ _ | Sweeping _ _ | Pausing _ _ _ | Reading _ _ | Closing _ _ | Dropping _ _ _ | Disconnecting _) => true
  | _, Lost _ b => b
  | _, _ => false
  end.
(** It has not been committed. *)
Definition undecided (p : Pc) : bool := match p with Closing _ _ => false | _ => true end.
Definition continues (j : Job) (n : Z) : Prop :=
  match j with Fresh _ false (Some p) _ _ => n = p + 1 | _ => True end.

Definition task_ok (w : World) (t : nat) (k : Task) : Prop :=
  match holding (pc k) with
  | Some n =>
      lock w = Some t
      /\ active_response_id (session w) = (if publishes (job k) (pc k) then Some (response_id n) else None)
      /\ (undecided (pc k) = true -> n = turn_counter (session w) + 1)
      /\ continues (job k) n
  | None => lock w <> Some t
  end.

Definition commit_ok (start : Z) (w : World) : Prop :=
  turn_counter (session w) = start + Z.of_nat (length (committed w))
  /\ forall i t n, committed w !! i = Some (t, n) -> n = start + 1 + Z.of_nat i /\ exists k, tasks w !! t = Some k /\ continues (job k) n.

Record serial (start : Z) (w : World) : Prop := {
  s_tasks : forall t k, tasks w !! t = Some k -> task_ok w t k;
  s_lock : forall t, lock w = Some t -> is_Some (tasks w !! t);
  s_idle : lock w = None -> active_response_id (session w) = None;
  s_commits : commit_ok start w;
  s_begins : refused_begins w = O;
  s_next : forall t, is_Some (tasks w !! t) -> (t < next_id w)%nat;
}.

(** What the invariant looks at besides the tasks *)
Definition frame (w : World) := (lock w, active_response_id (session w), turn_counter (session w), committed w, refused_begins w).

Lemma frame_inv w w' : frame w' = frame w ->
  lock w' = lock w /\ active_response_id (session w') = active_response_id (session w)
  /\ turn_counter (session w') = turn_counter (session w) /\ committed w' = committed w /\ refused_begins w' = refused_begins w.
Proof. unfold frame. by intros [= -> -> -> -> ->]. Qed.

Lemma task_ok_frame w w' t k : frame w' = frame w -> task_ok w t k -> task_ok w' t k.
Proof. unfold frame, task_ok. intros [= -> -> -> _ _]. done. Qed.

(** Nothing happens to the tasks. *)
Lemma serial_same start w w' : tasks w' = tasks w -> frame w' = frame w -> (next_id w <= next_id w')%nat -> serial start w -> serial start w'.
Proof.
  intros Ht Hf Hn [S1 S2 S3 [C1 C2] S5 S6]. pose proof (frame_inv _ _ Hf) as (E1 & E2 & E3 & E4 & E5). split.
  - intros t k. rewrite Ht. intros Hk. eapply task_ok_frame; [done|by apply S1].
  - intros t. rewrite E1, Ht. apply S2.
  - rewrite E1, E2. apply S3.
  - unfold commit_ok. rewrite E3, E4, Ht. done.
  - by rewrite E5.
  - intros t. rewrite Ht. intros H. specialize (S6 t H). lia.
Qed.

(** A task takes a step while no other task holds the lock. *)
Lemma serial_step start w w' t k p :
  tasks w !! t = Some k -> tasks w' = <[t := MkTask (job k) p]> (tasks w) -> (next_id w <= next_id w')%nat ->
  (lock w = Some t \/ lock w = None) ->
  task_ok w' t (MkTask (job k) p) -> (lock w' = Some t \/ lock w' = None /\ active_response_id (session w') = None) ->
  (turn_counter (session w'), committed w') = (turn_counter (session w), committed w)
  \/ (exists n, turn_counter (session w') = n /\ turn_counter (session w) + 1 = n /\ committed w' = committed w ++ [(t, n)] /\ continues (job k) n) ->
  refused_begins w' = refused_begins w ->
  serial start w -> serial start w'.
Proof.
  intros Hk Ht Hn Hl Hp Hl' Hc Hb [S1 S2 S3 [C1 C2] S5 S6].
  assert (forall t' k', tasks w' !! t' = Some k' -> t' = t /\ k' = MkTask (job k) p \/ t' <> t /\ tasks w !! t' = Some k') as Hlook.
  { intros t' k'. rewrite Ht, lookup_insert_Some. intros [[<- <-]|[? ?]]; [by left|right; done]. }
  split.
  - intros t' k' H. apply Hlook in H as [[-> ->]|[Hne H]]; [done|]. specialize (S1 t' k' H). unfold task_ok in *.
    destruct (holding (pc k')) as [n|].
    + destruct S1 as (S1 & _). destruct Hl as [Hl|Hl]; congruence.
    + destruct Hl' as [Hl1 | [Hl1 _]]; rewrite Hl1; [by intros [= ->]|done].
  - intros t' Hl1. rewrite Ht. destruct (decide (t' = t)) as [->|Hne]; [rewrite lookup_insert_eq; eauto|].
    destruct Hl' as [Hl'|[Hl' _]]; congruence.
  - intros Hnone. destruct Hl' as [Hl'|[_ Hl']]; congruence.
  - assert (forall i t' n, committed w !! i = Some (t', n) -> exists k', tasks w' !! t' = Some k' /\ continues (job k') n) as Hcont.
    { intros i t' n Hi. destruct (C2 i t' n Hi) as (_ & k' & Hk' & Hc'). rewrite Ht. destruct (decide (t' = t)) as [->|Hne].
      - rewrite lookup_insert_eq. eexists; split; [done|]. cbn. rewrite Hk in Hk'. by injection Hk' as <-.
      - rewrite lookup_insert_ne by done. eauto. }
    destruct Hc as [[= E1 E2]|(n & E1 & E0 & E2 & Hj)].
    + split; [by rewrite E1, E2|]. intros i t' n. rewrite E2. intros Hi. split; [by apply (proj1 (C2 i t' n Hi))|by apply (Hcont i t' n)].
    + split; [rewrite E1, E2, length_app; simpl; lia|]. intros i t' n'. rewrite E2, lookup_app_Some, list_lookup_singleton_Some.
      intros [Hi|(Hle & Hi0 & [= <- <-])]; [split; [by apply (proj1 (C2 i t' n' Hi))|by apply (Hcont i t' n')]|]. split; [lia|].
      rewrite Ht, lookup_insert_eq. eexists; split; [done|]. exact Hj.
  - congruence.
  - intros t' [k' Hk']. apply Hlook in Hk' as [[-> _]|[_ Hk']]; [specialize (S6 t ltac:(eauto)); lia|specialize (S6 t' ltac:(eauto)); lia].
Qed.

(** A task that does not hold the lock takes a step, and goes on without it. *)
Lemma serial_aside start w w' t k p :
  tasks w !! t = Some k -> tasks w' = <[t := MkTask (job k) p]> (tasks w) -> (next_id w <= next_id w')%nat -> frame w' = frame w ->
  holding (pc k) = None -> holding p = None -> serial start w -> serial start w'.
Proof.
  intros Hk Ht Hn Hf Hh Hp [S1 S2 S3 [C1 C2] S5 S6]. pose proof (frame_inv _ _ Hf) as (E1 & E2 & E3 & E4 & E5).
  assert (forall t' k', tasks w' !! t' = Some k' -> exists k0, tasks w !! t' = Some k0 /\ job k0 = job k'
    /\ (k' = k0 \/ holding (pc k0) = None /\ holding (pc k') = None)) as Hlook.
  { intros t' k'. rewrite Ht, lookup_insert_Some. intros [[<- <-]|[? ?]]; [exists k|exists k']; auto. }
  split.
  - intros t' k' H. destruct (Hlook t' k' H) as (k0 & H0 & Hj & Hh'). eapply task_ok_frame; [done|]. specialize (S1 t' k0 H0).
    destruct Hh' as [->|[Hh0 Hh']]; [done|]. unfold task_ok in *. by rewrite Hh'; rewrite Hh0 in S1.
  - intros t'. rewrite E1, Ht. intros Hl. destruct (decide (t' = t)) as [->|]; [rewrite lookup_insert_eq; eauto|rewrite lookup_insert_ne by done; by apply S2].
  - rewrite E1, E2. apply S3.
  - split; [by rewrite E3, E4|]. intros i t' n. rewrite E4. intros Hi. split; [by apply (proj1 (C2 i t' n Hi))|].
    destruct (C2 i t' n Hi) as (_ & k' & Hk' & Hc'). rewrite Ht. destruct (decide (t' = t)) as [->|Hne].
    + rewrite lookup_insert_eq. eexists; split; [done|]. cbn. rewrite Hk in Hk'. by injection Hk' as <-.
    + rewrite lookup_insert_ne by done. eauto.
  - by rewrite E5.
  - intros t' [k' Hk']. destruct (Hlook t' k' Hk') as (k0 & H0 & _). specialize (S6 t' ltac:(eauto)). lia.
Qed.

(** Steps beside the tasks *)
Definition beside (w w' : World) : Prop := tasks w' = tasks w /\ frame w' = frame w /\ (next_id w <= next_id w')%nat.

Lemma beside_trans w1 w2 w3 : beside w1 w2 -> beside w2 w3 -> beside w1 w3.
Proof. intros (A1 & A2 & A3) (B1 & B2 & B3). split; [congruence|]. split; [congruence|lia]. Qed.
Lemma beside_session f w : active_response_id (f (session w)) = active_response_id (session w) ->
  turn_counter (f (session w)) = turn_counter (session w) -> beside w (on_session f w).
Proof. intros H1 H2. split; [done|]. unfold frame, on_session. cbn. by rewrite H1, H2. Qed.
Lemma beside_resume w : beside w (resume_idle_reader w).
Proof.
  unfold resume_idle_reader. destruct (may_resume _ _); [|done]. destruct (client (session w)); [|done].
  split; [done|]. split; [done|]. cbn. lia.
Qed.
Lemma beside_pause w : beside w (fst (pause_idle_reader w)).
Proof. unfold pause_idle_reader. by destruct (running w). Qed.
Lemma beside_paused p w : beside w (reader_paused p w).
Proof. unfold reader_paused. by destruct (bool_decide _). Qed.
Lemma beside_wake e w : beside w (wake e w).
Proof. by destruct e. Qed.
Lemma beside_reader_ends p b w : beside w (reader_ends p b w).
Proof. unfold reader_ends. destruct b; (eapply beside_trans; [|apply beside_paused]); done. Qed.
Lemma disconnect_session_same c s :
  let s' := fst (fst (_disconnect_session_client c s)) in
  active_response_id s' = active_response_id s /\ turn_counter s' = turn_counter s.
Proof.
  unfold _disconnect_session_client. destruct (_clear_stale_pending_tool_call s) as [s1 e] eqn:E.
  assert (active_response_id s1 = active_response_id s /\ turn_counter s1 = turn_counter s) as [E1 E2]
    by (unfold _clear_stale_pending_tool_call in E; destruct (pending_tool_call s), (input_event s); by injection E as <- <-).
  destruct (match c with Some c => _ | None => _ end) as [c'|]; [|done]. cbn.
  destruct (bool_decide _); cbn; [done|]. by destruct (client s1).
Qed.
Lemma beside_disconnect t c w : beside w (disconnect t c w).
Proof.
  unfold disconnect. pose proof (disconnect_session_same c (session w)) as [E1 E2].
  destruct (_disconnect_session_client c (session w)) as [[s e] d]. cbn in E1, E2.
  assert (beside w (wake e (with_session s w))) as H by (eapply beside_trans; [|apply beside_wake]; split; [done|]; unfold frame; cbn; by rewrite E1, E2).
  by destruct d.
Qed.
Lemma beside_stream_over b w : beside w (on_session (stream_over b) w).
Proof. by destruct b. Qed.
Lemma beside_runs b w : beside w (with_background_runs b w).
Proof. done. Qed.

Lemma set_pc_tasks t p w k : tasks w !! t = Some k -> tasks (set_pc t p w) = <[t := MkTask (job k) p]> (tasks w).
Proof. intros H. unfold set_pc. cbn. apply map_eq. intros i. destruct (decide (i = t)) as [->|Hne].
  - by rewrite lookup_alter_eq, H, lookup_insert_eq.
  - by rewrite lookup_alter_ne, lookup_insert_ne by done.
Qed.

(** A turn goes on, under the lock. *)
Lemma serial_move start w w1 t k p n :
  tasks w !! t = Some k -> beside w w1 -> holding (pc k) = Some n -> holding p = Some n ->
  publishes (job k) p = publishes (job k) (pc k) -> undecided (pc k) = true -> serial start w -> serial start (set_pc t p w1).
Proof.
  intros Hk (B1 & B2 & B3) Hh Hp Hpub Hu S. pose proof (frame_inv _ _ B2) as (E1 & E2 & E3 & E4 & E5).
  pose proof (s_tasks _ _ S t k Hk) as Ht. unfold task_ok in Ht. rewrite Hh in Ht. destruct Ht as (L & A & U & C).
  eapply (serial_step start w _ t k p); try done.
  - rewrite (set_pc_tasks _ _ _ k) by (by rewrite B1). by rewrite B1.
  - by left.
  - unfold task_ok. cbn [pc job]. rewrite Hp. cbn. rewrite E1, E2, E3, Hpub. split; [done|]. split; [done|]. split; [|done].
    intros _. by apply U.
  - left. cbn. by rewrite E1.
  - left. cbn. by rewrite E3, E4.
Qed.

(** A turn ends, and gives the lock back with the response no longer active. *)
Lemma serial_release start w w1 t k p n :
  tasks w !! t = Some k -> tasks w1 = tasks w -> (next_id w <= next_id w1)%nat -> holding (pc k) = Some n -> holding p = None ->
  lock w1 = None -> active_response_id (session w1) = None -> turn_counter (session w1) = turn_counter (session w) ->
  committed w1 = committed w -> refused_begins w1 = refused_begins w -> serial start w -> serial start (set_pc t p w1).
Proof.
  intros Hk Ht1 Hn Hh Hp L A C M R S. pose proof (s_tasks _ _ S t k Hk) as Ht. unfold task_ok in Ht. rewrite Hh in Ht.
  eapply (serial_step start w _ t k p); try done.
  - rewrite (set_pc_tasks _ _ _ k) by (by rewrite Ht1). by rewrite Ht1.
  - left. apply Ht.
  - unfold task_ok. cbn [pc job]. rewrite Hp. cbn. by rewrite L.
  - right. cbn. done.
  - left. cbn. by rewrite C, M.
Qed.

(** The slot of a decision *)
Definition slot (s : Session) := (pending_tool_call s, input_event s, input_response s).

(** What the ends of a turn do to the session *)
Definition advances (turn : Z) (s s' : Session) : Prop :=
  (active_response_id s' = active_response_id s /\ slot s' = slot s) /\ (turn_counter s' = turn_counter s \/ turn_counter s' = turn).

Lemma advances_record turn n r store s s' : advances turn s s' -> advances turn s (_record_turn_response n r store s').
Proof. by destruct store. Qed.
Lemma advances_messages turn now l s s' : advances turn s s' -> advances turn s (add_messages now l s').
Proof. done. Qed.
Lemma advances_user turn now prompt s s' : advances turn s s' -> advances turn s (add_user now prompt s').
Proof. by destruct prompt. Qed.
Lemma advances_assistant turn now found m s s' : advances turn s s' -> advances turn s (add_assistant_response now found m s').
Proof. by destruct found. Qed.
Lemma advances_counter turn s : advances turn s (set_turn_counter turn s).
Proof. split; [done|]. by right. Qed.
Lemma advances_refl turn s : advances turn s s.
Proof. split; [done|]. by left. Qed.
Hint Resolve advances_record advances_messages advances_user advances_assistant advances_counter advances_refl : turns.

Lemma after_stream_advances now found store prompt id turn r s :
  advances turn s (snd (after_stream now found store usage prompt id turn r s)).
Proof.
  unfold after_stream. destruct (pending_tool_call s) as [tc|]; cbn; [auto with turns|].
  destruct (sr_interrupted r); [cbn; destruct (sr_response r); auto with turns|].
  destruct (sr_empty r && _); [cbn; auto with turns|]. destruct (sr_success r); cbn; unfold _record_stream_turn_response; auto with turns.
Qed.
Lemma finish_background_advances now found store prompt id turn c s :
  advances turn s (fst (finish_background now found store usage prompt id turn c s)).
Proof.
  unfold finish_background. destruct (co_interrupted c); [cbn; auto with turns|]. destruct (co_error c) as [[]|]; [cbn; auto with turns|].
  destruct (pending_tool_call s); [cbn; auto with turns|]. destruct (_build_session_assistant_message _ _); cbn; auto with turns.
Qed.
Lemma finish_plain_advances now found store prompt id turn c s : advances turn s (fst (finish_plain now found store usage prompt id turn c s)).
Proof.
  unfold finish_plain. destruct (co_error c) as [[]|]; [cbn; auto with turns|].
  destruct (pending_tool_call s); [cbn; auto with turns|]. destruct (_build_session_assistant_message _ _); cbn; auto with turns.
Qed.
Lemma finish_continuation_advances now found store id turn c s :
  advances turn s (fst (finish_continuation now found store usage id turn c s)).
Proof.
  unfold finish_continuation. destruct (pending_tool_call s); [cbn; auto with turns|]. destruct (co_error c) as [[]|]; [cbn; auto with turns|].
  destruct (_build_session_assistant_message _ _); cbn; auto with turns.
Qed.

(** A turn is committed, or ends without. *)
Lemma commits_counts t n s w : advances n (session w) s -> n = turn_counter (session w) + 1 ->
  turn_counter (session (commits t n s w)) = turn_counter (session w) /\ committed (commits t n s w) = committed w
  \/ turn_counter (session (commits t n s w)) = n /\ committed (commits t n s w) = committed w ++ [(t, n)].
Proof.
  intros [_ Hc] Hn. unfold commits. cbn. destruct (turn_counter s =? turn_counter (session w)) eqn:E; cbn; b2p; [by left|].
  right. split; [|done]. destruct Hc; congruence.
Qed.

Lemma serial_committed start w w0 t k n s p (wf : World -> World) :
  tasks w !! t = Some k -> beside w w0 -> holding (pc k) = Some n -> undecided (pc k) = true -> advances n (session w0) s ->
  (forall w, tasks (wf w) = tasks w /\ next_id w = next_id (wf w) /\ committed (wf w) = committed w /\ refused_begins (wf w) = refused_begins w
     /\ session (wf w) = session w) ->
  (lock (wf (commits t n s w0)) = lock w /\ holding p = Some n /\ undecided p = false /\ publishes (job k) p = publishes (job k) (pc k)
   \/ lock (wf (commits t n s w0)) = None /\ holding p = None /\ publishes (job k) (pc k) = false) ->
  serial start w -> serial start (set_pc t p (wf (commits t n s w0))).
Proof.
  intros Hk (B1 & B2 & B3) Hh Hu Ha Hwf Hp S. destruct (Hwf (commits t n s w0)) as (F1 & F2 & F3 & F4 & F5).
  apply frame_inv in B2 as (E1 & E2 & E3 & E4 & E5).
  pose proof (s_tasks _ _ S t k Hk) as Ht. unfold task_ok in Ht. rewrite Hh in Ht. destruct Ht as (L & A & U & C). specialize (U Hu).
  assert (tasks (commits t n s w0) = tasks w /\ next_id (commits t n s w0) = next_id w0 /\ refused_begins (commits t n s w0) = refused_begins w
    /\ session (commits t n s w0) = s) as (G1 & G2 & G3 & G4) by (unfold commits; destruct (_ =? _); cbn; by rewrite B1, E5).
  pose proof (commits_counts t n s w0 Ha ltac:(by rewrite E3)) as Hc. rewrite E3, E4, G4 in Hc.
  assert (active_response_id s = active_response_id (session w)) as As by (destruct Ha as [[Ha _] _]; by rewrite Ha, E2).
  eapply (serial_step start w _ t k p); try done.
  - rewrite (set_pc_tasks _ _ _ k) by (by rewrite F1, G1). by rewrite F1, G1.
  - cbn. rewrite <- F2, G2. done.
  - by left.
  - unfold task_ok. cbn [pc job]. destruct Hp as [(H1 & H2 & H3 & H4)|(H1 & H2 & H3)].
    + rewrite H2. cbn. rewrite H1, F5, G4, As, H4, H3. done.
    + rewrite H2. cbn. by rewrite H1.
  - cbn. rewrite F5, G4, As. destruct Hp as [(H1 & _)|(H1 & _ & H3)]; [left; by rewrite H1|right]. rewrite A, H3. done.
  - cbn. rewrite F3, F5, G4. destruct Hc as [[-> ->]|[-> ->]]; [by left|right; exists n; done].
  - cbn. rewrite F4, G3. done.
Qed.

Lemma after_stream_uncommitted now found store prompt id turn r s :
  let '(_, r', s') := after_stream now found store usage prompt id turn r s in
  sr_success r' || sr_interrupted r' = false -> s' = s.
Proof.
  unfold after_stream. destruct (pending_tool_call s) as [tc|]; cbn; [done|]. destruct (sr_interrupted r) eqn:Ei; [by rewrite Ei, orb_true_r|].
  destruct (sr_empty r && _); [done|]. destruct (sr_success r) eqn:Es; [by rewrite Es|done].
Qed.
Lemma finish_plain_uncommitted now found store prompt id turn c s e :
  snd (finish_plain now found store usage prompt id turn c s) = Err e -> fst (finish_plain now found store usage prompt id turn c s) = s.
Proof.
  unfold finish_plain. destruct (co_error c) as [[]|]; [done|]. destruct (pending_tool_call s); [done|].
  by destruct (_build_session_assistant_message _ _).
Qed.
Lemma finish_background_uncommitted now found store prompt id turn c s a b :
  snd (finish_background now found store usage prompt id turn c s) = BFailed a b -> fst (finish_background now found store usage prompt id turn c s) = s.
Proof.
  unfold finish_background. destruct (co_interrupted c); [done|]. destruct (co_error c) as [[]|]; [done|]. destruct (pending_tool_call s); [done|].
  by destruct (_build_session_assistant_message _ _).
Qed.
Lemma finish_continuation_uncommitted now found store id turn c s e :
  snd (finish_continuation now found store usage id turn c s) = Err e -> fst (finish_continuation now found store usage id turn c s) = s.
Proof.
  unfold finish_continuation. destruct (pending_tool_call s); [done|]. destruct (co_error c) as [[]|]; [done|].
  by destruct (_build_session_assistant_message _ _).
Qed.

Lemma serial_reads start w w0 t k n c :
  tasks w !! t = Some k -> beside w w0 -> holding (pc k) = Some n -> undecided (pc k) = true ->
  publishes (job k) (Reading n c) = publishes (job k) (pc k) -> serial start w -> serial start (start_reading t n c w0).
Proof.
  intros Hk Hb Hh Hu Hp S. unfold start_reading. eapply serial_move; try done. eapply beside_trans; [exact Hb|].
  apply beside_session; by destruct (job <$> tasks w0 !! t) as [[]|].
Qed.
Lemma serial_pauses start w w0 t k n c :
  tasks w !! t = Some k -> beside w w0 -> holding (pc k) = Some n -> undecided (pc k) = true ->
  publishes (job k) (Reading n c) = publishes (job k) (pc k) -> serial start w -> serial start (pause_and_read t n c w0).
Proof.
  intros Hk Hb Hh Hu Hp S. unfold pause_and_read. pose proof (beside_pause w0) as Hb2. destruct (pause_idle_reader w0) as [w1 [p|]]; cbn in Hb2.
  - eapply serial_move; try done. by eapply beside_trans.
  - eapply serial_reads; try done. by eapply beside_trans.
Qed.
Lemma serial_runs start w w0 t k n c :
  tasks w !! t = Some k -> beside w w0 -> holding (pc k) = Some n -> undecided (pc k) = true ->
  publishes (job k) (Reading n c) = publishes (job k) (pc k) -> serial start w -> serial start (run_turn t n c w0).
Proof.
  intros Hk Hb Hh Hu Hp S. unfold run_turn. destruct Hb as (B1 & B2 & B3). rewrite B1, Hk. cbn.
  destruct (job k) eqn:Ej; [|by eapply serial_pauses; rewrite ?Ej]. destruct (running w0); [by eapply serial_pauses; rewrite ?Ej|].
  eapply serial_move; rewrite ?Ej; try done.
Qed.
Lemma serial_drops start w w0 t k n c :
  tasks w !! t = Some k -> beside w w0 -> pc k = Reading n c -> serial start w -> serial start (drop_client t n c w0).
Proof.
  intros Hk Hb Hpc S. unfold drop_client. pose proof (beside_pause w0) as Hb2. destruct (pause_idle_reader w0) as [w1 p]; cbn in Hb2.
  eapply serial_move; rewrite ?Hpc; try done. by eapply beside_trans.
Qed.

Lemma serial_begins start w w0 mono t k n registers :
  tasks w !! t = Some k -> beside w w0 -> holding (pc k) = Some n -> undecided (pc k) = true ->
  publishes (job k) (pc k) = false -> publishes (job k) (Offered n None) = true -> serial start w ->
  serial start (begin_and_offer session_id mono t n registers w0).
Proof.
  intros Hk (B1 & B2 & B3) Hh Hu Hp1 Hp2 S. apply frame_inv in B2 as (E1 & E2 & E3 & E4 & E5).
  pose proof (s_tasks _ _ S t k Hk) as Ht. unfold task_ok in Ht. rewrite Hh, Hp1 in Ht. destruct Ht as (L & A & U & C).
  unfold begin_and_offer, _begin_active_response. rewrite E2, A.
  set (w1 := with_session _ w0). set (w2 := if registers then _ else w1).
  assert (tasks w2 = tasks w /\ next_id w2 = next_id w0 /\ lock w2 = lock w /\ committed w2 = committed w /\ refused_begins w2 = refused_begins w
    /\ session w2 = session w1) as (G1 & G2 & G3 & G4 & G5 & G6) by (subst w1 w2; destruct registers; cbn; done).
  eapply (serial_step start w _ t k); try done.
  - rewrite (set_pc_tasks _ _ _ k) by (by rewrite G1). by rewrite G1.
  - cbn. by rewrite G2.
  - by left.
  - unfold task_ok. cbn [pc job holding]. cbn. rewrite G3, G6. cbn. rewrite E3. split; [done|]. split; [|split; [|done]].
    + by destruct (job k) as [[]|[]].
    + intros _. by apply U.
  - left. cbn. by rewrite G3.
  - left. cbn. rewrite G6, G4. cbn. by rewrite E3.
Qed.

Lemma serial_closes start w w0 now t k n j state : job k = j ->
  tasks w !! t = Some k -> tasks w0 = tasks w -> (next_id w <= next_id w0)%nat -> lock w0 = lock w ->
  active_response_id (session w0) = active_response_id (session w) -> turn_counter (session w0) = turn_counter (session w) ->
  committed w0 = committed w -> refused_begins w0 = refused_begins w ->
  holding (pc k) = Some n -> (publishes j (pc k) = false \/ publishes j (pc k) = true /\ publishes j (Closing n state) = true) ->
  (publishes j (Closing n state) = true -> publishes j (pc k) = true) -> serial start w ->
  serial start (close_turn session_id now t j n state w0).
Proof.
  intros Hj Hk B1 B3 E1 E2 E3 E4 E5 Hh Hp Hpc S.
  pose proof (s_tasks _ _ S t k Hk) as Ht. unfold task_ok in Ht. rewrite Hh, Hj in Ht. destruct Ht as (L & A & U & C).
  assert (forall w1, beside w0 w1 -> active_response_id (session w1) = None -> serial start (set_pc t Done (release w1))) as K.
  { intros w1 (F1 & F2 & F3) Ha. apply frame_inv in F2 as (G1 & G2 & G3 & G4 & G5).
    eapply serial_release; try done; cbn; try lia; congruence. }
  assert (forall w1, tasks w1 = tasks w0 -> next_id w1 = next_id w0 -> active_response_id (session w1) = None -> turn_counter (session w1) = turn_counter (session w0)
    -> committed w1 = committed w0 -> refused_begins w1 = refused_begins w0 -> serial start (set_pc t Done (release w1))) as K2.
  { intros w1 F1 F2 G2 G3 G4 G5. eapply serial_release; try done; cbn; try lia; congruence. }
  unfold close_turn. destruct (publishes j (Closing n state)) eqn:Ep.
  - rewrite (Hpc eq_refl) in A.
    unfold _finish_active_response. rewrite E2, A, bool_decide_true by done.
    set (s1 := set_active_done true _). set (w1 := resume_idle_reader (with_session s1 w0)).
    assert (beside (with_session s1 w0) w1) as (F1 & F2 & F3) by apply beside_resume. apply frame_inv in F2 as (G1 & G2 & G3 & G4 & G5).
    assert (forall w2, tasks w2 = tasks w1 -> next_id w2 = next_id w1 -> frame w2 = frame w1 -> serial start (set_pc t Done (release w2))) as K3.
    { intros w2 I1 I2 I3. apply frame_inv in I3 as (J1 & J2 & J3 & J4 & J5). eapply serial_release; try done; cbn.
      - rewrite I1, F1. cbn. done.
      - rewrite I2. cbn in F3. lia.
      - by rewrite J2, G2.
      - rewrite J3, G3. cbn. congruence.
      - rewrite J4, G4. cbn. congruence.
      - rewrite J5, G5. cbn. congruence. }
    destruct j as [[]|[]]; try done; [by apply K3| |by apply K3]. destruct (bool_decide _); by apply K3.
  - destruct j as [[]|[]]; try done.
    + apply K2; try done. rewrite E2, A. by destruct Hp as [->|[_ ?]].
    + assert (active_response_id (session w0) = None) as Ha by (rewrite E2, A; by destruct Hp as [->|[_ ?]]).
      pose proof (beside_resume (release w0)) as (F1 & F2 & F3). apply frame_inv in F2 as (G1 & G2 & G3 & G4 & G5).
      eapply serial_release; try done; cbn in *; try lia; congruence.
Qed.

(** The ends of a turn that reads *)
Section ends.
Context (start : Z) (w : World) (t : nat) (k : Task) (turn : Z) (c : option nat).
Context (Hk : tasks w !! t = Some k) (Hpc : pc k = Reading turn c) (S : serial start w).

Lemma serial_stays_closing w0 st s : beside w w0 -> advances turn (session w0) s ->
  serial start (set_pc t (Closing turn st) (commits t turn s w0)).
Proof using Hk Hpc S.
  intros Hb Ha. eapply (serial_committed start w w0 t k turn s (Closing turn st) (fun w => w)); rewrite ?Hpc; try done.
  left. destruct Hb as (_ & Hb & _). apply frame_inv in Hb as (E1 & _ & _ & _ & _). unfold commits.
  destruct (_ =? _); cbn; rewrite E1; (split; [done|]; split; [done|]; split; [done|]; by destruct (job k) as [[]|[]]).
Qed.

Lemma commits_same w0 : commits t turn (session w0) w0 = w0.
Proof. unfold commits. rewrite Z.eqb_refl. by destruct w0. Qed.

Lemma serial_stream_ends now broken found store r :
  serial start (stream_ends session_id usage now t (job k) turn c broken found store r w).
Proof using Hk Hpc S.
  unfold stream_ends. set (w0 := on_session (stream_over broken) w). pose proof (beside_stream_over broken w) as Hb. fold w0 in Hb.
  pose proof (after_stream_advances now found store (prompt_of (job k)) (response_id turn) turn r (session w0)) as Ha.
  pose proof (after_stream_uncommitted now found store (prompt_of (job k)) (response_id turn) turn r (session w0)) as Hu.
  destruct (after_stream _ _ _ _ _ _ _ _ _) as [[frames r'] s']. cbn in Ha.
  destruct (sr_success r' || sr_interrupted r'); [by apply serial_stays_closing|].
  rewrite (Hu eq_refl), commits_same. by eapply serial_drops.
Qed.

Lemma serial_stream_cut success : serial start (stream_cut t turn c success w).
Proof using Hk Hpc S.
  unfold stream_cut. pose proof (beside_stream_over false w) as Hb. destruct success; [|by eapply serial_drops].
  rewrite <- (commits_same (on_session (stream_over false) w)). apply serial_stays_closing; [done|apply advances_refl].
Qed.

Lemma serial_background_ends now prompt timed_out broken found store collected :
  serial start (background_ends session_id usage now t prompt turn c timed_out broken found store collected w).
Proof using Hk Hpc S.
  unfold background_ends. set (w0 := on_session (stream_over broken) w). pose proof (beside_stream_over broken w) as Hb. fold w0 in Hb.
  assert (forall b, beside w (with_background_runs b w0)) as Hb2 by (intros; by eapply beside_trans; [exact Hb|apply beside_runs]).
  destruct collected as [col|]; [|destruct timed_out; by eapply serial_drops; eauto].
  pose proof (finish_background_advances now found store prompt (response_id turn) turn col (session w0)) as Ha.
  pose proof (fun a b => finish_background_uncommitted now found store prompt (response_id turn) turn col (session w0) a b) as Hu.
  destruct (finish_background _ _ _ _ _ _ _ _ _) as [s' [code message|st resp]]; cbn in *.
  - rewrite (Hu code message eq_refl). replace (with_session (session w0) w0) with w0 by (by destruct w0). by eapply serial_drops; eauto.
  - by apply serial_stays_closing.
Qed.

Lemma serial_releases w0 (p : Pc) s : publishes (job k) (pc k) = false -> holding p = None -> beside w w0 -> advances turn (session w0) s ->
  serial start (set_pc t p (release (commits t turn s w0))).
Proof using Hk Hpc S.
  intros Hp Hh Hb Ha. eapply (serial_committed start w w0 t k turn s p release); rewrite ?Hpc; try done. right. by rewrite <- Hpc.
Qed.

Lemma serial_connected_ends now prompt broken found store collected : publishes (job k) (pc k) = false ->
  serial start (connected_ends session_id usage now t prompt turn c broken found store collected w).
Proof using Hk Hpc S.
  intros Hp. unfold connected_ends. set (w0 := on_session (stream_over broken) w). pose proof (beside_stream_over broken w) as Hb. fold w0 in Hb.
  assert (serial start (let (w, p) := pause_idle_reader (release w0) in set_pc t (LateDropping c p) w)) as Hfail.
  { pose proof (s_tasks _ _ S t k Hk) as Ht. unfold task_ok in Ht. rewrite Hpc in Ht, Hp. cbn [holding] in Ht. destruct Ht as (L & A & _). rewrite Hp in A.
    destruct Hb as (B1 & B2 & B3). apply frame_inv in B2 as (E1 & E2 & E3 & E4 & E5).
    pose proof (beside_pause (release w0)) as (F1 & F2 & F3). destruct (pause_idle_reader (release w0)) as [w1 p]. cbn [fst] in *. apply frame_inv in F2 as (G1 & G2 & G3 & G4 & G5).
    eapply serial_release; rewrite ?Hpc; try done; cbn in *; try lia; congruence. }
  destruct collected as [col|]; [|exact Hfail].
  pose proof (finish_plain_advances now found store prompt (response_id turn) turn col (session w0)) as Ha.
  pose proof (fun e => finish_plain_uncommitted now found store prompt (response_id turn) turn col (session w0) e) as Hu.
  destruct (finish_plain _ _ _ _ _ _ _ _ _) as [s' [resp|e]]; cbn in *.
  - apply serial_releases; try done. by destruct (bool_decide _).
  - rewrite (Hu e eq_refl). replace (with_session (session w0) w0) with w0 by (by destruct w0). exact Hfail.
Qed.

Lemma serial_continuation_ends now wanted output broken found store collected : job k = Answer false wanted output ->
  serial start (continuation_ends session_id usage now t (job k) turn c broken found store collected w).
Proof using Hk Hpc S.
  intros Hj. unfold continuation_ends. set (w0 := on_session _ w).
  assert (beside w w0) as Hb by (by subst w0; destruct broken).
  destruct collected as [col|]; [|by eapply serial_drops].
  pose proof (finish_continuation_advances now found store (response_id turn) turn col (session w0)) as Ha.
  pose proof (fun e => finish_continuation_uncommitted now found store (response_id turn) turn col (session w0) e) as Hu.
  destruct (finish_continuation _ _ _ _ _ _ _ _) as [s' [resp|e]]; cbn in *.
  - rewrite Hj. unfold close_turn.
    pose proof (serial_releases w0 Done s' ltac:(by rewrite Hj, Hpc) eq_refl Hb Ha) as K.
    pose proof (beside_resume (release (commits t turn s' w0))) as (F1 & F2 & F3).
    eapply (serial_same _ (set_pc t Done (release (commits t turn s' w0)))); [..|exact K].
    + unfold set_pc. cbn. by rewrite F1.
    + exact F2.
    + exact F3.
  - rewrite (Hu e eq_refl). replace (with_session (session w0) w0) with w0 by (by destruct w0). by eapply serial_drops.
Qed.

Lemma serial_turn_ends now e w' : turn_ends session_id usage t now (job k) turn c e w = Some w' -> serial start w'.
Proof using Hk Hpc S.
  intros He. unfold turn_ends in He.
  destruct (job k) as [[] is_new prev resolved prompt|[] wanted output] eqn:Ej, e as [broken found store r|success|timed_out broken found store col];
    try done; injection He as <-; rewrite <- ?Ej;
    first [apply serial_stream_ends | apply serial_stream_cut | apply serial_background_ends
          | apply serial_connected_ends; by rewrite Ej | by eapply serial_continuation_ends].
Qed.
End ends.

Lemma task_turn start w t k n : serial start w -> tasks w !! t = Some k -> holding (pc k) = Some n ->
  lock w = Some t /\ active_response_id (session w) = (if publishes (job k) (pc k) then Some (response_id n) else None)
  /\ (undecided (pc k) = true -> n = turn_counter (session w) + 1) /\ continues (job k) n.
Proof. intros S Hk Hh. pose proof (s_tasks _ _ S t k Hk) as Ht. unfold task_ok in Ht. by rewrite Hh in Ht. Qed.

Lemma serial_takes start w now t k : tasks w !! t = Some k -> pc k = Waiting -> lock w = None -> serial start w ->
  serial start (take_lock session_id base now t (job k) w).
Proof.
  intros Hk Hpc Hl S. pose proof (s_idle _ _ S Hl) as Ha.
  assert (forall w1, tasks w1 = tasks w -> frame w1 = frame w -> next_id w1 = next_id w -> serial start (set_pc t Done w1)) as Hrefused.
  { intros w1 F1 F2 F3. eapply (serial_aside start w _ t k Done); rewrite ?Hpc; try done; [|by cbn; rewrite F3].
    rewrite (set_pc_tasks _ _ _ k) by (by rewrite F1). by rewrite F1. }
  assert (forall w1 n, tasks w1 = tasks w -> next_id w1 = next_id w -> committed w1 = committed w -> refused_begins w1 = refused_begins w ->
    lock w1 = Some t -> active_response_id (session w1) = None -> turn_counter (session w1) = turn_counter (session w) ->
    n = turn_counter (session w) + 1 -> continues (job k) n -> serial start (set_pc t (Starting n) w1)) as Htaken.
  { intros w1 n F1 F2 F3 F4 F5 F6 F7 Hn Hc. eapply (serial_step start w _ t k (Starting n)); try done.
    - rewrite (set_pc_tasks _ _ _ k) by (by rewrite F1). by rewrite F1.
    - cbn. by rewrite F2.
    - by right.
    - unfold task_ok. cbn. rewrite F5, F6, F7. split; [done|]. split; [by destruct (job k) as [[]|[]]|]. done.
    - left. cbn. done.
    - left. cbn. by rewrite F3, F7. }
  unfold take_lock. destruct (job k) as [m is_new prev resolved prompt|streamed wanted output] eqn:Ej.
  - unfold acquire_session_preflight.
    set (guard := match prev with Some _ => _ | None => _ end).
    assert (forall u, guard = Ok u -> continues (job k) (turn_counter (session w) + 1)) as Hg.
    { intros u. subst guard. rewrite Ej. cbn. destruct prev as [p|], is_new; try done. cbn.
      destruct (p =? turn_counter (session w)) eqn:E; cbn; [b2p; by subst p|]. by destruct (p <? turn_counter (session w)). }
    rewrite Ej in Hg. destruct guard as [u|]; cbn [result_bind]; [|by apply Hrefused]. specialize (Hg u eq_refl).
    destruct (negb is_new && _ && _); [by apply Hrefused|].
    set (s1 := if is_new then _ else session w).
    assert (active_response_id s1 = None /\ turn_counter s1 = turn_counter (session w)) as [A1 A2] by (subst s1; by destruct is_new).
    set (s2 := match client s1 with Some _ => (s1, None) | None => before_client_start s1 end).
    assert (active_response_id (fst s2) = None /\ turn_counter (fst s2) = turn_counter (session w)) as [A3 A4].
    { subst s2. destruct (client s1); [done|]. unfold before_client_start, _clear_stale_pending_tool_call.
      by destruct (pending_tool_call s1), (input_event s1). }
    destruct s2 as [s2 event]. cbn [fst] in *. apply Htaken; try done; by destruct event.
  - unfold _unblock_pending_tool_call. destruct (pending_call wanted (session w)); cbn [result_bind negb]; [|by apply Hrefused].
    destruct (needs_client (session w)); cbn [result_bind]; [|by apply Hrefused].
    destruct (input_event (session w)); [|by apply Hrefused]. by apply Htaken.
Qed.

Lemma serial_requests start j w : serial start w -> serial start (request j w).
Proof.
  intros S. pose proof S as [S1 S2 S3 [C1 C2] S5 S6]. unfold request. set (p := match j with Fresh _ _ _ _ _ => _ | Answer _ _ _ => _ end).
  assert (holding p = None) as Hp by (subst p; destruct j; [destruct (_reject_while_human_decision_pending (session w))|]; done).
  assert (tasks w !! next_id w = None) as Hnew by (destruct (tasks w !! next_id w) eqn:E; [specialize (S6 (next_id w) ltac:(eauto)); lia|done]).
  assert (lock w <> Some (next_id w)) as Hl by (intros E; specialize (S2 _ E); rewrite Hnew in S2; by destruct S2).
  split; cbn.
  - intros t k. rewrite lookup_insert_Some. intros [[<- <-]|[_ H]]; [|by apply S1]. unfold task_ok. cbn [pc]. by rewrite Hp.
  - intros t Hl'. rewrite lookup_insert_ne by congruence. by apply S2.
  - done.
  - split; [done|]. intros i t n Hi. destruct (C2 i t n Hi) as (Hn & k & Hk & Hc). split; [done|]. exists k. split; [|done]. cbn.
    rewrite lookup_insert_ne by congruence. done.
  - done.
  - intros t [k Hk]. apply lookup_insert_Some in Hk as [[<- _]|[_ Hk]]; [lia|]. specialize (S6 t ltac:(eauto)). lia.
Qed.

Lemma unpark_same b e s : active_response_id (fst (unpark b e s)) = active_response_id s /\ turn_counter (fst (unpark b e s)) = turn_counter s.
Proof.
  unfold unpark. cbn [fst]. set (s1 := match pending_tool_call s with Some _ => _ | None => s end).
  assert (active_response_id s1 = active_response_id s /\ turn_counter s1 = turn_counter s) as [E1 E2]
    by (subst s1; destruct (pending_tool_call s) as [c|]; [by destruct (bool_decide _)|done]).
  by destruct (bool_decide _).
Qed.
Lemma cancel_same a b id turn s :
  active_response_id (fst (cancel_response a b id turn s)) = active_response_id s /\ turn_counter (fst (cancel_response a b id turn s)) = turn_counter s.
Proof. unfold cancel_response. repeat case_match; done. Qed.

Lemma run_none l : foldl (fun w e => match w with Some w => exec session_id base usage w e | None => None end) None l = None.
Proof. by induction l. Qed.

Lemma exec_serial start w e w' : exec session_id base usage w e = Some w' -> serial start w -> serial start w'.
Proof.
  intros He S. destruct e as [j|t now|t mono created|t|t mono|t|t|t|t now e|t|t now|t now|t|t|p ended| |tool call input appr|e|e|turn registered can|i ok|t mono chunk ts];
    cbn [exec] in He; unfold step_task in He;
    try (destruct (tasks w !! t) as [k|] eqn:Hk; [|done]; pose proof (task_turn start w t k) as Ht).
  - injection He as <-. by apply serial_requests.
  - destruct (pc k) eqn:Hpc; try done. destruct (lock w) eqn:Hl; [done|].
    injection He as <-. by apply serial_takes.
  - destruct (pc k) as [|n| | | | | | | | | | | | |] eqn:Hpc; try done. injection He as <-. destruct (Ht n S Hk eq_refl) as (_ & A & _).
    unfold client_ready. set (w1 := on_session _ w).
    assert (beside w w1) as Hb by (apply beside_session; by destruct (client (session w))).
    destruct (job k) as [[]|] eqn:Ej; (eapply serial_begins || eapply serial_runs || eapply serial_move); rewrite ?Ej, ?Hpc; done.
  - destruct (pc k) as [|n| | | | | | | | | | | | |] eqn:Hpc; try done. injection He as <-. destruct (Ht n S Hk eq_refl) as (_ & A & _).
    eapply serial_release; rewrite ?Hpc; try done. cbn. rewrite A. by destruct (job k) as [[]|[]].
  - destruct (job k) as [|streamed wanted output] eqn:Ej; [done|]. destruct (pc k) as [| |n| | | | | | | | | | | |] eqn:Hpc; try done. injection He as <-.
    unfold answer_drained, _commit_pending_tool_call_locked. set (w1 := wake _ _).
    assert (beside w w1) as Hb by (eapply beside_trans; [|apply beside_wake]; done).
    destruct streamed; [eapply serial_begins|eapply serial_runs]; rewrite ?Ej, ?Hpc; done.
  - destruct (pc k) as [| | |n c| | | | | | | | | | |] eqn:Hpc; try done. injection He as <-. eapply serial_runs; rewrite ?Hpc; try done; by destruct (job k) as [[]|[]].
  - destruct (pc k) as [| | | |n c| | | | | | | | | |] eqn:Hpc; try done. injection He as <-. eapply serial_pauses; rewrite ?Hpc; try done; by destruct (job k) as [[]|[]].
  - destruct (pc k) as [| | | | |n c r| | | | | | | | |] eqn:Hpc; try done. destruct (free (Some r) w); [|done]. injection He as <-.
    eapply serial_reads; rewrite ?Hpc; try done; first [apply beside_paused|by destruct (job k) as [[]|[]]].
  - destruct (pc k) as [| | | | | |n c| | | | | | | |] eqn:Hpc; try done. by eapply serial_turn_ends.
  - destruct (pc k) as [| | | | | | | |n c r| | |c r| | |] eqn:Hpc; try done; destruct (free r w); try done; injection He as <-.
    + eapply serial_move; rewrite ?Hpc; try done; first [apply beside_disconnect|by destruct (job k) as [[]|[]]].
    + pose proof (beside_disconnect t c w) as (B1 & B2 & B3).
      eapply (serial_aside start w _ t k LateDisconnecting); rewrite ?Hpc; try done. rewrite (set_pc_tasks _ _ _ k) by (by rewrite B1). by rewrite B1.
  - destruct (pc k) as [| | | | | | | | |n| | | | |] eqn:Hpc; try done; injection He as <-.
    + eapply serial_closes; rewrite ?Hpc; try done; destruct (job k) as [[]|[]]; auto.
    + eapply (serial_aside start w _ t k Done); rewrite ?Hpc; try done. by apply set_pc_tasks.
  - destruct (pc k) as [| | | | | | |n st| | | | | | |] eqn:Hpc; try done; injection He as <-.
    eapply serial_closes; rewrite ?Hpc; try done; destruct (job k) as [[]|[]]; auto.
  - destruct (pc k) eqn:Hpc; try done; injection He as <-. pose proof (beside_resume w) as (B1 & B2 & B3).
    eapply (serial_aside start w _ t k Done); rewrite ?Hpc; try done. rewrite (set_pc_tasks _ _ _ k) by (by rewrite B1). by rewrite B1.
  - unfold abandoned in He.
    destruct (job k) as [[]|[]] eqn:Ej, (pc k) as [|n|n|n c| | | | | | | | | | |] eqn:Hpc; try done; injection He as <-;
      first [eapply serial_move; rewrite ?Ej, ?Hpc; done|idtac].
    eapply serial_release; rewrite ?Hpc; try done. destruct (Ht n S Hk eq_refl) as (_ & A & _). cbn. by rewrite A.
  - destruct (readers w !! p); [|done]. injection He as <-. pose proof (beside_reader_ends p ended w) as (B1 & B2 & B3). by eapply serial_same.
  - injection He as <-. unfold resume_idle_reader_between_turns. destruct (lock w); [done|]. pose proof (beside_resume w) as (B1 & B2 & B3). by eapply serial_same.
  - injection He as <-. unfold park. destruct (pending_tool_call (session w)), (input_event (session w)); try done.
    destruct (stream_break _); eapply serial_same; try exact S; try done; cbn; lia.
  - destruct (hooks w !! e) as [[call []]|]; try done. pose proof (unpark_same true e (session w)) as [U1 U2].
    destruct (unpark true e (session w)) as [s answer]. injection He as <-. eapply serial_same; try exact S; try done. unfold frame. cbn in *. by rewrite U1, U2.
  - destruct (hooks w !! e); [|done]. pose proof (unpark_same false e (session w)) as [U1 U2].
    injection He as <-. eapply serial_same; try exact S; try done. unfold frame. cbn in *. by rewrite U1, U2.
  - pose proof (cancel_same registered can (response_id turn) turn (session w)) as [U1 U2].
    destruct (cancel_response _ _ _ _ _) as [s r]. injection He as <-. cbn in U1, U2.
    assert (serial start (with_session s w)) as K by (eapply serial_same; try exact S; try done; unfold frame; cbn; by rewrite U1, U2).
    destruct r as [[c|]|]; [by refine (serial_same _ _ _ _ _ _ K)|done..].
  - destruct (interrupting w !! i) as [[id c]|]; [|done]. injection He as <-. destruct ok; [by refine (serial_same _ _ _ _ _ _ S)|].
    eapply serial_same; try exact S; try done. unfold frame, cancel_failed. cbn. by destruct (_ && _).
  - destruct (pc k); try done. injection He as <-. by refine (serial_same _ _ _ _ _ _ S).
Qed.

Lemma run_serial start l w w' : run session_id base usage w l = Some w' -> serial start w -> serial start w'.
Proof.
  revert w. induction l as [|e l IH]; intros w Hr S; cbn in Hr; [by injection Hr as <-|].
  destruct (exec session_id base usage w e) as [w1|] eqn:He; [|by rewrite run_none in Hr]. eapply IH; [exact Hr|]. by eapply exec_serial.
Qed.

(** *** A turn reads alone *)

(** No turn is connected: each one is streamed or in the background, or answers a call. *)
Definition connected (j : Job) : bool := match j with Fresh Connected _ _ _ _ => true | _ => false end.

(** What a task needs of the idle readers: that there is none, or no other than the one it
    waits for. *)
Definition needs (p : Pc) (w : World) : Prop :=
  match p with
  | Sweeping _ _ | Reading _ _ | Dropping _ _ None | Disconnecting _ => readers w = ∅
  | Pausing _ _ r | Dropping _ _ (Some r) => forall r', is_Some (readers w !! r') -> r' = r
  | LateDropping _ _ | LateDisconnecting | Logging => False
  | _ => True
  end.

Record quiet (w : World) : Prop := {
  q_jobs : forall t k, tasks w !! t = Some k -> connected (job k) = false;
  q_one : forall p, is_Some (readers w !! p) -> idle_reader w = Some p;
  q_needs : forall t k, tasks w !! t = Some k -> needs (pc k) w;
}.

Lemma needs_fewer p w w' : (forall r, is_Some (readers w' !! r) -> is_Some (readers w !! r)) -> needs p w -> needs p w'.
Proof.
  intros Hr. assert (readers w = ∅ -> readers w' = ∅) as He.
  { intros E. apply map_eq. intros r. rewrite lookup_empty. destruct (readers w' !! r) eqn:Er; [|done].
    destruct (Hr r ltac:(eauto)) as [x Hx]. by rewrite E in Hx. }
  destruct p as [| | | | | | | |n c [r|]| | |c r| | |]; cbn; auto.
Qed.

(** The readers become fewer, or stay. *)
Definition calmer (w w' : World) : Prop :=
  (forall r, is_Some (readers w' !! r) -> is_Some (readers w !! r) /\ idle_reader w' = idle_reader w).

Lemma calmer_refl w w' : readers w' = readers w -> idle_reader w' = idle_reader w -> calmer w w'.
Proof. intros E1 E2 r. by rewrite E1, E2. Qed.
Lemma calmer_trans w1 w2 w3 : calmer w1 w2 -> calmer w2 w3 -> calmer w1 w3.
Proof. intros H1 H2 r Hr. destruct (H2 r Hr) as [H3 E]. destruct (H1 r H3) as [H4 E']. split; [done|congruence]. Qed.
Lemma calmer_pause w : quiet w -> calmer w (fst (pause_idle_reader w)).
Proof.
  intros Q r. unfold pause_idle_reader. destruct (running w) as [p|] eqn:E; cbn; intros [x Hx].
  - split; [|done]. destruct (decide (r = p)) as [->|Hne].
    + rewrite lookup_alter_eq in Hx. destruct (readers w !! p); [eauto|done].
    + rewrite lookup_alter_ne in Hx by done. eauto.
  - assert (idle_reader w = Some r) as Hi by (apply Q; eauto). unfold running in E. rewrite Hi in E. rewrite decide_True in E by eauto. done.
Qed.
Lemma calmer_paused p w : readers w !! p = None -> quiet w -> calmer w (reader_paused p w).
Proof.
  intros Hp Q r Hr. unfold reader_paused in *. case_bool_decide as Hi; [|done]. cbn in *.
  rewrite (q_one _ Q r Hr) in Hi. injection Hi as ->. rewrite Hp in Hr. by destruct Hr.
Qed.

Lemma quiet_step w w1 t k p :
  tasks w !! t = Some k -> tasks w1 = tasks w -> calmer w w1 -> needs p w1 -> quiet w -> quiet (set_pc t p w1).
Proof.
  intros Hk Ht Hc Hn Q. pose proof Q as [Q1 Q2 Q3].
  assert (forall t' k', tasks (set_pc t p w1) !! t' = Some k' -> exists k0, tasks w !! t' = Some k0 /\ job k' = job k0 /\ (pc k' = p \/ k' = k0)) as Hlook.
  { intros t' k'. cbn. rewrite Ht. destruct (decide (t' = t)) as [->|Hne].
    - rewrite lookup_alter_eq, Hk. cbn. intros [= <-]. eauto.
    - rewrite lookup_alter_ne by done. eauto. }
  split.
  - intros t' k' H. destruct (Hlook t' k' H) as (k0 & H0 & -> & _). by eapply Q1.
  - intros r Hr. cbn in *. destruct (Hc r Hr) as [H1 H2]. rewrite H2. by apply Q2.
  - intros t' k' H. destruct (Hlook t' k' H) as (k0 & H0 & _ & [->| ->]); [exact Hn|].
    eapply needs_fewer; [|by eapply Q3]. intros r Hr. by apply Hc.
Qed.
Lemma quiet_calmer w w' : tasks w' = tasks w -> calmer w w' -> quiet w -> quiet w'.
Proof.
  intros Ht Hc [Q1 Q2 Q3]. split.
  - intros t k. rewrite Ht. apply Q1.
  - intros r Hr. destruct (Hc r Hr) as [H1 H2]. rewrite H2. by apply Q2.
  - intros t k. rewrite Ht. intros Hk. eapply needs_fewer; [|by eapply Q3]. intros r Hr. by apply Hc.
Qed.

(** A reader starts when no task holds the lock. *)
Lemma quiet_resume w : quiet w -> (forall t k, tasks w !! t = Some k -> holding (pc k) = None) -> quiet (resume_idle_reader w).
Proof.
  intros Q Hh. pose proof Q as [Q1 Q2 Q3]. unfold resume_idle_reader. destruct (may_resume _ (session w)) eqn:Hm; [|done].
  destruct (client (session w)) as [c|]; [|done].
  assert (running w = None) as Hr.
  { unfold may_resume in Hm. apply andb_true_iff in Hm as [_ Hm]. destruct (running w); [|done]. by rewrite bool_decide_true in Hm by eauto. }
  assert (readers w = ∅) as He.
  { apply map_eq. intros r. rewrite lookup_empty. destruct (readers w !! r) eqn:E; [|done].
    unfold running in Hr. rewrite (Q2 r ltac:(eauto)), decide_True in Hr by eauto. done. }
  split; cbn.
  - done.
  - intros p. rewrite He. intros [x Hx]. apply lookup_insert_Some in Hx as [[-> _]|[_ Hx]]; [done|by rewrite lookup_empty in Hx].
  - intros t k Hk. specialize (Hh t k Hk). specialize (Q3 t k Hk). by destruct (pc k).
Qed.

(** Nothing of it changes. *)
Ltac calm Q := refine (quiet_calmer _ _ _ _ Q); [done|by apply calmer_refl].

Lemma quiet_session f w : quiet w -> quiet (on_session f w).
Proof. intros Q. calm Q. Qed.
Lemma quiet_nobody w : quiet w -> running w = None -> readers w = ∅.
Proof.
  intros Q Hr. apply map_eq. intros r. rewrite lookup_empty. destruct (readers w !! r) eqn:E; [|done].
  unfold running in Hr. rewrite (q_one _ Q r ltac:(eauto)), decide_True in Hr by eauto. done.
Qed.
Lemma quiet_wake e w : quiet w -> quiet (wake e w).
Proof. intros Q. destruct e; [calm Q|done]. Qed.
Lemma quiet_set_pc t k p w : tasks w !! t = Some k -> needs p w -> quiet w -> quiet (set_pc t p w).
Proof. intros Hk Hn Q. eapply quiet_step; try done; by apply calmer_refl. Qed.

Lemma quiet_paused_reader w : quiet w ->
  let (w1, p) := pause_idle_reader w in
  tasks w1 = tasks w /\ calmer w w1 /\ match p with None => readers w1 = ∅ | Some r => forall r', is_Some (readers w1 !! r') -> r' = r end.
Proof.
  intros Q. pose proof (calmer_pause w Q) as Hc. pose proof (beside_pause w) as (Ht & _). unfold pause_idle_reader in *.
  destruct (running w) as [r|] eqn:E; cbn in *; (split; [done|]; split; [done|]).
  - intros r' Hr'. destruct (Hc r' Hr') as [H _]. pose proof (q_one _ Q r' H) as Hi. unfold running in E. rewrite Hi in E.
    destruct (decide _); by simplify_eq.
  - by apply quiet_nobody.
Qed.

Lemma quiet_reads t k n c w : tasks w !! t = Some k -> readers w = ∅ -> quiet w -> quiet (start_reading t n c w).
Proof. intros Hk Hr Q. unfold start_reading. eapply quiet_step; try done; by apply calmer_refl. Qed.
Lemma quiet_pauses t k n c w : tasks w !! t = Some k -> quiet w -> quiet (pause_and_read t n c w).
Proof.
  intros Hk Q. pose proof (quiet_paused_reader w Q) as H. unfold pause_and_read. destruct (pause_idle_reader w) as [w1 [p|]]; destruct H as (H1 & H2 & H3).
  - by eapply quiet_step.
  - eapply quiet_reads; [by rewrite H1|done|]. by eapply quiet_calmer.
Qed.
Lemma quiet_runs t k n c w : tasks w !! t = Some k -> quiet w -> quiet (run_turn t n c w).
Proof.
  intros Hk Q. unfold run_turn. destruct (job <$> tasks w !! t) as [[]|]; try by eapply quiet_pauses.
  destruct (running w) eqn:E; [by eapply quiet_pauses|]. eapply quiet_set_pc; try done; by apply quiet_nobody.
Qed.
Lemma quiet_drops t k n c w : tasks w !! t = Some k -> quiet w -> quiet (drop_client t n c w).
Proof.
  intros Hk Q. pose proof (quiet_paused_reader w Q) as H. unfold drop_client. destruct (pause_idle_reader w) as [w1 p]; destruct H as (H1 & H2 & H3).
  eapply quiet_step; try done; by destruct p.
Qed.
Lemma quiet_begins t k n mono registers w : tasks w !! t = Some k -> quiet w -> quiet (begin_and_offer session_id mono t n registers w).
Proof.
  intros Hk Q. unfold begin_and_offer. destruct (_begin_active_response _ _ _ _ _) as [s|e].
  - eapply quiet_set_pc; [by destruct registers|done|]. destruct registers; calm Q.
  - eapply quiet_set_pc; try done; calm Q.
Qed.

Lemma resume_pc t p w : set_pc t p (resume_idle_reader w) = resume_idle_reader (set_pc t p w).
Proof.
  unfold resume_idle_reader. change (running (set_pc t p w)) with (running w). cbn.
  destruct (may_resume _ _); [|done]. by destruct (client (session w)).
Qed.
Lemma resume_release w : release (resume_idle_reader w) = resume_idle_reader (release w).
Proof.
  unfold resume_idle_reader. change (running (release w)) with (running w). cbn.
  destruct (may_resume _ _); [|done]. by destruct (client (session w)).
Qed.

(** Only the holder of the lock is in a turn. *)
Lemma alone start w t k : serial start w -> lock w = Some t -> tasks w !! t = Some k ->
  forall t' k' p, tasks (set_pc t p (release w)) !! t' = Some k' -> holding p = None -> holding (pc k') = None.
Proof.
  intros S Hl Hk t' k' p H Hp. cbn in H. destruct (decide (t' = t)) as [->|Hne].
  - rewrite lookup_alter_eq, Hk in H. by injection H as <-.
  - rewrite lookup_alter_ne in H by done. destruct (holding (pc k')) as [n|] eqn:E; [|done].
    destruct (task_turn start w t' k' n S H E) as [Hl' _]. congruence.
Qed.

Lemma quiet_closes start w now t k n state : serial start w -> tasks w !! t = Some k -> lock w = Some t -> quiet w ->
  quiet (close_turn session_id now t (job k) n state w).
Proof.
  intros S Hk Hl Q.
  assert (forall s, quiet (resume_idle_reader (set_pc t Done (release (with_session s w))))) as K.
  { intros s. apply quiet_resume.
    - eapply (quiet_set_pc t k); try done; calm Q.
    - intros t' k' H. eapply (alone start w t k S Hl Hk t' k' Done); [exact H|done]. }
  assert (forall s, quiet (set_pc t Done (release (with_session s w)))) as K2.
  { intros s. eapply (quiet_set_pc t k); try done; calm Q. }
  unfold close_turn. destruct (job k) as [[]|[]] eqn:Ej.
  2: { specialize (K2 (session w)). by destruct w. }
  4: { specialize (K (session w)). rewrite ?resume_release, resume_pc. by destruct w. }
  all: destruct (_finish_active_response _ _ _ _) as [s []].
  all: try (rewrite ?resume_release, resume_pc; apply K).
  all: try apply K2.
  - destruct (bool_decide (state = "failed")); [rewrite ?resume_release, resume_pc; apply K|].
    change (set_pc t Done (release (with_background_runs ?b ?x))) with (with_background_runs b (set_pc t Done (release x))).
    rewrite ?resume_release, resume_pc. pose proof (K s) as K'. calm K'.
  - destruct (bool_decide (state = "failed")); [apply K2|]. pose proof (K2 s) as K'. calm K'.
Qed.

Lemma quiet_commits t n s w : quiet w -> quiet (commits t n s w).
Proof. intros Q. unfold commits. destruct (_ =? _); calm Q. Qed.
Lemma commits_tasks t n s w : tasks (commits t n s w) = tasks w.
Proof. unfold commits. by destruct (_ =? _). Qed.
Lemma commits_lock t n s w : lock (commits t n s w) = lock w.
Proof. unfold commits. by destruct (_ =? _). Qed.

Lemma quiet_turn_ends start t k n c now e w w' : serial start w -> tasks w !! t = Some k -> pc k = Reading n c ->
  turn_ends session_id usage t now (job k) n c e w = Some w' -> quiet w -> quiet w'.
Proof.
  intros S Hk Hpc He Q. pose proof (q_jobs _ Q t k Hk) as Hj.
  destruct (task_turn start w t k n S Hk ltac:(by rewrite Hpc)) as (Hl & _).
  assert (forall f, quiet (on_session f w)) as Qs by (intros; by apply quiet_session).
  assert (forall f w0 p, tasks w0 = tasks w -> quiet w0 -> (forall w, needs p w) -> quiet (set_pc t p (commits t n f w0))) as Qc.
  { intros f w0 p Ht Q0 Hn. eapply quiet_set_pc; [by rewrite commits_tasks, Ht|apply Hn|by apply quiet_commits]. }
  unfold turn_ends in He. destruct (job k) as [[] is_new prev resolved prompt|[] wanted output] eqn:Ej, e as [broken found store r|success|timed_out broken found store col];
    try done; injection He as <-.
  - unfold stream_ends. destruct (after_stream _ _ _ _ _ _ _ _ _) as [[? r'] s']. destruct (_ || _); [by apply Qc|].
    eapply quiet_drops; [by rewrite commits_tasks|by apply quiet_commits].
  - unfold stream_cut. destruct success; [by eapply quiet_set_pc|by eapply quiet_drops].
  - unfold background_ends. destruct col as [col|]; [|destruct timed_out; (eapply quiet_drops; [done|]; pose proof (Qs (stream_over broken)) as K; calm K)].
    destruct (finish_background _ _ _ _ _ _ _ _ _) as [s' [code message|]]; [|by apply Qc].
    eapply quiet_drops; [done|]. pose proof (Qs (stream_over broken)) as K. calm K.
  - unfold stream_ends. destruct (after_stream _ _ _ _ _ _ _ _ _) as [[? r'] s']. destruct (_ || _); [by apply Qc|].
    eapply quiet_drops; [by rewrite commits_tasks|by apply quiet_commits].
  - unfold stream_cut. destruct success; [by eapply quiet_set_pc|by eapply quiet_drops].
  - unfold continuation_ends. set (w0 := on_session _ w). assert (quiet w0) as Q0 by apply Qs.
    destruct col as [col|]; [|by eapply quiet_drops].
    pose proof (finish_continuation_advances now found store (response_id n) n col (session w0)) as Ha.
    destruct (finish_continuation _ _ _ _ _ _ _ _) as [s' [resp|]]; [|eapply quiet_drops; [done|]; calm Q0].
    unfold close_turn. rewrite resume_pc.
    apply quiet_resume.
    + eapply (quiet_set_pc t k); [change (tasks (release ?x)) with (tasks x); by rewrite commits_tasks|done|]. pose proof (quiet_commits t n s' w0 Q0) as K. calm K.
    + intros t' k' H. eapply (alone start w t k S Hl Hk t' k' Done); [|done].
      change (alter (fun k => MkTask (job k) Done) t (tasks (commits t n s' w0)) !! t' = Some k') in H. by rewrite commits_tasks in H.
Qed.

(** A run without connected turns *)
Definition unconnected (e : Event) : bool := match e with Request j => negb (connected j) | _ => true end.

Lemma quiet_requests start j w : serial start w -> connected j = false -> quiet w -> quiet (request j w).
Proof.
  intros S Hj [Q1 Q2 Q3]. unfold request. set (p := match j with Fresh _ _ _ _ _ => _ | Answer _ _ _ => _ end).
  assert (forall w, needs p w) as Hp by (subst p; destruct j; [destruct (_reject_while_human_decision_pending (session w))|]; done).
  split; cbn.
  - intros t k. rewrite lookup_insert_Some. intros [[<- <-]|[_ H]]; [done|by eapply Q1].
  - done.
  - intros t k. rewrite lookup_insert_Some. intros [[<- <-]|[_ H]]; [apply Hp|]. eapply needs_fewer; [|by eapply Q3]. done.
Qed.

Lemma quiet_takes now t k w : tasks w !! t = Some k -> quiet w -> quiet (take_lock session_id base now t (job k) w).
Proof.
  intros Hk Q. assert (quiet (set_pc t Done w)) as Hd by (by eapply quiet_set_pc).
  assert (forall n w0, tasks w0 = tasks w -> readers w0 = readers w -> idle_reader w0 = idle_reader w -> quiet (set_pc t (Starting n) w0)) as Hs.
  { intros n w0 H1 H2 H3. eapply quiet_step; try done. by apply calmer_refl. }
  unfold take_lock. destruct (job k).
  - destruct (acquire_session_preflight _ _ _ _ _ _ _ _) as [[[s ?] n]|]; [|done]. destruct (client s); [by apply Hs|].
    destruct (before_client_start s) as [s' [e|]]; by apply Hs.
  - destruct (_unblock_pending_tool_call _ _ _ _); [by apply Hs|done].
Qed.

Lemma quiet_disconnects t c w : quiet w -> quiet (disconnect t c w) /\ tasks (disconnect t c w) = tasks w /\ readers (disconnect t c w) = readers w.
Proof.
  intros Q. unfold disconnect. destruct (_disconnect_session_client c (session w)) as [[s e] d].
  destruct d, e; (split; [calm Q|done]).
Qed.

Lemma free_alone w r : (forall r', is_Some (readers w !! r') -> r' = r) -> free (Some r) w = true -> readers w = ∅.
Proof.
  intros H Hf. unfold free in Hf. apply negb_true_iff, bool_decide_eq_false in Hf. apply map_eq. intros r'. rewrite lookup_empty.
  destruct (readers w !! r') eqn:E; [|done]. rewrite (H r' ltac:(eauto)) in E. exfalso. apply Hf. eauto.
Qed.

Lemma reader_paused_same p w : tasks (reader_paused p w) = tasks w /\ readers (reader_paused p w) = readers w.
Proof. unfold reader_paused. by destruct (bool_decide _). Qed.
Lemma quiet_reader_paused p w : readers w !! p = None -> quiet w -> quiet (reader_paused p w).
Proof. intros Hp Q. refine (quiet_calmer w _ _ _ Q); [apply reader_paused_same|by apply calmer_paused]. Qed.

Lemma exec_quiet start w e w' : exec session_id base usage w e = Some w' -> unconnected e = true -> serial start w -> quiet w -> quiet w'.
Proof.
  intros He Hu S Q. destruct e as [j|t now|t mono created|t|t mono|t|t|t|t now e|t|t now|t now|t|t|p ended| |tool call input appr|e|e|turn registered can|i ok|t mono chunk ts];
    cbn [exec] in He; unfold step_task in He;
    try (destruct (tasks w !! t) as [k|] eqn:Hk; [|done]; pose proof (q_needs _ Q t k Hk) as Hn; pose proof (task_turn start w t k) as Ht).
  - injection He as <-. cbn in Hu. eapply quiet_requests; try done. by destruct (connected j).
  - destruct (pc k); try done. destruct (lock w); [done|].
    injection He as <-. by apply quiet_takes.
  - destruct (pc k) as [|n| | | | | | | | | | | | |]; try done. injection He as <-. unfold client_ready.
    pose proof (q_jobs _ Q t k Hk) as Hj. destruct (job k) as [[]|]; try done; first [eapply quiet_begins; [done|by apply quiet_session] | by eapply quiet_set_pc].
  - destruct (pc k); try done. injection He as <-. eapply quiet_set_pc; [done|done|calm Q].
  - destruct (job k) as [|streamed wanted output]; [done|]. destruct (pc k); try done. injection He as <-.
    unfold answer_drained, _commit_pending_tool_call_locked.
    assert (quiet (wake (input_event (session w)) (with_session (set_pending_tool_call None (session w)) w))) as K by (apply quiet_wake; calm Q).
    assert (tasks (wake (input_event (session w)) (with_session (set_pending_tool_call None (session w)) w)) !! t = Some k) as K' by (by destruct (input_event (session w))).
    destruct streamed; [by eapply quiet_begins|by eapply quiet_runs].
  - destruct (pc k); try done. injection He as <-. by eapply quiet_runs.
  - destruct (pc k); try done. injection He as <-. by eapply quiet_pauses.
  - destruct (pc k) as [| | | | |n c r| | | | | | | | |]; try done. destruct (free (Some r) w) eqn:Hf; [|done]. injection He as <-.
    pose proof (free_alone w r Hn Hf) as Hr.
    destruct (reader_paused_same r w) as [E1 E2]. eapply quiet_reads; [by rewrite E1|by rewrite E2|].
    apply quiet_reader_paused; [by rewrite Hr, lookup_empty|done].
  - destruct (pc k) as [| | | | | |n c| | | | | | | |] eqn:Hpc; try done. by eapply quiet_turn_ends.
  - destruct (pc k) as [| | | | | | | |n c r| | |c r| | |]; try done; destruct (free r w) eqn:Hf; try done; injection He as <-.
    destruct (quiet_disconnects t c w Q) as (Q' & E1 & E2). eapply quiet_set_pc; [by rewrite E1| |done].
    cbn. rewrite E2. destruct r as [r|]; [by eapply free_alone|done].
  - destruct (pc k) as [| | | | | | | | |n| | | | |] eqn:Hpc; try done; injection He as <-. destruct (Ht n S Hk eq_refl) as (Hl & _). by eapply quiet_closes.
  - destruct (pc k) as [| | | | | | |n st| | | | | | |] eqn:Hpc; try done; injection He as <-. destruct (Ht n S Hk eq_refl) as (Hl & _). by eapply quiet_closes.
  - destruct (pc k); done.
  - unfold abandoned in He. pose proof (q_jobs _ Q t k Hk) as Hj.
    destruct (job k) as [[]|[]], (pc k) as [|n|n|n c| | | | | | | | | | |]; try done; injection He as <-; by eapply quiet_set_pc.
  - destruct (readers w !! p) as [rd|] eqn:Hp; [|done]. injection He as <-. unfold reader_ends.
    set (w0 := if ended then _ else w). assert (quiet w0 /\ tasks w0 = tasks w /\ readers w0 = readers w) as (Q0 & E1 & E2) by (subst w0; destruct ended; [split; [calm Q|done]|done]).
    set (w1 := with_readers _ w0).
    assert (calmer w0 w1) as Hc1 by (intros r [x Hx]; cbn in Hx; rewrite lookup_delete_Some in Hx; split; [destruct Hx; eauto|done]).
    assert (quiet w1) as Q1 by (by refine (quiet_calmer w0 _ _ Hc1 Q0)).
    apply quiet_reader_paused; [cbn; by rewrite lookup_delete_eq|done].
  - injection He as <-. unfold resume_idle_reader_between_turns. destruct (lock w) eqn:Hl; [done|]. apply quiet_resume; [done|].
    intros t k Hk. destruct (holding (pc k)) as [n|] eqn:E; [|done]. destruct (task_turn start w t k n S Hk E) as [Hl' _]. congruence.
  - injection He as <-. destruct (park _ _ _ _ _ _); [calm Q|done].
  - destruct (hooks w !! e) as [[call []]|]; try done. destruct (unpark true e (session w)) as [s answer]. injection He as <-. calm Q.
  - destruct (hooks w !! e); [|done]. injection He as <-. calm Q.
  - destruct (cancel_response _ _ _ _ _) as [s r]. injection He as <-. destruct r as [[c|]|]; calm Q.
  - destruct (interrupting w !! i) as [[id c]|]; [|done]. injection He as <-. destruct ok; calm Q.
  - destruct (pc k); try done. injection He as <-. calm Q.
Qed.

Lemma run_quiet start l w w' : run session_id base usage w l = Some w' -> forallb unconnected l = true -> serial start w -> quiet w -> quiet w'.
Proof.
  revert w. induction l as [|e l IH]; intros w Hr Hu S Q; cbn in Hr; [by injection Hr as <-|].
  cbn in Hu. apply andb_true_iff in Hu as [Hu1 Hu2].
  destruct (exec session_id base usage w e) as [w1|] eqn:He; [|by rewrite run_none in Hr].
  eapply IH; [exact Hr|done|by eapply exec_serial|by eapply exec_quiet].
Qed.

(** *** Answers *)

(** What the slot, the waiting calls and the answers say of each other *)
Record asked (w : World) : Prop := {
  a_hooks : forall e h, hooks w !! e = Some h -> (e < next_id w)%nat /\ (hk_woken h = false -> input_event (session w) = Some e);
  a_slot : forall e, input_event (session w) = Some e ->
    is_Some (hooks w !! e) /\ forall e', is_Some (hooks w !! e') -> (e' <= e)%nat;
  a_pending : forall c, pending_tool_call (session w) = Some c ->
    exists e h, parked_by c = Some e /\ input_event (session w) = Some e /\ hooks w !! e = Some h /\ hk_call h = call_id c;
  a_response : forall o, input_response (session w) = Some o ->
    exists e h, input_event (session w) = Some e /\ hooks w !! e = Some h /\ (hk_call h, o) ∈ accepted w
      /\ forall e' h', hooks w !! e' = Some h' -> hk_woken h' = true -> (e <= e')%nat;
  a_answers : forall call a, (call, a) ∈ answers w -> a = EmptyString \/ (call, a) ∈ accepted w;
}.

Lemma asked_same w w' : hooks w' = hooks w -> slot (session w') = slot (session w) -> accepted w' = accepted w -> answers w' = answers w ->
  (next_id w <= next_id w')%nat -> asked w -> asked w'.
Proof.
  unfold slot. intros E1 [= E2 E3 E4] E5 E6 Hn [A1 A2 A3 A4 A5]. split; rewrite ?E1, ?E2, ?E3, ?E4, ?E5, ?E6; try done.
  intros e h He. destruct (A1 e h He). split; [lia|done].
Qed.

(** A call is woken while the slot does not hold an answer for a later one. *)
Lemma asked_wake w e : (forall o, input_response (session w) = Some o -> input_event (session w) = Some e) -> asked w -> asked (wake (Some e) w).
Proof.
  intros Hr [A1 A2 A3 A4 A5]. unfold wake.
  assert (forall e' h', alter (fun h => MkHook (hk_call h) true) e (hooks w) !! e' = Some h' ->
    exists h, hooks w !! e' = Some h /\ hk_call h' = hk_call h /\ (hk_woken h' = false -> hk_woken h = false) /\ (e' <> e -> h' = h)) as Hl.
  { intros e' h'. destruct (decide (e' = e)) as [->|Hne].
    - rewrite lookup_alter_eq. destruct (hooks w !! e) as [h|]; [|done]. cbn. intros [= <-]. exists h. done.
    - rewrite lookup_alter_ne by done. eauto. }
  assert (forall e', is_Some (hooks w !! e') -> exists h', alter (fun h => MkHook (hk_call h) true) e (hooks w) !! e' = Some h'
    /\ forall h, hooks w !! e' = Some h -> hk_call h' = hk_call h) as Hl'.
  { intros e' [h Hh]. destruct (decide (e' = e)) as [->|Hne].
    - rewrite lookup_alter_eq, Hh. eexists. split; [done|]. intros h0 [= <-]. done.
    - rewrite lookup_alter_ne by done. exists h. split; [done|]. rewrite Hh. by intros h0 [= <-]. }
  split; cbn.
  - intros e' h' He'. destruct (Hl e' h' He') as (h & Hh & _ & Hw & _). destruct (A1 e' h Hh). split; [done|]. auto.
  - intros e' He'. destruct (A2 e' He') as [H1 H2]. split; [destruct (Hl' e' H1) as (h' & Hh' & _); eauto|].
    intros e'' [h'' Hh'']. destruct (Hl e'' h'' Hh'') as (h & Hh & _). apply H2. eauto.
  - intros c Hc. destruct (A3 c Hc) as (e' & h & P1 & P2 & P3 & P4). destruct (Hl' e' ltac:(eauto)) as (h' & Hh' & Hcall).
    exists e', h'. rewrite (Hcall h P3). done.
  - intros o Ho. destruct (A4 o Ho) as (e' & h & P1 & P2 & P3 & P4). destruct (Hl' e' ltac:(eauto)) as (h' & Hh' & Hcall).
    exists e', h'. rewrite (Hcall h P2). do 3 (split; [done|]).
    intros e'' h'' Hh'' Hw. specialize (Hr o Ho). rewrite Hr in P1. injection P1 as ->.
    destruct (decide (e'' = e')) as [->|Hne]; [done|]. destruct (Hl e'' h'' Hh'') as (h0 & Hh0 & _ & _ & Heq). rewrite (Heq Hne) in Hw. by eapply P4.
  - done.
Qed.

(** The slot is emptied, and its call woken. *)
Lemma asked_cleared w s e : _clear_stale_pending_tool_call (session w) = (s, e) -> asked w -> asked (wake e (with_session s w)).
Proof.
  intros Hc A. pose proof A as [A1 A2 A3 A4 A5]. unfold _clear_stale_pending_tool_call in Hc.
  assert ((s, e) = (session w, None) \/ (slot s = (None, None, None) /\ e = input_event (session w))) as [[= -> ->]|[Hs ->]].
  { destruct (pending_tool_call (session w)), (input_event (session w)); injection Hc as <- <-; auto. }
  - by destruct w.
  - unfold slot in Hs. injection Hs as E1 E2 E3.
    assert (forall e h, hooks w !! e = Some h -> hk_woken h = false -> input_event (session w) = Some e) as Hw by (intros e h He; apply (A1 e h He)).
    destruct (input_event (session w)) as [e|] eqn:Ee; cbn.
    + split; cbn; rewrite ?E1, ?E2, ?E3; try done. intros e' h'. destruct (decide (e' = e)) as [->|Hne].
      * rewrite lookup_alter_eq. destruct (hooks w !! e) as [h|] eqn:He; [|done]. cbn. intros [= <-]. destruct (A1 e h He). done.
      * rewrite lookup_alter_ne by done. intros He'. destruct (A1 e' h' He'). split; [done|]. intros Hf. specialize (Hw e' h' He' Hf). congruence.
    + by split; cbn; rewrite ?E1, ?E2, ?E3.
Qed.

(** A call is answered, or times out: it is gone, and the slot when it was its own. *)
Lemma asked_unpark b w e h : hooks w !! e = Some h ->
  asked w -> asked (with_hooks (delete e (hooks w)) (with_session (fst (unpark b e (session w))) w)).
Proof.
  intros He [A1 A2 A3 A4 A5]. unfold unpark. cbn [fst].
  assert (forall e' h', delete e (hooks w) !! e' = Some h' -> e' <> e /\ hooks w !! e' = Some h') as Hl
    by (intros e' h' [? ?]%lookup_delete_Some; done).
  destruct (decide (input_event (session w) = Some e)) as [Ei|Ei].
  - set (s1 := match pending_tool_call (session w) with Some _ => _ | None => _ end).
    assert (pending_tool_call s1 = None /\ input_event s1 = Some e) as [P1 P2].
    { subst s1. destruct (pending_tool_call (session w)) as [c|] eqn:Ec; [|done]. destruct (A3 c eq_refl) as (e0 & h0 & B1 & B2 & _).
      rewrite bool_decide_true by congruence. done. }
    rewrite bool_decide_true by done. split; cbn; rewrite ?P1; try done.
    intros e' h' [Hne He']%Hl. destruct (A1 e' h' He') as [B1 B2]. split; [done|]. intros Hf. specialize (B2 Hf). congruence.
  - set (s1 := match pending_tool_call (session w) with Some _ => _ | None => _ end).
    assert (s1 = session w) as ->.
    { subst s1. destruct (pending_tool_call (session w)) as [c|] eqn:Ec; [|done]. destruct (A3 c eq_refl) as (e0 & h0 & B1 & B2 & _).
      by rewrite bool_decide_false by congruence. }
    rewrite bool_decide_false by done. split; cbn; try done.
    + intros e' h' [_ He']%Hl. by apply A1.
    + intros e0 He0. destruct (A2 e0 He0) as [B1 B2]. split; [rewrite lookup_delete_ne by congruence; done|].
      intros e' [h' [_ He']%Hl]. apply B2. eauto.
    + intros c Hc. destruct (A3 c Hc) as (e0 & h0 & B1 & B2 & B3 & B4). exists e0, h0. rewrite lookup_delete_ne by congruence. done.
    + intros o Ho. destruct (A4 o Ho) as (e0 & h0 & B1 & B2 & B3 & B4). exists e0, h0. rewrite lookup_delete_ne by congruence.
      do 3 (split; [done|]). intros e' h' [_ He']%Hl. by apply B4.
Qed.

(** What an answered call is given *)
Lemma asked_answer w e call : hooks w !! e = Some (MkHook call true) -> asked w ->
  default "" (input_response (session w)) = "" \/ (call, default "" (input_response (session w))) ∈ accepted w.
Proof.
  intros He [A1 A2 A3 A4 A5]. destruct (input_response (session w)) as [o|] eqn:Eo; [|by left]. right. cbn.
  destruct (A4 o eq_refl) as (e0 & h0 & B1 & B2 & B3 & B4). specialize (B4 e _ He eq_refl).
  destruct (A2 e0 B1) as [_ B5]. specialize (B5 e ltac:(eauto)). replace e0 with e in B2 by lia. by simplify_eq.
Qed.

(** A call is parked. *)
Lemma asked_park tool call input appr w s : park tool call input appr (next_id w) (session w) = Some s -> asked w ->
  asked (with_next_id (S (next_id w)) (with_hooks (<[next_id w := MkHook call false]> (hooks w)) (with_session s w))).
Proof.
  unfold park. intros Hp [A1 A2 A3 A4 A5]. destruct (pending_tool_call (session w)) eqn:Ep; [done|]. destruct (input_event (session w)) eqn:Ei; [done|].
  assert (pending_tool_call s = Some (MkCall call tool input appr None None (Some (next_id w))) /\ input_event s = Some (next_id w)
    /\ input_response s = input_response (session w)) as (P1 & P2 & P3) by (injection Hp as <-; by destruct (stream_break _)).
  assert (input_response (session w) = None) as P4.
  { destruct (input_response (session w)) as [o|] eqn:Eo; [|done]. by destruct (A4 o eq_refl) as (? & ? & ? & _). }
  assert (forall e' h', <[next_id w := MkHook call false]> (hooks w) !! e' = Some h' ->
    e' = next_id w /\ h' = MkHook call false \/ hooks w !! e' = Some h') as Hl.
  { intros e' h'. rewrite lookup_insert_Some. intros [[<- <-]|[_ H]]; auto. }
  split; cbn; rewrite ?P1, ?P2, ?P3, ?P4; try done.
  - intros e' h' [[-> ->]|H]%Hl; [split; [lia|done]|]. destruct (A1 e' h' H) as [B1 B2]. split; [lia|]. intros Hf. by specialize (B2 Hf).
  - intros e' [= <-]. split; [rewrite lookup_insert_eq; eauto|]. intros e' [h' [[-> _]|H]%Hl]; [lia|]. destruct (A1 e' h' H). lia.
  - intros c [= <-]. exists (next_id w), (MkHook call false). rewrite lookup_insert_eq. done.
Qed.

(** An answer is taken for the call of the slot. *)
Lemma asked_accepts wanted output s w : _unblock_pending_tool_call true wanted output (session w) = Ok s -> settled w = true -> asked w ->
  asked (with_accepted (accepted w ++ [(wanted, output)]) (with_session s w)).
Proof.
  unfold _unblock_pending_tool_call, pending_call. intros Hu Hs [A1 A2 A3 A4 A5].
  destruct (pending_tool_call (session w)) as [c|] eqn:Ec; [|done]. destruct (bool_decide (call_id c = wanted)) eqn:Ew; [|done]. apply bool_decide_eq_true in Ew.
  cbn in Hu. destruct (needs_client (session w)); [|done]. cbn in Hu. destruct (input_event (session w)) as [e|] eqn:Ee; [|done]. injection Hu as <-.
  split; cbn; rewrite ?Ec, ?Ee; try done.
  - intros o [= <-]. destruct (A3 c eq_refl) as (e0 & h0 & B1 & [= <-] & B3 & B4). exists e, h0. do 2 (split; [done|]). split.
    + apply elem_of_app. right. apply list_elem_of_singleton. congruence.
    + unfold settled in Hs. rewrite Ee in Hs. apply bool_decide_eq_true in Hs. intros e' h' H1 H2. exact (Hs e' h' H1 H2).
  - intros call o H. destruct (A5 call o H) as [->|H0]; [by left|right]. apply elem_of_app. by left.
Qed.

(** What the answers look at *)
Definition hands (w : World) := (hooks w, slot (session w), accepted w, answers w).
Definition untouched (w w' : World) : Prop := hands w' = hands w /\ (next_id w <= next_id w')%nat.

Lemma asked_untouched w w' : untouched w w' -> asked w -> asked w'.
Proof. intros [[= E1 E2 E3 E4 E5 E6] Hn]. apply asked_same; try done. unfold slot. congruence. Qed.
Lemma untouched_trans w1 w2 w3 : untouched w1 w2 -> untouched w2 w3 -> untouched w1 w3.
Proof. intros [E1 H1] [E2 H2]. split; [congruence|lia]. Qed.
Lemma untouched_session f w : slot (f (session w)) = slot (session w) -> untouched w (on_session f w).
Proof. intros E. split; [|done]. unfold hands, on_session. cbn. by rewrite E. Qed.
Lemma untouched_resume w : untouched w (resume_idle_reader w).
Proof.
  unfold resume_idle_reader. destruct (may_resume _ _); [|done]. destruct (client (session w)); [|done]. split; [done|]. cbn. lia.
Qed.
Lemma untouched_pause w : untouched w (fst (pause_idle_reader w)).
Proof. unfold pause_idle_reader. by destruct (running w). Qed.
Lemma untouched_paused p w : untouched w (reader_paused p w).
Proof. unfold reader_paused. by destruct (bool_decide _). Qed.
Lemma untouched_reader_ends p b w : untouched w (reader_ends p b w).
Proof. unfold reader_ends. destruct b; (eapply untouched_trans; [|apply untouched_paused]); done. Qed.
Lemma untouched_commits t n s w w0 : untouched w w0 -> slot s = slot (session w0) -> untouched w (commits t n s w0).
Proof.
  intros H E. eapply untouched_trans; [exact H|]. unfold commits. destruct (_ =? _); (split; [|done]); unfold hands; cbn; by rewrite E.
Qed.
Lemma untouched_set_pc t p w w0 : untouched w w0 -> untouched w (set_pc t p w0).
Proof. done. Qed.

Lemma untouched_reads t n c w w0 : untouched w w0 -> untouched w (start_reading t n c w0).
Proof.
  intros H. unfold start_reading. apply untouched_set_pc. eapply untouched_trans; [exact H|]. apply untouched_session.
  by destruct (job <$> tasks w0 !! t) as [[]|].
Qed.
Lemma untouched_pauses t n c w : untouched w (pause_and_read t n c w).
Proof.
  unfold pause_and_read. pose proof (untouched_pause w) as H. destruct (pause_idle_reader w) as [w1 [p|]]; [done|by apply untouched_reads].
Qed.
Lemma untouched_runs t n c w : untouched w (run_turn t n c w).
Proof.
  unfold run_turn. destruct (job <$> tasks w !! t) as [[]|]; try apply untouched_pauses. destruct (running w); [apply untouched_pauses|done].
Qed.
Lemma untouched_drops t n c w w0 : untouched w w0 -> untouched w (drop_client t n c w0).
Proof.
  intros H. unfold drop_client. pose proof (untouched_pause w0) as H0. destruct (pause_idle_reader w0) as [w1 p].
  apply untouched_set_pc. by eapply untouched_trans.
Qed.
Lemma untouched_begins mono t n registers w w0 : untouched w w0 -> untouched w (begin_and_offer session_id mono t n registers w0).
Proof.
  intros H. unfold begin_and_offer, _begin_active_response. destruct (active_response_id (session w0)); [done|]. by destruct registers.
Qed.
Lemma untouched_closes now t j n state w w0 : untouched w w0 -> untouched w (close_turn session_id now t j n state w0).
Proof.
  intros H. eapply untouched_trans; [exact H|]. clear H w. unfold close_turn.
  assert (slot (fst (_finish_active_response now (response_id n) state (session w0))) = slot (session w0)) as E
    by (unfold _finish_active_response; by destruct (bool_decide _)).
  pose proof (untouched_resume (release w0)) as K. set (w1 := resume_idle_reader (release w0)) in *. clearbody w1.
  destruct (_finish_active_response now (response_id n) state (session w0)) as [s b]. cbn [fst] in E.
  assert (untouched w0 (if b then resume_idle_reader (with_session s w0) else with_session s w0)) as K2.
  { assert (untouched w0 (with_session s w0)) as K0 by (split; [|done]; unfold hands; cbn; by rewrite E).
    destruct b; [|done]. eapply untouched_trans; [exact K0|apply untouched_resume]. }
  set (w2 := if b then _ else _) in *. clearbody w2.
  destruct j as [[]|[]]; [exact K2|done| |exact K2|exact K]. destruct (bool_decide _); exact K2.
Qed.

Lemma advances_slot n s s' : advances n s s' -> slot s' = slot s.
Proof. by intros [[_ E] _]. Qed.

(** However a turn ends, the slot is left as it is. *)
Lemma untouched_turn_ends now t j n c e w w' : turn_ends session_id usage t now j n c e w = Some w' -> untouched w w'.
Proof.
  assert (forall b, untouched w (on_session (stream_over b) w)) as Hb by (intros b; by destruct b).
  unfold turn_ends.
  destruct j as [[] is_new prev resolved prompt|[] wanted output], e as [broken found store r|success|timed_out broken found store col]; try done; intros [= <-].
  - unfold stream_ends. set (w0 := on_session (stream_over broken) w). pose proof (Hb broken : untouched w w0) as H0.
    pose proof (after_stream_advances now found store (prompt_of (Fresh Streamed is_new prev resolved prompt)) (response_id n) n r (session w0)) as Ha.
    destruct (after_stream _ _ _ _ _ _ _ _ _) as [[? r'] s']. apply advances_slot in Ha.
    destruct (_ || _); [apply untouched_set_pc|apply untouched_drops]; by apply untouched_commits.
  - unfold stream_cut. destruct success; [done|by apply untouched_drops].
  - unfold connected_ends. set (w0 := on_session (stream_over broken) w). pose proof (Hb broken : untouched w w0) as H0.
    assert (untouched w (let (w, p) := pause_idle_reader (release w0) in set_pc t (LateDropping c p) w)) as Hf.
    { pose proof (untouched_pause (release w0)) as H. destruct (pause_idle_reader (release w0)) as [w1 p]. apply untouched_set_pc.
      eapply untouched_trans; [|exact H]. apply Hb. }
    destruct col as [col|]; [|done].
    pose proof (finish_plain_advances now found store prompt (response_id n) n col (session w0)) as Ha.
    pose proof (fun e => finish_plain_uncommitted now found store prompt (response_id n) n col (session w0) e) as Hu.
    destruct (finish_plain _ _ _ _ _ _ _ _ _) as [s' [resp|e]]; apply advances_slot in Ha; cbn [fst snd] in *.
    + apply untouched_set_pc. by apply (untouched_commits t n s' w w0).
    + rewrite (Hu e eq_refl). replace (with_session (session w0) w0) with w0 by (by destruct w0). exact Hf.
  - unfold background_ends. set (w0 := on_session (stream_over broken) w). pose proof (Hb broken : untouched w w0) as H0.
    destruct col as [col|]; [|destruct timed_out; by apply untouched_drops].
    pose proof (finish_background_advances now found store prompt (response_id n) n col (session w0)) as Ha.
    destruct (finish_background _ _ _ _ _ _ _ _ _) as [s' [code message|st resp]]; apply advances_slot in Ha.
    + apply untouched_drops. eapply untouched_trans; [apply Hb|]. split; [|done]. unfold hands. cbn in *. by rewrite Ha.
    + apply untouched_set_pc. by apply untouched_commits.
  - unfold stream_ends. set (w0 := on_session (stream_over broken) w). pose proof (Hb broken : untouched w w0) as H0.
    pose proof (after_stream_advances now found store (prompt_of (Answer true wanted output)) (response_id n) n r (session w0)) as Ha.
    destruct (after_stream _ _ _ _ _ _ _ _ _) as [[? r'] s']. apply advances_slot in Ha.
    destruct (_ || _); [apply untouched_set_pc|apply untouched_drops]; by apply untouched_commits.
  - unfold stream_cut. destruct success; [done|by apply untouched_drops].
  - unfold continuation_ends. set (w0 := on_session _ w). assert (untouched w w0) as H0 by (subst w0; by destruct broken).
    destruct col as [col|]; [|by apply untouched_drops].
    pose proof (finish_continuation_advances now found store (response_id n) n col (session w0)) as Ha.
    destruct (finish_continuation _ _ _ _ _ _ _ _) as [s' [resp|e]]; apply advances_slot in Ha.
    + apply untouched_closes. by apply untouched_commits.
    + apply untouched_drops. eapply untouched_trans; [exact H0|]. split; [|done]. unfold hands. cbn in *. by rewrite Ha.
Qed.

Lemma asked_session s w : slot s = slot (session w) -> asked w -> asked (with_session s w).
Proof. intros E. apply asked_untouched. split; [|done]. unfold hands. cbn. by rewrite E. Qed.

Lemma preflight_slot now resolved is_new turn msgs s s' b n :
  acquire_session_preflight now session_id resolved base is_new turn msgs s = Ok (s', b, n) -> slot s' = slot s.
Proof.
  unfold acquire_session_preflight. destruct (match turn with Some _ => _ | None => _ end); [|done]. cbn.
  destruct (negb _ && _ && _); [done|]. intros [= <- _ _]. destruct msgs, is_new as [[]|]; try done; cbn; by destruct (bool_decide (messages s = [])).
Qed.

Lemma asked_takes now t j w : (forall streamed wanted output, j = Answer streamed wanted output -> settled w = true) -> asked w ->
  asked (take_lock session_id base now t j w).
Proof.
  intros Hs A. unfold take_lock. destruct j as [m is_new prev resolved prompt|streamed wanted output].
  - destruct (acquire_session_preflight _ _ _ _ _ _ _ _) as [[[s b] n]|] eqn:Ep; [|by apply (asked_untouched w)]. apply preflight_slot in Ep.
    pose proof (asked_session s w Ep A) as A1. destruct (client s); [by eapply (asked_untouched (with_session s w))|].
    unfold before_client_start. destruct (_clear_stale_pending_tool_call s) as [s1 e] eqn:Ec.
    pose proof (asked_cleared (with_session s w) s1 e Ec A1) as A2. by destruct e; eapply asked_untouched, A2.
  - destruct (_unblock_pending_tool_call _ _ _ _) as [s|] eqn:Eu; [|by apply (asked_untouched w)].
    eapply asked_untouched, (asked_accepts wanted output s w Eu (Hs _ _ _ eq_refl) A). done.
Qed.

(** The answer of the slot is committed, and its call woken. *)
Lemma asked_commits w : asked w -> asked (wake (input_event (session w)) (with_session (set_pending_tool_call None (session w)) w)).
Proof.
  intros A. pose proof A as [A1 A2 A3 A4 A5].
  assert (asked (with_session (set_pending_tool_call None (session w)) w)) as K by (by split; cbn).
  destruct (input_event (session w)) as [e|] eqn:Ee; [|done]. apply asked_wake; [|done]. intros o _. exact Ee.
Qed.

Lemma asked_disconnects t c w : asked w -> asked (disconnect t c w).
Proof.
  intros A. unfold disconnect, _disconnect_session_client. destruct (_clear_stale_pending_tool_call (session w)) as [s e] eqn:Ec.
  pose proof (asked_cleared w s e Ec A) as A1.
  assert (forall s', slot s' = slot s -> asked (wake e (with_session s' w))) as K.
  { intros s' Es. refine (asked_untouched (wake e (with_session s w)) _ _ A1). destruct e; (split; [|done]); unfold hands; cbn; by rewrite Es. }
  destruct (match c with Some _ => _ | None => _ end) as [c'|]; [|by apply K].
  assert (asked (wake e (with_session (let s := if bool_decide (client s = Some c') then set_client None s else s in
    match client s with None => reset_active_tasks s | Some _ => s end) w))) as K2.
  { apply K. cbn zeta. destruct (bool_decide _); cbn; [done|]. by destruct (client s). }
  refine (asked_untouched _ _ _ K2). done.
Qed.

Lemma exec_asked w e w' : exec session_id base usage w e = Some w' -> (takes_answer w e = true -> settled w = true) -> asked w -> asked w'.
Proof.
  intros He Hp A. pose proof (fun w' H => asked_untouched w w' H A) as K.
  destruct e as [j|t now|t mono created|t|t mono|t|t|t|t now e|t|t now|t now|t|t|p ended| |tool call input appr|e|e|turn registered can|i ok|t mono chunk ts];
    cbn [exec] in He; unfold step_task in He; try (destruct (tasks w !! t) as [k|] eqn:Hk; [|done]).
  - injection He as <-. apply K. split; [done|]. cbn. lia.
  - destruct (pc k); try done. destruct (lock w); [done|]. injection He as <-.
    apply asked_takes; [|done]. intros streamed wanted output Ej. apply Hp. cbn. rewrite Hk. cbn. by rewrite Ej.
  - destruct (pc k); try done. injection He as <-. apply K. unfold client_ready.
    assert (untouched w (on_session (fun s => match client s with Some _ => s | None => set_client (Some created) s end) w)) as H0
      by (apply untouched_session; by destruct (client (session w))).
    set (w0 := on_session _ w) in *. clearbody w0.
    destruct (job k) as [[]|]; [by apply untouched_begins| |by apply untouched_begins|by apply untouched_set_pc].
    eapply untouched_trans; [exact H0|apply untouched_runs].
  - destruct (pc k); try done. injection He as <-. by apply K.
  - destruct (job k) as [|streamed wanted output]; [done|]. destruct (pc k); try done. injection He as <-.
    unfold answer_drained, _commit_pending_tool_call_locked.
    pose proof (asked_commits w A) as A1. set (w0 := wake _ _) in *. refine (asked_untouched w0 _ _ A1).
    destruct streamed; [by apply untouched_begins|apply untouched_runs].
  - destruct (pc k); try done. injection He as <-. apply K, untouched_runs.
  - destruct (pc k); try done. injection He as <-. apply K, untouched_pauses.
  - destruct (pc k); try done. destruct (free _ w); [|done]. injection He as <-. apply K, untouched_reads, untouched_paused.
  - destruct (pc k); try done. by eapply K, untouched_turn_ends.
  - destruct (pc k); try done; (destruct (free _ w); [|done]); injection He as <-; refine (asked_untouched _ _ _ (asked_disconnects t c w A)); by apply untouched_set_pc.
  - destruct (pc k); try done; injection He as <-; apply K; [by apply untouched_closes|done].
  - destruct (pc k); try done; injection He as <-; apply K; by apply untouched_closes.
  - destruct (pc k); try done; injection He as <-; apply K. apply untouched_set_pc, untouched_resume.
  - apply K. unfold abandoned in He. destruct (job k) as [[]|[]], (pc k); try done; by injection He as <-.
  - destruct (readers w !! p); [|done]. injection He as <-. apply K, untouched_reader_ends.
  - injection He as <-. apply K. unfold resume_idle_reader_between_turns. destruct (lock w); [done|apply untouched_resume].
  - injection He as <-. destruct (park tool call input appr (next_id w) (session w)) as [s|] eqn:Ep; [|done]. by eapply asked_park.
  - destruct (hooks w !! e) as [[call []]|] eqn:Eh; try done. pose proof (asked_unpark true w e _ Eh A) as [B1 B2 B3 B4 B5].
    unfold unpark in He. injection He as <-. split; try done. cbn. intros c a. rewrite elem_of_app, list_elem_of_singleton.
    intros [H|[= -> ->]]; [by apply A|]. by apply (asked_answer w e call Eh A).
  - destruct (hooks w !! e) as [h|] eqn:Eh; [|done]. injection He as <-. exact (asked_unpark false w e h Eh A).
  - assert (slot (fst (cancel_response registered can (response_id turn) turn (session w))) = slot (session w)) as E
      by (unfold cancel_response; repeat case_match; done).
    destruct (cancel_response _ _ _ _ _) as [s r]. injection He as <-. cbn in E.
    refine (asked_untouched (with_session s w) _ _ (asked_session s w E A)). by destruct r as [[c|]|].
  - destruct (interrupting w !! i) as [[id c]|]; [|done]. injection He as <-. apply K. destruct ok; [done|].
    split; [|done]. unfold hands, on_session, cancel_failed. cbn. by destruct (_ && _).
  - destruct (pc k); try done. injection He as <-. by apply K, untouched_session.
Qed.

Lemma run_asked l w w' : run session_id base usage w l = Some w' -> promptly session_id base usage w l = true -> asked w -> asked w'.
Proof.
  revert w. induction l as [|e l IH]; intros w Hr Hp A; cbn in Hr; [by injection Hr as <-|]. cbn [promptly] in Hp. apply andb_true_iff in Hp as [Hp1 Hp2].
  destruct (exec session_id base usage w e) as [w1|] eqn:He; [|by rewrite run_none in Hr]. eapply IH; [exact Hr|done|]. eapply exec_asked; [done| |done].
  intros Ht. by rewrite Ht in Hp1.
Qed.

(** *** Every turn ends *)

(** The steps a task can still take *)
Definition rank (p : Pc) : nat :=
  match p with
  | Waiting => 9
  | Starting _ => 8
  | Draining _ => 7
  | Offered _ _ => 6
  | Sweeping _ _ => 5
  | Pausing _ _ _ => 4
  | Reading _ _ => 3
  | Dropping _ _ _ | LateDropping _ _ => 2
  | Closing _ _ | Disconnecting _ | LateDisconnecting | Logging => 1
  | Lost _ _ | Done => 0
  end.

(** A step of a task goes on to a later place, of the same turn; only an answer is drained. *)
Definition descends (j : Job) (p p' : Pc) : bool :=
  (rank p' <? rank p)%nat
  && match holding p, holding p' with Some n, Some m => n =? m | _, _ => true end
  && match p', j with Draining _, Fresh _ _ _ _ _ => false | _, _ => true end.

(** The events by which a task goes on *)
Definition acts (t : nat) (e : Event) : bool :=
  match e with
  | TakeLock u _ | ClientReady u _ _ | ClientFails u | Drained u _ | Runs u | Swept u | Paused u | Ends u _ _ | Dropped u
  | Disconnected u _ | Closes u _ | Logged u | Abandoned u => (u =? t)%nat
  | _ => false
  end.

(** The task [t] goes on to a place where [P] holds, and no other task moves. *)
Definition lands (t : nat) (P : Pc -> Prop) (w w' : World) : Prop :=
  exists p, P p /\ tasks w' = alter (fun k => MkTask (job k) p) t (tasks w).

Lemma lands_set_pc t (P : Pc -> Prop) p w w1 : P p -> tasks w1 = tasks w -> lands t P w (set_pc t p w1).
Proof. intros Hp E. exists p. cbn. by rewrite E. Qed.
Lemma lands_from t P w0 w w' : tasks w = tasks w0 -> lands t P w w' -> lands t P w0 w'.
Proof. intros E (p & Hp & Ht). exists p. by rewrite <- E. Qed.
Lemma lands_to t P w w' w1 : tasks w1 = tasks w' -> lands t P w w' -> lands t P w w1.
Proof. intros E (p & Hp & Ht). exists p. by rewrite E. Qed.
Lemma lands_weaken t (P Q : Pc -> Prop) w w' : (forall p, P p -> Q p) -> lands t P w w' -> lands t Q w w'.
Proof. intros H (p & Hp & Ht). exists p. auto. Qed.

(** Later in the turn [n] *)
Definition later (n : Z) (r : nat) (p : Pc) : Prop :=
  (rank p < r)%nat /\ (holding p = Some n \/ holding p = None) /\ match p with Draining _ | Lost _ _ => False | _ => True end.

Lemma lands_later t n r r' w w' : (r <= r')%nat -> lands t (later n r) w w' -> lands t (later n r') w w'.
Proof. intros H. apply lands_weaken. intros p (? & ? & ?). split; [lia|done]. Qed.

Lemma lands_reads t n c w : lands t (later n 4) w (start_reading t n c w).
Proof. apply lands_set_pc; [|done]. split; [cbn; lia|]. by split; [left|]. Qed.
Lemma lands_pauses t n c w : lands t (later n 5) w (pause_and_read t n c w).
Proof.
  unfold pause_and_read. pose proof (beside_pause w) as (Ht & _). destruct (pause_idle_reader w) as [w1 [p|]]; cbn in Ht.
  - apply lands_set_pc; [|done]. split; [cbn; lia|]. by split; [left|].
  - eapply lands_later, lands_from, lands_reads; [lia|done].
Qed.
Lemma lands_runs t n c w : lands t (later n 6) w (run_turn t n c w).
Proof.
  unfold run_turn. destruct (job <$> tasks w !! t) as [[]|]; try (eapply lands_later, lands_pauses; lia).
  destruct (running w); [eapply lands_later, lands_pauses; lia|].
  apply lands_set_pc; [|done]. split; [cbn; lia|]. by split; [left|].
Qed.
Lemma lands_begins t n mono registers w : lands t (later n 7) w (begin_and_offer session_id mono t n registers w).
Proof.
  unfold begin_and_offer. destruct (_begin_active_response _ _ _ _ _); (apply lands_set_pc; [|by destruct registers]); (split; [cbn; lia|]);
    cbn; auto.
Qed.
Lemma lands_drops t n c w : lands t (later n 3) w (drop_client t n c w).
Proof.
  unfold drop_client. pose proof (beside_pause w) as (Ht & _). destruct (pause_idle_reader w) as [w1 p].
  apply lands_set_pc; [|done]. split; [cbn; lia|]. by split; [left|].
Qed.
Lemma lands_disconnects t (c : option nat) w : tasks (disconnect t c w) = tasks w.
Proof. apply beside_disconnect. Qed.
Lemma resume_tasks w : tasks (resume_idle_reader w) = tasks w.
Proof. apply beside_resume. Qed.
Lemma lands_closes t now n j state w : lands t (later n 1) w (close_turn session_id now t j n state w).
Proof.
  assert (later n 1 Done) as Hd by (split; [cbn; lia|]; cbn; auto).
  unfold close_turn. destruct (_finish_active_response _ _ _ _) as [s b].
  assert (tasks (if b then resume_idle_reader (with_session s w) else with_session s w) = tasks w) as Ht
    by (destruct b; [by rewrite resume_tasks|done]).
  set (w2 := if b then _ else _) in *. clearbody w2.
  destruct j as [[]|[]]; [exact (lands_set_pc _ _ _ _ _ Hd Ht)|by apply lands_set_pc| |exact (lands_set_pc _ _ _ _ _ Hd Ht)|].
  { destruct (bool_decide _); exact (lands_set_pc _ _ _ _ _ Hd Ht). }
  apply (lands_to _ _ _ (set_pc t Done (release w))); [by rewrite resume_pc, resume_tasks|by apply lands_set_pc].
Qed.

Lemma lands_turn_ends now t j n c e w w' : turn_ends session_id usage t now j n c e w = Some w' -> lands t (later n 3) w w'.
Proof.
  assert (forall w0, tasks w0 = tasks w -> lands t (later n 3) w (drop_client t n c w0)) as Hd
    by (intros w0 E; eapply lands_from, lands_drops; done).
  assert (forall w0 st s, tasks w0 = tasks w -> lands t (later n 3) w (set_pc t (Closing n st) (commits t n s w0))) as Hc.
  { intros w0 st s E. apply lands_set_pc; [split; [cbn; lia|]; cbn; auto|by rewrite commits_tasks]. }
  unfold turn_ends.
  destruct j as [[] is_new prev resolved prompt|[] wanted output], e as [broken found store r|success|timed_out broken found store col]; try done; intros [= <-].
  - unfold stream_ends. destruct (after_stream _ _ _ _ _ _ _ _ _) as [[? r'] s']. destruct (_ || _); [by apply Hc|apply Hd; by rewrite commits_tasks].
  - unfold stream_cut. destruct success; [|by apply Hd]. apply lands_set_pc; [split; [cbn; lia|]; cbn; auto|done].
  - unfold connected_ends. set (w0 := on_session (stream_over broken) w).
    assert (lands t (later n 3) w (let (w, p) := pause_idle_reader (release w0) in set_pc t (LateDropping c p) w)) as Hf.
    { pose proof (beside_pause (release w0)) as (Ht & _). destruct (pause_idle_reader (release w0)) as [w1 p].
      apply lands_set_pc; [split; [cbn; lia|]; cbn; auto|done]. }
    destruct col as [col|]; [|done]. destruct (finish_plain _ _ _ _ _ _ _ _ _) as [s' [resp|]]; [|].
    + apply lands_set_pc; [|by apply (commits_tasks t n s' w0)]. destruct (bool_decide _); (split; [cbn; lia|]); cbn; auto.
    + pose proof (beside_pause (release (with_session s' w0))) as (Ht & _). destruct (pause_idle_reader (release (with_session s' w0))) as [w1 p].
      apply lands_set_pc; [split; [cbn; lia|]; cbn; auto|done].
  - unfold background_ends. destruct col as [col|]; [|destruct timed_out; by apply Hd].
    destruct (finish_background _ _ _ _ _ _ _ _ _) as [s' [code message|st resp]]; [by apply Hd|by apply Hc].
  - unfold stream_ends. destruct (after_stream _ _ _ _ _ _ _ _ _) as [[? r'] s']. destruct (_ || _); [by apply Hc|apply Hd; by rewrite commits_tasks].
  - unfold stream_cut. destruct success; [|by apply Hd]. apply lands_set_pc; [split; [cbn; lia|]; cbn; auto|done].
  - unfold continuation_ends. destruct col as [col|]; [|by apply Hd].
    destruct (finish_continuation _ _ _ _ _ _ _ _) as [s' [resp|]]; [|by apply Hd].
    eapply lands_later, lands_from, lands_closes; [lia|by rewrite commits_tasks].
Qed.

Definition lost (p : Pc) : bool := match p with Lost _ _ => true | _ => false end.
Definition gives_up (e : Event) : bool := match e with Abandoned _ => true | _ => false end.

(** Where a step of its own takes a task *)
Definition next (e : Event) (k : Task) (p : Pc) : Prop := descends (job k) (pc k) p = true /\ (gives_up e = false -> lost p = false).

Lemma descends_rank j p p' : descends j p p' = true -> (rank p' < rank p)%nat.
Proof. unfold descends. intros H. apply andb_true_iff in H as [H _]. apply andb_true_iff in H as [H _]. by apply Nat.ltb_lt. Qed.
Lemma later_next n r k p e : later n r p -> holding (pc k) = Some n -> (r <= rank (pc k))%nat -> next e k p.
Proof.
  intros (H1 & H2 & H3) Hh Hr. unfold next, descends. rewrite Hh. rewrite (proj2 (Nat.ltb_lt _ _)) by lia.
  destruct H2 as [H2|H2]; rewrite H2, ?Z.eqb_refl; by destruct p.
Qed.

Lemma lands_takes t now k w : pc k = Waiting -> lands t (fun p => descends (job k) (pc k) p = true /\ lost p = false) w (take_lock session_id base now t (job k) w).
Proof.
  intros Hpc. unfold take_lock. rewrite Hpc. destruct (job k) as [m is_new prev resolved prompt|streamed wanted output].
  - destruct (acquire_session_preflight _ _ _ _ _ _ _ _) as [[[s b] n]|]; [|by apply lands_set_pc].
    destruct (client s); [by apply lands_set_pc|]. destruct (before_client_start s) as [s1 [e|]]; by apply lands_set_pc.
  - destruct (_unblock_pending_tool_call _ _ _ _); by apply lands_set_pc.
Qed.

Lemma exec_own t e w w' : exec session_id base usage w e = Some w' -> acts t e = true ->
  exists k, tasks w !! t = Some k /\ lands t (next e k) w w'.
Proof.
  intros He Ha.
  destruct e as [j|u now|u mono created|u|u mono|u|u|u|u now e|u|u now|u now|u|u|p ended| |tool call input appr|e|e|turn registered can|i ok|u mono chunk ts];
    try done; cbn [acts] in Ha; apply Nat.eqb_eq in Ha as ->; cbn [exec] in He; unfold step_task in He; (destruct (tasks w !! t) as [k|] eqn:Hk; [|done]); exists k; (split; [done|]);
    assert (forall e n r w', holding (pc k) = Some n -> (r <= rank (pc k))%nat -> lands t (later n r) w w' -> lands t (next e k) w w') as K
      by (intros e0 n r w1 H1 H2; apply lands_weaken; intros p Hp; by eapply later_next).
  - destruct (pc k) eqn:Hpc; try done. destruct (lock w); [done|].
    injection He as <-.
    eapply lands_weaken, (lands_takes t now k); [|done]. by intros p [? ?].
  - destruct (pc k) as [|n| | | | | | | | | | | | |] eqn:Hpc; try done. injection He as <-. unfold client_ready.
    set (w0 := on_session _ w). assert (tasks w0 = tasks w) as Ht by done. clearbody w0.
    destruct (job k) as [[]|] eqn:Ej.
    1, 3: refine (K _ n 7%nat _ eq_refl _ (lands_from _ _ _ _ _ Ht (lands_begins _ _ _ _ _))); cbn; lia.
    { refine (K _ n 6%nat _ eq_refl _ (lands_from _ _ _ _ _ Ht (lands_runs _ _ _ _))); cbn; lia. }
    apply lands_set_pc; [|done]. unfold next, descends. rewrite Hpc, Ej. cbn. by rewrite Z.eqb_refl.
  - destruct (pc k) as [|n| | | | | | | | | | | | |] eqn:Hpc; try done. injection He as <-.
    apply lands_set_pc; [|done]. unfold next, descends. by rewrite Hpc.
  - destruct (job k) as [|streamed wanted output] eqn:Ej; [done|]. destruct (pc k) as [| |n| | | | | | | | | | | |] eqn:Hpc; try done. injection He as <-.
    unfold answer_drained, _commit_pending_tool_call_locked. set (w0 := wake _ _).
    assert (tasks w0 = tasks w) as Ht by (subst w0; by destruct (input_event (session w))).
    destruct streamed.
    + refine (K _ n 7%nat _ eq_refl _ (lands_from _ _ _ _ _ Ht (lands_begins _ _ _ _ _))); cbn; lia.
    + refine (K _ n 6%nat _ eq_refl _ (lands_from _ _ _ _ _ Ht (lands_runs _ _ _ _))); cbn; lia.
  - destruct (pc k) as [| | |n c| | | | | | | | | | |] eqn:Hpc; try done. injection He as <-. eapply K, lands_runs; [done|cbn; lia].
  - destruct (pc k) as [| | | |n c| | | | | | | | | |] eqn:Hpc; try done. injection He as <-. eapply K, lands_pauses; [done|cbn; lia].
  - destruct (pc k) as [| | | | |n c r| | | | | | | | |] eqn:Hpc; try done. destruct (free _ w); [|done]. injection He as <-.
    eapply K, lands_from, lands_reads; [done|cbn; lia|]. apply beside_paused.
  - destruct (pc k) as [| | | | | |n c| | | | | | | |] eqn:Hpc; try done. eapply K, lands_turn_ends; [done|cbn; lia|exact He].
  - destruct (pc k) as [| | | | | | | |n c r| | |c r| | |] eqn:Hpc; try done; (destruct (free _ w); [|done]); injection He as <-;
      (apply lands_set_pc; [|apply lands_disconnects; done]); unfold next, descends; rewrite Hpc; cbn; by rewrite ?Z.eqb_refl.
  - destruct (pc k) as [| | | | | | | | |n| | | | |] eqn:Hpc; try done; injection He as <-; [eapply K, lands_closes; [done|cbn; lia]|].
    apply lands_set_pc; [|done]. unfold next, descends. by rewrite Hpc.
  - destruct (pc k) as [| | | | | | |n st| | | | | | |] eqn:Hpc; try done; injection He as <-. eapply K, lands_closes; [done|cbn; lia].
  - destruct (pc k) eqn:Hpc; try done; injection He as <-. apply lands_set_pc; [|apply resume_tasks]. unfold next, descends. by rewrite Hpc.
  - unfold abandoned in He. destruct (job k) as [[]|[]] eqn:Ej, (pc k) as [|n|n|n c| | | | | | | | | | |] eqn:Hpc; try done; injection He as <-;
      (apply lands_set_pc; [|done]); unfold next, descends; rewrite Hpc; cbn; by rewrite ?Z.eqb_refl.
Qed.

(** The steps of others leave it where it is. *)
Lemma exec_other start t e k w w' : exec session_id base usage w e = Some w' -> acts t e = false -> serial start w ->
  tasks w !! t = Some k -> tasks w' !! t = Some k.
Proof.
  intros He Ha S Hk.
  assert (forall u, acts u e = true -> tasks w' !! t = Some k) as Hother.
  { intros u Hu. destruct (exec_own u e w w' He Hu) as (k0 & _ & p & _ & ->). rewrite lookup_alter_ne; [done|]. intros ->. congruence. }
  assert (tasks w' = tasks w -> tasks w' !! t = Some k) as Hsame by (by intros ->).
  destruct e as [j|u now|u mono created|u|u mono|u|u|u|u now e|u|u now|u now|u|u|p ended| |tool call input appr|e|e|turn registered can|i ok|u mono chunk ts];
    try (apply (Hother u); cbn; apply Nat.eqb_refl); cbn [exec] in He.
  - injection He as <-. cbn. pose proof (s_next _ _ S t ltac:(eauto)). by rewrite lookup_insert_ne by lia.
  - apply Hsame. destruct (readers w !! p); [|done]. injection He as <-. apply beside_reader_ends.
  - apply Hsame. injection He as <-. unfold resume_idle_reader_between_turns. destruct (lock w); [done|apply resume_tasks].
  - apply Hsame. injection He as <-. by destruct (park _ _ _ _ _ _).
  - apply Hsame. destruct (hooks w !! e) as [[call []]|]; try done. destruct (unpark true e (session w)). by injection He as <-.
  - apply Hsame. destruct (hooks w !! e); [|done]. by injection He as <-.
  - apply Hsame. destruct (cancel_response _ _ _ _ _) as [s r]. injection He as <-. by destruct r as [[c|]|].
  - apply Hsame. destruct (interrupting w !! i) as [[id c]|]; [|done]. injection He as <-. by destruct ok.
  - apply Hsame. unfold step_task in He. destruct (tasks w !! u) as [k'|]; [|done]. destruct (pc k'); try done. by injection He as <-.
Qed.

(** Of one task *)
Lemma exec_task start t e k w w' : exec session_id base usage w e = Some w' -> serial start w -> tasks w !! t = Some k ->
  exists p, tasks w' !! t = Some (MkTask (job k) p) /\ (if acts t e then next e k p else p = pc k).
Proof.
  intros He S Hk. destruct (acts t e) eqn:Ha.
  - destruct (exec_own t e w w' He Ha) as (k0 & Hk0 & p & Hp & ->). rewrite Hk in Hk0. injection Hk0 as <-. exists p. split; [|done].
    by rewrite lookup_alter_eq, Hk.
  - exists (pc k). split; [|done]. rewrite (exec_other start t e k w w' He Ha S Hk). by destruct k.
Qed.

(** *** The lock comes back *)

(** Only an answer is drained. *)
Definition drained (w : World) : Prop :=
  forall t k, tasks w !! t = Some k -> match pc k, job k with Draining _, Fresh _ _ _ _ _ => False | _, _ => True end.

(** Tasks come with a request. *)
Lemma exec_new t e w w' k : exec session_id base usage w e = Some w' -> tasks w !! t = None -> tasks w' !! t = Some k -> rank (pc k) = 9%nat \/ pc k = Done.
Proof.
  intros He Hn Hk.
  assert (forall u, acts u e = true -> rank (pc k) = 9%nat \/ pc k = Done) as Hother.
  { intros u Hu. destruct (exec_own u e w w' He Hu) as (k0 & Hk0 & p & _ & Ht). rewrite Ht in Hk. destruct (decide (t = u)) as [->|Hne]; [congruence|].
    rewrite lookup_alter_ne in Hk by congruence. congruence. }
  assert (tasks w' = tasks w -> rank (pc k) = 9%nat \/ pc k = Done) as Hsame by (intros E; rewrite E in Hk; congruence).
  destruct e as [j|u now|u mono created|u|u mono|u|u|u|u now e|u|u now|u now|u|u|p ended| |tool call input appr|e|e|turn registered can|i ok|u mono chunk ts];
    try (apply (Hother u); cbn; apply Nat.eqb_refl); cbn [exec] in He.
  - injection He as <-. cbn in Hk. apply lookup_insert_Some in Hk as [[_ <-]|[_ Hk]]; [|congruence]. cbn.
    destruct j; [destruct (_reject_while_human_decision_pending (session w))|]; cbn; auto.
  - apply Hsame. destruct (readers w !! p); [|done]. injection He as <-. apply beside_reader_ends.
  - apply Hsame. injection He as <-. unfold resume_idle_reader_between_turns. destruct (lock w); [done|apply resume_tasks].
  - apply Hsame. injection He as <-. by destruct (park _ _ _ _ _ _).
  - apply Hsame. destruct (hooks w !! e) as [[call []]|]; try done. destruct (unpark true e (session w)). by injection He as <-.
  - apply Hsame. destruct (hooks w !! e); [|done]. by injection He as <-.
  - apply Hsame. destruct (cancel_response _ _ _ _ _) as [s r]. injection He as <-. by destruct r as [[c|]|].
  - apply Hsame. destruct (interrupting w !! i) as [[id c]|]; [|done]. injection He as <-. by destruct ok.
  - apply Hsame. unfold step_task in He. destruct (tasks w !! u) as [k'|]; [|done]. destruct (pc k'); try done. by injection He as <-.
Qed.

Lemma exec_drained start e w w' : exec session_id base usage w e = Some w' -> serial start w -> drained w -> drained w'.
Proof.
  intros He S D t k' Hk'. destruct (tasks w !! t) as [k|] eqn:Hk.
  - destruct (exec_task start t e k w w' He S Hk) as (p & Hp & Hnext). rewrite Hk' in Hp. injection Hp as ->. cbn.
    destruct (acts t e); [|subst p; exact (D t k Hk)]. destruct Hnext as [Hd _]. unfold descends in Hd. apply andb_true_iff in Hd as [_ Hd]. by destruct p, (job k).
  - destruct (exec_new t e w w' k' He Hk Hk') as [Hr| ->]; [by destruct (pc k')|done].
Qed.
Lemma run_drained start l w w' : run session_id base usage w l = Some w' -> serial start w -> drained w -> drained w'.
Proof.
  revert w. induction l as [|e l IH]; intros w Hr S D; cbn in Hr; [by injection Hr as <-|].
  destruct (exec session_id base usage w e) as [w1|] eqn:He; [|by rewrite run_none in Hr].
  eapply IH; [exact Hr|by eapply exec_serial|by eapply exec_drained].
Qed.

(** What the holder of the lock does without giving up, and the ends of readers *)
Definition own (t : nat) (e : Event) : bool :=
  acts t e && negb (gives_up e) || match e with ReaderEnds _ _ => true | _ => false end.

Definition goes_on (t : nat) (k : Task) (w' : World) : Prop :=
  exists p, tasks w' !! t = Some (MkTask (job k) p) /\ (rank p < rank (pc k))%nat /\ lost p = false /\ (lock w' = Some t \/ lock w' = None).

Lemma holder_moves start t e k w w' : exec session_id base usage w e = Some w' -> acts t e = true -> gives_up e = false ->
  serial start w -> lock w = Some t -> tasks w !! t = Some k -> goes_on t k w'.
Proof.
  intros He Ha Hg S Hl Hk. destruct (exec_own t e w w' He Ha) as (k0 & Hk0 & p & [Hd Hn] & Ht).
  rewrite Hk in Hk0. injection Hk0 as <-. exists p. split; [by rewrite Ht, lookup_alter_eq, Hk|]. split; [by eapply descends_rank|].
  split; [by apply Hn|]. destruct (lock w') as [u|] eqn:Hu; [|by right]. left. destruct (decide (u = t)) as [->|Hne]; [done|]. exfalso.
  pose proof (exec_serial start w e w' He S) as S'. destruct (s_lock _ _ S' u Hu) as [ku Hku].
  pose proof (s_tasks _ _ S' u ku Hku) as Ok'. unfold task_ok in Ok'.
  rewrite Ht, lookup_alter_ne in Hku by done. destruct (holding (pc ku)) as [n|] eqn:Eh; [|done].
  destruct (task_turn start w u ku n S Hku Eh) as [Hl' _]. congruence.
Qed.

(** Some step of the holder is possible, once the reader it waits for has ended. *)
Definition awaited (p : Pc) : option nat :=
  match p with Pausing _ _ r => Some r | Dropping _ _ r => r | LateDropping _ r => r | _ => None end.

Lemma holder_can start t k w : serial start w -> drained w -> lock w = Some t -> tasks w !! t = Some k -> lost (pc k) = false ->
  free (awaited (pc k)) w = true -> exists e w', exec session_id base usage w e = Some w' /\ acts t e = true /\ gives_up e = false.
Proof.
  intros S D Hl Hk Hlost Hf. pose proof (s_tasks _ _ S t k Hk) as Hok. unfold task_ok in Hok. specialize (D t k Hk).
  assert (forall e w', acts t e = true -> gives_up e = false -> exec session_id base usage w e = Some w' ->
    exists e w', exec session_id base usage w e = Some w' /\ acts t e = true /\ gives_up e = false) as K by eauto 6.
  destruct (pc k) as [|n|n|n c|n c|n c r|n c|n st|n c r|n| |c r| |n b|] eqn:Hpc; cbn [holding] in Hok; try done.
  - eapply (K (ClientReady t 0 0)); [cbn; apply Nat.eqb_refl|done|]. cbn. unfold step_task. by rewrite Hk, Hpc.
  - destruct (job k) as [|streamed wanted output] eqn:Ej; [done|].
    eapply (K (Drained t 0)); [cbn; apply Nat.eqb_refl|done|]. cbn. unfold step_task. by rewrite Hk, Hpc, Ej.
  - eapply (K (Runs t)); [cbn; apply Nat.eqb_refl|done|]. cbn. unfold step_task. by rewrite Hk, Hpc.
  - eapply (K (Swept t)); [cbn; apply Nat.eqb_refl|done|]. cbn. unfold step_task. by rewrite Hk, Hpc.
  - eapply (K (Paused t)); [cbn; apply Nat.eqb_refl|done|]. cbn [exec]. unfold step_task. rewrite Hk, Hpc. cbn [awaited] in Hf. by rewrite Hf.
  - destruct (job k) as [[] is_new prev resolved prompt|[] wanted output] eqn:Ej;
      [eapply (K (Ends t 0 (StreamCut true)))|eapply (K (Ends t 0 (CollectEnds false false true true None)))..
      |eapply (K (Ends t 0 (StreamCut true)))|eapply (K (Ends t 0 (CollectEnds false false true true None)))];
      try (cbn; apply Nat.eqb_refl); try done; cbn [exec]; unfold step_task; by rewrite Hk, Hpc, Ej.
  - eapply (K (Closes t 0)); [cbn; apply Nat.eqb_refl|done|]. cbn. unfold step_task. by rewrite Hk, Hpc.
  - eapply (K (Dropped t)); [cbn; apply Nat.eqb_refl|done|]. cbn [exec]. unfold step_task. rewrite Hk, Hpc. cbn [awaited] in Hf. by rewrite Hf.
  - eapply (K (Disconnected t 0)); [cbn; apply Nat.eqb_refl|done|]. cbn. unfold step_task. by rewrite Hk, Hpc.
Qed.

Lemma holder_goes_on start t k w : serial start w -> drained w -> lock w = Some t -> tasks w !! t = Some k -> lost (pc k) = false ->
  exists l w', run session_id base usage w l = Some w' /\ forallb (own t) l = true /\ (length l <= 2)%nat /\ goes_on t k w'.
Proof.
  intros S D Hl Hk Hlost. destruct (free (awaited (pc k)) w) eqn:Hf.
  - destruct (holder_can start t k w S D Hl Hk Hlost Hf) as (e & w' & He & Ha & Hg). exists [e], w'. cbn [run foldl]. split; [done|].
    split; [unfold own; cbn; by rewrite Ha, Hg|]. split; [cbn; lia|by eapply holder_moves].
  - destruct (awaited (pc k)) as [r|] eqn:Ea; [|done]. cbn in Hf. apply negb_false_iff, bool_decide_eq_true in Hf as [rd Hr].
    assert (exec session_id base usage w (ReaderEnds r false) = Some (reader_ends r false w)) as He1 by (cbn; by rewrite Hr).
    pose proof (beside_reader_ends r false w) as (Ht & Hfr & _). apply frame_inv in Hfr as (Hl1 & _).
    assert (free (Some r) (reader_ends r false w) = true) as Hf1.
    { unfold free, reader_ends. destruct (reader_paused_same r (with_readers (delete r (readers w)) w)) as [_ ->].
      cbn. rewrite lookup_delete_eq. by rewrite bool_decide_false by (by intros []). }
    assert (tasks (reader_ends r false w) !! t = Some k) as Hk1 by (by rewrite Ht).
    pose proof (exec_serial _ _ _ _ He1 S) as S1. pose proof (exec_drained _ _ _ _ He1 S D) as D1.
    set (w1 := reader_ends r false w) in *. clearbody w1.
    destruct (holder_can start t k w1 S1 D1 ltac:(congruence) Hk1 Hlost ltac:(by rewrite Ea)) as (e & w' & He & Ha & Hg).
    exists [ReaderEnds r false; e], w'. split; [unfold run; cbn [foldl]; by rewrite He1, He|]. split; [unfold own; cbn; by rewrite Ha, Hg|]. split; [cbn; lia|].
    eapply holder_moves; [exact He|done|done|exact S1|congruence|done].
Qed.

Lemma run_app w l1 l2 : run session_id base usage w (l1 ++ l2) =
  match run session_id base usage w l1 with Some w1 => run session_id base usage w1 l2 | None => None end.
Proof. unfold run. rewrite foldl_app. destruct (foldl _ (Some w) l1); [done|]. apply run_none. Qed.

Lemma lock_frees start n : forall t k w, (rank (pc k) <= n)%nat -> serial start w -> drained w -> lock w = Some t -> tasks w !! t = Some k ->
  lost (pc k) = false ->
  exists l w', run session_id base usage w l = Some w' /\ forallb (own t) l = true /\ (length l <= 2 * n)%nat /\ lock w' = None.
Proof.
  induction n as [|n IH]; intros t k w Hr S D Hl Hk Hlost;
    destruct (holder_goes_on start t k w S D Hl Hk Hlost) as (l1 & w1 & R1 & O1 & L1 & p & Hk1 & Hp & Hlost1 & Hl1); [lia|].
  destruct Hl1 as [Hl1|Hl1]; [|exists l1, w1; repeat split; [done..|lia|done]].
  destruct (IH t (MkTask (job k) p) w1 ltac:(cbn; lia) (run_serial _ _ _ _ R1 S) (run_drained _ _ _ _ R1 S D) Hl1 Hk1 Hlost1) as (l2 & w2 & R2 & O2 & L2 & H2).
  exists (l1 ++ l2), w2. rewrite run_app, R1. split; [done|]. split; [by rewrite forallb_app, O1, O2|]. split; [rewrite length_app; lia|done].
Qed.

(** A task is lost where it was abandoned. *)
Lemma run_unlost start l t k w w' : run session_id base usage w l = Some w' -> serial start w -> forallb (fun e => negb (gives_up e)) l = true ->
  (forall t k, tasks w !! t = Some k -> lost (pc k) = false) -> tasks w' !! t = Some k -> lost (pc k) = false.
Proof.
  revert w. induction l as [|e l IH]; intros w Hr S Hg Hw Hk; cbn in Hr; [injection Hr as <-; by eapply Hw|].
  destruct (exec session_id base usage w e) as [w1|] eqn:He; [|by rewrite run_none in Hr]. cbn in Hg. apply andb_true_iff in Hg as [Hg1 Hg2].
  apply negb_true_iff in Hg1. eapply IH; [exact Hr|by eapply exec_serial|done| |exact Hk]. intros u ku Hku. destruct (tasks w !! u) as [k0|] eqn:H0.
  - destruct (exec_task start u e k0 w w1 He S H0) as (p & Hp & Hnext). rewrite Hku in Hp. injection Hp as ->. cbn.
    destruct (acts u e); [by apply Hnext|subst p; by eapply Hw].
  - destruct (exec_new u e w w1 ku He H0 Hku) as [Hr0| ->]; [by destruct (pc ku)|done].
Qed.

(** *** From the start *)

(** Nothing runs beside a session at rest. *)
Definition start_world (s : Session) : World := MkWorld s None ∅ ∅ None ∅ [] [] 0 [] 0 [] [] [] [].
Definition at_rest (s : Session) : Prop := active_response_id s = None /\ slot s = (None, None, None).

Lemma start_serial s : at_rest s -> serial (turn_counter s) (start_world s).
Proof.
  intros [Ha _]. split; try done.
  - split; [cbn; lia|done].
  - intros t [k Hk]. cbn in Hk. by rewrite lookup_empty in Hk.
Qed.
Lemma start_quiet s : quiet (start_world s).
Proof. split; try done. intros p. cbn. rewrite lookup_empty. by intros []. Qed.
Lemma start_asked s : at_rest s -> asked (start_world s).
Proof.
  intros [_ [= E1 E2 E3]]. split; cbn; rewrite ?E1, ?E2, ?E3; try done. intros call a H. by apply not_elem_of_nil in H.
Qed.
Lemma start_drained s : drained (start_world s).
Proof. intros t k. cbn. by rewrite lookup_empty. Qed.
Lemma start_unlost s t k : tasks (start_world s) !! t = Some k -> lost (pc k) = false.
Proof. cbn. by rewrite lookup_empty. Qed.
End serial.

(** *** A new session, and its requests *)

Definition new_session : Session :=
  MkSession "" None 0 [] ∅ None None None None None None None None None None None true 0 (new_outbox 100).

Definition session_id_1 : string := "0a1b2c3d-0000-4000-8000-0123456789ab".
Definition no_usage : string -> Z * Z := fun _ => (0, 0).
Definition run_new (l : list Event) : option World := run session_id_1 "base" no_usage (start_world new_session) l.

(** A streamed turn that goes well, and one that continues it. *)
Definition answered (text : string) : StreamResult := MkStreamResult true false false text [] None 7.
Definition asks (m : Mode) (previous : option Z) : Event :=
  Request (Fresh m (match previous with None => true | Some _ => false end) previous "claude" "hello").
Definition streams (t : nat) (text : string) : list Event :=
  [TakeLock t 5; ClientReady t 5 70; Runs t; Swept t; Reads t 6 (JObj [("type", JStr "system"); ("subtype", JStr "task_started"); ("task_id", JStr "b1")]) "now";
   Ends t 6 (StreamEnds false true true (answered text)); Closes t 7].
(** The next turn meets the idle reader that the first one left. *)
Definition continues_1 : list Event :=
  [asks Streamed (Some 1); TakeLock 2 8; ClientReady 2 8 71; Runs 2; ReaderEnds 1 false; Paused 2].

Lemma new_session_rests : at_rest new_session.
Proof. done. Qed.

(** The properties are about worlds that a run from rest reaches. *)
Section properties.
Context (session_id base : string) (usage : string -> Z * Z) (s : Session) (l : list Event) (w : World).
Context (Hs : at_rest s) (Hr : run session_id base usage (start_world s) l = Some w).

Lemma reached_serial : serial session_id (turn_counter s) w.
Proof using Hs Hr. by eapply run_serial, start_serial. Qed.
Lemma reached_asked : promptly session_id base usage (start_world s) l = true -> asked w.
Proof using Hs Hr. intros Hp. eapply run_asked; [exact Hr|done|by apply start_asked]. Qed.
Lemma reached_drained : drained w.
Proof using Hs Hr. eapply run_drained, start_drained; [exact Hr|by apply start_serial]. Qed.
Lemma reached_quiet : forallb unconnected l = true -> quiet w.
Proof using Hs Hr. intros Hu. eapply run_quiet, start_quiet; [exact Hr|done|by apply start_serial]. Qed.
End properties.

(** C5. However the requests of a session are interleaved, its turns are serial: at most one
    of them is past the session lock, [_begin_active_response] never finds another response,
    the turn counter is the number of committed turns, the turns are committed in the order of
    their numbers, a prompt that continues the session commits only as the turn right after the
    one it named (a new session and the answer to a call name none and take the next number),
    and the active response is the one of the turn that holds the lock. *)
Theorem turns_are_serial session_id base usage s l w : at_rest s -> run session_id base usage (start_world s) l = Some w ->
  (forall t1 t2 k1 k2 n1 n2, tasks w !! t1 = Some k1 -> tasks w !! t2 = Some k2 ->
     holding (pc k1) = Some n1 -> holding (pc k2) = Some n2 -> t1 = t2)
  /\ refused_begins w = O
  /\ turn_counter (session w) = turn_counter s + Z.of_nat (length (committed w))
  /\ (forall i t n, committed w !! i = Some (t, n) ->
        n = turn_counter s + 1 + Z.of_nat i /\ exists k, tasks w !! t = Some k /\ continues (job k) n)
  /\ (forall t k n, tasks w !! t = Some k -> holding (pc k) = Some n ->
        active_response_id (session w) = (if publishes (job k) (pc k) then Some (_make_response_id session_id n) else None)
        /\ (undecided (pc k) = true -> n = turn_counter (session w) + 1)).
Proof.
  intros Hs Hr. pose proof (reached_serial _ _ _ _ _ _ Hs Hr) as S. destruct (s_commits _ _ _ S) as [C1 C2].
  split; [|split; [apply (s_begins _ _ _ S)|split; [exact C1|split; [exact C2|]]]].
  - intros t1 t2 k1 k2 n1 n2 H1 H2 P1 P2. destruct (task_turn _ _ _ _ _ _ S H1 P1) as [L1 _]. destruct (task_turn _ _ _ _ _ _ S H2 P2) as [L2 _]. congruence.
  - intros t k n Hk Hh. destruct (task_turn _ _ _ _ _ _ S Hk Hh) as (_ & A & U & _). done.
Qed.

(** C6. Where every turn is streamed, in the background or the answer to a call, a turn reads
    the client of its session alone: while it collects, no idle reader is left and no other
    request is past the lock or still dropping the client. *)
Theorem turn_reads_alone session_id base usage s l w : at_rest s -> run session_id base usage (start_world s) l = Some w ->
  forallb unconnected l = true -> forall t k n c, tasks w !! t = Some k -> pc k = Reading n c ->
  readers w = ∅
  /\ forall t' k', t' <> t -> tasks w !! t' = Some k' -> match pc k' with Waiting | Done => True | _ => False end.
Proof.
  intros Hs Hr Hu t k n c Hk Hpc. pose proof (reached_serial _ _ _ _ _ _ Hs Hr) as S. pose proof (reached_quiet _ _ _ _ _ _ Hs Hr Hu) as Q.
  split; [pose proof (q_needs _ Q t k Hk) as H; by rewrite Hpc in H|]. intros t' k' Hne Hk'.
  assert (holding (pc k') = None) as Hh.
  { destruct (holding (pc k')) as [m|] eqn:E; [|done]. destruct (task_turn _ _ _ _ _ _ S Hk' E) as [L' _].
    destruct (task_turn _ _ _ _ _ n S Hk ltac:(by rewrite Hpc)) as [L _]. congruence. }
  pose proof (q_needs _ Q t' k' Hk') as H. by destruct (pc k').
Qed.

(** C7. A call that waits for a human decision is given an answer that the route accepted for
    that very call, or the empty one: no answer reaches another call, whatever is cleared,
    times out or is parked in between. A hook that was woken has to have gone on before the answer
    to a later call is accepted ([promptly]). *)
Theorem answers_reach_their_call session_id base usage s l w : at_rest s -> run session_id base usage (start_world s) l = Some w ->
  promptly session_id base usage (start_world s) l = true ->
  forall call a, (call, a) ∈ answers w -> a = "" \/ (call, a) ∈ accepted w.
Proof. intros Hs Hr Hp. apply (a_answers _ (reached_asked _ _ _ _ _ _ Hs Hr Hp)). Qed.

(** C8. Where no request was abandoned, the session lock comes back: from every world that is
    reached, steps of the holder alone, and the ends of the idle readers it waits for, lead in at
    most sixteen events to one where the lock is free. *)
Theorem lock_comes_back session_id base usage s l w t : at_rest s -> run session_id base usage (start_world s) l = Some w ->
  forallb (fun e => negb (gives_up e)) l = true -> lock w = Some t ->
  exists l' w', run session_id base usage w l' = Some w' /\ forallb (own t) l' = true /\ (length l' <= 16)%nat /\ lock w' = None.
Proof.
  intros Hs Hr Hg Hl. pose proof (reached_serial _ _ _ _ _ _ Hs Hr) as S. destruct (s_lock _ _ _ S t Hl) as [k Hk].
  assert (lost (pc k) = false) as Hlost by (eapply run_unlost; [exact Hr|by apply start_serial|done|apply start_unlost|exact Hk]).
  refine (lock_frees session_id base usage _ 8 t k w _ S (reached_drained _ _ _ _ _ _ Hs Hr) Hl Hk Hlost).
  pose proof (s_tasks _ _ _ S t k Hk) as Hok. unfold task_ok in Hok. destruct (pc k); cbn in *; try lia. done.
Qed.

(** *** At concrete runs *)

Definition after (l : list Event) : World := default (start_world new_session) (run_new l).
Definition turn_1 : list Event := asks Streamed None :: streams 0 "hi".

Lemma turns_are_serial_witness : run_new (turn_1 ++ continues_1) = Some (after (turn_1 ++ continues_1))
  /\ turn_counter (session (after (turn_1 ++ continues_1))) = 0 + Z.of_nat (length (committed (after (turn_1 ++ continues_1)))).
Proof.
  split; [vm_compute; reflexivity|].
  refine (proj1 (proj2 (proj2 (turns_are_serial session_id_1 "base" no_usage new_session (turn_1 ++ continues_1) _ new_session_rests _)))).
  vm_compute; reflexivity.
Defined.

Lemma turn_reads_alone_witness : run_new (turn_1 ++ continues_1) = Some (after (turn_1 ++ continues_1))
  /\ readers (after (turn_1 ++ continues_1)) = ∅.
Proof.
  split; [vm_compute; reflexivity|].
  refine (proj1 (turn_reads_alone session_id_1 "base" no_usage new_session (turn_1 ++ continues_1) _ new_session_rests _ _
    2%nat (MkTask (Fresh Streamed false (Some 1) "claude" "hello") (Reading 2 (Some 70%nat))) 2 (Some 70%nat) _ _));
    vm_compute; reflexivity.
Defined.

(** A call asks in the first turn, the next one gives the answer. *)
Definition question : list Event :=
  [asks Streamed None; TakeLock 0 5; ClientReady 0 5 70; Runs 0; Swept 0; Parks "AskUserQuestion" "call_1" JNull JNull;
   Ends 0 6 (StreamEnds false true true (answered "")); Closes 0 7].
Definition reply : list Event :=
  [Request (Answer true "call_1" "yes"); TakeLock 2 8; ClientReady 2 8 71; Drained 2 8; Answered 1].

Lemma answers_reach_their_call_witness : run_new (question ++ reply) = Some (after (question ++ reply))
  /\ ("yes" = "" \/ ("call_1", "yes") ∈ accepted (after (question ++ reply))).
Proof.
  split; [vm_compute; reflexivity|].
  refine (answers_reach_their_call session_id_1 "base" no_usage new_session (question ++ reply) _ new_session_rests _ _ "call_1" "yes" _);
    [vm_compute; reflexivity..|]. vm_compute. constructor.
Defined.

(** The second turn waits for the idle reader. *)
Definition waits : list Event := turn_1 ++ firstn 4 continues_1.
Lemma lock_comes_back_witness : run_new waits = Some (after waits) /\ lock (after waits) = Some 2%nat /\ exists l' w',
  run session_id_1 "base" no_usage (after waits) l' = Some w' /\ forallb (own 2) l' = true /\ (length l' <= 16)%nat /\ lock w' = None.
Proof.
  split; [vm_compute; reflexivity|]. split; [vm_compute; reflexivity|].
  refine (lock_comes_back session_id_1 "base" no_usage new_session waits (after waits) 2%nat new_session_rests _ _ _); vm_compute; reflexivity.
Defined.

(** *** What the locks do not order *)

(** A lock that is held by a request that was abandoned is never given back. *)
Lemma lost_keeps_lock session_id base usage start t k w e w' : exec session_id base usage w e = Some w' -> serial session_id start w ->
  lock w = Some t -> tasks w !! t = Some k -> lost (pc k) = true -> lock w' = Some t /\ tasks w' !! t = Some k.
Proof.
  intros He S Hl Hk Hlost. destruct (exec_task _ _ _ _ _ _ _ _ _ He S Hk) as (p & Hp & Hn).
  assert (p = pc k) as ->.
  { destruct (acts t e); [|done]. destruct Hn as [Hd%descends_rank _]. destruct (pc k); cbn in *; try done; lia. }
  assert (tasks w' !! t = Some k) as Hk' by (by destruct k). split; [|done].
  pose proof (s_tasks _ _ _ (exec_serial _ _ _ _ _ _ _ He S) t k Hk') as Hok. unfold task_ok in Hok.
  destruct (pc k); try done. apply Hok.
Qed.

(** A streamed response whose body never runs, and a client start that is cancelled *)
Example body_never_runs : option_map lock (run_new [asks Streamed None; TakeLock 0 5; ClientReady 0 5 70; Abandoned 0]) = Some (Some 0%nat).
Proof. vm_compute. reflexivity. Qed.
Example start_is_cancelled : option_map lock (run_new [asks Streamed None; TakeLock 0 5; Abandoned 0]) = Some (Some 0%nat).
Proof. vm_compute. reflexivity. Qed.

Definition collected (text : string) : Collected := MkCollected None false text text [].
Definition connected_turn (t : nat) : list Event :=
  [TakeLock t 5; ClientReady t 5 70; Swept t; Ends t 6 (CollectEnds false false true true (Some (collected "hi")))].
(** A connected turn that logs its usage resumes the idle reader while the next one reads. *)
Example late_resume_reads_beside :
  option_map (fun w => (readers w !! 2%nat, pc <$> tasks w !! 1%nat))
    (run_new (asks Connected None :: connected_turn 0
       ++ [asks Connected (Some 1); TakeLock 1 8; ClientReady 1 8 71; Swept 1; Logged 0]))
  = Some (Some (MkReader 70 false), Some (Reading 2 (Some 70%nat))).
Proof. vm_compute. reflexivity. Qed.

(** A connected turn that failed drops the client under the turn that follows. *)
Example late_failure_drops_client :
  option_map (fun w => (torn w, client (session w), pc <$> tasks w !! 2%nat))
    (run_new (asks Connected None :: connected_turn 0
       ++ [asks Connected (Some 1); TakeLock 1 8; ClientReady 1 8 71; Swept 1; Ends 1 9 (CollectEnds false false true true None);
           asks Connected (Some 1); TakeLock 2 10; ClientReady 2 10 72; Swept 2; Dropped 1]))
  = Some ([(1%nat, 70%nat)], None, Some (Reading 2 (Some 70%nat))).
Proof. vm_compute. reflexivity. Qed.

(** An interrupt that is on its way when its turn ends reaches the next one, on the same client. *)
Example late_interrupt :
  option_map (fun w => (interrupts w, active_response_id (session w), pc <$> tasks w !! 2%nat))
    (run_new (asks Streamed None :: firstn 4 (streams 0 "hi") ++ [Cancel 1 true true] ++ skipn 4 (streams 0 "hi")
       ++ continues_1 ++ [Interrupted 0 true]))
  = Some ([(_make_response_id session_id_1 1, 70%nat)], Some (_make_response_id session_id_1 2), Some (Reading 2 (Some 70%nat))).
Proof. vm_compute. reflexivity. Qed.

(** The reader of a response goes away when the text is there but the turn is not committed:
    the response is completed, and the turn did not happen. *)
Example completed_uncommitted :
  option_map (fun w => (active_response_state (session w), turn_counter (session w), committed w, lock w))
    (run_new (asks Streamed None :: firstn 4 (streams 0 "hi") ++ [Ends 0 6 (StreamCut true); Closes 0 7]))
  = Some (Some "completed", 0, [], None).
Proof. vm_compute. reflexivity. Qed.

(** A call times out after its answer was taken, before it is committed; the commit wakes the
    call that was parked since, with no answer. *)
Example commit_wakes_another :
  option_map (fun w => (answers w, accepted w))
    (run_new (question ++ [Request (Answer true "call_1" "yes"); TakeLock 2 8; ClientReady 2 8 71; TimesOut 1;
       Parks "AskUserQuestion" "call_2" JNull JNull; Drained 2 8; Answered 3]))
  = Some ([("call_2", "")], [("call_1", "yes")]).
Proof. vm_compute. reflexivity. Qed.

(** A task that a turn started is listed after the turn. *)
Example task_outlives_turn : option_map (fun w => (dict_keys (active_tasks (outbox (session w))), lock w)) (run_new turn_1) = Some (["b1"], None).
Proof. vm_compute. reflexivity. Qed.

(** What [promptly] excludes: a hook that a cleared slot woke, and that goes on only when the answer
    to a later call is accepted, is given that answer. *)
Definition late_hook : list Event :=
  [asks Streamed None; TakeLock 0 5; ClientReady 0 5 70; Runs 0; Swept 0; asks Streamed (Some 1); Parks "AskUserQuestion" "call_1" JNull JNull;
   Ends 0 6 (StreamEnds true true true (answered "")); Closes 0 7;
   TakeLock 1 8; ClientReady 1 8 71; Runs 1; Swept 1; Parks "AskUserQuestion" "call_2" JNull JNull;
   Ends 1 9 (StreamEnds false true true (answered "")); Closes 1 10; Request (Answer true "call_2" "no"); TakeLock 4 11; Answered 2].
Example late_hook_takes_another_answer :
  option_map (fun w => (answers w, accepted w)) (run_new late_hook) = Some ([("call_1", "no")], [("call_2", "no")])
  /\ promptly session_id_1 "base" no_usage (start_world new_session) late_hook = false.
Proof. split; vm_compute; reflexivity. Qed.

(** A continuation without output sends no terminal event; a failed turn with a call that
    waits sends a second one. *)
Example empty_continuation now found store usage id s : pending_tool_call s = None ->
  fst (fst (after_stream now found store usage None id 2 (MkStreamResult false true false "" [] None 7) s)) = [].
Proof. unfold after_stream. by intros ->. Qed.
Example failed_and_pending now found store usage prompt id tc s : pending_tool_call s = Some tc ->
  fst (fst (after_stream now found store usage prompt id 2 (MkStreamResult false false false "" [] None 7) s))
  = [FunctionCallDone id tc 7; ResponseCompleted (_build_requires_action_response id tc) 8].
Proof. unfold after_stream. by intros ->. Qed.
