(* ===== verification/Regex.v ===== *)
(** Python's [re] on the regular expressions the gateway builds: a backtracking matcher whose
    results come in the order the engine tries them, [Pattern.sub] and [Pattern.finditer].

    A text is a list of ASCII characters.  A place in it is what lies to the left, reversed,
    and what lies to the right.  [matches_local] is what the redaction of streams rests on: an
    expression whose character classes lie within a set [H] does not see beyond the first
    character outside [H]. *)

From S2P Require Import Prelude.

Notation text := (list Ascii.ascii).
Definition text_of (s : string) : text := String.list_ascii_of_string s.
Definition string_of (t : text) : string := String.string_of_list_ascii t.

(** ** Expressions *)

(** [Rep r least more] is greedy: at least [least] and at most [more] further times, or as
    often as it goes.  [NotBehind f] is a negative lookbehind of one character. *)
Inductive re :=
| Cls (f : Ascii.ascii -> bool)
| Eps
| Seq (a b : re)
| Alt (a b : re)
| Rep (r : re) (least : nat) (more : option nat)
| Ahead (r : re)
| NotAhead (r : re)
| NotBehind (f : Ascii.ascii -> bool).

Definition place : Type := text * text.

Section repeat.
Context (f : place -> list place).
Fixpoint times (n : nat) (p : place) : list place :=
  match n with O => [p] | S n => flat_map (times n) (f p) end.
Fixpoint up_to (n : nat) (p : place) : list place :=
  match n with O => [p] | S n => flat_map (up_to n) (f p) ++ [p] end.
End repeat.

(** The places where a match from [p] may end, the preferred one first. *)
Fixpoint matches (r : re) (p : place) : list place :=
  match r with
  | Cls f => match snd p with c :: s => if f c then [(c :: fst p, s)] else [] | [] => [] end
  | Eps => [p]
  | Seq a b => flat_map (matches b) (matches a p)
  | Alt a b => matches a p ++ matches b p
  | Rep r least more =>
      flat_map (fun q => up_to (matches r) (match more with Some n => n | None => length (snd q) end) q) (times (matches r) least p)
  | Ahead r => match matches r p with [] => [] | _ => [p] end
  | NotAhead r => match matches r p with [] => [p] | _ => [] end
  | NotBehind f => match fst p with c :: _ => if f c then [] else [p] | [] => [p] end
  end.

(** A text, character by character *)
Fixpoint word (same : Ascii.ascii -> Ascii.ascii -> bool) (w : text) : re :=
  match w with [] => Eps | c :: w => Seq (Cls (same c)) (word same w) end.
(** [(?i:...)] on ASCII *)
Definition same_ci (a b : Ascii.ascii) : bool := Ascii.eqb (lower_char a) (lower_char b).

Fixpoint alts (l : list re) : re :=
  match l with [] => NotAhead Eps | [r] => r | r :: l => Alt r (alts l) end.
Definition chars (s : string) (c : Ascii.ascii) : bool := has_char c s.
Definition between (lo hi : nat) (c : Ascii.ascii) : bool :=
  let n := Ascii.nat_of_ascii c in (lo <=? n)%nat && (n <=? hi)%nat.

(** [re.match(r, s)] and [re.search(r, s)] succeed. *)
Definition starts (r : re) (s : text) : bool := match matches r ([], s) with [] => false | _ => true end.
Fixpoint search_from (r : re) (l s : text) : bool :=
  match matches r (l, s) with
  | [] => match s with c :: s => search_from r (c :: l) s | [] => false end
  | _ => true
  end.
Definition search (r : re) (s : text) : bool := search_from r [] s.

(** ** Substitution *)

(** A finder gives the lengths that match at a place, the preferred one first, each with a
    tag that says which alternative it is. *)
Definition finder (A : Type) : Type := text -> text -> list (nat * A).

Definition finds {A} (tag : A) (r : re) : finder A :=
  fun l s => map (fun q => (length s - length (snd q), tag)%nat) (matches r (l, s)).
(** [a|b|...] *)
Definition any {A} (l : list (finder A)) : finder A := fun left s => flat_map (fun m => m left s) l.

Section sub.
Context {A : Type} (m : finder A).

(** After an empty match the next one at the same place is not empty. *)
Definition hit (advance : bool) (l s : text) : option (nat * A) :=
  head (filter (fun x => advance = true -> fst x <> 0%nat) (m l s)).

(** [pattern.sub(f, s)] *)
Fixpoint sub_from (f : A -> text -> text) (fuel : nat) (advance : bool) (l s : text) : text :=
  match fuel with
  | O => s
  | S fuel =>
      match hit advance l s with
      | Some (O, a) => f a [] ++ sub_from f fuel true l s
      | Some (n, a) => f a (take n s) ++ sub_from f fuel false (rev (take n s) ++ l) (drop n s)
      | None => match s with c :: s => c :: sub_from f fuel false (c :: l) s | [] => [] end
      end
  end.
Definition sub (f : A -> text -> text) (s : text) : text := sub_from f (2 * length s + 2) false [] s.

(** The spans of [pattern.finditer(s)] that pass [keep], a test of the matched text. *)
Fixpoint spans_from (keep : text -> bool) (fuel : nat) (advance : bool) (l s : text) : list (nat * nat) :=
  match fuel with
  | O => []
  | S fuel =>
      let i := length l in
      match hit advance l s with
      | Some (O, _) => (if keep [] then [(i, i)] else []) ++ spans_from keep fuel true l s
      | Some (n, _) => (if keep (take n s) then [(i, (i + n)%nat)] else []) ++ spans_from keep fuel false (rev (take n s) ++ l) (drop n s)
      | None => match s with c :: s => spans_from keep fuel false (c :: l) s | [] => [] end
      end
  end.
Definition finditer (keep : text -> bool) (s : text) : list (nat * nat) := spans_from keep (2 * length s + 2) false [] s.
End sub.

(** ** Where a match can look *)

(** The classes of [r] lie within [H]. *)
Fixpoint within (H : Ascii.ascii -> Prop) (r : re) : Prop :=
  match r with
  | Cls f | NotBehind f => forall c, f c = true -> H c
  | Eps => True
  | Seq a b | Alt a b => within H a /\ within H b
  | Rep r _ _ | Ahead r | NotAhead r => within H r
  end.

(** Every match of [r] takes a character; what is repeated without end does. *)
Fixpoint takes (r : re) : bool :=
  match r with
  | Cls _ => true
  | Seq a b => takes a || takes b
  | Alt a b => takes a && takes b
  | Rep r least _ => (0 <? least)%nat && takes r
  | Eps | Ahead _ | NotAhead _ | NotBehind _ => false
  end.
Fixpoint ends (r : re) : bool :=
  match r with
  | Cls _ | Eps | NotBehind _ => true
  | Seq a b | Alt a b => ends a && ends b
  | Rep r _ more => ends r && match more with None => takes r | Some _ => true end
  | Ahead r | NotAhead r => ends r
  end.

Lemma in_flat_map_inv {A B} (f : A -> list B) l y : y ∈ flat_map f l -> exists x, x ∈ l /\ y ∈ f x.
Proof. rewrite !list_elem_of_In, in_flat_map. intros (x & H1 & H2). exists x. by rewrite !list_elem_of_In. Qed.

(** A match goes on from its place: it moves characters from the right to the left. *)
Definition goes (p q : place) : Prop := exists t, snd p = t ++ snd q /\ fst q = rev t ++ fst p.

Lemma goes_refl p : goes p p.
Proof. by exists []. Qed.
Lemma goes_trans p q r : goes p q -> goes q r -> goes p r.
Proof.
  intros (t & E1 & E2) (u & E3 & E4). exists (t ++ u). rewrite E1, E3, E4, E2, rev_app_distr. by rewrite <- !app_assoc.
Qed.
Lemma goes_length p q : goes p q -> (length (snd q) <= length (snd p))%nat.
Proof. intros (t & -> & _). rewrite length_app. lia. Qed.

Lemma times_goes f n : (forall p q, q ∈ f p -> goes p q) -> forall p q, q ∈ times f n p -> goes p q.
Proof.
  intros Hf. induction n as [|n IH]; intros p q; cbn; [intros ->%list_elem_of_singleton; apply goes_refl|].
  intros (x & H1 & H2)%in_flat_map_inv. eapply goes_trans; eauto.
Qed.
Lemma up_to_goes f n : (forall p q, q ∈ f p -> goes p q) -> forall p q, q ∈ up_to f n p -> goes p q.
Proof.
  intros Hf. induction n as [|n IH]; intros p q; cbn; [intros ->%list_elem_of_singleton; apply goes_refl|].
  rewrite elem_of_app, list_elem_of_singleton. intros [(x & H1 & H2)%in_flat_map_inv| ->]; [|apply goes_refl]. eapply goes_trans; eauto.
Qed.
Lemma matches_go r : forall p q, q ∈ matches r p -> goes p q.
Proof.
  induction r as [f| |a IHa b IHb|a IHa b IHb|r IH least more|r IH|r IH|f]; intros p q; cbn.
  - destruct (snd p) as [|c s] eqn:E; [by intros ?%not_elem_of_nil|]. destruct (f c); [|by intros ?%not_elem_of_nil].
    intros ->%list_elem_of_singleton. exists [c]. by rewrite E.
  - intros ->%list_elem_of_singleton. apply goes_refl.
  - intros (x & H1 & H2)%in_flat_map_inv. eapply goes_trans; eauto.
  - rewrite elem_of_app. intros [?|?]; eauto.
  - intros (x & H1 & H2)%in_flat_map_inv. eapply goes_trans; [by eapply times_goes|by eapply up_to_goes].
  - destruct (matches r p); [by intros ?%not_elem_of_nil|]. intros ->%list_elem_of_singleton. apply goes_refl.
  - destruct (matches r p); [|by intros ?%not_elem_of_nil]. intros ->%list_elem_of_singleton. apply goes_refl.
  - destruct (fst p) as [|c l]; [|destruct (f c); [by intros ?%not_elem_of_nil|]]; intros ->%list_elem_of_singleton; apply goes_refl.
Qed.

Lemma takes_shortens r : takes r = true -> forall p q, q ∈ matches r p -> (length (snd q) < length (snd p))%nat.
Proof.
  induction r as [f| |a IHa b IHb|a IHa b IHb|r IH least more|r IH|r IH|f]; cbn; intros Ht p q; try done.
  - destruct (snd p) as [|c s] eqn:E; [by intros ?%not_elem_of_nil|]. destruct (f c); [|by intros ?%not_elem_of_nil].
    intros ->%list_elem_of_singleton. cbn. lia.
  - intros (x & H1 & H2)%in_flat_map_inv. pose proof (goes_length _ _ (matches_go _ _ _ H1)). pose proof (goes_length _ _ (matches_go _ _ _ H2)).
    apply orb_true_iff in Ht as [Ht|Ht]; [specialize (IHa Ht _ _ H1)|specialize (IHb Ht _ _ H2)]; lia.
  - apply andb_true_iff in Ht as [H1 H2]. rewrite elem_of_app. intros [H|H]; [by apply IHa|by apply IHb].
  - apply andb_true_iff in Ht as [Hl Ht]. destruct least as [|least]; [done|].
    intros (x & H1 & H2)%in_flat_map_inv. cbn in H1. apply in_flat_map_inv in H1 as (y & H0 & H1).
    pose proof (goes_length _ _ (up_to_goes _ _ (matches_go r) _ _ H2)). pose proof (goes_length _ _ (times_goes _ _ (matches_go r) _ _ H1)).
    specialize (IH Ht _ _ H0). lia.
Qed.

Section local.
Context (H : Ascii.ascii -> Prop).

Definition stops (t : text) : Prop := match t with c :: _ => ~ H c | [] => True end.

Lemma class_stops f (l t : text) : (forall c, f c = true -> H c) -> stops t ->
  match t with c :: s => if f c then [(c :: l, s)] else [] | [] => [] end = [].
Proof. intros Hf Ht. destruct t as [|c s]; [done|]. destruct (f c) eqn:E; [by destruct (Ht (Hf c E))|done]. Qed.
Lemma behind_stops f (t : text) (p : place) : (forall c, f c = true -> H c) -> stops t ->
  match t with c :: _ => if f c then [] else [p] | [] => [p] end = [p].
Proof. intros Hf Ht. destruct t as [|c s]; [done|]. destruct (f c) eqn:E; [by destruct (Ht (Hf c E))|done]. Qed.

Section tails.
Context (m1 m2 t1 t2 : text) (Hm1 : stops m1) (Hm2 : stops m2) (Ht1 : stops t1) (Ht2 : stops t2).

(** Two places that look the same up to the first characters outside [H] *)
Definition alike (p q : place) : Prop := exists d h, p = (d ++ m1, h ++ t1) /\ q = (d ++ m2, h ++ t2).

Lemma flat_map_alike f g l1 l2 : (forall p q, alike p q -> Forall2 alike (f p) (g q)) -> Forall2 alike l1 l2 ->
  Forall2 alike (flat_map f l1) (flat_map g l2).
Proof. intros Hfg. induction 1 as [|p q l1 l2 Hp _ IH]; cbn; [done|]. apply Forall2_app; auto. Qed.

Lemma times_alike f g n : (forall p q, alike p q -> Forall2 alike (f p) (g q)) -> forall p q, alike p q -> Forall2 alike (times f n p) (times g n q).
Proof.
  intros Hfg. induction n as [|n IH]; intros p q Hp; cbn; [by constructor|]. apply flat_map_alike; auto.
Qed.
Lemma up_to_alike f g n : (forall p q, alike p q -> Forall2 alike (f p) (g q)) -> forall p q, alike p q -> Forall2 alike (up_to f n p) (up_to g n q).
Proof.
  intros Hfg. induction n as [|n IH]; intros p q Hp; cbn; [by constructor|]. apply Forall2_app; [|by constructor]. apply flat_map_alike; auto.
Qed.

(** What shortens its text cannot be repeated more often than that text is long. *)
Lemma up_to_enough f g : (forall p q, alike p q -> Forall2 alike (f p) (g q)) ->
  (forall p q, q ∈ f p -> (length (snd q) < length (snd p))%nat) ->
  forall n n1 n2 d h, (length h <= n)%nat -> (n <= n1)%nat -> (n <= n2)%nat ->
  Forall2 alike (up_to f n1 (d ++ m1, h ++ t1)) (up_to g n2 (d ++ m2, h ++ t2)).
Proof.
  intros Hfg Hs. assert (forall d h, alike (d ++ m1, h ++ t1) (d ++ m2, h ++ t2)) as Ha by (intros d h; by exists d, h).
  assert (forall d h, Forall2 alike (f (d ++ m1, h ++ t1)) (g (d ++ m2, h ++ t2))) as Hf by eauto.
  induction n as [|n IH]; intros n1 n2 d h Hh H1 H2.
  - assert (h = []) as -> by (destruct h; [done|cbn in Hh; lia]).
    assert (f (d ++ m1, [] ++ t1) = []) as E1.
    { destruct (f (d ++ m1, [] ++ t1)) as [|x l] eqn:E; [done|]. pose proof (Hf d []) as F. rewrite E in F.
      apply Forall2_cons_inv_l in F as (y & l' & (d' & h' & -> & _) & _).
      specialize (Hs (d ++ m1, [] ++ t1) (d' ++ m1, h' ++ t1)). rewrite E in Hs. specialize (Hs ltac:(constructor)). cbn in Hs. rewrite length_app in Hs. lia. }
    assert (g (d ++ m2, [] ++ t2) = []) as E2 by (pose proof (Hf d []) as F; rewrite E1 in F; by apply Forall2_nil_inv_l in F).
    destruct n1, n2; cbn [up_to]; rewrite ?E1, ?E2; cbn [flat_map app]; constructor; try done; apply (Ha d []).
  - destruct n1 as [|n1]; [lia|]. destruct n2 as [|n2]; [lia|]. cbn [up_to]. apply Forall2_app; [|constructor; [apply Ha|done]].
    pose proof (Hf d h) as F.
    assert (forall x, x ∈ f (d ++ m1, h ++ t1) -> (length (snd x) < length (h ++ t1))%nat) as Hlt by (intros x Hx; by apply (Hs (d ++ m1, h ++ t1))).
    revert F Hlt. generalize (f (d ++ m1, h ++ t1)) (g (d ++ m2, h ++ t2)). intros l1 l2 F Hlt.
    induction F as [|x y l1 l2 (d' & h' & -> & ->) _ IHF]; cbn [flat_map]; [done|]. apply Forall2_app.
    + apply IH; [|lia|lia]. specialize (Hlt (d' ++ m1, h' ++ t1) ltac:(left)). cbn in Hlt. rewrite !length_app in Hlt. lia.
    + apply IHF. intros x Hx. apply Hlt. by right.
Qed.

(** A match does not see beyond the first characters outside [H]. *)
Lemma matches_local r : within H r -> ends r = true -> forall p q, alike p q -> Forall2 alike (matches r p) (matches r q).
Proof using Type*.
  induction r as [f| |a IHa b IHb|a IHa b IHb|r IH least more|r IH|r IH|f]; cbn; intros Hw He p q Hp.
  - destruct Hp as (d & h & -> & ->). cbn. destruct h as [|c h]; cbn.
    + by rewrite (class_stops f _ t1), (class_stops f _ t2).
    + destruct (f c); [|done]. constructor; [|done]. by exists (c :: d), h.
  - by constructor.
  - destruct Hw, (andb_prop _ _ He). apply flat_map_alike; auto.
  - destruct Hw, (andb_prop _ _ He). apply Forall2_app; auto.
  - apply andb_true_iff in He as [He Hm]. assert (Forall2 alike (times (matches r) least p) (times (matches r) least q)) as Ft by (apply times_alike; auto).
    destruct more as [n|].
    + apply flat_map_alike; [|done]. intros x y Hx. apply up_to_alike; auto.
    + apply flat_map_alike; [|done]. intros x y (d & h & -> & ->). cbn [snd]. apply (up_to_enough (matches r) (matches r)) with (n := length h); auto.
      * by apply takes_shortens.
      * rewrite length_app. lia.
      * rewrite length_app. lia.
  - pose proof (IH Hw He p q Hp) as F. destruct (matches r p), (matches r q); try (by inversion F); by constructor.
  - pose proof (IH Hw He p q Hp) as F. destruct (matches r p), (matches r q); try (by inversion F); by constructor.
  - destruct Hp as (d & h & -> & ->). cbn. destruct d as [|c d]; cbn.
    + assert (alike ([] ++ m1, h ++ t1) ([] ++ m2, h ++ t2)) as Ha by (by exists [], h).
      rewrite (behind_stops f m1), (behind_stops f m2) by done. by constructor.
    + destruct (f c); constructor; [|done]. by exists (c :: d), h.
Qed.
End tails.
End local.

(** ** Scanning *)

Section scan.
Context {A : Type} (m : finder A).

(** No match is empty, and none is longer than its text. *)
Definition solid : Prop := forall l s x, x ∈ m l s -> (0 < fst x <= length s)%nat.
Context (Hm : solid).

Lemma hit_first adv l s : hit m adv l s = head (m l s).
Proof using Hm.
  unfold hit. pose proof (Hm l s) as H. destruct (m l s) as [|x r] eqn:E; [done|].
  rewrite filter_cons_True; [done|]. intros _. specialize (H x ltac:(left)). lia.
Qed.
Lemma hit_some adv l s n a : hit m adv l s = Some (n, a) -> (0 < n <= length s)%nat.
Proof using Hm. rewrite hit_first. intros E%head_Some_elem_of. exact (Hm l s _ E). Qed.

Lemma sub_unfold f fuel adv l s : sub_from m f (S fuel) adv l s =
  match hit m false l s with
  | Some (n, a) => f a (take n s) ++ sub_from m f fuel false (rev (take n s) ++ l) (drop n s)
  | None => match s with c :: s => c :: sub_from m f fuel false (c :: l) s | [] => [] end
  end.
Proof using Hm.
  cbn. rewrite (hit_first adv), (hit_first false). destruct (head (m l s)) as [[n a]|] eqn:E; [|done].
  destruct n; [|done]. pose proof (hit_some false l s 0 a) as H. rewrite hit_first in H. specialize (H E). lia.
Qed.

Lemma sub_nil f fuel b l : sub_from m f fuel b l [] = [].
Proof using Hm.
  destruct fuel as [|fuel]; [done|]. rewrite sub_unfold. destruct (hit m false l []) as [[n a]|] eqn:E; [|done]. apply hit_some in E. cbn in E. lia.
Qed.
Lemma sub_fuel f : forall n1 n2 b1 b2 l s, (length s < n1)%nat -> (length s < n2)%nat -> sub_from m f n1 b1 l s = sub_from m f n2 b2 l s.
Proof using Hm.
  induction n1 as [|n1 IH]; intros [|n2] b1 b2 l s H1 H2; try lia. rewrite !sub_unfold.
  destruct (hit m false l s) as [[n a]|] eqn:E.
  - apply hit_some in E. f_equal. apply IH; rewrite length_drop; lia.
  - destruct s as [|c s]; [done|]. f_equal. cbn in H1, H2. apply IH; lia.
Qed.
Lemma sub_eq f s : sub m f s = sub_from m f (S (length s)) false [] s.
Proof using Hm. apply sub_fuel; lia. Qed.

(** The scan comes to the [k]-th character, with this output. *)
Inductive gives (f : A -> text -> text) : text -> text -> nat -> text -> Prop :=
| gives_end l s : gives f l s 0 []
| gives_match l s k n a o : hit m false l s = Some (n, a) -> (n <= k)%nat ->
    gives f (rev (take n s) ++ l) (drop n s) (k - n) o -> gives f l s k (f a (take n s) ++ o)
| gives_skip l c s k o : hit m false l (c :: s) = None -> gives f (c :: l) s k o -> gives f l (c :: s) (S k) (c :: o).

Lemma gives_sub f l s k o : gives f l s k o -> forall n1 n2, (length s < n1)%nat -> (length s < n2)%nat ->
  sub_from m f n1 false l s = o ++ sub_from m f n2 false (rev (take k s) ++ l) (drop k s).
Proof using Hm.
  induction 1 as [l s|l s k n a o E Hk G IH|l c s k o E G IH]; intros n1 n2 H1 H2.
  - cbn. by apply sub_fuel.
  - destruct n1 as [|n1]; [lia|]. rewrite sub_unfold, E. pose proof (hit_some _ _ _ _ _ E) as Hn. rewrite <- app_assoc. f_equal.
    rewrite (IH n1 n2) by (rewrite length_drop; lia). f_equal. rewrite drop_drop. f_equal; [|f_equal; lia].
    rewrite app_assoc, <- rev_app_distr. f_equal. f_equal. replace k with (n + (k - n))%nat at 2 by lia. by rewrite take_take_drop.
  - destruct n1 as [|n1]; [lia|]. cbn in H1, H2. rewrite sub_unfold, E. cbn. f_equal. rewrite (IH n1 n2) by lia. f_equal. by rewrite <- app_assoc.
Qed.

(** Two scans whose hits agree as long as they stay within the first [k] characters *)
Definition agree (l1 s1 l2 s2 : text) (k : nat) : Prop :=
  take k s1 = take k s2 /\ (k <= length s1)%nat /\ (k <= length s2)%nat /\
  forall i, (i < k)%nat ->
    (forall n a, hit m false (rev (take i s1) ++ l1) (drop i s1) = Some (n, a) -> (i + n <= k)%nat ->
       hit m false (rev (take i s2) ++ l2) (drop i s2) = Some (n, a))
    /\ (hit m false (rev (take i s1) ++ l1) (drop i s1) = None -> hit m false (rev (take i s2) ++ l2) (drop i s2) = None).

Lemma agree_drop l1 s1 l2 s2 k n : agree l1 s1 l2 s2 k -> (n <= k)%nat ->
  agree (rev (take n s1) ++ l1) (drop n s1) (rev (take n s2) ++ l2) (drop n s2) (k - n).
Proof using.
  intros (E & H1 & H2 & Hi) Hn. split.
  { rewrite !take_drop_commute. replace (n + (k - n))%nat with k by lia. by rewrite E. }
  rewrite !length_drop. split; [lia|]. split; [lia|]. intros i Hik. specialize (Hi (n + i)%nat ltac:(lia)).
  assert (forall (s l : text), rev (take i (drop n s)) ++ rev (take n s) ++ l = rev (take (n + i) s) ++ l) as E2.
  { intros s l. rewrite app_assoc, <- rev_app_distr. by rewrite take_take_drop. }
  rewrite !E2, !drop_drop. destruct Hi as [Hs Hn']. split; [|done]. intros x a Hx Hle. apply Hs; [done|lia].
Qed.

Lemma gives_agree f l1 s1 k o : gives f l1 s1 k o -> forall l2 s2, agree l1 s1 l2 s2 k -> gives f l2 s2 k o.
Proof using Hm.
  induction 1 as [l s|l s k n a o E Hk G IH|l c s k o E G IH]; intros l2 s2 Ha.
  - constructor.
  - pose proof (hit_some _ _ _ _ _ E) as Hn. pose proof Ha as (Et & H1 & H2 & Hi).
    assert (take n s = take n s2) as En by (replace n with (n `min` k)%nat by lia; by rewrite <- !take_take, Et).
    rewrite En. apply gives_match; [|done|].
    + destruct (Hi 0%nat ltac:(lia)) as [Hs _]. by apply (Hs n a).
    + pose proof (agree_drop l s l2 s2 k n Ha Hk) as Hd. by apply IH.
  - pose proof Ha as (Et & H1 & H2 & Hi). destruct s2 as [|c2 s2]; [done|]. cbn in Et. injection Et as <- Et.
    apply gives_skip.
    + destruct (Hi 0%nat ltac:(lia)) as [_ Hn]. by apply Hn.
    + pose proof (agree_drop (l) (c :: s) l2 (c :: s2) (S k) 1 Ha ltac:(lia)) as Hd. cbn in Hd. rewrite Nat.sub_0_r in Hd. by apply IH.
Qed.

(** A scan that no span of [finditer] keeps from stopping at [k] *)
Lemma unstraddled_gives f keep : forall fuel l s k, (length s < fuel)%nat -> (k <= length s)%nat ->
  (forall a b, (a, b) ∈ spans_from m keep fuel false l s -> ~ (a < length l + k < b)%nat) ->
  (forall i n a, (i < k)%nat -> hit m false (rev (take i s) ++ l) (drop i s) = Some (n, a) -> keep (take n (drop i s)) = false -> (i + n <= k)%nat) ->
  exists o, gives f l s k o.
Proof using Hm.
  induction fuel as [|fuel IH]; intros l s k Hf Hk Hs Hall; [lia|].
  destruct k as [|k]; [exists []; constructor|]. cbn [spans_from] in Hs.
  destruct (hit m false l s) as [[[|n] a]|] eqn:E.
  - apply hit_some in E. lia.
  - pose proof (hit_some _ _ _ _ _ E) as Hn.
    assert (S n <= S k)%nat as Hle.
    { destruct (keep (take (S n) s)) eqn:Ek; [|by apply (Hall 0%nat (S n) a); [lia|..]].
      assert (~ (length l < length l + S k < length l + S n)%nat) by (apply Hs; left). lia. }
    destruct (IH (rev (take (S n) s) ++ l) (drop (S n) s) (S k - S n)%nat) as [o Ho].
    + rewrite length_drop. lia.
    + rewrite length_drop. lia.
    + intros x y Hxy. rewrite length_app, length_rev, length_take_le by lia. replace (S n + length l + (S k - S n))%nat with (length l + S k)%nat by lia.
      apply Hs. apply elem_of_app. by right.
    + intros i x y Hi Hx Hkeep. rewrite drop_drop in Hx, Hkeep. rewrite app_assoc, <- rev_app_distr, take_take_drop in Hx.
      specialize (Hall (S n + i)%nat x y ltac:(lia) Hx Hkeep). lia.
    + exists (f a (take (S n) s) ++ o). by eapply gives_match.
  - destruct s as [|c s]; [cbn in Hk; lia|]. cbn in Hf, Hk.
    destruct (IH (c :: l) s k) as [o Ho]; [lia|lia| |..].
    + intros x y Hxy. cbn [length]. replace (S (length l) + k)%nat with (length l + S k)%nat by lia. by apply Hs.
    + intros i x y Hi Hx Hkeep. specialize (Hall (S i) x y ltac:(lia)). cbn in Hall. rewrite <- app_assoc in Hall. specialize (Hall Hx Hkeep). lia.
    + exists (c :: o). by apply gives_skip.
Qed.

(** The output depends on the hits, and on what the substitution does with what they match. *)
Lemma sub_same f g : forall n b1 b2 l1 l2 s, (forall a t, (length t <= length s)%nat -> f a t = g a t) ->
  (forall i, (i <= length s)%nat -> hit m false (rev (take i s) ++ l1) (drop i s) = hit m false (rev (take i s) ++ l2) (drop i s)) ->
  sub_from m f n b1 l1 s = sub_from m g n b2 l2 s.
Proof using Hm.
  induction n as [|n IH]; intros b1 b2 l1 l2 s Hfg Hh; [done|]. rewrite !sub_unfold. rewrite <- (Hh 0%nat ltac:(lia) : hit m false l1 s = hit m false l2 s).
  destruct (hit m false l1 s) as [[k a]|] eqn:E.
  - pose proof (hit_some _ _ _ _ _ E) as Hk. rewrite Hfg by (rewrite length_take; lia). f_equal. apply IH.
    + intros a' t Ht. apply Hfg. rewrite length_drop in Ht. lia.
    + intros i Hi. rewrite length_drop in Hi. specialize (Hh (k + i)%nat ltac:(lia)).
      rewrite !drop_drop, !app_assoc, <- !rev_app_distr, take_take_drop. exact Hh.
  - destruct s as [|c s]; [done|]. f_equal. apply IH.
    + intros a' t Ht. apply Hfg. cbn. lia.
    + intros i Hi. specialize (Hh (S i) ltac:(cbn; lia)). cbn in Hh. rewrite <- !app_assoc in Hh. exact Hh.
Qed.

(** A place where no match straddles, and where the hits on either side are those of the side
    alone, splits the substitution. *)
Lemma sub_split f x y :
  (exists o, gives f [] (x ++ y) (length x) o) ->
  agree [] (x ++ y) [] x (length x) ->
  (forall i, (i <= length y)%nat -> hit m false (rev (take i y) ++ rev x) (drop i y) = hit m false (rev (take i y)) (drop i y)) ->
  sub m f (x ++ y) = sub m f x ++ sub m f y.
Proof using Hm.
  intros [o Ho] Ha Hy. rewrite !sub_eq.
  rewrite (gives_sub f [] (x ++ y) (length x) o Ho _ (S (length (x ++ y)))) by lia.
  pose proof (gives_agree f _ _ _ _ Ho _ _ Ha) as Hx. rewrite (gives_sub f [] x (length x) o Hx _ (S (length x))) by lia.
  rewrite take_app_length, drop_app_length, (drop_ge x) by lia. rewrite <- app_assoc. f_equal.
  rewrite sub_nil, app_nil_l, app_nil_r. rewrite (sub_fuel f (S (length (x ++ y))) (S (length y)) false false) by (rewrite ?length_app; lia). apply sub_same; [done|].
  intros i Hi. rewrite app_nil_r. by apply Hy.
Qed.

Lemma unseen_gives f l s k : (k <= length s)%nat ->
  (forall i n a, (i < k)%nat -> hit m false (rev (take i s) ++ l) (drop i s) = Some (n, a) -> (i + n <= k)%nat) -> exists o, gives f l s k o.
Proof using Hm.
  intros Hk H. apply (unstraddled_gives f (fun _ => false) (S (length s))); [lia|done| |].
  - assert (forall fuel b l s, spans_from m (fun _ => false) fuel b l s = []) as E.
    { induction fuel as [|fuel IH]; intros b l0 s0; [done|]. cbn. destruct (hit m b l0 s0) as [[[|n] a]|]; [apply IH|apply IH|destruct s0; [done|apply IH]]. }
    intros a b. rewrite E. by intros ?%not_elem_of_nil.
  - intros i n a Hi Hh _. by eapply H.
Qed.
End scan.

(** ** A seam *)

(** Between [x] and [y] lies a character outside [H]. *)
Definition seam (H : Ascii.ascii -> Prop) (x y : text) : Prop := stops H y \/ stops H (rev x).

(** Expressions that stay within [H] *)
Definition confined (H : Ascii.ascii -> Prop) (r : re) : Prop := within H r /\ ends r = true /\ takes r = true.
Definition lengths (r : re) (l s : text) : list nat := map (fun q => length s - length (snd q))%nat (matches r (l, s)).

Lemma lengths_local H m1 m2 t1 t2 d h r : stops H m1 -> stops H m2 -> stops H t1 -> stops H t2 -> confined H r ->
  lengths r (d ++ m1) (h ++ t1) = lengths r (d ++ m2) (h ++ t2) /\ Forall (fun n => (n <= length h)%nat) (lengths r (d ++ m1) (h ++ t1)).
Proof.
  intros H1 H2 H3 H4 (Hw & He & _). unfold lengths.
  pose proof (matches_local H m1 m2 t1 t2 H1 H2 H3 H4 r Hw He (d ++ m1, h ++ t1) (d ++ m2, h ++ t2) ltac:(by exists d, h)) as F.
  induction F as [|p q l1 l2 (d' & h' & -> & ->) _ [IH1 IH2]]; cbn [map snd]; [by split|].
  split; [f_equal; [rewrite !length_app; lia|exact IH1]|constructor; [rewrite !length_app; lia|exact IH2]].
Qed.

Lemma lengths_takes r l s n : takes r = true -> n ∈ lengths r l s -> (0 < n <= length s)%nat.
Proof.
  intros Ht. unfold lengths. intros (q & -> & Hq)%list_elem_of_fmap. pose proof (takes_shortens r Ht (l, s) q Hq) as Hs.
  pose proof (goes_length _ _ (matches_go r (l, s) q Hq)) as Hg. cbn in *. lia.
Qed.
Lemma lengths_outside H r l s : confined H r -> stops H s -> lengths r l s = [].
Proof.
  intros C Hs. assert (forall n, n ∈ lengths r l s -> False) as Hn.
  { intros n Hn. pose proof C as (_ & _ & Ht). pose proof (lengths_takes r l s n Ht Hn) as Hlt.
    destruct (lengths_local H [] [] s s l [] r) as [_ F]; try done. rewrite app_nil_r in F. cbn in F. rewrite Forall_forall in F. specialize (F n Hn). cbn in F. lia. }
  destruct (lengths r l s) as [|n k]; [done|]. exfalso. apply (Hn n). left.
Qed.

(** What an expression confined to [H] finds on one side of a seam does not depend on the other. *)
Lemma seam_left H r l s y : confined H r -> s <> [] -> seam H s y ->
  lengths r l (s ++ y) = lengths r l s /\ Forall (fun n => (n <= length s)%nat) (lengths r l (s ++ y)).
Proof.
  intros C Hne [Hy|Hs].
  - destruct (lengths_local H [] [] y [] l s r) as [E F]; try done. rewrite !app_nil_r in *. done.
  - destruct s as [|z h] using rev_ind; [done|]. rewrite rev_app_distr in Hs. cbn in Hs.
    destruct (lengths_local H [] [] (z :: y) [z] l h r) as [E F]; try done. rewrite !app_nil_r in *. rewrite <- app_assoc. cbn. split; [done|].
    eapply Forall_impl; [exact F|]. intros n. cbn. rewrite length_app. lia.
Qed.
Lemma seam_right H r x y i : confined H r -> seam H x y -> lengths r (rev (take i y) ++ rev x) (drop i y) = lengths r (rev (take i y)) (drop i y).
Proof.
  intros C [Hy|Hx].
  - destruct y as [|c y]; [rewrite take_nil, drop_nil; cbn; by rewrite !(lengths_outside H)|]. destruct i as [|i]; cbn; [by rewrite !(lengths_outside H)|].
    destruct (lengths_local H (c :: rev x) [c] [] [] (rev (take i y)) (drop i y) r) as [E _]; try done. rewrite !app_nil_r in E. by rewrite <- app_assoc.
  - destruct (lengths_local H (rev x) [] [] [] (rev (take i y)) (drop i y) r) as [E _]; try done. by rewrite !app_nil_r in E.
Qed.
