(* ===== verification/Redaction.v ===== *)
(** The redaction of host-identifying values and secrets
    ([src/src/backends/claude/sysinfo_redaction.py]): the table, the two passes over a text,
    and the filter of a stream, which holds back the end of a text block that may still grow
    a match.

    Text is ASCII.  What the host is called, its addresses and its container ids are
    arguments ([build_redactor]), as is the environment; a custom pattern is any finder. *)

From S2P Require Import Prelude Json Raise Regex.

(** ** Constants *)

Definition MIN_LITERAL_LEN : nat := 4.
Definition MIN_SECRET_LEN : nat := 8.
Definition MAX_LITERAL_LEN : nat := Z.to_nat 65536.
Definition _IPV4_MAX : nat := 16.
Definition _IPV6_MAX : nat := 46.
Definition _DOMAIN_MAX : nat := 254.
Definition _ALL_ENV_MAX_LEN : nat := 256.

(** [PLACEHOLDER.format(label=label)] *)
Definition placeholder (label : string) : text := text_of "[REDACTED:" ++ text_of label ++ text_of "]".

Definition dot : Ascii.ascii := Ascii.ascii_of_nat 46.
Definition colon : Ascii.ascii := Ascii.ascii_of_nat 58.
Definition dash : Ascii.ascii := Ascii.ascii_of_nat 45.
Definition is_alnum (c : Ascii.ascii) : bool := is_digit c || between 65 90 c || between 97 122 c.
(** [_ASCII_HOST_CHAR] *)
Definition ascii_host_char (c : Ascii.ascii) : bool := is_alnum c || Ascii.eqb c underscore || Ascii.eqb c dash.
(** [_HOST_CHAR_RE] *)
Definition host_char (c : Ascii.ascii) : bool := ascii_host_char c || Ascii.eqb c dot || Ascii.eqb c colon.

(** ** Built-in patterns *)

Definition cls (s : string) : re := Cls (chars s).
Definition digit : re := Cls is_digit.
Definition opt (r : re) : re := Rep r 0 (Some 1%nat).
Definition exactly (n : nat) (r : re) : re := Rep r n (Some 0%nat).
Fixpoint seqs (l : list re) : re := match l with [] => Eps | [r] => r | r :: l => Seq r (seqs l) end.
Definition lit (s : string) : re := word Ascii.eqb (text_of s).

Definition octet : re :=
  alts [Seq (lit "25") (Cls (between 48 53)); seqs [lit "2"; Cls (between 48 52); digit]; seqs [opt (lit "1"); opt digit; digit]].
Definition dotted (n : nat) : re := exactly n (Seq (lit ".") octet).

Definition _PRIVATE_IPV4 : re :=
  seqs [NotBehind (fun c => is_digit c || Ascii.eqb c dot);
        alts [Seq (lit "10") (dotted 3);
              seqs [lit "172."; alts [Seq (lit "1") (Cls (between 54 57)); Seq (lit "2") digit; Seq (lit "3") (cls "01")]; dotted 2];
              Seq (lit "192.168") (dotted 2);
              seqs [lit "100."; alts [Seq (lit "6") (Cls (between 52 57)); Seq (Cls (between 55 57)) digit; seqs [lit "1"; cls "01"; digit];
                                      Seq (lit "12") (Cls (between 48 55))]; dotted 2];
              Seq (lit "169.254") (dotted 2)];
        NotAhead digit].

Definition hex_digit (c : Ascii.ascii) : bool := is_digit c || between 97 102 c || between 65 70 c.
Definition _PRIVATE_IPV6 : re :=
  seqs [NotBehind (fun c => hex_digit c || Ascii.eqb c colon);
        alts [seqs [Cls (same_ci (Ascii.ascii_of_nat 102)); cls "cdCD"; exactly 2 (Cls hex_digit)];
              seqs [word same_ci (text_of "fe"); cls "89abAB"; Cls hex_digit]];
        lit ":"; Rep (Cls (fun c => hex_digit c || Ascii.eqb c colon || Ascii.eqb c dot)) 0 (Some 40%nat);
        NotAhead (Cls (fun c => hex_digit c || Ascii.eqb c colon))].

Definition name_char (c : Ascii.ascii) : bool := is_alnum c || Ascii.eqb c dot || Ascii.eqb c dash.
Definition label_char (c : Ascii.ascii) : bool := is_alnum c || Ascii.eqb c dash.
Definition domain_re (suffix : text) : re :=
  seqs [NotBehind (fun c => ascii_host_char c || Ascii.eqb c dot);
        Ahead (Seq (Rep (Cls name_char) 1 (Some 252%nat)) (NotAhead (Cls name_char)));
        Rep (Seq (Rep (Cls label_char) 1 None) (lit ".")) 1 None;
        word Ascii.eqb suffix; NotAhead (Cls ascii_host_char)].

(** *** IPv6 addresses ([ipaddress.IPv6Address]) *)

(** [text.split(c)] *)
Fixpoint split_on (c : Ascii.ascii) (t : text) : list text :=
  match t with
  | [] => [[]]
  | x :: t => if Ascii.eqb x c then [] :: split_on c t
              else match split_on c t with w :: l => (x :: w) :: l | [] => [[x]] end
  end.
Definition hex_value (c : Ascii.ascii) : Z :=
  let n := Z.of_nat (Ascii.nat_of_ascii (lower_char c)) in if n <? 58 then n - 48 else n - 87.
Definition number (base : Z) (t : text) : Z := foldl (fun n c => n * base + hex_value c) 0 t.
Definition hextet (t : text) : option Z :=
  if ((0 <? length t) && (length t <=? 4))%nat && forallb hex_digit t then Some (number 16 t) else None.
Definition ipv4_octet (t : text) : option Z :=
  if ((0 <? length t) && (length t <=? 3))%nat && forallb is_digit t && negb ((1 <? length t)%nat && bool_decide (head t = Some (Ascii.ascii_of_nat 48)))
  then let n := number 10 t in if n <=? 255 then Some n else None else None.
Definition all_some {A} (l : list (option A)) : option (list A) :=
  foldr (fun x r => match x, r with Some a, Some l => Some (a :: l) | _, _ => None end) (Some []) l.
Definition ipv4_hextets (t : text) : option (list Z) :=
  match all_some (map ipv4_octet (split_on dot t)) with
  | Some [a; b; c; d] => Some [a * 256 + b; c * 256 + d]
  | _ => None
  end.

(** The hextets of the parts, the last of which may be an IPv4 address, and no part: the [::]. *)
Definition ipv6_hextets (parts : list text) : option (list Z) :=
  match last parts with
  | Some p => if existsb (Ascii.eqb dot) p
              then match all_some (map hextet (removelast parts)), ipv4_hextets p with Some l, Some r => Some (l ++ r) | _, _ => None end
              else all_some (map hextet parts)
  | None => Some []
  end.
(** The places, but the first and the last, of empty parts *)
Definition skips (parts : list text) : list nat :=
  filter (fun i => (0 < i)%nat /\ (S i < length parts)%nat /\ parts !! i = Some []) (seq 0 (length parts)).
Definition ipv6_address (t : text) : option (list Z) :=
  let parts := split_on colon t in
  let n := (length parts + (if existsb (fun p => existsb (Ascii.eqb dot) p) (match last parts with Some p => [p] | None => [] end) then 1 else 0))%nat in
  if (n <? 3)%nat || (9 <? n)%nat then None
  else
    match skips parts with
    | [] => if (n =? 8)%nat then ipv6_hextets parts else None
    | [i] =>
        let hi := take i parts in
        let lo := drop (S i) parts in
        let hi := if bool_decide (hi = [[]]) then [] else hi in
        let lo := if bool_decide (lo = [[]]) then [] else lo in
        match all_some (map hextet hi), ipv6_hextets lo with
        | Some h, Some l => if (length h + length l <? 8)%nat then Some (h ++ replicate (8 - (length h + length l)) 0 ++ l) else None
        | _, _ => None
        end
    | _ => None
    end.

(** [_is_private_ipv6(text)] *)
Definition _is_private_ipv6 (t : text) : bool :=
  match ipv6_address t with
  | Some (h :: _) => (Z.shiftr h 9 =? 126) || (Z.shiftr h 6 =? 1018)
  | _ => false
  end.

(** ** The table *)

Record Literal := MkLiteral { value : text; label : string; bounded : bool }.

(** A compiled pattern with its label, the longest text it can reach, and its validator *)
Record Pattern := MkPattern {
  p_find : text -> text -> list nat;
  p_label : string;
  p_max : option nat;
  p_valid : option (text -> bool);
}.

(** [csv_env(name)] on the variable's text *)
Definition _csv_env (raw : string) : list string :=
  filter (fun p => p <> "") (map strip (split_char (Ascii.ascii_of_nat 44) raw)).

(** The literals that count: long enough, not allowed, not too long, the first of each value *)
Definition keep_literals (allow : list text) (l : list Literal) : list Literal :=
  foldl (fun seen x =>
    if (length (value x) <? MIN_LITERAL_LEN)%nat || bool_decide (value x ∈ allow) || (MAX_LITERAL_LEN <? length (value x))%nat
       || existsb (fun y => bool_decide (value y = value x)) seen
    then seen else seen ++ [x]) [] l.

(** [sorted(..., key=lambda item: -len(item.value))] *)
Fixpoint insert_literal (x : Literal) (l : list Literal) : list Literal :=
  match l with
  | y :: l' => if (length (value y) <? length (value x))%nat then x :: l else y :: insert_literal x l'
  | [] => [x]
  end.
Definition longest_first (l : list Literal) : list Literal := foldl (fun r x => insert_literal x r) [] l.

Record Redactor := MkRedactor { literals : list Literal; patterns : list Pattern; allowed : list text }.
Definition make_redactor (allow : list text) (l : list Literal) (p : list Pattern) : Redactor :=
  MkRedactor (longest_first (keep_literals allow l)) p allow.

Definition max_of (l : list nat) : nat := foldr Nat.max 0%nat l.
Definition has_space (t : text) : bool := existsb is_space t.
Definition unbounded_patterns (r : Redactor) : bool := existsb (fun p => match p_max p with None => true | Some _ => false end) (patterns r).
Definition max_literal_len (r : Redactor) : nat := max_of (map (fun l => length (value l)) (literals r)).
Definition stream_keep (r : Redactor) : nat :=
  Nat.max 256 (Nat.max (max_literal_len r) (max_of (map (fun p => default 0%nat (p_max p)) (patterns r)))).
Definition max_ws_literal_len (r : Redactor) : nat :=
  max_of (map (fun l => length (value l)) (List.filter (fun l => has_space (value l)) (literals r))).
Definition active (r : Redactor) : bool := negb (bool_decide (literals r = []) && bool_decide (length (patterns r) = 0%nat)).

Definition literal_re (l : Literal) : re :=
  if bounded l then seqs [NotBehind ascii_host_char; word same_ci (value l); NotAhead (Cls ascii_host_char)]
  else word Ascii.eqb (value l).

(** [_literal_regex] and [_pattern_regex] *)
Definition find_literals (r : Redactor) : finder string := any (map (fun l => finds (label l) (literal_re l)) (literals r)).
Definition find_patterns (r : Redactor) : finder Pattern := any (map (fun p l s => map (fun n => (n, p)) (p_find p l s)) (patterns r)).

(** ** A text *)

Definition is_allowed (r : Redactor) (t : text) : bool := bool_decide (t ∈ allowed r).
(** [text.rstrip(".")] *)
Fixpoint rstrip_dots (t : text) : text :=
  match t with
  | [] => []
  | c :: t => match rstrip_dots t with [] => if Ascii.eqb c dot then [] else [c] | t => c :: t end
  end.

(** [_sub] on a match of a literal, and of a pattern; [again] is the pattern pass on what
    follows the first character of a candidate that was refused ([_rejected]). *)
Definition sub_literal (r : Redactor) (label : string) (t : text) : text := if is_allowed r t then t else placeholder label.
Definition _rejected (valid : text -> bool) (label : string) (again : text -> text) (t : text) : text :=
  let stripped := rstrip_dots t in
  if negb (bool_decide (stripped = t)) && valid stripped then placeholder label ++ drop (length stripped) t
  else match t with c :: t => c :: again t | [] => [] end.
Definition sub_pattern (r : Redactor) (again : text -> text) (p : Pattern) (t : text) : text :=
  if is_allowed r t then t
  else match p_valid p with
       | Some valid => if valid t then placeholder (p_label p) else _rejected valid (p_label p) again t
       | None => placeholder (p_label p)
       end.

(** A candidate is scanned again from its second character: the depth is the length. *)
Fixpoint pattern_pass (depth : nat) (r : Redactor) (t : text) : text :=
  match depth with
  | O => t
  | S depth => sub (find_patterns r) (sub_pattern r (pattern_pass depth r)) t
  end.

Definition literal_pass (r : Redactor) (t : text) : text := sub (find_literals r) (sub_literal r) t.
Definition redact_text (r : Redactor) (t : text) : text :=
  match t with
  | [] => []
  | _ => let t := literal_pass r t in pattern_pass (S (length t)) r t
  end.

(** [spans(text)] *)
Definition before (a b : nat * nat) : bool := (fst a <? fst b)%nat || (fst a =? fst b)%nat && (snd a <=? snd b)%nat.
Fixpoint insert_span (x : nat * nat) (l : list (nat * nat)) : list (nat * nat) :=
  match l with y :: l' => if before x y then x :: l else y :: insert_span x l' | [] => [x] end.
Definition spans (r : Redactor) (t : text) : list (nat * nat) :=
  let keep m := negb (is_allowed r m) in
  foldr insert_span [] (finditer (find_literals r) keep t ++ finditer (find_patterns r) keep t).

(** [redact_value(value)] on JSON: what lies deeper than 64 levels is left as it is. *)
Fixpoint redact_json (n : nat) (r : Redactor) (v : Json) : Json :=
  match n with
  | O => v
  | S n =>
      match v with
      | JStr s => JStr (string_of (redact_text r (text_of s)))
      | JArr l => JArr (map (redact_json n r) l)
      | JObj d => JObj (map (fun kv => (fst kv, redact_json n r (snd kv))) d)
      | _ => v
      end
  end.
Definition redact_value (r : Redactor) (v : Json) : Json := redact_json 65 r v.

(** [redacted == response]: redaction keeps the shape, so that only strings can differ. *)
Fixpoint same_texts (v w : Json) : bool :=
  match v, w with
  | JStr s, JStr t => bool_decide (s = t)
  | JArr l, JArr m =>
      (fix go l m := match l, m with a :: l, b :: m => same_texts a b && go l m | _, _ => true end) l m
  | JObj d, JObj e =>
      (fix go d e := match d, e with (_, a) :: d, (_, b) :: e => same_texts a b && go d e | _, _ => true end) d e
  | _, _ => true
  end.
(** The hook of [make_redaction_post_tool_use_hook] *)
Definition redaction_hook (r : Redactor) (input_data : Json) : Json :=
  match jget_null input_data "tool_response" with
  | JNull => JObj []
  | response =>
      let redacted := redact_value r response in
      if same_texts redacted response then JObj []
      else JObj [("hookSpecificOutput", JObj [("hookEventName", JStr "PostToolUse"); ("updatedToolOutput", redacted)])]
  end.

(** ** What the table holds *)

Definition _SECRET_NAME_RE : re :=
  alts (map (fun w => word same_ci (text_of w)) ["KEY"; "TOKEN"; "SECRET"; "PASSWORD"; "PASSWD"; "CREDENTIAL"; "PRIVATE"; "COOKIE"; "DSN"]).
Definition _URL_USERINFO_RE : re :=
  let none_of s := Cls (fun c => negb (chars s c) && negb (is_space c)) in
  let letter := Cls (fun c => between 65 90 c || between 97 122 c) in
  seqs [letter; Rep (Cls (fun c => is_alnum c || chars "+.-" c)) 0 None; lit "://"; Rep (none_of "/:@") 1 None; lit ":";
        Rep (none_of "/@") 1 None; lit "@"].
Definition _SECRET_NAME_EXCEPTIONS : list string := ["SSH_AUTH_SOCK"; "GPG_AGENT_INFO"].
Definition _ALL_ENV_EXCEPTIONS : list string :=
  ["PATH"; "HOME"; "PWD"; "OLDPWD"; "SHELL"; "TERM"; "LANG"; "LANGUAGE"; "TZ"; "USER"; "LOGNAME"; "SHLVL"; "TMPDIR"; "_"].
Definition _PATH_LIKE_PREFIXES : list string := ["/"; "~"; "./"; "../"].

Definition _secret_env_values (env : list (string * string)) : list string :=
  flat_map (fun kv =>
    let value := strip (snd kv) in
    if (String.length value <? MIN_SECRET_LEN)%nat || bool_decide (upper (fst kv) ∈ _SECRET_NAME_EXCEPTIONS) then []
    else if search _SECRET_NAME_RE (text_of (fst kv)) || starts _URL_USERINFO_RE (text_of value) then [value] else []) env.

Definition _path_like (value : string) : bool :=
  existsb (starts_with value) _PATH_LIKE_PREFIXES || (search (lit "/") (text_of value) && negb (search (lit "://") (text_of value))).

(** [SYSINFO_REDACT_ALL_ENV]: the values to redact, and the names left out by shape *)
Definition _all_env_values (enabled : bool) (except : string) (env : list (string * string)) : list string * list string :=
  if negb enabled then ([], [])
  else
    let skip := _ALL_ENV_EXCEPTIONS ++ map upper (_csv_env except) in
    let secrets := _secret_env_values env in
    foldl (fun '(out, left_out) kv =>
      let value := strip (snd kv) in
      let name := upper (fst kv) in
      if (String.length value <? MIN_SECRET_LEN)%nat || bool_decide (value ∈ secrets) then (out, left_out)
      else if bool_decide (name ∈ skip) || starts_with name "LC_" then (out, left_out)
      else if _path_like value || (_ALL_ENV_MAX_LEN <? String.length value)%nat || has_space (text_of value) then (out, left_out ++ [fst kv])
      else (out ++ [value], left_out)) ([], []) env.

(** *** The host: what is read of it, as arguments *)

(** [_host_names()], from [socket.gethostname()], [/etc/hostname] and [socket.getfqdn()] *)
Definition _host_names (hostname etc_hostname : string) (fqdn : option string) : list string :=
  let names := [hostname; strip etc_hostname] ++ match fqdn with Some n => [n] | None => [] end in
  let short := map (fun n => default "" (head (split_char dot n))) (List.filter (has_char dot) names) in
  List.filter (fun n => negb (bool_decide (n = "")) && negb (bool_decide (n = "localhost")) && negb (starts_with n "localhost.")) (names ++ short).

Fixpoint insert_sorted (x : string) (l : list string) : list string :=
  match l with y :: l' => if String.leb x y then x :: l else y :: insert_sorted x l' | [] => [x] end.
(** [sorted({...})] *)
Definition sorted_set (l : list string) : list string := foldr insert_sorted [] (remove_dups l).

Definition _CONTAINER_ID : re :=
  let hex := fun c => is_digit c || between 97 102 c in seqs [NotBehind hex; exactly 64 (Cls hex); NotAhead (Cls hex)].
(** [_container_ids()], from [/proc/self/cgroup] and [/proc/self/mountinfo] *)
Definition _container_ids (cgroup mountinfo : string) : list string :=
  let t := text_of cgroup ++ text_of mountinfo in
  let ids := map (fun s => string_of (take (snd s - fst s) (drop (fst s) t))) (finditer (finds tt _CONTAINER_ID) (fun _ => true) t) in
  sorted_set ids ++ sorted_set (map (fun i => string_of (take 12 (text_of i))) ids).

(** [_mac_addresses()], from the interfaces' address files *)
Definition _mac_addresses (addresses : list string) : list string :=
  List.filter (fun m => negb (bool_decide (m = "")) && negb (bool_decide (m = "00:00:00:00:00:00"))) (map strip addresses).

(** [child_env_mask()] *)
Definition DEFAULT_CHILD_ENV_MASK : list string := ["ADMIN_API_KEY"; "API_KEY"].
Definition child_env_mask (enabled : bool) (extra : string) : odict string string :=
  if enabled then foldl (fun d n => dict_set d n "") [] (DEFAULT_CHILD_ENV_MASK ++ _csv_env extra) else [].

Definition compiled (r : re) (label : string) (max : nat) (valid : option (text -> bool)) : Pattern :=
  MkPattern (fun l s => map (fun q => length s - length (snd q))%nat (matches r (l, s))) label (Some max) valid.
(** [suffix.lstrip(".")] *)
Fixpoint lstrip_dots (t : text) : text := match t with c :: t' => if Ascii.eqb c dot then lstrip_dots t' else t | [] => [] end.
Definition _builtin_patterns (domains : string) (private_ips : bool) : list Pattern :=
  map (fun s => compiled (domain_re (lstrip_dots (text_of s))) "domain" _DOMAIN_MAX None) (_csv_env domains)
  ++ (if private_ips
      then [compiled _PRIVATE_IPV4 "ip" _IPV4_MAX None; compiled _PRIVATE_IPV6 "ip" _IPV6_MAX (Some _is_private_ipv6)] else []).

(** The settings that [build_redactor] reads *)
Record Settings := MkSettings {
  redact_allow : string;
  redact_values : string;
  redact_domains : string;
  redact_private_ips : bool;
  redact_all_env : bool;
  all_env_except : string;
}.

(** [build_redactor(env)] on a host with these names, addresses, container ids and MACs *)
Definition build_redactor (c : Settings) (names ips ids macs : list string) (custom : list Pattern) (env : list (string * string)) : Redactor :=
  let entries label bounded := map (fun v => MkLiteral (text_of v) label bounded) in
  make_redactor (map text_of (_csv_env (redact_allow c)))
    (entries "hostname" true names ++ entries "ip" true ips ++ entries "container-id" true ids ++ entries "mac" true macs
     ++ entries "secret" false (_secret_env_values env)
     ++ entries "env" false (fst (_all_env_values (redact_all_env c) (all_env_except c) env))
     ++ entries "custom" false (_csv_env (redact_values c)))
    (_builtin_patterns (redact_domains c) (redact_private_ips c) ++ custom).

(** ** The end of a text block that is held back ([_TextCarry]) *)

Section carry.
Context (r : Redactor).

(** [_after_last_space(buf, upto)] *)
Fixpoint _after_last_space (buf : text) (upto : nat) : nat :=
  match upto with
  | O => O
  | S i => match buf !! i with
           | Some c => if is_space c then S i else _after_last_space buf i
           | None => _after_last_space buf i
           end
  end.

(** [_splittable(buf, p)] *)
Definition host_at (buf : text) (i : nat) : bool := match buf !! i with Some c => host_char c | None => false end.
Definition _splittable (buf : text) (p : nat) : bool :=
  (p =? 0)%nat || (length buf <=? p)%nat || negb (host_at buf (p - 1)) || negb (host_at buf p).

(** [_soft_boundary(buf, upto)]: [n] more positions below [p] are looked at. *)
Definition _WINDOW : nat := 1024.
Fixpoint soft_from (buf : text) (n p : nat) : option nat :=
  if _splittable buf p then Some p else match n with O => None | S n => soft_from buf n (p - 1) end.
Definition _soft_boundary (buf : text) (upto : nat) : nat := default upto (soft_from buf (Nat.min _WINDOW upto) upto).

Definition _max_run : nat := stream_keep r + 256.

(** The loop that moves a cut out of every match *)
Definition straddled (l : list (nat * nat)) (cut : nat) : option (nat * nat) :=
  head (List.filter (fun s => (fst s <? cut)%nat && (cut <? snd s)%nat) l).
Fixpoint settle (fuel : nat) (forced : bool) (l : list (nat * nat)) (buf : text) (cut : nat) : nat :=
  match fuel, cut with
  | O, _ | _, O => cut
  | S fuel, _ =>
      let (cut1, moved1) := match straddled l cut with
                            | Some (start, _) => (if forced then start else _after_last_space buf start, true)
                            | None => (cut, false)
                            end in
      let (cut2, moved2) := if forced && negb (_splittable buf cut1)
                            then let new := _soft_boundary buf cut1 in (new, moved1 || negb (new =? cut1)%nat)
                            else (cut1, moved1) in
      if moved2 then settle fuel forced l buf cut2 else cut2
  end.

Definition _safe_cut (buf : text) : nat :=
  let cut := _after_last_space buf (length buf) in
  let forced := (_max_run <? length buf - cut)%nat in
  let cut := if forced then _soft_boundary buf (length buf - stream_keep r) else cut in
  let hold := max_ws_literal_len r in
  let cut := if (0 <? hold)%nat && (length buf - hold <? cut)%nat then _after_last_space buf (length buf - hold) else cut in
  settle (S (length buf)) forced (spans r buf) buf cut.

(** [feed(text)] and [flush()]: what is held back then, and what is let out *)
Definition feed (buf t : text) : text * text :=
  let buf := buf ++ t in
  if unbounded_patterns r then (buf, [])
  else match _safe_cut buf with
       | O => (buf, [])
       | cut => (drop cut buf, redact_text r (take cut buf))
       end.
Definition flush (buf : text) : text := redact_text r buf.
Fixpoint feeds (buf : text) (l : list text) : text * text :=
  match l with
  | [] => (buf, [])
  | t :: l => let (buf, o) := feed buf t in let (buf, o') := feeds buf l in (buf, o ++ o')
  end.
End carry.

(** ** The stream of a turn ([StreamRedactor]) *)

Record Carry := MkCarry { held : text; delta_type : string }.
Definition Carries : Type := list ((Json * Json) * Carry).

(** [_DELTA_TEXT_FIELD] *)
Definition _DELTA_TEXT_FIELD (type : string) : string := if bool_decide (type = "thinking_delta") then "thinking" else "text".
Definition text_field (type : Json) : result Exn (option string) :=
  let! _ := hashed type in
  Ok (match type with
      | JStr s => if bool_decide (s ∈ ["text_delta"; "thinking_delta"]) then Some (_DELTA_TEXT_FIELD s) else None
      | _ => None
      end).

(** [_synthetic_delta(base, index, delta_type, text)] *)
Definition _synthetic_delta (base : list (string * Json)) (index : Json) (type : string) (t : text) : Json :=
  let event := JObj [("type", JStr "content_block_delta"); ("index", index);
                     ("delta", JObj [("type", JStr type); (_DELTA_TEXT_FIELD type, JStr (string_of t))])] in
  JObj (dict_set (dict_set (List.filter (fun kv => negb (bool_decide (fst kv = "event"))) base) "type" (JStr "stream_event")) "event" event).

Section stream.
Context (r : Redactor).

(** The rest of a carry, when there is some *)
Definition rest_of (base : list (string * Json)) (index : Json) (c : Carry) : list Json :=
  match flush r (held c) with
  | [] => []
  | rest => [_synthetic_delta base index (delta_type c) rest]
  end.

Definition hash_key (key : Json * Json) : result Exn unit := let! _ := hashed (fst key) in hashed (snd key).

(** [_flush_parent(chunk)]: the carries of its parent, in order *)
Definition _flush_parent (base : list (string * Json)) (parent : Json) (c : Carries) : Carries * list Json :=
  (List.filter (fun kc => negb (same_key (fst (fst kc)) parent)) c,
   flat_map (fun kc => rest_of base (snd (fst kc)) (snd kc)) (List.filter (fun kc => same_key (fst (fst kc)) parent) c)).

(** [_process_event(chunk)] *)
Definition _process_event (d : list (string * Json)) (event : Json) (c : Carries) : result Exn (Carries * list Json) :=
  let chunk := JObj d in
  let parent := jget_null chunk "parent_tool_use_id" in
  let index := jget_null event "index" in
  let key := (parent, index) in
  let etype := jget_null event "type" in
  let whole := [redact_value r chunk] in
  let delta := jget_null event "delta" in
  let! field := if is_str etype "content_block_delta" && is_dict delta then text_field (jget_null delta "type") else Ok None in
  match field, option_map (jget_null delta) field with
  | Some field, Some (JStr t) =>
      let! _ := hash_key key in
      let type := match jget_null delta "type" with JStr s => s | _ => "" end in
      let k := default (MkCarry [] type) (kget same_pair c key) in
      let (buf, out) := feed r (held k) (text_of t) in
      Ok (kset same_pair c key (MkCarry buf (delta_type k)),
          [JObj (dict_set d "event" (jset event "delta" (jset delta field (JStr (string_of out)))))])
  | _, _ =>
      if is_str etype "content_block_stop" then
        let! _ := match c with [] => Ok tt | _ => hash_key key end in
        match kget same_pair c key with
        | Some k => Ok (kdel same_pair c key, rest_of d index k ++ whole)
        | None => Ok (c, whole)
        end
      else if is_str etype "message_start" || is_str etype "message_stop" then
        let (c, out) := _flush_parent d parent c in Ok (c, out ++ whole)
      else Ok (c, whole)
  end.

(** [process(chunk)] *)
Definition process (c : Carries) (chunk : Json) : result Exn (Carries * list Json) :=
  match chunk with
  | JObj d =>
      let event := jget_null chunk "event" in
      if is_str (jget_null chunk "type") "stream_event" && is_dict event then _process_event d event c
      else Ok (c, [redact_value r chunk])
  | _ => Ok (c, [redact_value r chunk])
  end.

(** [flush_all()] *)
Definition flush_all (c : Carries) : list Json :=
  flat_map (fun kc => rest_of [("type", JStr "stream_event"); ("parent_tool_use_id", fst (fst kc))] (snd (fst kc)) (snd kc)) c.

(** [_redact_stream(chunks)]: what is yielded, and what stopped it *)
Fixpoint redact_chunks (c : Carries) (l : list Json) : list Json * option Exn :=
  match l with
  | [] => (flush_all c, None)
  | chunk :: l =>
      match process c chunk with
      | Ok (c, out) => let (rest, e) := redact_chunks c l in (out ++ rest, e)
      | Err e => ([], Some e)
      end
  end.
Definition _redact_stream (l : list Json) : list Json * option Exn := if active r then redact_chunks [] l else (l, None).
End stream.
