(* ===== verification/RedactionLaws.v ===== *)
(** What the redaction of a stream promises ([Redaction]): however a text is cut into deltas,
    what is let out is the redaction of the text, and a literal never comes through in the
    pieces that are kept. *)

From S2P Require Import Prelude Json Raise Regex Redaction.

(** ** Sound tables *)

Definition Host (c : Ascii.ascii) : Prop := host_char c = true.
(** A pattern that is an expression of host characters, and takes one *)
Definition plain (p : Pattern) : Prop := exists e, confined Host e /\ forall l s, p_find p l s = lengths e l s.

Record sound (r : Redactor) : Prop := {
  so_nonempty : forall x, x ∈ literals r -> (0 < length (value x))%nat;
  so_bounded : forall x, x ∈ literals r -> bounded x = true -> Forall Host (value x);
  so_allowed : forall x, x ∈ literals r -> bounded x = false -> value x ∉ allowed r;
  so_plain : forall p, p ∈ patterns r -> plain p;
}.

(** ** One literal *)

Fixpoint has_prefix (same : Ascii.ascii -> Ascii.ascii -> bool) (w s : text) : bool :=
  match w, s with
  | [], _ => true
  | a :: w, c :: s => same a c && has_prefix same w s
  | _ :: _, [] => false
  end.
Definition not_host (t : text) : bool := match t with c :: _ => negb (ascii_host_char c) | [] => true end.
(** Whether a literal matches at a place *)
Definition literal_at (x : Literal) (l s : text) : bool :=
  if bounded x then not_host l && has_prefix same_ci (value x) s && not_host (drop (length (value x)) s)
  else has_prefix Ascii.eqb (value x) s.

Lemma word_matches same w : forall l s, matches (word same w) (l, s) = if has_prefix same w s then [(rev (take (length w) s) ++ l, drop (length w) s)] else [].
Proof.
  induction w as [|a w IH]; intros l s; [done|]. cbn [word matches]. destruct s as [|c s]; [done|]. cbn. destruct (same a c); cbn; [|done].
  rewrite app_nil_r, IH. destruct (has_prefix same w s); [|done]. by rewrite <- app_assoc.
Qed.
Lemma has_prefix_length same w : forall s, has_prefix same w s = true -> (length w <= length s)%nat.
Proof. induction w as [|a w IH]; intros [|c s]; cbn; try done; [lia..|]. intros [_ H]%andb_true_iff. specialize (IH s H). lia. Qed.

Lemma not_host_cls l t : matches (NotAhead (Cls ascii_host_char)) (l, t) = if not_host t then [(l, t)] else [].
Proof. destruct t as [|c t]; [done|]. cbn. by destruct (ascii_host_char c). Qed.

Lemma finds_literal x l s : finds (label x) (literal_re x) l s = if literal_at x l s then [(length (value x), label x)] else [].
Proof.
  unfold finds, literal_re, literal_at. destruct (bounded x).
  - cbn [seqs]. change (matches (Seq (NotBehind ascii_host_char) ?r) (l, s)) with (flat_map (matches r) (matches (NotBehind ascii_host_char) (l, s))).
    assert (matches (NotBehind ascii_host_char) (l, s) = if not_host l then [(l, s)] else []) as -> by (destruct l as [|c l]; [done|]; cbn; by destruct (ascii_host_char c)).
    destruct (not_host l); [|done]. cbn [flat_map]. rewrite app_nil_r.
    change (matches (Seq ?a ?b) ?p) with (flat_map (matches b) (matches a p)). rewrite word_matches.
    destruct (has_prefix same_ci (value x) s) eqn:Ep; [|done]. apply has_prefix_length in Ep. cbn [flat_map]. rewrite app_nil_r, not_host_cls. cbn.
    destruct (not_host (drop (length (value x)) s)); [|done]. cbn. rewrite length_drop. do 2 f_equal. lia.
  - rewrite word_matches. destruct (has_prefix Ascii.eqb (value x) s) eqn:Ep; [|done]. apply has_prefix_length in Ep. cbn. rewrite length_drop. do 2 f_equal. lia.
Qed.

Lemma literal_at_length x l s : literal_at x l s = true -> (length (value x) <= length s)%nat.
Proof.
  unfold literal_at. destruct (bounded x); [|apply has_prefix_length]. intros [[_ H]%andb_true_iff _]%andb_true_iff. by apply has_prefix_length in H.
Qed.

(** ** The finders *)

Section literals.
Context (r : Redactor) (N : forall x, x ∈ literals r -> (0 < length (value x))%nat).

Lemma literals_solid : solid (find_literals r).
Proof using N.
  intros l s [n a]. unfold find_literals, any. intros (f & Hf & Hx)%in_flat_map_inv. apply list_elem_of_fmap in Hf as (x & -> & Hl).
  rewrite finds_literal in Hx. destruct (literal_at x l s) eqn:E; [|by apply not_elem_of_nil in Hx].
  apply list_elem_of_singleton in Hx as [= -> ->]. cbn. split; [by apply N|by eapply literal_at_length].
Qed.
(** The literals that match at a place decide the hit. *)
Lemma literal_hit l s : hit (find_literals r) false l s = head (map (fun x => (length (value x), label x)) (List.filter (fun x => literal_at x l s) (literals r))).
Proof using N.
  rewrite (hit_first _ literals_solid). unfold find_literals, any. f_equal. clear N. induction (literals r) as [|x k IH]; [done|].
  cbn [map flat_map List.filter]. rewrite finds_literal, IH. by destruct (literal_at x l s).
Qed.
Lemma literal_hits_agree i k l1 s1 l2 s2 :
  (forall x, x ∈ literals r -> literal_at x l2 s2 = literal_at x l1 s1 \/ literal_at x l2 s2 = false /\ (k < i + length (value x))%nat) ->
  (forall n a, hit (find_literals r) false l1 s1 = Some (n, a) -> (i + n <= k)%nat -> hit (find_literals r) false l2 s2 = Some (n, a))
  /\ (hit (find_literals r) false l1 s1 = None -> hit (find_literals r) false l2 s2 = None).
Proof using N.
  rewrite !literal_hit. clear N. induction (literals r) as [|x ls IH]; intros H; [done|]. cbn [List.filter].
  specialize (IH ltac:(intros y Hy; apply H; by right)). destruct (H x ltac:(left)) as [E|[E Hk]].
  - rewrite E. by destruct (literal_at x l1 s1).
  - rewrite E. destruct (literal_at x l1 s1); [|done]. cbn. split; [|done]. intros n a [= <- <-]. lia.
Qed.
Lemma literal_hits_equal l1 s1 l2 s2 : (forall x, x ∈ literals r -> literal_at x l1 s1 = literal_at x l2 s2) ->
  hit (find_literals r) false l1 s1 = hit (find_literals r) false l2 s2.
Proof using N.
  rewrite !literal_hit. intros H. do 2 f_equal. clear N. induction (literals r) as [|x ls IH]; [done|]. cbn. rewrite (H x ltac:(left)).
  rewrite IH; [done|]. intros y Hy. apply H. by right.
Qed.
Lemma literal_hit_some l s n a : hit (find_literals r) false l s = Some (n, a) ->
  exists x, x ∈ literals r /\ n = length (value x) /\ literal_at x l s = true.
Proof using N.
  rewrite literal_hit. intros H%head_Some_elem_of. apply list_elem_of_fmap in H as (x & [= -> ->] & Hx).
  apply list_elem_of_In, filter_In in Hx as [Hx E]. exists x. by rewrite list_elem_of_In.
Qed.

End literals.

Section table.
Context (r : Redactor) (S : sound r).
Local Notation N := (so_nonempty r S).

Lemma patterns_solid : solid (find_patterns r).
Proof using S.
  intros l s [n a]. unfold find_patterns, any. intros (f & Hf & Hx)%in_flat_map_inv. apply list_elem_of_fmap in Hf as (p & -> & Hp).
  destruct (so_plain r S p Hp) as (e & (Hw & He & Ht) & Hfind). rewrite Hfind in Hx. apply list_elem_of_fmap in Hx as (k & [= -> ->] & Hk).
  cbn. by eapply lengths_takes.
Qed.

(** ** Literals at a seam *)

Lemma prefix_app same w s y : (length w <= length s)%nat -> has_prefix same w (s ++ y) = has_prefix same w s.
Proof using. revert s. induction w as [|a w IH]; intros [|c s] H; cbn in *; try done; [lia|]. by rewrite IH by lia. Qed.
Lemma prefix_forall2 same w s : has_prefix same w s = true -> Forall2 (fun a c => same a c = true) w (take (length w) s).
Proof using.
  revert s. induction w as [|a w IH]; intros [|c s]; cbn; try done. intros [H1 H2]%andb_true_iff. constructor; auto.
Qed.

Lemma literal_at_short x l s y : (length (value x) < length s)%nat -> literal_at x l (s ++ y) = literal_at x l s.
Proof using.
  intros H. unfold literal_at. rewrite !prefix_app by lia. rewrite drop_app_le by lia.
  destruct (drop (length (value x)) s) as [|c d] eqn:E; [|done]. apply (f_equal length) in E. rewrite length_drop in E. cbn in E. lia.
Qed.

Lemma host_lower c : host_char (lower_char c) = host_char c.
Proof using. destruct c as [[] [] [] [] [] [] [] []]; vm_compute; reflexivity. Qed.
Lemma host_ci a c : same_ci a c = true -> Host a -> Host c.
Proof using. unfold same_ci, Host. intros E H. apply Ascii.eqb_eq in E. rewrite <- host_lower, <- E, host_lower. exact H. Qed.
Lemma ascii_host c : ascii_host_char c = true -> Host c.
Proof using. unfold Host, host_char. by intros ->. Qed.
Lemma stops_not_host t : stops Host t -> not_host t = true.
Proof using. destruct t as [|c t]; [done|]. cbn. intros H. destruct (ascii_host_char c) eqn:E; [|done]. destruct H. by apply ascii_host. Qed.

(** What a bounded literal matches consists of host characters. *)
Lemma bounded_host x l s : x ∈ literals r -> bounded x = true -> literal_at x l s = true -> Forall Host (take (length (value x)) s).
Proof using S.
  intros Hx Hb. unfold literal_at. rewrite Hb. intros [[_ Hp]%andb_true_iff _]%andb_true_iff. apply prefix_forall2 in Hp.
  pose proof (so_bounded r S x Hx Hb) as Hv. revert Hv. induction Hp as [|a c w t Hac _ IH]; [done|]. intros [Ha Hw]%Forall_cons. constructor; [by eapply host_ci|auto].
Qed.

Lemma literal_at_seam x l s y : x ∈ literals r -> seam Host s y ->
  literal_at x l s = literal_at x l (s ++ y) \/ literal_at x l s = false /\ (length s < length (value x))%nat.
Proof using S.
  intros Hx Hseam. destruct (decide (length s < length (value x))%nat) as [Hlt|Hge].
  { right. split; [|done]. destruct (literal_at x l s) eqn:E; [|done]. apply literal_at_length in E. lia. }
  left. destruct (decide (length (value x) < length s)%nat) as [Hlt|Hge']; [symmetry; by apply literal_at_short|].
  assert (length (value x) = length s) as Hlen by lia. destruct (bounded x) eqn:Hb.
  - destruct (literal_at x l s) eqn:E.
    + pose proof (bounded_host x l s Hx Hb E) as Hh. rewrite Hlen, firstn_all in Hh. symmetry. revert E. unfold literal_at. rewrite Hb, prefix_app by lia.
      intros [H1 _]%andb_true_iff. rewrite H1. cbn. rewrite Hlen, drop_app_length. destruct Hseam as [Hy|Hs]; [by apply stops_not_host|].
      destruct s as [|z s] using rev_ind; [pose proof (so_nonempty r S x Hx); cbn in Hlen; lia|]. rewrite rev_app_distr in Hs. cbn in Hs.
      apply Forall_app in Hh as [_ Hz]. rewrite Forall_singleton in Hz. by destruct (Hs Hz).
    + symmetry. revert E. unfold literal_at. rewrite Hb, prefix_app by lia. rewrite Hlen, drop_ge by lia. cbn. rewrite andb_true_r. by intros ->.
  - unfold literal_at. rewrite Hb. symmetry. by apply prefix_app; lia.
Qed.

Lemma literal_at_right x a y i : x ∈ literals r -> seam Host a y ->
  literal_at x (rev (take i y) ++ rev a) (drop i y) = literal_at x (rev (take i y)) (drop i y).
Proof using S.
  intros Hx Hseam. unfold literal_at. destruct (bounded x) eqn:Hb; [|done].
  destruct (rev (take i y)) as [|c d] eqn:Et; [|done].
  assert (drop i y = y) as Ey.
  { destruct i as [|i]; [done|]. destruct y as [|c y]; [done|]. apply (f_equal length) in Et. rewrite length_rev in Et. cbn in Et. lia. }
  rewrite Ey. cbn [app not_host]. destruct (has_prefix same_ci (value x) y) eqn:Hp; [|by rewrite !andb_false_r].
  rewrite stops_not_host; [done|]. destruct Hseam as [Hy|Ha]; [|done]. exfalso. apply prefix_forall2 in Hp.
  pose proof (so_bounded r S x Hx Hb) as Hv. pose proof (so_nonempty r S x Hx) as Hn. destruct (value x) as [|v w]; [cbn in Hn; lia|].
  cbn in Hp. destruct y as [|c y]; [by inversion Hp|]. apply Forall2_cons in Hp as [Hvc _]. apply Forall_cons in Hv as [Hv _]. apply Hy. by eapply host_ci.
Qed.

(** ** Cuts *)

(** A literal that begins before the cut lies within the buffer, or cannot go beyond the cut. *)
Definition settled (buf : text) (cut : nat) : Prop :=
  forall x, x ∈ literals r -> (cut + length (value x) <= length buf)%nat
    \/ has_space (value x) = false /\ exists c, (0 < cut)%nat /\ buf !! (cut - 1)%nat = Some c /\ is_space c = true.
(** The cut lies beside a character that is no host character. *)
Definition beside (buf : text) (cut : nat) : Prop :=
  (cut <= length buf)%nat /\ (exists c, (0 < cut)%nat /\ buf !! (cut - 1)%nat = Some c /\ ~ Host c) \/ exists c, buf !! cut = Some c /\ ~ Host c.
Definition unstraddled (buf : text) (cut : nat) : Prop := forall a b, (a, b) ∈ spans r buf -> ~ (a < cut < b)%nat.
Definition good_cut (buf : text) (cut : nat) : Prop := settled buf cut /\ beside buf cut /\ unstraddled buf cut.

Lemma beside_le buf cut : beside buf cut -> (cut <= length buf)%nat.
Proof using. intros [[H _]|(c & H & _)]; [done|]. apply lookup_lt_Some in H. lia. Qed.
Lemma beside_seam buf cut f : beside buf cut -> seam Host (take cut buf) (drop cut buf ++ f).
Proof using.
  intros [[Hle (c & Hp & Hc & Hh)]|(c & Hc & Hh)].
  - right. assert (take cut buf = take (cut - 1) buf ++ [c]) as -> by (rewrite <- (take_S_r _ _ c) by done; f_equal; lia).
    rewrite rev_app_distr. exact Hh.
  - left. rewrite (drop_S buf c cut) by done. exact Hh.
Qed.

Lemma space_ci a c : same_ci a c = true -> is_space c = true -> is_space a = true.
Proof using.
  unfold same_ci. intros E%Ascii.eqb_eq Hc. assert (forall c, is_space (lower_char c) = is_space c) as Hl.
  { intros [[] [] [] [] [] [] [] []]; vm_compute; reflexivity. }
  by rewrite <- Hl, E, Hl.
Qed.
(** A literal without blanks does not match over one. *)
Lemma prefix_no_space same w s j c : (forall a c, same a c = true -> is_space c = true -> is_space a = true) ->
  has_space w = false -> s !! j = Some c -> is_space c = true -> (j < length w)%nat -> has_prefix same w s = false.
Proof using.
  intros Hs. revert s j. induction w as [|a w IH]; intros s j Hw Hj Hc Hlt; [cbn in Hlt; lia|].
  destruct s as [|d s]; [done|]. cbn in Hw |- *. apply orb_false_iff in Hw as [Ha Hw]. destruct (same a d) eqn:E; [|done]. cbn.
  destruct j as [|j]; [cbn in Hj; injection Hj as ->; by rewrite (Hs _ _ E Hc) in Ha|]. cbn in Hlt. apply (IH s j); [done..|lia].
Qed.

Lemma literal_at_settled x l i buf cut f : settled buf cut -> x ∈ literals r -> (i < cut)%nat -> (cut <= length buf)%nat ->
  literal_at x l (drop i buf ++ f) = literal_at x l (drop i buf).
Proof using.
  intros Hset Hx Hi Hle. destruct (decide (length (value x) < length (drop i buf))%nat) as [Hlt|Hge]; [by apply literal_at_short|].
  rewrite length_drop in Hge. destruct (Hset x Hx) as [H|(Hns & c & Hpos & Hc & Hsp)]; [lia|].
  assert (drop i buf !! (cut - 1 - i)%nat = Some c) as Hj by (rewrite lookup_drop; by replace (i + (cut - 1 - i))%nat with (cut - 1)%nat by lia).
  assert (forall f, has_prefix same_ci (value x) (drop i buf ++ f) = false /\ has_prefix Ascii.eqb (value x) (drop i buf ++ f) = false) as K.
  { intros g. assert ((drop i buf ++ g) !! (cut - 1 - i)%nat = Some c) as Hg by (rewrite lookup_app_l; [done|by eapply lookup_lt_Some]).
    split; (eapply prefix_no_space; [|exact Hns|exact Hg|exact Hsp|lia]); [apply space_ci|]. by intros a d ->%Ascii.eqb_eq. }
  destruct (K f) as [K1 K2]. destruct (K []) as [K3 K4]. rewrite app_nil_r in K3, K4. unfold literal_at. rewrite K1, K2, K3, K4. by rewrite !andb_false_r.
Qed.

(** ** The literal pass at a cut *)

Lemma elem_of_insert_span x y l : y ∈ insert_span x l <-> y = x \/ y ∈ l.
Proof using.
  induction l as [|z l IH]; cbn; [by rewrite list_elem_of_singleton, elem_of_nil; tauto|].
  destruct (before x z); rewrite !elem_of_cons; [tauto|rewrite IH; tauto].
Qed.
Lemma elem_of_insert_spans x l : x ∈ foldr insert_span [] l <-> x ∈ l.
Proof using. induction l as [|y l IH]; cbn; [done|]. by rewrite elem_of_insert_span, elem_of_cons, IH. Qed.
Lemma literal_span t x : x ∈ finditer (find_literals r) (fun m => negb (is_allowed r m)) t -> x ∈ spans r t.
Proof using. intros H. apply elem_of_insert_spans, elem_of_app. by left. Qed.

Lemma eqb_prefix w s : has_prefix Ascii.eqb w s = true -> take (length w) s = w.
Proof using.
  revert s. induction w as [|a w IH]; intros [|c s]; cbn; try done. intros [->%Ascii.eqb_eq H]%andb_true_iff. by rewrite IH.
Qed.

(** A run of host characters does not go over a cut that lies beside another one. *)
Lemma beside_run buf cut i n : beside buf cut -> Forall Host (take n (drop i buf)) -> (i + n <= length buf)%nat -> ~ (i < cut < i + n)%nat.
Proof using.
  intros Hb Hh Hn Hc. assert (forall j c, (i <= j < i + n)%nat -> buf !! j = Some c -> Host c) as Hat.
  { intros j c Hj E. rewrite Forall_lookup in Hh. apply (Hh (j - i)%nat). rewrite lookup_take_lt by lia. rewrite lookup_drop. by replace (i + (j - i))%nat with j by lia. }
  destruct Hb as [[Hle (c & Hp & E & Hnh)]|(c & E & Hnh)]; apply Hnh; (eapply Hat; [|exact E]; lia).
Qed.

Lemma allowed_hit buf cut i n a : beside buf cut -> (i <= length buf)%nat -> hit (find_literals r) false (rev (take i buf) ++ []) (drop i buf) = Some (n, a) ->
  is_allowed r (take n (drop i buf)) = true -> ~ (i < cut < i + n)%nat.
Proof using S.
  intros Hb Hi H Ha. apply (literal_hit_some r N) in H as (x & Hx & -> & E). pose proof (literal_at_length _ _ _ E) as Hl. rewrite length_drop in Hl.
  apply bool_decide_eq_true in Ha. destruct (bounded x) eqn:Ex.
  - apply (beside_run buf); [done| |lia]. by eapply bounded_host.
  - exfalso. unfold literal_at in E. rewrite Ex in E. rewrite (eqb_prefix _ _ E) in Ha. by apply (so_allowed r S x).
Qed.

Lemma seam_drop H a b i : seam H a b -> (i < length a)%nat -> seam H (drop i a) b.
Proof using.
  intros [Hs|Hs] Hi; [by left|right]. rewrite <- (take_drop i a), rev_app_distr in Hs.
  destruct (rev (drop i a)) as [|c d] eqn:E; [|done]. apply (f_equal length) in E. rewrite length_rev, length_drop in E. cbn in E. lia.
Qed.

Lemma literal_gives g buf cut : good_cut buf cut -> exists o, gives (find_literals r) g [] buf cut o.
Proof using S.
  intros (_ & Hb & Hu). pose proof (beside_le _ _ Hb) as Hle.
  apply (unstraddled_gives _ (literals_solid r N) g (fun m => negb (is_allowed r m)) (2 * length buf + 2)); [lia|done| |].
  - intros a b Hab. apply Hu, literal_span, Hab.
  - intros i n a Hi H Ha%negb_false_iff. destruct (decide (i + n <= cut)%nat); [done|]. destruct (allowed_hit buf cut i n a Hb ltac:(lia) H Ha). lia.
Qed.

Lemma literal_split buf cut f : good_cut buf cut ->
  literal_pass r (buf ++ f) = literal_pass r (take cut buf) ++ literal_pass r (drop cut buf ++ f).
Proof using S.
  intros Hg. pose proof Hg as (Hset & Hb & _). pose proof (beside_le _ _ Hb) as Hle. pose proof (beside_seam _ _ f Hb) as Hseam.
  assert (buf ++ f = take cut buf ++ (drop cut buf ++ f)) as E by (by rewrite app_assoc, take_drop). unfold literal_pass. rewrite E.
  assert (length (take cut buf) = cut) as Hlen by (rewrite length_take; lia).
  apply (sub_split _ (literals_solid r N)).
  - rewrite Hlen, <- E. destruct (literal_gives (sub_literal r) buf cut Hg) as [o Ho]. exists o. eapply (gives_agree _ (literals_solid r N)); [exact Ho|].
    split; [by rewrite take_app_le by lia|]. rewrite length_app. split; [lia|]. split; [lia|]. intros i Hi.
    rewrite take_app_le, drop_app_le by lia.
    rewrite (literal_hits_equal r N _ (drop i buf ++ f) (rev (take i buf) ++ []) (drop i buf)); [by auto|].
    intros x Hx. by apply (literal_at_settled x _ i buf cut f).
  - rewrite Hlen. split; [by rewrite take_app_le by lia|]. rewrite length_app. split; [lia|]. split; [lia|]. intros i Hi.
    rewrite take_app_le, (drop_app_le (take cut buf)) by lia. apply (literal_hits_agree r N i cut). intros x Hx.
    destruct (literal_at_seam x (rev (take i (take cut buf)) ++ []) (drop i (take cut buf)) (drop cut buf ++ f) Hx) as [K|[K1 K2]]; [|by left|right].
    + apply seam_drop; [done|lia].
    + split; [done|]. rewrite length_drop in K2. lia.
  - intros i Hi. apply (literal_hits_equal r N). intros x Hx. by apply literal_at_right.
Qed.

(** ** The pattern pass at a seam *)

Definition last_out (t : text) : Prop := exists c, last t = Some c /\ ~ Host c.

Lemma stops_rev t : t <> [] -> stops Host (rev t) <-> last_out t.
Proof using.
  destruct t as [|c t] using rev_ind; [done|]. intros _. rewrite rev_app_distr. unfold last_out. rewrite last_snoc. cbn. split; [eauto|].
  by intros (d & [= <-] & H).
Qed.
Lemma last_out_app a b : last_out b -> last_out (a ++ b).
Proof using. intros (c & E & H). exists c. by rewrite last_app, E. Qed.
Lemma bracket_out (c : Ascii.ascii) : c = Ascii.ascii_of_nat 91 \/ c = Ascii.ascii_of_nat 93 -> ~ Host c.
Proof using. by intros [->| ->]. Qed.

Lemma literal_last label t : last_out t -> last_out (sub_literal r label t).
Proof using.
  unfold sub_literal. destruct (is_allowed r t); [done|]. intros _. unfold placeholder. rewrite app_assoc. apply last_out_app.
  exists (Ascii.ascii_of_nat 93). split; [done|]. apply bracket_out. by right.
Qed.
Lemma literal_first label t : stops Host t -> stops Host (sub_literal r label t).
Proof using. unfold sub_literal. destruct (is_allowed r t); [done|]. intros _. apply bracket_out. by left. Qed.

Lemma literal_pass_last fuel : forall l s, last_out s -> last_out (sub_from (find_literals r) (sub_literal r) fuel false l s).
Proof using S.
  assert (forall (a b : text), b <> [] -> last_out (a ++ b) -> last_out b) as Hr.
  { intros a b Hb (c & E & H). exists c. split; [|done]. rewrite last_app in E. destruct (last b) eqn:El; [done|]. by apply last_None in El. }
  induction fuel as [|fuel IH]; intros l s Hs; [done|]. rewrite (sub_unfold _ (literals_solid r N)).
  destruct (hit (find_literals r) false l s) as [[n a]|] eqn:E.
  - rewrite <- (take_drop n s) in Hs. destruct (drop n s) as [|c d]; [|apply last_out_app, IH; by apply (Hr (take n s))].
    rewrite (sub_nil _ (literals_solid r N)). rewrite app_nil_r in *. by apply literal_last.
  - destruct s as [|c [|c' s]]; [done|by rewrite (sub_nil _ (literals_solid r N))|]. apply (last_out_app [c]), IH. by apply (Hr [c]).
Qed.

Lemma literal_pass_seam a b : seam Host a b -> seam Host (literal_pass r a) (literal_pass r b).
Proof using S.
  intros [Hb|Ha]; [left|right].
  - unfold literal_pass. rewrite (sub_eq _ (literals_solid r N)), (sub_unfold _ (literals_solid r N)). destruct (hit (find_literals r) false [] b) as [[n x]|] eqn:E.
    + apply (hit_some _ (literals_solid r N)) in E. destruct b as [|c b]; [cbn in E; lia|]. destruct n as [|n]; [lia|]. cbn [take].
      pose proof (literal_first x (c :: take n b) Hb) as K. destruct (sub_literal r x (c :: take n b)) eqn:Ex; [|done].
      exfalso. revert Ex. unfold sub_literal. by destruct (is_allowed r (c :: take n b)).
    + by destruct b.
  - destruct (decide (a = [])) as [->|Hne]; [unfold literal_pass, sub; by rewrite (sub_nil _ (literals_solid r N))|].
    apply stops_rev in Ha; [|done]. assert (last_out (literal_pass r a)) as K by (unfold literal_pass; by apply literal_pass_last).
    apply stops_rev; [|done]. intros E. rewrite E in K. by destruct K as (c & ? & _).
Qed.

Lemma pattern_hit l s : hit (find_patterns r) false l s = head (flat_map (fun p => map (fun n => (n, p)) (p_find p l s)) (patterns r)).
Proof using S. rewrite (hit_first _ patterns_solid). unfold find_patterns, any. by rewrite flat_map_concat_map, map_map, <- flat_map_concat_map. Qed.
Lemma pattern_hits_equal l1 s1 l2 s2 : (forall e, confined Host e -> lengths e l1 s1 = lengths e l2 s2) ->
  hit (find_patterns r) false l1 s1 = hit (find_patterns r) false l2 s2.
Proof using S.
  intros H. rewrite !pattern_hit. f_equal. pose proof (so_plain r S) as Hp. induction (patterns r) as [|p ps IH]; [done|]. cbn.
  destruct (Hp p ltac:(left)) as (e & He & Hf). rewrite !Hf, (H e He), IH; [done|]. intros q Hq. apply Hp. by right.
Qed.

Lemma pattern_sub_split g a b : seam Host a b -> sub (find_patterns r) g (a ++ b) = sub (find_patterns r) g a ++ sub (find_patterns r) g b.
Proof using S.
  intros Hs. assert (forall i e, (i < length a)%nat -> confined Host e ->
    lengths e (rev (take i a) ++ []) (drop i a ++ b) = lengths e (rev (take i a) ++ []) (drop i a)
    /\ Forall (fun n => (n <= length (drop i a))%nat) (lengths e (rev (take i a) ++ []) (drop i a ++ b))) as K.
  { intros i e Hi He. apply (seam_left Host); [done| |by apply seam_drop]. intros E. apply (f_equal length) in E. rewrite length_drop in E. cbn in E. lia. }
  apply (sub_split _ patterns_solid).
  - apply (unseen_gives _ patterns_solid); [rewrite length_app; lia|]. intros i n p Hi. rewrite take_app_le, drop_app_le by lia. rewrite pattern_hit.
    intros (q & Hq & Hn)%head_Some_elem_of%in_flat_map_inv. apply list_elem_of_fmap in Hn as (k & [= -> ->] & Hk).
    destruct (so_plain r S q Hq) as (e & He & Hf). rewrite Hf in Hk. destruct (K i e Hi He) as [_ F]. rewrite Forall_forall in F. specialize (F k Hk).
    rewrite length_drop in F. lia.
  - split; [by rewrite take_app_le by lia|]. rewrite length_app. split; [lia|]. split; [lia|]. intros i Hi. rewrite take_app_le, drop_app_le by lia.
    rewrite (pattern_hits_equal _ (drop i a ++ b) (rev (take i a) ++ []) (drop i a)); [by auto|]. intros e He. by apply K.
  - intros i Hi. apply pattern_hits_equal. intros e He. by apply (seam_right Host).
Qed.

(** The depth of the scans of refused candidates does not matter when it exceeds the length. *)
Lemma pattern_pass_depth : forall d1 d2 t, (length t < d1)%nat -> (length t < d2)%nat -> pattern_pass d1 r t = pattern_pass d2 r t.
Proof using S.
  induction d1 as [|d1 IH]; intros [|d2] t H1 H2; try lia. cbn [pattern_pass]. rewrite !(sub_eq _ patterns_solid). apply (sub_same _ patterns_solid); [|done].
  intros p u Hu. unfold sub_pattern, _rejected. destruct (is_allowed r u); [done|]. destruct (p_valid p) as [v|]; [|done]. destruct (v u); [done|].
  destruct (_ && _); [done|]. destruct u as [|c u]; [done|]. f_equal. cbn in Hu. apply IH; lia.
Qed.
Lemma pattern_pass_split d a b : seam Host a b -> (length (a ++ b) < d)%nat -> pattern_pass d r (a ++ b) = pattern_pass d r a ++ pattern_pass d r b.
Proof using S. destruct d as [|d]; [lia|]. intros Hs _. cbn [pattern_pass]. by apply pattern_sub_split. Qed.

Lemma redact_eq t : redact_text r t = pattern_pass (length (literal_pass r t) + 1)%nat r (literal_pass r t).
Proof using S.
  unfold redact_text. destruct t as [|c t]; [|by rewrite Nat.add_1_r]. unfold literal_pass, sub. rewrite (sub_nil _ (literals_solid r N)). cbn [length Nat.add pattern_pass]. unfold sub. by rewrite (sub_nil _ patterns_solid).
Qed.

(** A text is redacted on either side of a good cut as it is as a whole. *)
Lemma redact_split buf cut f : good_cut buf cut -> redact_text r (buf ++ f) = redact_text r (take cut buf) ++ redact_text r (drop cut buf ++ f).
Proof using S.
  intros Hg. rewrite !redact_eq, (literal_split buf cut f Hg). pose proof Hg as (_ & Hb & _).
  pose proof (literal_pass_seam _ _ (beside_seam _ _ f Hb)) as Hs. rewrite pattern_pass_split; [|done|lia].
  rewrite length_app. f_equal; apply pattern_pass_depth; lia.
Qed.
End table.
