(* ===== verification/RedactionMask.v ===== *)
(** What redaction does to a text ([Redaction.redact_text]): stretches of it are replaced by
    placeholders, and no secret is left. *)

From S2P Require Import Prelude Json Raise Regex Redaction RedactionLaws.

(** ** Masks *)

Definition opening : Ascii.ascii := Ascii.ascii_of_nat 91.
Definition closing : Ascii.ascii := Ascii.ascii_of_nat 93.

(** A text with stretches replaced by the placeholders of these labels *)
Inductive masks (labels : list string) : text -> text -> Prop :=
| masks_nil : masks labels [] []
| masks_keep c t u : masks labels t u -> masks labels (c :: t) (c :: u)
| masks_hide v label t u : label ∈ labels -> masks labels t u -> masks labels (v ++ t) (placeholder label ++ u).

Section masks.
Context (ls : list string).

Lemma masks_same t : masks ls t t.
Proof using. induction t; by constructor. Qed.
Lemma masks_app t1 u1 t2 u2 : masks ls t1 u1 -> masks ls t2 u2 -> masks ls (t1 ++ t2) (u1 ++ u2).
Proof using. intros H H2. induction H as [|c t u _ IH|v label t u Hl _ IH]; cbn [app]; [done|by constructor|]. rewrite <- !app_assoc. by constructor. Qed.
Lemma masks_placeholder v label : label ∈ ls -> masks ls v (placeholder label).
Proof using. intros H. rewrite <- (app_nil_r v), <- (app_nil_r (placeholder label)). constructor; [done|constructor]. Qed.

Lemma sub_masks {A} (m : finder A) f : (forall l s n a t, (n, a) ∈ m l s -> masks ls t (f a t)) ->
  forall n b l s, masks ls s (sub_from m f n b l s).
Proof using.
  intros Hf. induction n as [|n IH]; intros b l s; cbn; [apply masks_same|].
  destruct (hit m b l s) as [[[|k] a]|] eqn:E; [| |destruct s; [constructor|by constructor]].
  all: apply head_Some_elem_of, list_elem_of_filter in E as [_ E].
  - apply (masks_app [] _ s); [by eapply Hf|auto].
  - rewrite <- (take_drop (S k) s) at 1. apply masks_app; [by eapply Hf|auto].
Qed.

(** A text that is not as it was has an opening bracket. *)
Lemma masks_bracket t u : masks ls t u -> u = t \/ opening ∈ u.
Proof using.
  induction 1 as [|c t u _ IH|v label t u _ _ _]; [by left| |right; left]. destruct IH as [->|H]; [by left|right; by right].
Qed.
End masks.

Definition labels_of (r : Redactor) : list string := map label (literals r) ++ map p_label (patterns r).

Lemma literal_masks r l t : l ∈ map label (literals r) -> masks (labels_of r) t (sub_literal r l t).
Proof.
  intros Hl. unfold sub_literal. destruct (is_allowed r t); [apply masks_same|apply masks_placeholder]. apply elem_of_app. by left.
Qed.
Lemma find_literals_label r l s n a : (n, a) ∈ find_literals r l s -> a ∈ map label (literals r).
Proof.
  unfold find_literals, any, finds. intros (f & Hf & Hx)%in_flat_map_inv. apply list_elem_of_fmap in Hf as (x & -> & Hl).
  apply list_elem_of_fmap in Hx as (q & [= -> ->] & _). by apply list_elem_of_In, in_map, list_elem_of_In.
Qed.
Lemma literal_pass_masks r t : masks (labels_of r) t (literal_pass r t).
Proof. apply sub_masks. intros l s n a u Ha. eapply literal_masks, find_literals_label, Ha. Qed.
Lemma pattern_masks r : forall d t, masks (labels_of r) t (pattern_pass d r t).
Proof.
  induction d as [|d IH]; intros t; [apply masks_same|]. cbn [pattern_pass]. apply sub_masks. intros l s n p u Hp.
  assert (p_label p ∈ labels_of r) as Hl.
  { unfold find_patterns, any in Hp. apply in_flat_map_inv in Hp as (f & Hf & Hx). apply list_elem_of_fmap in Hf as (q & -> & Hq).
    apply list_elem_of_fmap in Hx as (k & [= -> ->] & _). apply elem_of_app. right. by apply list_elem_of_In, in_map, list_elem_of_In. }
  unfold sub_pattern, _rejected. destruct (is_allowed r u); [apply masks_same|]. destruct (p_valid p) as [v|]; [|by apply masks_placeholder].
  destruct (v u); [by apply masks_placeholder|]. destruct (_ && _).
  - rewrite <- (take_drop (length (rstrip_dots u)) u) at 1. apply masks_app; [by apply masks_placeholder|apply masks_same].
  - destruct u as [|c u]; [constructor|]. by constructor.
Qed.
(** Redaction only hides. *)
Lemma masks_trans_bracket ls t u v : masks ls t u -> masks ls u v -> v = t \/ opening ∈ v.
Proof.
  intros H1 H2. destruct (masks_bracket ls t u H1) as [->|H]; [by eapply masks_bracket|right]. revert H. clear H1.
  induction H2 as [|c u v _ IH|w label u v _ _ _]; [done| |left]. intros [->|H]%elem_of_cons; [left|right; auto].
Qed.
Lemma redact_kept r t : redact_text r t = t \/ opening ∈ redact_text r t.
Proof. destruct t as [|c t]; [by left|]. eapply masks_trans_bracket; [apply literal_pass_masks|apply pattern_masks]. Qed.

(** ** Secrets *)

(** [w in t] *)
Fixpoint occurs (w t : text) : bool := has_prefix Ascii.eqb w t || match t with _ :: t => occurs w t | [] => false end.

Lemma occurs_spec w t : occurs w t = false <-> forall i, has_prefix Ascii.eqb w (drop i t) = false.
Proof.
  induction t as [|c t IH]; cbn [occurs]; rewrite orb_false_iff.
  - split; [intros [H _] i; by rewrite drop_nil|intros H; split; [apply (H 0%nat)|done]].
  - rewrite IH. split; [intros [H1 H2] [|i]; [done|apply H2]|intros H; split; [apply (H 0%nat)|intros i; apply (H (S i))]].
Qed.
Lemma occurs_drop w t i : occurs w t = false -> occurs w (drop i t) = false.
Proof. rewrite !occurs_spec. intros H j. rewrite drop_drop. apply H. Qed.
Lemma occurs_part w a b c : occurs w (a ++ b ++ c) = false -> occurs w b = false.
Proof.
  rewrite !occurs_spec. intros H i. destruct (decide (i <= length b)%nat) as [Hi|Hi].
  - specialize (H (length a + i)%nat). rewrite drop_app_add, drop_app_le in H by lia. destruct (has_prefix Ascii.eqb w (drop i b)) eqn:E; [|done].
    rewrite prefix_app in H; [by rewrite E in H|]. by apply has_prefix_length in E.
  - specialize (H (length a + length b)%nat). rewrite drop_app_add, drop_app_length in H. rewrite drop_ge by lia. destruct w; [|done]. done.
Qed.
(** A character that the word has not keeps its occurrences apart. *)
Lemma occurs_apart w a c b : c ∉ w -> occurs w a = false -> occurs w b = false -> occurs w (a ++ c :: b) = false.
Proof.
  intros Hc. rewrite !occurs_spec. intros Ha Hb i. destruct (decide (i <= length a)%nat) as [Hi|Hi].
  - rewrite drop_app_le by lia. specialize (Ha i). revert Ha. generalize (drop i a). clear Hi Hb. induction w as [|x w IH]; intros u; [by destruct u|].
    rewrite elem_of_cons in Hc. destruct u as [|y u]; cbn.
    + intros _. destruct (Ascii.eqb x c) eqn:E; [|done]. apply Ascii.eqb_eq in E. subst. destruct Hc. by left.
    + destruct (Ascii.eqb x y); [|done]. cbn. apply IH. tauto.
  - rewrite drop_app_ge by lia. replace (i - length a)%nat with (S (i - length a - 1)) by lia. apply Hb.
Qed.
Section secret.
Context (w : text) (Ho : opening ∉ w) (Hc : closing ∉ w).

Definition body (label : string) : text := text_of "REDACTED:" ++ text_of label.
Lemma placeholder_body label : placeholder label = opening :: body label ++ [closing].
Proof using. unfold placeholder, body. by rewrite <- app_assoc. Qed.

(** Around a placeholder *)
Lemma occurs_placeholder a label b : occurs w (body label) = false -> occurs w a = false -> occurs w b = false -> occurs w (a ++ placeholder label ++ b) = false.
Proof using Ho Hc.
  intros Hl Ha Hb. rewrite placeholder_body. cbn [app]. apply occurs_apart; [done..|]. rewrite <- app_assoc. cbn [app]. by apply occurs_apart.
Qed.

(** A mask of a text without the word has it not, when no placeholder has. *)
Lemma masks_clean ls t u : (forall l, l ∈ ls -> occurs w (body l) = false) -> masks ls t u -> forall a, occurs w (a ++ t) = false -> occurs w (a ++ u) = false.
Proof using Ho Hc.
  intros Hl H. induction H as [|c t u _ IH|v label t u Hin _ IH]; intros a Ha; [done| |].
  - rewrite cons_middle, app_assoc. apply IH. by rewrite <- app_assoc.
  - apply occurs_placeholder; [auto| |].
    + apply (occurs_part w [] a (v ++ t)). exact Ha.
    + apply (IH []). cbn [app]. rewrite app_assoc in Ha. apply (occurs_part w (a ++ v) t []). by rewrite app_nil_r.
Qed.
End secret.

(** No allowed text is a literal, up to case. *)
Definition unexcused (r : Redactor) : bool :=
  forallb (fun x => forallb (fun a => negb (has_prefix same_ci (value x) a && (length a =? length (value x))%nat)) (allowed r)) (literals r).

Section hidden.
Context (r : Redactor) (N : forall x, x ∈ literals r -> (0 < length (value x))%nat) (Hex : unexcused r = true).

Lemma prefix_ci w s : has_prefix Ascii.eqb w s = true -> has_prefix same_ci w s = true.
Proof using.
  revert s. induction w as [|a w IH]; intros [|c s]; cbn; try done. intros [->%Ascii.eqb_eq H]%andb_true_iff. rewrite IH by done.
  unfold same_ci. by rewrite Ascii.eqb_refl.
Qed.
Lemma prefix_take same w s : has_prefix same w s = true -> has_prefix same w (take (length w) s) = true.
Proof using. revert s. induction w as [|a w IH]; intros [|c s]; cbn; try done. intros [-> H]%andb_true_iff. by apply IH. Qed.
Lemma literal_replaced l s n a : hit (find_literals r) false l s = Some (n, a) -> sub_literal r a (take n s) = placeholder a.
Proof using N Hex.
  intros H. apply (literal_hit_some r N) in H as (x & Hx & -> & E). unfold sub_literal, is_allowed. case_bool_decide as Ha; [|done]. exfalso.
  unfold unexcused in Hex. rewrite forallb_forall in Hex. apply list_elem_of_In in Hx. specialize (Hex x Hx). rewrite forallb_forall in Hex.
  apply list_elem_of_In in Ha. specialize (Hex _ Ha). apply negb_true_iff, andb_false_iff in Hex.
  pose proof (literal_at_length _ _ _ E) as Hl. assert (has_prefix same_ci (value x) s = true) as Hp.
  { unfold literal_at in E. destruct (bounded x); [by apply andb_true_iff in E as [[_ E]%andb_true_iff _]|by apply prefix_ci]. }
  destruct Hex as [K|K]; [by rewrite prefix_take in K|]. apply Nat.eqb_neq in K. rewrite length_take in K. lia.
Qed.

Context (x : Literal) (Hx : x ∈ literals r) (Hb : bounded x = false) (Ho : opening ∉ value x) (Hc : closing ∉ value x).
Context (Hl : forall l, l ∈ labels_of r -> occurs (value x) (body l) = false).

(** [k] has been kept: the secret does not begin there. *)
Lemma scan_clean : forall n l s k, (length s < n)%nat -> (forall i, (i < length k)%nat -> has_prefix Ascii.eqb (value x) (drop i k ++ s) = false) ->
  occurs (value x) (k ++ sub_from (find_literals r) (sub_literal r) n false l s) = false.
Proof using N Hex Hx Hb Ho Hc Hl.
  assert (forall k s, (forall i, (i < length k)%nat -> has_prefix Ascii.eqb (value x) (drop i k ++ s) = false) -> occurs (value x) k = false) as Hkept.
  { intros k s H. apply occurs_spec. intros i. destruct (decide (i < length k)%nat) as [Hi|Hi].
    - destruct (has_prefix Ascii.eqb (value x) (drop i k)) eqn:E; [|done]. specialize (H i Hi). rewrite prefix_app in H by (by apply has_prefix_length in E). congruence.
    - rewrite drop_ge by lia. pose proof (N x Hx). by destruct (value x); [cbn in *; lia|]. }
  induction n as [|n IH]; intros l s k Hn Hk; [lia|]. rewrite (sub_unfold _ (literals_solid r N)).
  destruct (hit (find_literals r) false l s) as [[m a]|] eqn:E.
  - rewrite (literal_replaced l s m a E). apply occurs_placeholder; [done..| |by eapply Hkept|].
    + apply Hl. apply elem_of_app. left. rewrite (hit_first _ (literals_solid r N)) in E. by eapply find_literals_label, head_Some_elem_of.
    + apply (hit_some _ (literals_solid r N)) in E. apply (IH _ _ []); [rewrite length_drop; lia|]. intros i Hi. cbn in Hi. lia.
  - destruct s as [|c s]; [rewrite app_nil_r; by eapply Hkept|]. rewrite cons_middle, app_assoc. cbn in Hn. apply IH; [lia|].
    intros i Hi. rewrite length_app in Hi. cbn in Hi. destruct (decide (i < length k)%nat) as [Hlt|Hge].
    + rewrite drop_app_le by lia. rewrite <- app_assoc. by apply Hk.
    + rewrite drop_app_ge by lia. replace (i - length k)%nat with 0%nat by lia. cbn [drop app]. rewrite (literal_hit r N) in E.
      destruct (has_prefix Ascii.eqb (value x) (c :: s)) eqn:Ep; [|done]. exfalso. apply head_None, map_eq_nil in E.
      assert (In x (List.filter (fun x => literal_at x l (c :: s)) (literals r))) as K by (apply filter_In; rewrite <- list_elem_of_In; split; [done|]; unfold literal_at; by rewrite Hb).
      by rewrite E in K.
Qed.

(** C14. No secret passes: a literal that is matched anywhere (an environment's secret, a listed
    value) does not occur in [redact_text] of any text, whatever the other literals and the
    patterns are, when it has no square bracket, is not part of a placeholder and no text that
    is allowed is one of the literals. *)
Theorem secrets_never_pass t : occurs (value x) (redact_text r t) = false.
Proof using N Hex Hx Hb Ho Hc Hl.
  assert (occurs (value x) (literal_pass r t) = false) as H.
  { unfold literal_pass. rewrite (sub_eq _ (literals_solid r N)). change (sub_from ?m ?f ?n ?b ?l t) with ([] ++ sub_from m f n b l t).
    apply scan_clean; [lia|]. intros i Hi. cbn in Hi. lia. }
  destruct t as [|c t]; [pose proof (N x Hx); cbn; by destruct (value x); [cbn in *; lia|]|].
  exact (masks_clean (value x) Ho Hc (labels_of r) _ _ Hl (pattern_masks r (S (length (literal_pass r (c :: t)))) (literal_pass r (c :: t))) [] H).
Qed.
End hidden.

(** ** Examples *)

Definition secret_redactor : Redactor :=
  make_redactor [] [MkLiteral (text_of "aaab") "custom" false; MkLiteral (text_of "s3cret-abc") "secret" false; MkLiteral (text_of "web1") "hostname" true] [].
Lemma secrets_never_pass_witness :
  occurs (text_of "aaab") (redact_text secret_redactor (text_of "aaaab aaaaaabb WEB1")) = false
  /\ string_of (redact_text secret_redactor (text_of "aaaab aaaaaabb WEB1")) = "a[REDACTED:custom] aaa[REDACTED:custom]b [REDACTED:hostname]".
Proof.
  split; [|by vm_compute]. apply (secrets_never_pass secret_redactor) with (x := MkLiteral (text_of "aaab") "custom" false); try done.
  - intros x Hx. apply Nat.ltb_lt. revert x Hx. apply Forall_forall. vm_compute. by repeat constructor.
  - apply list_elem_of_In. vm_compute. auto.
  - apply (bool_decide_eq_false_1 _). by vm_compute.
  - apply (bool_decide_eq_false_1 _). by vm_compute.
  - apply Forall_forall. vm_compute. by repeat constructor.
Defined.
