(* ===== verification/RedactionCarry.v ===== *)
(** The end of a text block that is held back ([Redaction._safe_cut], [Redaction.feed]): where
    the cut comes to lie, and that the pieces let out are the redaction of the block. *)

From S2P Require Import Prelude Json Raise Regex Redaction RedactionLaws.

(** ** Runs of host characters *)

(** No more than [k] host characters in a row, after [n] of them *)
Fixpoint runs_within (k n : nat) (t : text) : bool :=
  match t with
  | [] => true
  | c :: t => if host_char c then (S n <=? k)%nat && runs_within k (S n) t else runs_within k 0 t
  end.
(** The window of [_soft_boundary] sees a character that is no host character. *)
Definition short_runs (t : text) : bool := runs_within (S _WINDOW) 0 t.
Definition broken (k : nat) (t : text) : Prop := forall i, exists j, (j <= k)%nat /\ host_at t (i + j) = false.

Lemma runs_mono k t : forall n m, (n <= m)%nat -> runs_within k m t = true -> runs_within k n t = true.
Proof.
  induction t as [|c t IH]; intros n m Hnm; cbn [runs_within]; [done|]. destruct (host_char c); [|done].
  intros [H1%Nat.leb_le H2]%andb_true_iff. apply andb_true_iff. split; [apply Nat.leb_le; lia|]. apply (IH (S n) (S m)); [lia|done].
Qed.
Lemma runs_drop k t : forall i n, runs_within k n t = true -> runs_within k 0 (drop i t) = true.
Proof.
  induction t as [|c t IH]; intros [|i] n H; try done; [by eapply runs_mono; [|exact H]; lia|]. cbn [runs_within drop] in H |- *.
  destruct (host_char c); [apply andb_true_iff in H as [_ H]|]; by eapply IH.
Qed.
Lemma runs_break k t : forall n, (n <= k)%nat -> runs_within k n t = true -> exists j, (j + n <= k)%nat /\ host_at t j = false.
Proof.
  induction t as [|c t IH]; intros n Hn H; [by exists 0%nat|]. cbn [runs_within] in H. destruct (host_char c) eqn:E.
  - apply andb_true_iff in H as [H1%Nat.leb_le H2]. destruct (IH (S n) H1 H2) as (j & Hj & Hh). exists (S j). split; [lia|exact Hh].
  - exists 0%nat. split; [lia|]. exact E.
Qed.
Lemma short_broken t : short_runs t = true -> broken (S _WINDOW) t.
Proof.
  intros H i. destruct (runs_break _ (drop i t) 0 ltac:(lia) (runs_drop _ t i 0 H)) as (j & Hj & Hh). exists j. split; [lia|].
  unfold host_at in *. by rewrite lookup_drop in Hh.
Qed.
Lemma broken_part k a b c : broken k (a ++ b ++ c) -> broken k b.
Proof.
  intros H i. destruct (H (length a + i)%nat) as (j & Hj & Hh). exists j. split; [done|]. unfold host_at in *.
  destruct (b !! (i + j)%nat) as [x|] eqn:E; [|done]. rewrite lookup_app_r in Hh by lia.
  replace (length a + i + j - length a)%nat with (i + j)%nat in Hh by lia. rewrite lookup_app_l in Hh by (by eapply lookup_lt_Some). by rewrite E in Hh.
Qed.

(** ** The searches *)

Lemma after_space_le buf n : (_after_last_space buf n <= n)%nat.
Proof. induction n as [|n IH]; cbn; [lia|]. destruct (buf !! n) as [c|]; [destruct (is_space c)|]; lia. Qed.
Definition after_space (buf : text) (cut : nat) : Prop := cut = 0%nat \/ exists c, (0 < cut)%nat /\ buf !! (cut - 1)%nat = Some c /\ is_space c = true.
Lemma after_space_spec buf n : after_space buf (_after_last_space buf n).
Proof.
  induction n as [|n IH]; cbn; [by left|]. destruct (buf !! n) as [c|] eqn:E; [|done]. destruct (is_space c) eqn:Ec; [|done].
  right. exists c. split; [lia|]. by rewrite Nat.sub_succ, Nat.sub_0_r.
Qed.

Lemma soft_from_le buf : forall n p q, soft_from buf n p = Some q -> (q <= p)%nat /\ _splittable buf q = true.
Proof.
  induction n as [|n IH]; intros p q; cbn; destruct (_splittable buf p) eqn:E; intros H; try done; try (injection H as <-; by split; [lia|]).
  apply IH in H. split; [lia|]. apply H.
Qed.
Lemma soft_from_finds buf : forall n p j, (j <= n)%nat -> (j <= p)%nat -> _splittable buf (p - j) = true -> soft_from buf n p <> None.
Proof.
  induction n as [|n IH]; intros p j Hn Hp Hs; cbn; destruct (_splittable buf p) eqn:E; try done.
  - assert (j = 0%nat) as -> by lia. by rewrite Nat.sub_0_r, E in Hs.
  - destruct j as [|j]; [by rewrite Nat.sub_0_r, E in Hs|]. apply (IH (p - 1)%nat j); [lia|lia|]. by replace (p - 1 - j)%nat with (p - S j)%nat by lia.
Qed.

Lemma soft_boundary_le buf n : (_soft_boundary buf n <= n)%nat.
Proof. unfold _soft_boundary. destruct (soft_from buf _ n) as [q|] eqn:E; cbn; [|lia]. apply soft_from_le in E as [H _]. exact H. Qed.
(** With short runs the window holds a place to cut. *)
Lemma soft_boundary_splits buf n : broken (S _WINDOW) buf -> _splittable buf (_soft_boundary buf n) = true.
Proof.
  intros Hb. unfold _soft_boundary. destruct (soft_from buf _ n) as [q|] eqn:E; cbn; [apply soft_from_le in E as [_ H]; exact H|]. exfalso. revert E.
  destruct (decide (n <= _WINDOW)%nat) as [Hle|Hgt].
  - apply (soft_from_finds buf _ n n); [lia|lia|]. by rewrite Nat.sub_diag.
  - destruct (Hb (n - S _WINDOW)%nat) as (j & Hj & Hh). destruct (decide (j = S _WINDOW)) as [->|Hne].
    + apply (soft_from_finds buf _ n 0); [lia|lia|]. replace (n - S _WINDOW + S _WINDOW)%nat with (n - 0)%nat in Hh by lia.
      unfold _splittable. rewrite Hh. cbn. by rewrite !orb_true_r.
    + apply (soft_from_finds buf _ n (_WINDOW - j)); [lia|lia|]. replace (n - (_WINDOW - j))%nat with (S (n - S _WINDOW + j)) by lia.
      unfold _splittable. rewrite Nat.sub_succ, Nat.sub_0_r, Hh. cbn. by rewrite orb_true_r.
Qed.

(** ** The cut *)

Lemma straddled_some l cut a b : straddled l cut = Some (a, b) -> (a < cut)%nat.
Proof. unfold straddled. intros H%head_Some_elem_of%list_elem_of_In%filter_In. destruct H as [_ [H%Nat.ltb_lt _]%andb_true_iff]. exact H. Qed.
Lemma straddled_none l cut a b : straddled l cut = None -> (a, b) ∈ l -> ~ (a < cut < b)%nat.
Proof.
  unfold straddled. intros H Hab Hc. apply head_None in H. assert ((a, b) ∈ List.filter (fun s => (fst s <? cut)%nat && (cut <? snd s)%nat) l) as K.
  { apply list_elem_of_In, filter_In. split; [by apply list_elem_of_In|]. cbn. apply andb_true_iff. split; apply Nat.ltb_lt; lia. }
  rewrite H in K. by apply not_elem_of_nil in K.
Qed.

(** The loop ends with the fuel it is given, out of every span, and where a cut may be. *)
Lemma settle_forced l buf : broken (S _WINDOW) buf -> forall fuel cut, (cut < fuel)%nat ->
  let q := settle fuel true l buf cut in (q <= cut)%nat /\ (q = 0%nat \/ straddled l q = None /\ _splittable buf q = true).
Proof.
  intros Hb. induction fuel as [|fuel IH]; intros cut Hf; [lia|]. destruct cut as [|cut]; [cbn; auto|]. cbn [settle]. revert Hf. set (c := S cut). intros Hf.
  destruct (straddled l c) as [[a b]|] eqn:E.
  - pose proof (straddled_some _ _ _ _ E) as Ha. destruct (_splittable buf a) eqn:Es; cbn [andb negb orb].
    + destruct (IH a ltac:(lia)) as [H1 H2]. split; [lia|done].
    + pose proof (soft_boundary_le buf a). destruct (IH (_soft_boundary buf a) ltac:(lia)) as [H1 H2]. split; [lia|done].
  - destruct (_splittable buf c) eqn:Es; cbn [andb negb orb]; [by auto|]. pose proof (soft_boundary_le buf c) as Hle. pose proof (soft_boundary_splits buf c Hb) as Hs.
    assert (_soft_boundary buf c <> c) as Hne by (intros K; rewrite K, Es in Hs; done). pose proof Hne as Hne'. apply Nat.eqb_neq in Hne'. rewrite Hne'.
    cbn [orb negb]. destruct (IH (_soft_boundary buf c) ltac:(lia)) as [H1 H2]. split; [lia|done].
Qed.
Lemma settle_free l buf : forall fuel cut, (cut < fuel)%nat -> after_space buf cut ->
  let q := settle fuel false l buf cut in (q <= cut)%nat /\ after_space buf q /\ (q = 0%nat \/ straddled l q = None).
Proof.
  induction fuel as [|fuel IH]; intros cut Hf Hs; [lia|]. destruct cut as [|cut]; [cbn; auto|]. cbn [settle]. revert Hf Hs. set (c := S cut). intros Hf Hs.
  destruct (straddled l c) as [[a b]|] eqn:E; cbn [andb negb]; [|by auto]. pose proof (straddled_some _ _ _ _ E) as Ha. pose proof (after_space_le buf a).
  destruct (IH (_after_last_space buf a) ltac:(lia) (after_space_spec buf a)) as (H1 & H2). split; [lia|done].
Qed.

Section table.
Context (r : Redactor).

Lemma max_of_le l n : n ∈ l -> (n <= max_of l)%nat.
Proof using. unfold max_of. induction l as [|m l IH]; cbn [foldr]; [by intros ?%not_elem_of_nil|]. intros [->|H%IH]%elem_of_cons; lia. Qed.
Lemma literal_fits x : x ∈ literals r -> (length (value x) <= stream_keep r)%nat.
Proof using.
  intros H. unfold stream_keep, max_literal_len. assert (length (value x) <= max_of (map (fun l => length (value l)) (literals r)))%nat; [|lia].
  apply max_of_le, list_elem_of_In, (in_map (fun l => length (value l))), list_elem_of_In, H.
Qed.
Lemma ws_literal_fits x : x ∈ literals r -> has_space (value x) = true -> (length (value x) <= max_ws_literal_len r)%nat.
Proof using.
  intros H Hs. apply max_of_le, list_elem_of_In, (in_map (fun l => length (value l))), filter_In. by rewrite <- list_elem_of_In.
Qed.
Lemma keep_positive : (0 < stream_keep r)%nat.
Proof using. unfold stream_keep. generalize (Nat.max (max_literal_len r) (max_of (map (fun p => default 0%nat (p_max p)) (patterns r)))). lia. Qed.
Lemma hold_fits : (max_ws_literal_len r <= stream_keep r)%nat.
Proof using.
  unfold stream_keep. assert (max_ws_literal_len r <= max_literal_len r)%nat; [|lia]. unfold max_ws_literal_len, max_literal_len, max_of.
  induction (literals r) as [|x l IH]; [done|]. cbn [List.filter map foldr]. destruct (has_space (value x)); cbn [map foldr]; lia.
Qed.

Lemma space_not_host c : is_space c = true -> ~ Host c.
Proof using. intros H1 H2. unfold Host in H2. revert H1 H2. destruct c as [[] [] [] [] [] [] [] []]; vm_compute; discriminate. Qed.
Lemma splittable_beside buf p : (0 < p)%nat -> (p < length buf)%nat -> _splittable buf p = true -> beside buf p.
Proof using.
  intros H1 H2. unfold _splittable, host_at. destruct (lookup_lt_is_Some_2 buf (p - 1) ltac:(lia)) as [c Hc].
  destruct (lookup_lt_is_Some_2 buf p ltac:(lia)) as [d Hd]. rewrite Hc, Hd. destruct (p =? 0)%nat eqn:E1; [apply Nat.eqb_eq in E1; lia|].
  destruct (length buf <=? p)%nat eqn:E2; [apply Nat.leb_le in E2; lia|]. cbn. intros [K|K]%orb_true_iff; apply negb_true_iff in K.
  - left. split; [lia|]. exists c. split; [done|]. split; [done|]. unfold Host. by rewrite K.
  - right. exists d. split; [done|]. unfold Host. by rewrite K.
Qed.

Lemma none_unstraddled buf q : straddled (spans r buf) q = None -> unstraddled r buf q.
Proof using. intros H a b Hab. by eapply straddled_none. Qed.

(** A cut is where the text falls apart. *)
Lemma safe_cut_good buf : broken (S _WINDOW) buf -> (0 < _safe_cut r buf)%nat -> good_cut r buf (_safe_cut r buf).
Proof using.
  intros Hb. unfold _safe_cut. set (c0 := _after_last_space buf (length buf)). pose proof (after_space_le buf (length buf)) as Hc0. fold c0 in Hc0.
  pose proof hold_fits as Hhold. pose proof keep_positive as Hkeep. destruct (_max_run r <? length buf - c0)%nat eqn:Ef.
  - apply Nat.ltb_lt in Ef. unfold _max_run in Ef. pose proof (soft_boundary_le buf (length buf - stream_keep r)) as Hle.
    set (c1 := _soft_boundary buf (length buf - stream_keep r)) in *.
    assert ((length buf - max_ws_literal_len r <? c1)%nat = false) as -> by (apply Nat.ltb_ge; lia). rewrite andb_false_r.
    destruct (settle_forced (spans r buf) buf Hb (S (length buf)) c1 ltac:(lia)) as [H1 [H2|[H2 H3]]]; [lia|]. intros Hpos.
    split; [|split; [|by apply none_unstraddled]].
    + intros x Hx. left. pose proof (literal_fits x Hx). lia.
    + apply splittable_beside; [done|lia|done].
  - set (c1 := if _ && _ then _ else _). assert (c1 <= length buf)%nat as Hle.
    { subst c1. destruct (_ && _); [|exact Hc0]. pose proof (after_space_le buf (length buf - max_ws_literal_len r)). lia. }
    assert (after_space buf c1) as Hs by (subst c1; destruct (_ && _); apply after_space_spec).
    assert ((0 < max_ws_literal_len r)%nat -> (c1 <= length buf - max_ws_literal_len r)%nat) as Hh.
    { intros Hp. subst c1. apply Nat.ltb_lt in Hp. rewrite Hp, andb_true_l. destruct (_ <? c0)%nat eqn:El; [apply after_space_le|by apply Nat.ltb_ge in El]. }
    destruct (settle_free (spans r buf) buf (S (length buf)) c1 ltac:(lia) Hs) as (H1 & H2 & [H3|H3]); [lia|]. intros Hpos.
    destruct H2 as [H2|(c & Hp & Hc & Hsp)]; [lia|]. split; [|split; [|by apply none_unstraddled]].
    + intros x Hx. destruct (has_space (value x)) eqn:Ex; [left|right; split; [done|by exists c]].
      pose proof (ws_literal_fits x Hx Ex) as Hw. destruct (value x) as [|v w] eqn:Ev; [done|]. cbn [length] in *. specialize (Hh ltac:(lia)). lia.
    + left. split; [lia|]. exists c. split; [done|]. split; [done|]. by apply space_not_host.
Qed.
End table.

(** ** The pieces of a block *)

(** What comes out of the deltas of a block, and at its end *)
Definition streamed (r : Redactor) (l : list text) : text := let (buf, o) := feeds r [] l in o ++ flush r buf.

Section pieces.
Context (r : Redactor).

(** The texts the promise is about *)
Definition fits (t : text) : Prop := unbounded_patterns r = true \/ sound r /\ broken (S _WINDOW) t.
Lemma fits_part a b c : fits (a ++ b ++ c) -> fits b.
Proof using. intros [H|[H1 H2]]; [by left|right]. split; [done|]. by eapply broken_part. Qed.

(** What a delta lets out is what the rest of the block does not need. *)
Lemma feed_split buf t f : fits (buf ++ t) ->
  let (h, o) := feed r buf t in redact_text r ((buf ++ t) ++ f) = o ++ redact_text r (h ++ f) /\ exists p, buf ++ t = p ++ h.
Proof using.
  unfold feed. intros [->|[Hs Hb]]; [by split; [|exists []]|]. destruct (unbounded_patterns r); [by split; [|exists []]|].
  destruct (_safe_cut r (buf ++ t)) as [|cut] eqn:E; [by split; [|exists []]|]. rewrite <- E. split.
  - apply (redact_split r Hs). apply safe_cut_good; [done|lia].
  - exists (take (_safe_cut r (buf ++ t)) (buf ++ t)). by rewrite take_drop.
Qed.

Lemma feeds_split l : forall buf, fits (buf ++ concat l) ->
  let (h, o) := feeds r buf l in redact_text r (buf ++ concat l) = o ++ redact_text r h.
Proof using.
  induction l as [|t l IH]; intros buf Hb; cbn [feeds concat] in *; [by rewrite app_nil_r|]. rewrite app_assoc in *.
  pose proof (feed_split buf t (concat l) (fits_part [] _ _ Hb)) as Hf. destruct (feed r buf t) as [h o]. destruct Hf as (E & p & Ep).
  assert (fits (h ++ concat l)) as Hh.
  { apply (fits_part p _ []). rewrite app_nil_r, app_assoc, <- Ep. exact Hb. }
  specialize (IH h Hh). destruct (feeds r h l) as [h' o']. rewrite E, IH. by rewrite app_assoc.
Qed.

(** C15. However the text of a block is cut into deltas, what [feed] lets out for each of them
    and [flush] at the end is, put together, [redact_text] of the whole block: for a table of
    host-shaped names and secrets when the text has no run of more than 1025 host characters,
    and for any text when a custom pattern is configured. *)
Theorem carry_streams_the_redaction l : unbounded_patterns r = true \/ sound r /\ short_runs (concat l) = true ->
  streamed r l = redact_text r (concat l).
Proof using.
  unfold streamed, flush. intros H. pose proof (feeds_split l []) as K. rewrite app_nil_l in K. destruct (feeds r [] l) as [h o]. rewrite K; [done|].
  destruct H as [Hu|[Hs Hr]]; [by left|right]. split; [done|]. by apply short_broken.
Qed.
End pieces.

(** ** The table of a host *)

Definition hostish (s : string) : bool := forallb host_char (text_of s).

Lemma keep_literals_spec allow l x : x ∈ keep_literals allow l -> x ∈ l /\ (MIN_LITERAL_LEN <= length (value x))%nat /\ value x ∉ allow.
Proof.
  unfold keep_literals. assert (forall seen, (forall y, y ∈ seen -> (MIN_LITERAL_LEN <= length (value y))%nat /\ value y ∉ allow) ->
    forall y, y ∈ foldl (fun seen x => if (length (value x) <? MIN_LITERAL_LEN)%nat || bool_decide (value x ∈ allow) || (MAX_LITERAL_LEN <? length (value x))%nat
       || existsb (fun y => bool_decide (value y = value x)) seen then seen else seen ++ [x]) seen l ->
    (y ∈ seen \/ y ∈ l) /\ (MIN_LITERAL_LEN <= length (value y))%nat /\ value y ∉ allow) as K.
  { induction l as [|z l IH]; intros seen Hs y; cbn [foldl]; [intros H; split; [by left|by apply Hs]|].
    destruct ((length (value z) <? MIN_LITERAL_LEN)%nat || bool_decide (value z ∈ allow) || _ || _) eqn:E.
    - intros H%IH; [|done]. destruct H as [[H|H] H2]; (split; [|done]); [by left|right; by right].
    - intros H%IH.
      + destruct H as [[H|H] H2]; (split; [|done]); [|right; by right].
        apply elem_of_app in H as [H| ->%list_elem_of_singleton]; [by left|right; by left].
      + intros w [Hw| ->%list_elem_of_singleton]%elem_of_app; [by apply Hs|].
        apply orb_false_iff in E as [[[E1 E2]%orb_false_iff _]%orb_false_iff _]. apply Nat.ltb_ge in E1. apply bool_decide_eq_false in E2. done. }
  intros H. destruct (K [] ltac:(by intros ? ?%not_elem_of_nil) x H) as [[Hx|Hx] Hr]; [by apply not_elem_of_nil in Hx|done].
Qed.
Lemma insert_literal_elem x y l : y ∈ insert_literal x l <-> y = x \/ y ∈ l.
Proof.
  induction l as [|z l IH]; cbn [insert_literal]; [by rewrite list_elem_of_singleton, elem_of_nil; tauto|].
  destruct (_ <? _)%nat; rewrite !elem_of_cons; [tauto|rewrite IH; tauto].
Qed.
Lemma longest_first_elem y l : y ∈ longest_first l <-> y ∈ l.
Proof.
  unfold longest_first. assert (forall r, y ∈ foldl (fun r x => insert_literal x r) r l <-> y ∈ r \/ y ∈ l) as K.
  { induction l as [|x l IH]; intros r; cbn [foldl]; [rewrite elem_of_nil; tauto|]. rewrite IH, insert_literal_elem, elem_of_cons. tauto. }
  rewrite K, elem_of_nil. tauto.
Qed.

Lemma word_within same w : Forall (fun a => forall c, same a c = true -> Host c) w -> within Host (word same w).
Proof. induction 1; cbn; [done|by split]. Qed.
Lemma word_ends same w : ends (word same w) = true.
Proof. by induction w. Qed.

Lemma class_host f : forallb (fun n => implb (f (Ascii.ascii_of_nat n)) (host_char (Ascii.ascii_of_nat n))) (seq 0 256) = true -> forall c, f c = true -> Host c.
Proof.
  rewrite forallb_forall. intros H c Hc. specialize (H (Ascii.nat_of_ascii c) ltac:(apply in_seq; pose proof (Ascii.nat_ascii_bounded c); lia)).
  rewrite Ascii.ascii_nat_embedding, Hc in H. exact H.
Qed.
Ltac classes := repeat split; apply class_host; vm_compute; reflexivity.
Lemma ipv4_confined : confined Host _PRIVATE_IPV4.
Proof. split; [cbn; classes|done]. Qed.
Lemma ipv6_confined : confined Host _PRIVATE_IPV6.
Proof. split; [cbn; classes|done]. Qed.
Lemma domain_confined w : Forall Host w -> confined Host (domain_re w).
Proof.
  intros Hw. split; [|split]; cbn.
  - split; [classes|]. split; [classes|]. split; [classes|]. split; [|classes]. apply word_within. eapply Forall_impl; [exact Hw|]. by intros a Ha c ->%Ascii.eqb_eq.
  - by rewrite word_ends.
  - done.
Qed.

Lemma hostish_spec s : hostish s = true -> Forall Host (text_of s).
Proof. unfold hostish. rewrite forallb_forall. intros H. apply Forall_forall. intros c Hc. apply H. by apply list_elem_of_In. Qed.
Lemma lstrip_forall (P : Ascii.ascii -> Prop) t : Forall P t -> Forall P (lstrip_dots t).
Proof. induction 1 as [|c t Hc Ht IH]; cbn; [done|]. destruct (Ascii.eqb c dot); [done|by constructor]. Qed.

Section host.
Context (c : Settings) (names ips ids macs : list string) (env : list (string * string)).

Lemma builtin_plain p : forallb hostish (_csv_env (redact_domains c)) = true -> p ∈ _builtin_patterns (redact_domains c) (redact_private_ips c) -> plain p.
Proof using.
  intros Hd. unfold _builtin_patterns. intros [H|H]%elem_of_app.
  - apply list_elem_of_fmap in H as (s & -> & Hs). exists (domain_re (lstrip_dots (text_of s))). split; [|done]. apply domain_confined, lstrip_forall, hostish_spec.
    rewrite forallb_forall in Hd. apply Hd, list_elem_of_In, Hs.
  - destruct (redact_private_ips c); [|by apply not_elem_of_nil in H]. apply elem_of_cons in H as [->|H]; [by exists _PRIVATE_IPV4; split; [apply ipv4_confined|]|].
    apply list_elem_of_singleton in H as ->. by exists _PRIVATE_IPV6; split; [apply ipv6_confined|].
Qed.

Lemma builtin_bounded p : p ∈ _builtin_patterns (redact_domains c) (redact_private_ips c) -> p_max p <> None.
Proof using.
  intros [H|H]%elem_of_app; [by apply list_elem_of_fmap in H as (s & -> & _)|]. destruct (redact_private_ips c); [|by apply not_elem_of_nil in H].
  rewrite !elem_of_cons, elem_of_nil in H. by destruct H as [->|[->|[]]].
Qed.

Lemma entry_inv label b l x : x ∈ map (fun v => MkLiteral (text_of v) label b) l -> bounded x = b /\ exists v, v ∈ l /\ value x = text_of v.
Proof using. intros (v & -> & Hv)%list_elem_of_fmap. split; [done|by exists v]. Qed.
Lemma bounded_entry x : forallb hostish (names ++ ips ++ ids ++ macs) = true ->
  x ∈ literals (build_redactor c names ips ids macs [] env) -> bounded x = true -> Forall Host (value x).
Proof using.
  intros Hh Hx Hb. apply longest_first_elem, keep_literals_spec in Hx as [Hx _]. rewrite forallb_forall in Hh.
  rewrite !elem_of_app in Hx. destruct Hx as [H|[H|[H|[H|[H|[H|H]]]]]]; apply entry_inv in H as (E & v & Hv & ->); try congruence;
    apply hostish_spec, Hh, list_elem_of_In; rewrite !elem_of_app; tauto.
Qed.

(** [build_redactor] makes a sound table when what the host is called, its addresses, ids and
    MACs and the configured domains are spelled with host characters and there is no custom
    pattern, whatever the environment's secrets and the listed values are. *)
Lemma host_tables_are_sound : forallb hostish (names ++ ips ++ ids ++ macs) = true -> forallb hostish (_csv_env (redact_domains c)) = true ->
  sound (build_redactor c names ips ids macs [] env) /\ unbounded_patterns (build_redactor c names ips ids macs [] env) = false.
Proof using.
  intros Hh Hd. split; [split|].
  - intros x Hx. apply longest_first_elem, keep_literals_spec in Hx as (_ & Hl & _). unfold MIN_LITERAL_LEN in Hl. lia.
  - intros x. by apply bounded_entry.
  - intros x Hx _. by apply longest_first_elem, keep_literals_spec in Hx as (_ & _ & Ha).
  - intros p. unfold build_redactor. cbn [patterns make_redactor]. rewrite app_nil_r. by apply builtin_plain.
  - unfold unbounded_patterns, build_redactor. cbn [patterns make_redactor]. rewrite app_nil_r. apply not_true_iff_false. intros (p & Hp & E)%existsb_exists.
    apply list_elem_of_In in Hp. pose proof (builtin_bounded p Hp). by destruct (p_max p).
Qed.
End host.

(** ** Examples *)

Definition example_settings : Settings := MkSettings "" "open sesame" "corp.internal" true false "".
Definition example_redactor : Redactor :=
  build_redactor example_settings ["web-42"] ["10.1.2.3"] [] ["02:42:ac:11:00:02"] [] [("API_TOKEN", "s3cr3t-s3cr3t"); ("HOME", "/root/home")].
Definition example_deltas : list text :=
  map text_of ["host WE"; "B-4"; "2 and web-420, open "; "sesame 172.16.0"; ".9 db.corp.int"; "ernal; s3cr3t"; "-s3cr3t"; " fd00::1. fd00::xyz"].
Lemma carry_streams_the_redaction_witness :
  streamed example_redactor example_deltas = redact_text example_redactor (concat example_deltas)
  /\ string_of (streamed example_redactor example_deltas)
     = "host [REDACTED:hostname] and web-420, [REDACTED:custom] [REDACTED:ip] [REDACTED:domain]; [REDACTED:secret] [REDACTED:ip]. [REDACTED:ip]xyz".
Proof.
  split; [|by vm_compute]. apply carry_streams_the_redaction. right. split; [|by vm_compute].
  destruct (host_tables_are_sound example_settings ["web-42"] ["10.1.2.3"] [] ["02:42:ac:11:00:02"] [("API_TOKEN", "s3cr3t-s3cr3t"); ("HOME", "/root/home")]) as [H _]; [by vm_compute|by vm_compute|exact H].
Defined.
