(* ===== verification/RedactionStream.v ===== *)
(** What a client reads of a redacted stream ([Redaction._redact_stream]): the text of every
    block is the redaction of the text the block was sent with, whatever else is interleaved. *)

From S2P Require Import Prelude Json Raise Regex Redaction RedactionLaws RedactionMask RedactionCarry.

(** ** What a chunk says *)

(** The text of a delta, with the parent and the index of its block; the end of a block; the
    start or the end of a message, which ends all blocks of its parent *)
Inductive View :=
| VText (key : Json * Json) (type : string) (t : string)
| VStop (key : Json * Json)
| VEdge (parent : Json)
| VPass.

Definition delta_text (event : Json) : option (string * string) :=
  let delta := jget_null event "delta" in
  if is_str (jget_null event "type") "content_block_delta" && is_dict delta then
    match jget_null delta "type" with
    | JStr s => if bool_decide (s ∈ ["text_delta"; "thinking_delta"])
                then match jget_null delta (_DELTA_TEXT_FIELD s) with JStr t => Some (s, t) | _ => None end
                else None
    | _ => None
    end
  else None.
Definition view (chunk : Json) : View :=
  let event := jget_null chunk "event" in
  let etype := jget_null event "type" in
  let key := (jget_null chunk "parent_tool_use_id", jget_null event "index") in
  if is_str (jget_null chunk "type") "stream_event" && is_dict event then
    match delta_text event with
    | Some (type, t) => VText key type t
    | None => if is_str etype "content_block_stop" then VStop key
              else if is_str etype "message_start" || is_str etype "message_stop" then VEdge (fst key) else VPass
    end
  else VPass.

(** The blocks of a key, each as the text it was sent with; [cur] is that of the open one. *)
Fixpoint blocks (k : Json * Json) (cur : text) (l : list Json) : list text :=
  match l with
  | [] => [cur]
  | chunk :: l =>
      match view chunk with
      | VText k' _ t => blocks k (if same_pair k k' then cur ++ text_of t else cur) l
      | VStop k' => if same_pair k k' then cur :: blocks k [] l else blocks k cur l
      | VEdge p => if same_key (fst k) p then cur :: blocks k [] l else blocks k cur l
      | VPass => blocks k cur l
      end
  end.
(** What is read of a key's blocks, one after the other *)
Definition text_at (k : Json * Json) (chunk : Json) : text :=
  match view chunk with VText k' _ t => if same_pair k k' then text_of t else [] | _ => [] end.
Definition texts_for (k : Json * Json) (l : list Json) : text := concat (map (text_at k) l).

(** A parent is absent or named, an index an integer or absent, and a delta's type no container. *)
Definition plain_parent (v : Json) : bool := match v with JNull | JStr _ => true | _ => false end.
Definition plain_index (v : Json) : bool := match v with JNull | JInt _ => true | _ => false end.
Definition plain_key (k : Json * Json) : bool := plain_parent (fst k) && plain_index (snd k).
Definition readable (chunk : Json) : bool :=
  match view chunk with
  | VText k _ _ | VStop k => plain_key k
  | VEdge _ => true
  | VPass => hashable (jget_null (jget_null (jget_null chunk "event") "delta") "type")
  end.

(** ** Keys *)

Lemma same_parent a p : plain_parent a = true -> same_key a p = true <-> a = p.
Proof. destruct a; try done; intros _; destruct p; cbn; rewrite ?bool_decide_eq_true; naive_solver. Qed.
Lemma same_index a b : plain_index a = true -> plain_index b = true -> same_key a b = true <-> a = b.
Proof.
  destruct a; try done; destruct b; try done; intros _ _. cbn [same_key num_of num_eqb]. rewrite Z.eqb_eq, Z.sub_diag, Z.max_id, Z.pow_0_r, !Z.mul_1_r. naive_solver.
Qed.
Lemma plain_same k k' : plain_key k = true -> plain_key k' = true -> same_pair k k' = true <-> k = k'.
Proof.
  destruct k as [a b], k' as [a' b']. unfold plain_key, same_pair. cbn [fst snd]. rewrite !andb_true_iff. intros [H1 H2] [H3 H4].
  rewrite same_parent, same_index by done. naive_solver.
Qed.
Lemma plain_refl k : plain_key k = true -> same_pair k k = true.
Proof. intros H. by apply plain_same. Qed.

Lemma plain_hash k : plain_key k = true -> hash_key k = Ok tt.
Proof. destruct k as [[] []]; done. Qed.

(** The carries of a stream: one for a key, each of a text delta *)
Record tidy (c : Carries) : Prop := {
  ti_keys : NoDup (map fst c);
  ti_plain : Forall (fun kc => plain_key (fst kc) = true) c;
  ti_types : Forall (fun kc => delta_type (snd kc) ∈ ["text_delta"; "thinking_delta"]) c;
}.
Notation kfind := (kget same_pair).

Lemma kfind_none (c : Carries) k : plain_key k = true -> Forall (fun kc => plain_key (fst kc) = true) c -> kfind c k = None <-> k ∉ map fst c.
Proof.
  intros Hk. induction 1 as [|[k' x] c Hx Hc IH]; cbn; [by rewrite elem_of_nil; split; [intros _ ?|]|]. cbn in Hx. rewrite elem_of_cons.
  destruct (same_pair k k') eqn:E.
  - apply plain_same in E; [|done..]. subst. split; [done|]. intros H. destruct H. by left.
  - rewrite IH. split; [|tauto]. intros H [->|?]; [|done]. by rewrite plain_refl in E.
Qed.
Lemma kfind_set (c : Carries) k k' x : plain_key k = true -> plain_key k' = true -> Forall (fun kc => plain_key (fst kc) = true) c ->
  kfind (kset same_pair c k' x) k = if same_pair k k' then Some x else kfind c k.
Proof.
  intros Hk Hk'. induction 1 as [|[k2 y] c Hx Hc IH]; cbn; [done|]. cbn in Hx. destruct (same_pair k' k2) eqn:E; cbn.
  - apply plain_same in E; [|done..]. subst k2. by destruct (same_pair k k').
  - rewrite IH. destruct (same_pair k k2) eqn:E2; [|done]. apply plain_same in E2; [|done..]. subst k2.
    destruct (same_pair k k') eqn:E3; [|done]. apply plain_same in E3; [|done..]. subst k'. by rewrite plain_refl in E.
Qed.
Lemma kset_keys (c : Carries) k x k' : k' ∈ map fst (kset same_pair c k x) -> k' = k \/ k' ∈ map fst c.
Proof.
  induction c as [|[k2 y] c IH]; cbn; [rewrite elem_of_cons; tauto|]. destruct (same_pair k k2); cbn; rewrite !elem_of_cons; [tauto|]. intros [?|?%IH]; tauto.
Qed.
Lemma kset_tidy c k x : tidy c -> plain_key k = true -> delta_type x ∈ ["text_delta"; "thinking_delta"] -> tidy (kset same_pair c k x).
Proof.
  intros [Hn Hp Ht] Hk Hx. induction c as [|[k2 y] c IH]; cbn.
  - split; cbn; [by apply NoDup_singleton|by apply Forall_singleton..].
  - cbn in Hn. apply NoDup_cons in Hn as [Hn1 Hn2]. apply Forall_cons in Hp as [Hp1 Hp2]. apply Forall_cons in Ht as [Ht1 Ht2]. specialize (IH Hn2 Hp2 Ht2).
    destruct (same_pair k k2) eqn:E; cbn.
    + split; cbn; constructor; done.
    + destruct IH as [I1 I2 I3]. split; cbn; constructor; try done. intros [->|H]%kset_keys; [|done]. cbn in Hp1. by rewrite plain_refl in E.
Qed.

(** A filter of the carries by their parent *)
Lemma kfind_filter (f : Json -> bool) (c : Carries) k : plain_key k = true -> Forall (fun kc => plain_key (fst kc) = true) c ->
  kfind (List.filter (fun kc => f (fst (fst kc))) c) k = if f (fst k) then kfind c k else None.
Proof.
  intros Hk. induction 1 as [|[k2 y] c Hx Hc IH]; cbn; [by destruct (f (fst k))|]. cbn in Hx. destruct (same_pair k k2) eqn:E.
  - apply plain_same in E; [|done..]. subst k2. destruct (f (fst k)) eqn:Ef; cbn; [by rewrite plain_refl|]. rewrite IH. by rewrite ?Ef.
  - destruct (f (fst k2)); cbn; [by rewrite E, IH|done].
Qed.
Lemma sublist_forall {A} (P : A -> Prop) l l' : sublist l l' -> Forall P l' -> Forall P l.
Proof. induction 1 as [|x l l' _ IH|x l l' _ IH]; [done|..]; intros [Hx Hl]%Forall_cons; [constructor|]; auto. Qed.
Lemma sublist_keys (c c' : Carries) : sublist c' c -> sublist (map fst c') (map fst c).
Proof. induction 1; cbn; by constructor. Qed.
Lemma sub_tidy (c c' : Carries) : sublist c' c -> tidy c -> tidy c'.
Proof.
  intros Hs [Hn Hp Ht]. split; [eapply sublist_NoDup; [exact Hn|by apply sublist_keys]|by eapply sublist_forall..].
Qed.
Lemma filter_sub {A} (f : A -> bool) l : sublist (List.filter f l) l.
Proof. induction l as [|x l IH]; cbn; [constructor|]. by destruct (f x); constructor. Qed.
Lemma kdel_sub (c : Carries) k : sublist (kdel same_pair c k) c.
Proof. induction c as [|[k2 x] c IH]; cbn; [constructor|]. by destruct (same_pair k k2); constructor. Qed.

Lemma kdel_none (c : Carries) k : kfind c k = None -> kdel same_pair c k = c.
Proof. induction c as [|[k2 x] c IH]; cbn; [done|]. destruct (same_pair k k2); [done|]. intros H. by rewrite IH. Qed.
Lemma kfind_del c k k' : tidy c -> plain_key k = true -> plain_key k' = true ->
  kfind (kdel same_pair c k') k = if same_pair k k' then None else kfind c k.
Proof.
  intros [Hn Hp _] Hk Hk'. induction c as [|[k2 x] c IH]; cbn; [by destruct (same_pair k k')|].
  cbn in Hn. apply NoDup_cons in Hn as [Hn1 Hn2]. apply Forall_cons in Hp as [Hp1 Hp2]. cbn in Hp1. destruct (same_pair k' k2) eqn:E; cbn.
  - apply plain_same in E; [|done..]. subst k2. destruct (same_pair k k') eqn:E2; [|done]. apply plain_same in E2; [|done..]. subst k'. by apply kfind_none.
  - rewrite IH by done. destruct (same_pair k k2) eqn:E2; [|done]. apply plain_same in E2; [|done..]. subst k2.
    destruct (same_pair k k') eqn:E3; [|done]. apply plain_same in E3; [|done..]. subst k'. by rewrite plain_refl in E.
Qed.
Lemma kfind_plain c k x : tidy c -> kfind c k = Some x -> delta_type x ∈ ["text_delta"; "thinking_delta"].
Proof.
  intros [_ _ Ht]. induction Ht as [|[k2 y] c Hy Hc IH]; cbn; [done|]. destruct (same_pair k k2); [by intros [= <-]|done].
Qed.

(** ** What redaction does to the words of a chunk *)

Lemma text_string t : text_of (string_of t) = t.
Proof. apply String.list_ascii_of_string_of_list_ascii. Qed.
Lemma string_text s : string_of (text_of s) = s.
Proof. apply String.string_of_list_ascii_of_string. Qed.

Section view.
Context (r : Redactor).

Lemma redact_get n v k : jget_null (redact_json (S n) r v) k = redact_json n r (jget_null v k).
Proof using.
  assert (redact_json n r JNull = JNull) as E0 by (by destruct n). destruct v as [| | | | | |d]; try (cbn; by rewrite E0). cbn [redact_json].
  unfold jget_null, jget. induction d as [|[k' v] d IH]; cbn; [by rewrite E0|]. by destruct (decide (k = k')).
Qed.
Lemma redact_dict n v : is_dict (redact_json n r v) = is_dict v.
Proof using. destruct n; [done|]. by destruct v. Qed.
(** A word without a bracket was there before. *)
Lemma redact_word n v s : opening ∉ text_of s -> redact_json n r v = JStr s -> v = JStr s.
Proof using.
  intros Hb. destruct n; [done|]. destruct v; try done. cbn. intros [= E]. destruct (redact_kept r (text_of s0)) as [K|K].
  - by rewrite K, string_text in E; subst.
  - destruct Hb. by rewrite <- E, text_string.
Qed.
Lemma redact_is_str n v s : opening ∉ text_of s -> is_str (redact_json n r v) s = true -> is_str v s = true.
Proof using.
  intros Hb. destruct (redact_json n r v) eqn:E; try done. cbn. rewrite bool_decide_eq_true. intros ->. apply redact_word in E; [|done]. subst v.
  cbn. by rewrite bool_decide_eq_true.
Qed.

Ltac no_bracket := apply (bool_decide_eq_false_1 (opening ∈ _)); vm_compute; reflexivity.
Lemma redact_delta n ev type t : delta_text (redact_json (S (S (S n))) r ev) = Some (type, t) -> exists t, delta_text ev = Some (type, t).
Proof using.
  unfold delta_text. rewrite !redact_get, redact_dict. destruct (is_str (redact_json (S (S n)) r _) _ && _) eqn:E; [|done].
  apply andb_true_iff in E as [E1 ->]. apply redact_is_str in E1; [|no_bracket]. rewrite E1. cbn [andb].
  destruct (redact_json (S n) r (jget_null (jget_null ev "delta") "type")) as [| | | |s| |] eqn:Et; try done. destruct (bool_decide (s ∈ _)) eqn:Es; [|done].
  assert (opening ∉ text_of s) as Hs.
  { apply bool_decide_eq_true in Es. rewrite !elem_of_cons, elem_of_nil in Es. destruct Es as [->|[->|[]]]; no_bracket. }
  apply redact_word in Et as ->; [|done]. rewrite Es, redact_get. destruct (jget_null (jget_null ev "delta") (_DELTA_TEXT_FIELD s)) as [| | | |u| |]; try done.
  cbn. intros [= <- _]. by eexists.
Qed.

Lemma text_inv k1 s1 t1 k2 s2 t2 : VText k1 s1 t1 = VText k2 s2 t2 -> k1 = k2 /\ s1 = s2 /\ t1 = t2.
Proof using. by intros [= -> -> ->]. Qed.

(** A chunk that is no text delta is not redacted to one. *)
Lemma redact_view chunk key type t : view (redact_value r chunk) = VText key type t -> exists key t, view chunk = VText key type t.
Proof using.
  unfold view, redact_value. rewrite !redact_get, redact_dict. destruct (is_str (redact_json 64 r _) _ && _) eqn:E; [|done].
  apply andb_true_iff in E as [E1 ->]. apply redact_is_str in E1; [|no_bracket]. rewrite E1. cbn [andb].
  destruct (delta_text (redact_json 64 r (jget_null chunk "event"))) as [[ty u]|] eqn:Ed.
  - intros (_ & -> & ->)%text_inv. apply redact_delta in Ed as [v ->]. by do 2 eexists.
  - destruct (is_str _ "content_block_stop"); [done|]. by destruct (_ || _).
Qed.
Lemma redact_silent k chunk : (forall key type t, view chunk <> VText key type t) -> text_at k (redact_value r chunk) = [].
Proof using.
  intros H. unfold text_at. destruct (view (redact_value r chunk)) eqn:E; try done. apply redact_view in E as (? & ? & E). by destruct (H _ _ _ E).
Qed.
End view.

(** ** What a chunk becomes *)

Lemma texts_app k a b : texts_for k (a ++ b) = texts_for k a ++ texts_for k b.
Proof. unfold texts_for. by rewrite map_app, concat_app. Qed.
Lemma texts_one k x : texts_for k [x] = text_at k x.
Proof. apply app_nil_r. Qed.

Lemma get_set d k k' v : jget_null (JObj (dict_set d k v)) k' = if decide (k = k') then v else jget_null (JObj d) k'.
Proof. unfold jget_null, jget. rewrite dict_get_set. by destruct (decide (k = k')), (decide (k' = k)); subst. Qed.
Lemma get_without d k : k <> "event" -> jget_null (JObj (List.filter (fun kv => negb (bool_decide (fst kv = "event"))) d)) k = jget_null (JObj d) k.
Proof.
  intros Hk. unfold jget_null, jget. f_equal. induction d as [|[k' v] d IH]; [done|]. cbn [List.filter fst dict_get].
  case_bool_decide as E; cbn [negb dict_get]; rewrite IH; [|done]. subst k'. by rewrite decide_False.
Qed.

Lemma view_delta d e de type t : is_str (jget_null (JObj d) "type") "stream_event" = true ->
  jget_null (JObj d) "event" = JObj e -> is_str (jget_null (JObj e) "type") "content_block_delta" = true -> jget_null (JObj e) "delta" = JObj de ->
  jget_null (JObj de) "type" = JStr type -> type ∈ ["text_delta"; "thinking_delta"] -> jget_null (JObj de) (_DELTA_TEXT_FIELD type) = JStr t ->
  view (JObj d) = VText (jget_null (JObj d) "parent_tool_use_id", jget_null (JObj e) "index") type t.
Proof.
  intros H1 He H2 Hd Ht Hin Hf. unfold view. rewrite H1, He. cbn [is_dict andb]. unfold delta_text. rewrite H2, Hd, Ht. cbn [is_dict andb].
  apply (bool_decide_eq_true_2 _) in Hin. by rewrite Hin, Hf.
Qed.
Lemma view_delta_inv chunk key type t : view chunk = VText key type t -> exists d e de,
  chunk = JObj d /\ is_str (jget_null (JObj d) "type") "stream_event" = true /\ jget_null (JObj d) "event" = JObj e
  /\ is_str (jget_null (JObj e) "type") "content_block_delta" = true /\ jget_null (JObj e) "delta" = JObj de
  /\ jget_null (JObj de) "type" = JStr type /\ type ∈ ["text_delta"; "thinking_delta"] /\ jget_null (JObj de) (_DELTA_TEXT_FIELD type) = JStr t
  /\ key = (jget_null (JObj d) "parent_tool_use_id", jget_null (JObj e) "index").
Proof.
  unfold view. destruct (_ && is_dict (jget_null chunk "event")) eqn:E; [|done]. apply andb_true_iff in E as [E1 E2].
  destruct chunk as [| | | | | |d]; try done. destruct (jget_null (JObj d) "event") as [| | | | | |e] eqn:Ee; try done.
  destruct (delta_text (JObj e)) as [[ty u]|] eqn:Ed; [|by repeat case_match].
  intros (<- & <- & <-)%text_inv. unfold delta_text in Ed. destruct (_ && _) eqn:E3; [|done]. apply andb_true_iff in E3 as [E3 E4].
  destruct (jget_null (JObj e) "delta") as [| | | | | |de] eqn:Ede; try done. destruct (jget_null (JObj de) "type") as [| | | |s| |] eqn:Es; try done.
  case_bool_decide as Hs; [|done]. destruct (jget_null (JObj de) (_DELTA_TEXT_FIELD s)) as [| | | |w| |] eqn:Ew; try done. injection Ed as -> ->.
  by exists d, e, de.
Qed.

Section process.
Context (r : Redactor).

Lemma view_synthetic base index type t : type ∈ ["text_delta"; "thinking_delta"] ->
  view (_synthetic_delta base index type t) = VText (jget_null (JObj base) "parent_tool_use_id", index) type (string_of t).
Proof using.
  intros Ht. unfold _synthetic_delta. erewrite view_delta; [rewrite !get_set|by rewrite !get_set|by rewrite !get_set|done|done|done|done|].
  - by rewrite !decide_False, get_without.
  - rewrite !elem_of_cons, elem_of_nil in Ht. by destruct Ht as [->|[->|[]]].
Qed.
Lemma text_rest k base index x : delta_type x ∈ ["text_delta"; "thinking_delta"] ->
  texts_for k (rest_of r base index x) = if same_pair k (jget_null (JObj base) "parent_tool_use_id", index) then redact_text r (held x) else [].
Proof using.
  intros Hx. unfold rest_of, flush. destruct (redact_text r (held x)) as [|c t] eqn:E; [by destruct (same_pair _ _)|].
  rewrite texts_one. unfold text_at. rewrite view_synthetic by done. destruct (same_pair _ _); [|done]. apply text_string.
Qed.

(** What is held back for a key *)
Definition held_for (c : Carries) (k : Json * Json) : text := match kfind c k with Some x => held x | None => [] end.

Lemma texts_rest k (B : (Json * Json) * Carry -> list (string * Json)) c : tidy c -> plain_key k = true ->
  (forall kc, kc ∈ c -> jget_null (JObj (B kc)) "parent_tool_use_id" = fst (fst kc)) ->
  texts_for k (flat_map (fun kc => rest_of r (B kc) (snd (fst kc)) (snd kc)) c) = redact_text r (held_for c k).
Proof using.
  intros [Hn Hp Ht] Hk HB. unfold held_for. induction c as [|[k2 x] c IH]; [done|]. cbn in Hn. apply NoDup_cons in Hn as [Hn1 Hn2].
  apply Forall_cons in Hp as [Hp1 Hp2]. apply Forall_cons in Ht as [Ht1 Ht2]. cbn [flat_map fst snd]. rewrite texts_app, text_rest by done.
  rewrite (HB (k2, x)) by left. cbn [fst]. rewrite <- surjective_pairing. cbn [kget]. rewrite IH; [|done..|intros kc Hkc; apply HB; by right].
  destruct (same_pair k k2) eqn:E; [|done]. apply plain_same in E; [|done..]. subst k2. rewrite (proj2 (kfind_none c k Hk Hp2)) by done. apply app_nil_r.
Qed.

Lemma process_text c chunk key type t : view chunk = VText key type t -> plain_key key = true ->
  let x := default (MkCarry [] type) (kfind c key) in
  exists chunk', process r c chunk = Ok (kset same_pair c key (MkCarry (fst (feed r (held x) (text_of t))) (delta_type x)), [chunk'])
    /\ view chunk' = VText key type (string_of (snd (feed r (held x) (text_of t)))).
Proof using.
  intros (d & e & de & -> & H1 & He & H2 & Hd & Ht & Hin & Hf & ->)%view_delta_inv Hk. cbv zeta.
  set (x := default _ _). destruct (feed r (held x) (text_of t)) as [buf o] eqn:Ef.
  exists (JObj (dict_set d "event" (JObj (dict_set e "delta" (JObj (dict_set de (_DELTA_TEXT_FIELD type) (JStr (string_of o)))))))). split.
  - cbn [process]. rewrite H1, He. cbn [is_dict andb]. unfold _process_event. cbv zeta. rewrite H2, Hd. cbn [is_dict andb]. rewrite Ht.
    assert (text_field (JStr type) = Ok (Some (_DELTA_TEXT_FIELD type))) as -> by (unfold text_field; cbn; by rewrite bool_decide_eq_true_2).
    cbn [result_bind option_map]. rewrite Hf.
    assert (hash_key (jget_null (JObj d) "parent_tool_use_id", jget_null (JObj e) "index") = Ok tt) as ->.
    { by apply plain_hash. }
    cbn [result_bind]. fold x. rewrite Ef. done.
  - cbn [snd]. assert (_DELTA_TEXT_FIELD type <> "type") as Hne.
    { unfold _DELTA_TEXT_FIELD. by case_bool_decide. }
    rewrite (view_delta _ (dict_set e "delta" (JObj (dict_set de (_DELTA_TEXT_FIELD type) (JStr (string_of o))))) (dict_set de (_DELTA_TEXT_FIELD type) (JStr (string_of o))) type (string_of o));
      try done; rewrite ?get_set; try done; [by rewrite decide_False|by rewrite decide_True].
Qed.

Lemma field_none event : delta_text event = None ->
  (is_str (jget_null event "type") "content_block_delta" = true -> hashable (jget_null (jget_null event "delta") "type") = true) ->
  exists fo, (if is_str (jget_null event "type") "content_block_delta" && is_dict (jget_null event "delta")
              then text_field (jget_null (jget_null event "delta") "type") else Ok None) = Ok fo
    /\ forall A (x : string -> string -> A) y,
         match fo, option_map (jget_null (jget_null event "delta")) fo with Some f, Some (JStr t) => x f t | _, _ => y end = y.
Proof using.
  intros Hd Hh. unfold delta_text in Hd. destruct (is_str _ _) eqn:E1; [|by exists None]. destruct (is_dict _); [|by exists None]. cbn [andb] in *.
  specialize (Hh eq_refl). unfold text_field, hashed. rewrite Hh. cbn [result_bind].
  destruct (jget_null (jget_null event "delta") "type") as [| | | |s| |]; try (by exists None). rewrite ?bool_decide_decide in *.
  destruct (decide (s ∈ _)); [|by exists None]. exists (Some (_DELTA_TEXT_FIELD s)). split; [done|]. intros A x y. cbn.
  by destruct (jget_null (jget_null event "delta") (_DELTA_TEXT_FIELD s)).
Qed.
Lemma process_other c chunk : (forall key type t, view chunk <> VText key type t) -> readable chunk = true ->
  process r c chunk = Ok
    match view chunk with
    | VStop key => (kdel same_pair c key, (match kfind c key, chunk with Some x, JObj d => rest_of r d (snd key) x | _, _ => [] end) ++ [redact_value r chunk])
    | VEdge p => (fst (_flush_parent r [] p c), (match chunk with JObj d => snd (_flush_parent r d p c) | _ => [] end) ++ [redact_value r chunk])
    | _ => (c, [redact_value r chunk])
    end.
Proof using.
  intros Hno Hr. unfold readable in Hr. assert (view chunk = view chunk) as Hv by done. revert Hv Hr. generalize (view chunk) at 1 3 4 as v. unfold view.
  destruct chunk as [| | | | | |d]; try (by intros v ->). cbn [process].
  destruct (is_str (jget_null (JObj d) "type") "stream_event" && is_dict (jget_null (JObj d) "event")) eqn:E; [|by intros v ->].
  unfold _process_event, _flush_parent. cbv zeta. cbn [fst snd]. intros v Hv Hr.
  destruct (field_none (jget_null (JObj d) "event")) as (fo & -> & Hfo).
  - destruct (delta_text (jget_null (JObj d) "event")) as [[ty t]|] eqn:Ed; [|done]. exfalso. eapply (Hno _ ty t). unfold view. by rewrite E, Ed.
  - intros Ht. revert Hv Hr. destruct (delta_text _) as [[ty t]|] eqn:Ed; [exfalso; eapply (Hno _ ty t); unfold view; by rewrite E, Ed|].
    destruct (jget_null (jget_null (JObj d) "event") "type") as [| | | |s| |]; try done. cbn in Ht. apply bool_decide_eq_true in Ht as ->. by intros ->.
  - cbn [result_bind]. rewrite Hfo. revert Hv Hr. destruct (delta_text _) as [[ty t]|] eqn:Ed; [exfalso; eapply (Hno _ ty t); unfold view; by rewrite E, Ed|].
    destruct (is_str _ "content_block_stop").
    + intros -> Hk. rewrite plain_hash by done. destruct c as [|kc c]; [done|]. cbn [result_bind].
      destruct (kfind (kc :: c) _) eqn:Ek; [done|]. by rewrite kdel_none.
    + destruct (is_str _ "message_start" || is_str _ "message_stop"); intros -> _; done.
Qed.
End process.

(** ** Block by block *)

Section track.
Context (r : Redactor) (k : Json * Json) (Hk : plain_key k = true).

(** Of the open block of [k], [cur] has come in, [out] is out and the rest is held back. *)
Definition tracks (c : Carries) (cur out : text) : Prop :=
  (exists p, cur = p ++ held_for c k) /\ forall f, fits r (cur ++ f) -> redact_text r (cur ++ f) = out ++ redact_text r (held_for c k ++ f).

Lemma tracks_none c : kfind c k = None -> tracks c [] [].
Proof using. intros E. unfold tracks, held_for. rewrite E. split; [by exists []|done]. Qed.
Lemma tracks_same c c' cur out : kfind c' k = kfind c k -> tracks c cur out -> tracks c' cur out.
Proof using. unfold tracks, held_for. by intros ->. Qed.
Lemma tracks_flush c cur out : fits r cur -> tracks c cur out -> redact_text r cur = out ++ redact_text r (held_for c k).
Proof using. intros Hf [_ H]. specialize (H []). rewrite !app_nil_r in H. by apply H. Qed.

Lemma tracks_feed c cur out x t : tidy c -> held x = held_for c k -> fits r (cur ++ t) -> tracks c cur out ->
  tracks (kset same_pair c k (MkCarry (fst (feed r (held x) t)) (delta_type x))) (cur ++ t) (out ++ snd (feed r (held x) t)).
Proof using Hk.
  intros [_ Hp _] Hx Hf [(p & Ep) H]. assert (forall g, fits r (cur ++ t ++ g) -> fits r (held x ++ t)) as Hb.
  { intros g Hg. apply (fits_part r p _ g). rewrite Hx. rewrite Ep in Hg. by rewrite <- !app_assoc in *. }
  assert (forall g, fits r (cur ++ t ++ g) -> let (h, o) := feed r (held x) t in redact_text r ((held x ++ t) ++ g) = o ++ redact_text r (h ++ g) /\ exists p, held x ++ t = p ++ h) as K.
  { intros g Hg. apply feed_split. by apply (Hb g). }
  unfold tracks, held_for. rewrite kfind_set by done. rewrite plain_refl by done. destruct (feed r (held x) t) as [h o]. cbn [held fst snd]. split.
  - destruct (K []) as (_ & q & Eq); [by rewrite app_nil_r|]. exists (p ++ q). rewrite <- app_assoc, <- Eq, Hx, app_assoc. by rewrite <- Ep.
  - intros g Hg. rewrite <- app_assoc in *. destruct (K g Hg) as (E & _). rewrite H by done. rewrite <- app_assoc, <- E, <- Hx. by rewrite <- app_assoc.
Qed.

Lemma blocks_open l : forall cur, exists f m, blocks k cur l = (cur ++ f) :: m.
Proof using.
  induction l as [|chunk l IH]; intros cur; cbn [blocks]; [exists [], []; by rewrite app_nil_r|]. destruct (view chunk) as [k' ty t|k'|p|].
  - destruct (same_pair k k'); [|apply IH]. destruct (IH (cur ++ text_of t)) as (f & m & ->). exists (text_of t ++ f), m. by rewrite app_assoc.
  - destruct (same_pair k k'); [|apply IH]. exists [], (blocks k [] l). by rewrite app_nil_r.
  - destruct (same_key (fst k) p); [|apply IH]. exists [], (blocks k [] l). by rewrite app_nil_r.
  - apply IH.
Qed.

Lemma held_fallback c type : held (default (MkCarry [] type) (kfind c k)) = held_for c k.
Proof using. unfold held_for. by destruct (kfind c k). Qed.
Lemma default_typed c type k' : tidy c -> type ∈ ["text_delta"; "thinking_delta"] ->
  delta_type (default (MkCarry [] type) (kfind c k')) ∈ ["text_delta"; "thinking_delta"].
Proof using. intros Hc Ht. destruct (kfind c k') eqn:E; [by eapply kfind_plain|done]. Qed.

Lemma step_text c chunk k' type t cur out : view chunk = VText k' type t -> plain_key k' = true -> tidy c -> tracks c cur out ->
  fits r (if same_pair k k' then cur ++ text_of t else cur) ->
  exists c' o, process r c chunk = Ok (c', o) /\ tidy c' /\ tracks c' (if same_pair k k' then cur ++ text_of t else cur) (out ++ texts_for k o).
Proof using Hk.
  intros Hv Hk' Hc Ht Hf. destruct (process_text r c chunk k' type t Hv Hk') as (chunk' & Hp & Hv'). do 2 eexists. split; [exact Hp|].
  apply view_delta_inv in Hv as (d & e & de & _ & _ & _ & _ & _ & _ & Hty & _). split; [apply kset_tidy; [done..|by apply default_typed]|].
  rewrite texts_one. unfold text_at. rewrite Hv', text_string. destruct (same_pair k k') eqn:E.
  - apply plain_same in E; [|done..]. subst k'. apply tracks_feed; [done| |done..]. apply held_fallback.
  - rewrite app_nil_r. eapply tracks_same; [|exact Ht]. rewrite kfind_set by (try done; apply Hc). by rewrite E.
Qed.

Lemma step_stop c chunk k' : view chunk = VStop k' -> readable chunk = true -> tidy c ->
  exists c' o, process r c chunk = Ok (c', o) /\ tidy c' /\ kfind c' k = (if same_pair k k' then None else kfind c k)
    /\ texts_for k o = if same_pair k k' then redact_text r (held_for c k) else [].
Proof using Hk.
  intros Hv Hr Hc. assert (plain_key k' = true) as Hk' by (unfold readable in Hr; by rewrite Hv in Hr).
  rewrite (process_other r c chunk) by (try done; by rewrite Hv). rewrite Hv. do 2 eexists. split; [done|].
  split; [eapply sub_tidy; [apply kdel_sub|done]|]. split; [by apply kfind_del|]. rewrite texts_app, texts_one, redact_silent by (by rewrite Hv). rewrite app_nil_r.
  destruct chunk as [| | | | | |d]; try done. assert (jget_null (JObj d) "parent_tool_use_id" = fst k') as Hd.
  { unfold view in Hv. destruct (_ && _); [|done]. destruct (delta_text _) as [[]|]; [done|]. repeat case_match; by simplify_eq. }
  unfold held_for. destruct (kfind c k') as [x|] eqn:E.
  - rewrite text_rest by (by eapply kfind_plain). rewrite Hd, <- surjective_pairing. destruct (same_pair k k') eqn:E2; [|done].
    apply plain_same in E2; [|done..]. subst k'. by rewrite E.
  - destruct (same_pair k k') eqn:E2; [|done]. apply plain_same in E2; [|done..]. subst k'. by rewrite E.
Qed.

Lemma step_edge c chunk p : view chunk = VEdge p -> readable chunk = true -> tidy c ->
  exists c' o, process r c chunk = Ok (c', o) /\ tidy c' /\ kfind c' k = (if same_key (fst k) p then None else kfind c k)
    /\ texts_for k o = if same_key (fst k) p then redact_text r (held_for c k) else [].
Proof using Hk.
  intros Hv Hr Hc. rewrite (process_other r c chunk) by (try done; by rewrite Hv). rewrite Hv. do 2 eexists. split; [done|]. unfold _flush_parent. cbn [fst snd].
  split; [eapply sub_tidy; [apply filter_sub|done]|]. split; [rewrite (kfind_filter (fun q => negb (same_key q p))) by (try done; apply Hc); by destruct (same_key (fst k) p)|].
  rewrite texts_app, texts_one, redact_silent by (by rewrite Hv). rewrite app_nil_r. destruct chunk as [| | | | | |d]; try done.
  assert (jget_null (JObj d) "parent_tool_use_id" = p) as Hd.
  { unfold view in Hv. destruct (_ && _); [|done]. destruct (delta_text _) as [[]|]; [done|]. repeat case_match; by simplify_eq. }
  rewrite (texts_rest r k (fun _ => d)); [|eapply sub_tidy; [apply filter_sub|done]|done|].
  - unfold held_for. rewrite (kfind_filter (fun q => same_key q p)) by (try done; apply Hc). by destruct (same_key (fst k) p).
  - intros kc Hkc. apply list_elem_of_In, filter_In in Hkc as [Hin Hs]. destruct Hc as [_ Hpl _]. rewrite Forall_forall in Hpl.
    apply list_elem_of_In in Hin. specialize (Hpl _ Hin). apply andb_true_iff in Hpl as [Hpl _]. apply same_parent in Hs; [|done]. by rewrite Hd, Hs.
Qed.

Lemma chunks_blocks l : forall c cur out, tidy c -> tracks c cur out -> forallb readable l = true -> Forall (fits r) (blocks k cur l) ->
  let (o, e) := redact_chunks r c l in e = None /\ out ++ texts_for k o = concat (map (redact_text r) (blocks k cur l)).
Proof using Hk.
  induction l as [|chunk l IH]; intros c cur out Hc Ht Hr Hf.
  - cbn in Hf |- *. split; [done|]. apply Forall_cons in Hf as [Hf _]. rewrite app_nil_r, (tracks_flush c cur out Hf Ht). f_equal.
    unfold flush_all. by apply (texts_rest r k (fun kc => [("type", JStr "stream_event"); ("parent_tool_use_id", fst (fst kc))])).
  - cbn [forallb] in Hr. apply andb_true_iff in Hr as [Hr1 Hr2]. cbn [redact_chunks blocks] in *. destruct (view chunk) as [k' type t|k'|p|] eqn:Hv.
    + assert (fits r (if same_pair k k' then cur ++ text_of t else cur)) as Hfit.
      { destruct (blocks_open l (if same_pair k k' then cur ++ text_of t else cur)) as (f & m & E). rewrite E in Hf. apply Forall_cons in Hf as [Hf _]. by apply (fits_part r [] _ f). }
      assert (plain_key k' = true) as Hk' by (unfold readable in Hr1; by rewrite Hv in Hr1).
      destruct (step_text c chunk k' type t cur out Hv Hk' Hc Ht Hfit) as (c' & o & -> & Hc' & Ht').
      specialize (IH c' _ _ Hc' Ht' Hr2 Hf). destruct (redact_chunks r c' l) as [o' e]. by rewrite texts_app, app_assoc.
    + destruct (step_stop c chunk k' Hv Hr1 Hc) as (c' & o & -> & Hc' & Ek & Eo). destruct (same_pair k k').
      * apply Forall_cons in Hf as [Hf1 Hf2]. specialize (IH c' [] [] Hc' (tracks_none c' Ek) Hr2 Hf2). destruct (redact_chunks r c' l) as [o' e].
        destruct IH as [-> IH]. split; [done|]. cbn [map concat]. rewrite texts_app, Eo, (tracks_flush c cur out Hf1 Ht), <- IH. by rewrite <- !app_assoc.
      * specialize (IH c' cur out Hc' (tracks_same c c' cur out Ek Ht) Hr2 Hf). destruct (redact_chunks r c' l) as [o' e]. by rewrite texts_app, Eo.
    + destruct (step_edge c chunk p Hv Hr1 Hc) as (c' & o & -> & Hc' & Ek & Eo). destruct (same_key (fst k) p).
      * apply Forall_cons in Hf as [Hf1 Hf2]. specialize (IH c' [] [] Hc' (tracks_none c' Ek) Hr2 Hf2). destruct (redact_chunks r c' l) as [o' e].
        destruct IH as [-> IH]. split; [done|]. cbn [map concat]. rewrite texts_app, Eo, (tracks_flush c cur out Hf1 Ht), <- IH. by rewrite <- !app_assoc.
      * specialize (IH c' cur out Hc' (tracks_same c c' cur out Ek Ht) Hr2 Hf). destruct (redact_chunks r c' l) as [o' e]. by rewrite texts_app, Eo.
    + rewrite (process_other r c chunk) by (try done; by rewrite Hv). rewrite Hv. specialize (IH c cur out Hc Ht Hr2 Hf).
      destruct (redact_chunks r c l) as [o' e]. rewrite texts_app, texts_one, redact_silent by (by rewrite Hv). done.
Qed.
End track.

(** C16. A redacted turn ends without an error, and what is read of the blocks of a key, one
    after the other, is the redaction of the text of each as it was sent: whatever the deltas
    are cut into, however blocks and sub-agents interleave, and whether a block is ended by its
    stop, by its message or by the end of the stream. The chunks are [readable] and the key is
    plain (a parent is a name or absent, an index an integer or absent, the type of a delta no
    container), and one of two things holds: a pattern without a length bound is configured, so
    that every block is held to its end, or the table is [sound] (host-shaped names, patterns of
    host characters) and no block of the key has a run of more than 1025 host characters. *)
Theorem stream_blocks_are_redacted r l k : active r = true -> plain_key k = true -> forallb readable l = true ->
  unbounded_patterns r = true \/ sound r /\ Forall (fun b => short_runs b = true) (blocks k [] l) ->
  snd (_redact_stream r l) = None
  /\ texts_for k (fst (_redact_stream r l)) = concat (map (redact_text r) (blocks k [] l)).
Proof.
  intros Ha Hk Hr Hf. unfold _redact_stream. rewrite Ha. pose proof (chunks_blocks r k Hk l [] [] []) as H.
  destruct (redact_chunks r [] l) as [o e]. apply H; [|by apply tracks_none|done|].
  - split; [by apply NoDup_nil_2|by apply Forall_nil..].
  - destruct Hf as [Hu|[Hs Hf]]; [apply Forall_forall; by left|]. eapply Forall_impl; [exact Hf|]. intros b Hb. right. split; [done|]. by apply short_broken.
Qed.

(** ** Examples *)

Definition stream_chunk (parent : Json) (event : list (string * Json)) : Json :=
  JObj [("type", JStr "stream_event"); ("event", JObj event); ("parent_tool_use_id", parent)].
Definition text_chunk (parent : Json) (index : Z) (t : string) : Json :=
  stream_chunk parent [("type", JStr "content_block_delta"); ("index", JInt index); ("delta", JObj [("type", JStr "text_delta"); ("text", JStr t)])].
Definition stop_chunk (parent : Json) (index : Z) : Json := stream_chunk parent [("type", JStr "content_block_stop"); ("index", JInt index)].
(** Two blocks of the turn, one of a sub-agent in between, and a message that ends them *)
Definition example_stream : list Json :=
  [text_chunk JNull 0 "on we"; text_chunk (JStr "tu_1") 0 "I am at 10.1"; text_chunk JNull 0 "b-42, key s3cr3t-"; text_chunk (JStr "tu_1") 0 ".2.3";
   text_chunk JNull 0 "s3cr3t"; stop_chunk JNull 0; text_chunk JNull 1 "web-"; stop_chunk (JStr "tu_1") 0; text_chunk JNull 1 "42";
   stream_chunk JNull [("type", JStr "message_stop")]; text_chunk JNull 1 " web-42"].

Lemma stream_blocks_are_redacted_witness :
  let out := _redact_stream example_redactor example_stream in
  snd out = None
  /\ texts_for (JNull, JInt 1) (fst out) = concat (map (redact_text example_redactor) (map text_of ["web-42"; " web-42"]))
  /\ map (fun k => string_of (texts_for k (fst out))) [(JNull, JInt 0); (JNull, JInt 1); (JStr "tu_1", JInt 0)]
     = ["on [REDACTED:hostname], key [REDACTED:secret]"; "[REDACTED:hostname] [REDACTED:hostname]"; "I am at [REDACTED:ip]"].
Proof.
  destruct (stream_blocks_are_redacted example_redactor example_stream (JNull, JInt 1)) as [H1 H2]; [by vm_compute|done|by vm_compute| |].
  - right. split; [apply (host_tables_are_sound example_settings ["web-42"] ["10.1.2.3"] [] ["02:42:ac:11:00:02"]); by vm_compute|].
    apply Forall_forall. intros b Hb. assert (b ∈ map text_of ["web-42"; " web-42"]) as K by (vm_compute; exact Hb).
    clear Hb. revert b K. apply Forall_forall. vm_compute. by repeat constructor.
  - split; [exact H1|]. split; [exact H2|]. by vm_compute.
Defined.

(** ** Beyond a run of 1025 host characters, and beside the text of a block *)

Definition long_redactor : Redactor := build_redactor (MkSettings "" "ECRE" "corp.internal" true false "") ["node"] [] [] [] [] [].
Definition run_of (n : nat) : text := replicate n (Ascii.ascii_of_nat 122).

(** A cut in a long run makes a name of what is none: the pieces are not the redaction of the
    block. *)
Example long_run_makes_a_name :
  let block := run_of 1500 ++ text_of ".node" ++ run_of 256 in
  string_of (take 23 (drop 1498 (streamed long_redactor [block]))) = "zz.[REDACTED:hostname]z"
  /\ string_of (take 9 (drop 1498 (redact_text long_redactor block))) = "zz.nodezz".
Proof. by vm_compute. Qed.

(** A domain that begins beside a secret in such a run is cut in two, and passes. *)
Example long_run_lets_a_domain_through :
  let block := run_of 1100 ++ text_of "ECREy.a.corp.internal" ++ replicate 246 colon in
  string_of (take 37 (drop 1098 (streamed long_redactor [block]))) = "zz[REDACTED:custom]y.a.corp.internal:"
  /\ string_of (take 37 (drop 1098 (redact_text long_redactor block))) = "zz[REDACTED:custom][REDACTED:domain]:".
Proof. by vm_compute. Qed.

(** The deltas of a tool's arguments are redacted one by one: a secret in two of them passes. *)
Definition arguments_chunk (t : string) : Json :=
  stream_chunk JNull [("type", JStr "content_block_delta"); ("index", JInt 0); ("delta", JObj [("type", JStr "input_json_delta"); ("partial_json", JStr t)])].
Example arguments_pass_in_two :
  let l := map arguments_chunk ["{x: s3cr3t-"; "s3cr3t}"] in
  _redact_stream example_redactor l = (l, None)
  /\ _redact_stream example_redactor [arguments_chunk "{x: s3cr3t-s3cr3t}"] = ([arguments_chunk "{x: [REDACTED:secret]}"], None).
Proof. by vm_compute. Qed.

(** What lies deeper than 64 levels, and the keys of an object, are left as they are. *)
Example deep_values_stay :
  let v := Nat.iter 65 (fun v => JArr [v]) (JStr "s3cr3t-s3cr3t") in
  redact_value example_redactor v = v
  /\ redact_value example_redactor (JObj [("s3cr3t-s3cr3t", JNull)]) = JObj [("s3cr3t-s3cr3t", JNull)].
Proof. by vm_compute. Qed.
