(* ===== verification/Bridge.v ===== *)
(** The bridge between the Anthropic Messages format and OpenAI chat completions
    ([src/src/sanitizer/openai_bridge.py]): a request, a stream and a whole answer, over
    arbitrary JSON, with the exceptions. The route around it is [Proxy].

    [json_loads] and [json_dumps] are Python's, [fresh n] the [n]-th random hexadecimal text.
    An event stream is what is yielded and what stopped it. *)

From S2P Require Import Prelude Json Raise.

(** ** The request *)

Section request.
Context (json_dumps : Json -> string) (fresh : nat -> string).

(** [_FINISH_REASON_TO_STOP_REASON] *)
Definition _FINISH_REASON_TO_STOP_REASON : odict string string :=
  [("stop", "end_turn"); ("tool_calls", "tool_use"); ("function_call", "tool_use"); ("length", "max_tokens"); ("content_filter", "stop_sequence")].

Definition joined (l : list string) : string := String.concat "" l.
Definition or_dict (v : Json) : Json := or_else v (JObj []).

(** The texts of the text blocks of a list *)
Definition block_text (block : Json) : option string :=
  if is_dict block && is_str (jget_null block "type") "text" then
    match jget_null block "text" with JStr t => Some t | _ => None end
  else None.
Definition _flatten_text_blocks (content : Json) : string :=
  match content with
  | JStr s => s
  | JArr l => joined (omap block_text l)
  | _ => ""
  end.

(** [block.get("id") or f"call_{uuid.uuid4().hex[:16]}"]: [n] ids have been made up so far. *)
Definition id_or (prefix : string) (len : nat) (n : nat) (id : Json) : Json * nat :=
  if truthy id then (id, n) else (JStr (prefix +:+ String.substring 0 len (fresh n)), S n).

(** The [tool_calls] of an assistant's blocks *)
Fixpoint tool_calls_of (n : nat) (l : list Json) : list Json * nat :=
  match l with
  | [] => ([], n)
  | block :: l =>
      if is_dict block && is_str (jget_null block "type") "tool_use" then
        let (id, n) := id_or "call_" 16 n (jget_null block "id") in
        let (calls, n) := tool_calls_of n l in
        (JObj [("id", id); ("type", JStr "function");
               ("function", JObj [("name", or_else (jget_null block "name") (JStr ""));
                                  ("arguments", JStr (json_dumps (or_dict (default (JObj []) (jget block "input")))))])] :: calls, n)
      else tool_calls_of n l
  end.

(** [_convert_assistant_message(content)] *)
Definition _convert_assistant_message (n : nat) (content : Json) : Json * nat :=
  let text := match content with JStr s => s | JArr l => joined (omap block_text l) | _ => "" end in
  let (calls, n) := match content with JArr l => tool_calls_of n l | _ => ([], n) end in
  (JObj ([("role", JStr "assistant"); ("content", JStr text)] ++ (match calls with [] => [] | _ => [("tool_calls", JArr calls)] end)), n).

(** The [tool] message of a [tool_result] block *)
Definition tool_message (block : Json) : option Json :=
  if is_dict block && is_str (jget_null block "type") "tool_result" then
    let content := default (JStr "") (jget block "content") in
    let text := match content with JArr _ => _flatten_text_blocks content | JStr s => s | _ => json_dumps content end in
    Some (JObj [("role", JStr "tool"); ("tool_call_id", or_else (jget_null block "tool_use_id") (JStr "")); ("content", JStr text)])
  else None.
(** [_convert_user_message(content)] *)
Definition _convert_user_message (content : Json) : list Json :=
  match content with
  | JStr _ => [JObj [("role", JStr "user"); ("content", content)]]
  | JArr l =>
      (match omap block_text l with [] => [] | texts => [JObj [("role", JStr "user"); ("content", JStr (joined texts))]] end)
      ++ omap tool_message l
  | _ => []
  end.

(** [_convert_tool_choice(tc)] *)
Definition _convert_tool_choice (tc : Json) : option Json :=
  if negb (is_dict tc) then None
  else
    let ttype := jget_null tc "type" in
    if is_str ttype "auto" then Some (JStr "auto")
    else if is_str ttype "any" then Some (JStr "required")
    else if is_str ttype "tool" && truthy (jget_null tc "name") then
      Some (JObj [("type", JStr "function"); ("function", JObj [("name", jget_null tc "name")])])
    else if is_str ttype "none" then Some (JStr "none")
    else None.

Definition _FORWARDED_EFFORTS : list string := ["minimal"; "low"; "medium"; "high"; "xhigh"; "max"].
(** [_reasoning_effort(body)] *)
Definition _reasoning_effort (body : Json) : option string :=
  match jget_null (jget_null body "output_config") "effort" with
  | JStr effort => let level := lower (strip effort) in if bool_decide (level ∈ _FORWARDED_EFFORTS) then Some level else None
  | JInt n => Some (if n <=? 33 then "low" else if n <=? 66 then "medium" else "high")
  | _ => None
  end.

(** [for x in v]: the items that can be objects *)
Definition items (v : Json) : result Exn (list Json) :=
  match v with
  | JArr l => Ok l
  | JObj _ | JStr _ => Ok []
  | _ => Err TypeError
  end.

Definition system_message (text : string) : Json := JObj [("role", JStr "system"); ("content", JStr text)].
Definition convert_message (n : nat) (msg : Json) : list Json * nat :=
  let role := jget_null msg "role" in
  let content := jget_null msg "content" in
  if is_str role "user" then (_convert_user_message content, n)
  else if is_str role "assistant" then let (m, n) := _convert_assistant_message n content in ([m], n)
  else if is_str role "system" then ([system_message (_flatten_text_blocks content)], n)
  else ([], n).
Fixpoint convert_messages (n : nat) (l : list Json) : list Json * nat :=
  match l with
  | [] => ([], n)
  | msg :: l => let (a, n) := convert_message n msg in let (b, n) := convert_messages n l in (a ++ b, n)
  end.

Definition convert_tool (t : Json) : option Json :=
  if is_dict t && truthy (jget_null t "name") then
    Some (JObj [("type", JStr "function");
                ("function", JObj [("name", jget_null t "name"); ("description", default (JStr "") (jget t "description"));
                                   ("parameters", or_dict (default (JObj []) (jget t "input_schema")))])])
  else None.

Definition field (body : Json) (key as_key : string) : list (string * Json) :=
  match jget body key with Some v => [(as_key, v)] | None => [] end.
Definition prelude_messages (body : Json) : list Json :=
  let system := jget_null body "system" in
  if truthy system then
    let text := match system with JStr s => s | _ => _flatten_text_blocks system end in
    if bool_decide (text = "") then [] else [system_message text]
  else [].

(** [anthropic_request_to_openai_body(body)], on an object *)
Definition anthropic_request_to_openai_body (body : Json) : result Exn Json :=
  let model := match jget_null body "model" with JNull => [] | v => [("model", v)] end in
  let stream := match jget body "stream" with Some v => [("stream", JBool (truthy v))] | None => [] end in
  let effort := match _reasoning_effort body with Some e => [("reasoning_effort", JStr e)] | None => [] end in
  let! msgs := items (or_else (jget_null body "messages") (JArr [])) in
  let messages := prelude_messages body ++ fst (convert_messages 0 msgs) in
  let tools := match jget_null body "tools" with JArr (t :: ts) => [("tools", JArr (omap convert_tool (t :: ts)))] | _ => [] end in
  let choice := match _convert_tool_choice (jget_null body "tool_choice") with Some v => [("tool_choice", v)] | None => [] end in
  let streaming := match jget body "stream" with Some v => truthy v | None => false end in
  let options :=
    match jget body "stream_options" with
    | Some (JObj o) => [("stream_options", JObj (if streaming && negb (dict_has o "include_usage") then o ++ [("include_usage", JBool true)] else o))]
    | Some v => [("stream_options", v)]
    | None => if streaming then [("stream_options", JObj [("include_usage", JBool true)])] else []
    end in
  Ok (JObj (model ++ field body "max_tokens" "max_tokens" ++ field body "temperature" "temperature" ++ field body "top_p" "top_p"
            ++ stream ++ field body "stop_sequences" "stop" ++ effort ++ [("messages", JArr messages)] ++ tools ++ choice ++ options)).
End request.

(** ** The stream *)

(** What block is open: a thinking block, a text block, the block of a tool call *)
Inductive Kind := KThinking | KText | KTool (index : Z).
#[export] Instance Kind_eq_dec : EqDecision Kind.
Proof. solve_decision. Defined.

(** [_PendingToolCall] *)
Record PendingToolCall := MkPending { tc_id : Json; tc_name : Json; argument_parts : list string }.
(** [_StreamState]; [made] counts the ids made up so far. *)
Record StreamState := MkState {
  open_kind : option Kind;
  open_index : Z;
  pending_tool_calls : list (Z * PendingToolCall);
  input_tokens : Json;
  output_tokens : Json;
  finish_reason : option string;
  started : bool;
  made : nat;
}.

Section stream.
Context (fresh : nat -> string) (model : string).

(** The message's id is the first made up. *)
Definition state0 : StreamState := MkState None (-1) [] (JInt 0) (JInt 0) None false 1.
Definition set_open (k : option Kind) (i : Z) (s : StreamState) : StreamState :=
  MkState k i (pending_tool_calls s) (input_tokens s) (output_tokens s) (finish_reason s) (started s) (made s).
Definition set_pending (p : list (Z * PendingToolCall)) (n : nat) (s : StreamState) : StreamState :=
  MkState (open_kind s) (open_index s) p (input_tokens s) (output_tokens s) (finish_reason s) (started s) n.
Definition set_tokens (i o : Json) (s : StreamState) : StreamState :=
  MkState (open_kind s) (open_index s) (pending_tool_calls s) i o (finish_reason s) (started s) (made s).
Definition set_started (s : StreamState) : StreamState :=
  MkState (open_kind s) (open_index s) (pending_tool_calls s) (input_tokens s) (output_tokens s) (finish_reason s) true (made s).
Definition set_finish (f : string) (s : StreamState) : StreamState :=
  MkState (open_kind s) (open_index s) (pending_tool_calls s) (input_tokens s) (output_tokens s) (Some f) (started s) (made s).

Definition _message_start_event (s : StreamState) : Json :=
  JObj [("type", JStr "message_start");
        ("message", JObj [("id", JStr ("msg_" +:+ String.substring 0 24 (fresh 0))); ("type", JStr "message"); ("role", JStr "assistant"); ("model", JStr model);
                          ("content", JArr []); ("stop_reason", JNull); ("stop_sequence", JNull);
                          ("usage", JObj [("input_tokens", input_tokens s); ("output_tokens", JInt 0)])])].
Definition _close_block (s : StreamState) : Json * StreamState :=
  (JObj [("type", JStr "content_block_stop"); ("index", JInt (open_index s))], set_open None (open_index s) s).
Definition _open_block (s : StreamState) (k : Kind) (block : Json) : Json * StreamState :=
  let i := open_index s + 1 in
  (JObj [("type", JStr "content_block_start"); ("index", JInt i); ("content_block", block)], set_open (Some k) i s).
Definition delta_event (s : StreamState) (delta : Json) : Json :=
  JObj [("type", JStr "content_block_delta"); ("index", JInt (open_index s)); ("delta", delta)].

(** [_record_tool_call_delta(...)]; the dictionary keeps the order in which calls came. *)
Fixpoint pget (l : list (Z * PendingToolCall)) (i : Z) : option PendingToolCall :=
  match l with (j, p) :: l => if decide (i = j) then Some p else pget l i | [] => None end.
Fixpoint pset (l : list (Z * PendingToolCall)) (i : Z) (p : PendingToolCall) : list (Z * PendingToolCall) :=
  match l with (j, q) :: l => if decide (i = j) then (j, p) :: l else (j, q) :: pset l i p | [] => [(i, p)] end.
Definition _record_tool_call_delta (s : StreamState) (i : Z) (id name arguments : Json) : StreamState :=
  let (p, n) := match pget (pending_tool_calls s) i with
                | None => let (id, n) := id_or fresh "toolu_" 24 (made s) id in (MkPending id (or_else name (JStr "")) [], n)
                | Some p => (MkPending (or_else id (tc_id p)) (or_else name (tc_name p)) (argument_parts p), made s)
                end in
  let parts := match nonempty arguments with Some a => argument_parts p ++ [a] | None => argument_parts p end in
  set_pending (pset (pending_tool_calls s) i (MkPending (tc_id p) (tc_name p) parts)) n s.

(** [sorted(pending_tool_calls)] *)
Fixpoint insert_call (x : Z * PendingToolCall) (l : list (Z * PendingToolCall)) : list (Z * PendingToolCall) :=
  match l with y :: l' => if fst x <=? fst y then x :: l else y :: insert_call x l' | [] => [x] end.
Definition sorted_calls (l : list (Z * PendingToolCall)) : list (Z * PendingToolCall) := foldr insert_call [] l.

Definition close_if_open (s : StreamState) : list Json * StreamState :=
  match open_kind s with Some _ => let (e, s) := _close_block s in ([e], s) | None => ([], s) end.
Definition call_block (p : PendingToolCall) : Json :=
  JObj [("type", JStr "tool_use"); ("id", tc_id p); ("name", tc_name p); ("input", JObj [])].
(** The block of one call *)
Definition flush_call (s : StreamState) (x : Z * PendingToolCall) : list Json * StreamState :=
  let (start, s) := _open_block s (KTool (fst x)) (call_block (snd x)) in
  let deltas := map (fun a => delta_event s (JObj [("type", JStr "input_json_delta"); ("partial_json", JStr a)])) (argument_parts (snd x)) in
  let (stop, s) := _close_block s in
  (start :: deltas ++ [stop], s).
Fixpoint flush_calls (s : StreamState) (l : list (Z * PendingToolCall)) : list Json * StreamState :=
  match l with
  | [] => ([], s)
  | x :: l => let (a, s) := flush_call s x in let (b, s) := flush_calls s l in (a ++ b, s)
  end.
(** [_flush_tool_calls(state)] *)
Definition _flush_tool_calls (s : StreamState) : list Json * StreamState :=
  match pending_tool_calls s with
  | [] => ([], s)
  | calls =>
      let (a, s) := close_if_open s in
      let (b, s) := flush_calls s (sorted_calls calls) in
      (a ++ b, set_pending [] (made s) s)
  end.

Definition thinking_block : Json := JObj [("type", JStr "thinking"); ("thinking", JStr "")].
Definition text_block : Json := JObj [("type", JStr "text"); ("text", JStr "")].
Definition thinking_delta (t : string) : Json := JObj [("type", JStr "thinking_delta"); ("thinking", JStr t)].
Definition text_delta (t : string) : Json := JObj [("type", JStr "text_delta"); ("text", JStr t)].

(** A fragment of a thinking or a text block *)
Definition say (k : Kind) (block delta : Json) (s : StreamState) : list Json * StreamState :=
  let (a, s) := _flush_tool_calls s in
  let (b, s) := if bool_decide (open_kind s = Some k) then ([], s)
                else let (c, s) := close_if_open s in let (o, s) := _open_block s k block in (c ++ [o], s) in
  (a ++ b ++ [delta_event s delta], s).

(** [isinstance(v, int)] *)
Definition is_int (v : Json) : bool := match v with JInt _ | JBool _ => true | _ => false end.
Definition read_usage (chunk : Json) (s : StreamState) : StreamState :=
  let usage := jget_null chunk "usage" in
  let pick key old := let v := jget_null usage key in if is_int v then v else old in
  set_tokens (pick "prompt_tokens" (input_tokens s)) (pick "completion_tokens" (output_tokens s)) s.

(** [choices[0]] where [choices = chunk.get("choices") or []]; [None] ends the turn of the loop. *)
Definition first_choice (chunk : Json) : result Exn (option Json) :=
  match or_else (jget_null chunk "choices") (JArr []) with
  | JArr [] => Ok None
  | JArr (c :: _) => Ok (if is_dict c then Some c else None)
  | JStr _ => Ok None
  | JObj _ => Err KeyError
  | _ => Err TypeError
  end.

Definition one_call (s : StreamState) (tc : Json) : StreamState :=
  if is_dict tc then
    match as_int (jget_null tc "index") with
    | Some i => let fn := or_dict (jget_null tc "function") in
                _record_tool_call_delta s i (jget_null tc "id") (jget_null fn "name") (jget_null fn "arguments")
    | None => s
    end
  else s.

(** One turn of the loop *)
Definition on_chunk (s : StreamState) (chunk : Json) : list Json * result Exn StreamState :=
  if negb (is_dict chunk) then ([], Err AttributeError)
  else
    let s := read_usage chunk s in
    match first_choice chunk with
    | Err e => ([], Err e)
    | Ok None => ([], Ok s)
    | Ok (Some choice) =>
        let delta := let d := or_dict (jget_null choice "delta") in if is_dict d then d else JObj [] in
        let (a, s) := if started s then ([], s) else ([_message_start_event s], set_started s) in
        let (b, s) := match nonempty (jget_null delta "reasoning_content") with
                      | Some t => say KThinking thinking_block (thinking_delta t) s
                      | None => ([], s)
                      end in
        let (c, s) := match nonempty (jget_null delta "content") with
                      | Some t => say KText text_block (text_delta t) s
                      | None => ([], s)
                      end in
        match items (or_else (jget_null delta "tool_calls") (JArr [])) with
        | Err e => (a ++ b ++ c, Err e)
        | Ok calls =>
            let s := foldl one_call s calls in
            let s := match nonempty (jget_null choice "finish_reason") with Some f => set_finish f s | None => s end in
            (a ++ b ++ c, Ok s)
        end
    end.

Fixpoint on_chunks (s : StreamState) (l : list Json) : list Json * result Exn StreamState :=
  match l with
  | [] => ([], Ok s)
  | chunk :: l =>
      match on_chunk s chunk with
      | (a, Err e) => (a, Err e)
      | (a, Ok s) => let (b, r) := on_chunks s l in (a ++ b, r)
      end
  end.

Definition stop_reason (finish : option string) : string :=
  default "end_turn" (dict_get _FINISH_REASON_TO_STOP_REASON (default "stop" finish)).
(** What follows the loop *)
Definition finish_stream (s : StreamState) : list Json :=
  let (a, s) := if started s then ([], s) else ([_message_start_event s], set_started s) in
  let (b, s) := _flush_tool_calls s in
  let (c, s) := close_if_open s in
  a ++ b ++ c
  ++ [JObj [("type", JStr "message_delta"); ("delta", JObj [("stop_reason", JStr (stop_reason (finish_reason s))); ("stop_sequence", JNull)]);
            ("usage", JObj [("input_tokens", input_tokens s); ("output_tokens", output_tokens s)])];
      JObj [("type", JStr "message_stop")]].

(** [openai_stream_to_anthropic_events(chunks, model)] *)
Definition openai_stream_to_anthropic_events (chunks : list Json) : list Json * option Exn :=
  match on_chunks state0 chunks with
  | (a, Ok s) => (a ++ finish_stream s, None)
  | (a, Err e) => (a, Some e)
  end.
End stream.

(** ** A whole answer *)

Section answer.
Context (json_loads : string -> result Exn Json) (fresh : nat -> string).

(** [body.get("choices", [{}])[0] if body.get("choices") else {}] *)
Definition first_of_choices (body : Json) : result Exn Json :=
  match jget_null body "choices" with
  | JArr (c :: _) => Ok c
  | JArr [] | JNull => Ok (JObj [])
  | JStr s => if bool_decide (s = "") then Ok (JObj []) else Err AttributeError
  | JObj [] => Ok (JObj [])
  | JObj _ => Err KeyError
  | v => if truthy v then Err TypeError else Ok (JObj [])
  end.

(** [json.loads(args_str)], or an empty object where it is not JSON *)
Definition loaded (args : Json) : result Exn Json :=
  match args with
  | JStr s => match json_loads s with
              | Ok v => Ok v
              | Err JSONDecodeError | Err TypeError => Ok (JObj [])
              | Err e => Err e
              end
  | _ => Ok (JObj [])
  end.
Fixpoint answer_calls (n : nat) (l : list Json) : result Exn (list Json * nat) :=
  match l with
  | [] => Ok ([], n)
  | tc :: l =>
      if is_dict tc then
        let fn := or_dict (jget_null tc "function") in
        let! args := get_or JNull fn "arguments" in
        let! input := loaded (or_else args (JStr "{}")) in
        let (id, n) := id_or fresh "toolu_" 24 n (jget_null tc "id") in
        let! r := answer_calls n l in
        let (blocks, n) := r : list Json * nat in
        Ok (JObj [("type", JStr "tool_use"); ("id", id); ("name", or_else (jget_null fn "name") (JStr "")); ("input", input)] :: blocks, n)
      else answer_calls n l
  end.

(** [openai_response_to_anthropic_body(body)], on an object *)
Definition openai_response_to_anthropic_body (body : Json) : result Exn Json :=
  let! choice := first_of_choices body in
  let! message := get_or (JObj []) choice "message" in
  let! reasoning := get_or JNull message "reasoning_content" in
  let thoughts := match nonempty reasoning with Some t => [JObj [("type", JStr "thinking"); ("thinking", JStr t)]] | None => [] end in
  let texts := match nonempty (jget_null message "content") with Some t => [JObj [("type", JStr "text"); ("text", JStr t)]] | None => [] end in
  let! l := items (or_else (jget_null message "tool_calls") (JArr [])) in
  let! r := answer_calls 0 l in
  let (calls, n) := r : list Json * nat in
  let finish := or_else (jget_null choice "finish_reason") (JStr "stop") in
  let! _ := hashed finish in
  let stop := match finish with JStr s => default "end_turn" (dict_get _FINISH_REASON_TO_STOP_REASON s) | _ => "end_turn" end in
  let usage := or_dict (jget_null body "usage") in
  let (id, _) := id_or fresh "msg_" 24 n (jget_null body "id") in
  let! input := get_or (JInt 0) usage "prompt_tokens" in
  let! output := get_or (JInt 0) usage "completion_tokens" in
  Ok (JObj [("id", id); ("type", JStr "message"); ("role", JStr "assistant"); ("model", or_else (jget_null body "model") (JStr ""));
            ("content", JArr (thoughts ++ texts ++ calls)); ("stop_reason", JStr stop); ("stop_sequence", JNull);
            ("usage", JObj [("input_tokens", input); ("output_tokens", output)])]).
End answer.
