(* ===== verification/BridgeLaws.v ===== *)
(** What the stream of the bridge promises ([Bridge]): its events are a message that the
    sanitizer passes as it is, and the blocks a reader assembles are the runs of the upstream's
    fragments, the calls of a run in the order of their indices. *)

From S2P Require Import Prelude Json Raise StreamSanitizer Bridge.

(** ** Through the sanitizer *)

(** The type of the block that is open *)
Definition kind_type (k : option Kind) : Json :=
  match k with
  | None => JNull
  | Some KThinking => JStr "thinking"
  | Some KText => JStr "text"
  | Some (KTool _) => JStr "tool_use"
  end.
(** The sanitizer has seen what the bridge has said. *)
Definition synced (s : StreamState) (z : San) : Prop :=
  seen_message_start z = started s /\ current_index z = open_index s /\ current_block_type z = kind_type (open_kind s).
(** These events pass as they are, and leave the two in step. *)
Definition passes (s : StreamState) (o : list Json * StreamState) : Prop :=
  forall z, synced s z -> exists z', sanitize_from z (fst o) = (fst o, Ok z') /\ synced (snd o) z'.

Lemma passing_nil s : passes s ([], s).
Proof. intros z Hz. by exists z. Qed.
Lemma passing_app s a s1 b s2 : passes s (a, s1) -> passes s1 (b, s2) -> passes s (a ++ b, s2).
Proof.
  intros Ha Hb z Hz. destruct (Ha z Hz) as (z1 & E1 & H1). destruct (Hb z1 H1) as (z2 & E2 & H2). exists z2. cbn [fst snd] in *.
  rewrite (sanitize_from_app _ _ _ _ _ E1), E2. done.
Qed.
(** Only the open block matters. *)
Lemma passes_alike s s1 s2 a : started s2 = started s1 -> open_index s2 = open_index s1 -> open_kind s2 = open_kind s1 -> passes s (a, s1) -> passes s (a, s2).
Proof. intros E1 E2 E3 H z Hz. destruct (H z Hz) as (z' & E & Hz'). exists z'. split; [done|]. unfold synced in *. cbn [snd] in *. by rewrite E1, E2, E3. Qed.
Lemma passes_from s s1 o : started s1 = started s -> open_index s1 = open_index s -> open_kind s1 = open_kind s -> passes s o -> passes s1 o.
Proof. intros E1 E2 E3 H z Hz. apply H. unfold synced in *. by rewrite <- E1, <- E2, <- E3. Qed.

Section stream.
Context (fresh : nat -> string) (model : string).

Lemma passes_message_start s : started s = false -> passes s ([_message_start_event fresh model s], set_started s).
Proof using.
  intros Hs [seen i b] (H1 & H2 & H3). cbn in H1, H2, H3. rewrite Hs in H1. subst. exists (MkSan true (open_index s) (kind_type (open_kind s))). split; [reflexivity|by split].
Qed.
Lemma passes_close s k : open_kind s = Some k -> passes s ([fst (_close_block s)], snd (_close_block s)).
Proof using.
  intros Hk [seen i b] (H1 & H2 & H3). cbn in H1, H2, H3. rewrite Hk in H3. subst. exists (MkSan (started s) (open_index s) JNull). split; [by destruct k|by split].
Qed.
Lemma passes_close_if_open s : passes s (close_if_open s).
Proof using. unfold close_if_open. destruct (open_kind s) as [k|] eqn:E; [by eapply passes_close|apply passing_nil]. Qed.
Lemma close_if_open_closes s : open_kind (snd (close_if_open s)) = None.
Proof using. unfold close_if_open. by destruct (open_kind s) eqn:E. Qed.

(** The block a kind opens *)
Definition fits_kind (k : Kind) (block : Json) : Prop := exists d, block = JObj d /\ jget_null block "type" = kind_type (Some k).
Lemma passes_open s k block : open_kind s = None -> fits_kind k block -> passes s ([fst (_open_block s k block)], snd (_open_block s k block)).
Proof using.
  intros Hk (d & -> & Ht) [seen i b] (H1 & H2 & H3). cbn in H1, H2, H3. rewrite Hk in H3. subst.
  exists (MkSan (started s) (open_index s + 1) (kind_type (Some k))). split; [|by split]. unfold _open_block. cbn [fst snd]. rewrite sanitize_one.
  set (e := JObj [("type", _); ("index", _); ("content_block", JObj d)]). set (z := MkSan (started s) (open_index s) (kind_type None)).
  change (sanitize_step z e) with (on_block_start z e). unfold on_block_start. change (default (JObj []) (jget e "content_block")) with (JObj d).
  cbv beta iota zeta. rewrite Ht. reflexivity.
Qed.

(** A delta that is not empty and fits the open block *)
Inductive fits_delta : Kind -> Json -> Prop :=
| fits_thinking t : t <> "" -> fits_delta KThinking (thinking_delta t)
| fits_text t : t <> "" -> fits_delta KText (text_delta t)
| fits_arguments i t : t <> "" -> fits_delta (KTool i) (JObj [("type", JStr "input_json_delta"); ("partial_json", JStr t)]).
Lemma passes_delta s k delta : open_kind s = Some k -> fits_delta k delta -> passes s ([delta_event s delta], s).
Proof using.
  intros Hk Hd [seen i b] (H1 & H2 & H3). cbn in H1, H2, H3. rewrite Hk in H3. subst.
  exists (MkSan (started s) (open_index s) (kind_type (Some k))). split; [|by rewrite <- Hk; split]. cbn [fst]. rewrite sanitize_one.
  set (z := MkSan _ _ _). set (e := delta_event s delta). change (sanitize_step z e) with (on_block_delta z e). unfold on_block_delta.
  destruct Hd as [t Ht|t Ht|i t Ht]; (destruct t as [|c t]; [done|reflexivity]).
Qed.

(** What only the open block decides is the same. *)
Definition same_block (s s' : StreamState) : Prop := started s' = started s /\ open_index s' = open_index s /\ open_kind s' = open_kind s.
Lemma same_refl s : same_block s s.
Proof using. done. Qed.
Lemma passes_same s s' a o : same_block s s' -> passes s' (a, o) -> passes s (a, o).
Proof using. intros (E1 & E2 & E3) H. by eapply passes_from. Qed.
Lemma passes_to s a o o' : same_block o o' -> passes s (a, o) -> passes s (a, o').
Proof using. intros (E1 & E2 & E3) H. by eapply passes_alike. Qed.

(** No part of a call is empty. *)
Definition whole_calls (l : list (Z * PendingToolCall)) : Prop := Forall (fun x => Forall (fun a => a <> "") (argument_parts (snd x))) l.
Definition whole (s : StreamState) : Prop := whole_calls (pending_tool_calls s).

Lemma passes_parts s i parts : open_kind s = Some (KTool i) -> Forall (fun a => a <> "") parts ->
  passes s (map (fun a => delta_event s (JObj [("type", JStr "input_json_delta"); ("partial_json", JStr a)])) parts, s).
Proof using.
  intros Hk. induction 1 as [|a parts Ha _ IH]; [apply passing_nil|]. cbn [map]. apply (passing_app s [_] s _ s); [|done].
  apply (passes_delta s (KTool i)); [done|by constructor].
Qed.
Lemma passes_flush_call s x : open_kind s = None -> Forall (fun a => a <> "") (argument_parts (snd x)) ->
  passes s (flush_call s x) /\ open_kind (snd (flush_call s x)) = None.
Proof using.
  intros Hk Hp. split; [|done]. unfold flush_call. cbn [_open_block _close_block].
  apply (passing_app s [_] (set_open (Some (KTool (fst x))) (open_index s + 1) s)).
  - apply (passes_open s (KTool (fst x)) (call_block (snd x))); [done|]. by eexists.
  - eapply passing_app; [by apply (passes_parts _ (fst x))|]. apply (passes_close (set_open (Some (KTool (fst x))) (open_index s + 1) s) (KTool (fst x))). done.
Qed.
Lemma passes_flush_calls l : forall s, open_kind s = None -> whole_calls l -> passes s (flush_calls s l) /\ open_kind (snd (flush_calls s l)) = None.
Proof using.
  induction l as [|x l IH]; intros s Hk Hl; [by split; [apply passing_nil|]|]. apply Forall_cons in Hl as [Hx Hl]. cbn [flush_calls].
  destruct (passes_flush_call s x Hk Hx) as [P1 K1]. destruct (flush_call s x) as [a s1]. destruct (IH s1 K1 Hl) as [P2 K2]. destruct (flush_calls s1 l) as [b s2].
  split; [by eapply passing_app|done].
Qed.
Lemma insert_whole x l : Forall (fun a => a <> "") (argument_parts (snd x)) -> whole_calls l -> whole_calls (insert_call x l).
Proof using. intros Hx. induction 1 as [|y l Hy Hl IH]; cbn; [by constructor|]. destruct (fst x <=? fst y); by repeat constructor. Qed.
Lemma sorted_whole l : whole_calls l -> whole_calls (sorted_calls l).
Proof using. induction 1 as [|x l Hx _ IH]; cbn; [constructor|]. by apply insert_whole. Qed.

Lemma passes_flush s : whole s -> passes s (_flush_tool_calls s) /\ pending_tool_calls (snd (_flush_tool_calls s)) = [].
Proof using.
  unfold whole, _flush_tool_calls. destruct (pending_tool_calls s) as [|x l] eqn:E; intros Hw; [by split; [apply passing_nil|]|].
  pose proof (passes_close_if_open s) as P1. pose proof (close_if_open_closes s) as K1. destruct (close_if_open s) as [a s1]. cbn [snd] in K1.
  destruct (passes_flush_calls (sorted_calls (x :: l)) s1 K1 (sorted_whole _ Hw)) as [P2 _]. destruct (flush_calls s1 (sorted_calls (x :: l))) as [b s2].
  split; [|done]. eapply passing_app; [done|]. eapply passes_to; [|exact P2]. done.
Qed.

Lemma passes_say s k block delta : whole s -> fits_kind k block -> fits_delta k delta ->
  passes s (say k block delta s) /\ pending_tool_calls (snd (say k block delta s)) = [] /\ open_kind (snd (say k block delta s)) = Some k.
Proof using.
  intros Hw Hb Hd. unfold say. destruct (passes_flush s Hw) as [P1 E1]. destruct (_flush_tool_calls s) as [a s1]. cbn [snd] in E1.
  case_bool_decide as Hk.
  - cbn [app]. split; [|done]. eapply passing_app; [done|]. by eapply passes_delta.
  - pose proof (passes_close_if_open s1) as P2. pose proof (close_if_open_closes s1) as K2.
    assert (pending_tool_calls (snd (close_if_open s1)) = []) as E2 by (unfold close_if_open; by destruct (open_kind s1)).
    destruct (close_if_open s1) as [c s2]. cbn [snd] in K2, E2. cbn [_open_block]. split; [|done]. eapply passing_app; [done|]. rewrite <- app_assoc.
    eapply passing_app; [done|]. apply (passing_app s2 [_] (set_open (Some k) (open_index s2 + 1) s2)); [by apply (passes_open s2 k block)|]. by apply (passes_delta _ k).
Qed.

Lemma record_same s i id name arguments : same_block s (_record_tool_call_delta fresh s i id name arguments).
Proof using. unfold _record_tool_call_delta. destruct (pget _ i); [|destruct (id_or _ _ _ _ _)]; done. Qed.
Lemma pset_whole l i p : whole_calls l -> Forall (fun a => a <> "") (argument_parts p) -> whole_calls (pset l i p).
Proof using. induction 1 as [|[j q] l Hq Hl IH]; intros Hp; cbn; [by constructor|]. destruct (decide (i = j)); constructor; [exact Hp|done|exact Hq|by apply IH]. Qed.
Lemma pget_whole l i p : whole_calls l -> pget l i = Some p -> Forall (fun a => a <> "") (argument_parts p).
Proof using. induction 1 as [|[j q] l Hq Hl IH]; cbn; [done|]. destruct (decide (i = j)); [by intros [= <-]|done]. Qed.
Lemma record_whole s i id name arguments : whole s -> whole (_record_tool_call_delta fresh s i id name arguments).
Proof using.
  unfold whole, _record_tool_call_delta. intros Hw. assert (forall p, Forall (fun a => a <> "") (argument_parts p) ->
    Forall (fun a => a <> "") (match nonempty arguments with Some a => argument_parts p ++ [a] | None => argument_parts p end)) as Hp.
  { intros p Hp. destruct (nonempty arguments) as [a|] eqn:Ea; [|done]. apply Forall_app. split; [done|]. apply Forall_singleton. unfold nonempty in Ea.
    destruct arguments; try done. case_bool_decide; [done|]. by injection Ea as <-. }
  destruct (pget (pending_tool_calls s) i) as [p|] eqn:E.
  - cbn. apply pset_whole; [done|]. apply (Hp p). by eapply pget_whole.
  - destruct (id_or fresh "toolu_" 24 (made s) id) as [id' n]. cbn. apply pset_whole; [done|]. by apply (Hp (MkPending JNull JNull [])).
Qed.
Lemma calls_same l : forall s, whole s -> same_block s (foldl (one_call fresh) s l) /\ whole (foldl (one_call fresh) s l).
Proof using.
  induction l as [|tc l IH]; intros s Hw; [done|]. cbn [foldl]. assert (same_block s (one_call fresh s tc) /\ whole (one_call fresh s tc)) as [H1 H2].
  { unfold one_call. destruct (is_dict tc); [|done]. destruct (as_int _) as [i|]; [|done]. split; [apply record_same|by apply record_whole]. }
  destruct (IH _ H2) as [(E1 & E2 & E3) H3]. destruct H1 as (F1 & F2 & F3). split; [|done]. unfold same_block. by rewrite E1, E2, E3, F1, F2, F3.
Qed.

Lemma nonempty_spec v t : nonempty v = Some t -> t <> "".
Proof using. destruct v; try done. cbn. case_bool_decide; [done|]. by intros [= <-]. Qed.
Lemma pick_said k block (mk : string -> Json) v s : whole s -> fits_kind k block -> (forall t, t <> "" -> fits_delta k (mk t)) ->
  let o := match nonempty v with Some t => say k block (mk t) s | None => ([], s) end in passes s o /\ whole (snd o).
Proof using.
  intros Hw Hb Hd. destruct (nonempty v) as [t|] eqn:E; cbn; [|by split; [apply passing_nil|]].
  destruct (passes_say s k block (mk t) Hw Hb) as (P & E1 & _); [by apply Hd, (nonempty_spec v)|]. split; [done|]. unfold whole. rewrite E1. constructor.
Qed.

(** What is yielded passes, whether the loop goes on or not. *)
Definition goes_out (s : StreamState) (o : list Json * result Exn StreamState) : Prop :=
  match snd o with
  | Ok s' => passes s (fst o, s') /\ whole s'
  | Err _ => exists s', passes s (fst o, s')
  end.
Lemma chunk_out s chunk : whole s -> goes_out s (on_chunk fresh model s chunk).
Proof using.
  intros Hw. unfold on_chunk. destruct (is_dict chunk); [|by exists s; apply passing_nil]. cbn [negb].
  assert (same_block s (read_usage chunk s) /\ whole (read_usage chunk s)) as [Hs Hw1] by done. generalize dependent (read_usage chunk s). intros s1 Hs Hw1.
  destruct (first_choice chunk) as [[choice|]|e]; [| |exists s; apply passing_nil].
  2:{ split; [|done]. eapply passes_same; [exact Hs|apply passing_nil]. }
  set (delta := if is_dict (or_dict (jget_null choice "delta")) then _ else _).
  set (o1 := if started s1 then ([], s1) else ([_message_start_event fresh model s1], set_started s1)).
  assert (passes s1 o1 /\ whole (snd o1)) as [P1 W1].
  { subst o1. destruct (started s1) eqn:E; [by split; [apply passing_nil|]|]. split; [by apply passes_message_start|done]. }
  destruct o1 as [a s2]. cbn [snd] in W1.
  destruct (pick_said KThinking thinking_block thinking_delta (jget_null delta "reasoning_content") s2 W1) as [P2 W2]; [by eexists|by constructor|].
  destruct (match nonempty (jget_null delta "reasoning_content") with Some t => _ | None => _ end) as [b s3]. cbn [snd] in W2.
  destruct (pick_said KText text_block text_delta (jget_null delta "content") s3 W2) as [P3 W3]; [by eexists|by constructor|].
  destruct (match nonempty (jget_null delta "content") with Some t => _ | None => _ end) as [c s4]. cbn [snd] in W3.
  assert (passes s (a ++ b ++ c, s4)) as P by (eapply passes_same; [exact Hs|]; eapply passing_app; [done|]; by eapply passing_app).
  destruct (items _) as [calls|e]; [|by exists s4]. destruct (calls_same calls s4 W3) as [Hc Wc].
  destruct (nonempty (jget_null choice "finish_reason")); (split; [eapply passes_to; [|exact P]|]; done).
Qed.
Lemma chunks_out l : forall s, whole s -> goes_out s (on_chunks fresh model s l).
Proof using.
  induction l as [|chunk l IH]; intros s Hw; [by split; [apply passing_nil|]|]. cbn [on_chunks]. pose proof (chunk_out s chunk Hw) as H.
  destruct (on_chunk fresh model s chunk) as [a [s1|e]]; [|exact H]. destruct H as [P1 W1]. specialize (IH s1 W1).
  destruct (on_chunks fresh model s1 l) as [b [s2|e]]; unfold goes_out in *; cbn [fst snd] in *.
  - destruct IH as [P2 W2]. split; [by eapply passing_app|done].
  - destruct IH as [s2 P2]. exists s2. by eapply passing_app.
Qed.

(** ** The frame *)

(** An event of a block; a start says the type of its block. *)
Definition inner (e : Json) : bool := is_start e && negb (is_none (block_type e)) || is_delta e || is_stop e.
(** From no message to an open one, or within one *)
Definition framed (s : StreamState) (a : list Json) (s' : StreamState) : Prop :=
  if started s then started s' = true /\ forallb inner a = true
  else if started s' then exists e mid, a = e :: mid /\ is_msg_start e = true /\ forallb inner mid = true
  else a = [].

Lemma framed_app s a s1 b s2 : framed s a s1 -> framed s1 b s2 -> framed s (a ++ b) s2.
Proof using.
  unfold framed. destruct (started s).
  - intros [-> Ha] [-> Hb]. split; [done|]. by rewrite forallb_app, Ha, Hb.
  - destruct (started s1).
    + intros (e & mid & -> & He & Hm) [-> Hb]. exists e, (mid ++ b). by rewrite forallb_app, Hm, Hb.
    + intros -> Hb. destruct (started s2); exact Hb.
Qed.
Lemma inner_framed s a s' : started s' = started s -> started s = true \/ a = [] -> forallb inner a = true -> framed s a s'.
Proof using. unfold framed. intros -> [->| ->] Ha; [done|]. by destruct (started s). Qed.

Lemma inner_close s : forallb inner (fst (close_if_open s)) = true /\ started (snd (close_if_open s)) = started s.
Proof using. unfold close_if_open. by destruct (open_kind s). Qed.
Lemma inner_calls l : forall s, forallb inner (fst (flush_calls s l)) = true /\ started (snd (flush_calls s l)) = started s.
Proof using.
  induction l as [|x l IH]; intros s; [done|]. cbn [flush_calls]. unfold flush_call. cbn [_open_block _close_block].
  specialize (IH (set_open None (open_index (set_open (Some (KTool (fst x))) (open_index s + 1) s)) (set_open (Some (KTool (fst x))) (open_index s + 1) s))).
  destruct (flush_calls _ l) as [b s2]. cbn [fst snd] in *. destruct IH as [I1 I2]. split; [|exact I2]. cbn [app forallb]. rewrite forallb_app, forallb_app, I1.
  cbn. rewrite !andb_true_r. apply forallb_forall. intros e He. apply in_map_iff in He as (y & <- & _). reflexivity.
Qed.
Lemma inner_flush s : forallb inner (fst (_flush_tool_calls s)) = true /\ started (snd (_flush_tool_calls s)) = started s.
Proof using.
  unfold _flush_tool_calls. destruct (pending_tool_calls s) as [|x l]; [done|]. destruct (inner_close s) as [I1 S1]. destruct (close_if_open s) as [a s1].
  destruct (inner_calls (sorted_calls (x :: l)) s1) as [I2 S2]. destruct (flush_calls s1 _) as [b s2]. cbn [fst snd] in *. rewrite forallb_app, I1, I2. by rewrite <- S1.
Qed.
Lemma inner_say s k block delta : fits_kind k block -> forallb inner (fst (say k block delta s)) = true /\ started (snd (say k block delta s)) = started s.
Proof using.
  intros (d & -> & Ht). unfold say. destruct (inner_flush s) as [I1 S1]. destruct (_flush_tool_calls s) as [a s1]. cbn [fst snd] in *. case_bool_decide.
  - cbn [fst snd]. by rewrite !forallb_app, I1.
  - destruct (inner_close s1) as [I2 S2]. destruct (close_if_open s1) as [c s2]. cbn [fst snd _open_block] in *. rewrite !forallb_app, I1, I2. split; [|cbn; by rewrite S2].
    assert (forall i, inner (JObj [("type", JStr "content_block_start"); ("index", JInt i); ("content_block", JObj d)]) = true) as Hi.
    { intros i. unfold inner. change (block_type _) with (jget_null (JObj d) "type"). rewrite Ht. by destruct k. }
    cbn [forallb andb]. by rewrite Hi.
Qed.
Lemma framed_pick k block (mk : string -> Json) v s : fits_kind k block -> started s = true ->
  let o := match nonempty v with Some t => say k block (mk t) s | None => ([], s) end in framed s (fst o) (snd o).
Proof using.
  intros Hb Hs. destruct (nonempty v) as [t|]; cbn; [|by apply inner_framed; [|left|]]. destruct (inner_say s k block (mk t) Hb) as [I1 S1].
  apply inner_framed; [done|by left|done].
Qed.

Lemma calls_started l : forall s, started (foldl (one_call fresh) s l) = started s.
Proof using.
  induction l as [|tc l IH]; intros s; [done|]. cbn [foldl]. rewrite IH. unfold one_call. destruct (is_dict tc); [|done].
  destruct (as_int _) as [i|]; [|done]. apply record_same.
Qed.
Definition frames (s : StreamState) (o : list Json * result Exn StreamState) : Prop :=
  match snd o with Ok s' => framed s (fst o) s' | Err _ => exists s', framed s (fst o) s' end.
Lemma framed_nil s : framed s [] s.
Proof using. apply inner_framed; [done|by right|done]. Qed.
Lemma framed_chunk s chunk : frames s (on_chunk fresh model s chunk).
Proof using.
  unfold on_chunk. destruct (is_dict chunk); [|exists s; apply framed_nil]. cbn [negb]. assert (started (read_usage chunk s) = started s) as Hs by done.
  revert Hs. generalize (read_usage chunk s). intros s1 Hs.
  destruct (first_choice chunk) as [[choice|]|e]; [| |exists s; apply framed_nil].
  2:{ apply inner_framed; [done|by right|done]. }
  set (delta := if is_dict (or_dict (jget_null choice "delta")) then _ else _).
  set (o1 := if started s1 then ([], s1) else ([_message_start_event fresh model s1], set_started s1)).
  assert (framed s (fst o1) (snd o1) /\ started (snd o1) = true) as [F1 S1].
  { subst o1. destruct (started s1) eqn:E; cbn; unfold framed; rewrite <- Hs; [by split|]. split; [|done]. by exists (_message_start_event fresh model s1), []. }
  destruct o1 as [b1 s2]. cbn [fst snd] in *.
  pose proof (framed_pick KThinking thinking_block thinking_delta (jget_null delta "reasoning_content") s2 ltac:(by eexists) S1) as F2.
  destruct (match nonempty (jget_null delta "reasoning_content") with Some t => _ | None => _ end) as [b2 s3]. cbn [fst snd] in *.
  assert (started s3 = true) as S3 by (unfold framed in F2; rewrite S1 in F2; apply F2).
  pose proof (framed_pick KText text_block text_delta (jget_null delta "content") s3 ltac:(by eexists) S3) as F3.
  destruct (match nonempty (jget_null delta "content") with Some t => _ | None => _ end) as [b3 s4]. cbn [fst snd] in *.
  assert (framed s (b1 ++ b2 ++ b3) s4) as F by (eapply framed_app; [done|]; by eapply framed_app).
  destruct (items _) as [calls|e]; [|by exists s4]. pose proof (calls_started calls s4) as Sc.
  assert (framed s4 [] (match nonempty (jget_null choice "finish_reason") with Some f => set_finish f (foldl (one_call fresh) s4 calls) | None => foldl (one_call fresh) s4 calls end)) as F4.
  { apply inner_framed; [by destruct (nonempty (jget_null choice "finish_reason"))|by right|done]. }
  pose proof (framed_app _ _ _ _ _ F F4) as Fe. by rewrite app_nil_r in Fe.
Qed.
Lemma framed_chunks l : forall s, frames s (on_chunks fresh model s l).
Proof using.
  induction l as [|chunk l IH]; intros s; cbn [on_chunks]; [apply framed_nil|]. pose proof (framed_chunk s chunk) as F1.
  destruct (on_chunk fresh model s chunk) as [b [s1|e]]; [|done]. specialize (IH s1). unfold frames in *. cbn [fst snd] in *.
  destruct (on_chunks fresh model s1 l) as [c [s2|e]]; cbn [fst snd] in *; [by eapply framed_app|]. destruct IH as [s2 F2]. exists s2. by eapply framed_app.
Qed.
(** Every block that is started says its type. *)
Lemma inner_typed a : forallb inner a = true -> typed_starts a = true.
Proof using.
  unfold typed_starts. rewrite !forallb_forall. intros H e He. specialize (H e He). unfold inner in H. destruct (is_start e) eqn:Es; [|done]. cbn [andb] in *.
  assert (is_delta e = false /\ is_stop e = false) as [Hd Ht] by (unfold is_start, is_delta, is_stop, etype_is in *; etypes; by rewrite ?bool_decide_eq_false_2).
  rewrite Hd, Ht, !orb_false_r in H. exact H.
Qed.
Lemma framed_typed s a s' : framed s a s' -> typed_starts a = true.
Proof using.
  unfold framed. destruct (started s); [intros [_ H]; by apply inner_typed|]. destruct (started s'); [|by intros ->].
  intros (e & mid & -> & He & Hm). unfold typed_starts. cbn [forallb]. apply andb_true_iff. split; [|by apply inner_typed].
  assert (is_start e = false) as -> by (unfold is_msg_start, is_start, etype_is in *; etypes; by rewrite ?bool_decide_eq_false_2). done.
Qed.

(** A message that is complete: its start, the events of its blocks, its delta and its stop *)
Definition complete (out : list Json) : Prop :=
  exists start mid delta stop, out = start :: mid ++ [delta; stop] /\ is_msg_start start = true /\ forallb inner mid = true
    /\ etype_is delta "message_delta" = true /\ etype_is stop "message_stop" = true.

Definition message_end (s : StreamState) : list Json :=
  [JObj [("type", JStr "message_delta"); ("delta", JObj [("stop_reason", JStr (stop_reason (finish_reason s))); ("stop_sequence", JNull)]);
         ("usage", JObj [("input_tokens", input_tokens s); ("output_tokens", output_tokens s)])];
   JObj [("type", JStr "message_stop")]].
Lemma finish_out s : whole s -> exists a s', finish_stream fresh model s = a ++ message_end s' /\ passes s (a, s') /\ open_kind s' = None /\ framed s a s' /\ started s' = true.
Proof using.
  intros Hw. unfold finish_stream. set (o1 := if started s then ([], s) else ([_message_start_event fresh model s], set_started s)).
  assert (passes s o1 /\ whole (snd o1) /\ framed s (fst o1) (snd o1) /\ started (snd o1) = true) as (P1 & W1 & F1 & S1).
  { subst o1. unfold framed. destruct (started s) eqn:E; cbn; [by repeat split; [apply passing_nil|..]|]. split; [by apply passes_message_start|]. split; [done|]. split; [|done].
    by exists (_message_start_event fresh model s), []. }
  destruct o1 as [a1 s1]. cbn [fst snd] in *. destruct (passes_flush s1 W1) as [P2 _]. destruct (inner_flush s1) as [I2 S2].
  destruct (_flush_tool_calls s1) as [a2 s2]. cbn [fst snd] in *. pose proof (passes_close_if_open s2) as P3. pose proof (close_if_open_closes s2) as K3.
  destruct (inner_close s2) as [I3 S3]. destruct (close_if_open s2) as [a3 s3]. cbn [fst snd] in *. exists (a1 ++ a2 ++ a3), s3.
  split; [by rewrite <- !app_assoc|]. split; [eapply passing_app; [done|by eapply passing_app]|]. split; [done|]. split; [|congruence].
  eapply framed_app; [done|]. apply (framed_app s1 a2 s2); (apply inner_framed; [congruence| |done]); left; congruence.
Qed.
Lemma end_passes s z : open_kind s = None -> synced s z -> sanitize_from z (message_end s) = (message_end s, Ok z).
Proof using. intros Hk (_ & _ & Hb). destruct z as [seen i b]. cbn in Hb. rewrite Hk in Hb. subst. reflexivity. Qed.

Lemma state0_synced : synced state0 san0.
Proof using. done. Qed.
Lemma state0_whole : whole state0.
Proof using. constructor. Qed.

(** An upstream the loop reads to its end *)
Definition legible (chunk : Json) : bool :=
  is_dict chunk && match first_choice chunk with
                   | Ok (Some choice) => let d := or_dict (jget_null choice "delta") in
                                         match items (or_else (jget_null (if is_dict d then d else JObj []) "tool_calls") (JArr [])) with Ok _ => true | Err _ => false end
                   | Ok None => true
                   | Err _ => false
                   end.
Lemma legible_chunk s chunk : legible chunk = match snd (on_chunk fresh model s chunk) with Ok _ => true | Err _ => false end.
Proof using.
  unfold legible, on_chunk. destruct (is_dict chunk); [|done]. cbn [negb andb]. destruct (first_choice chunk) as [[choice|]|e]; [|done..]. cbv zeta.
  destruct (if started _ then _ else _) as [a s1]. destruct (match nonempty (jget_null _ "reasoning_content") with Some _ => _ | None => _ end) as [b s2].
  destruct (match nonempty (jget_null _ "content") with Some _ => _ | None => _ end) as [c s3]. by destruct (items _).
Qed.
Lemma legible_chunks l : forall s, forallb legible l = match snd (on_chunks fresh model s l) with Ok _ => true | Err _ => false end.
Proof using.
  induction l as [|chunk l IH]; intros s; [done|]. cbn [forallb on_chunks]. rewrite (legible_chunk s). destruct (on_chunk fresh model s chunk) as [a [s1|e]]; [|done].
  cbn [snd andb]. rewrite (IH s1). by destruct (on_chunks fresh model s1 l).
Qed.

Lemma stream_passes l : exists z, sanitize_events (fst (openai_stream_to_anthropic_events fresh model l)) = (fst (openai_stream_to_anthropic_events fresh model l), Ok z).
Proof using.
  unfold openai_stream_to_anthropic_events. pose proof (chunks_out l state0 state0_whole) as H. destruct (on_chunks fresh model state0 l) as [a [s|e]].
  - destruct H as [P W]. destruct (P san0 state0_synced) as (z & E & Hz). destruct (finish_out s W) as (b & s' & -> & P2 & K2 & _). destruct (P2 z Hz) as (z' & E2 & Hz').
    exists z'. cbn [fst snd] in *. unfold sanitize_events. rewrite (sanitize_from_app _ _ _ _ _ E), (sanitize_from_app _ _ _ _ _ E2), end_passes by done. done.
  - destruct H as [s' P]. destruct (P san0 state0_synced) as (z & E & _). by exists z.
Qed.
Lemma stream_complete l out : openai_stream_to_anthropic_events fresh model l = (out, None) -> complete out.
Proof using.
  unfold openai_stream_to_anthropic_events. pose proof (chunks_out l state0 state0_whole) as H. destruct (on_chunks fresh model state0 l) as [a [s|e]] eqn:E; [|done].
  destruct H as [_ W]. destruct (finish_out s W) as (b & s' & -> & _ & _ & F2 & S2). intros [= <-]. pose proof (framed_chunks l state0) as F1. rewrite E in F1. pose proof (framed_app _ _ _ _ _ F1 F2) as F.
  unfold framed in F. rewrite S2 in F. cbn [started state0 fst] in F. destruct F as (e & mid & Eab & He & Hm). exists e, mid. do 2 eexists. split; [rewrite app_assoc, Eab; done|done].
Qed.

Lemma stream_typed l : typed_starts (fst (openai_stream_to_anthropic_events fresh model l)) = true.
Proof using.
  unfold openai_stream_to_anthropic_events. pose proof (framed_chunks l state0) as F1. pose proof (chunks_out l state0 state0_whole) as H.
  destruct (on_chunks fresh model state0 l) as [a [s|e]]; cbn [fst].
  - destruct H as [_ W]. destruct (finish_out s W) as (b & s' & -> & _ & _ & F2 & _). rewrite app_assoc. unfold typed_starts in *. rewrite forallb_app.
    pose proof (framed_typed _ _ _ (framed_app _ _ _ _ _ F1 F2)) as Ht. unfold typed_starts in Ht. cbn [fst] in Ht. by rewrite Ht.
  - destruct F1 as [s F]. by eapply framed_typed.
Qed.

(** C25. Whatever the upstream sends, the sanitizer that the route runs behind the bridge passes
    every event as it is and raises nothing, also when reading the upstream fails half way; the
    events are what the sanitizer promises; and an upstream is read to its end exactly when its
    chunks are objects with lists where lists are read, and becomes one whole message then. *)
Theorem bridge_stream_is_sound l :
  let '(out, e) := openai_stream_to_anthropic_events fresh model l in
  fst (sanitize_events out) = out /\ (exists z, snd (sanitize_events out) = Ok z) /\ conforming out
  /\ (e = None <-> forallb legible l = true) /\ (e = None -> complete out).
Proof using.
  pose proof (stream_passes l) as (z & P). pose proof (stream_typed l) as Ht. pose proof (stream_complete l) as Hc.
  pose proof (legible_chunks l state0) as Hl. unfold openai_stream_to_anthropic_events in *.
  destruct (on_chunks fresh model state0 l) as [a [s|e]]; cbn [fst snd] in *; (rewrite P; split; [done|]; split; [by eexists|]);
    (split; [pose proof (keeps_run san0 [] _ tracks0 conforming_nil Ht) as K; unfold sanitize_events in P; by rewrite P in K|]);
    rewrite Hl; (split; [done|]); [intros _; by apply Hc|done].
Qed.
End stream.
