(* ===== verification/BridgeBlocks.v ===== *)
(** What a reader assembles from the stream of the bridge ([Bridge]): the runs of the
    upstream's fragments, one block for a run of text, one for each call of a run of calls,
    and the agreement with the translation of a whole answer. *)

From stdpp Require Import sorting.
From S2P Require Import Prelude Json Raise StreamSanitizer Bridge BridgeLaws.

(** ** Fragments and runs *)

(** What a delta says of a call *)
Record CallFragment := MkFragment { f_index : Z; f_id : Json; f_name : Json; f_part : option string }.
Inductive Fragment := FThink (t : string) | FSay (t : string) | FCall (c : CallFragment).

Definition call_fragment (tc : Json) : option CallFragment :=
  if is_dict tc then
    match as_int (jget_null tc "index") with
    | Some i => let fn := or_dict (jget_null tc "function") in
                Some (MkFragment i (jget_null tc "id") (jget_null fn "name") (nonempty (jget_null fn "arguments")))
    | None => None
    end
  else None.
Definition option_list {A} (o : option A) : list A := match o with Some x => [x] | None => [] end.
(** The fragments of a chunk: its thought, its text, its calls *)
Definition fragments (chunk : Json) : list Fragment :=
  match first_choice chunk with
  | Ok (Some choice) =>
      let delta := let d := or_dict (jget_null choice "delta") in if is_dict d then d else JObj [] in
      map FThink (option_list (nonempty (jget_null delta "reasoning_content")))
      ++ map FSay (option_list (nonempty (jget_null delta "content")))
      ++ map FCall (omap call_fragment (match items (or_else (jget_null delta "tool_calls") (JArr [])) with Ok l => l | Err _ => [] end))
  | _ => []
  end.

(** A stretch of fragments of one kind *)
Inductive Run := RThink (l : list string) | RSay (l : list string) | RCalls (l : list CallFragment).
(** The runs so far, the last one first *)
Definition add_fragment (rs : list Run) (f : Fragment) : list Run :=
  match f, rs with
  | FThink t, RThink l :: rs => RThink (l ++ [t]) :: rs
  | FThink t, _ => RThink [t] :: rs
  | FSay t, RSay l :: rs => RSay (l ++ [t]) :: rs
  | FSay t, _ => RSay [t] :: rs
  | FCall c, RCalls l :: rs => RCalls (l ++ [c]) :: rs
  | FCall c, _ => RCalls [c] :: rs
  end.
Definition runs (l : list Fragment) : list Run := rev (foldl add_fragment [] l).

(** ** A reader *)

Inductive Block := Thinking (t : string) | Text (t : string) | ToolUse (id name : Json) (arguments : string).

Definition str_or_empty (v : Json) : string := match v with JStr s => s | _ => "" end.
Definition new_block (block : Json) : Block :=
  if is_str (jget_null block "type") "thinking" then Thinking (str_or_empty (jget_null block "thinking"))
  else if is_str (jget_null block "type") "text" then Text (str_or_empty (jget_null block "text"))
  else ToolUse (jget_null block "id") (jget_null block "name") "".
Definition grow (delta : Json) (b : Block) : Block :=
  match b with
  | Thinking t => Thinking (t +:+ str_or_empty (jget_null delta "thinking"))
  | Text t => Text (t +:+ str_or_empty (jget_null delta "text"))
  | ToolUse id name a => ToolUse id name (a +:+ str_or_empty (jget_null delta "partial_json"))
  end.
Definition read (bs : list Block) (e : Json) : list Block :=
  if is_start e then bs ++ [new_block (jget_null e "content_block")]
  else if is_delta e then match jget_null e "index" with JInt i => alter (grow (jget_null e "delta")) (Z.to_nat i) bs | _ => bs end
  else bs.
Definition assemble (events : list Json) : list Block := foldl read [] events.

(** ** The blocks of a run *)

Definition last_truthy (l : list Json) : option Json := foldl (fun o v => if truthy v then Some v else o) None l.
Definition of_index (i : Z) (l : list CallFragment) : list CallFragment := List.filter (fun c => f_index c =? i) l.
Definition indices (l : list CallFragment) : list Z := merge_sort Z.le (remove_dups (map f_index l)).

Section blocks.
Context (fresh : nat -> string) (model : string).

(** The call of an index: the last id and the last name it was given, all its arguments; the id
    of a call that was given none is made up. *)
Definition is_call (l : list CallFragment) (i : Z) (b : Block) : Prop :=
  exists id, b = ToolUse id (default (JStr "") (last_truthy (map f_name (of_index i l)))) (joined (omap f_part (of_index i l)))
    /\ match last_truthy (map f_id (of_index i l)) with
       | Some k => id = k
       | None => exists n, id = JStr ("toolu_" +:+ String.substring 0 24 (fresh n))
       end.
Definition run_blocks (run : Run) (bs : list Block) : Prop :=
  match run with
  | RThink l => bs = [Thinking (joined l)]
  | RSay l => bs = [Text (joined l)]
  | RCalls l => Forall2 (is_call l) (indices l) bs
  end.

(** *** Calls *)

Lemma joined_snoc l a : joined (l ++ [a]) = joined l +:+ a.
Proof using.
  unfold joined. induction l as [|x l IH]; cbn [app]; [done|]. destruct l as [|y l].
  - done.
  - cbn [app] in *. change (String.concat "" (x :: y :: (l ++ [a]))) with (x +:+ "" +:+ String.concat "" (y :: l ++ [a])).
    change (String.concat "" (x :: y :: l)) with (x +:+ "" +:+ String.concat "" (y :: l)). rewrite IH. by rewrite !append_assoc.
Qed.
Lemma last_truthy_snoc l v : last_truthy (l ++ [v]) = if truthy v then Some v else last_truthy l.
Proof using. unfold last_truthy. by rewrite foldl_app. Qed.
Lemma of_index_snoc i l c : of_index i (l ++ [c]) = if f_index c =? i then of_index i l ++ [c] else of_index i l.
Proof using. unfold of_index. rewrite List.filter_app. cbn. destruct (f_index c =? i); [done|apply app_nil_r]. Qed.

(** A pending call is what its fragments say. *)
Definition kept_call (l : list CallFragment) (i : Z) (p : PendingToolCall) : Prop :=
  tc_name p = default (JStr "") (last_truthy (map f_name (of_index i l))) /\ argument_parts p = omap f_part (of_index i l)
  /\ match last_truthy (map f_id (of_index i l)) with
     | Some k => tc_id p = k
     | None => exists n, tc_id p = JStr ("toolu_" +:+ String.substring 0 24 (fresh n))
     end.
Record keeps_calls (l : list CallFragment) (pending : list (Z * PendingToolCall)) : Prop := {
  kc_nodup : NoDup (map fst pending);
  kc_keys : forall i, i ∈ map fst pending <-> i ∈ map f_index l;
  kc_calls : forall i p, pget pending i = Some p -> kept_call l i p;
}.

Lemma pget_none l i : pget l i = None <-> i ∉ map fst l.
Proof using.
  induction l as [|[j p] l IH]; cbn; [by split; [intros _ ?%elem_of_nil|]|]. destruct (decide (i = j)) as [->|Hne]; rewrite elem_of_cons; [|rewrite IH; tauto].
  split; [done|]. intros H. destruct H. by left.
Qed.
Lemma pget_pset l i j p : pget (pset l i p) j = if decide (j = i) then Some p else pget l j.
Proof using.
  induction l as [|[k q] l IH]; cbn; [by destruct (decide (j = i))|]. destruct (decide (i = k)) as [->|Hne]; cbn.
  - by destruct (decide (j = k)).
  - destruct (decide (j = k)) as [->|]; [by rewrite decide_False|]. by rewrite IH.
Qed.
Lemma pset_keys l i p j : j ∈ map fst (pset l i p) <-> j ∈ map fst l \/ j = i.
Proof using.
  induction l as [|[k q] l IH]; cbn; [rewrite elem_of_cons, elem_of_nil; tauto|]. destruct (decide (i = k)) as [->|Hne]; cbn; rewrite !elem_of_cons; [tauto|rewrite IH; tauto].
Qed.
Lemma pset_nodup l i p : NoDup (map fst l) -> NoDup (map fst (pset l i p)).
Proof using.
  induction l as [|[k q] l IH]; cbn; [intros _; apply NoDup_singleton|]. intros [H1 H2]%NoDup_cons. destruct (decide (i = k)) as [->|Hne]; cbn; apply NoDup_cons; (split; [|auto]); [done|].
  rewrite pset_keys. intros [H|H]; [done|by subst].
Qed.

Lemma of_index_none i l : i ∉ map f_index l -> of_index i l = [].
Proof using.
  induction l as [|c l IH]; [done|]. cbn. rewrite not_elem_of_cons. intros [H1 H2]. destruct (f_index c =? i) eqn:E; [apply Z.eqb_eq in E; congruence|by apply IH].
Qed.

Lemma kept_snoc l c i p q : kept_call l i p -> f_index c = i -> tc_id q = or_else (f_id c) (tc_id p) -> tc_name q = or_else (f_name c) (tc_name p) ->
  argument_parts q = match f_part c with Some a => argument_parts p ++ [a] | None => argument_parts p end -> kept_call (l ++ [c]) i q.
Proof using.
  intros (H1 & H2 & H3) <- E1 E2 E3. unfold kept_call. rewrite of_index_snoc, Z.eqb_refl, !map_app, omap_app. cbn [map]. rewrite !last_truthy_snoc.
  rewrite E1, E2, E3. unfold or_else. split; [by destruct (truthy (f_name c))|]. split; [cbn; destruct (f_part c); rewrite H2; by rewrite ?app_nil_r|].
  by destruct (truthy (f_id c)).
Qed.
Lemma kept_other l c i p : kept_call l i p -> f_index c <> i -> kept_call (l ++ [c]) i p.
Proof using. unfold kept_call. intros H Hne. rewrite of_index_snoc. by rewrite (proj2 (Z.eqb_neq _ _)). Qed.
Lemma new_call l i : i ∉ map f_index l -> forall n, kept_call l i (MkPending (JStr ("toolu_" +:+ String.substring 0 24 (fresh n))) (JStr "") []).
Proof using. intros H n. unfold kept_call. rewrite of_index_none by done. split; [done|]. split; [done|]. by exists n. Qed.

Lemma record_keeps l s c arguments : keeps_calls l (pending_tool_calls s) -> f_part c = nonempty arguments ->
  keeps_calls (l ++ [c]) (pending_tool_calls (_record_tool_call_delta fresh s (f_index c) (f_id c) (f_name c) arguments)).
Proof using.
  intros [Hn Hk Hc] Ha. unfold _record_tool_call_delta.
  assert (exists q, kept_call (l ++ [c]) (f_index c) q /\ pending_tool_calls (_record_tool_call_delta fresh s (f_index c) (f_id c) (f_name c) arguments) = pset (pending_tool_calls s) (f_index c) q) as (q & Hq & E).
  { unfold _record_tool_call_delta. rewrite <- Ha. destruct (pget (pending_tool_calls s) (f_index c)) as [p|] eqn:E.
    - eexists. split; [|reflexivity]. by eapply kept_snoc; [by apply Hc|..].
    - apply pget_none in E. rewrite Hk in E. pose proof (new_call l (f_index c) E (made s)) as Hnew. unfold id_or.
      destruct (truthy (f_id c)) eqn:Et; (eexists; split; [|reflexivity]); (eapply kept_snoc; [exact Hnew|done|..]); unfold or_else; by rewrite ?Et. }
  unfold _record_tool_call_delta in E. rewrite E. split.
  - by apply pset_nodup.
  - intros i. rewrite pset_keys, map_app, elem_of_app, Hk. cbn. rewrite list_elem_of_singleton. done.
  - intros i p. rewrite pget_pset. destruct (decide (i = f_index c)) as [->|Hne]; [by intros [= <-]|]. intros Hp. apply kept_other; [by apply Hc|congruence].
Qed.
Lemma calls_keep calls : forall l s, keeps_calls l (pending_tool_calls s) -> keeps_calls (l ++ omap call_fragment calls) (pending_tool_calls (foldl (one_call fresh) s calls)).
Proof using.
  induction calls as [|tc calls IH]; intros l s H; [by rewrite app_nil_r|]. cbn [foldl]. change (omap call_fragment (tc :: calls)) with
    (match call_fragment tc with Some c => c :: omap call_fragment calls | None => omap call_fragment calls end).
  unfold one_call, call_fragment at 1. destruct (is_dict tc); [|by apply IH]. destruct (as_int (jget_null tc "index")) as [i|]; [|by apply IH].
  set (c := MkFragment i (jget_null tc "id") (jget_null (or_dict (jget_null tc "function")) "name") (nonempty (jget_null (or_dict (jget_null tc "function")) "arguments"))).
  rewrite (cons_middle c), app_assoc. apply IH. by apply (record_keeps l s c).
Qed.

(** *** Their order *)

Lemma insert_call_perm x l : insert_call x l ≡ₚ x :: l.
Proof using. induction l as [|y l IH]; cbn; [done|]. destruct (fst x <=? fst y); [done|]. rewrite IH. apply Permutation_swap. Qed.
Lemma sorted_calls_perm l : sorted_calls l ≡ₚ l.
Proof using. induction l as [|x l IH]; cbn; [done|]. by rewrite insert_call_perm, IH. Qed.
Lemma insert_call_sorted x l : StronglySorted (fun a b : Z * PendingToolCall => fst a <= fst b) l -> StronglySorted (fun a b : Z * PendingToolCall => fst a <= fst b) (insert_call x l).
Proof using.
  induction 1 as [|y l Hl IH Hy]; cbn; [by repeat constructor|]. destruct (fst x <=? fst y) eqn:E.
  - apply Z.leb_le in E. constructor; [by constructor|]. constructor; [done|]. eapply Forall_impl; [exact Hy|]. cbn. intros. lia.
  - apply Z.leb_gt in E. constructor; [done|]. rewrite insert_call_perm. constructor; [lia|done].
Qed.
Lemma sorted_calls_sorted l : StronglySorted (fun a b : Z * PendingToolCall => fst a <= fst b) (sorted_calls l).
Proof using. induction l as [|x l IH]; cbn; [constructor|]. by apply insert_call_sorted. Qed.
Lemma sorted_keys (l : list (Z * PendingToolCall)) : StronglySorted (fun a b : Z * PendingToolCall => fst a <= fst b) l -> StronglySorted Z.le (map fst l).
Proof using. induction 1 as [|x l Hl IH Hx]; cbn; constructor; [done|]. rewrite Forall_map. exact Hx. Qed.

Lemma sorted_indices l pending : keeps_calls l pending -> map fst (sorted_calls pending) = indices l.
Proof using.
  intros [Hn Hk _]. apply (StronglySorted_unique Z.le).
  - apply sorted_keys, sorted_calls_sorted.
  - apply StronglySorted_merge_sort; intros ?; lia.
  - unfold indices. rewrite merge_sort_Permutation, sorted_calls_perm. apply NoDup_Permutation; [done|apply NoDup_remove_dups|].
    intros i. by rewrite elem_of_remove_dups, Hk.
Qed.

Definition block_of (p : PendingToolCall) : Block := ToolUse (tc_id p) (tc_name p) (joined (argument_parts p)).
Lemma pget_in l i p : NoDup (map fst l) -> (i, p) ∈ l -> pget l i = Some p.
Proof using.
  induction l as [|[j q] l IH]; cbn; [by intros _ ?%elem_of_nil|]. intros [H1 H2]%NoDup_cons [[= <- <-]|H]%elem_of_cons; [by rewrite decide_True|].
  rewrite decide_False; [by apply IH|]. intros ->. apply H1. apply list_elem_of_In, in_map_iff. exists (j, p). by rewrite <- list_elem_of_In.
Qed.
Lemma pending_blocks l pending : keeps_calls l pending -> Forall2 (is_call l) (indices l) (map (fun x => block_of (snd x)) (sorted_calls pending)).
Proof using.
  intros H. rewrite <- (sorted_indices l pending H). destruct H as [Hn _ Hc].
  assert (Forall (fun x => kept_call l (fst x) (snd x)) (sorted_calls pending)) as F.
  { rewrite sorted_calls_perm. apply Forall_forall. intros [i p] Hx. by apply Hc, pget_in. }
  induction F as [|[i p] k (H1 & H2 & H3) _ IH]; cbn; constructor; [|done]. cbn [fst snd] in *.
  exists (tc_id p). unfold block_of. by rewrite H1, H2.
Qed.

(** *** Reading *)

Lemma reads_app bs a b : foldl read bs (a ++ b) = foldl read (foldl read bs a) b.
Proof using. apply foldl_app. Qed.
(** The index of the open block is that of the last one read. *)
Definition at_end (s : StreamState) (bs : list Block) : Prop := open_index s = Z.of_nat (length bs) - 1.

Lemma read_close s bs : foldl read bs (fst (close_if_open s)) = bs /\ open_index (snd (close_if_open s)) = open_index s
  /\ pending_tool_calls (snd (close_if_open s)) = pending_tool_calls s /\ open_kind (snd (close_if_open s)) = None.
Proof using. unfold close_if_open. by destruct (open_kind s) eqn:E. Qed.
Lemma grow_last d bs b i : i = Z.of_nat (length bs) -> alter (grow d) (Z.to_nat i) (bs ++ [b]) = bs ++ [grow d b].
Proof using. intros ->. rewrite Nat2Z.id, alter_app_r_alt by lia. by rewrite Nat.sub_diag. Qed.
Lemma joined_cons x l : joined (x :: l) = x +:+ joined l.
Proof using. unfold joined. destruct l; [cbn; by rewrite append_nil_r|done]. Qed.

Lemma read_parts s bs id name parts : open_index s = Z.of_nat (length bs) -> forall a,
  foldl read (bs ++ [ToolUse id name a]) (map (fun x => delta_event s (JObj [("type", JStr "input_json_delta"); ("partial_json", JStr x)])) parts)
  = bs ++ [ToolUse id name (a +:+ joined parts)].
Proof using.
  intros Hi. induction parts as [|x parts IH]; intros a; [by rewrite append_nil_r|]. cbn [map foldl].
  change (read ?b (delta_event s ?d)) with (alter (grow d) (Z.to_nat (open_index s)) b). rewrite grow_last by done. cbn [grow]. rewrite IH. cbn [str_or_empty].
  by rewrite joined_cons, append_assoc.
Qed.
Lemma read_call s bs x : at_end s bs ->
  foldl read bs (fst (flush_call s x)) = bs ++ [block_of (snd x)] /\ at_end (snd (flush_call s x)) (bs ++ [block_of (snd x)]) /\ open_kind (snd (flush_call s x)) = None.
Proof using.
  unfold at_end. intros Hi. unfold flush_call. cbn [_open_block _close_block fst snd]. set (s1 := set_open _ _ s). split; [|split; [cbn; rewrite length_app; cbn; lia|done]].
  cbn [foldl]. rewrite reads_app. change (read bs (JObj _)) with (bs ++ [ToolUse (tc_id (snd x)) (tc_name (snd x)) ""]).
  rewrite (read_parts s1 bs) by (cbn; lia). reflexivity.
Qed.
Lemma read_calls l : forall s bs, at_end s bs -> open_kind s = None ->
  let bs' := bs ++ map (fun x => block_of (snd x)) l in
  foldl read bs (fst (flush_calls s l)) = bs' /\ at_end (snd (flush_calls s l)) bs' /\ open_kind (snd (flush_calls s l)) = None.
Proof using.
  induction l as [|x l IH]; intros s bs Hi Hk; cbn [flush_calls map]; [by rewrite app_nil_r|]. destruct (read_call s bs x Hi) as (E1 & I1 & K1).
  destruct (flush_call s x) as [a s1]. cbn [fst snd] in *. destruct (IH s1 _ I1 K1) as (E2 & I2 & K2). destruct (flush_calls s1 l) as [b s2]. cbn [fst snd] in *.
  rewrite cons_middle, app_assoc, reads_app, E1. done.
Qed.

(** *** What has been read, and what is pending *)

Definition open_of (rs : list Run) : option Kind :=
  match rs with RThink _ :: _ => Some KThinking | RSay _ :: _ => Some KText | _ => None end.
(** With calls at the end the blocks before them have been read, else all of them. *)
Definition status (rs : list Run) (s : StreamState) (bss : list (list Block)) : Prop :=
  match rs with
  | RCalls l :: rs => l <> [] /\ keeps_calls l (pending_tool_calls s) /\ Forall2 run_blocks (rev rs) bss
  | _ => pending_tool_calls s = [] /\ Forall2 run_blocks (rev rs) bss /\ open_kind s = open_of rs
  end.
Definition holds (rs : list Run) (s : StreamState) (bs : list Block) : Prop :=
  at_end s bs /\ exists bss, bs = concat bss /\ status rs s bss.
(** Nothing pending *)
Definition settled (rs : list Run) (s : StreamState) (bs : list Block) : Prop :=
  at_end s bs /\ pending_tool_calls s = [] /\ open_kind s = open_of rs /\ exists bss, bs = concat bss /\ Forall2 run_blocks (rev rs) bss.

Definition ends_calls (rs : list Run) : Prop := match rs with RCalls _ :: _ => True | _ => False end.
Lemma status_idle rs s bss : ~ ends_calls rs -> status rs s bss <-> pending_tool_calls s = [] /\ Forall2 run_blocks (rev rs) bss /\ open_kind s = open_of rs.
Proof using. intros H. destruct rs as [|[l|l|l] rs]; try done; by destruct H. Qed.
Lemma ends_dec rs : ends_calls rs \/ ~ ends_calls rs.
Proof using. destruct rs as [|[l|l|l] rs]; cbn; tauto. Qed.
Lemma read_flush rs s bs : holds rs s bs -> settled rs (snd (_flush_tool_calls s)) (foldl read bs (fst (_flush_tool_calls s))).
Proof using.
  intros (Hi & bss & Eb & H). unfold _flush_tool_calls. destruct (ends_dec rs) as [Hr|Hr]; cycle 1.
  { apply status_idle in H as (Ep & F & K); [|done]. rewrite Ep. cbn. split; [done|]. split; [done|]. split; [done|]. by exists bss. }
  destruct rs as [|[l|l|l] rs]; try done. destruct H as (Hne & Hc & F).
  destruct (pending_tool_calls s) as [|x calls] eqn:Ep.
  { exfalso. destruct l as [|c l]; [done|]. destruct Hc as [_ Hk _]. specialize (Hk (f_index c)). cbn in Hk. rewrite elem_of_nil, elem_of_cons in Hk. apply Hk. by left. }
  destruct (read_close s bs) as (E1 & I1 & _ & K1). destruct (close_if_open s) as [a s1]. cbn [fst snd] in *.
  assert (at_end s1 bs) as A1 by (unfold at_end in *; congruence). destruct (read_calls (sorted_calls (x :: calls)) s1 bs A1 K1) as (E2 & I2 & K2).
  destruct (flush_calls s1 (sorted_calls (x :: calls))) as [b s2]. cbn [fst snd] in *. rewrite reads_app, E1, E2.
  split; [exact I2|]. split; [done|]. split; [done|]. exists (bss ++ [map (fun x => block_of (snd x)) (sorted_calls (x :: calls))]). split; [by rewrite concat_app, Eb; cbn; rewrite app_nil_r|].
  cbn [rev]. apply Forall2_app; [done|]. constructor; [|done]. cbn [run_blocks]. by apply pending_blocks.
Qed.

Lemma read_say rs s bs k block delta : holds rs s bs ->
  exists bs1, (exists bss, bs1 = concat bss /\ Forall2 run_blocks (rev rs) bss)
    /\ foldl read bs (fst (say k block delta s)) = (if bool_decide (open_of rs = Some k) then alter (grow delta) (length bs1 - 1)%nat bs1 else bs1 ++ [grow delta (new_block block)])
    /\ at_end (snd (say k block delta s)) (foldl read bs (fst (say k block delta s)))
    /\ pending_tool_calls (snd (say k block delta s)) = [] /\ open_kind (snd (say k block delta s)) = Some k.
Proof using.
  intros H. apply read_flush in H as (Hi & Hp & Hk & Hb). unfold say. destruct (_flush_tool_calls s) as [a s1]. cbn [fst snd] in *. set (bs1 := foldl read bs a) in *.
  exists bs1. split; [done|]. rewrite <- Hk. case_bool_decide as Ho.
  - cbn [fst snd app]. rewrite reads_app. fold bs1. cbn [foldl]. change (read bs1 (delta_event s1 delta)) with (alter (grow delta) (Z.to_nat (open_index s1)) bs1).
    unfold at_end in *. replace (Z.to_nat (open_index s1)) with (length bs1 - 1)%nat by lia. split; [done|]. split; [by rewrite length_alter|done].
  - destruct (read_close s1 bs1) as (E2 & I2 & P2 & K2). destruct (close_if_open s1) as [c s2]. cbn [fst snd _open_block] in *. rewrite !reads_app. fold bs1. rewrite E2. cbn [foldl].
    change (read bs1 (JObj _)) with (bs1 ++ [new_block block]). set (s3 := set_open _ _ s2).
    change (read ?b (delta_event s3 delta)) with (alter (grow delta) (Z.to_nat (open_index s3)) b). unfold at_end in *. rewrite grow_last by (cbn; lia).
    split; [done|]. split; [rewrite length_app; cbn; lia|]. split; [|done]. cbn. congruence.
Qed.

Lemma held_open k rs s bss : open_of rs = Some k -> pending_tool_calls s = [] -> Forall2 run_blocks (rev rs) bss -> open_kind s = Some k -> status rs s bss.
Proof using. intros Ho Hp F Hk. apply status_idle; [intros E; by destruct rs as [|[l|l|l] rs]|]. by rewrite Ho. Qed.

(** One more fragment of text *)
Lemma holds_say (R : list string -> Run) (B : string -> Block) k rs s bs block delta t :
  (forall l bs, run_blocks (R l) bs <-> bs = [B (joined l)]) -> (forall l rs, open_of (R l :: rs) = Some k) ->
  (forall x, grow delta (B x) = B (x +:+ t)) -> new_block block = B "" ->
  holds rs s bs -> forall rs', (exists l rs0, rs = R l :: rs0 /\ rs' = R (l ++ [t]) :: rs0) \/ (open_of rs <> Some k /\ rs' = R [t] :: rs) ->
  holds rs' (snd (say k block delta s)) (foldl read bs (fst (say k block delta s))).
Proof using.
  intros HR Ho Hg Hb H rs' Hrs. destruct (read_say rs s bs k block delta H) as (bs1 & (bss & E1 & F) & E2 & I2 & P2 & K2).
  split; [exact I2|]. rewrite E2. destruct Hrs as [(l & rs0 & -> & ->)|[Hne ->]].
  - rewrite Ho, bool_decide_eq_true_2 by done. cbn [rev] in F. apply Forall2_app_inv_l in F as (bss0 & bss1 & F0 & F1 & ->).
    apply Forall2_cons_inv_l in F1 as (b & bss2 & Hb1 & F1 & ->). apply Forall2_nil_inv_l in F1 as ->. apply HR in Hb1 as ->.
    exists (bss0 ++ [[B (joined (l ++ [t]))]]). rewrite concat_app in E1. cbn in E1. subst bs1. rewrite length_app, concat_app. cbn [length concat app].
    split; [rewrite alter_app_r_alt by lia; replace (length (concat bss0) + 1 - 1 - length (concat bss0))%nat with 0%nat by lia; cbn; by rewrite Hg, joined_snoc|].
    refine (held_open k (R (l ++ [t]) :: rs0) _ (bss0 ++ [[B (joined (l ++ [t]))]]) (Ho _ _) P2 _ K2).
    cbn [rev]. apply Forall2_app; [done|]. constructor; [by apply HR|done].
  - rewrite bool_decide_eq_false_2 by done. exists (bss ++ [[B t]]). rewrite concat_app, Hb, Hg. cbn [concat app]. rewrite E1. split; [done|].
    refine (held_open k (R [t] :: rs) _ (bss ++ [[B t]]) (Ho _ _) P2 _ K2).
    cbn [rev]. apply Forall2_app; [done|]. constructor; [by apply HR|done].
Qed.
Lemma holds_think rs s bs t : holds rs s bs ->
  holds (add_fragment rs (FThink t)) (snd (say KThinking thinking_block (thinking_delta t) s)) (foldl read bs (fst (say KThinking thinking_block (thinking_delta t) s))).
Proof using.
  intros H. apply (holds_say RThink Thinking KThinking rs s bs thinking_block (thinking_delta t) t); try done. destruct rs as [|[l|l|l] rs]; [by right|left; by exists l, rs|by right..].
Qed.
Lemma holds_text rs s bs t : holds rs s bs ->
  holds (add_fragment rs (FSay t)) (snd (say KText text_block (text_delta t) s)) (foldl read bs (fst (say KText text_block (text_delta t) s))).
Proof using.
  intros H. apply (holds_say RSay Text KText rs s bs text_block (text_delta t) t); try done. destruct rs as [|[l|l|l] rs]; [by right|by right|left; by exists l, rs|by right].
Qed.

(** The calls of a chunk *)
Lemma calls_keep_open calls s : open_index (foldl (one_call fresh) s calls) = open_index s /\ open_kind (foldl (one_call fresh) s calls) = open_kind s.
Proof using.
  revert s. induction calls as [|tc l IH]; intros s; [done|]. cbn [foldl]. destruct (IH (one_call fresh s tc)) as [-> ->]. unfold one_call. destruct (is_dict tc); [|done].
  destruct (as_int _); [|done]. split; apply (record_same fresh).
Qed.
Lemma add_calls cs : forall l rs, foldl add_fragment (RCalls l :: rs) (map FCall cs) = RCalls (l ++ cs) :: rs.
Proof using. induction cs as [|c cs IH]; intros l rs; [by rewrite app_nil_r|]. cbn [map foldl add_fragment]. rewrite IH. by rewrite <- app_assoc. Qed.
Lemma add_first_calls c cs rs : ~ ends_calls rs -> foldl add_fragment rs (map FCall (c :: cs)) = RCalls (c :: cs) :: rs.
Proof using. intros H. cbn [map foldl]. replace (add_fragment rs (FCall c)) with (RCalls [c] :: rs) by (destruct rs as [|[l|l|l] rs]; try done; by destruct H). apply add_calls. Qed.
Lemma no_calls pending : keeps_calls [] pending -> pending = [].
Proof using. intros [_ Hk _]. destruct pending as [|x l]; [done|]. specialize (Hk (fst x)). cbn in Hk. rewrite elem_of_cons, elem_of_nil in Hk. exfalso. apply Hk. by left. Qed.

Lemma holds_calls rs s bs calls : holds rs s bs -> holds (foldl add_fragment rs (map FCall (omap call_fragment calls))) (foldl (one_call fresh) s calls) bs.
Proof using.
  intros (Hi & bss & Eb & H). destruct (calls_keep_open calls s) as [Ei Ek]. split; [unfold at_end in *; by rewrite Ei|]. exists bss. split; [done|].
  destruct (ends_dec rs) as [Hr|Hr].
  - destruct rs as [|[l|l|l] rs]; try done. destruct H as (Hne & Kc & F). rewrite add_calls. split; [by destruct l|]. split; [by apply calls_keep|done].
  - apply status_idle in H as (Ep & F & K); [|done]. assert (keeps_calls [] (pending_tool_calls s)) as K0 by (rewrite Ep; split; [apply NoDup_nil_2|done|done]).
    pose proof (calls_keep calls [] s K0) as Kc. cbn [app] in Kc. destruct (omap call_fragment calls) as [|c cs].
    + cbn [map foldl]. apply status_idle; [done|]. split; [by apply no_calls|]. split; [done|congruence].
    + rewrite add_first_calls by done. by split.
Qed.

(** *** A chunk, and the stream *)

(** The rest of the state does not matter. *)
Lemma holds_same rs s s' bs : holds rs s bs -> open_index s' = open_index s -> open_kind s' = open_kind s -> pending_tool_calls s' = pending_tool_calls s -> holds rs s' bs.
Proof using.
  intros (Hi & bss & Eb & H) E1 E2 E3. split; [unfold at_end in *; congruence|]. exists bss. split; [done|]. by destruct rs as [|[l|l|l] rs]; cbn in *; rewrite ?E2, E3.
Qed.
Lemma read_usage_same chunk s : open_index (read_usage chunk s) = open_index s /\ open_kind (read_usage chunk s) = open_kind s
  /\ pending_tool_calls (read_usage chunk s) = pending_tool_calls s.
Proof using. done. Qed.
Lemma read_message_start bs s : foldl read bs [_message_start_event fresh model s] = bs.
Proof using. done. Qed.

Lemma holds_opt k (mk : string -> Fragment) block delta rs s bs (o : option string) :
  (forall rs s bs t, holds rs s bs -> holds (add_fragment rs (mk t)) (snd (say k block (delta t) s)) (foldl read bs (fst (say k block (delta t) s)))) ->
  holds rs s bs ->
  let r := match o with Some t => say k block (delta t) s | None => ([], s) end in
  holds (foldl add_fragment rs (map mk (option_list o))) (snd r) (foldl read bs (fst r)).
Proof using. intros Hs H. destruct o as [t|]; [by apply Hs|done]. Qed.

Lemma holds_chunk rs s bs chunk s' : holds rs s bs -> snd (on_chunk fresh model s chunk) = Ok s' ->
  holds (foldl add_fragment rs (fragments chunk)) s' (foldl read bs (fst (on_chunk fresh model s chunk))).
Proof using.
  intros H E. unfold on_chunk in *. destruct (negb (is_dict chunk)); [done|]. unfold fragments.
  assert (holds rs (read_usage chunk s) bs) as H0 by (by eapply holds_same; [exact H|..]). set (s0 := read_usage chunk s) in *. clearbody s0.
  destruct (first_choice chunk) as [[choice|]|e]; [|by injection E as <-|done].
  set (delta := let d := or_dict (jget_null choice "delta") in if is_dict d then d else JObj []) in *. clearbody delta.
  set (r1 := if started s0 then ([], s0) else ([_message_start_event fresh model s0], set_started s0)) in *.
  assert (holds rs (snd r1) (foldl read bs (fst r1))) as H1 by (unfold r1; by destruct (started s0)). destruct r1 as [a s1]. cbn [fst snd] in *.
  pose proof (holds_opt KThinking FThink thinking_block thinking_delta rs s1 (foldl read bs a) (nonempty (jget_null delta "reasoning_content")) holds_think H1) as H2. cbv zeta in H2.
  destruct (match nonempty (jget_null delta "reasoning_content") with Some t => say KThinking thinking_block (thinking_delta t) s1 | None => ([], s1) end) as [b s2]. cbn [fst snd] in H2.
  pose proof (holds_opt KText FSay text_block text_delta _ s2 _ (nonempty (jget_null delta "content")) holds_text H2) as H3. cbv zeta in H3.
  destruct (match nonempty (jget_null delta "content") with Some t => say KText text_block (text_delta t) s2 | None => ([], s2) end) as [c s3]. cbn [fst snd] in H3.
  destruct (items (or_else (jget_null delta "tool_calls") (JArr []))) as [calls|e]; [|done]. cbn [fst snd] in *. injection E as <-.
  apply (holds_calls _ s3 _ calls) in H3. rewrite !foldl_app. by destruct (nonempty (jget_null choice "finish_reason")).
Qed.
Lemma holds_chunks l : forall rs s bs s', holds rs s bs -> snd (on_chunks fresh model s l) = Ok s' ->
  holds (foldl add_fragment rs (flat_map fragments l)) s' (foldl read bs (fst (on_chunks fresh model s l))).
Proof using.
  induction l as [|chunk l IH]; intros rs s bs s' H E; [by injection E as <-|]. cbn [on_chunks flat_map] in *. pose proof (holds_chunk rs s bs chunk) as Hc.
  destruct (on_chunk fresh model s chunk) as [a [s1|e]]; [|done]. specialize (Hc s1 H eq_refl). specialize (IH _ _ _ s' Hc).
  destruct (on_chunks fresh model s1 l) as [b r]. cbn [fst snd] in *. rewrite !foldl_app. by apply IH.
Qed.
Lemma read_finish rs s bs : holds rs s bs -> exists bss, foldl read bs (finish_stream fresh model s) = concat bss /\ Forall2 run_blocks (rev rs) bss.
Proof using.
  intros H. unfold finish_stream. set (r1 := if started s then ([], s) else ([_message_start_event fresh model s], set_started s)) in *.
  assert (holds rs (snd r1) (foldl read bs (fst r1))) as H1 by (unfold r1; by destruct (started s)). destruct r1 as [a s1]. cbn [fst snd] in *.
  apply read_flush in H1 as (_ & _ & _ & bss & E1 & F). destruct (_flush_tool_calls s1) as [b s2]. cbn [fst snd] in *.
  destruct (read_close s2 (concat bss)) as (E2 & _). destruct (close_if_open s2) as [c s3]. cbn [fst snd] in *. exists bss. split; [|done].
  rewrite !foldl_app, E1, E2. done.
Qed.
End blocks.

Lemma stream_blocks fresh model l out : openai_stream_to_anthropic_events fresh model l = (out, None) ->
  exists bss, assemble out = concat bss /\ Forall2 (run_blocks fresh) (runs (flat_map fragments l)) bss.
Proof.
  unfold openai_stream_to_anthropic_events, assemble, runs. pose proof (holds_chunks fresh model l [] state0 []) as Hc.
  destruct (on_chunks fresh model state0 l) as [a [s|e]]; [|done]. intros [= <-]. cbn [fst snd] in Hc. rewrite foldl_app.
  apply (read_finish fresh model). apply Hc; [|done]. split; [done|]. by exists [].
Qed.

(** C24. A reader who assembles the Anthropic events of a stream (a block for each
    [content_block_start], grown by the deltas of its index) gets the blocks the upstream's
    fragments say: the fragments of all chunks, in order, fall into runs of one kind; a run of
    reasoning is one thinking block and a run of content one text block with all its text; a run
    of tool-call fragments, however the calls are interleaved in it, is one [tool_use] block for
    each index, in the order of the indices, each with the last id and the last name it was given
    and exactly its own arguments in their order. Nothing is lost, repeated or put in another
    block. *)
Theorem bridge_blocks fresh model l out : openai_stream_to_anthropic_events fresh model l = (out, None) ->
  exists bss, assemble out = concat bss /\ Forall2 (run_blocks fresh) (runs (flat_map fragments l)) bss.
Proof. apply stream_blocks. Qed.

(** Two calls whose arguments come interleaved, after some text *)
Definition chunk_of (delta : list (string * Json)) : Json := JObj [("choices", JArr [JObj [("delta", JObj delta)]])].
Definition call_delta (i : Z) (id name arguments : string) : Json :=
  JObj [("index", JInt i); ("id", JStr id); ("function", JObj [("name", JStr name); ("arguments", JStr arguments)])].
Definition interleaved : list Json :=
  [chunk_of [("content", JStr "Let me ")]; chunk_of [("content", JStr "look.")];
   chunk_of [("tool_calls", JArr [call_delta 1 "b" "Read" ""; call_delta 0 "a" "Bash" "{1"])];
   chunk_of [("tool_calls", JArr [call_delta 1 "" "" "{2"; call_delta 0 "" "" "}"; call_delta 1 "" "" "}"])]].
Definition made_up (n : nat) : string := "0123456789abcdef0123456789abcdef".
Definition interleaved_blocks : list Block := [Text "Let me look."; ToolUse (JStr "a") (JStr "Bash") "{1}"; ToolUse (JStr "b") (JStr "Read") "{2}"].

Definition interleaved_events : list Json := Eval vm_compute in fst (openai_stream_to_anthropic_events made_up "m" interleaved).
Lemma bridge_blocks_witness :
  assemble interleaved_events = interleaved_blocks /\ openai_stream_to_anthropic_events made_up "m" interleaved = (interleaved_events, None)
  /\ exists bss, assemble interleaved_events = concat bss /\ Forall2 (run_blocks made_up) (runs (flat_map fragments interleaved)) bss.
Proof.
  assert (openai_stream_to_anthropic_events made_up "m" interleaved = (interleaved_events, None)) as H by (vm_compute; reflexivity).
  split; [vm_compute; reflexivity|]. split; [exact H|]. exact (bridge_blocks made_up "m" interleaved interleaved_events H).
Defined.

(** A late piece of a call that text has flushed becomes a call of its own, with no name and an
    id made up. *)
Example late_arguments :
  assemble (fst (openai_stream_to_anthropic_events made_up "m"
    [chunk_of [("tool_calls", JArr [call_delta 0 "a" "Bash" "{1"])]; chunk_of [("content", JStr "hm")]; chunk_of [("tool_calls", JArr [call_delta 0 "" "" "}"])]]))
  = [ToolUse (JStr "a") (JStr "Bash") "{1"; Text "hm"; ToolUse (JStr "toolu_0123456789abcdef01234567") (JStr "") "}"].
Proof. vm_compute. reflexivity. Qed.
