(* ===== verification/BridgeAnswer.v ===== *)
(** The two directions of the bridge's answers agree: what a reader assembles from a stream
    ([BridgeBlocks]) is what the whole answer of the same message is translated to. *)

From S2P Require Import Prelude Json Raise StreamSanitizer Bridge BridgeLaws BridgeBlocks.

(** ** The message whose pieces were streamed *)

(** A call as a whole answer carries it: its last id, its last name, all its arguments *)
Definition whole_call (l : list CallFragment) (i : Z) : Json :=
  JObj [("id", default JNull (last_truthy (map f_id (of_index i l)))); ("type", JStr "function");
        ("function", JObj [("name", default (JStr "") (last_truthy (map f_name (of_index i l))));
                           ("arguments", JStr (joined (omap f_part (of_index i l))))])].
Definition whole_message (thoughts texts : list string) (calls : list CallFragment) : Json :=
  JObj [("role", JStr "assistant"); ("reasoning_content", JStr (joined thoughts)); ("content", JStr (joined texts));
        ("tool_calls", JArr (map (whole_call calls) (indices calls)))].
Definition whole_body (message : Json) : Json := JObj [("choices", JArr [JObj [("message", message)]])].

(** The input of a call: its arguments parsed, [{}] where there are none. An empty object stands
    for what is not JSON; whatever else parsing raises ([ValueError] for an integer of too many
    digits, say) is raised. *)
Definition input_of (json_loads : string -> result Exn Json) (a : string) : result Exn Json :=
  match json_loads (if bool_decide (a = "") then "{}" else a) with
  | Err JSONDecodeError | Err Raise.TypeError => Ok (JObj [])
  | r => r
  end.
(** The content block of an assembled one, and those of a list: the first that raises *)
Definition content_block (json_loads : string -> result Exn Json) (b : Block) : result Exn Json :=
  match b with
  | Thinking t => Ok (JObj [("type", JStr "thinking"); ("thinking", JStr t)])
  | Text t => Ok (JObj [("type", JStr "text"); ("text", JStr t)])
  | ToolUse id name a => let! input := input_of json_loads a in
      Ok (JObj [("type", JStr "tool_use"); ("id", id); ("name", name); ("input", input)])
  end.
Fixpoint contents (json_loads : string -> result Exn Json) (l : list Block) : result Exn (list Json) :=
  match l with
  | [] => Ok []
  | b :: l => let! v := content_block json_loads b in let! vs := contents json_loads l in Ok (v :: vs)
  end.

Section answer.
Context (json_loads : string -> result Exn Json) (fresh : nat -> string) (model : string).

(** *** The runs of a message in order *)

Definition said (f : Fragment) : Prop := match f with FThink t | FSay t => t <> "" | FCall _ => True end.
Lemma nonempty_some v t : nonempty v = Some t -> t <> "".
Proof using. destruct v; cbn; try done. case_bool_decide; [done|]. by intros [= <-]. Qed.
Lemma nonempty_list v (mk : string -> Fragment) : (forall t, t <> "" -> said (mk t)) -> Forall said (map mk (option_list (nonempty v))).
Proof using. intros H. destruct (nonempty v) as [t|] eqn:E; cbn; constructor; [|constructor]. apply H. by eapply nonempty_some. Qed.
Lemma fragments_said chunk : Forall said (fragments chunk).
Proof using.
  unfold fragments. destruct (first_choice chunk) as [[choice|]|]; try constructor. rewrite !Forall_app. split; [by apply nonempty_list|]. split; [by apply nonempty_list|].
  apply Forall_map, Forall_true. done.
Qed.
Lemma all_said l : Forall said (flat_map fragments l).
Proof using. induction l as [|c l IH]; [constructor|]. cbn. apply Forall_app. split; [apply fragments_said|done]. Qed.

(** A run of one kind, where there is any of it *)
Definition some_run {A} (R : list A -> Run) (l : list A) : list Run := match l with [] => [] | _ => [R l] end.
Lemma add_run {A} (R : list A -> Run) (mk : A -> Fragment) (is_run : Run -> bool) :
  (forall l x rs, add_fragment (R l :: rs) (mk x) = R (l ++ [x]) :: rs) ->
  (forall x rs, match rs with r :: _ => is_run r = false | [] => True end -> add_fragment rs (mk x) = R [x] :: rs) ->
  forall l rs, match rs with r :: _ => is_run r = false | [] => True end -> foldl add_fragment rs (map mk l) = rev (some_run R l) ++ rs.
Proof using.
  intros Hmore Hnew l rs Hr. assert (forall l k, foldl add_fragment (R k :: rs) (map mk l) = R (k ++ l) :: rs) as H.
  { clear - Hmore. induction l as [|x l IH]; intros k; [by rewrite app_nil_r|]. cbn [map foldl]. by rewrite Hmore, IH, <- app_assoc. }
  destruct l as [|x l]; [done|]. cbn [map foldl some_run rev app]. rewrite Hnew by done. apply (H l [x]).
Qed.
Definition is_think (r : Run) : bool := match r with RThink _ => true | _ => false end.
Definition is_say (r : Run) : bool := match r with RSay _ => true | _ => false end.
Definition is_calls (r : Run) : bool := match r with RCalls _ => true | _ => false end.

Lemma ordered_runs thoughts texts calls :
  runs (map FThink thoughts ++ map FSay texts ++ map FCall calls) = some_run RThink thoughts ++ some_run RSay texts ++ some_run RCalls calls.
Proof using.
  unfold runs. rewrite !foldl_app.
  rewrite (add_run RThink FThink is_think); [|done|by intros x [|[] rs]|done].
  rewrite (add_run RSay FSay is_say); [|done|by intros x [|[] rs]|by destruct thoughts].
  rewrite (add_run RCalls FCall is_calls); [|done|by intros x [|[] rs]|by destruct texts, thoughts].
  by rewrite app_nil_r, !rev_app_distr, !rev_involutive, <- app_assoc.
Qed.

(** *** The whole answer's blocks *)

Lemma last_truthy_some l v : last_truthy l = Some v -> truthy v = true.
Proof using. induction l as [|x l IH] using rev_ind; [done|]. rewrite last_truthy_snoc. destruct (truthy x) eqn:E; [by intros [= <-]|done]. Qed.
Lemma or_else_default o : (forall v : Json, o = Some v -> truthy v = true) -> or_else (default (JStr "") o) (JStr "") = default (JStr "") o.
Proof using. intros H. destruct o as [v|]; [|done]. unfold or_else. cbn. by rewrite H. Qed.
Lemma loaded_input a : loaded json_loads (or_else (JStr a) (JStr "{}")) = input_of json_loads a.
Proof using.
  unfold or_else, input_of, loaded. cbn [truthy]. destruct (bool_decide (a = "")); cbn [negb]; by destruct (json_loads _) as [v|[]].
Qed.

Lemma whole_calls calls ks bs n : Forall (fun i => is_Some (last_truthy (map f_id (of_index i calls)))) ks -> Forall2 (is_call fresh calls) ks bs ->
  answer_calls json_loads fresh n (map (whole_call calls) ks) = let! l := contents json_loads bs in Ok (l, n).
Proof using.
  intros Hid H. induction H as [|i b ks bs (id & -> & Hi) _ IH]; [done|]. inversion Hid as [|? ? [k Ek] Hids]. subst.
  rewrite Ek in Hi. subst id. cbn [map]. unfold whole_call at 1. rewrite Ek. cbn [answer_calls is_dict].
  change (or_dict (jget_null (JObj _) "function")) with (JObj [("name", default (JStr "") (last_truthy (map f_name (of_index i calls)))); ("arguments", JStr (joined (omap f_part (of_index i calls))))]).
  cbn [get_or get result_bind]. change (default JNull (dict_get _ "arguments")) with (JStr (joined (omap f_part (of_index i calls)))). rewrite loaded_input.
  cbn [contents content_block]. destruct (input_of json_loads _) as [v|e]; [|done]. cbn [result_bind].
  change (jget_null (JObj _) "id") with k. unfold id_or. rewrite (last_truthy_some _ _ Ek), IH by done. destruct (contents json_loads bs) as [vs|e]; [|done]. cbn [result_bind].
  change (jget_null (JObj _) "name") with (default (JStr "") (last_truthy (map f_name (of_index i calls)))). by rewrite or_else_default by apply last_truthy_some.
Qed.
Lemma contents_app l1 l2 : contents json_loads (l1 ++ l2) = let! a := contents json_loads l1 in let! b := contents json_loads l2 in Ok (a ++ b).
Proof using.
  induction l1 as [|b l1 IH]; cbn [app contents result_bind]; [by destruct (contents json_loads l2)|]. destruct (content_block json_loads b) as [v|e]; [|done]. cbn [result_bind].
  rewrite IH. destruct (contents json_loads l1); [|done]. by destruct (contents json_loads l2).
Qed.
Lemma joined_said l : Forall (fun t => t <> "") l -> nonempty (JStr (joined l)) = match l with [] => None | _ => Some (joined l) end.
Proof using.
  intros [|t l' Ht _]; [done|]. cbn [nonempty]. rewrite bool_decide_eq_false_2; [done|]. rewrite joined_cons. by destruct t.
Qed.
Lemma some_run_blocks {A} (R : list A -> Run) (l : list A) (b : list A -> Block) bss : (forall bs, run_blocks fresh (R l) bs -> bs = [b l]) ->
  Forall2 (run_blocks fresh) (some_run R l) bss -> concat bss = match l with [] => [] | _ => [b l] end.
Proof using.
  intros H F. destruct l as [|x l]; cbn in F; [by apply Forall2_nil_inv_l in F as ->|]. apply Forall2_cons_inv_l in F as (bs & bss' & H1 & F & ->).
  apply Forall2_nil_inv_l in F as ->. by rewrite (H _ H1).
Qed.
Lemma some_calls_blocks calls bss : Forall2 (run_blocks fresh) (some_run RCalls calls) bss -> Forall2 (is_call fresh calls) (indices calls) (concat bss).
Proof using.
  intros F. destruct calls as [|c calls]; cbn [some_run] in F; [apply Forall2_nil_inv_l in F as ->; constructor|].
  apply Forall2_cons_inv_l in F as (bs & bss' & H1 & F & ->). apply Forall2_nil_inv_l in F as ->. cbn [concat]. by rewrite app_nil_r.
Qed.
Lemma ordered_said thoughts texts calls l : flat_map fragments l = map FThink thoughts ++ map FSay texts ++ map FCall calls ->
  Forall (fun t => t <> "") thoughts /\ Forall (fun t => t <> "") texts.
Proof using. intros E. pose proof (all_said l) as H. rewrite E, !Forall_app, !Forall_map in H. destruct H as (Ht & Hx & _). by split. Qed.

(** What the translation of a whole answer says of its content, or raises *)
Definition has_content (answer : result Exn Json) (r : result Exn (list Json)) : Prop :=
  match r with
  | Ok l => exists body, answer = Ok body /\ jget_null body "content" = JArr l
  | Err e => answer = Err e
  end.
Lemma whole_content thoughts texts calls (r : result Exn (list Json)) :
  answer_calls json_loads fresh 0 (map (whole_call calls) (indices calls)) = (let! l := r in Ok (l, 0%nat)) ->
  has_content (openai_response_to_anthropic_body json_loads fresh (whole_body (whole_message thoughts texts calls)))
    (let! blocks := r in Ok (match nonempty (JStr (joined thoughts)) with Some t => [JObj [("type", JStr "thinking"); ("thinking", JStr t)]] | None => [] end
       ++ match nonempty (JStr (joined texts)) with Some t => [JObj [("type", JStr "text"); ("text", JStr t)]] | None => [] end ++ blocks)).
Proof using.
  intros E. unfold openai_response_to_anthropic_body, whole_body. change (first_of_choices (JObj _)) with (Ok (E := Exn) (JObj [("message", whole_message thoughts texts calls)])).
  cbn [result_bind]. change (get_or (JObj []) (JObj [("message", ?m)]) "message") with (Ok (E := Exn) m). cbn [result_bind].
  change (get_or JNull (whole_message _ _ _) "reasoning_content") with (Ok (E := Exn) (JStr (joined thoughts))). cbn [result_bind].
  replace (items (or_else (jget_null (whole_message thoughts texts calls) "tool_calls") (JArr []))) with (Ok (E := Exn) (map (whole_call calls) (indices calls))) by (cbn; by destruct (map _ _)).
  cbn [result_bind]. rewrite E. destruct r as [blocks|e]; [|done]. cbn [result_bind]. eexists. split; reflexivity.
Qed.

Lemma answer_agrees l out thoughts texts calls : openai_stream_to_anthropic_events fresh model l = (out, None) ->
  flat_map fragments l = map FThink thoughts ++ map FSay texts ++ map FCall calls ->
  Forall (fun i => is_Some (last_truthy (map f_id (of_index i calls)))) (indices calls) ->
  has_content (openai_response_to_anthropic_body json_loads fresh (whole_body (whole_message thoughts texts calls))) (contents json_loads (assemble out)).
Proof using.
  intros Hs Hf Hid. destruct (ordered_said _ _ _ _ Hf) as [Ht Hx]. destruct (stream_blocks _ _ _ _ Hs) as (bss & -> & F). rewrite Hf, ordered_runs in F.
  apply Forall2_app_inv_l in F as (b1 & bss' & F1 & F & ->). apply Forall2_app_inv_l in F as (b2 & b3 & F2 & F3 & ->).
  apply some_calls_blocks in F3. pose proof (whole_content thoughts texts calls _ (whole_calls calls _ _ 0 Hid F3)) as W.
  rewrite !concat_app, !contents_app. rewrite !joined_said in W by done.
  rewrite (some_run_blocks RThink thoughts (fun l => Thinking (joined l)) b1), (some_run_blocks RSay texts (fun l => Text (joined l)) b2); [|by intros bs ->|done|by intros bs ->|done].
  destruct (contents json_loads (concat b3)) as [vs|e], thoughts, texts; exact W.
Qed.
End answer.

(** C26. The two directions of an answer agree. When the fragments of a stream come in the order
    of a message (the reasoning, then the content, then the calls, themselves interleaved in any
    way and cut into pieces in any way), every call is given an id and the stream is translated
    to its end, what a reader assembles from the translated events is, block by block, the
    content of [openai_response_to_anthropic_body] on the whole answer of the same message: one
    thinking block and one text block where there is any, then the calls in the order of their
    indices with their ids, names and arguments, parsed, an empty object where there are none or
    they are not JSON. Where parsing the arguments of an assembled call raises anything but
    [JSONDecodeError], the translation of the whole answer raises that, of the first such call,
    and nothing else makes it raise. *)
Theorem stream_is_the_answer json_loads fresh model l out thoughts texts calls :
  openai_stream_to_anthropic_events fresh model l = (out, None) ->
  flat_map fragments l = map FThink thoughts ++ map FSay texts ++ map FCall calls ->
  Forall (fun i => is_Some (last_truthy (map f_id (of_index i calls)))) (indices calls) ->
  match contents json_loads (assemble out) with
  | Ok blocks => exists body, openai_response_to_anthropic_body json_loads fresh (whole_body (whole_message thoughts texts calls)) = Ok body
      /\ jget_null body "content" = JArr blocks
  | Err e => openai_response_to_anthropic_body json_loads fresh (whole_body (whole_message thoughts texts calls)) = Err e
  end.
Proof. apply answer_agrees. Qed.

Definition braces (s : string) : result Exn Json :=
  if bool_decide (s = "{1}") then Ok (JObj [("one", JInt 1)]) else if bool_decide (s = "{}") then Ok (JObj []) else Err JSONDecodeError.
Definition streamed_calls : list CallFragment :=
  Eval vm_compute in omap (fun f => match f with FCall c => Some c | _ => None end) (flat_map fragments interleaved).
Definition streamed_blocks : list Json := Eval vm_compute in match contents braces (assemble interleaved_events) with Ok l => l | Err _ => [] end.
Lemma stream_is_the_answer_witness : length streamed_blocks = 3%nat /\ exists body,
  openai_response_to_anthropic_body braces made_up (whole_body (whole_message [] ["Let me "; "look."] streamed_calls)) = Ok body
  /\ jget_null body "content" = JArr streamed_blocks.
Proof.
  split; [vm_compute; reflexivity|].
  refine (stream_is_the_answer braces made_up "m" interleaved interleaved_events [] ["Let me "; "look."] streamed_calls _ _ _).
  - vm_compute. reflexivity.
  - vm_compute. reflexivity.
  - replace (indices streamed_calls) with [0; 1] by (vm_compute; reflexivity). repeat constructor; vm_compute; eexists; reflexivity.
Defined.

(** Arguments with an integer of too many digits make the whole answer raise, where the stream
    passes them on. *)
Definition too_long (s : string) : result Exn Json := Err ValueError.
Example whole_answer_raises :
  openai_response_to_anthropic_body too_long made_up (whole_body (whole_message [] ["Let me "; "look."] streamed_calls)) = Err ValueError
  /\ contents too_long (assemble interleaved_events) = Err ValueError /\ snd (openai_stream_to_anthropic_events made_up "m" interleaved) = None.
Proof. split; [|split]; vm_compute; reflexivity. Qed.
