(* ===== verification/Proxy.v ===== *)
(** The route [POST /v1/messages] ([src/src/sanitizer/routes.py]) and its configuration
    ([src/src/sanitizer/config.py]): the frames it reads and writes, the headers it passes, and
    the whole handler, with what it sends and closes.

    The HTTP client is a parameter: what the upstream answers to a request, or that it fails.
    [json_loads], [json_dumps] (with the separators of [_format_sse]), [dumps_plain] and [dumps]
    are Python's, [str] is [str(v)]. *)

From S2P Require Import Prelude Json Raise StreamSanitizer Bridge.
From S2P Require Gate.

(** ** SSE lines ([routes.py]) *)

Section sse.
Context (json_loads : string -> result Exn Json) (json_dumps : Json -> string).

(** [line.rstrip("\r")] *)
Fixpoint rstrip_cr (t : list Ascii.ascii) : list Ascii.ascii :=
  match t with
  | [] => []
  | c :: t => match rstrip_cr t with [] => if Ascii.eqb c (Ascii.ascii_of_nat 13) then [] else [c] | t => c :: t end
  end.
Definition line_of (raw : string) : string := String.string_of_list_ascii (rstrip_cr (String.list_ascii_of_string raw)).
Definition newline_text : string := String (Ascii.ascii_of_nat 10) EmptyString.

(** The event of a frame's data lines, or what reading it raises: only text that is not JSON and
    values that are not objects are skipped. [done] is the payload that carries no event. *)
Definition frame_event (done : option string) (data_lines : list string) : result Exn (list Json) :=
  let payload := String.concat newline_text data_lines in
  if bool_decide (done = Some (strip payload)) then Ok []
  else match json_loads payload with
       | Ok (JObj d) => Ok [JObj d]
       | Ok _ | Err JSONDecodeError => Ok []
       | Err e => Err e
       end.
(** [_iter_sse_events(response)] and [_iter_openai_sse_chunks(response)] on the response's lines: what
    they yield, and whether they come to their end. They do not where reading the lines fails
    after those given ([ended] is [false]) and where reading a frame raises. *)
Fixpoint sse_from (done : option string) (ended : bool) (data_lines : list string) (lines : list string) : list Json * bool :=
  match lines with
  | [] =>
      match data_lines with
      | [] => ([], ended)
      | _ => if ended then match frame_event done data_lines with Ok evts => (evts, true) | Err _ => ([], false) end else ([], false)
      end
  | raw :: lines =>
      let line := line_of raw in
      if bool_decide (line = "") then
        match data_lines with
        | [] => sse_from done ended [] lines
        | _ =>
            match frame_event done data_lines with
            | Ok evts => let (rest, whole) := sse_from done ended [] lines in (evts ++ rest, whole)
            | Err _ => ([], false)
            end
        end
      else match strip_prefix "data:" line with
           | Some rest => sse_from done ended (data_lines ++ [lstrip rest]) lines
           | None => sse_from done ended data_lines lines
           end
  end.
Definition _iter_sse_events (ended : bool) : list string -> list Json * bool := sse_from None ended [].
Definition _iter_openai_sse_chunks (ended : bool) : list string -> list Json * bool := sse_from (Some "[DONE]") ended [].

(** [_format_sse(evt)] *)
Definition _format_sse (str : Json -> string) (evt : Json) : string :=
  "event: " +:+ str (default (JStr "message") (jget evt "type")) +:+ newline_text +:+ "data: " +:+ json_dumps evt +:+ newline_text +:+ newline_text.
End sse.

(** *** Headers and callers *)

Definition _HOP_BY_HOP : list string :=
  ["host"; "content-length"; "transfer-encoding"; "connection"; "keep-alive"; "proxy-authenticate"; "proxy-authorization"; "te"; "trailers"; "upgrade"].
Definition _DROP_FROM_REQUEST : list string := _HOP_BY_HOP ++ ["accept-encoding"].
Definition _DROP_FROM_EXTERNAL_REQUEST : list string := _DROP_FROM_REQUEST ++ ["authorization"].
Definition _DROP_FROM_RESPONSE : list string := _HOP_BY_HOP ++ ["content-encoding"].
(** [_filter_headers(items, drop)]: a dictionary of the spellings *)
Definition _filter_headers (items : list (string * string)) (drop : list string) : odict string string :=
  foldl (fun d kv => if bool_decide (lower (fst kv) ∈ drop) then d else dict_set d (fst kv) (snd kv)) [] items.
Definition _is_loopback_request (client_host : option string) : bool := bool_decide (default "" client_host ∈ ["127.0.0.1"; "::1"; "localhost"]).

(** ** Configuration *)

Record Config := MkConfig {
  toggle : bool;                    (* runtime_config.get("sanitizer_enabled") *)
  base_url : option string;         (* ANTHROPIC_BASE_URL *)
  use_openai_bridge : bool;         (* SANITIZER_USE_OPENAI_BRIDGE *)
}.
Inductive Raised := HTTPException (status : Z) (detail : string) | RaisedExn (e : Exn) | RaisedGate (e : Gate.GateError) | RaisedRuntimeError | TransportError.

(** [s.rstrip("/")] *)
Fixpoint rstrip_slash (t : list Ascii.ascii) : list Ascii.ascii :=
  match t with
  | [] => []
  | c :: t => match rstrip_slash t with [] => if Ascii.eqb c (Ascii.ascii_of_nat 47) then [] else [c] | t => c :: t end
  end.
Definition has_upstream_url (c : Config) : bool :=
  match base_url c with Some raw => negb (bool_decide (strip raw = "")) | None => false end.
Definition get_upstream_url (c : Config) : result Raised string :=
  match base_url c with
  | Some raw => if bool_decide (strip raw = "") then Err RaisedRuntimeError
                else Ok (String.string_of_list_ascii (rstrip_slash (String.list_ascii_of_string (strip raw))))
  | None => Err RaisedRuntimeError
  end.
Definition get_gateway_base_url (port : Z) : string := "http://127.0.0.1:" +:+ pretty.pretty port.
Definition get_request_timeout_seconds (raw : Z) : option Z := if raw <=? 0 then None else Some raw.
Inductive TlsVerify := SystemCAs | NoVerification | Bundle (path : string).
Definition get_tls_verify (raw : option string) : TlsVerify :=
  match raw with
  | None => SystemCAs
  | Some raw =>
      let stripped := strip raw in
      if bool_decide (stripped = "") then SystemCAs
      else if bool_decide (lower stripped ∈ ["false"; "0"; "no"; "off"]) then NoVerification
      else if bool_decide (lower stripped ∈ ["true"; "1"; "yes"; "on"]) then SystemCAs
      else Bundle stripped
  end.
Definition is_enabled (c : Config) : bool := toggle c && has_upstream_url c.

(** ** The handler *)

Record Call := MkCall { c_host : option string; c_headers : list (string * string); c_body : string; c_key : option string; c_user : option string }.
Record UpRequest := MkUpRequest { u_url : string; u_headers : odict string string; u_content : string }.
(** An upstream's answer: [r_content] is [None] where reading it fails, [r_ended] is [false] where
    reading its lines does after those given. *)
Record UpResponse := MkUpResponse {
  r_status : Z; r_headers : list (string * string); r_ctype : option string;
  r_content : option string; r_lines : list string; r_ended : bool;
}.
Inductive Act := MadeClient | Sent (r : UpRequest) (streaming : bool) | ClosedUpstream | ClosedClient.
Inductive Body := Whole (content : string) | Frames (frames : list string) (whole : bool) (closes : list Act).
Record Response := MkResponse { a_status : Z; a_headers : odict string string; a_media : option string; a_body : Body }.

Section handler.
Context (json_loads : string -> result Exn Json) (json_dumps dumps_plain dumps : Json -> string) (str : Json -> string) (fresh : nat -> string).
Context (send : UpRequest -> option UpResponse).
Context (auth : Gate.AuthManager) (cfg : Config).

Definition not_found : Response :=
  MkResponse 404 [] (Some "application/json") (Whole (dumps (JObj [("error", JObj [("type", JStr "not_found"); ("message", JStr "Not Found")])]))).

(** What the handler reads of the request's body: the object, and whether it asks for a stream *)
Definition read_body (body : string) : result Raised (list (string * Json) * bool) :=
  if bool_decide (body = "") then Ok ([], false)
  else match json_loads body with
       | Ok (JObj d) => Ok (d, truthy (default (JBool false) (dict_get d "stream")))
       | Ok _ | Err JSONDecodeError => Ok ([], false)
       | Err e => Err (RaisedExn e)
       end.

(** The request to the upstream, and the model of a bridged stream *)
Definition upstream_request (rq : Call) (headers : odict string string) (parsed : list (string * Json)) : result Raised (bool * string * UpRequest) :=
  let use_bridge := use_openai_bridge cfg && negb (bool_decide (parsed = [])) in
  if use_bridge then
    match anthropic_request_to_openai_body dumps fresh (JObj parsed) with
    | Err e => Err (RaisedExn e)
    | Ok openai_body =>
        let! url := get_upstream_url cfg in
        Ok (true, str (or_else (jget_null (JObj parsed) "model") (or_else (jget_null openai_body "model") (JStr ""))),
            MkUpRequest (url +:+ "/v1/chat/completions") (dict_set headers "content-type" "application/json") (dumps_plain openai_body))
    end
  else
    let! url := get_upstream_url cfg in
    Ok (false, "", MkUpRequest (url +:+ "/v1/messages") headers (c_body rq)).

(** A whole answer *)
Definition is_json (ctype : option string) : bool := starts_with (lower (default "" ctype)) "application/json".
Definition whole_answer (use_bridge : bool) (up : UpResponse) (content : string) : result Raised Response :=
  let headers := _filter_headers (r_headers up) _DROP_FROM_RESPONSE in
  let verbatim := MkResponse (r_status up) headers (r_ctype up) (Whole content) in
  if use_bridge && (200 <=? r_status up) && (r_status up <? 300) && is_json (r_ctype up) then
    match json_loads content with
    | Ok (JObj d) =>
        match openai_response_to_anthropic_body json_loads fresh (JObj d) with
        | Ok v => Ok (MkResponse (r_status up) (dict_del headers "content-length") (Some "application/json") (Whole (dumps_plain v)))
        | Err e => Err (RaisedExn e)
        end
    | Ok _ | Err JSONDecodeError => Ok verbatim
    | Err e => Err (RaisedExn e)
    end
  else Ok verbatim.

(** What the bridge's generator yields on the chunks read, where [whole] tells whether reading them
    came to its end *)
Definition bridged (model : string) (whole : bool) (chunks : list Json) : list Json * bool :=
  if whole then let (out, e) := openai_stream_to_anthropic_events fresh model chunks in (out, bool_decide (e = None))
  else (fst (on_chunks fresh model state0 chunks), false).
(** [body_iter()] *)
Definition body_iter (use_bridge : bool) (model : string) (up : UpResponse) : Body :=
  let (events, whole) := if use_bridge then let (chunks, whole) := _iter_openai_sse_chunks json_loads (r_ended up) (r_lines up) in bridged model whole chunks
                         else _iter_sse_events json_loads (r_ended up) (r_lines up) in
  let (out, r) := sanitize_events events in
  Frames (map (_format_sse json_dumps str) out) (whole && match r with Ok _ => true | Err _ => false end) [ClosedUpstream; ClosedClient].

Definition is_event_stream (ctype : option string) : bool := starts_with (lower (default "" ctype)) "text/event-stream".
(** [upstream_ctype or None] *)
Definition or_none (ctype : option string) : option string := match ctype with Some "" => None | c => c end.

(** The upstream is sent the request, and answers. *)
Definition exchange (use_bridge : bool) (model : string) (is_stream : bool) (r : UpRequest) : list Act * result Raised Response :=
  if negb is_stream then
    match send r with
    | Some up =>
        match r_content up with
        | Some content => ([Sent r false; ClosedClient], whole_answer use_bridge up content)
        | None => ([Sent r false; ClosedClient], Err TransportError)
        end
    | None => ([Sent r false; ClosedClient], Err TransportError)
    end
  else
    match send r with
    | None => ([Sent r true], Err TransportError)
    | Some up =>
        let headers := _filter_headers (r_headers up) _DROP_FROM_RESPONSE in
        if negb (is_event_stream (r_ctype up)) then
          ([Sent r true; ClosedUpstream; ClosedClient],
           match r_content up with
           | Some content => Ok (MkResponse (r_status up) headers (or_none (r_ctype up)) (Whole content))
           | None => Err TransportError
           end)
        else
          ([Sent r true],
           Ok (MkResponse (r_status up) (dict_set (dict_set headers "Cache-Control" "no-cache") "X-Accel-Buffering" "no") (Some "text/event-stream")
                          (body_iter use_bridge model up)))
    end.

(** [sanitize_messages(request, credentials)] *)
Definition sanitize_messages (rq : Call) : list Act * result Raised Response :=
  if negb (is_enabled cfg) then ([], Ok not_found)
  else
    let is_loopback := _is_loopback_request (c_host rq) in
    match (if is_loopback then Ok (Gate.Passed (c_user rq)) else Gate.verify_api_key auth (c_user rq) (c_key rq)) with
    | Err e => ([], Err (RaisedGate e))
    | Ok (Gate.Refused401 detail) => ([], Err (HTTPException 401 detail))
    | Ok (Gate.Passed _) =>
        let headers := _filter_headers (c_headers rq) (if is_loopback then _DROP_FROM_REQUEST else _DROP_FROM_EXTERNAL_REQUEST) in
        match read_body (c_body rq) with
        | Err e => ([], Err e)
        | Ok (parsed, is_stream) =>
            match upstream_request rq headers parsed with
            | Err e => ([MadeClient], Err e)
            | Ok (use_bridge, model, r) => let (acts, answer) := exchange use_bridge model is_stream r in (MadeClient :: acts, answer)
            end
        end
    end.
End handler.
