(* ===== verification/ProxyLaws.v ===== *)
(** What the route [POST /v1/messages] ([Proxy]) promises: its frames read back as the events
    they carry, nothing leaves that is not to leave, and an event stream is the one promised. *)

From S2P Require Import Prelude Json Raise StreamSanitizer Bridge BridgeLaws Proxy.
From S2P Require Gate.

(** ** Frames *)

Definition LF : Ascii.ascii := Ascii.ascii_of_nat 10.
Definition CR : Ascii.ascii := Ascii.ascii_of_nat 13.

(** The lines of a text *)
Fixpoint split_lines (s : string) : list string :=
  match s with
  | EmptyString => []
  | String c s =>
      if Ascii.eqb c LF then "" :: split_lines s
      else match split_lines s with [] => [String c ""] | l :: ls => String c l :: ls end
  end.
Lemma split_line a s : has_char LF a = false -> split_lines (a +:+ newline_text +:+ s) = a :: split_lines s.
Proof.
  intros H. induction a as [|c a IH]; [done|]. cbn in H. rewrite orb_false_iff in H. destruct H as [Hc Ha]. rewrite append_cons. cbn [split_lines].
  rewrite Ascii.eqb_sym in Hc. by rewrite Hc, IH.
Qed.

(** The text of an event: an object in braces, on one line *)
Definition one_line (d : string) : Prop := exists m, d = "{" +:+ m +:+ "}" /\ has_char LF m = false.
Record framable (json_loads : string -> result Exn Json) (json_dumps : Json -> string) (str : Json -> string) (e : Json) : Prop := {
  fr_object : is_dict e = true;
  fr_loads : json_loads (json_dumps e) = Ok e;
  fr_line : one_line (json_dumps e);
  fr_type : has_char LF (str (default (JStr "message") (jget e "type"))) = false;
}.

Lemma list_ascii_app a b : String.list_ascii_of_string (a +:+ b) = String.list_ascii_of_string a ++ String.list_ascii_of_string b.
Proof. induction a as [|c a IH]; [done|]. rewrite append_cons. cbn. by rewrite IH. Qed.
Lemma rstrip_cr_snoc l c : c <> CR -> rstrip_cr (l ++ [c]) = l ++ [c].
Proof.
  intros H. induction l as [|x l IH]; cbn [app rstrip_cr].
  - destruct (Ascii.eqb_spec c (Ascii.ascii_of_nat 13)) as [E|]; [by destruct H|done].
  - rewrite IH. by destruct (l ++ [c]) eqn:E; [destruct l|].
Qed.
Lemma line_of_brace a : line_of (a +:+ "}") = a +:+ "}".
Proof.
  unfold line_of. rewrite list_ascii_app. change (String.list_ascii_of_string "}") with [Ascii.ascii_of_nat 125]. rewrite rstrip_cr_snoc by done.
  change [Ascii.ascii_of_nat 125] with (String.list_ascii_of_string "}"). by rewrite <- list_ascii_app, String.string_of_list_ascii_of_string.
Qed.
Lemma has_char_app c a b : has_char c (a +:+ b) = has_char c a || has_char c b.
Proof. induction a as [|x a IH]; [done|]. rewrite append_cons. cbn. by rewrite IH, orb_assoc. Qed.

Lemma event_line t : exists r, line_of ("event: " +:+ t) = String (Ascii.ascii_of_nat 101) r.
Proof.
  unfold line_of. rewrite append_cons. cbn [String.list_ascii_of_string rstrip_cr].
  destruct (rstrip_cr _); cbn [Ascii.eqb]; eexists; reflexivity.
Qed.

Section frames.
Context (json_loads : string -> result Exn Json) (json_dumps : Json -> string) (str : Json -> string).

Lemma frame_lines e s : framable json_loads json_dumps str e ->
  split_lines (_format_sse json_dumps str e +:+ s) =
  ("event: " +:+ str (default (JStr "message") (jget e "type"))) :: ("data: " +:+ json_dumps e) :: "" :: split_lines s.
Proof using.
  intros [_ _ (m & Ed & Hm) Ht]. unfold _format_sse. set (t := str _) in *. rewrite <- !append_assoc.
  rewrite (append_assoc "event: " t), split_line by (by rewrite has_char_app).
  rewrite (append_assoc "data: " (json_dumps e)), split_line by (rewrite Ed, !has_char_app, Hm; done). done.
Qed.

Lemma sse_skip ended dl raw lines : line_of raw <> "" -> strip_prefix "data:" (line_of raw) = None ->
  sse_from json_loads None ended dl (raw :: lines) = sse_from json_loads None ended dl lines.
Proof using. intros H E. cbn [sse_from]. by rewrite bool_decide_eq_false_2, E by done. Qed.
Lemma sse_data ended dl raw rest lines : line_of raw <> "" -> strip_prefix "data:" (line_of raw) = Some rest ->
  sse_from json_loads None ended dl (raw :: lines) = sse_from json_loads None ended (dl ++ [lstrip rest]) lines.
Proof using. intros H E. cbn [sse_from]. by rewrite bool_decide_eq_false_2, E by done. Qed.
Lemma frame_reads ended e lines : framable json_loads json_dumps str e ->
  sse_from json_loads None ended [] (("event: " +:+ str (default (JStr "message") (jget e "type"))) :: ("data: " +:+ json_dumps e) :: "" :: lines)
  = let (es, whole) := sse_from json_loads None ended [] lines in (e :: es, whole).
Proof using.
  intros [Ho Hl (m & Ed & _) _]. destruct (event_line (str (default (JStr "message") (jget e "type")))) as [r Er].
  rewrite sse_skip by (rewrite Er; done).
  assert (line_of ("data: " +:+ json_dumps e) = "data: " +:+ json_dumps e) as Eline by (rewrite Ed, !append_assoc; apply line_of_brace).
  rewrite (sse_data _ _ _ (" " +:+ json_dumps e)) by (rewrite Eline; first [discriminate|reflexivity]).
  assert (lstrip (" " +:+ json_dumps e) = json_dumps e) as -> by (by rewrite Ed). cbn [app sse_from]. rewrite bool_decide_eq_true_2 by done.
  unfold frame_event. cbn [String.concat]. rewrite bool_decide_eq_false_2 by done. rewrite Hl. by destruct e, (sse_from json_loads None ended [] lines).
Qed.
Lemma frames_read es : Forall (framable json_loads json_dumps str) es ->
  _iter_sse_events json_loads true (split_lines (joined (map (_format_sse json_dumps str) es))) = (es, true).
Proof using.
  unfold _iter_sse_events. induction 1 as [|e es He _ IH]; [done|]. cbn [map]. unfold joined in *. rewrite concat_cons, frame_lines, frame_reads by done. by rewrite IH.
Qed.
End frames.

(** ** Headers *)

Definition clean (drop : list string) (headers : odict string string) : Prop := Forall (fun kv => lower (fst kv) ∉ drop) headers.
Lemma clean_set drop d k v : clean drop d -> lower k ∉ drop -> clean drop (dict_set d k v).
Proof.
  intros H Hk. induction H as [|[k' v'] d Hk' Hd IH]; cbn [dict_set]; [by constructor|]. destruct (decide (k = k')) as [->|]; by constructor.
Qed.
Lemma clean_del drop d k : clean drop d -> clean drop (dict_del d k).
Proof.
  intros H. induction H as [|[k' v'] d Hk' Hd IH]; cbn [dict_del]; [by constructor|]. destruct (decide (k = k')); [done|by constructor].
Qed.
Lemma filter_clean items drop : clean drop (_filter_headers items drop).
Proof.
  unfold _filter_headers. assert (forall d, clean drop d -> clean drop (foldl (fun d kv => if bool_decide (lower (fst kv) ∈ drop) then d else dict_set d (fst kv) (snd kv)) d items)) as H; [|apply H; constructor].
  induction items as [|[k v] items IH]; intros d Hd; [done|]. cbn [foldl]. apply IH. case_bool_decide; [done|by apply clean_set].
Qed.

Lemma clean_sub drop drop' d : Forall (fun k => k ∈ drop') drop -> clean drop' d -> clean drop d.
Proof. intros H Hd. eapply Forall_impl; [exact Hd|]. cbn. intros kv Hk Hin. apply Hk. rewrite Forall_forall in H. by apply H. Qed.

(** ** The handler *)

Lemma chunks_pass fresh model chunks : let events := fst (on_chunks fresh model state0 chunks) in
  (exists z, sanitize_events events = (events, Ok z)) /\ conforming events.
Proof.
  pose proof (chunks_out fresh model chunks state0 state0_whole) as H. pose proof (framed_chunks fresh model chunks state0) as F. cbv zeta.
  assert (exists z, sanitize_events (fst (on_chunks fresh model state0 chunks)) = (fst (on_chunks fresh model state0 chunks), Ok z)) as [z P].
  { destruct (on_chunks fresh model state0 chunks) as [a [s|e]]; [destruct H as [Hp _]|destruct H as [s Hp]]; (destruct (Hp san0 state0_synced) as (z & E & _); exists z; exact E). }
  split; [by exists z|]. pose proof (keeps_run san0 [] (fst (on_chunks fresh model state0 chunks)) tracks0 conforming_nil) as K. unfold sanitize_events in P. rewrite P in K. apply K.
  destruct (on_chunks fresh model state0 chunks) as [a [s|e]]; [|destruct F as [s F]]; (eapply framed_typed; exact F).
Qed.
Lemma bridged_passes fresh model read chunks : let events := fst (bridged fresh model read chunks) in
  (exists z, sanitize_events events = (events, Ok z)) /\ conforming events /\ (snd (bridged fresh model read chunks) = true -> complete events).
Proof.
  cbv zeta. destruct read; cbn [bridged fst snd].
  - pose proof (stream_passes fresh model chunks) as (z & P). pose proof (stream_typed fresh model chunks) as Ht. pose proof (stream_complete fresh model chunks) as Hc.
    destruct (openai_stream_to_anthropic_events fresh model chunks) as [out e]. cbn [fst snd] in *. split; [by exists z|]. split.
    + pose proof (keeps_run san0 [] out tracks0 conforming_nil Ht) as K. unfold sanitize_events in P. by rewrite P in K.
    + intros He. apply Hc. by rewrite (bool_decide_eq_true_1 _ He).
  - pose proof (chunks_pass fresh model chunks) as [H1 H2]. by split.
Qed.

Section route.
Context (json_loads : string -> result Exn Json) (json_dumps dumps_plain dumps : Json -> string) (str : Json -> string) (fresh : nat -> string).
Context (send : UpRequest -> option UpResponse) (auth : Gate.AuthManager) (cfg : Config).

Notation run := (sanitize_messages json_loads json_dumps dumps_plain dumps str fresh send auth cfg).
Notation exchange := (exchange json_loads json_dumps dumps_plain str fresh send).

(** A caller the route serves *)
Definition allowed (rq : Call) : Prop :=
  _is_loopback_request (c_host rq) = true \/ exists u, Gate.verify_api_key auth (c_user rq) (c_key rq) = Ok (Gate.Passed u).
Definition dropped (rq : Call) : list string := if _is_loopback_request (c_host rq) then _DROP_FROM_REQUEST else _DROP_FROM_EXTERNAL_REQUEST.

(** The handler stops early, or makes one exchange. *)
Record exchanges (rq : Call) (acts : list Act) (r : result Raised Response) (parsed : list (string * Json)) (bridge : bool) (model : string) (is_stream : bool) (u : UpRequest) : Prop := {
  ex_enabled : is_enabled cfg = true;
  ex_allowed : allowed rq;
  ex_body : read_body json_loads (c_body rq) = Ok (parsed, is_stream);
  ex_request : upstream_request dumps_plain dumps str fresh cfg rq (_filter_headers (c_headers rq) (dropped rq)) parsed = Ok (bridge, model, u);
  ex_run : exchange bridge model is_stream u = (acts, r);
}.
Definition stops (r : result Raised Response) : Prop := r = Ok (not_found dumps) \/ exists e, r = Err e.

Lemma run_cases rq acts r : run rq = (acts, r) ->
  (acts = [] \/ acts = [MadeClient]) /\ stops r \/ exists acts' parsed bridge model is_stream u, acts = MadeClient :: acts' /\ exchanges rq acts' r parsed bridge model is_stream u.
Proof using.
  unfold sanitize_messages. destruct (is_enabled cfg) eqn:Ee; cbn [negb]; [|intros [= <- <-]; left; split; [by left|by left]].
  destruct (if _is_loopback_request (c_host rq) then _ else _) as [[u|d]|e] eqn:Ev; [|by intros [= <- <-]; left; split; [left|right; eexists]..].
  assert (allowed rq) as Ha by (unfold allowed; destruct (_is_loopback_request (c_host rq)); [by left|right; by exists u]).
  destruct (read_body json_loads (c_body rq)) as [[parsed is_stream]|e] eqn:Eb; [|intros [= <- <-]; left; split; [by left|right; by eexists]].
  fold (dropped rq). destruct (upstream_request _ _ _ _ _ _ _ _) as [[[bridge model] q]|e] eqn:Er; [|intros [= <- <-]; left; split; [by right|right; by eexists]].
  destruct (exchange bridge model is_stream q) as [acts' answer] eqn:Ex. intros [= <- <-]. right. by exists acts', parsed, bridge, model, is_stream, q.
Qed.

Lemma request_headers rq headers parsed bridge model u : upstream_request dumps_plain dumps str fresh cfg rq headers parsed = Ok (bridge, model, u) ->
  (exists base, get_upstream_url cfg = Ok base /\ u_url u = base +:+ (if bridge then "/v1/chat/completions" else "/v1/messages"))
  /\ (forall drop, clean drop headers -> "content-type" ∉ drop -> clean drop (u_headers u))
  /\ (bridge = true <-> use_openai_bridge cfg = true /\ parsed <> []) /\ (bridge = false -> u_content u = c_body rq).
Proof using.
  unfold upstream_request. destruct (use_openai_bridge cfg && negb (bool_decide (parsed = []))) eqn:Eb.
  - apply andb_true_iff in Eb as [E1 E2]. apply negb_true_iff, bool_decide_eq_false in E2.
    destruct (anthropic_request_to_openai_body dumps fresh (JObj parsed)) as [b|e]; [|done]. destruct (get_upstream_url cfg) as [base|e]; [|done]. cbn [result_bind].
    intros [= <- _ <-]. split; [by exists base|]. split; [intros drop Hc Hd; by apply clean_set|]. done.
  - apply andb_false_iff in Eb. destruct (get_upstream_url cfg) as [base|e]; [|done]. cbn [result_bind]. intros [= <- _ <-].
    split; [by exists base|]. split; [done|]. split; [|done]. split; [done|]. intros [E1 E2]. destruct Eb as [E|E]; [congruence|]. apply negb_false_iff, bool_decide_eq_true in E. done.
Qed.

Definition is_sent (a : Act) : bool := match a with Sent _ _ => true | _ => false end.
(** What the exchange does: one request, and what it closes and answers *)
Lemma exchange_acts bridge model is_stream u acts r : exchange bridge model is_stream u = (acts, r) ->
  exists closes, acts = Sent u is_stream :: closes /\ closes ∈ [[]; [ClosedClient]; [ClosedUpstream; ClosedClient]].
Proof using.
  assert (forall closes r', closes ∈ [[]; [ClosedClient]; [ClosedUpstream; ClosedClient]] -> (Sent u is_stream :: closes, r') = (acts, r) ->
    exists closes, acts = Sent u is_stream :: closes /\ closes ∈ [[]; [ClosedClient]; [ClosedUpstream; ClosedClient]]) as H by (intros closes r' Hc [= <- _]; by exists closes).
  unfold Proxy.exchange. destruct is_stream; cbn [negb]; (destruct (send u) as [up|]; [|apply H; set_solver]).
  - destruct (is_event_stream (r_ctype up)); cbn [negb]; apply H; set_solver.
  - destruct (r_content up); apply H; set_solver.
Qed.
Lemma whole_answer_clean bridge up content a : whole_answer json_loads dumps_plain fresh bridge up content = Ok a -> clean _DROP_FROM_RESPONSE (a_headers a).
Proof using.
  unfold whole_answer. pose proof (filter_clean (r_headers up) _DROP_FROM_RESPONSE) as H. destruct (_ && _); [|by intros [= <-]].
  destruct (json_loads content) as [[| | | | | |d]|e]; try (by intros [= <-]); [|destruct e; try done; by intros [= <-]].
  destruct (openai_response_to_anthropic_body _ _ _); [|done]. intros [= <-]. by apply clean_del.
Qed.
Lemma exchange_clean bridge model is_stream u acts a : exchange bridge model is_stream u = (acts, Ok a) -> clean _DROP_FROM_RESPONSE (a_headers a).
Proof using.
  unfold Proxy.exchange. destruct is_stream; cbn [negb]; (destruct (send u) as [up|]; [|done]).
  - pose proof (filter_clean (r_headers up) _DROP_FROM_RESPONSE) as H. destruct (is_event_stream (r_ctype up)); cbn [negb].
    + intros [= <- <-]. cbn [a_headers]. apply clean_set; [apply clean_set; [done|]|]; by apply (bool_decide_unpack _).
    + destruct (r_content up); [|done]. by intros [= <- <-].
  - destruct (r_content up); [|done]. intros [= _ E]. by eapply whole_answer_clean.
Qed.

(** C27. What crosses the route. At most one request is sent for a call, and only when the route is
    enabled and the caller is on the same host or has passed [verify_api_key]; it goes to the
    configured base, with no header that is dropped from requests, in particular not the
    gateway's own [authorization] of an outside caller, in any spelling; without the bridge its
    content is the call's body as it is. No answer, of any kind, has a header that is dropped
    from responses. *)
Theorem route_keeps_headers rq : let (acts, r) := run rq in
  Forall (fun a => match a with
                   | Sent u _ => is_enabled cfg = true /\ allowed rq /\ clean (dropped rq) (u_headers u)
                                 /\ (_is_loopback_request (c_host rq) = false -> clean ["authorization"] (u_headers u))
                                 /\ (exists base path, get_upstream_url cfg = Ok base /\ path ∈ ["/v1/chat/completions"; "/v1/messages"] /\ u_url u = base +:+ path)
                                 /\ (use_openai_bridge cfg = false -> u_content u = c_body rq)
                   | _ => True
                   end) acts
  /\ (length (List.filter is_sent acts) <= 1)%nat /\ (forall a, r = Ok a -> clean _DROP_FROM_RESPONSE (a_headers a)).
Proof using.
  destruct (run rq) as [acts r] eqn:E. apply run_cases in E as [[Ha Hr]|(acts' & parsed & bridge & model & is_stream & u & -> & [H1 H2 H3 H4 H5])].
  - split; [destruct Ha as [-> | ->]; by repeat constructor|]. split; [destruct Ha as [-> | ->]; cbn; lia|]. intros a ->. destruct Hr as [[= ->]|[e [=]]]. constructor.
  - destruct (request_headers _ _ _ _ _ _ H4) as (Hu & Hh & Hb & Hc). destruct (exchange_acts _ _ _ _ _ _ H5) as (closes & -> & Hcl).
    assert (closes = [] \/ closes = [ClosedClient] \/ closes = [ClosedUpstream; ClosedClient]) as Hcl' by set_solver. clear Hcl. rename Hcl' into Hcl. split; [|split].
    + constructor; [done|]. constructor; [|destruct Hcl as [-> | [-> | ->]]; by repeat constructor].
      split; [done|]. split; [done|]. assert ("content-type" ∉ dropped rq) as Hct by (unfold dropped; destruct (_is_loopback_request (c_host rq)); by apply (bool_decide_unpack _)).
      split; [apply Hh; [apply filter_clean|done]|].
      split; [intros Hl; apply Hh; [|by apply (bool_decide_unpack _)]; eapply clean_sub; [|apply filter_clean]; unfold dropped; rewrite Hl; by apply (bool_decide_unpack _)|].
      split; [|intros Hoff; apply Hc; destruct bridge; [|done]; destruct (proj1 Hb eq_refl); congruence].
      destruct Hu as (base & E1 & E2). exists base. eexists. split; [done|]. split; [|exact E2]. destruct bridge; [by left|by right; left].
    + destruct Hcl as [-> | [-> | ->]]; cbn; lia.
    + intros a ->. by eapply exchange_clean.
Qed.

(** The chunks and the events a body reads, each with whether reading came to its end *)
Definition chunks_of (up : UpResponse) : list Json * bool := _iter_openai_sse_chunks json_loads (r_ended up) (r_lines up).
Definition events_of (up : UpResponse) : list Json * bool := _iter_sse_events json_loads (r_ended up) (r_lines up).
Lemma sse_whole done ended dl lines : snd (sse_from json_loads done ended dl lines) = true -> ended = true.
Proof using.
  revert dl. induction lines as [|raw lines IH]; intros dl; cbn [sse_from].
  - destruct dl as [|l dl]; [done|]. by destruct ended.
  - case_bool_decide.
    + destruct dl as [|l dl]; [apply IH|]. destruct (frame_event json_loads done (l :: dl)); [|done]. pose proof (IH []) as H'. by destruct (sse_from json_loads done ended [] lines).
    + destruct (strip_prefix _ _); apply IH.
Qed.

(** The events of a body, and what is known of them *)
Definition body_events (bridge : bool) (up : UpResponse) (whole : bool) (events : list Json) : Prop :=
  if bridge then
    (exists model, events = fst (bridged fresh model (snd (chunks_of up)) (fst (chunks_of up)))) /\ conforming events
    /\ (whole = true -> snd (chunks_of up) = true /\ complete events)
  else
    events = fst (sanitize_events (fst (events_of up))) /\ (typed_starts (fst (events_of up)) = true -> conforming events)
    /\ (whole = true -> snd (events_of up) = true).
Lemma body_frames bridge model up frames whole closes : body_iter json_loads json_dumps str fresh bridge model up = Frames frames whole closes ->
  closes = [ClosedUpstream; ClosedClient] /\ exists events, frames = map (_format_sse json_dumps str) events /\ body_events bridge up whole events.
Proof using.
  unfold body_iter, body_events. fold (chunks_of up) (events_of up). destruct bridge.
  - destruct (chunks_of up) as [chunks read]. cbn [fst snd]. destruct (bridged_passes fresh model read chunks) as ((z & P) & Hc & Hw).
    assert (snd (bridged fresh model read chunks) = true -> read = true) as Hr by (by destruct read). destruct (bridged fresh model read chunks) as [events w] eqn:Eb. cbn [fst snd] in *.
    rewrite P, andb_true_r. intros [= <- <- <-]. split; [done|]. exists events. split; [done|]. split; [exists model; by rewrite Eb|]. split; [done|]. intros ->. by split; [apply Hr|apply Hw].
  - destruct (events_of up) as [events read]. cbn [fst snd]. cbv zeta. pose proof (fun H => keeps_run san0 [] events tracks0 conforming_nil H) as K. unfold sanitize_events in *.
    destruct (sanitize_from san0 events) as [out r]. cbn [fst] in *. intros [= <- <- <-]. split; [done|]. exists out. split; [done|]. split; [done|]. split; [done|]. intros Hw. by apply andb_true_iff in Hw as [Hw _].
Qed.
Lemma exchange_frames bridge model is_stream u acts a frames whole closes : exchange bridge model is_stream u = (acts, Ok a) -> a_body a = Frames frames whole closes ->
  is_stream = true /\ acts = [Sent u true] /\ exists up, send u = Some up /\ a_status a = r_status up /\ is_event_stream (r_ctype up) = true
    /\ body_iter json_loads json_dumps str fresh bridge model up = Frames frames whole closes.
Proof using.
  unfold Proxy.exchange. destruct is_stream; cbn [negb]; (destruct (send u) as [up|]; [|done]).
  - destruct (is_event_stream (r_ctype up)) eqn:E; cbn [negb]; [|destruct (r_content up); [|done]; by intros [= _ <-]]. intros [= <- <-] Hb. split; [done|]. split; [done|]. by exists up.
  - destruct (r_content up) as [c|]; [|done]. intros [= _ Ew]. unfold whole_answer in Ew. destruct (_ && _); [|by injection Ew as <-].
    destruct (json_loads c) as [[| | | | | |d]|e]; try (by injection Ew as <-); [|destruct e; try done; by injection Ew as <-].
    destruct (openai_response_to_anthropic_body _ _ _); [|done]. by injection Ew as <-.
Qed.

(** The content a call is answered where the upstream's is [c]: the translation of the object it is,
    for a call for no stream through the bridge whose answer is good and says it is JSON; itself
    for any other. *)
Definition good_json (up : UpResponse) : bool := (200 <=? r_status up) && (r_status up <? 300) && is_json (r_ctype up).
Definition content_of (translated : bool) (c content : string) : Prop :=
  match (if translated then json_loads c else Err JSONDecodeError) with
  | Ok (JObj d) => exists v, openai_response_to_anthropic_body json_loads fresh (JObj d) = Ok v /\ content = dumps_plain v
  | _ => content = c
  end.
Lemma exchange_whole bridge model is_stream u acts a content : exchange bridge model is_stream u = (acts, Ok a) -> a_body a = Whole content ->
  exists up c, send u = Some up /\ r_content up = Some c /\ a_status a = r_status up /\ (is_stream = true -> is_event_stream (r_ctype up) = false)
    /\ content_of (bridge && negb is_stream && good_json up) c content.
Proof using.
  unfold Proxy.exchange. destruct is_stream; cbn [negb]; (destruct (send u) as [up|]; [|done]).
  - destruct (is_event_stream (r_ctype up)) eqn:Ee; cbn [negb].
    + intros [= _ <-]. cbn [a_body]. unfold body_iter. destruct (if bridge then _ else _) as [ev w]. by destruct (sanitize_events ev).
    + destruct (r_content up) as [c|] eqn:Ec; [|done]. intros [= _ <-] [= <-]. exists up, c. do 4 (split; [done|]). rewrite andb_false_r. done.
  - destruct (r_content up) as [c|] eqn:Ec; [|done]. intros [= _ Ew] Hb. exists up, c. split; [done|]. split; [done|]. rewrite andb_true_r. unfold whole_answer in Ew.
    unfold good_json. rewrite !andb_assoc. unfold content_of. destruct (_ && is_json _); [|by injection Ew as <-; injection Hb as <-].
    destruct (json_loads c) as [[| | | | | |d]|e]; try (by injection Ew as <-; injection Hb as <-); [|by destruct e; try discriminate Ew; injection Ew as <-; injection Hb as <-].
    destruct (openai_response_to_anthropic_body _ _ _) as [v|e]; [|done]. injection Ew as <-. injection Hb as <-. split; [done|]. split; [done|]. by exists v.
Qed.

(** C28. An event stream is answered only to a call that asked for one, when the upstream answered
    an event stream, with its status, and both connections are closed at its end. Its frames are
    written for these events: through the bridge, the translation of the chunks read, which keeps
    the contract of the sanitizer whatever the upstream sends and also when reading it breaks
    off, and which is one whole message when the body comes to its end; without the bridge, the
    clean-up of the events read, which keeps it for an upstream whose block starts say their
    type. A body that comes to its end has read the upstream to its end: a frame whose reading
    raises anything but [JSONDecodeError] ends it, as a failure of the upstream does. Where every
    event can be framed (what is written for it is an object on one line, the name of its type is
    on one line, and reading what is written gives the event back) the frames, read the way the
    route reads an upstream, are those events again. *)
Theorem route_streams_the_contract rq acts a frames whole closes : run rq = (acts, Ok a) -> a_body a = Frames frames whole closes ->
  exists u up events, acts = [MadeClient; Sent u true] /\ send u = Some up /\ a_status a = r_status up /\ is_event_stream (r_ctype up) = true
  /\ closes = [ClosedUpstream; ClosedClient] /\ frames = map (_format_sse json_dumps str) events
  /\ body_events (use_openai_bridge cfg) up whole events
  /\ (Forall (framable json_loads json_dumps str) events -> _iter_sse_events json_loads true (split_lines (joined frames)) = (events, true)).
Proof using.
  intros E Hb. apply run_cases in E as [[_ [[= ->]|[e [=]]]]|(acts' & parsed & bridge & model & is_stream & u & -> & [_ _ H3 H4 H5])]; [done|].
  destruct (exchange_frames _ _ _ _ _ _ _ _ _ H5 Hb) as (-> & -> & up & Hs & Hst & Hct & Hf). destruct (body_frames _ _ _ _ _ _ Hf) as (-> & events & -> & He).
  exists u, up, events. do 6 (split; [done|]). split; [|by apply frames_read].
  assert (bridge = use_openai_bridge cfg) as <-; [|done].
  destruct (request_headers _ _ _ _ _ _ H4) as (_ & _ & Hbr & _). assert (parsed <> []) as Hp.
  { intros ->. unfold read_body in H3. destruct (bool_decide (c_body rq = "")); [done|]. destruct (json_loads (c_body rq)) as [[| | | | | |d]|e]; try done; [|by destruct e].
    by injection H3 as -> E. }
  destruct bridge, (use_openai_bridge cfg); try done; [by destruct (proj1 Hbr eq_refl)|]. by discriminate (proj2 Hbr (conj eq_refl Hp)).
Qed.

(** C29. While the route is disabled every call is answered its own 404 and nothing is sent. While
    it is enabled a whole answer is the upstream's: it answers the one request that was sent for
    the call, with the upstream's status always, and with its content: as it is when the bridge
    is off, the call's body is no object with a key or the call asked for a stream (and the
    upstream answered something else), when the upstream's status is no 2xx, when the upstream
    does not say it is JSON and when it is not an object; and translated, always, when none of
    these holds. *)
Theorem whole_answers_are_the_upstreams rq acts r : run rq = (acts, r) ->
  if is_enabled cfg then
    forall a content, r = Ok a -> a_body a = Whole content -> exists parsed is_stream u up c,
      read_body json_loads (c_body rq) = Ok (parsed, is_stream) /\ List.filter is_sent acts = [Sent u is_stream]
      /\ send u = Some up /\ r_content up = Some c /\ a_status a = r_status up /\ (is_stream = true -> is_event_stream (r_ctype up) = false)
      /\ content_of (use_openai_bridge cfg && negb (bool_decide (parsed = [])) && negb is_stream && good_json up) c content
  else acts = [] /\ r = Ok (not_found dumps).
Proof using.
  intros E. destruct (is_enabled cfg) eqn:Ee; [|unfold sanitize_messages in E; rewrite Ee in E; by injection E as <- <-].
  intros a content -> Hb. destruct (run_cases _ _ _ E) as [[Ha Hr]|(acts' & parsed & bridge & model & is_stream & u & -> & [_ _ H3 H4 H5])].
  - exfalso. destruct Hr as [Hr|[e [=]]]. unfold sanitize_messages in E. rewrite Ee in E. cbn [negb] in E. destruct (if _is_loopback_request (c_host rq) then _ else _) as [[v|d]|e]; [|done..].
    destruct (read_body _ _) as [[parsed is_stream]|e]; [|done]. destruct (upstream_request _ _ _ _ _ _ _ _) as [[[bridge model] u]|e]; [|done].
    destruct (exchange bridge model is_stream u) as [acts' r] eqn:Ex. destruct (exchange_acts _ _ _ _ _ _ Ex) as (closes & -> & _). injection E as <- _. by destruct Ha as [|[=]].
  - destruct (exchange_whole _ _ _ _ _ _ _ H5 Hb) as (up & c & Hs & Hc & Hst & Hes & Hw). exists parsed, is_stream, u, up, c. destruct (exchange_acts _ _ _ _ _ _ H5) as (closes & -> & Hcl).
    assert (closes = [] \/ closes = [ClosedClient] \/ closes = [ClosedUpstream; ClosedClient]) as Hcl' by set_solver.
    split; [done|]. split; [destruct Hcl' as [-> | [-> | ->]]; reflexivity|]. do 4 (split; [done|]).
    assert (bridge = use_openai_bridge cfg && negb (bool_decide (parsed = []))) as <-; [|done].
    destruct (request_headers _ _ _ _ _ _ H4) as (_ & _ & Hbr & _). apply eq_true_iff_eq. rewrite Hbr, andb_true_iff, negb_true_iff, bool_decide_eq_false. done.
Qed.
End route.

(** ** Examples *)

Module Sample.
(** A compact writer, as [json.dumps] with [separators=(",", ":")] *)
Definition quote : string := String (Ascii.ascii_of_nat 34) "".
Fixpoint escaped (s : string) : string :=
  match s with
  | EmptyString => ""
  | String c s =>
      (if Ascii.eqb c LF then "\n"
       else if Ascii.eqb c (Ascii.ascii_of_nat 34) || Ascii.eqb c (Ascii.ascii_of_nat 92) then String (Ascii.ascii_of_nat 92) (String c "")
       else String c "") +:+ escaped s
  end.
Definition quoted (s : string) : string := quote +:+ escaped s +:+ quote.
Fixpoint show (v : Json) : string :=
  match v with
  | JNull => "null"
  | JBool b => if b then "true" else "false"
  | JInt n => pretty.pretty n
  | JFloat m e => pretty.pretty m +:+ "e" +:+ pretty.pretty e
  | JStr s => quoted s
  | JArr l => "[" +:+ String.concat "," (map show l) +:+ "]"
  | JObj d => "{" +:+ String.concat "," (map (fun '(k, v) => quoted k +:+ ":" +:+ show v) d) +:+ "}"
  end.
Definition made_up (n : nat) : string := "0123456789abcdef0123456789abcdef".
(** The upstream's answer, in a chunk and whole *)
Definition chunk : Json := JObj [("choices", JArr [JObj [("delta", JObj [("content", JStr "hi")])]])].
Definition message : Json := JObj [("id", JStr "a"); ("choices", JArr [JObj [("message", JObj [("content", JStr "hi")])]])].
Definition events : list Json := Eval vm_compute in fst (bridged made_up "m" true [chunk]).
(** What the samples read: what is written for these values, and some bodies *)
Definition not_utf8 : string := String (Ascii.ascii_of_nat 255) "".
Definition loads (s : string) : result Exn Json :=
  if bool_decide (s = "S") then Ok (JObj [("model", JStr "m"); ("stream", JBool true); ("messages", JArr [])])
  else if bool_decide (s = "W") then Ok (JObj [("model", JStr "m"); ("messages", JArr [])])
  else if bool_decide (s = "M") then Ok (JObj [("stream", JBool true); ("messages", JInt 5)])
  else if bool_decide (s = not_utf8) then Err ValueError
  else if bool_decide (s = "[[") then Err RecursionError
  else match List.find (fun v => bool_decide (show v = s)) (chunk :: message :: events) with Some v => Ok v | None => Err JSONDecodeError end.
Definition text (v : Json) : string := match v with JStr s => s | _ => "" end.
Definition config : Config := MkConfig true (Some "http://up/ ") true.
Definition keys : Gate.AuthManager := Gate.mkAuth [] None None.
Definition streams (u : UpRequest) : option UpResponse :=
  Some (MkUpResponse 200 [("Connection", "close"); ("X-Id", "7")] (Some "Text/Event-Stream; charset=utf-8") (Some "") ["data: " +:+ show chunk; ""; "data: [DONE]"; ""] true).
Definition breaks (u : UpRequest) : option UpResponse :=
  Some (MkUpResponse 200 [] (Some "text/event-stream") (Some "") ["data: " +:+ show chunk; ""; "data: [["; ""; "data: [DONE]"; ""] true).
Definition answers (u : UpRequest) : option UpResponse := Some (MkUpResponse 200 [("content-type", "application/json")] (Some "application/json") (Some (show message)) [] true).
Definition refuses (u : UpRequest) : option UpResponse := Some (MkUpResponse 429 [("content-type", "text/plain")] (Some "text/plain") (Some "slow down") [] true).
Definition ask (body : string) : Call := MkCall (Some "127.0.0.1") [("authorization", "k"); ("Host", "h")] body None None.
Definition run (send : UpRequest -> option UpResponse) (rq : Call) := sanitize_messages loads show show show text made_up send keys config rq.
(** The answer's frames, and its whole content *)
Definition frames_of (r : result Raised Response) : list string := match r with Ok a => match a_body a with Frames f _ _ => f | Whole _ => [] end | Err _ => [] end.
Definition whole_of (r : result Raised Response) : option string := match r with Ok a => match a_body a with Frames _ _ _ => None | Whole c => Some c end | Err _ => None end.

Definition streamed : list Act * result Raised Response := Eval vm_compute in run streams (ask "S").
Definition answer : Response := Eval vm_compute in match snd (run streams (ask "S")) with Ok a => a | Err _ => not_found show end.
Definition written : list string := Eval vm_compute in frames_of (snd streamed).
Definition answered : list Act * result Raised Response := Eval vm_compute in run answers (ask "W").
Definition translated : Response := Eval vm_compute in match snd answered with Ok a => a | Err _ => not_found show end.
Definition content : string := Eval vm_compute in default "" (whole_of (snd answered)).

(** What is between the braces *)
Definition inner (e : Json) : string := let s := show e in String.substring 1 (String.length s - 2) s.
Lemma event_framable e : is_dict e = true -> loads (show e) = Ok e -> show e = "{" +:+ inner e +:+ "}" -> has_char LF (inner e) = false ->
  has_char LF (text (default (JStr "message") (jget e "type"))) = false -> framable loads show text e.
Proof. intros H1 H2 H3 H4 H5. split; [exact H1|exact H2|by exists (inner e)|exact H5]. Qed.
Lemma events_framable : Forall (framable loads show text) events.
Proof. unfold events. repeat apply Forall_cons_2; try apply Forall_nil_2; (apply event_framable; vm_compute; reflexivity). Qed.
End Sample.
Lemma route_streams_the_contract_witness : length Sample.written = 6%nat /\ Forall (framable Sample.loads Sample.show Sample.text) Sample.events
  /\ exists u up events,
  fst Sample.streamed = [MadeClient; Sent u true] /\ Sample.streams u = Some up /\ a_status Sample.answer = r_status up /\ is_event_stream (r_ctype up) = true
  /\ [ClosedUpstream; ClosedClient] = [ClosedUpstream; ClosedClient] /\ Sample.written = map (_format_sse Sample.show Sample.text) events
  /\ body_events Sample.loads Sample.made_up true up true events
  /\ (Forall (framable Sample.loads Sample.show Sample.text) events -> _iter_sse_events Sample.loads true (split_lines (joined Sample.written)) = (events, true)).
Proof.
  split; [vm_compute; reflexivity|]. split; [exact Sample.events_framable|].
  assert (sanitize_messages Sample.loads Sample.show Sample.show Sample.show Sample.text Sample.made_up Sample.streams Sample.keys Sample.config (Sample.ask "S") = (fst Sample.streamed, Ok Sample.answer)) as H by (vm_compute; reflexivity).
  exact (route_streams_the_contract Sample.loads Sample.show Sample.show Sample.show Sample.text Sample.made_up Sample.streams Sample.keys Sample.config (Sample.ask "S")
    (fst Sample.streamed) Sample.answer Sample.written true [ClosedUpstream; ClosedClient] H eq_refl).
Defined.
(** The sample's frames are those of its events, and they read back. *)
Example sample_reads_back : Sample.written = map (_format_sse Sample.show Sample.text) Sample.events
  /\ _iter_sse_events Sample.loads true (split_lines (joined Sample.written)) = (Sample.events, true).
Proof. split; [vm_compute; reflexivity|]. exact (frames_read Sample.loads Sample.show Sample.text Sample.events Sample.events_framable). Qed.

Lemma whole_answers_are_the_upstreams_witness :
  Sample.show Sample.message <> Sample.content /\
  forall a content, Ok Sample.translated = Ok (E := Raised) a -> a_body a = Whole content -> exists parsed is_stream u up c,
    read_body Sample.loads "W" = Ok (parsed, is_stream) /\ List.filter is_sent (fst Sample.answered) = [Sent u is_stream]
    /\ Sample.answers u = Some up /\ r_content up = Some c /\ a_status a = r_status up /\ (is_stream = true -> is_event_stream (r_ctype up) = false)
    /\ content_of Sample.loads Sample.show Sample.made_up (true && negb (bool_decide (parsed = [])) && negb is_stream && good_json up) c content.
Proof.
  split; [vm_compute; discriminate|].
  assert (sanitize_messages Sample.loads Sample.show Sample.show Sample.show Sample.text Sample.made_up Sample.answers Sample.keys Sample.config (Sample.ask "W") = (fst Sample.answered, Ok Sample.translated)) as H by (vm_compute; reflexivity).
  exact (whole_answers_are_the_upstreams Sample.loads Sample.show Sample.show Sample.show Sample.text Sample.made_up Sample.answers Sample.keys Sample.config (Sample.ask "W")
    (fst Sample.answered) (Ok Sample.translated) H).
Defined.
Example error_as_told : Sample.whole_of (snd (Sample.run Sample.refuses (Sample.ask "S"))) = Some "slow down" /\ Sample.whole_of (snd (Sample.run Sample.refuses (Sample.ask "W"))) = Some "slow down".
Proof. split; vm_compute; reflexivity. Qed.
(** A frame that raises anything but [JSONDecodeError] (here one that stands for text nested too deep)
    ends the body: what comes before it is sent, its block and its message are left open. *)
Example bad_frame_ends_the_body :
  match snd (Sample.run Sample.breaks (Sample.ask "S")) with
  | Ok (MkResponse _ _ _ (Frames frames whole _)) => (firstn 3 Sample.written, frames, whole)
  | _ => ([], [], true)
  end = (firstn 3 Sample.written, firstn 3 Sample.written, false).
Proof. vm_compute. reflexivity. Qed.

(** A call for a stream whose upstream cannot be reached, and one whose body the bridge refuses,
    leave the client open. *)
Example client_left_open :
  map (fun a => match a with ClosedClient => true | _ => false end) (fst (Sample.run (fun _ => None) (Sample.ask "S"))) = [false; false]
  /\ Sample.run Sample.streams (Sample.ask "M") = ([MadeClient], Err (RaisedExn Raise.TypeError)).
Proof. split; vm_compute; reflexivity. Qed.
(** A body that is not UTF-8 is not treated as one that asks for no stream: it raises. *)
Example body_not_text : Sample.run Sample.streams (Sample.ask Sample.not_utf8) = ([], Err (RaisedExn ValueError)).
Proof. vm_compute. reflexivity. Qed.
