(* ===== verification/AppPolicy.v ===== *)
(** The tool policy of the Codex adapter ([src/src/backends/appserver/policy.py]): which policies
    a session may start under, and which approvals are decided without the user.

    The environment ([DISALLOWED_TOOLS]) is an argument. Names are strings, as the request
    model types them. *)

From S2P Require Import Prelude Json CodexRequest.

(** ** [fnmatch.fnmatchcase] *)

(** The characters of a [[...]]: single ones, and ranges *)
Inductive SetItem := One (c : Ascii.ascii) | Range (lo hi : Ascii.ascii).
Inductive Glob := Star | AnyChar | Lit (c : Ascii.ascii) | Within (neg : bool) (l : list SetItem).

Definition code : Ascii.ascii -> nat := Ascii.nat_of_ascii.
Definition dash : Ascii.ascii := Ascii.ascii_of_nat 45.
Definition bang : Ascii.ascii := Ascii.ascii_of_nat 33.
Definition closing : Ascii.ascii := Ascii.ascii_of_nat 93.

(** What is before the next [c], and after it *)
Fixpoint cut_at (c : Ascii.ascii) (l : list Ascii.ascii) : option (list Ascii.ascii * list Ascii.ascii) :=
  match l with
  | [] => None
  | x :: l => if Ascii.eqb x c then Some ([], l) else match cut_at c l with Some (a, b) => Some (x :: a, b) | None => None end
  end.
(** The content of a [[...]] whose closing bracket is not its first character *)
Definition bracket (l : list Ascii.ascii) : option (bool * list Ascii.ascii * list Ascii.ascii) :=
  let (neg, l) := match l with x :: l' => if Ascii.eqb x bang then (true, l') else (false, l) | [] => (false, []) end in
  match l with
  | x :: l' =>
      if Ascii.eqb x closing then match cut_at closing l' with Some (a, b) => Some (neg, x :: a, b) | None => None end
      else match cut_at closing l with Some (a, b) => Some (neg, a, b) | None => None end
  | [] => None
  end.
(** Its items: a hyphen between two characters is a range, and an empty one is nothing *)
Fixpoint set_items (l : list Ascii.ascii) : list SetItem :=
  match l with
  | lo :: ((d :: hi :: l') as rest) =>
      if Ascii.eqb d dash then (if (code lo <=? code hi)%nat then [Range lo hi] else []) ++ set_items l' else One lo :: set_items rest
  | c :: l => One c :: set_items l
  | [] => []
  end.
Fixpoint globs (fuel : nat) (l : list Ascii.ascii) : list Glob :=
  match fuel, l with
  | O, _ | _, [] => []
  | S fuel, x :: l =>
      if Ascii.eqb x (Ascii.ascii_of_nat 42) then Star :: globs fuel l
      else if Ascii.eqb x (Ascii.ascii_of_nat 63) then AnyChar :: globs fuel l
      else if Ascii.eqb x (Ascii.ascii_of_nat 91) then
        match bracket l with
        | Some (neg, content, rest) => Within neg (set_items content) :: globs fuel rest
        | None => Lit x :: globs fuel l
        end
      else Lit x :: globs fuel l
  end.
Definition in_item (c : Ascii.ascii) (i : SetItem) : bool :=
  match i with One x => Ascii.eqb c x | Range lo hi => (code lo <=? code c)%nat && (code c <=? code hi)%nat end.
Definition glob_char (g : Glob) (c : Ascii.ascii) : bool :=
  match g with
  | Star => false
  | AnyChar => true
  | Lit x => Ascii.eqb c x
  | Within neg l => xorb neg (existsb (in_item c) l)
  end.
Fixpoint glob_match (p : list Glob) (s : list Ascii.ascii) : bool :=
  match p with
  | [] => match s with [] => true | _ => false end
  | Star :: p => (fix any (s : list Ascii.ascii) : bool := glob_match p s || match s with [] => false | _ :: s => any s end) s
  | g :: p => match s with c :: s => glob_char g c && glob_match p s | [] => false end
  end.
(** [fnmatch.fnmatchcase(name, pattern)]; a token takes a character at least, so the length is fuel
    enough. *)
Definition fnmatchcase (name pattern : string) : bool :=
  let p := String.list_ascii_of_string pattern in
  glob_match (globs (length p) p) (String.list_ascii_of_string name).

Example fnmatch_samples :
  map (fun np => fnmatchcase (fst np) (snd np))
    [("mcp__a__t", "mcp__*__t"); ("mcp__a__t", "mcp__*__u"); ("mcp__a", "mcp__?"); ("b", "[a-c]"); ("d", "[!a-c]"); ("-", "[a-]"); ("]", "[]]"); ("[", "["); ("x", "[z-a]"); ("x", "[!z-a]")]
  = [true; false; true; true; true; true; true; true; false; true].
Proof. reflexivity. Qed.

(** ** Vocabulary *)

Inductive Capability := FILESYSTEM_WRITE | SHELL_EXECUTE | NETWORK.
#[export] Instance Capability_eq_dec : EqDecision Capability.
Proof. solve_decision. Defined.

Definition _TOOL_TO_CAPABILITY : odict string Capability :=
  [("filesystem.write", FILESYSTEM_WRITE); ("write", FILESYSTEM_WRITE); ("edit", FILESYSTEM_WRITE); ("applypatch", FILESYSTEM_WRITE); ("apply_patch", FILESYSTEM_WRITE);
   ("shell.execute", SHELL_EXECUTE); ("shell", SHELL_EXECUTE); ("bash", SHELL_EXECUTE); ("exec", SHELL_EXECUTE); ("exec_command", SHELL_EXECUTE);
   ("network", NETWORK); ("web_search", NETWORK); ("websearch", NETWORK)].
Definition TOOL_NAME_ALIASES : odict string string :=
  [("Bash", "commandExecution"); ("BashOutput", "commandExecution"); ("KillShell", "commandExecution"); ("Edit", "fileChange"); ("Write", "fileChange"); ("NotebookEdit", "fileChange");
   ("shell.execute", "commandExecution"); ("shell", "commandExecution"); ("bash", "commandExecution"); ("exec", "commandExecution"); ("exec_command", "commandExecution");
   ("filesystem.write", "fileChange"); ("write", "fileChange"); ("edit", "fileChange"); ("apply_patch", "fileChange"); ("applypatch", "fileChange")].
Definition APPROVAL_METHOD_TO_TOOL : odict string string :=
  [("item/commandExecution/requestApproval", "commandExecution"); ("item/fileChange/requestApproval", "fileChange")].
Definition PERMISSION_MODE_TO_APPROVAL : odict string string :=
  [("bypassPermissions", "never"); ("default", "on-request"); ("acceptEdits", "on-request"); ("plan", "on-request")].
Definition _UNKNOWN_PERMISSION_MODE_FALLBACK : string := "on-request".
Definition _SANDBOX_ENFORCEABLE_DENIES : list Capability := [FILESYSTEM_WRITE; NETWORK].

(** ** The validator *)

Section policy.
(** The text of [DISALLOWED_TOOLS] *)
Context (env : string).

Definition _disallowed_from_env : list string := parse_csv env.
Definition or_empty (l : option (list string)) : list string := default [] l.

Definition has_tool_policy (allowed_tools disallowed_tools : option (list string)) : bool :=
  bool_decide (is_Some allowed_tools) || negb (bool_decide (or_empty disallowed_tools = [])) || negb (bool_decide (_disallowed_from_env = [])).

Definition resolve_approval_policy (permission_mode : option string) (has_policy : bool) (default_approval : option string) : string :=
  let resolved := match permission_mode with
                  | None => match default_approval with Some "" | None => "never" | Some a => a end
                  | Some mode => default _UNKNOWN_PERMISSION_MODE_FALLBACK (dict_get PERMISSION_MODE_TO_APPROVAL mode)
                  end in
  if has_policy && bool_decide (resolved = "never") then "on-request" else resolved.

Definition capability (name : string) : option Capability := dict_get _TOOL_TO_CAPABILITY (lower (strip name)).
Definition requested_denies (disallowed_tools : option (list string)) : list Capability := omap capability (or_empty disallowed_tools).
Definition _effective_disallowed (disallowed_tools : option (list string)) : list string :=
  filter (fun name => strip name <> "") (or_empty disallowed_tools ++ _disallowed_from_env).
Definition enforceable (name : string) : bool :=
  match capability name with Some cap => bool_decide (cap ∈ _SANDBOX_ENFORCEABLE_DENIES) | None => false end.
Definition unenforceable_denies (disallowed_tools : option (list string)) : list string :=
  filter (fun name => enforceable name = false) (_effective_disallowed disallowed_tools).

(** [CapabilityError] with what it refuses *)
Inductive CapabilityError := AllowListUnsupported | Unenforceable (names : list string) | ApprovalsOff.
Record RuntimePolicy := MkPolicy { sandbox : string; approvalPolicy : string }.

Definition resolve_runtime_policy (default_sandbox default_approval : string) (permission_mode : option string)
    (allowed_tools disallowed_tools : option (list string)) : result CapabilityError RuntimePolicy :=
  let denies := requested_denies disallowed_tools in
  let sandbox := if bool_decide (FILESYSTEM_WRITE ∈ denies) || bool_decide (NETWORK ∈ denies) then "read-only" else default_sandbox in
  if bool_decide (is_Some allowed_tools) then Err AllowListUnsupported
  else match unenforceable_denies disallowed_tools with
       | (_ :: _) as names => Err (Unenforceable names)
       | [] =>
           let tool_policy := has_tool_policy allowed_tools disallowed_tools in
           let approval := resolve_approval_policy permission_mode tool_policy (Some default_approval) in
           if tool_policy && bool_decide (approval = "never") then Err ApprovalsOff else Ok (MkPolicy sandbox approval)
       end.

(** ** Approvals *)

Definition _normalize_tool_names (names : list string) : list string := map (fun name => default name (dict_get TOOL_NAME_ALIASES name)) names.

(** ["_".join(label.split("-"))] *)
Definition underscored (label : string) : string := map_string (fun ch => if Ascii.eqb ch dash then underscore else ch) label.
Definition named (v : Json) : option string := match v with JStr s => if bool_decide (s = "") then None else Some s | _ => None end.
Definition _approval_tool_identities (method : string) (params : Json) : list string :=
  match dict_get APPROVAL_METHOD_TO_TOOL method with
  | None => []
  | Some tool =>
      if negb (is_dict params) then [tool]
      else
        match named (or_else (jget_null params "serverLabel") (jget_null params "serverName")) with
        | Some label =>
            let suffix := match named (jget_null params "toolName") with Some t => t | None => "*" end in
            tool :: map (fun s => "mcp__" +:+ s +:+ "__" +:+ suffix) [label; underscored label]
        | None => [tool]
        end
  end.

Definition _policy_matches (policy_names identities : list string) : bool :=
  existsb (fun name => existsb (fun identity => bool_decide (name = identity) || (starts_with name "mcp__" && fnmatchcase identity name)) identities) policy_names.

Definition should_auto_deny_approval (method : string) (params : Json) (allowed_tools disallowed_tools : option (list string)) : bool :=
  match _approval_tool_identities method params with
  | [] => false
  | identities =>
      _policy_matches (_normalize_tool_names (or_empty disallowed_tools ++ _disallowed_from_env)) identities
      || match allowed_tools with Some names => negb (_policy_matches (_normalize_tool_names names) identities) | None => false end
  end.
Definition should_auto_accept_approval (method : string) (permission_mode : option string) : bool :=
  bool_decide (permission_mode = Some "acceptEdits") && bool_decide (method = "item/fileChange/requestApproval").
End policy.

(** ** What it promises *)

Section laws.
Context (env : string).

Lemma approval_on mode default_approval : resolve_approval_policy mode true default_approval <> "never".
Proof using. unfold resolve_approval_policy. cbn [andb]. case_bool_decide; done. Qed.

(** A name the validator takes: a blank one, or the denial of writing or of the network *)
Definition takes (name : string) : Prop := strip name = "" \/ capability name = Some FILESYSTEM_WRITE \/ capability name = Some NETWORK.
Lemma enforceable_spec name : enforceable name = true <-> capability name = Some FILESYSTEM_WRITE \/ capability name = Some NETWORK.
Proof using. unfold enforceable, _SANDBOX_ENFORCEABLE_DENIES. destruct (capability name) as [[]|]; (split; [|intros [H|H]; done]); intros H; try done; auto. Qed.
Lemma unenforceable_none disallowed : unenforceable_denies env disallowed = [] <-> forall name, name ∈ or_empty disallowed ++ _disallowed_from_env env -> takes name.
Proof using.
  unfold unenforceable_denies, _effective_disallowed, takes. split.
  - intros H name Hin. destruct (decide (strip name = "")) as [|Hne]; [by left|]. right. apply enforceable_spec. destruct (enforceable name) eqn:E; [done|].
    assert (name ∈ @nil string) as []%not_elem_of_nil. rewrite <- H. apply list_elem_of_filter. split; [done|]. by apply list_elem_of_filter.
  - intros H. destruct (filter _ (filter _ _)) as [|name l] eqn:E; [done|]. exfalso.
    assert (name ∈ name :: l) as Hin by left. rewrite <- E in Hin. apply list_elem_of_filter in Hin as [He Hin]. apply list_elem_of_filter in Hin as [Hs Hin].
    destruct (H name Hin) as [?|Hc]; [done|]. apply enforceable_spec in Hc. congruence.
Qed.

Lemma denies_writes disallowed name : name ∈ or_empty disallowed -> strip name <> "" -> takes name ->
  bool_decide (FILESYSTEM_WRITE ∈ requested_denies disallowed) || bool_decide (NETWORK ∈ requested_denies disallowed) = true.
Proof using.
  intros Hin Hs [?|Hc]; [done|]. unfold requested_denies. apply orb_true_iff. rewrite !bool_decide_eq_true, !list_elem_of_omap.
  destruct Hc as [Hc|Hc]; [left|right]; by exists name.
Qed.

(** C36. The validator fails closed. A policy starts a session exactly when it has no allow-list
    and every name it disallows, the global ones included, is blank or denies writing or the
    network, whatever its case and blanks around it; the check for approvals that are off never
    refuses one. A session that starts with a request that disallows anything has the read-only
    sandbox, and with any disallowed name, requested or global, its approval policy is not
    [never]; with none it has the sandbox and the approvals it asked for. *)
Theorem validator_fails_closed default_sandbox default_approval mode allowed disallowed :
  let policy := resolve_runtime_policy env default_sandbox default_approval mode allowed disallowed in
  ((exists p, policy = Ok p) <-> allowed = None /\ forall name, name ∈ or_empty disallowed ++ _disallowed_from_env env -> takes name)
  /\ policy <> Err ApprovalsOff
  /\ forall p, policy = Ok p ->
     ((exists name, name ∈ or_empty disallowed /\ strip name <> "") -> sandbox p = "read-only")
     /\ (or_empty disallowed = [] -> sandbox p = default_sandbox)
     /\ (or_empty disallowed ++ _disallowed_from_env env <> [] -> approvalPolicy p <> "never")
     /\ (or_empty disallowed ++ _disallowed_from_env env = [] -> approvalPolicy p = resolve_approval_policy mode false (Some default_approval)).
Proof using.
  cbv zeta. unfold resolve_runtime_policy. destruct allowed as [l|].
  { rewrite bool_decide_eq_true_2 by (by eexists). split; [split; [by intros [? ?]|by intros [? _]]|done]. }
  rewrite bool_decide_eq_false_2 by (by intros [? ?]). pose proof (unenforceable_none disallowed) as Hu.
  destruct (unenforceable_denies env disallowed) as [|name names]; [|split; [split; [by intros [? ?]|intros [_ H]; by apply Hu in H]|done]].
  pose proof (proj1 Hu eq_refl) as Ht. clear Hu. set (policy := has_tool_policy env None disallowed).
  assert (policy && bool_decide (resolve_approval_policy mode policy (Some default_approval) = "never") = false) as ->.
  { destruct policy; [|done]. apply bool_decide_eq_false_2, approval_on. }
  split; [split; [done|by eexists]|]. split; [done|]. intros p [= <-]. cbn [sandbox approvalPolicy]. split; [|split; [|split]].
  - intros (name & Hin & Hs). rewrite (denies_writes disallowed name); [done..|]. apply Ht, elem_of_app. by left.
  - intros E. unfold requested_denies. by rewrite E.
  - intros Hne. replace policy with true; [apply approval_on|]. unfold policy, has_tool_policy. rewrite bool_decide_eq_false_2 by (by intros [? ?]). cbn [orb].
    case_bool_decide as E1; [|done]. case_bool_decide as E2; [|done]. by rewrite E1, E2 in Hne.
  - intros [E1 E2]%app_eq_nil. replace policy with false; [done|]. unfold policy, has_tool_policy. by rewrite E1, E2.
Qed.
End laws.

(** An approval whose tool a name denies is declined; what the user might say does not matter. *)
Lemma denied_is_declined env method params allowed disallowed tool name : dict_get APPROVAL_METHOD_TO_TOOL method = Some tool ->
  name ∈ or_empty disallowed ++ _disallowed_from_env env -> default name (dict_get TOOL_NAME_ALIASES name) = tool ->
  should_auto_deny_approval env method params allowed disallowed = true.
Proof.
  intros Em Hin Ea. unfold should_auto_deny_approval. assert (exists l, _approval_tool_identities method params = tool :: l) as [l ->].
  { unfold _approval_tool_identities. rewrite Em. destruct (negb (is_dict params)); [by eexists|]. destruct (named _); by eexists. }
  apply orb_true_iff. left. unfold _policy_matches. apply existsb_exists. exists tool. split.
  - unfold _normalize_tool_names. apply in_map_iff. exists name. split; [done|]. by apply list_elem_of_In.
  - apply existsb_exists. exists tool. split; [by left|]. by rewrite bool_decide_eq_true_2.
Qed.

(** A global denial of the network is taken, and not enforced: the sandbox is that of the
    request alone. *)
Example global_denial_unenforced :
  resolve_runtime_policy "WebSearch" "danger-full-access" "never" None None None = Ok (MkPolicy "danger-full-access" "on-request").
Proof. vm_compute. reflexivity. Qed.
(** A denial of writing in capitals is taken, and its approvals are then accepted for the user. *)
Example denied_edits_accepted :
  resolve_runtime_policy "" "danger-full-access" "never" (Some "acceptEdits") None (Some ["WRITE"]) = Ok (MkPolicy "read-only" "on-request")
  /\ should_auto_deny_approval "" "item/fileChange/requestApproval" (JObj []) None (Some ["WRITE"]) = false
  /\ should_auto_accept_approval "item/fileChange/requestApproval" (Some "acceptEdits") = true.
Proof. vm_compute. done. Qed.
