(* ===== verification/AppInteraction.v ===== *)
(** The human interactions of the Codex adapter: a native request as the card the user sees, the
    user's answer as the native result ([src/src/backends/appserver/interactions.py]), and what is
    decided or refused without the user ([_auto_decide_interaction], [_park_interaction] of
    [src/src/backends/appserver/client.py]).

    [json_loads] is Python's on text: of what it raises only [JSONDecodeError] (and, in two of the
    three places, [TypeError]) is suppressed, so an answer whose reading raises anything else is
    translated to no result; [repr] is [repr(v)]. *)

From S2P Require Import Prelude Json Raise AppPolicy.

Definition COMMAND_APPROVAL : string := "item/commandExecution/requestApproval".
Definition FILE_APPROVAL : string := "item/fileChange/requestApproval".
Definition PERMISSIONS_APPROVAL : string := "item/permissions/requestApproval".
Definition DECISION_METHODS : list string := [COMMAND_APPROVAL; FILE_APPROVAL].
Definition USER_INPUT : string := "item/tool/requestUserInput".
Definition DYNAMIC_TOOL_CALL : string := "item/tool/call".
Definition MCP_ELICITATION : string := "mcpServer/elicitation/request".

Definition _DECISION_DESCRIPTIONS : odict string string :=
  [("accept", "Approve this request once."); ("acceptForSession", "Approve matching requests for this session.");
   ("acceptWithExecpolicyAmendment", "Approve and apply the proposed execpolicy amendment."); ("applyNetworkPolicyAmendment", "Apply the proposed network policy rule.");
   ("decline", "Deny and let Codex continue."); ("cancel", "Deny and interrupt the turn.")].
Definition _DECISION_ALIASES : odict string string :=
  [("", "decline"); ("yes", "accept"); ("y", "accept"); ("allow", "accept"); ("approve", "accept"); ("approved", "accept"); ("once", "accept");
   ("no", "decline"); ("n", "decline"); ("deny", "decline"); ("denied", "decline"); ("reject", "decline"); ("rejected", "decline");
   ("always", "acceptForSession"); ("session", "acceptForSession"); ("stop", "cancel")].
Definition _KNOWN_DECISIONS : list string := ["accept"; "acceptForSession"; "decline"; "cancel"].

Definition interaction_kind (method : string) : string :=
  if bool_decide (method = COMMAND_APPROVAL) then "command_approval"
  else if bool_decide (method = FILE_APPROVAL) then "file_approval"
  else if bool_decide (method = PERMISSIONS_APPROVAL) then "permission_approval"
  else if bool_decide (method = USER_INPUT) then "user_input"
  else if bool_decide (method = MCP_ELICITATION) then "mcp_elicitation"
  else if bool_decide (method = DYNAMIC_TOOL_CALL) then "tool_call"
  else "approval".

Section interaction.
Context (json_loads : string -> result Exn Json) (repr : Json -> string).

(** ** The card *)

Definition has_key (v : Json) (key : string) : bool := bool_decide (is_Some (jget v key)).
Definition _decision_label (decision : Json) : string :=
  match decision with
  | JStr s => s
  | JObj ((first, _) :: _) =>
      if has_key decision "acceptWithExecpolicyAmendment" then "acceptWithExecpolicyAmendment"
      else if has_key decision "applyNetworkPolicyAmendment" then
        let policy := jget_null (jget_null decision "applyNetworkPolicyAmendment") "network_policy_amendment" in
        let action := jget_null policy "action" in
        let host := jget_null policy "host" in
        if truthy action && truthy host then "applyNetworkPolicyAmendment:" +:+ py_str repr action +:+ ":" +:+ py_str repr host
        else "applyNetworkPolicyAmendment"
      else first
  | _ => ""
  end.

(** The decisions offered, and their options *)
Definition decisions (kind : string) (params : Json) : list Json :=
  if bool_decide (kind = "permission_approval") then [JStr "accept"; JStr "acceptForSession"; JStr "decline"]
  else match jget_null params "availableDecisions" with
       | JArr (d :: l) => d :: l
       | _ => [JStr "accept"; JStr "acceptForSession"; JStr "decline"; JStr "cancel"]
       end.
Definition decision_option (decision : Json) : option Json :=
  let label := _decision_label decision in
  if bool_decide (label = "") then None
  else Some (JObj ([("label", JStr label); ("description", JStr (default ("Choose " +:+ label +:+ ".") (dict_get _DECISION_DESCRIPTIONS label)))]
                   ++ (if is_dict decision then [("decision", decision)] else []))).
Definition _decision_options (kind : string) (params : Json) : list Json := omap decision_option (decisions kind params).

Definition _approval_question_text (kind : string) (params : Json) : string :=
  if bool_decide (kind = "command_approval") then
    match nonempty (jget_null params "command") with
    | Some command => "Codex requests approval to run command: " +:+ command
    | None => "Codex requests approval to run a command."
    end
  else if bool_decide (kind = "file_approval") then "Codex requests approval to apply file changes."
  else if bool_decide (kind = "permission_approval") then "Codex requests additional permissions."
  else "Codex requests approval.".

Definition _option_label (o : Json) : option Json :=
  match o with
  | JStr s => Some (JObj [("label", JStr s)])
  | JObj _ =>
      match nonempty (or_else (or_else (jget_null o "label") (jget_null o "value")) (jget_null o "text")) with
      | Some label => Some (JObj ([("label", JStr label)] ++ match nonempty (jget_null o "description") with Some d => [("description", JStr d)] | None => [] end))
      | None => None
      end
  | _ => None
  end.

(** The card's question for a native one *)
Definition user_question (q : Json) : option Json :=
  if is_dict q then
    match nonempty (jget_null q "question") with
    | Some text =>
        let options := match jget_null q "options" with JArr l => omap _option_label l | _ => [] end in
        Some (JObj ([("question", JStr text)]
                    ++ match nonempty (jget_null q "header") with Some h => [("header", JStr h)] | None => [] end
                    ++ [("options", JArr options)]
                    ++ (if truthy (jget_null q "isSecret") then [("isSecret", JBool true)] else [])
                    ++ (if truthy (jget_null q "isOther") then [("isOther", JBool true)] else [])))
    | None => None
    end
  else None.
Definition _user_input_questions (params : Json) : list Json :=
  match jget_null params "questions" with JArr l => omap user_question l | _ => [] end.

Definition interaction_arguments (method : string) (params : Json) : Json :=
  let kind := interaction_kind method in
  JObj ([("kind", JStr kind)] ++
    (if bool_decide (method = USER_INPUT) then [("questions", JArr (_user_input_questions params))]
     else
       [("questions", JArr [JObj [("question", JStr (_approval_question_text kind params)); ("header", JStr "Approval"); ("options", JArr (_decision_options kind params))]])]
       ++ omap (fun key => match nonempty (jget_null params key) with Some v => Some (key, JStr v) | None => None end) ["command"; "cwd"; "reason"]
       ++ match jget params "permissions" with Some v => [("permissions", or_else v (JObj []))] | None => [] end)).

(** ** The answer *)

Definition _canonical_answers (output : string) : result Exn (option (list (list string))) :=
  match json_loads output with
  | Ok (JObj d) =>
      match dict_get d "answers" with
      | Some (JArr answers) => Ok (Some (map (fun a => match a with JArr l => map (py_str repr) l | _ => [py_str repr a] end) answers))
      | _ => Ok None
      end
  | Ok _ | Err JSONDecodeError | Err TypeError => Ok None
  | Err e => Err e
  end.

Definition _normalize_decision (value : string) : string :=
  let raw := strip value in
  if bool_decide (raw ∈ _KNOWN_DECISIONS) then raw else default "decline" (dict_get _DECISION_ALIASES raw).

Definition _decision_from_available_options (raw : string) (params : Json) : option Json :=
  match jget_null params "availableDecisions" with
  | JArr l => match List.find (fun d => bool_decide (raw = _decision_label d)) l with Some JNull | None => None | d => d end
  | _ => None
  end.

Definition _first_answer (output : string) : result Exn string :=
  let! canonical := _canonical_answers output in
  match canonical with
  | Some ((a :: _) :: _) => Ok a
  | _ =>
      match json_loads output with
      | Ok (JObj d) =>
          match dict_get d "decision" with
          | Some v => let label := _decision_label v in Ok (if bool_decide (label = "") then py_str repr v else label)
          | None => Ok output
          end
      | Ok (JStr s) => Ok s
      | Ok _ | Err JSONDecodeError => Ok output
      | Err e => Err e
      end
  end.

(** The answers of the questions from the [i]-th on *)
Fixpoint answers_from (canonical : list (list string)) (i : nat) (questions : list Json) (answers : odict string Json) : odict string Json :=
  match questions with
  | [] => answers
  | q :: questions =>
      match is_dict q, jget_null q "id" with
      | true, JNull | false, _ => answers_from canonical (S i) questions answers
      | true, qid => answers_from canonical (S i) questions
                       (dict_set answers (py_str repr qid) (JObj [("answers", JArr (map JStr (default [] (canonical !! i))))]))
      end
  end.

Definition answer_result_from_output (method output : string) (params : Json) : result Exn Json :=
  if bool_decide (method = USER_INPUT) then
    let! canonical := _canonical_answers output in
    Ok (JObj [("answers", JObj (match jget_null params "questions" with JArr l => answers_from (default [] canonical) 0 l [] | _ => [] end))])
  else if bool_decide (method = PERMISSIONS_APPROVAL) then
    let! raw := _first_answer output in
    let decision := _normalize_decision raw in
    if bool_decide (decision ∈ ["accept"; "acceptForSession"]) then
      Ok (JObj [("permissions", or_else (jget_null params "permissions") (JObj [])); ("scope", JStr (if bool_decide (decision = "acceptForSession") then "session" else "turn"))])
    else Ok (JObj [("permissions", JObj []); ("scope", JStr "turn")])
  else if bool_decide (method ∈ DECISION_METHODS) then
    let! raw := _first_answer output in
    match _decision_from_available_options raw params with
    | Some selected => Ok (JObj [("decision", selected)])
    | None => Ok (JObj [("decision", JStr (_normalize_decision raw))])
    end
  else
    match json_loads output with
    | Ok (JObj d) => Ok (JObj d)
    | Ok _ | Err JSONDecodeError | Err TypeError => Ok (JObj [("response", JStr output)])
    | Err e => Err e
    end.

(** ** Without the user *)

(** [_card_is_completable(arguments)] *)
Definition _card_is_completable (arguments : Json) : bool :=
  match jget_null arguments "questions" with
  | JArr (q :: l) => forallb (fun q => match jget_null q "options" with JArr (_ :: _) => true | _ => false end) (q :: l)
  | _ => false
  end.
(** [_auto_decide_interaction]: the answer it gives, if it decides *)
Definition _auto_decide_interaction (env method : string) (params : Json) (permission_mode : option string) (allowed disallowed : option (list string)) : option Json :=
  let params := if is_dict params then params else JObj [] in
  let deny := should_auto_deny_approval env method params allowed disallowed in
  let accept := negb deny && should_auto_accept_approval method permission_mode in
  if negb deny && negb accept then None
  else Some (if bool_decide (method = PERMISSIONS_APPROVAL) then JObj [("permissions", JObj []); ("scope", JStr "turn")]
             else JObj [("decision", JStr (if accept then "accept" else "decline"))]).
(** [_park_interaction]: the chunk that ends the stream with the card, or a refusal *)
Definition _park_interaction (method : string) (params : Json) (canonical_id thread_id turn_id : string) : option Json :=
  let params := if is_dict params then params else JObj [] in
  let arguments := interaction_arguments method params in
  if negb (_card_is_completable arguments) then None
  else Some (JObj [("type", JStr "assistant");
                   ("content", JArr [JObj [("type", JStr "tool_use"); ("id", JStr canonical_id); ("name", JStr "codex_approval"); ("input", arguments);
                     ("metadata", JObj [("codex_approval_request_id", JStr canonical_id); ("codex_approval_method", JStr method);
                                        ("codex_thread_id", JStr thread_id); ("codex_turn_id", JStr turn_id)])]])]).
End interaction.

(** ** What the card promises *)

Section laws.
Context (json_loads : string -> result Exn Json) (repr : Json -> string).
Notation label := (_decision_label repr).
Notation answer := (answer_result_from_output json_loads repr).

Lemma option_has_label d o : decision_option repr d = Some o -> jget_null o "label" = JStr (label d) /\ label d <> "".
Proof using. unfold decision_option. case_bool_decide; [done|]. intros [= <-]. done. Qed.
(** The user chose one option. *)
Definition chosen (l output : string) : Prop := json_loads output = Ok (JObj [("answers", JArr [JArr [JStr l]])]).
Lemma chosen_first l output : chosen l output -> _first_answer json_loads repr output = Ok l.
Proof using. intros H. unfold _first_answer, _canonical_answers. by rewrite H. Qed.

Lemma known_decision l : l ∈ _KNOWN_DECISIONS -> _normalize_decision l = l.
Proof using. unfold _KNOWN_DECISIONS. rewrite !elem_of_cons, elem_of_nil. intros [->|[->|[->|[->|[]]]]]; reflexivity. Qed.
Lemma available_some raw params d : _decision_from_available_options repr raw params = Some d ->
  exists l, jget_null params "availableDecisions" = JArr l /\ d ∈ l /\ label d = raw.
Proof using.
  unfold _decision_from_available_options. destruct (jget_null params "availableDecisions") as [| | | | |l|]; try done.
  destruct (List.find _ l) as [x|] eqn:E; [|done]. intros H. exists l. split; [done|].
  assert (x = d) as -> by (destruct x; try done; by injection H). apply find_some in E as [Hin E]. apply bool_decide_eq_true in E. split; [by apply list_elem_of_In|done].
Qed.

(** The words that approve, each with the decision it means *)
Definition means (word decision : string) : Prop :=
  (word, decision) ∈ [("accept", "accept"); ("yes", "accept"); ("y", "accept"); ("allow", "accept"); ("approve", "accept"); ("approved", "accept"); ("once", "accept");
                      ("acceptForSession", "acceptForSession"); ("always", "acceptForSession"); ("session", "acceptForSession")].
Lemma normalized raw : _normalize_decision raw ∈ ["decline"; "cancel"] \/ means (strip raw) (_normalize_decision raw).
Proof using.
  unfold _normalize_decision, means. case_bool_decide as Hk.
  - unfold _KNOWN_DECISIONS in Hk. rewrite !elem_of_cons, elem_of_nil in Hk. destruct Hk as [->|[->|[->|[->|[]]]]]; (by left; apply (bool_decide_unpack _)) || (right; by apply (bool_decide_unpack _)).
  - generalize (strip raw). clear. intros w. unfold _DECISION_ALIASES.
    cbn [dict_get]. repeat (case_decide; [subst w; (by left; apply (bool_decide_unpack _)) || (right; by apply (bool_decide_unpack _))|]). left. by apply (bool_decide_unpack _).
Qed.

Definition sends (result : result Exn Json) (d : Json) : Prop := result = Ok (JObj [("decision", d)]).
Lemma decision_methods method : method ∈ DECISION_METHODS -> method <> USER_INPUT /\ method <> PERMISSIONS_APPROVAL
  /\ interaction_kind method <> "permission_approval".
Proof using. unfold DECISION_METHODS. rewrite !elem_of_cons, elem_of_nil. intros [->|[->|[]]]; done. Qed.
Lemma decision_answer method output params : method ∈ DECISION_METHODS ->
  answer method output params = let! raw := _first_answer json_loads repr output in
    Ok (JObj [("decision", match _decision_from_available_options repr raw params with Some d => d | None => JStr (_normalize_decision raw) end)]).
Proof using.
  intros H. destruct (decision_methods method H) as (H1 & H2 & _). unfold answer_result_from_output. rewrite !bool_decide_eq_false_2, bool_decide_eq_true_2 by done.
  destruct (_first_answer _ _ _) as [raw|e]; [|done]. cbn [result_bind]. by destruct (_decision_from_available_options _ _ _).
Qed.
(** Only what reading the text raises keeps an answer from being read. *)
Lemma first_answer_raises output e : _first_answer json_loads repr output = Err e -> json_loads output = Err e /\ e <> JSONDecodeError.
Proof using.
  unfold _first_answer, _canonical_answers. destruct (json_loads output) as [[| | | | | |d]|e']; cbn [result_bind]; try done.
  - destruct (dict_get d "answers") as [[| | | | |l|]|]; cbn [result_bind]; try (by destruct (dict_get d "decision")).
    destruct (map _ l) as [|[|]]; [by destruct (dict_get d "decision")..|done].
  - destruct e'; cbn [result_bind]; try done; by intros [= <-].
Qed.

(** The decision the user chose is the one that is sent. For an approval of a command or of a
    file change, choosing an option of the card sends a decision that was offered and has the
    label of that option: the native object it stands for, not its label, where the decision is
    an object; and it is the very decision of the option when no other one has its label. *)
Theorem chosen_decision_is_sent method params d o output : method ∈ DECISION_METHODS ->
  d ∈ decisions (interaction_kind method) params -> decision_option repr d = Some o -> chosen (label d) output ->
  exists d', sends (answer method output params) d' /\ d' ∈ decisions (interaction_kind method) params /\ label d' = label d
    /\ ((forall x, x ∈ decisions (interaction_kind method) params -> label x = label d -> x = d) -> d' = d).
Proof using.
  intros Hm Hd Ho Hc. rewrite (decision_answer _ _ _ Hm), (chosen_first _ _ Hc). cbn [result_bind]. destruct (option_has_label _ _ Ho) as [_ Hne].
  destruct (decision_methods method Hm) as (_ & _ & Hk). unfold decisions in *. rewrite bool_decide_eq_false_2 in * by done.
  assert (forall l, jget_null params "availableDecisions" = JArr l -> l <> [] -> d ∈ l -> exists d', _decision_from_available_options repr (label d) params = Some d' /\ d' ∈ l /\ label d' = label d) as Hfind.
  { intros l El _ Hl. unfold _decision_from_available_options. rewrite El. destruct (List.find _ l) as [x|] eqn:E.
    - apply find_some in E as [Hin E]. apply bool_decide_eq_true in E. exists x. split; [destruct x; try done|]. split; [by apply list_elem_of_In|done].
    - exfalso. apply list_elem_of_In in Hl. pose proof (find_none _ _ E d Hl) as Hf. cbv beta in Hf. by apply bool_decide_eq_false in Hf. }
  assert (d ∈ [JStr "accept"; JStr "acceptForSession"; JStr "decline"; JStr "cancel"] -> _decision_from_available_options repr (label d) params = None ->
    exists d', sends (Ok (JObj [("decision", match _decision_from_available_options repr (label d) params with Some d => d | None => JStr (_normalize_decision (label d)) end)])) d' /\ d' = d) as Hdef.
  { intros Hin En. rewrite En. exists d. split; [|done]. rewrite !elem_of_cons, elem_of_nil in Hin.
    destruct Hin as [->|[->|[->|[->|[]]]]]; reflexivity. }
  destruct (jget_null params "availableDecisions") as [| | | | |l|] eqn:El;
    try (destruct (Hdef Hd) as (d' & Hs & ->); [unfold _decision_from_available_options; by rewrite El|]; exists d; done).
  destruct l as [|x l]; [destruct (Hdef Hd) as (d' & Hs & ->); [unfold _decision_from_available_options; by rewrite El|]; exists d; done|].
  destruct (Hfind (x :: l) eq_refl) as (d' & E & Hin & Hl); [done..|]. rewrite E. exists d'. split; [done|]. split; [done|]. split; [done|]. intros Hu. by apply Hu.
Qed.

(** C37. An answer approves only when it says so. Whatever the text of the answer, a command or a
    file change is sent a decision that was offered under the very text of the answer, or
    [decline] or [cancel], or an approval whose word the answer is, spaces aside; and a request
    for permissions is granted them only for such a word, for the session only for a word of the
    session. Everything else, text that is not JSON included, declines. Where reading the text
    raises anything but [JSONDecodeError] there is no answer, to any of these requests, and there
    is one in every other case. *)
Theorem answers_fail_closed method output params :
  match _first_answer json_loads repr output with
  | Ok said =>
      (method ∈ DECISION_METHODS -> exists d, sends (answer method output params) d /\
        ((exists l, jget_null params "availableDecisions" = JArr l /\ d ∈ l /\ label d = said)
         \/ d ∈ [JStr "decline"; JStr "cancel"] \/ exists w, d = JStr w /\ means (strip said) w))
      /\ (method = PERMISSIONS_APPROVAL ->
          answer method output params = Ok (JObj [("permissions", JObj []); ("scope", JStr "turn")])
          \/ exists w, means (strip said) w /\ answer method output params =
               Ok (JObj [("permissions", or_else (jget_null params "permissions") (JObj [])); ("scope", JStr (if bool_decide (w = "acceptForSession") then "session" else "turn"))]))
  | Err e => json_loads output = Err e /\ e <> JSONDecodeError /\ (method ∈ PERMISSIONS_APPROVAL :: DECISION_METHODS -> answer method output params = Err e)
  end.
Proof using.
  destruct (_first_answer json_loads repr output) as [said|e] eqn:E1.
  - split.
    + intros Hm. rewrite (decision_answer _ _ _ Hm), E1. cbn [result_bind]. destruct (_decision_from_available_options _ _ _) as [d|] eqn:E.
      * exists d. split; [done|]. left. by apply available_some.
      * eexists. split; [done|]. right. destruct (normalized said) as [H|H]; [left|right; by eexists].
        generalize dependent (_normalize_decision said). intros w H. rewrite !elem_of_cons, elem_of_nil in H. set_solver.
    + intros ->. unfold answer_result_from_output. rewrite bool_decide_eq_false_2, bool_decide_eq_true_2 by done. rewrite E1. cbn [result_bind]. cbv zeta.
      case_bool_decide as Hd; [right|by left]. exists (_normalize_decision said). split; [|done].
      destruct (normalized said) as [H|H]; [|done]. rewrite !elem_of_cons, elem_of_nil in *.
      destruct Hd as [Hd|[Hd|[]]], H as [H|[H|[]]]; rewrite Hd in H; done.
  - destruct (first_answer_raises _ _ E1) as [El He]. split; [done|]. split; [done|]. intros [->|Hm]%elem_of_cons.
    + unfold answer_result_from_output. rewrite bool_decide_eq_false_2, bool_decide_eq_true_2 by done. by rewrite E1.
    + by rewrite (decision_answer _ _ _ Hm), E1.
Qed.
End laws.

(** ** Questions *)

Section questions.
Context (json_loads : string -> result Exn Json) (repr : Json -> string).

(** A question the card can show: it has a text and an id. *)
Definition well_formed (q : Json) : Prop := is_dict q = true /\ is_Some (nonempty (jget_null q "question")) /\ jget_null q "id" <> JNull.
Definition qid (q : Json) : string := py_str repr (jget_null q "id").
Definition answered_with (answers : list (list string)) (output : string) : Prop :=
  json_loads output = Ok (JObj [("answers", JArr (map (fun a => JArr (map JStr a)) answers))]).

Lemma shown_question q : well_formed q -> exists card, user_question q = Some card /\ jget_null card "question" = jget_null q "question".
Proof using.
  intros (Hd & [t Ht] & _). unfold user_question. rewrite Hd, Ht. eexists. split; [done|].
  destruct (jget_null q "question"); try done. cbn in Ht. case_bool_decide; [done|]. by injection Ht as ->.
Qed.
Lemma shown_questions qs : Forall well_formed qs -> Forall2 (fun q card => user_question q = Some card /\ jget_null card "question" = jget_null q "question") qs (omap user_question qs).
Proof using.
  induction 1 as [|q qs Hq _ IH]; [constructor|]. destruct (shown_question q Hq) as (card & E & Et).
  change (omap user_question (q :: qs)) with (match user_question q with Some c => c :: omap user_question qs | None => omap user_question qs end). rewrite E. by constructor.
Qed.
Lemma strings_back (l : list string) : map (py_str repr) (map JStr l) = l.
Proof using. induction l as [|x l IH]; [done|]. cbn [map]. by rewrite IH. Qed.
Lemma canonical_answers answers output : answered_with answers output -> _canonical_answers json_loads repr output = Ok (Some answers).
Proof using.
  intros H. unfold _canonical_answers. rewrite H. cbn [dict_get]. rewrite decide_True by done. do 2 f_equal. clear H.
  induction answers as [|a l IH]; [done|]. cbn [map]. by rewrite strings_back, IH.
Qed.

Lemma answers_from_other answers qs k : forall i d, Forall well_formed qs -> k ∉ map qid qs -> dict_get (answers_from repr answers i qs d) k = dict_get d k.
Proof using.
  induction qs as [|q qs IH]; intros i d Hw Hk; [done|]. inversion_clear Hw as [|? ? (Hd & _ & Hi) Hws]. cbn [map] in Hk. apply not_elem_of_cons in Hk as [Hne Hk].
  cbn [answers_from]. rewrite Hd. unfold qid in Hne. destruct (jget_null q "id"); try done; rewrite IH by done; by apply dict_get_set_ne.
Qed.
Lemma answers_from_spec answers qs : Forall well_formed qs -> NoDup (map qid qs) -> forall i d j q, qs !! j = Some q ->
  dict_get (answers_from repr answers i qs d) (qid q) = Some (JObj [("answers", JArr (map JStr (default [] (answers !! (i + j)%nat))))]).
Proof using.
  induction qs as [|q0 qs IH]; intros Hw Hn i d j q Hj; [done|]. inversion_clear Hw as [|? ? (Hd & Hq & Hi) Hws]. cbn [map] in Hn. apply NoDup_cons in Hn as [Hnin Hn].
  assert (answers_from repr answers i (q0 :: qs) d = answers_from repr answers (S i) qs (dict_set d (qid q0) (JObj [("answers", JArr (map JStr (default [] (answers !! i))))]))) as ->.
  { cbn [answers_from]. rewrite Hd. unfold qid. by destruct (jget_null q0 "id"). }
  destruct j as [|j]; cbn in Hj.
  - injection Hj as <-. rewrite answers_from_other by done. by rewrite dict_get_set_eq, Nat.add_0_r.
  - rewrite (IH Hws Hn (S i) _ j q Hj). by rewrite Nat.add_succ_comm.
Qed.
End questions.

(** C38. The answers go to the questions the user saw them under. When every native question can be
    shown and their ids differ, the card shows them all in their order, and the result gives each
    question's id exactly the options selected at its position, and none where the user gave
    fewer. *)
Theorem answers_reach_their_questions json_loads repr params qs answers output i q :
  jget_null params "questions" = JArr qs -> Forall well_formed qs -> NoDup (map (qid repr) qs) -> answered_with json_loads answers output -> qs !! i = Some q ->
  length (_user_input_questions params) = length qs
  /\ (exists card, _user_input_questions params !! i = Some card /\ jget_null card "question" = jget_null q "question")
  /\ exists result, answer_result_from_output json_loads repr USER_INPUT output params = Ok (JObj [("answers", JObj result)])
     /\ dict_get result (qid repr q) = Some (JObj [("answers", JArr (map JStr (default [] (answers !! i))))]).
Proof.
  intros Eq Hw Hn Ha Hi. unfold _user_input_questions. rewrite Eq. pose proof (shown_questions qs Hw) as F. split; [symmetry; by eapply Forall2_length|]. split.
  - destruct (Forall2_lookup_l _ _ _ _ _ F Hi) as (card & E & _ & Et). by exists card.
  - unfold answer_result_from_output. rewrite bool_decide_eq_true_2 by done. rewrite Eq, (canonical_answers _ _ _ _ Ha). cbn [result_bind]. eexists. split; [done|].
    exact (answers_from_spec repr answers qs Hw Hn 0 [] i q Hi).
Qed.

(** ** Examples *)

Definition two_questions : Json :=
  JObj [("questions", JArr [JObj [("id", JStr "a"); ("question", JStr "Color?"); ("options", JArr [JStr "red"; JStr "blue"])];
                            JObj [("id", JStr "b"); ("question", JStr "Size?"); ("options", JArr [JStr "big"])]])].
Definition reads_answers (s : string) : result Exn Json :=
  if bool_decide (s = "A") then Ok (JObj [("answers", JArr [JArr [JStr "blue"]; JArr [JStr "big"]])])
  else if bool_decide (s = "B") then Ok (JObj [("answers", JArr [JArr [JStr "big"]])])
  else if bool_decide (s = "C") then Ok (JObj [("answers", JArr [JArr [JStr "accept"]])])
  else if bool_decide (s = "D") then Ok (JObj [("answers", JArr [JArr [JStr "always"]])])
  else if bool_decide (s = "[[") then Err RecursionError
  else Err JSONDecodeError.

Lemma answers_reach_their_questions_witness :
  length (_user_input_questions two_questions) = 2%nat
  /\ (exists card, _user_input_questions two_questions !! 1%nat = Some card /\ jget_null card "question" = JStr "Size?")
  /\ exists result, answer_result_from_output reads_answers (fun _ => "") USER_INPUT "A" two_questions = Ok (JObj [("answers", JObj result)])
     /\ dict_get result "b" = Some (JObj [("answers", JArr [JStr "big"])]).
Proof.
  apply (answers_reach_their_questions reads_answers (fun _ => "") two_questions
    [JObj [("id", JStr "a"); ("question", JStr "Color?"); ("options", JArr [JStr "red"; JStr "blue"])];
     JObj [("id", JStr "b"); ("question", JStr "Size?"); ("options", JArr [JStr "big"])]]
    [["blue"]; ["big"]] "A" 1 (JObj [("id", JStr "b"); ("question", JStr "Size?"); ("options", JArr [JStr "big"])])).
  - reflexivity.
  - repeat constructor; try (vm_compute; discriminate); eexists; vm_compute; reflexivity.
  - apply (bool_decide_unpack _). vm_compute. exact I.
  - vm_compute. reflexivity.
  - reflexivity.
Defined.

Definition a_command : Json := JObj [("command", JStr "ls")].
Lemma chosen_decision_is_sent_witness :
  exists d', sends (answer_result_from_output reads_answers (fun _ => "") COMMAND_APPROVAL "C" a_command) d'
    /\ d' ∈ decisions (interaction_kind COMMAND_APPROVAL) a_command /\ _decision_label (fun _ => "") d' = "accept"
    /\ ((forall x, x ∈ decisions (interaction_kind COMMAND_APPROVAL) a_command -> _decision_label (fun _ => "") x = "accept" -> x = JStr "accept") -> d' = JStr "accept").
Proof.
  apply (chosen_decision_is_sent reads_answers (fun _ => "") COMMAND_APPROVAL a_command (JStr "accept")
    (JObj [("label", JStr "accept"); ("description", JStr "Approve this request once.")]) "C").
  - apply (bool_decide_unpack _). vm_compute. exact I.
  - apply list_elem_of_In. left. reflexivity.
  - reflexivity.
  - reflexivity.
Defined.

(** A question without a text is not shown, but is counted: the answer to the question after it goes
    to the one the user did not see. *)
Example hidden_question_takes_the_answer :
  let params := JObj [("questions", JArr [JObj [("id", JStr "a"); ("question", JStr "")]; JObj [("id", JStr "b"); ("question", JStr "Size?"); ("options", JArr [JStr "big"])]])] in
  _card_is_completable (interaction_arguments (fun _ => "") USER_INPUT params) = true
  /\ answer_result_from_output reads_answers (fun _ => "") USER_INPUT "B" params =
     Ok (JObj [("answers", JObj [("a", JObj [("answers", JArr [JStr "big"])]); ("b", JObj [("answers", JArr [])])])]).
Proof. vm_compute. done. Qed.
(** A decision for the session is sent though only a decision for once was offered. *)
Example session_not_offered :
  answer_result_from_output reads_answers (fun _ => "") COMMAND_APPROVAL "D" (JObj [("availableDecisions", JArr [JStr "accept"; JStr "decline"])])
  = Ok (JObj [("decision", JStr "acceptForSession")]).
Proof. vm_compute. reflexivity. Qed.
(** Text that is not JSON declines; text nested too deep is no answer at all, and the request stays
    open. *)
Example unreadable_answer :
  answer_result_from_output reads_answers (fun _ => "") COMMAND_APPROVAL "maybe" a_command = Ok (JObj [("decision", JStr "decline")])
  /\ answer_result_from_output reads_answers (fun _ => "") COMMAND_APPROVAL "[[" a_command = Err RecursionError.
Proof. split; vm_compute; reflexivity. Qed.
