(* ===== verification/AppTurn.v ===== *)
(** A turn of the Codex adapter: the notifications of the app-server as the chunks of a backend
    ([src/src/backends/appserver/events.py], [subagents.py], [completion_chunks] and [error_chunk]
    of [src/src/backends/common.py]), and the loop that drives it ([_drive_turn] of [client.py]).

    [json_dumps] and [repr] are Python's; [canonical_id] is the id made up for a card. *)

From S2P Require Import Prelude Json Raise AppPolicy AppInteraction.

(** ** Subagents *)

Inductive SubKind := Spawned | Progress | Terminal.
Record SubAgentEvent := MkSub {
  s_kind : SubKind; child_id : string; parent_id : option string; s_status : option string; description : option string; role : option string;
}.
Definition SPAWN_METHODS : list string := ["thread/started"; "thread/spawned"; "thread/spawn"].
Definition ITEM_METHODS : list string := ["item/started"; "item/updated"; "item/completed"].
Definition SUBAGENT_ITEM_TYPES : list string := ["subAgentActivity"].
Definition _TERMINAL_STATES : odict string string :=
  [("completed", "completed"); ("succeeded", "completed"); ("success", "completed"); ("failed", "failed"); ("error", "failed");
   ("interrupted", "killed"); ("cancelled", "killed"); ("canceled", "killed"); ("closed", "stopped"); ("stopped", "stopped")].

Fixpoint _first_str (source : Json) (keys : list string) : option string :=
  match keys with
  | [] => None
  | key :: keys => match nonempty (jget_null source key) with Some s => Some s | None => _first_str source keys end
  end.
Definition _from_thread (thread : Json) : option SubAgentEvent :=
  match _first_str thread ["id"; "threadId"], _first_str thread ["parentThreadId"; "parent_thread_id"] with
  | Some child, Some parent =>
      Some (MkSub Spawned child (Some parent) None (_first_str thread ["description"; "title"; "path"]) (_first_str thread ["role"; "nickname"; "name"]))
  | _, _ => None
  end.
Definition _from_item (item : Json) (owner_thread_id : option string) : result Exn (option SubAgentEvent) :=
  let! activity := in_set (jget_null item "type") SUBAGENT_ITEM_TYPES in
  Ok (if negb activity then None
      else match _first_str item ["agentThreadId"; "agent_thread_id"] with
           | None => None
           | Some child =>
               let description := _first_str item ["agentPath"; "agent_path"] in
               let raw_kind := lower (default "" (_first_str item ["kind"])) in
               match dict_get _TERMINAL_STATES raw_kind with
               | Some status => Some (MkSub Terminal child owner_thread_id (Some status) description None)
               | None => Some (MkSub (if bool_decide (raw_kind = "started") then Spawned else Progress) child owner_thread_id None description None)
               end
           end).
Definition normalize_subagent_event (method : string) (params : Json) : result Exn (option SubAgentEvent) :=
  if bool_decide (method ∈ SPAWN_METHODS) then
    Ok (match jget_null params "thread" with JObj d => _from_thread (JObj d) | _ => None end)
  else if bool_decide (method ∈ ITEM_METHODS) then
    match jget_null params "item" with
    | JObj d => _from_item (JObj d) (match jget_null params "threadId" with JStr s => Some s | _ => None end)
    | _ => Ok None
    end
  else Ok None.

(** ** Chunks *)

Definition stream_event (event : list (string * Json)) : Json := JObj [("type", JStr "stream_event"); ("event", JObj event)].
Definition _text_delta (text : string) : Json :=
  stream_event [("type", JStr "content_block_delta"); ("delta", JObj [("type", JStr "text_delta"); ("text", JStr text)])].
Definition _thinking_start : Json := stream_event [("type", JStr "content_block_start"); ("content_block", JObj [("type", JStr "thinking")])].
Definition _thinking_delta (text : string) : Json :=
  stream_event [("type", JStr "content_block_delta"); ("delta", JObj [("type", JStr "thinking_delta"); ("thinking", JStr text)])].
Definition _thinking_stop : Json := stream_event [("type", JStr "content_block_stop")].
Definition error_chunk (message : string) : Json := JObj [("type", JStr "error"); ("is_error", JBool true); ("error_message", JStr message)].
Definition completion_chunks (text : string) (usage : option (Z * Z)) : list Json :=
  let tokens := match usage with Some (i, o) => [("usage", JObj [("input_tokens", JInt i); ("output_tokens", JInt o)])] | None => [] end in
  [JObj ([("type", JStr "assistant"); ("content", JArr [JObj [("type", JStr "text"); ("text", JStr text)]])] ++ tokens);
   JObj ([("type", JStr "result"); ("subtype", JStr "success"); ("result", JStr text)] ++ tokens)].
Definition assistant_chunk (block : Json) : Json := JObj [("type", JStr "assistant"); ("content", JArr [block])].
Definition user_chunk (block : Json) : Json := JObj [("type", JStr "user"); ("content", JArr [block])].
Definition _gateway_interrupt_chunk (message : string) : Json :=
  JObj [("type", JStr "result"); ("subtype", JStr "error_during_execution"); ("is_error", JBool true); ("error_message", JStr message); ("gateway_interrupted", JBool true)].

Definition opt_json (o : option string) : Json := match o with Some s => JStr s | None => JNull end.
(** [_task_chunk(subtype, event, status=...)] *)
Definition _task_chunk (subtype : string) (event : SubAgentEvent) (status : option string) : Json :=
  JObj ([("type", JStr "system"); ("subtype", JStr subtype); ("task_id", JStr (child_id event)); ("task_type", JStr "local_agent"); ("parent_tool_use_id", opt_json (parent_id event))]
        ++ match description event with Some d => [("description", JStr d)] | None => [] end
        ++ match role event with Some r => [("subagent_type", JStr r)] | None => [] end
        ++ (if bool_decide (subtype = "task_notification") then [("status", JStr (match status with Some "" | None => "completed" | Some s => s end))]
            else if bool_decide (subtype = "task_updated") then [("status", opt_json status); ("patch", JObj [("status", opt_json status)])] else [])).

(** ** The mapper *)

Record TurnMapper := MkMapper {
  thread_id : option string;
  turn_id : option string;
  items : list Json;
  usage : option (Z * Z);
  in_reasoning : bool;
  finished : bool;
  errored : bool;
  open_subagents : odict string (option string);
}.
Definition new_mapper (thread turn : option string) : TurnMapper := MkMapper thread turn [] None false false false [].
Definition set_items (x : list Json) (m : TurnMapper) : TurnMapper := MkMapper (thread_id m) (turn_id m) x (usage m) (in_reasoning m) (finished m) (errored m) (open_subagents m).
Definition set_usage (x : option (Z * Z)) (m : TurnMapper) : TurnMapper := MkMapper (thread_id m) (turn_id m) (items m) x (in_reasoning m) (finished m) (errored m) (open_subagents m).
Definition set_reasoning (x : bool) (m : TurnMapper) : TurnMapper := MkMapper (thread_id m) (turn_id m) (items m) (usage m) x (finished m) (errored m) (open_subagents m).
Definition set_finished (e : bool) (m : TurnMapper) : TurnMapper := MkMapper (thread_id m) (turn_id m) (items m) (usage m) (in_reasoning m) true e (open_subagents m).
Definition set_open_subagents (x : odict string (option string)) (m : TurnMapper) : TurnMapper := MkMapper (thread_id m) (turn_id m) (items m) (usage m) (in_reasoning m) (finished m) (errored m) x.
Definition succeeded (m : TurnMapper) : bool := finished m && negb (errored m).

Definition TOOL_ITEM_TYPES : list string := ["commandExecution"; "fileChange"; "mcpToolCall"; "dynamicToolCall"].
Definition REASONING_DELTA_METHOD : string := "item/reasoning/textDelta".
Definition REASONING_SUMMARY_DELTA_METHOD : string := "item/reasoning/summaryTextDelta".

Definition _open_reasoning (m : TurnMapper) : list Json * TurnMapper := if in_reasoning m then ([], m) else ([_thinking_start], set_reasoning true m).
Definition _close_reasoning (m : TurnMapper) : list Json * TurnMapper := if in_reasoning m then ([_thinking_stop], set_reasoning false m) else ([], m).
Definition drain_open_subagents (status : string) (m : TurnMapper) : list Json * TurnMapper :=
  (map (fun cp => _task_chunk "task_updated" (MkSub Terminal (fst cp) (snd cp) None None None) (Some status)) (open_subagents m), set_open_subagents [] m).

Definition _map_subagent (event : SubAgentEvent) (m : TurnMapper) : list Json * TurnMapper :=
  match s_kind event with
  | Spawned =>
      if dict_has (open_subagents m) (child_id event) then ([_task_chunk "task_progress" event None], m)
      else ([_task_chunk "task_started" event None], set_open_subagents (dict_set (open_subagents m) (child_id event) (parent_id event)) m)
  | Progress => ([_task_chunk "task_progress" event None], m)
  | Terminal =>
      let m := set_open_subagents (dict_del (open_subagents m) (child_id event)) m in
      let status := match s_status event with Some "" | None => "stopped" | Some s => s end in
      ([_task_chunk (if bool_decide (status = "completed") then "task_notification" else "task_updated") event (Some status)], m)
  end.

Section mapper.
Context (json_dumps : Json -> string) (repr : Json -> string).

Definition without (keys : list string) (item : Json) : Json :=
  match item with JObj d => JObj (filter (fun kv => fst kv ∉ keys) d) | v => v end.
(** The type and the id of a tool's item *)
Definition tool_item (item : Json) : result Exn (option (string * string)) :=
  let! tool := in_set (jget_null item "type") TOOL_ITEM_TYPES in
  Ok (match tool, jget_null item "type", nonempty (jget_null item "id") with
      | true, JStr type, Some id => Some (type, id)
      | _, _, _ => None
      end).
Definition _tool_use_from_item (item : Json) : result Exn (option Json) :=
  if negb (is_dict item) then Ok None
  else
    let! tool := tool_item item in
    Ok (match tool with
        | Some (type, id) => Some (JObj [("type", JStr "tool_use"); ("id", JStr id); ("name", JStr type); ("input", without ["id"; "type"; "aggregatedOutput"] item)])
        | None => None
        end).
Definition _tool_result_from_item (item : Json) : result Exn (option Json) :=
  let! tool := tool_item item in
  Ok (match tool with
      | None => None
      | Some (type, id) =>
          let status := py_str repr (or_else (jget_null item "status") (JStr "")) in
          let failed := bool_decide (status ∈ ["failed"; "declined"]) in
          let exit_code := jget_null item "exitCode" in
          let '(content, is_error) :=
            if bool_decide (type = "commandExecution") then
              (match nonempty (jget_null item "aggregatedOutput") with
               | Some c => c
               | None => json_dumps (JObj [("status", JStr status); ("exitCode", exit_code); ("command", jget_null item "command")])
               end, failed || match as_int exit_code with Some n => negb (n =? 0) | None => false end)
            else (json_dumps (without ["id"; "type"] item), failed) in
          Some (JObj [("type", JStr "tool_result"); ("tool_use_id", JStr id); ("content", JStr content); ("is_error", JBool is_error)])
      end).

(** The loop of [_final_response_from_items], on the items from the last one *)
Fixpoint final_response (items : list Json) (last_unknown_phase : option string) : option string :=
  match items with
  | [] => last_unknown_phase
  | item :: items =>
      match is_str (jget_null item "type") "agentMessage", jget_null item "text" with
      | true, JStr text =>
          if is_str (jget_null item "phase") "final_answer" then Some text
          else final_response items (if is_null (jget_null item "phase") && bool_decide (last_unknown_phase = None) then Some text else last_unknown_phase)
      | _, _ => final_response items last_unknown_phase
      end
  end.
Definition _final_response_from_items (m : TurnMapper) : option string := final_response (rev (items m)) None.
Definition _extract_usage (token_usage : Json) : result Exn (option (Z * Z)) :=
  match jget_null token_usage "last" with
  | JObj d =>
      let! input := int_or_0 (jget_null (JObj d) "inputTokens") in
      let! output := int_or_0 (jget_null (JObj d) "outputTokens") in
      let! reasoning := int_or_0 (jget_null (JObj d) "reasoningOutputTokens") in
      Ok (Some (input, output + reasoning))
  | _ => Ok None
  end.
Definition _turn_error_message (turn : Json) : string :=
  let message := jget_null (jget_null turn "error") "message" in
  if truthy message then py_str repr message else "Codex turn failed".
Definition _is_thread_idle (m : TurnMapper) (method : string) (params : Json) : bool :=
  match thread_id m with
  | Some id => negb (bool_decide (id = "")) && bool_decide (method = "thread/status/changed") && is_str (jget_null params "threadId") id
               && is_str (jget_null (jget_null params "status") "type") "idle"
  | None => false
  end.

(** [finish()] *)
Definition finish (m : TurnMapper) : list Json * TurnMapper :=
  if finished m then ([], m)
  else
    let (a, m) := _close_reasoning m in
    let (b, m) := drain_open_subagents "stopped" m in
    (a ++ b ++ completion_chunks (default "" (_final_response_from_items m)) (usage m), set_finished (errored m) m).

(** The turn a notification is about *)
Definition turn_of (params : Json) : Json := match jget_null params "turn" with JObj d => JObj d | _ => JNull end.
Definition notified_turn (params : Json) : Json :=
  match turn_of params with
  | JObj d => or_else (jget_null (JObj d) "id") (jget_null params "turnId")
  | _ => jget_null params "turnId"
  end.
Definition other_turn (m : TurnMapper) (params : Json) : bool :=
  match turn_id m with
  | Some id => negb (is_null (notified_turn params)) && negb (is_str (notified_turn params) id)
  | None => false
  end.

Definition ok (o : list Json * TurnMapper) : list Json * result Exn TurnMapper := (fst o, Ok (snd o)).

(** [map_notification(method, params)]: what is yielded, and the mapper or what was raised *)
Definition map_notification (m : TurnMapper) (method : string) (params : Json) : list Json * result Exn TurnMapper :=
  if finished m || negb (is_dict params) then ([], Ok m)
  else
    match normalize_subagent_event method params with
    | Err e => ([], Err e)
    | Ok (Some event) => ok (_map_subagent event m)
    | Ok None =>
        if _is_thread_idle m method params then ok (finish m)
        else if other_turn m params then ([], Ok m)
        else if bool_decide (method = "item/agentMessage/delta") then
          let (a, m) := _close_reasoning m in
          (a ++ match nonempty (jget_null params "delta") with Some d => [_text_delta d] | None => [] end, Ok m)
        else if bool_decide (method = REASONING_DELTA_METHOD) then
          match nonempty (jget_null params "delta") with
          | Some d => let (a, m) := _open_reasoning m in (a ++ [_thinking_delta d], Ok m)
          | None => ([], Ok m)
          end
        else if bool_decide (method = REASONING_SUMMARY_DELTA_METHOD) then ([], Ok m)
        else if bool_decide (method = "item/started") then
          let (a, m) := _close_reasoning m in
          match _tool_use_from_item (jget_null params "item") with
          | Err e => (a, Err e)
          | Ok (Some tool_use) => (a ++ [assistant_chunk tool_use], Ok m)
          | Ok None => (a, Ok m)
          end
        else if bool_decide (method = "item/completed") then
          let item := jget_null params "item" in
          if negb (is_dict item) then ([], Ok m)
          else match _tool_result_from_item item with
               | Err e => ([], Err e)
               | Ok (Some tool_result) => let (a, m) := _close_reasoning m in (a ++ [user_chunk tool_result], Ok m)
               | Ok None => ([], Ok (set_items (items m ++ [item]) m))
               end
        else if bool_decide (method = "thread/tokenUsage/updated") then
          match _extract_usage (jget_null params "tokenUsage") with
          | Err e => ([], Err e)
          | Ok (Some u) => ([], Ok (set_usage (Some u) m))
          | Ok None => ([], Ok m)
          end
        else if bool_decide (method = "turn/completed") then
          if is_str (jget_null (turn_of params) "status") "failed" then
            let (a, m) := _close_reasoning m in
            let (b, m) := drain_open_subagents "failed" m in
            (a ++ b ++ [error_chunk (_turn_error_message (turn_of params))], Ok (set_finished true m))
          else ok (finish m)
        else ([], Ok m)
    end.
End mapper.

(** ** The loop *)

(** What the subscription gives, or no output in time *)
Inductive Item :=
| Notification (method : string) (params : Json)
| PendingInteraction (method : string) (params : Json)
| OrphanedResponse
| AmbiguousRequest (method reason : string)
| TerminalEvent (reason : string)
| SubscriberOverflow
| Silence.
(** What the loop tells the transport *)
Inductive Reply := Answered (answer : Json) | FailedClosed.
(** How it ended: the subscription goes on, the turn is over (a good end seeds the thread), the
    turn is parked on a card, or something raised *)
Inductive Driven := Waiting (m : TurnMapper) | Over (durable : bool) | Parked (m : TurnMapper) | Escaped (e : Exn).

(** [_is_turn_completed(item, turn_id)] *)
Definition _is_turn_completed (method : string) (params : Json) (turn_id : option string) : bool :=
  bool_decide (method = "turn/completed")
  && match turn_id with Some id => is_null (notified_turn params) || is_str (notified_turn params) id | None => true end.

Section drive.
Context (json_dumps : Json -> string) (repr : Json -> string) (canonical_id : string).
(** The client: [DISALLOWED_TOOLS] and its own policy *)
Context (env : string) (permission_mode : option string) (allowed_tools disallowed_tools : option (list string)).

(** [_drive_turn]: each item with whether the response was being cancelled when it was waited
    for. *)
Fixpoint _drive_turn (m : TurnMapper) (arrivals : list (bool * Item)) : list Json * list Reply * Driven :=
  let over status chunk := (fst (drain_open_subagents status m) ++ [chunk], [] : list Reply, Over false) in
  match arrivals with
  | [] => ([], [], Waiting m)
  | (cancelling, item) :: arrivals =>
      match item with
      | Silence => if cancelling then over "killed" (_gateway_interrupt_chunk "Codex turn interrupted") else over "failed" (error_chunk "Codex turn stalled (no output)")
      | Notification method params =>
          if cancelling && _is_turn_completed method params (turn_id m) then over "killed" (_gateway_interrupt_chunk "Codex turn interrupted")
          else
            match map_notification json_dumps repr m method params with
            | (a, Err e) => (a, [], Escaped e)
            | (a, Ok m) => if finished m then (a, [], Over (succeeded m))
                           else let '(b, replies, d) := _drive_turn m arrivals in (a ++ b, replies, d)
            end
      | PendingInteraction method params =>
          match _auto_decide_interaction env method params permission_mode allowed_tools disallowed_tools with
          | Some answer => let '(b, replies, d) := _drive_turn m arrivals in (b, Answered answer :: replies, d)
          | None =>
              match _park_interaction repr method params canonical_id (default "" (thread_id m)) (default "" (turn_id m)) with
              | None => let '(b, replies, d) := _drive_turn m arrivals in (b, FailedClosed :: replies, d)
              | Some chunk => ([chunk], [], Parked m)
              end
          end
      | OrphanedResponse => _drive_turn m arrivals
      | AmbiguousRequest method reason =>
          over "failed" (error_chunk ("Codex request outcome is ambiguous (" +:+ method +:+ "); not replayed (" +:+ reason +:+ ")"))
      | TerminalEvent reason => if cancelling then over "killed" (_gateway_interrupt_chunk "Codex turn interrupted") else over "failed" (error_chunk ("Codex runtime terminated: " +:+ reason))
      | SubscriberOverflow => over "failed" (error_chunk "Codex event stream overflowed")
      end
  end.
End drive.
