(* ===== verification/AppTurnLaws.v ===== *)
(** What a turn of the Codex adapter ([AppTurn]) promises: its chunks are an orderly source for
    the Responses stream, the rows of its subagents are closed, nothing is approved unasked. *)

From S2P Require Import Prelude Json Raise Chunks CollabFilter Progress ResponsesStream ResponsesStreamLaws AppPolicy AppInteraction AppTurn.

(** ** An orderly source *)

Section orderly.
Context (py_repr : Json -> string) (sw : Switches).
Notation orderly := (orderly py_repr sw).

(** Whatever is orderly after the chunks is orderly with them. *)
Definition flows (th : bool) (l : list Json) (th' : bool) : Prop := forall rest, orderly th' rest = true -> orderly th (map (Got 0) l ++ rest) = true.
Lemma flows_nil th : flows th [] th.
Proof using. by intros rest. Qed.
Lemma flows_app th a th1 b th2 : flows th a th1 -> flows th1 b th2 -> flows th (a ++ b) th2.
Proof using. intros H1 H2 rest Hr. rewrite map_app, <- app_assoc. by apply H1, H2. Qed.
Lemma flows_chunk th c th' : aside c || negb (th && speaks sw c) = true -> next_thinking sw th c = th' -> flows th [c] th'.
Proof using. intros H1 H2 rest Hr. cbn [map app ResponsesStreamLaws.orderly]. rewrite H1, H2, Hr. apply orb_true_r. Qed.
Lemma flows_ending th c th' : ends_turn py_repr c = true -> flows th [c] th'.
Proof using. intros H rest _. cbn [map app ResponsesStreamLaws.orderly]. by rewrite H. Qed.

Lemma flows_text t : flows false [_text_delta t] false.
Proof using. by apply flows_chunk. Qed.
Lemma flows_start : flows false [_thinking_start] true.
Proof using. apply flows_chunk; [done|]. unfold next_thinking, thinks. cbn. by destruct (subagent_text sw). Qed.
Lemma flows_thought t : flows true [_thinking_delta t] true.
Proof using. apply flows_chunk; [unfold speaks, cites; cbn; done|]. unfold next_thinking, thinks. cbn. by destruct (subagent_text sw). Qed.
Lemma flows_stop : flows true [_thinking_stop] false.
Proof using. apply flows_chunk; [done|]. unfold next_thinking, thinks. cbn. by destruct (subagent_text sw). Qed.
Lemma flows_assistant b : flows false [assistant_chunk b] false.
Proof using. by apply flows_chunk. Qed.
Lemma flows_user b : flows false [user_chunk b] false.
Proof using. by apply flows_chunk. Qed.
Lemma flows_task th subtype event status : flows th [_task_chunk subtype event status] th.
Proof using. by apply flows_chunk. Qed.
Lemma flows_completion text usage : flows false (completion_chunks text usage) false.
Proof using. apply (flows_app _ [_] false [_]); apply flows_chunk; by destruct usage as [[? ?]|]. Qed.
Lemma flows_error th message th' : flows th [error_chunk message] th'.
Proof using. by apply flows_ending. Qed.
Lemma flows_interrupt th message th' : flows th [_gateway_interrupt_chunk message] th'.
Proof using. by apply flows_ending. Qed.
Lemma flows_drain th status m : flows th (fst (drain_open_subagents status m)) th.
Proof using.
  unfold drain_open_subagents. cbn [fst]. induction (open_subagents m) as [|cp l IH]; [apply flows_nil|]. cbn [map]. apply (flows_app _ [_] th); [apply flows_task|exact IH].
Qed.
Lemma flows_close m : flows (in_reasoning m) (fst (_close_reasoning m)) false /\ in_reasoning (snd (_close_reasoning m)) = false.
Proof using. unfold _close_reasoning. destruct (in_reasoning m) eqn:E; cbn [fst snd]; split; try done; [apply flows_stop|apply flows_nil]. Qed.

Context (json_dumps : Json -> string) (repr : Json -> string).
Notation map_notification := (map_notification json_dumps repr).

(** What a step of the mapper yields, and the block it leaves open; a mapper that has finished has
    none. *)
Definition keeps_flow (m : TurnMapper) (o : list Json * result Exn TurnMapper) : Prop :=
  match snd o with
  | Ok m' => flows (in_reasoning m) (fst o) (in_reasoning m') /\ (finished m = false -> finished m' = true -> in_reasoning m' = false)
  | Err _ => exists th, flows (in_reasoning m) (fst o) th
  end.
Lemma keeps_nothing m : keeps_flow m ([], Ok m).
Proof using. split; [apply flows_nil|congruence]. Qed.
Lemma keeps_closed m l m' : flows false l false -> in_reasoning m' = false -> keeps_flow m (fst (_close_reasoning m) ++ l, Ok m').
Proof using. intros Hl Hm. destruct (flows_close m) as [Hc _]. unfold keeps_flow. cbn [fst snd]. rewrite Hm. split; [by eapply flows_app|done]. Qed.
Lemma finish_flows m : finished m = false -> keeps_flow m (ok (finish m)).
Proof using.
  intros Hf. unfold finish, ok. rewrite Hf. destruct (flows_close m) as [Hc Hi]. destruct (_close_reasoning m) as [a m1]. cbn [fst snd] in *.
  destruct (drain_open_subagents "stopped" m1) as [b m2] eqn:E. pose proof (flows_drain false "stopped" m1) as Hd. rewrite E in Hd. assert (in_reasoning m2 = false) as Hm2 by (by injection E as _ <-).
  unfold keeps_flow. cbn [fst snd]. change (in_reasoning (set_finished (errored m2) m2)) with (in_reasoning m2). rewrite Hm2. split; [|done].
  eapply flows_app; [done|]. eapply flows_app; [done|]. apply flows_completion.
Qed.
Lemma subagent_flows event m : keeps_flow m (ok (_map_subagent event m)).
Proof using.
  unfold _map_subagent. destruct (s_kind event); [destruct (dict_has _ _)| |]; (split; [apply flows_task|cbn; congruence]).
Qed.

Lemma notification_flows m method params : finished m = false -> keeps_flow m (map_notification m method params).
Proof using.
  intros Hf. unfold AppTurn.map_notification. rewrite Hf. cbn [orb]. destruct (negb (is_dict params)); [apply keeps_nothing|].
  destruct (normalize_subagent_event method params) as [[event|]|e]; [apply subagent_flows| |by eexists; apply flows_nil].
  destruct (_is_thread_idle m method params); [by apply finish_flows|]. destruct (other_turn m params); [apply keeps_nothing|].
  destruct (flows_close m) as [Hc Hi].
  destruct (bool_decide (method = "item/agentMessage/delta")).
  { pose proof (keeps_closed m) as H. destruct (_close_reasoning m) as [a m1]. apply H; [|done]. destruct (nonempty _); [apply flows_text|apply flows_nil]. }
  destruct (bool_decide (method = REASONING_DELTA_METHOD)).
  { destruct (nonempty _) as [d|]; [|apply keeps_nothing]. unfold _open_reasoning, keeps_flow. destruct (in_reasoning m) eqn:E; cbn [fst snd].
    - rewrite E. split; [apply flows_thought|congruence].
    - split; [apply (flows_app _ [_] true); [apply flows_start|apply flows_thought]|]. cbn. congruence. }
  destruct (bool_decide (method = REASONING_SUMMARY_DELTA_METHOD)); [apply keeps_nothing|].
  destruct (bool_decide (method = "item/started")).
  { pose proof (keeps_closed m) as H. destruct (_close_reasoning m) as [a m1]. cbn [fst snd] in *. destruct (_tool_use_from_item _) as [[t|]|e].
    - apply H; [apply flows_assistant|done].
    - rewrite <- (app_nil_r a). apply H; [apply flows_nil|done].
    - by eexists. }
  destruct (bool_decide (method = "item/completed")).
  { destruct (negb _); [apply keeps_nothing|]. pose proof (keeps_closed m) as H. destruct (_tool_result_from_item _ _ _) as [[t|]|e]; [| |by eexists; apply flows_nil].
    - destruct (_close_reasoning m) as [a m1]. apply H; [apply flows_user|done].
    - split; [apply flows_nil|cbn; congruence]. }
  destruct (bool_decide (method = "thread/tokenUsage/updated")).
  { destruct (_extract_usage _) as [[u|]|e]; [|apply keeps_nothing|by eexists; apply flows_nil]. split; [apply flows_nil|cbn; congruence]. }
  destruct (bool_decide (method = "turn/completed")); [|apply keeps_nothing].
  destruct (is_str _ "failed"); [|by apply finish_flows]. pose proof (keeps_closed m) as H. destruct (_close_reasoning m) as [a m1]. cbn [fst snd] in *.
  pose proof (flows_drain false "failed" m1) as Hd. destruct (drain_open_subagents "failed" m1) as [b m2] eqn:E. apply H; [|by injection E as _ <-].
  eapply flows_app; [exact Hd|apply flows_error].
Qed.

Context (canonical_id env : string) (permission_mode : option string) (allowed_tools disallowed_tools : option (list string)).
Notation drive := (_drive_turn json_dumps repr canonical_id env permission_mode allowed_tools disallowed_tools).

(** The block a turn leaves open *)
Definition left_open (d : Driven) : bool := match d with Waiting m | Parked m => in_reasoning m | Over _ | Escaped _ => false end.
Definition drives (th : bool) (o : list Json * list Reply * Driven) : Prop :=
  match snd o with
  | Escaped _ => exists th', flows th (fst (fst o)) th'
  | Parked m => exists a card, fst (fst o) = a ++ [assistant_chunk card] /\ flows th a (in_reasoning m)
  | d => flows th (fst (fst o)) (left_open d)
  end.
Lemma drives_over th m status c : flows th [c] false -> drives th (fst (drain_open_subagents status m) ++ [c], [], Over false).
Proof using. intros H. unfold drives. cbn [fst snd left_open]. eapply flows_app; [apply flows_drain|exact H]. Qed.
Lemma drives_more th a th' r replies o : flows th a th' -> drives th' o -> drives th (a ++ fst (fst o), r ++ replies, snd o).
Proof using.
  intros Ha Ho. unfold drives in *. cbn [fst snd]. destruct (snd o); try (by eapply flows_app).
  - destruct Ho as (b & card & -> & Hb). exists (a ++ b), card. split; [by rewrite app_assoc|by eapply flows_app].
  - destruct Ho as [th2 Ho]. exists th2. by eapply flows_app.
Qed.
Lemma parked_card method params id thread turn chunk : _park_interaction repr method params id thread turn = Some chunk -> exists card, chunk = assistant_chunk card.
Proof using. unfold _park_interaction. destruct (negb _); [done|]. intros [= <-]. by eexists. Qed.

Lemma drive_flows arrivals : forall m, finished m = false -> drives (in_reasoning m) (drive m arrivals).
Proof using.
  induction arrivals as [|[cancelling item] arrivals IH]; intros m Hf; cbn [_drive_turn]; [apply flows_nil|]. destruct item as [method params|method params| |method reason|reason| |].
  - destruct (cancelling && _); [apply drives_over, flows_interrupt|]. pose proof (notification_flows m method params Hf) as H.
    destruct (map_notification m method params) as [a [m'|e]]; [|exact H]. destruct H as [Ha Hm]. cbn [fst snd] in *. destruct (finished m') eqn:Hf'.
    + unfold drives. cbn [fst snd left_open]. by rewrite <- (Hm Hf eq_refl).
    + specialize (IH m' Hf'). destruct (drive m' arrivals) as [[b replies] d]. exact (drives_more _ a _ [] replies (b, replies, d) Ha IH).
  - destruct (_auto_decide_interaction _ _ _ _ _ _) as [answer|].
    + specialize (IH m Hf). destruct (drive m arrivals) as [[b replies] d]. exact (drives_more _ [] _ [] (Answered answer :: replies) (b, replies, d) (flows_nil _) IH).
    + destruct (_park_interaction _ _ _ _ _ _) as [chunk|] eqn:E.
      * destruct (parked_card _ _ _ _ _ _ E) as [card ->]. exists [], card. split; [done|apply flows_nil].
      * specialize (IH m Hf). destruct (drive m arrivals) as [[b replies] d]. exact (drives_more _ [] _ [] (FailedClosed :: replies) (b, replies, d) (flows_nil _) IH).
  - by apply IH.
  - apply drives_over, flows_error.
  - destruct cancelling; apply drives_over; [apply flows_interrupt|apply flows_error].
  - apply drives_over, flows_error.
  - destruct cancelling; apply drives_over; [apply flows_interrupt|apply flows_error].
Qed.
End orderly.

(** ** The turn as a source of the Responses stream *)

Definition got (a : Arrival) : option Json := match a with Got _ chunk => Some chunk | _ => None end.
Definition unbroken (a : Arrival) : Prop := match a with Broke _ => False | _ => True end.
(** The chunks arrive, with silences between them, and then what escaped *)
Definition delivers (chunks : list Json) (d : Driven) (arrivals : list Arrival) : Prop :=
  exists l, arrivals = l ++ match d with Escaped e => [Broke e] | _ => [] end /\ omap got l = chunks /\ Forall unbroken l.

Lemma orderly_delivered py_repr sw l tail : Forall unbroken l -> forall th,
  orderly py_repr sw th (map (Got 0) (omap got l) ++ tail) = orderly py_repr sw th (l ++ tail).
Proof.
  induction 1 as [|a l Ha _ IH]; intros th; [done|]. destruct a as [now chunk|now|e]; [|exact (IH th)|done].
  change (omap got (Got now chunk :: l)) with (chunk :: omap got l). cbn [map app orderly]. by rewrite IH.
Qed.
Lemma driven_orderly py_repr sw json_dumps repr id env mode allowed disallowed m items chunks replies d arrivals :
  finished m = false -> in_reasoning m = false -> _drive_turn json_dumps repr id env mode allowed disallowed m items = (chunks, replies, d) ->
  left_open d = false -> delivers chunks d arrivals -> orderly py_repr sw false arrivals = true.
Proof.
  intros Hf Hi E Hl (l & -> & <- & Hu). rewrite <- orderly_delivered by done. pose proof (drive_flows py_repr sw json_dumps repr id env mode allowed disallowed items m Hf) as H.
  rewrite E, Hi in H. unfold drives in H. cbn [fst snd] in H. destruct d as [m'|b|m'|e]; cbn [left_open] in *.
  - rewrite Hl in H. by apply H.
  - by apply H.
  - destruct H as (a & card & -> & H). rewrite Hl in H. apply (flows_app _ _ _ _ _ _ _ H (flows_assistant py_repr sw card)). done.
  - destruct H as [th H]. apply H. done.
Qed.

(** C34. A turn of Codex is a turn of the Responses API. Whatever the app-server notifies, in
    whatever order, with interactions, cancellation, silence, overflow, the loss of the runtime
    or values that cannot be read, the chunks of a turn that starts outside a reasoning block and
    is over, escapes, goes on or parks outside one make, however they are timed, a stream that
    keeps the contract of the events, numbered in order. A turn that is over always does. *)
Theorem codex_turn_conforms json_loads json_dumps repr hex sw turn now pending id env mode allowed disallowed m items chunks replies d arrivals s fs r :
  finished m = false -> in_reasoning m = false ->
  _drive_turn json_dumps repr id env mode allowed disallowed m items = (chunks, replies, d) -> left_open d = false -> delivers chunks d arrivals ->
  stream_response_chunks json_loads json_dumps repr hex sw turn now pending arrivals = (s, fs, r) ->
  exists c, contract_run start fs = Some c /\ numbered 0 fs /\ c_text c = join (all_visible_text s)
  /\ match c_phase c, r with
     | POver v, Ok _ => verdict v s
     | PBody, Ok _ => unfinished s
     | PBody, Err _ => broken_off s
     | _, _ => False
     end.
Proof.
  intros Hf Hi E Hl Hd Hs. pose proof (driven_orderly repr sw _ _ _ _ _ _ _ _ _ _ _ _ _ Hf Hi E Hl Hd) as Ho.
  destruct (stream_conforms json_loads json_dumps repr hex sw turn now pending arrivals s fs r Ho Hs) as (c & H1 & H2 & _ & H3 & H4). by exists c.
Qed.

(** ** Subagents *)

(** The rows a reader of the chunks shows as running: none is started twice. *)
Definition row_step (rows : option (list string)) (chunk : Json) : option (list string) :=
  match rows with
  | None => None
  | Some rows =>
      match is_str (jget_null chunk "type") "system", jget_null chunk "task_id" with
      | true, JStr id =>
          if is_str (jget_null chunk "subtype") "task_started" then (if bool_decide (id ∈ rows) then None else Some (rows ++ [id]))
          else if is_str (jget_null chunk "subtype") "task_progress" then Some rows
          else Some (filter (fun x => x <> id) rows)
      | _, _ => Some rows
      end
  end.
Definition rows_after (rows : list string) (chunks : list Json) : option (list string) := foldl row_step (Some rows) chunks.

Lemma rows_app rows a b : rows_after rows (a ++ b) = match rows_after rows a with Some rows => rows_after rows b | None => None end.
Proof.
  unfold rows_after. rewrite foldl_app. destruct (foldl row_step (Some rows) a); [done|]. induction b as [|c b IH]; [done|exact IH].
Qed.
Lemma rows_cons rows c l : rows_after rows (c :: l) = match rows_after rows [c] with Some rows => rows_after rows l | None => None end.
Proof. exact (rows_app rows [c] l). Qed.
Lemma row_event rows subtype event status : rows_after rows [_task_chunk subtype event status] =
  (if bool_decide (subtype = "task_started") then (if bool_decide (child_id event ∈ rows) then None else Some (rows ++ [child_id event]))
   else if bool_decide (subtype = "task_progress") then Some rows else Some (filter (fun x => x <> child_id event) rows)).
Proof. done. Qed.

Lemma filter_rows_no (id : string) (rows : list string) : id ∉ rows -> filter (fun x => x <> id) rows = rows.
Proof.
  induction rows as [|x rows IH]; [done|]. intros [H1 H2]%not_elem_of_cons. rewrite filter_cons_True by congruence. by rewrite IH.
Qed.
Lemma rows_del (d : odict string (option string)) k : dict_wf d -> filter (fun x => x <> k) (dict_keys d) = dict_keys (dict_del d k).
Proof.
  unfold dict_wf. induction d as [|[k' v] d IH]; [done|]. cbn [dict_keys map fst dict_del]. intros [H1 H2]%NoDup_cons. destruct (decide (k = k')) as [->|Hne].
  - rewrite filter_cons_False by naive_solver. by apply filter_rows_no.
  - rewrite filter_cons_True by congruence. cbn [map fst]. f_equal. by apply IH.
Qed.
Lemma rows_drain status m : dict_wf (open_subagents m) -> rows_after (dict_keys (open_subagents m)) (fst (drain_open_subagents status m)) = Some [].
Proof.
  unfold drain_open_subagents, dict_wf. cbn [fst]. induction (open_subagents m) as [|[k v] l IH]; [done|]. cbn [dict_keys map fst]. intros [H1 H2]%NoDup_cons. cbn [map].
  rewrite rows_cons, row_event. cbn [child_id fst]. rewrite !bool_decide_eq_false_2 by done. rewrite filter_cons_False by naive_solver. rewrite filter_rows_no by done. by apply IH.
Qed.

(** A chunk that is about no task *)
Definition no_row (chunk : Json) : Prop := is_str (jget_null chunk "type") "system" = false.
Lemma rows_none rows l : Forall no_row l -> rows_after rows l = Some rows.
Proof. unfold rows_after. induction 1 as [|c l Hc _ IH]; [done|]. cbn [foldl row_step]. unfold no_row in Hc. by rewrite Hc. Qed.

Section rows.
Context (json_dumps : Json -> string) (repr : Json -> string).

(** The rows are the children the mapper holds open; a finished one holds none. *)
Definition counts (m : TurnMapper) (l : list Json) (m' : TurnMapper) : Prop :=
  rows_after (dict_keys (open_subagents m)) l = Some (dict_keys (open_subagents m')) /\ dict_wf (open_subagents m').
Lemma counts_aside m l m' : dict_wf (open_subagents m) -> Forall no_row l -> open_subagents m' = open_subagents m -> counts m l m'.
Proof using. intros Hw Hl E. split; [rewrite E; by apply rows_none|by rewrite E]. Qed.
Lemma close_aside m : Forall no_row (fst (_close_reasoning m)) /\ open_subagents (snd (_close_reasoning m)) = open_subagents m.
Proof using. unfold _close_reasoning. destruct (in_reasoning m); split; try done; repeat constructor. Qed.
Lemma counts_drained m a b status m' : dict_wf (open_subagents m) -> Forall no_row a -> Forall no_row b -> open_subagents m' = [] ->
  counts m (a ++ fst (drain_open_subagents status m) ++ b) m'.
Proof using.
  intros Hw Ha Hb E. split; [|rewrite E; apply NoDup_nil_2]. rewrite rows_app, (rows_none _ a Ha), rows_app, rows_drain by done. rewrite E. by apply rows_none.
Qed.
Lemma completion_aside text usage : Forall no_row (completion_chunks text usage).
Proof using. repeat constructor. Qed.

Lemma subagent_counts event m : dict_wf (open_subagents m) -> counts m (fst (_map_subagent event m)) (snd (_map_subagent event m)).
Proof using.
  intros Hw. unfold _map_subagent. destruct (s_kind event); [destruct (dict_has (open_subagents m) (child_id event)) eqn:Eh| |].
  - split; [cbn [fst snd]; by rewrite row_event|done].
  - assert (dict_get (open_subagents m) (child_id event) = None) as En.
    { unfold dict_has in Eh. apply bool_decide_eq_false in Eh. destruct (dict_get _ _) eqn:E; [|done]. exfalso. apply Eh. by eexists. }
    assert (child_id event ∉ dict_keys (open_subagents m)) as Hn by (by apply dict_get_None).
    split; [|cbn; by apply dict_wf_set]. cbn [fst snd]. rewrite row_event. rewrite bool_decide_eq_true_2, bool_decide_eq_false_2 by done. f_equal. cbn. rewrite dict_set_new by done. unfold dict_keys. by rewrite map_app.
  - split; [cbn [fst snd]; by rewrite row_event|done].
  - cbn [fst snd]. split; [|cbn; by apply dict_wf_del]. rewrite row_event. cbn [open_subagents set_open_subagents].
    destruct (bool_decide (_ = "completed")); (rewrite !bool_decide_eq_false_2 by done); by rewrite rows_del.
Qed.
Lemma finish_counts m : dict_wf (open_subagents m) -> finished m = false -> counts m (fst (finish m)) (snd (finish m)) /\ open_subagents (snd (finish m)) = [].
Proof using.
  intros Hw Hf. unfold finish. rewrite Hf. destruct (close_aside m) as [Ha E]. destruct (_close_reasoning m) as [a m1]. cbn [fst snd] in *. split; [|done].
  unfold drain_open_subagents. cbn [fst snd]. rewrite E. apply (counts_drained m a _ "stopped"); [done|done|apply completion_aside|done].
Qed.
Lemma notification_counts m method params : dict_wf (open_subagents m) -> finished m = false ->
  match map_notification json_dumps repr m method params with
  | (a, Ok m') => counts m a m' /\ (finished m' = true -> open_subagents m' = [])
  | (a, Err _) => Forall no_row a
  end.
Proof using.
  intros Hw Hf. assert (forall l m', Forall no_row l -> open_subagents m' = open_subagents m -> finished m' = finished m ->
    counts m l m' /\ (finished m' = true -> open_subagents m' = [])) as Haside by (intros l m' Hl E Ef; split; [by apply counts_aside|congruence]).
  unfold map_notification. rewrite Hf. cbn [orb]. destruct (negb (is_dict params)); [by apply Haside|].
  destruct (normalize_subagent_event method params) as [[event|]|e]; [| |done].
  { split; [by apply subagent_counts|]. unfold ok. cbn [snd]. unfold _map_subagent. destruct (s_kind event); [destruct (dict_has _ _)| |]; cbn; congruence. }
  destruct (finish_counts m Hw Hf) as [Hfin Hfo].
  destruct (_is_thread_idle m method params); [by split|]. destruct (other_turn m params); [by apply Haside|].
  destruct (close_aside m) as [Ha E]. assert (finished (snd (_close_reasoning m)) = finished m) as Ef by (unfold _close_reasoning; by destruct (in_reasoning m)).
  destruct (bool_decide (method = "item/agentMessage/delta")).
  { destruct (_close_reasoning m) as [a m1]. apply Haside; [|done..]. apply Forall_app; split; [done|]. destruct (nonempty _); by repeat constructor. }
  destruct (bool_decide (method = REASONING_DELTA_METHOD)).
  { destruct (nonempty _) as [d|]; [|by apply Haside]. unfold _open_reasoning. destruct (in_reasoning m); apply Haside; try done; repeat constructor. }
  destruct (bool_decide (method = REASONING_SUMMARY_DELTA_METHOD)); [by apply Haside|].
  destruct (bool_decide (method = "item/started")).
  { destruct (_close_reasoning m) as [a m1]. destruct (_tool_use_from_item _) as [[t|]|e]; [| |done]; (apply Haside; [|done..]); [|done]. apply Forall_app; split; [done|by repeat constructor]. }
  destruct (bool_decide (method = "item/completed")).
  { destruct (negb _); [by apply Haside|]. destruct (_tool_result_from_item _ _ _) as [[t|]|e]; [| |done]; [|by apply Haside]. destruct (_close_reasoning m) as [a m1].
    apply Haside; [|done..]. apply Forall_app; split; [done|by repeat constructor]. }
  destruct (bool_decide (method = "thread/tokenUsage/updated")).
  { destruct (_extract_usage _) as [[u|]|e]; [by apply Haside|by apply Haside|done]. }
  destruct (bool_decide (method = "turn/completed")); [|by apply Haside].
  destruct (is_str _ "failed"); [|by split]. destruct (_close_reasoning m) as [a m1]. cbn [fst snd] in *. unfold drain_open_subagents. split; [|done]. rewrite E.
  apply (counts_drained m a _ "failed"); [done..| |done]. by repeat constructor.
Qed.

Context (canonical_id env : string) (permission_mode : option string) (allowed_tools disallowed_tools : option (list string)).
Notation drive := (_drive_turn json_dumps repr canonical_id env permission_mode allowed_tools disallowed_tools).

(** The rows a turn leaves open: those of the children its mapper holds open, none when it is over *)
Definition leaves_open (d : Driven) (rows : list string) : Prop :=
  match d with Waiting m | Parked m => rows = dict_keys (open_subagents m) | Over _ => rows = [] | Escaped _ => True end.
Definition accounts (m : TurnMapper) (o : list Json * list Reply * Driven) : Prop :=
  exists rows, rows_after (dict_keys (open_subagents m)) (fst (fst o)) = Some rows /\ leaves_open (snd o) rows.
Lemma accounts_over m status c : dict_wf (open_subagents m) -> no_row c -> accounts m (fst (drain_open_subagents status m) ++ [c], [], Over false).
Proof using. intros Hw Hc. exists []. cbn [fst snd]. rewrite rows_app, rows_drain by done. split; [|done]. apply rows_none. by constructor. Qed.

Lemma drive_accounts arrivals : forall m, dict_wf (open_subagents m) -> finished m = false -> accounts m (drive m arrivals).
Proof using.
  induction arrivals as [|[cancelling item] arrivals IH]; intros m Hw Hf; cbn [_drive_turn]; [by eexists|]. destruct item as [method params|method params| |method reason|reason| |].
  - destruct (cancelling && _); [by apply accounts_over|]. pose proof (notification_counts m method params Hw Hf) as H.
    destruct (map_notification json_dumps repr m method params) as [a [m'|e]]; [|eexists; split; [by apply rows_none|done]]. destruct H as [[Ha Hw'] Hm]. destruct (finished m') eqn:Hf'.
    + exists []. split; [|done]. cbn [fst]. by rewrite Ha, Hm.
    + destruct (IH m' Hw' Hf') as (rows & Hr & Hl). destruct (drive m' arrivals) as [[b replies] d]. exists rows. cbn [fst snd] in *. by rewrite rows_app, Ha.
  - destruct (_auto_decide_interaction _ _ _ _ _ _) as [answer|].
    + specialize (IH m Hw Hf). by destruct (drive m arrivals) as [[b replies] d].
    + destruct (_park_interaction _ _ _ _ _ _) as [chunk|] eqn:E.
      * destruct (parked_card repr _ _ _ _ _ _ E) as [card ->]. by eexists.
      * specialize (IH m Hw Hf). by destruct (drive m arrivals) as [[b replies] d].
  - by apply IH.
  - by apply accounts_over.
  - destruct cancelling; by apply accounts_over.
  - by apply accounts_over.
  - destruct cancelling; by apply accounts_over.
Qed.
End rows.

(** C35. No subagent is left running by a turn that ends. Over a whole turn, with everything the
    app-server may notify and every way the turn may end, no row of a subagent is started while
    it is open; a turn that its loop ends (completed, failed, interrupted, stalled, terminated,
    overflown, ambiguous) has closed every row it started, and one that goes on or is parked
    shows exactly the children the mapper will close. A turn that ends because reading a
    notification raised is excepted: rows it started may stay open. *)
Theorem subagent_rows_are_closed json_dumps repr id env mode allowed disallowed thread turn items chunks replies d :
  _drive_turn json_dumps repr id env mode allowed disallowed (new_mapper thread turn) items = (chunks, replies, d) ->
  exists rows, rows_after [] chunks = Some rows
  /\ match d with Over _ => rows = [] | Waiting m | Parked m => rows = dict_keys (open_subagents m) | Escaped _ => True end.
Proof.
  intros E. pose proof (drive_accounts json_dumps repr id env mode allowed disallowed items (new_mapper thread turn)) as H. rewrite E in H.
  apply H; [apply NoDup_nil_2|done].
Qed.

(** What is answered without the user: a denial, or the acceptance of an edit in the mode that
    accepts them *)
Definition unasked (env : string) (mode : option string) (allowed disallowed : option (list string)) (r : Reply) : Prop :=
  match r with
  | Answered a => a = JObj [("decision", JStr "decline")] \/ a = JObj [("permissions", JObj []); ("scope", JStr "turn")]
                  \/ (a = JObj [("decision", JStr "accept")] /\ mode = Some "acceptEdits"
                      /\ exists params, should_auto_deny_approval env "item/fileChange/requestApproval" params allowed disallowed = false)
  | FailedClosed => True
  end.
Lemma auto_decided env method params mode allowed disallowed a : _auto_decide_interaction env method params mode allowed disallowed = Some a -> unasked env mode allowed disallowed (Answered a).
Proof.
  unfold _auto_decide_interaction. set (p := if is_dict params then params else JObj []). destruct (should_auto_deny_approval env method p allowed disallowed) eqn:Ed; cbn [negb andb].
  - intros [= <-]. cbn. destruct (bool_decide (method = PERMISSIONS_APPROVAL)); auto.
  - destruct (should_auto_accept_approval method mode) eqn:Ea; cbn [negb]; [|done]. intros [= <-]. unfold should_auto_accept_approval in Ea.
    apply andb_true_iff in Ea as [E1 E2]. apply bool_decide_eq_true in E1, E2. subst. right. right. split; [done|]. split; [done|]. by exists p.
Qed.
Theorem nothing_is_approved_unasked json_dumps repr id env mode allowed disallowed items : forall m,
  Forall (unasked env mode allowed disallowed) (snd (fst (_drive_turn json_dumps repr id env mode allowed disallowed m items))).
Proof.
  induction items as [|[cancelling item] items IH]; intros m; cbn [_drive_turn]; [constructor|]. destruct item as [method params|method params| |method reason|reason| |].
  - destruct (cancelling && _); [constructor|]. destruct (map_notification json_dumps repr m method params) as [a [m'|e]]; [|constructor]. destruct (finished m'); [constructor|].
    specialize (IH m'). by destruct (_drive_turn _ _ _ _ _ _ _ m' items) as [[b replies] d].
  - specialize (IH m). destruct (_auto_decide_interaction env method params mode allowed disallowed) as [answer|] eqn:E.
    + destruct (_drive_turn _ _ _ _ _ _ _ m items) as [[b replies] d]. constructor; [by eapply auto_decided|done].
    + destruct (_park_interaction _ _ _ _ _ _); [constructor|]. destruct (_drive_turn _ _ _ _ _ _ _ m items) as [[b replies] d]. by constructor.
  - apply IH.
  - constructor.
  - destruct cancelling; constructor.
  - constructor.
  - destruct cancelling; constructor.
Qed.

(** ** Examples *)

Definition note (method : string) (params : list (string * Json)) : bool * Item := (false, Notification method (JObj params)).
Definition think (t : string) : bool * Item := note "item/reasoning/textDelta" [("delta", JStr t)].
Definition tells (t : string) : bool * Item := note "item/agentMessage/delta" [("delta", JStr t)].
Definition spawns (child : string) : bool * Item := note "thread/started" [("thread", JObj [("id", JStr child); ("parentThreadId", JStr "t")])].
Definition completes : bool * Item := note "turn/completed" [("turn", JObj [("id", JStr "u"); ("status", JStr "completed")])].
Definition asks : bool * Item :=
  (false, PendingInteraction USER_INPUT (JObj [("questions", JArr [JObj [("id", JStr "a"); ("question", JStr "Color?"); ("options", JArr [JStr "red"; JStr "blue"])]])])).
Definition blank (v : Json) : string := "".
Definition never_json (s : string) : result Exn Json := Err JSONDecodeError.
Definition drive_sample (m : TurnMapper) (items : list (bool * Item)) : list Json * list Reply * Driven := _drive_turn blank blank "id" "" None None None m items.
Definition render (chunks : list Json) : St * list Frame * result Raised unit :=
  stream_response_chunks never_json blank blank pretty.pretty no_switches claude_turn 0 false (map (Got 0) chunks).
Definition codex : TurnMapper := new_mapper (Some "t") (Some "u").
Definition sample_items : list (bool * Item) :=
  [think "hmm"; spawns "c"; tells "Hi"; note "item/started" [("item", JObj [("id", JStr "x"); ("type", JStr "commandExecution"); ("command", JStr "ls")])]; completes].
Definition sample_chunks : list Json := Eval vm_compute in fst (fst (drive_sample codex sample_items)).
Definition sample_state : St := Eval vm_compute in fst (fst (render sample_chunks)).
Definition sample_events : list Frame := Eval vm_compute in snd (fst (render sample_chunks)).

Lemma codex_turn_conforms_witness : length sample_chunks = 9%nat /\ exists c, contract_run start sample_events = Some c /\ c_text c = "Hi".
Proof.
  assert (_drive_turn blank blank "id" "" None None None codex sample_items = (sample_chunks, [], Over true)) as Hd by (vm_compute; reflexivity).
  assert (stream_response_chunks never_json blank blank pretty.pretty no_switches claude_turn 0 false (map (Got 0) sample_chunks) = (sample_state, sample_events, Ok tt)) as Hs
    by (vm_compute; reflexivity).
  assert (delivers sample_chunks (Over true) (map (Got 0) sample_chunks)) as Hg.
  { exists (map (Got 0) sample_chunks). split; [symmetry; apply app_nil_r|]. split; [vm_compute; reflexivity|]. apply List.Forall_forall. intros a Ha. apply in_map_iff in Ha as (x & <- & _). exact I. }
  split; [vm_compute; reflexivity|].
  destruct (codex_turn_conforms never_json blank blank pretty.pretty no_switches claude_turn 0 false "id" "" None None None codex sample_items
    sample_chunks [] (Over true) (map (Got 0) sample_chunks) sample_state sample_events (Ok tt) eq_refl eq_refl Hd eq_refl Hg Hs) as (c & H1 & _ & H3 & _).
  exists c. split; [exact H1|]. rewrite H3. vm_compute. reflexivity.
Defined.

Lemma subagent_rows_are_closed_witness : length (filter (fun c => is_str (jget_null c "type") "system" = true) sample_chunks) = 2%nat
  /\ exists rows, rows_after [] sample_chunks = Some rows /\ rows = [].
Proof.
  assert (_drive_turn blank blank "id" "" None None None (new_mapper (Some "t") (Some "u")) sample_items = (sample_chunks, [], Over true)) as Hd by (vm_compute; reflexivity).
  split; [vm_compute; reflexivity|].
  exact (subagent_rows_are_closed blank blank "id" "" None None None (Some "t") (Some "u") sample_items sample_chunks [] (Over true) Hd).
Defined.

(** A turn that parks while it reasons, and reasons on when it is resumed, says its reasoning: the
    mapper still holds the block open and announces it no more. *)
Example resumed_reasoning_is_said :
  let first := drive_sample codex [think "hmm"; asks] in
  match snd first with
  | Parked m => join (all_visible_text (fst (fst (render (fst (fst (drive_sample m [think "secret plan. "; tells "Red."; completes])))))))
  | _ => ""
  end = "secret plan. Red.".
Proof. vm_compute. reflexivity. Qed.
(** A count that is not a number escapes the loop, and the rows of the subagents stay. *)
Example unreadable_usage_escapes :
  let '(chunks, _, d) := drive_sample codex [spawns "c"; note "thread/tokenUsage/updated" [("tokenUsage", JObj [("last", JObj [("inputTokens", JStr "many")])])]] in
  d = Escaped ValueError /\ rows_after [] chunks = Some ["c"].
Proof. vm_compute. done. Qed.
